(* ===== verification/_CoqProject ===== *)
-Q . S2P
Prelude.v
Endian.v
Intset.v
Util.v
Glob.v
Dict.v
DictScan.v
Sds.v
SdsText.v
Protocol.v
Multi.v
Pubsub.v
Bits.v
BitCommands.v
Adlist.v
Lzf.v
Crc.v
Rio.v
Rdb.v
RdbFile.v
Tset.v
RdbObject.v
Zskiplist.v
ZskiplistSpec.v
Zset.v
ZsetRange.v
Ziplist.v
ZiplistEdit.v
ZiplistSpec.v
Thash.v
Quicklist.v
QuicklistShape.v
QuicklistEnds.v
QuicklistSpec.v
Tlist.v
Blocked.v
Keyspace.v
Tstring.v
