(* ===== verification/Prelude.v ===== *)
(** * Verification of the Redis core bundled with blockchain-project

    The repository is a JavaScript demonstration that starts the Redis server
    it carries in [src/redis-stable] (Redis 6.0, C).  The development models
    the data structures, the request parser, the transaction and
    publish/subscribe state machines, the keyspace with its expire times, the
    string, list, set, hash and sorted set types, the bit commands and the RDB
    file format of that server, and proves them correct.
    Paths below are relative to [src/redis-stable/src].

    ** Parts of the program and files

    - endianconv.c: [Endian].  The host byte order is a parameter wherever the
      code depends on it.
    - intset.c: [Intset], sorted arrays of 16, 32 or 64 bit integers down to
      their bytes.  It is an encoding of sets and of RDB values.
    - util.c: [Util] (numbers and strings) and [Glob] (glob patterns, which
      PSUBSCRIBE uses).
    - dict.c: [Dict], the hash table with incremental rehashing; [DictScan],
      the cursor of SCAN.  The other files use finite maps where the code uses
      dicts, which is what [Dict.dict_implements_map] justifies.
    - sds.c: [Sds] (strings with their headers and their memory) and [SdsText]
      (numbers, splitting, quoting).
    - networking.c: [Protocol], the parser of requests on the query buffer and
      what drives it: reads in the main thread or the I/O threads, blocked and
      unblocked clients.  Executing a command is an arbitrary function, which
      can block, close or free the client.
    - multi.c: [Multi]; pubsub.c: [Pubsub], which calls [Glob].
    - bitops.c: [Bits] (the routines on memory) and [BitCommands].
    - adlist.c: [Adlist], doubly linked lists on a heap.
    - lzf_c.c, lzf_d.c: [Lzf]; crc64.c, crcspeed.c, crc16.c and keyHashSlot of
      cluster.c: [Crc]; rio.c: [Rio], streams over a class of backends with
      a class of checksums that [Crc] implements.
    - rdb.c: [Rdb] (the encodings, which call [Rio], [Lzf] and [Util]),
      [RdbFile] (whole files, over a class of values; the access times of
      evict.c) and [RdbObject] (strings and sets, which implement that class).
    - t_set.c: [Tset], sets in both encodings and the commands on a keyspace.
    - t_hash.c: [Thash], hashes in both encodings, over [ZiplistSpec], and the
      commands on a keyspace.
    - t_zset.c: [Zskiplist] (skip lists on a heap), [ZskiplistSpec] (ranges,
      ranks, creation and release), [Zset] (hash table and skip list) and
      [ZsetRange] (the commands on ranges, sequences of operations).
    - ziplist.c: [Ziplist] (the operations on the block of memory, the layout
      of its entries and the cascade), [ZiplistEdit] (insertion and deletion)
      and [ZiplistSpec] (reading, merging, sequences of operations).
    - quicklist.c: [Quicklist] (the operations, on a heap of nodes that hold
      ziplists or blocks compressed by [Lzf]), [QuicklistShape] (the data of a
      node, the linked nodes, compression at a depth, linking and unlinking),
      [QuicklistEnds] (pushes, pops and rotations at every depth) and
      [QuicklistSpec] (positions, splitting and merging nodes, ranges,
      iterators, sequences of operations).  They use ziplists through
      [ZiplistSpec] and compression through its round trip.
    - t_list.c: [Tlist], lists over [QuicklistSpec], and the commands on a
      keyspace; blocked.c and the blocking commands of t_list.c: [Blocked],
      the queues of waiting clients and the ready keys, over [Tlist].
    - db.c, expire.c: [Keyspace], the databases, keys that expire when they are
      accessed or sampled, and the commands on keys of any type, in a state
      monad; t_string.c: [Tstring], the string commands over it.  The
      specification is a map from which keys disappear at their times.

    ** How the code is modelled

    A C integer is a [Z] with its conversions written out ([wrapu], [wraps]
    below); a byte string is a [list Z].  State is passed explicitly.  A
    function that can fail an assertion, read or write outside its memory,
    follow a NULL or freed pointer or overflow a signed integer returns an
    [option], and [None] stands for those; the theorems prove that the result
    is [Some], so they are also proofs of memory safety.  Errors that the code
    reports are values.  What zmalloc and zrealloc return (addresses, the
    bytes of fresh memory) is a parameter or a class, as are the clock, the
    random numbers and the compilation options of the host.

    Loops that are not structural have fuel.  The fuel is the number of
    elements, bytes or bits the loop consumes, computed from its arguments,
    and running out of fuel is [None], so the same theorems show that it is
    enough.

    ** What the theorems show

    - Refinement of an abstract specification for every sequence of
      operations: [Dict], [Sds], [Multi], [Pubsub], [Adlist], [Tset],
      [Thash], [ZsetRange], [ZiplistSpec], [QuicklistEnds], [QuicklistSpec],
      [Tlist], [Keyspace] and [Tstring] (with time that passes and active
      expiration in between).
    - Changes are signalled to the clients that watch keys: [Tset], [Thash],
      [Tlist], [Tstring].
    - Functional correctness of the operations on every branch: [Intset],
      [Util], [Glob], [Protocol], [Bits], [BitCommands], [Crc].
    - Round trips: LZF, the quoting of sds.c, bit fields, RDB strings, values
      and whole files, with a short read on every strict prefix.
    - Equivalence of an optimised routine with a reference: population count,
      BITOP, the sliced CRC-64.
    - Safety on arbitrary input: the request parser for any sequence of events
      of a client and any effect of the commands, the LZF decompressor;
      completeness and termination of SCAN.
    - What the checksum of an RDB file protects, and what not
      ([RdbFile.rdb_corruption_detected]).
    - Clients that wait for lists: in every sequence of commands and timeouts
      none of them waits for a list that exists, and they are served in the
      order in which they were blocked ([Blocked]).
    - Where the code fails: the head of a list compressed by a read
      ([Tlist.list_head_compressed]), ranges deleted from inside a node
      ([QuicklistSpec.quicklist_delrange_inside]), insertions at an index
      counted from the tail ([QuicklistSpec.quicklist_insert_negative]), the tables of crc64 on
      big-endian hosts ([Crc.crc64_big_endian]).

    The theorems that are the main properties have a comment with a number;
    a theorem with hypotheses is followed by a witness, which applies it to a
    concrete input.

    ** Bounds

    The bounds in the theorems are those of the code: lengths below the limits
    of the types that hold them (2^32 elements for intsets and skip lists,
    2^32 bytes for ziplists, 2^63 for sds strings and counters), 64-bit hosts,
    512 MB bulk arguments.  For quicklists and lists the strings together stay
    below 2 GB, so that any one ziplist that holds some of them and a copy of it
    fit in 2^32 bytes.

    ** Not modelled

    - system calls, sockets and the event loop (ae.c, anet.c, networking.c
      apart from the parser, replication.c, sentinel.c, the cluster bus,
      aof.c, bio.c): the behaviour is that of the operating system;
    - floating point conversions to and from text (strtod, printf) and
      addition, which is a parameter of [Zset];
    - the compact containers listpack.c and rax.c, and with them streams; the
      ziplist encoding of sorted sets; clients blocked on sorted sets and
      streams; the RDB forms of lists, hashes and sorted sets, which are a class
      of [RdbFile];
    - how active expiration chooses keys, the replication of writes to a
      replica, eviction, configuration, statistics, modules, scripting and the
      command line tools;
    - iterators and random keys of dict.c, sdscatfmt, the set commands that
      draw random elements. *)
From stdpp Require Export base list numbers option gmap.
From Stdlib Require Export ZArith Lia.

#[global] Open Scope Z_scope.

(** ** Machine integers

    A [w]-bit C integer is a [Z]; [wrapu w] and [wraps w] are the conversions
    to the unsigned and to the (two's complement) signed type of that width. *)
Definition wrapu (w z : Z) : Z := z mod 2 ^ w.
Definition wraps (w z : Z) : Z := (z + 2 ^ (w - 1)) mod 2 ^ w - 2 ^ (w - 1).

Abbreviation u8 := (wrapu 8).
Abbreviation u16 := (wrapu 16).
Abbreviation u32 := (wrapu 32).
Abbreviation u64 := (wrapu 64).
Abbreviation s8 := (wraps 8).
Abbreviation s16 := (wraps 16).
Abbreviation s32 := (wraps 32).
Abbreviation s64 := (wraps 64).

Definition ULLONG_MAX : Z := 18446744073709551615.
Definition LLONG_MAX : Z := 9223372036854775807.
Definition LLONG_MIN : Z := -9223372036854775808.

(** [in_s w v]: [v] is a value of the signed [w]-bit type. *)
Definition in_s (w v : Z) : Prop := - 2 ^ (w - 1) <= v < 2 ^ (w - 1).
Definition in_u (w v : Z) : Prop := 0 <= v < 2 ^ w.

(** ** Bytes and memory blocks *)
Definition byte_ok (b : Z) : Prop := 0 <= b < 256.
Abbreviation bytes_ok := (Forall byte_ok).

Definition zlen {A} (l : list A) : Z := Z.of_nat (length l).

(** [load m off n] reads [n] bytes at [off]; [store m off bs] overwrites them.
    Both fail outside the block, so a definedness theorem is a memory-safety
    theorem. *)
Definition load (m : list Z) (off n : Z) : option (list Z) :=
  if (0 <=? off) && (0 <=? n) && (off + n <=? zlen m)
  then Some (take (Z.to_nat n) (drop (Z.to_nat off) m)) else None.

Definition store (m : list Z) (off : Z) (bs : list Z) : option (list Z) :=
  if (0 <=? off) && (off + zlen bs <=? zlen m)
  then Some (take (Z.to_nat off) m ++ bs ++ drop (Z.to_nat off + length bs) m) else None.

Definition load1 (m : list Z) (off : Z) : option Z :=
  if 0 <=? off then m !! Z.to_nat off else None.

(** [memmove(dst, src, n)] inside one block. *)
Definition memmove (m : list Z) (dst src n : Z) : option (list Z) :=
  match load m src n with Some bs => store m dst bs | None => None end.

(** [realloc]: the common prefix is kept, the bytes beyond it are whatever the
    allocator returns ([junk]). *)
Definition realloc (junk : nat -> Z) (m : list Z) (n : Z) : list Z :=
  take (Z.to_nat n) m ++
  map (fun i => u8 (junk i)) (seq (length m) (Z.to_nat n - length m)).

(** Little-endian representation of an integer in [n] bytes. *)
Fixpoint le_bytes (n : nat) (z : Z) : list Z :=
  match n with O => [] | S n => z mod 256 :: le_bytes n (z / 256) end.
Fixpoint le_val (l : list Z) : Z :=
  match l with [] => 0 | b :: l => b + 256 * le_val l end.

(** ** ctype.h, C locale *)
Definition isdigit (c : Z) : bool := (48 <=? c) && (c <=? 57).
Definition isupper (c : Z) : bool := (65 <=? c) && (c <=? 90).
Definition islower (c : Z) : bool := (97 <=? c) && (c <=? 122).
Definition tolower (c : Z) : Z := if isupper c then c + 32 else c.
Definition toupper (c : Z) : Z := if islower c then c - 32 else c.
Definition isspace (c : Z) : bool := (c =? 32) || ((9 <=? c) && (c <=? 13)).
Definition isprint (c : Z) : bool := (32 <=? c) && (c <=? 126).

(** Byte strings written as Rocq strings. *)
Definition bytes_of_string (s : String.string) : list Z :=
  map (fun c => Z.of_nat (Ascii.nat_of_ascii c)) (String.list_ascii_of_string s).

(** Reading a byte, as C writes it. *)
Declare Scope cmem_scope.
Delimit Scope cmem_scope with cmem.
Notation "m .[ i ]" := (load1 m i) (at level 1, i at level 200, left associativity, format "m .[ i ]") : cmem_scope.

(** ** Dictionaries used as maps
    dictNext walks a dictionary in an order of its own. *)
Class DictOrder := {
  entries {V} : gmap (list Z) V -> list (list Z * V);
  entries_perm {V} (m : gmap (list Z) V) : entries m ≡ₚ map_to_list m
}.

(** ** Tactics *)
Ltac zb :=
  repeat match goal with
  | H : (_ <=? _) = true |- _ => apply Z.leb_le in H
  | H : (_ <=? _) = false |- _ => apply Z.leb_gt in H
  | H : (_ <? _) = true |- _ => apply Z.ltb_lt in H
  | H : (_ <? _) = false |- _ => apply Z.ltb_ge in H
  | H : (_ =? _) = true |- _ => apply Z.eqb_eq in H
  | H : (_ =? _) = false |- _ => apply Z.eqb_neq in H
  | H : (_ && _)%bool = true |- _ => apply andb_true_iff in H as [? ?]
  | H : (_ || _)%bool = false |- _ => apply orb_false_iff in H as [? ?]
  end.

(** Split every boolean integer comparison the goal branches on. *)
Ltac zcase :=
  repeat match goal with
  | |- context [if ?a <=? ?b then _ else _] => destruct (Z.leb_spec a b)
  | |- context [if ?a <? ?b then _ else _] => destruct (Z.ltb_spec a b)
  | |- context [if ?a =? ?b then _ else _] => destruct (Z.eqb_spec a b)
  end.

(** Evaluate powers of two with literal exponents, then linear arithmetic. *)
Ltac zpow :=
  repeat match goal with
  | |- context [2 ^ ?n] =>
      lazymatch isZcst n with true => idtac end;
      let v := eval vm_compute in (2 ^ n) in change (2 ^ n) with v
  | H : context [2 ^ ?n] |- _ =>
      lazymatch isZcst n with true => idtac end;
      let v := eval vm_compute in (2 ^ n) in change (2 ^ n) with v in H
  end.
Ltac plia := zpow; lia.

(** ** Wrap-around *)
Lemma wrapu_small w z : 0 <= z < 2 ^ w -> wrapu w z = z.
Proof. apply Z.mod_small. Qed.

Lemma wrapu_range w z : 0 <= w -> 0 <= wrapu w z < 2 ^ w.
Proof. intros. apply Z.mod_pos_bound. lia. Qed.

Lemma wraps_small w z : in_s w z -> 0 < w -> wraps w z = z.
Proof.
  unfold in_s, wraps. intros H Hw.
  assert (2 ^ w = 2 * 2 ^ (w - 1)) by (rewrite <- Z.pow_succ_r by lia; f_equal; lia).
  rewrite Z.mod_small; lia.
Qed.

Lemma wraps_wrapu w z : 0 < w -> wraps w (wrapu w z) = wraps w z.
Proof. intros. unfold wraps, wrapu. now rewrite Zplus_mod_idemp_l. Qed.

Lemma wraps_range w z : 0 < w -> in_s w (wraps w z).
Proof.
  intros Hw. unfold in_s, wraps.
  assert (2 ^ w = 2 * 2 ^ (w - 1)) by (rewrite <- Z.pow_succ_r by lia; f_equal; lia).
  assert (0 < 2 ^ (w - 1)) by lia.
  pose proof (Z.mod_pos_bound (z + 2 ^ (w - 1)) (2 ^ w)). lia.
Qed.

(** Bits above the width, and fields side by side. *)
Lemma testbit_above w a n : 0 <= a < 2 ^ w -> 0 <= w <= n -> Z.testbit a n = false.
Proof.
  intros Ha Hn. destruct (Z.eq_dec a 0) as [->|]; [apply Z.bits_0|]. apply Z.bits_above_log2; [lia|]. enough (Z.log2 a < w) by lia. apply Z.log2_lt_pow2; lia.
Qed.
Lemma lor_shiftl a b n : 0 <= n -> 0 <= a < 2 ^ n -> Z.lor a (Z.shiftl b n) = a + 2 ^ n * b.
Proof.
  intros Hn Ha. assert (E : Z.land a (Z.shiftl b n) = 0).
  { apply Z.bits_inj'. intros i Hi. rewrite Z.land_spec, Z.bits_0. destruct (Z.ltb_spec i n); [by rewrite Z.shiftl_spec_low, andb_false_r by lia|]. by rewrite (testbit_above n a i) by lia. }
  rewrite <- Z.lxor_lor, <- Z.add_nocarry_lxor by exact E. rewrite Z.shiftl_mul_pow2 by lia. lia.
Qed.

(** ** Little-endian integers *)
Lemma le_bytes_length n z : length (le_bytes n z) = n.
Proof. revert z; induction n; intros; simpl; auto. Qed.

Lemma le_bytes_ok n z : bytes_ok (le_bytes n z).
Proof.
  revert z; induction n; intros; simpl; constructor; auto.
  unfold byte_ok. pose proof (Z.mod_pos_bound z 256). lia.
Qed.

Lemma pow256_S n : 2 ^ (8 * Z.of_nat (S n)) = 256 * 2 ^ (8 * Z.of_nat n).
Proof.
  replace (8 * Z.of_nat (S n)) with (8 + 8 * Z.of_nat n) by lia.
  rewrite Z.pow_add_r by lia. reflexivity.
Qed.

Lemma le_val_le_bytes n z : le_val (le_bytes n z) = wrapu (8 * Z.of_nat n) z.
Proof.
  unfold wrapu. revert z; induction n; intros; [simpl; now rewrite Z.mod_1_r|].
  simpl le_bytes. simpl le_val. rewrite IHn, pow256_S.
  rewrite Z.rem_mul_r; [lia|lia|apply Z.pow_pos_nonneg; lia].
Qed.

Lemma le_val_range l : bytes_ok l -> 0 <= le_val l < 2 ^ (8 * zlen l).
Proof.
  unfold zlen. induction 1 as [|b l Hb _ IH]; [simpl; lia|].
  simpl length. rewrite pow256_S. simpl le_val. unfold byte_ok in Hb. lia.
Qed.

Lemma le_bytes_le_val l : bytes_ok l -> le_bytes (length l) (le_val l) = l.
Proof.
  induction 1 as [|b l Hb _ IH]; [done|]. simpl. unfold byte_ok in Hb. f_equal.
  - rewrite Z.mul_comm, Z.mod_add, Z.mod_small by lia. done.
  - rewrite Z.mul_comm, Z.div_add, Z.div_small, Z.add_0_l by lia. done.
Qed.

Lemma wraps_le_val n v :
  in_s (8 * Z.of_nat n) v -> (0 < n)%nat ->
  wraps (8 * Z.of_nat n) (le_val (le_bytes n v)) = v.
Proof. intros. rewrite le_val_le_bytes, wraps_wrapu by lia. apply wraps_small; [done|lia]. Qed.

(** ** Loads and stores *)
Lemma zlen_app {A} (l k : list A) : zlen (l ++ k) = zlen l + zlen k.
Proof. unfold zlen. rewrite length_app. lia. Qed.

Lemma zlen_cons {A} (x : A) l : zlen (x :: l) = 1 + zlen l.
Proof. unfold zlen. simpl. lia. Qed.

Lemma zlen_nonneg {A} (l : list A) : 0 <= zlen l.
Proof. unfold zlen. lia. Qed.

Lemma load_app (a bs c : list Z) off n :
  off = zlen a -> n = zlen bs -> load (a ++ bs ++ c) off n = Some bs.
Proof.
  intros -> ->. unfold load.
  rewrite !zlen_app. pose proof (zlen_nonneg a). pose proof (zlen_nonneg bs).
  pose proof (zlen_nonneg c).
  replace (_ && _) with true by (symmetry; rewrite !andb_true_iff, !Z.leb_le; lia).
  unfold zlen. rewrite !Nat2Z.id, drop_app_length, take_app_length. done.
Qed.

Lemma store_app (a bs bs' c : list Z) off :
  off = zlen a -> zlen bs = zlen bs' ->
  store (a ++ bs ++ c) off bs' = Some (a ++ bs' ++ c).
Proof.
  intros -> Hl. unfold store.
  rewrite !zlen_app. pose proof (zlen_nonneg a). pose proof (zlen_nonneg bs).
  pose proof (zlen_nonneg c).
  replace (_ && _) with true by (symmetry; rewrite !andb_true_iff, !Z.leb_le; lia).
  unfold zlen in *. rewrite !Nat2Z.id, take_app_length.
  replace (length a + length bs')%nat with (length (a ++ bs)) by (rewrite length_app; lia).
  now rewrite (assoc_L _ a bs c), drop_app_length.
Qed.

Lemma store_head (bs bs' c : list Z) off :
  off = 0 -> zlen bs = zlen bs' -> store (bs ++ c) off bs' = Some (bs' ++ c).
Proof. intros -> H. now apply (store_app []). Qed.

Lemma store_length m off bs m' : store m off bs = Some m' -> length m' = length m.
Proof.
  unfold store. destruct (_ && _) eqn:E; [|done]. intros [= <-]. zb.
  unfold zlen in *. rewrite !length_app, length_take, length_drop. lia.
Qed.

(** Splitting blocks, single bytes. *)
Lemma split_at (m : list Z) n : 0 <= n <= zlen m -> exists a b, m = a ++ b /\ zlen a = n /\ zlen b = zlen m - n.
Proof.
  intros Hn. exists (take (Z.to_nat n) m), (drop (Z.to_nat n) m). unfold zlen in *.
  rewrite take_drop, length_take, length_drop. split; [done|]. lia.
Qed.
Lemma zlen_pos_cons (m : list Z) : 0 < zlen m -> exists x m', m = x :: m'.
Proof. destruct m as [|x m]; [done|]. eauto. Qed.
Lemma load_prefix (a c : list Z) n : n = zlen a -> load (a ++ c) 0 n = Some a.
Proof. intros ->. exact (load_app [] a c 0 (zlen a) eq_refl eq_refl). Qed.
Lemma store1_app (a : list Z) x y c off : off = zlen a -> store (a ++ x :: c) off [y] = Some (a ++ y :: c).
Proof. intros. by apply (store_app a [x] [y] c). Qed.
Lemma load1_app (a : list Z) x c off : off = zlen a -> load1 (a ++ x :: c) off = Some x.
Proof.
  intros ->. unfold load1, zlen. rewrite (proj2 (Z.leb_le 0 _)) by lia.
  rewrite Nat2Z.id, lookup_app_r by lia. now rewrite Nat.sub_diag.
Qed.
Lemma load_take (m c : list Z) n : 0 <= n <= zlen m -> load (m ++ c) 0 n = Some (take (Z.to_nat n) m).
Proof.
  intros Hn. destruct (split_at m n Hn) as (a & b & -> & Ha & _). rewrite <- app_assoc, load_prefix by done.
  replace (Z.to_nat n) with (length a) by (unfold zlen in *; lia). by rewrite take_app_length.
Qed.
Lemma store1 (p : list Z) i c : (i < length p)%nat -> store p (Z.of_nat i) [c] = Some (<[i := c]> p).
Proof.
  intros Hi. unfold store. replace (_ && _) with true by (symmetry; rewrite andb_true_iff, !Z.leb_le; unfold zlen; simpl; lia).
  rewrite Nat2Z.id, insert_take_drop by done. simpl. do 3 f_equal. f_equal. lia.
Qed.
Lemma load1_nat (p : list Z) i : load1 p (Z.of_nat i) = p !! i.
Proof. unfold load1. destruct (Z.leb_spec 0 (Z.of_nat i)); [|lia]. by rewrite Nat2Z.id. Qed.
Lemma load_some (m : list Z) off n : 0 <= off -> 0 <= n -> off + n <= zlen m -> exists b, load m off n = Some b /\ zlen b = n.
Proof.
  intros H1 H2 H3. unfold load. rewrite !(proj2 (Z.leb_le _ _)) by lia. eexists. split; [done|].
  unfold zlen in *. rewrite length_take, length_drop. lia.
Qed.
Lemma load_in l off n : 0 <= off -> 0 <= n -> off + n <= zlen l -> exists w, load l off n = Some w.
Proof. intros. unfold load. replace (_ && _) with true by (symmetry; rewrite !andb_true_iff, !Z.leb_le; lia). eauto. Qed.
Lemma load_bytes l off n w : bytes_ok l -> load l off n = Some w -> bytes_ok w.
Proof. unfold load. destruct (_ && _); [|done]. intros Hl [= <-]. by apply Forall_take, Forall_drop. Qed.
Lemma load1_some (m : list Z) i : 0 <= i < zlen m -> exists b, load1 m i = Some b.
Proof. intros Hi. unfold load1. destruct (Z.leb_spec 0 i); [|lia]. apply lookup_lt_is_Some_2. unfold zlen in *. lia. Qed.
Lemma load1_byte (m : list Z) i b : bytes_ok m -> load1 m i = Some b -> byte_ok b.
Proof. unfold load1. intros Hm. destruct (0 <=? i); [|done]. intros E. by eapply (Forall_lookup_1 byte_ok). Qed.
Lemma store_some (m : list Z) off bs : 0 <= off -> off + zlen bs <= zlen m -> exists m', store m off bs = Some m' /\ zlen m' = zlen m.
Proof.
  intros H1 H2. destruct (store m off bs) as [m'|] eqn:E.
  - exists m'. split; [done|]. unfold zlen. by rewrite (store_length _ _ _ _ E).
  - unfold store in E. rewrite !(proj2 (Z.leb_le _ _)) in E by lia. done.
Qed.

Lemma memmove_app (a bs c d : list Z) m dst src n :
  m = a ++ bs ++ c -> src = zlen a -> n = zlen bs ->
  store m dst bs = Some d -> memmove m dst src n = Some d.
Proof. intros -> -> -> H. unfold memmove. now rewrite load_app. Qed.

Lemma realloc_length junk m n : 0 <= n -> zlen (realloc junk m n) = n.
Proof.
  intros. unfold zlen, realloc. rewrite length_app, length_take, length_map, length_seq. lia.
Qed.

Lemma realloc_grow junk m n :
  zlen m <= n -> exists ext, realloc junk m n = m ++ ext /\ zlen ext = n - zlen m /\ bytes_ok ext.
Proof.
  intros H. unfold realloc, zlen in *.
  exists (map (fun i => u8 (junk i)) (seq (length m) (Z.to_nat n - length m))).
  rewrite take_ge by lia. split; [done|]. rewrite length_map, length_seq. split; [lia|].
  apply Forall_map. apply Forall_forall. intros x _. apply wrapu_range. lia.
Qed.

Lemma realloc_shrink junk a b n : n = zlen a -> realloc junk (a ++ b) n = a.
Proof.
  intros ->. unfold realloc, zlen. rewrite Nat2Z.id, take_app_length, length_app.
  replace (length a - (length a + length b))%nat with 0%nat by lia. simpl. apply app_nil_r.
Qed.

Lemma realloc_prefix junk a b n :
  zlen a <= n -> bytes_ok b ->
  exists c, realloc junk (a ++ b) n = a ++ c /\ zlen c = n - zlen a /\ bytes_ok c.
Proof.
  intros Hn Hb. unfold realloc. rewrite take_app. unfold zlen in *.
  rewrite (take_ge a) by lia. rewrite <- app_assoc. eexists. split; [done|]. split.
  - rewrite length_app, length_take, length_map, length_seq, length_app. lia.
  - apply Forall_app. split; [by apply Forall_take|].
    apply Forall_map, Forall_forall. intros x _. apply wrapu_range. lia.
Qed.

(** ** Hints

    [cmem] proves that blocks are made of bytes; [zlen] computes lengths. *)
Lemma zlen_nil {A} : zlen (@nil A) = 0.
Proof. reflexivity. Qed.
Lemma zlen_take {A} (l : list A) n : 0 <= n <= zlen l -> zlen (take (Z.to_nat n) l) = n.
Proof. unfold zlen. rewrite length_take. lia. Qed.
Lemma zlen_drop {A} (l : list A) n : 0 <= n <= zlen l -> zlen (drop (Z.to_nat n) l) = zlen l - n.
Proof. unfold zlen. rewrite length_drop. lia. Qed.
Lemma bytes_ok_app l k : bytes_ok l -> bytes_ok k -> bytes_ok (l ++ k).
Proof. intros. by apply Forall_app. Qed.
Lemma bytes_ok_cons b l : byte_ok b -> bytes_ok l -> bytes_ok (b :: l).
Proof. intros. by constructor. Qed.
Lemma bytes_ok_nil : bytes_ok [].
Proof. constructor. Qed.
Lemma bytes_ok_take n l : bytes_ok l -> bytes_ok (take n l).
Proof. apply Forall_take. Qed.
Lemma bytes_ok_drop n l : bytes_ok l -> bytes_ok (drop n l).
Proof. apply Forall_drop. Qed.
Lemma u8_byte z : byte_ok (u8 z).
Proof. unfold byte_ok. apply (wrapu_range 8 z). lia. Qed.

Create HintDb cmem.
Create Rewrite HintDb zlen.
#[export] Hint Resolve bytes_ok_app bytes_ok_cons bytes_ok_nil bytes_ok_take bytes_ok_drop u8_byte le_bytes_ok : cmem.
#[export] Hint Rewrite @zlen_app @zlen_cons @zlen_nil : zlen.

Lemma entries_nodup `{DictOrder} {A} (m : gmap (list Z) A) : NoDup (entries m).*1 /\ forall k o, (k, o) ∈ entries m <-> m !! k = Some o.
Proof.
  split; [|intros k o; by rewrite entries_perm, elem_of_map_to_list]. rewrite entries_perm. apply NoDup_fst_map_to_list.
Qed.
