(* ===== verification/Endian.v ===== *)
(** * endianconv.c: byte-order conversion

    [memrev16/32/64] reverse the bytes of an object in place, [intrev16/32/64]
    the bytes of a value; the [...ifbe] variants act on big-endian hosts only.
    The host byte order is the parameter [be]. *)
From S2P Require Import Prelude.

(** [t = x[i]; x[i] = x[j]; x[j] = t] on the bytes of the object. *)
Definition xswap (i j : nat) (x : list Z) : list Z :=
  match x !! i, x !! j with
  | Some a, Some b => <[j := a]> (<[i := b]> x)
  | _, _ => x
  end.

Definition memrev16 (x : list Z) : list Z := xswap 0 1 x.
Definition memrev32 (x : list Z) : list Z := xswap 1 2 (xswap 0 3 x).
Definition memrev64 (x : list Z) : list Z :=
  xswap 3 4 (xswap 2 5 (xswap 1 6 (xswap 0 7 x))).

Section Host.
  Context (be : bool).

(** The bytes of an integer object on this host, and the integer they hold. *)
Definition native_bytes (n : nat) (v : Z) : list Z :=
  if be then rev (le_bytes n v) else le_bytes n v.
Definition native_val (x : list Z) : Z :=
  if be then le_val (rev x) else le_val x.

Definition intrev16 (v : Z) : Z := native_val (memrev16 (native_bytes 2 v)).
Definition intrev32 (v : Z) : Z := native_val (memrev32 (native_bytes 4 v)).
Definition intrev64 (v : Z) : Z := native_val (memrev64 (native_bytes 8 v)).

Definition memrev16ifbe (x : list Z) : list Z := if be then memrev16 x else x.
Definition memrev32ifbe (x : list Z) : list Z := if be then memrev32 x else x.
Definition memrev64ifbe (x : list Z) : list Z := if be then memrev64 x else x.
Definition intrev32ifbe (v : Z) : Z := if be then intrev32 v else v.
Definition intrev64ifbe (v : Z) : Z := if be then intrev64 v else v.
Definition htonu64 (v : Z) : Z := if be then v else intrev64 v.
Definition ntohu64 (v : Z) : Z := if be then v else intrev64 v.
End Host.

Ltac explode x :=
  repeat (destruct x as [|? x]; simpl in *; try discriminate; try lia).

Lemma memrev16_rev x : length x = 2%nat -> memrev16 x = rev x.
Proof. intros. explode x. reflexivity. Qed.

Lemma memrev32_rev x : length x = 4%nat -> memrev32 x = rev x.
Proof. intros. explode x. reflexivity. Qed.

Lemma memrev64_rev x : length x = 8%nat -> memrev64 x = rev x.
Proof. intros. explode x. reflexivity. Qed.

Lemma native_bytes_length be n v : length (native_bytes be n v) = n.
Proof. unfold native_bytes. destruct be; rewrite ?length_rev; apply le_bytes_length. Qed.

(** The value an object written natively and reversed on big-endian hosts has
    when read back the same way, and its bytes: little endian on every host. *)
Lemma revifbe_bytes (be : bool) n v (f : list Z -> list Z) :
  (forall x, length x = n -> f x = rev x) ->
  (if be then f (native_bytes be n v) else native_bytes be n v) = le_bytes n v.
Proof.
  intros Hf. unfold native_bytes. destruct be; [|done].
  rewrite Hf by (rewrite length_rev; apply le_bytes_length). apply rev_involutive.
Qed.

Lemma revifbe_val (be : bool) n x (f : list Z -> list Z) :
  (forall x, length x = n -> f x = rev x) -> length x = n ->
  native_val be (if be then f x else x) = le_val x.
Proof.
  intros Hf Hx. unfold native_val. destruct be; [|done]. rewrite Hf by done.
  now rewrite rev_involutive.
Qed.

Lemma intrev_involutive be n (f : list Z -> list Z) v :
  (forall x, length x = n -> f x = rev x) -> in_u (8 * Z.of_nat n) v ->
  let g v := native_val be (f (native_bytes be n v)) in
  in_u (8 * Z.of_nat n) (g v) /\ g (g v) = v.
Proof.
  intros Hf Hv g. unfold g.
  assert (Hg : forall u, native_val be (f (native_bytes be n u)) = le_val (rev (le_bytes n u))).
  { intros u. rewrite Hf by apply native_bytes_length. unfold native_val, native_bytes.
    destruct be; [|done]. now rewrite !rev_involutive. }
  assert (Hok : bytes_ok (rev (le_bytes n v))) by (apply Forall_rev, le_bytes_ok).
  rewrite !Hg. split.
  - apply le_val_range in Hok. unfold in_u, zlen in *.
    now rewrite length_rev, le_bytes_length in Hok.
  - pose proof (le_bytes_le_val _ Hok) as E. rewrite length_rev, le_bytes_length in E.
    rewrite E, rev_involutive, le_val_le_bytes. now apply wrapu_small.
Qed.

Lemma intrev32ifbe_inv be v : in_u 32 v -> intrev32ifbe be (intrev32ifbe be v) = v.
Proof.
  intros. unfold intrev32ifbe, intrev32. destruct be; [|done].
  apply (intrev_involutive true 4 memrev32 v memrev32_rev); done.
Qed.
