(* ===== verification/Intset.v ===== *)
(** * intset.c: sorted arrays of 16, 32 or 64 bit integers

    The structure is modelled down to the bytes of its [contents] block, with
    the host byte order ([be]) and the bytes a fresh [zrealloc] returns
    ([junk]) as parameters.  [repr] relates a block to the strictly increasing
    list of integers it stores; the operations are proved against it. *)
From stdpp Require Import sorting.
From S2P Require Import Prelude Endian.

Record intset := Intset {
  is_encoding : Z;        (* uint32_t, through intrev32ifbe *)
  is_length : Z;          (* uint32_t, through intrev32ifbe *)
  is_contents : list Z    (* the bytes after the header *)
}.

Definition INTSET_ENC_INT16 : Z := 2.
Definition INTSET_ENC_INT32 : Z := 4.
Definition INTSET_ENC_INT64 : Z := 8.
Definition sizeof_intset : Z := 8.

Definition INT16_MIN : Z := -32768.
Definition INT16_MAX : Z := 32767.
Definition INT32_MIN : Z := -2147483648.
Definition INT32_MAX : Z := 2147483647.

Definition _intsetValueEncoding (v : Z) : Z :=
  if (v <? INT32_MIN) || (v >? INT32_MAX) then INTSET_ENC_INT64
  else if (v <? INT16_MIN) || (v >? INT16_MAX) then INTSET_ENC_INT32
  else INTSET_ENC_INT16.

Section Intset.
  Context (be : bool) (junk : nat -> Z).

Definition _intsetGetEncoded (iset : intset) (pos enc : Z) : option Z :=
  if enc =? INTSET_ENC_INT64 then
    v64 ← load (is_contents iset) (8 * pos) 8;
    Some (s64 (native_val be (memrev64ifbe be v64)))
  else if enc =? INTSET_ENC_INT32 then
    v32 ← load (is_contents iset) (4 * pos) 4;
    Some (s32 (native_val be (memrev32ifbe be v32)))
  else
    v16 ← load (is_contents iset) (2 * pos) 2;
    Some (s16 (native_val be (memrev16ifbe be v16))).

Definition _intsetGet (iset : intset) (pos : Z) : option Z :=
  _intsetGetEncoded iset pos (intrev32ifbe be (is_encoding iset)).

(** The assignment followed by [memrevNNifbe] on the same cell: the cell ends
    up holding the reversed bytes. *)
Definition _intsetSet (iset : intset) (pos value : Z) : option intset :=
  let encoding := intrev32ifbe be (is_encoding iset) in
  c ← (if encoding =? INTSET_ENC_INT64 then
         store (is_contents iset) (8 * pos) (memrev64ifbe be (native_bytes be 8 value))
       else if encoding =? INTSET_ENC_INT32 then
         store (is_contents iset) (4 * pos) (memrev32ifbe be (native_bytes be 4 value))
       else
         store (is_contents iset) (2 * pos) (memrev16ifbe be (native_bytes be 2 value)));
  Some (Intset (is_encoding iset) (is_length iset) c).

Definition intsetNew : intset := Intset (intrev32ifbe be INTSET_ENC_INT16) 0 [].

Definition intsetResize (iset : intset) (len : Z) : intset :=
  let size := u32 (len * intrev32ifbe be (is_encoding iset)) in
  Intset (is_encoding iset) (is_length iset) (realloc junk (is_contents iset) size).

(** The [while (max >= min)] loop; returns [(found, min, mid)] where [found]
    is [value == cur] at exit.  [fuel] bounds the iterations: the interval
    halves, so the length of the set is enough. *)
Fixpoint intsetSearch_loop (fuel : nat) (iset : intset) (value min max mid cur : Z)
  : option (Z * Z * Z) :=
  if max >=? min then
    match fuel with
    | O => None
    | S fuel =>
        let mid := Z.shiftr (u32 (u32 min + u32 max)) 1 in
        cur ← _intsetGet iset mid;
        if value >? cur then intsetSearch_loop fuel iset value (mid + 1) max mid cur
        else if value <? cur then intsetSearch_loop fuel iset value min (mid - 1) mid cur
        else Some (min, mid, cur)
    end
  else Some (min, mid, cur).

(** [(return value, *pos)]. *)
Definition intsetSearch (iset : intset) (value : Z) : option (bool * Z) :=
  let len := intrev32ifbe be (is_length iset) in
  let max := len - 1 in
  if len =? 0 then Some (false, 0)
  else
    last ← _intsetGet iset max;
    if value >? last then Some (false, len)
    else
      first ← _intsetGet iset 0;
      if value <? first then Some (false, 0)
      else
        '(min, mid, cur) ← intsetSearch_loop (S (Z.to_nat len)) iset value 0 max (-1) (-1);
        if value =? cur then Some (true, mid) else Some (false, min).

(** [while (length--) _intsetSet(is, length+prepend, _intsetGetEncoded(is, length, curenc))]. *)
Fixpoint intsetUpgrade_loop (length : nat) (iset : intset) (prepend curenc : Z) : option intset :=
  match length with
  | O => Some iset
  | S length =>
      v ← _intsetGetEncoded iset (Z.of_nat length) curenc;
      iset ← _intsetSet iset (Z.of_nat length + prepend) v;
      intsetUpgrade_loop length iset prepend curenc
  end.

Definition intsetUpgradeAndAdd (iset : intset) (value : Z) : option intset :=
  let curenc := u8 (intrev32ifbe be (is_encoding iset)) in
  let newenc := _intsetValueEncoding value in
  let length := intrev32ifbe be (is_length iset) in
  let prepend := if value <? 0 then 1 else 0 in
  let iset := Intset (intrev32ifbe be newenc) (is_length iset) (is_contents iset) in
  let iset := intsetResize iset (u32 (intrev32ifbe be (is_length iset) + 1)) in
  iset ← intsetUpgrade_loop (Z.to_nat length) iset prepend curenc;
  iset ← (if prepend =? 1 then _intsetSet iset 0 value
        else _intsetSet iset (intrev32ifbe be (is_length iset)) value);
  Some (Intset (is_encoding iset)
          (intrev32ifbe be (u32 (intrev32ifbe be (is_length iset) + 1))) (is_contents iset)).

Definition intsetMoveTail (iset : intset) (from to : Z) : option intset :=
  let bytes := u32 (intrev32ifbe be (is_length iset) - from) in
  let encoding := intrev32ifbe be (is_encoding iset) in
  c ← (if encoding =? INTSET_ENC_INT64 then
         memmove (is_contents iset) (8 * to) (8 * from) (u32 (bytes * 8))
       else if encoding =? INTSET_ENC_INT32 then
         memmove (is_contents iset) (4 * to) (4 * from) (u32 (bytes * 4))
       else
         memmove (is_contents iset) (2 * to) (2 * from) (u32 (bytes * 2)));
  Some (Intset (is_encoding iset) (is_length iset) c).

(** [(new set, *success)]. *)
Definition intsetAdd (iset : intset) (value : Z) : option (intset * bool) :=
  let valenc := _intsetValueEncoding value in
  if valenc >? intrev32ifbe be (is_encoding iset) then
    iset ← intsetUpgradeAndAdd iset value; Some (iset, true)
  else
    '(found, pos) ← intsetSearch iset value;
    if (found : bool) then Some (iset, false)
    else
      let iset := intsetResize iset (u32 (intrev32ifbe be (is_length iset) + 1)) in
      iset ← (if pos <? intrev32ifbe be (is_length iset) then intsetMoveTail iset pos (pos + 1)
            else Some iset);
      iset ← _intsetSet iset pos value;
      Some (Intset (is_encoding iset)
              (intrev32ifbe be (u32 (intrev32ifbe be (is_length iset) + 1)))
              (is_contents iset), true).

Definition intsetRemove (iset : intset) (value : Z) : option (intset * bool) :=
  let valenc := _intsetValueEncoding value in
  if valenc <=? intrev32ifbe be (is_encoding iset) then
    '(found, pos) ← intsetSearch iset value;
    if (found : bool) then
      let len := intrev32ifbe be (is_length iset) in
      iset ← (if pos <? len - 1 then intsetMoveTail iset (pos + 1) pos else Some iset);
      let iset := intsetResize iset (len - 1) in
      Some (Intset (is_encoding iset) (intrev32ifbe be (len - 1)) (is_contents iset), true)
    else Some (iset, false)
  else Some (iset, false).

Definition intsetFind (iset : intset) (value : Z) : option bool :=
  let valenc := _intsetValueEncoding value in
  if valenc <=? intrev32ifbe be (is_encoding iset) then
    '(found, _) ← intsetSearch iset value; Some (found : bool)
  else Some false.

(** [rand()] is the parameter [r]. *)
Definition intsetRandom (r : Z) (iset : intset) : option Z :=
  let len := intrev32ifbe be (is_length iset) in
  if len =? 0 then None (* division by zero *) else _intsetGet iset (r mod len).

Definition intsetGet (iset : intset) (pos : Z) : option (option Z) :=
  if pos <? intrev32ifbe be (is_length iset) then
    v ← _intsetGet iset pos; Some (Some v)
  else Some None.

Definition intsetLen (iset : intset) : Z := intrev32ifbe be (is_length iset).

Definition intsetBlobLen (iset : intset) : Z :=
  sizeof_intset + u32 (intrev32ifbe be (is_length iset) * intrev32ifbe be (is_encoding iset)).

End Intset.

(** ** The representation invariant *)
Definition enc_ok (e : Z) : Prop := e = 2 \/ e = 4 \/ e = 8.

Definition cells (e : Z) (l : list Z) : list Z := mjoin (map (le_bytes (Z.to_nat e)) l).

(** [repr be s l]: [s] stores exactly the strictly increasing list [l]. *)
Record repr (be : bool) (s : intset) (e : Z) (l : list Z) : Prop := {
  repr_enc : enc_ok e;
  repr_encoding : is_encoding s = intrev32ifbe be e;
  repr_length : is_length s = intrev32ifbe be (zlen l);
  repr_contents : is_contents s = cells e l;
  repr_range : Forall (in_s (8 * e)) l;
  repr_sorted : StronglySorted Z.lt l;
  repr_small : zlen l < 2 ^ 28
}.

Lemma cells_app e l k : cells e (l ++ k) = cells e l ++ cells e k.
Proof. unfold cells. now rewrite map_app, join_app. Qed.

Lemma cells_cons e v l : cells e (v :: l) = le_bytes (Z.to_nat e) v ++ cells e l.
Proof. done. Qed.

Lemma cells_zlen e l : enc_ok e -> zlen (cells e l) = e * zlen l.
Proof.
  intros He. induction l as [|v l IH]; [unfold zlen; simpl; lia|].
  rewrite cells_cons, zlen_app, IH, zlen_cons. unfold zlen at 1.
  rewrite le_bytes_length. unfold enc_ok in He. lia.
Qed.

Lemma le_cell_zlen e v : enc_ok e -> zlen (le_bytes (Z.to_nat e) v) = e.
Proof. intros He. unfold zlen. rewrite le_bytes_length. unfold enc_ok in He; lia. Qed.

Lemma enc_eqs e : enc_ok e ->
  Z.of_nat (Z.to_nat e) = e /\ (0 < Z.to_nat e)%nat.
Proof. unfold enc_ok. lia. Qed.

(** The three branches on the encoding are one uniform access. *)
Lemma getEncoded_eq be s pos e v :
  enc_ok e -> load (is_contents s) (e * pos) e = Some (le_bytes (Z.to_nat e) v) ->
  in_s (8 * e) v -> _intsetGetEncoded be s pos e = Some v.
Proof.
  intros He Hl Hv. pose proof (enc_eqs e He) as [E1 E2].
  pose proof (wraps_le_val (Z.to_nat e) v) as Hw. rewrite E1 in Hw. specialize (Hw Hv E2).
  pose proof (le_bytes_length (Z.to_nat e) v) as Hb.
  unfold _intsetGetEncoded, memrev64ifbe, memrev32ifbe, memrev16ifbe.
  rewrite <- Hw. clear Hw E1 E2. generalize dependent (le_bytes (Z.to_nat e) v). intros b Hl Hb.
  destruct He as [->|[->| ->]]; simpl; rewrite Hl; simpl; do 2 f_equal.
  - apply (revifbe_val be 2); [apply memrev16_rev|done].
  - apply (revifbe_val be 4); [apply memrev32_rev|done].
  - apply (revifbe_val be 8); [apply memrev64_rev|done].
Qed.

Lemma set_eq be s pos e v :
  enc_ok e -> is_encoding s = intrev32ifbe be e ->
  _intsetSet be s pos v =
  (c ← store (is_contents s) (e * pos) (le_bytes (Z.to_nat e) v);
   Some (Intset (is_encoding s) (is_length s) c)).
Proof.
  intros He Hs. unfold _intsetSet, memrev64ifbe, memrev32ifbe, memrev16ifbe. rewrite Hs.
  rewrite intrev32ifbe_inv by (unfold in_u, enc_ok in *; lia).
  destruct He as [->|[->| ->]]; simpl.
  - now rewrite (revifbe_bytes be 2 v memrev16 memrev16_rev).
  - now rewrite (revifbe_bytes be 4 v memrev32 memrev32_rev).
  - now rewrite (revifbe_bytes be 8 v memrev64 memrev64_rev).
Qed.

Section Proofs.
  Context (be : bool) (junk : nat -> Z).

Lemma len_rd s e l : repr be s e l -> intrev32ifbe be (is_length s) = zlen l.
Proof.
  intros H. rewrite (repr_length _ _ _ _ H). apply intrev32ifbe_inv.
  pose proof (repr_small _ _ _ _ H). pose proof (zlen_nonneg l). unfold in_u. plia.
Qed.

Lemma enc_rd s e l : repr be s e l -> intrev32ifbe be (is_encoding s) = e.
Proof.
  intros H. rewrite (repr_encoding _ _ _ _ H). apply intrev32ifbe_inv.
  pose proof (repr_enc _ _ _ _ H). unfold in_u, enc_ok in *. plia.
Qed.

Lemma get_spec s e l pos v :
  repr be s e l -> 0 <= pos -> l !! Z.to_nat pos = Some v -> _intsetGet be s pos = Some v.
Proof.
  intros H Hp Hv. unfold _intsetGet. rewrite (enc_rd _ _ _ H).
  pose proof (repr_enc _ _ _ _ H) as He.
  apply getEncoded_eq; [done| |].
  - rewrite (repr_contents _ _ _ _ H), <- (take_drop_middle _ _ _ Hv), cells_app, cells_cons.
    apply load_app; [|now rewrite le_cell_zlen].
    rewrite cells_zlen by done. unfold zlen. rewrite length_take.
    apply lookup_lt_Some in Hv. f_equal. lia.
  - pose proof (repr_range _ _ _ _ H) as Hr. rewrite Forall_lookup in Hr. eauto.
Qed.

Lemma sorted_lookup_lt (l : list Z) i j x y :
  StronglySorted Z.lt l -> l !! i = Some x -> l !! j = Some y -> (i < j)%nat -> x < y.
Proof.
  intros Hs. revert i j. induction Hs as [|a l Hs IH Ha]; intros [|i] [|j] Hx Hy Hij;
    simpl in *; try done; try lia.
  - injection Hx as ->. rewrite Forall_lookup in Ha. eauto.
  - eapply (IH i j); eauto. lia.
Qed.

(** Where [value] belongs: everything before [pos] is smaller, everything from
    [pos] on is larger (or equal, when it is present). *)
Definition insert_pos (l : list Z) (value pos : Z) : Prop :=
  0 <= pos <= zlen l /\
  Forall (fun x => x < value) (take (Z.to_nat pos) l) /\
  Forall (fun x => value < x) (drop (Z.to_nat pos) l).

Lemma insert_pos_intro l value pos :
  StronglySorted Z.lt l -> 0 <= pos <= zlen l ->
  (forall i x, l !! i = Some x -> Z.of_nat i < pos -> x < value) ->
  (forall i x, l !! i = Some x -> pos <= Z.of_nat i -> value < x) ->
  insert_pos l value pos.
Proof.
  intros Hs Hp Hlo Hhi. split; [done|]. split; apply Forall_lookup; intros i x Hx.
  - apply lookup_take_Some in Hx as [Hx Hi]. apply (Hlo i); [done|lia].
  - rewrite lookup_drop in Hx. apply (Hhi _ _ Hx). lia.
Qed.

Lemma mid_eq mn mx :
  0 <= mn -> mn <= mx -> mx < 2 ^ 28 ->
  Z.shiftr (u32 (u32 mn + u32 mx)) 1 = (mn + mx) / 2.
Proof.
  intros. rewrite (wrapu_small 32 mn), (wrapu_small 32 mx), wrapu_small by plia.
  now rewrite Z.shiftr_div_pow2 by lia.
Qed.

(** The loop of the binary search ends with the position of the value, or with
    [min] at the insertion point. *)
Lemma search_loop_spec s e l value fuel mn mx mid0 cur0 :
  repr be s e l ->
  0 <= mn -> mx < zlen l -> mn <= mx + 1 -> (Z.to_nat (mx - mn + 1) < fuel)%nat ->
  (forall i x, l !! i = Some x -> Z.of_nat i < mn -> x < value) ->
  (forall i x, l !! i = Some x -> mx < Z.of_nat i -> value < x) ->
  (mx < mn -> cur0 <> value) ->
  exists mn' mid' cur',
    intsetSearch_loop be fuel s value mn mx mid0 cur0 = Some (mn', mid', cur') /\
    ((cur' = value /\ 0 <= mid' /\ l !! Z.to_nat mid' = Some value) \/
     (cur' <> value /\ insert_pos l value mn')).
Proof.
  intros H. revert mn mx mid0 cur0.
  induction fuel as [|fuel IH]; intros mn mx mid0 cur0 Hmn Hmx Hmm Hf Hlo Hhi Hcur; [lia|].
  pose proof (repr_small _ _ _ _ H). simpl. rewrite Z.geb_leb.
  destruct (Z.leb_spec mn mx) as [Hle|Hgt].
  2:{ exists mn, mid0, cur0. split; [done|]. right. split; [apply Hcur; lia|].
      apply insert_pos_intro; [apply (repr_sorted _ _ _ _ H)|lia|done|].
      intros i x Hx Hi. apply (Hhi i); [done|lia]. }
  rewrite mid_eq by lia. set (mid := (mn + mx) / 2).
  assert (Hmid : mn <= mid <= mx) by (unfold mid; split; [apply Z.div_le_lower_bound|apply Z.div_le_upper_bound]; lia).
  destruct (lookup_lt_is_Some_2 l (Z.to_nat mid)) as [c Hc]; [unfold zlen in *; lia|].
  rewrite (get_spec _ _ _ mid c H) by (lia || done). simpl.
  pose proof (repr_sorted _ _ _ _ H) as Hs.
  rewrite Z.gtb_ltb. destruct (Z.ltb_spec c value) as [Hcv|Hcv].
  { apply IH; try lia; auto. intros i x Hx Hi.
    destruct (decide (i = Z.to_nat mid)) as [->|]; [congruence|].
    pose proof (sorted_lookup_lt _ _ _ _ _ Hs Hx Hc). lia. }
  destruct (Z.ltb_spec value c) as [Hcv'|Hcv'].
  { apply IH; try lia; auto. intros i x Hx Hi.
    destruct (decide (i = Z.to_nat mid)) as [->|]; [congruence|].
    pose proof (sorted_lookup_lt _ _ _ _ _ Hs Hc Hx). lia. }
  assert (c = value) as -> by lia.
  exists mn, mid, value. split; [done|]. left. split; [done|]. split; [lia|done].
Qed.

#[local] Arguments intsetSearch_loop : simpl never.

Lemma insert_pos_not_in l value pos : insert_pos l value pos -> value ∉ l.
Proof.
  intros (_ & H1 & H2) Hin. rewrite <- (take_drop (Z.to_nat pos) l) in Hin.
  apply elem_of_app in Hin as [Hin|Hin].
  - rewrite Forall_forall in H1. apply H1 in Hin. lia.
  - rewrite Forall_forall in H2. apply H2 in Hin. lia.
Qed.

Lemma search_spec s e l value :
  repr be s e l ->
  (exists pos, intsetSearch be s value = Some (true, pos) /\ 0 <= pos /\
     l !! Z.to_nat pos = Some value) \/
  (exists pos, intsetSearch be s value = Some (false, pos) /\ insert_pos l value pos).
Proof.
  intros H. unfold intsetSearch. rewrite (len_rd _ _ _ H).
  pose proof (repr_sorted _ _ _ _ H) as Hs. pose proof (zlen_nonneg l).
  destruct (Z.eqb_spec (zlen l) 0) as [E|E].
  { right. exists 0. split; [done|]. destruct l; [|unfold zlen in E; simpl in E; lia].
    split; [unfold zlen; simpl; lia|]. split; constructor. }
  destruct (lookup_lt_is_Some_2 l (Z.to_nat (zlen l - 1))) as [z Hz]; [unfold zlen in *; lia|].
  destruct (lookup_lt_is_Some_2 l 0%nat) as [a Ha]; [unfold zlen in *; lia|].
  rewrite (get_spec _ _ _ (zlen l - 1) z H) by (lia || done). simpl.
  rewrite Z.gtb_ltb. destruct (Z.ltb_spec z value) as [Hv|Hv].
  { right. exists (zlen l). split; [done|]. apply insert_pos_intro; [done|lia| |].
    - intros i x Hx _. destruct (decide (i = Z.to_nat (zlen l - 1))) as [->|]; [congruence|].
      pose proof (sorted_lookup_lt _ _ _ _ _ Hs Hx Hz). apply lookup_lt_Some in Hx.
      unfold zlen in *. lia.
    - intros i x Hx Hi. apply lookup_lt_Some in Hx. unfold zlen in *. lia. }
  rewrite (get_spec _ _ _ 0 a H) by (lia || done). simpl.
  destruct (Z.ltb_spec value a) as [Ha'|Ha'].
  { right. exists 0. split; [done|]. apply insert_pos_intro; [done|lia|lia|].
    intros [|i] x Hx Hi; [congruence|].
    pose proof (sorted_lookup_lt _ _ _ _ _ Hs Ha Hx). lia. }
  destruct (search_loop_spec s e l value (S (Z.to_nat (zlen l))) 0 (zlen l - 1) (-1) (-1) H)
    as (mn & mid & cur & -> & Hres); try lia.
  { intros i x Hx Hi. apply lookup_lt_Some in Hx. unfold zlen in *. lia. }
  simpl. destruct Hres as [(-> & Hm & Hl)|(Hne & Hp)].
  - rewrite Z.eqb_refl. left. eauto.
  - rewrite (proj2 (Z.eqb_neq _ _)) by congruence. right. eauto.
Qed.

(** [valenc <= encoding] is exactly "the value fits the cells". *)
Lemma valueEncoding_spec v :
  in_s 64 v -> enc_ok (_intsetValueEncoding v) /\ in_s (8 * _intsetValueEncoding v) v.
Proof.
  intros Hv. unfold _intsetValueEncoding, INT32_MIN, INT32_MAX, INT16_MIN, INT16_MAX, enc_ok, in_s in *.
  rewrite !Z.gtb_ltb. unfold INTSET_ENC_INT64, INTSET_ENC_INT32, INTSET_ENC_INT16.
  destruct (Z.ltb_spec v (-2147483648)), (Z.ltb_spec 2147483647 v),
    (Z.ltb_spec v (-32768)), (Z.ltb_spec 32767 v); cbn [orb]; zpow; lia.
Qed.

Lemma valueEncoding_le v e :
  in_s 64 v -> enc_ok e -> (_intsetValueEncoding v <= e <-> in_s (8 * e) v).
Proof.
  intros Hv He. unfold _intsetValueEncoding, INT32_MIN, INT32_MAX, INT16_MIN, INT16_MAX in *.
  rewrite !Z.gtb_ltb. unfold INTSET_ENC_INT64, INTSET_ENC_INT32, INTSET_ENC_INT16, in_s in *.
  destruct He as [->|[->| ->]];
  destruct (Z.ltb_spec v (-2147483648)), (Z.ltb_spec 2147483647 v),
    (Z.ltb_spec v (-32768)), (Z.ltb_spec 32767 v); cbn [orb]; zpow; lia.
Qed.

Lemma insert_pos_sorted l value pos :
  StronglySorted Z.lt l -> insert_pos l value pos ->
  StronglySorted Z.lt (take (Z.to_nat pos) l ++ value :: drop (Z.to_nat pos) l).
Proof.
  intros Hs (_ & Hlo & Hhi). rewrite <- (take_drop (Z.to_nat pos) l) in Hs.
  revert Hs Hlo Hhi. generalize (take (Z.to_nat pos) l) (drop (Z.to_nat pos) l). intros a b.
  induction a as [|x a IH]; intros Hs Hlo Hhi; simpl in *; [by constructor|].
  apply StronglySorted_inv in Hs as [Hs Hx]. apply Forall_app in Hx as [Hx1 Hx2].
  inversion_clear Hlo. constructor; [auto|]. apply Forall_app; split; [done|].
  constructor; [done|]. done.
Qed.

Lemma cell_split (e : Z) (x : list Z) (n : Z) :
  zlen x = n + e -> 0 <= n -> 0 <= e ->
  exists a b, x = a ++ b /\ zlen a = n /\ zlen b = e.
Proof.
  intros H Hn He. exists (take (Z.to_nat n) x), (drop (Z.to_nat n) x).
  rewrite take_drop. unfold zlen in *. rewrite length_take, length_drop. split; [done|]. lia.
Qed.

Lemma app_prefix (a b c d : list Z) :
  a ++ b = c ++ d -> zlen a <= zlen c -> exists r, c = a ++ r /\ b = r ++ d.
Proof.
  intros H Hl. apply app_eq_inv in H as [(k & -> & ->)|(k & -> & ->)]; [|eauto].
  exists []. rewrite zlen_app in Hl. destruct k; [|rewrite zlen_cons in Hl; pose proof (zlen_nonneg k); lia].
  now rewrite !app_nil_r.
Qed.

(** The back-to-front conversion loop: cells not yet converted are still in
    the old format at the front of the block. *)
Lemma upgrade_loop_spec cur new p (l1 l2 tail mid : list Z) enc len :
  enc_ok cur -> enc_ok new -> cur <= new -> 0 <= p ->
  enc = intrev32ifbe be new ->
  Forall (in_s (8 * cur)) l1 ->
  zlen (cells cur l1 ++ mid) = (zlen l1 + p) * new ->
  exists hd, zlen hd = p * new /\
  intsetUpgrade_loop be (length l1)
    (Intset enc len (cells cur l1 ++ mid ++ cells new l2 ++ tail)) p cur =
  Some (Intset enc len (hd ++ cells new (l1 ++ l2) ++ tail)).
Proof.
  intros Hc Hn Hle Hp -> Hr. revert l2 mid.
  induction l1 as [|v l1 IH] using rev_ind; intros l2 mid Hz.
  { exists mid. split; [unfold zlen in *; simpl in *; lia|done]. }
  apply Forall_app in Hr as [Hr Hv]. inversion_clear Hv as [|? ? Hv' _].
  rewrite length_app. simpl. rewrite Nat.add_1_r. simpl.
  rewrite (getEncoded_eq _ _ _ cur v); [|done| |done].
  2:{ simpl. rewrite cells_app, cells_cons, <- !app_assoc. apply load_app.
      - rewrite cells_zlen by done. unfold zlen. lia.
      - now rewrite le_cell_zlen. }
  simpl. rewrite (set_eq be _ _ new) by done. simpl.
  destruct (cell_split new (cells cur (l1 ++ [v]) ++ mid) ((zlen l1 + p) * new)) as (A & B & HAB & HA & HB).
  { rewrite Hz. unfold zlen. rewrite length_app. simpl. lia. }
  { pose proof (zlen_nonneg l1). unfold enc_ok in Hn. nia. }
  { unfold enc_ok in Hn. lia. }
  rewrite (assoc_L (++) (cells cur (l1 ++ [v])) mid), HAB, <- app_assoc.
  rewrite (store_app A B (le_bytes (Z.to_nat new) v)).
  2:{ rewrite HA. unfold zlen. lia. }
  2:{ rewrite HB, le_cell_zlen; done. }
  simpl. rewrite cells_app, <- app_assoc in HAB.
  destruct (app_prefix (cells cur l1) (cells cur [v] ++ mid) A B HAB) as (r & -> & _).
  { rewrite HA, cells_zlen by done. pose proof (zlen_nonneg l1). unfold enc_ok in *. nia. }
  destruct (IH Hr (v :: l2) r) as (hd & Hhd & E); [done|].
  exists hd. split; [done|]. rewrite cells_cons in E.
  rewrite <- !app_assoc in *. rewrite E. done.
Qed.

Lemma resize_eq s e len :
  enc_ok e -> is_encoding s = intrev32ifbe be e -> 0 <= len <= 2 ^ 28 ->
  intsetResize be junk s len =
  Intset (is_encoding s) (is_length s) (realloc junk (is_contents s) (e * len)).
Proof.
  intros He Hs Hl. unfold intsetResize. rewrite Hs.
  rewrite intrev32ifbe_inv by (unfold in_u, enc_ok in *; lia).
  rewrite wrapu_small; [now rewrite Z.mul_comm|]. unfold enc_ok in He. zpow. nia.
Qed.

Lemma moveTail_eq s e len from to :
  enc_ok e -> is_encoding s = intrev32ifbe be e -> is_length s = intrev32ifbe be len ->
  0 <= from <= len -> len < 2 ^ 28 ->
  intsetMoveTail be s from to =
  (c ← memmove (is_contents s) (e * to) (e * from) (e * (len - from));
   Some (Intset (is_encoding s) (is_length s) c)).
Proof.
  intros He Hs Hl Hf Hlen. unfold intsetMoveTail. rewrite Hs, Hl.
  rewrite !intrev32ifbe_inv by (unfold in_u, enc_ok in *; zpow; lia).
  rewrite (wrapu_small 32 (len - from)) by plia.
  rewrite (Z.mul_comm e (len - from)).
  destruct He as [->|[->| ->]]; simpl; now rewrite wrapu_small by plia.
Qed.

Lemma repr_intro e l :
  enc_ok e -> Forall (in_s (8 * e)) l -> StronglySorted Z.lt l -> zlen l < 2 ^ 28 ->
  repr be (Intset (intrev32ifbe be e) (intrev32ifbe be (zlen l)) (cells e l)) e l.
Proof. intros. by constructor. Qed.

Lemma bump_length (n : Z) : 0 <= n -> n + 1 < 2 ^ 28 ->
  intrev32ifbe be (u32 (intrev32ifbe be (intrev32ifbe be n) + 1)) = intrev32ifbe be (n + 1).
Proof.
  intros. rewrite intrev32ifbe_inv by (unfold in_u; plia). now rewrite wrapu_small by plia.
Qed.

(** The in-place branch of [intsetAdd]. *)
Lemma add_at e l v pos :
  let s := Intset (intrev32ifbe be e) (intrev32ifbe be (zlen l)) (cells e l) in
  enc_ok e -> zlen l + 1 < 2 ^ 28 -> 0 <= pos <= zlen l ->
  (let s := intsetResize be junk s (u32 (intrev32ifbe be (is_length s) + 1)) in
   s ← (if pos <? intrev32ifbe be (is_length s) then intsetMoveTail be s pos (pos + 1) else Some s);
   s ← _intsetSet be s pos v;
   Some (Intset (is_encoding s) (intrev32ifbe be (u32 (intrev32ifbe be (is_length s) + 1)))
           (is_contents s), true)) =
  Some (Intset (intrev32ifbe be e) (intrev32ifbe be (zlen l + 1))
          (cells e (take (Z.to_nat pos) l ++ v :: drop (Z.to_nat pos) l)), true).
Proof.
  intros s He Hl Hp. unfold s; clear s. pose proof (zlen_nonneg l) as Hnn.
  assert (Hinv : intrev32ifbe be (intrev32ifbe be (zlen l)) = zlen l)
    by (apply intrev32ifbe_inv; unfold in_u; plia).
  assert (Hep : 0 < e) by (unfold enc_ok in He; lia).
  cbv zeta. cbn [is_length]. rewrite Hinv, (wrapu_small 32 (zlen l + 1)) by plia.
  rewrite (resize_eq _ e) by (done || lia). cbn [is_length is_contents is_encoding].
  destruct (realloc_grow junk (cells e l) (e * (zlen l + 1))) as (ext & -> & Hext & _).
  { rewrite cells_zlen by done. lia. }
  rewrite cells_zlen in Hext by done. rewrite Hinv.
  set (a := take (Z.to_nat pos) l) in *. set (b := drop (Z.to_nat pos) l) in *.
  assert (Hab : l = a ++ b) by (unfold a, b; now rewrite take_drop).
  assert (Ha : zlen a = pos) by (unfold a, zlen in *; rewrite length_take; lia).
  assert (Hb : zlen b = zlen l - pos) by (rewrite Hab at 1; rewrite zlen_app; lia).
  clearbody a b.
  destruct (cell_split (e * zlen b) (cells e b ++ ext) e) as (g & h & Hgh & Hg & Hh).
  { rewrite zlen_app, cells_zlen by done. lia. }
  { lia. } { unfold enc_ok in He; nia. }
  assert (Hmid : exists x, zlen x = e /\
    (if pos <? zlen l then intsetMoveTail be
       (Intset (intrev32ifbe be e) (intrev32ifbe be (zlen l)) (cells e l ++ ext)) pos (pos + 1)
     else Some (Intset (intrev32ifbe be e) (intrev32ifbe be (zlen l)) (cells e l ++ ext))) =
    Some (Intset (intrev32ifbe be e) (intrev32ifbe be (zlen l)) (cells e a ++ x ++ cells e b))).
  { destruct (Z.ltb_spec pos (zlen l)) as [Hlt|Hge].
    - exists g. split; [done|]. rewrite (moveTail_eq _ e (zlen l)) by (done || lia). simpl.
      erewrite (memmove_app (cells e a) (cells e b) ext); [done| | | |].
      + rewrite Hab at 1. now rewrite cells_app, <- app_assoc.
      + now rewrite cells_zlen, Ha by done.
      + now rewrite cells_zlen, Hb by done.
      + rewrite Hab at 1. rewrite cells_app, <- app_assoc, Hgh.
        rewrite (assoc_L (++) (cells e a) g h), <- (app_nil_r h), (assoc_L (++) (cells e a) g (cells e b)).
        rewrite <- (app_nil_r (cells e b)) at 2. apply store_app.
        * rewrite zlen_app, cells_zlen, Ha by done. lia.
        * rewrite Hh, cells_zlen by done. lia.
    - assert (b = []) as Hb0.
      { destruct b; [done|]. rewrite zlen_cons in Hb. pose proof (zlen_nonneg b). lia. }
      exists ext. split; [lia|]. rewrite Hb0, app_nil_r in *. now rewrite <- Hab. }
  destruct Hmid as (x & Hx & ->). simpl mbind.
  rewrite (set_eq be _ _ e) by done. simpl is_contents.
  rewrite (store_app (cells e a) x (le_bytes (Z.to_nat e) v)).
  2:{ rewrite cells_zlen, Ha by done. lia. }
  2:{ now rewrite le_cell_zlen, Hx by done. }
  simpl. rewrite bump_length by lia. now rewrite cells_app, cells_cons.
Qed.

Lemma repr_eta s e l : repr be s e l ->
  s = Intset (intrev32ifbe be e) (intrev32ifbe be (zlen l)) (cells e l).
Proof. destruct s. intros [? H1 H2 H3 ? ? ?]. simpl in *. congruence. Qed.

Lemma in_s_mono e e' v : enc_ok e -> enc_ok e' -> e <= e' -> in_s (8 * e) v -> in_s (8 * e') v.
Proof.
  intros He He' Hle. unfold in_s.
  destruct He as [->|[->| ->]], He' as [->|[->| ->]]; zpow; lia.
Qed.

(** A value that needs wider cells is outside the range of every element. *)
Lemma upgrade_sorted e l v :
  enc_ok e -> in_s 64 v -> e < _intsetValueEncoding v ->
  Forall (in_s (8 * e)) l -> StronglySorted Z.lt l ->
  StronglySorted Z.lt (if v <? 0 then v :: l else l ++ [v]).
Proof.
  intros He Hv Hlt Hr Hs.
  assert (Hno : ~ in_s (8 * e) v) by (rewrite <- valueEncoding_le; [lia|done|done]).
  destruct (Z.ltb_spec v 0) as [Hneg|Hpos].
  - constructor; [done|]. eapply Forall_impl; [exact Hr|]. intros x Hx.
    unfold in_s in *. lia.
  - apply StronglySorted_app_2; [|done|repeat constructor].
    intros x y Hx Hy. apply list_elem_of_singleton in Hy as ->.
    rewrite Forall_forall in Hr. apply Hr in Hx. unfold in_s in *. lia.
Qed.

Lemma upgradeAndAdd_spec s e l v :
  repr be s e l -> in_s 64 v -> e < _intsetValueEncoding v -> zlen l + 1 < 2 ^ 28 ->
  exists s', intsetUpgradeAndAdd be junk s v = Some s' /\
    repr be s' (_intsetValueEncoding v) (if v <? 0 then v :: l else l ++ [v]).
Proof.
  intros H Hv Hlt Hsm. pose proof (repr_enc _ _ _ _ H) as He.
  pose proof (valueEncoding_spec v Hv) as [Hn Hvr]. pose proof (zlen_nonneg l) as Hnn.
  assert (Hep : 0 < e) by (unfold enc_ok in He; lia).
  pose proof (repr_range _ _ _ _ H) as Hrange. pose proof (repr_sorted _ _ _ _ H) as Hsorted.
  unfold intsetUpgradeAndAdd. rewrite (enc_rd _ _ _ H), (len_rd _ _ _ H).
  rewrite (repr_eta _ _ _ H). cbn [is_length is_contents is_encoding].
  set (new := _intsetValueEncoding v) in *.
  assert (Hinv : intrev32ifbe be (intrev32ifbe be (zlen l)) = zlen l)
    by (apply intrev32ifbe_inv; unfold in_u; plia).
  rewrite Hinv, (wrapu_small 8 e) by (unfold enc_ok in He; zpow; lia).
  rewrite (wrapu_small 32) by plia.
  rewrite (resize_eq _ new) by (done || lia). cbn [is_length is_contents is_encoding].
  destruct (realloc_grow junk (cells e l) (new * (zlen l + 1))) as (ext & -> & Hext & _).
  { rewrite cells_zlen by done. apply Z.mul_le_mono_nonneg; lia. }
  rewrite cells_zlen in Hext by done.
  set (p := if v <? 0 then 1 else 0).
  assert (Hp : p = 0 \/ p = 1) by (unfold p; destruct (v <? 0); auto).
  destruct (cell_split ((1 - p) * new) ext (zlen ext - (1 - p) * new)) as (mid & tail & -> & Hm & Ht).
  { lia. } { nia. } { nia. }
  destruct (upgrade_loop_spec e new p l [] tail mid (intrev32ifbe be new) (intrev32ifbe be (zlen l)))
    as (hd & Hhd & E); try done; try lia.
  { rewrite zlen_app, cells_zlen, Hm, Hext by done. lia. }
  simpl in E. rewrite app_nil_r in E.
  unfold zlen at 1. rewrite Nat2Z.id, E. simpl mbind.
  pose proof (upgrade_sorted e l v He Hv Hlt Hrange Hsorted) as Hss.
  assert (Hfin : Forall (in_s (8 * new)) (if v <? 0 then v :: l else l ++ [v])).
  { assert (Forall (in_s (8 * new)) l) by (eapply Forall_impl; [exact Hrange|];
      intros x Hx; apply (in_s_mono e new); [done|done|lia|done]).
    destruct (v <? 0); [by constructor|]. apply Forall_app; auto. }
  unfold p in *; clear p. destruct (v <? 0); simpl Z.eqb; cbn iota; rewrite (set_eq be _ _ new) by done;
    cbn [is_contents is_length is_encoding]; rewrite ?Hinv.
  - rewrite store_head; [|lia|rewrite le_cell_zlen by done; lia].
    destruct tail; [|rewrite zlen_cons in Ht; pose proof (zlen_nonneg tail); lia].
    simpl. eexists. split; [done|]. rewrite bump_length by lia. rewrite app_nil_r.
    replace (zlen l + 1) with (zlen (v :: l)) by (rewrite zlen_cons; lia).
    apply repr_intro; try done. rewrite zlen_cons; lia.
  - destruct hd; [|rewrite zlen_cons in Hhd; pose proof (zlen_nonneg hd); lia].
    simpl app. rewrite <- (app_nil_r tail).
    rewrite (store_app (cells new l) tail (le_bytes (Z.to_nat new) v)); rewrite ?cells_zlen, ?le_cell_zlen by done; try lia.
    simpl. eexists. split; [done|]. rewrite bump_length by lia.
    replace (zlen l + 1) with (zlen (l ++ [v])) by (rewrite zlen_app; done).
    change (le_bytes (Z.to_nat new) v ++ []) with (cells new [v]). rewrite <- cells_app.
    apply repr_intro; try done. rewrite zlen_app; done.
Qed.

Lemma insert_pos_set l v pos :
  (list_to_set (take (Z.to_nat pos) l ++ v :: drop (Z.to_nat pos) l) : gset Z) =
  {[v]} ∪ list_to_set l.
Proof.
  transitivity ({[v]} ∪ list_to_set (take (Z.to_nat pos) l ++ drop (Z.to_nat pos) l) : gset Z);
    [|now rewrite take_drop].
  rewrite !list_to_set_app_L, list_to_set_cons. set_solver.
Qed.

Lemma insert_pos_length (l : list Z) v pos :
  zlen (take pos l ++ v :: drop pos l) = zlen l + 1.
Proof. rewrite zlen_app, zlen_cons. unfold zlen. rewrite length_take, length_drop. lia. Qed.

(** The in-place removal. *)
Lemma remove_at e l v pos :
  let s := Intset (intrev32ifbe be e) (intrev32ifbe be (zlen l)) (cells e l) in
  enc_ok e -> zlen l < 2 ^ 28 -> 0 <= pos -> l !! Z.to_nat pos = Some v ->
  (s ← (if pos <? zlen l - 1 then intsetMoveTail be s (pos + 1) pos else Some s);
   let s := intsetResize be junk s (zlen l - 1) in
   Some (Intset (is_encoding s) (intrev32ifbe be (zlen l - 1)) (is_contents s), true)) =
  Some (Intset (intrev32ifbe be e) (intrev32ifbe be (zlen l - 1))
          (cells e (take (Z.to_nat pos) l ++ drop (S (Z.to_nat pos)) l)), true).
Proof.
  intros s He Hl Hp Hv. unfold s; clear s.
  set (a := take (Z.to_nat pos) l) in *. set (b := drop (S (Z.to_nat pos)) l) in *.
  assert (Hab : l = a ++ v :: b) by (unfold a, b; now rewrite take_drop_middle).
  assert (Ha : zlen a = pos).
  { unfold a, zlen in *. rewrite length_take. apply lookup_lt_Some in Hv. lia. }
  assert (Hb : zlen b = zlen l - pos - 1) by (rewrite Hab at 1; rewrite zlen_app, zlen_cons; lia).
  clearbody a b. pose proof (zlen_nonneg b) as Hb0.
  assert (Hmid : exists x,
    (if pos <? zlen l - 1 then intsetMoveTail be
       (Intset (intrev32ifbe be e) (intrev32ifbe be (zlen l)) (cells e l)) (pos + 1) pos
     else Some (Intset (intrev32ifbe be e) (intrev32ifbe be (zlen l)) (cells e l))) =
    Some (Intset (intrev32ifbe be e) (intrev32ifbe be (zlen l)) ((cells e a ++ cells e b) ++ x))).
  { destruct (Z.ltb_spec pos (zlen l - 1)) as [Hlt|Hge].
    - destruct (cell_split e (le_bytes (Z.to_nat e) v ++ cells e b) (e * zlen b)) as (g & h & Hgh & Hg & Hh).
      { rewrite zlen_app, le_cell_zlen, cells_zlen by done. lia. }
      { unfold enc_ok in He. nia. } { unfold enc_ok in He. lia. }
      exists h. rewrite (moveTail_eq _ e (zlen l)) by (done || lia). simpl.
      assert (Hc : cells e l = cells e a ++ le_bytes (Z.to_nat e) v ++ cells e b)
        by (rewrite Hab at 1; now rewrite cells_app, cells_cons).
      erewrite (memmove_app (cells e a ++ le_bytes (Z.to_nat e) v) (cells e b) []); [done| | | |].
      + now rewrite app_nil_r, <- app_assoc.
      + rewrite zlen_app, cells_zlen, le_cell_zlen by done. lia.
      + rewrite cells_zlen by done. lia.
      + rewrite Hc, Hgh, <- app_assoc. apply store_app; rewrite ?cells_zlen by done; lia.
    - exists (le_bytes (Z.to_nat e) v).
      destruct b; [|rewrite zlen_cons in Hb; pose proof (zlen_nonneg b); lia].
      rewrite Hab at 2. rewrite cells_app, cells_cons, !app_nil_r. done. }
  destruct Hmid as (x & ->). cbn [mbind option_bind]. cbv zeta.
  rewrite (resize_eq _ e) by (done || lia). cbn [is_contents is_encoding].
  rewrite realloc_shrink; [now rewrite cells_app|].
  rewrite zlen_app, !cells_zlen by done. lia.
Qed.

End Proofs.

Lemma sorted_remove l v pos :
  StronglySorted Z.lt l -> l !! pos = Some v ->
  StronglySorted Z.lt (take pos l ++ drop (S pos) l) /\
  (list_to_set (take pos l ++ drop (S pos) l) : gset Z) = list_to_set l ∖ {[v]}.
Proof.
  intros Hs Hv. rewrite <- (take_drop_middle _ _ _ Hv) in Hs.
  replace (list_to_set l : gset Z) with
    (list_to_set (take pos l ++ v :: drop (S pos) l) : gset Z) by now rewrite take_drop_middle.
  revert Hs. generalize (take pos l) (drop (S pos) l). intros a b Hs.
  apply StronglySorted_app in Hs as (H1 & H2 & H3). apply StronglySorted_inv in H3 as [H3 H4].
  rewrite Forall_forall in H4. split.
  - apply StronglySorted_app_2; [|done|done]. intros. apply H1; set_solver.
  - assert (v ∉ a). { intros Hin. specialize (H1 v v Hin ltac:(set_solver)). lia. }
    assert (v ∉ b). { intros Hin. specialize (H4 v Hin). lia. }
    rewrite !list_to_set_app_L, list_to_set_cons. set_solver.
Qed.

(** ** Properties *)

Lemma intset_add_spec be junk s e l v :
  repr be s e l -> in_s 64 v -> zlen l + 1 < 2 ^ 28 ->
  exists s' l',
    intsetAdd be junk s v = Some (s', bool_decide (v ∉ l)) /\
    repr be s' (Z.max e (_intsetValueEncoding v)) l' /\
    (list_to_set l' : gset Z) = {[v]} ∪ list_to_set l.
Proof.
  intros H Hv Hsm. unfold intsetAdd. rewrite (enc_rd _ _ _ _ H), Z.gtb_ltb.
  pose proof (repr_enc _ _ _ _ H) as He. pose proof (repr_range _ _ _ _ H) as Hr.
  destruct (Z.ltb_spec e (_intsetValueEncoding v)) as [Hlt|Hge].
  - destruct (upgradeAndAdd_spec be junk s e l v H Hv Hlt Hsm) as (s' & -> & Hs').
    rewrite Z.max_r by lia. exists s'. eexists. split; [|split; [exact Hs'|]].
    + simpl. rewrite bool_decide_true; [done|]. intros Hin. rewrite Forall_forall in Hr.
      apply Hr in Hin. apply (valueEncoding_le v e Hv He) in Hin. lia.
    + destruct (v <? 0); rewrite ?list_to_set_app_L; set_solver.
  - rewrite Z.max_l by lia.
    destruct (search_spec be s e l v H) as [(pos & -> & Hp & Hl)|(pos & -> & Hp)];
      cbn [mbind option_bind]; cbv zeta.
    + exists s, l. rewrite bool_decide_false.
      2:{ intros Hn. apply Hn. by eapply list_elem_of_lookup_2. }
      split; [done|]. split; [done|]. apply list_elem_of_lookup_2 in Hl. set_solver.
    + pose proof Hp as (Hpr & _ & _). rewrite (repr_eta _ _ _ _ H).
      pose proof (add_at be junk e l v pos He Hsm Hpr) as E.
      cbn [mbind option_bind] in E. cbv zeta in E. rewrite E.
      eexists _, _. rewrite bool_decide_true by (by eapply insert_pos_not_in).
      split; [done|]. split; [|apply insert_pos_set].
      rewrite <- (insert_pos_length l v (Z.to_nat pos)).
      apply repr_intro; [done| | |now rewrite insert_pos_length].
      * apply Forall_app; split; [by apply Forall_take|]. constructor; [|by apply Forall_drop].
        now apply valueEncoding_le.
      * apply insert_pos_sorted; [apply (repr_sorted _ _ _ _ H)|done].
Qed.
(** C29: [intsetAdd] implements set insertion on every host: it never reads or
    writes outside its block, reports whether the value was new, keeps the
    array sorted and duplicate-free and widens the cells only when the value
    needs it. *)
Theorem intsetAdd_correct be junk s e l v :
  repr be s e l -> in_s 64 v -> zlen l + 1 < 2 ^ 28 ->
  exists s' l',
    intsetAdd be junk s v = Some (s', bool_decide (v ∉ l)) /\
    repr be s' (Z.max e (_intsetValueEncoding v)) l' /\
    (list_to_set l' : gset Z) = {[v]} ∪ list_to_set l.
Proof. apply intset_add_spec. Qed.

Lemma intset_remove_spec be junk s e l v :
  repr be s e l -> in_s 64 v ->
  exists s' l',
    intsetRemove be junk s v = Some (s', bool_decide (v ∈ l)) /\
    repr be s' e l' /\
    (list_to_set l' : gset Z) = list_to_set l ∖ {[v]}.
Proof.
  intros H Hv. unfold intsetRemove. rewrite (enc_rd _ _ _ _ H), (len_rd _ _ _ _ H).
  pose proof (repr_enc _ _ _ _ H) as He. pose proof (repr_range _ _ _ _ H) as Hr.
  assert (Hno : forall s, v ∉ l -> repr be s e l -> exists s' l',
    Some (s, false) = Some (s', bool_decide (v ∈ l)) /\ repr be s' e l' /\
    (list_to_set l' : gset Z) = list_to_set l ∖ {[v]}).
  { intros s0 Hn H0. exists s0, l. rewrite bool_decide_false by done. set_solver. }
  destruct (Z.leb_spec (_intsetValueEncoding v) e) as [Hle|Hgt].
  2:{ apply Hno; [|done]. intros Hin. rewrite Forall_forall in Hr.
      apply Hr in Hin. apply (valueEncoding_le v e Hv He) in Hin. lia. }
  destruct (search_spec be s e l v H) as [(pos & -> & Hp & Hl)|(pos & -> & Hp)];
    cbn [mbind option_bind]; cbv zeta.
  2:{ apply Hno; [|done]. by eapply insert_pos_not_in. }
  rewrite (repr_eta _ _ _ _ H). pose proof (repr_small _ _ _ _ H).
  pose proof (remove_at be junk e l v pos He ltac:(done) Hp Hl) as E.
  cbn [mbind option_bind] in E. cbv zeta in E. rewrite E.
  destruct (sorted_remove l v _ (repr_sorted _ _ _ _ H) Hl) as [Hs Hset].
  eexists _, _. split; [|split; [|exact Hset]].
  - rewrite bool_decide_true; [done|]. by eapply list_elem_of_lookup_2.
  - replace (zlen l - 1) with (zlen (take (Z.to_nat pos) l ++ drop (S (Z.to_nat pos)) l)).
    2:{ apply lookup_lt_Some in Hl. unfold zlen. rewrite length_app, length_take, length_drop. lia. }
    apply repr_intro; try done.
    + apply Forall_app. split; [by apply Forall_take|by apply Forall_drop].
    + apply lookup_lt_Some in Hl. unfold zlen in *. rewrite length_app, length_take, length_drop. lia.
Qed.
(** [intsetRemove] implements set removal, reporting whether the value was
    a member; the block stays well formed. *)
Theorem intsetRemove_correct be junk s e l v :
  repr be s e l -> in_s 64 v ->
  exists s' l',
    intsetRemove be junk s v = Some (s', bool_decide (v ∈ l)) /\
    repr be s' e l' /\
    (list_to_set l' : gset Z) = list_to_set l ∖ {[v]}.
Proof. apply intset_remove_spec. Qed.

Lemma intset_find_spec be s e l v pos :
  repr be s e l -> in_s 64 v -> 0 <= pos ->
  intsetFind be s v = Some (bool_decide (v ∈ l)) /\
  intsetGet be s pos = Some (l !! Z.to_nat pos) /\
  intsetLen be s = zlen l /\
  intsetBlobLen be s = sizeof_intset + zlen (is_contents s).
Proof.
  intros H Hv Hpos. pose proof (repr_enc _ _ _ _ H) as He. pose proof (repr_range _ _ _ _ H) as Hr.
  unfold intsetFind, intsetGet, intsetLen, intsetBlobLen.
  rewrite (enc_rd _ _ _ _ H), (len_rd _ _ _ _ H). split; [|split; [|split; [done|]]].
  - destruct (Z.leb_spec (_intsetValueEncoding v) e) as [Hle|Hgt].
    + destruct (search_spec be s e l v H) as [(p & -> & Hp & Hl)|(p & -> & Hp)]; simpl.
      * rewrite bool_decide_true; [done|]. by eapply list_elem_of_lookup_2.
      * rewrite bool_decide_false; [done|]. by eapply insert_pos_not_in.
    + rewrite bool_decide_false; [done|]. intros Hin. rewrite Forall_forall in Hr.
      apply Hr in Hin. apply (valueEncoding_le v e Hv He) in Hin. lia.
  - destruct (Z.ltb_spec pos (zlen l)) as [Hlt|Hge].
    + destruct (lookup_lt_is_Some_2 l (Z.to_nat pos)) as [x Hx]; [unfold zlen in Hlt; lia|].
      now rewrite (get_spec be s e l pos x H Hpos Hx), Hx.
    + rewrite lookup_ge_None_2 by (unfold zlen in Hge; lia). done.
  - rewrite (repr_contents _ _ _ _ H), cells_zlen by done. f_equal.
    pose proof (repr_small _ _ _ _ H). pose proof (zlen_nonneg l).
    rewrite wrapu_small; [lia|]. unfold enc_ok in He. zpow. nia.
Qed.
(** [intsetFind] decides membership, [intsetGet] returns the [pos]-th
    smallest element inside the range and nothing outside it, and
    [intsetBlobLen] is the size of header plus block. *)
Theorem intsetFind_Get_correct be s e l v pos :
  repr be s e l -> in_s 64 v -> 0 <= pos ->
  intsetFind be s v = Some (bool_decide (v ∈ l)) /\
  intsetGet be s pos = Some (l !! Z.to_nat pos) /\
  intsetLen be s = zlen l /\
  intsetBlobLen be s = sizeof_intset + zlen (is_contents s).
Proof. apply intset_find_spec. Qed.

Lemma repr_new be : repr be (intsetNew be) 2 [].
Proof.
  constructor; try constructor; try done.
  unfold intsetNew, intrev32ifbe, intrev32. simpl. destruct be; done.
Qed.

Lemma intsetAdd_witness : exists s' l',
  intsetAdd true (fun _ => 7) (intsetNew true) 70000 = Some (s', true) /\
  repr true s' 4 l' /\ (list_to_set l' : gset Z) = {[70000]}.
Proof.
  destruct (intsetAdd_correct true (fun _ => 7) _ _ _ 70000 (repr_new true)) as (s' & l' & H1 & H2 & H3).
  - unfold in_s. lia.
  - unfold zlen. simpl. lia.
  - exists s', l'. split; [exact H1|]. split; [exact H2|]. set_solver.
Defined.

Lemma one_repr : repr false (Intset 2 2 [251; 255; 3; 0]) 2 [-5; 3].
Proof.
  constructor; try done; [left; done| |]; repeat constructor; unfold in_s; simpl; lia.
Qed.

Lemma intsetRemove_witness : exists s' l',
  intsetRemove false (fun _ => 0) (Intset 2 2 [251; 255; 3; 0]) 3 = Some (s', true) /\
  repr false s' 2 l' /\ (list_to_set l' : gset Z) = {[-5]}.
Proof.
  destruct (intsetRemove_correct false (fun _ => 0) _ _ _ 3 one_repr) as (s' & l' & H1 & H2 & H3).
  - unfold in_s. lia.
  - exists s', l'. split; [exact H1|]. split; [exact H2|]. rewrite H3. vm_compute. reflexivity.
Defined.

Lemma intsetFind_witness :
  intsetFind false (Intset 2 2 [251; 255; 3; 0]) (-5) = Some true /\
  intsetGet false (Intset 2 2 [251; 255; 3; 0]) 1 = Some (Some 3).
Proof.
  destruct (intsetFind_Get_correct false _ _ _ (-5) 1 one_repr) as (H1 & H2 & _ & _).
  - unfold in_s. lia.
  - lia.
  - split; [exact H1|exact H2].
Defined.
