(* ===== verification/Util.v ===== *)
(** * util.c: numbers to strings and back, glob patterns, memory amounts

    [digits10], [ll2string], [string2ll] and their variants are proved exact
    against the plain decimal notation [dec]; [stringmatchlen] against a
    declarative meaning of glob patterns. *)
From Stdlib Require Import String.
From S2P Require Import Prelude.

(** ** digits10, sdigits10 *)
Definition b2z (b : bool) : Z := if b then 1 else 0.

(** The recursion divides by 10^12: two calls cover 64 bits, [fuel] 3. *)
Fixpoint digits10_rec (fuel : nat) (v : Z) : Z :=
  if v <? 10 then 1
  else if v <? 100 then 2
  else if v <? 1000 then 3
  else if v <? 1000000000000 then
    if v <? 100000000 then
      if v <? 1000000 then
        if v <? 10000 then 4 else 5 + b2z (v >=? 100000)
      else 7 + b2z (v >=? 10000000)
    else if v <? 10000000000 then 9 + b2z (v >=? 1000000000)
    else 11 + b2z (v >=? 100000000000)
  else match fuel with
       | O => 0
       | S fuel => 12 + digits10_rec fuel (v / 1000000000000)
       end.
Definition digits10 (v : Z) : Z := digits10_rec 2 v.

Definition sdigits10 (v : Z) : Z :=
  if v <? 0 then
    let uv := if negb (v =? LLONG_MIN) then u64 (- v) else u64 (LLONG_MAX + 1) in
    digits10 uv + 1
  else digits10 v.

(** ** ll2string *)
Definition digits_table : list Z := bytes_of_string
  ("0001020304050607080910111213141516171819" ++
   "2021222324252627282930313233343536373839" ++
   "4041424344454647484950515253545556575859" ++
   "6061626364656667686970717273747576777879" ++
   "8081828384858687888990919293949596979899")%string.

(** [while (value >= 100)]; returns [(dst, next, value)]. *)
Fixpoint ll2string_loop (fuel : nat) (dst : list Z) (next value : Z) : option (list Z * Z * Z) :=
  if value >=? 100 then
    match fuel with
    | O => None
    | S fuel =>
        let i := (value mod 100) * 2 in
        let value := value / 100 in
        c1 ← load1 digits_table (i + 1);
        c0 ← load1 digits_table i;
        dst ← store dst next [c1];
        dst ← store dst (u32 (next - 1)) [c0];
        ll2string_loop fuel dst (u32 (next - 2)) value
    end
  else Some (dst, next, value).

(** Returns the length and the buffer; [dstlen] is the size of [dst]. *)
Definition ll2string (dst : list Z) (dstlen svalue : Z) : option (Z * list Z) :=
  let value := if svalue <? 0 then
                 if negb (svalue =? LLONG_MIN) then u64 (- svalue) else u64 (LLONG_MAX + 1)
               else svalue in
  let negative := if svalue <? 0 then 1 else 0 in
  let length := u32 (digits10 value + negative) in
  if length >=? dstlen then Some (0, dst)
  else
    dst ← store dst length [0];
    let next := u32 (length - 1) in
    '(dst, next, value) ← ll2string_loop 10 dst next value;
    dst ← (if value <? 10 then store dst next [48 + u32 value]
           else
             let i := u32 value * 2 in
             c1 ← load1 digits_table (i + 1);
             c0 ← load1 digits_table i;
             dst ← store dst next [c1];
             store dst (u32 (next - 1)) [c0]);
    dst ← (if negative =? 1 then store dst 0 [45] else Some dst);
    Some (length, dst).

(** ** string2ll, string2l, string2ull *)

(** The digit loop: [None] is an overflow, [Some (v, p)] the accumulated value
    and the unread rest. *)
Fixpoint string2ll_loop (p : list Z) (v : Z) : option (Z * list Z) :=
  match p with
  | c :: p' =>
      if (c >=? 48) && (c <=? 57) then
        if v >? ULLONG_MAX / 10 then None
        else
          let v := u64 (v * 10) in
          if v >? ULLONG_MAX - (c - 48) then None
          else string2ll_loop p' (u64 (v + (c - 48)))
      else Some (v, p)
  | [] => Some (v, [])
  end.

Definition string2ll (s : list Z) : option Z :=
  match s with
  | [] => None
  | c :: s' =>
      if (zlen s =? 1) && (c =? 48) then Some 0 else
      let negative := c =? 45 in
      let p := if negative then s' else s in
      match p with
      | [] => None
      | d :: p =>
          if (d >=? 49) && (d <=? 57) then
            match string2ll_loop p (d - 48) with
            | Some (v, []) =>
                if negative then
                  if v >? u64 (- (LLONG_MIN + 1)) + 1 then None else Some (s64 (u64 (- v)))
                else if v >? LLONG_MAX then None else Some (s64 v)
            | _ => None
            end
          else None
      end
  end.

(** [long] has 64 bits. *)
Definition LONG_MAX : Z := LLONG_MAX.
Definition LONG_MIN : Z := LLONG_MIN.

Definition string2l (s : list Z) : option Z :=
  match string2ll s with
  | None => None
  | Some llval => if (llval <? LONG_MIN) || (llval >? LONG_MAX) then None else Some llval
  end.

(** *** strtoull, strtoll of the C library, base 10

    Leading blanks, an optional sign, digits; [(value, endptr, range error)].
    With no digit at all the conversion yields 0 and [endptr] is the start. *)
Fixpoint skip_blanks (s : list Z) : list Z :=
  match s with c :: s' => if isspace c then skip_blanks s' else s | [] => [] end.
Definition take_sign (s : list Z) : bool * list Z :=
  match s with
  | c :: s' => if c =? 45 then (true, s') else if c =? 43 then (false, s') else (false, s)
  | [] => (false, s)
  end.
Fixpoint take_digits (s : list Z) (v : Z) : Z * list Z :=
  match s with
  | c :: s' => if isdigit c then take_digits s' (v * 10 + (c - 48)) else (v, s)
  | [] => (v, [])
  end.
Definition strto (s : list Z) : option (bool * Z * list Z) :=
  let '(neg, s1) := take_sign (skip_blanks s) in
  match s1 with
  | c :: _ => if isdigit c then let '(v, r) := take_digits s1 0 in Some (neg, v, r) else None
  | [] => None
  end.
Definition strtoull (s : list Z) : Z * list Z * bool :=
  match strto s with
  | None => (0, s, false)
  | Some (neg, v, r) =>
      if v >? ULLONG_MAX then (ULLONG_MAX, r, true)
      else (if neg then u64 (- v) else v, r, false)
  end.
Definition strtoll (s : list Z) : Z * list Z * bool :=
  match strto s with
  | None => (0, s, false)
  | Some (neg, v, r) =>
      let v := if neg then - v else v in
      if v >? LLONG_MAX then (LLONG_MAX, r, true)
      else if v <? LLONG_MIN then (LLONG_MIN, r, true) else (v, r, false)
  end.

(** A C string inside a buffer: the bytes before the first NUL. *)
Fixpoint cstr (s : list Z) : list Z :=
  match s with [] => [] | c :: s' => if c =? 0 then [] else c :: cstr s' end.

Definition string2ull (s : list Z) : option Z :=
  let s := cstr s in
  match string2ll s with
  | Some ll => if ll <? 0 then None else Some ll
  | None =>
      let '(value, endptr, erange) := strtoull s in
      if erange || negb (match s, endptr with _ :: _, [] => true | _, _ => false end)
      then None else Some value
  end.

(** ** memtoll

    [einval] says whether the C library reports EINVAL for a conversion with
    no digits, which POSIX leaves open. The result is [(value, err)]. *)
Fixpoint strcasecmp_eq (a b : list Z) : bool :=
  match a, b with
  | [], [] => true
  | x :: a, y :: b => (tolower x =? tolower y) && strcasecmp_eq a b
  | _, _ => false
  end.
Fixpoint span_digits (s : list Z) : list Z * list Z :=
  match s with
  | c :: s' => if isdigit c then let '(d, r) := span_digits s' in (c :: d, r) else ([], s)
  | [] => ([], [])
  end.
Definition memtoll (einval : bool) (p : list Z) : Z * bool :=
  let p := cstr p in
  let '(sign, u) := match p with
                    | c :: u => if c =? 45 then ([45], u) else ([], p)
                    | [] => ([], p)
                    end in
  let '(ds, u) := span_digits u in
  let unit_is x := strcasecmp_eq u (bytes_of_string x) in
  let mul :=
    if match u with [] => true | _ => false end || unit_is "b"%string then Some 1
    else if unit_is "k"%string then Some 1000
    else if unit_is "kb"%string then Some 1024
    else if unit_is "m"%string then Some (1000 * 1000)
    else if unit_is "mb"%string then Some (1024 * 1024)
    else if unit_is "g"%string then Some (1000 * 1000 * 1000)
    else if unit_is "gb"%string then Some (1024 * 1024 * 1024)
    else None in
  match mul with
  | None => (0, true)
  | Some mul =>
      let buf := (sign ++ ds)%list in
      if zlen buf >=? 128 then (0, true)
      else
        let '(val, endptr, _) := strtoll buf in
        let noconv := match strto buf with None => einval | Some _ => false end in
        if ((val =? 0) && noconv) || match endptr with [] => false | _ => true end
        then (0, true)
        else (s64 (val * mul), false)
  end.

(** ** Plain decimal notation *)

(** [udec_n fuel v]: the decimal digits of [v], most significant first; 20
    digits cover every 64 bit value. *)
Fixpoint udec_n (fuel : nat) (v : Z) : list Z :=
  match fuel with
  | O => []
  | S fuel => if v <? 10 then [48 + v] else udec_n fuel (v / 10) ++ [48 + v mod 10]
  end.
Definition udec (v : Z) : list Z := udec_n 20 v.
Definition dec (v : Z) : list Z := if v <? 0 then 45 :: udec (- v) else udec v.

Lemma udec_n_mono n m v :
  0 <= v < 10 ^ Z.of_nat n -> (n <= m)%nat -> (0 < n)%nat -> udec_n m v = udec_n n v.
Proof.
  revert m v. induction n as [|n IH]; intros m v Hv Hm Hn; [lia|].
  destruct m as [|m]; [lia|]. simpl. destruct (Z.ltb_spec v 10); [done|].
  rewrite Nat2Z.inj_succ, Z.pow_succ_r in Hv by lia.
  assert (v / 10 < 10 ^ Z.of_nat n) by (apply Z.div_lt_upper_bound; lia).
  assert (0 < v / 10) by (apply Z.div_str_pos; lia).
  rewrite (IH m); [done|lia|lia|]. destruct n; [simpl in *; lia|lia].
Qed.

Lemma udec_n_S n v :
  udec_n (S n) v = if v <? 10 then [48 + v] else udec_n n (v / 10) ++ [48 + v mod 10].
Proof. done. Qed.

#[local] Opaque udec_n.

Lemma udec_step v :
  10 <= v < 10 ^ 20 -> udec v = udec (v / 10) ++ [48 + v mod 10].
Proof.
  intros Hv. unfold udec. rewrite (udec_n_S 19 v).
  destruct (Z.ltb_spec v 10); [lia|]. rewrite (udec_n_mono 19 20); [done| |lia|lia].
  split; [apply Z.div_pos; lia|]. apply Z.div_lt_upper_bound; [lia|].
  change (10 * 10 ^ Z.of_nat 19) with (10 ^ 20). lia.
Qed.

Lemma udec_small v : 0 <= v < 10 -> udec v = [48 + v].
Proof. intros. unfold udec. rewrite udec_n_S. destruct (Z.ltb_spec v 10); [done|lia]. Qed.

Lemma udec_step2 v :
  100 <= v < 10 ^ 20 ->
  udec v = udec (v / 100) ++ [48 + (v mod 100) / 10; 48 + (v mod 100) mod 10].
Proof.
  intros Hv. rewrite (udec_step v) by lia.
  assert (10 <= v / 10 < 10 ^ 19) by (split; [apply Z.div_le_lower_bound|apply Z.div_lt_upper_bound]; lia).
  rewrite (udec_step (v / 10)) by lia. rewrite Z.div_div, <- app_assoc by lia. simpl.
  assert ((v / 10) mod 10 = (v mod 100) / 10) as -> by (Z.div_mod_to_equations; lia).
  assert ((v mod 100) mod 10 = v mod 10) as -> by (Z.div_mod_to_equations; lia).
  done.
Qed.

(** Number of digits. *)
Lemma udec_length k v :
  (k < 20)%nat -> 0 <= v < 10 ^ Z.of_nat (S k) -> (k = 0%nat \/ 10 ^ Z.of_nat k <= v) ->
  length (udec v) = S k.
Proof.
  revert v. induction k as [|k IH]; intros v Hk Hv Hlo.
  - now rewrite udec_small by (simpl in Hv; lia).
  - destruct Hlo as [|Hlo]; [lia|].
    assert (10 <= v).
    { transitivity (10 ^ Z.of_nat (S k)); [|done]. rewrite Nat2Z.inj_succ, Z.pow_succ_r by lia.
      assert (0 < 10 ^ Z.of_nat k) by (apply Z.pow_pos_nonneg; lia). lia. }
    assert (v < 10 ^ 20).
    { eapply Z.lt_le_trans; [apply Hv|]. apply Z.pow_le_mono_r; lia. }
    rewrite udec_step, length_app by lia. rewrite (IH (v / 10)); [simpl; lia|lia| |].
    + rewrite Nat2Z.inj_succ, Z.pow_succ_r in Hv by lia. split; [apply Z.div_pos; lia|].
      apply Z.div_lt_upper_bound; lia.
    + right. apply Z.div_le_lower_bound; [lia|]. now rewrite <- Z.pow_succ_r, <- Nat2Z.inj_succ by lia.
Qed.

(** [digits10] splits the range exactly at the powers of ten. *)
Definition ndigits (v n : Z) : Prop :=
  1 <= n /\ v < 10 ^ n /\ (n = 1 \/ 10 ^ (n - 1) <= v).

Lemma digits10_rec_spec fuel v :
  0 <= v < 10 ^ 12 -> digits10_rec fuel v <= 12 /\ ndigits v (digits10_rec fuel v).
Proof.
  intros Hv. unfold ndigits. destruct fuel; simpl digits10_rec; unfold b2z; rewrite ?Z.geb_leb.
  all: zcase; try lia.
Qed.

Lemma digits10_rec_big fuel v :
  10 ^ 12 <= v -> digits10_rec (S fuel) v = 12 + digits10_rec fuel (v / 10 ^ 12).
Proof. intros. simpl. zcase; (lia || reflexivity). Qed.

Lemma digits10_spec v : 0 <= v < 2 ^ 64 -> digits10 v <= 20 /\ ndigits v (digits10 v).
Proof.
  intros Hv. unfold digits10. destruct (Z.ltb_spec v (10 ^ 12)) as [Hlt|Hge].
  { destruct (digits10_rec_spec 2 v) as [? ?]; [lia|]. split; [lia|done]. }
  assert (Hq : 1 <= v / 10 ^ 12 < 10 ^ 8)
    by (split; [apply Z.div_le_lower_bound|apply Z.div_lt_upper_bound]; lia).
  rewrite digits10_rec_big by done.
  destruct (digits10_rec_spec 1 (v / 10 ^ 12)) as [H12 (H1 & H2 & H3)]; [lia|].
  set (n := digits10_rec 1 (v / 10 ^ 12)) in *. clearbody n.
  assert (Hn : n <= 8).
  { destruct (Z.le_gt_cases n 8) as [|Hgt]; [done|]. destruct H3 as [|H3]; [lia|].
    assert (10 ^ 8 <= 10 ^ (n - 1)) by (apply Z.pow_le_mono_r; lia). lia. }
  pose proof (Z.div_mod v (10 ^ 12)) as Hdm. pose proof (Z.mod_pos_bound v (10 ^ 12)) as Hmb.
  split; [lia|]. split; [lia|]. split; [rewrite Z.pow_add_r by lia; nia|].
  right. destruct H3 as [->|H3]; [lia|].
  replace (12 + n - 1) with (12 + (n - 1)) by lia. rewrite Z.pow_add_r by lia. nia.
Qed.

Lemma digits10_udec v : 0 <= v < 2 ^ 64 -> digits10 v = zlen (udec v).
Proof.
  intros Hv. destruct (digits10_spec v Hv) as [H20 (H1 & H2 & H3)].
  set (n := digits10 v) in *. clearbody n. unfold zlen.
  rewrite (udec_length (Z.to_nat (n - 1))); [lia|lia| |].
  - replace (Z.of_nat (S (Z.to_nat (n - 1)))) with n by lia. lia.
  - replace (Z.of_nat (Z.to_nat (n - 1))) with (n - 1) by lia. lia.
Qed.

Lemma table_spec m :
  0 <= m < 100 ->
  load1 digits_table (m * 2 + 1) = Some (48 + m mod 10) /\
  load1 digits_table (m * 2) = Some (48 + m / 10).
Proof.
  intros Hm.
  assert (H : forallb (fun k => let m := Z.of_nat k in
     match load1 digits_table (m * 2 + 1), load1 digits_table (m * 2) with
     | Some a, Some b => (a =? 48 + m mod 10) && (b =? 48 + m / 10)
     | _, _ => false end) (seq 0 100) = true) by (vm_compute; reflexivity).
  rewrite forallb_forall in H. specialize (H (Z.to_nat m)).
  rewrite Z2Nat.id in H by lia. cbv zeta in H.
  destruct (load1 _ (m * 2 + 1)), (load1 _ (m * 2)); specialize (H ltac:(apply in_seq; lia)); try done.
  zb. split; congruence.
Qed.

Lemma zsnoc (l : list Z) n : zlen l = n + 1 -> 0 <= n -> exists l' x, l = l' ++ [x] /\ zlen l' = n.
Proof.
  intros Hl Hn. destruct l as [|x l _] using rev_ind; [unfold zlen in Hl; simpl in Hl; lia|].
  exists l, x. split; [done|]. rewrite zlen_app in Hl. unfold zlen in *; simpl in *; lia.
Qed.

(** Writing the last byte of the unwritten part. *)
Lemma store_last hole x tail y off :
  off = zlen hole -> store ((hole ++ [x]) ++ tail) off [y] = Some ((hole ++ [y]) ++ tail).
Proof. intros ->. rewrite <- !app_assoc. now apply store_app. Qed.

Lemma udec_pos v : 0 <= v < 10 ^ 20 -> 1 <= zlen (udec v).
Proof.
  intros. destruct (Z.ltb_spec v 10).
  - rewrite udec_small by lia. done.
  - rewrite udec_step, zlen_app by lia. pose proof (zlen_nonneg (udec (v / 10))). unfold zlen at 2. simpl. lia.
Qed.

(** The buffer is [hole ++ tail]: [hole] is still to be written, back to front. *)
Lemma ll2string_loop_spec fuel value hole tail next neg :
  0 <= value < 100 ^ (Z.of_nat fuel + 1) -> value < 10 ^ 20 -> 0 <= neg <= 1 ->
  zlen hole = next + 1 -> next + 1 = zlen (udec value) + neg -> next < 2 ^ 32 ->
  exists hole' ds value' next',
    ll2string_loop fuel (hole ++ tail) next value = Some (hole' ++ ds ++ tail, next', value') /\
    0 <= value' < 100 /\ udec value = udec value' ++ ds /\
    zlen hole' = next' + 1 /\ next' + 1 = zlen (udec value') + neg /\ next' < 2 ^ 32.
Proof.
  revert value hole tail next. induction fuel as [|fuel IH];
    intros value hole tail next Hv H20 Hneg Hh Hn H32; simpl; rewrite Z.geb_leb;
    destruct (Z.leb_spec 100 value) as [Hge|Hlt].
  1: { simpl in Hv. lia. }
  1,3: exists hole, [], value, next; rewrite app_nil_r; repeat (split; [done || lia|]); lia.
  assert (Hm : 0 <= value mod 100 < 100) by (apply Z.mod_pos_bound; lia).
  destruct (table_spec _ Hm) as [-> ->]. cbn [mbind option_bind].
  pose proof (udec_step2 value ltac:(lia)) as Hud.
  assert (Hq : 0 <= value / 100 < 100 ^ (Z.of_nat fuel + 1)).
  { split; [apply Z.div_pos; lia|]. apply Z.div_lt_upper_bound; [lia|].
    rewrite <- Z.pow_succ_r by lia. replace (Z.succ (Z.of_nat fuel + 1)) with (Z.of_nat (S fuel) + 1) by lia. lia. }
  assert (value / 100 < 10 ^ 18) by (apply Z.div_lt_upper_bound; lia).
  pose proof (udec_pos (value / 100) ltac:(lia)) as Hpos.
  assert (Hlen : zlen (udec value) = zlen (udec (value / 100)) + 2) by (rewrite Hud, zlen_app; done).
  destruct (zsnoc hole next) as (h1 & x1 & -> & Hh1); [lia|lia|].
  destruct (zsnoc h1 (next - 1)) as (h2 & x2 & -> & Hh2); [lia|lia|].
  rewrite store_last by lia. cbn [mbind option_bind].
  rewrite (wrapu_small 32 (next - 1)) by lia. rewrite <- app_assoc.
  rewrite store_last by lia. cbn [mbind option_bind].
  rewrite (wrapu_small 32 (next - 2)) by lia. rewrite <- app_assoc.
  destruct (IH (value / 100) h2 ([48 + (value mod 100) / 10] ++ [48 + (value mod 100) mod 10] ++ tail) (next - 2))
    as (hole' & ds & value' & next' & E & E1 & E2 & E3 & E4 & E5); try lia.
  exists hole', (ds ++ [48 + (value mod 100) / 10; 48 + (value mod 100) mod 10]), value', next'.
  rewrite E. split; [now rewrite <- !app_assoc|]. split; [done|].
  split; [now rewrite Hud, E2, <- app_assoc|]. auto.
Qed.

Lemma last_digits hole tail value next neg :
  0 <= value < 100 -> zlen hole = next + 1 -> next + 1 = zlen (udec value) + neg ->
  0 <= neg <= 1 -> next < 2 ^ 32 ->
  exists hole', zlen hole' = neg /\
  (if value <? 10 then store (hole ++ tail) next [48 + u32 value]
   else
     let i := u32 value * 2 in
     c1 ← load1 digits_table (i + 1);
     c0 ← load1 digits_table i;
     dst ← store (hole ++ tail) next [c1];
     store dst (u32 (next - 1)) [c0]) = Some (hole' ++ udec value ++ tail).
Proof.
  intros Hv Hh Hn Hneg H32. destruct (Z.ltb_spec value 10) as [Hlt|Hge].
  - rewrite wrapu_small by lia. rewrite udec_small in * by lia. unfold zlen in Hn at 1; simpl in Hn.
    destruct (zsnoc hole next) as (h & x & -> & Hh'); [lia|lia|].
    exists h. split; [lia|]. rewrite store_last by lia. now rewrite <- app_assoc.
  - rewrite wrapu_small by lia. cbv zeta. destruct (table_spec value Hv) as [-> ->]. cbn [mbind option_bind].
    assert (Hu : udec value = [48 + value / 10; 48 + value mod 10]).
    { rewrite udec_step by lia. rewrite udec_small; [done|]. Z.div_mod_to_equations; lia. }
    rewrite Hu in *. unfold zlen in Hn at 1; simpl in Hn.
    destruct (zsnoc hole next) as (h1 & x1 & -> & Hh1); [lia|lia|].
    destruct (zsnoc h1 (next - 1)) as (h2 & x2 & -> & Hh2); [lia|lia|].
    rewrite store_last by lia. cbn [mbind option_bind].
    rewrite wrapu_small, <- app_assoc by lia. rewrite store_last by lia.
    exists h2. split; [lia|]. now rewrite <- !app_assoc.
Qed.

(** [value] and [negative] of the C code. *)
Definition ll_abs (v : Z) : Z :=
  if v <? 0 then
    if negb (v =? LLONG_MIN) then u64 (- v) else u64 (LLONG_MAX + 1)
  else v.

Lemma ll_abs_eq v : in_s 64 v -> ll_abs v = Z.abs v.
Proof.
  unfold in_s, ll_abs, LLONG_MIN, LLONG_MAX. intros Hv.
  destruct (Z.ltb_spec v 0); [|lia].
  destruct (Z.eqb_spec v (-9223372036854775808)); simpl negb; cbn iota;
    rewrite wrapu_small by plia; lia.
Qed.

Lemma dec_abs v : dec v = (if v <? 0 then [45] else []) ++ udec (Z.abs v).
Proof.
  unfold dec. destruct (Z.ltb_spec v 0); simpl; [rewrite Z.abs_neq by lia|rewrite Z.abs_eq by lia]; done.
Qed.

(** Length of the notation, as [ll2string] computes it. *)
Lemma dec_length v :
  in_s 64 v -> zlen (dec v) = digits10 (Z.abs v) + (if v <? 0 then 1 else 0) /\ 1 <= zlen (dec v) <= 21.
Proof.
  intros Hv. unfold in_s in Hv. assert (Hb : 0 <= Z.abs v < 2 ^ 64) by plia.
  rewrite dec_abs, zlen_app, digits10_udec by done.
  pose proof (digits10_spec _ Hb) as [H20 [H1 _]]. rewrite digits10_udec in H20, H1 by done.
  destruct (v <? 0); unfold zlen in *; simpl length in *; lia.
Qed.

Lemma sdigits10_dec v : in_s 64 v -> sdigits10 v = zlen (dec v).
Proof.
  intros Hv. rewrite (proj1 (dec_length v Hv)). unfold sdigits10.
  pose proof (ll_abs_eq v Hv) as E. unfold ll_abs in E.
  destruct (Z.ltb_spec v 0); [now rewrite E|]. rewrite Z.abs_eq by lia. lia.
Qed.

(** [digits10] and [sdigits10] return exactly the length of the decimal
    notation of every 64 bit unsigned and signed value. *)
Theorem digits10_exact v :
  (in_u 64 v -> digits10 v = zlen (udec v)) /\ (in_s 64 v -> sdigits10 v = zlen (dec v)).
Proof. split; [apply digits10_udec|apply sdigits10_dec]. Qed.

Lemma digits10_witness :
  digits10 18446744073709551615 = 20 /\ sdigits10 (-9223372036854775808) = 20.
Proof.
  split.
  - rewrite (proj1 (digits10_exact 18446744073709551615)); [vm_compute; reflexivity|unfold in_u; lia].
  - rewrite (proj2 (digits10_exact (-9223372036854775808))); [vm_compute; reflexivity|unfold in_s; lia].
Defined.

Lemma ll2string_spec dst v :
  in_s 64 v -> zlen dst < 2 ^ 64 ->
  ll2string dst (zlen dst) v =
  Some (if zlen (dec v) <? zlen dst
        then (zlen (dec v), dec v ++ [0] ++ drop (S (length (dec v))) dst)
        else (0, dst)).
Proof.
  intros Hv Hd. destruct (dec_length v Hv) as [Hlen Hb].
  unfold ll2string. change (if v <? 0 then if negb (v =? LLONG_MIN) then u64 (- v) else u64 (LLONG_MAX + 1) else v)
    with (ll_abs v). rewrite (ll_abs_eq v Hv), <- Hlen, (wrapu_small 32) by lia.
  rewrite Z.geb_leb. destruct (Z.leb_spec (zlen dst) (zlen (dec v))) as [Hle|Hlt].
  { now rewrite (proj2 (Z.ltb_ge _ _)) by lia. }
  rewrite (proj2 (Z.ltb_lt (zlen (dec v)) (zlen dst))) by lia.
  set (neg := if v <? 0 then 1 else 0) in *. assert (Hneg : 0 <= neg <= 1) by (unfold neg; destruct (v <? 0); lia).
  unfold in_s in Hv. assert (Habs : 0 <= Z.abs v < 2 ^ 64) by plia.
  rewrite digits10_udec in Hlen by done.
  set (k := length (dec v)). assert (Hk : Z.of_nat k = zlen (dec v)) by done.
  assert (Hsplit : exists h x t, dst = h ++ [x] ++ t /\ zlen h = zlen (dec v) /\ t = drop (S k) dst).
  { destruct (lookup_lt_is_Some_2 dst k) as [x Hx]; [unfold zlen in *; lia|].
    exists (take k dst), x, (drop (S k) dst). split; [symmetry; simpl; by apply take_drop_middle|].
    split; [|done]. unfold zlen in *. rewrite length_take. lia. }
  destruct Hsplit as (h & x & t & -> & Hh & Ht). rewrite <- Ht. clear Ht.
  rewrite (store_app h [x] [0]) by done. cbn [mbind option_bind].
  rewrite (wrapu_small 32 (zlen (dec v) - 1)) by lia.
  destruct (ll2string_loop_spec 10 (Z.abs v) h ([0] ++ t) (zlen (dec v) - 1) neg)
    as (h' & ds & value' & next' & -> & E1 & E2 & E3 & E4 & E5); try lia.
  cbn [mbind option_bind].
  destruct (last_digits h' (ds ++ [0] ++ t) value' next' neg) as (h2 & Hh2 & E6); try done.
  cbv zeta in E6 |- *. cbn [mbind option_bind] in E6. rewrite E6. cbn [mbind option_bind]. rewrite dec_abs, E2. unfold neg in *.
  destruct (v <? 0); simpl Z.eqb; cbn iota.
  - destruct h2 as [|y [|? ?]]; try (unfold zlen in Hh2; simpl in Hh2; lia).
    rewrite (store_head [y] [45]) by done. cbn [mbind option_bind]. now rewrite <- !app_assoc.
  - destruct h2; [|unfold zlen in Hh2; simpl in Hh2; lia]. cbn [mbind option_bind].
    simpl. now rewrite <- !app_assoc.
Qed.

(** [ll2string] stores the decimal notation of every 64 bit value and its
    NUL, leaves the rest of the buffer alone and returns the length; when the
    buffer is too small it returns 0 and writes nothing.  No access is outside
    the buffer. *)
Theorem ll2string_correct dst v :
  in_s 64 v -> zlen dst < 2 ^ 64 ->
  ll2string dst (zlen dst) v =
  Some (if zlen (dec v) <? zlen dst
        then (zlen (dec v), dec v ++ [0] ++ drop (S (length (dec v))) dst)
        else (0, dst)).
Proof. apply ll2string_spec. Qed.

Lemma ll2string_witness :
  ll2string (replicate 6 1) (zlen (replicate 6 1)) (-123) = Some (4, [45; 49; 50; 51; 0; 1]) /\
  ll2string (replicate 4 1) (zlen (replicate 4 1)) (-123) = Some (0, replicate 4 1).
Proof.
  split.
  - rewrite (ll2string_correct (replicate 6 1) (-123)); [vm_compute; reflexivity|unfold in_s; lia|done].
  - rewrite (ll2string_correct (replicate 4 1) (-123)); [vm_compute; reflexivity|unfold in_s; lia|done].
Defined.

(** ** Parsing *)
Definition digit_ok (c : Z) : Prop := 48 <= c <= 57.
Definition dval (l : list Z) (v : Z) : Z := fold_left (fun v c => v * 10 + (c - 48)) l v.

Lemma dval_snoc l c v : dval (l ++ [c]) v = dval l v * 10 + (c - 48).
Proof. unfold dval. now rewrite fold_left_app. Qed.

Lemma dval_ge l v : Forall digit_ok l -> 0 <= v -> v <= dval l v.
Proof.
  intros Hl. revert v. induction Hl as [|c l Hc _ IH]; intros v Hv; [done|].
  unfold dval in *. simpl. unfold digit_ok in Hc. specialize (IH (v * 10 + (c - 48))). lia.
Qed.

(** The loop succeeds exactly when the remaining bytes are all digits and the
    value fits 64 bits. *)
Lemma string2ll_loop_spec p v :
  0 <= v <= ULLONG_MAX ->
  forall w, string2ll_loop p v = Some (w, []) <->
            Forall digit_ok p /\ w = dval p v /\ w <= ULLONG_MAX.
Proof.
  revert v. induction p as [|c p IH]; intros v Hv w.
  { simpl. split; [intros [= <-]; split; [constructor|]; unfold dval; simpl; lia|].
    intros (_ & -> & _). done. }
  simpl string2ll_loop. rewrite !Z.geb_leb, !Z.gtb_ltb.
  destruct (Z.leb_spec 48 c) as [H48|H48]; simpl andb.
  2:{ split; [intros [=]|]. intros (H & _). inversion_clear H. unfold digit_ok in *. lia. }
  destruct (Z.leb_spec c 57) as [H57|H57].
  2:{ split; [intros [=]|]. intros (H & _). inversion_clear H. unfold digit_ok in *. lia. }
  unfold ULLONG_MAX in *. change (18446744073709551615 / 10) with 1844674407370955161.
  assert (Hover : forall u, v * 10 + (c - 48) > 18446744073709551615 ->
            Forall digit_ok (c :: p) /\ u = dval (c :: p) v /\ u <= 18446744073709551615 -> False).
  { intros u Hu (H1 & -> & H3). inversion_clear H1. unfold dval in H3. simpl in H3.
    pose proof (dval_ge p (v * 10 + (c - 48)) ltac:(assumption) ltac:(lia)). unfold dval in *. lia. }
  destruct (Z.ltb_spec 1844674407370955161 v) as [Ho|Ho].
  { split; [done|]. intros H. exfalso. eapply Hover; [|exact H]. lia. }
  rewrite (wrapu_small 64 (v * 10)) by plia.
  destruct (Z.ltb_spec (18446744073709551615 - (c - 48)) (v * 10)) as [Ho'|Ho'].
  { split; [done|]. intros H. exfalso. eapply Hover; [|exact H]. lia. }
  rewrite (wrapu_small 64) by plia. rewrite IH by lia.
  rewrite Forall_cons. unfold dval, digit_ok. simpl. intuition lia.
Qed.

(** Decimal notations are the digit strings without superfluous zeroes. *)
Lemma udec_spec v :
  0 < v < 10 ^ 20 ->
  exists d p, udec v = d :: p /\ 49 <= d <= 57 /\ Forall digit_ok p /\ dval p (d - 48) = v.
Proof.
  intros Hv. unfold udec. assert (Hx : v < 10 ^ Z.of_nat 20) by (simpl; lia).
  assert (Hn : (0 < 20)%nat) by lia.
  revert Hx Hn. generalize 20%nat. intros n. revert v Hv.
  induction n as [|n IH]; intros v Hv Hx Hn; [lia|].
  rewrite udec_n_S. destruct (Z.ltb_spec v 10).
  { exists (48 + v), []. split; [done|]. split; [lia|]. split; [constructor|]. unfold dval; simpl; lia. }
  assert (0 < v / 10) by (apply Z.div_str_pos; lia).
  rewrite Nat2Z.inj_succ, Z.pow_succ_r in Hx by lia.
  assert (v / 10 < 10 ^ Z.of_nat n) by (apply Z.div_lt_upper_bound; lia).
  destruct (IH (v / 10)) as (d & p & -> & Hd & Hp & He); [|done| |].
  { split; [lia|]. eapply Z.le_lt_trans; [|apply Hv]. apply Z.div_le_upper_bound; lia. }
  { destruct n; [simpl in *; lia|lia]. }
  exists d, (p ++ [48 + v mod 10]). split; [done|]. split; [done|].
  pose proof (Z.mod_pos_bound v 10). split.
  - apply Forall_app. split; [done|]. constructor; [|constructor]. unfold digit_ok. lia.
  - rewrite dval_snoc, He. pose proof (Z.div_mod v 10). lia.
Qed.

Lemma udec_unique d p :
  49 <= d <= 57 -> Forall digit_ok p -> dval p (d - 48) < 10 ^ 20 ->
  udec (dval p (d - 48)) = d :: p.
Proof.
  intros Hd. induction p as [|c p IH] using rev_ind; intros Hp Hlt.
  { unfold dval; simpl. rewrite udec_small by lia. f_equal. lia. }
  apply Forall_app in Hp as [Hp Hc]. inversion_clear Hc. unfold digit_ok in *.
  rewrite dval_snoc in *. pose proof (dval_ge p (d - 48) Hp ltac:(lia)).
  rewrite udec_step by lia.
  assert (E : (dval p (d - 48) * 10 + (c - 48)) / 10 = dval p (d - 48)) by (Z.div_mod_to_equations; lia).
  assert (E' : (dval p (d - 48) * 10 + (c - 48)) mod 10 = c - 48) by (Z.div_mod_to_equations; lia).
  rewrite E, E', IH by (done || lia). simpl. do 3 f_equal. lia.
Qed.

Lemma string2ll_body (negative : bool) d p v :
  (if (d >=? 49) && (d <=? 57) then
     match string2ll_loop p (d - 48) with
     | Some (w, []) =>
         if negative then
           if w >? u64 (- (LLONG_MIN + 1)) + 1 then None else Some (s64 (u64 (- w)))
         else if w >? LLONG_MAX then None else Some (s64 w)
     | _ => None
     end
   else None) = Some v <->
  49 <= d <= 57 /\ Forall digit_ok p /\
  v = (if negative then - dval p (d - 48) else dval p (d - 48)) /\ in_s 64 v.
Proof.
  rewrite Z.geb_leb. destruct (Z.leb_spec 49 d) as [H1|H1]; simpl andb; [|split; [done|lia]].
  destruct (Z.leb_spec d 57) as [H2|H2]; [|split; [done|lia]].
  pose proof (string2ll_loop_spec p (d - 48) ltac:(unfold ULLONG_MAX; lia)) as HS.
  assert (Hge : Forall digit_ok p -> 1 <= dval p (d - 48)).
  { intros Hp. pose proof (dval_ge p (d - 48) Hp). lia. }
  change (u64 (- (LLONG_MIN + 1)) + 1) with 9223372036854775808.
  unfold LLONG_MAX, in_s. zpow.
  destruct (string2ll_loop p (d - 48)) as [[w [|x r]]|].
  2,3: split; [done|]; intros (_ & Hp & Hv & Hr); exfalso;
       specialize (HS (dval p (d - 48))); unfold ULLONG_MAX in HS;
       destruct HS as [_ HS]; specialize (Hge Hp);
       discriminate HS; split; [done|]; split; [done|]; destruct negative; lia.
  destruct (proj1 (HS w) eq_refl) as (Hp & Hw & Hmax). specialize (Hge Hp). rewrite <- Hw in *.
  rewrite !Z.gtb_ltb. destruct negative.
  - destruct (Z.ltb_spec 9223372036854775808 w) as [Ho|Ho].
    + split; [done|]. intros (_ & _ & -> & Hr). lia.
    + rewrite wraps_wrapu by lia. rewrite wraps_small by (unfold in_s; zpow; lia).
      split; [intros [= <-]; split; [done|]; split; [done|]; split; [done|lia]|].
      intros (_ & _ & -> & _). done.
  - destruct (Z.ltb_spec 9223372036854775807 w) as [Ho|Ho].
    + split; [done|]. intros (_ & _ & -> & Hr). lia.
    + rewrite wraps_small by (unfold in_s; zpow; lia).
      split; [intros [= <-]; split; [done|]; split; [done|]; split; [done|lia]|].
      intros (_ & _ & -> & _). done.
Qed.

Definition nat_lit (d : Z) (p : list Z) (v : Z) : Prop :=
  49 <= d <= 57 /\ Forall digit_ok p /\ v = dval p (d - 48).

Lemma dec_shape s v :
  in_s 64 v ->
  s = dec v <->
  (v = 0 /\ s = [48]) \/
  (0 < v /\ exists d p, s = d :: p /\ nat_lit d p v) \/
  (v < 0 /\ exists d p, s = 45 :: d :: p /\ nat_lit d p (- v)).
Proof.
  intros Hv. assert (Ha : Z.abs v < 10 ^ 20) by (unfold in_s in Hv; zpow; lia).
  rewrite dec_abs. unfold nat_lit. split.
  - intros ->. destruct (Z.ltb_spec v 0).
    + right; right. destruct (udec_spec (Z.abs v)) as (d & p & -> & ? & ? & ?); [lia|].
      split; [done|]. exists d, p. split; [done|]. split; [done|]. split; [done|lia].
    + destruct (Z.eq_dec v 0) as [->|]; [by left|]. right; left.
      destruct (udec_spec (Z.abs v)) as (d & p & -> & ? & ? & ?); [lia|].
      split; [lia|]. exists d, p. split; [done|]. split; [done|]. split; [done|lia].
  - intros [[-> ->]|[(Hp & d & p & -> & Hd & Hp' & Hval)|(Hn & d & p & -> & Hd & Hp' & Hval)]]; [done| |].
    + rewrite (proj2 (Z.ltb_ge _ _)) by lia. rewrite Z.abs_eq, Hval, udec_unique by (done || lia). done.
    + rewrite (proj2 (Z.ltb_lt _ _)) by lia. rewrite Z.abs_neq, Hval, udec_unique by (done || lia). done.
Qed.

Lemma string2ll_iff s v :
  string2ll s = Some v <-> in_s 64 v /\ s = dec v.
Proof.
  destruct s as [|c s'].
  { split; [done|]. intros [Hv E]. apply dec_shape in E; [|done].
    destruct E as [[_ [=]]|[(_ & ? & ? & [=] & _)|(_ & ? & ? & [=] & _)]]. }
  unfold string2ll. rewrite zlen_cons. pose proof (zlen_nonneg s') as Hnn.
  destruct ((1 + zlen s' =? 1) && (c =? 48)) eqn:Ez; zb.
  { assert (s' = []) as -> by (destruct s'; [done|rewrite zlen_cons in *; pose proof (zlen_nonneg s'); lia]).
    subst c. split; [intros [= <-]; split; [unfold in_s; lia|reflexivity]|].
    intros [Hv E]. apply dec_shape in E; [|done].
    destruct E as [[-> _]|[(_ & d & p & [= <- <-] & Hd & _)|(_ & ? & ? & [=] & _)]]; [done|lia]. }
  assert (Hnz : c :: s' <> [48]) by (intros [= -> ->]; discriminate Ez).
  destruct (Z.eqb_spec c 45) as [->|Hc].
  - destruct s' as [|d p].
    { split; [done|]. intros [Hv E]. apply dec_shape in E; [|done].
      destruct E as [[_ [=]]|[(_ & ? & ? & [= <- <-] & Hd & _)|(_ & ? & ? & [=] & _)]]. lia. }
    rewrite (string2ll_body true). split.
    + intros (Hd & Hp & Hval & Hv). split; [done|]. apply dec_shape; [done|]. right; right.
      pose proof (dval_ge p (d - 48) Hp ltac:(lia)). split; [lia|].
      exists d, p. split; [done|]. split; [done|]. split; [done|lia].
    + intros [Hv E]. apply dec_shape in E; [|done].
      destruct E as [[_ [=]]|[(_ & ? & ? & [= <- <-] & Hd & _)|(_ & ? & ? & [= <- <-] & Hd & Hp & Hval)]]; [lia|].
      split; [done|]. split; [done|]. split; [lia|done].
  - rewrite (string2ll_body false). split.
    + intros (Hd & Hp & Hval & Hv). split; [done|]. apply dec_shape; [done|]. right; left.
      pose proof (dval_ge s' (c - 48) Hp ltac:(lia)). split; [lia|].
      exists c, s'. split; [done|]. split; [done|]. split; [done|lia].
    + intros [Hv E]. apply dec_shape in E; [|done].
      destruct E as [[_ ?]|[(_ & ? & ? & [= <- <-] & Hd & Hp & Hval)|(_ & ? & ? & [= -> ->] & _)]]; done.
Qed.

(** A decimal notation determines its value. *)
Lemma dec_inj a b : in_s 64 a -> in_s 64 b -> dec a = dec b -> a = b.
Proof. intros Ha Hb E. assert (Ea : string2ll (dec a) = Some a) by (by apply string2ll_iff). assert (Eb : string2ll (dec b) = Some b) by (by apply string2ll_iff). congruence. Qed.

(** C36: [string2ll] accepts exactly the decimal notations of the 64 bit
    integers and returns the integer: no blanks, no plus sign, no leading
    zeroes, no minus zero, no overflow.  With [ll2string_correct] the
    conversions are inverse of each other. *)
Theorem string2ll_correct s v :
  string2ll s = Some v <-> in_s 64 v /\ s = dec v.
Proof. apply string2ll_iff. Qed.

Lemma string2ll_witness :
  string2ll (bytes_of_string "-9223372036854775808") = Some (-9223372036854775808) /\
  string2ll (bytes_of_string "9223372036854775808") = None.
Proof.
  split.
  - apply string2ll_correct. split; [unfold in_s; lia|vm_compute; reflexivity].
  - destruct (string2ll _) eqn:E; [|reflexivity]. exfalso.
    vm_compute in E. discriminate E.
Defined.

Lemma udec_digits v : 0 <= v < 10 ^ 20 -> Forall digit_ok (udec v) /\ dval (udec v) 0 = v.
Proof.
  intros Hv. destruct (Z.eq_dec v 0) as [->|].
  { rewrite udec_small by lia. split; [repeat constructor; unfold digit_ok; lia|done]. }
  destruct (udec_spec v) as (d & p & -> & Hd & Hp & Hval); [lia|].
  split; [constructor; [unfold digit_ok; lia|done]|]. unfold dval in *. simpl.
  replace (0 + (d - 48)) with (d - 48) by lia. done.
Qed.

Lemma isdigit_ok c : digit_ok c -> isdigit c = true.
Proof. unfold digit_ok, isdigit. intros. rewrite andb_true_iff, !Z.leb_le. lia. Qed.

Lemma take_digits_all p v : Forall digit_ok p -> take_digits p v = (dval p v, []).
Proof.
  intros Hp. revert v. induction Hp as [|c p Hc _ IH]; intros v; [done|]. simpl.
  now rewrite isdigit_ok, IH.
Qed.

Lemma strto_digits p : Forall digit_ok p -> p <> [] -> strto p = Some (false, dval p 0, []).
Proof.
  intros Hp Hne. destruct p as [|c p]; [done|]. inversion_clear Hp as [|? ? Hc Hp'].
  unfold strto. assert (Hs : isspace c = false).
  { unfold isspace, digit_ok in *. destruct (Z.eqb_spec c 32), (Z.leb_spec 9 c), (Z.leb_spec c 13); simpl; lia || done. }
  simpl skip_blanks. rewrite Hs. simpl take_sign.
  rewrite (proj2 (Z.eqb_neq c 45)), (proj2 (Z.eqb_neq c 43)) by (unfold digit_ok in Hc; lia).
  rewrite isdigit_ok by done. rewrite take_digits_all by (by constructor). done.
Qed.

Lemma cstr_id p : Forall (fun c => c <> 0) p -> cstr p = p.
Proof.
  induction 1 as [|c p Hc _ IH]; [done|]. simpl. rewrite (proj2 (Z.eqb_neq c 0)) by done. now rewrite IH.
Qed.

Lemma cstr_digits p : Forall digit_ok p -> cstr p = p.
Proof. intros. apply cstr_id. eapply Forall_impl; [done|]. unfold digit_ok. lia. Qed.

(** On an LP64 host [string2l] is [string2ll]; [string2ull] extends it to
    the decimal notations of all unsigned 64 bit integers, rejects those of
    the larger numbers and those of the negative ones. *)
Theorem string2l_string2ull_correct s v :
  string2l s = string2ll s /\
  (0 <= v < 10 ^ 20 -> string2ull (udec v) = if v <=? ULLONG_MAX then Some v else None) /\
  (in_s 64 v -> v < 0 -> string2ull (dec v) = None).
Proof.
  split; [|split].
  - unfold string2l. destruct (string2ll s) as [w|] eqn:E; [|done].
    apply string2ll_iff in E as [Hw _]. unfold in_s, LONG_MIN, LONG_MAX, LLONG_MIN, LLONG_MAX in *.
    rewrite (proj2 (Z.ltb_ge w _)), Z.gtb_ltb, (proj2 (Z.ltb_ge _ w)) by plia. done.
  - intros Hv. destruct (udec_digits v Hv) as [Hd Hval]. unfold string2ull.
    rewrite cstr_digits by done. destruct (string2ll (udec v)) as [w|] eqn:E.
    + apply string2ll_iff in E as [Hw E]. unfold in_s in Hw.
      assert (v = w) as ->.
      { rewrite dec_abs in E. destruct (Z.ltb_spec w 0).
        - rewrite E in Hd. inversion_clear Hd. unfold digit_ok in *. lia.
        - rewrite Z.abs_eq in E by lia.
          rewrite <- Hval, E. simpl. apply udec_digits. zpow; lia. }
      rewrite (proj2 (Z.ltb_ge w 0)) by lia. unfold ULLONG_MAX.
      rewrite (proj2 (Z.leb_le w _)) by plia. done.
    + pose proof (udec_pos v Hv) as Hpos. unfold strtoull.
      assert (Hne : udec v <> []) by (intros Hn; rewrite Hn in Hpos; unfold zlen in Hpos; simpl in Hpos; lia).
      rewrite strto_digits, Hval by done. rewrite Z.gtb_ltb.
      destruct (udec v); [done|].
      destruct (Z.ltb_spec ULLONG_MAX v), (Z.leb_spec v ULLONG_MAX); try lia; done.
  - intros Hv Hneg. unfold string2ull. rewrite cstr_id.
    2:{ unfold in_s in Hv. rewrite dec_abs. apply Forall_app. split; [destruct (v <? 0); by repeat constructor|].
        eapply Forall_impl; [apply udec_digits; zpow; lia|]. unfold digit_ok. lia. }
    rewrite (proj2 (string2ll_iff (dec v) v)) by done. by rewrite (proj2 (Z.ltb_lt _ _)).
Qed.

Lemma string2ull_witness :
  string2ull (udec 18446744073709551615) = Some 18446744073709551615 /\
  string2ull (dec (-1)) = None.
Proof.
  split.
  - apply (string2l_string2ull_correct [] 18446744073709551615). lia.
  - apply (string2l_string2ull_correct [] (-1)); [unfold in_s; lia|lia].
Defined.

(** ** The decimal notation as a byte string *)
#[local] Transparent udec_n.
Lemma udec_len20 v : 0 <= v < 2 ^ 64 -> 1 <= zlen (udec v) <= 20.
Proof.
  intros Hv. split; [apply udec_pos; plia|]. unfold udec, zlen.
  assert (H : forall n v, (length (udec_n n v) <= n)%nat).
  { clear. induction n as [|n IH]; intros v; [simpl; lia|]. rewrite udec_n_S.
    destruct (v <? 10); [simpl; lia|]. rewrite length_app. specialize (IH (v / 10)). simpl. lia. }
  specialize (H 20%nat v). lia.
Qed.

Lemma dec_len20 v : in_s 64 v -> 1 <= zlen (dec v) <= 20.
Proof.
  unfold in_s, dec. intros Hv. zpow. destruct (Z.ltb_spec v 0).
  - rewrite zlen_cons. assert (zlen (udec (- v)) <= 19).
    { unfold udec, zlen. rewrite (udec_n_mono 19 20) by (zpow; lia).
      assert (H' : forall n v, (length (udec_n n v) <= n)%nat).
      { clear. induction n as [|n IH]; intros v; [simpl; lia|]. rewrite udec_n_S.
        destruct (v <? 10); [simpl; lia|]. rewrite length_app. specialize (IH (v / 10)). simpl. lia. }
      specialize (H' 19%nat (- v)). lia. }
    pose proof (zlen_nonneg (udec (- v))). lia.
  - apply udec_len20. zpow. lia.
Qed.

Lemma udec_n_bytes n v : 0 <= v -> bytes_ok (udec_n n v).
Proof.
  revert v. induction n as [|n IH]; intros v Hv; [constructor|]. rewrite udec_n_S.
  destruct (Z.ltb_spec v 10); [repeat constructor; unfold byte_ok; lia|].
  apply Forall_app. split; [apply IH; apply Z.div_pos; lia|]. pose proof (Z.mod_pos_bound v 10).
  repeat constructor; unfold byte_ok; lia.
Qed.

Lemma dec_bytes v : bytes_ok (dec v).
Proof.
  unfold dec, udec. destruct (Z.ltb_spec v 0); [|by apply udec_n_bytes].
  apply Forall_cons. split; [unfold byte_ok; lia|]. apply udec_n_bytes. lia.
Qed.
