(* ===== verification/Glob.v ===== *)
(** * util.c, stringmatchlen: glob-style matching (KEYS, SCAN, PSUBSCRIBE, ACL)

    [pattern] and [string] are the remaining bytes, so [patternLen] and
    [stringLen] are their lengths; both buffers are NUL terminated, which is
    what the look-ahead [pattern[1]] past the last byte reads.  The meaning of
    a pattern is a list of tokens ([parse]) and the relation [gmatch]. *)
From S2P Require Import Prelude.

Abbreviation c_star := 42. (* '*' *)
Abbreviation c_any := 63.  (* '?' *)
Abbreviation c_open := 91. (* '[' *)
Abbreviation c_close := 93. (* ']' *)
Abbreviation c_esc := 92.  (* backslash *)
Abbreviation c_not := 94.  (* '^' *)
Abbreviation c_dash := 45. (* '-' *)

(** [char] is signed: range bounds are compared as signed bytes. *)
Definition in_range (nocase : bool) (a b x : Z) : bool :=
  let start := s8 a in
  let end_ := s8 b in
  let c := s8 x in
  let '(start, end_) := if start >? end_ then (end_, start) else (start, end_) in
  let '(start, end_, c) :=
    if nocase then (tolower start, tolower end_, tolower c) else (start, end_, c) in
  (c >=? start) && (c <=? end_).

Definition char_eq (nocase : bool) (a x : Z) : bool :=
  if negb nocase then a =? x else tolower a =? tolower x.

(** The [while(1)] loop of a bracket expression: [match] so far, and on exit
    the pattern after the [pattern++] that follows (after the ']', or the end
    of the pattern when it is missing). *)
Fixpoint class_loop (nocase : bool) (x : Z) (p : list Z) (m : bool) : bool * list Z :=
  match p with
  | [] => (m, [])
  | a :: p1 =>
      match p1 with
      | b :: p2 =>
          if a =? c_esc then class_loop nocase x p2 (if b =? x then true else m)
          else if a =? c_close then (m, p1)
          else
            match p2 with
            | e :: p3 =>
                if b =? c_dash then
                  class_loop nocase x p3 (if in_range nocase a e x then true else m)
                else class_loop nocase x p1 (if char_eq nocase a x then true else m)
            | [] => class_loop nocase x p1 (if char_eq nocase a x then true else m)
            end
      | [] => if a =? c_close then (m, []) else class_loop nocase x p1 (if char_eq nocase a x then true else m)
      end
  end.

(** The two loops that step over a run of stars. *)
Fixpoint skip_stars (p : list Z) : list Z :=
  match p with a :: p' => if a =? c_star then skip_stars p' else p | [] => [] end.

(** [while(stringLen)] of the star case, [rest] being the recursive call on the
    pattern after the star. *)
Fixpoint star_loop (rest : list Z -> option bool) (s : list Z) : option bool :=
  match s with
  | [] => Some false
  | _ :: s' =>
      match rest s with
      | Some true => Some true
      | Some false => star_loop rest s'
      | None => None
      end
  end.

(** The outer loop; one unit of [fuel] per iteration or recursive call, each
    of which consumes at least one byte of the pattern. *)
Fixpoint smatch (fuel : nat) (nocase : bool) (pattern string : list Z) : option bool :=
  match fuel with
  | O => None
  | S fuel =>
      (* pattern++ at the end of the body, then the test of the loop *)
      let next p s :=
        match s with
        | [] => Some (match skip_stars p with [] => true | _ => false end)
        | _ => smatch fuel nocase p s
        end in
      match pattern, string with
      | [], [] => Some true
      | [], _ | _, [] => Some false
      | c :: p, x :: s =>
          if c =? c_star then
            let p := skip_stars p in
            match p with
            | [] => Some true
            | _ => star_loop (smatch fuel nocase p) string
            end
          else if c =? c_any then next p s
          else if c =? c_open then
            let not := match p with a :: _ => a =? c_not | [] => false end in
            let p := if not then tail p else p in
            let '(m, p) := class_loop nocase x p false in
            let m := if not then negb m else m in
            if negb m then Some false else next p s
          else
            let '(c, p) := match p with
                           | b :: p' => if c =? c_esc then (b, p') else (c, p)
                           | [] => (c, p)
                           end in
            if negb (char_eq nocase c x) then Some false else next p s
      end
  end.

Definition stringmatchlen (pattern string : list Z) (nocase : bool) : option bool :=
  smatch (S (length pattern)) nocase pattern string.

(** ** What a pattern means *)
Inductive citem := CEsc (c : Z) | CRange (a b : Z) | CChar (c : Z).
Inductive tok := TStar | TAny | TClass (neg : bool) (items : list citem) | TLit (c : Z).

Definition citem_ok (nocase : bool) (x : Z) (i : citem) : bool :=
  match i with
  | CEsc c => c =? x
  | CRange a b => in_range nocase a b x
  | CChar c => char_eq nocase c x
  end.

(** Does the token (other than a star) accept the byte? *)
Definition tok_ok (nocase : bool) (t : tok) (x : Z) : bool :=
  match t with
  | TStar => false
  | TAny => true
  | TClass neg items => xorb neg (existsb (citem_ok nocase x) items)
  | TLit c => char_eq nocase c x
  end.

Inductive gmatch (nocase : bool) : list tok -> list Z -> Prop :=
| gm_nil : gmatch nocase [] []
| gm_star_skip ts s : gmatch nocase ts s -> gmatch nocase (TStar :: ts) s
| gm_star_eat ts x s : gmatch nocase (TStar :: ts) s -> gmatch nocase (TStar :: ts) (x :: s)
| gm_tok t ts x s :
    tok_ok nocase t x = true -> gmatch nocase ts s -> gmatch nocase (t :: ts) (x :: s).

Fixpoint class_items (p : list Z) : list citem * list Z :=
  match p with
  | [] => ([], [])
  | a :: p1 =>
      match p1 with
      | b :: p2 =>
          if a =? c_esc then let '(i, r) := class_items p2 in (CEsc b :: i, r)
          else if a =? c_close then ([], p1)
          else
            match p2 with
            | e :: p3 =>
                if b =? c_dash then let '(i, r) := class_items p3 in (CRange a e :: i, r)
                else let '(i, r) := class_items p1 in (CChar a :: i, r)
            | [] => let '(i, r) := class_items p1 in (CChar a :: i, r)
            end
      | [] => if a =? c_close then ([], []) else ([CChar a], [])
      end
  end.

(** One token off the front of a non-empty pattern. *)
Definition next_tok (c : Z) (p : list Z) : tok * list Z :=
  if c =? c_star then (TStar, p)
  else if c =? c_any then (TAny, p)
  else if c =? c_open then
    let not := match p with a :: _ => a =? c_not | [] => false end in
    let '(i, r) := class_items (if not then tail p else p) in (TClass not i, r)
  else
    match p with
    | b :: p' => if c =? c_esc then (TLit b, p') else (TLit c, p)
    | [] => (TLit c, p)
    end.

Fixpoint parse_n (fuel : nat) (p : list Z) : list tok :=
  match fuel, p with
  | S fuel, c :: p => let '(t, r) := next_tok c p in t :: parse_n fuel r
  | _, _ => []
  end.
Definition parse (p : list Z) : list tok := parse_n (length p) p.

#[export] Instance citem_eq_dec : EqDecision citem.
Proof. solve_decision. Defined.
#[export] Instance tok_eq_dec : EqDecision tok.
Proof. solve_decision. Defined.

(** ** Correctness *)
Lemma class_loop_spec nocase x p m :
  class_loop nocase x p m =
  (m || existsb (citem_ok nocase x) (class_items p).1, (class_items p).2).
Proof.
  revert m. induction p as [p IH] using (induction_ltof1 _ (@length Z)); unfold ltof in IH; intros m.
  assert (Hb : forall (b c : bool), (if b then true else c) = c || b) by (intros [] []; done).
  destruct p as [|a [|b [|e p]]]; simpl; [now rewrite orb_false_r| | |].
  - destruct (a =? c_close); simpl; [now rewrite orb_false_r|]. now rewrite Hb, orb_false_r.
  - destruct (a =? c_esc); [simpl; now rewrite Hb, orb_false_r|].
    destruct (a =? c_close); simpl; [now rewrite orb_false_r|].
    rewrite Hb. destruct (b =? c_close); simpl; rewrite ?Hb, ?orb_false_r, ?orb_assoc; done.
  - destruct (a =? c_esc).
    { change (class_loop nocase x (e :: p) (if b =? x then true else m) =
        (m || existsb (citem_ok nocase x) (let '(i, r) := class_items (e :: p) in (CEsc b :: i, r)).1,
         (let '(i, r) := class_items (e :: p) in (CEsc b :: i, r)).2)).
      rewrite IH by (simpl; lia). destruct (class_items (e :: p)) as [i r]. simpl.
      now rewrite Hb, orb_assoc. }
    destruct (a =? c_close); [simpl; now rewrite orb_false_r|].
    destruct (b =? c_dash).
    { rewrite IH by (simpl; lia). destruct (class_items p) as [i r]. simpl. now rewrite Hb, orb_assoc. }
    change (class_loop nocase x (b :: e :: p) (if char_eq nocase a x then true else m) =
        (m || existsb (citem_ok nocase x) (let '(i, r) := class_items (b :: e :: p) in (CChar a :: i, r)).1,
         (let '(i, r) := class_items (b :: e :: p) in (CChar a :: i, r)).2)).
    rewrite IH by (simpl; lia). destruct (class_items (b :: e :: p)) as [i r]. simpl.
    now rewrite Hb, orb_assoc.
Qed.

Fixpoint gmb (nocase : bool) (ts : list tok) (s : list Z) : bool :=
  match ts with
  | [] => match s with [] => true | _ => false end
  | TStar :: ts =>
      (fix star (s : list Z) : bool :=
         gmb nocase ts s || match s with [] => false | _ :: s' => star s' end) s
  | t :: ts => match s with [] => false | x :: s => tok_ok nocase t x && gmb nocase ts s end
  end.

Lemma gmb_star nocase ts s :
  gmb nocase (TStar :: ts) s =
  gmb nocase ts s || match s with [] => false | _ :: s' => gmb nocase (TStar :: ts) s' end.
Proof. destruct s; done. Qed.

Lemma gmb_tok nocase t ts s :
  t <> TStar ->
  gmb nocase (t :: ts) s =
  match s with [] => false | x :: s => tok_ok nocase t x && gmb nocase ts s end.
Proof. destruct t; done. Qed.

Lemma gmb_gmatch nocase ts s : gmb nocase ts s = true <-> gmatch nocase ts s.
Proof.
  split.
  - revert s. induction ts as [|t ts IH]; intros s.
    { destruct s; [constructor|done]. }
    destruct (decide (t = TStar)) as [->|Ht].
    + induction s as [|x s IHs]; rewrite gmb_star, orb_true_iff; intros [H|H]; try done;
        auto using gmatch.
    + rewrite gmb_tok by done. destruct s; [done|]. intros [? ?]%andb_true_iff. auto using gmatch.
  - induction 1 as [|ts s _ IH|ts x s _ IH|t ts x s Ht _ IH]; [done| | |].
    + now rewrite gmb_star, IH.
    + now rewrite gmb_star, IH, orb_true_r.
    + rewrite gmb_tok by (intros ->; done). now rewrite Ht, IH.
Qed.

Lemma class_items_3 a b e p :
  class_items (a :: b :: e :: p) =
  if a =? c_esc then let '(i, r) := class_items (e :: p) in (CEsc b :: i, r)
  else if a =? c_close then ([], b :: e :: p)
  else if b =? c_dash then let '(i, r) := class_items p in (CRange a e :: i, r)
  else let '(i, r) := class_items (b :: e :: p) in (CChar a :: i, r).
Proof. done. Qed.

Lemma class_items_length p : (length (class_items p).2 <= length p)%nat.
Proof.
  induction p as [p IH] using (induction_ltof1 _ (@length Z)); unfold ltof in IH.
  assert (Hc : forall f q, (length q < length p)%nat ->
    (length (let '(i, r) := class_items q in (f i, r) : list citem * list Z).2 <= length p)%nat).
  { intros f q Hq. specialize (IH q Hq). destruct (class_items q). simpl in *. lia. }
  destruct p as [|a [|b [|e p]]]; [done|simpl; destruct (a =? c_close); simpl; lia| |].
  - simpl. destruct (a =? c_esc); [simpl; lia|]. destruct (a =? c_close); [simpl; lia|].
    destruct (b =? c_close); simpl; lia.
  - rewrite class_items_3. destruct (a =? c_esc); [apply (Hc (cons (CEsc b))); simpl; lia|].
    destruct (a =? c_close); [simpl; lia|].
    destruct (b =? c_dash); [apply (Hc (cons (CRange a e)))|apply (Hc (cons (CChar a)))]; simpl; lia.
Qed.

Lemma next_tok_length c p : (length (next_tok c p).2 <= length p)%nat.
Proof.
  unfold next_tok. destruct (c =? c_star); [done|]. destruct (c =? c_any); [done|].
  destruct (c =? c_open).
  - set (q := if _ : bool then tail p else p).
    assert (length q <= length p)%nat by (unfold q; destruct p as [|a p]; simpl; [done|]; destruct (a =? c_not); simpl; lia).
    pose proof (class_items_length q). destruct (class_items q). simpl in *. lia.
  - destruct p; [done|]. destruct (c =? c_esc); simpl; lia.
Qed.

Lemma parse_n_mono n m p : (length p <= n)%nat -> (length p <= m)%nat -> parse_n n p = parse_n m p.
Proof.
  revert m p. induction n as [|n IH]; intros [|m] [|c p] Hn Hm; simpl in *; try done; try lia.
  pose proof (next_tok_length c p). destruct (next_tok c p) as [t r]. simpl in *.
  f_equal. apply IH; lia.
Qed.

Lemma parse_cons c p : parse (c :: p) = (next_tok c p).1 :: parse (next_tok c p).2.
Proof.
  unfold parse at 1. simpl. pose proof (next_tok_length c p).
  destruct (next_tok c p) as [t r]. simpl in *. f_equal. apply parse_n_mono; lia.
Qed.

Lemma next_tok_star c p : (next_tok c p).1 = TStar -> c = c_star.
Proof.
  unfold next_tok. destruct (Z.eqb_spec c c_star); [done|].
  destruct (c =? c_any); [done|]. destruct (c =? c_open).
  - destruct (class_items _); done.
  - destruct p; [done|]. destruct (c =? c_esc); done.
Qed.

Lemma parse_star p : parse (c_star :: p) = TStar :: parse p.
Proof. now rewrite parse_cons. Qed.

Lemma skip_stars_length p : (length (skip_stars p) <= length p)%nat.
Proof. induction p as [|a p IH]; simpl; [lia|]. destruct (a =? c_star); simpl; lia. Qed.

Lemma skip_stars_head p c q : skip_stars p = c :: q -> c <> c_star.
Proof.
  induction p as [|a p IH]; simpl; [done|]. destruct (Z.eqb_spec a c_star); [done|].
  intros [= <- <-]. done.
Qed.

Lemma gmb_star_star nocase ts s : gmb nocase (TStar :: TStar :: ts) s = gmb nocase (TStar :: ts) s.
Proof.
  induction s as [|x s IH]; rewrite gmb_star.
  - now rewrite orb_false_r.
  - rewrite IH, (gmb_star _ ts (x :: s)). destruct (gmb _ ts (x :: s)), (gmb _ (TStar :: ts) s); done.
Qed.

Lemma gmb_skip_stars nocase p s :
  gmb nocase (TStar :: parse p) s = gmb nocase (TStar :: parse (skip_stars p)) s.
Proof.
  induction p as [|a p IH]; [done|]. cbn [skip_stars]. destruct (Z.eqb_spec a c_star) as [->|]; [|done].
  now rewrite parse_star, gmb_star_star.
Qed.

(** A pattern that does not start with a star needs a byte. *)
Lemma gmb_nil_nostar nocase c p : c <> c_star -> gmb nocase (parse (c :: p)) [] = false.
Proof.
  intros Hc. rewrite parse_cons, gmb_tok; [done|]. intros E. by apply next_tok_star in E.
Qed.

Lemma gmb_nil nocase p :
  gmb nocase (parse p) [] = match skip_stars p with [] => true | _ => false end.
Proof.
  induction p as [|a p IH]; [done|]. simpl. destruct (Z.eqb_spec a c_star) as [->|].
  - now rewrite parse_star, gmb_star, orb_false_r.
  - now apply gmb_nil_nostar.
Qed.

Lemma gmb_star_nil nocase s : gmb nocase [TStar] s = true.
Proof. apply gmb_gmatch. induction s; auto using gmatch. Qed.

Lemma smatch_spec fuel nocase p s :
  (length p < fuel)%nat -> s <> [] -> smatch fuel nocase p s = Some (gmb nocase (parse p) s).
Proof.
  revert p s. induction fuel as [|fuel IH]; intros p s Hf Hs; [lia|].
  destruct s as [|x s]; [done|]. destruct p as [|c p]; [done|]. simpl in Hf.
  assert (Hnext : forall q, (length q <= length p)%nat ->
    match s with
    | [] => Some (match skip_stars q with [] => true | _ => false end)
    | _ => smatch fuel nocase q s
    end = Some (gmb nocase (parse q) s)).
  { intros q Hq. destruct s; [now rewrite gmb_nil|]. apply IH; [lia|done]. }
  cbn [smatch]. rewrite parse_cons. pose proof (next_tok_length c p) as Hlen. unfold next_tok in *.
  destruct (c =? c_star).
  - simpl fst; simpl snd. rewrite gmb_skip_stars. pose proof (skip_stars_length p).
    destruct (skip_stars p) as [|c' q] eqn:Eq; [change (parse []) with (@nil tok); now rewrite gmb_star_nil|].
    apply skip_stars_head in Eq. set (p' := c' :: q) in *.
    assert (Htry : forall s, s <> [] -> smatch fuel nocase p' s = Some (gmb nocase (parse p') s))
      by (intros; apply IH; [lia|done]).
    generalize (x :: s). intros t. induction t as [|y t IHt].
    + rewrite gmb_star. unfold p'. now rewrite gmb_nil_nostar.
    + simpl star_loop. rewrite Htry, gmb_star by done. destruct (gmb nocase (parse p') (y :: t)); [done|]. exact IHt.
  - destruct (c =? c_any); [rewrite Hnext by done; now rewrite gmb_tok|].
    destruct (c =? c_open).
    + set (not := match p with a :: _ => a =? c_not | [] => false end) in *.
      rewrite class_loop_spec. destruct (class_items (if not then tail p else p)) as [i r].
      simpl in Hlen |- *. rewrite Hnext by done.
      destruct not, (existsb (citem_ok nocase x) i); done.
    + destruct p as [|b p'].
      * rewrite (Hnext []) by done. cbn [fst snd gmb tok_ok]. destruct (char_eq nocase c x); done.
      * destruct (c =? c_esc); cbv beta iota zeta; cbn [fst snd] in *; rewrite Hnext by (simpl; lia);
          cbn [gmb tok_ok]; destruct (char_eq nocase _ x); done.
Qed.

(** The fuel is enough: a match always has an answer. *)
Lemma stringmatchlen_defined pattern string nocase : exists b, stringmatchlen pattern string nocase = Some b.
Proof.
  unfold stringmatchlen. destruct (decide (string = [])) as [->|Hs]; [destruct pattern; eexists; reflexivity|].
  rewrite smatch_spec by (lia || done). eauto.
Qed.

(** C37: [stringmatchlen] always returns.  On a non-empty string it decides the
    meaning of the pattern ([gmatch]); an empty string is matched by the empty
    pattern only. *)
Theorem stringmatchlen_correct pattern string nocase :
  exists b, stringmatchlen pattern string nocase = Some b /\
    (b = true <->
     if decide (string = []) then pattern = [] else gmatch nocase (parse pattern) string).
Proof.
  unfold stringmatchlen. destruct (decide (string = [])) as [->|Hs].
  - destruct pattern; eexists; (split; [reflexivity|]); split; done.
  - rewrite smatch_spec by (lia || done). eexists. split; [done|]. apply gmb_gmatch.
Qed.

(** The star matches every string except the empty one: [stringmatchlen]
    rejects "*" (and any run of stars) against an empty string although the
    pattern's meaning accepts it. *)
Theorem stringmatchlen_star_empty nocase :
  stringmatchlen [c_star] [] nocase = Some false /\ gmatch nocase (parse [c_star]) [] /\
  forall string, string <> [] -> stringmatchlen [c_star] string nocase = Some true.
Proof.
  split; [done|]. split; [apply gmb_gmatch; done|]. intros string Hs. unfold stringmatchlen.
  rewrite smatch_spec by (simpl; lia || done). f_equal. apply gmb_star_nil.
Qed.

Lemma stringmatchlen_star_witness : stringmatchlen [c_star] [104; 105] true = Some true.
Proof. apply (stringmatchlen_star_empty true). discriminate. Defined.
