(* ===== verification/Dict.v ===== *)
(** * dict.c: hash tables with incremental rehashing

    A table is an array of chains; a dictionary owns two tables and moves
    buckets from [ht[0]] to [ht[1]] while [rehashidx <> -1].  Out of range or
    NULL table accesses make the model fail ([None]); the theorems show that
    they do not happen.  The file holds the data, the operations and the
    theorems that make the operations implement a finite map.  The cursor
    of SCAN is in DictScan.v. *)
From S2P Require Import Prelude.

Definition DICT_HT_INITIAL_SIZE : Z := 4.
Definition dict_force_resize_ratio : Z := 5.

(** Return codes. *)
Inductive dict_rc := DICT_OK | DICT_ERR.

(** [dictht]: [table] is [[]] when the pointer is NULL. *)
Record dictht (K V : Type) := Dictht {
  table : list (list (K * V));
  size : Z;
  sizemask : Z;
  used : Z
}.
Arguments Dictht {K V}. Arguments table {K V}. Arguments size {K V}.
Arguments sizemask {K V}. Arguments used {K V}.

Record dict (K V : Type) := Dict {
  ht0 : dictht K V;
  ht1 : dictht K V;
  rehashidx : Z;
  iterators : Z
}.
Arguments Dict {K V}. Arguments ht0 {K V}. Arguments ht1 {K V}.
Arguments rehashidx {K V}. Arguments iterators {K V}.

(** A [dictEntry *]: which table, which bucket, which position in the chain. *)
Record eref := Eref { er_table : bool; er_idx : Z; er_pos : nat }.

Section Dict.
  Context {K V : Type} `{EqDecision K} (hashFunction : K -> Z).

Definition dictHashKey (key : K) : Z := u64 (hashFunction key).

Definition dictIsRehashing (d : dict K V) : bool := negb (rehashidx d =? -1).
Definition dictSize (d : dict K V) : Z := used (ht0 d) + used (ht1 d).
Definition dictSlots (d : dict K V) : Z := size (ht0 d) + size (ht1 d).

Definition getht (d : dict K V) (t : bool) : dictht K V := if t then ht1 d else ht0 d.
Definition setht (d : dict K V) (t : bool) (h : dictht K V) : dict K V :=
  if t then Dict (ht0 d) h (rehashidx d) (iterators d)
  else Dict h (ht1 d) (rehashidx d) (iterators d).

(** [ht->table[i]] and the assignment to it. *)
Definition bucket (h : dictht K V) (i : Z) : option (list (K * V)) :=
  if 0 <=? i then table h !! Z.to_nat i else None.
Definition set_bucket (h : dictht K V) (i : Z) (c : list (K * V)) : dictht K V :=
  Dictht (<[Z.to_nat i := c]> (table h)) (size h) (sizemask h) (used h).
Definition set_used (h : dictht K V) (u : Z) : dictht K V :=
  Dictht (table h) (size h) (sizemask h) u.

Definition _dictReset : dictht K V := Dictht [] 0 0 0.

Definition _dictInit : dict K V := Dict _dictReset _dictReset (-1) 0.
Definition dictCreate : dict K V := _dictInit.

(** The doubling loop; 62 doublings reach [LONG_MAX + 1]. *)
Fixpoint nextPower_loop (fuel : nat) (i sz : Z) : option Z :=
  if i >=? sz then Some i
  else match fuel with O => None | S fuel => nextPower_loop fuel (u64 (i * 2)) sz end.
Definition _dictNextPower (sz : Z) : option Z :=
  if sz >=? LLONG_MAX then Some (LLONG_MAX + 1)
  else nextPower_loop 62 DICT_HT_INITIAL_SIZE sz.

(** [zcalloc(realsize*sizeof(dictEntry* ))] with the product in [size_t]. *)
Definition alloc_table (realsize : Z) : list (list (K * V)) :=
  replicate (Z.to_nat (u64 (realsize * 8) / 8)) [].

Definition dictExpand (d : dict K V) (sz : Z) : option (dict K V * dict_rc) :=
  if dictIsRehashing d || (used (ht0 d) >? sz) then Some (d, DICT_ERR)
  else
    realsize ← _dictNextPower sz;
    if realsize =? size (ht0 d) then Some (d, DICT_ERR)
    else
      let n := Dictht (alloc_table realsize) realsize (u64 (realsize - 1)) 0 in
      match table (ht0 d) with
      | [] => Some (Dict n (ht1 d) (rehashidx d) (iterators d), DICT_OK)
      | _ => Some (Dict (ht0 d) n 0 (iterators d), DICT_OK)
      end.

(** [can_resize] is the global [dict_can_resize]. *)
Definition dictResize (can_resize : bool) (d : dict K V) : option (dict K V * dict_rc) :=
  if negb can_resize || dictIsRehashing d then Some (d, DICT_ERR)
  else
    let minimal := used (ht0 d) in
    let minimal := if minimal <? DICT_HT_INITIAL_SIZE then DICT_HT_INITIAL_SIZE else minimal in
    dictExpand d minimal.

(** *** Incremental rehashing *)

(** [while (table[rehashidx] == NULL)]: the new index and what stopped it. *)
Inductive skip_res :=
| Skipped (idx : Z) (empty_visits : nat) (de : list (K * V))  (* a chain to move *)
| SkipLimit (idx : Z).                                        (* return 1 *)
Fixpoint skip_empty (empty_visits : nat) (h : dictht K V) (idx : Z) : option skip_res :=
  de ← bucket h idx;
  match de with
  | [] =>
      match empty_visits with
      | O => None
      | S O => Some (SkipLimit (idx + 1))
      | S ev => skip_empty ev h (idx + 1)
      end
  | _ => Some (Skipped idx empty_visits de)
  end.

(** [while (de)]: every entry is pushed on the chain of its new bucket. *)
Fixpoint move_chain (de : list (K * V)) (h0 h1 : dictht K V)
  : option (dictht K V * dictht K V) :=
  match de with
  | [] => Some (h0, h1)
  | e :: nextde =>
      let h := Z.land (dictHashKey (fst e)) (sizemask h1) in
      c ← bucket h1 h;
      let h1 := set_bucket h1 h (e :: c) in
      let h0 := set_used h0 (u64 (used h0 - 1)) in
      let h1 := set_used h1 (u64 (used h1 + 1)) in
      move_chain nextde h0 h1
  end.

(** The main loop; [true] is the early [return 1]. *)
Fixpoint rehash_loop (n : nat) (empty_visits : nat) (d : dict K V) : option (dict K V * bool) :=
  match n with
  | O => Some (d, false)
  | S n =>
      if used (ht0 d) =? 0 then Some (d, false)
      else if negb (size (ht0 d) >? rehashidx d) then None (* assert *)
      else
        r ← skip_empty empty_visits (ht0 d) (rehashidx d);
        match r with
        | SkipLimit idx => Some (Dict (ht0 d) (ht1 d) idx (iterators d), true)
        | Skipped idx ev de =>
            '(h0, h1) ← move_chain de (ht0 d) (ht1 d);
            rehash_loop n ev (Dict (set_bucket h0 idx []) h1 (idx + 1) (iterators d))
        end
  end.

Definition dictRehash (d : dict K V) (n : nat) : option (dict K V * Z) :=
  let empty_visits := (n * 10)%nat in
  if negb (dictIsRehashing d) then Some (d, 0)
  else
    '(d, limit) ← rehash_loop n empty_visits d;
    if (limit : bool) then Some (d, 1)
    else if used (ht0 d) =? 0 then
      Some (Dict (ht1 d) _dictReset (-1) (iterators d), 0)
    else Some (d, 1).

(** [while (dictRehash(d,100))]: [clock i] is the [i]-th reading of
    [timeInMilliseconds], the first one being [start]. *)
Fixpoint rehash_ms_loop (fuel i : nat) (clock : nat -> Z) (ms : Z) (d : dict K V) (rehashes : Z)
  : option (dict K V * Z) :=
  match fuel with
  | O => None
  | S fuel =>
      '(d, r) ← dictRehash d 100;
      if r =? 0 then Some (d, rehashes)
      else
        let rehashes := rehashes + 100 in
        if clock i - clock O >? ms then Some (d, rehashes)
        else rehash_ms_loop fuel (S i) clock ms d rehashes
  end.
Definition dictRehashMilliseconds (fuel : nat) (clock : nat -> Z) (d : dict K V) (ms : Z)
  : option (dict K V * Z) :=
  rehash_ms_loop fuel 1 clock ms d 0.

Definition _dictRehashStep (d : dict K V) : option (dict K V) :=
  if iterators d =? 0 then '(d, _) ← dictRehash d 1; Some d else Some d.

(** [if (dictIsRehashing(d)) _dictRehashStep(d)]. *)
Definition rehash_if (d : dict K V) : option (dict K V) :=
  if dictIsRehashing d then _dictRehashStep d else Some d.

Definition _dictExpandIfNeeded (can_resize : bool) (d : dict K V)
  : option (dict K V * dict_rc) :=
  if dictIsRehashing d then Some (d, DICT_OK)
  else if size (ht0 d) =? 0 then dictExpand d DICT_HT_INITIAL_SIZE
  else if (used (ht0 d) >=? size (ht0 d)) &&
          (can_resize || (used (ht0 d) / size (ht0 d) >? dict_force_resize_ratio))
  then dictExpand d (u64 (used (ht0 d) * 2))
  else Some (d, DICT_OK).

(** *** Lookup, insertion, deletion *)

(** [while (he)]: the position of the key in a chain. *)
Fixpoint chain_find (key : K) (he : list (K * V)) : option nat :=
  match he with
  | [] => None
  | e :: he => if decide (key = fst e) then Some O else S <$> chain_find key he
  end.

(** The search of both tables that [_dictKeyIndex], [dictFind] and
    [dictGenericDelete] share: the entry, or the index in the last table
    visited. *)
Definition search_tables (d : dict K V) (key : K) (hash : Z) : option (Z * option eref) :=
  let idx := Z.land hash (sizemask (ht0 d)) in
  he ← bucket (ht0 d) idx;
  match chain_find key he with
  | Some p => Some (idx, Some (Eref false idx p))
  | None =>
      if negb (dictIsRehashing d) then Some (idx, None)
      else
        let idx := Z.land hash (sizemask (ht1 d)) in
        he ← bucket (ht1 d) idx;
        match chain_find key he with
        | Some p => Some (idx, Some (Eref true idx p))
        | None => Some (idx, None)
        end
  end.

(** [(index, *existing)], index -1 when the key exists or the expansion fails. *)
Definition _dictKeyIndex (can_resize : bool) (d : dict K V) (key : K) (hash : Z)
  : option (dict K V * Z * option eref) :=
  '(d, rc) ← _dictExpandIfNeeded can_resize d;
  match rc with
  | DICT_ERR => Some (d, -1, None)
  | DICT_OK =>
      '(idx, existing) ← search_tables d key hash;
      match existing with
      | Some r => Some (d, -1, Some r)
      | None => Some (d, idx, None)
      end
  end.

Definition dictFind (d : dict K V) (key : K) : option (dict K V * option eref) :=
  if used (ht0 d) + used (ht1 d) =? 0 then Some (d, None)
  else
    d ← rehash_if d;
    '(_, r) ← search_tables d key (dictHashKey key);
    Some (d, r).

(** [*entry], and [dictSetVal]. *)
Definition entry_at (d : dict K V) (r : eref) : option (K * V) :=
  c ← bucket (getht d (er_table r)) (er_idx r); c !! er_pos r.
Definition dictSetVal (d : dict K V) (r : eref) (val : V) : option (dict K V) :=
  let h := getht d (er_table r) in
  c ← bucket h (er_idx r);
  e ← c !! er_pos r;
  Some (setht d (er_table r) (set_bucket h (er_idx r) (<[er_pos r := (fst e, val)]> c))).

Definition dictFetchValue (d : dict K V) (key : K) : option (dict K V * option V) :=
  '(d, r) ← dictFind d key;
  match r with
  | None => Some (d, None)
  | Some r => e ← entry_at d r; Some (d, Some (snd e))
  end.

(** The value of a fresh entry is whatever [zmalloc] returned ([undef]). *)
Definition dictAddRaw (can_resize : bool) (undef : V) (d : dict K V) (key : K)
  : option (dict K V * option eref * option eref) :=
  d ← rehash_if d;
  '(d, index, existing) ← _dictKeyIndex can_resize d key (dictHashKey key);
  if index =? -1 then Some (d, None, existing)
  else
    let t := dictIsRehashing d in
    let h := getht d t in
    c ← bucket h index;
    let h := set_bucket h index ((key, undef) :: c) in
    let h := set_used h (u64 (used h + 1)) in
    Some (setht d t h, Some (Eref t index 0), None).

Definition dictAdd (can_resize : bool) (undef : V) (d : dict K V) (key : K) (val : V)
  : option (dict K V * dict_rc) :=
  '(d, entry, _) ← dictAddRaw can_resize undef d key;
  match entry with
  | None => Some (d, DICT_ERR)
  | Some r => d ← dictSetVal d r val; Some (d, DICT_OK)
  end.

Definition dictReplace (can_resize : bool) (undef : V) (d : dict K V) (key : K) (val : V)
  : option (dict K V * Z) :=
  '(d, entry, existing) ← dictAddRaw can_resize undef d key;
  match entry with
  | Some r => d ← dictSetVal d r val; Some (d, 1)
  | None =>
      match existing with
      | Some r => d ← dictSetVal d r val; Some (d, 0)
      | None => None (* dereference of NULL *)
      end
  end.

Definition dictAddOrFind (can_resize : bool) (undef : V) (d : dict K V) (key : K)
  : option (dict K V * option eref) :=
  '(d, entry, existing) ← dictAddRaw can_resize undef d key;
  Some (d, match entry with Some r => Some r | None => existing end).

(** Unlinks the entry and returns it. *)
Definition dictGenericDelete (d : dict K V) (key : K) : option (dict K V * option (K * V)) :=
  if (used (ht0 d) =? 0) && (used (ht1 d) =? 0) then Some (d, None)
  else
    d ← rehash_if d;
    '(_, r) ← search_tables d key (dictHashKey key);
    match r with
    | None => Some (d, None)
    | Some r =>
        let h := getht d (er_table r) in
        c ← bucket h (er_idx r);
        e ← c !! er_pos r;
        let h := set_bucket h (er_idx r) (delete (er_pos r) c) in
        let h := set_used h (u64 (used h - 1)) in
        Some (setht d (er_table r) h, Some e)
    end.

Definition dictDelete (d : dict K V) (key : K) : option (dict K V * dict_rc) :=
  '(d, he) ← dictGenericDelete d key;
  Some (d, match he with Some _ => DICT_OK | None => DICT_ERR end).

Definition dictUnlink (d : dict K V) (key : K) : option (dict K V * option (K * V)) :=
  dictGenericDelete d key.

(** The freed entries, in order, and the table that is left. *)
Fixpoint clear_loop (t : list (list (K * V))) (u : Z) : list (K * V) :=
  match t with
  | [] => []
  | he :: t => if u >? 0 then he ++ clear_loop t (u - zlen he) else []
  end.
Definition _dictClear (h : dictht K V) : list (K * V) * dictht K V :=
  (clear_loop (table h) (used h), _dictReset).

Definition dictEmpty (d : dict K V) : list (K * V) * dict K V :=
  let '(f0, h0) := _dictClear (ht0 d) in
  let '(f1, h1) := _dictClear (ht1 d) in
  (f0 ++ f1, Dict h0 h1 (-1) 0).

End Dict.

(** ** Invariant *)
Section Invariant.
  Context {K V : Type} `{Countable K} (hashFunction : K -> Z).

(** Every entry sits in the bucket its hash selects. *)
Definition placed (mask : Z) (t : list (list (K * V))) : Prop :=
  forall i c e, t !! i = Some c -> e ∈ c ->
    Z.land (dictHashKey hashFunction (fst e)) mask = Z.of_nat i.

(** An allocated table: [size] is a power of two. *)
Record ht_alloc (h : dictht K V) : Prop := {
  alloc_pow : exists k, 2 <= k <= 59 /\ size h = 2 ^ k;
  alloc_mask : sizemask h = size h - 1;
  alloc_len : zlen (table h) = size h;
  alloc_used : used h = zlen (mjoin (table h));
  alloc_placed : placed (sizemask h) (table h)
}.

Definition entries (d : dict K V) : list (K * V) := mjoin (table (ht0 d)) ++ mjoin (table (ht1 d)).

Definition low_empty (h : dictht K V) (idx : Z) : Prop :=
  forall i, Z.of_nat i < idx -> (i < length (table h))%nat -> table h !! i = Some [].

Record dict_ok (d : dict K V) : Prop := {
  ok_shape :
    (rehashidx d = -1 /\ ht1 d = _dictReset /\ (ht0 d = _dictReset \/ ht_alloc (ht0 d))) \/
    (0 <= rehashidx d <= size (ht0 d) /\ ht_alloc (ht0 d) /\ ht_alloc (ht1 d) /\
     low_empty (ht0 d) (rehashidx d));
  ok_nodup : NoDup (entries d).*1;
  ok_count : zlen (entries d) < 2 ^ 58
}.

(** The finite map a dictionary stands for. *)
Definition dict_map (d : dict K V) : gmap K V := list_to_map (entries d).

(** *** Lists of chains *)
Lemma join_insert {A} (t : list (list A)) i c c' :
  t !! i = Some c ->
  exists a b, mjoin t = a ++ c ++ b /\ mjoin (<[i := c']> t) = a ++ c' ++ b.
Proof.
  intros Hi. exists (mjoin (take i t)), (mjoin (drop (S i) t)). split.
  - rewrite <- (take_drop_middle _ _ _ Hi) at 1. now rewrite join_app.
  - apply lookup_lt_Some in Hi. rewrite insert_take_drop by done. now rewrite join_app.
Qed.

Lemma join_lookup {A} (t : list (list A)) i c e : t !! i = Some c -> e ∈ c -> e ∈ mjoin t.
Proof. intros Hi He. apply list_elem_of_join. exists c. split; [done|]. by eapply list_elem_of_lookup_2. Qed.

Lemma zlen_perm {A} (l k : list A) : l ≡ₚ k -> zlen l = zlen k.
Proof. intros E. unfold zlen. now rewrite E. Qed.

Lemma placed_insert mask t i c' :
  placed mask t ->
  (forall e, e ∈ c' -> Z.land (dictHashKey hashFunction (fst e)) mask = Z.of_nat i) ->
  placed mask (<[i := c']> t).
Proof.
  intros Hp Hc j c e Hj He. destruct (decide (i = j)) as [<-|Hne].
  - destruct (decide (i < length t)%nat).
    + rewrite list_lookup_insert_eq in Hj by done. injection Hj as <-. auto.
    + rewrite list_insert_ge in Hj by lia. eauto.
  - rewrite list_lookup_insert_ne in Hj by done. eauto.
Qed.

Lemma land_mask_range x k : 0 <= k -> 0 <= Z.land x (2 ^ k - 1) < 2 ^ k.
Proof.
  intros Hk. replace (2 ^ k - 1) with (Z.ones k) by (rewrite Z.ones_equiv; lia).
  rewrite Z.land_ones by lia. apply Z.mod_pos_bound. lia.
Qed.

(** The bucket of a hash exists. *)
Lemma bucket_hash h x :
  ht_alloc h -> exists i c, Z.land x (sizemask h) = Z.of_nat i /\
    bucket h (Z.land x (sizemask h)) = Some c /\ table h !! i = Some c.
Proof.
  intros [(k & Hk & Hs) Hm Hl _ _]. rewrite Hm, Hs.
  pose proof (land_mask_range x k ltac:(lia)) as Hr.
  destruct (lookup_lt_is_Some_2 (table h) (Z.to_nat (Z.land x (2 ^ k - 1)))) as [c Hc].
  { unfold zlen in Hl. lia. }
  exists (Z.to_nat (Z.land x (2 ^ k - 1))), c. rewrite Z2Nat.id by lia. split; [done|].
  unfold bucket. rewrite (proj2 (Z.leb_le _ _)) by lia. done.
Qed.

Lemma bucket_nat (h : dictht K V) (i : nat) : bucket h (Z.of_nat i) = table h !! i.
Proof. unfold bucket. rewrite (proj2 (Z.leb_le _ _)) by lia. now rewrite Nat2Z.id. Qed.

(** *** Moving a chain *)
Lemma push_alloc h i c e :
  ht_alloc h -> table h !! i = Some c -> used h + 1 < 2 ^ 64 ->
  Z.land (dictHashKey hashFunction (fst e)) (sizemask h) = Z.of_nat i ->
  let h' := set_used (set_bucket h (Z.of_nat i) (e :: c)) (u64 (used h + 1)) in
  ht_alloc h' /\ mjoin (table h') ≡ₚ e :: mjoin (table h).
Proof.
  intros [Hpow Hm Hl Hu Hp] Hi Hb He h'.
  destruct (join_insert (table h) i c (e :: c) Hi) as (a & b & E1 & E2).
  assert (Hperm : mjoin (table h') ≡ₚ e :: mjoin (table h)).
  { unfold h', set_used, set_bucket; simpl. rewrite Nat2Z.id, E2, E1. simpl.
    symmetry. apply Permutation_middle. }
  split; [|done]. pose proof (zlen_nonneg (mjoin (table h))). constructor; try done.
  - unfold h'; simpl. rewrite <- Hl. unfold zlen. now rewrite length_insert.
  - rewrite (zlen_perm _ _ Hperm), zlen_cons. unfold h'; simpl. rewrite wrapu_small by lia. lia.
  - unfold h'; simpl. rewrite Nat2Z.id. apply placed_insert; [done|].
    intros x [->|Hx]%elem_of_cons; [done|]. eauto.
Qed.

Lemma move_chain_spec de h0 h1 :
  ht_alloc h1 -> zlen de <= used h0 < 2 ^ 64 -> used h1 + zlen de < 2 ^ 64 ->
  exists h1', move_chain hashFunction de h0 h1 = Some (set_used h0 (used h0 - zlen de), h1') /\
    ht_alloc h1' /\ size h1' = size h1 /\ mjoin (table h1') ≡ₚ mjoin (table h1) ++ de.
Proof.
  revert h0 h1. induction de as [|e de IH]; intros h0 h1 Hok Hb0 Hb1; cbn [move_chain].
  { exists h1. rewrite Z.sub_0_r, app_nil_r. destruct h0. done. }
  rewrite zlen_cons in *. pose proof (zlen_nonneg de).
  destruct (bucket_hash h1 (dictHashKey hashFunction (fst e)) Hok) as (i & c & Hi & Hbk & Hc).
  rewrite Hbk, Hi. cbn [mbind option_bind]. cbv zeta.
  destruct (push_alloc h1 i c e Hok Hc ltac:(lia) Hi) as [Hok' Hperm].
  cbn [used set_used set_bucket] in *.
  assert (Hu1 : used h1 + 1 < 2 ^ 64) by lia.
  assert (Hnn : 0 <= used h1) by (rewrite (alloc_used _ Hok); apply zlen_nonneg).
  edestruct (IH (set_used h0 (u64 (used h0 - 1)))) as (h1' & E & Hok1 & Hsz & Hp1);
    [exact Hok'|simpl; rewrite wrapu_small by lia; lia|simpl; rewrite wrapu_small by lia; lia|].
  exists h1'. split.
  { etransitivity; [exact E|]. unfold set_used. simpl. rewrite wrapu_small by lia. do 3 f_equal. lia. }
  split; [done|]. split; [now rewrite Hsz|].
  rewrite Hp1, Hperm. simpl. apply Permutation_middle.
Qed.

(** *** Rehashing *)
Lemma low_empty_all (h : dictht K V) idx :
  ht_alloc h -> low_empty h idx -> size h <= idx -> used h = 0.
Proof.
  intros Ha He Hi. rewrite (alloc_used _ Ha). pose proof (alloc_len _ Ha) as Hl.
  destruct (mjoin (table h)) as [|e l] eqn:E; [done|]. exfalso.
  assert (Hin : e ∈ mjoin (table h)) by (rewrite E; set_solver).
  apply list_elem_of_join in Hin as (c & He' & Hc). apply list_elem_of_lookup_1 in Hc as [j Hj].
  pose proof (lookup_lt_Some _ _ _ Hj). unfold zlen in Hl.
  rewrite (He j) in Hj by lia. injection Hj as <-. set_solver.
Qed.

Lemma skip_empty_spec ev (h : dictht K V) idx :
  ht_alloc h -> used h <> 0 -> 0 <= idx -> low_empty h idx -> (0 < ev)%nat ->
  exists r, skip_empty ev h idx = Some r /\
  match r with
  | Skipped idx' ev' de =>
      idx <= idx' < size h /\ (0 < ev')%nat /\ de <> [] /\
      table h !! Z.to_nat idx' = Some de /\ low_empty h idx'
  | SkipLimit idx' => idx < idx' <= size h /\ low_empty h idx'
  end.
Proof.
  intros Ha Hu Hidx Hlow Hev. revert idx Hidx Hlow. induction ev as [|ev IH]; intros idx Hidx Hlow; [lia|].
  assert (Hlt : idx < size h).
  { destruct (Z.lt_ge_cases idx (size h)) as [|Hge]; [done|]. by destruct Hu; eapply low_empty_all. }
  pose proof (alloc_len _ Ha) as Hl. unfold zlen in Hl.
  destruct (lookup_lt_is_Some_2 (table h) (Z.to_nat idx)) as [c Hc]; [lia|].
  simpl. unfold bucket. rewrite (proj2 (Z.leb_le _ _)) by lia. rewrite Hc. simpl.
  destruct c as [|e c].
  - assert (Hlow' : low_empty h (idx + 1)).
    { intros j Hj Hj'. destruct (decide (j = Z.to_nat idx)) as [->|]; [done|]. apply Hlow; lia. }
    destruct ev as [|ev].
    + eexists. split; [done|]. simpl. split; [lia|done].
    + destruct (IH ltac:(lia) (idx + 1) ltac:(lia) Hlow') as (r & E & Hr). exists r. split; [exact E|].
      destruct r as [idx' ev' de|idx'].
      * destruct Hr as (? & ? & ? & ? & ?). split; [lia|]. done.
      * destruct Hr as (? & ?). split; [lia|done].
  - eexists. split; [done|]. simpl. repeat (split; [done || lia|]). done.
Qed.

(** Emptying bucket [i] after its chain has been moved. *)
Lemma empty_bucket h i c :
  ht_alloc h -> table h !! i = Some c ->
  let h' := set_bucket (set_used h (used h - zlen c)) (Z.of_nat i) [] in
  ht_alloc h' /\ mjoin (table h) ≡ₚ c ++ mjoin (table h').
Proof.
  intros [Hpow Hm Hl Hu Hp] Hi h'.
  destruct (join_insert (table h) i c [] Hi) as (a & b & E1 & E2).
  assert (Hperm : mjoin (table h) ≡ₚ c ++ mjoin (table h')).
  { unfold h', set_used, set_bucket; simpl. rewrite Nat2Z.id, E2, E1. simpl.
    rewrite !app_assoc. now rewrite (Permutation_app_comm a c). }
  split; [|done]. constructor; try done.
  - unfold h'; simpl. rewrite <- Hl. unfold zlen. now rewrite length_insert.
  - apply zlen_perm in Hperm. rewrite zlen_app in Hperm. change (used h') with (used h - zlen c). lia.
  - unfold h'; simpl. rewrite Nat2Z.id. apply placed_insert; [done|]. set_solver.
Qed.

Lemma rehashing_iff (d : dict K V) :
  dict_ok d -> dictIsRehashing d = true <-> 0 <= rehashidx d.
Proof.
  intros Hok. unfold dictIsRehashing. rewrite negb_true_iff, Z.eqb_neq.
  destruct (ok_shape _ Hok) as [(? & _)|(? & _)]; lia.
Qed.

Lemma entries_perm_ok (d d' : dict K V) :
  dict_ok d -> entries d' ≡ₚ entries d -> NoDup (entries d').*1 /\ zlen (entries d') < 2 ^ 58.
Proof.
  intros Hok Hp. split; [|rewrite (zlen_perm _ _ Hp); apply (ok_count _ Hok)].
  eapply NoDup_Permutation_proper; [|apply (ok_nodup _ Hok)]. now rewrite Hp.
Qed.

Lemma dict_map_perm (d d' : dict K V) :
  dict_ok d -> entries d' ≡ₚ entries d -> dict_map d' = dict_map d.
Proof.
  intros Hok Hp. unfold dict_map. apply list_to_map_proper; [|done].
  by apply (entries_perm_ok d d').
Qed.

(** One iteration of the main loop: the next non-empty bucket is moved. *)
Lemma rehash_bucket d idx de :
  dict_ok d -> 0 <= rehashidx d -> 0 <= rehashidx d <= idx -> idx < size (ht0 d) ->
  table (ht0 d) !! Z.to_nat idx = Some de -> low_empty (ht0 d) idx ->
  exists h0 h1, move_chain hashFunction de (ht0 d) (ht1 d) = Some (h0, h1) /\
    let d' := Dict (set_bucket h0 idx []) h1 (idx + 1) (iterators d) in
    dict_ok d' /\ entries d' ≡ₚ entries d /\ size (ht0 d') = size (ht0 d) /\ size (ht1 d') = size (ht1 d).
Proof.
  intros Hok Hr0 Hidx Hsz Hde Hlow.
  destruct (ok_shape _ Hok) as [(? & _)|(_ & Ha0 & Ha1 & _)]; [lia|].
  pose proof (ok_count _ Hok) as Hcnt. unfold entries in Hcnt. rewrite zlen_app in Hcnt.
  destruct (empty_bucket (ht0 d) _ _ Ha0 Hde) as [Ha0' Hp0]. rewrite Z2Nat.id in Ha0', Hp0 by lia.
  pose proof (zlen_perm _ _ Hp0) as Hz0. rewrite zlen_app in Hz0.
  pose proof (alloc_used _ Ha0) as Hu0. pose proof (alloc_used _ Ha1) as Hu1.
  pose proof (zlen_nonneg (mjoin (table (ht1 d)))).
  match type of Hz0 with _ = _ + zlen ?x => pose proof (zlen_nonneg x) end.
  destruct (move_chain_spec de (ht0 d) (ht1 d) Ha1) as (h1 & E & Ha1' & Hs1 & Hp1); [lia|lia|].
  exists (set_used (ht0 d) (used (ht0 d) - zlen de)), h1. split; [exact E|]. intros d'.
  assert (Hp : entries d' ≡ₚ entries d).
  { unfold entries. simpl. rewrite Hp1. rewrite Hp0. simpl.
    rewrite (Permutation_app_comm de), <- app_assoc. apply Permutation_app_head.
    apply Permutation_app_comm. }
  split; [|split; [done|split; done]].
  destruct (entries_perm_ok d d' Hok Hp) as [Hnd Hcnt']. constructor; [|done|done].
  right. simpl. split; [lia|]. split; [done|]. split; [done|].
  intros j Hj Hj'. simpl in Hj' |- *. rewrite length_insert in Hj'.
  destruct (decide (j = Z.to_nat idx)) as [->|Hne].
  - by apply list_lookup_insert_eq.
  - rewrite list_lookup_insert_ne by done. apply Hlow; lia.
Qed.

Lemma rehash_loop_spec n ev d :
  dict_ok d -> 0 <= rehashidx d -> (0 < ev)%nat ->
  exists d' b, rehash_loop hashFunction n ev d = Some (d', b) /\
    dict_ok d' /\ entries d' ≡ₚ entries d /\ iterators d' = iterators d /\
    size (ht0 d') = size (ht0 d) /\ 0 <= rehashidx d' /\
    (b = true \/ used (ht0 d') <> 0 -> (0 < n)%nat -> rehashidx d < rehashidx d').
Proof.
  revert ev d. induction n as [|n IH]; intros ev d Hok Hr Hev; simpl.
  { exists d, false. repeat (split; [done|]). lia. }
  destruct (Z.eqb_spec (used (ht0 d)) 0) as [Hu|Hu].
  { exists d, false. repeat (split; [done|]). intros [?|?]; done. }
  destruct (ok_shape _ Hok) as [(? & _)|(Hri & Ha0 & Ha1 & Hlow)]; [lia|].
  assert (Hlt : rehashidx d < size (ht0 d)).
  { destruct (Z.lt_ge_cases (rehashidx d) (size (ht0 d))) as [|Hge]; [done|].
    by destruct Hu; eapply low_empty_all. }
  rewrite Z.gtb_ltb, (proj2 (Z.ltb_lt _ _)) by lia. simpl.
  destruct (skip_empty_spec ev (ht0 d) (rehashidx d) Ha0 Hu Hr Hlow Hev) as (r & -> & Hrs).
  cbn [mbind option_bind]. destruct r as [idx ev' de|idx].
  - destruct Hrs as (Hi & Hev' & Hne & Hde & Hlow').
    destruct (rehash_bucket d idx de Hok Hr ltac:(lia) ltac:(lia) Hde Hlow') as (h0 & h1 & E & Hd').
    rewrite E. cbn [mbind option_bind]. cbv zeta in Hd'. destruct Hd' as (Hok' & Hp & Hs0 & Hs1).
    destruct (IH ev' _ Hok' ltac:(simpl; lia) Hev') as (d' & b & E' & Hok'' & Hp' & Hit & Hsz & Hr' & Hprog).
    exists d', b. split; [exact E'|]. split; [done|]. split; [now rewrite Hp', Hp|]. split; [done|].
    split; [now rewrite Hsz|]. split; [done|]. intros Hb _. destruct n as [|n].
    + injection E' as <- <-. simpl. lia.
    + specialize (Hprog Hb ltac:(lia)). simpl in Hprog. lia.
  - destruct Hrs as (Hi & Hlow'). eexists _, true. split; [done|]. simpl.
    split; [|repeat (split; [done || lia|]); lia].
    constructor; simpl; [right|apply (ok_nodup _ Hok)|apply (ok_count _ Hok)].
    split; [lia|]. done.
Qed.

Lemma dictRehash_spec d n :
  dict_ok d -> exists d' r, dictRehash hashFunction d n = Some (d', r) /\
    dict_ok d' /\ entries d' ≡ₚ entries d /\ iterators d' = iterators d /\
    (r = 0 <-> dictIsRehashing d' = false) /\
    (r <> 0 -> (0 < n)%nat ->
     rehashidx d < rehashidx d' /\ size (ht0 d') = size (ht0 d) /\ dictIsRehashing d = true).
Proof.
  intros Hok. unfold dictRehash. destruct (dictIsRehashing d) eqn:Er; simpl.
  2:{ exists d, 0. repeat (split; [done|]). done. }
  assert (Hr : 0 <= rehashidx d) by now apply rehashing_iff.
  assert (Hloop : exists d' b, rehash_loop hashFunction n (n * 10) d = Some (d', b) /\
    dict_ok d' /\ entries d' ≡ₚ entries d /\ iterators d' = iterators d /\
    size (ht0 d') = size (ht0 d) /\ 0 <= rehashidx d' /\
    (b = true \/ used (ht0 d') <> 0 -> (0 < n)%nat -> rehashidx d < rehashidx d')).
  { destruct n as [|n]; [|apply rehash_loop_spec; (done || lia)].
    exists d, false. repeat (split; [done|]). lia. }
  destruct Hloop as (d' & b & -> & Hok' & Hp & Hit & Hs & Hr' & Hprog). cbn [mbind option_bind].
  assert (Hreh : dictIsRehashing d' = true) by now apply rehashing_iff.
  destruct b.
  { exists d', 1. repeat (split; [done|]). split; [rewrite Hreh; done|]. intros _ Hn. split; [auto|done]. }
  destruct (Z.eqb_spec (used (ht0 d')) 0) as [Hu|Hu].
  2:{ exists d', 1. repeat (split; [done|]). split; [rewrite Hreh; done|]. intros _ Hn. split; [auto|done]. }
  destruct (ok_shape _ Hok') as [(? & _)|(Hri & Ha0 & Ha1 & _)]; [lia|].
  assert (He0 : mjoin (table (ht0 d')) = []).
  { rewrite (alloc_used _ Ha0) in Hu. destruct (mjoin (table (ht0 d'))); [done|].
    rewrite zlen_cons in Hu. pose proof (zlen_nonneg l). lia. }
  eexists _, 0. split; [done|].
  assert (Hp' : entries (Dict (ht1 d') _dictReset (-1) (iterators d')) ≡ₚ entries d).
  { rewrite <- Hp. unfold entries. simpl. now rewrite He0, app_nil_r. }
  destruct (entries_perm_ok d _ Hok Hp') as [Hnd Hcnt].
  split; [constructor; [left; simpl; auto|done|done]|]. split; [done|]. split; [done|]. split; done.
Qed.

Lemma rehash_if_spec d :
  dict_ok d -> exists d', rehash_if hashFunction d = Some d' /\ dict_ok d' /\
    entries d' ≡ₚ entries d /\ iterators d' = iterators d.
Proof.
  intros Hok. unfold rehash_if, _dictRehashStep. destruct (dictIsRehashing d); [|by exists d].
  destruct (iterators d =? 0); [|by exists d].
  destruct (dictRehash_spec d 1 Hok) as (d' & r & -> & Hok' & Hp & Hit & _). by exists d'.
Qed.

(** *** Expansion *)
Lemma nextPower_loop_spec fuel j sz :
  2 <= j <= 59 -> sz <= 2 ^ 59 -> 59 - j <= Z.of_nat fuel ->
  exists k, nextPower_loop fuel (2 ^ j) sz = Some (2 ^ k) /\ j <= k <= 59 /\ sz <= 2 ^ k.
Proof.
  revert j. induction fuel as [|fuel IH]; intros j Hj Hsz Hf; simpl; rewrite Z.geb_leb;
    destruct (Z.leb_spec sz (2 ^ j)) as [Hle|Hgt].
  1,3: exists j; split; [done|lia].
  - assert (j = 59) as -> by lia. lia.
  - assert (j < 59). { destruct (Z.lt_ge_cases j 59); [done|]. assert (j = 59) as -> by lia. lia. }
    assert (E : u64 (2 ^ j * 2) = 2 ^ (j + 1)).
    { rewrite Z.pow_add_r by lia. apply wrapu_small. split; [lia|].
      assert (2 ^ j <= 2 ^ 58) by (apply Z.pow_le_mono_r; lia). zpow. lia. }
    rewrite E. destruct (IH (j + 1)) as (k & Hk & Hjk & Hle); [lia|lia|lia|].
    exists k. split; [done|lia].
Qed.

Lemma nextPower_spec sz :
  sz <= 2 ^ 59 -> exists k, _dictNextPower sz = Some (2 ^ k) /\ 2 <= k <= 59 /\ sz <= 2 ^ k.
Proof.
  intros Hsz. unfold _dictNextPower, LLONG_MAX. rewrite Z.geb_leb.
  rewrite (proj2 (Z.leb_gt _ sz)) by plia.
  destruct (nextPower_loop_spec 62 2 sz) as (k & E & Hk); [lia|done|lia|]. exists k. split; [exact E|lia].
Qed.

Lemma alloc_new k :
  2 <= k <= 59 ->
  ht_alloc (Dictht (alloc_table (K := K) (V := V) (2 ^ k)) (2 ^ k) (u64 (2 ^ k - 1)) 0) /\
  mjoin (alloc_table (K := K) (V := V) (2 ^ k)) = [].
Proof.
  intros Hk. assert (Hb : 0 < 2 ^ k <= 2 ^ 59) by (split; [lia|apply Z.pow_le_mono_r; lia]).
  assert (E : alloc_table (K := K) (V := V) (2 ^ k) = replicate (Z.to_nat (2 ^ k)) []).
  { unfold alloc_table. rewrite wrapu_small by (zpow; lia). now rewrite Z.div_mul by lia. }
  assert (Hj : forall n, mjoin (replicate n ([] : list (K * V))) = []) by (induction n; done).
  rewrite E. split; [|apply Hj]. constructor; simpl.
  - exists k. done.
  - rewrite wrapu_small by (zpow; lia). lia.
  - unfold zlen. rewrite length_replicate. lia.
  - now rewrite Hj.
  - intros j c e Hc He. apply lookup_replicate in Hc as [-> _]. set_solver.
Qed.

Lemma dictExpand_spec (d : dict K V) sz :
  dict_ok d -> sz <= 2 ^ 59 ->
  exists d' rc, dictExpand d sz = Some (d', rc) /\ dict_ok d' /\ entries d' = entries d /\
    iterators d' = iterators d /\
    (dictIsRehashing d = false -> used (ht0 d) <= sz -> size (ht0 d) < sz ->
     rc = DICT_OK /\ ht_alloc (ht0 d')).
Proof.
  intros Hok Hsz. unfold dictExpand. destruct (dictIsRehashing d) eqn:Er; simpl.
  { exists d, DICT_ERR. repeat (split; [done|]). done. }
  destruct (ok_shape _ Hok) as [(Hri & H1 & H0)|(Hri & _)].
  2:{ unfold dictIsRehashing in Er. apply negb_false_iff, Z.eqb_eq in Er. lia. }
  rewrite Z.gtb_ltb. destruct (Z.ltb_spec sz (used (ht0 d))) as [Hu|Hu].
  { exists d, DICT_ERR. repeat (split; [done|]). lia. }
  destruct (nextPower_spec sz Hsz) as (k & -> & Hk & Hge). cbn [mbind option_bind].
  destruct (alloc_new k Hk) as [Han Hej].
  destruct (Z.eqb_spec (2 ^ k) (size (ht0 d))) as [Heq|Hne].
  { exists d, DICT_ERR. repeat (split; [done|]). intros _ _ Hlt. lia. }
  cbv zeta. destruct H0 as [H0|H0].
  - rewrite H0. simpl. eexists _, DICT_OK. split; [done|].
    assert (He : entries (Dict (Dictht (alloc_table (2 ^ k)) (2 ^ k) (u64 (2 ^ k - 1)) 0) (ht1 d)
      (rehashidx d) (iterators d)) = entries d) by (unfold entries; simpl; rewrite Hej, H0; done).
    split; [|split; [done|split; [done|split; done]]]. constructor.
    + left. simpl. auto.
    + rewrite He. apply (ok_nodup _ Hok).
    + rewrite He. apply (ok_count _ Hok).
  - assert (Hnn : table (ht0 d) <> []).
    { pose proof (alloc_len _ H0) as Hl. destruct (alloc_pow _ H0) as (j & Hj & Hs).
      intros Hn. rewrite Hn in Hl. unfold zlen in Hl. simpl in Hl. lia. }
    destruct (table (ht0 d)) eqn:Et; [done|]. eexists _, DICT_OK. split; [done|].
    assert (He : entries (Dict (ht0 d) (Dictht (alloc_table (2 ^ k)) (2 ^ k) (u64 (2 ^ k - 1)) 0)
      0 (iterators d)) = entries d) by (unfold entries; simpl; rewrite Hej, H1; done).
    split; [|split; [done|split; [done|split; done]]]. constructor.
    + right. simpl. destruct (alloc_pow _ H0) as (j & Hj & Hs). split; [lia|].
      split; [done|]. split; [done|]. intros i Hi. lia.
    + rewrite He. apply (ok_nodup _ Hok).
    + rewrite He. apply (ok_count _ Hok).
Qed.

Lemma not_rehashing (d : dict K V) :
  dict_ok d -> dictIsRehashing d = false ->
  rehashidx d = -1 /\ ht1 d = _dictReset /\ (ht0 d = _dictReset \/ ht_alloc (ht0 d)).
Proof.
  intros Hok Er. destruct (ok_shape _ Hok) as [Hs|(Hri & _)]; [done|].
  unfold dictIsRehashing in Er. apply negb_false_iff, Z.eqb_eq in Er. lia.
Qed.

Lemma is_rehashing (d : dict K V) :
  dict_ok d -> dictIsRehashing d = true ->
  0 <= rehashidx d <= size (ht0 d) /\ ht_alloc (ht0 d) /\ ht_alloc (ht1 d) /\
  low_empty (ht0 d) (rehashidx d).
Proof.
  intros Hok Er. apply (rehashing_iff d Hok) in Er.
  destruct (ok_shape _ Hok) as [(? & _)|Hs]; [lia|done].
Qed.

Lemma expandIfNeeded_spec can_resize (d : dict K V) :
  dict_ok d ->
  exists d', _dictExpandIfNeeded can_resize d = Some (d', DICT_OK) /\ dict_ok d' /\
    entries d' = entries d /\ iterators d' = iterators d /\ ht_alloc (ht0 d').
Proof.
  intros Hok. unfold _dictExpandIfNeeded. destruct (dictIsRehashing d) eqn:Er.
  { destruct (is_rehashing d Hok Er) as (_ & Ha & _). by exists d. }
  destruct (not_rehashing d Hok Er) as (Hri & H1 & H0).
  assert (Hc : used (ht0 d) < 2 ^ 58).
  { pose proof (ok_count _ Hok) as Hc. unfold entries in Hc. rewrite H1, zlen_app in Hc. simpl in Hc.
    destruct H0 as [->|Ha]; [done|]. rewrite (alloc_used _ Ha). unfold zlen at 2 in Hc. simpl in Hc. lia. }
  destruct (Z.eqb_spec (size (ht0 d)) 0) as [Hz|Hz].
  - destruct (dictExpand_spec d 4 Hok) as (d' & rc & E & Hok' & He & Hit & Hrc); [done|].
    destruct Hrc as [-> Ha]; [done| |lia|by exists d'].
    destruct H0 as [->|Ha]; [done|]. destruct (alloc_pow _ Ha) as (j & Hj & Hs). lia.
  - destruct H0 as [H0|Ha]; [rewrite H0 in Hz; done|].
    destruct (_ && _) eqn:Eb; [|by exists d]. apply andb_true_iff in Eb as [Eb _].
    rewrite Z.geb_leb in Eb. apply Z.leb_le in Eb.
    assert (Hp : 0 < size (ht0 d)) by (destruct (alloc_pow _ Ha) as (j & Hj & ->); lia).
    rewrite wrapu_small by (zpow; lia).
    destruct (dictExpand_spec d (used (ht0 d) * 2) Hok) as (d' & rc & E & Hok' & He & Hit & Hrc); [zpow; lia|].
    destruct Hrc as [-> Ha']; [done|lia|lia|by exists d'].
Qed.

(** *** Searching *)
Lemma chain_find_Some (key : K) (c : list (K * V)) p :
  chain_find key c = Some p -> exists v, c !! p = Some (key, v).
Proof.
  revert p. induction c as [|[k v] c IH]; intros p; simpl; [done|].
  destruct (decide (key = k)) as [<-|]; [intros [= <-]; by exists v|].
  destruct (chain_find key c); simpl; [|done]. intros [= <-]. simpl. auto.
Qed.

Lemma chain_find_None (key : K) (c : list (K * V)) : chain_find key c = None -> key ∉ c.*1.
Proof.
  induction c as [|[k v] c IH]; simpl; [set_solver|].
  destruct (decide (key = k)); [done|]. destruct (chain_find key c); [done|]. set_solver.
Qed.

(** [r] points to the entry [(k, v)]. *)
Definition ref_ok (d : dict K V) (r : eref) (k : K) (v : V) : Prop :=
  exists i c, er_idx r = Z.of_nat i /\ table (getht d (er_table r)) !! i = Some c /\
    c !! er_pos r = Some (k, v).

(** A key of an allocated table can only be in the bucket its hash selects. *)
Lemma bucket_complete h key i c :
  ht_alloc h -> Z.land (dictHashKey hashFunction key) (sizemask h) = Z.of_nat i ->
  table h !! i = Some c -> key ∉ c.*1 -> key ∉ (mjoin (table h)).*1.
Proof.
  intros Ha Hi Hc Hn Hin. apply list_elem_of_fmap in Hin as ([k v] & -> & Hin).
  apply list_elem_of_join in Hin as (c' & He & Hc'). apply list_elem_of_lookup_1 in Hc' as [j Hj].
  pose proof (alloc_placed _ Ha j c' (k, v) Hj He) as Hp. simpl in *.
  assert (j = i) as -> by lia. apply Hn. apply list_elem_of_fmap. exists (k, v). split; [done|]. congruence.
Qed.

Lemma search_tables_spec d key :
  dict_ok d -> ht_alloc (ht0 d) ->
  exists idx r, search_tables d key (dictHashKey hashFunction key) = Some (idx, r) /\
  match r with
  | Some r => exists v, ref_ok d r key v
  | None =>
      (key ∉ (entries d).*1) /\
      exists i c, idx = Z.of_nat i /\ table (getht d (dictIsRehashing d)) !! i = Some c /\
        Z.land (dictHashKey hashFunction key)
          (sizemask (getht d (dictIsRehashing d))) = Z.of_nat i
  end.
Proof.
  intros Hok Ha0. unfold search_tables.
  destruct (bucket_hash _ (dictHashKey hashFunction key) Ha0) as (i & c & Hi & -> & Hc).
  cbn [mbind option_bind]. rewrite Hi. destruct (chain_find key c) as [p|] eqn:Ef.
  { eexists _, _. split; [done|]. destruct (chain_find_Some _ _ _ Ef) as [v Hv].
    exists v, i, c. done. }
  apply chain_find_None in Ef. pose proof (bucket_complete _ _ _ _ Ha0 Hi Hc Ef) as Hn0.
  unfold entries. destruct (dictIsRehashing d) eqn:Er; simpl.
  - destruct (is_rehashing d Hok Er) as (_ & _ & Ha1 & _).
    destruct (bucket_hash _ (dictHashKey hashFunction key) Ha1) as (i1 & c1 & Hi1 & -> & Hc1).
    cbn [mbind option_bind]. rewrite Hi1. destruct (chain_find key c1) as [p|] eqn:Ef1.
    { eexists _, _. split; [done|]. destruct (chain_find_Some _ _ _ Ef1) as [v Hv].
      exists v, i1, c1. done. }
    apply chain_find_None in Ef1. pose proof (bucket_complete _ _ _ _ Ha1 Hi1 Hc1 Ef1) as Hn1.
    eexists _, None. split; [done|]. split; [rewrite fmap_app; set_solver|]. by exists i1, c1.
  - destruct (not_rehashing d Hok Er) as (_ & H1 & _).
    eexists _, None. split; [done|]. split; [rewrite fmap_app, H1; simpl; set_solver|]. by exists i, c.
Qed.

Lemma ref_entry d r k v : ref_ok d r k v -> entry_at d r = Some (k, v) /\ (k, v) ∈ entries d.
Proof.
  intros (i & c & Hi & Hc & Hv). unfold entry_at. rewrite Hi, bucket_nat, Hc. simpl. split; [done|].
  apply list_elem_of_lookup_2 in Hv. unfold entries. apply elem_of_app.
  destruct (er_table r); [right|left]; by eapply join_lookup.
Qed.

Lemma dict_map_Some d k v : dict_ok d -> (k, v) ∈ entries d -> dict_map d !! k = Some v.
Proof. intros Hok Hin. apply elem_of_list_to_map_1; [apply (ok_nodup _ Hok)|done]. Qed.

Lemma dict_map_None d k : k ∉ (entries d).*1 <-> dict_map d !! k = None.
Proof. unfold dict_map. apply not_elem_of_list_to_map. Qed.

(** *** Updating one chain

    The effect of replacing entry [r] by the list [x] (nothing, or an entry
    with the same key), on the entries, the map and the invariant. *)
Lemma replace_entry d r k v x c :
  dict_ok d -> ref_ok d r k v -> (x = [] \/ exists v', x = [(k, v')]) ->
  let h := getht d (er_table r) in
  bucket h (er_idx r) = Some c ->
  let d' := setht d (er_table r) (set_used (set_bucket h (er_idx r)
              (take (er_pos r) c ++ x ++ drop (S (er_pos r)) c)) (used h - 1 + zlen x)) in
  exists rest, entries d ≡ₚ (k, v) :: rest /\ entries d' ≡ₚ x ++ rest /\ dict_ok d'.
Proof.
  intros Hok (i & c0 & Hi & Hc & Hv) Hx h Hb d'. unfold h in Hb. rewrite Hi, bucket_nat in Hb.
  assert (c0 = c) as -> by congruence. clear Hb.
  set (c' := take (er_pos r) c ++ x ++ drop (S (er_pos r)) c) in *.
  assert (Hcp : c ≡ₚ (k, v) :: take (er_pos r) c ++ drop (S (er_pos r)) c).
  { rewrite <- (take_drop_middle _ _ _ Hv) at 1. symmetry. apply Permutation_middle. }
  assert (Hcp' : c' ≡ₚ x ++ take (er_pos r) c ++ drop (S (er_pos r)) c).
  { unfold c'. rewrite !app_assoc. now rewrite (Permutation_app_comm _ x). }
  set (cr := take (er_pos r) c ++ drop (S (er_pos r)) c) in *.
  assert (Halloc : ht_alloc h).
  { destruct (dictIsRehashing d) eqn:Er.
    - destruct (is_rehashing d Hok Er) as (_ & ? & ? & _). unfold h. destruct (er_table r); done.
    - destruct (not_rehashing d Hok Er) as (_ & H1 & [H0|H0]); unfold h in *; destruct (er_table r); simpl in *;
        rewrite ?H1, ?H0 in Hc; try done. }
  fold h in Hc. destruct (join_insert (table h) i c c' Hc) as (a & b & E1 & E2).
  set (h' := set_used (set_bucket h (er_idx r) c') (used h - 1 + zlen x)) in *.
  assert (Hh' : table h' = <[i := c']> (table h)) by (unfold h'; simpl; now rewrite Hi, Nat2Z.id).
  assert (Hj : mjoin (table h) ≡ₚ (k, v) :: cr ++ a ++ b).
  { rewrite E1, Hcp. rewrite app_assoc, (Permutation_app_comm a), <- app_assoc. done. }
  assert (Hj' : mjoin (table h') ≡ₚ x ++ cr ++ a ++ b).
  { rewrite Hh', E2, Hcp'. rewrite app_assoc, (Permutation_app_comm a), <- !app_assoc. done. }
  assert (Halloc' : ht_alloc h').
  { destruct Halloc as [Hpow Hm Hl Hu Hp]. constructor; try done.
    - change (size h') with (size h). rewrite Hh', <- Hl. unfold zlen. now rewrite length_insert.
    - rewrite (zlen_perm _ _ Hj'), zlen_app. rewrite (zlen_perm _ _ Hj), zlen_cons in Hu.
      change (used h') with (used h - 1 + zlen x). lia.
    - rewrite Hh'. apply placed_insert; [done|]. intros e He. rewrite Hcp' in He.
      apply elem_of_app in He as [He|He].
      + destruct Hx as [->|[v' ->]]; [set_solver|]. apply list_elem_of_singleton in He as ->.
        apply (Hp i c (k, v) Hc). by eapply list_elem_of_lookup_2.
      + apply (Hp i c e Hc). rewrite Hcp. set_solver. }
  set (other := mjoin (table (getht d (negb (er_table r))))).
  assert (He : entries d ≡ₚ (k, v) :: cr ++ a ++ b ++ other).
  { unfold entries, other, h in *. destruct (er_table r); simpl in *; rewrite Hj.
    - rewrite Permutation_app_comm. simpl. now rewrite <- !app_assoc.
    - simpl. now rewrite <- !app_assoc. }
  assert (He' : entries d' ≡ₚ x ++ cr ++ a ++ b ++ other).
  { unfold entries, other, d'. destruct (er_table r); cbn [setht ht0 ht1 getht negb]; rewrite Hj'.
    - rewrite Permutation_app_comm. now rewrite <- !app_assoc.
    - now rewrite <- !app_assoc. }
  exists (cr ++ a ++ b ++ other). split; [done|]. split; [done|].
  pose proof (ok_nodup _ Hok) as Hnd. rewrite He in Hnd. simpl in Hnd.
  pose proof (ok_count _ Hok) as Hcnt. rewrite (zlen_perm _ _ He), zlen_cons in Hcnt.
  assert (Hzx : zlen x <= 1) by (destruct Hx as [->|[v' ->]]; done).
  constructor.
  - pose proof (ok_shape _ Hok) as Hs. unfold d', h in *. destruct (er_table r); cbn [setht ht0 ht1 rehashidx getht] in *.
    + destruct Hs as [(_ & H1 & _)|(Hr & H0 & _ & Hlow)]; [rewrite H1 in Hc; done|]. right. done.
    + destruct Hs as [(Hr & H1 & _)|(Hr & _ & H1 & Hlow)]; [left; auto|]. right.
      split; [done|]. split; [done|]. split; [done|]. intros j Hj1 Hj2. rewrite Hh' in Hj2 |- *.
      rewrite length_insert in Hj2. destruct (decide (i = j)) as [<-|]; [|rewrite list_lookup_insert_ne by done; auto].
      rewrite (Hlow i Hj1 Hj2) in Hc. injection Hc as <-. rewrite lookup_nil in Hv. done.
  - rewrite He'. destruct Hx as [->|[v' ->]]; simpl; [|done]. by apply NoDup_cons in Hnd as [_ ?].
  - rewrite (zlen_perm _ _ He'), zlen_app. lia.
Qed.

(** *** The operations as map operations *)
Lemma ref_lookup d r k v : dict_ok d -> ref_ok d r k v -> dict_map d !! k = Some v.
Proof. intros Hok Hr. apply dict_map_Some; [done|]. by apply (ref_entry d r). Qed.

Lemma setVal_spec d r k v v' :
  dict_ok d -> ref_ok d r k v ->
  exists d', dictSetVal d r v' = Some d' /\ dict_ok d' /\ dict_map d' = <[k := v']> (dict_map d) /\
    iterators d' = iterators d.
Proof.
  intros Hok Hr. pose proof Hr as (i & c & Hi & Hc & Hv). unfold dictSetVal.
  assert (Hb : bucket (getht d (er_table r)) (er_idx r) = Some c) by now rewrite Hi, bucket_nat.
  rewrite Hb. cbn [mbind option_bind]. rewrite Hv. cbn [mbind option_bind fst].
  destruct (replace_entry d r k v [(k, v')] c Hok Hr ltac:(eauto) Hb) as (rest & He & He' & Hok').
  assert (E : <[er_pos r := (k, v')]> c = take (er_pos r) c ++ [(k, v')] ++ drop (S (er_pos r)) c).
  { apply insert_take_drop. by eapply lookup_lt_Some. }
  rewrite E. eexists. split; [done|].
  assert (Ed : forall (h : dictht K V) c', set_used (set_bucket h (er_idx r) c') (used h - 1 + zlen [(k, v')]) = set_bucket h (er_idx r) c').
  { intros h c'. unfold set_used, set_bucket. simpl. f_equal. unfold zlen. simpl. lia. }
  rewrite Ed in He', Hok'. split; [done|]. split; [|destruct (er_table r); done].
  pose proof (ok_nodup _ Hok') as Hnd'. rewrite He' in Hnd'. simpl in Hnd'.
  pose proof (ok_nodup _ Hok) as Hnd. rewrite He in Hnd. simpl in Hnd.
  unfold dict_map. rewrite (list_to_map_proper _ _ (ok_nodup _ Hok') He').
  rewrite (list_to_map_proper _ _ (ok_nodup _ Hok) He). simpl. by rewrite insert_insert_eq.
Qed.

Lemma alloc_of_used d : dict_ok d -> 0 < zlen (entries d) -> ht_alloc (ht0 d).
Proof.
  intros Hok Hn. destruct (ok_shape _ Hok) as [(_ & H1 & [H0|H0])|(_ & H0 & _)]; [|done|done].
  unfold entries in Hn. rewrite H0, H1 in Hn. done.
Qed.

Lemma dictSize_entries d : dict_ok d -> dictSize d = zlen (entries d).
Proof.
  intros Hok. unfold dictSize, entries. rewrite zlen_app.
  destruct (ok_shape _ Hok) as [(_ & H1 & [H0|H0])|(_ & H0 & H1 & _)].
  - now rewrite H0, H1.
  - rewrite H1, (alloc_used _ H0). done.
  - now rewrite (alloc_used _ H0), (alloc_used _ H1).
Qed.

Lemma find_spec d k :
  dict_ok d -> exists d' r, dictFind hashFunction d k = Some (d', r) /\ dict_ok d' /\
    dict_map d' = dict_map d /\ iterators d' = iterators d /\
    match r with
    | Some r => exists v, ref_ok d' r k v
    | None => dict_map d !! k = None
    end.
Proof.
  intros Hok. unfold dictFind. pose proof (dictSize_entries d Hok) as Hsz. unfold dictSize in Hsz.
  rewrite Hsz. destruct (Z.eqb_spec (zlen (entries d)) 0) as [Hz|Hz].
  { exists d, None. repeat (split; [done|]). apply dict_map_None.
    destruct (entries d); [set_solver|]. rewrite zlen_cons in Hz. pose proof (zlen_nonneg l). lia. }
  destruct (rehash_if_spec d Hok) as (d1 & -> & Hok1 & Hp & Hit). cbn [mbind option_bind].
  assert (Ha : ht_alloc (ht0 d1)).
  { apply alloc_of_used; [done|]. rewrite (zlen_perm _ _ Hp). pose proof (zlen_nonneg (entries d)). lia. }
  destruct (search_tables_spec d1 k Hok1 Ha) as (idx & r & -> & Hr). cbn [mbind option_bind].
  exists d1, r. split; [done|]. split; [done|]. split; [by apply dict_map_perm|]. split; [done|].
  destruct r as [r|]; [done|]. destruct Hr as [Hn _]. apply dict_map_None. now rewrite <- Hp.
Qed.

Lemma insert_entry d i c k v :
  dict_ok d -> ht_alloc (ht0 d) -> zlen (entries d) + 1 < 2 ^ 58 -> k ∉ (entries d).*1 ->
  let t := dictIsRehashing d in
  let h := getht d t in
  table h !! i = Some c ->
  Z.land (dictHashKey hashFunction k) (sizemask h) = Z.of_nat i ->
  let d' := setht d t (set_used (set_bucket h (Z.of_nat i) ((k, v) :: c)) (u64 (used h + 1))) in
  dict_ok d' /\ entries d' ≡ₚ (k, v) :: entries d.
Proof.
  intros Hok Ha0 Hcnt Hn t h Hc Hi d'.
  assert (Ha : ht_alloc h).
  { unfold h, t. destruct (dictIsRehashing d) eqn:Er; [|done]. by destruct (is_rehashing d Hok Er) as (_ & _ & ? & _). }
  assert (Hu : used h + 1 < 2 ^ 64).
  { rewrite (alloc_used _ Ha). unfold entries in Hcnt. rewrite zlen_app in Hcnt.
    pose proof (zlen_nonneg (mjoin (table (ht0 d)))). pose proof (zlen_nonneg (mjoin (table (ht1 d)))).
    unfold h. zpow. destruct t; simpl; lia. }
  destruct (push_alloc h i c (k, v) Ha Hc Hu Hi) as [Ha' Hp]. cbv zeta in Ha', Hp.
  assert (He : entries d' ≡ₚ (k, v) :: entries d).
  { unfold entries, d', h in *. destruct t; cbn [setht ht0 ht1 getht] in *; rewrite Hp; [|done].
    symmetry. apply Permutation_middle. }
  split; [|done]. constructor.
  - pose proof (ok_shape _ Hok) as Hs. unfold d', h, t in *. destruct (dictIsRehashing d) eqn:Er;
      cbn [setht ht0 ht1 rehashidx getht] in *.
    + destruct (is_rehashing d Hok Er) as (? & ? & ? & ?). right. done.
    + destruct (not_rehashing d Hok Er) as (? & ? & ?). left. auto.
  - rewrite He. simpl. apply NoDup_cons. split; [done|]. apply (ok_nodup _ Hok).
  - rewrite (zlen_perm _ _ He), zlen_cons. lia.
Qed.

Lemma addRaw_spec can_resize undef d k :
  dict_ok d -> zlen (entries d) + 1 < 2 ^ 58 ->
  exists d', dict_ok d' /\ iterators d' = iterators d /\
  match dict_map d !! k with
  | None => exists r, dictAddRaw hashFunction can_resize undef d k = Some (d', Some r, None) /\
      ref_ok d' r k undef /\ dict_map d' = <[k := undef]> (dict_map d)
  | Some v => exists r, dictAddRaw hashFunction can_resize undef d k = Some (d', None, Some r) /\
      ref_ok d' r k v /\ dict_map d' = dict_map d
  end.
Proof.
  intros Hok Hcnt. unfold dictAddRaw, _dictKeyIndex.
  destruct (rehash_if_spec d Hok) as (d1 & -> & Hok1 & Hp1 & Hit1). cbn [mbind option_bind].
  destruct (expandIfNeeded_spec can_resize d1 Hok1) as (d2 & -> & Hok2 & Hp2 & Hit2 & Ha2). cbn [mbind option_bind].
  assert (Hp : entries d2 ≡ₚ entries d) by now rewrite Hp2.
  pose proof (dict_map_perm d d2 Hok Hp) as Hm. rewrite <- Hm.
  destruct (search_tables_spec d2 k Hok2 Ha2) as (idx & r & -> & Hr). cbn [mbind option_bind].
  destruct r as [r|].
  - destruct Hr as [v Hv]. cbn [mbind option_bind]. simpl (-1 =? -1). cbn iota.
    exists d2. split; [done|]. split; [congruence|]. rewrite (ref_lookup d2 r k v) by done.
    exists r. done.
  - destruct Hr as (Hn & i & c & -> & Hc & Hi). cbn [mbind option_bind].
    rewrite (proj2 (Z.eqb_neq (Z.of_nat i) (-1))) by lia. rewrite bucket_nat, Hc. cbn [mbind option_bind].
    destruct (insert_entry d2 i c k undef Hok2 Ha2) as [Hok3 Hp3]; [|done|done|done|].
    { now rewrite (zlen_perm _ _ Hp). }
    eexists. split; [exact Hok3|]. split; [destruct (dictIsRehashing d2); simpl; congruence|].
    rewrite (proj1 (dict_map_None d2 k)) by done. eexists. split; [done|]. split.
    + exists i, ((k, undef) :: c). simpl. split; [done|]. split; [|done].
      apply lookup_lt_Some in Hc. destruct (dictIsRehashing d2); simpl in *; rewrite Nat2Z.id;
        by apply list_lookup_insert_eq.
    + unfold dict_map. rewrite (list_to_map_proper _ _ (ok_nodup _ Hok3) Hp3). done.
Qed.

Lemma delete_spec d k :
  dict_ok d -> exists d', dictGenericDelete hashFunction d k = Some (d', (fun v => (k, v)) <$> dict_map d !! k) /\
    dict_ok d' /\ dict_map d' = delete k (dict_map d) /\ iterators d' = iterators d.
Proof.
  intros Hok. unfold dictGenericDelete. pose proof (dictSize_entries d Hok) as Hsz. unfold dictSize in Hsz.
  assert (Hu : 0 <= used (ht0 d) /\ 0 <= used (ht1 d)).
  { destruct (ok_shape _ Hok) as [(_ & -> & [->|H0])|(_ & H0 & H1 & _)];
      rewrite ?(alloc_used _ H0), ?(alloc_used _ H1); simpl; repeat split; auto using zlen_nonneg, Z.le_refl. }
  destruct (_ && _) eqn:Ez; zb.
  { assert (Hnone : dict_map d !! k = None).
    { apply dict_map_None. destruct (entries d); [set_solver|]. rewrite zlen_cons in Hsz. pose proof (zlen_nonneg l). lia. }
    exists d. rewrite Hnone. split; [done|]. split; [done|]. by rewrite delete_id. }
  destruct (rehash_if_spec d Hok) as (d1 & -> & Hok1 & Hp & Hit). cbn [mbind option_bind].
  rewrite <- (dict_map_perm d d1 Hok Hp).
  assert (Ha : ht_alloc (ht0 d1)).
  { apply alloc_of_used; [done|]. rewrite (zlen_perm _ _ Hp), <- Hsz.
    destruct (Z.eqb_spec (used (ht0 d)) 0), (Z.eqb_spec (used (ht1 d)) 0); try done; lia. }
  destruct (search_tables_spec d1 k Hok1 Ha) as (idx & r & -> & Hr). cbn [mbind option_bind].
  destruct r as [r|].
  2:{ destruct Hr as [Hn _]. apply dict_map_None in Hn. exists d1. rewrite Hn. split; [done|].
      split; [done|]. split; [by rewrite delete_id|done]. }
  destruct Hr as [v Hv]. pose proof Hv as (i & c & Hi & Hc & Hp').
  assert (Hb : bucket (getht d1 (er_table r)) (er_idx r) = Some c) by now rewrite Hi, bucket_nat.
  cbv zeta. rewrite Hb. cbn [mbind option_bind]. rewrite Hp'. cbn [mbind option_bind].
  rewrite (ref_lookup d1 r k v) by done.
  destruct (replace_entry d1 r k v [] c Hok1 Hv ltac:(by left) Hb) as (rest & He & He' & Hok').
  assert (Ed : set_used (set_bucket (getht d1 (er_table r)) (er_idx r) (delete (er_pos r) c))
      (u64 (used (set_bucket (getht d1 (er_table r)) (er_idx r) (delete (er_pos r) c)) - 1)) =
    set_used (set_bucket (getht d1 (er_table r)) (er_idx r) (take (er_pos r) c ++ [] ++ drop (S (er_pos r)) c))
      (used (getht d1 (er_table r)) - 1 + zlen (@nil (K * V)))).
  { unfold set_used, set_bucket. simpl. rewrite delete_take_drop. f_equal.
    pose proof (zlen_nonneg (entries d1)) as Hnn.
    pose proof (ok_count _ Hok1) as Hcnt. pose proof (dictSize_entries d1 Hok1) as Hs1. unfold dictSize in Hs1.
    assert (Hh : ht_alloc (getht d1 (er_table r))).
    { destruct (er_table r); [|done]. destruct (dictIsRehashing d1) eqn:Er.
      - by destruct (is_rehashing d1 Hok1 Er) as (_ & _ & ? & _).
      - destruct (not_rehashing d1 Hok1 Er) as (_ & H1 & _). simpl in Hc. rewrite H1 in Hc. done. }
    destruct (join_insert _ _ _ c Hc) as (a & b & E1 & _). pose proof (alloc_used _ Hh) as Hu1.
    rewrite E1, !zlen_app in Hu1. apply lookup_lt_Some in Hp'.
    pose proof (zlen_nonneg a). pose proof (zlen_nonneg b).
    assert (1 <= zlen c) by (unfold zlen; lia).
    assert (zlen (mjoin (table (getht d1 (er_table r)))) <= zlen (entries d1)).
    { unfold entries. rewrite zlen_app. pose proof (zlen_nonneg (mjoin (table (ht0 d1)))).
      pose proof (zlen_nonneg (mjoin (table (ht1 d1)))). destruct (er_table r); simpl; lia. }
    rewrite E1, !zlen_app in *. rewrite wrapu_small; [unfold zlen; simpl; lia|]. zpow. lia. }
  rewrite Ed. eexists. split; [done|]. split; [done|]. split.
  - unfold dict_map. rewrite (list_to_map_proper _ _ (ok_nodup _ Hok') He').
    rewrite (list_to_map_proper _ _ (ok_nodup _ Hok1) He). simpl.
    pose proof (ok_nodup _ Hok1) as Hnd. rewrite He in Hnd. simpl in Hnd. apply NoDup_cons in Hnd as [Hni _].
    symmetry. apply delete_insert_id. by apply not_elem_of_list_to_map.
  - destruct (er_table r); simpl; done.
Qed.
End Invariant.

(** ** Traces of operations, and the finite map they implement *)
Section Traces.
  Context {K V : Type} `{Countable K} (hashFunction : K -> Z) (can_resize : bool) (undef : V).

Inductive dict_op :=
| OpAdd (k : K) (v : V)
| OpReplace (k : K) (v : V)
| OpDelete (k : K)
| OpFetch (k : K)
| OpRehash (n : nat)
| OpResize.

(** What a caller observes. *)
Inductive dict_out := ORc (rc : dict_rc) | OInt (i : Z) | OVal (v : option V) | ONone.

Definition dict_step (d : dict K V) (op : dict_op) : option (dict K V * dict_out) :=
  match op with
  | OpAdd k v => '(d, rc) ← dictAdd hashFunction can_resize undef d k v; Some (d, ORc rc)
  | OpReplace k v => '(d, i) ← dictReplace hashFunction can_resize undef d k v; Some (d, OInt i)
  | OpDelete k => '(d, rc) ← dictDelete hashFunction d k; Some (d, ORc rc)
  | OpFetch k => '(d, v) ← dictFetchValue hashFunction d k; Some (d, OVal v)
  | OpRehash n => '(d, _) ← dictRehash hashFunction d n; Some (d, ONone)
  | OpResize => '(d, _) ← dictResize can_resize d; Some (d, ONone)
  end.

Fixpoint dict_run (d : dict K V) (ops : list dict_op) : option (dict K V * list dict_out) :=
  match ops with
  | [] => Some (d, [])
  | op :: ops =>
      '(d, o) ← dict_step d op;
      '(d, os) ← dict_run d ops;
      Some (d, o :: os)
  end.

(** The specification: the same operations on a finite map. *)
Definition map_step (m : gmap K V) (op : dict_op) : gmap K V * dict_out :=
  match op with
  | OpAdd k v => match m !! k with
                 | Some _ => (m, ORc DICT_ERR)
                 | None => (<[k := v]> m, ORc DICT_OK)
                 end
  | OpReplace k v => (<[k := v]> m, OInt (match m !! k with Some _ => 0 | None => 1 end))
  | OpDelete k => (delete k m, ORc (match m !! k with Some _ => DICT_OK | None => DICT_ERR end))
  | OpFetch k => (m, OVal (m !! k))
  | OpRehash _ | OpResize => (m, ONone)
  end.

Fixpoint map_run (m : gmap K V) (ops : list dict_op) : gmap K V * list dict_out :=
  match ops with
  | [] => (m, [])
  | op :: ops =>
      let '(m, o) := map_step m op in
      let '(m, os) := map_run m ops in
      (m, o :: os)
  end.

Lemma dict_ok_create : dict_ok hashFunction (dictCreate (K := K) (V := V)).
Proof. constructor; simpl; [left; auto|constructor|done]. Qed.

Lemma dictAdd_spec (d : dict K V) k v :
  dict_ok hashFunction d -> zlen (entries d) + 1 < 2 ^ 58 ->
  exists d', dict_ok hashFunction d' /\ iterators d' = iterators d /\
  dictAdd hashFunction can_resize undef d k v =
    Some (d', match dict_map d !! k with Some _ => DICT_ERR | None => DICT_OK end) /\
  dict_map d' = match dict_map d !! k with Some _ => dict_map d | None => <[k := v]> (dict_map d) end.
Proof.
  intros Hok Hc. unfold dictAdd.
  destruct (addRaw_spec hashFunction can_resize undef d k Hok Hc) as (d1 & Hok1 & Hit & H1).
  destruct (dict_map d !! k) as [w|] eqn:El.
  - destruct H1 as (r & -> & Hr & Hm). exists d1. done.
  - destruct H1 as (r & -> & Hr & Hm). cbn [mbind option_bind].
    destruct (setVal_spec hashFunction d1 r k undef v Hok1 Hr) as (d2 & -> & Hok2 & Hm2 & Hit2).
    exists d2. split; [done|]. split; [congruence|]. split; [done|].
    now rewrite Hm2, Hm, insert_insert_eq.
Qed.

Lemma dictReplace_spec (d : dict K V) k v :
  dict_ok hashFunction d -> zlen (entries d) + 1 < 2 ^ 58 ->
  exists d', dict_ok hashFunction d' /\ iterators d' = iterators d /\
  dictReplace hashFunction can_resize undef d k v =
    Some (d', match dict_map d !! k with Some _ => 0 | None => 1 end) /\
  dict_map d' = <[k := v]> (dict_map d).
Proof.
  intros Hok Hc. unfold dictReplace.
  destruct (addRaw_spec hashFunction can_resize undef d k Hok Hc) as (d1 & Hok1 & Hit & H1).
  destruct (dict_map d !! k) as [w|] eqn:El; destruct H1 as (r & -> & Hr & Hm); cbn [mbind option_bind].
  - destruct (setVal_spec hashFunction d1 r k w v Hok1 Hr) as (d2 & -> & Hok2 & Hm2 & Hit2).
    exists d2. split; [done|]. split; [congruence|]. split; [done|]. congruence.
  - destruct (setVal_spec hashFunction d1 r k undef v Hok1 Hr) as (d2 & -> & Hok2 & Hm2 & Hit2).
    exists d2. split; [done|]. split; [congruence|]. split; [done|]. now rewrite Hm2, Hm, insert_insert_eq.
Qed.

Lemma dictFetchValue_spec (d : dict K V) k :
  dict_ok hashFunction d ->
  exists d', dict_ok hashFunction d' /\ iterators d' = iterators d /\
  dictFetchValue hashFunction d k = Some (d', dict_map d !! k) /\ dict_map d' = dict_map d.
Proof.
  intros Hok. unfold dictFetchValue.
  destruct (find_spec hashFunction d k Hok) as (d1 & r & -> & Hok1 & Hm & Hit & Hr). cbn [mbind option_bind].
  exists d1. split; [done|]. split; [done|]. split; [|done]. destruct r as [r|]; [|by rewrite Hr].
  destruct Hr as [v Hv]. rewrite (proj1 (ref_entry d1 r k v Hv)). simpl.
  now rewrite <- Hm, (ref_lookup hashFunction d1 r k v).
Qed.

Lemma dictResize_spec (d : dict K V) :
  dict_ok hashFunction d -> exists d' rc, dictResize can_resize d = Some (d', rc) /\
    dict_ok hashFunction d' /\ dict_map d' = dict_map d /\ iterators d' = iterators d.
Proof.
  intros Hok. unfold dictResize. destruct (_ || _) eqn:E; [by exists d, DICT_ERR|].
  apply orb_false_iff in E as [_ Er].
  assert (Hu : used (ht0 d) <= 2 ^ 58).
  { pose proof (dictSize_entries hashFunction d Hok) as Hs. unfold dictSize in Hs.
    destruct (not_rehashing hashFunction d Hok Er) as (_ & H1 & _). rewrite H1 in Hs. simpl in Hs.
    pose proof (ok_count _ _ Hok). lia. }
  destruct (dictExpand_spec hashFunction d
    (if used (ht0 d) <? DICT_HT_INITIAL_SIZE then DICT_HT_INITIAL_SIZE else used (ht0 d)) Hok)
    as (d' & rc & E & Hok' & He & Hit & _).
  { destruct (_ <? _); unfold DICT_HT_INITIAL_SIZE; zpow; lia. }
  exists d', rc. split; [exact E|]. split; [done|]. split; [unfold dict_map; now rewrite He|done].
Qed.

Lemma dict_map_size (d : dict K V) :
  dict_ok hashFunction d -> Z.of_nat (base.size (dict_map d)) = zlen (entries d).
Proof.
  intros Hok. unfold dict_map, zlen. rewrite <- length_map_to_list.
  now rewrite map_to_list_to_map by apply (ok_nodup _ _ Hok).
Qed.

Lemma map_step_size (m : gmap K V) op : (base.size (map_step m op).1 <= S (base.size m))%nat.
Proof.
  assert (Hi : forall k v, (base.size (<[k := v]> m : gmap K V) <= S (base.size m))%nat).
  { intros k v. destruct (m !! k) eqn:E.
    - rewrite map_size_insert_Some by eauto. lia.
    - rewrite map_size_insert_None by done. lia. }
  assert (Hd : forall k, (base.size (delete k m) <= base.size m)%nat).
  { intros k. destruct (m !! k) eqn:E; [|by rewrite delete_id]. rewrite map_size_delete_Some by eauto. lia. }
  destruct op as [k v|k v|k|k|n|]; simpl; auto.
  destruct (m !! k); simpl; auto.
Qed.

Lemma dict_step_refines (d : dict K V) op :
  dict_ok hashFunction d -> zlen (entries d) + 1 < 2 ^ 58 ->
  exists (d' : dict K V) o, dict_step d op = Some (d', o) /\ dict_ok hashFunction d' /\
    map_step (dict_map d) op = (dict_map d', o).
Proof.
  intros Hok Hc. destruct op as [k v|k v|k|k|n|]; simpl.
  - destruct (dictAdd_spec d k v Hok Hc) as (d' & Hok' & _ & -> & Hm). eexists d', _. split; [done|].
    split; [done|]. rewrite Hm. destruct (dict_map d !! k); done.
  - destruct (dictReplace_spec d k v Hok Hc) as (d' & Hok' & _ & -> & Hm). eexists d', _. split; [done|].
    split; [done|]. now rewrite Hm.
  - unfold dictDelete. destruct (delete_spec hashFunction d k Hok) as (d' & -> & Hok' & Hm & _). simpl.
    eexists d', _. split; [done|]. split; [done|]. rewrite Hm. destruct (dict_map d !! k); done.
  - destruct (dictFetchValue_spec d k Hok) as (d' & Hok' & _ & -> & Hm). eexists d', _. split; [done|].
    split; [done|]. now rewrite Hm.
  - destruct (dictRehash_spec hashFunction d n Hok) as (d' & r & -> & Hok' & Hp & _). eexists d', _.
    split; [done|]. split; [done|]. now rewrite (dict_map_perm hashFunction d d' Hok Hp).
  - destruct (dictResize_spec d Hok) as (d' & rc & -> & Hok' & Hm & _). eexists d', _. split; [done|].
    split; [done|]. now rewrite Hm.
Qed.

Lemma dict_run_refines ops (d : dict K V) :
  dict_ok hashFunction d -> zlen (entries d) + zlen ops < 2 ^ 58 ->
  exists d' os, dict_run d ops = Some (d', os) /\ dict_ok hashFunction d' /\
    map_run (dict_map d) ops = (dict_map d', os).
Proof.
  revert d. induction ops as [|op ops IH]; intros d Hok Hc; [by exists d, []|].
  rewrite zlen_cons in Hc. pose proof (zlen_nonneg ops). simpl.
  destruct (dict_step_refines d op Hok) as (d1 & o & -> & Hok1 & E1); [lia|]. rewrite E1. cbn [mbind option_bind].
  destruct (IH d1 Hok1) as (d2 & os & -> & Hok2 & E2).
  { pose proof (map_step_size (dict_map d) op) as Hs. rewrite E1 in Hs. simpl in Hs.
    rewrite <- (dict_map_size d), <- (dict_map_size d1) in * by done. lia. }
  rewrite E2. cbn [mbind option_bind]. by exists d2, (o :: os).
Qed.

Lemma dict_ok_run ops d outs :
  dict_run dictCreate ops = Some (d, outs) -> zlen ops < 2 ^ 58 -> dict_ok hashFunction d.
Proof.
  intros E Hc. destruct (dict_run_refines ops dictCreate dict_ok_create) as (d' & os & E' & Hok & _); [done|].
  congruence.
Qed.
End Traces.

(** C3: dict.c implements a finite map.  Any sequence of additions, updates,
    deletions, lookups, rehashing steps and resizes, from an empty dictionary,
    with any hash function and resizing enabled or not, runs without touching
    memory outside its tables, keeps the invariant of the two tables, and
    returns what the same operations return on a finite map. *)
Theorem dict_implements_map {K V : Type} `{Countable K} (hashFunction : K -> Z) can_resize (undef : V) ops :
  zlen ops < 2 ^ 58 ->
  exists d outs, dict_run hashFunction can_resize undef dictCreate ops = Some (d, outs) /\
    dict_ok hashFunction d /\ map_run ∅ ops = (dict_map d, outs).
Proof.
  intros Hc. apply (dict_run_refines hashFunction can_resize undef ops dictCreate).
  - apply dict_ok_create.
  - done.
Qed.

Lemma dict_implements_map_witness :
  exists d outs, dict_run (fun k : Z => k * 7) true 0 dictCreate [OpAdd 1 10; OpAdd 1 11; OpFetch 1; OpDelete 2]
     = Some (d, outs) /\ outs = [ORc DICT_OK; ORc DICT_ERR; OVal (Some 10); ORc DICT_ERR].
Proof.
  destruct (dict_implements_map (fun k : Z => k * 7) true 0
     [OpAdd 1 10; OpAdd 1 11; OpFetch 1; OpDelete 2]) as (d & outs & E1 & _ & E2); [done|].
  exists d, outs. split; [exact E1|]. vm_compute in E2. congruence.
Defined.

Lemma rehash_ms_loop_spec {K V : Type} `{Countable K} (hashFunction : K -> Z) fuel i clock ms (d : dict K V) acc :
  dict_ok hashFunction d -> (0 < fuel)%nat ->
  (dictIsRehashing d = true -> (Z.to_nat (size (ht0 d) - rehashidx d) + 1 < fuel)%nat) ->
  exists d' n, rehash_ms_loop hashFunction fuel i clock ms d acc = Some (d', n) /\
    dict_ok hashFunction d' /\ dict_map d' = dict_map d /\
    ((forall j, clock j - clock O <= ms) -> dictIsRehashing d' = false).
Proof.
  revert i d acc. induction fuel as [|fuel IH]; intros i d acc Hok Hf Hfuel; [lia|]. simpl.
  destruct (dictRehash_spec hashFunction d 100 Hok) as (d1 & r & -> & Hok1 & Hp & _ & Hr0 & Hr1).
  cbn [mbind option_bind]. pose proof (dict_map_perm hashFunction d d1 Hok Hp) as Hm.
  destruct (Z.eqb_spec r 0) as [->|Hr].
  { exists d1, acc. split; [done|]. split; [done|]. split; [done|]. intros _. by apply Hr0. }
  destruct (Hr1 Hr ltac:(lia)) as (Hprog & Hsz & Her). specialize (Hfuel Her).
  rewrite Z.gtb_ltb. destruct (Z.ltb_spec ms (clock i - clock O)) as [Ht|Ht].
  { eexists d1, _. split; [done|]. split; [done|]. split; [done|]. intros Hc. specialize (Hc i). lia. }
  assert (He1 : dictIsRehashing d1 = true).
  { destruct (dictIsRehashing d1); [done|]. exfalso. apply Hr. by apply Hr0. }
  destruct (is_rehashing hashFunction d1 Hok1 He1) as (Hr2 & _).
  destruct (IH (S i) d1 (acc + 100) Hok1) as (d' & n & -> & Hok' & Hm' & Hend); [lia| |].
  { intros _. rewrite Hsz in *. lia. }
  exists d', n. split; [done|]. split; [done|]. split; [congruence|done].
Qed.

(** [dictRehashMilliseconds] terminates whatever the clock does, after at
    most one round per bucket of the old table; it never changes the contents,
    and when the time budget is not exceeded the rehashing is complete. *)
Theorem dictRehashMilliseconds_terminates {K V : Type} `{Countable K} (hashFunction : K -> Z)
    clock ms (d : dict K V) :
  dict_ok hashFunction d ->
  exists d' n,
    dictRehashMilliseconds hashFunction (Z.to_nat (size (ht0 d)) + 2) clock d ms = Some (d', n) /\
    dict_ok hashFunction d' /\ dict_map d' = dict_map d /\
    ((forall j, clock j - clock O <= ms) -> dictIsRehashing d' = false).
Proof.
  intros Hok. apply rehash_ms_loop_spec; [done|lia|]. intros Er.
  destruct (is_rehashing hashFunction d Hok Er) as (Hr & _). lia.
Qed.

Lemma dictRehashMilliseconds_witness :
  exists d' n, dictRehashMilliseconds (fun k : Z => k) 2 (fun _ => 0)
    (dictCreate (K := Z) (V := Z)) 1 = Some (d', n) /\ dictIsRehashing d' = false.
Proof.
  destruct (dictRehashMilliseconds_terminates (fun k : Z => k) (fun _ => 0) 1
    (dictCreate (K := Z) (V := Z)) (dict_ok_create _)) as (d' & n & E & _ & _ & Hend).
  exists d', n. split; [exact E|]. apply Hend. intros _. discriminate.
Defined.

(** [dictEmpty] frees every entry exactly once and leaves a fresh
    dictionary. *)
Theorem dictEmpty_correct {K V : Type} `{Countable K} (hashFunction : K -> Z) (d : dict K V) :
  dict_ok hashFunction d -> dictEmpty d = (entries d, dictCreate).
Proof.
  intros Hok. unfold dictEmpty, _dictClear.
  assert (Hcl : forall t : list (list (K * V)), clear_loop t (zlen (mjoin t)) = mjoin t).
  { induction t as [|c t IH]; [done|]. simpl. rewrite zlen_app, Z.gtb_ltb.
    pose proof (zlen_nonneg c). pose proof (zlen_nonneg (mjoin t)).
    destruct (Z.ltb_spec 0 (zlen c + zlen (mjoin t))) as [|Hz].
    - now replace (zlen c + zlen (mjoin t) - zlen c) with (zlen (mjoin t)) by lia; rewrite IH.
    - destruct c; [|rewrite zlen_cons in *; pose proof (zlen_nonneg c); lia].
      destruct (mjoin t); [done|]. rewrite zlen_cons in *. pose proof (zlen_nonneg l). unfold zlen in *; simpl in *; lia. }
  destruct (ok_shape _ _ Hok) as [(_ & H1 & [H0|H0])|(_ & H0 & H1 & _)]; unfold entries.
  - now rewrite H0, H1.
  - rewrite H1, (alloc_used _ _ H0), Hcl. done.
  - now rewrite (alloc_used _ _ H0), (alloc_used _ _ H1), !Hcl.
Qed.

Lemma dictEmpty_witness :
  exists d outs, dict_run (fun k : Z => k) true 0 dictCreate [OpAdd 1 10; OpAdd 5 50; OpAdd 2 20] = Some (d, outs) /\
    dictEmpty d = ([(5, 50); (1, 10); (2, 20)], dictCreate).
Proof.
  eexists _, _. split; [vm_compute; reflexivity|].
  rewrite (dictEmpty_correct (fun k : Z => k)); [vm_compute; reflexivity|].
  eapply (dict_ok_run (fun k : Z => k) true 0 [OpAdd 1 10; OpAdd 5 50; OpAdd 2 20]); [|done].
  vm_compute. reflexivity.
Defined.
