(* ===== verification/DictScan.v ===== *)
(** * dict.c, dictScan: the stateless cursor

    The cursor is advanced from its high bits: reversed, incremented,
    reversed back.  In reversed order ([rev]) each call of [dictScan] covers
    one interval of hash values, whatever the sizes of the tables are at that
    moment; that is why an element that is present during a whole iteration
    is returned even when the table grows, shrinks or is being rehashed. *)
From S2P Require Import Prelude Dict.

(** [while ((s >>= 1) > 0)]: [s] starts at 64, so six iterations. *)
Fixpoint rev_loop (fuel : nat) (s mask v : Z) : Z :=
  match fuel with
  | O => v
  | S fuel =>
      let s := Z.shiftr s 1 in
      if s >? 0 then
        let mask := Z.lxor mask (u64 (Z.shiftl mask s)) in
        let v := Z.lor (Z.land (Z.shiftr v s) mask)
                       (Z.land (u64 (Z.shiftl v s)) (u64 (Z.lnot mask))) in
        rev_loop fuel s mask v
      else v
  end.
Definition rev (v : Z) : Z := rev_loop 7 (8 * 8) (u64 (Z.lnot 0)) v.

(** [v |= ~m; v = rev(v); v++; v = rev(v)]. *)
Definition cursor_next (v m : Z) : Z :=
  let v := Z.lor v (u64 (Z.lnot m)) in
  rev (u64 (rev v + 1)).

Section Scan.
  Context {K V : Type} `{Countable K} (hashFunction : K -> Z).

(** The [do ... while (v & (m0 ^ m1))] loop over the larger table. *)
Fixpoint scan_expand (fuel : nat) (t1 : dictht K V) (m0 m1 v : Z)
  : option (list (K * V) * Z) :=
  match fuel with
  | O => None
  | S fuel =>
      es ← bucket t1 (Z.land v m1);
      let v := cursor_next v m1 in
      if Z.land v (Z.lxor m0 m1) =? 0 then Some (es, v)
      else '(es', v) ← scan_expand fuel t1 m0 m1 v; Some (es ++ es', v)
  end.

(** The entries passed to [fn], in order, and the new cursor.  The callback
    does not touch the tables ([iterators] is raised around it). *)
Definition dictScan (d : dict K V) (v : Z) : option (list (K * V) * Z) :=
  if dictSize d =? 0 then Some ([], 0)
  else if negb (dictIsRehashing d) then
    let t0 := ht0 d in
    let m0 := sizemask t0 in
    es ← bucket t0 (Z.land v m0);
    Some (es, cursor_next v m0)
  else
    let '(t0, t1) := if size (ht0 d) >? size (ht1 d) then (ht1 d, ht0 d) else (ht0 d, ht1 d) in
    let m0 := sizemask t0 in
    let m1 := sizemask t1 in
    es ← bucket t0 (Z.land v m0);
    '(es', v) ← scan_expand (Z.to_nat (size t1)) t1 m0 m1 v;
    Some (es ++ es', v).

(** A client: one call per dictionary state, until the cursor is 0 again. *)
Fixpoint scan_states (ds : list (dict K V)) (v : Z) : option (list (K * V) * Z) :=
  match ds with
  | [] => Some ([], v)
  | d :: ds =>
      '(es, v) ← dictScan d v;
      if v =? 0 then Some (es, 0)
      else '(es', v) ← scan_states ds v; Some (es ++ es', v)
  end.
End Scan.

(** ** Bit reversal *)
Definition swap_mask_ok (s mask : Z) : Prop :=
  0 <= mask < 2 ^ 64 /\
  forall i, 0 <= i < 64 -> Z.testbit mask i = ((i / s) mod 2 =? 0).

Lemma u64_testbit x i : 0 <= i -> Z.testbit (u64 x) i = (i <? 64) && Z.testbit x i.
Proof.
  intros Hi. unfold wrapu. destruct (Z.ltb_spec i 64).
  - now rewrite Z.mod_pow2_bits_low by lia.
  - now rewrite Z.mod_pow2_bits_high by lia.
Qed.

Lemma bits_above x i : 0 <= x < 2 ^ 64 -> 64 <= i -> Z.testbit x i = false.
Proof.
  intros Hx Hi. rewrite <- (Z.mod_small x (2 ^ 64)) by done. now apply Z.mod_pow2_bits_high.
Qed.

Lemma range_of_bits x : 0 <= x -> (forall i, 64 <= i -> Z.testbit x i = false) -> x < 2 ^ 64.
Proof.
  intros Hx Hb. destruct (Z.lt_ge_cases x (2 ^ 64)) as [|Hge]; [done|]. exfalso.
  assert (Hl : 64 <= Z.log2 x) by (change 64 with (Z.log2 (2 ^ 64)); now apply Z.log2_le_mono).
  specialize (Hb _ Hl). rewrite Z.bit_log2 in Hb by lia. done.
Qed.

(** One step exchanges neighbouring blocks of [s] bits. *)
Lemma swap_step s mask v i :
  0 < s -> swap_mask_ok s mask -> 0 <= v < 2 ^ 64 -> 0 <= i ->
  Z.testbit (Z.lor (Z.land (Z.shiftr v s) mask)
                   (Z.land (u64 (Z.shiftl v s)) (u64 (Z.lnot mask)))) i =
  (i <? 64) && (if (i / s) mod 2 =? 0 then Z.testbit v (i + s) else Z.testbit v (i - s)).
Proof.
  intros Hs [Hm Hmask] Hv Hi. rewrite Z.lor_spec, !Z.land_spec, !u64_testbit by done.
  rewrite Z.shiftr_spec, Z.shiftl_spec, Z.lnot_spec by done.
  destruct (Z.ltb_spec i 64) as [Hlt|Hge].
  - rewrite Hmask by lia. destruct (_ =? 0); simpl.
    + now rewrite andb_true_r, andb_false_r, orb_false_r.
    + now rewrite andb_false_r, andb_true_r.
  - rewrite (bits_above mask) by done. now rewrite andb_false_r.
Qed.

Lemma forall_64 (P : Z -> bool) :
  forallb P (map Z.of_nat (seq 0 64)) = true -> forall i, 0 <= i < 64 -> P i = true.
Proof.
  intros Hf i Hi. rewrite forallb_forall in Hf. apply Hf. apply in_map_iff.
  exists (Z.to_nat i). split; [lia|]. apply in_seq. lia.
Qed.

Definition masks : list (Z * Z) :=
  [(32, 4294967295); (16, 281470681808895); (8, 71777214294589695);
   (4, 1085102592571150095); (2, 3689348814741910323); (1, 6148914691236517205)].

Lemma masks_ok s mask : (s, mask) ∈ masks -> swap_mask_ok s mask.
Proof.
  intros Hin. assert (H : forallb (fun '(s, m) => (0 <=? m) && (m <? 2 ^ 64) &&
     forallb (fun i => Bool.eqb (Z.testbit m i) ((i / s) mod 2 =? 0)) (map Z.of_nat (seq 0 64))) masks = true)
    by (vm_compute; reflexivity).
  rewrite forallb_forall in H. specialize (H (s, mask) (proj1 (list_elem_of_In _ _) Hin)). cbv beta iota in H.
  apply andb_true_iff in H as [H H2]. apply andb_true_iff in H as [H0 H1].
  split; [zb; lia|]. intros i Hi. pose proof (forall_64 _ H2 i Hi) as Hb. now apply Bool.eqb_prop in Hb.
Qed.

Lemma masks_pos s mask : (s, mask) ∈ masks -> 0 < s.
Proof.
  unfold masks. intros Hin.
  repeat (apply elem_of_cons in Hin as [[= -> _]|Hin]; [lia|]). by apply not_elem_of_nil in Hin.
Qed.

Definition swap (v : Z) (sm : Z * Z) : Z :=
  Z.lor (Z.land (Z.shiftr v (fst sm)) (snd sm))
        (Z.land (u64 (Z.shiftl v (fst sm))) (u64 (Z.lnot (snd sm)))).

Lemma rev_swaps v : rev v = fold_left swap masks v.
Proof. reflexivity. Qed.

Lemma swap_range v s mask : (s, mask) ∈ masks -> 0 <= v < 2 ^ 64 -> 0 <= swap v (s, mask) < 2 ^ 64.
Proof.
  intros Hin Hv. pose proof (masks_pos s mask Hin) as Hs. split.
  - unfold swap. apply Z.lor_nonneg. split; apply Z.land_nonneg; left; [apply Z.shiftr_nonneg; lia|].
    apply wrapu_range. lia.
  - apply range_of_bits.
    + unfold swap. apply Z.lor_nonneg. split; apply Z.land_nonneg; left; [apply Z.shiftr_nonneg; lia|].
      apply wrapu_range. lia.
    + intros i Hi. unfold swap. simpl. rewrite swap_step by (try apply masks_ok; done || lia).
      destruct (Z.ltb_spec i 64); [lia|done].
Qed.

Lemma swap_testbit v s mask i :
  (s, mask) ∈ masks -> 0 <= v < 2 ^ 64 -> 0 <= i < 64 ->
  Z.testbit (swap v (s, mask)) i =
  Z.testbit v (if (i / s) mod 2 =? 0 then i + s else i - s).
Proof.
  intros Hin Hv Hi. unfold swap; simpl. rewrite swap_step by (eauto using masks_ok, masks_pos; lia).
  rewrite (proj2 (Z.ltb_lt _ _)) by lia. destruct (_ =? 0); done.
Qed.

(** Where the six exchanges take the bit that ends up at [i]. *)
Fixpoint unswap (l : list (Z * Z)) (i : Z) : Z :=
  match l with
  | [] => i
  | (s, _) :: l => let i := unswap l i in if (i / s) mod 2 =? 0 then i + s else i - s
  end.

Lemma swaps_testbit l v i :
  (forall sm, sm ∈ l -> sm ∈ masks) -> 0 <= v < 2 ^ 64 -> 0 <= i < 64 ->
  (forall k, 0 <= unswap (drop k l) i < 64) ->
  0 <= fold_left swap l v < 2 ^ 64 /\ Z.testbit (fold_left swap l v) i = Z.testbit v (unswap l i).
Proof.
  intros Hl Hv Hi Hk. revert v Hv. induction l as [|[s m] l IH]; intros v Hv; [done|]. simpl fold_left.
  assert (Hin : (s, m) ∈ masks) by (apply Hl; set_solver).
  destruct (IH) with (v := swap v (s, m)) as [Hr ->].
  - intros sm Hsm. apply Hl. set_solver.
  - intros k. apply (Hk (S k)).
  - by apply swap_range.
  - split; [done|]. rewrite swap_testbit by (done || apply (Hk 1%nat)). done.
Qed.

Lemma rev_spec v i :
  0 <= v < 2 ^ 64 -> 0 <= i < 64 ->
  0 <= rev v < 2 ^ 64 /\ Z.testbit (rev v) i = Z.testbit v (63 - i).
Proof.
  intros Hv Hi. rewrite rev_swaps.
  assert (Hu : unswap masks i = 63 - i).
  { assert (H := forall_64 (fun i => unswap masks i =? 63 - i) ltac:(vm_compute; reflexivity) i Hi).
    by apply Z.eqb_eq in H. }
  rewrite <- Hu. apply swaps_testbit; [done|done|done|]. intros k.
  assert (H := forall_64 (fun i => forallb (fun k => let j := unswap (drop k masks) i in (0 <=? j) && (j <? 64)) (seq 0 7))
    ltac:(vm_compute; reflexivity) i Hi). cbv beta in H. rewrite forallb_forall in H.
  destruct (decide (k < 7)%nat) as [Hk|Hk].
  - specialize (H k ltac:(apply in_seq; lia)). cbv zeta in H. zb. lia.
  - rewrite drop_ge by (unfold masks; simpl; lia). simpl. lia.
Qed.

Lemma rev_range v : 0 <= v < 2 ^ 64 -> 0 <= rev v < 2 ^ 64.
Proof. intros Hv. apply (rev_spec v 0 Hv). lia. Qed.

Lemma rev_bit v i : 0 <= v < 2 ^ 64 -> 0 <= i < 64 -> Z.testbit (rev v) i = Z.testbit v (63 - i).
Proof. intros Hv Hi. apply (rev_spec v i Hv Hi). Qed.

Lemma bits_eq_64 x y :
  0 <= x < 2 ^ 64 -> 0 <= y < 2 ^ 64 -> (forall i, 0 <= i < 64 -> Z.testbit x i = Z.testbit y i) -> x = y.
Proof.
  intros Hx Hy H. apply Z.bits_inj'. intros i Hi. destruct (Z.lt_ge_cases i 64); [auto|].
  now rewrite !bits_above by done.
Qed.

Lemma rev_rev v : 0 <= v < 2 ^ 64 -> rev (rev v) = v.
Proof.
  intros Hv. apply bits_eq_64; [by apply rev_range, rev_range|done|]. intros i Hi.
  rewrite !rev_bit by (try apply rev_range; done || lia). f_equal. lia.
Qed.

Lemma rev_0 : rev 0 = 0.
Proof. vm_compute. reflexivity. Qed.

Lemma rev_wrap : rev (u64 (2 ^ 64)) = 0.
Proof. vm_compute. reflexivity. Qed.

#[local] Opaque rev.

(** ** Intervals of reversed hashes *)
Lemma lor_ones_eq a n : 0 <= n -> Z.lor a (Z.ones n) = (a / 2 ^ n) * 2 ^ n + (2 ^ n - 1).
Proof.
  intros Hn. pose proof (Z.add_lor_land a (Z.ones n)) as E. rewrite Z.land_ones, Z.ones_equiv in E by done.
  pose proof (Z.div_mod a (2 ^ n)). rewrite Z.ones_equiv. lia.
Qed.

Lemma mask_bit k i : 0 <= k -> 0 <= i -> Z.testbit (2 ^ k - 1) i = (i <? k).
Proof.
  intros Hk Hi. replace (2 ^ k - 1) with (Z.ones k) by (rewrite Z.ones_equiv; lia).
  destruct (Z.ltb_spec i k); [apply Z.ones_spec_low|apply Z.ones_spec_high]; lia.
Qed.

(** The cursor moves to the start of the next block of [2^(64-k)] reversed
    values. *)
Lemma cursor_next_spec v k :
  1 <= k <= 63 -> 0 <= v < 2 ^ 64 ->
  0 <= cursor_next v (2 ^ k - 1) < 2 ^ 64 /\
  rev (cursor_next v (2 ^ k - 1)) = u64 ((rev v / 2 ^ (64 - k) + 1) * 2 ^ (64 - k)).
Proof.
  intros Hk Hv. unfold cursor_next. set (w := Z.lor v (u64 (Z.lnot (2 ^ k - 1)))).
  assert (Hw : 0 <= w < 2 ^ 64).
  { split; [apply Z.lor_nonneg; split; [lia|apply wrapu_range; lia]|].
    apply range_of_bits; [apply Z.lor_nonneg; split; [lia|apply wrapu_range; lia]|].
    intros i Hi. unfold w. rewrite Z.lor_spec, u64_testbit, (bits_above v) by (done || lia).
    now rewrite (proj2 (Z.ltb_ge i 64)) by lia. }
  assert (E : rev w = Z.lor (rev v) (Z.ones (64 - k))).
  { pose proof (rev_range v Hv). apply bits_eq_64; [by apply rev_range| |].
    - assert (Ho : 0 <= Z.ones (64 - k)) by (rewrite Z.ones_equiv; lia).
      split; [apply Z.lor_nonneg; lia|]. apply range_of_bits; [apply Z.lor_nonneg; lia|].
      intros i Hi. rewrite Z.lor_spec, bits_above, Z.ones_spec_high by (done || lia). done.
    - intros i Hi. rewrite Z.lor_spec, !rev_bit by (done || lia). unfold w.
      rewrite Z.lor_spec, u64_testbit, Z.lnot_spec, mask_bit by lia.
      rewrite (proj2 (Z.ltb_lt (63 - i) 64)) by lia. simpl. f_equal.
      destruct (Z.ltb_spec (63 - i) k); simpl.
      + rewrite Z.ones_spec_high by lia. done.
      + rewrite Z.ones_spec_low by lia. done. }
  pose proof (wrapu_range 64 (rev w + 1) ltac:(lia)) as Hr. split; [by apply rev_range|].
  rewrite rev_rev by done. rewrite E, lor_ones_eq by lia. f_equal. lia.
Qed.

(** Two hashes in the same block select the same bucket. *)
Lemma same_block x y k :
  1 <= k <= 63 -> 0 <= x < 2 ^ 64 -> 0 <= y < 2 ^ 64 ->
  rev x / 2 ^ (64 - k) = rev y / 2 ^ (64 - k) -> Z.land x (2 ^ k - 1) = Z.land y (2 ^ k - 1).
Proof.
  intros Hk Hx Hy E. apply Z.bits_inj'. intros i Hi. rewrite !Z.land_spec, mask_bit by lia.
  destruct (Z.ltb_spec i k); [|now rewrite !andb_false_r]. rewrite !andb_true_r.
  apply (f_equal (fun z => Z.testbit z (k - 1 - i))) in E.
  rewrite !Z.div_pow2_bits, !rev_bit in E by (done || lia).
  replace (63 - (k - 1 - i + (64 - k))) with i in E by lia. done.
Qed.

Lemma mod_pow2_zero x n :
  0 <= n -> x mod 2 ^ n = 0 <-> (forall j, 0 <= j < n -> Z.testbit x j = false).
Proof.
  intros Hn. split.
  - intros E j Hj. apply (f_equal (fun z => Z.testbit z j)) in E.
    rewrite Z.mod_pow2_bits_low, Z.testbit_0_l in E by lia. done.
  - intros Hb. apply Z.bits_inj'. intros j Hj. rewrite Z.testbit_0_l.
    destruct (Z.lt_ge_cases j n); [rewrite Z.mod_pow2_bits_low by lia; auto|].
    now rewrite Z.mod_pow2_bits_high by lia.
Qed.

(** The test of the [do ... while] loop: the cursor is back at the start of a
    block of the smaller table. *)
Lemma loop_test v k0 k1 :
  1 <= k0 <= k1 -> k1 <= 63 -> 0 <= v < 2 ^ 64 -> rev v mod 2 ^ (64 - k1) = 0 ->
  (Z.land v (Z.lxor (2 ^ k0 - 1) (2 ^ k1 - 1)) = 0 <-> rev v mod 2 ^ (64 - k0) = 0).
Proof.
  intros Hk0 Hk1 Hv Hm. rewrite mod_pow2_zero in * by lia. split.
  - intros E j Hj. destruct (Z.lt_ge_cases j (64 - k1)); [apply Hm; lia|].
    apply (f_equal (fun z => Z.testbit z (63 - j))) in E.
    rewrite Z.land_spec, Z.lxor_spec, !mask_bit, Z.testbit_0_l in E by lia.
    rewrite (proj2 (Z.ltb_ge _ k0)), (proj2 (Z.ltb_lt _ k1)) in E by lia.
    rewrite rev_bit by (done || lia). now rewrite andb_true_r in E.
  - intros Hb. apply Z.bits_inj'. intros i Hi. rewrite Z.testbit_0_l, Z.land_spec, Z.lxor_spec, !mask_bit by lia.
    destruct (Z.ltb_spec i k0), (Z.ltb_spec i k1); simpl; rewrite ?andb_false_r; try done; try lia.
    rewrite andb_true_r. specialize (Hb (63 - i) ltac:(lia)). rewrite rev_bit in Hb by (done || lia).
    now replace (63 - (63 - i)) with i in Hb by lia.
Qed.

Section ScanProofs.
  Context {K V : Type} `{Countable K} (hashFunction : K -> Z).

(** The position of an entry in the iteration order. *)
Definition rhash (e : K * V) : Z := rev (dictHashKey hashFunction (fst e)).

Lemma rhash_range e : 0 <= rhash e < 2 ^ 64.
Proof. apply rev_range, wrapu_range. lia. Qed.

(** [blk k x]: the number of the block of [x] for a table of size [2^k]. *)
Definition blk (k x : Z) : Z := x / 2 ^ (64 - k).

Lemma blk_bounds k x : 1 <= k <= 63 -> blk k x * 2 ^ (64 - k) <= x < (blk k x + 1) * 2 ^ (64 - k).
Proof.
  intros Hk. unfold blk. pose proof (Z.div_mod x (2 ^ (64 - k))).
  pose proof (Z.mod_pos_bound x (2 ^ (64 - k)) ltac:(lia)). lia.
Qed.

Lemma blk_max k x : 1 <= k <= 63 -> 0 <= x < 2 ^ 64 -> 0 <= blk k x /\ (blk k x + 1) * 2 ^ (64 - k) <= 2 ^ 64.
Proof.
  intros Hk Hx. unfold blk. split; [apply Z.div_pos; lia|].
  assert (x / 2 ^ (64 - k) < 2 ^ k).
  { apply Z.div_lt_upper_bound; [lia|]. rewrite <- Z.pow_add_r by lia. replace (64 - k + k) with 64 by lia. lia. }
  assert (E : 2 ^ 64 = 2 ^ k * 2 ^ (64 - k)) by (rewrite <- Z.pow_add_r by lia; f_equal; lia).
  rewrite E. apply Z.mul_le_mono_nonneg_r; lia.
Qed.

(** The bucket at the cursor holds every entry of the cursor's block. *)
Lemma scan_bucket h k v :
  ht_alloc hashFunction h -> size h = 2 ^ k -> 1 <= k <= 63 -> 0 <= v < 2 ^ 64 ->
  exists es, bucket h (Z.land v (sizemask h)) = Some es /\
    (forall e, e ∈ es -> e ∈ mjoin (table h)) /\
    (forall e, e ∈ mjoin (table h) -> blk k (rhash e) = blk k (rev v) -> e ∈ es).
Proof.
  intros Ha Hs Hk Hv. destruct (bucket_hash hashFunction h v Ha) as (i & c & Hi & Hb & Hc).
  exists c. split; [done|]. split; [intros e He; by eapply join_lookup|].
  intros e He Hblk. apply list_elem_of_join in He as (c' & He & Hc').
  apply list_elem_of_lookup_1 in Hc' as [j Hj].
  pose proof (alloc_placed _ _ Ha j c' e Hj He) as Hp.
  rewrite (alloc_mask _ _ Ha), Hs in Hp, Hi.
  rewrite (same_block _ v k Hk) in Hp; [|apply wrapu_range; lia|done|exact Hblk].
  assert (j = i) as -> by lia. congruence.
Qed.

Lemma scan_expand_spec fuel t1 k0 k1 v :
  ht_alloc hashFunction t1 -> size t1 = 2 ^ k1 -> 1 <= k0 <= k1 -> k1 <= 63 -> 0 <= v < 2 ^ 64 ->
  (blk k0 (rev v) + 1) * 2 ^ (k1 - k0) - blk k1 (rev v) <= Z.of_nat fuel ->
  exists es v', scan_expand fuel t1 (2 ^ k0 - 1) (2 ^ k1 - 1) v = Some (es, v') /\
    0 <= v' < 2 ^ 64 /\ rev v' = u64 ((blk k0 (rev v) + 1) * 2 ^ (64 - k0)) /\
    (forall e, e ∈ es -> e ∈ mjoin (table t1)) /\
    (forall e, e ∈ mjoin (table t1) -> rev v <= rhash e < (blk k0 (rev v) + 1) * 2 ^ (64 - k0) -> e ∈ es).
Proof.
  intros Ha Hs Hk0 Hk1. revert v. induction fuel as [|fuel IH]; intros v Hv Hf.
  all: pose proof (rev_range v Hv) as Hr; pose proof (blk_bounds k0 (rev v) ltac:(lia)) as Hb0;
    pose proof (blk_bounds k1 (rev v) ltac:(lia)) as Hb1;
    pose proof (blk_max k0 (rev v) ltac:(lia) Hr) as [_ Hmax].
  all: assert (EB : 2 ^ (64 - k0) = 2 ^ (k1 - k0) * 2 ^ (64 - k1))
    by (rewrite <- Z.pow_add_r by lia; f_equal; lia);
    assert (Hpos1 : 0 < 2 ^ (64 - k1)) by lia; assert (Hpos : 0 < 2 ^ (k1 - k0)) by lia.
  { exfalso. assert ((blk k0 (rev v) + 1) * 2 ^ (k1 - k0) <= blk k1 (rev v)) by lia.
    assert (((blk k0 (rev v) + 1) * 2 ^ (k1 - k0)) * 2 ^ (64 - k1) <= blk k1 (rev v) * 2 ^ (64 - k1))
      by (apply Z.mul_le_mono_nonneg_r; lia). lia. }
  cbn [scan_expand]. destruct (scan_bucket t1 k1 v Ha Hs ltac:(lia) Hv) as (es & Hes & Hsub & Hcov).
  rewrite (alloc_mask _ _ Ha), Hs in Hes. rewrite Hes. cbn [mbind option_bind]. cbv zeta.
  destruct (cursor_next_spec v k1 ltac:(lia) Hv) as [Hv2 Er2].
  set (v2 := cursor_next v (2 ^ k1 - 1)) in *. fold (blk k1 (rev v)) in Er2.
  set (B1 := 2 ^ (64 - k1)) in *. set (q := 2 ^ (k1 - k0)) in *.
  assert (Hnext : blk k1 (rev v) + 1 <= (blk k0 (rev v) + 1) * q).
  { destruct (Z.le_gt_cases (blk k1 (rev v) + 1) ((blk k0 (rev v) + 1) * q)) as [|Hgt]; [done|]. exfalso.
    assert (((blk k0 (rev v) + 1) * q) * B1 <= blk k1 (rev v) * B1) by (apply Z.mul_le_mono_nonneg_r; lia). lia. }
  assert (Hblk : forall e, rev v <= rhash e < (blk k1 (rev v) + 1) * B1 -> blk k1 (rhash e) = blk k1 (rev v)).
  { intros e He. pose proof (blk_bounds k1 (rhash e) ltac:(lia)) as Hbe. fold B1 in Hbe. nia. }
  assert (Hmult : rev v2 mod B1 = 0).
  { rewrite Er2. unfold wrapu. unfold B1 at 2. apply mod_pow2_zero; [lia|]. intros j Hj.
    rewrite Z.mod_pow2_bits_low by lia. unfold B1. rewrite Z.mul_pow2_bits_low by lia. done. }
  pose proof (loop_test v2 k0 k1 Hk0 Hk1 Hv2 Hmult) as Htest.
  destruct (Z.eq_dec (blk k1 (rev v) + 1) ((blk k0 (rev v) + 1) * q)) as [Elast|Elast].
  - assert (Ex : (blk k1 (rev v) + 1) * B1 = (blk k0 (rev v) + 1) * 2 ^ (64 - k0)) by (rewrite Elast, EB; lia).
    rewrite Ex in *. rewrite (proj2 Htest).
    2:{ rewrite Er2. unfold wrapu. apply mod_pow2_zero; [lia|]. intros j Hj.
        rewrite Z.mod_pow2_bits_low by lia. rewrite Z.mul_pow2_bits_low by lia. done. }
    simpl. eexists _, _. split; [done|]. split; [done|]. split; [done|]. split; [done|]. auto.
  - assert (Hlt : (blk k1 (rev v) + 1) * B1 < (blk k0 (rev v) + 1) * 2 ^ (64 - k0)).
    { rewrite EB, Z.mul_assoc. apply Z.mul_lt_mono_pos_r; lia. }
    rewrite wrapu_small in Er2 by lia.
    assert (Eblk0 : blk k0 (rev v2) = blk k0 (rev v)).
    { pose proof (blk_bounds k0 (rev v2) ltac:(lia)) as Hb2. rewrite Er2 in *. nia. }
    assert (Eblk1 : blk k1 (rev v2) = blk k1 (rev v) + 1).
    { unfold blk at 1. fold B1. rewrite Er2. now rewrite Z.div_mul by lia. }
    assert (Hnz : rev v2 mod 2 ^ (64 - k0) <> 0).
    { intros Hz. pose proof (Z.div_mod (rev v2) (2 ^ (64 - k0)) ltac:(lia)) as Hdm.
      fold (blk k0 (rev v2)) in Hdm. rewrite Eblk0, Hz in Hdm. nia. }
    rewrite (proj2 (Z.eqb_neq _ _)) by (rewrite Htest; done).
    destruct (IH v2 Hv2) as (es' & v' & -> & Hv' & Er' & Hsub' & Hcov').
    { rewrite Eblk0, Eblk1. lia. }
    cbn [mbind option_bind]. eexists _, _. split; [done|]. split; [done|]. rewrite Eblk0 in *. split; [done|].
    split; [intros e [?|?]%elem_of_app; auto|]. intros e He Hin. apply elem_of_app.
    destruct (Z.lt_ge_cases (rhash e) (rev v2)); [left; apply Hcov; [done|]; apply Hblk; lia|right; apply Hcov'; [done|lia]].
Qed.

(** What one call covers: the entries whose reversed hash lies between the
    reversed cursors. *)
Definition covers (d : dict K V) (v : Z) (es : list (K * V)) (v' : Z) : Prop :=
  0 <= v' < 2 ^ 64 /\ (v' = 0 \/ rev v < rev v') /\
  (forall e, e ∈ es -> e ∈ entries d) /\
  (forall e, e ∈ entries d -> rev v <= rhash e -> (v' = 0 \/ rhash e < rev v') -> e ∈ es) /\
  (v' = 0 \/ exists k, 1 <= k <= 63 /\ (size (ht0 d) = 2 ^ k \/ size (ht1 d) = 2 ^ k) /\
                     rev v' mod 2 ^ (64 - k) = 0).

Lemma covers_end (d : dict K V) v es v' b k :
  0 <= v < 2 ^ 64 -> 0 <= v' < 2 ^ 64 -> 1 <= k <= 63 -> size (ht0 d) = 2 ^ k \/ size (ht1 d) = 2 ^ k ->
  let x := b * 2 ^ (64 - k) in
  rev v < x <= 2 ^ 64 -> rev v' = u64 x ->
  (forall e, e ∈ es -> e ∈ entries d) ->
  (forall e, e ∈ entries d -> rev v <= rhash e < x -> e ∈ es) -> covers d v es v'.
Proof.
  intros Hv Hv' Hk Hsz x Hx Er Hsub Hcov. pose proof (rev_range v Hv). split; [done|].
  assert (Hmod : x mod 2 ^ (64 - k) = 0) by (apply Z.mod_mul; lia). clearbody x.
  destruct (Z.eq_dec x (2 ^ 64)) as [->|Hne].
  - assert (v' = 0) as ->.
    { rewrite <- (rev_rev v'), Er by done. exact rev_wrap. }
    split; [by left|]. split; [done|]. split; [|by left].
    intros e He Hlo _. apply Hcov; [done|]. pose proof (rhash_range e). lia.
  - rewrite wrapu_small in Er by lia. split; [right; lia|]. split; [done|].
    split; [|right; exists k; rewrite Er; auto].
    intros e He Hlo [->|Hhi]; [|apply Hcov; [done|lia]]. rewrite rev_0 in Er. lia.
Qed.

Lemma dictScan_spec d v :
  dict_ok hashFunction d -> 0 <= v < 2 ^ 64 ->
  exists es v', dictScan d v = Some (es, v') /\ covers d v es v'.
Proof.
  intros Hok Hv. unfold dictScan. rewrite (dictSize_entries hashFunction d Hok).
  pose proof (rev_range v Hv) as Hr.
  destruct (Z.eqb_spec (zlen (entries d)) 0) as [Hz|Hz].
  { eexists _, _. split; [done|]. destruct (entries d) eqn:Ee; [|rewrite zlen_cons in Hz; pose proof (zlen_nonneg l); lia].
    split; [lia|]. split; [by left|]. rewrite Ee. split; [set_solver|]. split; [set_solver|by left]. }
  assert (Ha0 : ht_alloc hashFunction (ht0 d)).
  { apply alloc_of_used; [done|]. pose proof (zlen_nonneg (entries d)). lia. }
  destruct (dictIsRehashing d) eqn:Er; simpl negb; cbn iota.
  - destruct (is_rehashing hashFunction d Hok Er) as (_ & _ & Ha1 & _).
    set (p := if size (ht0 d) >? size (ht1 d) then (ht1 d, ht0 d) else (ht0 d, ht1 d)).
    assert (Hp : ht_alloc hashFunction p.1 /\ ht_alloc hashFunction p.2 /\ size p.1 <= size p.2 /\
      (size (ht0 d) = size p.1 \/ size (ht1 d) = size p.1) /\
      forall e, e ∈ entries d <-> e ∈ mjoin (table p.1) \/ e ∈ mjoin (table p.2)).
    { unfold p, entries. rewrite Z.gtb_ltb. destruct (Z.ltb_spec (size (ht1 d)) (size (ht0 d))); simpl;
        (split; [done|]); (split; [done|]); (split; [lia|]); (split; [auto|]); intros e; rewrite elem_of_app; tauto. }
    destruct p as [t0 t1]. simpl in Hp. destruct Hp as (Hb0 & Hb1 & Hle & Hsz & Hent).
    destruct (alloc_pow _ _ Hb0) as (k0 & Hk0 & Hs0). destruct (alloc_pow _ _ Hb1) as (k1 & Hk1 & Hs1).
    assert (Hkk : k0 <= k1).
    { destruct (Z.le_gt_cases k0 k1); [done|]. assert (2 ^ k1 < 2 ^ k0) by (apply Z.pow_lt_mono_r; lia). lia. }
    destruct (scan_bucket t0 k0 v Hb0 Hs0 ltac:(lia) Hv) as (es & -> & Hsub & Hcov). cbn [mbind option_bind].
    rewrite (alloc_mask _ _ Hb0), (alloc_mask _ _ Hb1), Hs0, Hs1.
    destruct (blk_max k0 (rev v) ltac:(lia) Hr) as [Hb Hmax].
    pose proof (blk_bounds k0 (rev v) ltac:(lia)) as Hbb.
    destruct (scan_expand_spec (Z.to_nat (2 ^ k1)) t1 k0 k1 v Hb1 Hs1) as (es' & v' & -> & Hv' & Erv & Hsub' & Hcov');
      [lia|lia|done| |].
    { pose proof (blk_bounds k1 (rev v) ltac:(lia)) as Hbk1. rewrite Z2Nat.id by lia.
      destruct (blk_max k1 (rev v) ltac:(lia) Hr) as [Hb1p _].
      assert (E : 2 ^ (64 - k0) = 2 ^ (k1 - k0) * 2 ^ (64 - k1)) by (rewrite <- Z.pow_add_r by lia; f_equal; lia).
      assert (E2 : 2 ^ 64 = 2 ^ k1 * 2 ^ (64 - k1)) by (rewrite <- Z.pow_add_r by lia; f_equal; lia).
      assert (0 < 2 ^ (64 - k1)) by lia. rewrite E, E2 in Hmax.
      assert ((blk k0 (rev v) + 1) * 2 ^ (k1 - k0) <= 2 ^ k1) by nia. lia. }
    cbn [mbind option_bind]. eexists _, _. split; [done|].
    apply (covers_end d v _ v' (blk k0 (rev v) + 1) k0); [done|done|lia|by rewrite <- Hs0|lia|done| |].
    + intros e [?|?]%elem_of_app; apply Hent; auto.
    + intros e He Hin. apply elem_of_app. apply Hent in He as [He|He]; [left|right; auto].
      apply Hcov; [done|]. pose proof (blk_bounds k0 (rhash e) ltac:(lia)). nia.
  - destruct (not_rehashing hashFunction d Hok Er) as (_ & H1 & _).
    destruct (alloc_pow _ _ Ha0) as (k & Hk & Hs).
    destruct (scan_bucket (ht0 d) k v Ha0 Hs ltac:(lia) Hv) as (es & -> & Hsub & Hcov). cbn [mbind option_bind].
    rewrite (alloc_mask _ _ Ha0), Hs. destruct (cursor_next_spec v k ltac:(lia) Hv) as [Hv' Erv].
    eexists _, _. split; [done|]. destruct (blk_max k (rev v) ltac:(lia) Hr) as [Hb Hmax].
    pose proof (blk_bounds k (rev v) ltac:(lia)) as Hbb.
    assert (Hent : forall e, e ∈ entries d <-> e ∈ mjoin (table (ht0 d))).
    { intros e. unfold entries. rewrite H1, app_nil_r. done. }
    apply (covers_end d v _ _ (blk k (rev v) + 1) k); [done|done|lia|by left|lia|exact Erv| |].
    + intros e He. apply Hent. auto.
    + intros e He Hin. apply Hcov; [by apply Hent|]. pose proof (blk_bounds k (rhash e) ltac:(lia)). nia.
Qed.

Lemma scan_states_spec (ds : list (dict K V)) v :
  Forall (dict_ok hashFunction) ds -> 0 <= v < 2 ^ 64 ->
  exists es v', scan_states ds v = Some (es, v') /\
    (forall e, e ∈ es -> exists d, d ∈ ds /\ e ∈ entries d) /\
    (v' = 0 -> ds <> [] \/ v <> 0 -> forall k, (forall d, d ∈ ds -> k ∈ (entries d).*1) ->
       rev v <= rev (dictHashKey hashFunction k) -> k ∈ es.*1).
Proof.
  intros Hall. revert v. induction Hall as [|d ds Hok Hall IH]; intros v Hv.
  { exists [], v. split; [done|]. split; [set_solver|]. intros -> [?|?]; done. }
  simpl scan_states. destruct (dictScan_spec d v Hok Hv) as (es & v1 & -> & Hv1 & Hadv & Hsub & Hcov & _).
  cbn [mbind option_bind].
  assert (Hstep : forall k, (forall d', d' ∈ d :: ds -> k ∈ (entries d').*1) ->
    rev v <= rev (dictHashKey hashFunction k) -> v1 = 0 \/ rev (dictHashKey hashFunction k) < rev v1 -> k ∈ es.*1).
  { intros k Hk Hlo Hhi. destruct (proj1 (list_elem_of_fmap _ _ _) (Hk d ltac:(set_solver))) as ([k' x] & -> & Hin).
    apply list_elem_of_fmap. exists (k', x). split; [done|]. by apply Hcov. }
  destruct (Z.eqb_spec v1 0) as [Hz|Hz].
  { exists es, 0. split; [done|]. split; [intros e He; exists d; split; [set_solver|auto]|]. auto. }
  destruct (IH v1 Hv1) as (es' & v2 & -> & Hsub' & Hcov'). cbn [mbind option_bind].
  exists (es ++ es'), v2. split; [done|]. split.
  - intros e [He|He]%elem_of_app; [exists d; split; [set_solver|auto]|].
    destruct (Hsub' e He) as (d' & ? & ?). exists d'. split; [set_solver|done].
  - intros -> _ k Hk Hlo. rewrite fmap_app. apply elem_of_app.
    destruct (Z.lt_ge_cases (rev (dictHashKey hashFunction k)) (rev v1)); [left; auto|right].
    apply Hcov'; [done|by right| |lia]. intros d' Hd. apply Hk. set_solver.
Qed.

(** With tables of at most [2^K] buckets, the cursor is a multiple of
    [2^(64-K)] in reversed order and grows with each call. *)
Lemma scan_states_ends (K0 : Z) (ds : list (dict K V)) v :
  Forall (fun d => dict_ok hashFunction d /\ size (ht0 d) <= 2 ^ K0 /\ size (ht1 d) <= 2 ^ K0) ds ->
  1 <= K0 <= 63 -> 0 <= v < 2 ^ 64 -> ds <> [] -> rev v mod 2 ^ (64 - K0) = 0 ->
  2 ^ 64 - rev v <= zlen ds * 2 ^ (64 - K0) ->
  exists es, scan_states ds v = Some (es, 0).
Proof.
  intros Hall HK. revert v. induction Hall as [|d ds (Hok & Hs0 & Hs1) Hall IH]; intros v Hv Hne Hm Hc; [done|].
  pose proof (rev_range v Hv) as Hr. simpl scan_states.
  destruct (dictScan_spec d v Hok Hv) as (es & v1 & -> & Hv1 & Hadv & _ & _ & Hmul).
  cbn [mbind option_bind]. destruct (Z.eqb_spec v1 0) as [Hz|Hz]; [by exists es|].
  destruct Hadv as [|Hadv]; [done|]. destruct Hmul as [|(k & Hk & Hsz & Hmul)]; [done|].
  assert (Hkk : k <= K0).
  { destruct (Z.le_gt_cases k K0); [done|]. assert (2 ^ K0 < 2 ^ k) by (apply Z.pow_lt_mono_r; lia). lia. }
  assert (Hm1 : rev v1 mod 2 ^ (64 - K0) = 0).
  { rewrite mod_pow2_zero in * by lia. intros j Hj. apply Hmul. lia. }
  assert (Hge : rev v + 2 ^ (64 - K0) <= rev v1).
  { pose proof (Z.div_mod (rev v) (2 ^ (64 - K0)) ltac:(lia)). pose proof (Z.div_mod (rev v1) (2 ^ (64 - K0)) ltac:(lia)).
    rewrite Hm in *. rewrite Hm1 in *. set (B := 2 ^ (64 - K0)) in *. assert (0 < B) by (unfold B; lia).
    assert (rev v / B < rev v1 / B) by nia. nia. }
  pose proof (rev_range v1 Hv1) as Hr1. rewrite zlen_cons in Hc.
  destruct (IH v1) as [es' ->]; [done| |done|lia|by eexists].
  intros ->. change (zlen (@nil (dict K V))) with 0 in Hc. lia.
Qed.
End ScanProofs.

(** C4: an element that is in the dictionary during a whole SCAN iteration is
    returned, even though the client keeps only a cursor and the dictionary
    may grow, shrink, be rehashed or modified between the calls: [ds] is the
    sequence of states the successive calls see.  Every call succeeds, and
    nothing is returned that was not in the dictionary at some call. *)
Theorem dictScan_complete {K V : Type} `{Countable K} (hashFunction : K -> Z) (ds : list (dict K V)) :
  Forall (dict_ok hashFunction) ds -> ds <> [] ->
  exists es v, scan_states ds 0 = Some (es, v) /\
    (forall e, e ∈ es -> exists d, d ∈ ds /\ e ∈ entries d) /\
    (v = 0 -> forall k, (forall d, d ∈ ds -> is_Some (dict_map d !! k)) -> k ∈ es.*1).
Proof.
  intros Hall Hne. destruct (scan_states_spec hashFunction ds 0 Hall) as (es & v & E & Hsub & Hcov); [lia|].
  exists es, v. split; [done|]. split; [done|]. intros -> k Hk. apply Hcov; [done|by left| |].
  - intros d Hd. destruct (Hk d Hd) as [x Hx]. apply elem_of_list_to_map_2 in Hx.
    apply list_elem_of_fmap. by exists (k, x).
  - rewrite rev_0. apply rev_range, wrapu_range. lia.
Qed.

(** Five keys in a table of four buckets that is being rehashed to eight. *)
Definition scan_ops : list (@dict_op Z Z) := [OpAdd 1 10; OpAdd 2 20; OpAdd 5 50; OpAdd 7 70; OpAdd 13 130].

Lemma dictScan_complete_witness :
  exists d0 d1 o0 o1 es, dict_run (fun k : Z => k) true 0 dictCreate scan_ops = Some (d0, o0) /\
    dict_run (fun k : Z => k) true 0 dictCreate (scan_ops ++ [OpRehash 10; OpDelete 2]) = Some (d1, o1) /\
    scan_states [d0; d0; d1; d1; d1; d1] 0 = Some (es, 0) /\ 13 ∈ es.*1.
Proof.
  assert (H0 : exists d o, dict_run (fun k : Z => k) true 0 dictCreate scan_ops = Some (d, o))
    by (eexists _, _; vm_compute; reflexivity).
  assert (H1 : exists d o, dict_run (fun k : Z => k) true 0 dictCreate (scan_ops ++ [OpRehash 10; OpDelete 2]) = Some (d, o))
    by (eexists _, _; vm_compute; reflexivity).
  destruct H0 as (d0 & o0 & E0), H1 as (d1 & o1 & E1).
  pose proof (dict_ok_run _ _ _ _ _ _ E0 ltac:(done)) as Hok0.
  pose proof (dict_ok_run _ _ _ _ _ _ E1 ltac:(done)) as Hok1.
  assert (Hall : Forall (dict_ok (fun k : Z => k)) [d0; d0; d1; d1; d1; d1]) by (repeat (apply Forall_cons_2; [assumption|]); apply Forall_nil_2).
  destruct (dictScan_complete (fun k : Z => k) _ Hall) as (es & v & E & _ & Hcov); [done|].
  exists d0, d1, o0, o1, es. split; [exact E0|]. split; [exact E1|].
  vm_compute in E0. vm_compute in E1. injection E0 as <- <-. injection E1 as <- <-.
  assert (v = 0) as -> by (vm_compute in E; congruence).
  split; [exact E|]. apply Hcov; [done|].
  apply (Forall_forall (fun d => is_Some (dict_map d !! 13))).
  repeat (apply Forall_cons_2; [exists 130; vm_compute; reflexivity|]). apply Forall_nil_2.
Defined.

(** C31: a SCAN iteration ends: if the tables never have more than [2^K0]
    buckets during the iteration, at most [2^K0] calls bring the cursor back
    to 0, whatever happens to the dictionary between the calls. *)
Theorem dictScan_terminates {K V : Type} `{Countable K} (hashFunction : K -> Z) (K0 : Z) (ds : list (dict K V)) :
  Forall (fun d => dict_ok hashFunction d /\ size (ht0 d) <= 2 ^ K0 /\ size (ht1 d) <= 2 ^ K0) ds ->
  1 <= K0 <= 63 -> 2 ^ K0 <= zlen ds -> exists es, scan_states ds 0 = Some (es, 0).
Proof.
  intros Hall HK Hlen. apply (scan_states_ends hashFunction K0); [done|done|lia| | |].
  - intros ->. change (zlen (@nil (dict K V))) with 0 in Hlen. lia.
  - rewrite rev_0. apply Z.mod_0_l. lia.
  - rewrite rev_0. assert (E : 2 ^ 64 = 2 ^ K0 * 2 ^ (64 - K0)) by (rewrite <- Z.pow_add_r by lia; f_equal; lia).
    rewrite E. pose proof (Z.pow_pos_nonneg 2 (64 - K0)). nia.
Qed.

Lemma dictScan_terminates_witness :
  exists d o es, dict_run (fun k : Z => k) true 0 dictCreate scan_ops = Some (d, o) /\
    scan_states (replicate 8 d) 0 = Some (es, 0).
Proof.
  assert (H0 : exists d o, dict_run (fun k : Z => k) true 0 dictCreate scan_ops = Some (d, o))
    by (eexists _, _; vm_compute; reflexivity).
  destruct H0 as (d & o & E). pose proof (dict_ok_run _ _ _ _ _ _ E ltac:(done)) as Hok.
  assert (Hs : size (ht0 d) <= 2 ^ 3 /\ size (ht1 d) <= 2 ^ 3).
  { vm_compute in E. injection E as <- _. split; vm_compute; discriminate. }
  destruct (dictScan_terminates (fun k : Z => k) 3 (replicate 8 d)) as [es Hes].
  - apply Forall_replicate. split; [done|apply Hs].
  - lia.
  - vm_compute. discriminate.
  - exists d, o, es. split; [exact E|exact Hes].
Defined.
