(* ===== verification/Sds.v ===== *)
(** * sds.c, sds.h: binary-safe dynamic strings

    An [sds] is a header ([hlen], [halloc] at the width its type gives them,
    [flags]) followed by its buffer.  The buffer is the allocated block from
    [s[0]] on, so every access outside the allocation is [None].  [repr s l]
    says that [s] is a well-formed string with the content [l]; the theorems
    give each operation as a function of the content. *)
From S2P Require Import Prelude.

Definition SDS_TYPE_5 : Z := 0.
Definition SDS_TYPE_8 : Z := 1.
Definition SDS_TYPE_16 : Z := 2.
Definition SDS_TYPE_32 : Z := 3.
Definition SDS_TYPE_64 : Z := 4.
Definition SDS_TYPE_MASK : Z := 7.
Definition SDS_TYPE_BITS : Z := 3.
Definition SDS_MAX_PREALLOC : Z := 1024 * 1024.

(** The structs [sdshdr5] ... [sdshdr64]; [sdshdr5] has no [len] and [alloc]
    fields, its length is in the five high bits of [flags]. *)
Record sds := mk_sds { hlen : Z; halloc : Z; flags : Z; buf : list Z }.

Definition set_hlen (s : sds) n := mk_sds n (halloc s) (flags s) (buf s).
Definition set_halloc (s : sds) n := mk_sds (hlen s) n (flags s) (buf s).
Definition set_flags (s : sds) f := mk_sds (hlen s) (halloc s) f (buf s).
Definition set_buf (s : sds) b := mk_sds (hlen s) (halloc s) (flags s) b.

Definition SDS_TYPE_5_LEN (f : Z) : Z := Z.shiftr f SDS_TYPE_BITS.
Definition sdstype (s : sds) : Z := Z.land (flags s) SDS_TYPE_MASK.

(** The width of the [len] and [alloc] fields of a type. *)
Definition hdr_bits (type : Z) : Z :=
  match type with 0 => 5 | 1 => 8 | 2 => 16 | 3 => 32 | _ => 64 end.

Definition sdslen (s : sds) : Z :=
  match sdstype s with
  | 0 => SDS_TYPE_5_LEN (flags s)
  | 1 | 2 | 3 | 4 => hlen s
  | _ => 0
  end.

Definition sdsavail (s : sds) : Z :=
  match sdstype s with
  | 0 => 0
  | 1 | 2 | 3 | 4 => u64 (halloc s - hlen s)
  | _ => 0
  end.

Definition sdssetlen (s : sds) (newlen : Z) : sds :=
  match sdstype s with
  | 0 => set_flags s (u8 (Z.lor SDS_TYPE_5 (Z.shiftl newlen SDS_TYPE_BITS)))
  | 1 => set_hlen s (u8 newlen)
  | 2 => set_hlen s (u16 newlen)
  | 3 => set_hlen s (u32 newlen)
  | 4 => set_hlen s (u64 newlen)
  | _ => s
  end.

Definition sdsinclen (s : sds) (inc : Z) : sds :=
  match sdstype s with
  | 0 => let newlen := u8 (SDS_TYPE_5_LEN (flags s) + inc) in
         set_flags s (u8 (Z.lor SDS_TYPE_5 (Z.shiftl newlen SDS_TYPE_BITS)))
  | 1 => set_hlen s (u8 (hlen s + inc))
  | 2 => set_hlen s (u16 (hlen s + inc))
  | 3 => set_hlen s (u32 (hlen s + inc))
  | 4 => set_hlen s (u64 (hlen s + inc))
  | _ => s
  end.

Definition sdsalloc (s : sds) : Z :=
  match sdstype s with
  | 0 => SDS_TYPE_5_LEN (flags s)
  | 1 | 2 | 3 | 4 => halloc s
  | _ => 0
  end.

Definition sdssetalloc (s : sds) (newlen : Z) : sds :=
  match sdstype s with
  | 1 => set_halloc s (u8 newlen)
  | 2 => set_halloc s (u16 newlen)
  | 3 => set_halloc s (u32 newlen)
  | 4 => set_halloc s (u64 newlen)
  | _ => s
  end.

(** [sizeof] of the packed headers. *)
Definition sdsHdrSize (type : Z) : Z :=
  match Z.land type SDS_TYPE_MASK with
  | 0 => 1 | 1 => 3 | 2 => 5 | 3 => 9 | 4 => 17 | _ => 0
  end.

Definition sdsReqType (string_size : Z) : Z :=
  if string_size <? Z.shiftl 1 5 then SDS_TYPE_5
  else if string_size <? Z.shiftl 1 8 then SDS_TYPE_8
  else if string_size <? Z.shiftl 1 16 then SDS_TYPE_16
  else if string_size <? Z.shiftl 1 32 then SDS_TYPE_32
  else SDS_TYPE_64.

(** The [init] argument of [sdsnewlen]: a pointer to bytes, [NULL], or
    [SDS_NOINIT]. *)
Inductive sds_init := Init (bs : list Z) | InitNull | InitNone.

(** [strlen] of a NUL-terminated string. *)
Fixpoint c_strlen (m : list Z) : option Z :=
  match m with
  | [] => None
  | c :: m => if c =? 0 then Some 0 else n ← c_strlen m; Some (1 + n)
  end.

Definition memset (m : list Z) (off c n : Z) : option (list Z) :=
  store m off (replicate (Z.to_nat n) c).

Section Sds.
  (** What the allocator leaves in fresh memory. *)
  Context (junk : nat -> Z).

Definition s_malloc (n : Z) : list Z := realloc junk [] n.

Definition sdsnewlen (init : sds_init) (initlen : Z) : option sds :=
  let type := sdsReqType initlen in
  let type := if (type =? SDS_TYPE_5) && (initlen =? 0) then SDS_TYPE_8 else type in
  let hdrlen := sdsHdrSize type in
  let b := s_malloc (u64 (hdrlen + initlen + 1) - hdrlen) in
  b ← match init with InitNull => memset b 0 0 (zlen b) | _ => Some b end;
  let s :=
    match type with
    | 0 => mk_sds 0 0 (u8 (Z.lor type (Z.shiftl initlen SDS_TYPE_BITS))) b
    | 1 => mk_sds (u8 initlen) (u8 initlen) type b
    | 2 => mk_sds (u16 initlen) (u16 initlen) type b
    | 3 => mk_sds (u32 initlen) (u32 initlen) type b
    | _ => mk_sds (u64 initlen) (u64 initlen) type b
    end in
  b ← match init with
      | Init bs => if initlen =? 0 then Some b else src ← load bs 0 initlen; store b 0 src
      | _ => Some b
      end;
  b ← store b initlen [0];
  Some (set_buf s b).

Definition sdsempty : option sds := sdsnewlen (Init [0]) 0.

(** [init] is [NULL] or a NUL-terminated string. *)
Definition sdsnew (init : option (list Z)) : option sds :=
  match init with
  | None => sdsnewlen InitNull 0
  | Some t => initlen ← c_strlen t; sdsnewlen (Init t) initlen
  end.

Definition sdsdup (s : sds) : option sds := sdsnewlen (Init (buf s)) (sdslen s).

Definition sdsupdatelen (s : sds) : option sds :=
  reallen ← c_strlen (buf s); Some (sdssetlen s reallen).

Definition sdsclear (s : sds) : option sds :=
  let s := sdssetlen s 0 in
  b ← store (buf s) 0 [0]; Some (set_buf s b).

Definition sdsMakeRoomFor (s : sds) (addlen : Z) : option sds :=
  let avail := sdsavail s in
  let oldtype := sdstype s in
  if avail >=? addlen then Some s
  else
    let len := sdslen s in
    let newlen := u64 (len + addlen) in
    let newlen := if newlen <? SDS_MAX_PREALLOC then u64 (newlen * 2)
                  else u64 (newlen + SDS_MAX_PREALLOC) in
    let type := sdsReqType newlen in
    let type := if type =? SDS_TYPE_5 then SDS_TYPE_8 else type in
    let hdrlen := sdsHdrSize type in
    let size := u64 (hdrlen + newlen + 1) - hdrlen in
    s ← (if oldtype =? type then Some (set_buf s (realloc junk (buf s) size))
         else
           src ← load (buf s) 0 (len + 1);
           b ← store (s_malloc size) 0 src;
           Some (sdssetlen (set_buf (set_flags s type) b) len));
    Some (sdssetalloc s newlen).

Definition sdsRemoveFreeSpace (s : sds) : option sds :=
  let oldtype := sdstype s in
  let oldhdrlen := sdsHdrSize oldtype in
  let len := sdslen s in
  let avail := sdsavail s in
  if avail =? 0 then Some s
  else
    let type := sdsReqType len in
    let hdrlen := sdsHdrSize type in
    s ← (if (oldtype =? type) || (type >? SDS_TYPE_8) then
           Some (set_buf s (realloc junk (buf s) (u64 (oldhdrlen + len + 1) - oldhdrlen)))
         else
           src ← load (buf s) 0 (len + 1);
           b ← store (s_malloc (u64 (hdrlen + len + 1) - hdrlen)) 0 src;
           Some (sdssetlen (set_buf (set_flags s type) b) len));
    Some (sdssetalloc s len).

Definition sdsAllocSize (s : sds) : Z := sdsHdrSize (flags s) + sdsalloc s + 1.

(** A failed [assert] aborts the server: [None]. *)
Definition sdsIncrLen (s : sds) (incr : Z) : option sds :=
  '(s, len) ← match sdstype s with
    | 0 =>
        let oldlen := SDS_TYPE_5_LEN (flags s) in
        if ((incr >? 0) && (oldlen + incr <? 32)) || ((incr <? 0) && (oldlen >=? u32 (- incr)))
        then Some (set_flags s (u8 (Z.lor SDS_TYPE_5 (Z.shiftl (oldlen + incr) SDS_TYPE_BITS))),
                   u64 (oldlen + incr))
        else None
    | 1 =>
        if ((incr >=? 0) && (halloc s - hlen s >=? incr)) || ((incr <? 0) && (hlen s >=? u32 (- incr)))
        then let l := u8 (hlen s + incr) in Some (set_hlen s l, l) else None
    | 2 =>
        if ((incr >=? 0) && (halloc s - hlen s >=? incr)) || ((incr <? 0) && (hlen s >=? u32 (- incr)))
        then let l := u16 (hlen s + incr) in Some (set_hlen s l, l) else None
    | 3 =>
        if ((incr >=? 0) && (u32 (halloc s - hlen s) >=? u32 incr)) || ((incr <? 0) && (hlen s >=? u32 (- incr)))
        then let l := u32 (hlen s + incr) in Some (set_hlen s l, l) else None
    | 4 =>
        if ((incr >=? 0) && (u64 (halloc s - hlen s) >=? u64 incr)) || ((incr <? 0) && (hlen s >=? u64 (- incr)))
        then let l := u64 (hlen s + incr) in Some (set_hlen s l, l) else None
    | _ => Some (s, 0)
    end;
  b ← store (buf s) len [0]; Some (set_buf s b).

Definition sdsgrowzero (s : sds) (len : Z) : option sds :=
  let curlen := sdslen s in
  if len <=? curlen then Some s
  else
    s ← sdsMakeRoomFor s (len - curlen);
    b ← memset (buf s) curlen 0 (len - curlen + 1);
    Some (sdssetlen (set_buf s b) len).

(** [t] is the memory the argument points to. *)
Definition sdscatlen (s : sds) (t : list Z) (len : Z) : option sds :=
  let curlen := sdslen s in
  s ← sdsMakeRoomFor s len;
  src ← load t 0 len;
  b ← store (buf s) curlen src;
  let s := sdssetlen (set_buf s b) (u64 (curlen + len)) in
  b ← store (buf s) (u64 (curlen + len)) [0];
  Some (set_buf s b).

Definition sdscat (s : sds) (t : list Z) : option sds :=
  n ← c_strlen t; sdscatlen s t n.

Definition sdscatsds (s t : sds) : option sds := sdscatlen s (buf t) (sdslen t).

Definition sdscpylen (s : sds) (t : list Z) (len : Z) : option sds :=
  s ← (if sdsalloc s <? len then sdsMakeRoomFor s (u64 (len - sdslen s)) else Some s);
  src ← load t 0 len;
  b ← store (buf s) 0 src;
  b ← store b len [0];
  Some (sdssetlen (set_buf s b) len).

Definition sdscpy (s : sds) (t : list Z) : option sds :=
  n ← c_strlen t; sdscpylen s t n.

(** [strchr(cset, c) != NULL]: the terminator is part of the string. *)
Definition in_cset (cset : list Z) (c : Z) : bool := (c =? 0) || existsb (Z.eqb c) cset.

(** [while(sp <= end && strchr(cset, *sp)) sp++] and
    [while(ep > sp && strchr(cset, *ep)) ep--]; the pointers are offsets. *)
Fixpoint trim_left (fuel : nat) (b cset : list Z) (sp e : Z) : option Z :=
  match fuel with
  | O => None
  | S fuel =>
      if sp <=? e then
        c ← load1 b sp;
        if in_cset cset c then trim_left fuel b cset (sp + 1) e else Some sp
      else Some sp
  end.
Fixpoint trim_right (fuel : nat) (b cset : list Z) (sp ep : Z) : option Z :=
  match fuel with
  | O => None
  | S fuel =>
      if ep >? sp then
        c ← load1 b ep;
        if in_cset cset c then trim_right fuel b cset sp (ep - 1) else Some ep
      else Some ep
  end.

(** [cset]: the characters before its terminator. *)
Definition sdstrim (s : sds) (cset : list Z) : option sds :=
  let e := sdslen s - 1 in
  sp ← trim_left (Z.to_nat (sdslen s) + 1) (buf s) cset 0 e;
  ep ← trim_right (Z.to_nat (sdslen s) + 1) (buf s) cset sp e;
  let len := if sp >? ep then 0 else (ep - sp) + 1 in
  b ← (if sp =? 0 then Some (buf s) else memmove (buf s) 0 sp len);
  b ← store b len [0];
  Some (sdssetlen (set_buf s b) len).

(** [start] and [end] are [ssize_t]; [len] is [size_t]. *)
Definition sdsrange (s : sds) (start e : Z) : option sds :=
  let len := sdslen s in
  if len =? 0 then Some s
  else
    let start := if start <? 0 then let x := s64 (len + start) in if x <? 0 then 0 else x else start in
    let e := if e <? 0 then let x := s64 (len + e) in if x <? 0 then 0 else x else e in
    let newlen := if start >? e then 0 else u64 ((e - start) + 1) in
    let '(start, newlen) :=
      if negb (newlen =? 0) then
        if start >=? s64 len then (start, 0)
        else if e >=? s64 len then
          let e := s64 (len - 1) in
          (start, if start >? e then 0 else u64 ((e - start) + 1))
        else (start, newlen)
      else (0, newlen) in
    b ← (if negb (start =? 0) && negb (newlen =? 0) then memmove (buf s) 0 start newlen else Some (buf s));
    b ← store b newlen [0];
    Some (sdssetlen (set_buf s b) newlen).

(** [for (j = 0; j < len; j++) s[j] = f(s[j])]. *)
Fixpoint map_loop (fuel : nat) (f : Z -> Z) (b : list Z) (j len : Z) : option (list Z) :=
  match fuel with
  | O => Some b
  | S fuel =>
      if j <? len then
        c ← load1 b j; b ← store b j [f c]; map_loop fuel f b (j + 1) len
      else Some b
  end.

Definition sdstolower (s : sds) : option sds :=
  b ← map_loop (Z.to_nat (sdslen s)) tolower (buf s) 0 (sdslen s); Some (set_buf s b).
Definition sdstoupper (s : sds) : option sds :=
  b ← map_loop (Z.to_nat (sdslen s)) toupper (buf s) 0 (sdslen s); Some (set_buf s b).

(** The inner loop of [sdsmapchars]: the first [i] with [from[i] == c]. *)
Fixpoint mapchar (from to : list Z) (c : Z) : Z :=
  match from, to with
  | f :: from, t :: to => if c =? f then t else mapchar from to c
  | _, _ => c
  end.
Definition sdsmapchars (s : sds) (from to : list Z) : option sds :=
  b ← map_loop (Z.to_nat (sdslen s)) (mapchar from to) (buf s) 0 (sdslen s); Some (set_buf s b).

(** [memcmp], as the sign of its result; bytes compare unsigned. *)
Fixpoint memcmp (a b : list Z) : Z :=
  match a, b with
  | x :: a, y :: b => if x <? y then -1 else if y <? x then 1 else memcmp a b
  | _, _ => 0
  end.

Definition sdscmp (s1 s2 : sds) : option Z :=
  let l1 := sdslen s1 in
  let l2 := sdslen s2 in
  let minlen := if l1 <? l2 then l1 else l2 in
  a ← load (buf s1) 0 minlen;
  b ← load (buf s2) 0 minlen;
  let cmp := memcmp a b in
  Some (if cmp =? 0 then (if l1 >? l2 then 1 else if l1 <? l2 then -1 else 0) else cmp).

(** The schema documented above [sdsIncrLen]: make room for [n] bytes, let
    [read] put [w] behind the string, fix the length. *)
Definition sds_read (s : sds) (n : Z) (w : list Z) : option sds :=
  let oldlen := sdslen s in
  s ← sdsMakeRoomFor s n;
  b ← store (buf s) oldlen w;
  sdsIncrLen (set_buf s b) (zlen w).
End Sds.

(** ** The representation invariant *)
Definition type_ok (s : sds) : Prop := 0 <= sdstype s <= 4 /\ 0 <= flags s < 256.

Record repr (s : sds) (l : list Z) : Prop := {
  r_type : type_ok s;
  r_len : sdslen s = zlen l;
  r_alloc : zlen l <= sdsalloc s < 2 ^ hdr_bits (sdstype s);
  r_buf : exists rest, buf s = l ++ 0 :: rest /\ sdsalloc s <= zlen l + zlen rest;
  r_bytes : bytes_ok (buf s)
}.

(** *** Header fields *)
Ltac types s :=
  let E := fresh "Ety" in
  destruct (sdstype s) as [|[[[]|[]|]|[[]|[]|]|]|] eqn:E; try lia.

Lemma type5_flags n : 0 <= n < 32 ->
  let f := u8 (Z.lor SDS_TYPE_5 (Z.shiftl n SDS_TYPE_BITS)) in
  Z.land f SDS_TYPE_MASK = 0 /\ SDS_TYPE_5_LEN f = n /\ 0 <= f < 256.
Proof.
  intros Hn. unfold SDS_TYPE_5, SDS_TYPE_BITS, SDS_TYPE_MASK, SDS_TYPE_5_LEN. cbv zeta.
  rewrite Z.lor_0_l, Z.shiftl_mul_pow2 by lia.
  rewrite wrapu_small by (zpow; lia). change 7 with (Z.ones 3). rewrite Z.land_ones by lia.
  rewrite Z.mod_mul by lia. unfold SDS_TYPE_BITS. rewrite Z.shiftr_div_pow2, Z.div_mul by lia. zpow. lia.
Qed.

Definition width (s : sds) : Z := hdr_bits (sdstype s).

Lemma setlen_spec s n :
  type_ok s -> 0 <= n < 2 ^ width s ->
  let s' := sdssetlen s n in
  type_ok s' /\ sdstype s' = sdstype s /\ sdslen s' = n /\ buf s' = buf s /\
  sdsalloc s' = (if sdstype s =? 0 then n else sdsalloc s).
Proof.
  unfold width, type_ok, sdssetlen, sdslen, sdsalloc. intros [Ht Hf] Hn.
  types s; cbn [hdr_bits] in Hn; cbv zeta; cbn [Z.eqb];
    try (unfold sdstype in *; cbn [flags set_hlen hlen buf halloc]; rewrite Ety, wrapu_small by (zpow; lia);
         repeat split; (lia || done)).
  destruct (type5_flags n ltac:(zpow; lia)) as (E & El & Er).
  unfold sdstype. cbn [flags set_flags hlen buf halloc]. rewrite E. repeat split; (lia || done).
Qed.

Lemma setalloc_spec s n :
  type_ok s -> 0 <= n < 2 ^ width s ->
  let s' := sdssetalloc s n in
  type_ok s' /\ sdstype s' = sdstype s /\ sdslen s' = sdslen s /\ buf s' = buf s /\
  sdsalloc s' = (if sdstype s =? 0 then sdsalloc s else n).
Proof.
  unfold width, type_ok, sdssetalloc, sdslen, sdsalloc. intros [Ht Hf] Hn.
  types s; cbn [hdr_bits] in Hn; cbv zeta; cbn [Z.eqb]; unfold sdstype in *;
    cbn [flags set_halloc hlen buf halloc]; rewrite Ety; try rewrite wrapu_small by (zpow; lia);
    repeat split; (lia || done).
Qed.

Lemma avail_spec s l : repr s l -> sdsavail s = sdsalloc s - zlen l.
Proof.
  intros [[Ht Hf] Hl Ha _ _]. unfold sdsavail, sdsalloc, sdslen in *. pose proof (zlen_nonneg l).
  types s; cbn [hdr_bits] in Ha; try lia; rewrite Hl, wrapu_small; zpow; lia.
Qed.

Lemma width_64 s : type_ok s -> 2 ^ width s <= 2 ^ 64.
Proof.
  intros [Ht _]. unfold width. types s; cbn [hdr_bits]; zpow; lia.
Qed.

(** The type chosen for a length can hold it. *)
Lemma reqtype_spec n : 0 <= n < 2 ^ 64 -> 0 <= sdsReqType n <= 4 /\ n < 2 ^ hdr_bits (sdsReqType n).
Proof.
  intros Hn. unfold sdsReqType, SDS_TYPE_5, SDS_TYPE_8, SDS_TYPE_16, SDS_TYPE_32, SDS_TYPE_64.
  rewrite !Z.shiftl_1_l. zcase; cbn [hdr_bits]; lia.
Qed.

Lemma type_land t : 0 <= t <= 4 -> Z.land t SDS_TYPE_MASK = t.
Proof. intros Ht. unfold SDS_TYPE_MASK. change 7 with (Z.ones 3). rewrite Z.land_ones by lia. apply Z.mod_small. lia. Qed.

Lemma hdrsize_range t : 0 <= t <= 4 -> 1 <= sdsHdrSize t <= 17.
Proof.
  intros Ht. unfold sdsHdrSize. rewrite type_land by done.
  destruct t as [|[[[]|[]|]|[[]|[]|]|]|]; lia.
Qed.

Lemma zlen_zero (l : list Z) : zlen l = 0 -> l = [].
Proof. destruct l; [done|]. rewrite zlen_cons. pose proof (zlen_nonneg l). lia. Qed.

Lemma zlen_replicate n (x : Z) : zlen (replicate n x) = Z.of_nat n.
Proof. unfold zlen. now rewrite length_replicate. Qed.

(** The representation after the length was set. *)
Lemma repr_setlen s l rest n :
  type_ok s -> n = zlen l -> n < 2 ^ width s -> buf s = l ++ 0 :: rest -> bytes_ok (buf s) ->
  (sdstype s <> 0 -> n <= sdsalloc s < 2 ^ width s /\ sdsalloc s <= zlen l + zlen rest) ->
  repr (sdssetlen s n) l.
Proof.
  intros Ht -> Hw Hb Hok Hal. pose proof (zlen_nonneg l). pose proof (zlen_nonneg rest).
  destruct (setlen_spec s (zlen l) Ht ltac:(lia)) as (Ht' & Ety & El & Eb & Ea).
  unfold width in *. destruct (Z.eqb_spec (sdstype s) 0) as [E0|E0].
  - constructor; [done|done| |exists rest; rewrite Eb, Ea; split; [done|lia]|by rewrite Eb]. rewrite Ea, Ety. lia.
  - destruct (Hal E0). constructor; [done|done| |exists rest; rewrite Eb, Ea; split; [done|lia]|by rewrite Eb].
    rewrite Ea, Ety. lia.
Qed.

(** The representation after the allocation size was set, for a type that
    records it. *)
Lemma repr_setalloc s l rest n m :
  type_ok s -> sdslen s = zlen l -> buf s = l ++ 0 :: rest -> bytes_ok (buf s) ->
  n < 2 ^ width s /\ 1 <= sdstype s -> zlen l <= n <= zlen l + zlen rest -> m <= n ->
  repr (sdssetalloc s n) l /\ m <= sdsalloc (sdssetalloc s n).
Proof.
  intros Ht Hl Hb Hok [Hw Hty] Hn Hm. pose proof (zlen_nonneg l).
  destruct (setalloc_spec s n Ht ltac:(lia)) as (Ht' & Ety & El & Eb & Ea).
  rewrite (proj2 (Z.eqb_neq (sdstype s) 0)) in Ea by lia.
  split; [|lia]. constructor; [done|by rewrite El| |exists rest; rewrite Eb, Ea; split; [done|lia]|by rewrite Eb].
  rewrite Ea, Ety. unfold width in Hw. lia.
Qed.

Lemma malloc_spec junk n : 0 <= n -> zlen (s_malloc junk n) = n /\ bytes_ok (s_malloc junk n).
Proof.
  intros Hn. destruct (realloc_grow junk [] n) as (ext & E & Hl & Hok); [done|].
  unfold s_malloc. rewrite E. simpl. split; [|done]. change (zlen (@nil Z)) with 0 in Hl. lia.
Qed.

Lemma bytes_mid (a b : list Z) : bytes_ok (a ++ 0 :: b) -> bytes_ok a /\ bytes_ok b.
Proof. intros [Ha Hb]%Forall_app. apply Forall_cons in Hb as [_ Hb]. auto. Qed.

Lemma bytes_nul (a b : list Z) : bytes_ok a -> bytes_ok b -> bytes_ok (a ++ 0 :: b).
Proof. intros. apply Forall_app. split; [done|]. apply Forall_cons. split; [unfold byte_ok; lia|done]. Qed.

Section SdsProofs.
  Context (junk : nat -> Z).

(** What [sdsnewlen] puts into the buffer. *)
Definition init_bytes (init : sds_init) (l : list Z) : Prop :=
  match init with
  | Init bs => exists c, bs = l ++ c
  | InitNull => l = replicate (length l) 0
  | InitNone => True
  end.

Lemma new_buffer init initlen b :
  zlen b = initlen + 1 -> 0 <= initlen -> bytes_ok b ->
  (forall bs, init = Init bs -> initlen <= zlen bs /\ bytes_ok bs) ->
  exists l, zlen l = initlen /\ init_bytes init l /\ bytes_ok l /\
    (b ← match init with InitNull => memset b 0 0 (zlen b) | _ => Some b end;
     b ← match init with
         | Init bs => if initlen =? 0 then Some b else src ← load bs 0 initlen; store b 0 src
         | _ => Some b
         end;
     store b initlen [0]) = Some (l ++ [0]).
Proof.
  intros Hb Hi Hok Hinit. destruct (split_at b initlen ltac:(lia)) as (a & t & -> & Ha & Ht).
  destruct (zlen_pos_cons t ltac:(lia)) as (x & t' & ->). rewrite zlen_cons in Ht.
  apply Forall_app in Hok as [Hoka _].
  assert (t' = []) as -> by (apply zlen_zero; lia). destruct init as [bs| |]; cbn [mbind option_bind].
  - destruct (Hinit bs eq_refl) as [Hlen Hbs]. destruct (split_at bs initlen ltac:(lia)) as (l & c & -> & Hl & _).
    apply Forall_app in Hbs as [Hl' _]. exists l. split; [done|]. split; [by exists c|]. split; [done|].
    destruct (Z.eqb_spec initlen 0) as [->|Hne].
    + cbn [mbind option_bind]. apply zlen_zero in Hl as ->. apply zlen_zero in Ha as ->. by apply (store1_app []).
    + rewrite load_prefix by done. cbn [mbind option_bind]. rewrite (store_head a l [x]) by lia.
      cbn [mbind option_bind]. by apply store1_app.
  - exists (replicate (length a) 0). unfold memset.
    assert (E : replicate (Z.to_nat (zlen (a ++ [x]))) 0 = replicate (length a) 0 ++ [0]).
    { unfold zlen. rewrite Nat2Z.id, length_app, replicate_add. done. }
    rewrite E, zlen_replicate. split; [done|]. split; [cbn; by rewrite length_replicate|].
    split; [apply Forall_replicate; unfold byte_ok; lia|].
    rewrite <- (app_nil_r (a ++ [x])), (store_head (a ++ [x])) by (done || rewrite !zlen_app, zlen_replicate; done).
    cbn [mbind option_bind]. rewrite app_nil_r. apply store1_app. rewrite zlen_replicate. done.
  - exists a. do 3 (split; [done|]). by apply store1_app.
Qed.

Lemma newlen_spec init initlen :
  0 <= initlen < 2 ^ 63 ->
  (forall bs, init = Init bs -> initlen <= zlen bs /\ bytes_ok bs) ->
  exists s l, sdsnewlen junk init initlen = Some s /\ repr s l /\ zlen l = initlen /\ init_bytes init l.
Proof.
  intros Hn Hinit. unfold sdsnewlen. cbv zeta.
  destruct (reqtype_spec initlen ltac:(lia)) as [Ht Hw].
  set (type := if (sdsReqType initlen =? SDS_TYPE_5) && (initlen =? 0) then SDS_TYPE_8 else sdsReqType initlen).
  assert (Hty : 0 <= type <= 4 /\ initlen < 2 ^ hdr_bits type).
  { unfold type, SDS_TYPE_8. destruct (_ && _) eqn:E; [|done]. zb. subst. split; [lia|]. cbn [hdr_bits]. lia. }
  clearbody type. destruct Hty as [Hty Hwt]. pose proof (hdrsize_range type Hty).
  rewrite (wrapu_small 64 (sdsHdrSize type + initlen + 1)) by lia.
  destruct (malloc_spec junk (sdsHdrSize type + initlen + 1 - sdsHdrSize type)) as [Hml Hmok]; [lia|].
  set (b := s_malloc _ _) in *. clearbody b.
  destruct (new_buffer init initlen b ltac:(lia) ltac:(lia) Hmok Hinit) as (l & Hl & Hil & Hlok & E).
  destruct (match init with InitNull => _ | _ => _ end) as [b1|]; cbn [mbind option_bind] in *; [|discriminate].
  destruct (match init with Init _ => _ | _ => _ end) as [b2|]; cbn [mbind option_bind] in *; [|discriminate].
  rewrite E. cbn [mbind option_bind]. eexists _, l. split; [done|]. split; [|done].
  assert (Hbuf : exists rest, l ++ [0] = l ++ 0 :: rest /\ initlen <= zlen l + zlen rest)
    by (exists []; split; [done|unfold zlen; simpl; unfold zlen in Hl; lia]).
  assert (Hbok : bytes_ok (l ++ [0])).
  { apply Forall_app. split; [done|]. repeat constructor; unfold byte_ok; lia. }
  destruct type as [|[[[]|[]|]|[[]|[]|]|]|]; try lia; cbn [hdr_bits] in Hwt.
  { destruct (type5_flags initlen ltac:(zpow; lia)) as (E1 & E2 & E3). unfold SDS_TYPE_5 in *.
    constructor; unfold type_ok, sdslen, sdsalloc, sdstype; cbn [set_buf flags hlen halloc buf];
      rewrite ?E1; cbn [hdr_bits]; rewrite ?E2; try done; zpow; lia. }
  all: rewrite !wrapu_small by (zpow; lia); constructor; unfold type_ok, sdslen, sdsalloc, sdstype;
    cbn [set_buf flags hlen halloc buf]; rewrite ?type_land by lia; cbn [hdr_bits];
    try done; zpow; lia.
Qed.

(** Reallocation keeps what is stored and leaves room for [addlen] bytes. *)
Lemma makeroom_spec s l addlen :
  repr s l -> 0 <= addlen -> zlen l + addlen < 2 ^ 62 ->
  exists s', sdsMakeRoomFor junk s addlen = Some s' /\ repr s' l /\ zlen l + addlen <= sdsalloc s'.
Proof.
  intros Hr Ha Hn. unfold sdsMakeRoomFor. cbv zeta. rewrite (avail_spec s l Hr). pose proof (zlen_nonneg l).
  rewrite Z.geb_leb. destruct (Z.leb_spec addlen (sdsalloc s - zlen l)) as [|Hgt]; [exists s; split; [done|]; split; [done|lia]|].
  rewrite (r_len _ _ Hr), (wrapu_small 64 (zlen l + addlen)) by lia.
  set (newlen := if zlen l + addlen <? SDS_MAX_PREALLOC then _ else _).
  assert (Hnl : zlen l + addlen <= newlen < 2 ^ 63).
  { unfold newlen, SDS_MAX_PREALLOC. destruct (Z.ltb_spec (zlen l + addlen) (1024 * 1024));
      rewrite wrapu_small by lia; lia. }
  clearbody newlen. destruct (reqtype_spec newlen ltac:(lia)) as [Ht Hw].
  set (type := if sdsReqType newlen =? SDS_TYPE_5 then SDS_TYPE_8 else sdsReqType newlen).
  assert (Hty : 1 <= type <= 4 /\ newlen < 2 ^ hdr_bits type).
  { unfold type, SDS_TYPE_5, SDS_TYPE_8. destruct (Z.eqb_spec (sdsReqType newlen) 0) as [E|E]; [|lia].
    rewrite E in Hw. cbn [hdr_bits] in *. zpow. lia. }
  clearbody type. destruct Hty as [Hty Hwt]. pose proof (hdrsize_range type ltac:(lia)).
  rewrite (wrapu_small 64 (sdsHdrSize type + newlen + 1)) by lia.
  replace (sdsHdrSize type + newlen + 1 - sdsHdrSize type) with (newlen + 1) by lia.
  destruct (r_buf _ _ Hr) as (rest & Eb & Hal). pose proof (r_bytes _ _ Hr) as Hok. rewrite Eb in *.
  destruct (r_alloc _ _ Hr) as [Hal1 Hal2].
  destruct (Z.eqb_spec (sdstype s) type) as [Esame|Ediff]; cbn [mbind option_bind].
  - destruct (realloc_prefix junk (l ++ [0]) rest (newlen + 1)) as (c & Ec & Hc & Hcok).
    { rewrite zlen_app. change (zlen [0]) with 1. lia. }
    { apply (bytes_mid l rest Hok). }
    rewrite <- !app_assoc in Ec. simpl in Ec. rewrite Ec. rewrite zlen_app in Hc. change (zlen [0]) with 1 in Hc.
    eexists. split; [done|]. apply (repr_setalloc _ l c).
    + apply Hr.
    + exact (r_len _ _ Hr).
    + done.
    + apply bytes_nul; [apply (bytes_mid l rest Hok)|done].
    + unfold width. change (sdstype (set_buf s _)) with (sdstype s). rewrite Esame. lia.
    + lia.
    + lia.
  - replace (l ++ 0 :: rest) with ((l ++ [0]) ++ rest) by (now rewrite <- app_assoc).
    rewrite load_prefix by (rewrite zlen_app; change (zlen [0]) with 1; lia). cbn [mbind option_bind].
    destruct (malloc_spec junk (newlen + 1) ltac:(lia)) as [Hml Hmok].
    destruct (split_at (s_malloc junk (newlen + 1)) (zlen l + 1) ltac:(lia)) as (a & c & Em & Hla & Hlc).
    rewrite Em in *. rewrite store_head by (rewrite ?zlen_app; change (zlen [0]) with 1; lia).
    cbn [mbind option_bind]. rewrite <- !app_assoc. cbn [app]. apply Forall_app in Hmok as [_ Hcok].
    set (s1 := set_buf (set_flags s type) (l ++ 0 :: c)).
    assert (Hty1 : sdstype s1 = type) by (apply type_land; lia).
    assert (Htok : type_ok s1) by (split; [lia|cbn; lia]).
    assert (Hw1 : width s1 = hdr_bits type) by (unfold width; now rewrite Hty1).
    destruct (setlen_spec s1 (zlen l) Htok ltac:(rewrite Hw1; lia)) as (Ht' & Ety' & El' & Eb' & _).
    eexists. split; [done|]. apply (repr_setalloc _ l c).
    + done.
    + done.
    + by rewrite Eb'.
    + rewrite Eb'. apply bytes_nul; [apply (bytes_mid l rest Hok)|done].
    + unfold width. rewrite Ety', Hty1. lia.
    + lia.
    + lia.
Qed.

(** The shape shared by the operations that write [l'] at the start of the
    buffer, terminate it and set the length: the rest of the buffer is free. *)
Lemma repr_write s l0 l rest :
  repr s l0 -> bytes_ok l -> bytes_ok rest -> zlen l <= sdsalloc s ->
  zlen (buf s) = zlen l + 1 + zlen rest ->
  repr (sdssetlen (set_buf s (l ++ 0 :: rest)) (zlen l)) l.
Proof.
  intros Hr Hl Hrest Hle Hsz. pose proof (zlen_nonneg l). destruct (r_alloc _ _ Hr) as [_ Ha].
  destruct (r_buf _ _ Hr) as (rest0 & Eb & Hal). rewrite Eb, zlen_app, zlen_cons in Hsz.
  apply (repr_setlen _ l rest); [apply Hr|done| |done|by apply bytes_nul|].
  - unfold width. change (sdstype (set_buf s _)) with (sdstype s). lia.
  - intros _. unfold width. change (sdstype (set_buf s _)) with (sdstype s).
    change (sdsalloc (set_buf s _)) with (sdsalloc s). lia.
Qed.

Lemma setlen_set_buf s b n : set_buf (sdssetlen s n) b = sdssetlen (set_buf s b) n.
Proof.
  unfold sdssetlen. change (sdstype (set_buf s b)) with (sdstype s).
  destruct (sdstype s) as [|[[[]|[]|]|[[]|[]|]|]|]; reflexivity.
Qed.

Lemma buf_setlen s n : buf (sdssetlen s n) = buf s.
Proof. unfold sdssetlen. destruct (sdstype s) as [|[[[]|[]|]|[[]|[]|]|]|]; reflexivity. Qed.

Lemma catlen_spec s l t len :
  repr s l -> 0 <= len <= zlen t -> bytes_ok t -> zlen l + len < 2 ^ 62 ->
  exists s', sdscatlen junk s t len = Some s' /\ repr s' (l ++ take (Z.to_nat len) t).
Proof.
  intros Hr Hlen Ht Hn. unfold sdscatlen. pose proof (zlen_nonneg l). rewrite (r_len _ _ Hr).
  destruct (makeroom_spec s l len Hr ltac:(lia) Hn) as (s1 & -> & Hr1 & Hroom). cbn [mbind option_bind].
  destruct (split_at t len Hlen) as (src & t2 & -> & Hsrc & _). rewrite load_prefix by done. cbn [mbind option_bind].
  destruct (r_buf _ _ Hr1) as (rest & Eb & Hal). pose proof (r_bytes _ _ Hr1) as Hok.
  destruct (split_at (0 :: rest) len) as (h & r & Er & Hh & Hrl); [rewrite zlen_cons; lia|].
  rewrite zlen_cons in Hrl. destruct (zlen_pos_cons r ltac:(lia)) as (x & r' & ->). rewrite zlen_cons in Hrl.
  assert (bytes_ok src /\ bytes_ok l /\ bytes_ok r') as (Hsok & Hlok & Hrok).
  { rewrite Eb, Er in Hok. apply Forall_app in Ht as [? _]. apply Forall_app in Hok as [? [_ Hok]%Forall_app].
    apply Forall_cons in Hok as [_ ?]. auto. }
  rewrite Eb, Er, store_app by lia. cbn [mbind option_bind]. rewrite buf_setlen, wrapu_small by lia. cbn [buf set_buf].
  rewrite app_assoc, store1_app by (rewrite zlen_app; lia). cbn [mbind option_bind]. eexists. split; [done|].
  rewrite setlen_set_buf. unfold set_buf at 1. cbn [hlen halloc flags set_buf]. fold (set_buf s1 ((l ++ src) ++ 0 :: r')).
  replace (Z.to_nat len) with (length src) by (unfold zlen in Hsrc; lia). rewrite take_app_length.
  replace (zlen l + len) with (zlen (l ++ src)) by (rewrite zlen_app; lia).
  apply (repr_write s1 l); [done|by apply Forall_app|done|rewrite zlen_app; lia|].
  rewrite Eb, !zlen_app, zlen_cons. lia.
Qed.

Lemma clear_spec s l : repr s l -> exists s', sdsclear s = Some s' /\ repr s' [].
Proof.
  intros Hr. unfold sdsclear. rewrite buf_setlen. destruct (r_buf _ _ Hr) as (rest & Eb & Hal).
  pose proof (r_bytes _ _ Hr) as Hok. rewrite Eb in Hok |- *. pose proof (r_alloc _ _ Hr) as Ha.
  pose proof (zlen_nonneg l). destruct (bytes_mid _ _ Hok) as [Hl Hrest].
  destruct l as [|x l]; cbn [app].
  - rewrite (store1_app [] 0 0 rest) by done. cbn [mbind option_bind]. eexists. split; [done|].
    rewrite setlen_set_buf. apply (repr_write s [] [] rest); [done|done|done|change (zlen (@nil Z)) with 0 in *; lia|].
    rewrite Eb. cbn [app]. rewrite zlen_cons. change (zlen (@nil Z)) with 0. lia.
  - rewrite (store1_app [] x 0 (l ++ 0 :: rest)) by done. cbn [mbind option_bind]. eexists. split; [done|].
    rewrite setlen_set_buf. apply Forall_cons in Hl as [_ Hl].
    apply (repr_write s (x :: l) [] (l ++ 0 :: rest)); [done|done|by apply bytes_nul|change (zlen (@nil Z)) with 0 in *; lia|].
    rewrite Eb. cbn [app]. rewrite zlen_cons. change (zlen (@nil Z)) with 0. lia.
Qed.

Lemma growzero_spec s l len :
  repr s l -> len < 2 ^ 62 ->
  exists s', sdsgrowzero junk s len = Some s' /\ repr s' (l ++ replicate (Z.to_nat len - length l) 0).
Proof.
  intros Hr Hn. unfold sdsgrowzero. rewrite (r_len _ _ Hr). pose proof (zlen_nonneg l).
  destruct (Z.leb_spec len (zlen l)) as [Hle|Hgt].
  { exists s. split; [done|]. replace (Z.to_nat len - length l)%nat with 0%nat by (unfold zlen in Hle; lia).
    cbn [replicate]. by rewrite app_nil_r. }
  destruct (makeroom_spec s l (len - zlen l) Hr ltac:(lia) ltac:(lia)) as (s1 & -> & Hr1 & Hroom). cbn [mbind option_bind].
  destruct (r_buf _ _ Hr1) as (rest & Eb & Hal). pose proof (r_bytes _ _ Hr1) as Hok. rewrite Eb in Hok.
  destruct (bytes_mid _ _ Hok) as [Hl Hrest].
  destruct (split_at rest (len - zlen l) ltac:(lia)) as (h & r & Er & Hh & Hrl).
  rewrite Er in Hrest. apply Forall_app in Hrest as [_ Hrok]. unfold memset.
  set (k := (Z.to_nat len - length l)%nat).
  assert (Ek : replicate (Z.to_nat (len - zlen l + 1)) 0 = replicate k 0 ++ [0]).
  { change [0] with (replicate 1 0). rewrite <- replicate_add. f_equal. unfold k, zlen in *. lia. }
  assert (Hk : zlen (replicate k 0) = len - zlen l) by (rewrite zlen_replicate; unfold k, zlen in *; lia).
  rewrite Ek, Eb, Er. change (0 :: h ++ r) with ((0 :: h) ++ r).
  rewrite store_app by (rewrite ?zlen_cons, ?zlen_app, ?Hk; change (zlen [0]) with 1; lia). cbn [mbind option_bind].
  eexists. split; [done|]. rewrite <- app_assoc. cbn [app]. rewrite app_assoc.
  replace len with (zlen (l ++ replicate k 0)) by (rewrite zlen_app; lia).
  apply (repr_write s1 l); [done| |done|rewrite zlen_app; lia|].
  - apply Forall_app. split; [done|]. apply Forall_replicate. unfold byte_ok. lia.
  - rewrite Eb, Er, !zlen_app, zlen_cons, zlen_app. lia.
Qed.

Lemma cpylen_spec s l t len :
  repr s l -> 0 <= len <= zlen t -> bytes_ok t -> len < 2 ^ 62 ->
  exists s', sdscpylen junk s t len = Some s' /\ repr s' (take (Z.to_nat len) t).
Proof.
  intros Hr Hlen Ht Hn. unfold sdscpylen. pose proof (zlen_nonneg l). rewrite (r_len _ _ Hr).
  assert (exists s1, (if sdsalloc s <? len then sdsMakeRoomFor junk s (u64 (len - zlen l)) else Some s) = Some s1 /\
    repr s1 l /\ len <= sdsalloc s1) as (s1 & -> & Hr1 & Hroom).
  { pose proof (r_alloc _ _ Hr). destruct (Z.ltb_spec (sdsalloc s) len); [|by exists s].
    rewrite wrapu_small by lia. destruct (makeroom_spec s l (len - zlen l) Hr ltac:(lia) ltac:(lia)) as (s1 & E & Hr1 & ?).
    exists s1. split; [done|]. split; [done|lia]. }
  cbn [mbind option_bind]. destruct (split_at t len Hlen) as (src & t2 & -> & Hsrc & _).
  rewrite load_prefix by done. cbn [mbind option_bind].
  destruct (r_buf _ _ Hr1) as (rest & Eb & Hal). pose proof (r_bytes _ _ Hr1) as Hok.
  destruct (split_at (buf s1) len) as (h & r & Er & Hh & Hrl); [rewrite Eb, zlen_app, zlen_cons; lia|].
  rewrite Eb, zlen_app, zlen_cons in Hrl. destruct (zlen_pos_cons r ltac:(lia)) as (x & r' & ->). rewrite zlen_cons in Hrl.
  assert (bytes_ok src /\ bytes_ok r') as (Hsok & Hrok).
  { rewrite Er in Hok. apply Forall_app in Ht as [? _]. apply Forall_app in Hok as [_ [_ ?]%Forall_cons]. auto. }
  rewrite Er, store_head by lia. cbn [mbind option_bind]. rewrite store1_app by lia. cbn [mbind option_bind].
  eexists. split; [done|]. replace (Z.to_nat len) with (length src) by (unfold zlen in Hsrc; lia).
  rewrite take_app_length. rewrite <- Hsrc. apply (repr_write s1 l); [done|done|done|lia|].
  rewrite Eb, !zlen_app, zlen_cons. lia.
Qed.

Lemma dup_spec s l : repr s l -> zlen l < 2 ^ 63 -> exists s', sdsdup junk s = Some s' /\ repr s' l.
Proof.
  intros Hr Hn. unfold sdsdup. destruct (r_buf _ _ Hr) as (rest & Eb & _). pose proof (zlen_nonneg l). pose proof (zlen_nonneg rest).
  destruct (newlen_spec (Init (buf s)) (sdslen s)) as (s' & l' & E & Hr' & Hl & c & Ec).
  - rewrite (r_len _ _ Hr). lia.
  - intros bs [= <-]. rewrite (r_len _ _ Hr), Eb, zlen_app, zlen_cons, <- Eb. split; [lia|apply Hr].
  - exists s'. split; [done|]. rewrite Eb in Ec. rewrite (r_len _ _ Hr) in Hl.
    apply app_inj_1 in Ec as [-> _]; [done|]. unfold zlen in Hl. lia.
Qed.

(** *** Substrings *)
Definition norm_index (n i : Z) : Z := if i <? 0 then Z.max 0 (n + i) else i.

(** The inclusive interval [start, e]; negative indexes count from the end. *)
Definition spec_range (l : list Z) (start e : Z) : list Z :=
  let n := zlen l in
  drop (Z.to_nat (norm_index n start)) (take (Z.to_nat (norm_index n e + 1)) l).

(** Moving a substring to the front of the buffer. *)
Lemma move_front s l pre mid post (moved : bool) :
  repr s l -> l = pre ++ mid ++ post -> (moved = true \/ pre = [] \/ mid = []) ->
  exists s', (b ← (if moved then memmove (buf s) 0 (zlen pre) (zlen mid) else Some (buf s));
              b ← store b (zlen mid) [0];
              Some (sdssetlen (set_buf s b) (zlen mid))) = Some s' /\ repr s' mid.
Proof.
  intros Hr El Hm. destruct (r_buf _ _ Hr) as (rest & Eb & Hal). pose proof (r_bytes _ _ Hr) as Hok.
  assert (Hb1 : exists b1 : list Z, (if moved then memmove (buf s) 0 (zlen pre) (zlen mid) else Some (buf s)) = Some b1 /\
    exists x t, b1 = mid ++ x :: t /\ zlen b1 = zlen (buf s) /\ bytes_ok t).
  { assert (Hkeep : exists x t, post ++ 0 :: rest = x :: t) by (destruct post; eauto).
    destruct Hkeep as (x & t & Ext).
    assert (Hfront : forall b1 u, b1 = mid ++ u -> zlen b1 = zlen (buf s) -> bytes_ok u ->
      exists x t, b1 = mid ++ x :: t /\ zlen b1 = zlen (buf s) /\ bytes_ok t).
    { intros b1 u -> Hz Hu. destruct (zlen_pos_cons u) as (y & u' & ->).
      - rewrite Eb, El, !zlen_app, zlen_cons in Hz. pose proof (zlen_nonneg pre). pose proof (zlen_nonneg post).
        pose proof (zlen_nonneg rest). lia.
      - apply Forall_cons in Hu as [_ Hu]. eauto. }
    assert (Ebuf : buf s = pre ++ mid ++ x :: t) by (rewrite Eb, El, <- !app_assoc, Ext; done).
    rewrite Ebuf in Hok. apply Forall_app in Hok as [Hpre [Hmid [Hx Ht]%Forall_cons]%Forall_app].
    destruct moved.
    - destruct (split_at (pre ++ mid) (zlen mid)) as (a & c & Ea & Hla & Hlc).
      { rewrite zlen_app. pose proof (zlen_nonneg pre). pose proof (zlen_nonneg mid). lia. }
      exists (mid ++ c ++ x :: t). split.
      { eapply memmove_app; [exact Ebuf|done|done|]. rewrite Ebuf, app_assoc, Ea, <- app_assoc. by apply store_head. }
      apply (Hfront _ (c ++ x :: t)); [done| |].
      + rewrite Ebuf, (app_assoc pre), Ea, !zlen_app. lia.
      + apply Forall_app. split; [|by apply Forall_cons]. assert (Hp : bytes_ok (pre ++ mid)) by (by apply Forall_app).
        rewrite Ea in Hp. apply Forall_app in Hp as [_ ?]. done.
    - exists (buf s). split; [done|]. destruct Hm as [|[->| ->]]; [done| |].
      + apply (Hfront _ (x :: t)); [by rewrite Ebuf|done|by apply Forall_cons].
      + apply (Hfront _ (pre ++ x :: t)); [by rewrite Ebuf|done|]. apply Forall_app. split; [done|by apply Forall_cons]. }
  destruct Hb1 as (b1 & -> & x & t & -> & Hz & Ht). cbn [mbind option_bind]. rewrite store1_app by done.
  cbn [mbind option_bind]. eexists. split; [done|]. rewrite zlen_app, zlen_cons in Hz.
  assert (Hmid : bytes_ok mid).
  { rewrite Eb in Hok. apply bytes_mid in Hok as [Hok _]. rewrite El in Hok.
    apply Forall_app in Hok as [_ [? _]%Forall_app]. done. }
  apply (repr_write s l); [done|done|done| |lia].
  pose proof (r_alloc _ _ Hr) as [Ha _]. rewrite El, !zlen_app in Ha.
  pose proof (zlen_nonneg pre). pose proof (zlen_nonneg post). lia.
Qed.

Lemma slice_split (l : list Z) i n :
  0 <= i -> 0 <= n -> i + n <= zlen l ->
  exists pre mid post, l = pre ++ mid ++ post /\ zlen pre = i /\ zlen mid = n /\
    drop (Z.to_nat i) (take (Z.to_nat (i + n)) l) = mid.
Proof.
  intros Hi Hn Hl. destruct (split_at l i ltac:(lia)) as (pre & r & -> & Hp & Hr).
  destruct (split_at r n ltac:(lia)) as (mid & post & -> & Hm & _). exists pre, mid, post.
  split; [done|]. split; [done|]. split; [done|]. unfold zlen in *.
  replace (Z.to_nat (i + n)) with (length (pre ++ mid)) by (rewrite length_app; lia).
  rewrite app_assoc, take_app_length. replace (Z.to_nat i) with (length pre) by lia. apply drop_app_length.
Qed.

Lemma range_spec s l start e :
  repr s l -> in_s 64 start -> in_s 64 e -> zlen l < 2 ^ 63 ->
  exists s', sdsrange s start e = Some s' /\ repr s' (spec_range l start e).
Proof.
  unfold in_s. intros Hr Hs He Hn. unfold sdsrange. rewrite (r_len _ _ Hr). pose proof (zlen_nonneg l). cbv zeta.
  assert (Enorm : forall i, - 2 ^ (64 - 1) <= i < 2 ^ (64 - 1) ->
    (if i <? 0 then if s64 (zlen l + i) <? 0 then 0 else s64 (zlen l + i) else i) = norm_index (zlen l) i).
  { intros i Hi. unfold norm_index. destruct (Z.ltb_spec i 0); [|done].
    rewrite wraps_small by (unfold in_s; lia). destruct (Z.ltb_spec (zlen l + i) 0); lia. }
  rewrite (wraps_small 64 (zlen l)), (wraps_small 64 (zlen l - 1)) by (unfold in_s; lia).
  destruct (Z.eqb_spec (zlen l) 0) as [Hz|Hz].
  { exists s. split; [done|]. apply zlen_zero in Hz as ->. unfold spec_range.
    rewrite take_nil, drop_nil. done. }
  rewrite !Enorm by lia. unfold spec_range.
  assert (Hst : 0 <= norm_index (zlen l) start < 2 ^ 63) by (unfold norm_index; destruct (Z.ltb_spec start 0); lia).
  assert (Hen : 0 <= norm_index (zlen l) e < 2 ^ 63) by (unfold norm_index; destruct (Z.ltb_spec e 0); lia).
  set (st := norm_index (zlen l) start) in *. set (en := norm_index (zlen l) e) in *. clearbody st en.
  assert (Hempty : forall st', (0 <= st' < zlen l \/ st' = st) -> drop (Z.to_nat st) (take (Z.to_nat (en + 1)) l) = [] ->
    exists s', (b ← (if negb (st' =? 0) && negb (0 =? 0) then memmove (buf s) 0 st' 0 else Some (buf s));
      b ← store b 0 [0]; Some (sdssetlen (set_buf s b) 0)) = Some s' /\
      repr s' (drop (Z.to_nat st) (take (Z.to_nat (en + 1)) l))).
  { intros st' _ ->. rewrite andb_false_r. apply (move_front s l [] [] l false Hr); auto. }
  rewrite !Z.gtb_ltb, !Z.geb_leb.
  destruct (Z.ltb_spec en st) as [Hlt|Hge].
  { simpl. apply (Hempty 0); [lia|]. apply drop_ge. rewrite length_take. lia. }
  rewrite (wrapu_small 64 (en - st + 1)) by lia. rewrite (proj2 (Z.eqb_neq (en - st + 1) 0)) by lia. cbn [negb].
  destruct (Z.leb_spec (zlen l) st) as [Hout|Hin].
  { apply (Hempty st); [lia|]. apply drop_ge. rewrite length_take. unfold zlen in *. lia. }
  assert (Hgo : forall n, n = Z.min en (zlen l - 1) - st + 1 ->
    exists s', (b ← (if negb (st =? 0) && negb (n =? 0) then memmove (buf s) 0 st n else Some (buf s));
      b ← store b n [0]; Some (sdssetlen (set_buf s b) n)) = Some s' /\
      repr s' (drop (Z.to_nat st) (take (Z.to_nat (en + 1)) l))).
  { intros n ->. set (n := Z.min en (zlen l - 1) - st + 1).
    destruct (slice_split l st n) as (pre & mid & post & El & Hp & Hm & Ed); [lia|unfold n; lia|unfold n; lia|].
    assert (Et : take (Z.to_nat (en + 1)) l = take (Z.to_nat (st + n)) l).
    { unfold n. destruct (Z.le_gt_cases en (zlen l - 1)); [f_equal; lia|].
      rewrite !take_ge by (unfold zlen in *; lia). done. }
    rewrite Et, Ed, <- Hp, <- Hm. apply (move_front s l pre mid post _ Hr El).
    destruct (Z.eqb_spec (zlen pre) 0) as [E|E]; [right; left; by apply zlen_zero|].
    destruct (Z.eqb_spec (zlen mid) 0); [unfold n in *; lia|by left]. }
  destruct (Z.leb_spec (zlen l) en) as [Hclip|Hok2].
  - rewrite (proj2 (Z.ltb_ge (zlen l - 1) st)) by lia. rewrite wrapu_small by lia. apply Hgo. lia.
  - apply Hgo. lia.
Qed.

(** *** Trimming *)
Fixpoint dropwhile (f : Z -> bool) (l : list Z) : list Z :=
  match l with [] => [] | c :: l' => if f c then dropwhile f l' else l end.
Fixpoint takewhile (f : Z -> bool) (l : list Z) : list Z :=
  match l with [] => [] | c :: l' => if f c then c :: takewhile f l' else [] end.

(** Both ends without the characters satisfying [f]. *)
Definition spec_trim (f : Z -> bool) (l : list Z) : list Z :=
  reverse (dropwhile f (reverse (dropwhile f l))).

Lemma take_dropwhile f l : takewhile f l ++ dropwhile f l = l.
Proof. induction l as [|c l IH]; [done|]. simpl. destruct (f c); [simpl; by f_equal|done]. Qed.

Lemma trim_left_spec cset b pre suf tl fuel :
  b = pre ++ suf ++ tl -> (length suf < fuel)%nat ->
  trim_left fuel b cset (zlen pre) (zlen pre + zlen suf - 1) =
  Some (zlen pre + zlen (takewhile (in_cset cset) suf)).
Proof.
  revert pre suf. induction fuel as [|fuel IH]; intros pre suf -> Hf; [lia|]. simpl trim_left.
  destruct suf as [|c suf].
  - change (zlen (@nil Z)) with 0. rewrite (proj2 (Z.leb_gt _ _)) by lia. simpl.
    change (zlen (@nil Z)) with 0. f_equal. lia.
  - rewrite zlen_cons. pose proof (zlen_nonneg suf). rewrite (proj2 (Z.leb_le _ _)) by lia.
    cbn [app]. rewrite load1_app by done. cbn [mbind option_bind takewhile].
    destruct (in_cset cset c); [|change (zlen (@nil Z)) with 0; f_equal; lia].
    specialize (IH (pre ++ [c]) suf). rewrite zlen_app in IH. change (zlen [c]) with 1 in IH. cbn [app] in IH.
    replace (zlen pre + (1 + zlen suf) - 1) with (zlen pre + 1 + zlen suf - 1) by lia.
    rewrite IH; [rewrite zlen_cons; f_equal; lia|by rewrite <- app_assoc|simpl in Hf; lia].
Qed.

Lemma trim_right_spec cset b pre c m tl fuel :
  b = pre ++ c :: m ++ tl -> (length m < fuel)%nat ->
  trim_right fuel b cset (zlen pre) (zlen pre + zlen m) =
  Some (zlen pre + zlen (dropwhile (in_cset cset) (reverse m))).
Proof.
  revert m tl. induction fuel as [|fuel IH]; intros m tl Hb Hf; [lia|]. simpl trim_right.
  rewrite Z.gtb_ltb. destruct m as [|x m _] using rev_ind.
  - change (zlen (@nil Z)) with 0. rewrite (proj2 (Z.ltb_ge _ _)) by lia. done.
  - rewrite zlen_app. change (zlen [x]) with 1. pose proof (zlen_nonneg m). rewrite (proj2 (Z.ltb_lt _ _)) by lia.
    assert (Hb' : b = (pre ++ c :: m) ++ x :: tl) by (rewrite Hb, <- !app_assoc; done).
    assert (El : load1 b (zlen pre + (zlen m + 1)) = Some x)
      by (rewrite Hb'; apply load1_app; rewrite zlen_app, zlen_cons; lia).
    rewrite El, reverse_app. cbn [mbind option_bind].
    destruct (in_cset cset x) eqn:E.
    + replace (zlen pre + (zlen m + 1) - 1) with (zlen pre + zlen m) by lia.
      rewrite (IH m (x :: tl)); [|by rewrite Hb', <- app_assoc|rewrite length_app in Hf; simpl in Hf; lia].
      change (reverse [x] ++ reverse m) with (x :: reverse m). simpl. now rewrite E.
    + change (reverse [x] ++ reverse m) with (x :: reverse m). simpl. rewrite E, zlen_cons.
      unfold zlen. rewrite length_reverse. f_equal. lia.
Qed.

Lemma dropwhile_head f l c m : dropwhile f l = c :: m -> f c = false.
Proof. induction l as [|x l IH]; [done|]. simpl. destruct (f x) eqn:E; [done|]. by intros [= -> _]. Qed.

Lemma dropwhile_snoc f l c : f c = false -> dropwhile f (l ++ [c]) = dropwhile f l ++ [c].
Proof. intros E. induction l as [|x l IH]; simpl; [by rewrite E|]. by destruct (f x). Qed.

Lemma trim_spec s l cset :
  repr s l -> exists s', sdstrim s cset = Some s' /\ repr s' (spec_trim (in_cset cset) l).
Proof.
  intros Hr. unfold sdstrim. rewrite (r_len _ _ Hr). cbv zeta. set (f := in_cset cset).
  destruct (r_buf _ _ Hr) as (rest & Eb & _). pose proof (zlen_nonneg l).
  pose proof (take_dropwhile f l) as Etd.
  pose proof (trim_left_spec cset (buf s) [] l (0 :: rest) (Z.to_nat (zlen l) + 1)) as HL.
  change (zlen (@nil Z)) with 0 in HL. rewrite !Z.add_0_l in HL.
  rewrite HL; [|exact Eb|unfold zlen; lia]. fold f. cbn [mbind option_bind].
  set (pre := takewhile f l) in *. unfold spec_trim. fold f. destruct (dropwhile f l) as [|c m] eqn:Ed.
  - rewrite app_nil_r in Etd.
    assert (Er : trim_right (Z.to_nat (zlen l) + 1) (buf s) cset (zlen pre) (zlen l - 1) = Some (zlen l - 1)).
    { rewrite Nat.add_1_r. simpl trim_right. rewrite Z.gtb_ltb, (proj2 (Z.ltb_ge _ _)); [done|]. rewrite Etd. lia. }
    rewrite Er. cbn [mbind option_bind]. rewrite Z.gtb_ltb, (proj2 (Z.ltb_lt _ _)) by (rewrite Etd; lia).
    rewrite <- if_negb. apply (move_front s l pre [] [] _ Hr); [by rewrite app_nil_r|auto].
  - pose proof (dropwhile_head f l c m Ed) as Hc.
    assert (El : zlen l - 1 = zlen pre + zlen m) by (rewrite <- Etd, zlen_app, zlen_cons; lia). rewrite El.
    rewrite (trim_right_spec cset (buf s) pre c m (0 :: rest)).
    2:{ rewrite Eb, <- Etd, <- app_assoc. done. }
    2:{ unfold zlen in *. lia. }
    fold f. cbn [mbind option_bind]. rewrite reverse_cons, dropwhile_snoc, reverse_app by done.
    set (q := dropwhile f (reverse m)). change (reverse [c]) with [c]. cbn [app].
    rewrite Z.gtb_ltb, (proj2 (Z.ltb_ge _ _)) by (pose proof (zlen_nonneg q); lia).
    replace (zlen pre + zlen q - zlen pre + 1) with (zlen (c :: reverse q))
      by (rewrite zlen_cons; unfold zlen; rewrite length_reverse; lia).
    rewrite <- if_negb. apply (move_front s l pre (c :: reverse q) (reverse (takewhile f (reverse m))) _ Hr).
    + rewrite <- Etd. f_equal. cbn [app]. f_equal. rewrite <- reverse_app.
      unfold q. rewrite take_dropwhile. by rewrite reverse_involutive.
    + destruct (Z.eqb_spec (zlen pre) 0); [right; left; by apply zlen_zero|by left].
Qed.

(** *** Per-character loops *)
Lemma map_loop_spec f (todo : list Z) : forall done tl fuel len,
  len = zlen done + zlen todo -> (length todo <= fuel)%nat ->
  map_loop fuel f (done ++ todo ++ tl) (zlen done) len = Some (done ++ map f todo ++ tl).
Proof.
  induction todo as [|c todo IH]; intros dn tl fuel len -> Hf.
  - destruct fuel; [done|]. simpl map_loop. change (zlen (@nil Z)) with 0.
    rewrite (proj2 (Z.ltb_ge _ _)) by lia. done.
  - destruct fuel as [|fuel]; [simpl in Hf; lia|]. simpl map_loop. rewrite zlen_cons. pose proof (zlen_nonneg todo).
    rewrite (proj2 (Z.ltb_lt _ _)) by lia. rewrite load1_app by done. cbn [mbind option_bind].
    rewrite store1_app by done. cbn [mbind option_bind].
    specialize (IH (dn ++ [f c]) tl fuel (zlen dn + (1 + zlen todo))).
    rewrite zlen_app in IH. change (zlen [f c]) with 1 in IH. rewrite <- app_assoc in IH. cbn [app] in IH.
    rewrite IH; [|lia|simpl in Hf; lia]. rewrite <- app_assoc. done.
Qed.

Lemma maploop_repr s l f :
  repr s l -> (forall c, byte_ok c -> byte_ok (f c)) ->
  exists s', (b ← map_loop (Z.to_nat (sdslen s)) f (buf s) 0 (sdslen s); Some (set_buf s b)) = Some s' /\
    repr s' (map f l).
Proof.
  intros Hr Hf. destruct (r_buf _ _ Hr) as (rest & Eb & Hal). rewrite Eb, (r_len _ _ Hr).
  pose proof (map_loop_spec f l [] (0 :: rest) (Z.to_nat (zlen l)) (zlen l)) as HL. change (zlen (@nil Z)) with 0 in HL.
  cbn [app] in HL. rewrite HL by (unfold zlen; lia). cbn [mbind option_bind]. eexists. split; [done|].
  assert (Hz : zlen (map f l) = zlen l) by (unfold zlen; by rewrite length_map).
  pose proof (r_bytes _ _ Hr) as Hok. rewrite Eb in Hok. destruct (bytes_mid _ _ Hok) as [Hl Hrest].
  constructor.
  - apply Hr.
  - rewrite Hz. exact (r_len _ _ Hr).
  - rewrite Hz. exact (r_alloc _ _ Hr).
  - exists rest. rewrite Hz. done.
  - apply bytes_nul; [|done]. apply Forall_map. eapply Forall_impl; [exact Hl|]. exact Hf.
Qed.

(** *** Length adjustment *)
Lemma type5_alloc s l : repr s l -> sdstype s = 0 -> sdsalloc s = zlen l.
Proof. intros Hr E. rewrite <- (r_len _ _ Hr). unfold sdsalloc, sdslen. by rewrite E. Qed.

(** Inside the allocation, [sdsIncrLen] is [sdssetlen] plus the terminator. *)
Lemma incrlen_setlen s l incr :
  repr s l -> sdstype s <> 0 -> - zlen l <= incr <= sdsalloc s - zlen l -> zlen l < 2 ^ 31 \/ 0 <= incr ->
  forall b, sdsIncrLen (set_buf s b) incr =
    (b' ← store b (zlen l + incr) [0]; Some (sdssetlen (set_buf s b') (zlen l + incr))).
Proof.
  intros Hr Hty0 Hi Hsm b. unfold sdsIncrLen, sdssetlen. pose proof (zlen_nonneg l) as Hl0.
  pose proof (r_len _ _ Hr) as Hl. pose proof (r_alloc _ _ Hr) as Ha. destruct (r_type _ _ Hr) as [Ht _].
  change (sdstype (set_buf s b)) with (sdstype s). unfold sdslen, sdsalloc in *.
  types s; cbn [hdr_bits] in Ha; cbn [hlen halloc flags set_buf]; rewrite Hl, !Z.geb_leb.
  all: rewrite (wrapu_small _ (zlen l + incr)) by (zpow; lia).
  all: assert (Hneg : incr < 0 -> u32 (- incr) <= zlen l /\ u64 (- incr) <= zlen l)
    by (intros; rewrite !wrapu_small by (zpow; lia); lia).
  all: assert (Hpos : 0 <= incr -> u32 incr <= incr /\ u64 incr <= incr)
    by (intros; split; apply Z.mod_le; lia).
  all: destruct (Z.leb_spec 0 incr), (Z.ltb_spec incr 0); try lia; simpl.
  all: rewrite ?(wrapu_small 32 (halloc s - zlen l)), ?(wrapu_small 64 (halloc s - zlen l)) by (zpow; lia).
  all: try (rewrite (proj2 (Z.leb_le _ _)) by (zpow; lia)); cbn [orb mbind option_bind buf set_hlen set_buf].
  all: destruct (store _ _ _) as [b'|]; [|done]; cbn [mbind option_bind];
    change (sdstype (set_buf s b')) with (sdstype s); rewrite Ety; reflexivity.
Qed.

Lemma read_spec s l n w :
  repr s l -> 0 < n -> zlen w <= n -> bytes_ok w -> zlen l + n < 2 ^ 62 ->
  exists s', sds_read junk s n w = Some s' /\ repr s' (l ++ w).
Proof.
  intros Hr Hn Hw Hok Hlen. unfold sds_read. pose proof (zlen_nonneg l). pose proof (zlen_nonneg w).
  destruct (makeroom_spec s l n Hr ltac:(lia) Hlen) as (s1 & -> & Hr1 & Hroom). cbn [mbind option_bind].
  assert (Hty0 : sdstype s1 <> 0) by (intros E; rewrite (type5_alloc s1 l Hr1 E) in Hroom; lia).
  rewrite (r_len _ _ Hr). destruct (r_buf _ _ Hr1) as (rest & Eb & Hal). pose proof (r_bytes _ _ Hr1) as Hbok.
  destruct (split_at (0 :: rest) (zlen w)) as (h & r & Er & Hh & Hrl); [rewrite zlen_cons; lia|].
  rewrite zlen_cons in Hrl. destruct (zlen_pos_cons r ltac:(lia)) as (x & r' & ->). rewrite zlen_cons in Hrl.
  assert (bytes_ok l /\ bytes_ok r') as (Hlok & Hrok).
  { rewrite Eb, Er in Hbok. apply Forall_app in Hbok as [? [_ [_ ?]%Forall_cons]%Forall_app]. auto. }
  rewrite Eb, Er, store_app by lia. cbn [mbind option_bind].
  rewrite (incrlen_setlen s1 l) by (done || lia || (right; lia)).
  rewrite app_assoc, store1_app by (rewrite zlen_app; lia). cbn [mbind option_bind]. eexists. split; [done|].
  rewrite <- zlen_app. apply (repr_write s1 l); [done|by apply Forall_app|done|rewrite zlen_app; lia|].
  rewrite Eb, !zlen_app, zlen_cons. lia.
Qed.

Lemma shrink_spec s l n :
  repr s l -> sdstype s <> 0 -> 0 <= n <= zlen l -> zlen l < 2 ^ 31 ->
  exists s', sdsIncrLen s (- n) = Some s' /\ repr s' (take (Z.to_nat (zlen l - n)) l).
Proof.
  intros Hr Hty0 Hn Hlen. pose proof (zlen_nonneg l). destruct (r_alloc _ _ Hr) as [Ha _].
  pose proof (incrlen_setlen s l (- n) Hr Hty0 ltac:(lia) ltac:(lia) (buf s)) as E.
  replace (set_buf s (buf s)) with s in E by (by destruct s). rewrite E.
  destruct (split_at l (zlen l - n) ltac:(lia)) as (a & c & El & Hla & _).
  replace (zlen l + - n) with (zlen a) by lia. replace (Z.to_nat (zlen l - n)) with (length a) by (unfold zlen in *; lia).
  destruct (move_front s l [] a c false Hr El ltac:(auto)) as (s' & E' & Hr'). exists s'. split; [exact E'|].
  rewrite El, take_app_length. done.
Qed.

Lemma removefree_spec s l :
  repr s l -> zlen l < 2 ^ 62 -> exists s', sdsRemoveFreeSpace junk s = Some s' /\ repr s' l /\ sdsavail s' = 0.
Proof.
  intros Hr Hn. unfold sdsRemoveFreeSpace. cbv zeta. rewrite (avail_spec s l Hr), (r_len _ _ Hr).
  pose proof (zlen_nonneg l). destruct (r_alloc _ _ Hr) as [Ha1 Ha2]. destruct (r_type _ _ Hr) as [Ht Hf].
  destruct (Z.eqb_spec (sdsalloc s - zlen l) 0) as [Hz|Hz].
  { exists s. split; [done|]. split; [done|]. by rewrite (avail_spec s l Hr). }
  assert (Hty0 : sdstype s <> 0) by (intros E; rewrite (type5_alloc s l Hr E) in Hz; lia).
  assert (Hav : forall s', repr s' l -> sdsalloc s' <= zlen l -> sdsavail s' = 0).
  { intros s' Hr' Hle. rewrite (avail_spec s' l Hr'). pose proof (r_alloc _ _ Hr'). lia. }
  destruct (reqtype_spec (zlen l) ltac:(lia)) as [Hrt Hrw]. set (type := sdsReqType (zlen l)) in *.
  pose proof (hdrsize_range type Hrt). pose proof (hdrsize_range (sdstype s) Ht).
  rewrite !wrapu_small by lia. destruct (r_buf _ _ Hr) as (rest & Eb & Hal). pose proof (r_bytes _ _ Hr) as Hok. rewrite Eb in *.
  replace (sdsHdrSize (sdstype s) + zlen l + 1 - sdsHdrSize (sdstype s)) with (zlen (l ++ [0]))
    by (rewrite zlen_app; change (zlen [0]) with 1; lia).
  replace (l ++ 0 :: rest) with ((l ++ [0]) ++ rest) by (now rewrite <- app_assoc).
  destruct (bytes_mid _ _ Hok) as [Hlok _].
  destruct (_ || _) eqn:E; cbn [mbind option_bind].
  - rewrite realloc_shrink by done. set (s1 := set_buf s (l ++ [0])).
    assert (Hw1 : zlen l < 2 ^ width s1) by (unfold width; change (sdstype s1) with (sdstype s); lia).
    destruct (setalloc_spec s1 (zlen l) (r_type _ _ Hr) ltac:(lia)) as (_ & _ & _ & _ & Ea).
    change (sdstype s1) with (sdstype s) in Ea. rewrite (proj2 (Z.eqb_neq _ _) Hty0) in Ea.
    destruct (repr_setalloc s1 l [] (zlen l) (zlen l)) as [Hr1 _].
    + apply Hr.
    + apply (r_len _ _ Hr).
    + done.
    + by apply bytes_nul.
    + change (sdstype s1) with (sdstype s). lia.
    + change (zlen (@nil Z)) with 0. lia.
    + lia.
    + eexists. split; [done|]. split; [done|]. apply Hav; [done|]. by rewrite Ea.
  - rewrite load_prefix by (rewrite zlen_app; change (zlen [0]) with 1; lia). cbn [mbind option_bind].
    replace (sdsHdrSize type + zlen l + 1 - sdsHdrSize type) with (zlen l + 1) by lia.
    destruct (malloc_spec junk (zlen l + 1) ltac:(lia)) as [Hml _]. set (m := s_malloc _ _) in *. clearbody m.
    rewrite <- (app_nil_r m), store_head by (done || rewrite Hml, zlen_app; done). cbn [mbind option_bind]. rewrite app_nil_r.
    set (s1 := set_buf (set_flags s type) (l ++ [0])).
    assert (Hty1 : sdstype s1 = type) by (apply type_land; lia).
    assert (Htok : type_ok s1) by (split; [lia|cbn; lia]).
    assert (Hw1 : width s1 = hdr_bits type) by (unfold width; now rewrite Hty1).
    destruct (setlen_spec s1 (zlen l) Htok ltac:(rewrite Hw1; lia)) as (Ht' & Ety' & El' & Eb' & Ea').
    assert (Hwl : 0 <= zlen l < 2 ^ width (sdssetlen s1 (zlen l))) by (unfold width; rewrite Ety', Hty1; lia).
    destruct (setalloc_spec _ (zlen l) Ht' Hwl) as (Ht2 & Ety2 & El2 & Eb2 & Ea2).
    assert (Ea3 : sdsalloc (sdssetalloc (sdssetlen s1 (zlen l)) (zlen l)) = zlen l).
    { rewrite Ea2, Ea', Ety'. by destruct (sdstype s1 =? 0). }
    assert (Hr2 : repr (sdssetalloc (sdssetlen s1 (zlen l)) (zlen l)) l).
    { constructor; [done|by rewrite El2, El'| | |].
      - rewrite Ea3, Ety2. unfold width in Hwl. lia.
      - exists []. rewrite Eb2, Eb', Ea3. split; [done|]. change (zlen (@nil Z)) with 0. lia.
      - rewrite Eb2, Eb'. by apply bytes_nul. }
    eexists. split; [done|]. split; [done|]. apply Hav; [done|]. lia.
Qed.

(** *** Comparison *)
Fixpoint lex_cmp (a b : list Z) : Z :=
  match a, b with
  | [], [] => 0
  | [], _ => -1
  | _, [] => 1
  | x :: a, y :: b => if x <? y then -1 else if y <? x then 1 else lex_cmp a b
  end.

Lemma memcmp_lex a b :
  let n := Nat.min (length a) (length b) in
  let c := memcmp (take n a) (take n b) in
  lex_cmp a b = if c =? 0 then (if zlen a >? zlen b then 1 else if zlen a <? zlen b then -1 else 0) else c.
Proof.
  revert b. induction a as [|x a IH]; intros [|y b]; simpl; try done.
  destruct (x <? y); [done|]. destruct (y <? x); [done|]. rewrite IH. cbv zeta.
  destruct (_ =? 0); [|done]. rewrite !Z.gtb_ltb, !zlen_cons. zcase; lia.
Qed.

Lemma cmp_spec s1 s2 l1 l2 : repr s1 l1 -> repr s2 l2 -> sdscmp s1 s2 = Some (lex_cmp l1 l2).
Proof.
  intros H1 H2. unfold sdscmp. rewrite (r_len _ _ H1), (r_len _ _ H2). cbv zeta.
  destruct (r_buf _ _ H1) as (r1 & -> & _), (r_buf _ _ H2) as (r2 & -> & _).
  pose proof (zlen_nonneg l1). pose proof (zlen_nonneg l2).
  assert (Hm : (if zlen l1 <? zlen l2 then zlen l1 else zlen l2) = Z.of_nat (Nat.min (length l1) (length l2)))
    by (unfold zlen in *; zcase; lia).
  rewrite Hm, !load_take by (unfold zlen in *; lia). cbn [mbind option_bind]. rewrite Nat2Z.id. f_equal.
  symmetry. apply memcmp_lex.
Qed.

Lemma strlen_spec (l rest : list Z) :
  c_strlen (l ++ 0 :: rest) = Some (zlen (takewhile (fun c => negb (c =? 0)) l)).
Proof.
  induction l as [|c l IH]; [done|]. simpl. destruct (Z.eqb_spec c 0); [done|]. simpl.
  rewrite IH. cbn [mbind option_bind]. by rewrite zlen_cons.
Qed.

Lemma updatelen_spec s l :
  repr s l -> exists s', sdsupdatelen s = Some s' /\ repr s' (takewhile (fun c => negb (c =? 0)) l).
Proof.
  intros Hr. unfold sdsupdatelen. destruct (r_buf _ _ Hr) as (rest & Eb & Hal). rewrite Eb, strlen_spec.
  cbn [mbind option_bind]. eexists. split; [done|]. set (p := takewhile _ l).
  pose proof (take_dropwhile (fun c => negb (c =? 0)) l) as Etd. fold p in Etd. pose proof (zlen_nonneg p).
  destruct (r_alloc _ _ Hr) as [Ha1 Ha2]. pose proof (r_bytes _ _ Hr) as Hok.
  assert (Hz : exists r, buf s = p ++ 0 :: r).
  { rewrite Eb, <- Etd, <- app_assoc. destruct (dropwhile _ l) as [|c m] eqn:Ed; [by exists rest|].
    apply dropwhile_head in Ed. destruct (Z.eqb_spec c 0) as [->|]; [|done]. by eexists. }
  destruct Hz as [r Er]. assert (Hlen : zlen l + zlen rest = zlen p + zlen r).
  { apply (f_equal zlen) in Eb. rewrite Er, !zlen_app, !zlen_cons in Eb. lia. }
  assert (Hp : zlen p <= zlen l) by (rewrite <- Etd, zlen_app; pose proof (zlen_nonneg (dropwhile (fun c => negb (c =? 0)) l)); lia).
  apply (repr_setlen s p r); [apply Hr|done|unfold width; lia|done|done|]. unfold width. lia.
Qed.
End SdsProofs.

(** ** The interface as a sequence of operations *)
Inductive sds_op :=
| OpCat (t : list Z)
| OpCpy (t : list Z)
| OpRange (start e : Z)
| OpTrim (cset : list Z)
| OpGrowzero (len : Z)
| OpRead (n : Z) (w : list Z)
| OpMapchars (from to : list Z)
| OpTolower
| OpToupper
| OpClear
| OpUpdatelen
| OpDup
| OpRemoveFree.

Definition sds_step (junk : nat -> Z) (s : sds) (op : sds_op) : option sds :=
  match op with
  | OpCat t => sdscatlen junk s t (zlen t)
  | OpCpy t => sdscpylen junk s t (zlen t)
  | OpRange start e => sdsrange s start e
  | OpTrim cset => sdstrim s cset
  | OpGrowzero len => sdsgrowzero junk s len
  | OpRead n w => sds_read junk s n w
  | OpMapchars from to => sdsmapchars s from to
  | OpTolower => sdstolower s
  | OpToupper => sdstoupper s
  | OpClear => sdsclear s
  | OpUpdatelen => sdsupdatelen s
  | OpDup => sdsdup junk s
  | OpRemoveFree => sdsRemoveFreeSpace junk s
  end.

Fixpoint sds_run (junk : nat -> Z) (s : sds) (ops : list sds_op) : option sds :=
  match ops with
  | [] => Some s
  | op :: ops => s ← sds_step junk s op; sds_run junk s ops
  end.

(** The specification, on plain byte strings. *)
Definition spec_step (l : list Z) (op : sds_op) : list Z :=
  match op with
  | OpCat t => l ++ t
  | OpCpy t => t
  | OpRange start e => spec_range l start e
  | OpTrim cset => spec_trim (in_cset cset) l
  | OpGrowzero len => l ++ replicate (Z.to_nat len - length l) 0
  | OpRead _ w => l ++ w
  | OpMapchars from to => map (mapchar from to) l
  | OpTolower => map tolower l
  | OpToupper => map toupper l
  | OpClear => []
  | OpUpdatelen => takewhile (fun c => negb (c =? 0)) l
  | OpDup | OpRemoveFree => l
  end.

(** The arguments a caller may pass, and how much memory they ask for. *)
Definition op_ok (op : sds_op) : Prop :=
  match op with
  | OpCat t | OpCpy t => bytes_ok t
  | OpRange start e => in_s 64 start /\ in_s 64 e
  | OpRead n w => 0 < n /\ zlen w <= n /\ bytes_ok w
  | OpMapchars _ to => bytes_ok to
  | _ => True
  end.

Definition op_cost (op : sds_op) : Z :=
  match op with
  | OpCat t | OpCpy t => zlen t
  | OpGrowzero len => Z.max 0 len
  | OpRead n _ => n
  | _ => 0
  end.

Fixpoint ops_cost (ops : list sds_op) : Z :=
  match ops with [] => 0 | op :: ops => op_cost op + ops_cost ops end.

Lemma zlen_take_le (l : list Z) n : zlen (take n l) <= zlen l.
Proof. unfold zlen. rewrite length_take. lia. Qed.

Lemma zlen_dropwhile f (l : list Z) : zlen (dropwhile f l) <= zlen l.
Proof.
  induction l as [|c l IH]; [done|]. simpl. destruct (f c); rewrite ?zlen_cons; lia.
Qed.

Lemma zlen_takewhile f (l : list Z) : zlen (takewhile f l) <= zlen l.
Proof. induction l as [|c l IH]; [done|]. simpl. destruct (f c); rewrite ?zlen_cons in *; [lia|]. pose proof (zlen_nonneg l). unfold zlen at 1; simpl; lia. Qed.

Lemma spec_step_len l op : op_ok op -> zlen (spec_step l op) <= zlen l + op_cost op.
Proof.
  pose proof (zlen_nonneg l). destruct op; simpl; intros Hok; rewrite ?zlen_app; try lia.
  - unfold spec_range. pose proof (zlen_take_le l (Z.to_nat (norm_index (zlen l) e + 1))).
    unfold zlen in *. rewrite length_drop. lia.
  - unfold spec_trim. unfold zlen. rewrite length_reverse. fold (zlen l).
    pose proof (zlen_dropwhile (in_cset cset) (reverse (dropwhile (in_cset cset) l))) as H1.
    pose proof (zlen_dropwhile (in_cset cset) l). unfold zlen in *. rewrite length_reverse in H1. lia.
  - rewrite zlen_replicate. unfold zlen in *. lia.
  - unfold zlen. rewrite length_map. lia.
  - unfold zlen. rewrite length_map. lia.
  - unfold zlen. rewrite length_map. lia.
  - change (zlen (@nil Z)) with 0. lia.
  - pose proof (zlen_takewhile (fun c => negb (c =? 0)) l). lia.
Qed.

Lemma take_zlen (t : list Z) : take (Z.to_nat (zlen t)) t = t.
Proof. apply take_ge. unfold zlen. lia. Qed.

Lemma mapchar_ok from to c : bytes_ok to -> byte_ok c -> byte_ok (mapchar from to c).
Proof.
  intros Ht. revert from. induction Ht as [|t to Ht _ IH]; intros [|f from] Hc; simpl; auto.
  destruct (c =? f); auto.
Qed.

Lemma case_ok c : byte_ok c -> byte_ok (tolower c) /\ byte_ok (toupper c).
Proof.
  unfold byte_ok, tolower, toupper, isupper, islower. intros Hc.
  split; destruct (_ && _) eqn:E; zb; lia.
Qed.

Lemma sds_step_spec junk s l op :
  repr s l -> op_ok op -> zlen l + op_cost op < 2 ^ 62 ->
  exists s', sds_step junk s op = Some s' /\ repr s' (spec_step l op).
Proof.
  intros Hr Hok Hc. pose proof (zlen_nonneg l). destruct op; simpl in *.
  - pose proof (zlen_nonneg t). destruct (catlen_spec junk s l t (zlen t) Hr ltac:(lia) Hok Hc) as (s' & E & Hr').
    rewrite take_zlen in Hr'. eauto.
  - pose proof (zlen_nonneg t). destruct (cpylen_spec junk s l t (zlen t) Hr ltac:(lia) Hok ltac:(lia)) as (s' & E & Hr').
    rewrite take_zlen in Hr'. eauto.
  - apply range_spec; [done|apply Hok|apply Hok|lia].
  - by apply trim_spec.
  - apply growzero_spec; [done|lia].
  - destruct Hok as (? & ? & ?). by apply read_spec.
  - apply maploop_repr; [done|]. intros. by apply mapchar_ok.
  - apply maploop_repr; [done|]. intros. by apply case_ok.
  - apply maploop_repr; [done|]. intros. by apply case_ok.
  - by eapply clear_spec.
  - by apply updatelen_spec.
  - apply dup_spec; [done|lia].
  - destruct (removefree_spec junk s l Hr ltac:(lia)) as (s' & E & Hr' & _). eauto.
Qed.

Lemma op_cost_nonneg op : op_ok op -> 0 <= op_cost op.
Proof. destruct op; simpl; intros; try (apply zlen_nonneg); lia. Qed.

Lemma sds_run_spec junk ops : forall s l,
  repr s l -> Forall op_ok ops -> zlen l + ops_cost ops < 2 ^ 62 ->
  exists s', sds_run junk s ops = Some s' /\ repr s' (fold_left spec_step ops l).
Proof.
  induction ops as [|op ops IH]; intros s l Hr Hall Hc; [by exists s|].
  apply Forall_cons in Hall as [Hok Hall]. simpl in Hc.
  assert (Hrest : 0 <= ops_cost ops).
  { clear -Hall. induction Hall as [|o os Ho _ IH]; simpl; [lia|]. pose proof (op_cost_nonneg o Ho). lia. }
  simpl. destruct (sds_step_spec junk s l op Hr Hok ltac:(lia)) as (s1 & -> & Hr1). cbn [mbind option_bind].
  apply (IH s1 _ Hr1 Hall). pose proof (spec_step_len l op Hok). lia.
Qed.

(** C7: sds.c implements byte strings.  Any sequence of appends, copies,
    substrings, trims, zero-filled growth, reads into the free space, case
    and character mappings, clears, duplications and removals of free space,
    starting from [sdsnewlen], never accesses memory outside the allocation,
    always leaves a terminated string whose header (of whatever width)
    records its length and allocation, and gives the content the same
    operations give on plain byte strings. *)
Theorem sds_implements_strings junk t ops :
  bytes_ok t -> Forall op_ok ops -> zlen t + ops_cost ops < 2 ^ 62 ->
  exists s0 s, sdsnewlen junk (Init t) (zlen t) = Some s0 /\ sds_run junk s0 ops = Some s /\
    repr s (fold_left spec_step ops t).
Proof.
  intros Ht Hall Hc. pose proof (zlen_nonneg t).
  assert (Hrest : 0 <= ops_cost ops).
  { clear -Hall. induction Hall as [|o os Ho _ IH]; simpl; [lia|]. pose proof (op_cost_nonneg o Ho). lia. }
  destruct (newlen_spec junk (Init t) (zlen t)) as (s0 & l & E & Hr & Hl & c & Ec).
  - lia.
  - intros bs [= <-]. split; [lia|done].
  - assert (c = []) as -> by (apply zlen_zero; apply (f_equal zlen) in Ec; rewrite zlen_app in Ec; lia).
    rewrite app_nil_r in Ec. subst l.
    destruct (sds_run_spec junk ops s0 t Hr Hall Hc) as (s & Es & Hrs). eauto.
Qed.

Lemma sds_implements_strings_witness :
  exists s0 s, sdsnewlen (fun _ => 170) (Init [32; 97; 98]) (zlen [32; 97; 98]) = Some s0 /\
    sds_run (fun _ => 170) s0 [OpCat (replicate 300 120); OpTrim [32]; OpRange 1 (-297); OpGrowzero 8; OpToupper] = Some s /\
    repr s [66; 88; 88; 88; 88; 0; 0; 0].
Proof.
  destruct (sds_implements_strings (fun _ => 170) [32; 97; 98]
    [OpCat (replicate 300 120); OpTrim [32]; OpRange 1 (-297); OpGrowzero 8; OpToupper]) as (s0 & s & E0 & E & Hr).
  - repeat constructor; unfold byte_ok; lia.
  - apply Forall_cons_2; [apply Forall_replicate; unfold byte_ok; lia|]. apply Forall_cons_2; [exact I|].
    apply Forall_cons_2; [unfold op_ok, in_s; lia|]. do 2 (apply Forall_cons_2; [exact I|]). apply Forall_nil_2.
  - vm_compute. reflexivity.
  - exists s0, s. split; [exact E0|]. split; [exact E|]. vm_compute in Hr. exact Hr.
Defined.

(** [sdsMakeRoomFor] returns a string with the same content and at least
    [addlen] free bytes, whatever the old and the new header types are, so a
    write of [addlen] bytes behind the string is inside the allocation. *)
Theorem sdsMakeRoomFor_correct junk s l addlen :
  repr s l -> 0 <= addlen -> zlen l + addlen < 2 ^ 62 ->
  exists s', sdsMakeRoomFor junk s addlen = Some s' /\ repr s' l /\ addlen <= sdsavail s' /\
    forall w, zlen w = addlen -> is_Some (store (buf s') (sdslen s') w).
Proof.
  intros Hr Ha Hn. destruct (makeroom_spec junk s l addlen Hr Ha Hn) as (s' & E & Hr' & Hroom).
  exists s'. split; [done|]. split; [done|]. split; [rewrite (avail_spec s' l Hr'); lia|].
  intros w Hw. destruct (r_buf _ _ Hr') as (rest & Eb & Hal). pose proof (zlen_nonneg l). unfold store.
  rewrite (r_len _ _ Hr'), Hw, (proj2 (Z.leb_le 0 (zlen l))) by lia.
  rewrite (proj2 (Z.leb_le _ _)); [eauto|]. rewrite Eb, zlen_app, zlen_cons. lia.
Qed.

Lemma sdsMakeRoomFor_witness :
  exists s s', sdsnewlen (fun _ => 170) (Init [97]) (zlen [97]) = Some s /\
    sdsMakeRoomFor (fun _ => 170) s 200 = Some s' /\ repr s' [97] /\ 200 <= sdsavail s'.
Proof.
  destruct (newlen_spec (fun _ => 170) (Init [97]) (zlen [97])) as (s & l & E & Hr & Hl & c & Ec).
  - vm_compute. split; [discriminate|reflexivity].
  - intros bs [= <-]. split; [vm_compute; discriminate|]. repeat constructor; unfold byte_ok; lia.
  - assert (l = [97]) as -> by (destruct l as [|x [|]]; [discriminate Hl|injection Ec as -> _; done|
      apply (f_equal length) in Ec; simpl in Ec; rewrite length_app in Ec; lia]).
    destruct (sdsMakeRoomFor_correct (fun _ => 170) s [97] 200 Hr) as (s' & E' & Hr' & Hav & _); [lia|vm_compute; reflexivity|].
    exists s, s'. auto.
Defined.

(** The order of byte strings: a proper prefix is smaller, otherwise the
    first difference decides. *)
Definition bytes_lt (a b : list Z) : Prop :=
  exists p, (a = p /\ exists y q, b = p ++ y :: q) \/
            (exists x y q r, a = p ++ x :: q /\ b = p ++ y :: r /\ x < y).

Lemma lex_cmp_spec a b :
  (lex_cmp a b = 0 /\ a = b) \/ (lex_cmp a b = -1 /\ bytes_lt a b) \/ (lex_cmp a b = 1 /\ bytes_lt b a).
Proof.
  revert b. induction a as [|x a IH]; intros [|y b]; simpl; [by left| | |].
  - right. left. split; [done|]. exists []. left. split; [done|]. by exists y, b.
  - right. right. split; [done|]. exists []. left. split; [done|]. by exists x, a.
  - destruct (Z.ltb_spec x y).
    { right. left. split; [done|]. exists []. right. by exists x, y, a, b. }
    destruct (Z.ltb_spec y x).
    { right. right. split; [done|]. exists []. right. by exists y, x, b, a. }
    assert (x = y) as -> by lia.
    assert (Hc : forall u v, bytes_lt u v -> bytes_lt (y :: u) (y :: v)).
    { intros u v [p [[-> (z & q & ->)]|(c & d & q & r & -> & -> & ?)]]; exists (y :: p); [left|right].
      - split; [done|]. by exists z, q.
      - by exists c, d, q, r. }
    destruct (IH b) as [[-> ->]|[[-> Hl]|[-> Hl]]]; [by left|right; left; auto|right; right; auto].
Qed.

(** [sdscmp] is the lexicographic comparison of the contents: 0 exactly
    for equal strings, negative (positive) when the first is smaller
    (greater), a proper prefix being smaller. *)
Theorem sdscmp_correct s1 s2 l1 l2 :
  repr s1 l1 -> repr s2 l2 ->
  exists c, sdscmp s1 s2 = Some c /\
    ((c = 0 /\ l1 = l2) \/ (c < 0 /\ bytes_lt l1 l2) \/ (c > 0 /\ bytes_lt l2 l1)).
Proof.
  intros H1 H2. exists (lex_cmp l1 l2). split; [by apply cmp_spec|].
  destruct (lex_cmp_spec l1 l2) as [[-> ?]|[[-> ?]|[-> ?]]]; [left|right; left|right; right]; split; (done || lia).
Qed.

Lemma sdscmp_witness :
  exists s1 s2 c, sdsnewlen (fun _ => 0) (Init [97]) 1 = Some s1 /\ sdsnewlen (fun _ => 0) (Init [97; 0]) 2 = Some s2 /\
    sdscmp s1 s2 = Some c /\ c < 0.
Proof.
  assert (H1 : exists s, sdsnewlen (fun _ => 0) (Init [97]) 1 = Some s /\ repr s [97]).
  { eexists. split; [vm_compute; reflexivity|]. constructor; [split; vm_compute; intuition discriminate|reflexivity|
      vm_compute; intuition discriminate|exists []; split; [reflexivity|vm_compute; discriminate]|
      repeat constructor; vm_compute; intuition discriminate]. }
  assert (H2 : exists s, sdsnewlen (fun _ => 0) (Init [97; 0]) 2 = Some s /\ repr s [97; 0]).
  { eexists. split; [vm_compute; reflexivity|]. constructor; [split; vm_compute; intuition discriminate|reflexivity|
      vm_compute; intuition discriminate|exists []; split; [reflexivity|vm_compute; discriminate]|
      repeat constructor; vm_compute; intuition discriminate]. }
  destruct H1 as (s1 & E1 & R1), H2 as (s2 & E2 & R2).
  destruct (sdscmp_correct s1 s2 [97] [97; 0] R1 R2) as (c & Ec & Hc). exists s1, s2, c.
  split; [exact E1|]. split; [exact E2|]. split; [exact Ec|].
  destruct Hc as [[_ H]|[[H _]|[_ (p & [(<- & y & q & H)|(x & y & q & r & H1 & H2 & H)])]]]; [discriminate|exact H| |].
  - apply (f_equal length) in H. simpl in H. lia.
  - destruct p as [|? [|? [|? p]]]; simpl in *; try discriminate; simplify_eq; lia.
Defined.
