(* ===== verification/SdsText.v ===== *)
(** * sds.c: numbers, formatting, splitting and quoting

    [sdsll2str]/[sdsull2str] against the decimal notation of Util;
    [sdscatvprintf] with its growing buffer; [sdssplitlen]/[sdsjoinsds];
    [sdscatrepr]/[sdssplitargs], the quoting of the inline protocol, the
    configuration file and MONITOR. *)
From S2P Require Import Prelude Util Sds.

Definition SDS_LLSTR_SIZE : Z := 21.

(** [do { *p++ = '0'+(v%10); v /= 10; } while(v)]. *)
Fixpoint ll_digits (fuel : nat) (m : list Z) (p v : Z) : option (list Z * Z) :=
  match fuel with
  | O => None
  | S fuel =>
      m ← store m p [48 + v mod 10];
      let v := v / 10 in
      if v =? 0 then Some (m, p + 1) else ll_digits fuel m (p + 1) v
  end.

(** [while(s < p) { aux = *s; *s = *p; *p = aux; s++; p--; }]. *)
Fixpoint rev_inplace (fuel : nat) (m : list Z) (s p : Z) : option (list Z) :=
  match fuel with
  | O => None
  | S fuel =>
      if s <? p then
        aux ← load1 m s;
        c ← load1 m p;
        m ← store m s [c];
        m ← store m p [aux];
        rev_inplace fuel m (s + 1) (p - 1)
      else Some m
  end.

(** The buffer after the call and the returned length. *)
Definition sdsll2str (s : list Z) (value : Z) : option (list Z * Z) :=
  let v := u64 (if value <? 0 then s64 (- value) else value) in
  '(m, p) ← ll_digits 20 s 0 v;
  '(m, p) ← (if value <? 0 then m ← store m p [45]; Some (m, p + 1) else Some (m, p));
  let l := p in
  m ← store m p [0];
  m ← rev_inplace 21 m 0 (p - 1);
  Some (m, l).

Definition sdsull2str (s : list Z) (v : Z) : option (list Z * Z) :=
  '(m, p) ← ll_digits 20 s 0 v;
  let l := p in
  m ← store m p [0];
  m ← rev_inplace 21 m 0 (p - 1);
  Some (m, l).

Definition hex_digit_to_int (c : Z) : Z :=
  if isdigit c then c - 48
  else if (97 <=? c) && (c <=? 102) then c - 87
  else if (65 <=? c) && (c <=? 70) then c - 55
  else 0.

Definition is_hex_digit (c : Z) : bool :=
  isdigit c || ((97 <=? c) && (c <=? 102)) || ((65 <=? c) && (c <=? 70)).

(** [*(p+i)] in a NUL-terminated string. *)
Definition cat (p : list Z) (i : nat) : Z := default 0 (p !! i).

(** Blanks are skipped up to the terminator. *)
Fixpoint skip_blanks (p : list Z) : list Z :=
  match p with
  | c :: p' => if negb (c =? 0) && isspace c then skip_blanks p' else p
  | [] => []
  end.

Definition unescape (c : Z) : Z :=
  if c =? 110 then 10
  else if c =? 114 then 13
  else if c =? 116 then 9
  else if c =? 98 then 8
  else if c =? 97 then 7
  else c.

(** The outcome of scanning a token: the [err] label, or the token and the
    rest of the line. *)
Inductive tok_res (A : Type) := TErr | TOk (cur : A) (p : list Z).
Arguments TErr {A}.
Arguments TOk {A}.

Section SdsText.
  Context (junk : nat -> Z).

Definition sdsfromlonglong (value : Z) : option sds :=
  '(b, len) ← sdsll2str (s_malloc junk SDS_LLSTR_SIZE) value;
  sdsnewlen junk (Init b) len.

(** [vsnprintf(buf, buflen, fmt, ap)] where the formatted text is [out]. *)
Definition vsnprintf (b : list Z) (buflen : Z) (out : list Z) : option (list Z) :=
  store b 0 (take (Z.to_nat (buflen - 1)) out ++ [0]).

(** [while(1)]: a buffer two times bigger until the text fits. *)
Fixpoint vprintf_loop (fuel : nat) (b : list Z) (buflen : Z) (out : list Z) : option (list Z) :=
  match fuel with
  | O => None
  | S fuel =>
      b ← store b (buflen - 2) [0];
      b ← vsnprintf b buflen out;
      c ← load1 b (buflen - 2);
      if negb (c =? 0) then
        let buflen := u64 (buflen * 2) in
        vprintf_loop fuel (s_malloc junk buflen) buflen out
      else Some b
  end.

(** [fmtlen] is [strlen(fmt)]. *)
Definition sdscatvprintf (s : sds) (fmtlen : Z) (out : list Z) : option sds :=
  let buflen := u64 (fmtlen * 2) in
  let buflen := if buflen >? 1024 then buflen else 1024 in
  b ← vprintf_loop 64 (s_malloc junk buflen) buflen out;
  sdscat junk s b.

(** The [for] loop of [sdssplitlen]; a token stored beyond the array of
    [slots] pointers would be an overflow. *)
Fixpoint split_loop (fuel : nat) (s : list Z) (len : Z) (sep : list Z) (seplen j start slots : Z)
    (tokens : list sds) : option (list sds) :=
  match fuel with
  | O => None
  | S fuel =>
      if j <? len - (seplen - 1) then
        let slots := if slots <? zlen tokens + 2 then slots * 2 else slots in
        c ← load1 s j;
        c0 ← load1 sep 0;
        w ← load s j seplen;
        w0 ← load sep 0 seplen;
        if ((seplen =? 1) && (c =? c0)) || (memcmp w w0 =? 0) then
          t ← sdsnewlen junk (Init (drop (Z.to_nat start) s)) (j - start);
          if zlen tokens <? slots then
            split_loop fuel s len sep seplen (j + seplen - 1 + 1) (j + seplen) slots (tokens ++ [t])
          else None
        else split_loop fuel s len sep seplen (j + 1) start slots tokens
      else
        t ← sdsnewlen junk (Init (drop (Z.to_nat start) s)) (len - start);
        if zlen tokens <? slots then Some (tokens ++ [t]) else None
  end.

(** [Some None] is the [NULL] result, [Some (Some tokens)] the array. *)
Definition sdssplitlen (s : list Z) (len : Z) (sep : list Z) (seplen : Z) : option (option (list sds)) :=
  if (seplen <? 1) || (len <? 0) then Some None
  else if len =? 0 then Some (Some [])
  else r ← split_loop (S (Z.to_nat len)) s len sep seplen 0 0 5 []; Some (Some r).

(** The [for] loops of [sdsjoin] and [sdsjoinsds]. *)
Fixpoint joinsds_loop (join : sds) (argv : list sds) (sep : list Z) (seplen : Z) : option sds :=
  match argv with
  | [] => Some join
  | a :: argv =>
      join ← sdscatsds junk join a;
      join ← match argv with [] => Some join | _ => sdscatlen junk join sep seplen end;
      joinsds_loop join argv sep seplen
  end.
Definition sdsjoinsds (argv : list sds) (sep : list Z) (seplen : Z) : option sds :=
  join ← sdsempty junk; joinsds_loop join argv sep seplen.

Fixpoint join_loop (join : sds) (argv : list (list Z)) (sep : list Z) : option sds :=
  match argv with
  | [] => Some join
  | a :: argv =>
      join ← sdscat junk join a;
      join ← match argv with [] => Some join | _ => sdscat junk join sep end;
      join_loop join argv sep
  end.
Definition sdsjoin (argv : list (list Z)) (sep : list Z) : option sds :=
  join ← sdsempty junk; join_loop join argv sep.

(** ["%02x"] of a byte. *)
Definition hexdigit (n : Z) : Z := if n <? 10 then 48 + n else 87 + n.
Definition fmt_02x (c : Z) : list Z := [hexdigit (c / 16); hexdigit (c mod 16)].

(** [while(len--)] of [sdscatrepr]; ["\\%c"], ["%c"] and ["\\x%02x"] are the
    formats of its [sdscatprintf] calls. *)
Fixpoint repr_loop (s : sds) (p : list Z) : option sds :=
  match p with
  | [] => Some s
  | c :: p =>
      s ← (if (c =? 92) || (c =? 34) then sdscatvprintf s 3 [92; c]
           else if c =? 10 then sdscatlen junk s [92; 110] 2
           else if c =? 13 then sdscatlen junk s [92; 114] 2
           else if c =? 9 then sdscatlen junk s [92; 116] 2
           else if c =? 7 then sdscatlen junk s [92; 97] 2
           else if c =? 8 then sdscatlen junk s [92; 98] 2
           else if isprint c then sdscatvprintf s 2 [c]
           else sdscatvprintf s 6 ([92; 120] ++ fmt_02x c));
      repr_loop s p
  end.
Definition sdscatrepr (s : sds) (p : list Z) : option sds :=
  s ← sdscatlen junk s [34] 1;
  s ← repr_loop s p;
  sdscatlen junk s [34] 1.

(** [while(!done)] of [sdssplitargs]; [*p] is [cat p 0], [p++] is [drop 1 p]
    (guarded at the end of the body, so that a NUL is left in place). *)
Definition pnext (p : list Z) : list Z := if cat p 0 =? 0 then p else drop 1 p.

Fixpoint token_loop (fuel : nat) (inq insq : bool) (current : sds) (p : list Z) : option (tok_res sds) :=
  match fuel with
  | O => None
  | S fuel =>
      let c := cat p 0 in
      if inq then
        if (c =? 92) && (cat p 1 =? 120) && is_hex_digit (cat p 2) && is_hex_digit (cat p 3) then
          let byte := u8 (hex_digit_to_int (cat p 2) * 16 + hex_digit_to_int (cat p 3)) in
          current ← sdscatlen junk current [byte] 1;
          token_loop fuel inq insq current (pnext (drop 3 p))
        else if (c =? 92) && negb (cat p 1 =? 0) then
          let p := drop 1 p in
          current ← sdscatlen junk current [unescape (cat p 0)] 1;
          token_loop fuel inq insq current (pnext p)
        else if c =? 34 then
          if negb (cat p 1 =? 0) && negb (isspace (cat p 1)) then Some TErr
          else Some (TOk current (pnext p))
        else if c =? 0 then Some TErr
        else current ← sdscatlen junk current [c] 1; token_loop fuel inq insq current (pnext p)
      else if insq then
        if (c =? 92) && (cat p 1 =? 39) then
          current ← sdscatlen junk current [39] 1;
          token_loop fuel inq insq current (pnext (drop 1 p))
        else if c =? 39 then
          if negb (cat p 1 =? 0) && negb (isspace (cat p 1)) then Some TErr
          else Some (TOk current (pnext p))
        else if c =? 0 then Some TErr
        else current ← sdscatlen junk current [c] 1; token_loop fuel inq insq current (pnext p)
      else
        if (c =? 32) || (c =? 10) || (c =? 13) || (c =? 9) || (c =? 0) then Some (TOk current (pnext p))
        else if c =? 34 then token_loop fuel true insq current (pnext p)
        else if c =? 39 then token_loop fuel inq true current (pnext p)
        else current ← sdscatlen junk current [c] 1; token_loop fuel inq insq current (pnext p)
  end.

(** [while(1)] of [sdssplitargs]; [Some None] is the [NULL] result. *)
Fixpoint args_loop (fuel : nat) (p : list Z) (vector : list sds) : option (option (list sds)) :=
  match fuel with
  | O => None
  | S fuel =>
      let p := skip_blanks p in
      if negb (cat p 0 =? 0) then
        current ← sdsempty junk;
        r ← token_loop (S (length p)) false false current p;
        match r with
        | TErr => Some None
        | TOk current p => args_loop fuel p (vector ++ [current])
        end
      else Some (Some vector)
  end.

(** [line]: the characters before the terminator. *)
Definition sdssplitargs (line : list Z) : option (option (list sds)) :=
  args_loop (S (length line)) line [].
End SdsText.

(** ** Numbers *)
Lemma ll_digits_spec fuel v pre hole :
  0 <= v < 10 ^ 20 -> v < 10 ^ Z.of_nat fuel -> (0 < fuel)%nat -> zlen (udec v) <= zlen hole ->
  exists rest, ll_digits fuel (pre ++ hole) (zlen pre) v =
    Some (pre ++ reverse (udec v) ++ rest, zlen pre + zlen (udec v)) /\
    zlen rest = zlen hole - zlen (udec v) /\ (bytes_ok hole -> bytes_ok rest).
Proof.
  revert v pre hole. induction fuel as [|fuel IH]; intros v pre hole Hv Hf Hpos Hh; [lia|]. simpl ll_digits.
  assert (Hlast : 0 <= v / 10 < 10 ^ 20) by (split; [apply Z.div_pos; lia|apply Z.div_lt_upper_bound; lia]).
  destruct (Z.lt_ge_cases v 10) as [Hs|Hs].
  - rewrite udec_small in * by lia. change (zlen [48 + v]) with 1 in *.
    destruct (zlen_pos_cons hole ltac:(lia)) as (x & hole' & ->). rewrite store1_app by done. cbn [mbind option_bind].
    rewrite Z.div_small, Z.mod_small by lia. exists hole'. rewrite zlen_cons. split; [done|]. split; [lia|].
    intros Hok. apply Forall_cons in Hok as [_ ?]. done.
  - rewrite (udec_step v) in * by lia. rewrite zlen_app in *. change (zlen [48 + v mod 10]) with 1 in *.
    pose proof (udec_pos (v / 10) Hlast).
    destruct (zlen_pos_cons hole ltac:(lia)) as (x & hole' & ->). rewrite zlen_cons in Hh.
    rewrite store1_app by done. cbn [mbind option_bind].
    assert (1 <= v / 10) by (apply Z.div_le_lower_bound; lia).
    rewrite (proj2 (Z.eqb_neq _ _)) by lia.
    destruct (IH (v / 10) (pre ++ [48 + v mod 10]) hole') as (rest & E & Hr & Hok); [lia| | |lia|].
    + rewrite Nat2Z.inj_succ, Z.pow_succ_r in Hf by lia. apply Z.div_lt_upper_bound; lia.
    + destruct fuel; [simpl in Hf; lia|lia].
    + rewrite zlen_app in E. change (zlen [48 + v mod 10]) with 1 in E. rewrite <- app_assoc in E. cbn [app] in E.
      rewrite E. exists rest. split.
      * f_equal. f_equal; [|lia]. rewrite reverse_app, <- !app_assoc. done.
      * rewrite zlen_cons. split; [lia|]. intros Hb. apply Forall_cons in Hb as [_ Hb]. auto.
Qed.

Lemma rev_inplace_spec fuel : forall pre mid post,
  (length mid < 2 * fuel)%nat ->
  rev_inplace fuel (pre ++ mid ++ post) (zlen pre) (zlen pre + zlen mid - 1) = Some (pre ++ reverse mid ++ post).
Proof.
  induction fuel as [|fuel IH]; intros pre mid post Hf; [lia|]. simpl rev_inplace.
  destruct mid as [|x mid].
  { change (zlen (@nil Z)) with 0. rewrite (proj2 (Z.ltb_ge _ _)) by lia. done. }
  destruct mid as [|y mid _] using rev_ind.
  { change (zlen [x]) with 1. rewrite (proj2 (Z.ltb_ge _ _)) by lia. done. }
  rewrite !zlen_cons, zlen_app. change (zlen [y]) with 1. pose proof (zlen_nonneg mid).
  rewrite (proj2 (Z.ltb_lt _ _)) by lia. cbn [app]. rewrite (load1_app pre x _ (zlen pre)) by done. cbn [mbind option_bind].
  replace (pre ++ x :: (mid ++ [y]) ++ post) with ((pre ++ x :: mid) ++ y :: post)
    by (rewrite <- !app_assoc; cbn [app]; done).
  rewrite load1_app by (rewrite zlen_app, zlen_cons; lia). cbn [mbind option_bind].
  rewrite <- app_assoc. cbn [app]. rewrite store1_app by done. cbn [mbind option_bind].
  replace (pre ++ y :: mid ++ y :: post) with ((pre ++ y :: mid) ++ y :: post) by (rewrite <- app_assoc; done).
  rewrite store1_app by (rewrite zlen_app, zlen_cons; lia). cbn [mbind option_bind].
  specialize (IH (pre ++ [y]) mid (x :: post)). rewrite zlen_app in IH. change (zlen [y]) with 1 in IH.
  rewrite <- !app_assoc in *. cbn [app] in *.
  replace (zlen pre + (1 + (zlen mid + 1)) - 1 - 1) with (zlen pre + 1 + zlen mid - 1) by lia.
  rewrite IH.
  - f_equal. f_equal. rewrite reverse_cons, reverse_app, <- !app_assoc. done.
  - simpl in Hf. rewrite length_app in Hf. simpl in Hf. lia.
Qed.

Lemma ll_tail rd hole l : (length rd < 42)%nat -> l = reverse rd -> 1 <= zlen hole -> bytes_ok hole ->
  exists rest, (m ← store (rd ++ hole) (zlen rd) [0]; m ← rev_inplace 21 m 0 (zlen rd - 1); Some (m, zlen rd)) =
    Some (l ++ 0 :: rest, zlen l) /\ zlen rest = zlen hole - 1 /\ bytes_ok rest.
Proof.
  intros Hlen -> Hh Hok. destruct (zlen_pos_cons hole ltac:(lia)) as (x & rest & ->). exists rest.
  rewrite store1_app by done. cbn [mbind option_bind].
  pose proof (rev_inplace_spec 21 [] rd (0 :: rest) ltac:(lia)) as E. change (zlen (@nil Z)) with 0 in E.
  rewrite Z.add_0_l in E. cbn [app] in E. rewrite E. cbn [mbind option_bind]. apply Forall_cons in Hok as [_ Hok].
  rewrite zlen_cons. split; [|split; [lia|done]]. unfold zlen. now rewrite length_reverse.
Qed.

Lemma ull2str_spec b v :
  0 <= v < 2 ^ 64 -> zlen (udec v) < zlen b -> bytes_ok b ->
  exists rest, sdsull2str b v = Some (udec v ++ 0 :: rest, zlen (udec v)) /\ bytes_ok rest.
Proof.
  intros Hv Hb Hok. unfold sdsull2str. pose proof (udec_len20 v Hv) as Hl.
  destruct (ll_digits_spec 20 v [] b) as (rest & E & Hr & Hrok); [plia|plia|lia|lia|].
  change (zlen (@nil Z)) with 0 in E. cbn [app] in E. rewrite Z.add_0_l in E. rewrite E. cbn [mbind option_bind].
  assert (Hz : zlen (reverse (udec v)) = zlen (udec v)) by (unfold zlen; by rewrite length_reverse).
  destruct (ll_tail (reverse (udec v)) rest (udec v)) as (r & E2 & _ & Hrk).
  - rewrite length_reverse. unfold zlen in Hl. lia.
  - by rewrite reverse_involutive.
  - lia.
  - auto.
  - rewrite Hz in E2. exists r. split; [exact E2|done].
Qed.

Lemma ll2str_spec b v :
  in_s 64 v -> zlen (dec v) < zlen b -> bytes_ok b ->
  exists rest, sdsll2str b v = Some (dec v ++ 0 :: rest, zlen (dec v)) /\ bytes_ok rest.
Proof.
  intros Hv Hb Hok. unfold sdsll2str. pose proof (dec_len20 v Hv) as Hl. unfold in_s in Hv. zpow.
  assert (Eabs : u64 (if v <? 0 then s64 (- v) else v) = Z.abs v).
  { destruct (Z.ltb_spec v 0); [|rewrite wrapu_small; plia].
    destruct (Z.eq_dec v (- 2 ^ 63)) as [->|Hne]; [vm_compute; reflexivity|].
    rewrite wraps_small, wrapu_small; unfold in_s; plia. }
  rewrite Eabs. unfold dec in *. assert (Hu : zlen (udec (Z.abs v)) <= 20) by (apply udec_len20; plia).
  destruct (ll_digits_spec 20 (Z.abs v) [] b) as (rest & E & Hr & Hrok); [plia|plia|lia| |].
  { destruct (Z.ltb_spec v 0); [rewrite zlen_cons in Hb|]; rewrite ?Z.abs_neq, ?Z.abs_eq by lia; lia. }
  change (zlen (@nil Z)) with 0 in E. cbn [app] in E. rewrite Z.add_0_l in E. rewrite E. cbn [mbind option_bind].
  assert (Hz : zlen (reverse (udec (Z.abs v))) = zlen (udec (Z.abs v))) by (unfold zlen; by rewrite length_reverse).
  destruct (Z.ltb_spec v 0) as [Hneg|Hpos].
  - rewrite zlen_cons in *. rewrite Z.abs_neq in * by lia.
    destruct (zlen_pos_cons rest ltac:(lia)) as (x & rest' & ->). rewrite zlen_cons in Hr.
    rewrite store1_app by (by rewrite Hz). cbn [mbind option_bind].
    destruct (ll_tail (reverse (udec (- v)) ++ [45]) rest' (45 :: udec (- v))) as (r & E2 & _ & Hrk).
    + rewrite length_app, length_reverse. simpl. unfold zlen in Hu. lia.
    + rewrite reverse_app, reverse_involutive. done.
    + lia.
    + assert (Hx : bytes_ok (x :: rest')) by auto. apply Forall_cons in Hx as [_ ?]. done.
    + rewrite zlen_app, Hz in E2. change (zlen [45]) with 1 in E2. rewrite <- app_assoc in E2. cbn [app] in E2.
      exists r. split; [|done]. rewrite E2. by rewrite zlen_cons.
  - rewrite Z.abs_eq in * by lia. cbn [mbind option_bind].
    destruct (ll_tail (reverse (udec v)) rest (udec v)) as (r & E2 & _ & Hrk).
    + rewrite length_reverse. unfold zlen in Hl. lia.
    + by rewrite reverse_involutive.
    + lia.
    + auto.
    + rewrite Hz in E2. exists r. split; [exact E2|done].
Qed.

(** [sdsll2str], [sdsull2str] and [sdsfromlonglong] write exactly the
    decimal notation of every 64-bit value, the most negative one included,
    inside a buffer of [SDS_LLSTR_SIZE] bytes. *)
Theorem sdsll2str_correct junk v w :
  in_s 64 v -> in_u 64 w ->
  (exists rest, sdsll2str (s_malloc junk SDS_LLSTR_SIZE) v = Some (dec v ++ 0 :: rest, zlen (dec v))) /\
  (exists rest, sdsull2str (s_malloc junk SDS_LLSTR_SIZE) w = Some (udec w ++ 0 :: rest, zlen (udec w))) /\
  (exists s, sdsfromlonglong junk v = Some s /\ repr s (dec v)).
Proof.
  intros Hv Hw. unfold in_u in Hw. destruct (malloc_spec junk SDS_LLSTR_SIZE) as [Hm Hok]; [done|].
  pose proof (dec_len20 v Hv). pose proof (udec_len20 w Hw). unfold SDS_LLSTR_SIZE in *.
  destruct (ll2str_spec (s_malloc junk 21) v Hv ltac:(lia) Hok) as (r1 & E1 & Hr1).
  destruct (ull2str_spec (s_malloc junk 21) w Hw ltac:(lia) Hok) as (r2 & E2 & _).
  split; [eauto|]. split; [eauto|]. unfold sdsfromlonglong. unfold SDS_LLSTR_SIZE. rewrite E1. cbn [mbind option_bind].
  destruct (newlen_spec junk (Init (dec v ++ 0 :: r1)) (zlen (dec v))) as (s & l & E & Hr & Hl & c & Ec).
  - plia.
  - intros bs [= <-]. rewrite zlen_app, zlen_cons. pose proof (zlen_nonneg r1). split; [lia|].
    apply bytes_nul; [apply dec_bytes|done].
  - exists s. split; [done|]. apply app_inj_1 in Ec as [-> _]; [done|]. unfold zlen in Hl. lia.
Qed.

Lemma sdsll2str_witness :
  exists s, sdsfromlonglong (fun _ => 170) (-9223372036854775808) = Some s /\
    repr s (dec (-9223372036854775808)).
Proof.
  apply (sdsll2str_correct (fun _ => 170) (-9223372036854775808) 0);
    [vm_compute; split; [discriminate|reflexivity] | vm_compute; split; [discriminate|reflexivity]].
Defined.

(** ** Formatted output *)
Lemma vprintf_loop_spec junk fuel b buflen out :
  Forall (fun c => 0 < c < 256) out -> zlen b = buflen -> 1024 <= buflen < 2 ^ 63 -> bytes_ok b ->
  zlen out + 2 < 2 ^ 62 -> zlen out + 2 <= buflen * 2 ^ (Z.of_nat fuel - 1) -> (0 < fuel)%nat ->
  exists rest, vprintf_loop junk fuel b buflen out = Some (out ++ 0 :: rest) /\ bytes_ok rest.
Proof.
  intros Hout. revert b buflen. induction fuel as [|fuel IH]; intros b buflen Hb Hl Hok Hn Hf Hp; [lia|].
  simpl vprintf_loop. unfold vsnprintf. pose proof (zlen_nonneg out).
  destruct (split_at b (buflen - 2) ltac:(lia)) as (a & t & -> & Ha & Ht).
  destruct (zlen_pos_cons t ltac:(lia)) as (x & t1 & ->). rewrite zlen_cons in Ht.
  destruct (zlen_pos_cons t1 ltac:(lia)) as (y & t2 & ->). rewrite zlen_cons in Ht.
  assert (t2 = []) as -> by (apply zlen_zero; lia).
  rewrite store1_app by done. cbn [mbind option_bind].
  assert (Haok : bytes_ok a /\ byte_ok y).
  { apply Forall_app in Hok as [? [_ [? _]%Forall_cons]%Forall_cons]. done. }
  destruct (Z.le_gt_cases (zlen out) (buflen - 2)) as [Hfit|Hbig].
  - rewrite take_ge by (unfold zlen in *; lia).
    destruct (Z.eq_dec (zlen out) (buflen - 2)) as [Heq|Hne].
    + change (a ++ [0; y]) with (a ++ [0] ++ [y]). rewrite app_assoc, store_head
        by (done || rewrite !zlen_app; change (zlen [0]) with 1; lia).
      cbn [mbind option_bind]. rewrite <- app_assoc. cbn [app]. rewrite load1_app by lia. cbn [mbind option_bind Z.eqb negb].
      exists [y]. split; [done|]. repeat constructor; apply Haok.
    + destruct (split_at a (zlen out + 1) ltac:(lia)) as (h & r & -> & Hh & Hr).
      rewrite <- app_assoc, store_head by (done || rewrite zlen_app; change (zlen [0]) with 1; lia).
      cbn [mbind option_bind]. rewrite app_assoc. rewrite load1_app by (rewrite !zlen_app in *; change (zlen [0]) with 1; lia).
      cbn [mbind option_bind Z.eqb negb]. exists (r ++ [0; y]). split; [by rewrite <- !app_assoc|].
      destruct Haok as [Haok Hy]. apply Forall_app in Haok as [_ Hrok]. apply Forall_app. split; [done|].
      repeat constructor; try apply Hy; unfold byte_ok; lia.
  - destruct (split_at out (buflen - 1) ltac:(lia)) as (o1 & o2 & -> & Ho1 & _).
    replace (Z.to_nat (buflen - 1)) with (length o1) by (unfold zlen in *; lia). rewrite take_app_length.
    destruct (split_at o1 (buflen - 2) ltac:(lia)) as (o3 & o4 & -> & Ho3 & Ho4).
    destruct (zlen_pos_cons o4 ltac:(lia)) as (z & o5 & ->). rewrite zlen_cons in Ho4.
    assert (o5 = []) as -> by (apply zlen_zero; lia).
    rewrite <- (app_nil_r (a ++ [0; y])), store_head
      by (done || rewrite !zlen_app; change (zlen [0; y]) with 2; change (zlen [z]) with 1; change (zlen [0]) with 1; lia).
    cbn [mbind option_bind]. rewrite <- !app_assoc. cbn [app]. rewrite load1_app by lia. cbn [mbind option_bind].
    assert (0 < z < 256) as Hz.
    { apply Forall_app in Hout as [[_ [? _]%Forall_cons]%Forall_app _]. done. }
    rewrite (proj2 (Z.eqb_neq z 0)) by lia. cbn [negb]. rewrite zlen_app in *.
    destruct fuel as [|fuel]; [simpl in Hf; lia|].
    assert (Hbound : buflen * 2 < 2 ^ 63) by lia. rewrite wrapu_small by lia.
    destruct (malloc_spec junk (buflen * 2) ltac:(lia)) as [Hml Hmok].
    destruct (IH (s_malloc junk (buflen * 2)) (buflen * 2) Hml ltac:(lia) Hmok Hn) as (rest & E & Hr).
    + replace (Z.of_nat (S (S fuel)) - 1) with (Z.succ (Z.of_nat (S fuel) - 1)) in Hf by lia.
      rewrite Z.pow_succ_r in Hf by lia. lia.
    + lia.
    + exists rest. split; [|done]. rewrite <- app_assoc in E. exact E.
Qed.

Lemma takewhile_all f (l : list Z) : Forall (fun c => f c = true) l -> takewhile f l = l.
Proof. induction 1 as [|c l Hc _ IH]; [done|]. simpl. rewrite Hc. by f_equal. Qed.

Lemma printf_spec junk s l fmtlen out :
  repr s l -> Forall (fun c => 0 < c < 256) out -> 0 <= fmtlen < 2 ^ 61 -> zlen l + zlen out + 2 < 2 ^ 62 ->
  exists s', sdscatvprintf junk s fmtlen out = Some s' /\ repr s' (l ++ out).
Proof.
  intros Hr Hout Hf Hn. unfold sdscatvprintf. pose proof (zlen_nonneg l). pose proof (zlen_nonneg out).
  rewrite wrapu_small by lia. cbv zeta.
  set (buflen := if fmtlen * 2 >? 1024 then fmtlen * 2 else 1024).
  assert (Hb : 1024 <= buflen < 2 ^ 62) by (unfold buflen; rewrite Z.gtb_ltb; zcase; lia).
  clearbody buflen.
  destruct (malloc_spec junk buflen ltac:(lia)) as [Hml Hmok].
  destruct (vprintf_loop_spec junk 64 (s_malloc junk buflen) buflen out Hout Hml ltac:(lia) Hmok) as (rest & -> & Hrok);
    [lia| |lia|].
  { change (2 ^ (Z.of_nat 64 - 1)) with (2 ^ 63). lia. }
  cbn [mbind option_bind]. unfold sdscat. rewrite strlen_spec.
  rewrite takewhile_all.
  2:{ eapply Forall_impl; [exact Hout|]. intros c Hc. cbv beta in *. rewrite (proj2 (Z.eqb_neq c 0)); [done|lia]. }
  cbn [mbind option_bind].
  assert (Hob : bytes_ok out) by (eapply Forall_impl; [exact Hout|]; unfold byte_ok; cbv beta; lia).
  destruct (catlen_spec junk s l (out ++ 0 :: rest) (zlen out) Hr) as (s' & E & Hr').
  - rewrite zlen_app, zlen_cons. pose proof (zlen_nonneg rest). lia.
  - by apply bytes_nul.
  - lia.
  - exists s'. split; [done|]. unfold zlen in Hr'. rewrite Nat2Z.id, take_app_length in Hr'. done.
Qed.

(** [sdscatprintf] appends the whole formatted text, however long: the
    retry loop of [sdscatvprintf], which doubles the buffer until the byte
    before the last is still NUL, ends and never truncates. *)
Theorem sdscatvprintf_correct junk s l fmtlen out :
  repr s l -> Forall (fun c => 0 < c < 256) out -> 0 <= fmtlen < 2 ^ 61 -> zlen l + zlen out + 2 < 2 ^ 62 ->
  exists s', sdscatvprintf junk s fmtlen out = Some s' /\ repr s' (l ++ out).
Proof. apply printf_spec. Qed.

Lemma empty_spec junk : exists s, sdsempty junk = Some s /\ repr s [].
Proof.
  destruct (newlen_spec junk (Init [0]) 0) as (s & l & E & Hr & Hl & _).
  - lia.
  - intros bs [= <-]. split; [done|]. repeat constructor; unfold byte_ok; lia.
  - apply zlen_zero in Hl as ->. eauto.
Qed.

Lemma sdscatvprintf_witness :
  exists s s', sdsempty (fun _ => 170) = Some s /\ sdscatvprintf (fun _ => 170) s 2 (replicate 3000 97) = Some s' /\
    repr s' (replicate 3000 97).
Proof.
  destruct (empty_spec (fun _ => 170)) as (s & E & Hr).
  destruct (sdscatvprintf_correct (fun _ => 170) s [] 2 (replicate 3000 97) Hr) as (s' & E' & Hr').
  - apply Forall_replicate. lia.
  - lia.
  - vm_compute. reflexivity.
  - exists s, s'. auto.
Defined.

(** ** Splitting and joining *)

(** [split_of sep l ls]: [ls] are the pieces of [l] between the leftmost,
    non-overlapping occurrences of [sep]. *)
Inductive split_of (sep : list Z) : list Z -> list (list Z) -> Prop :=
| split_last p : (forall i, ~ sep `prefix_of` drop i p) -> split_of sep p [p]
| split_cons p rest ls :
    (forall i, (i < length p)%nat -> ~ sep `prefix_of` drop i (p ++ sep ++ rest)) ->
    split_of sep rest ls -> split_of sep (p ++ sep ++ rest) (p :: ls).

Fixpoint join_spec (sep : list Z) (ls : list (list Z)) : list Z :=
  match ls with
  | [] => []
  | p :: ls' => p ++ match ls' with [] => [] | _ => sep end ++ join_spec sep ls'
  end.

Lemma split_of_join sep l ls : split_of sep l ls -> join_spec sep ls = l.
Proof.
  induction 1 as [p _|p rest ls _ Hs IH]; simpl; [by rewrite app_nil_r|].
  rewrite IH. destruct Hs; done.
Qed.

Lemma memcmp_eq a b : length a = length b -> memcmp a b = 0 <-> a = b.
Proof.
  revert b. induction a as [|x a IH]; intros [|y b] Hl; simpl; try done.
  destruct (Z.ltb_spec x y); [split; [lia|intros [= -> _]; lia]|].
  destruct (Z.ltb_spec y x); [split; [lia|intros [= -> _]; lia]|].
  assert (x = y) as -> by lia. rewrite IH by (simpl in Hl; lia). split; [by intros ->|by intros [= ->]].
Qed.

Lemma newlen_mid junk pre mid post :
  bytes_ok mid -> bytes_ok post -> zlen mid < 2 ^ 63 ->
  exists t, sdsnewlen junk (Init (drop (Z.to_nat (zlen pre)) (pre ++ mid ++ post))) (zlen mid) = Some t /\ repr t mid.
Proof.
  intros Hm Hp Hl. unfold zlen at 1. rewrite Nat2Z.id, drop_app_length. pose proof (zlen_nonneg mid). pose proof (zlen_nonneg post).
  destruct (newlen_spec junk (Init (mid ++ post)) (zlen mid)) as (t & l & E & Hr & Hz & c & Ec).
  - lia.
  - intros bs [= <-]. rewrite zlen_app. split; [lia|by apply Forall_app].
  - exists t. split; [done|]. apply app_inj_1 in Ec as [-> _]; [done|]. unfold zlen in Hz. lia.
Qed.

Lemma hit_test (w sep : list Z) c c0 s0 w0 :
  w = c :: w0 -> sep = c0 :: s0 -> length w = length sep ->
  ((zlen sep =? 1) && (c =? c0)) || (memcmp w sep =? 0) = bool_decide (w = sep).
Proof.
  intros -> -> Hl. pose proof (memcmp_eq (c :: w0) (c0 :: s0) Hl) as Hm.
  destruct (bool_decide_reflect (c :: w0 = c0 :: s0)) as [E|E].
  - rewrite (proj2 Hm E). by rewrite orb_true_r.
  - rewrite (proj2 (Z.eqb_neq (memcmp _ _) 0)) by tauto. rewrite orb_false_r.
    destruct (Z.eqb_spec c c0) as [->|]; [|by rewrite andb_false_r]. rewrite andb_true_r. apply Z.eqb_neq.
    rewrite zlen_cons. intros Hz. apply E. f_equal.
    destruct s0; [destruct w0; [done|simpl in Hl; lia]|rewrite zlen_cons in Hz; pose proof (zlen_nonneg s0); lia].
Qed.

Lemma split_loop_spec junk l tl sep :
  bytes_ok l -> bytes_ok tl -> sep <> [] -> zlen l < 2 ^ 62 -> forall fuel pre cur suf slots tokens,
  l = pre ++ cur ++ suf -> (length suf < fuel)%nat -> 5 <= slots -> zlen tokens + 1 <= slots ->
  (forall i, (i < length cur)%nat -> ~ sep `prefix_of` drop i (cur ++ suf)) ->
  exists toks ls, split_loop junk fuel (l ++ tl) (zlen l) sep (zlen sep) (zlen pre + zlen cur) (zlen pre) slots tokens =
    Some (tokens ++ toks) /\ Forall2 repr toks ls /\ split_of sep (cur ++ suf) ls.
Proof.
  intros Hl Htl Hsep Hn. pose proof (zlen_nonneg l).
  assert (Hsp : 1 <= zlen sep) by (destruct sep; [done|]; rewrite zlen_cons; pose proof (zlen_nonneg sep); lia).
  induction fuel as [|fuel IH]; intros pre cur suf slots tokens El Hf Hs1 Hs2 Hinv; [lia|].
  simpl split_loop. pose proof (zlen_nonneg pre). pose proof (zlen_nonneg cur). pose proof (zlen_nonneg suf).
  assert (Ez : zlen l = zlen pre + zlen cur + zlen suf) by (rewrite El, !zlen_app; lia).
  assert (Hbytes : bytes_ok cur /\ bytes_ok suf /\ bytes_ok (suf ++ tl)).
  { rewrite El in Hl. apply Forall_app in Hl as [_ [? ?]%Forall_app]. split; [done|]. split; [done|]. by apply Forall_app. }
  destruct (Z.ltb_spec (zlen pre + zlen cur) (zlen l - (zlen sep - 1))) as [Hlt|Hge].
  - destruct (split_at suf (zlen sep) ltac:(lia)) as (w & rest & Es & Hw & Hrest).
    destruct w as [|c w0]; [change (zlen (@nil Z)) with 0 in Hw; lia|]. destruct sep as [|c0 s0]; [done|].
    assert (Eall : l ++ tl = (pre ++ cur) ++ (c :: w0) ++ (rest ++ tl)) by (rewrite El, Es, <- !app_assoc; done).
    assert (L1 : load1 (l ++ tl) (zlen pre + zlen cur) = Some c)
      by (rewrite Eall; apply (load1_app (pre ++ cur)); by rewrite zlen_app).
    assert (L2 : load (l ++ tl) (zlen pre + zlen cur) (zlen (c0 :: s0)) = Some (c :: w0))
      by (rewrite Eall; apply load_app; [by rewrite zlen_app|done]).
    rewrite L1. cbn [mbind option_bind]. change (load1 (c0 :: s0) 0) with (Some c0). cbn [mbind option_bind].
    rewrite L2. cbn [mbind option_bind].
    pose proof (load_prefix (c0 :: s0) [] (zlen (c0 :: s0)) eq_refl) as Elp. rewrite app_nil_r in Elp.
    rewrite Elp. cbn [mbind option_bind].
    rewrite (hit_test (c :: w0) (c0 :: s0) c c0 s0 w0) by (done || unfold zlen in Hw; lia).
    set (slots' := if slots <? zlen tokens + 2 then slots * 2 else slots).
    assert (Hsl : 5 <= slots' /\ zlen tokens + 2 <= slots') by (unfold slots'; zcase; lia).
    destruct (bool_decide_reflect (c :: w0 = c0 :: s0)) as [Ew|Ew].
    + rewrite Ew in *. assert (Eall2 : l ++ tl = pre ++ cur ++ (suf ++ tl)) by (rewrite El, <- !app_assoc; done).
      replace (zlen pre + zlen cur - zlen pre) with (zlen cur) by lia.
      destruct (newlen_mid junk pre cur (suf ++ tl)) as (t & Et & Ht); [apply Hbytes|apply Hbytes|lia|].
      rewrite <- Eall2 in Et. rewrite Et.
      cbn [mbind option_bind]. rewrite (proj2 (Z.ltb_lt _ _)) by lia.
      destruct (IH (pre ++ cur ++ c0 :: s0) [] rest slots' (tokens ++ [t])) as (toks & ls & E & Hr & Hsplit).
      * rewrite El, Es, <- !app_assoc. done.
      * rewrite Es, length_app in Hf. simpl in Hf. lia.
      * lia.
      * rewrite zlen_app. change (zlen [t]) with 1. lia.
      * simpl. lia.
      * rewrite !zlen_app in E. change (zlen (@nil Z)) with 0 in E.
        replace (zlen pre + (zlen cur + zlen (c0 :: s0)) + 0) with (zlen pre + zlen cur + zlen (c0 :: s0) - 1 + 1) in E by lia.
        replace (zlen pre + (zlen cur + zlen (c0 :: s0))) with (zlen pre + zlen cur + zlen (c0 :: s0)) in E by lia.
        rewrite E. exists (t :: toks), (cur :: ls). split; [by rewrite <- app_assoc|]. split; [by constructor|].
        rewrite Es in *. by constructor.
    + replace (zlen pre + zlen cur + 1) with (zlen pre + zlen (cur ++ [c])) by (rewrite zlen_app; change (zlen [c]) with 1; lia).
      destruct (IH pre (cur ++ [c]) (w0 ++ rest) slots' tokens) as (toks & ls & E & Hr & Hsplit).
      * rewrite El, Es, <- !app_assoc. done.
      * rewrite Es, length_app in Hf. simpl in Hf. rewrite length_app. lia.
      * lia.
      * lia.
      * intros i Hi. rewrite <- app_assoc. cbn [app]. rewrite length_app in Hi. simpl in Hi. rewrite Es in Hinv.
        destruct (decide (i < length cur)%nat) as [|Hi2]; [by apply Hinv|].
        assert (i = length cur) as -> by lia. rewrite drop_app_length.
        change (c :: w0 ++ rest) with ((c :: w0) ++ rest). intros [k Hk]. apply app_inj_1 in Hk as [Hk _]; [done|].
        unfold zlen in Hw. lia.
      * rewrite E. exists toks, ls. split; [done|]. split; [done|]. rewrite Es. rewrite <- app_assoc in Hsplit. exact Hsplit.
  - assert (Eall2 : l ++ tl = pre ++ (cur ++ suf) ++ tl) by (rewrite El, <- !app_assoc; done).
    replace (zlen l - zlen pre) with (zlen (cur ++ suf)) by (rewrite zlen_app; lia).
    destruct (newlen_mid junk pre (cur ++ suf) tl) as (t & Et & Ht).
    { apply Forall_app. split; apply Hbytes. }
    { done. }
    { rewrite zlen_app. lia. }
    rewrite <- Eall2 in Et. rewrite Et. cbn [mbind option_bind]. rewrite (proj2 (Z.ltb_lt _ _)) by lia.
    exists [t], [cur ++ suf]. split; [done|]. split; [constructor; [exact Ht|constructor]|]. apply split_last. intros i Hp.
    destruct (decide (i < length cur)%nat) as [Hi|Hi]; [by apply (Hinv i)|].
    apply prefix_length in Hp. rewrite length_drop, length_app in Hp. unfold zlen in *. lia.
Qed.

Lemma joinsds_spec junk sep toks ls : forall join l,
  Forall2 repr toks ls -> repr join l -> bytes_ok sep -> zlen l + zlen (join_spec sep ls) < 2 ^ 62 ->
  exists s, joinsds_loop junk join toks sep (zlen sep) = Some s /\ repr s (l ++ join_spec sep ls).
Proof.
  intros join l HF. revert join l. induction HF as [|t p toks ls Ht HF IH]; intros join l Hj Hs Hn.
  { exists join. split; [done|]. by rewrite app_nil_r. }
  cbn [joinsds_loop join_spec] in *. rewrite !zlen_app in Hn. unfold sdscatsds. pose proof (zlen_nonneg l).
  set (m := match ls with [] => [] | _ => sep end) in *.
  pose proof (zlen_nonneg m). pose proof (zlen_nonneg (join_spec sep ls)). pose proof (zlen_nonneg p).
  destruct (r_buf _ _ Ht) as (rest & Eb & _). rewrite (r_len _ _ Ht).
  destruct (catlen_spec junk join l (buf t) (zlen p) Hj) as (j1 & -> & Hj1).
  - rewrite Eb, zlen_app, zlen_cons. pose proof (zlen_nonneg rest). lia.
  - apply Ht.
  - lia.
  - cbn [mbind option_bind]. rewrite Eb in Hj1. unfold zlen in Hj1. rewrite Nat2Z.id, take_app_length in Hj1.
    assert (exists j2, match toks with [] => Some j1 | _ => sdscatlen junk j1 sep (zlen sep) end = Some j2 /\
      repr j2 ((l ++ p) ++ m)) as (j2 & -> & Hj2).
    { destruct HF as [|t2 p2 toks ls ? ?]; [exists j1; by rewrite app_nil_r|].
      pose proof (zlen_nonneg sep). destruct (catlen_spec junk j1 (l ++ p) sep (zlen sep) Hj1) as (j2 & E & Hj2);
        [lia|done|rewrite zlen_app; unfold m in *; lia|]. rewrite take_zlen in Hj2. eauto. }
    cbn [mbind option_bind]. destruct (IH j2 _ Hj2 Hs) as (s & E & Hr).
    { rewrite !zlen_app. lia. }
    exists s. split; [done|]. by rewrite <- !app_assoc in *.
Qed.

(** [sdssplitlen] cuts a string at the leftmost, non-overlapping
    occurrences of the separator, never writes beyond its growing array of
    tokens, and [sdsjoinsds] with the same separator gives the string back. *)
Theorem sdssplitlen_correct junk l tl sep :
  bytes_ok l -> bytes_ok tl -> bytes_ok sep -> sep <> [] -> 0 < zlen l < 2 ^ 62 ->
  exists toks ls s, sdssplitlen junk (l ++ tl) (zlen l) sep (zlen sep) = Some (Some toks) /\
    Forall2 repr toks ls /\ split_of sep l ls /\
    sdsjoinsds junk toks sep (zlen sep) = Some s /\ repr s l.
Proof.
  intros Hl Htl Hsb Hsep Hn. unfold sdssplitlen, sdsjoinsds.
  assert (Hsp : 1 <= zlen sep) by (destruct sep; [done|]; rewrite zlen_cons; pose proof (zlen_nonneg sep); lia).
  rewrite (proj2 (Z.ltb_ge (zlen sep) 1)), (proj2 (Z.ltb_ge (zlen l) 0)), (proj2 (Z.eqb_neq (zlen l) 0)) by lia. simpl orb.
  destruct (split_loop_spec junk l tl sep Hl Htl Hsep ltac:(lia) (S (Z.to_nat (zlen l))) [] [] l 5 []) as (toks & ls & E & HF & Hs).
  - done.
  - unfold zlen. lia.
  - lia.
  - done.
  - simpl. lia.
  - change (zlen (@nil Z)) with 0 in E. change (0 + 0) with 0 in E. rewrite E. cbn [mbind option_bind app].
    destruct (empty_spec junk) as (j0 & -> & Hj0). cbn [mbind option_bind].
    destruct (joinsds_spec junk sep toks ls j0 [] HF Hj0 Hsb) as (s & Es & Hr).
    + rewrite (split_of_join _ _ _ Hs). change (zlen (@nil Z)) with 0. cbn [app]. lia.
    + cbn [app] in *. rewrite (split_of_join _ _ _ Hs) in Hr. exists toks, ls, s. auto.
Qed.

Lemma sdssplitlen_witness :
  exists toks s, sdssplitlen (fun _ => 0) ([97; 45; 45; 45; 98] ++ []) 5 [45; 45] 2 = Some (Some toks) /\
    length toks = 2%nat /\ sdsjoinsds (fun _ => 0) toks [45; 45] 2 = Some s /\ repr s [97; 45; 45; 45; 98].
Proof.
  destruct (sdssplitlen_correct (fun _ => 0) [97; 45; 45; 45; 98] [] [45; 45]) as (toks & ls & s & E & HF & Hs & Ej & Hr).
  - repeat constructor; unfold byte_ok; lia.
  - constructor.
  - repeat constructor; unfold byte_ok; lia.
  - discriminate.
  - vm_compute. split; reflexivity.
  - exists toks, s. split; [exact E|]. split; [|split; [exact Ej|exact Hr]].
    vm_compute in E. injection E as <-. reflexivity.
Defined.

(** ** Quoting *)

(** The escaped form of a byte, and the quoted form of a string. *)
Definition esc (c : Z) : list Z :=
  if (c =? 92) || (c =? 34) then [92; c]
  else if c =? 10 then [92; 110]
  else if c =? 13 then [92; 114]
  else if c =? 9 then [92; 116]
  else if c =? 7 then [92; 97]
  else if c =? 8 then [92; 98]
  else if isprint c then [c]
  else [92; 120] ++ fmt_02x c.
Definition quote (p : list Z) : list Z := [34] ++ concat (map esc p) ++ [34].

(** A property of all bytes is checked by evaluation. *)
Lemma forall_bytes (P : Z -> bool) :
  forallb P (map Z.of_nat (seq 0 256)) = true -> forall c, byte_ok c -> P c = true.
Proof.
  intros Hf c Hc. unfold byte_ok in Hc. rewrite forallb_forall in Hf. apply Hf. apply in_map_iff.
  exists (Z.to_nat c). split; [lia|]. apply in_seq. lia.
Qed.

Lemma esc_bytes c : byte_ok c -> Forall (fun c => 0 < c < 256) (esc c).
Proof.
  intros Hc. assert (H := forall_bytes (fun c => forallb (fun x => (0 <? x) && (x <? 256)) (esc c))
    ltac:(vm_compute; reflexivity) c Hc). cbv beta in H. rewrite forallb_forall in H.
  apply Forall_forall. intros x Hx. specialize (H x (proj1 (list_elem_of_In _ _) Hx)). zb. lia.
Qed.

Lemma esc_length c : (1 <= length (esc c) <= 4)%nat.
Proof. unfold esc. repeat (destruct (_ : bool); [simpl; lia|]). simpl. lia. Qed.

Lemma quote_length p : zlen (quote p) <= 4 * zlen p + 2.
Proof.
  unfold quote. rewrite !zlen_app. change (zlen [34]) with 1.
  assert (zlen (concat (map esc p)) <= 4 * zlen p).
  { induction p as [|c p IH]; [done|]. simpl. rewrite zlen_app, zlen_cons. pose proof (esc_length c). unfold zlen at 1. lia. }
  lia.
Qed.

Lemma repr_loop_spec junk p : forall s l,
  repr s l -> bytes_ok p -> zlen l + zlen (concat (map esc p)) + 2 < 2 ^ 62 ->
  exists s', repr_loop junk s p = Some s' /\ repr s' (l ++ concat (map esc p)).
Proof.
  induction p as [|c p IH]; intros s l Hr Hp Hn; [exists s; split; [done|]; by rewrite app_nil_r|].
  apply Forall_cons in Hp as [Hc Hp]. simpl in Hn. rewrite zlen_app in Hn. cbn [repr_loop].
  pose proof (esc_bytes c Hc) as He. pose proof (zlen_nonneg l). pose proof (zlen_nonneg (concat (map esc p))).
  assert (Hstep : exists s1,
    (if (c =? 92) || (c =? 34) then sdscatvprintf junk s 3 [92; c]
     else if c =? 10 then sdscatlen junk s [92; 110] 2
     else if c =? 13 then sdscatlen junk s [92; 114] 2
     else if c =? 9 then sdscatlen junk s [92; 116] 2
     else if c =? 7 then sdscatlen junk s [92; 97] 2
     else if c =? 8 then sdscatlen junk s [92; 98] 2
     else if isprint c then sdscatvprintf junk s 2 [c]
     else sdscatvprintf junk s 6 ([92; 120] ++ fmt_02x c)) = Some s1 /\ repr s1 (l ++ esc c)).
  { assert (Hl2 : zlen l + zlen (esc c) + 2 < 2 ^ 62) by lia. clear IH Hn.
    assert (Hcat : forall a b, bytes_ok [a; b] -> zlen l + zlen [a; b] + 2 < 2 ^ 62 ->
      exists s1, sdscatlen junk s [a; b] 2 = Some s1 /\ repr s1 (l ++ [a; b])).
    { intros a b Hab Hl3. change (zlen [a; b]) with 2 in Hl3.
      destruct (catlen_spec junk s l [a; b] 2 Hr ltac:(done) Hab ltac:(lia)) as (s1 & E & Hr1). eauto. }
    assert (Hb2 : forall a b, Forall (fun c => 0 < c < 256) [a; b] -> bytes_ok [a; b])
      by (intros a b Hab; eapply Forall_impl; [exact Hab|]; unfold byte_ok; cbv beta; lia).
    unfold esc in *.
    destruct ((c =? 92) || (c =? 34)); [apply printf_spec; (done || lia)|].
    destruct (c =? 10); [apply Hcat; auto|]. destruct (c =? 13); [apply Hcat; auto|].
    destruct (c =? 9); [apply Hcat; auto|]. destruct (c =? 7); [apply Hcat; auto|].
    destruct (c =? 8); [apply Hcat; auto|].
    destruct (isprint c); apply printf_spec; (done || lia). }
  destruct Hstep as (s1 & -> & Hr1). cbn [mbind option_bind].
  destruct (IH s1 (l ++ esc c) Hr1 Hp) as (s' & E & Hr').
  - rewrite zlen_app. lia.
  - exists s'. split; [done|]. simpl. by rewrite app_assoc.
Qed.

Lemma cat1_spec junk s l c :
  repr s l -> byte_ok c -> zlen l + 1 < 2 ^ 62 ->
  exists s', sdscatlen junk s [c] 1 = Some s' /\ repr s' (l ++ [c]).
Proof.
  intros Hr Hc Hn. destruct (catlen_spec junk s l [c] 1 Hr ltac:(done)) as (s' & E & Hr'); [constructor; [done|constructor]|done|].
  eauto.
Qed.

Lemma catrepr_spec junk s l p :
  repr s l -> bytes_ok p -> zlen l + 4 * zlen p + 4 < 2 ^ 62 ->
  exists s', sdscatrepr junk s p = Some s' /\ repr s' (l ++ quote p).
Proof.
  intros Hr Hp Hn. unfold sdscatrepr. pose proof (quote_length p) as Hq. unfold quote in *. rewrite !zlen_app in Hq.
  change (zlen [34]) with 1 in Hq. pose proof (zlen_nonneg (concat (map esc p))). pose proof (zlen_nonneg l).
  destruct (cat1_spec junk s l 34 Hr ltac:(unfold byte_ok; lia) ltac:(lia)) as (s1 & -> & Hr1). cbn [mbind option_bind].
  destruct (repr_loop_spec junk p s1 _ Hr1 Hp) as (s2 & -> & Hr2); [rewrite zlen_app; change (zlen [34]) with 1; lia|].
  cbn [mbind option_bind].
  destruct (cat1_spec junk s2 _ 34 Hr2 ltac:(unfold byte_ok; lia)) as (s3 & -> & Hr3);
    [rewrite !zlen_app; change (zlen [34]) with 1; lia|].
  exists s3. split; [done|]. by rewrite <- !app_assoc in *.
Qed.

(** One escaped byte read back inside double quotes. *)
Lemma token_step junk fuel cur c p :
  byte_ok c ->
  token_loop junk (S fuel) true false cur (esc c ++ p) =
    (cur ← sdscatlen junk cur [c] 1; token_loop junk fuel true false cur p).
Proof.
  intros Hc. unfold esc, byte_ok in *.
  destruct (Z.eqb_spec c 92) as [->|H92]; [reflexivity|]. destruct (Z.eqb_spec c 34) as [->|H34]; [reflexivity|]. simpl orb.
  destruct (Z.eqb_spec c 10) as [->|H10]; [reflexivity|]. destruct (Z.eqb_spec c 13) as [->|H13]; [reflexivity|].
  destruct (Z.eqb_spec c 9) as [->|H9]; [reflexivity|]. destruct (Z.eqb_spec c 7) as [->|H7]; [reflexivity|].
  destruct (Z.eqb_spec c 8) as [->|H8]; [reflexivity|].
  destruct (isprint c) eqn:Ep.
  - unfold isprint in Ep. zb. cbn [app token_loop].
    change (cat (c :: p) 0) with c. rewrite (proj2 (Z.eqb_neq c 92)), (proj2 (Z.eqb_neq c 34)), (proj2 (Z.eqb_neq c 0)) by lia.
    cbn [andb]. destruct (sdscatlen junk cur [c] 1); [|done]. cbn [mbind option_bind]. unfold pnext.
    change (cat (c :: p) 0) with c. rewrite (proj2 (Z.eqb_neq c 0)) by lia. done.
  - unfold fmt_02x. cbn [app token_loop]. change (cat (92 :: _) 0) with 92. change (cat (_ :: 120 :: _) 1) with 120.
    change (cat (92 :: 120 :: hexdigit (c / 16) :: _) 2) with (hexdigit (c / 16)).
    change (cat (92 :: 120 :: _ :: hexdigit (c mod 16) :: _) 3) with (hexdigit (c mod 16)).
    assert (H := forall_bytes (fun c => is_hex_digit (hexdigit (c / 16)) && is_hex_digit (hexdigit (c mod 16)) &&
      (u8 (hex_digit_to_int (hexdigit (c / 16)) * 16 + hex_digit_to_int (hexdigit (c mod 16))) =? c) &&
      negb (hexdigit (c mod 16) =? 0)) ltac:(vm_compute; reflexivity) c Hc). cbv beta in H.
    apply andb_true_iff in H as [[[Ha Hb]%andb_true_iff Hv]%andb_true_iff Hz].
    rewrite Ha, Hb. cbn [Z.eqb andb Pos.eqb]. apply Z.eqb_eq in Hv. rewrite Hv.
    destruct (sdscatlen junk cur [c] 1); [|done]. cbn [mbind option_bind drop]. unfold pnext.
    change (cat (hexdigit (c mod 16) :: p) 0) with (hexdigit (c mod 16)). apply negb_true_iff in Hz. rewrite Hz. done.
Qed.

Lemma token_quoted junk p : forall fuel cur l rest,
  repr cur l -> bytes_ok p -> zlen l + zlen p + 1 < 2 ^ 62 -> (length p < fuel)%nat ->
  (rest = [] \/ exists r, rest = 32 :: r) ->
  exists s, token_loop junk fuel true false cur (concat (map esc p) ++ 34 :: rest) = Some (TOk s rest) /\ repr s (l ++ p).
Proof.
  induction p as [|c p IH]; intros fuel cur l rest Hr Hp Hn Hf Hrest; (destruct fuel as [|fuel]; [simpl in Hf; lia|]).
  - exists cur. rewrite app_nil_r. split; [|done]. destruct Hrest as [->|[r ->]]; reflexivity.
  - apply Forall_cons in Hp as [Hc Hp]. rewrite zlen_cons in Hn. pose proof (zlen_nonneg p). pose proof (zlen_nonneg l).
    simpl concat. rewrite <- app_assoc, token_step by done.
    destruct (cat1_spec junk cur l c Hr Hc ltac:(lia)) as (s1 & -> & Hr1). cbn [mbind option_bind].
    destruct (IH fuel s1 (l ++ [c]) rest Hr1 Hp) as (s & E & Hs);
      [rewrite zlen_app; change (zlen [c]) with 1; lia|simpl in Hf; lia|done|].
    exists s. split; [done|]. by rewrite <- app_assoc in Hs.
Qed.

Lemma args_loop_spec junk args : forall fuel blank vec,
  Forall bytes_ok args -> Forall (fun a => zlen a < 2 ^ 61) args -> (length args < fuel)%nat -> blank = [] \/ blank = [32] ->
  exists toks, args_loop junk fuel (blank ++ join_spec [32] (map quote args)) vec = Some (Some (vec ++ toks)) /\
    Forall2 repr toks args.
Proof.
  induction args as [|a args IH]; intros fuel blank vec Hb Hl Hf Hbl; (destruct fuel as [|fuel]; [simpl in Hf; lia|]).
  - exists []. rewrite (app_nil_r vec). split; [|constructor]. destruct Hbl as [->| ->]; reflexivity.
  - apply Forall_cons in Hb as [Ha Hb]. apply Forall_cons in Hl as [Hla Hl]. cbn [args_loop].
    set (more := match map quote args with [] => [] | _ => [32] end ++ join_spec [32] (map quote args)).
    assert (Ej : join_spec [32] (map quote (a :: args)) = 34 :: concat (map esc a) ++ 34 :: more).
    { cbn [map join_spec]. fold more. unfold quote. rewrite <- !app_assoc. done. }
    assert (Esk : skip_blanks (blank ++ join_spec [32] (map quote (a :: args))) = 34 :: concat (map esc a) ++ 34 :: more).
    { rewrite Ej. destruct Hbl as [->| ->]; reflexivity. }
    rewrite Esk. change (cat (34 :: _) 0) with 34. cbn [Z.eqb negb].
    destruct (empty_spec junk) as (cur & -> & Hcur). cbn [mbind option_bind].
    assert (Hmore : more = [] \/ exists r, more = 32 :: r) by (unfold more; destruct args; [by left|right; by eexists]).
    cbn [token_loop]. change (cat (34 :: _) 0) with 34. cbn [Z.eqb orb Pos.eqb].
    change (pnext (34 :: ?x)) with x.
    destruct (token_quoted junk a (length (34 :: concat (map esc a) ++ 34 :: more)) cur [] more Hcur Ha) as (s & E & Hs).
    + change (zlen (@nil Z)) with 0. lia.
    + simpl. rewrite length_app. simpl.
      assert (length a <= length (concat (map esc a)))%nat.
      { clear. induction a as [|c a IH]; [done|]. simpl. rewrite length_app. pose proof (esc_length c). lia. }
      lia.
    + done.
    + rewrite E. cbn [mbind option_bind].
      destruct (IH fuel (match map quote args with [] => [] | _ => [32] end) (vec ++ [s]) Hb Hl) as (toks & E2 & HF).
      * simpl in Hf. lia.
      * destruct args; auto.
      * fold more in E2. rewrite E2. exists (s :: toks). split; [by rewrite <- app_assoc|]. by constructor.
Qed.

(** C30: [sdssplitargs] reads back what [sdscatrepr] writes, for every byte
    string: a line of quoted arguments separated by spaces is split into
    exactly these arguments (quotes, escapes, control characters and NUL bytes
    included), without error and within the bounds of the loops. *)
Theorem sdssplitargs_sdscatrepr junk args s l p :
  repr s l -> bytes_ok p -> zlen l + 4 * zlen p + 4 < 2 ^ 62 ->
  Forall bytes_ok args -> Forall (fun a => zlen a < 2 ^ 61) args ->
  (exists s', sdscatrepr junk s p = Some s' /\ repr s' (l ++ quote p)) /\
  exists toks, sdssplitargs junk (join_spec [32] (map quote args)) = Some (Some toks) /\ Forall2 repr toks args.
Proof.
  intros Hr Hp Hn Hb Hl. split; [by apply catrepr_spec|]. unfold sdssplitargs.
  destruct (args_loop_spec junk args (S (length (join_spec [32] (map quote args)))) [] [] Hb Hl) as (toks & E & HF).
  - assert (le (length args) (length (join_spec [32] (map quote args)))); [|lia].
    clear. induction args as [|a args IH]; [done|]. simpl. rewrite !length_app. unfold quote at 1. simpl.
    destruct args; simpl in *; lia.
  - by left.
  - exists toks. auto.
Qed.

Lemma sdssplitargs_witness :
  exists toks, sdssplitargs (fun _ => 0) (join_spec [32] (map quote [[97; 0; 34]; []; [255; 10]])) = Some (Some toks) /\
    Forall2 repr toks [[97; 0; 34]; []; [255; 10]].
Proof.
  destruct (empty_spec (fun _ => 0)) as (s & _ & Hr).
  apply (sdssplitargs_sdscatrepr (fun _ => 0) [[97; 0; 34]; []; [255; 10]] s [] []).
  - exact Hr.
  - constructor.
  - vm_compute. reflexivity.
  - repeat constructor; vm_compute; intuition discriminate.
  - repeat constructor; vm_compute; intuition discriminate.
Defined.
