(* ===== verification/Protocol.v ===== *)
(** * networking.c: the request parser

    The client's query buffer is represented by the content of its sds (the
    operations of sds.c used here are the ones Sds.v relates to contents).
    [None] is a failed assertion or an access outside the buffer.  Executing a
    command is behind the interface [Executor], an arbitrary function of the
    state of the server, the arguments and the flags of the client: it can
    block, close or free the client.  A command sees the query buffer nowhere
    but in the text of CLIENT LIST, which is not modelled, nor are module
    command filters, the replication offsets of a master and the log. *)
From Stdlib Require Import Strings.String.
From S2P Require Import Prelude Util Sds SdsText.

Definition C_OK : Z := 0.
Definition C_ERR : Z := -1.
Definition PROTO_INLINE_MAX_SIZE : Z := 1024 * 64.
Definition PROTO_MBULK_BIG_ARG : Z := 1024 * 32.
Definition PROTO_REQ_INLINE : Z := 1.
Definition PROTO_REQ_MULTIBULK : Z := 2.

Definition CLIENT_SLAVE : Z := Z.shiftl 1 0.
Definition CLIENT_MASTER : Z := Z.shiftl 1 1.
Definition CLIENT_MONITOR : Z := Z.shiftl 1 2.
Definition CLIENT_MULTI : Z := Z.shiftl 1 3.
Definition CLIENT_BLOCKED : Z := Z.shiftl 1 4.
Definition CLIENT_CLOSE_AFTER_REPLY : Z := Z.shiftl 1 6.
Definition CLIENT_LUA : Z := Z.shiftl 1 8.
Definition CLIENT_ASKING : Z := Z.shiftl 1 9.
Definition CLIENT_CLOSE_ASAP : Z := Z.shiftl 1 10.
Definition CLIENT_REPLY_SKIP_NEXT : Z := Z.shiftl 1 23.
Definition CLIENT_REPLY_SKIP : Z := Z.shiftl 1 24.
Definition CLIENT_PENDING_READ : Z := Z.shiftl 1 29.
Definition CLIENT_PENDING_COMMAND : Z := Z.shiftl 1 30.
Definition CLIENT_TRACKING_CACHING : Z := Z.shiftl 1 36.

(** Which command ran last, as far as [resetClient] distinguishes. *)
Inductive cmd_proc := CmdNone | CmdAsking | CmdClient | CmdOther.

(** The protocol errors sent to the client. *)
Inductive proto_error :=
| TooBigInline | UnbalancedQuotes | TooBigMbulkCount | InvalidMbulkLength
| TooBigBulkCount | ExpectedDollar (c : Z) | InvalidBulkLength.

(** The fields of [struct client] the parser works on; [reply] is what it
    adds to the output. *)
Record client := mk_client {
  querybuf : list Z;
  qb_pos : Z;
  argv : list (list Z);
  cmd : cmd_proc;
  reqtype : Z;
  multibulklen : Z;
  bulklen : Z;
  cflags : Z;
  repl_ack_time : Z;
  reply : list proto_error;
  module_blocked : bool               (* btype == BLOCKED_MODULE *)
}.

Definition has_flag (c : client) (f : Z) : bool := negb (Z.land (cflags c) f =? 0).
Definition set_querybuf c q p :=
  mk_client q p (argv c) (cmd c) (reqtype c) (multibulklen c) (bulklen c) (cflags c) (repl_ack_time c) (reply c) (module_blocked c).
Definition set_pos c p := set_querybuf c (querybuf c) p.
Definition set_argv c a :=
  mk_client (querybuf c) (qb_pos c) a (cmd c) (reqtype c) (multibulklen c) (bulklen c) (cflags c) (repl_ack_time c) (reply c) (module_blocked c).
Definition set_reqtype c r :=
  mk_client (querybuf c) (qb_pos c) (argv c) (cmd c) r (multibulklen c) (bulklen c) (cflags c) (repl_ack_time c) (reply c) (module_blocked c).
Definition set_mb c n b :=
  mk_client (querybuf c) (qb_pos c) (argv c) (cmd c) (reqtype c) n b (cflags c) (repl_ack_time c) (reply c) (module_blocked c).
Definition set_cflags c f :=
  mk_client (querybuf c) (qb_pos c) (argv c) (cmd c) (reqtype c) (multibulklen c) (bulklen c) f (repl_ack_time c) (reply c) (module_blocked c).
Definition set_ack c t :=
  mk_client (querybuf c) (qb_pos c) (argv c) (cmd c) (reqtype c) (multibulklen c) (bulklen c) (cflags c) t (reply c) (module_blocked c).
Definition addReplyError c e :=
  mk_client (querybuf c) (qb_pos c) (argv c) (cmd c) (reqtype c) (multibulklen c) (bulklen c) (cflags c)
    (repl_ack_time c) (reply c ++ [e]) (module_blocked c).

(** Behind the log lines. *)
Definition setProtocolError (c : client) : client :=
  set_cflags c (Z.lor (cflags c) CLIENT_CLOSE_AFTER_REPLY).
Definition protocol_error (c : client) (e : proto_error) : client := setProtocolError (addReplyError c e).

Definition freeClientArgv (c : client) : client :=
  mk_client (querybuf c) (qb_pos c) [] CmdNone (reqtype c) (multibulklen c) (bulklen c) (cflags c)
    (repl_ack_time c) (reply c) (module_blocked c).

Definition resetClient (c : client) : client :=
  let prevcmd := cmd c in
  let c := freeClientArgv c in
  let c := set_mb (set_reqtype c 0) 0 (-1) in
  let c := if negb (has_flag c CLIENT_MULTI) && negb (match prevcmd with CmdAsking => true | _ => false end)
           then set_cflags c (Z.ldiff (cflags c) CLIENT_ASKING) else c in
  let c := if negb (has_flag c CLIENT_MULTI) && negb (match prevcmd with CmdClient => true | _ => false end)
           then set_cflags c (Z.ldiff (cflags c) CLIENT_TRACKING_CACHING) else c in
  let c := set_cflags c (Z.ldiff (cflags c) CLIENT_REPLY_SKIP) in
  if has_flag c CLIENT_REPLY_SKIP_NEXT then
    let c := set_cflags c (Z.lor (cflags c) CLIENT_REPLY_SKIP) in
    set_cflags c (Z.ldiff (cflags c) CLIENT_REPLY_SKIP_NEXT)
  else c.

(** [strchr] in a NUL-terminated buffer: the offset of the first [ch]. *)
Fixpoint strchr (b : list Z) (ch : Z) : option Z :=
  match b with
  | [] => None
  | c :: b => if c =? ch then Some 0 else if c =? 0 then None else n ← strchr b ch; Some (1 + n)
  end.

(** [querybuf + qb_pos]. *)
Definition unread (c : client) : list Z := drop (Z.to_nat (qb_pos c)) (querybuf c).

(** [getClientType(c) == CLIENT_TYPE_SLAVE]. *)
Definition is_slave (c : client) : bool :=
  negb (has_flag c CLIENT_MASTER) && has_flag c CLIENT_SLAVE && negb (has_flag c CLIENT_MONITOR).

Definition sds_content (s : sds) : list Z := take (Z.to_nat (sdslen s)) (buf s).

Section Parser.
  Context (junk : nat -> Z) (unixtime proto_max_bulk_len : Z).

Definition processInlineBuffer (c : client) : option (client * Z) :=
  match strchr (unread c) 10 with
  | None =>
      Some (if zlen (querybuf c) - qb_pos c >? PROTO_INLINE_MAX_SIZE
            then protocol_error c TooBigInline else c, C_ERR)
  | Some newline =>
      prev ← (if newline =? 0 then Some 0 else load1 (unread c) (newline - 1));
      let '(newline, linefeed_chars) := if negb (newline =? 0) && (prev =? 13) then (newline - 1, 2) else (newline, 1) in
      let querylen := newline in
      aux ← load (unread c) 0 querylen;
      r ← sdssplitargs junk aux;
      match r with
      | None => Some (protocol_error c UnbalancedQuotes, C_ERR)
      | Some args =>
          let c := if (querylen =? 0) && is_slave c then set_ack c unixtime else c in
          let c := set_pos c (qb_pos c + (querylen + linefeed_chars)) in
          Some (set_argv c (map sds_content args), C_OK)
      end
  end.

(** [return C_ERR], [return C_OK], or go on behind the [if]. *)
Inductive mb_res := MReturn (c : client) (rc : Z) | MGoOn (c : client).

(** The line that ends at the first CR: its length, when the LF is there too. *)
Inductive line_res := LNone | LPartial | LLine (newline : Z).
Definition find_line (c : client) : line_res :=
  match strchr (unread c) 13 with
  | None => LNone
  | Some newline => if newline >? zlen (querybuf c) - qb_pos c - 2 then LPartial else LLine newline
  end.

(** [if (c->multibulklen == 0) { ... }]. *)
Definition mb_header (c : client) : option mb_res :=
  if negb (zlen (argv c) =? 0) then None
  else match find_line c with
  | LNone =>
      Some (MReturn (if zlen (querybuf c) - qb_pos c >? PROTO_INLINE_MAX_SIZE
                     then protocol_error c TooBigMbulkCount else c) C_ERR)
  | LPartial => Some (MReturn c C_ERR)
  | LLine newline =>
      c0 ← load1 (unread c) 0;
      if negb (c0 =? 42) then None
      else
        digits ← load (unread c) 1 (newline - 1);
        match string2ll digits with
        | Some ll =>
            if ll >? 1024 * 1024 then Some (MReturn (protocol_error c InvalidMbulkLength) C_ERR)
            else
              let c := set_pos c (qb_pos c + newline + 2) in
              if ll <=? 0 then Some (MReturn c C_OK)
              else Some (MGoOn (set_mb c ll (bulklen c)))
        | None => Some (MReturn (protocol_error c InvalidMbulkLength) C_ERR)
        end
  end.

(** How an iteration of [while(c->multibulklen)] ends. *)
Inductive arg_res := ABreak (c : client) | AReturnErr (c : client) | ANext (c : client).

(** [if (c->bulklen == -1) { ... }]: the bulk length line. *)
Definition mb_bulklen (c : client) : option arg_res :=
  match find_line c with
  | LNone =>
      Some (if zlen (querybuf c) - qb_pos c >? PROTO_INLINE_MAX_SIZE
            then AReturnErr (protocol_error c TooBigBulkCount) else ABreak c)
  | LPartial => Some (ABreak c)
  | LLine newline =>
      c0 ← load1 (unread c) 0;
      if negb (c0 =? 36) then Some (AReturnErr (protocol_error c (ExpectedDollar c0)))
      else
        digits ← load (unread c) 1 (newline - 1);
        match string2ll digits with
        | Some ll =>
            if (ll <? 0) || (ll >? proto_max_bulk_len) then Some (AReturnErr (protocol_error c InvalidBulkLength))
            else
              let c := set_pos c (qb_pos c + newline + 2) in
              let c :=
                if (ll >=? PROTO_MBULK_BIG_ARG) && (zlen (querybuf c) - qb_pos c <=? ll + 2)
                then set_querybuf c (spec_range (querybuf c) (qb_pos c) (-1)) 0 else c in
              Some (ANext (set_mb c (multibulklen c) ll))
        | None => Some (AReturnErr (protocol_error c InvalidBulkLength))
        end
  end.

(** The bulk argument itself. *)
Definition mb_bulk (c : client) : option arg_res :=
  if zlen (querybuf c) - qb_pos c <? bulklen c + 2 then Some (ABreak c)
  else
    c ← (if (qb_pos c =? 0) && (bulklen c >=? PROTO_MBULK_BIG_ARG) && (zlen (querybuf c) =? bulklen c + 2)
         then Some (set_querybuf (set_argv c (argv c ++ [take (Z.to_nat (zlen (querybuf c) - 2)) (querybuf c)])) [] (qb_pos c))
         else arg ← load (unread c) 0 (bulklen c);
              Some (set_pos (set_argv c (argv c ++ [arg])) (qb_pos c + (bulklen c + 2))));
    Some (ANext (set_mb c (multibulklen c - 1) (-1))).

Definition mb_iter (c : client) : option arg_res :=
  r ← (if bulklen c =? -1 then mb_bulklen c else Some (ANext c));
  match r with ANext c => mb_bulk c | _ => Some r end.

Fixpoint mb_loop (fuel : nat) (c : client) : option (client * Z) :=
  match fuel with
  | O => None
  | S fuel =>
      if multibulklen c =? 0 then Some (c, C_OK)
      else
        r ← mb_iter c;
        match r with
        | ABreak c => Some (c, if multibulklen c =? 0 then C_OK else C_ERR)
        | AReturnErr c => Some (c, C_ERR)
        | ANext c => mb_loop fuel c
        end
  end.

(** The assertion [c->multibulklen > 0] stands between the two parts. *)
Definition processMultibulkBuffer (c : client) : option (client * Z) :=
  r ← (if multibulklen c =? 0 then mb_header c else Some (MGoOn c));
  match r with
  | MReturn c rc => Some (c, rc)
  | MGoOn c => if multibulklen c >? 0 then mb_loop (S (Z.to_nat (multibulklen c))) c else None
  end.
End Parser.

(** What processCommand does after the check for QUIT: the command was handled,
    with the new arguments, the command, the new flags and acknowledge time and
    whether the client is blocked (by a module), or the client was freed. *)
Inductive outcome (W : Type) :=
| Handled (w : W) (argv : list (list Z)) (cmd : cmd_proc) (flags ack : Z) (blocked : option bool)
| Freed (w : W).
Arguments Handled {W}.
Arguments Freed {W}.
Class Executor (W : Type) := {
  execute : W -> list (list Z) -> Z -> Z -> outcome W;
  reply_ok : W -> W;
  processGopherRequest : W -> list (list Z) -> W
}.
(** The flags only the code of this file sets. *)
Definition IO_FLAGS : Z := Z.lor CLIENT_PENDING_READ CLIENT_PENDING_COMMAND.
Definition flags_after (old flags : Z) (blocked : option bool) : Z :=
  Z.lor (Z.lor (Z.ldiff flags (Z.lor IO_FLAGS CLIENT_BLOCKED)) (Z.land old IO_FLAGS)) (match blocked with Some _ => CLIENT_BLOCKED | None => 0 end).
Definition is_quit (args : list (list Z)) : bool := match args with a :: _ => strcasecmp_eq (cstr a) (bytes_of_string "quit"%string) | [] => false end.
(** The return code, and whether the client still exists. *)
Definition processCommand {W} `{Executor W} (w : W) (c : client) : W * client * Z * bool :=
  if is_quit (argv c) then (reply_ok w, set_cflags c (Z.lor (cflags c) CLIENT_CLOSE_AFTER_REPLY), C_ERR, true)
  else match execute w (argv c) (cflags c) (repl_ack_time c) with
       | Freed w => (w, c, C_ERR, false)
       | Handled w a p f t b =>
           (w, mk_client (querybuf c) (qb_pos c) a p (reqtype c) (multibulklen c) (bulklen c) (flags_after (cflags c) f b) t (reply c)
                 (match b with Some m => m | None => false end), C_OK, true)
       end.
Definition commandProcessed (c : client) : client :=
  if negb (has_flag c CLIENT_BLOCKED) || negb (module_blocked c) then resetClient c else c.
(** [false] is C_ERR: the client was freed. *)
Definition processCommandAndResetClient {W} `{Executor W} (w : W) (c : client) : W * client * bool :=
  let '(w, c, rc, alive) := processCommand w c in
  (w, if rc =? C_OK then commandProcessed c else c, alive).

Section Input.
  Context {W : Type} `{Executor W} (junk : nat -> Z).
  Context (unixtime proto_max_bulk_len : Z) (clientsArePaused lua_timedout gopher_enabled : bool).

Definition gopher_request (c : client) : bool :=
  match argv c with
  | [] => true
  | [a] => match a with 47 :: _ => true | _ => false end
  | _ => false
  end.

(** The [while] loop; [false] says that the client is gone. *)
Fixpoint input_loop (fuel : nat) (w : W) (c : client) : option (W * client * bool) :=
  match fuel with
  | O => None
  | S fuel =>
      if negb (qb_pos c <? zlen (querybuf c)) then Some (w, c, true)
      else if negb (has_flag c CLIENT_SLAVE) && clientsArePaused then Some (w, c, true)
      else if has_flag c CLIENT_BLOCKED then Some (w, c, true)
      else if has_flag c CLIENT_PENDING_COMMAND then Some (w, c, true)
      else if lua_timedout && has_flag c CLIENT_MASTER then Some (w, c, true)
      else if has_flag c (Z.lor CLIENT_CLOSE_AFTER_REPLY CLIENT_CLOSE_ASAP) then Some (w, c, true)
      else
        c0 ← load1 (unread c) 0;
        let c := if reqtype c =? 0
                 then set_reqtype c (if c0 =? 42 then PROTO_REQ_MULTIBULK else PROTO_REQ_INLINE) else c in
        '(c, rc) ← (if reqtype c =? PROTO_REQ_INLINE then processInlineBuffer junk unixtime c
                    else if reqtype c =? PROTO_REQ_MULTIBULK then processMultibulkBuffer proto_max_bulk_len c
                    else None);
        if negb (rc =? C_OK) then Some (w, c, true)
        else if (reqtype c =? PROTO_REQ_INLINE) && gopher_enabled && gopher_request c then
          let w := processGopherRequest w (argv c) in
          let c := resetClient c in
          Some (w, set_cflags c (Z.lor (cflags c) CLIENT_CLOSE_AFTER_REPLY), true)
        else if zlen (argv c) =? 0 then input_loop fuel w (resetClient c)
        else if has_flag c CLIENT_PENDING_READ then
          Some (w, set_cflags c (Z.lor (cflags c) CLIENT_PENDING_COMMAND), true)
        else
          let '(w, c, ok) := processCommandAndResetClient w c in
          if ok then input_loop fuel w c else Some (w, c, false)
  end.

Definition processInputBuffer (w : W) (c : client) : option (W * client * bool) :=
  '(w, c, alive) ← input_loop (S (Z.to_nat (zlen (querybuf c) - qb_pos c))) w c;
  Some (w, if alive && negb (qb_pos c =? 0)
           then set_querybuf c (spec_range (querybuf c) (qb_pos c) (-1)) 0 else c, alive).

(** Closing is left to the event loop. *)
Definition freeClientAsync (c : client) : client :=
  if has_flag c CLIENT_CLOSE_ASAP || has_flag c CLIENT_LUA then c else set_cflags c (Z.lor (cflags c) CLIENT_CLOSE_ASAP).
(** The read is left to the I/O threads, or not. *)
Definition postponeClientRead (io_threads_reads : bool) (c : client) : option client :=
  if io_threads_reads && negb (has_flag c (Z.lor (Z.lor CLIENT_MASTER CLIENT_SLAVE) CLIENT_PENDING_READ))
  then Some (set_cflags c (Z.lor (cflags c) CLIENT_PENDING_READ)) else None.
(** What connRead returns. *)
Inductive read_result := ReadAgain | ReadError | ReadClosed | ReadData (data : list Z).
(** A read of any length is allowed, where the code asks for at most [readlen]
    bytes; the copy of the stream of a master ([pending_querybuf] and
    [read_reploff]), the statistics and the log are left out. *)
Definition readQueryFromClient (io_threads_reads : bool) (client_max_querybuf_len : Z) (w : W) (c : client) (nread : read_result) : option (W * client * bool) :=
  match postponeClientRead io_threads_reads c with
  | Some c => Some (w, c, true)
  | None =>
      match nread with
      | ReadAgain => Some (w, c, true)
      | ReadError | ReadClosed => Some (w, freeClientAsync c, true)
      | ReadData data =>
          let c := set_querybuf c (querybuf c ++ data) (qb_pos c) in
          if zlen (querybuf c) >? client_max_querybuf_len then Some (w, freeClientAsync c, true) else processInputBuffer w c
      end
  end.
(** The main thread takes over what the I/O threads have read of a client;
    processCommand reads [argv[0]]. *)
Definition handle_pending_read (w : W) (c : client) : option (W * client * bool) :=
  let c := set_cflags c (Z.ldiff (cflags c) CLIENT_PENDING_READ) in
  if has_flag c CLIENT_PENDING_COMMAND then
    let c := set_cflags c (Z.ldiff (cflags c) CLIENT_PENDING_COMMAND) in
    if bool_decide (argv c = []) then None
    else let '(w, c, alive) := processCommandAndResetClient w c in
         if alive then processInputBuffer w c else Some (w, c, false)
  else processInputBuffer w c.
(** The part of unblockClient and unblockClientFromModule that concerns the
    parser, and the processing of the input that has accumulated. *)
Definition unblock_input (c : client) : client :=
  let c := if module_blocked c then resetClient c else c in
  mk_client (querybuf c) (qb_pos c) (argv c) (cmd c) (reqtype c) (multibulklen c) (bulklen c) (Z.ldiff (cflags c) CLIENT_BLOCKED) (repl_ack_time c) (reply c) false.
Definition process_unblocked (w : W) (c : client) : option (W * client * bool) :=
  if negb (has_flag c CLIENT_BLOCKED) && (zlen (querybuf c) >? 0) then processInputBuffer w c else Some (w, c, true).

(** Reads of the main thread, one after the other, until the client is gone. *)
Fixpoint read_all (client_max_querybuf_len : Z) (w : W) (c : client) (chunks : list (list Z)) : option (W * client * bool) :=
  match chunks with
  | [] => Some (w, c, true)
  | data :: chunks =>
      '(w, c, alive) ← readQueryFromClient false client_max_querybuf_len w c (ReadData data);
      if (alive : bool) then read_all client_max_querybuf_len w c chunks else Some (w, c, false)
  end.
End Input.

(** ** Requests as they are written on the wire *)
Definition CRLF : list Z := [13; 10].
Definition enc_arg (a : list Z) : list Z := [36] ++ dec (zlen a) ++ CRLF ++ a ++ CRLF.
Definition enc_args (args : list (list Z)) : list Z := concat (map enc_arg args).
Definition enc_cmd (args : list (list Z)) : list Z := [42] ++ dec (zlen args) ++ CRLF ++ enc_args args.
Definition enc (cmds : list (list (list Z))) : list Z := concat (map enc_cmd cmds).

(** The limits of the protocol. *)
Definition ok_cmd (proto_max_bulk_len : Z) (args : list (list Z)) : Prop :=
  args <> [] /\ zlen args <= 1024 * 1024 /\ Forall (fun a => zlen a <= proto_max_bulk_len) args.

(** ** Lines *)
Lemma strchr_hit p ch q : ch <> 0 -> Forall (fun c => c <> ch /\ c <> 0) p -> strchr (p ++ ch :: q) ch = Some (zlen p).
Proof.
  intros Hch. induction 1 as [|c p [H1 H2] _ IH]; simpl; [by rewrite Z.eqb_refl|].
  rewrite (proj2 (Z.eqb_neq c ch)), (proj2 (Z.eqb_neq c 0)) by done. rewrite IH. cbn [mbind option_bind]. by rewrite zlen_cons.
Qed.

Lemma strchr_miss p ch : Forall (fun c => c <> ch /\ c <> 0) p -> strchr p ch = None.
Proof.
  induction 1 as [|c p [H1 H2] _ IH]; simpl; [done|].
  rewrite (proj2 (Z.eqb_neq c ch)), (proj2 (Z.eqb_neq c 0)) by done. by rewrite IH.
Qed.

Lemma udec_n_digits n v : 0 <= v -> Forall (fun c => 48 <= c <= 57) (udec_n n v).
Proof.
  revert v. induction n as [|n IH]; intros v Hv; [constructor|]. rewrite udec_n_S.
  destruct (Z.ltb_spec v 10); [constructor; [lia|constructor]|].
  apply Forall_app. split; [apply IH; apply Z.div_pos; lia|]. pose proof (Z.mod_pos_bound v 10).
  constructor; [lia|constructor].
Qed.

Lemma dec_nocr v : Forall (fun c => c <> 13 /\ c <> 0) (dec v).
Proof.
  unfold dec, udec. destruct (Z.ltb_spec v 0); [constructor; [lia|]|];
    (eapply Forall_impl; [apply udec_n_digits; lia|]; cbv beta; lia).
Qed.

Lemma app_split (a b c d : list Z) : a ++ b = c ++ d -> zlen c <= zlen a -> exists r, a = c ++ r /\ d = r ++ b.
Proof.
  intros E Hl. destruct (split_at a (zlen c)) as (a1 & r & -> & H1 & _); [pose proof (zlen_nonneg c); lia|].
  rewrite <- app_assoc in E. apply app_inj_1 in E as [-> E]; [eauto|]. unfold zlen in H1. lia.
Qed.

(** What [find_line] sees of a header line [h n CR LF]. *)
Lemma find_line_spec c h n tail fut :
  unread c ++ fut = h :: dec n ++ CRLF ++ tail -> zlen (querybuf c) - qb_pos c = zlen (unread c) -> h <> 13 -> h <> 0 ->
  in_s 64 n ->
  (fut <> [] /\ zlen (unread c) <= 21 /\ find_line c = LNone) \/
  (fut <> [] /\ find_line c = LPartial) \/
  (exists u, unread c = h :: dec n ++ CRLF ++ u /\ u ++ fut = tail /\ find_line c = LLine (1 + zlen (dec n))).
Proof.
  intros E Hlen Hh1 Hh2 Hn. unfold find_line. rewrite Hlen. pose proof (dec_len20 n Hn) as Hd.
  set (u := unread c) in *. set (hd := h :: dec n).
  assert (Hhd : Forall (fun c => c <> 13 /\ c <> 0) hd) by (constructor; [done|apply dec_nocr]).
  assert (Hz : zlen hd = 1 + zlen (dec n)) by apply zlen_cons.
  replace (h :: dec n ++ CRLF ++ tail) with (hd ++ CRLF ++ tail) in E by done.
  destruct (Z.le_gt_cases (zlen u) (zlen hd)) as [Hshort|Hlong].
  - left. symmetry in E. destruct (app_split hd _ u _ E Hshort) as (r & Er & Ef).
    split; [intros ->; symmetry in Ef; apply app_eq_nil in Ef as [_ [=]]|]. split; [lia|].
    rewrite strchr_miss; [done|]. rewrite Er in Hhd. apply Forall_app in Hhd as [? _]. done.
  - destruct (app_split u fut hd _ E ltac:(lia)) as (r & Er & Ef). rewrite Er in *. rewrite zlen_app in Hlong.
    destruct (zlen_pos_cons r ltac:(lia)) as (x & r1 & ->). injection Ef as <- Ef.
    rewrite strchr_hit by (done || lia). rewrite Z.gtb_ltb, zlen_app, zlen_cons.
    destruct r1 as [|y r1].
    + right. left. change (zlen (@nil Z)) with 0. rewrite (proj2 (Z.ltb_lt _ _)) by lia. split; [|done].
      intros ->. discriminate Ef.
    + right. right. injection Ef as <- Ef. exists r1. rewrite zlen_cons. pose proof (zlen_nonneg r1).
      rewrite (proj2 (Z.ltb_ge _ _)) by lia. split; [done|]. split; [done|]. by rewrite Hz.
Qed.

(** ** The parser on a fragmented stream *)
Definition pos_ok (c : client) : Prop := 0 <= qb_pos c <= zlen (querybuf c).

(** No condition that makes the input loop stop. *)
Definition quiet (c : client) : Prop :=
  has_flag c CLIENT_BLOCKED = false /\ has_flag c CLIENT_PENDING_COMMAND = false /\
  has_flag c (Z.lor CLIENT_CLOSE_AFTER_REPLY CLIENT_CLOSE_ASAP) = false /\ has_flag c CLIENT_PENDING_READ = false.

(** [parsing c fut cmds]: the client is in the middle of the requests [cmds];
    the unread bytes and the bytes [fut] still to arrive are what is left of
    them: from the start of a request, from the start of an argument, or from
    the start of an argument's data. *)
Definition at_cmd (c : client) (fut : list Z) (cmds : list (list (list Z))) : Prop :=
  argv c = [] /\ multibulklen c = 0 /\ bulklen c = -1 /\ unread c ++ fut = enc cmds.
Definition at_arg (c : client) (fut : list Z) (left : list (list Z)) (rest : list (list (list Z))) : Prop :=
  multibulklen c = zlen left /\ bulklen c = -1 /\ unread c ++ fut = enc_args left ++ enc rest.
Definition at_data (c : client) (fut : list Z) (a : list Z) (left : list (list Z)) (rest : list (list (list Z))) : Prop :=
  multibulklen c = 1 + zlen left /\ bulklen c = zlen a /\ unread c ++ fut = a ++ CRLF ++ enc_args left ++ enc rest.

Inductive mb_state (c : client) (fut : list Z) : list (list Z) -> list (list (list Z)) -> Prop :=
| mb_at_arg a left rest : at_arg c fut (a :: left) rest -> mb_state c fut (a :: left) rest
| mb_at_data a left rest : at_data c fut a left rest -> mb_state c fut (a :: left) rest.

(** What a step of the parser leaves alone. *)
Definition same_client (c c' : client) : Prop :=
  cflags c' = cflags c /\ reply c' = reply c /\ reqtype c' = reqtype c /\ repl_ack_time c' = repl_ack_time c /\ zlen (querybuf c') <= zlen (querybuf c).

Lemma unread_len c : pos_ok c -> zlen (querybuf c) - qb_pos c = zlen (unread c).
Proof. unfold pos_ok, unread, zlen. intros. rewrite length_drop. lia. Qed.

Lemma unread_advance c a b : pos_ok c -> unread c = a ++ b ->
  drop (Z.to_nat (qb_pos c + zlen a)) (querybuf c) = b /\ 0 <= qb_pos c + zlen a <= zlen (querybuf c).
Proof.
  intros Hp E. pose proof (unread_len c Hp) as Hl. unfold pos_ok in Hp. pose proof (zlen_nonneg a). pose proof (zlen_nonneg b).
  rewrite E, zlen_app in Hl. split; [|lia].
  replace (Z.to_nat (qb_pos c + zlen a)) with (Z.to_nat (qb_pos c) + length a)%nat by (unfold zlen; lia).
  rewrite <- drop_drop. fold (unread c). rewrite E. apply drop_app_length.
Qed.

Lemma range_drop (q : list Z) p : 0 <= p <= zlen q -> spec_range q p (-1) = drop (Z.to_nat p) q.
Proof.
  intros Hp. unfold spec_range, norm_index. rewrite (proj2 (Z.ltb_ge p 0)) by lia. simpl.
  rewrite take_ge; [done|]. unfold zlen in *. lia.
Qed.

Section ParserProofs.
  Context (proto_max_bulk_len : Z) (Hmax : 0 <= proto_max_bulk_len < 2 ^ 62).

(** The bulk argument: taken when it is complete, else more data is needed. *)
Lemma mb_bulk_spec c fut a left rest :
  pos_ok c -> at_data c fut a left rest -> zlen a < 2 ^ 62 ->
  (fut <> [] /\ mb_bulk c = Some (ABreak c)) \/
  (exists c', mb_bulk c = Some (ANext c') /\ pos_ok c' /\ same_client c c' /\ argv c' = argv c ++ [a] /\
     at_arg c' fut left rest /\ zlen (unread c') < zlen (unread c)).
Proof.
  intros Hp (Hm & Hb & E) Ha. unfold mb_bulk. rewrite (unread_len c Hp), Hb. pose proof (zlen_nonneg a).
  destruct (Z.ltb_spec (zlen (unread c)) (zlen a + 2)) as [Hshort|Hlong].
  { left. split; [|done]. intros ->. rewrite app_nil_r in E. rewrite E, !zlen_app in Hshort. change (zlen CRLF) with 2 in Hshort.
    pose proof (zlen_nonneg (enc_args left)). pose proof (zlen_nonneg (enc rest)). lia. }
  right. rewrite app_assoc in E.
  destruct (app_split (unread c) fut (a ++ CRLF) _ E) as (u & Eu & Ef); [rewrite zlen_app; change (zlen CRLF) with 2; lia|].
  pose proof (unread_advance c (a ++ CRLF) u Hp Eu) as [Hadv Hrange]. rewrite zlen_app in Hadv, Hrange. change (zlen CRLF) with 2 in *.
  destruct (_ && _ && _) eqn:Ebig.
  - apply andb_true_iff in Ebig as [[Hq0%Z.eqb_eq _]%andb_true_iff Hsz%Z.eqb_eq].
    assert (Hq : querybuf c = unread c) by (unfold unread; rewrite Hq0; done).
    assert (u = []) as -> by (apply zlen_zero; rewrite Hq, Eu, !zlen_app in Hsz; change (zlen CRLF) with 2 in *; lia).
    cbn [mbind option_bind]. eexists. split; [done|]. split; [unfold pos_ok; cbn; rewrite Hq0; done|]. split; [split_and!; try done; cbn; apply zlen_nonneg|].
    split; [cbn; rewrite Hq, Eu; f_equal; f_equal; rewrite !app_nil_r;
      rewrite zlen_app; change (zlen CRLF) with 2; replace (zlen a + 2 - 2) with (zlen a) by lia;
      unfold zlen; rewrite Nat2Z.id; apply take_app_length|].
    split; [|rewrite Eu, !zlen_app; change (zlen CRLF) with 2; unfold unread; cbn; rewrite drop_nil; change (zlen (@nil Z)) with 0; lia].
    split; [cbn; lia|]. split; [done|]. unfold unread. cbn. rewrite drop_nil. done.
  - rewrite Eu, <- app_assoc, load_prefix by done. cbn [mbind option_bind]. eexists. split; [done|].
    split; [unfold pos_ok; cbn; lia|]. split; [split_and!; try done; cbn; lia|]. split; [done|].
    assert (Eun : unread (set_mb (set_pos (set_argv c (argv c ++ [a])) (qb_pos c + (zlen a + 2))) (multibulklen c - 1) (-1)) = u)
      by (exact Hadv).
    split; [|cbn; rewrite Eun, zlen_app, !zlen_cons; lia].
    split; [cbn; lia|]. split; [done|]. cbn. rewrite Eun. done.
Qed.

(** The bulk length line. *)
Lemma mb_bulklen_spec c fut a left rest :
  pos_ok c -> at_arg c fut (a :: left) rest -> zlen a <= proto_max_bulk_len ->
  (fut <> [] /\ mb_bulklen proto_max_bulk_len c = Some (ABreak c)) \/
  (exists c', mb_bulklen proto_max_bulk_len c = Some (ANext c') /\ pos_ok c' /\ same_client c c' /\ argv c' = argv c /\
     at_data c' fut a left rest /\ zlen (unread c') < zlen (unread c)).
Proof.
  intros Hp (Hm & Hb & E) Ha. unfold mb_bulklen. pose proof (zlen_nonneg a).
  assert (Hin : in_s 64 (zlen a)) by (unfold in_s; lia).
  assert (E' : unread c ++ fut = 36 :: dec (zlen a) ++ CRLF ++ (a ++ CRLF ++ enc_args left ++ enc rest)).
  { rewrite E. unfold enc_args. cbn [map concat]. unfold enc_arg. rewrite <- !app_assoc. done. }
  destruct (find_line_spec c 36 (zlen a) _ fut E' (unread_len c Hp) ltac:(lia) ltac:(lia) Hin)
    as [(Hf & Hs & ->)|[(Hf & ->)|(u & Eu & Ef & ->)]].
  - left. split; [done|]. rewrite (unread_len c Hp), Z.gtb_ltb. unfold PROTO_INLINE_MAX_SIZE.
    rewrite (proj2 (Z.ltb_ge _ _)) by lia. done.
  - left. done.
  - right. assert (L1 : load1 (unread c) 0 = Some 36) by (by rewrite Eu).
    assert (L2 : load (unread c) 1 (zlen (dec (zlen a))) = Some (dec (zlen a)))
      by (rewrite Eu; by apply (load_app [36] (dec (zlen a)) (CRLF ++ u))).
    rewrite L1. cbn [mbind option_bind Z.eqb negb Pos.eqb].
    replace (1 + zlen (dec (zlen a)) - 1) with (zlen (dec (zlen a))) by lia. rewrite L2. cbn [mbind option_bind].
    rewrite (proj2 (string2ll_iff (dec (zlen a)) (zlen a))) by done.
    rewrite (proj2 (Z.ltb_ge (zlen a) 0)), Z.gtb_ltb, (proj2 (Z.ltb_ge _ _)) by lia. cbn [orb].
    set (n := 1 + zlen (dec (zlen a))). set (c1 := set_pos c (qb_pos c + n + 2)).
    assert (Hsplit : unread c = (36 :: dec (zlen a) ++ CRLF) ++ u) by (rewrite Eu; cbn [app]; by rewrite <- app_assoc).
    assert (Hz : zlen (36 :: dec (zlen a) ++ CRLF) = n + 2) by (rewrite zlen_cons, zlen_app; change (zlen CRLF) with 2; unfold n; lia).
    pose proof (unread_advance c _ u Hp Hsplit) as [Hadv Hrange]. rewrite Hz in Hadv, Hrange. rewrite Z.add_assoc in Hadv, Hrange.
    assert (Hp1 : pos_ok c1) by exact Hrange. assert (Hu1 : unread c1 = u) by exact Hadv.
    assert (Hlt : zlen u < zlen (unread c)) by (rewrite Hsplit, zlen_app, Hz; pose proof (zlen_nonneg (dec (zlen a))); unfold n; lia).
    destruct (_ && _).
    + eexists. split; [done|]. rewrite range_drop by exact Hp1. fold (unread c1).
      split; [split; [done|]; cbn; apply zlen_nonneg|]. split; [split_and!; try done; cbn; unfold unread, zlen; rewrite length_drop; cbn; lia|]. split; [done|].
      split; [|unfold unread at 1; cbn; by rewrite Hu1]. split; [cbn; rewrite Hm, zlen_cons; lia|].
      split; [done|]. unfold unread at 1. cbn. rewrite Hu1. done.
    + eexists. split; [done|]. split; [exact Hp1|]. split; [split_and!; try done; cbn; lia|]. split; [done|].
      split; [|change (zlen (unread c1) < zlen (unread c)); by rewrite Hu1].
      split; [cbn; rewrite Hm, zlen_cons; lia|]. split; [done|].
      change (unread c1 ++ fut = a ++ CRLF ++ enc_args left ++ enc rest). by rewrite Hu1.
Qed.

Lemma same_client_trans c1 c2 c3 : same_client c1 c2 -> same_client c2 c3 -> same_client c1 c3.
Proof. unfold same_client. intros (? & ? & ? & ? & ?) (? & ? & ? & ? & ?). split_and!; (congruence || lia). Qed.

(** One iteration. *)
Lemma mb_iter_spec c fut a left rest :
  pos_ok c -> mb_state c fut (a :: left) rest -> zlen a <= proto_max_bulk_len ->
  (fut <> [] /\ exists c', mb_iter proto_max_bulk_len c = Some (ABreak c') /\ pos_ok c' /\ same_client c c' /\
     argv c' = argv c /\ mb_state c' fut (a :: left) rest) \/
  (exists c', mb_iter proto_max_bulk_len c = Some (ANext c') /\ pos_ok c' /\ same_client c c' /\ argv c' = argv c ++ [a] /\
     at_arg c' fut left rest /\ zlen (unread c') < zlen (unread c)).
Proof.
  intros Hp Hs Ha. unfold mb_iter. pose proof (zlen_nonneg a).
  assert (Hdata : forall c1, pos_ok c1 -> same_client c c1 -> argv c1 = argv c -> at_data c1 fut a left rest ->
    zlen (unread c1) <= zlen (unread c) ->
    (fut <> [] /\ exists c', mb_bulk c1 = Some (ABreak c') /\ pos_ok c' /\ same_client c c' /\
       argv c' = argv c /\ mb_state c' fut (a :: left) rest) \/
    (exists c', mb_bulk c1 = Some (ANext c') /\ pos_ok c' /\ same_client c c' /\ argv c' = argv c ++ [a] /\
       at_arg c' fut left rest /\ zlen (unread c') < zlen (unread c))).
  { intros c1 Hp1 Hsc Hav Hd Hle. destruct (mb_bulk_spec c1 fut a left rest Hp1 Hd ltac:(lia)) as [[Hf E]|(c' & E & Hp' & Hs' & Hav' & Hat & Hlt)].
    - left. split; [done|]. exists c1. split_and!; try done. by apply mb_at_data.
    - right. exists c'. split_and!; try done; [by eapply same_client_trans|by rewrite Hav', Hav|lia]. }
  inversion Hs as [a0 l0 r0 Hat E1 E2|a0 l0 r0 Hd E1 E2]; subst.
  - destruct Hat as (Hm & Hb & E). rewrite Hb. cbn [Z.eqb Pos.eqb].
    destruct (mb_bulklen_spec c fut a left rest Hp (conj Hm (conj Hb E)) Ha) as [[Hf ->]|(c1 & -> & Hp1 & Hs1 & Hav1 & Hd1 & Hlt)];
      cbn [mbind option_bind].
    + left. split; [done|]. exists c. split_and!; done.
    + apply Hdata; (done || lia).
  - pose proof Hd as (_ & Hb & _). rewrite Hb, (proj2 (Z.eqb_neq (zlen a) (-1))) by lia. cbn [mbind option_bind].
    apply Hdata; (done || lia).
Qed.

Lemma mb_loop_spec left : forall fuel c fut rest,
  pos_ok c -> (left = [] /\ at_arg c fut [] rest) \/ mb_state c fut left rest ->
  Forall (fun a => zlen a <= proto_max_bulk_len) left -> (length left < fuel)%nat ->
  exists c' rc, mb_loop proto_max_bulk_len fuel c = Some (c', rc) /\ pos_ok c' /\ same_client c c' /\
    ((rc = C_OK /\ argv c' = argv c ++ left /\ at_arg c' fut [] rest /\ zlen (unread c') + zlen left <= zlen (unread c)) \/
     (rc = C_ERR /\ fut <> [] /\ exists done left', left = done ++ left' /\ argv c' = argv c ++ done /\ mb_state c' fut left' rest)).
Proof.
  induction left as [|a left IH]; intros fuel c fut rest Hp Hst Hok Hf; (destruct fuel as [|fuel]; [simpl in Hf; lia|]); cbn [mb_loop].
  - destruct Hst as [[_ Hat]|Hst]; [|inversion Hst]. pose proof Hat as (Hm & _ & _). rewrite Hm. change (zlen (@nil (list Z))) with 0.
    cbn [Z.eqb]. exists c, C_OK. split; [done|]. split; [done|]. split; [done|]. left. rewrite app_nil_r. split_and!; (done || lia).
  - destruct Hst as [[[=] _]|Hst]. apply Forall_cons in Hok as [Ha Hok].
    assert (Hm : multibulklen c = 1 + zlen left).
    { inversion Hst as [? ? ? (Hm & _)|? ? ? (Hm & _)]; subst; [by rewrite Hm, zlen_cons|done]. }
    pose proof (zlen_nonneg left). rewrite Hm, (proj2 (Z.eqb_neq _ 0)) by lia.
    destruct (mb_iter_spec c fut a left rest Hp Hst Ha) as [(Hfut & c1 & -> & Hp1 & Hs1 & Hav & Hst1)|(c1 & -> & Hp1 & Hs1 & Hav & Hat & Hlt)];
      cbn [mbind option_bind].
    + assert (Hm1 : multibulklen c1 = 1 + zlen left).
      { inversion Hst1 as [? ? ? (Hm1 & _)|? ? ? (Hm1 & _)]; subst; [by rewrite Hm1, zlen_cons|done]. }
      rewrite Hm1, (proj2 (Z.eqb_neq _ 0)) by lia. exists c1, C_ERR. split; [done|]. split; [done|]. split; [done|].
      right. split; [done|]. split; [done|]. exists [], (a :: left). by rewrite Hav, app_nil_r.
    + destruct (IH fuel c1 fut rest Hp1) as (c2 & rc & E & Hp2 & Hs2 & Hres).
      * destruct left as [|b left]; [by left|right]. by apply mb_at_arg.
      * done.
      * simpl in Hf. lia.
      * rewrite E. exists c2, rc. split; [done|]. split; [done|]. split; [by eapply same_client_trans|].
        destruct Hres as [(-> & Hav2 & Hat2 & Hle)|(-> & Hfut & dn & left' & -> & Hav2 & Hst2)].
        -- left. split; [done|]. split; [by rewrite Hav2, Hav, <- app_assoc|]. split; [done|rewrite zlen_cons; lia].
        -- right. split; [done|]. split; [done|]. exists (a :: dn), left'. split; [done|].
           split; [by rewrite Hav2, Hav, <- app_assoc|done].
Qed.

(** The multi bulk length line. *)
Lemma mb_header_spec c fut args rest :
  pos_ok c -> at_cmd c fut (args :: rest) -> ok_cmd proto_max_bulk_len args ->
  (fut <> [] /\ mb_header c = Some (MReturn c C_ERR)) \/
  (exists c', mb_header c = Some (MGoOn c') /\ pos_ok c' /\ same_client c c' /\ argv c' = [] /\
     at_arg c' fut args rest /\ zlen (unread c') < zlen (unread c)).
Proof.
  intros Hp (Hav & Hm & Hb & E) (Hne & Hcnt & _). unfold mb_header. rewrite Hav. change (zlen (@nil (list Z)) =? 0) with true. cbn [negb].
  pose proof (zlen_nonneg args). assert (Hin : in_s 64 (zlen args)) by (unfold in_s; zpow; lia).
  assert (E' : unread c ++ fut = 42 :: dec (zlen args) ++ CRLF ++ (enc_args args ++ enc rest)).
  { rewrite E. unfold enc. cbn [map concat]. unfold enc_cmd. rewrite <- !app_assoc. done. }
  destruct (find_line_spec c 42 (zlen args) _ fut E' (unread_len c Hp) ltac:(lia) ltac:(lia) Hin)
    as [(Hf & Hs & ->)|[(Hf & ->)|(u & Eu & Ef & ->)]].
  - left. split; [done|]. rewrite (unread_len c Hp), Z.gtb_ltb. unfold PROTO_INLINE_MAX_SIZE.
    rewrite (proj2 (Z.ltb_ge _ _)) by lia. done.
  - left. done.
  - right. set (n := 1 + zlen (dec (zlen args))).
    assert (L1 : load1 (unread c) 0 = Some 42) by (by rewrite Eu).
    assert (L2 : load (unread c) 1 (n - 1) = Some (dec (zlen args))).
    { replace (n - 1) with (zlen (dec (zlen args))) by (unfold n; lia).
      rewrite Eu. by apply (load_app [42] (dec (zlen args)) (CRLF ++ u)). }
    rewrite L1. cbn [mbind option_bind Z.eqb negb Pos.eqb]. rewrite L2. cbn [mbind option_bind].
    rewrite (proj2 (string2ll_iff (dec (zlen args)) (zlen args))) by done.
    assert (1 <= zlen args) by (destruct args; [done|]; rewrite zlen_cons; pose proof (zlen_nonneg args); lia).
    rewrite Z.gtb_ltb, (proj2 (Z.ltb_ge _ _)), (proj2 (Z.leb_gt _ _)) by lia. eexists. split; [done|].
    assert (Hsplit : unread c = (42 :: dec (zlen args) ++ CRLF) ++ u) by (rewrite Eu; cbn [app]; by rewrite <- app_assoc).
    assert (Hz : zlen (42 :: dec (zlen args) ++ CRLF) = n + 2) by (rewrite zlen_cons, zlen_app; change (zlen CRLF) with 2; unfold n; lia).
    pose proof (unread_advance c _ u Hp Hsplit) as [Hadv Hrange]. rewrite Hz, Z.add_assoc in Hadv, Hrange.
    set (c1 := set_mb _ _ _). assert (Hu1 : unread c1 = u) by exact Hadv.
    split; [exact Hrange|]. split; [done|]. split; [done|].
    split; [|rewrite Hu1, Hsplit, zlen_app, Hz; pose proof (zlen_nonneg (dec (zlen args))); unfold n; lia].
    split; [done|]. split; [done|]. by rewrite Hu1.
Qed.

(** In the middle of the stream of requests [cmds]. *)
Definition parsing (c : client) (fut : list Z) (cmds : list (list (list Z))) : Prop :=
  ((reqtype c = 0 \/ reqtype c = PROTO_REQ_MULTIBULK) /\ at_cmd c fut cmds) \/
  (reqtype c = PROTO_REQ_MULTIBULK /\ exists left rest, cmds = (argv c ++ left) :: rest /\ mb_state c fut left rest).

Lemma multibulk_spec c fut cmds :
  pos_ok c -> parsing c fut cmds -> reqtype c = PROTO_REQ_MULTIBULK -> Forall (ok_cmd proto_max_bulk_len) cmds -> cmds <> [] ->
  exists c' rc, processMultibulkBuffer proto_max_bulk_len c = Some (c', rc) /\ pos_ok c' /\ same_client c c' /\
    ((rc = C_OK /\ exists rest, cmds = argv c' :: rest /\ at_arg c' fut [] rest /\ zlen (unread c') < zlen (unread c)) \/
     (rc = C_ERR /\ fut <> [] /\ parsing c' fut cmds)).
Proof.
  intros Hp Hpar Hrt Hok Hne.
  assert (Hloop : forall c1 left rest, pos_ok c1 -> same_client c c1 -> zlen (unread c1) <= zlen (unread c) ->
    cmds = (argv c1 ++ left) :: rest -> mb_state c1 fut left rest ->
    exists c' rc, (if multibulklen c1 >? 0 then mb_loop proto_max_bulk_len (S (Z.to_nat (multibulklen c1))) c1 else None) = Some (c', rc) /\
      pos_ok c' /\ same_client c c' /\
      ((rc = C_OK /\ exists rest, cmds = argv c' :: rest /\ at_arg c' fut [] rest /\ zlen (unread c') < zlen (unread c)) \/
       (rc = C_ERR /\ fut <> [] /\ parsing c' fut cmds))).
  { intros c1 left rest Hp1 Hs1 Hle Ec Hst.
    assert (Hm : multibulklen c1 = zlen left /\ 1 <= zlen left).
    { inversion Hst as [a l r (Hm & _)|a l r (Hm & _)]; subst; rewrite zlen_cons in *; pose proof (zlen_nonneg l); lia. }
    destruct Hm as [Hm Hl1]. rewrite Hm, Z.gtb_ltb, (proj2 (Z.ltb_lt _ _)) by lia.
    assert (Hbulk : Forall (fun a => zlen a <= proto_max_bulk_len) left).
    { rewrite Ec in Hok. apply Forall_cons in Hok as [(_ & _ & Hall) _]. apply Forall_app in Hall as [_ ?]. done. }
    destruct (mb_loop_spec left (S (Z.to_nat (zlen left))) c1 fut rest Hp1 (or_intror Hst) Hbulk) as (c2 & rc & E & Hp2 & Hs2 & Hres);
      [unfold zlen; lia|].
    exists c2, rc. split; [done|]. split; [done|]. split; [by eapply same_client_trans|].
    destruct Hres as [(-> & Hav & Hat & Hlt)|(-> & Hfut & dn & left' & -> & Hav & Hst')].
    - left. split; [done|]. exists rest. rewrite Hav. split; [done|]. split; [done|lia].
    - right. split; [done|]. split; [done|]. right. destruct Hs2 as (_ & _ & Hr2 & _), Hs1 as (_ & _ & Hr1 & _).
      split; [congruence|]. exists left', rest. by rewrite Hav, Ec, <- app_assoc. }
  unfold processMultibulkBuffer. destruct Hpar as [[_ Hat]|[_ (left & rest & -> & Hst)]].
  - pose proof Hat as (Hav & Hm & Hb & E). rewrite Hm. cbn [Z.eqb]. destruct cmds as [|args rest]; [done|].
    apply Forall_cons in Hok as [Hoka Hok'].
    destruct (mb_header_spec c fut args rest Hp Hat Hoka) as [[Hf ->]|(c1 & -> & Hp1 & Hs1 & Hav1 & Hat1 & Hlt)]; cbn [mbind option_bind].
    + exists c, C_ERR. split; [done|]. split; [done|]. split; [done|]. right. split; [done|]. split; [done|]. left. auto.
    + destruct args as [|a args]; [by destruct Hoka|]. apply (Hloop c1 (a :: args) rest); [done|done|lia|by rewrite Hav1|by apply mb_at_arg].
  - assert (Hm : 1 <= multibulklen c).
    { inversion Hst as [a l r (Hm & _)|a l r (Hm & _)]; subst; rewrite ?zlen_cons in Hm; pose proof (zlen_nonneg l); lia. }
    rewrite (proj2 (Z.eqb_neq (multibulklen c) 0)) by lia. cbn [mbind option_bind]. by apply (Hloop c left rest).
Qed.
End ParserProofs.

(** ** Flags *)
Lemma land_ldiff_disjoint x a f : Z.land a f = 0 -> Z.land (Z.ldiff x a) f = Z.land x f.
Proof.
  intros Hd. apply Z.bits_inj'. intros i Hi. apply (f_equal (fun z => Z.testbit z i)) in Hd.
  rewrite Z.land_spec, Z.testbit_0_l in Hd. rewrite !Z.land_spec, Z.ldiff_spec.
  destruct (Z.testbit x i), (Z.testbit a i), (Z.testbit f i); done.
Qed.

Lemma land_lor_disjoint x a f : Z.land a f = 0 -> Z.land (Z.lor x a) f = Z.land x f.
Proof. intros Hd. rewrite Z.land_lor_distr_l, Hd. apply Z.lor_0_r. Qed.

(** [resetClient] keeps the query buffer and every flag but its own. *)
Lemma reset_flag c f :
  Z.land (Z.lor (Z.lor CLIENT_ASKING CLIENT_TRACKING_CACHING) (Z.lor CLIENT_REPLY_SKIP CLIENT_REPLY_SKIP_NEXT)) f = 0 ->
  has_flag (resetClient c) f = has_flag c f.
Proof.
  intros Hd. rewrite !Z.land_lor_distr_l in Hd. apply Z.lor_eq_0_iff in Hd as [[H1 H2]%Z.lor_eq_0_iff [H3 H4]%Z.lor_eq_0_iff].
  unfold resetClient, has_flag. destruct (cmd c); cbn [freeClientArgv set_reqtype set_mb set_cflags cflags negb];
    repeat (match goal with |- context [if ?b then _ else _] => destruct b end; cbn [set_cflags cflags];
            rewrite ?land_ldiff_disjoint, ?land_lor_disjoint, ?land_ldiff_disjoint, ?land_ldiff_disjoint by done); done.
Qed.

Lemma reset_fields c :
  querybuf (resetClient c) = querybuf c /\ qb_pos (resetClient c) = qb_pos c /\ reply (resetClient c) = reply c /\
  argv (resetClient c) = [] /\ multibulklen (resetClient c) = 0 /\ bulklen (resetClient c) = -1 /\ reqtype (resetClient c) = 0.
Proof.
  unfold resetClient. destruct (cmd c); cbn [negb];
    repeat (match goal with |- context [if ?b then _ else _] => destruct b end); done.
Qed.
Lemma reset_more c : module_blocked (resetClient c) = module_blocked c /\ repl_ack_time (resetClient c) = repl_ack_time c.
Proof. unfold resetClient. destruct (cmd c); cbn [negb]; repeat (match goal with |- context [if ?b then _ else _] => destruct b end); done. Qed.
(** The flags after a reset depend on the command and the flags. *)
Lemma reset_cflags c c' : cmd c = cmd c' -> cflags c = cflags c' -> cflags (resetClient c) = cflags (resetClient c').
Proof.
  destruct c, c'. cbn [cmd cflags]. intros -> ->. unfold resetClient, has_flag. cbn [cmd cflags freeClientArgv set_reqtype set_mb set_cflags negb].
  repeat (match goal with |- context [if ?b then _ else _] => lazymatch b with context [if _ then _ else _] => fail | _ => destruct b end end; cbn [cflags set_cflags set_mb set_reqtype freeClientArgv]); done.
Qed.
Lemma after_blocked old f b : negb (Z.land (flags_after old f b) CLIENT_BLOCKED =? 0) = match b with Some _ => true | None => false end.
Proof.
  unfold flags_after. rewrite !Z.land_lor_distr_l. rewrite <- Z.land_assoc. change (Z.land IO_FLAGS CLIENT_BLOCKED) with 0. rewrite Z.land_0_r, Z.lor_0_r.
  assert (E : Z.land (Z.ldiff f (Z.lor IO_FLAGS CLIENT_BLOCKED)) CLIENT_BLOCKED = 0).
  { apply Z.bits_inj'. intros i Hi. rewrite Z.land_spec, Z.ldiff_spec, Z.lor_spec, Z.testbit_0_l. destruct (Z.testbit f i), (Z.testbit IO_FLAGS i), (Z.testbit CLIENT_BLOCKED i); done. }
  rewrite E. by destruct b.
Qed.
Lemma after_io old f b g : Z.land IO_FLAGS g = g -> Z.land (flags_after old f b) g = Z.land old g.
Proof.
  intros Hg. unfold flags_after. apply Z.bits_inj'. intros i Hi. rewrite !Z.land_spec, !Z.lor_spec, Z.ldiff_spec, Z.land_spec, Z.lor_spec.
  assert (Hi2 : Z.testbit g i = Z.testbit IO_FLAGS i && Z.testbit g i) by (rewrite <- Hg at 1; apply Z.land_spec).
  assert (Hb : Z.testbit CLIENT_BLOCKED i && Z.testbit IO_FLAGS i = false) by (rewrite <- Z.land_spec; change (Z.land CLIENT_BLOCKED IO_FLAGS) with 0; apply Z.testbit_0_l).
  destruct (Z.testbit g i); [|by rewrite !andb_false_r]. destruct (Z.testbit IO_FLAGS i); [|done]. rewrite andb_true_r in Hb. rewrite Hb. destruct b as [?|]; rewrite ?Hb, ?Z.testbit_0_l; destruct (Z.testbit f i), (Z.testbit old i); done.
Qed.

(** ** Executing commands one after the other *)
Section Serve.
  Context {W : Type} `{HE : Executor W}.
(** The flags that end the input loop. *)
Definition stops (fl : Z) : bool :=
  negb (Z.land fl CLIENT_BLOCKED =? 0) || negb (Z.land fl CLIENT_PENDING_COMMAND =? 0) || negb (Z.land fl (Z.lor CLIENT_CLOSE_AFTER_REPLY CLIENT_CLOSE_ASAP) =? 0).
(** One command of a client with these flags and this acknowledge time. *)
Definition serve_one (w : W) (fl ack : Z) (args : list (list Z)) : W * Z * Z * bool :=
  if is_quit args then (reply_ok w, Z.lor fl CLIENT_CLOSE_AFTER_REPLY, ack, true)
  else match execute w args fl ack with
       | Freed w => (w, fl, ack, false)
       | Handled w a p f t b =>
           (w, cflags (commandProcessed (mk_client [] 0 a p 0 0 (-1) (flags_after fl f b) t [] (match b with Some m => m | None => false end))), t, true)
       end.
(** Commands in order, until one closes, blocks or frees the client. *)
Fixpoint serve (w : W) (fl ack : Z) (cmds : list (list (list Z))) : W * Z * Z * bool :=
  match cmds with
  | [] => (w, fl, ack, true)
  | args :: cmds => if stops fl then (w, fl, ack, true) else let '(w, fl, ack, alive) := serve_one w fl ack args in if alive then serve w fl ack cmds else (w, fl, ack, false)
  end.
Lemma serve_stops w fl ack cmds : stops fl = true -> serve w fl ack cmds = (w, fl, ack, true).
Proof. destruct cmds; [done|]. cbn [serve]. by intros ->. Qed.
(** Executing the parsed command is [serve_one]; the client can go on with the
    rest of the buffer, or it stops. *)
Lemma run_spec w c : has_flag c CLIENT_PENDING_READ = false -> has_flag c CLIENT_PENDING_COMMAND = false ->
  exists w' c' alive, processCommandAndResetClient w c = (w', c', alive) /\ serve_one w (cflags c) (repl_ack_time c) (argv c) = (w', cflags c', repl_ack_time c', alive) /\
    querybuf c' = querybuf c /\ qb_pos c' = qb_pos c /\ reply c' = reply c /\ has_flag c' CLIENT_PENDING_READ = false /\ has_flag c' CLIENT_PENDING_COMMAND = false /\
    (alive = true -> stops (cflags c') = false -> argv c' = [] /\ multibulklen c' = 0 /\ bulklen c' = -1 /\ reqtype c' = 0).
Proof.
  intros Hr Hp. unfold processCommandAndResetClient, processCommand, serve_one. destruct (is_quit (argv c)).
  - eexists _, _, _. split; [done|]. cbn [Z.eqb C_ERR C_OK set_cflags cflags repl_ack_time querybuf qb_pos reply]. split; [done|]. do 3 (split; [done|]). unfold has_flag in *. cbn [set_cflags cflags]. rewrite !land_lor_disjoint by done. split; [done|]. split; [done|].
    intros _ Hs. exfalso. unfold stops in Hs. rewrite !orb_false_iff in Hs. destruct Hs as [_ Hs]. cbn [set_cflags cflags] in Hs. rewrite negb_false_iff, Z.eqb_eq, Z.land_lor_distr_l in Hs. apply Z.lor_eq_0_iff in Hs as [_ Hs]. discriminate Hs.
  - destruct (execute w (argv c) (cflags c) (repl_ack_time c)) as [w' a p f t b|w']; [|exists w', c, false; by split_and!]. cbn [Z.eqb C_OK].
    assert (Hio : forall g, Z.land IO_FLAGS g = g -> Z.land (cflags c) g = 0 -> Z.land (flags_after (cflags c) f b) g = 0) by (intros g Hg; by rewrite after_io).
    assert (Hr0 : Z.land (cflags c) CLIENT_PENDING_READ = 0) by (unfold has_flag in Hr; lia). assert (Hp0 : Z.land (cflags c) CLIENT_PENDING_COMMAND = 0) by (unfold has_flag in Hp; lia).
    eexists _, _, _. split; [done|]. unfold commandProcessed, has_flag. cbn [cflags module_blocked]. rewrite after_blocked. destruct b as [[]|]; cbn [negb orb].
    + split; [done|]. do 3 (split; [done|]). cbn [cflags]. rewrite !Hio by done. split; [done|]. split; [done|]. intros _ Hs. exfalso. unfold stops in Hs. cbn [cflags] in Hs. rewrite after_blocked in Hs. done.
    + match goal with |- context [resetClient (mk_client (querybuf c) ?a1 ?a2 ?a3 ?a4 ?a5 ?a6 ?a7 ?a8 ?a9 ?a10)] => set (c2 := mk_client (querybuf c) a1 a2 a3 a4 a5 a6 a7 a8 a9 a10) end. destruct (reset_fields c2) as (E1 & E2 & E3 & E4 & E5 & E6 & E7). destruct (reset_more c2) as [_ E8]. split; [by rewrite (reset_cflags c2 (mk_client [] 0 a p 0 0 (-1) (flags_after (cflags c) f (Some false)) t [] false)), E8 by done|]. rewrite E1, E2, E3. do 3 (split; [done|]). split; [|split; [|done]]; (etransitivity; [apply (reset_flag c2); done|]; unfold has_flag; cbn [c2 cflags]; by rewrite Hio).
    + match goal with |- context [resetClient (mk_client (querybuf c) ?a1 ?a2 ?a3 ?a4 ?a5 ?a6 ?a7 ?a8 ?a9 ?a10)] => set (c2 := mk_client (querybuf c) a1 a2 a3 a4 a5 a6 a7 a8 a9 a10) end. destruct (reset_fields c2) as (E1 & E2 & E3 & E4 & E5 & E6 & E7). destruct (reset_more c2) as [_ E8]. split; [by rewrite (reset_cflags c2 (mk_client [] 0 a p 0 0 (-1) (flags_after (cflags c) f None) t [] false)), E8 by done|]. rewrite E1, E2, E3. do 3 (split; [done|]). split; [|split; [|done]]; (etransitivity; [apply (reset_flag c2); done|]; unfold has_flag; cbn [c2 cflags]; by rewrite Hio).
Qed.
End Serve.

Section InputProofs.
  Context {W : Type} `{HE : Executor W}.
  Context (junk : nat -> Z) (unixtime proto_max_bulk_len : Z) (gopher_enabled : bool).
  Context (Hmax : 0 <= proto_max_bulk_len < 2 ^ 62).

Lemma enc_nil cmds : enc cmds = [] -> cmds = [].
Proof. destruct cmds; [done|]. unfold enc. simpl. intros [=]. Qed.

(** The client is in the middle of the requests, or will not read them. *)
Record loop_inv (c : client) (fut : list Z) (cmds : list (list (list Z))) : Prop := {
  li_pos : pos_ok c;
  li_read : has_flag c CLIENT_PENDING_READ = false;
  li_pending : has_flag c CLIENT_PENDING_COMMAND = false;
  li_reply : reply c = [];
  li_state : stops (cflags c) = true \/ parsing c fut cmds
}.

Lemma parsing_reqtype c fut cmds x u :
  parsing c fut cmds -> unread c = x :: u ->
  cmds <> [] /\ let c1 := if reqtype c =? 0 then set_reqtype c (if x =? 42 then PROTO_REQ_MULTIBULK else PROTO_REQ_INLINE) else c in
  reqtype c1 = PROTO_REQ_MULTIBULK /\ parsing c1 fut cmds.
Proof.
  intros Hpar Eu. assert (Hne : cmds <> []).
  { destruct Hpar as [[_ (_ & _ & _ & E)]|[_ (left & rest & -> & _)]]; [|done].
    intros ->. rewrite Eu in E. discriminate E. }
  split; [done|]. cbv zeta. destruct Hpar as [[[Hr|Hr] Hat]|[Hr Hst]].
  - rewrite Hr. cbn [Z.eqb]. destruct Hat as (Hav & Hm & Hb & E). destruct cmds as [|a cmds]; [done|].
    rewrite Eu in E. unfold enc, enc_cmd in E. simpl in E. injection E as -> E. cbn [Z.eqb Pos.eqb].
    split; [done|]. left. split; [by right|]. split; [done|]. split; [done|]. split; [done|].
    change (unread c ++ fut = enc (a :: cmds)). rewrite Eu. unfold enc, enc_cmd. simpl. by rewrite E.
  - rewrite Hr. split; [done|]. left. auto.
  - rewrite Hr. split; [done|]. right. auto.
Qed.

(** A client that stops does nothing. *)
Lemma loop_stops fuel w c : stops (cflags c) = true -> input_loop junk unixtime proto_max_bulk_len false false gopher_enabled (S fuel) w c = Some (w, c, true).
Proof.
  unfold stops. intros Hs. cbn [input_loop]. destruct (negb (qb_pos c <? zlen (querybuf c))); [done|]. rewrite andb_false_r. fold (has_flag c CLIENT_BLOCKED) in Hs. fold (has_flag c CLIENT_PENDING_COMMAND) in Hs. fold (has_flag c (Z.lor CLIENT_CLOSE_AFTER_REPLY CLIENT_CLOSE_ASAP)) in Hs.
  destruct (has_flag c CLIENT_BLOCKED); [done|]. destruct (has_flag c CLIENT_PENDING_COMMAND); [done|]. cbn [andb]. cbn [orb] in Hs. by rewrite Hs.
Qed.
Lemma stops_same c c' : cflags c' = cflags c -> stops (cflags c) = false -> stops (cflags c') = false /\ has_flag c' CLIENT_BLOCKED = false /\ has_flag c' CLIENT_PENDING_COMMAND = false /\ has_flag c' (Z.lor CLIENT_CLOSE_AFTER_REPLY CLIENT_CLOSE_ASAP) = false.
Proof. unfold has_flag. intros -> Hs. split; [done|]. unfold stops in Hs. rewrite !orb_false_iff in Hs. tauto. Qed.
(** What is left to do when the loop ends. *)
Definition remains (w : W) (c : client) (alive : bool) (cmds : list (list (list Z))) : W * Z * Z * bool :=
  if alive then serve w (cflags c) (repl_ack_time c) cmds else (w, cflags c, repl_ack_time c, false).
Lemma input_loop_spec fuel : forall w c fut cmds,
  loop_inv c fut cmds -> Forall (ok_cmd proto_max_bulk_len) cmds -> zlen (unread c) < Z.of_nat fuel ->
  exists w' c' alive cmds', input_loop junk unixtime proto_max_bulk_len false false gopher_enabled fuel w c = Some (w', c', alive) /\
    serve w (cflags c) (repl_ack_time c) cmds = remains w' c' alive cmds' /\ Forall (ok_cmd proto_max_bulk_len) cmds' /\ reply c' = [] /\
    (alive = true -> loop_inv c' fut cmds' /\ zlen (querybuf c') <= zlen (querybuf c) /\ (stops (cflags c') = true \/ unread c' = [] \/ fut <> [])).
Proof.
  induction fuel as [|fuel IH]; intros w c fut cmds Hinv Hok Hf; [pose proof (zlen_nonneg (unread c)); lia|].
  pose proof Hinv as [Hp Hrd Hpn Hrep Hst]. destruct (stops (cflags c)) eqn:Es.
  { rewrite loop_stops by done. exists w, c, true, cmds. split; [done|]. split; [done|]. split; [done|]. split; [done|]. intros _. split; [done|]. split; [lia|by left]. }
  destruct Hst as [|Hpar]; [done|]. cbn [input_loop]. pose proof (unread_len c Hp) as Hlen.
  destruct (unread c) as [|x u] eqn:Eu.
  { change (zlen (@nil Z)) with 0 in Hlen. rewrite (proj2 (Z.ltb_ge _ _)) by lia. cbn [negb].
    exists w, c, true, cmds. split; [done|]. split; [done|]. split; [done|]. split; [done|]. intros _. split; [done|]. split; [lia|right; by left]. }
  rewrite zlen_cons in Hlen. pose proof (zlen_nonneg u). rewrite (proj2 (Z.ltb_lt _ _)) by lia. cbn [negb].
  destruct (parsing_reqtype c fut cmds x u Hpar Eu) as (Hne & Hrt & Hpar1). cbv zeta in Hrt, Hpar1.
  destruct (stops_same c c eq_refl Es) as (_ & Q1 & Q2 & Q3). rewrite andb_false_r, Q1, Q2, Q3. cbn [andb].
  change (load1 (x :: u) 0) with (Some x). cbn [mbind option_bind]. cbv zeta.
  set (c1 := if reqtype c =? 0 then _ else c) in *.
  assert (Hsame : pos_ok c1 /\ cflags c1 = cflags c /\ reply c1 = reply c /\ unread c1 = unread c /\ repl_ack_time c1 = repl_ack_time c /\ querybuf c1 = querybuf c)
    by (unfold c1; destruct (_ =? 0); done).
  destruct Hsame as (Hp1 & Hfl1 & Hrep1 & Hu1 & Hack1 & Hqb1). rewrite Hrt. cbn [Z.eqb Pos.eqb PROTO_REQ_MULTIBULK PROTO_REQ_INLINE].
  destruct (multibulk_spec proto_max_bulk_len Hmax c1 fut cmds Hp1 Hpar1 Hrt Hok Hne)
    as (c2 & rc & -> & Hp2 & (Hfl2 & Hrep2 & Hrt2 & Hack2 & Hql2) & Hres). cbn [mbind option_bind].
  assert (Efl : cflags c2 = cflags c) by congruence. assert (Eack : repl_ack_time c2 = repl_ack_time c) by congruence. destruct (stops_same c c2 Efl Es) as (Es2 & P1 & P2 & P3). assert (Hrd2 : has_flag c2 CLIENT_PENDING_READ = false) by (unfold has_flag in *; by rewrite Efl).
  destruct Hres as [(-> & rest & -> & Hat & Hlt)|(-> & Hfut & Hpar2)].
  - cbn [Z.eqb negb C_OK]. rewrite Hrt2, Hrt. cbn [Z.eqb Pos.eqb PROTO_REQ_MULTIBULK PROTO_REQ_INLINE andb].
    apply Forall_cons in Hok as [(Hane & _) Hok].
    assert (zlen (argv c2) <> 0) by (destruct (argv c2) as [|a l]; [done|]; rewrite zlen_cons; pose proof (zlen_nonneg l); lia).
    rewrite (proj2 (Z.eqb_neq _ _)) by done. rewrite Hrd2.
    destruct (run_spec w c2 Hrd2 P2) as (w3 & c3 & alive & -> & Esv & Eq & Epos & Erep & Hr3 & Hpn3 & Hreset). cbn [serve]. rewrite Es. rewrite <- Efl, <- Eack, Esv.
    assert (Hu3 : unread c3 = unread c2) by (unfold unread; by rewrite Eq, Epos).
    destruct alive; [|exists w3, c3, false, rest; split; [done|]; split; [done|]; split; [done|]; split; [congruence|done]].
    assert (Hinv3 : loop_inv c3 fut rest).
    { split; [unfold pos_ok; by rewrite Eq, Epos|done|done|congruence|].
    destruct (stops (cflags c3)) eqn:Es3; [by left|right]. destruct (Hreset eq_refl eq_refl) as (Eav & Em & Eb & Er). left. split; [by left|].
    split; [done|]. split; [done|]. split; [done|]. destruct Hat as (_ & _ & Hat). rewrite Hu3, Hat. done. }
    destruct (IH w3 c3 fut rest Hinv3 Hok) as (w4 & c4 & alive4 & cmds4 & E4 & Es4 & Hok4 & Hrep4 & Hres4); [rewrite Hu3; rewrite Hu1, Eu in Hlt; lia|].
    exists w4, c4, alive4, cmds4. do 4 (split; [done|]). intros Ha. destruct (Hres4 Ha) as (? & ? & ?). split; [done|]. split; [rewrite Eq in *; rewrite Hqb1 in Hql2; lia|done].
  - change (negb (C_ERR =? C_OK)) with true. cbn iota. exists w, c2, true, cmds. split; [done|]. split; [unfold remains; by rewrite Efl, Eack|]. split; [done|]. split; [congruence|]. intros _.
    split; [split; [done|done|done|congruence|by right]|]. split; [by rewrite Hqb1 in Hql2|right; by right].
Qed.

Lemma unread_zero c q : unread (set_querybuf c q 0) = q.
Proof. done. Qed.

(** Moving the unread bytes to the front changes nothing. *)
Lemma parsing_unread c c' fut fut' cmds :
  argv c' = argv c -> reqtype c' = reqtype c -> multibulklen c' = multibulklen c -> bulklen c' = bulklen c ->
  unread c' ++ fut' = unread c ++ fut -> parsing c fut cmds -> parsing c' fut' cmds.
Proof.
  intros Ea Er Em Eb Eu [[Hr (H1 & H2 & H3 & H4)]|[Hr (left & rest & -> & Hst)]].
  - left. split; [by rewrite Er|]. split; [congruence|]. split; [congruence|]. split; [congruence|]. by rewrite Eu.
  - right. split; [by rewrite Er|]. exists left, rest. split; [by rewrite Ea|].
    inversion Hst as [a l r (H1 & H2 & H3)|a l r (H1 & H2 & H3)]; subst; [apply mb_at_arg|apply mb_at_data];
      (split; [congruence|]; split; [congruence|]; by rewrite Eu).
Qed.

Lemma chunk_spec client_max_querybuf_len w c data fut cmds :
  loop_inv c (data ++ fut) cmds -> Forall (ok_cmd proto_max_bulk_len) cmds -> zlen (querybuf c) + zlen data <= client_max_querybuf_len ->
  exists w' c' alive cmds', readQueryFromClient junk unixtime proto_max_bulk_len false false gopher_enabled false client_max_querybuf_len w c (ReadData data) = Some (w', c', alive) /\
    serve w (cflags c) (repl_ack_time c) cmds = remains w' c' alive cmds' /\ Forall (ok_cmd proto_max_bulk_len) cmds' /\ reply c' = [] /\
    (alive = true -> loop_inv c' fut cmds' /\ zlen (querybuf c') <= zlen (querybuf c) + zlen data /\ (stops (cflags c') = true \/ unread c' = [] \/ fut <> [])).
Proof.
  intros [Hp Hrd Hpn Hrep Hst] Hok Hlim. unfold readQueryFromClient. cbn [postponeClientRead andb].
  set (c1 := set_querybuf c (querybuf c ++ data) (qb_pos c)). assert (Hz : zlen (querybuf c1) = zlen (querybuf c) + zlen data) by (cbn; apply zlen_app). cbv zeta. rewrite Hz, Z.gtb_ltb, (proj2 (Z.ltb_ge _ _)) by lia. unfold processInputBuffer.
  assert (Hu1 : unread c1 = unread c ++ data).
  { unfold unread, c1. cbn. unfold pos_ok, zlen in Hp. rewrite drop_app_le by lia. done. }
  assert (Hinv : loop_inv c1 fut cmds).
  { split; try done; [unfold pos_ok, c1 in *; cbn; rewrite zlen_app; pose proof (zlen_nonneg data); lia|]. destruct Hst as [|Hpar]; [by left|right].
    apply (parsing_unread c c1 (data ++ fut) fut); try done. by rewrite Hu1, <- app_assoc. }
  destruct (input_loop_spec (S (Z.to_nat (zlen (querybuf c1) - qb_pos c1))) w c1 fut cmds Hinv Hok)
    as (w2 & c2 & alive & cmds' & E & Esv & Hok' & Hrep2 & Hend).
  { rewrite (unread_len c1) by apply Hinv. pose proof (zlen_nonneg (unread c1)). lia. }
  rewrite E. cbn [mbind option_bind]. destruct alive; cbn [andb]; [|by exists w2, c2, false, cmds'].
  destruct (Hend eq_refl) as (Hinv2 & Hsh & Hend2). pose proof Hinv2 as [Hp2 Hrd2 Hpn2 _ Hst2]. destruct (Z.eqb_spec (qb_pos c2) 0) as [Hz2|Hz2]; cbn [negb].
  - exists w2, c2, true, cmds'. split; [done|]. split; [done|]. split; [done|]. split; [done|]. intros _. split; [done|]. split; [lia|done].
  - rewrite range_drop by exact Hp2. fold (unread c2). eexists w2, _, true, cmds'. split; [done|]. split; [done|]. split; [done|]. split; [done|]. intros _.
    split; [|split; [cbn; unfold unread, zlen in *; rewrite length_drop; lia|exact Hend2]]. split; try done; [split; [done|cbn; apply zlen_nonneg]|]. destruct Hst2 as [|Hpar2]; [by left|right].
    by apply (parsing_unread c2 _ fut fut).
Qed.

Lemma read_all_spec client_max_querybuf_len chunks : forall w c cmds,
  loop_inv c (concat chunks) cmds -> Forall (ok_cmd proto_max_bulk_len) cmds -> zlen (querybuf c) + zlen (concat chunks) <= client_max_querybuf_len ->
  (stops (cflags c) = true \/ unread c = [] \/ concat chunks <> []) ->
  exists w' c' alive, read_all junk unixtime proto_max_bulk_len false false gopher_enabled client_max_querybuf_len w c chunks = Some (w', c', alive) /\
    serve w (cflags c) (repl_ack_time c) cmds = (w', cflags c', repl_ack_time c', alive) /\ reply c' = [] /\
    (alive = true -> stops (cflags c') = false -> unread c' = [] /\ argv c' = [] /\ multibulklen c' = 0 /\ bulklen c' = -1).
Proof.
  induction chunks as [|data chunks IH]; intros w c cmds Hinv Hok Hlim Hend.
  - cbn [read_all]. exists w, c, true. split; [done|]. destruct Hinv as [_ _ _ Hrep Hst]. destruct (stops (cflags c)) eqn:Es; [by rewrite serve_stops|]. destruct Hend as [|[Hu|]]; [done| |done]. destruct Hst as [|Hpar]; [done|].
    destruct Hpar as [[_ (Hav & Hm & Hb & E)]|[_ (left & rest & -> & Hst)]].
    + rewrite Hu in E. symmetry in E. apply enc_nil in E as ->. by split_and!.
    + exfalso. inversion Hst as [a l r (_ & _ & E)|a l r (_ & _ & E)]; subst; rewrite Hu in E.
      * unfold enc_args in E. simpl in E. discriminate E.
      * destruct a; discriminate E.
  - cbn [read_all concat] in *. rewrite zlen_app in Hlim. pose proof (zlen_nonneg (concat chunks)). destruct (chunk_spec client_max_querybuf_len w c data (concat chunks) cmds Hinv Hok ltac:(lia)) as (w1 & c1 & alive & cmds' & -> & Esv & Hok' & Hrep1 & Hres).
    cbn [mbind option_bind]. destruct alive; [|exists w1, c1, false; by split_and!]. destruct (Hres eq_refl) as (Hinv1 & Hl1 & Hend1). rewrite Esv. cbn [remains]. apply IH; [done|done|lia|done].
Qed.
End InputProofs.

(** A client after [createClient]. *)
Definition newClient : client := mk_client [] 0 [] CmdNone 0 0 (-1) 0 0 [] false.

(** C2: the request parser is insensitive to fragmentation.  Any sequence of
    requests within the limits of the protocol, written in the multi bulk
    format and cut into reads at arbitrary places, is executed as exactly
    that sequence of commands, in order, with binary-safe arguments and
    without a protocol error, up to the first command that blocks, closes or
    frees the client, if there is one; else the query buffer ends empty.
    Executing a command can have any effect.  Arguments of 32 KB and more, which
    take over the query buffer, are no exception.  The reads are those of the
    main thread while clients are not paused, within the limit of the query
    buffer. *)
Theorem processInputBuffer_chunks {W : Type} `{HE : Executor W}
    junk unixtime proto_max_bulk_len client_max_querybuf_len gopher_enabled (w : W) cmds chunks :
  0 <= proto_max_bulk_len < 2 ^ 62 -> Forall (ok_cmd proto_max_bulk_len) cmds -> concat chunks = enc cmds -> zlen (enc cmds) <= client_max_querybuf_len ->
  exists w' c alive, read_all junk unixtime proto_max_bulk_len false false gopher_enabled client_max_querybuf_len w newClient chunks = Some (w', c, alive) /\
    serve w 0 0 cmds = (w', cflags c, repl_ack_time c, alive) /\ reply c = [] /\
    (alive = true -> stops (cflags c) = false -> unread c = [] /\ argv c = [] /\ multibulklen c = 0 /\ bulklen c = -1).
Proof.
  intros Hmax Hok E Hlim. apply (read_all_spec junk unixtime proto_max_bulk_len gopher_enabled Hmax); [|done|by rewrite E|right; by left].
  split; try done. right. left. split; [by left|]. by split_and!.
Qed.

(** *** An executor that records the commands; BLOCK blocks and KILL frees *)
#[export] Instance log_executor : Executor (list (list (list Z))) := {
  execute := fun w a fl t =>
    if bool_decide (a = [bytes_of_string "block"%string]) then Handled (w ++ [a]) a CmdOther fl t (Some false)
    else if bool_decide (a = [bytes_of_string "kill"%string]) then Freed (w ++ [a])
    else Handled (w ++ [a]) a CmdOther fl t None;
  reply_ok := fun w => w ++ [[bytes_of_string "OK"%string]];
  processGopherRequest := fun w a => w ++ [a]
}.

Lemma processInputBuffer_witness :
  exists w c alive, read_all (fun _ => 0) 0 512 false false true 1024 [] newClient
      [[42; 50; 13]; [10; 36; 49; 13; 10; 97]; [13; 10; 36; 48; 13; 10; 13; 10; 42; 49; 13; 10; 36; 52; 13; 10; 113; 117; 105; 116; 13]; [10; 42; 49; 13; 10; 36; 49; 13; 10; 98; 13; 10]] =
    Some (w, c, alive) /\ serve [] 0 0 [[[97]; []]; [[113; 117; 105; 116]]; [[98]]] = (w, cflags c, repl_ack_time c, alive) /\
    w = [[[97]; []]; [bytes_of_string "OK"%string]] /\ has_flag c CLIENT_CLOSE_AFTER_REPLY = true.
Proof.
  destruct (processInputBuffer_chunks (HE := log_executor) (fun _ => 0) 0 512 1024 true []
    [[[97]; []]; [[113; 117; 105; 116]]; [[98]]]
    [[42; 50; 13]; [10; 36; 49; 13; 10; 97]; [13; 10; 36; 48; 13; 10; 13; 10; 42; 49; 13; 10; 36; 52; 13; 10; 113; 117; 105; 116; 13]; [10; 42; 49; 13; 10; 36; 49; 13; 10; 98; 13; 10]])
    as (w & c & alive & E & Es & _).
  - lia.
  - repeat (apply Forall_cons_2; [split; [discriminate|]; split; [vm_compute; discriminate|]; repeat (apply Forall_cons_2; [vm_compute; discriminate|]); apply Forall_nil_2|]). apply Forall_nil_2.
  - vm_compute. reflexivity.
  - vm_compute. discriminate.
  - exists w, c, alive. split; [exact E|]. split; [exact Es|]. vm_compute in E. injection E as <- <- <-. split; reflexivity.
Defined.

(** ** Arbitrary input *)

(** *** sdssplitargs is total *)
Lemma bytes_drop n (p : list Z) : bytes_ok p -> bytes_ok (drop n p).
Proof. apply Forall_drop. Qed.

Lemma cat_byte p i : bytes_ok p -> byte_ok (cat p i).
Proof.
  intros Hp. unfold cat. destruct (p !! i) eqn:E; simpl; [|unfold byte_ok; lia].
  by apply (Forall_lookup_1 _ _ _ _ Hp E).
Qed.

Lemma cat_nonzero_cons p : cat p 0 <> 0 -> exists x q, p = x :: q /\ pnext p = q.
Proof.
  destruct p as [|x q]; [done|]. intros Hx. exists x, q. split; [done|]. unfold pnext.
  by rewrite (proj2 (Z.eqb_neq _ _)).
Qed.

Lemma pnext_le p : (length (pnext p) <= length p)%nat.
Proof. unfold pnext. destruct (_ =? 0); [done|]. rewrite length_drop. lia. Qed.

Lemma pnext_bytes p : bytes_ok p -> bytes_ok (pnext p).
Proof. intros. unfold pnext. destruct (_ =? 0); [done|by apply bytes_drop]. Qed.

Lemma token_loop_total junk fuel : forall inq insq cur l p,
  repr cur l -> bytes_ok p -> zlen l + zlen p < 2 ^ 61 -> (length p < fuel)%nat ->
  exists r, token_loop junk fuel inq insq cur p = Some r /\
    forall s p', r = TOk s p' -> bytes_ok p' /\ (length p' <= length p)%nat /\ (cat p 0 <> 0 -> (length p' < length p)%nat).
Proof.
  induction fuel as [|fuel IH]; intros inq insq cur l p Hr Hp Hn Hf; [lia|]. cbn [token_loop].
  pose proof (zlen_nonneg l). pose proof (zlen_nonneg p).
  (* a byte is appended and the scan goes on at a shorter rest *)
  assert (Hgo : forall inq' insq' b q, byte_ok b -> bytes_ok q -> (length q < length p)%nat ->
    exists r, (cur ← sdscatlen junk cur [b] 1; token_loop junk fuel inq' insq' cur q) = Some r /\
      forall s p', r = TOk s p' -> bytes_ok p' /\ (length p' <= length p)%nat /\ (cat p 0 <> 0 -> (length p' < length p)%nat)).
  { intros inq' insq' b q Hb Hq Hlt. destruct (cat1_spec junk cur l b Hr Hb ltac:(lia)) as (s1 & -> & Hr1). cbn [mbind option_bind].
    destruct (IH inq' insq' s1 (l ++ [b]) q Hr1 Hq) as (r & E & Hres).
    - rewrite zlen_app. change (zlen [b]) with 1. unfold zlen in *. lia.
    - lia.
    - exists r. split; [done|]. intros s p' ->. destruct (Hres s p' eq_refl) as (? & ? & _). split; [done|]. lia. }
  assert (Hstay : forall inq' insq' q, bytes_ok q -> (length q < length p)%nat ->
    exists r, token_loop junk fuel inq' insq' cur q = Some r /\
      forall s p', r = TOk s p' -> bytes_ok p' /\ (length p' <= length p)%nat /\ (cat p 0 <> 0 -> (length p' < length p)%nat)).
  { intros inq' insq' q Hq Hlt. destruct (IH inq' insq' cur l q Hr Hq) as (r & E & Hres); [unfold zlen in *; lia|lia|].
    exists r. split; [done|]. intros s p' ->. destruct (Hres s p' eq_refl) as (? & ? & _). split; [done|]. lia. }
  assert (Hdone : exists r, Some (TOk cur (pnext p)) = Some r /\
      forall s p', r = TOk s p' -> bytes_ok p' /\ (length p' <= length p)%nat /\ (cat p 0 <> 0 -> (length p' < length p)%nat)).
  { eexists. split; [done|]. intros s p' [= <- <-]. split; [by apply pnext_bytes|]. split; [apply pnext_le|].
    intros Hc. destruct (cat_nonzero_cons p Hc) as (x & q & -> & ->). simpl. lia. }
  assert (Herr : exists r, Some (@TErr sds) = Some r /\
      forall s p', r = TOk s p' -> bytes_ok p' /\ (length p' <= length p)%nat /\ (cat p 0 <> 0 -> (length p' < length p)%nat))
    by (eexists; split; [done|]; intros; discriminate).
  assert (Hskip : forall k, cat p 0 <> 0 -> (length (pnext (drop k p)) < length p)%nat).
  { intros k Hc. destruct (cat_nonzero_cons p Hc) as (x & q & -> & Eq). destruct k as [|k]; [rewrite drop_0, Eq; simpl; lia|].
    pose proof (pnext_le (drop (S k) (x :: q))). rewrite length_drop in *. simpl in *. lia. }
  pose proof (cat_byte p 0 Hp) as Hc0.
  destruct inq.
  - destruct ((cat p 0 =? 92) && (cat p 1 =? 120) && is_hex_digit (cat p 2) && is_hex_digit (cat p 3)) eqn:E1.
    { apply Hgo; [apply wrapu_range; lia|by apply pnext_bytes, bytes_drop|].
      apply Hskip. apply andb_true_iff in E1 as [[[E1 _]%andb_true_iff _]%andb_true_iff _]. zb. lia. }
    destruct ((cat p 0 =? 92) && negb (cat p 1 =? 0)) eqn:E2.
    { apply andb_true_iff in E2 as [E2 _]. zb. apply Hgo; [|by apply pnext_bytes, bytes_drop|apply Hskip; lia].
      pose proof (cat_byte (drop 1 p) 0 (bytes_drop 1 p Hp)) as Hb. unfold unescape, byte_ok in *. zcase; lia. }
    destruct (Z.eqb_spec (cat p 0) 34); [destruct (negb (cat p 1 =? 0) && negb (isspace (cat p 1))); [apply Herr|apply Hdone]|].
    destruct (Z.eqb_spec (cat p 0) 0); [apply Herr|]. apply Hgo; [done|by apply pnext_bytes|].
    rewrite <- (drop_0 p) at 1. by apply Hskip.
  - destruct insq.
    + destruct ((cat p 0 =? 92) && (cat p 1 =? 39)) eqn:E1.
      { apply andb_true_iff in E1 as [E1 _]. zb. apply Hgo; [unfold byte_ok; lia|by apply pnext_bytes, bytes_drop|apply Hskip; lia]. }
      destruct (Z.eqb_spec (cat p 0) 39); [destruct (negb (cat p 1 =? 0) && negb (isspace (cat p 1))); [apply Herr|apply Hdone]|].
      destruct (Z.eqb_spec (cat p 0) 0); [apply Herr|]. apply Hgo; [done|by apply pnext_bytes|].
      rewrite <- (drop_0 p) at 1. by apply Hskip.
    + destruct ((cat p 0 =? 32) || (cat p 0 =? 10) || (cat p 0 =? 13) || (cat p 0 =? 9) || (cat p 0 =? 0)) eqn:E1; [apply Hdone|].
      assert (Hnz : cat p 0 <> 0) by (zb; done).
      assert (Hlt : (length (pnext p) < length p)%nat) by (rewrite <- (drop_0 p) at 1; by apply Hskip).
      destruct (Z.eqb_spec (cat p 0) 34); [apply Hstay; [by apply pnext_bytes|done]|].
      destruct (Z.eqb_spec (cat p 0) 39); [apply Hstay; [by apply pnext_bytes|done]|].
      apply Hgo; [done|by apply pnext_bytes|done].
Qed.

Lemma skip_blanks_suffix p : bytes_ok p -> bytes_ok (skip_blanks p) /\ (length (skip_blanks p) <= length p)%nat.
Proof.
  induction p as [|c p IH]; intros Hp; [done|]. simpl. destruct (_ && _); [|done].
  apply Forall_cons in Hp as [_ Hp]. destruct (IH Hp). split; [done|lia].
Qed.

Lemma args_loop_total junk fuel : forall p vec,
  bytes_ok p -> zlen p < 2 ^ 61 -> (length p < fuel)%nat -> exists r, args_loop junk fuel p vec = Some r.
Proof.
  induction fuel as [|fuel IH]; intros p vec Hp Hn Hf; [lia|]. cbn [args_loop]. cbv zeta.
  destruct (skip_blanks_suffix p Hp) as [Hb Hle]. set (q := skip_blanks p) in *.
  destruct (Z.eqb_spec (cat q 0) 0) as [Hz|Hz]; cbn [negb]; [eauto|].
  destruct (empty_spec junk) as (cur & -> & Hcur). cbn [mbind option_bind].
  destruct (token_loop_total junk (S (length q)) false false cur [] q Hcur Hb) as (r & -> & Hres);
    [change (zlen (@nil Z)) with 0; unfold zlen in *; lia|lia|].
  cbn [mbind option_bind]. destruct r as [|s p']; [eauto|]. destruct (Hres s p' eq_refl) as (Hb' & _ & Hlt).
  specialize (Hlt Hz). apply IH; [done|unfold zlen in *; lia|lia].
Qed.

(** *** The parser never fails an assertion *)

(** A client whose next bytes can be parsed, whatever was sent. *)
Record client_inv (c : client) : Prop := {
  ci_pos : pos_ok c;
  ci_bytes : bytes_ok (querybuf c) /\ zlen (querybuf c) < 2 ^ 60;
  ci_mb : 0 <= multibulklen c /\ -1 <= bulklen c;
  ci_req : reqtype c = 0 \/ reqtype c = PROTO_REQ_INLINE \/ reqtype c = PROTO_REQ_MULTIBULK;
  ci_idle : multibulklen c = 0 -> argv c = [] /\ bulklen c = -1;
  ci_mode : reqtype c <> PROTO_REQ_MULTIBULK -> multibulklen c = 0;
  ci_star : reqtype c = PROTO_REQ_MULTIBULK -> multibulklen c = 0 -> exists u, unread c = 42 :: u;
  ci_err : reply c <> [] -> has_flag c CLIENT_CLOSE_AFTER_REPLY = true
}.

Lemma strchr_bounds b ch n : strchr b ch = Some n -> 0 <= n < zlen b /\ (ch <> hd 0 b -> 1 <= n).
Proof.
  revert n. induction b as [|c b IH]; intros n; [done|]. simpl. rewrite zlen_cons. pose proof (zlen_nonneg b).
  destruct (Z.eqb_spec c ch) as [->|]; [intros [= <-]; split; [lia|done]|].
  destruct (c =? 0); [done|]. destruct (strchr b ch) as [m|]; [|done]. cbn [mbind option_bind]. intros [= <-].
  destruct (IH m eq_refl) as [? _]. lia.
Qed.


Lemma protocol_error_inv c e : client_inv c -> client_inv (protocol_error c e).
Proof.
  intros [H1 H2 H3 H4 H5 H6 H7 H8]. constructor; try done.
  intros _. unfold has_flag. cbn [protocol_error setProtocolError addReplyError set_cflags cflags].
  rewrite Z.land_lor_distr_l, Z.land_diag. apply negb_true_iff, Z.eqb_neq. rewrite Z.lor_eq_0_iff. intros [_ [=]].
Qed.

Lemma unread_le c : zlen (unread c) <= zlen (querybuf c).
Proof. unfold unread, zlen. rewrite length_drop. lia. Qed.

Lemma if_inv (b : bool) c c' : client_inv c -> client_inv c' -> client_inv (if b then c else c').
Proof. by destruct b. Qed.

Lemma unread_bytes c : client_inv c -> bytes_ok (unread c) /\ zlen (unread c) < 2 ^ 60.
Proof.
  intros Hc. destruct (ci_bytes c Hc). split; [by apply bytes_drop|].
  unfold unread, zlen in *. rewrite length_drop. lia.
Qed.

(** The outcome of a complete or incomplete request: on [C_OK] the arguments
    are there and at least one byte was consumed. *)
Definition parsed (c c' : client) (rc : Z) : Prop :=
  (rc = C_ERR /\ client_inv c') \/
  (rc = C_OK /\ pos_ok c' /\ bytes_ok (querybuf c') /\ zlen (querybuf c') < 2 ^ 60 /\ zlen (unread c') < zlen (unread c) /\
   reply c' = reply c /\ cflags c' = cflags c /\ reqtype c' = reqtype c).

Lemma inline_total junk unixtime c :
  client_inv c -> exists c' rc, processInlineBuffer junk unixtime c = Some (c', rc) /\ parsed c c' rc.
Proof.
  intros Hc. unfold processInlineBuffer. destruct (unread_bytes c Hc) as [Hb Hl].
  destruct (strchr (unread c) 10) as [n|] eqn:En.
  2:{ eexists _, _. split; [done|]. left. split; [done|]. apply if_inv; [by apply protocol_error_inv|done]. }
  destruct (strchr_bounds _ _ _ En) as [Hn _].
  assert (Hprev : exists prev, (if n =? 0 then Some 0 else load1 (unread c) (n - 1)) = Some prev).
  { destruct (Z.eqb_spec n 0); [eauto|]. unfold load1. rewrite (proj2 (Z.leb_le 0 (n - 1))) by lia.
    apply lookup_lt_is_Some_2. unfold zlen in Hn. lia. }
  destruct Hprev as [prev ->]. cbn [mbind option_bind].
  set (p := if negb (n =? 0) && (prev =? 13) then (n - 1, 2) else (n, 1)).
  assert (Hp : 0 <= p.1 /\ 1 <= p.2 /\ p.1 + p.2 = n + 1).
  { unfold p. destruct (Z.eqb_spec n 0), (prev =? 13); simpl; lia. }
  destruct p as [q lf]. simpl in Hp.
  destruct (load_some (unread c) 0 q ltac:(lia) ltac:(lia) ltac:(lia)) as (aux & Eaux & Hlaux). rewrite Eaux. cbn [mbind option_bind].
  assert (Haux : bytes_ok aux).
  { unfold load in Eaux. destruct (_ && _); [|done]. injection Eaux as <-. by apply Forall_take, Forall_drop. }
  unfold sdssplitargs. destruct (args_loop_total junk (S (length aux)) aux [] Haux) as [r ->]; [lia|lia|]. cbn [mbind option_bind].
  destruct r as [args|]; [|eexists _, _; split; [done|]; left; split; [done|by apply protocol_error_inv]].
  eexists _, _. split; [done|]. right. split; [done|].
  pose proof (unread_len c (ci_pos c Hc)) as Hul. pose proof (ci_pos c Hc) as Hpos. unfold pos_ok in Hpos.
  set (c1 := if (q =? 0) && is_slave c then set_ack c unixtime else c).
  assert (Hc1 : querybuf c1 = querybuf c /\ qb_pos c1 = qb_pos c /\ reply c1 = reply c /\ cflags c1 = cflags c /\ reqtype c1 = reqtype c)
    by (unfold c1; destruct (_ && _); done).
  destruct Hc1 as (E1 & E2 & E3 & E4 & E5). destruct (ci_bytes c Hc) as [Hqb Hql].
  set (c2 := set_argv _ _). assert (F1 : querybuf c2 = querybuf c) by exact E1.
  assert (F2 : qb_pos c2 = qb_pos c + (q + lf)) by (cbn; by rewrite E2).
  split; [unfold pos_ok; rewrite F1, F2; lia|]. rewrite F1. split; [done|]. split; [done|].
  split; [|split; [exact E3|split; [exact E4|exact E5]]].
  unfold unread in *. rewrite F1, F2. unfold zlen in *. rewrite !length_drop in *. lia.
Qed.

Lemma find_line_bounds c n :
  pos_ok c -> find_line c = LLine n -> 0 <= n /\ n + 2 <= zlen (unread c) /\ (hd 0 (unread c) <> 13 -> 1 <= n).
Proof.
  intros Hp. unfold find_line. rewrite (unread_len c Hp). destruct (strchr (unread c) 13) as [m|] eqn:E; [|done].
  destruct (strchr_bounds _ _ _ E) as [Hb Hh]. rewrite Z.gtb_ltb. destruct (Z.ltb_spec (zlen (unread c) - 2) m); [done|].
  intros [= <-]. split; [lia|]. split; [lia|]. intros. apply Hh. congruence.
Qed.

(** The state inside a multi bulk request. *)
Definition mb_inv (c0 c : client) : Prop :=
  client_inv c /\ 1 <= multibulklen c /\ reqtype c = PROTO_REQ_MULTIBULK /\ reqtype c0 = PROTO_REQ_MULTIBULK /\
  reply c = reply c0 /\ cflags c = cflags c0 /\ zlen (unread c) <= zlen (unread c0).

Lemma advance_inv c n :
  client_inv c -> 0 <= n <= zlen (unread c) ->
  pos_ok (set_pos c (qb_pos c + n)) /\ zlen (unread (set_pos c (qb_pos c + n))) = zlen (unread c) - n.
Proof.
  intros Hc Hn. pose proof (unread_len c (ci_pos c Hc)) as Hul. pose proof (ci_pos c Hc) as Hp. unfold pos_ok in Hp.
  split; [unfold pos_ok; cbn; lia|]. unfold unread in *. cbn. unfold zlen in *. rewrite !length_drop in *. lia.
Qed.

Lemma header_total c :
  client_inv c -> multibulklen c = 0 -> reqtype c = PROTO_REQ_MULTIBULK -> unread c <> [] ->
  exists r, mb_header c = Some r /\
    match r with MReturn c' rc => parsed c c' rc | MGoOn c' => mb_inv c c' /\ zlen (unread c') < zlen (unread c) end.
Proof.
  intros Hc Hm Hr Hne. unfold mb_header. destruct (ci_idle c Hc Hm) as [Hav Hbl]. rewrite Hav.
  change (zlen (@nil (list Z)) =? 0) with true. cbn [negb].
  destruct (ci_star c Hc Hr Hm) as [u Eu].
  destruct (find_line c) as [| |n] eqn:En.
  - eexists. split; [done|]. left. split; [done|]. apply if_inv; [by apply protocol_error_inv|done].
  - eexists. split; [done|]. by left.
  - destruct (find_line_bounds c n (ci_pos c Hc) En) as (Hn0 & Hn2 & Hn1). rewrite Eu in Hn1. specialize (Hn1 ltac:(simpl; lia)).
    assert (L1 : load1 (unread c) 0 = Some 42) by (by rewrite Eu).
    rewrite L1. cbn [mbind option_bind Z.eqb negb Pos.eqb].
    destruct (load_some (unread c) 1 (n - 1) ltac:(lia) ltac:(lia) ltac:(lia)) as (ds & -> & _). cbn [mbind option_bind].
    destruct (string2ll ds) as [ll|]; [|eexists; split; [done|]; left; split; [done|by apply protocol_error_inv]].
    destruct (ll >? 1024 * 1024); [eexists; split; [done|]; left; split; [done|by apply protocol_error_inv]|].
    rewrite <- Z.add_assoc. destruct (advance_inv c (n + 2) Hc ltac:(lia)) as [Hpa Hza]. destruct (ci_bytes c Hc) as [Hqb Hql].
    destruct (Z.leb_spec ll 0).
    + eexists. split; [done|]. right. split; [done|]. split; [exact Hpa|]. split; [exact Hqb|]. split; [exact Hql|].
      split; [lia|]. done.
    + eexists. split; [done|]. set (c1 := set_mb _ _ _).
      assert (Hz1 : zlen (unread c1) = zlen (unread c) - (n + 2)) by exact Hza.
      split; [|lia]. split; [|split; [cbn; lia|split; [exact Hr|split; [exact Hr|split; [done|split; [done|lia]]]]]].
      constructor.
      * exact Hpa.
      * done.
      * cbn. lia.
      * right. by right.
      * cbn. lia.
      * intros Hx. by destruct Hx.
      * cbn. lia.
      * exact (ci_err c Hc).
Qed.

Lemma bulklen_total pmb c0 c :
  mb_inv c0 c -> bulklen c = -1 ->
  exists r, mb_bulklen pmb c = Some r /\
    match r with
    | ABreak c' => client_inv c' /\ 1 <= multibulklen c'
    | AReturnErr c' => client_inv c'
    | ANext c' => (mb_inv c0 c' /\ 0 <= bulklen c') /\ multibulklen c' = multibulklen c
    end.
Proof.
  intros (Hc & Hm & Hr & Hr0 & Hrep & Hfl & Hz) Hbl. unfold mb_bulklen. pose proof (ci_bytes c Hc) as [Hqb Hql].
  destruct (find_line c) as [| |n] eqn:En.
  - destruct (_ >? _); eexists; (split; [done|]); cbv beta iota; [by apply protocol_error_inv|done].
  - by eexists.
  - destruct (find_line_bounds c n (ci_pos c Hc) En) as (Hn0 & Hn2 & Hn1).
    destruct (zlen_pos_cons (unread c) ltac:(lia)) as (x & u & Eu).
    assert (L1 : load1 (unread c) 0 = Some x) by (by rewrite Eu). rewrite L1. cbn [mbind option_bind].
    destruct (Z.eqb_spec x 36) as [->|]; cbn [negb]; [|eexists; split; [done|]; by apply protocol_error_inv].
    rewrite Eu in Hn1. specialize (Hn1 ltac:(simpl; lia)).
    destruct (load_some (unread c) 1 (n - 1) ltac:(lia) ltac:(lia) ltac:(lia)) as (ds & -> & _). cbn [mbind option_bind].
    destruct (string2ll ds) as [ll|]; [|eexists; split; [done|]; by apply protocol_error_inv].
    destruct (Z.ltb_spec ll 0) as [|Hll]; [eexists; split; [done|]; by apply protocol_error_inv|]. cbn [orb].
    destruct (ll >? pmb); [eexists; split; [done|]; by apply protocol_error_inv|].
    rewrite <- Z.add_assoc. destruct (advance_inv c (n + 2) Hc ltac:(lia)) as [Hpa Hza].
    set (c1 := set_pos c (qb_pos c + (n + 2))) in *.
    assert (Hbuild : forall c2, querybuf c2 = querybuf c1 \/ querybuf c2 = unread c1 -> pos_ok c2 -> zlen (unread c2) <= zlen (unread c1) ->
      multibulklen c2 = multibulklen c -> reqtype c2 = reqtype c -> reply c2 = reply c -> cflags c2 = cflags c -> bulklen c2 = ll ->
      (mb_inv c0 c2 /\ 0 <= bulklen c2) /\ multibulklen c2 = multibulklen c).
    { intros c2 Eq Hp2 Hz2 E1 E2 E3 E4 E5. split; [|done]. split; [|by rewrite E5]. split; [|split_and!; try congruence; lia].
      constructor.
      - done.
      - destruct Eq as [->| ->]; [done|]. split; [by apply bytes_drop|]. pose proof (unread_le c1).
        change (querybuf c1) with (querybuf c) in *. lia.
      - lia.
      - right. right. congruence.
      - lia.
      - congruence.
      - lia.
      - rewrite E3. unfold has_flag. rewrite E4. exact (ci_err c Hc). }
    destruct (_ && _); eexists; (split; [done|]); apply Hbuild; try done.
    + right. cbn. by rewrite range_drop by exact Hpa.
    + cbn. rewrite range_drop by exact Hpa. split; [done|]. apply zlen_nonneg.
    + unfold unread at 1. cbn. rewrite range_drop by exact Hpa. done.
    + by left.
Qed.

Lemma bulk_total c0 c :
  mb_inv c0 c -> 0 <= bulklen c ->
  exists r, mb_bulk c = Some r /\
    match r with
    | ABreak c' => client_inv c' /\ 1 <= multibulklen c'
    | AReturnErr _ => False
    | ANext c' => pos_ok c' /\ bytes_ok (querybuf c') /\ zlen (querybuf c') < 2 ^ 60 /\ zlen (unread c') < zlen (unread c0) /\
        multibulklen c' = multibulklen c - 1 /\ bulklen c' = -1 /\ reply c' = reply c0 /\ cflags c' = cflags c0 /\ reqtype c' = reqtype c
    end.
Proof.
  intros (Hc & Hm & Hr & Hr0 & Hrep & Hfl & Hz) Hbl. unfold mb_bulk. rewrite (unread_len c (ci_pos c Hc)).
  destruct (Z.ltb_spec (zlen (unread c)) (bulklen c + 2)); [by eexists|]. pose proof (ci_bytes c Hc) as [Hqb Hql].
  destruct (_ && _ && _) eqn:Ebig; cbn [mbind option_bind].
  - eexists. split; [done|]. apply andb_true_iff in Ebig as [[Hq0%Z.eqb_eq _]%andb_true_iff _].
    split; [unfold pos_ok; cbn; by rewrite Hq0|]. split; [constructor|]. split; [done|].
    split; [unfold unread at 1; cbn; rewrite drop_nil; change (zlen (@nil Z)) with 0; lia|]. done.
  - destruct (load_some (unread c) 0 (bulklen c) ltac:(lia) ltac:(lia) ltac:(lia)) as (arg & -> & _). cbn [mbind option_bind].
    destruct (advance_inv c (bulklen c + 2) Hc ltac:(lia)) as [Hpa Hza].
    eexists. split; [done|]. split; [exact Hpa|]. split; [exact Hqb|]. split; [exact Hql|].
    split; [|done]. change (zlen (unread (set_pos c (qb_pos c + (bulklen c + 2)))) < zlen (unread c0)). lia.
Qed.

Lemma mb_loop_total pmb fuel : forall c0 c,
  mb_inv c0 c -> multibulklen c < Z.of_nat fuel ->
  exists c' rc, mb_loop pmb fuel c = Some (c', rc) /\ parsed c0 c' rc.
Proof.
  induction fuel as [|fuel IH]; intros c0 c Hi Hf; pose proof Hi as (Hc & Hm & Hr & Hr0 & Hrep & Hfl & Hz); [lia|].
  cbn [mb_loop]. rewrite (proj2 (Z.eqb_neq (multibulklen c) 0)) by lia. unfold mb_iter.
  assert (Hdata : forall c1, mb_inv c0 c1 -> 0 <= bulklen c1 -> multibulklen c1 = multibulklen c ->
    exists c' rc, (r ← mb_bulk c1; match r with
        | ABreak c => Some (c, if multibulklen c =? 0 then C_OK else C_ERR)
        | AReturnErr c => Some (c, C_ERR)
        | ANext c => mb_loop pmb fuel c end) = Some (c', rc) /\ parsed c0 c' rc).
  { intros c1 Hi1 Hb1 Em. pose proof Hi1 as (Hc1 & _ & Hr1 & _).
    destruct (bulk_total c0 c1 Hi1 Hb1) as ([c2|c2|c2] & -> & Hres); cbn [mbind option_bind].
    - destruct Hres as [Hc2 Hm2]. rewrite (proj2 (Z.eqb_neq _ _)) by lia. eexists _, _. split; [done|]. by left.
    - done.
    - destruct Hres as (Hp2 & Hq2 & Hl2 & Hu2 & Hm2 & Hb2 & Hrep2 & Hfl2 & Hr2).
      destruct (Z.eq_dec (multibulklen c2) 0) as [Hz2|Hnz2].
      + destruct fuel; [lia|]. cbn [mb_loop]. rewrite Hz2. cbn [Z.eqb]. eexists _, _. split; [done|]. right.
        split; [done|]. split_and!; try done. congruence.
      + apply IH; [|lia]. split; [|split_and!; (congruence || lia)].
        constructor; [done|done|lia|right; right; congruence|lia|congruence|lia|].
        rewrite Hrep2. unfold has_flag. rewrite Hfl2. intros Hne. rewrite <- Hfl. apply (ci_err c Hc). congruence. }
  destruct (Z.eqb_spec (bulklen c) (-1)) as [Hbl|Hbl].
  - destruct (bulklen_total pmb c0 c Hi Hbl) as (r & -> & Hres). cbn [mbind option_bind].
    destruct r as [c1|c1|c1].
    + destruct Hres as [Hc1 Hm1]. cbn [mbind option_bind]. rewrite (proj2 (Z.eqb_neq _ _)) by lia.
      eexists _, _. split; [done|]. by left.
    + cbn [mbind option_bind]. eexists _, _. split; [done|]. by left.
    + destruct Hres as [[Hi1 Hb1] Em]. by apply Hdata.
  - cbn [mbind option_bind]. destruct (ci_mb c Hc). apply Hdata; (done || lia).
Qed.

Lemma multibulk_total pmb c :
  client_inv c -> reqtype c = PROTO_REQ_MULTIBULK -> unread c <> [] ->
  exists c' rc, processMultibulkBuffer pmb c = Some (c', rc) /\ parsed c c' rc.
Proof.
  intros Hc Hr Hne. unfold processMultibulkBuffer. destruct (ci_mb c Hc) as [Hm0 _].
  assert (Hgo : forall c1, mb_inv c c1 -> exists c' rc,
    (if multibulklen c1 >? 0 then mb_loop pmb (S (Z.to_nat (multibulklen c1))) c1 else None) = Some (c', rc) /\ parsed c c' rc).
  { intros c1 Hi. pose proof Hi as (_ & Hm1 & _). rewrite Z.gtb_ltb, (proj2 (Z.ltb_lt _ _)) by lia.
    apply mb_loop_total; [done|lia]. }
  destruct (Z.eqb_spec (multibulklen c) 0) as [Hz|Hz].
  - destruct (header_total c Hc Hz Hr Hne) as (r & -> & Hres). cbn [mbind option_bind]. destruct r as [c1 rc|c1]; [eauto|].
    apply Hgo, Hres.
  - cbn [mbind option_bind]. apply Hgo. split_and!; (done || lia).
Qed.

(** What the parser leaves alone, on every input. *)
Definition framed (c c' : client) : Prop :=
  module_blocked c' = module_blocked c /\ (cflags c' = cflags c \/ cflags c' = Z.lor (cflags c) CLIENT_CLOSE_AFTER_REPLY) /\ zlen (querybuf c') <= zlen (querybuf c).
Lemma framed_refl c : framed c c.
Proof. split; [done|]. split; [by left|lia]. Qed.
Lemma framed_error c e : framed c (protocol_error c e).
Proof. split; [done|]. split; [by right|cbn; lia]. Qed.
Lemma framed_if (b : bool) c x y : framed c x -> framed c y -> framed c (if b then x else y).
Proof. by destruct b. Qed.
Lemma framed_trans a b c : framed a b -> framed b c -> framed a c.
Proof.
  intros (H1 & H2 & H3) (K1 & K2 & K3). split; [congruence|]. split; [|lia]. destruct H2 as [H2|H2], K2 as [K2|K2]; rewrite K2, H2; [by left|by right|by right|right]. by rewrite <- Z.lor_assoc, Z.lor_diag.
Qed.
Lemma range_shorter l a b : zlen (spec_range l a b) <= zlen l.
Proof. unfold spec_range, zlen. rewrite length_drop, length_take. lia. Qed.
Lemma inline_framed junk unixtime c c' rc : processInlineBuffer junk unixtime c = Some (c', rc) -> framed c c'.
Proof.
  unfold processInlineBuffer. intros E. destruct (strchr (unread c) 10) as [nl|]; [|injection E as <- <-; apply framed_if; [apply framed_error|apply framed_refl]].
  destruct (if nl =? 0 then Some 0 else load1 (unread c) (nl - 1)) as [prev|]; [|done]. cbn [mbind option_bind] in E. destruct (if negb (nl =? 0) && (prev =? 13) then (nl - 1, 2) else (nl, 1)) as [newline lf]. destruct (load (unread c) 0 newline) as [aux|]; [|done]. cbn [mbind option_bind] in E. destruct (sdssplitargs junk aux) as [[args|]|]; [| |done]; cbn [mbind option_bind] in E; injection E as <- <-; [|apply framed_error].
  destruct (_ && _); (split; [done|]; split; [by left|cbn; lia]).
Qed.
Definition res_client (r : mb_res) : client := match r with MReturn c _ => c | MGoOn c => c end.
Lemma header_framed c r : mb_header c = Some r -> framed c (res_client r).
Proof.
  unfold mb_header. intros E. destruct (negb _); [done|]. destruct (find_line c) as [| |nl]; [injection E as <-; cbn [res_client]; apply framed_if; [apply framed_error|apply framed_refl]|injection E as <-; apply framed_refl|].
  destruct (load1 (unread c) 0) as [c0|]; [|done]. cbn [mbind option_bind] in E. destruct (negb (c0 =? 42)); [done|]. destruct (load (unread c) 1 (nl - 1)) as [digits|]; [|done]. cbn [mbind option_bind] in E. destruct (string2ll digits) as [ll|]; [|injection E as <-; apply framed_error]. destruct (ll >? 1024 * 1024); [injection E as <-; apply framed_error|]. destruct (ll <=? 0); injection E as <-; (split; [done|]; split; [by left|cbn; lia]).
Qed.
Definition arg_client (r : arg_res) : client := match r with ABreak c => c | AReturnErr c => c | ANext c => c end.
Lemma bulklen_framed pmb c r : mb_bulklen pmb c = Some r -> framed c (arg_client r).
Proof.
  unfold mb_bulklen. intros E. destruct (find_line c) as [| |nl]; [injection E as <-; destruct (_ >? _); [apply framed_error|apply framed_refl]|injection E as <-; apply framed_refl|].
  destruct (load1 (unread c) 0) as [c0|]; [|done]. cbn [mbind option_bind] in E. destruct (negb (c0 =? 36)); [injection E as <-; apply framed_error|]. destruct (load (unread c) 1 (nl - 1)) as [digits|]; [|done]. cbn [mbind option_bind] in E. destruct (string2ll digits) as [ll|]; [|injection E as <-; apply framed_error]. destruct (_ || _); [injection E as <-; apply framed_error|]. cbv zeta in E. destruct (_ && _); injection E as <-; (split; [done|]; split; [by left|]); cbn; [apply range_shorter|lia].
Qed.
Lemma bulk_framed c r : mb_bulk c = Some r -> framed c (arg_client r).
Proof.
  unfold mb_bulk. intros E. destruct (_ <? _); [injection E as <-; apply framed_refl|]. destruct (_ && _ && _); cbn [mbind option_bind] in E; [injection E as <-; split; [done|]; split; [by left|cbn; apply zlen_nonneg]|]. destruct (load (unread c) 0 (bulklen c)); [|done]. cbn [mbind option_bind] in E. injection E as <-. split; [done|]. split; [by left|cbn; lia].
Qed.
Lemma iter_framed pmb c r : mb_iter pmb c = Some r -> framed c (arg_client r).
Proof.
  unfold mb_iter. intros E. destruct (bulklen c =? -1); [|cbn [mbind option_bind] in E; by apply bulk_framed]. destruct (mb_bulklen pmb c) as [x|] eqn:Ex; [|done]. cbn [mbind option_bind] in E. apply bulklen_framed in Ex. destruct x as [x|x|x]; [injection E as <-; done..|]. apply bulk_framed in E. by eapply framed_trans.
Qed.
Lemma loop_framed pmb fuel : forall c c' rc, mb_loop pmb fuel c = Some (c', rc) -> framed c c'.
Proof.
  induction fuel as [|fuel IH]; intros c c' rc E; [done|]. cbn [mb_loop] in E. destruct (multibulklen c =? 0); [injection E as <- <-; apply framed_refl|]. destruct (mb_iter pmb c) as [x|] eqn:Ex; [|done]. cbn [mbind option_bind] in E. apply iter_framed in Ex. destruct x as [x|x|x]; [injection E as <- <-; done..|]. eapply framed_trans; [done|by eapply IH].
Qed.
Lemma multibulk_framed pmb c c' rc : processMultibulkBuffer pmb c = Some (c', rc) -> framed c c'.
Proof.
  unfold processMultibulkBuffer. intros E. assert (Hgo : forall c1, framed c c1 -> (if multibulklen c1 >? 0 then mb_loop pmb (S (Z.to_nat (multibulklen c1))) c1 else None) = Some (c', rc) -> framed c c') by (intros c1 H1 H2; destruct (_ >? 0); [|done]; eapply framed_trans; [done|by eapply loop_framed]).
  destruct (multibulklen c =? 0); [|cbn [mbind option_bind] in E; by apply (Hgo c (framed_refl c))]. destruct (mb_header c) as [x|] eqn:Ex; [|done]. cbn [mbind option_bind] in E. apply header_framed in Ex. destruct x as [x y|x]; [by injection E as <- <-|]. by apply (Hgo x).
Qed.
Lemma has_flag_lor_l c a b : has_flag c a = true -> has_flag c (Z.lor a b) = true.
Proof.
  unfold has_flag. rewrite !negb_true_iff, !Z.eqb_neq, Z.land_lor_distr_r, Z.lor_eq_0_iff. tauto.
Qed.

Lemma has_flag_set c f : f <> 0 -> has_flag (set_cflags c (Z.lor (cflags c) f)) f = true.
Proof.
  intros Hf. unfold has_flag. cbn. rewrite Z.land_lor_distr_l, Z.land_diag. apply negb_true_iff, Z.eqb_neq.
  rewrite Z.lor_eq_0_iff. tauto.
Qed.

(** What holds of every client between two events: the buffer is sound; the next
    bytes can be parsed, or a parsed command waits for the main thread, or the
    client is being closed, or a module holds it. *)
Record safe (B : Z) (c : client) : Prop := {
  sf_pos : pos_ok c;
  sf_bytes : bytes_ok (querybuf c);
  sf_len : zlen (querybuf c) <= B;
  sf_err : reply c <> [] -> has_flag c CLIENT_CLOSE_AFTER_REPLY = true;
  sf_pending : has_flag c CLIENT_PENDING_COMMAND = true -> argv c <> [] /\ module_blocked c = false /\ reply c = [];
  sf_module : module_blocked c = true -> has_flag c CLIENT_BLOCKED = true;
  sf_state : client_inv c \/ has_flag c CLIENT_PENDING_COMMAND = true \/ has_flag c CLIENT_CLOSE_AFTER_REPLY = true \/ module_blocked c = true
}.
(** The state after a request was executed: the rest of the buffer is a new
    request. *)
Lemma idle_inv c :
  pos_ok c -> bytes_ok (querybuf c) -> zlen (querybuf c) < 2 ^ 60 -> argv c = [] -> multibulklen c = 0 -> bulklen c = -1 ->
  reqtype c = 0 -> (reply c <> [] -> has_flag c CLIENT_CLOSE_AFTER_REPLY = true) -> client_inv c.
Proof.
  intros Hp Hb Hl Ha Hm Hbl Hr He. constructor; try done; try lia; try (by left).
  rewrite Hr. intros [=].
Qed.
Lemma safe_flags B c f g : safe B c -> Z.land g (Z.lor (Z.lor CLIENT_PENDING_COMMAND CLIENT_BLOCKED) CLIENT_CLOSE_AFTER_REPLY) = 0 -> f = Z.lor (cflags c) g \/ f = Z.ldiff (cflags c) g -> safe B (set_cflags c f).
Proof.
  intros [H1 H2 H3 H4 H5 H6 H7] Hg Hf. rewrite !Z.land_lor_distr_r in Hg. apply Z.lor_eq_0_iff in Hg as [[G1 G2]%Z.lor_eq_0_iff G3].
  assert (Hx : forall x, Z.land g x = 0 -> has_flag (set_cflags c f) x = has_flag c x) by (intros x Hx; unfold has_flag; cbn [set_cflags cflags]; destruct Hf as [-> | ->]; [by rewrite land_lor_disjoint|by rewrite land_ldiff_disjoint]).
  split; try done; rewrite ?Hx by done; try done. destruct H7 as [[K1 K2 K3 K4 K5 K6 K7 K8]|H7]; [left|by right]. constructor; try done. by rewrite Hx.
Qed.
Section Safety.
  Context {W : Type} `{HE : Executor W} (junk : nat -> Z) (B : Z) (HB : B < 2 ^ 60).
Lemma safe_reset c : pos_ok c -> bytes_ok (querybuf c) -> zlen (querybuf c) <= B -> (reply c <> [] -> has_flag c CLIENT_CLOSE_AFTER_REPLY = true) -> has_flag c CLIENT_PENDING_COMMAND = false -> module_blocked c = false -> safe B (resetClient c).
Proof.
  intros Hp Hb Hl He Hpc Hm. destruct (reset_fields c) as (E1 & E2 & E3 & E4 & E5 & E6 & E7). destruct (reset_more c) as [E8 _]. pose proof (fun f => reset_flag c f) as Hf.
  split; rewrite ?E1, ?E3, ?E8, ?Hf by done; try done; [unfold pos_ok; by rewrite E1, E2|congruence|congruence|]. left. apply idle_inv; rewrite ?E1, ?E3, ?Hf by done; try done; [unfold pos_ok; by rewrite E1, E2|lia].
Qed.
(** Any command leaves the client in a safe state. *)
Lemma run_safe w c : pos_ok c -> bytes_ok (querybuf c) -> zlen (querybuf c) <= B -> reply c = [] -> has_flag c CLIENT_PENDING_COMMAND = false -> module_blocked c = false ->
  exists w' c' alive, processCommandAndResetClient w c = (w', c', alive) /\ querybuf c' = querybuf c /\ qb_pos c' = qb_pos c /\ (alive = true -> safe B c').
Proof.
  intros Hp Hb Hl Hrep Hpc Hm. unfold processCommandAndResetClient, processCommand. destruct (is_quit (argv c)).
  - eexists _, _, _. split; [done|]. change (C_ERR =? C_OK) with false. cbn iota. split; [done|]. split; [done|]. intros _. assert (Hc : has_flag (set_cflags c (Z.lor (cflags c) CLIENT_CLOSE_AFTER_REPLY)) CLIENT_CLOSE_AFTER_REPLY = true) by (by apply has_flag_set). assert (Hpc2 : has_flag (set_cflags c (Z.lor (cflags c) CLIENT_CLOSE_AFTER_REPLY)) CLIENT_PENDING_COMMAND = false) by (unfold has_flag; cbn [set_cflags cflags]; by rewrite land_lor_disjoint).
    split; try done; [congruence|cbn [set_cflags module_blocked]; congruence|right; right; by left].
  - destruct (execute w (argv c) (cflags c) (repl_ack_time c)) as [w' a p f t b|w']; [|by exists w', c, false]. cbn [Z.eqb C_OK]. set (c2 := mk_client _ _ _ _ _ _ _ _ _ _ _).
    assert (Hb2 : has_flag c2 CLIENT_BLOCKED = match b with Some _ => true | None => false end) by apply after_blocked. assert (Hp2 : has_flag c2 CLIENT_PENDING_COMMAND = false) by (unfold has_flag; cbn [c2 cflags]; by rewrite after_io).
    eexists _, _, _. split; [done|]. unfold commandProcessed. rewrite Hb2. destruct (reset_fields c2) as (E1 & E2 & _).
    assert (Hr : module_blocked c2 = false -> safe B (resetClient c2)).
    { intros Hm2; apply safe_reset; try done; intros Hx; destruct (Hx Hrep). }
    destruct b as [[]|]; cbn [negb orb module_blocked c2]; [|split; [done|]; split; [done|]; intros _; by apply Hr..].
    split; [done|]. split; [done|]. intros _. split; try done; try (intros Hx; destruct (Hx Hrep)); try congruence; right; right; by right.
Qed.
Section Loop.
  Context (unixtime proto_max_bulk_len : Z) (paused lua_timedout gopher_enabled : bool).
Lemma input_loop_total fuel : forall w c,
  safe B c -> zlen (unread c) < Z.of_nat fuel ->
  exists w' c' alive, input_loop junk unixtime proto_max_bulk_len paused lua_timedout gopher_enabled fuel w c = Some (w', c', alive) /\ (alive = true -> safe B c').
Proof.
  induction fuel as [|fuel IH]; intros w c Hs Hf; [pose proof (zlen_nonneg (unread c)); lia|].
  cbn [input_loop]. pose proof (unread_len c (sf_pos B c Hs)) as Hlen. assert (Hstop : exists w' c' alive, Some (w, c, true) = Some (w', c', alive) /\ (alive = true -> safe B c')) by (by exists w, c, true).
  destruct (Z.ltb_spec (qb_pos c) (zlen (querybuf c))) as [Hlt|]; cbn [negb]; [|done].
  destruct (_ && paused); [done|]. destruct (has_flag c CLIENT_BLOCKED) eqn:Ebl; [done|].
  destruct (has_flag c CLIENT_PENDING_COMMAND) eqn:Epc; [done|]. destruct (lua_timedout && _); [done|].
  destruct (has_flag c (Z.lor _ _)) eqn:Eclose; [done|].
  assert (Hcl : has_flag c CLIENT_CLOSE_AFTER_REPLY = false) by (destruct (has_flag c CLIENT_CLOSE_AFTER_REPLY) eqn:E; [|done]; by rewrite has_flag_lor_l in Eclose).
  assert (Hrep : reply c = []) by (destruct (reply c) eqn:Er; [done|]; rewrite (sf_err B c Hs) in Hcl by (by rewrite Er); done).
  assert (Hmod : module_blocked c = false) by (destruct (module_blocked c) eqn:Em; [|done]; rewrite (sf_module B c Hs Em) in Ebl; done).
  assert (Hc : client_inv c) by (destruct (sf_state B c Hs) as [|[|[|]]]; congruence).
  destruct (zlen_pos_cons (unread c) ltac:(lia)) as (x & u & Eu).
  assert (L1 : load1 (unread c) 0 = Some x) by (by rewrite Eu). rewrite L1. cbn [mbind option_bind]. cbv zeta.
  set (c1 := if reqtype c =? 0 then _ else c).
  assert (Hc1 : client_inv c1 /\ unread c1 = unread c /\ reply c1 = [] /\ cflags c1 = cflags c /\ module_blocked c1 = false /\ querybuf c1 = querybuf c /\
    (reqtype c1 = PROTO_REQ_INLINE \/ reqtype c1 = PROTO_REQ_MULTIBULK)).
  { unfold c1. destruct (Z.eqb_spec (reqtype c) 0) as [Hr0|Hr0].
    2:{ split_and!; try done. destruct (ci_req c Hc) as [|[|]]; [done|by left|by right]. }
    assert (Hm0 : multibulklen c = 0) by (apply (ci_mode c Hc); rewrite Hr0; done).
    split; [|split_and!; try done; destruct (x =? 42); [by right|by left]].
    pose proof Hc as [H1 H2 H3 H4 H5 H6 H7 H8]. constructor; try done.
    - destruct (x =? 42); [right; by right|right; by left].
    - intros Hr Hm. exists u. change (unread c = 42 :: u). cbn in Hr.
      destruct (Z.eqb_spec x 42) as [->|]; [done|discriminate Hr]. }
  clearbody c1. destruct Hc1 as (Hc1 & Hu1 & Hrep1 & Hfl1 & Hm1 & Hq1 & Hreq1).
  assert (Hparse : exists c2 rc, (if reqtype c1 =? PROTO_REQ_INLINE then processInlineBuffer junk unixtime c1
      else if reqtype c1 =? PROTO_REQ_MULTIBULK then processMultibulkBuffer proto_max_bulk_len c1 else None) = Some (c2, rc) /\
      parsed c1 c2 rc /\ framed c1 c2).
  { destruct Hreq1 as [Er|Er]; rewrite Er; cbn [Z.eqb Pos.eqb PROTO_REQ_INLINE PROTO_REQ_MULTIBULK].
    - destruct (inline_total junk unixtime c1 Hc1) as (c2 & rc & E & Hx). exists c2, rc. split; [done|]. split; [done|]. by eapply inline_framed.
    - destruct (multibulk_total proto_max_bulk_len c1 Hc1 Er) as (c2 & rc & E & Hx); [by rewrite Hu1, Eu|]. exists c2, rc. split; [done|]. split; [done|]. by eapply multibulk_framed. }
  destruct Hparse as (c2 & rc & -> & Hres & (Hm2 & Hfl & Hsh)). cbn [mbind option_bind]. assert (Hlen2 : zlen (querybuf c2) <= B) by (pose proof (sf_len B c Hs); rewrite Hq1 in Hsh; lia).
  assert (Epc2 : has_flag c2 CLIENT_PENDING_COMMAND = false) by (revert Epc; unfold has_flag; destruct Hfl as [-> | ->]; rewrite ?land_lor_disjoint, Hfl1 by done; done). rewrite Hm1 in Hm2.
  destruct Hres as [[-> Hc2]|(-> & Hp2 & Hb2 & Hl2 & Hlt2 & Hrep2 & Hfl2 & Hr2)].
  { change (negb (C_ERR =? C_OK)) with true. cbn iota. exists w, c2, true. split; [done|]. intros _. split; [apply Hc2|apply Hc2|done|apply Hc2|congruence|congruence|by left]. }
  change (negb (C_OK =? C_OK)) with false. cbn iota. rewrite Hrep1 in Hrep2.
  assert (Hreset : safe B (resetClient c2)) by (apply safe_reset; try done; by rewrite Hrep2).
  destruct (_ && _ && _).
  - eexists _, _, true. split; [done|]. intros _. destruct (reset_fields c2) as (F1 & F2 & F3 & F4 & F5 & F6 & F7). destruct (reset_more c2) as [F8 _]. set (c3 := resetClient c2) in *.
    assert (Hclose : has_flag (set_cflags c3 (Z.lor (cflags c3) CLIENT_CLOSE_AFTER_REPLY)) CLIENT_CLOSE_AFTER_REPLY = true) by (by apply has_flag_set). assert (Hpc3 : has_flag (set_cflags c3 (Z.lor (cflags c3) CLIENT_CLOSE_AFTER_REPLY)) CLIENT_PENDING_COMMAND = false) by (unfold has_flag; cbn [set_cflags cflags]; rewrite land_lor_disjoint by done; fold (has_flag c3 CLIENT_PENDING_COMMAND); unfold c3; by rewrite reset_flag).
    destruct Hreset as [K1 K2 K3 K4 K5 K6 K7]. split; try done; [congruence|cbn [set_cflags module_blocked]; congruence|right; right; by left].
  - destruct (Z.eqb_spec (zlen (argv c2)) 0) as [Ez|Hne].
    { apply IH; [done|]. destruct (reset_fields c2) as (F1 & F2 & _). unfold unread. rewrite F1, F2. fold (unread c2). rewrite Hu1 in Hlt2. lia. }
    assert (Hne' : argv c2 <> []) by (intros E; rewrite E in Hne; by apply Hne).
    destruct (has_flag c2 CLIENT_PENDING_READ).
    { eexists _, _, true. split; [done|]. intros _. assert (Hpend : has_flag (set_cflags c2 (Z.lor (cflags c2) CLIENT_PENDING_COMMAND)) CLIENT_PENDING_COMMAND = true) by (by apply has_flag_set). split; try done; try (intros Hx; destruct (Hx Hrep2)); try (cbn [set_cflags module_blocked]; congruence); right; by left. }
    destruct (run_safe w c2 Hp2 Hb2 Hlen2 Hrep2 Epc2 Hm2) as (w3 & c3 & alive & -> & E1 & E2 & Hs3). destruct alive; [|by exists w3, c3, false].
    apply IH; [by apply Hs3|]. unfold unread. rewrite E1, E2. fold (unread c2). rewrite Hu1 in Hlt2. lia.
Qed.
End Loop.
End Safety.

(** *** Events of a client *)
Section Events.
  Context {W : Type} `{HE : Executor W} (junk : nat -> Z).
Lemma safe_mono B B' c : safe B c -> B <= B' -> safe B' c.
Proof. intros [H1 H2 H3 H4 H5 H6 H7] ?. split; try done. lia. Qed.
Lemma safe_close B c : safe B c -> safe B (freeClientAsync c).
Proof. intros Hs. unfold freeClientAsync. destruct (_ || _); [done|]. apply (safe_flags B c _ CLIENT_CLOSE_ASAP Hs); [done|by left]. Qed.
(** The consumed part of the buffer is dropped. *)
Lemma safe_trim B c : safe B c -> safe B (set_querybuf c (spec_range (querybuf c) (qb_pos c) (-1)) 0).
Proof.
  intros [H1 H2 H3 H4 H5 H6 H7]. rewrite range_drop by exact H1. fold (unread c). assert (Hb : bytes_ok (unread c)) by (by apply bytes_drop). pose proof (unread_le c) as Hl.
  split; try done; [split; [done|apply zlen_nonneg]|cbn; lia|]. destruct H7 as [Hc|]; [left|by right].
  destruct (unread_bytes c Hc). destruct Hc as [K1 K2 K3 K4 K5 K6 K7 K8]. constructor; try done. split; [done|]. cbn. apply zlen_nonneg.
Qed.
Lemma safe_append B c data : safe B c -> bytes_ok data -> B + zlen data < 2 ^ 60 -> safe (B + zlen data) (set_querybuf c (querybuf c ++ data) (qb_pos c)).
Proof.
  intros [H1 H2 H3 H4 H5 H6 H7] Hd Hn. set (c1 := set_querybuf _ _ _). pose proof (zlen_nonneg data).
  assert (Hz : zlen (querybuf c1) = zlen (querybuf c) + zlen data) by apply zlen_app.
  assert (Hb1 : bytes_ok (querybuf c1)) by (by apply Forall_app). assert (Hp1 : pos_ok c1) by (unfold pos_ok in *; rewrite Hz; cbn; lia).
  split; try done; [lia|]. destruct H7 as [[K1 K2 K3 K4 K5 K6 K7 K8]|]; [left|by right]. constructor; try done; [split; [done|lia]|].
  intros Hr Hm. destruct (K7 Hr Hm) as [u Eu]. exists (u ++ data). change (drop (Z.to_nat (qb_pos c)) (querybuf c ++ data) = 42 :: (u ++ data)).
  unfold pos_ok, zlen in H1. rewrite drop_app_le by lia. fold (unread c). by rewrite Eu.
Qed.
Lemma safe_unblock B c : B < 2 ^ 60 -> safe B c -> safe B (unblock_input c).
Proof.
  intros HB [H1 H2 H3 H4 H5 H6 H7]. unfold unblock_input. set (c0 := if module_blocked c then _ else _). set (c1 := mk_client _ _ _ _ _ _ _ _ _ _ _).
  assert (Hf : forall f, Z.land CLIENT_BLOCKED f = 0 -> has_flag c1 f = has_flag c0 f) by (intros f Hf; unfold has_flag; cbn [c1 cflags]; by rewrite land_ldiff_disjoint).
  destruct (module_blocked c) eqn:Em.
  - destruct (reset_fields c) as (E1 & E2 & E3 & E4 & E5 & E6 & E7). set (cr := resetClient c) in *.
    assert (Hg : forall f, Z.land (Z.lor (Z.lor CLIENT_ASKING CLIENT_TRACKING_CACHING) (Z.lor CLIENT_REPLY_SKIP CLIENT_REPLY_SKIP_NEXT)) f = 0 -> has_flag cr f = has_flag c f) by (intros; by apply reset_flag).
    assert (Hpc : has_flag c CLIENT_PENDING_COMMAND = false) by (destruct (has_flag c CLIENT_PENDING_COMMAND); [|done]; destruct (H5 eq_refl) as (_ & [=] & _)).
    assert (Hq : querybuf c1 = querybuf c) by exact E1. assert (Hp : qb_pos c1 = qb_pos c) by exact E2. assert (Hr : reply c1 = reply c) by exact E3.
    assert (Hpos : pos_ok c1) by (unfold pos_ok; by rewrite Hq, Hp). assert (Hcl : reply c1 <> [] -> has_flag c1 CLIENT_CLOSE_AFTER_REPLY = true) by (rewrite Hr, Hf, Hg by done; done).
    split; rewrite ?Hq; try done; [rewrite Hf, Hg by done; congruence|]. left. apply idle_inv; try done; rewrite ?Hq; (done || lia).
  - unfold c0 in *. split; try done; [by rewrite Hf|by rewrite !Hf|]. destruct H7 as [[K1 K2 K3 K4 K5 K6 K7 K8]|[H7|[H7|H7]]]; [left|right; left; by rewrite Hf|right; right; left; by rewrite Hf|congruence].
    constructor; try done. by rewrite Hf.
Qed.
Section Conf.
  Context (unixtime proto_max_bulk_len : Z) (paused lua_timedout gopher_enabled : bool).
  Notation process := (processInputBuffer junk unixtime proto_max_bulk_len paused lua_timedout gopher_enabled).
Lemma process_safe B w c : B < 2 ^ 60 -> safe B c -> exists w' c' alive, process w c = Some (w', c', alive) /\ (alive = true -> safe B c').
Proof.
  intros HB Hs. unfold processInputBuffer. destruct (input_loop_total junk B HB unixtime proto_max_bulk_len paused lua_timedout gopher_enabled (S (Z.to_nat (zlen (querybuf c) - qb_pos c))) w c Hs) as (w' & c' & alive & -> & Hs').
  { rewrite (unread_len c) by apply Hs. pose proof (zlen_nonneg (unread c)). lia. }
  cbn [mbind option_bind]. eexists _, _, _. split; [done|]. intros ->. cbn [andb]. destruct (negb _); [|by apply Hs']. by apply safe_trim, Hs'.
Qed.
(** A client that is being closed executes nothing. *)
Lemma process_closed w c : has_flag c CLIENT_CLOSE_AFTER_REPLY = true -> exists c', process w c = Some (w, c', true).
Proof.
  intros Hcl. unfold processInputBuffer. cbn [input_loop]. assert (Hc : has_flag c (Z.lor CLIENT_CLOSE_AFTER_REPLY CLIENT_CLOSE_ASAP) = true) by (by apply has_flag_lor_l). rewrite Hc.
  repeat (match goal with |- context [if ?b then Some (w, c, true) else _] => destruct b; [cbn [mbind option_bind]; by eexists|] end). cbn [mbind option_bind]. by eexists.
Qed.
Lemma pending_safe B w c : B < 2 ^ 60 -> safe B c ->
  exists w' c' alive, handle_pending_read junk unixtime proto_max_bulk_len paused lua_timedout gopher_enabled w c = Some (w', c', alive) /\ (alive = true -> safe B c').
Proof.
  intros HB Hs. unfold handle_pending_read. set (c1 := set_cflags c (Z.ldiff (cflags c) CLIENT_PENDING_READ)).
  assert (Hs1 : safe B c1) by (apply (safe_flags B c _ CLIENT_PENDING_READ Hs); [done|by right]).
  destruct (has_flag c1 CLIENT_PENDING_COMMAND) eqn:Epc; [|by apply process_safe].
  destruct (sf_pending B c1 Hs1 Epc) as (Hav & Hm & Hr). set (c2 := set_cflags c1 _). change (argv c2) with (argv c1). rewrite bool_decide_eq_false_2 by done.
  assert (Hpc2 : has_flag c2 CLIENT_PENDING_COMMAND = false) by (unfold has_flag, c2; cbn [set_cflags cflags]; rewrite <- Z.land_diag at 1; rewrite Z.ldiff_land, <- !Z.land_assoc, (Z.land_comm (Z.lnot _)), <- !Z.land_assoc; by rewrite !Z.land_lnot_diag, ?Z.land_0_r).
  destruct (run_safe (HE := HE) B HB w c2 (sf_pos B c1 Hs1) (sf_bytes B c1 Hs1) (sf_len B c1 Hs1) Hr Hpc2 Hm) as (w3 & c3 & alive & -> & _ & _ & Hs3).
  destruct alive; [|by exists w3, c3, false]. by apply process_safe, Hs3.
Qed.
Lemma read_safe B io_reads maxbuf w c r : safe B c ->
  bytes_ok (match r with ReadData data => data | _ => [] end) -> B + zlen (match r with ReadData data => data | _ => [] end) < 2 ^ 60 ->
  exists w' c' alive, readQueryFromClient junk unixtime proto_max_bulk_len paused lua_timedout gopher_enabled io_reads maxbuf w c r = Some (w', c', alive) /\
    (alive = true -> safe (B + zlen (match r with ReadData data => data | _ => [] end)) c').
Proof.
  intros Hs Hd Hn. pose proof (zlen_nonneg (match r with ReadData data => data | _ => [] end)). unfold readQueryFromClient, postponeClientRead. destruct (_ && _).
  { eexists _, _, _. split; [done|]. intros _. eapply safe_mono; [apply (safe_flags B c _ CLIENT_PENDING_READ Hs); [done|by left]|lia]. }
  assert (Hclose : safe (B + 0) (freeClientAsync c)) by (eapply safe_mono; [by apply safe_close|lia]).
  destruct r as [| | |data]; [eexists _, _, _; split; [done|]; intros _; first [done|eapply safe_mono; [done|cbn; lia]]..|].
  pose proof (safe_append B c data Hs Hd Hn) as Hs1. destruct (_ >? _); [eexists _, _, _; split; [done|]; intros _; by apply safe_close|]. by apply process_safe.
Qed.
End Conf.
End Events.

(** ** Everything that can happen to the input of a client *)
(** The configuration and the state of the server at the time of an event. *)
Record input_conf := mk_conf {
  cf_unixtime : Z;
  cf_proto_max_bulk_len : Z;
  cf_paused : bool;
  cf_lua_timedout : bool;
  cf_gopher_enabled : bool;
  cf_io_threads_reads : bool;
  cf_max_querybuf_len : Z
}.
(** The socket is readable; the main thread takes over from the I/O threads; what
    blocked the client is over; the input of an unblocked client is
    processed; the client is to be closed. *)
Inductive input_event := IRead (r : read_result) | IPending | IUnblock | IProcess | IKill.
Definition event_data (e : input_event) : list Z := match e with IRead (ReadData data) => data | _ => [] end.
Definition input_step {W} `{Executor W} (junk : nat -> Z) (cf : input_conf) (w : W) (c : client) (e : input_event) : option (W * client * bool) :=
  match e with
  | IRead r => readQueryFromClient junk (cf_unixtime cf) (cf_proto_max_bulk_len cf) (cf_paused cf) (cf_lua_timedout cf) (cf_gopher_enabled cf)
                 (cf_io_threads_reads cf) (cf_max_querybuf_len cf) w c r
  | IPending => if has_flag c CLIENT_PENDING_READ
                then handle_pending_read junk (cf_unixtime cf) (cf_proto_max_bulk_len cf) (cf_paused cf) (cf_lua_timedout cf) (cf_gopher_enabled cf) w c
                else Some (w, c, true)
  | IUnblock => Some (w, if has_flag c CLIENT_BLOCKED then unblock_input c else c, true)
  | IProcess => process_unblocked junk (cf_unixtime cf) (cf_proto_max_bulk_len cf) (cf_paused cf) (cf_lua_timedout cf) (cf_gopher_enabled cf) w c
  | IKill => Some (w, freeClientAsync c, true)
  end.
Fixpoint input_steps {W} `{Executor W} (junk : nat -> Z) (w : W) (c : client) (es : list (input_conf * input_event)) : option (W * client * bool) :=
  match es with
  | [] => Some (w, c, true)
  | (cf, e) :: es =>
      '(w, c, alive) ← input_step junk cf w c e;
      if (alive : bool) then input_steps junk w c es else Some (w, c, false)
  end.
Section EventProofs.
  Context {W : Type} `{HE : Executor W} (junk : nat -> Z).
Lemma step_safe B cf w c e : safe B c -> bytes_ok (event_data e) -> B + zlen (event_data e) < 2 ^ 60 ->
  exists w' c' alive, input_step junk cf w c e = Some (w', c', alive) /\ (alive = true -> safe (B + zlen (event_data e)) c').
Proof.
  intros Hs Hd Hn. pose proof (zlen_nonneg (event_data e)). assert (Hm : forall c', safe B c' -> safe (B + zlen (event_data e)) c') by (intros c' Hc'; eapply safe_mono; [done|lia]).
  destruct e as [r| | | |]; cbn [input_step].
  - by apply read_safe.
  - destruct (has_flag _ _); [|exists w, c, true; auto]. destruct (pending_safe junk (cf_unixtime cf) (cf_proto_max_bulk_len cf) (cf_paused cf) (cf_lua_timedout cf) (cf_gopher_enabled cf) B w c ltac:(lia) Hs) as (w' & c' & al & E & Hx). exists w', c', al. auto.
  - eexists _, _, _. split; [done|]. intros _. apply Hm. destruct (has_flag _ _); [apply safe_unblock; (done || lia)|done].
  - unfold process_unblocked. destruct (_ && _); [|exists w, c, true; auto]. destruct (process_safe junk (cf_unixtime cf) (cf_proto_max_bulk_len cf) (cf_paused cf) (cf_lua_timedout cf) (cf_gopher_enabled cf) B w c ltac:(lia) Hs) as (w' & c' & al & E & Hx). exists w', c', al. auto.
  - eexists _, _, _. split; [done|]. intros _. by apply Hm, safe_close.
Qed.
(** After a protocol error nothing is executed. *)
Lemma step_closed B cf w c e : safe B c -> reply c <> [] -> exists c', input_step junk cf w c e = Some (w, c', true).
Proof.
  intros Hs Hr. pose proof (sf_err B c Hs Hr) as Hcl. destruct e as [r| | | |]; cbn [input_step]; [| | |unfold process_unblocked; destruct (_ && _); [by apply process_closed|by eexists]|].
  - unfold readQueryFromClient. destruct (postponeClientRead _ _); [by eexists|]. destruct r as [| | |data]; try by eexists. destruct (_ >? _); [by eexists|]. by apply process_closed.
  - destruct (has_flag c CLIENT_PENDING_READ); [|by eexists]. unfold handle_pending_read. set (c1 := set_cflags c _).
    assert (Hf : forall f, Z.land CLIENT_PENDING_READ f = 0 -> has_flag c1 f = has_flag c f) by (intros f Hf; unfold has_flag; cbn [c1 set_cflags cflags]; by rewrite land_ldiff_disjoint).
    assert (Hpc : has_flag c CLIENT_PENDING_COMMAND = false) by (destruct (has_flag c CLIENT_PENDING_COMMAND) eqn:E; [|done]; destruct (sf_pending B c Hs E) as (_ & _ & ?); done).
    rewrite Hf, Hpc by done. apply process_closed. by rewrite Hf.
  - by eexists.
  - by eexists.
Qed.
Lemma steps_safe es : forall B w c, safe B c -> Forall (fun e => bytes_ok (event_data e.2)) es ->
  B + zlen (concat (map (fun e => event_data e.2) es)) < 2 ^ 60 ->
  exists w' c' alive, input_steps junk w c es = Some (w', c', alive) /\ (alive = true -> safe (B + zlen (concat (map (fun e => event_data e.2) es))) c').
Proof.
  induction es as [|[cf e] es IH]; intros B w c Hs Hd Hn; cbn [input_steps map concat snd] in *.
  - exists w, c, true. split; [done|]. intros _. by rewrite Z.add_0_r.
  - apply Forall_cons in Hd as [Hd1 Hd]. rewrite zlen_app in *. pose proof (zlen_nonneg (concat (map (fun e => event_data e.2) es))). cbn [snd] in Hd1.
    destruct (step_safe B cf w c e Hs Hd1 ltac:(lia)) as (w1 & c1 & alive & -> & Hs1). cbn [mbind option_bind]. destruct alive; [|by exists w1, c1, false].
    rewrite Z.add_assoc in *. by apply IH; [apply Hs1| |].
Qed.
End EventProofs.
Lemma safe_new : safe 0 newClient.
Proof. split; try done. left. by apply idle_inv. Qed.

(** C9: no input can make the parser fail an assertion or touch memory outside
    the query buffer.  For every effect commands can have and every
    sequence of reads of any bytes, read errors, take-overs from the I/O threads,
    unblockings (by a module or not) and requests to close, in every
    configuration, all of them return and the client, as long as it exists, is
    left in a safe state.  After a protocol error the client is marked for
    closing and no later event executes anything.  The client has received
    less than 2^60 bytes. *)
Theorem processInputBuffer_safe {W : Type} `{HE : Executor W} junk (w : W) es :
  Forall (fun e => bytes_ok (event_data e.2)) es -> zlen (concat (map (fun e => event_data e.2) es)) < 2 ^ 60 ->
  exists w' c alive, input_steps junk w newClient es = Some (w', c, alive) /\
    (alive = true -> safe (2 ^ 60 - 1) c /\
       (reply c <> [] -> has_flag c CLIENT_CLOSE_AFTER_REPLY = true /\
          forall cf e, exists c', input_step junk cf w' c e = Some (w', c', true))).
Proof.
  intros Hd Hn. destruct (steps_safe junk es 0 w newClient safe_new Hd Hn) as (w' & c & alive & E & Hs). exists w', c, alive. split; [done|].
  intros Ha. specialize (Hs Ha). split; [eapply safe_mono; [done|lia]|]. intros Hr. split; [by apply (sf_err _ c Hs)|]. intros cf e. by eapply step_closed.
Qed.

(** An inline request and half of BLOCK; its rest after which an I/O thread is
    asked to read; an unblocking; then a malformed request. *)
Lemma processInputBuffer_safe_witness :
  exists w' c, input_steps (fun _ => 0) ([] : list (list (list Z))) newClient
      (let cf := mk_conf 0 512 false false false in
       [(cf false 1024, IRead (ReadData ([34; 97; 34; 10] ++ [42; 49; 13; 10; 36; 53; 13; 10; 98; 108])));
        (cf false 1024, IRead (ReadData [111; 99; 107; 13; 10; 98; 10]));
        (cf true 1024, IRead ReadAgain); (cf false 1024, IUnblock); (cf true 1024, IRead (ReadData [99; 10; 42; 49; 13; 10; 33; 13; 10; 0]));
        (cf true 1024, IPending); (cf false 1024, IProcess)]) = Some (w', c, true) /\ safe (2 ^ 60 - 1) c /\
    w' = [[[97]]; [[98; 108; 111; 99; 107]]; [[98]]; [[99]]] /\ reply c = [ExpectedDollar 33] /\
    forall e, exists c', input_step (fun _ => 0) (mk_conf 0 512 false false false false 1024) w' c e = Some (w', c', true).
Proof.
  match goal with |- context [input_steps _ [] newClient ?es] =>
    destruct (processInputBuffer_safe (HE := log_executor) (fun _ => 0) [] es) as (w' & c & alive & E & Hs) end.
  - repeat (apply Forall_cons_2; [cbn; repeat (apply Forall_cons_2; [unfold byte_ok; lia|]); apply Forall_nil_2|]). apply Forall_nil_2.
  - vm_compute. reflexivity.
  - assert (Ex := E). vm_compute in Ex. injection Ex as Ew Ec <-. destruct (Hs eq_refl) as [Hs1 Hs2]. exists w', c. split; [exact E|]. split; [exact Hs1|].
    split; [by rewrite <- Ew|]. split; [by rewrite <- Ec|]. apply Hs2. by rewrite <- Ec.
Defined.
