(* ===== verification/Multi.v ===== *)
(** * multi.c: MULTI, EXEC, DISCARD, WATCH

    The state is shared: every client has the list of the keys it watches and
    its queue of commands, every database maps a watched key to the list of
    the clients watching it, and a modified key marks those clients.  The
    refinement theorem says that this double bookkeeping implements optimistic
    locking: the specification has only a set of watched keys and three
    booleans per client. *)
From S2P Require Import Prelude.

Definition CLIENT_MASTER : Z := Z.shiftl 1 1.
Definition CLIENT_MULTI : Z := Z.shiftl 1 3.
Definition CLIENT_DIRTY_CAS : Z := Z.shiftl 1 5.
Definition CLIENT_DIRTY_EXEC : Z := Z.shiftl 1 12.
Definition CMD_WRITE : Z := Z.shiftl 1 0.
Definition CMD_READONLY : Z := Z.shiftl 1 1.
Definition CMD_ADMIN : Z := Z.shiftl 1 4.

Abbreviation key := (list Z).

(** [flags & f] as a condition. *)
Definition hasf (x f : Z) : bool := negb (Z.land x f =? 0).

(** A queued command ([multiCmd]): its arguments and the flags of its entry in
    the command table. *)
Record multiCmd := mk_cmd { mc_argv : list key; mc_flags : Z }.

Record client := mk_client {
  flags : Z;
  db : Z;
  watched_keys : list (Z * key);
  commands : list multiCmd;
  cmd_flags : Z
}.

Definition set_flags c f := mk_client f (db c) (watched_keys c) (commands c) (cmd_flags c).
Definition set_watched c w := mk_client (flags c) (db c) w (commands c) (cmd_flags c).
Definition set_mstate c q f := mk_client (flags c) (db c) (watched_keys c) q f.

(** What is sent to clients, replicas, the AOF and monitors. *)
Inductive reply := ROk | RNullArray | RExecAbort | RArrayLen (n : Z)
| RNestedMulti | RDiscardWithoutMulti | RExecWithoutMulti | RReadonlyReplica | RWatchInsideMulti | RNoPerm.
Inductive event :=
| EvReply (id : Z) (r : reply)
| EvPropagateMulti (dbid : Z)
| EvDirty
| EvBacklogExec
| EvMonitor (id : Z).

(** The rest of the server, as far as EXEC uses it: the data set and the
    replication state ([W]), the execution of a command, which may rewrite its
    arguments and reports the keys it modified ([signalModifiedKey]), and the
    ACL check. *)
Class Server (W : Type) := {
  call : W -> Z -> multiCmd -> W * multiCmd * list (Z * key);
  acl_denied : W -> Z -> multiCmd -> bool;
  key_exists : W -> Z -> key -> bool;
  loading : W -> bool;
  masterhost : W -> bool;
  repl_slave_ro : W -> bool;
  repl_backlog : W -> bool;
  has_monitors : W -> bool
}.

(** The watched keys of a database: a dict from keys to lists of clients. *)
Abbreviation watchdict := (gmap key (list Z)).

Section Multi.
  Context {W : Type} `{Server W}.

Record server := mk_server {
  clients : gmap Z client;
  dbs : gmap Z watchdict;
  world : W;
  out : list event
}.

Definition set_client (s : server) id c := mk_server (<[id := c]> (clients s)) (dbs s) (world s) (out s).
Definition set_clients (s : server) cs := mk_server cs (dbs s) (world s) (out s).
Definition set_dict (s : server) (d : Z) (m : watchdict) := mk_server (clients s) (<[d := m]> (dbs s)) (world s) (out s).
Definition set_world (s : server) w := mk_server (clients s) (dbs s) w (out s).
Definition emit (s : server) e := mk_server (clients s) (dbs s) (world s) (out s ++ [e]).
Definition watchers (s : server) (d : Z) : watchdict := default ∅ (dbs s !! d).

Definition addReply (s : server) (id : Z) (r : reply) : server := emit s (EvReply id r).

Definition initClientMultiState (c : client) : client := set_mstate c [] 0.

(** Releasing the queue leaves dangling pointers, reset at once by
    [initClientMultiState] in every caller. *)
Definition freeClientMultiState (c : client) : client := c.

Definition queueMultiCommand (s : server) (id : Z) (mc : multiCmd) : option server :=
  c ← clients s !! id;
  Some (set_client s id (set_mstate c (commands c ++ [mc]) (Z.lor (cmd_flags c) (mc_flags mc)))).

Definition flagTransaction (s : server) (id : Z) : option server :=
  c ← clients s !! id;
  Some (if hasf (flags c) CLIENT_MULTI
        then set_client s id (set_flags c (Z.lor (flags c) CLIENT_DIRTY_EXEC)) else s).

(** [watchForKey]. *)
Definition watchForKey (s : server) (id : Z) (k : key) : option server :=
  c ← clients s !! id;
  if bool_decide ((db c, k) ∈ watched_keys c) then Some s
  else
    let d := watchers s (db c) in
    let cl := default [] (d !! k) in
    let s := set_dict s (db c) (<[k := cl ++ [id]]> d) in
    Some (set_client s id (set_watched c (watched_keys c ++ [(db c, k)]))).

(** [listDelNode(clients,listSearchKey(clients,c))]: deleting a node that is
    not there would be a NULL dereference. *)
Fixpoint del_client (l : list Z) (id : Z) : option (list Z) :=
  match l with
  | [] => None
  | x :: l => if x =? id then Some l else l' ← del_client l id; Some (x :: l')
  end.

(** The loop of [unwatchAllKeys]; a missing entry is the failed assertion. *)
Fixpoint unwatch_loop (s : server) (id : Z) (wks : list (Z * key)) : option server :=
  match wks with
  | [] => Some s
  | (d, k) :: wks =>
      cl ← watchers s d !! k;
      cl ← del_client cl id;
      let m := match cl with [] => delete k (watchers s d) | _ => <[k := cl]> (watchers s d) end in
      let s := set_dict s d m in
      c ← clients s !! id;
      unwatch_loop (set_client s id (set_watched c wks)) id wks
  end.

Definition unwatchAllKeys (s : server) (id : Z) : option server :=
  c ← clients s !! id;
  match watched_keys c with
  | [] => Some s
  | wks => unwatch_loop s id wks
  end.

Definition discardTransaction (s : server) (id : Z) : option server :=
  c ← clients s !! id;
  let c := initClientMultiState (freeClientMultiState c) in
  let c := set_flags c (Z.ldiff (flags c) (Z.lor (Z.lor CLIENT_MULTI CLIENT_DIRTY_CAS) CLIENT_DIRTY_EXEC)) in
  unwatchAllKeys (set_client s id c) id.

Definition multiCommand (s : server) (id : Z) : option server :=
  c ← clients s !! id;
  if hasf (flags c) CLIENT_MULTI then Some (addReply s id RNestedMulti)
  else Some (addReply (set_client s id (set_flags c (Z.lor (flags c) CLIENT_MULTI))) id ROk).

Definition discardCommand (s : server) (id : Z) : option server :=
  c ← clients s !! id;
  if negb (hasf (flags c) CLIENT_MULTI) then Some (addReply s id RDiscardWithoutMulti)
  else s ← discardTransaction s id; Some (addReply s id ROk).

(** Every client on the list is marked. *)
Fixpoint mark_dirty (s : server) (l : list Z) : option server :=
  match l with
  | [] => Some s
  | id :: l =>
      c ← clients s !! id;
      mark_dirty (set_client s id (set_flags c (Z.lor (flags c) CLIENT_DIRTY_CAS))) l
  end.

Definition touchWatchedKey (s : server) (d : Z) (k : key) : option server :=
  if bool_decide (watchers s d = ∅) then Some s
  else match watchers s d !! k with
       | None => Some s
       | Some cl => mark_dirty s cl
       end.

Fixpoint touch_keys (s : server) (ks : list (Z * key)) : option server :=
  match ks with
  | [] => Some s
  | (d, k) :: ks => s ← touchWatchedKey s d k; touch_keys s ks
  end.

(** [touchWatchedKeysOnFlush]: the inner loop, for one client. *)
Definition flush_client (w : W) (dbid : Z) (c : client) : client :=
  fold_left (fun c wk =>
    if ((dbid =? -1) || (fst wk =? dbid)) && key_exists w (fst wk) (snd wk)
    then set_flags c (Z.lor (flags c) CLIENT_DIRTY_CAS) else c) (watched_keys c) c.
Definition touchWatchedKeysOnFlush (s : server) (dbid : Z) : server :=
  set_clients s (flush_client (world s) dbid <$> clients s).

Fixpoint watch_args (s : server) (id : Z) (ks : list key) : option server :=
  match ks with
  | [] => Some s
  | k :: ks => s ← watchForKey s id k; watch_args s id ks
  end.
Definition watchCommand (s : server) (id : Z) (ks : list key) : option server :=
  c ← clients s !! id;
  if hasf (flags c) CLIENT_MULTI then Some (addReply s id RWatchInsideMulti)
  else s ← watch_args s id ks; Some (addReply s id ROk).

Definition unwatchCommand (s : server) (id : Z) : option server :=
  s ← unwatchAllKeys s id;
  c ← clients s !! id;
  Some (addReply (set_client s id (set_flags c (Z.ldiff (flags c) CLIENT_DIRTY_CAS))) id ROk).

Definition execCommandPropagateMulti (s : server) (id : Z) : option server :=
  c ← clients s !! id; Some (emit s (EvPropagateMulti (db c))).

(** [for (j = 0; j < c->mstate.count; j++)]. *)
Fixpoint exec_loop (s : server) (id : Z) (j : nat) (cmds : list multiCmd) (must_propagate : bool)
  : option (server * bool) :=
  match cmds with
  | [] => Some (s, must_propagate)
  | mc :: cmds =>
      '(s, must_propagate) ←
        (if negb must_propagate && negb (hasf (mc_flags mc) (Z.lor CMD_READONLY CMD_ADMIN))
         then s ← execCommandPropagateMulti s id; Some (s, true) else Some (s, must_propagate));
      '(s, mc) ←
        (if acl_denied (world s) id mc then Some (addReply s id RNoPerm, mc)
         else let '(w, mc, touched) := call (world s) id mc in
              s ← touch_keys (set_world s w) touched; Some (s, mc));
      c ← clients s !! id;
      let s := set_client s id (set_mstate c (<[j := mc]> (commands c)) (cmd_flags c)) in
      exec_loop s id (S j) cmds must_propagate
  end.

Definition handle_monitor (s : server) (id : Z) : server :=
  if has_monitors (world s) && negb (loading (world s)) then emit s (EvMonitor id) else s.

Definition execCommand (s : server) (id : Z) : option server :=
  let was_master := negb (masterhost (world s)) in
  c ← clients s !! id;
  if negb (hasf (flags c) CLIENT_MULTI) then Some (addReply s id RExecWithoutMulti)
  else if hasf (flags c) (Z.lor CLIENT_DIRTY_CAS CLIENT_DIRTY_EXEC) then
    let s := addReply s id (if hasf (flags c) CLIENT_DIRTY_EXEC then RExecAbort else RNullArray) in
    s ← discardTransaction s id;
    Some (handle_monitor s id)
  else if negb (loading (world s)) && masterhost (world s) && repl_slave_ro (world s) &&
          negb (hasf (flags c) CLIENT_MASTER) && hasf (cmd_flags c) CMD_WRITE then
    let s := addReply s id RReadonlyReplica in
    s ← discardTransaction s id;
    Some (handle_monitor s id)
  else
    s ← unwatchAllKeys s id;
    let s := addReply s id (RArrayLen (zlen (commands c))) in
    '(s, must_propagate) ← exec_loop s id 0 (commands c) false;
    s ← discardTransaction s id;
    let s :=
      if (must_propagate : bool) then
        let is_master := negb (masterhost (world s)) in
        let s := emit s EvDirty in
        if repl_backlog (world s) && was_master && negb is_master then emit s EvBacklogExec else s
      else s in
    Some (handle_monitor s id).
End Multi.
Arguments server : clear implicits.

(** ** The specification: optimistic locking *)
Record sclient := mk_sclient {
  s_multi : bool;            (* in a transaction *)
  s_cas : bool;              (* a watched key was modified *)
  s_exec : bool;             (* a command could not be queued *)
  s_master : bool;
  s_write : bool;            (* a write command is queued *)
  s_db : Z;
  s_watched : gset (Z * key);
  s_queue : list multiCmd
}.

Section Spec.
  Context {W : Type} `{Server W}.

Record sserver := mk_sserver { s_clients : gmap Z sclient; s_world : W; s_out : list event }.

(** A change of one client, with the events it causes. *)
Definition upd (s : sserver) (id : Z) (f : sclient -> sclient) (es : list event) : sserver :=
  mk_sserver (alter f id (s_clients s)) (s_world s) (s_out s ++ es).

Definition sc_dirty (c : sclient) : sclient :=
  mk_sclient (s_multi c) true (s_exec c) (s_master c) (s_write c) (s_db c) (s_watched c) (s_queue c).
Definition sc_reset (c : sclient) : sclient :=
  mk_sclient false false false (s_master c) false (s_db c) ∅ [].
Definition sc_unwatch (c : sclient) : sclient :=
  mk_sclient (s_multi c) (s_cas c) (s_exec c) (s_master c) (s_write c) (s_db c) ∅ (s_queue c).
Definition sc_queue (c : sclient) (q : list multiCmd) (w : bool) : sclient :=
  mk_sclient (s_multi c) (s_cas c) (s_exec c) (s_master c) w (s_db c) (s_watched c) q.

(** A modified key marks exactly the clients watching it. *)
Definition spec_touch (s : sserver) (dk : Z * key) : sserver :=
  mk_sserver ((fun c => if bool_decide (dk ∈ s_watched c) then sc_dirty c else c) <$> s_clients s) (s_world s) (s_out s).

Definition spec_monitor (s : sserver) (id : Z) : sserver :=
  if has_monitors (s_world s) && negb (loading (s_world s)) then mk_sserver (s_clients s) (s_world s) (s_out s ++ [EvMonitor id]) else s.

(** The queued commands run one after the other; MULTI is propagated before
    the first one that is neither read-only nor administrative. *)
Fixpoint spec_exec (s : sserver) (id : Z) (dbid : Z) (j : nat) (cmds : list multiCmd) (prop : bool) : sserver * bool :=
  match cmds with
  | [] => (s, prop)
  | mc :: cmds =>
      let first := negb prop && negb (hasf (mc_flags mc) (Z.lor CMD_READONLY CMD_ADMIN)) in
      let s := if first then upd s id (fun c => c) [EvPropagateMulti dbid] else s in
      let '(s, mc) :=
        if acl_denied (s_world s) id mc then (upd s id (fun c => c) [EvReply id RNoPerm], mc)
        else let '(w, mc, touched) := call (s_world s) id mc in
             (fold_left spec_touch touched (mk_sserver (s_clients s) w (s_out s)), mc) in
      let s := upd s id (fun c => sc_queue c (<[j := mc]> (s_queue c)) (s_write c)) [] in
      spec_exec s id dbid (S j) cmds (prop || first)
  end.

Inductive op :=
| OpWatch (id : Z) (ks : list key)
| OpUnwatch (id : Z)
| OpMulti (id : Z)
| OpQueue (id : Z) (mc : multiCmd)
| OpQueueError (id : Z)
| OpDiscard (id : Z)
| OpExec (id : Z)
| OpTouch (d : Z) (k : key)
| OpFlush (dbid : Z).

Definition spec_step (s : sserver) (o : op) : sserver :=
  match o with
  | OpWatch id ks =>
      match s_clients s !! id with
      | None => s
      | Some c =>
          if s_multi c then upd s id (fun c => c) [EvReply id RWatchInsideMulti]
          else upd s id (fun c => mk_sclient (s_multi c) (s_cas c) (s_exec c) (s_master c) (s_write c) (s_db c)
                           (s_watched c ∪ list_to_set (pair (s_db c) <$> ks)) (s_queue c)) [EvReply id ROk]
      end
  | OpUnwatch id =>
      upd s id (fun c => mk_sclient (s_multi c) false (s_exec c) (s_master c) (s_write c) (s_db c) ∅ (s_queue c)) [EvReply id ROk]
  | OpMulti id =>
      match s_clients s !! id with
      | None => s
      | Some c =>
          if s_multi c then upd s id (fun c => c) [EvReply id RNestedMulti]
          else upd s id (fun c => mk_sclient true (s_cas c) (s_exec c) (s_master c) (s_write c) (s_db c) (s_watched c) (s_queue c))
                 [EvReply id ROk]
      end
  | OpQueue id mc => upd s id (fun c => sc_queue c (s_queue c ++ [mc]) (s_write c || hasf (mc_flags mc) CMD_WRITE)) []
  | OpQueueError id =>
      upd s id (fun c => mk_sclient (s_multi c) (s_cas c) (s_exec c || s_multi c) (s_master c) (s_write c) (s_db c) (s_watched c) (s_queue c)) []
  | OpDiscard id =>
      match s_clients s !! id with
      | None => s
      | Some c => if s_multi c then upd s id sc_reset [EvReply id ROk] else upd s id (fun c => c) [EvReply id RDiscardWithoutMulti]
      end
  | OpExec id =>
      match s_clients s !! id with
      | None => s
      | Some c =>
          if negb (s_multi c) then upd s id (fun c => c) [EvReply id RExecWithoutMulti]
          else if s_exec c then spec_monitor (upd s id sc_reset [EvReply id RExecAbort]) id
          else if s_cas c then spec_monitor (upd s id sc_reset [EvReply id RNullArray]) id
          else if negb (loading (s_world s)) && masterhost (s_world s) && repl_slave_ro (s_world s) && negb (s_master c) && s_write c
          then spec_monitor (upd s id sc_reset [EvReply id RReadonlyReplica]) id
          else
            let was_master := negb (masterhost (s_world s)) in
            let '(s, prop) := spec_exec (upd s id sc_unwatch [EvReply id (RArrayLen (zlen (s_queue c)))]) id (s_db c) 0 (s_queue c) false in
            let s := upd s id sc_reset (if prop : bool then [EvDirty] else []) in
            let s := if prop && (repl_backlog (s_world s) && was_master && negb (negb (masterhost (s_world s))))
                     then upd s id (fun c => c) [EvBacklogExec] else s in
            spec_monitor s id
      end
  | OpTouch d k => spec_touch s (d, k)
  | OpFlush dbid =>
      mk_sserver ((fun c => if existsb (fun dk => ((dbid =? -1) || (fst dk =? dbid)) && key_exists (s_world s) (fst dk) (snd dk))
                               (elements (s_watched c))
                    then sc_dirty c else c) <$> s_clients s) (s_world s) (s_out s)
  end.

(** The code, as a step function over the same operations. *)
Definition step (s : server W) (o : op) : option (server W) :=
  match o with
  | OpWatch id ks => watchCommand s id ks
  | OpUnwatch id => unwatchCommand s id
  | OpMulti id => multiCommand s id
  | OpQueue id mc => queueMultiCommand s id mc
  | OpQueueError id => flagTransaction s id
  | OpDiscard id => discardCommand s id
  | OpExec id => execCommand s id
  | OpTouch d k => touchWatchedKey s d k
  | OpFlush dbid => Some (touchWatchedKeysOnFlush s dbid)
  end.

Fixpoint run (s : server W) (ops : list op) : option (server W) :=
  match ops with
  | [] => Some s
  | o :: ops => s ← step s o; run s ops
  end.
End Spec.
Arguments sserver : clear implicits.

(** ** Flags *)
Lemma hasf_lor_same x f : f <> 0 -> hasf (Z.lor x f) f = true.
Proof.
  intros Hf. unfold hasf. rewrite Z.land_lor_distr_l, Z.land_diag. apply negb_true_iff, Z.eqb_neq.
  rewrite Z.lor_eq_0_iff. tauto.
Qed.

Lemma hasf_lor_other x f g : Z.land f g = 0 -> hasf (Z.lor x f) g = hasf x g.
Proof. intros Hd. unfold hasf. by rewrite Z.land_lor_distr_l, Hd, Z.lor_0_r. Qed.

Lemma land_ldiff_other x f g : Z.land f g = 0 -> Z.land (Z.ldiff x f) g = Z.land x g.
Proof.
  intros Hd. apply Z.bits_inj'. intros i Hi. apply (f_equal (fun z => Z.testbit z i)) in Hd.
  rewrite Z.land_spec, Z.testbit_0_l in Hd. rewrite !Z.land_spec, Z.ldiff_spec.
  destruct (Z.testbit x i), (Z.testbit f i), (Z.testbit g i); done.
Qed.

Lemma hasf_ldiff_other x f g : Z.land f g = 0 -> hasf (Z.ldiff x f) g = hasf x g.
Proof. intros Hd. unfold hasf. by rewrite land_ldiff_other. Qed.

Lemma hasf_ldiff_sub x f g : Z.land f g = g -> hasf (Z.ldiff x f) g = false.
Proof.
  intros Hs. unfold hasf. apply negb_false_iff, Z.eqb_eq. apply Z.bits_inj'. intros i Hi.
  apply (f_equal (fun z => Z.testbit z i)) in Hs. rewrite Z.land_spec in Hs.
  rewrite Z.land_spec, Z.ldiff_spec, Z.testbit_0_l.
  destruct (Z.testbit x i), (Z.testbit f i), (Z.testbit g i); done.
Qed.

Lemma hasf_lor_arg x f g : hasf x (Z.lor f g) = hasf x f || hasf x g.
Proof.
  unfold hasf. rewrite Z.land_lor_distr_r. apply Bool.eq_iff_eq_true.
  rewrite orb_true_iff, !negb_true_iff, !Z.eqb_neq, Z.lor_eq_0_iff.
  destruct (Z.eq_dec (Z.land x f) 0), (Z.eq_dec (Z.land x g) 0); tauto.
Qed.

(** ** The abstraction and the invariant *)
Definition absc (c : client) : sclient :=
  mk_sclient (hasf (flags c) CLIENT_MULTI) (hasf (flags c) CLIENT_DIRTY_CAS) (hasf (flags c) CLIENT_DIRTY_EXEC)
    (hasf (flags c) CLIENT_MASTER) (hasf (cmd_flags c) CMD_WRITE) (db c) (list_to_set (watched_keys c)) (commands c).

Section MultiProofs.
  Context {W : Type} `{Server W}.

Definition abs (s : server W) : sserver W := mk_sserver (absc <$> clients s) (world s) (out s).

(** The two sides of the bookkeeping agree. *)
Record inv (s : server W) : Prop := {
  inv_client : forall id c, clients s !! id = Some c ->
    NoDup (watched_keys c) /\
    forall d k, (d, k) ∈ watched_keys c -> exists l, watchers s d !! k = Some l /\ id ∈ l;
  inv_db : forall d k l, watchers s d !! k = Some l ->
    l <> [] /\ NoDup l /\ forall id, id ∈ l -> exists c, clients s !! id = Some c /\ (d, k) ∈ watched_keys c
}.

Lemma inv_ext s s' :
  dbs s' = dbs s -> (forall id, watched_keys <$> clients s' !! id = watched_keys <$> clients s !! id) -> inv s -> inv s'.
Proof.
  intros Ed Ew [Hc Hd]. assert (Hwt : forall d, watchers s' d = watchers s d) by (intros d; unfold watchers; by rewrite Ed).
  constructor.
  - intros id c Hid. specialize (Ew id). rewrite Hid in Ew. destruct (clients s !! id) as [c0|] eqn:E0; [|done].
    injection Ew as Ew. destruct (Hc id c0 E0) as [Hnd Hw]. rewrite Ew. split; [done|]. intros d k Hin. rewrite Hwt. auto.
  - intros d k l Hl. rewrite Hwt in Hl. destruct (Hd d k l Hl) as (Hne & Hnd & Hin). split; [done|]. split; [done|].
    intros id Hid. destruct (Hin id Hid) as (c & Ec & Hk). specialize (Ew id). rewrite Ec in Ew.
    destruct (clients s' !! id) as [c'|]; [|done]. injection Ew as Ew. exists c'. by rewrite Ew.
Qed.

(** Changing one client without its watched keys. *)
Lemma inv_set_client s id c c' :
  inv s -> clients s !! id = Some c -> watched_keys c' = watched_keys c -> inv (set_client s id c').
Proof.
  intros Hi Hc Hw. apply (inv_ext s); [done| |done]. intros i. cbn. destruct (decide (i = id)) as [->|].
  - rewrite lookup_insert_eq, Hc. simpl. by rewrite Hw.
  - by rewrite lookup_insert_ne.
Qed.

Lemma watchers_set_dict (s : server W) d m d' : watchers (set_dict s d m) d' = if decide (d' = d) then m else watchers s d'.
Proof.
  unfold watchers. cbn. destruct (decide (d' = d)) as [->|]; [by rewrite lookup_insert_eq|by rewrite lookup_insert_ne].
Qed.

Lemma del_client_spec l id : id ∈ l -> NoDup l ->
  exists l', del_client l id = Some l' /\ NoDup l' /\ forall x, x ∈ l' <-> x ∈ l /\ x <> id.
Proof.
  induction l as [|x l IH]; intros Hin Hnd; [by apply not_elem_of_nil in Hin|]. simpl.
  apply NoDup_cons in Hnd as [Hx Hnd]. destruct (Z.eqb_spec x id) as [->|Hne].
  - exists l. split; [done|]. split; [done|]. intros y. rewrite elem_of_cons. split; [|tauto].
    intros Hy. split; [auto|]. intros ->. done.
  - apply elem_of_cons in Hin as [->|Hin]; [done|]. destruct (IH Hin Hnd) as (l' & -> & Hnd' & Hiff). cbn [mbind option_bind].
    exists (x :: l'). split; [done|]. split.
    + apply NoDup_cons. split; [|done]. rewrite Hiff. tauto.
    + intros y. rewrite !elem_of_cons, Hiff. split; [intros [->|[? ?]]; auto|tauto].
Qed.

Lemma unwatch_step s id c d k wks :
  inv s -> clients s !! id = Some c -> watched_keys c = (d, k) :: wks ->
  exists cl cl', watchers s d !! k = Some cl /\ del_client cl id = Some cl' /\
    let m := match cl' with [] => delete k (watchers s d) | _ => <[k := cl']> (watchers s d) end in
    inv (set_client (set_dict s d m) id (set_watched c wks)).
Proof.
  intros Hi Hc Hw. destruct (inv_client s Hi id c Hc) as [Hnd Hks]. rewrite Hw in Hnd, Hks.
  apply NoDup_cons in Hnd as [Hfresh Hnd]. destruct (Hks d k) as (cl & Ecl & Hin); [set_solver|].
  destruct (inv_db s Hi d k cl Ecl) as (_ & Hndl & Hmem). destruct (del_client_spec cl id Hin Hndl) as (cl' & Edel & Hnd' & Hiff).
  exists cl, cl'. split; [done|]. split; [done|]. cbv zeta.
  set (m := match cl' with [] => _ | _ => _ end).
  assert (Hm : forall k', m !! k' = if decide (k' = k) then match cl' with [] => None | _ => Some cl' end else watchers s d !! k').
  { intros k'. unfold m. destruct (decide (k' = k)) as [->|]; destruct cl';
      by rewrite ?lookup_delete_eq, ?lookup_insert_eq, ?lookup_delete_ne, ?lookup_insert_ne by done. }
  assert (Hlook : forall d' k', watchers (set_client (set_dict s d m) id (set_watched c wks)) d' !! k' =
    if decide (d' = d /\ k' = k) then match cl' with [] => None | _ => Some cl' end else watchers s d' !! k').
  { intros d' k'. change (watchers (set_client _ _ _) d') with (watchers (set_dict s d m) d'). rewrite watchers_set_dict.
    destruct (decide (d' = d)) as [->|]; [rewrite Hm|]; destruct (decide (_ /\ _)); destruct (decide (k' = k)); naive_solver. }
  constructor.
  - intros i ci Hci. cbn in Hci. destruct (decide (i = id)) as [->|Hne].
    + rewrite lookup_insert_eq in Hci. injection Hci as <-. cbn. split; [done|]. intros d' k' Hin'.
      rewrite Hlook. destruct (decide (d' = d /\ k' = k)) as [[-> ->]|]; [done|]. apply Hks. set_solver.
    + rewrite lookup_insert_ne in Hci by done. destruct (inv_client s Hi i ci Hci) as [Hndi Hksi]. split; [done|].
      intros d' k' Hin'. rewrite Hlook. destruct (Hksi d' k' Hin') as (l & El & Hil).
      destruct (decide (d' = d /\ k' = k)) as [[-> ->]|]; [|eauto]. assert (l = cl) as -> by congruence.
      assert (Hi' : i ∈ cl') by (apply Hiff; done). destruct cl'; [by apply not_elem_of_nil in Hi'|eauto].
  - intros d' k' l Hl. rewrite Hlook in Hl. destruct (decide (d' = d /\ k' = k)) as [[-> ->]|Hne].
    + assert (cl' <> [] /\ l = cl') as [Hcne ->] by (destruct cl'; [done|]; split; congruence). split; [done|]. split; [done|].
      intros i Hi'. apply Hiff in Hi' as [Hi' Hne]. destruct (Hmem i Hi') as (ci & Eci & Hk). exists ci. cbn.
      by rewrite lookup_insert_ne.
    + destruct (inv_db s Hi d' k' l Hl) as (Hne' & Hnd2 & Hmem2). split; [done|]. split; [done|]. intros i Hi'.
      destruct (Hmem2 i Hi') as (ci & Eci & Hk). cbn. destruct (decide (i = id)) as [->|].
      * exists (set_watched c wks). rewrite lookup_insert_eq. split; [done|]. assert (ci = c) as -> by congruence.
        rewrite Hw in Hk. cbn. apply elem_of_cons in Hk as [[= -> ->]|Hk]; [|done]. exfalso. apply Hne. done.
      * exists ci. by rewrite lookup_insert_ne.
Qed.

Lemma unwatch_loop_spec wks : forall s id c,
  inv s -> clients s !! id = Some c -> watched_keys c = wks ->
  exists s', unwatch_loop s id wks = Some s' /\ inv s' /\ clients s' = <[id := set_watched c []]> (clients s) /\
    world s' = world s /\ out s' = out s.
Proof.
  induction wks as [|[d k] wks IH]; intros s id c Hi Hc Hw.
  - exists s. split; [done|]. split; [done|]. split; [|done]. rewrite insert_id; [done|]. rewrite Hc. f_equal.
    destruct c. cbn in *. by rewrite Hw.
  - cbn [unwatch_loop]. destruct (unwatch_step s id c d k wks Hi Hc Hw) as (cl & cl' & -> & E & Hi'). cbn [mbind option_bind].
    rewrite E. cbn [mbind option_bind]. cbv zeta in Hi'. change (clients (set_dict s d ?m)) with (clients s). rewrite Hc. cbn [mbind option_bind].
    destruct (IH _ id (set_watched c wks) Hi') as (s' & E' & Hi2 & Ecl & Ew & Eo); [cbn; by rewrite lookup_insert_eq|done|].
    exists s'. split; [exact E'|]. split; [done|]. rewrite Ecl. cbn. rewrite insert_insert_eq. done.
Qed.

Lemma unwatch_spec s id c :
  inv s -> clients s !! id = Some c ->
  exists s', unwatchAllKeys s id = Some s' /\ inv s' /\ clients s' = <[id := set_watched c []]> (clients s) /\
    world s' = world s /\ out s' = out s.
Proof.
  intros Hi Hc. unfold unwatchAllKeys. rewrite Hc. cbn [mbind option_bind].
  destruct (unwatch_loop_spec (watched_keys c) s id c Hi Hc eq_refl) as (s' & E & ?). exists s'. split; [|done].
  destruct (watched_keys c); done.
Qed.

Lemma abs_upd s s' id c c' f es :
  clients s !! id = Some c -> clients s' = <[id := c']> (clients s) -> world s' = world s -> out s' = out s ++ es ->
  absc c' = f (absc c) -> abs s' = upd (abs s) id f es.
Proof.
  intros Hc Ec Ew Eo Ef. unfold abs, upd. cbn. rewrite Ec, Ew, Eo. f_equal. apply map_eq. intros i.
  rewrite lookup_fmap. destruct (decide (i = id)) as [->|Hne].
  - rewrite lookup_insert_eq, lookup_alter_eq, lookup_fmap, Hc. simpl. by rewrite Ef.
  - by rewrite lookup_insert_ne, lookup_alter_ne, lookup_fmap by done.
Qed.

(** Only events. *)
Lemma abs_emit s s' id c es :
  clients s !! id = Some c -> clients s' = clients s -> world s' = world s -> out s' = out s ++ es ->
  abs s' = upd (abs s) id (fun c => c) es.
Proof.
  intros Hc Ec Ew Eo. eapply abs_upd; [exact Hc| |done|done|done]. rewrite Ec. symmetry. by apply insert_id.
Qed.

(** A client after the transaction is discarded. *)
Definition reset_client (c : client) : client :=
  mk_client (Z.ldiff (flags c) (Z.lor (Z.lor CLIENT_MULTI CLIENT_DIRTY_CAS) CLIENT_DIRTY_EXEC)) (db c) [] [] 0.

Lemma absc_reset c : absc (reset_client c) = sc_reset (absc c).
Proof.
  unfold absc, sc_reset, reset_client. cbn [flags db watched_keys commands cmd_flags].
  rewrite !hasf_ldiff_sub, hasf_ldiff_other by reflexivity. done.
Qed.

Lemma discard_spec s id c :
  inv s -> clients s !! id = Some c ->
  exists s', discardTransaction s id = Some s' /\ inv s' /\ clients s' = <[id := reset_client c]> (clients s) /\
    world s' = world s /\ out s' = out s.
Proof.
  intros Hi Hc. unfold discardTransaction. rewrite Hc. cbn [mbind option_bind].
  set (c1 := set_flags _ _). assert (Hi1 : inv (set_client s id c1)) by (by apply (inv_set_client s id c)).
  destruct (unwatch_spec (set_client s id c1) id c1 Hi1) as (s' & -> & Hi' & Ec & Ew & Eo); [cbn; by rewrite lookup_insert_eq|].
  exists s'. split; [done|]. split; [done|]. rewrite Ec. cbn. by rewrite insert_insert_eq.
Qed.

(** A client is watched on both sides, or on none. *)
Lemma watch_spec s id c k :
  inv s -> clients s !! id = Some c ->
  exists s' c', watchForKey s id k = Some s' /\ inv s' /\ clients s' = <[id := c']> (clients s) /\ world s' = world s /\ out s' = out s /\
    c' = set_watched c (watched_keys c') /\ (list_to_set (watched_keys c') : gset (Z * key)) = list_to_set (watched_keys c) ∪ {[ (db c, k) ]}.
Proof.
  intros Hi Hc. unfold watchForKey. rewrite Hc. cbn [mbind option_bind].
  destruct (bool_decide_reflect ((db c, k) ∈ watched_keys c)) as [Hin|Hnin].
  { exists s, c. split; [done|]. split; [done|]. split; [by rewrite insert_id|]. split; [done|]. split; [done|].
    split; [by destruct c|]. set_solver. }
  set (d := watchers s (db c)). set (cl := default [] (d !! k)). eexists _, _. split; [done|].
  assert (Hcl : forall i, i ∈ cl -> exists ci, clients s !! i = Some ci /\ (db c, k) ∈ watched_keys ci).
  { intros i Hin. unfold cl in Hin. destruct (d !! k) as [l|] eqn:E; [|by apply not_elem_of_nil in Hin].
    by apply (inv_db s Hi _ _ _ E). }
  assert (Hid : id ∉ cl).
  { intros Hin. destruct (Hcl id Hin) as (ci & Eci & Hk). assert (ci = c) as -> by congruence. done. }
  assert (Hndcl : NoDup cl).
  { unfold cl. destruct (d !! k) as [l|] eqn:E; [|constructor]. by apply (inv_db s Hi _ _ _ E). }
  split; [|split; [done|split; [done|split; [done|split; [done|cbn; rewrite list_to_set_app_L; set_solver]]]]].
  set (s' := set_client _ _ _).
  assert (Hlook : forall d' k', watchers s' d' !! k' = if decide (d' = db c /\ k' = k) then Some (cl ++ [id]) else watchers s d' !! k').
  { intros d' k'. change (watchers s' d') with (watchers (set_dict s (db c) (<[k := cl ++ [id]]> d)) d'). rewrite watchers_set_dict.
    destruct (decide (d' = db c)) as [->|]; [destruct (decide (k' = k)) as [->|]|].
    - rewrite lookup_insert_eq. by rewrite decide_True by done.
    - rewrite lookup_insert_ne by done. by rewrite decide_False by naive_solver.
    - by rewrite decide_False by naive_solver. }
  constructor.
  - intros i ci Hci. cbn in Hci. destruct (decide (i = id)) as [->|Hne].
    + rewrite lookup_insert_eq in Hci. injection Hci as <-. cbn. destruct (inv_client s Hi id c Hc) as [Hnd Hks]. split.
      * apply NoDup_app. split; [done|]. split; [|apply NoDup_singleton]. intros x Hx Hx2.
        apply list_elem_of_singleton in Hx2 as ->. done.
      * intros d' k' Hin. rewrite Hlook. destruct (decide (d' = db c /\ k' = k)) as [|Hne]; [eexists; split; [done|]; set_solver|].
        apply elem_of_app in Hin as [Hin|Hin]; [by apply Hks|]. apply list_elem_of_singleton in Hin. exfalso. apply Hne. by injection Hin as -> ->.
    + rewrite lookup_insert_ne in Hci by done. destruct (inv_client s Hi i ci Hci) as [Hnd Hks]. split; [done|].
      intros d' k' Hin. rewrite Hlook. destruct (Hks d' k' Hin) as (l & El & Hil).
      destruct (decide (d' = db c /\ k' = k)) as [[-> ->]|]; [|eauto]. eexists. split; [done|].
      unfold cl, d. rewrite El. simpl. set_solver.
  - intros d' k' l Hl. rewrite Hlook in Hl. destruct (decide (d' = db c /\ k' = k)) as [[-> ->]|Hne].
    + injection Hl as <-. split; [by destruct cl|]. split.
      * apply NoDup_app. split; [done|]. split; [|apply NoDup_singleton]. intros x Hx Hx2.
        apply list_elem_of_singleton in Hx2 as ->. done.
      * intros i Hin. cbn. destruct (decide (i = id)) as [->|Hne].
        -- rewrite lookup_insert_eq. eexists. split; [done|]. cbn. set_solver.
        -- rewrite lookup_insert_ne by done. apply Hcl. set_solver.
    + destruct (inv_db s Hi d' k' l Hl) as (Hne' & Hnd2 & Hmem2). split; [done|]. split; [done|]. intros i Hi'.
      destruct (Hmem2 i Hi') as (ci & Eci & Hk). cbn. destruct (decide (i = id)) as [->|].
      * rewrite lookup_insert_eq. eexists. split; [done|]. assert (ci = c) as -> by congruence. cbn. set_solver.
      * rewrite lookup_insert_ne by done. eauto.
Qed.

Lemma watch_args_spec ks : forall s id c,
  inv s -> clients s !! id = Some c ->
  exists s' c', watch_args s id ks = Some s' /\ inv s' /\ clients s' = <[id := c']> (clients s) /\ world s' = world s /\ out s' = out s /\
    c' = set_watched c (watched_keys c') /\
    (list_to_set (watched_keys c') : gset (Z * key)) = list_to_set (watched_keys c) ∪ list_to_set (pair (db c) <$> ks).
Proof.
  induction ks as [|k ks IH]; intros s id c Hi Hc.
  - exists s, c. split; [done|]. split; [done|]. split; [by rewrite insert_id|]. split; [done|]. split; [done|].
    split; [by destruct c|]. set_solver.
  - cbn [watch_args]. destruct (watch_spec s id c k Hi Hc) as (s1 & c1 & -> & Hi1 & Ec1 & Ew1 & Eo1 & E1 & L1). cbn [mbind option_bind].
    destruct (IH s1 id c1 Hi1) as (s2 & c2 & -> & Hi2 & Ec2 & Ew2 & Eo2 & E2 & L2); [by rewrite Ec1, lookup_insert_eq|].
    exists s2, c2. split; [done|]. split; [done|]. split; [rewrite Ec2, Ec1; apply insert_insert_eq|]. split; [congruence|].
    split; [congruence|]. split; [rewrite E2, E1; done|].
    assert (Edb : db c1 = db c) by (rewrite E1; done). rewrite L2, L1, Edb. cbn. set_solver.
Qed.

(** *** Touching keys *)
Definition dirty (c : client) : client := set_flags c (Z.lor (flags c) CLIENT_DIRTY_CAS).

Lemma absc_dirty c : absc (dirty c) = sc_dirty (absc c).
Proof.
  unfold absc, sc_dirty, dirty. cbn [flags set_flags db watched_keys commands cmd_flags s_multi s_exec s_master s_write s_db s_watched s_queue].
  rewrite hasf_lor_same by done. by rewrite !hasf_lor_other by reflexivity.
Qed.

Lemma dirty_idem c : dirty (dirty c) = dirty c.
Proof. unfold dirty. cbn. f_equal. by rewrite <- Z.lor_assoc, Z.lor_diag. Qed.

Lemma mark_dirty_spec l : forall s : server W,
  (forall id, id ∈ l -> is_Some (clients s !! id)) ->
  exists s', mark_dirty s l = Some s' /\ dbs s' = dbs s /\ world s' = world s /\ out s' = out s /\
    forall id, clients s' !! id = (fun c => if bool_decide (id ∈ l) then dirty c else c) <$> clients s !! id.
Proof.
  induction l as [|x l IH]; intros s Hl.
  - exists s. do 4 (split; [done|]). intros id. destruct (clients s !! id); done.
  - cbn [mark_dirty]. destruct (Hl x) as [c Hc]; [set_solver|]. rewrite Hc. cbn [mbind option_bind]. fold (dirty c).
    destruct (IH (set_client s x (dirty c))) as (s' & E & Ed & Ew & Eo & Ec).
    + intros id Hid. cbn. destruct (decide (id = x)) as [->|]; [by rewrite lookup_insert_eq|].
      rewrite lookup_insert_ne by done. apply Hl. set_solver.
    + exists s'. do 4 (split; [done|]). intros id. rewrite Ec. cbn. destruct (decide (id = x)) as [->|Hne].
      * rewrite lookup_insert_eq, Hc. simpl. rewrite (bool_decide_eq_true_2 (x ∈ x :: l)) by set_solver.
        destruct (bool_decide (x ∈ l)); [by rewrite dirty_idem|done].
      * rewrite lookup_insert_ne by done. destruct (clients s !! id); [|done]. simpl. f_equal.
        destruct (bool_decide_reflect (id ∈ l)), (bool_decide_reflect (id ∈ x :: l)); set_solver.
Qed.

Lemma inv_dirty s s' (P : Z -> bool) :
  inv s -> dbs s' = dbs s -> (forall id, clients s' !! id = (fun c => if P id then dirty c else c) <$> clients s !! id) -> inv s'.
Proof.
  intros Hi Ed Ec. apply (inv_ext s); [done| |done]. intros id. rewrite Ec. destruct (clients s !! id); [|done]. simpl.
  by destruct (P id).
Qed.

Lemma touch_spec s d k :
  inv s -> exists s', touchWatchedKey s d k = Some s' /\ inv s' /\ abs s' = spec_touch (abs s) (d, k).
Proof.
  intros Hi. unfold touchWatchedKey.
  assert (Hnone : watchers s d !! k = None -> abs s = spec_touch (abs s) (d, k)).
  { intros Hn. unfold spec_touch, abs. cbn. f_equal. apply map_eq. intros id. rewrite !lookup_fmap.
    destruct (clients s !! id) as [c|] eqn:Ec; [|done]. simpl. f_equal. rewrite bool_decide_eq_false_2; [done|].
    rewrite elem_of_list_to_set. intros Hin. destruct (inv_client s Hi id c Ec) as [_ Hks].
    destruct (Hks d k Hin) as (l & El & _). congruence. }
  destruct (bool_decide_reflect (watchers s d = ∅)) as [He|_].
  { exists s. split; [done|]. split; [done|]. apply Hnone. rewrite He. apply lookup_empty. }
  destruct (watchers s d !! k) as [l|] eqn:El.
  2:{ exists s. split; [done|]. split; [done|]. by apply Hnone. }
  destruct (inv_db s Hi d k l El) as (_ & _ & Hmem).
  destruct (mark_dirty_spec l s) as (s' & -> & Ed & Ew & Eo & Ec).
  { intros id Hid. destruct (Hmem id Hid) as (c & E & _). eauto. }
  exists s'. split; [done|]. split; [by apply (inv_dirty s s' (fun id => bool_decide (id ∈ l)))|].
  - unfold spec_touch, abs. cbn. rewrite Ew, Eo. f_equal. apply map_eq. intros id. rewrite !lookup_fmap, Ec.
    destruct (clients s !! id) as [c|] eqn:Eid; [|done]. simpl. f_equal.
    assert (Hiff : id ∈ l <-> (d, k) ∈ (list_to_set (watched_keys c) : gset (Z * key))).
    { rewrite elem_of_list_to_set. split.
      - intros Hid. destruct (Hmem id Hid) as (c' & E' & Hk). assert (c' = c) as -> by congruence. done.
      - intros Hk. destruct (inv_client s Hi id c Eid) as [_ Hks]. destruct (Hks d k Hk) as (l' & El' & Hid). congruence. }
    destruct (bool_decide_reflect (id ∈ l)), (bool_decide_reflect ((d, k) ∈ (list_to_set (watched_keys c) : gset (Z * key)))); try tauto. apply absc_dirty.
Qed.

Lemma touch_keys_spec ks : forall s : server W,
  inv s -> exists s', touch_keys s ks = Some s' /\ inv s' /\ abs s' = fold_left spec_touch ks (abs s).
Proof.
  induction ks as [|[d k] ks IH]; intros s Hi; [by exists s|]. cbn [touch_keys fold_left].
  destruct (touch_spec s d k Hi) as (s1 & -> & Hi1 & E1). cbn [mbind option_bind].
  destruct (IH s1 Hi1) as (s2 & E & Hi2 & E2). exists s2. split; [done|]. split; [done|]. by rewrite E2, E1.
Qed.

Lemma spec_touch_client ks : forall (t : sserver W) id, is_Some (s_clients (fold_left spec_touch ks t) !! id) <-> is_Some (s_clients t !! id).
Proof.
  induction ks as [|dk ks IH]; intros t id; [done|]. cbn [fold_left]. rewrite IH. cbn. rewrite lookup_fmap. apply fmap_is_Some.
Qed.

Lemma spec_touch_db ks : forall (t : sserver W) id,
  s_db <$> s_clients (fold_left spec_touch ks t) !! id = s_db <$> s_clients t !! id.
Proof.
  induction ks as [|dk ks IH]; intros t id; [done|]. cbn [fold_left]. rewrite IH. cbn. rewrite lookup_fmap.
  destruct (s_clients t !! id); [|done]. simpl. by destruct (bool_decide _).
Qed.

Lemma abs_client s id : s_clients (abs s) !! id = absc <$> clients s !! id.
Proof. cbn. by rewrite lookup_fmap. Qed.

(** The loop of EXEC. *)
Lemma exec_loop_spec cmds : forall s id j prop c dbid,
  inv s -> clients s !! id = Some c -> db c = dbid ->
  exists s', exec_loop s id j cmds prop = Some (s', (spec_exec (abs s) id dbid j cmds prop).2) /\
    inv s' /\ abs s' = (spec_exec (abs s) id dbid j cmds prop).1 /\ is_Some (clients s' !! id).
Proof.
  induction cmds as [|mc cmds IH]; intros s id j prop c dbid Hi Hc Hdb; [exists s; eauto|].
  cbn [exec_loop spec_exec]. set (first := negb prop && negb (hasf (mc_flags mc) (Z.lor CMD_READONLY CMD_ADMIN))).
  (* propagation of MULTI *)
  assert (H1 : exists s1, (if first then s ← execCommandPropagateMulti s id; Some (s, true) else Some (s, prop)) = Some (s1, prop || first) /\
    inv s1 /\ clients s1 = clients s /\ abs s1 = if first then upd (abs s) id (fun c => c) [EvPropagateMulti dbid] else abs s).
  { destruct first; [|exists s; by rewrite orb_false_r]. unfold execCommandPropagateMulti. rewrite Hc. cbn [mbind option_bind].
    rewrite orb_true_r, Hdb. eexists. split; [done|]. split; [by apply (inv_ext s)|]. split; [done|]. by eapply abs_emit. }
  destruct H1 as (s1 & -> & Hi1 & Ec1 & E1). cbn [mbind option_bind]. rewrite <- E1.
  (* the command *)
  assert (H2 : exists s2 mc', (if acl_denied (world s1) id mc then Some (addReply s1 id RNoPerm, mc)
      else let '(w, mc, touched) := call (world s1) id mc in s ← touch_keys (set_world s1 w) touched; Some (s, mc)) = Some (s2, mc') /\
    inv s2 /\ (abs s2, mc') = (if acl_denied (world s1) id mc then (upd (abs s1) id (fun c => c) [EvReply id RNoPerm], mc)
      else let '(w, mc, touched) := call (world s1) id mc in
           (fold_left spec_touch touched (mk_sserver (s_clients (abs s1)) w (s_out (abs s1))), mc)) /\
    db <$> clients s2 !! id = Some dbid).
  { destruct (acl_denied (world s1) id mc).
    - eexists _, _. split; [done|]. split; [by apply (inv_ext s1)|]. split; [|cbn; rewrite Ec1, Hc; simpl; by rewrite Hdb].
      f_equal. eapply (abs_emit s1 _ id c); [by rewrite Ec1|done|done|done].
    - destruct (call (world s1) id mc) as [[w mc'] touched].
      destruct (touch_keys_spec touched (set_world s1 w)) as (s2 & -> & Hi2 & E2); [by apply (inv_ext s1)|].
      cbn [mbind option_bind]. exists s2, mc'. split; [done|]. split; [done|]. split; [by rewrite E2|].
      pose proof (spec_touch_db touched (abs (set_world s1 w)) id) as Hd. rewrite <- E2, !abs_client in Hd.
      change (clients (set_world s1 w)) with (clients s1) in Hd. rewrite Ec1, Hc in Hd. simpl in Hd.
      destruct (clients s2 !! id) as [c2|]; [|done]. simpl in *. by rewrite <- Hdb. }
  destruct H2 as (s2 & mc' & -> & Hi2 & E2 & Hdb2). cbn [mbind option_bind].
  change (s_world (abs s1)) with (world s1). rewrite <- E2.
  destruct (clients s2 !! id) as [c2|] eqn:Hc2; [|done]. injection Hdb2 as Hdb2. cbn [mbind option_bind].
  set (s3 := set_client s2 id _).
  assert (Hi3 : inv s3) by (by apply (inv_set_client s2 id c2)).
  assert (E3 : abs s3 = upd (abs s2) id (fun c => sc_queue c (<[j := mc']> (s_queue c)) (s_write c)) []).
  { eapply abs_upd; [exact Hc2|reflexivity|done|cbn; by rewrite app_nil_r|done]. }
  rewrite <- E3. apply (IH s3 id (S j) (prop || first) (set_mstate c2 (<[j := mc']> (commands c2)) (cmd_flags c2)) dbid Hi3);
    [cbn; by rewrite lookup_insert_eq|done].
Qed.

Lemma monitor_spec (s : server W) id : abs (handle_monitor s id) = spec_monitor (abs s) id.
Proof. unfold handle_monitor, spec_monitor. change (s_world (abs s)) with (world s). by destruct (_ && _). Qed.

Lemma inv_reply s id r : inv s -> inv (addReply s id r).
Proof. intros Hi. by apply (inv_ext s). Qed.

Lemma inv_monitor s id : inv s -> inv (handle_monitor s id).
Proof. intros Hi. unfold handle_monitor. destruct (_ && _); [by apply (inv_ext s)|done]. Qed.

(** DISCARD and a failed EXEC. *)
Lemma reset_reply s id c r :
  inv s -> clients s !! id = Some c ->
  exists s', discardTransaction (addReply s id r) id = Some s' /\ inv s' /\ abs s' = upd (abs s) id sc_reset [EvReply id r] /\
    is_Some (clients s' !! id).
Proof.
  intros Hi Hc. destruct (discard_spec (addReply s id r) id c) as (s' & E & Hi' & Ec & Ew & Eo); [by apply (inv_ext s)|done|].
  exists s'. split; [done|]. split; [done|]. split; [|rewrite Ec, lookup_insert_eq; eauto].
  eapply (abs_upd s); [exact Hc|exact Ec|exact Ew|exact Eo|apply absc_reset].
Qed.

Lemma exec_spec s id c :
  inv s -> clients s !! id = Some c ->
  exists s', execCommand s id = Some s' /\ inv s' /\ abs s' = spec_step (abs s) (OpExec id).
Proof.
  intros Hi Hc. unfold execCommand. rewrite Hc. cbn [mbind option_bind spec_step]. rewrite abs_client, Hc.
  change (absc <$> Some c) with (Some (absc c)). cbv iota beta.
  cbn [absc s_multi s_exec s_cas s_master s_write s_queue s_db]. change (s_world (abs s)) with (world s).
  destruct (hasf (flags c) CLIENT_MULTI) eqn:Em; cbn [negb].
  2:{ eexists. split; [done|]. split; [by apply (inv_ext s)|]. by eapply abs_emit. }
  assert (Hreset : forall r, exists s', (s ← discardTransaction (addReply s id r) id; Some (handle_monitor s id)) = Some s' /\ inv s' /\
    abs s' = spec_monitor (upd (abs s) id sc_reset [EvReply id r]) id).
  { intros r. destruct (reset_reply s id c r Hi Hc) as (s' & -> & Hi' & E & _). cbn [mbind option_bind]. eexists. split; [done|].
    split; [by apply inv_monitor|]. by rewrite monitor_spec, E. }
  rewrite hasf_lor_arg. destruct (hasf (flags c) CLIENT_DIRTY_EXEC) eqn:Ee; [rewrite orb_true_r; apply Hreset|]. rewrite orb_false_r.
  destruct (hasf (flags c) CLIENT_DIRTY_CAS) eqn:Ecas; [apply Hreset|].
  destruct (_ && _ && _ && _ && _); [apply Hreset|].
  destruct (unwatch_spec s id c Hi Hc) as (s1 & -> & Hi1 & Ec1 & Ew1 & Eo1). cbn [mbind option_bind].
  set (s2 := addReply s1 id _). assert (Hi2 : inv s2) by (by apply (inv_ext s1)).
  assert (E2 : abs s2 = upd (abs s) id sc_unwatch [EvReply id (RArrayLen (zlen (commands c)))]).
  { eapply (abs_upd s s2 id c (set_watched c [])); [done|exact Ec1|exact Ew1|cbn; by rewrite Eo1|done]. }
  destruct (exec_loop_spec (commands c) s2 id 0 false (set_watched c []) (db c) Hi2) as (s3 & -> & Hi3 & E3 & [c3 Hc3]);
    [cbn; by rewrite Ec1, lookup_insert_eq|done|].
  rewrite E2 in *. destruct (spec_exec _ _ _ _ _ _) as [t prop]. cbn [fst snd] in *. cbn [mbind option_bind].
  destruct (discard_spec s3 id c3 Hi3 Hc3) as (s4 & -> & Hi4 & Ec4 & Ew4 & Eo4). cbn [mbind option_bind].
  eexists. split; [done|]. rewrite monitor_spec, <- E3.
  assert (E4 : forall es s5, clients s5 = clients s4 -> world s5 = world s4 -> out s5 = out s4 ++ es -> abs s5 = upd (abs s3) id sc_reset es).
  { intros es s5 F1 F2 F3. eapply (abs_upd s3); [exact Hc3|by rewrite F1, Ec4|congruence|by rewrite F3, Eo4|apply absc_reset]. }
  assert (Hi5 : forall s5, clients s5 = clients s4 -> dbs s5 = dbs s4 -> inv s5).
  { intros s5 F1 F2. apply (inv_ext s4); [done|by rewrite F1|done]. }
  destruct prop.
  - rewrite <- (E4 [EvDirty] (emit s4 EvDirty)) by done. cbn [andb]. change (s_world (abs (emit s4 EvDirty))) with (world s4).
    destruct (_ && _ && _).
    + split; [by apply inv_monitor, Hi5|]. f_equal. eapply abs_emit; [|done..]. cbn. by rewrite Ec4, lookup_insert_eq.
    + split; [by apply inv_monitor, Hi5|done].
  - split; [by apply inv_monitor|]. cbn [andb]. f_equal. apply E4; [done..|]. by rewrite app_nil_r.
Qed.

Lemma flush_client_spec (w : W) dbid c :
  absc (flush_client w dbid c) =
    (if existsb (fun dk => ((dbid =? -1) || (fst dk =? dbid)) && key_exists w (fst dk) (snd dk)) (watched_keys c)
     then sc_dirty (absc c) else absc c) /\ watched_keys (flush_client w dbid c) = watched_keys c.
Proof.
  unfold flush_client. set (P := fun dk => ((dbid =? -1) || (fst dk =? dbid)) && key_exists w (fst dk) (snd dk)).
  assert (Hgen : forall wks c, let c' := fold_left (fun c wk => if P wk then set_flags c (Z.lor (flags c) CLIENT_DIRTY_CAS) else c) wks c in
    c' = if existsb P wks then dirty c else c).
  { clear. induction wks as [|wk wks IH]; intros c; [done|]. cbn [fold_left existsb]. destruct (P wk); cbn [orb].
    - rewrite IH. fold (dirty c). destruct (existsb P wks); [apply dirty_idem|done].
    - apply IH. }
  specialize (Hgen (watched_keys c) c). cbv zeta in Hgen. unfold P in Hgen at 1. rewrite Hgen. fold P.
  destruct (existsb P _); [|done]. split; [apply absc_dirty|done].
Qed.

Lemma existsb_perm {A} (P : A -> bool) l l' : (forall x, x ∈ l <-> x ∈ l') -> existsb P l = existsb P l'.
Proof.
  intros Hp. apply Bool.eq_iff_eq_true. rewrite !existsb_exists. split; intros (x & Hx & HP); exists x; split; try done;
    apply list_elem_of_In; apply Hp; by apply list_elem_of_In.
Qed.

Definition op_client (o : op) : option Z :=
  match o with
  | OpWatch id _ | OpUnwatch id | OpMulti id | OpQueue id _ | OpQueueError id | OpDiscard id | OpExec id => Some id
  | _ => None
  end.

Lemma hasf_lor3 x y f : hasf (Z.lor x y) f = hasf x f || hasf y f.
Proof.
  unfold hasf. rewrite Z.land_lor_distr_l. apply Bool.eq_iff_eq_true.
  rewrite orb_true_iff, !negb_true_iff, !Z.eqb_neq, Z.lor_eq_0_iff.
  destruct (Z.eq_dec (Z.land x f) 0), (Z.eq_dec (Z.land y f) 0); tauto.
Qed.

Lemma step_refines s o :
  inv s -> (forall id, op_client o = Some id -> is_Some (clients s !! id)) ->
  exists s', step s o = Some s' /\ inv s' /\ abs s' = spec_step (abs s) o.
Proof.
  intros Hi Hex. destruct o as [id ks|id|id|id mc|id|id|id|d k|dbid]; cbn [step];
    try (destruct (Hex id eq_refl) as [c Hc]).
  - unfold watchCommand. rewrite Hc. cbn [mbind option_bind spec_step]. rewrite abs_client, Hc.
    change (absc <$> Some c) with (Some (absc c)). cbv iota beta. cbn [absc s_multi].
    destruct (hasf (flags c) CLIENT_MULTI) eqn:Em.
    { eexists. split; [done|]. split; [by apply (inv_ext s)|]. by eapply abs_emit. }
    destruct (watch_args_spec ks s id c Hi Hc) as (s1 & c1 & -> & Hi1 & Ec1 & Ew1 & Eo1 & E1 & L1). cbn [mbind option_bind].
    eexists. split; [done|]. split; [by apply (inv_ext s1)|].
    eapply (abs_upd s _ id c c1); [done|exact Ec1|exact Ew1|cbn; by rewrite Eo1|].
    unfold absc. rewrite E1. cbn [flags set_watched db watched_keys commands cmd_flags s_multi s_cas s_exec s_master s_write s_db s_watched s_queue].
    by rewrite L1.
  - unfold unwatchCommand. destruct (unwatch_spec s id c Hi Hc) as (s1 & -> & Hi1 & Ec1 & Ew1 & Eo1). cbn [mbind option_bind].
    assert (Hc1 : clients s1 !! id = Some (set_watched c [])) by (by rewrite Ec1, lookup_insert_eq). rewrite Hc1. cbn [mbind option_bind].
    eexists. split; [done|]. split; [by apply inv_reply, (inv_set_client s1 id (set_watched c []))|].
    eapply (abs_upd s _ id c); [done|cbn; rewrite Ec1; apply insert_insert_eq|exact Ew1|cbn; by rewrite Eo1|].
    unfold absc. cbn [flags set_flags set_watched db watched_keys commands cmd_flags s_multi s_cas s_exec s_master s_write s_db s_watched s_queue].
    by rewrite (hasf_ldiff_sub _ _ CLIENT_DIRTY_CAS), !hasf_ldiff_other by reflexivity.
  - unfold multiCommand. rewrite Hc. cbn [mbind option_bind spec_step]. rewrite abs_client, Hc.
    change (absc <$> Some c) with (Some (absc c)). cbv iota beta. cbn [absc s_multi].
    destruct (hasf (flags c) CLIENT_MULTI) eqn:Em.
    { eexists. split; [done|]. split; [by apply (inv_ext s)|]. by eapply abs_emit. }
    eexists. split; [done|]. split; [by apply inv_reply, (inv_set_client s id c)|].
    eapply (abs_upd s _ id c); [done|reflexivity|done|done|].
    unfold absc. cbn [flags set_flags db watched_keys commands cmd_flags s_multi s_cas s_exec s_master s_write s_db s_watched s_queue].
    by rewrite hasf_lor_same, !hasf_lor_other by (reflexivity || done).
  - unfold queueMultiCommand. rewrite Hc. cbn [mbind option_bind].
    eexists. split; [done|]. split; [by apply (inv_set_client s id c)|].
    eapply (abs_upd s _ id c); [done|reflexivity|done|cbn; by rewrite app_nil_r|].
    unfold absc, sc_queue. cbn [flags set_mstate db watched_keys commands cmd_flags s_multi s_cas s_exec s_master s_write s_db s_watched s_queue].
    by rewrite hasf_lor3.
  - unfold flagTransaction. rewrite Hc. cbn [mbind option_bind].
    destruct (hasf (flags c) CLIENT_MULTI) eqn:Em; eexists; (split; [done|]).
    + split; [by apply (inv_set_client s id c)|].
      eapply (abs_upd s _ id c); [done|reflexivity|done|cbn; by rewrite app_nil_r|].
      unfold absc. cbn [flags set_flags db watched_keys commands cmd_flags s_multi s_cas s_exec s_master s_write s_db s_watched s_queue].
      by rewrite hasf_lor_same, !hasf_lor_other, Em, orb_true_r by (reflexivity || done).
    + split; [done|]. eapply (abs_upd s _ id c c); [done|by rewrite insert_id|done|by rewrite app_nil_r|].
      unfold absc. cbn [s_multi s_cas s_exec s_master s_write s_db s_watched s_queue]. by rewrite Em, orb_false_r.
  - unfold discardCommand. rewrite Hc. cbn [mbind option_bind spec_step]. rewrite abs_client, Hc.
    change (absc <$> Some c) with (Some (absc c)). cbv iota beta. cbn [absc s_multi].
    destruct (hasf (flags c) CLIENT_MULTI) eqn:Em; cbn [negb].
    + destruct (discard_spec s id c Hi Hc) as (s1 & -> & Hi1 & Ec1 & Ew1 & Eo1). cbn [mbind option_bind].
      eexists. split; [done|]. split; [by apply (inv_ext s1)|].
      eapply (abs_upd s _ id c); [done|exact Ec1|exact Ew1|cbn; by rewrite Eo1|apply absc_reset].
    + eexists. split; [done|]. split; [by apply (inv_ext s)|]. by eapply abs_emit.
  - by apply (exec_spec s id c).
  - by apply touch_spec.
  - eexists. split; [done|]. split.
    + apply (inv_ext s); [done| |done]. intros i. cbn. rewrite lookup_fmap. destruct (clients s !! i) as [c|]; [|done]. simpl.
      by rewrite (proj2 (flush_client_spec (world s) dbid c)).
    + unfold abs, touchWatchedKeysOnFlush. cbn. f_equal. apply map_eq. intros i. rewrite !lookup_fmap.
      destruct (clients s !! i) as [c|]; [|done]. simpl. f_equal. rewrite (proj1 (flush_client_spec (world s) dbid c)).
      by rewrite (existsb_perm _ (watched_keys c) (elements (list_to_set (watched_keys c) : gset (Z * key)))) by set_solver.
Qed.
End MultiProofs.

Section Theorems.
  Context {W : Type} `{Server W}.

Lemma spec_touch_dom ks : forall t : sserver W, dom (s_clients (fold_left spec_touch ks t)) = dom (s_clients t).
Proof. induction ks as [|dk ks IH]; intros t; [done|]. cbn [fold_left]. rewrite IH. cbn. apply dom_fmap_L. Qed.

Lemma spec_exec_dom cmds : forall (t : sserver W) id dbid j prop,
  dom (s_clients (spec_exec t id dbid j cmds prop).1) = dom (s_clients t).
Proof.
  induction cmds as [|mc cmds IH]; intros t id dbid j prop; [done|]. cbn [spec_exec].
  cbv zeta. set (first := negb prop && negb (hasf (mc_flags mc) (Z.lor CMD_READONLY CMD_ADMIN))).
  set (t1 := if first then upd t id (fun c : sclient => c) [EvPropagateMulti dbid] else t).
  assert (E1 : dom (s_clients t1) = dom (s_clients t)) by (unfold t1; destruct first; [apply dom_alter_L|done]).
  clearbody t1. destruct (acl_denied _ _ _).
  - rewrite IH. cbn. by rewrite !dom_alter_L.
  - destruct (call _ _ _) as [[w mc'] touched]. rewrite IH. cbn. rewrite dom_alter_L, spec_touch_dom. done.
Qed.

Lemma spec_monitor_clients (t : sserver W) id : s_clients (spec_monitor t id) = s_clients t.
Proof. unfold spec_monitor. by destruct (_ && _). Qed.

Lemma spec_step_dom (t : sserver W) o : dom (s_clients (spec_step t o)) = dom (s_clients t).
Proof.
  destruct o as [id ks|id|id|id mc|id|id|id|d k|dbid]; cbn [spec_step]; cbn; rewrite ?dom_alter_L, ?dom_fmap_L; try done.
  all: destruct (s_clients t !! id) as [c|]; [|done]; destruct (s_multi c); cbn [negb]; cbn; rewrite ?dom_alter_L; try done.
  destruct (s_exec c); [rewrite spec_monitor_clients; apply dom_alter_L|].
  destruct (s_cas c); [rewrite spec_monitor_clients; apply dom_alter_L|].
  destruct (_ && _ && _ && _ && _); [rewrite spec_monitor_clients; apply dom_alter_L|].
  pose proof (spec_exec_dom (s_queue c) (upd t id sc_unwatch [EvReply id (RArrayLen (zlen (s_queue c)))]) id (s_db c) 0 false) as Hd.
  destruct (spec_exec _ _ _ _ _ _) as [t1 prop]. cbn in Hd. rewrite dom_alter_L in Hd.
  rewrite spec_monitor_clients. destruct (prop && _); cbn; rewrite ?dom_alter_L; done.
Qed.

Lemma run_refines ops : forall s : server W,
  inv s -> (forall o id, o ∈ ops -> op_client o = Some id -> is_Some (clients s !! id)) ->
  exists s', run s ops = Some s' /\ inv s' /\ abs s' = fold_left spec_step ops (abs s).
Proof.
  induction ops as [|o ops IH]; intros s Hi Hex; [by exists s|]. cbn [run fold_left].
  destruct (step_refines s o Hi) as (s1 & -> & Hi1 & E1); [intros id Hid; apply (Hex o); set_solver|]. cbn [mbind option_bind].
  destruct (IH s1 Hi1) as (s2 & E & Hi2 & E2).
  - intros o' id Ho Hid. pose proof (spec_step_dom (abs s) o) as Hd. rewrite <- E1 in Hd. cbn in Hd. rewrite !dom_fmap_L in Hd.
    apply elem_of_dom. rewrite Hd. apply elem_of_dom. apply (Hex o'); set_solver.
  - exists s2. split; [done|]. split; [done|]. by rewrite E2, E1.
Qed.

(** C1: MULTI/EXEC/WATCH implement optimistic locking.  For every sequence of
    WATCH, UNWATCH, MULTI, queued commands, DISCARD, EXEC, key modifications
    and flushes by any clients, the per-client lists of watched keys and the
    per-database lists of watching clients stay consistent (so the assertion
    of [unwatchAllKeys] never fails and no freed node is used), and replies,
    propagation and executed commands are those of the specification, where a
    client has a set of watched keys and a modified key marks exactly the
    clients that watch it. *)
Theorem multi_refines (s : server W) ops :
  inv s -> (forall o id, o ∈ ops -> op_client o = Some id -> is_Some (clients s !! id)) ->
  exists s', run s ops = Some s' /\ inv s' /\ abs s' = fold_left spec_step ops (abs s).
Proof. apply run_refines. Qed.

(** *** EXEC is all or nothing *)
Definition exec_world (w : W) (id : Z) (cmds : list multiCmd) : W :=
  fold_left (fun w mc => if acl_denied w id mc then w else (call w id mc).1.1) cmds w.

Lemma fold_touch_world ks : forall t : sserver W, s_world (fold_left spec_touch ks t) = s_world t.
Proof. induction ks as [|dk ks IH]; intros t; [done|]. cbn [fold_left]. by rewrite IH. Qed.

Lemma spec_exec_world cmds : forall (t : sserver W) id dbid j prop,
  s_world (spec_exec t id dbid j cmds prop).1 = exec_world (s_world t) id cmds.
Proof.
  induction cmds as [|mc cmds IH]; intros t id dbid j prop; [done|]. cbn [spec_exec exec_world fold_left].
  cbv zeta. set (first := negb prop && negb (hasf (mc_flags mc) (Z.lor CMD_READONLY CMD_ADMIN))).
  set (t1 := if first then upd t id (fun c : sclient => c) [EvPropagateMulti dbid] else t).
  assert (E1 : s_world t1 = s_world t) by (unfold t1; destruct first; done).
  rewrite <- E1. clearbody t1. destruct (acl_denied (s_world t1) id mc).
  - rewrite IH. done.
  - destruct (call (s_world t1) id mc) as [[w mc'] touched]. rewrite IH. cbn. by rewrite fold_touch_world.
Qed.

(** The operations that end a client's watch. *)
Definition ends_watch (id : Z) (o : op) : bool :=
  match o with OpUnwatch i | OpDiscard i | OpExec i => i =? id | _ => false end.

(** In the specification a watched key stays watched, and a mark stays. *)
Definition watching (t : sserver W) (id : Z) (dk : Z * key) (cas : bool) : Prop :=
  exists c, s_clients t !! id = Some c /\ dk ∈ s_watched c /\ (cas = true -> s_cas c = true).

Lemma watching_alter (t : sserver W) id id' dk cas f es :
  watching t id dk cas ->
  (forall c, id' = id -> dk ∈ s_watched c -> dk ∈ s_watched (f c) /\ (s_cas c = true -> s_cas (f c) = true)) ->
  watching (upd t id' f es) id dk cas.
Proof.
  intros (c & Hc & Hw & Hcas) Hf. unfold watching. cbn. destruct (decide (id' = id)) as [->|Hne].
  - exists (f c). rewrite lookup_alter_eq, Hc. split; [done|]. destruct (Hf c eq_refl Hw). auto.
  - exists c. by rewrite lookup_alter_ne.
Qed.

Lemma watching_touch (t : sserver W) id dk dk' cas : watching t id dk cas -> watching (spec_touch t dk') id dk (cas || bool_decide (dk' = dk)).
Proof.
  intros (c & Hc & Hw & Hcas). unfold watching. cbn. rewrite lookup_fmap, Hc. simpl.
  destruct (bool_decide_reflect (dk' ∈ s_watched c)) as [Hin|Hnin]; eexists; (split; [done|]); (split; [done|]).
  - done.
  - rewrite bool_decide_eq_false_2, orb_false_r by (intros ->; done). done.
Qed.

Lemma watching_touches ks : forall (t : sserver W) id dk cas, watching t id dk cas -> watching (fold_left spec_touch ks t) id dk cas.
Proof.
  induction ks as [|k ks IH]; intros t id dk cas Hw; [done|]. cbn [fold_left]. apply IH.
  destruct (watching_touch t id dk k cas Hw) as (c & Hc & Hin & Hcas). exists c. split; [done|]. split; [done|].
  intros ->. by apply Hcas.
Qed.

Lemma watching_exec cmds : forall (t : sserver W) id id' dk cas dbid j prop,
  id' <> id -> watching t id dk cas -> watching (spec_exec t id' dbid j cmds prop).1 id dk cas.
Proof.
  induction cmds as [|mc cmds IH]; intros t id id' dk cas dbid j prop Hne Hw; [done|]. cbn [spec_exec].
  cbv zeta. set (first := negb prop && negb (hasf (mc_flags mc) (Z.lor CMD_READONLY CMD_ADMIN))).
  set (t1 := if first then upd t id' (fun c : sclient => c) [EvPropagateMulti dbid] else t).
  assert (Hw1 : watching t1 id dk cas) by (unfold t1; destruct first; [by apply watching_alter|done]).
  clearbody t1. destruct (acl_denied _ _ _).
  - apply IH; [done|]. apply watching_alter; [by apply watching_alter|done].
  - destruct (call _ _ _) as [[w mc'] touched]. apply IH; [done|]. apply watching_alter; [|done]. by apply watching_touches.
Qed.

Lemma watching_step (t : sserver W) id dk cas o :
  watching t id dk cas -> ends_watch id o = false ->
  watching (spec_step t o) id dk (cas || match o with OpTouch d k => bool_decide ((d, k) = dk) | _ => false end).
Proof.
  intros Hw He. destruct o as [i ks|i|i|i mc|i|i|i|d k|dbid]; cbn [spec_step ends_watch] in *; rewrite ?orb_false_r;
    try (apply Z.eqb_neq in He); try (by apply watching_touch).
  - destruct (s_clients t !! i) as [c|]; [|done]. destruct (s_multi c); apply watching_alter; try done.
    intros c' _ Hin. cbn. split; [set_solver|done].
  - by apply watching_alter.
  - destruct (s_clients t !! i) as [c|]; [|done]. destruct (s_multi c); by apply watching_alter.
  - by apply watching_alter.
  - by apply watching_alter.
  - destruct (s_clients t !! i) as [c|]; [|done]. destruct (s_multi c); by apply watching_alter.
  - assert (Hmon : forall t', watching t' id dk cas -> watching (spec_monitor t' i) id dk cas).
    { intros t' (c & Hc & ?). exists c. by rewrite spec_monitor_clients. }
    destruct (s_clients t !! i) as [c|]; [|done]. destruct (s_multi c); cbn [negb]; [|by apply watching_alter].
    destruct (s_exec c); [by apply Hmon, watching_alter|]. destruct (s_cas c); [by apply Hmon, watching_alter|].
    destruct (_ && _ && _ && _ && _); [by apply Hmon, watching_alter|].
    pose proof (watching_exec (s_queue c) (upd t i sc_unwatch [EvReply i (RArrayLen (zlen (s_queue c)))]) id i dk cas (s_db c) 0 false He) as Hx.
    destruct (spec_exec _ _ _ _ _ _) as [t1 prop]. cbn [fst] in Hx. apply Hmon.
    destruct (prop && _); apply watching_alter; try done; try (apply watching_alter; try done); apply Hx; by apply watching_alter.
  - destruct Hw as (c & Hc & Hin & Hcas). unfold watching. cbn. rewrite lookup_fmap, Hc. simpl.
    destruct (existsb _ _); eexists; (split; [done|]); (split; [done|]); done.
Qed.

Lemma watching_run ops : forall (t : sserver W) id dk cas,
  watching t id dk cas -> (forall o, o ∈ ops -> ends_watch id o = false) ->
  watching (fold_left spec_step ops t) id dk (cas || existsb (fun o => match o with OpTouch d k => bool_decide ((d, k) = dk) | _ => false end) ops).
Proof.
  induction ops as [|o ops IH]; intros t id dk cas Hw He; [by rewrite orb_false_r|]. cbn [fold_left existsb].
  rewrite orb_assoc. apply IH; [|set_solver]. apply watching_step; [done|]. apply He. set_solver.
Qed.

(** C8: the check-and-set guarantee of WATCH.  If a client watches a key and
    the key is modified at any later moment (by whatever sequence of commands
    of other clients, or its own commands before EXEC) then its next EXEC runs
    nothing: the data set is untouched, the reply is the null array (or
    EXECABORT) and the transaction is over.  If the client is not marked, and
    the instance is writable, EXEC runs every queued command, in order. *)
Theorem exec_check_and_set (s : server W) id c d k ops :
  inv s -> clients s !! id = Some c -> (d, k) ∈ watched_keys c ->
  (forall o i, o ∈ ops -> op_client o = Some i -> is_Some (clients s !! i)) -> (forall o, o ∈ ops -> ends_watch id o = false) ->
  exists s1 c1 s2, run s ops = Some s1 /\ clients s1 !! id = Some c1 /\ execCommand s1 id = Some s2 /\
    (hasf (flags c1) CLIENT_MULTI = true ->
     (OpTouch d k ∈ ops -> world s2 = world s1 /\ exists r es, out s2 = out s1 ++ EvReply id r :: es /\ (r = RNullArray \/ r = RExecAbort)) /\
     (hasf (flags c1) (Z.lor CLIENT_DIRTY_CAS CLIENT_DIRTY_EXEC) = false -> masterhost (world s1) = false ->
        world s2 = exec_world (world s1) id (commands c1))).
Proof.
  intros Hi Hc Hk Hex Hend. destruct (run_refines ops s Hi Hex) as (s1 & E1 & Hi1 & Eabs).
  assert (Hw0 : watching (abs s) id (d, k) false).
  { exists (absc c). rewrite abs_client, Hc. split; [done|]. split; [|done]. cbn. by rewrite elem_of_list_to_set. }
  pose proof (watching_run ops (abs s) id (d, k) false Hw0 Hend) as Hw. rewrite <- Eabs in Hw.
  destruct Hw as (sc & Hsc & _ & Hcas). rewrite abs_client in Hsc. destruct (clients s1 !! id) as [c1|] eqn:Hc1; [|done].
  injection Hsc as <-. destruct (exec_spec s1 id c1 Hi1 Hc1) as (s2 & E2 & _ & Eabs2).
  exists s1, c1, s2. split; [done|]. split; [done|]. split; [done|]. intros Hm.
  assert (Ew : world s2 = s_world (spec_step (abs s1) (OpExec id))) by (by rewrite <- Eabs2).
  assert (Eo : out s2 = s_out (spec_step (abs s1) (OpExec id))) by (by rewrite <- Eabs2).
  cbn [spec_step] in Ew, Eo. rewrite abs_client, Hc1 in Ew, Eo. change (absc <$> Some c1) with (Some (absc c1)) in Ew, Eo.
  cbn [absc s_multi s_exec s_cas s_queue s_db] in Ew, Eo. rewrite Hm in Ew, Eo. cbn [negb] in Ew, Eo.
  assert (Hmon : forall (t : sserver W), s_world (spec_monitor t id) = s_world t /\ exists es, s_out (spec_monitor t id) = s_out t ++ es).
  { intros t. unfold spec_monitor. destruct (has_monitors (s_world t) && negb (loading (s_world t))); (split; [done|]);
      [by eexists|exists []; by rewrite app_nil_r]. }
  split.
  - intros Htouch. assert (Hd : hasf (flags c1) CLIENT_DIRTY_CAS = true).
    { apply Hcas. cbn [orb]. apply existsb_exists. exists (OpTouch d k). split; [by apply list_elem_of_In|].
      by apply bool_decide_eq_true_2. }
    rewrite Hd in Ew, Eo. destruct (hasf (flags c1) CLIENT_DIRTY_EXEC); rewrite ?(proj1 (Hmon _)) in Ew;
      (split; [exact Ew|]); rewrite Eo; match goal with |- context [spec_monitor ?t id] => destruct (proj2 (Hmon t)) as [es ->] end;
      cbn; rewrite <- app_assoc; eexists _, es; (split; [reflexivity|]); auto.
  - intros Hclean Hmaster. rewrite hasf_lor_arg in Hclean. apply orb_false_iff in Hclean as [H1 H2]. rewrite H1, H2 in Ew.
    change (s_world (abs s1)) with (world s1) in Ew. rewrite Hmaster, andb_false_r in Ew. cbn [andb negb] in Ew.
    pose proof (spec_exec_world (commands c1) (upd (abs s1) id sc_unwatch [EvReply id (RArrayLen (zlen (commands c1)))]) id (db c1) 0 false) as Hx.
    destruct (spec_exec _ _ _ _ _ _) as [t1 prop]. cbn [fst] in Hx. rewrite (proj1 (Hmon _)) in Ew.
    destruct (prop && _) in Ew; exact (eq_trans Ew Hx).
Qed.
End Theorems.

(** *** An instance *)

(** A server whose commands append their first argument to a log and modify
    the key named by it, in database 0. *)
#[export] Instance log_server : Server (list key) := {
  call := fun w id mc => let k := default [] (head (mc_argv mc)) in (w ++ [k], mc, [(0, k)]);
  acl_denied := fun _ _ _ => false;
  key_exists := fun w _ k => bool_decide (k ∈ w);
  loading := fun _ => false;
  masterhost := fun _ => false;
  repl_slave_ro := fun _ => false;
  repl_backlog := fun _ => false;
  has_monitors := fun _ => false
}.

Definition idle_client : client := mk_client 0 0 [] [] 0.
Definition two_clients : server (list key) := mk_server (list_to_map [(1, idle_client); (2, idle_client)]) ∅ [] [].

Lemma two_clients_inv : inv two_clients.
Proof.
  constructor.
  - intros id c Hc. apply elem_of_list_to_map_2 in Hc.
    apply elem_of_cons in Hc as [[= -> ->]|Hc]; [split; [constructor|]; intros ? ? []%not_elem_of_nil|].
    apply elem_of_cons in Hc as [[= -> ->]|Hc]; [split; [constructor|]; intros ? ? []%not_elem_of_nil|].
    by apply not_elem_of_nil in Hc.
  - intros d k l Hl. unfold watchers in Hl. cbn in Hl. rewrite lookup_empty in Hl. cbn in Hl. by rewrite lookup_empty in Hl.
Qed.

Definition ops_watch : list op := [OpWatch 1 [[97]]; OpMulti 1; OpQueue 1 (mk_cmd [[98]] 1)].

Lemma multi_refines_witness :
  exists s, run two_clients (ops_watch ++ [OpMulti 2; OpQueue 2 (mk_cmd [[97]] 1); OpExec 2; OpExec 1]) = Some s /\
    world s = [[97]] /\ out s = [EvReply 1 ROk; EvReply 1 ROk; EvReply 2 ROk; EvReply 2 (RArrayLen 1); EvPropagateMulti 0; EvDirty;
      EvReply 1 RNullArray].
Proof.
  destruct (multi_refines two_clients (ops_watch ++ [OpMulti 2; OpQueue 2 (mk_cmd [[97]] 1); OpExec 2; OpExec 1])
    two_clients_inv) as (s & E & _ & Eabs).
  - intros o id Ho Hid. repeat (apply elem_of_cons in Ho as [->|Ho]; [injection Hid as <-; eexists; vm_compute; reflexivity|]).
    by apply not_elem_of_nil in Ho.
  - exists s. split; [exact E|]. split.
    + apply (f_equal s_world) in Eabs. vm_compute in Eabs. exact Eabs.
    + apply (f_equal s_out) in Eabs. vm_compute in Eabs. exact Eabs.
Defined.

Lemma exec_check_and_set_witness :
  exists s s1 s2, run two_clients ops_watch = Some s /\ run s [OpTouch 0 [97]] = Some s1 /\ execCommand s1 1 = Some s2 /\
    world s2 = world s1.
Proof.
  destruct (run_refines ops_watch two_clients two_clients_inv) as (s & E & Hi & _).
  - intros o id Ho Hid. repeat (apply elem_of_cons in Ho as [->|Ho]; [injection Hid as <-; eexists; vm_compute; reflexivity|]).
    by apply not_elem_of_nil in Ho.
  - assert (Hc : exists c, clients s !! 1 = Some c /\ (0, [97]) ∈ watched_keys c /\ hasf (flags c) CLIENT_MULTI = true).
    { vm_compute in E. injection E as <-. eexists. split; [vm_compute; reflexivity|]. split; [constructor|reflexivity]. }
    destruct Hc as (c & Hc & Hk & Hm).
    destruct (exec_check_and_set s 1 c 0 [97] [OpTouch 0 [97]] Hi Hc Hk) as (s1 & c1 & s2 & E1 & Hc1 & E2 & Hres).
    + intros o i Ho Hid. apply list_elem_of_singleton in Ho as ->. discriminate Hid.
    + intros o Ho. apply list_elem_of_singleton in Ho as ->. reflexivity.
    + exists s, s1, s2. split; [exact E|]. split; [exact E1|]. split; [exact E2|]. apply Hres; [|constructor].
      vm_compute in E. injection E as <-. vm_compute in E1. injection E1 as <-. vm_compute in Hc1. injection Hc1 as <-. reflexivity.
Defined.
