(* ===== verification/Pubsub.v ===== *)
(** * pubsub.c: channels and patterns

    A subscription is recorded several times: in the client, in the server's
    dict from channels (patterns) to lists of clients, and for patterns also in
    the list [server.pubsub_patterns].  The theorems: the copies always agree,
    so the assertions hold, and a message is delivered exactly once for each
    subscription that it matches.  Pattern matching is [stringmatchlen] of
    Glob.v. *)
From S2P Require Import Prelude Glob.

Abbreviation bs := (list Z).

(** ** A dict from keys to lists of clients *)
Section Index.
  Context {K : Type} `{Countable K}.

(** [dictFind], [dictAdd] of an empty list when missing, [listAddNodeTail]. *)
Definition idx_add (m : gmap K (list Z)) (k : K) (id : Z) : gmap K (list Z) :=
  match m !! k with
  | None => <[k := [id]]> m
  | Some l => <[k := l ++ [id]]> m
  end.

(** [listSearchKey] and [listDelNode]. *)
Fixpoint del_node (l : list Z) (id : Z) : option (list Z) :=
  match l with
  | [] => None
  | x :: l => if x =? id then Some l else l' ← del_node l id; Some (x :: l')
  end.

(** The entry is dropped with its last client; the two assertions are the
    [None] results. *)
Definition idx_del (m : gmap K (list Z)) (k : K) (id : Z) : option (gmap K (list Z)) :=
  l ← m !! k;
  l ← del_node l id;
  Some (match l with [] => delete k m | _ => <[k := l]> m end).

(** The dict is the index of the relation [R]. *)
Definition index_ok (m : gmap K (list Z)) (R : Z -> K -> Prop) : Prop :=
  (forall k l, m !! k = Some l -> l <> [] /\ NoDup l) /\
  (forall k id, R id k <-> exists l, m !! k = Some l /\ id ∈ l).

Lemma index_ext m R R' : (forall id k, R id k <-> R' id k) -> index_ok m R -> index_ok m R'.
Proof. intros E [H1 H2]. split; [done|]. intros k id. by rewrite <- E. Qed.

Lemma index_add m R k id :
  index_ok m R -> ~ R id k -> index_ok (idx_add m k id) (fun i k' => R i k' \/ (i = id /\ k' = k)).
Proof.
  intros [H1 H2] Hn.
  assert (E : idx_add m k id = <[k := default [] (m !! k) ++ [id]]> m) by (unfold idx_add; destruct (m !! k); done).
  rewrite E. split.
  - intros k' l. destruct (decide (k' = k)) as [->|].
    + rewrite lookup_insert_eq. intros [= <-]. split; [by destruct (default [] (m !! k))|]. apply NoDup_app.
      split; [destruct (m !! k) as [l0|] eqn:El; [by apply (H1 k l0)|constructor]|]. split; [|apply NoDup_singleton].
      intros x Hx Hx2. apply list_elem_of_singleton in Hx2 as ->. apply Hn, H2.
      destruct (m !! k) as [l0|]; [eauto|by apply not_elem_of_nil in Hx].
    + rewrite lookup_insert_ne by done. apply H1.
  - intros k' i. destruct (decide (k' = k)) as [->|Hne].
    + rewrite lookup_insert_eq, H2. split.
      * intros [(l & El & Hl)|[-> _]]; (eexists; split; [done|]); [rewrite El; simpl|]; set_solver.
      * intros (l & [= <-] & Hl). apply elem_of_app in Hl as [Hl|Hl]; [|apply list_elem_of_singleton in Hl as ->; auto].
        left. destruct (m !! k) as [l0|]; [eauto|by apply not_elem_of_nil in Hl].
    + rewrite lookup_insert_ne, H2 by done. split; [intros [?|[_ ?]]; done|auto].
Qed.

Lemma del_node_spec l id : id ∈ l -> NoDup l ->
  exists l', del_node l id = Some l' /\ NoDup l' /\ forall x, x ∈ l' <-> x ∈ l /\ x <> id.
Proof.
  induction l as [|x l IH]; intros Hin Hnd; [by apply not_elem_of_nil in Hin|]. simpl.
  apply NoDup_cons in Hnd as [Hx Hnd]. destruct (Z.eqb_spec x id) as [->|Hne].
  - exists l. split; [done|]. split; [done|]. intros y. rewrite elem_of_cons. split; [|tauto].
    intros Hy. split; [auto|]. intros ->. done.
  - apply elem_of_cons in Hin as [->|Hin]; [done|]. destruct (IH Hin Hnd) as (l' & -> & Hnd' & Hiff). cbn [mbind option_bind].
    exists (x :: l'). split; [done|]. split.
    + apply NoDup_cons. split; [|done]. rewrite Hiff. tauto.
    + intros y. rewrite !elem_of_cons, Hiff. split; [intros [->|[? ?]]; auto|tauto].
Qed.

Lemma index_del m R k id :
  index_ok m R -> R id k ->
  exists m', idx_del m k id = Some m' /\ index_ok m' (fun i k' => R i k' /\ ~ (i = id /\ k' = k)).
Proof.
  intros [H1 H2] HR. destruct (proj1 (H2 k id) HR) as (l & El & Hl). unfold idx_del. rewrite El. cbn [mbind option_bind].
  destruct (del_node_spec l id Hl (proj2 (H1 k l El))) as (l' & -> & Hnd & Hiff). cbn [mbind option_bind].
  eexists. split; [done|].
  assert (Hm : forall k', (match l' with [] => delete k m | _ => <[k := l']> m end) !! k' =
    if decide (k' = k) then match l' with [] => None | _ => Some l' end else m !! k').
  { intros k'. destruct (decide (k' = k)) as [->|]; destruct l';
      by rewrite ?lookup_delete_eq, ?lookup_insert_eq, ?lookup_delete_ne, ?lookup_insert_ne by done. }
  split.
  - intros k' x. rewrite Hm. destruct (decide (k' = k)); [|apply H1]. destruct l'; [done|]. by intros [= <-].
  - intros k' i. rewrite Hm, H2. destruct (decide (k' = k)) as [->|Hne].
    + rewrite El. split.
      * intros [(x & [= <-] & Hx) Hn]. assert (Hi : i ∈ l') by (apply Hiff; split; [done|]; intros ->; auto).
        destruct l'; [by apply not_elem_of_nil in Hi|]. eauto.
      * intros (x & Ex & Hx). assert (x = l') as -> by (destruct l'; congruence). apply Hiff in Hx as [Hx Hne].
        split; [eauto|]. intros [-> _]. done.
    + split; [intros [? _]; done|]. intros ?. split; [done|]. intros [_ ->]. done.
Qed.
End Index.

(** ** The state *)
Record client := mk_client {
  resp : Z;
  channels : gset bs;
  patterns : list bs;
  pubsub_flag : bool       (* CLIENT_PUBSUB *)
}.
Definition set_channels c x := mk_client (resp c) x (patterns c) (pubsub_flag c).
Definition set_patterns c x := mk_client (resp c) (channels c) x (pubsub_flag c).
Definition set_flag c x := mk_client (resp c) (channels c) (patterns c) x.

(** The pieces of a reply. *)
Inductive kind := KMessage | KPmessage | KSubscribe | KUnsubscribe | KPsubscribe | KPunsubscribe.
Inductive token := TMbulkhdr (n : Z) | TPush (n : Z) | TKind (k : kind) | TBulk (b : bs) | TNull | TInt (n : Z).

Record server := mk_server {
  clients : gmap Z client;
  pubsub_channels : gmap bs (list Z);
  pubsub_patterns : list (Z * bs);
  pubsub_patterns_dict : gmap bs (list Z);
  out : list (Z * list token)
}.
Definition set_client s id c :=
  mk_server (<[id := c]> (clients s)) (pubsub_channels s) (pubsub_patterns s) (pubsub_patterns_dict s) (out s).
Definition set_chdict s m := mk_server (clients s) m (pubsub_patterns s) (pubsub_patterns_dict s) (out s).
Definition set_pats s l m := mk_server (clients s) (pubsub_channels s) l m (out s).
Definition send s id ts :=
  mk_server (clients s) (pubsub_channels s) (pubsub_patterns s) (pubsub_patterns_dict s) (out s ++ [(id, ts)]).

Definition hdr (c : client) (n : Z) : token := if resp c =? 2 then TMbulkhdr n else TPush n.

Definition addReplyPubsubMessage (c : client) (channel : bs) (msg : option bs) : list token :=
  [hdr c 3; TKind KMessage; TBulk channel] ++ match msg with Some m => [TBulk m] | None => [] end.
Definition addReplyPubsubPatMessage (c : client) (pat channel msg : bs) : list token :=
  [hdr c 4; TKind KPmessage; TBulk pat; TBulk channel; TBulk msg].

Definition clientSubscriptionsCount (c : client) : Z := Z.of_nat (size (channels c)) + zlen (patterns c).

Definition bulk_or_null (b : option bs) : token := match b with Some b => TBulk b | None => TNull end.
Definition addReplyPubsubSubscribed (c : client) (channel : bs) : list token :=
  [hdr c 3; TKind KSubscribe; TBulk channel; TInt (clientSubscriptionsCount c)].
Definition addReplyPubsubUnsubscribed (c : client) (channel : option bs) : list token :=
  [hdr c 3; TKind KUnsubscribe; bulk_or_null channel; TInt (clientSubscriptionsCount c)].
Definition addReplyPubsubPatSubscribed (c : client) (pattern : bs) : list token :=
  [hdr c 3; TKind KPsubscribe; TBulk pattern; TInt (clientSubscriptionsCount c)].
Definition addReplyPubsubPatUnsubscribed (c : client) (pattern : option bs) : list token :=
  [hdr c 3; TKind KPunsubscribe; bulk_or_null pattern; TInt (clientSubscriptionsCount c)].

(** ** Subscriptions *)
Definition pubsubSubscribeChannel (s : server) (id : Z) (channel : bs) : option (server * Z) :=
  c ← clients s !! id;
  let '(s, c, retval) :=
    if bool_decide (channel ∈ channels c) then (s, c, 0)
    else
      let c := set_channels c ({[ channel ]} ∪ channels c) in
      let s := set_client s id c in
      (set_chdict s (idx_add (pubsub_channels s) channel id), c, 1) in
  Some (send s id (addReplyPubsubSubscribed c channel), retval).

Definition pubsubUnsubscribeChannel (s : server) (id : Z) (channel : bs) (notify : bool) : option (server * Z) :=
  c ← clients s !! id;
  '(s, c, retval) ←
    (if bool_decide (channel ∈ channels c) then
       let c := set_channels c (channels c ∖ {[ channel ]}) in
       let s := set_client s id c in
       m ← idx_del (pubsub_channels s) channel id;
       Some (set_chdict s m, c, 1)
     else Some (s, c, 0));
  Some (if notify then send s id (addReplyPubsubUnsubscribed c (Some channel)) else s, retval).

Definition pubsubSubscribePattern (s : server) (id : Z) (pattern : bs) : option (server * Z) :=
  c ← clients s !! id;
  let '(s, c, retval) :=
    if bool_decide (pattern ∈ patterns c) then (s, c, 0)
    else
      let c := set_patterns c (patterns c ++ [pattern]) in
      let s := set_client s id c in
      (set_pats s (pubsub_patterns s ++ [(id, pattern)]) (idx_add (pubsub_patterns_dict s) pattern id), c, 1) in
  Some (send s id (addReplyPubsubPatSubscribed c pattern), retval).

(** [listDelNode(l,listSearchKey(l,x))]: the first equal node; none would be
    a NULL dereference. *)
Fixpoint del_first {A} `{EqDecision A} (l : list A) (x : A) : option (list A) :=
  match l with
  | [] => None
  | y :: l => if bool_decide (y = x) then Some l else l' ← del_first l x; Some (y :: l')
  end.

Definition pubsubUnsubscribePattern (s : server) (id : Z) (pattern : bs) (notify : bool) : option (server * Z) :=
  c ← clients s !! id;
  '(s, c, retval) ←
    (match del_first (patterns c) pattern with
     | Some ps =>
         let c := set_patterns c ps in
         let s := set_client s id c in
         l ← del_first (pubsub_patterns s) (id, pattern);
         m ← idx_del (pubsub_patterns_dict s) pattern id;
         Some (set_pats s l m, c, 1)
     | None => Some (s, c, 0)
     end);
  Some (if notify then send s id (addReplyPubsubPatUnsubscribed c (Some pattern)) else s, retval).

(** One call per element; the results are added up. *)
Fixpoint count_loop (f : server -> bs -> option (server * Z)) (s : server) (l : list bs) : option (server * Z) :=
  match l with
  | [] => Some (s, 0)
  | x :: l => '(s, n) ← f s x; '(s, m) ← count_loop f s l; Some (s, n + m)
  end.

(** The iterators see the channels (patterns) there are at the beginning. *)
Definition pubsubUnsubscribeAllChannels (s : server) (id : Z) (notify : bool) : option (server * Z) :=
  c ← clients s !! id;
  '(s, count) ← count_loop (fun s ch => pubsubUnsubscribeChannel s id ch notify) s (elements (channels c));
  c ← clients s !! id;
  Some (if notify && (count =? 0) then send s id (addReplyPubsubUnsubscribed c None) else s, count).

Definition pubsubUnsubscribeAllPatterns (s : server) (id : Z) (notify : bool) : option (server * Z) :=
  c ← clients s !! id;
  '(s, count) ← count_loop (fun s p => pubsubUnsubscribePattern s id p notify) s (patterns c);
  c ← clients s !! id;
  Some (if notify && (count =? 0) then send s id (addReplyPubsubPatUnsubscribed c None) else s, count).

(** ** Publishing *)
Fixpoint deliver (s : server) (msg : client -> list token) (l : list Z) : option (server * Z) :=
  match l with
  | [] => Some (s, 0)
  | id :: l =>
      c ← clients s !! id;
      '(s, n) ← deliver (send s id (msg c)) msg l;
      Some (s, 1 + n)
  end.

Fixpoint deliver_patterns (s : server) (channel message : bs) (l : list (bs * list Z)) : option (server * Z) :=
  match l with
  | [] => Some (s, 0)
  | (pattern, cl) :: l =>
      matched ← stringmatchlen pattern channel false;
      if negb matched then deliver_patterns s channel message l
      else
        '(s, n) ← deliver s (fun c => addReplyPubsubPatMessage c pattern channel message) cl;
        '(s, m) ← deliver_patterns s channel message l;
        Some (s, n + m)
  end.

Definition pubsubPublishMessage (s : server) (channel message : bs) : option (server * Z) :=
  '(s, n) ← match pubsub_channels s !! channel with
             | Some l => deliver s (fun c => addReplyPubsubMessage c channel (Some message)) l
             | None => Some (s, 0)
             end;
  '(s, m) ← deliver_patterns s channel message (map_to_list (pubsub_patterns_dict s));
  Some (s, n + m).

(** The part of [freeClient] that concerns subscriptions. *)
Definition free_subscriptions (s : server) (id : Z) : option server :=
  '(s, _) ← pubsubUnsubscribeAllChannels s id false;
  '(s, _) ← pubsubUnsubscribeAllPatterns s id false;
  Some (mk_server (delete id (clients s)) (pubsub_channels s) (pubsub_patterns s) (pubsub_patterns_dict s) (out s)).

(** ** Commands *)
Definition subscribeCommand (s : server) (id : Z) (args : list bs) : option server :=
  '(s, _) ← count_loop (fun s ch => pubsubSubscribeChannel s id ch) s args;
  c ← clients s !! id; Some (set_client s id (set_flag c true)).
Definition psubscribeCommand (s : server) (id : Z) (args : list bs) : option server :=
  '(s, _) ← count_loop (fun s p => pubsubSubscribePattern s id p) s args;
  c ← clients s !! id; Some (set_client s id (set_flag c true)).

Definition clear_flag (s : server) (id : Z) : option server :=
  c ← clients s !! id;
  Some (if clientSubscriptionsCount c =? 0 then set_client s id (set_flag c false) else s).
Definition unsubscribeCommand (s : server) (id : Z) (args : list bs) : option server :=
  '(s, _) ← match args with
             | [] => pubsubUnsubscribeAllChannels s id true
             | _ => count_loop (fun s ch => pubsubUnsubscribeChannel s id ch true) s args
             end;
  clear_flag s id.
Definition punsubscribeCommand (s : server) (id : Z) (args : list bs) : option server :=
  '(s, _) ← match args with
             | [] => pubsubUnsubscribeAllPatterns s id true
             | _ => count_loop (fun s p => pubsubUnsubscribePattern s id p true) s args
             end;
  clear_flag s id.

(** [publishCommand]; the propagation to replicas or the cluster bus is not
    part of the state. *)
Definition publishCommand (s : server) (id : Z) (channel message : bs) : option server :=
  '(s, receivers) ← pubsubPublishMessage s channel message;
  Some (send s id [TInt receivers]).

(** ** The invariant *)
Definition sub (s : server) (id : Z) (ch : bs) : Prop := exists c, clients s !! id = Some c /\ ch ∈ channels c.
Definition psub (s : server) (id : Z) (p : bs) : Prop := exists c, clients s !! id = Some c /\ p ∈ patterns c.

Record inv (s : server) : Prop := {
  inv_channels : index_ok (pubsub_channels s) (sub s);
  inv_patterns : index_ok (pubsub_patterns_dict s) (psub s);
  inv_list : NoDup (pubsub_patterns s) /\ forall id p, (id, p) ∈ pubsub_patterns s <-> psub s id p;
  inv_nodup : forall id c, clients s !! id = Some c -> NoDup (patterns c)
}.

(** A change of one client's channels only. *)
Lemma sub_set s id c cs i ch :
  clients s !! id = Some c -> sub (set_client s id (set_channels c cs)) i ch <-> (if decide (i = id) then ch ∈ cs else sub s i ch).
Proof.
  intros Hc. unfold sub. cbn. destruct (decide (i = id)) as [->|Hne].
  - rewrite lookup_insert_eq. split; [intros (x & [= <-] & ?); done|eauto].
  - by rewrite lookup_insert_ne.
Qed.

Lemma psub_set s id c ps i p :
  clients s !! id = Some c -> psub (set_client s id (set_patterns c ps)) i p <-> (if decide (i = id) then p ∈ ps else psub s i p).
Proof.
  intros Hc. unfold psub. cbn. destruct (decide (i = id)) as [->|Hne].
  - rewrite lookup_insert_eq. split; [intros (x & [= <-] & ?); done|eauto].
  - by rewrite lookup_insert_ne.
Qed.

Lemma sub_at s id c ch : clients s !! id = Some c -> sub s id ch <-> ch ∈ channels c.
Proof. intros Hc. unfold sub. split; [intros (x & Hx & ?); congruence|eauto]. Qed.
Lemma psub_at s id c p : clients s !! id = Some c -> psub s id p <-> p ∈ patterns c.
Proof. intros Hc. unfold psub. split; [intros (x & Hx & ?); congruence|eauto]. Qed.

(** The invariant depends on the clients' sets and the indexes only. *)
Lemma pubsub_inv_ext s s' :
  (forall id, (fun c => (channels c, patterns c)) <$> clients s' !! id = (fun c => (channels c, patterns c)) <$> clients s !! id) ->
  pubsub_channels s' = pubsub_channels s -> pubsub_patterns s' = pubsub_patterns s -> pubsub_patterns_dict s' = pubsub_patterns_dict s ->
  inv s -> inv s'.
Proof.
  intros Ec E1 E2 E3 [H1 H2 [H3 H3'] H4].
  assert (Hs : forall id ch, sub s id ch <-> sub s' id ch).
  { intros id ch. specialize (Ec id). unfold sub. destruct (clients s !! id), (clients s' !! id); try done.
    injection Ec as E _. split; intros (x & [= <-] & ?); eexists; (split; [done|]); congruence. }
  assert (Hp : forall id p, psub s id p <-> psub s' id p).
  { intros id p. specialize (Ec id). unfold psub. destruct (clients s !! id), (clients s' !! id); try done.
    injection Ec as _ E. split; intros (x & [= <-] & ?); eexists; (split; [done|]); congruence. }
  constructor.
  - rewrite E1. by apply (index_ext _ (sub s)).
  - rewrite E3. by apply (index_ext _ (psub s)).
  - rewrite E2. split; [done|]. intros id p. by rewrite <- Hp.
  - intros id c Hc. specialize (Ec id). rewrite Hc in Ec. destruct (clients s !! id) as [c0|] eqn:E0; [|done].
    injection Ec as _ E. rewrite E. by apply (H4 id).
Qed.

Lemma inv_send s id ts : inv s -> inv (send s id ts).
Proof. by apply pubsub_inv_ext. Qed.

Lemma set_client_self s id c : clients s !! id = Some c -> clients (set_client s id c) = clients s.
Proof. intros Hc. cbn. by rewrite insert_id. Qed.

Lemma subscribe_spec s id c ch :
  inv s -> clients s !! id = Some c ->
  exists s' n, pubsubSubscribeChannel s id ch = Some (s', n) /\ inv s' /\
    clients s' = <[id := set_channels c ({[ ch ]} ∪ channels c)]> (clients s).
Proof.
  intros Hi Hc. unfold pubsubSubscribeChannel. rewrite Hc. cbn [mbind option_bind].
  destruct (bool_decide_reflect (ch ∈ channels c)) as [Hin|Hnin].
  - eexists _, _. split; [done|]. split; [by apply inv_send|]. cbn. rewrite insert_id; [done|]. rewrite Hc. f_equal.
    destruct c. unfold set_channels. cbn in *. f_equal. set_solver.
  - eexists _, _. split; [done|]. split; [|done]. apply inv_send. destruct Hi as [H1 H2 [H3 H3'] H4].
    set (c1 := set_channels c ({[ch]} ∪ channels c)).
    assert (Hp : forall i p, psub s i p <-> psub (set_client s id c1) i p).
    { intros i p. unfold psub. cbn. destruct (decide (i = id)) as [->|]; [|by rewrite lookup_insert_ne].
      rewrite lookup_insert_eq, Hc. unfold c1. split; intros (x & [= <-] & ?); eauto. }
    constructor.
    + change (index_ok (idx_add (pubsub_channels s) ch id) (sub (set_client s id c1))).
      eapply index_ext; [|apply (index_add _ _ ch id H1); by rewrite (sub_at s id c)].
      intros i k. unfold c1. rewrite sub_set by done. destruct (decide (i = id)) as [->|]; [rewrite (sub_at s id c) by done; set_solver|naive_solver].
    + by apply (index_ext _ (psub s)).
    + split; [done|]. intros i p. rewrite H3'. apply Hp.
    + intros i x Hx. cbn in Hx. destruct (decide (i = id)) as [->|]; [|rewrite lookup_insert_ne in Hx by done; by apply (H4 i)].
      rewrite lookup_insert_eq in Hx. injection Hx as <-. by apply (H4 id c).
Qed.

Lemma unsubscribe_spec s id c ch notify :
  inv s -> clients s !! id = Some c ->
  exists s', pubsubUnsubscribeChannel s id ch notify = Some (s', if bool_decide (ch ∈ channels c) then 1 else 0) /\ inv s' /\
    clients s' = <[id := set_channels c (channels c ∖ {[ ch ]})]> (clients s).
Proof.
  intros Hi Hc. unfold pubsubUnsubscribeChannel. rewrite Hc. cbn [mbind option_bind].
  assert (Hn : forall s' ts, inv s' -> inv (if notify then send s' id ts else s')) by (intros; destruct notify; [by apply inv_send|done]).
  destruct (bool_decide_reflect (ch ∈ channels c)) as [Hin|Hnin].
  - destruct Hi as [H1 H2 [H3 H3'] H4]. set (c1 := set_channels c (channels c ∖ {[ch]})).
    destruct (index_del (pubsub_channels s) (sub s) ch id H1) as (m & Em & Hm); [by rewrite (sub_at s id c)|].
    change (pubsub_channels (set_client s id c1)) with (pubsub_channels s). rewrite Em. cbn [mbind option_bind].
    assert (Hp : forall i p, psub s i p <-> psub (set_client s id c1) i p).
    { intros i p. unfold psub. cbn. destruct (decide (i = id)) as [->|]; [|by rewrite lookup_insert_ne].
      rewrite lookup_insert_eq, Hc. unfold c1. split; intros (x & [= <-] & ?); eauto. }
    eexists. split; [done|]. split; [|by destruct notify]. apply Hn. constructor.
    + change (index_ok m (sub (set_client s id c1))). eapply index_ext; [|exact Hm].
      intros i k. unfold c1. rewrite sub_set by done. destruct (decide (i = id)) as [->|]; [rewrite (sub_at s id c) by done; set_solver|naive_solver].
    + by apply (index_ext _ (psub s)).
    + split; [done|]. intros i p. rewrite H3'. apply Hp.
    + intros i x Hx. cbn in Hx. destruct (decide (i = id)) as [->|]; [|rewrite lookup_insert_ne in Hx by done; by apply (H4 i)].
      rewrite lookup_insert_eq in Hx. injection Hx as <-. by apply (H4 id c).
  - cbn [mbind option_bind]. eexists. split; [done|]. split; [by apply Hn|].
    transitivity (clients s); [by destruct notify|]. rewrite insert_id; [done|]. rewrite Hc. f_equal.
    destruct c. unfold set_channels. cbn in *. f_equal. set_solver.
Qed.

Lemma del_first_spec {A} `{EqDecision A} (l : list A) x : x ∈ l -> NoDup l ->
  exists l', del_first l x = Some l' /\ NoDup l' /\ forall y, y ∈ l' <-> y ∈ l /\ y <> x.
Proof.
  induction l as [|z l IH]; intros Hin Hnd; [by apply not_elem_of_nil in Hin|]. simpl.
  apply NoDup_cons in Hnd as [Hx Hnd]. destruct (bool_decide_reflect (z = x)) as [->|Hne].
  - exists l. split; [done|]. split; [done|]. intros y. rewrite elem_of_cons. split; [|tauto].
    intros Hy. split; [auto|]. intros ->. done.
  - apply elem_of_cons in Hin as [->|Hin]; [done|]. destruct (IH Hin Hnd) as (l' & -> & Hnd' & Hiff). cbn [mbind option_bind].
    exists (z :: l'). split; [done|]. split.
    + apply NoDup_cons. split; [|done]. rewrite Hiff. tauto.
    + intros y. rewrite !elem_of_cons, Hiff. split; [intros [->|[? ?]]; auto|tauto].
Qed.

Lemma del_first_none {A} `{EqDecision A} (l : list A) x : x ∉ l -> del_first l x = None.
Proof.
  induction l as [|z l IH]; intros Hn; [done|]. simpl. apply not_elem_of_cons in Hn as [Hne Hn].
  rewrite bool_decide_false by congruence. by rewrite IH.
Qed.

(** What a client stands for: its channels, its patterns, its flag. *)
Definition aclient : Type := gset bs * gset bs * bool.
Definition abs_client (c : client) : aclient := (channels c, list_to_set (patterns c), pubsub_flag c).

Lemma sub_patterns s id c ps i ch :
  clients s !! id = Some c -> sub s i ch <-> sub (set_client s id (set_patterns c ps)) i ch.
Proof.
  intros Hc. unfold sub. cbn. destruct (decide (i = id)) as [->|]; [|by rewrite lookup_insert_ne].
  rewrite lookup_insert_eq, Hc. split; intros (x & [= <-] & ?); eauto.
Qed.

Lemma psubscribe_spec s id c p :
  inv s -> clients s !! id = Some c ->
  exists s' n c', pubsubSubscribePattern s id p = Some (s', n) /\ inv s' /\ clients s' = <[id := c']> (clients s) /\
    abs_client c' = (channels c, {[ p ]} ∪ list_to_set (patterns c), pubsub_flag c).
Proof.
  intros Hi Hc. unfold pubsubSubscribePattern. rewrite Hc. cbn [mbind option_bind].
  destruct (bool_decide_reflect (p ∈ patterns c)) as [Hin|Hnin].
  - eexists _, _, c. split; [done|]. split; [by apply inv_send|]. split; [cbn; by rewrite insert_id|].
    unfold abs_client. f_equal. f_equal. set_solver.
  - eexists _, _, (set_patterns c (patterns c ++ [p])). split; [done|]. split; [|split; [done|unfold abs_client; cbn; f_equal; f_equal; set_solver]].
    apply inv_send. destruct Hi as [H1 H2 [H3 H3'] H4].
    assert (Hp : forall i k, psub s i k \/ (i = id /\ k = p) <-> psub (set_client s id (set_patterns c (patterns c ++ [p]))) i k).
    { intros i k. rewrite psub_set by done. destruct (decide (i = id)) as [->|]; [rewrite (psub_at s id c) by done; set_solver|naive_solver]. }
    assert (Hnp : ~ psub s id p) by (by rewrite (psub_at s id c)).
    constructor.
    + apply (index_ext _ (sub s)); [|done]. intros i k. by apply sub_patterns.
    + eapply index_ext; [exact Hp|]. by apply index_add.
    + split.
      * cbn. apply NoDup_app. split; [done|]. split; [|apply NoDup_singleton].
        intros x Hx Hx2. apply list_elem_of_singleton in Hx2 as ->. by apply Hnp, H3'.
      * intros i k. cbn [pubsub_patterns set_pats]. rewrite elem_of_app, list_elem_of_singleton. cbn [pubsub_patterns set_client].
        rewrite H3'. etransitivity; [|apply Hp]. split; (intros [?|E]; [auto|right]); [by inversion E|destruct E as [-> ->]; done].
    + intros i x Hx. cbn in Hx. destruct (decide (i = id)) as [->|]; [|rewrite lookup_insert_ne in Hx by done; by apply (H4 i)].
      rewrite lookup_insert_eq in Hx. injection Hx as <-. cbn. apply NoDup_app. split; [by apply (H4 id)|].
      split; [|apply NoDup_singleton]. intros x Hx Hx2. apply list_elem_of_singleton in Hx2 as ->. done.
Qed.

Lemma punsubscribe_spec s id c p notify :
  inv s -> clients s !! id = Some c ->
  exists s' n c', pubsubUnsubscribePattern s id p notify = Some (s', n) /\ inv s' /\ clients s' = <[id := c']> (clients s) /\
    abs_client c' = (channels c, list_to_set (patterns c) ∖ {[ p ]}, pubsub_flag c).
Proof.
  intros Hi Hc. unfold pubsubUnsubscribePattern. rewrite Hc. cbn [mbind option_bind].
  assert (Hn : forall s' ts, inv s' -> inv (if notify then send s' id ts else s')) by (intros; destruct notify; [by apply inv_send|done]).
  pose proof Hi as Hi0. destruct Hi as [H1 H2 [H3 H3'] H4].
  destruct (decide (p ∈ patterns c)) as [Hin|Hnin].
  - destruct (del_first_spec (patterns c) p Hin (H4 id c Hc)) as (ps & -> & Hnd & Hps).
    destruct (del_first_spec (pubsub_patterns s) (id, p)) as (pl & Epl & Hndl & Hpl); [apply H3'; by rewrite (psub_at s id c)|done|].
    destruct (index_del (pubsub_patterns_dict s) (psub s) p id H2) as (m & Em & Hm); [by rewrite (psub_at s id c)|].
    cbn [pubsub_patterns pubsub_patterns_dict set_client]. rewrite Epl. cbn [mbind option_bind]. rewrite Em. cbn [mbind option_bind].
    assert (Hp : forall i k, psub s i k /\ ~ (i = id /\ k = p) <-> psub (set_client s id (set_patterns c ps)) i k).
    { intros i k. rewrite psub_set by done. destruct (decide (i = id)) as [->|]; [rewrite (psub_at s id c), Hps by done|]; naive_solver. }
    eexists _, _, (set_patterns c ps). split; [done|]. split; [apply Hn|]; [|split; [by destruct notify|]].
    + constructor.
      * apply (index_ext _ (sub s)); [|done]. intros i k. by apply sub_patterns.
      * eapply index_ext; [exact Hp|exact Hm].
      * split; [done|]. intros i k. cbn [pubsub_patterns set_pats]. rewrite Hpl, H3'. etransitivity; [|apply Hp].
        split; intros [? Hne]; (split; [done|]); [intros [-> ->]; done|intros [= -> ->]; auto].
      * intros i x Hx. cbn in Hx. destruct (decide (i = id)) as [->|]; [|rewrite lookup_insert_ne in Hx by done; by apply (H4 i)].
        rewrite lookup_insert_eq in Hx. by injection Hx as <-.
    + unfold abs_client. cbn. f_equal. f_equal. apply set_eq. intros x. rewrite elem_of_difference, !elem_of_list_to_set, Hps. set_solver.
  - rewrite del_first_none by done. cbn [mbind option_bind]. eexists _, _, c. split; [done|]. split; [by apply Hn|].
    split; [by destruct notify; cbn; rewrite insert_id|]. unfold abs_client. f_equal. f_equal. set_solver.
Qed.

(** ** Loops over channels or patterns *)
(** [f] runs without failing and acts on client [id] as [G] does on what the
    client stands for. *)
Definition acts (id : Z) (f : server -> bs -> option (server * Z)) (G : aclient -> bs -> aclient) : Prop :=
  forall s c x, inv s -> clients s !! id = Some c ->
    exists s' n c', f s x = Some (s', n) /\ inv s' /\ clients s' = <[id := c']> (clients s) /\ abs_client c' = G (abs_client c) x.

Definition G_sub (a : aclient) (x : bs) : aclient := let '(cs, ps, b) := a in ({[ x ]} ∪ cs, ps, b).
Definition G_unsub (a : aclient) (x : bs) : aclient := let '(cs, ps, b) := a in (cs ∖ {[ x ]}, ps, b).
Definition G_psub (a : aclient) (x : bs) : aclient := let '(cs, ps, b) := a in (cs, {[ x ]} ∪ ps, b).
Definition G_punsub (a : aclient) (x : bs) : aclient := let '(cs, ps, b) := a in (cs, ps ∖ {[ x ]}, b).

Lemma acts_sub id : acts id (fun s ch => pubsubSubscribeChannel s id ch) G_sub.
Proof. intros s c x Hi Hc. destruct (subscribe_spec s id c x Hi Hc) as (s' & n & ? & ? & ?). eexists _, _, _. eauto. Qed.
Lemma acts_unsub id notify : acts id (fun s ch => pubsubUnsubscribeChannel s id ch notify) G_unsub.
Proof. intros s c x Hi Hc. destruct (unsubscribe_spec s id c x notify Hi Hc) as (s' & ? & ? & ?). eexists _, _, _. eauto. Qed.
Lemma acts_psub id : acts id (fun s p => pubsubSubscribePattern s id p) G_psub.
Proof. intros s c x Hi Hc. destruct (psubscribe_spec s id c x Hi Hc) as (s' & n & c' & ? & ? & ? & ?). eexists _, _, _. eauto. Qed.
Lemma acts_punsub id notify : acts id (fun s p => pubsubUnsubscribePattern s id p notify) G_punsub.
Proof. intros s c x Hi Hc. destruct (punsubscribe_spec s id c x notify Hi Hc) as (s' & n & c' & ? & ? & ? & ?). eexists _, _, _. eauto. Qed.

Lemma count_loop_acts id f G l s c :
  acts id f G -> inv s -> clients s !! id = Some c ->
  exists s' n c', count_loop f s l = Some (s', n) /\ inv s' /\ clients s' = <[id := c']> (clients s) /\
    abs_client c' = foldl G (abs_client c) l.
Proof.
  intros Hf. revert s c. induction l as [|x l IH]; intros s c Hi Hc.
  - eexists _, _, c. split; [done|]. by rewrite insert_id.
  - destruct (Hf s c x Hi Hc) as (s1 & n1 & c1 & E1 & Hi1 & Hc1 & Ha1). simpl. rewrite E1. cbn [mbind option_bind].
    destruct (IH s1 c1 Hi1) as (s2 & n2 & c2 & E2 & Hi2 & Hc2 & Ha2); [by rewrite Hc1, lookup_insert_eq|].
    rewrite E2. cbn [mbind option_bind]. eexists _, _, c2. split; [done|]. split; [done|].
    rewrite Hc2, Hc1, insert_insert_eq, <- Ha1. done.
Qed.

Lemma foldl_sub l cs ps b : foldl G_sub (cs, ps, b) l = (list_to_set l ∪ cs, ps, b).
Proof. revert cs. induction l as [|x l IH]; intros cs; simpl; [|rewrite IH]; f_equal; f_equal; set_solver. Qed.
Lemma foldl_unsub l cs ps b : foldl G_unsub (cs, ps, b) l = (cs ∖ list_to_set l, ps, b).
Proof. revert cs. induction l as [|x l IH]; intros cs; simpl; [|rewrite IH]; f_equal; f_equal; set_solver. Qed.
Lemma foldl_psub l cs ps b : foldl G_psub (cs, ps, b) l = (cs, list_to_set l ∪ ps, b).
Proof. revert ps. induction l as [|x l IH]; intros ps; simpl; [|rewrite IH]; f_equal; f_equal; set_solver. Qed.
Lemma foldl_punsub l cs ps b : foldl G_punsub (cs, ps, b) l = (cs, ps ∖ list_to_set l, b).
Proof. revert ps. induction l as [|x l IH]; intros ps; simpl; [|rewrite IH]; f_equal; f_equal; set_solver. Qed.

Lemma notify_send s id (b : bool) ts : inv s -> inv (if b then send s id ts else s) /\ clients (if b then send s id ts else s) = clients s.
Proof. intros. destruct b; [split; [by apply inv_send|]|]; done. Qed.

Lemma unsubscribe_all_spec s id c notify :
  inv s -> clients s !! id = Some c ->
  exists s' n c', pubsubUnsubscribeAllChannels s id notify = Some (s', n) /\ inv s' /\ clients s' = <[id := c']> (clients s) /\
    abs_client c' = (∅, list_to_set (patterns c), pubsub_flag c).
Proof.
  intros Hi Hc. unfold pubsubUnsubscribeAllChannels. rewrite Hc. cbn [mbind option_bind].
  destruct (count_loop_acts id _ _ (elements (channels c)) s c (acts_unsub id notify) Hi Hc) as (s1 & n & c1 & -> & Hi1 & Hc1 & Ha).
  cbn [mbind option_bind]. rewrite Hc1, lookup_insert_eq. cbn [mbind option_bind].
  destruct (notify_send s1 id (notify && (n =? 0)) (addReplyPubsubUnsubscribed c1 None) Hi1) as [Hi2 Hc2].
  eexists _, _, c1. split; [done|]. split; [done|]. split; [by rewrite Hc2|]. rewrite Ha. unfold abs_client. rewrite foldl_unsub.
  f_equal. f_equal. set_solver.
Qed.

Lemma punsubscribe_all_spec s id c notify :
  inv s -> clients s !! id = Some c ->
  exists s' n c', pubsubUnsubscribeAllPatterns s id notify = Some (s', n) /\ inv s' /\ clients s' = <[id := c']> (clients s) /\
    abs_client c' = (channels c, ∅, pubsub_flag c).
Proof.
  intros Hi Hc. unfold pubsubUnsubscribeAllPatterns. rewrite Hc. cbn [mbind option_bind].
  destruct (count_loop_acts id _ _ (patterns c) s c (acts_punsub id notify) Hi Hc) as (s1 & n & c1 & -> & Hi1 & Hc1 & Ha).
  cbn [mbind option_bind]. rewrite Hc1, lookup_insert_eq. cbn [mbind option_bind].
  destruct (notify_send s1 id (notify && (n =? 0)) (addReplyPubsubPatUnsubscribed c1 None) Hi1) as [Hi2 Hc2].
  eexists _, _, c1. split; [done|]. split; [done|]. split; [by rewrite Hc2|]. rewrite Ha. unfold abs_client. rewrite foldl_punsub.
  f_equal. f_equal. set_solver.
Qed.

(** ** Delivery *)
Definition add_out (s : server) (o : list (Z * list token)) : server :=
  mk_server (clients s) (pubsub_channels s) (pubsub_patterns s) (pubsub_patterns_dict s) (out s ++ o).
(** The message [f] builds for each receiver. *)
Definition messages {A} (s : server) (who : A -> Z) (f : A -> client -> list token) (l : list A) : list (Z * list token) :=
  omap (fun x => c ← clients s !! who x; Some (who x, f x c)) l.

Lemma messages_app {A} s who (f : A -> _) l1 l2 : messages s who f (l1 ++ l2) = messages s who f l1 ++ messages s who f l2.
Proof. apply omap_app. Qed.
Lemma messages_fmap {A B} s who (f : A -> _) (g : B -> A) l :
  messages s who f (g <$> l) = messages s (fun x => who (g x)) (fun x => f (g x)) l.
Proof. unfold messages. induction l as [|x l IH]; [done|]. cbn. by destruct (clients s !! who (g x)); cbn; rewrite IH. Qed.

Lemma deliver_spec s f l :
  (forall id, id ∈ l -> is_Some (clients s !! id)) ->
  deliver s f l = Some (add_out s (messages s (fun id => id) (fun _ => f) l), zlen l).
Proof.
  revert s. induction l as [|id l IH]; intros s H; simpl.
  - f_equal. f_equal. unfold add_out. destruct s. simpl. by rewrite app_nil_r.
  - destruct (H id) as [c Hc]; [set_solver|]. rewrite Hc. cbn [mbind option_bind].
    rewrite IH by (intros i Hi; apply H; set_solver). cbn [mbind option_bind]. f_equal. f_equal.
    + unfold add_out. cbn. by rewrite <- app_assoc.
    + unfold zlen. simpl. lia.
Qed.

(** The pattern subscriptions that match, in the order of delivery. *)
Definition matching (channel : bs) (l : list (bs * list Z)) : list (bs * Z) :=
  flat_map (fun '(p, cl) => if bool_decide (stringmatchlen p channel false = Some true) then pair p <$> cl else []) l.

Lemma elem_matching channel l p id :
  (p, id) ∈ matching channel l <-> stringmatchlen p channel false = Some true /\ exists cl, (p, cl) ∈ l /\ id ∈ cl.
Proof.
  unfold matching. rewrite list_elem_of_In, in_flat_map. split.
  - intros ([q cl] & Hq & Hin). apply list_elem_of_In in Hq, Hin.
    destruct (bool_decide_reflect (stringmatchlen q channel false = Some true)) as [Hm|]; [|by apply not_elem_of_nil in Hin].
    apply list_elem_of_fmap in Hin as (x & [= -> ->] & Hx). eauto.
  - intros [Hm (cl & Hcl & Hid)]. exists (p, cl). rewrite <- list_elem_of_In. split; [done|]. rewrite bool_decide_true by done.
    apply list_elem_of_In, list_elem_of_fmap. eauto.
Qed.

Lemma NoDup_matching channel l :
  NoDup l.*1 -> (forall p cl, (p, cl) ∈ l -> NoDup cl) -> NoDup (matching channel l).
Proof.
  induction l as [|[p cl] l IH]; intros Hnd Hcl; [constructor|]. apply NoDup_cons in Hnd as [Hp Hnd].
  change (NoDup ((if bool_decide (stringmatchlen p channel false = Some true) then pair p <$> cl else []) ++ matching channel l)).
  apply NoDup_app. split; [|split; [|apply IH; [done|intros q ql Hq; apply (Hcl q); set_solver]]].
  - case_bool_decide; [|constructor]. apply NoDup_fmap; [intros ? ? [= ->]; done|]. apply (Hcl p). set_solver.
  - intros [q id] Hq Hm. case_bool_decide; [|by apply not_elem_of_nil in Hq].
    apply list_elem_of_fmap in Hq as (x & [= -> ->] & Hx). apply elem_matching in Hm as [_ (ql & Hql & _)].
    apply Hp, list_elem_of_fmap. exists (p, ql). done.
Qed.

Lemma add_out_app s o1 o2 : add_out (add_out s o1) o2 = add_out s (o1 ++ o2).
Proof. unfold add_out. cbn. by rewrite app_assoc. Qed.
Lemma add_out_nil s : add_out s [] = s.
Proof. unfold add_out. destruct s. cbn. by rewrite app_nil_r. Qed.

Lemma deliver_patterns_spec s channel message l :
  (forall p cl id, (p, cl) ∈ l -> id ∈ cl -> is_Some (clients s !! id)) ->
  deliver_patterns s channel message l =
    Some (add_out s (messages s snd (fun x c => addReplyPubsubPatMessage c (fst x) channel message) (matching channel l)),
          zlen (matching channel l)).
Proof.
  revert s. induction l as [|[p cl] l IH]; intros s H.
  - simpl. by rewrite add_out_nil.
  - change (matching channel ((p, cl) :: l)) with
      ((if bool_decide (stringmatchlen p channel false = Some true) then pair p <$> cl else []) ++ matching channel l).
    cbn [deliver_patterns]. destruct (stringmatchlen_defined p channel false) as [b Eb]. rewrite Eb. cbn [mbind option_bind].
    assert (IH' : forall o, deliver_patterns (add_out s o) channel message l = Some (add_out s (o ++ messages s snd (fun x c => addReplyPubsubPatMessage c (fst x) channel message) (matching channel l)), zlen (matching channel l))).
    { intros o. rewrite IH by (intros q ql i Hq Hi; apply (H q ql i); [set_solver|done]). by rewrite add_out_app. }
    destruct b; cbn [negb].
    + rewrite bool_decide_true by done. rewrite deliver_spec by (intros i Hi; apply (H p cl i); [set_solver|done]).
      cbn [mbind option_bind]. rewrite IH'. cbn [mbind option_bind]. rewrite messages_app, messages_fmap.
      f_equal. f_equal. unfold zlen. rewrite length_app, length_fmap. lia.
    + rewrite bool_decide_false by done. rewrite <- (add_out_nil s) at 1. rewrite IH'. done.
Qed.

(** The subscriptions [pubsubPublishMessage] serves, in its order. *)
Definition channel_receivers (s : server) (channel : bs) : list Z := default [] (pubsub_channels s !! channel).
Definition pattern_receivers (s : server) (channel : bs) : list (bs * Z) :=
  matching channel (map_to_list (pubsub_patterns_dict s)).

Lemma sub_receivers s ch id : inv s -> id ∈ channel_receivers s ch <-> sub s id ch.
Proof.
  intros [[_ H] _ _ _]. rewrite H. unfold channel_receivers. split.
  - destruct (pubsub_channels s !! ch); [eauto|]. intros Hn. by apply not_elem_of_nil in Hn.
  - intros (l & -> & Hl). done.
Qed.
Lemma psub_receivers s ch p id :
  inv s -> (p, id) ∈ pattern_receivers s ch <-> psub s id p /\ stringmatchlen p ch false = Some true.
Proof.
  intros [_ [_ H] _ _]. unfold pattern_receivers. rewrite elem_matching, H. split.
  - intros [Hm (cl & Hcl & Hid)]. apply elem_of_map_to_list in Hcl. eauto.
  - intros [(l & Hl & Hid) Hm]. split; [done|]. exists l. by rewrite elem_of_map_to_list.
Qed.

Lemma NoDup_receivers s ch : inv s -> NoDup (channel_receivers s ch) /\ NoDup (pattern_receivers s ch).
Proof.
  intros [[H1 _] [H2 _] _ _]. split.
  - unfold channel_receivers. destruct (pubsub_channels s !! ch) eqn:E; [by apply (H1 ch)|constructor].
  - apply NoDup_matching; [apply NoDup_fst_map_to_list|]. intros p cl Hin. apply elem_of_map_to_list in Hin. by apply (H2 p).
Qed.

Lemma publish_spec s channel message :
  inv s -> pubsubPublishMessage s channel message =
    Some (add_out s (messages s (fun id => id) (fun _ c => addReplyPubsubMessage c channel (Some message)) (channel_receivers s channel)
                     ++ messages s snd (fun x c => addReplyPubsubPatMessage c (fst x) channel message) (pattern_receivers s channel)),
          zlen (channel_receivers s channel) + zlen (pattern_receivers s channel)).
Proof.
  intros Hi. unfold pubsubPublishMessage.
  assert (E : match pubsub_channels s !! channel with
              | Some l => deliver s (fun c => addReplyPubsubMessage c channel (Some message)) l
              | None => Some (s, 0)
              end = deliver s (fun c => addReplyPubsubMessage c channel (Some message)) (channel_receivers s channel))
    by (unfold channel_receivers; by destruct (pubsub_channels s !! channel)).
  rewrite E, deliver_spec by (intros id Hid; apply sub_receivers in Hid as (c & Hc & _); [eauto|done]).
  cbn [mbind option_bind]. cbn [pubsub_patterns_dict add_out].
  rewrite deliver_patterns_spec.
  - cbn [mbind option_bind]. by rewrite add_out_app.
  - intros p cl id Hp Hid. cbn [clients add_out]. apply elem_of_map_to_list in Hp. destruct Hi as [_ [_ H] _ _].
    destruct (proj2 (H p id)) as (c & Hc & _); [eauto|eauto].
Qed.

(** ** Runs *)
Inductive op :=
| OConnect (id resp : Z)
| OSubscribe (id : Z) (args : list bs)
| OPsubscribe (id : Z) (args : list bs)
| OUnsubscribe (id : Z) (args : list bs)
| OPunsubscribe (id : Z) (args : list bs)
| OPublish (id : Z) (channel message : bs)
| OFree (id : Z).

(** The client [createClient] makes. *)
Definition connect (s : server) (id resp : Z) : server := set_client s id (mk_client resp ∅ [] false).

Definition exec (s : server) (o : op) : option server :=
  match o with
  | OConnect id resp => Some (connect s id resp)
  | OSubscribe id args => subscribeCommand s id args
  | OPsubscribe id args => psubscribeCommand s id args
  | OUnsubscribe id args => unsubscribeCommand s id args
  | OPunsubscribe id args => punsubscribeCommand s id args
  | OPublish id channel message => publishCommand s id channel message
  | OFree id => free_subscriptions s id
  end.
Fixpoint exec_all (s : server) (l : list op) : option server :=
  match l with [] => Some s | o :: l => s ← exec s o; exec_all s l end.

(** The contract: who is subscribed to what.  An operation on a client that
    is not connected has no meaning. *)
Abbreviation registry := (gmap Z aclient).
Definition abs (s : server) : registry := abs_client <$> clients s.

Definition clear (a : aclient) : aclient :=
  let '(cs, ps, b) := a in (cs, ps, if bool_decide (cs = ∅ /\ ps = ∅) then false else b).

Definition spec_step (r : registry) (o : op) : option registry :=
  match o with
  | OConnect id _ => if decide (r !! id = None) then Some (<[id := (∅, ∅, false)]> r) else None
  | OSubscribe id args => '(cs, ps, _) ← r !! id; Some (<[id := (list_to_set args ∪ cs, ps, true)]> r)
  | OPsubscribe id args => '(cs, ps, _) ← r !! id; Some (<[id := (cs, list_to_set args ∪ ps, true)]> r)
  | OUnsubscribe id args =>
      '(cs, ps, b) ← r !! id;
      Some (<[id := clear (match args with [] => ∅ | _ => cs ∖ list_to_set args end, ps, b)]> r)
  | OPunsubscribe id args =>
      '(cs, ps, b) ← r !! id;
      Some (<[id := clear (cs, match args with [] => ∅ | _ => ps ∖ list_to_set args end, b)]> r)
  | OPublish id _ _ => _ ← r !! id; Some r
  | OFree id => _ ← r !! id; Some (delete id r)
  end.
Fixpoint spec_steps (r : registry) (l : list op) : option registry :=
  match l with [] => Some r | o :: l => r ← spec_step r o; spec_steps r l end.

Lemma abs_lookup s id a : abs s !! id = Some a -> exists c, clients s !! id = Some c /\ abs_client c = a.
Proof. unfold abs. rewrite lookup_fmap. destruct (clients s !! id) as [c|]; [|done]. intros [= <-]. eauto. Qed.

Lemma inv_set_flag s id c b : inv s -> clients s !! id = Some c -> inv (set_client s id (set_flag c b)).
Proof.
  intros Hi Hc. apply (pubsub_inv_ext s); try done. intros i. cbn. destruct (decide (i = id)) as [->|].
  - by rewrite lookup_insert_eq, Hc.
  - by rewrite lookup_insert_ne.
Qed.

Lemma flag_spec s id c b cs ps b0 :
  inv s -> clients s !! id = Some c -> abs_client c = (cs, ps, b0) ->
  inv (set_client s id (set_flag c b)) /\ abs (set_client s id (set_flag c b)) = <[id := (cs, ps, b)]> (abs s).
Proof.
  intros Hi Hc Ha. split; [by apply inv_set_flag|]. unfold abs. cbn. rewrite fmap_insert. f_equal.
  unfold abs_client in *. cbn. congruence.
Qed.

Lemma clear_flag_spec s id c : inv s -> clients s !! id = Some c ->
  exists s', clear_flag s id = Some s' /\ inv s' /\ abs s' = <[id := clear (abs_client c)]> (abs s).
Proof.
  intros Hi Hc. unfold clear_flag. rewrite Hc. cbn [mbind option_bind]. eexists. split; [done|].
  assert (Hz : clientSubscriptionsCount c = 0 <-> channels c = ∅ /\ (list_to_set (patterns c) : gset bs) = ∅).
  { unfold clientSubscriptionsCount, zlen. rewrite <- (leibniz_equiv_iff (channels c)), <- size_empty_iff.
    destruct (patterns c) as [|p l]; simpl; [|split; [lia|intros [_ H]; set_solver]].
    split; [intros; split; [lia|done]|intros [? _]; lia]. }
  destruct (Z.eqb_spec (clientSubscriptionsCount c) 0) as [E|E].
  - destruct (flag_spec s id c false _ _ _ Hi Hc eq_refl) as [H1 H2]. split; [done|]. rewrite H2. f_equal. unfold clear, abs_client.
    by rewrite bool_decide_true by (by apply Hz).
  - split; [done|]. unfold clear, abs_client. rewrite bool_decide_false by (by rewrite <- Hz).
    symmetry. apply insert_id. unfold abs. by rewrite lookup_fmap, Hc.
Qed.

Lemma abs_insert s s' id c : clients s' = <[id := c]> (clients s) -> abs s' = <[id := abs_client c]> (abs s).
Proof. intros E. unfold abs. by rewrite E, fmap_insert. Qed.

(** [SUBSCRIBE] and [PSUBSCRIBE]: the loop, then the flag. *)
Lemma sub_command_spec s id args f G c cs ps b :
  acts id f G -> inv s -> clients s !! id = Some c -> foldl G (abs_client c) args = (cs, ps, b) ->
  exists s', ('(s, _) ← count_loop f s args; c ← clients s !! id; Some (set_client s id (set_flag c true))) = Some s' /\ inv s' /\
    abs s' = <[id := (cs, ps, true)]> (abs s).
Proof.
  intros Hf Hi Hc HG. destruct (count_loop_acts id f G args s c Hf Hi Hc) as (s1 & n & c1 & -> & Hi1 & Hc1 & Ha1).
  cbn [mbind option_bind]. assert (Hl : clients s1 !! id = Some c1) by (by rewrite Hc1, lookup_insert_eq).
  rewrite Hl. cbn [mbind option_bind]. eexists. split; [done|]. rewrite HG in Ha1.
  destruct (flag_spec s1 id c1 true cs ps b Hi1 Hl Ha1) as [H1 H2]. split; [done|].
  rewrite H2, (abs_insert s s1 id c1 Hc1), insert_insert_eq. done.
Qed.

(** [UNSUBSCRIBE] and [PUNSUBSCRIBE]: the loop or everything, then the flag. *)
Lemma unsub_command_spec s id c a (r : option (server * Z)) :
  (exists s' n c', r = Some (s', n) /\ inv s' /\ clients s' = <[id := c']> (clients s) /\ abs_client c' = a) ->
  clients s !! id = Some c ->
  exists s', ('(s, _) ← r; clear_flag s id) = Some s' /\ inv s' /\ abs s' = <[id := clear a]> (abs s).
Proof.
  intros (s1 & n & c1 & -> & Hi1 & Hc1 & Ha1) Hc. cbn [mbind option_bind].
  destruct (clear_flag_spec s1 id c1 Hi1) as (s2 & -> & Hi2 & Ha2); [by rewrite Hc1, lookup_insert_eq|].
  exists s2. split; [done|]. split; [done|]. rewrite Ha2, (abs_insert s s1 id c1 Hc1), insert_insert_eq. by rewrite Ha1.
Qed.

Lemma free_spec s id c :
  inv s -> clients s !! id = Some c -> exists s', free_subscriptions s id = Some s' /\ inv s' /\ abs s' = delete id (abs s).
Proof.
  intros Hi Hc. unfold free_subscriptions.
  destruct (unsubscribe_all_spec s id c false Hi Hc) as (s1 & n1 & c1 & -> & Hi1 & Hc1 & Ha1). cbn [mbind option_bind].
  assert (Hl1 : clients s1 !! id = Some c1) by (by rewrite Hc1, lookup_insert_eq).
  destruct (punsubscribe_all_spec s1 id c1 false Hi1 Hl1) as (s2 & n2 & c2 & -> & Hi2 & Hc2 & Ha2). cbn [mbind option_bind].
  eexists. split; [done|]. unfold abs_client in Ha1, Ha2. injection Ha1 as E1 _ _. injection Ha2 as E2 E3 _.
  assert (Hl2 : clients s2 !! id = Some c2) by (by rewrite Hc2, lookup_insert_eq).
  split; [|unfold abs; cbn; by rewrite Hc2, Hc1, insert_insert_eq, delete_insert_eq, fmap_delete].
  destruct Hi2 as [H1 H2 [H3 H3'] H4]. set (s3 := mk_server _ _ _ _ _).
  assert (Hs : forall i k, sub s2 i k <-> sub s3 i k).
  { intros i k. unfold sub. cbn. destruct (decide (i = id)) as [->|]; [|by rewrite lookup_delete_ne].
    rewrite lookup_delete_eq, Hl2. split; [intros (x & [= <-] & Hx); set_solver|by intros (? & ? & _)]. }
  assert (Hp : forall i k, psub s2 i k <-> psub s3 i k).
  { intros i k. unfold psub. cbn. destruct (decide (i = id)) as [->|]; [|by rewrite lookup_delete_ne].
    rewrite lookup_delete_eq, Hl2. split; [|by intros (? & ? & _)]. intros (x & [= <-] & Hx). 
    apply (elem_of_list_to_set (C := gset bs)) in Hx. rewrite E3 in Hx. set_solver. }
  constructor; [by apply (index_ext _ (sub s2))|by apply (index_ext _ (psub s2))|split; [done|intros i k; by rewrite <- Hp]|].
  intros i x Hx. cbn in Hx. apply lookup_delete_Some in Hx as [_ Hx]. by apply (H4 i).
Qed.

Lemma connect_spec s id resp :
  inv s -> clients s !! id = None -> inv (connect s id resp) /\ abs (connect s id resp) = <[id := (∅, ∅, false)]> (abs s).
Proof.
  intros [H1 H2 [H3 H3'] H4] Hc. split; [|unfold abs, connect; cbn; by rewrite fmap_insert].
  assert (Hs : forall i k, sub s i k <-> sub (connect s id resp) i k).
  { intros i k. unfold sub, connect. cbn. destruct (decide (i = id)) as [->|]; [|by rewrite lookup_insert_ne].
    rewrite lookup_insert_eq, Hc. split; [by intros (? & ? & _)|intros (x & [= <-] & Hx); set_solver]. }
  assert (Hp : forall i k, psub s i k <-> psub (connect s id resp) i k).
  { intros i k. unfold psub, connect. cbn. destruct (decide (i = id)) as [->|]; [|by rewrite lookup_insert_ne].
    rewrite lookup_insert_eq, Hc. split; [by intros (? & ? & _)|intros (x & [= <-] & Hx); set_solver]. }
  constructor; [by apply (index_ext _ (sub s))|by apply (index_ext _ (psub s))|split; [done|intros i k; by rewrite <- Hp]|].
  intros i x Hx. cbn in Hx. destruct (decide (i = id)) as [->|]; [|rewrite lookup_insert_ne in Hx by done; by apply (H4 i)].
  rewrite lookup_insert_eq in Hx. injection Hx as <-. constructor.
Qed.

Lemma add_out_inv s o : inv s -> inv (add_out s o).
Proof. by apply pubsub_inv_ext. Qed.

Lemma exec_refines s o r : inv s -> spec_step (abs s) o = Some r -> exists s', exec s o = Some s' /\ inv s' /\ abs s' = r.
Proof.
  intros Hi. destruct o as [id rp|id args|id args|id args|id args|id ch msg|id]; cbn [spec_step exec].
  1: { destruct (decide (abs s !! id = None)) as [E|]; [|done]. intros [= <-]. eexists. split; [done|]. apply connect_spec; [done|].
       unfold abs in E. rewrite lookup_fmap in E. by destruct (clients s !! id). }
  all: destruct (abs s !! id) as [[[cs ps] b]|] eqn:E; [|done]; cbn [mbind option_bind]; intros [= <-];
       destruct (abs_lookup s id _ E) as (c & Hc & Ha).
  - apply (sub_command_spec s id args _ G_sub c _ _ b); [apply acts_sub|done|done|]. rewrite Ha. apply foldl_sub.
  - apply (sub_command_spec s id args _ G_psub c _ _ b); [apply acts_psub|done|done|]. rewrite Ha. apply foldl_psub.
  - unfold unsubscribeCommand. eapply (unsub_command_spec s id c (_, ps, b)); [|done]. injection Ha as <- <- <-. destruct args as [|x args].
    + by apply unsubscribe_all_spec.
    + destruct (count_loop_acts id _ _ (x :: args) s c (acts_unsub id true) Hi Hc) as (s1 & n & c1 & ? & ? & ? & Ha1).
      eexists _, _, _. split; [done|]. split; [done|]. split; [done|]. rewrite Ha1. apply foldl_unsub.
  - unfold punsubscribeCommand. eapply (unsub_command_spec s id c (cs, _, b)); [|done]. injection Ha as <- <- <-. destruct args as [|x args].
    + by apply punsubscribe_all_spec.
    + destruct (count_loop_acts id _ _ (x :: args) s c (acts_punsub id true) Hi Hc) as (s1 & n & c1 & ? & ? & ? & Ha1).
      eexists _, _, _. split; [done|]. split; [done|]. split; [done|]. rewrite Ha1. apply foldl_punsub.
  - unfold publishCommand. rewrite publish_spec by done. cbn [mbind option_bind]. eexists. split; [done|]. split; [by apply inv_send, add_out_inv|done].
  - by apply (free_spec s id c).
Qed.

Lemma exec_all_refines l s r : inv s -> spec_steps (abs s) l = Some r -> exists s', exec_all s l = Some s' /\ inv s' /\ abs s' = r.
Proof.
  revert s. induction l as [|o l IH]; intros s Hi; cbn [spec_steps exec_all]; [intros [= <-]; eauto|].
  destruct (spec_step (abs s) o) as [r1|] eqn:E; [|done]. cbn [mbind option_bind]. intros Hr.
  destruct (exec_refines s o r1 Hi E) as (s1 & -> & Hi1 & <-). cbn [mbind option_bind]. by apply IH.
Qed.

(** ** Theorems *)
Definition init : server := mk_server ∅ ∅ [] ∅ [].
Lemma inv_init : inv init.
Proof.
  assert (Hn : forall (id : Z) c, clients init !! id = Some c -> False) by (intros id c Hc; cbn in Hc; by rewrite lookup_empty in Hc).
  assert (Hi : forall (R : Z -> bs -> Prop), (forall id k, ~ R id k) -> index_ok (∅ : gmap bs (list Z)) R).
  { intros R HR. split; [intros k l Hl; by rewrite lookup_empty in Hl|]. intros k id.
    split; [intros ?; by destruct (HR id k)|intros (l & Hl & _); by rewrite lookup_empty in Hl]. }
  constructor; [| |split; [constructor|]|].
  - apply Hi. intros id k (c & Hc & _). by apply Hn in Hc.
  - apply Hi. intros id k (c & Hc & _). by apply Hn in Hc.
  - intros id p. split; [intros H; by apply not_elem_of_nil in H|intros (c & Hc & _); by apply Hn in Hc].
  - intros id c Hc. by apply Hn in Hc.
Qed.

(** C11: from an empty server, any sequence of connections, (P)SUBSCRIBE,
    (P)UNSUBSCRIBE, PUBLISH commands and disconnections that only concerns
    connected clients runs to the end: no [serverAssert] of pubsub.c fails and
    no missing list node is deleted.  The clients then have exactly the
    channels, patterns and flag of the specification, and the three copies of
    the subscriptions agree: the two dicts have the subscribers of every
    channel and pattern, once each and no empty list, and
    [server.pubsub_patterns] has every pattern subscription once. *)
Theorem pubsub_refines (l : list op) (r : registry) :
  spec_steps ∅ l = Some r ->
  exists s, exec_all init l = Some s /\ abs s = r /\
    (forall ch cl, pubsub_channels s !! ch = Some cl -> cl <> [] /\ NoDup cl) /\
    (forall ch id, (exists cs ps b, r !! id = Some (cs, ps, b) /\ ch ∈ cs) <-> id ∈ channel_receivers s ch) /\
    (forall p cl, pubsub_patterns_dict s !! p = Some cl -> cl <> [] /\ NoDup cl) /\
    NoDup (pubsub_patterns s) /\
    (forall p id, (exists cs ps b, r !! id = Some (cs, ps, b) /\ p ∈ ps) <-> (id, p) ∈ pubsub_patterns s) /\
    (forall p id, (id, p) ∈ pubsub_patterns s <-> exists cl, pubsub_patterns_dict s !! p = Some cl /\ id ∈ cl).
Proof.
  intros Hr. destruct (exec_all_refines l init r inv_init Hr) as (s & Es & Hi & <-). exists s. split; [done|]. split; [done|].
  assert (Hs : forall id ch, (exists cs ps b, abs s !! id = Some (cs, ps, b) /\ ch ∈ cs) <-> sub s id ch).
  { intros id ch. unfold sub, abs. rewrite lookup_fmap. destruct (clients s !! id) as [c|]; cbn; [|naive_solver].
    split; [intros (cs & ps & b & [= <- <- <-] & ?); eauto|intros (x & [= <-] & ?); eexists _, _, _; eauto]. }
  assert (Hp : forall id p, (exists cs ps b, abs s !! id = Some (cs, ps, b) /\ p ∈ ps) <-> psub s id p).
  { intros id p. unfold psub, abs. rewrite lookup_fmap. destruct (clients s !! id) as [c|]; cbn; [|naive_solver].
    split; [intros (cs & ps & b & [= <- <- <-] & Hx); apply elem_of_list_to_set in Hx; eauto|].
    intros (x & [= <-] & ?). eexists _, _, _. split; [done|]. by apply elem_of_list_to_set. }
  pose proof Hi as [[H1 _] [H2 H2'] [H3 H3'] _].
  split; [done|]. split; [intros ch id; by rewrite Hs, sub_receivers|]. split; [done|]. split; [done|].
  split; [intros p id; by rewrite Hp, H3'|]. intros p id. by rewrite H3', H2'.
Qed.

(** C28: PUBLISH, in any state the commands reach, delivers one message to each
    client subscribed to the channel, then one to each client for each of its
    patterns that the channel matches, nothing else, and replies with the
    number of these messages. *)
Theorem publish_delivers (l : list op) (s : server) (id : Z) (channel message : bs) :
  (exists r, spec_steps ∅ l = Some r) -> exec_all init l = Some s ->
  exists (l1 : list Z) (l2 : list (bs * Z)),
    NoDup l1 /\ NoDup l2 /\
    (forall i, i ∈ l1 <-> sub s i channel) /\
    (forall p i, (p, i) ∈ l2 <-> psub s i p /\ stringmatchlen p channel false = Some true) /\
    publishCommand s id channel message =
      Some (add_out s (messages s (fun i => i) (fun _ c => addReplyPubsubMessage c channel (Some message)) l1 ++
                       messages s snd (fun x c => addReplyPubsubPatMessage c (fst x) channel message) l2 ++
                       [(id, [TInt (zlen l1 + zlen l2)])])).
Proof.
  intros [r Hr] Es. destruct (exec_all_refines l init r inv_init Hr) as (s' & Es' & Hi & _).
  assert (s' = s) as -> by congruence.
  exists (channel_receivers s channel), (pattern_receivers s channel). destruct (NoDup_receivers s channel Hi) as [Hn1 Hn2].
  split; [done|]. split; [done|]. split; [intros i; by apply sub_receivers|]. split; [intros p i; by apply psub_receivers|].
  unfold publishCommand. rewrite publish_spec by done. cbn [mbind option_bind]. unfold send, add_out. cbn. by rewrite <- !app_assoc.
Qed.

(** ** Witnesses *)
(** Bytes: n = 110, e = 101, w = 119, s = 115, star = 42. *)
Definition ops_w : list op :=
  [OConnect 1 2; OConnect 2 3; OSubscribe 1 [[110; 101]; [119]; [110; 101]]; OPsubscribe 2 [[110; 42]; [119; 42]];
   OSubscribe 2 [[119]]; OPsubscribe 1 [[110; 42]]; OUnsubscribe 1 [[119]; [120]]; OPunsubscribe 1 [];
   OPublish 1 [110; 101] [115]].

Lemma pubsub_refines_witness : exists s, exec_all init ops_w = Some s /\ channel_receivers s [110; 101] = [1].
Proof.
  destruct (spec_steps ∅ ops_w) as [r|] eqn:E; [|vm_compute in E; discriminate].
  destruct (pubsub_refines ops_w r E) as (s & Es & _). exists s. split; [exact Es|].
  assert (H : (s ← exec_all init ops_w; Some (channel_receivers s [110; 101])) = Some [1]) by (vm_compute; reflexivity).
  rewrite Es in H. injection H as H. exact H.
Defined.

Lemma publish_delivers_witness : exists s,
  exec_all init ops_w = Some s /\
  (s' ← publishCommand s 1 [110; 101] [115]; Some (drop (length (out s)) (out s'))) =
    Some [(1, [TMbulkhdr 3; TKind KMessage; TBulk [110; 101]; TBulk [115]]);
          (2, [TPush 4; TKind KPmessage; TBulk [110; 42]; TBulk [110; 101]; TBulk [115]]);
          (1, [TInt 2])].
Proof.
  destruct (exec_all init ops_w) as [s|] eqn:E; [|vm_compute in E; discriminate]. exists s. split; [reflexivity|].
  assert (Hr : exists r, spec_steps ∅ ops_w = Some r).
  { destruct (spec_steps ∅ ops_w) as [r|] eqn:E1; [exists r; reflexivity|vm_compute in E1; discriminate]. }
  destruct (publish_delivers ops_w s 1 [110; 101] [115] Hr E) as (l1 & l2 & _).
  assert (H : (s ← exec_all init ops_w; s' ← publishCommand s 1 [110; 101] [115]; Some (drop (length (out s)) (out s'))) =
    Some [(1, [TMbulkhdr 3; TKind KMessage; TBulk [110; 101]; TBulk [115]]);
          (2, [TPush 4; TKind KPmessage; TBulk [110; 42]; TBulk [110; 101]; TBulk [115]]);
          (1, [TInt 2])]) by (vm_compute; reflexivity).
  rewrite E in H. exact H.
Defined.
