(* ===== verification/Bits.v ===== *)
(** * bitops.c: low level bit functions

    [redisPopcount], [redisBitpos], the get/set bitfield routines and their
    overflow checks.  A bitmap is a byte list read from the most significant
    bit of the first byte; [bits_of] is that list of bits, in terms of which
    the theorems are stated.  Undefined behaviour (a read or write out of the
    bitmap, a shift by 64 or more) is the result [None]. *)
From S2P Require Import Prelude Endian.

(** ** Operations *)
Definition bitsinbyte : list Z :=
  [0; 1; 1; 2; 1; 2; 2; 3; 1; 2; 2; 3; 2; 3; 3; 4; 1; 2; 2; 3; 2; 3; 3; 4; 2; 3; 3; 4; 3; 4; 4; 5;
   1; 2; 2; 3; 2; 3; 3; 4; 2; 3; 3; 4; 3; 4; 4; 5; 2; 3; 3; 4; 3; 4; 4; 5; 3; 4; 4; 5; 4; 5; 5; 6;
   1; 2; 2; 3; 2; 3; 3; 4; 2; 3; 3; 4; 3; 4; 4; 5; 2; 3; 3; 4; 3; 4; 4; 5; 3; 4; 4; 5; 4; 5; 5; 6;
   2; 3; 3; 4; 3; 4; 4; 5; 3; 4; 4; 5; 4; 5; 5; 6; 3; 4; 4; 5; 4; 5; 5; 6; 4; 5; 5; 6; 5; 6; 6; 7;
   1; 2; 2; 3; 2; 3; 3; 4; 2; 3; 3; 4; 3; 4; 4; 5; 2; 3; 3; 4; 3; 4; 4; 5; 3; 4; 4; 5; 4; 5; 5; 6;
   2; 3; 3; 4; 3; 4; 4; 5; 3; 4; 4; 5; 4; 5; 5; 6; 3; 4; 4; 5; 4; 5; 5; 6; 4; 5; 5; 6; 5; 6; 6; 7;
   2; 3; 3; 4; 3; 4; 4; 5; 3; 4; 4; 5; 4; 5; 5; 6; 3; 4; 4; 5; 4; 5; 5; 6; 4; 5; 5; 6; 5; 6; 6; 7;
   3; 4; 4; 5; 4; 5; 5; 6; 4; 5; 5; 6; 5; 6; 6; 7; 4; 5; 5; 6; 5; 6; 6; 7; 5; 6; 6; 7; 6; 7; 7; 8].

Definition bib (b : Z) : option Z := bitsinbyte !! Z.to_nat b.

(** [while((unsigned long)p & 3 && count)]: [l] is what is left of the
    string, at address [addr]. *)
Fixpoint popcount_align (addr bits : Z) (l : list Z) : option (Z * list Z) :=
  match l with
  | [] => Some (bits, [])
  | b :: l' =>
      if Z.land addr 3 =? 0 then Some (bits, l)
      else n ← bib b; popcount_align (u64 (addr + 1)) (u64 (bits + n)) l'
  end.

(** The two assignments to each [aux]. *)
Definition aux_step (aux : Z) : Z :=
  let aux := u32 (aux - Z.land (Z.shiftr aux 1) 0x55555555) in
  u32 (Z.land aux 0x33333333 + Z.land (Z.shiftr aux 2) 0x33333333).
Definition aux_nibbles (aux : Z) : Z := Z.land (u32 (aux + Z.shiftr aux 4)) 0x0F0F0F0F.

Section Host.
  Context (be : bool).

(** The [i]-th 32-bit word of the block. *)
Definition word32 (l : list Z) (i : Z) : option Z := native_val be <$> load l (4 * i) 4.

Definition popcount_28 (l : list Z) : option Z :=
  aux1 ← word32 l 0; aux2 ← word32 l 1; aux3 ← word32 l 2; aux4 ← word32 l 3;
  aux5 ← word32 l 4; aux6 ← word32 l 5; aux7 ← word32 l 6;
  let s := u32 (aux_nibbles (aux_step aux1) + aux_nibbles (aux_step aux2)) in
  let s := u32 (s + aux_nibbles (aux_step aux3)) in
  let s := u32 (s + aux_nibbles (aux_step aux4)) in
  let s := u32 (s + aux_nibbles (aux_step aux5)) in
  let s := u32 (s + aux_nibbles (aux_step aux6)) in
  let s := u32 (s + aux_nibbles (aux_step aux7)) in
  Some (Z.shiftr (u32 (s * 0x01010101)) 24).

(** [while(count>=28)]; the length of the string is enough fuel. *)
Fixpoint popcount_words (fuel : nat) (bits : Z) (l : list Z) : option (Z * list Z) :=
  if 28 <=? zlen l then
    match fuel with
    | O => None
    | S fuel => n ← popcount_28 l; popcount_words fuel (u64 (bits + n)) (drop 28 l)
    end
  else Some (bits, l).

Fixpoint popcount_bytes (bits : Z) (l : list Z) : option Z :=
  match l with [] => Some bits | b :: l => n ← bib b; popcount_bytes (u64 (bits + n)) l end.

(** [addr] is the address of the string [s] of [count] bytes. *)
Definition redisPopcount (addr : Z) (s : list Z) : option Z :=
  '(bits, l) ← popcount_align addr 0 s;
  '(bits, l) ← popcount_words (length l) bits l;
  popcount_bytes bits l.

(** The byte by byte loop of [redisBitpos]: [(found, pos, rest)]. *)
Fixpoint bitpos_align (addr skipval pos : Z) (l : list Z) : bool * Z * list Z :=
  match l with
  | [] => (false, pos, [])
  | b :: l' =>
      if Z.land addr 7 =? 0 then (false, pos, l)
      else if negb (b =? skipval) then (true, pos, l)
      else bitpos_align (u64 (addr + 1)) skipval (pos + 8) l'
  end.

(** The word by word loop. *)
Fixpoint bitpos_words (fuel : nat) (skipval pos : Z) (l : list Z) : option (Z * list Z) :=
  if 8 <=? zlen l then
    match fuel with
    | O => None
    | S fuel =>
        w ← native_val be <$> load l 0 8;
        if negb (w =? skipval) then Some (pos, l)
        else bitpos_words fuel skipval (pos + 64) (drop 8 l)
    end
  else Some (pos, l).

(** The loop that loads the last word, [j] iterations left. *)
Fixpoint bitpos_load (j : nat) (word : Z) (l : list Z) : Z :=
  match j with
  | O => word
  | S j =>
      let word := u64 (Z.shiftl word 8) in
      match l with
      | [] => bitpos_load j word []
      | b :: l => bitpos_load j (Z.lor word b) l
      end
  end.

(** [while(one)]; [None] is the [serverPanic].  64 iterations shift [one]
    to zero. *)
Fixpoint bitpos_scan (fuel : nat) (one word : Z) (bit : bool) (pos : Z) : option Z :=
  match fuel with
  | O => None
  | S fuel =>
      if one =? 0 then None
      else if Bool.eqb (negb (Z.land one word =? 0)) bit then Some pos
      else bitpos_scan fuel (Z.shiftr one 1) word bit (pos + 1)
  end.

Definition ULONG_MAX : Z := 18446744073709551615.
Definition UCHAR_MAX : Z := 255.

Definition redisBitpos (addr : Z) (s : list Z) (bit : bool) : option Z :=
  let '(found, pos, l) := bitpos_align addr (if bit then 0 else UCHAR_MAX) 0 s in
  '(pos, l) ← (if found then Some (pos, l) else bitpos_words (length l) (if bit then 0 else ULONG_MAX) pos l);
  let word := bitpos_load 8 0 l in
  if bit && (word =? 0) then Some (-1)
  else
    let one := Z.shiftr ULONG_MAX 1 in
    let one := u64 (Z.lnot one) in
    bitpos_scan 65 one word bit pos.
End Host.

(** [(uint64_t)a << n]: undefined from 64 on. *)
Definition shl64 (a n : Z) : option Z :=
  if (0 <=? n) && (n <? 64) then Some (u64 (Z.shiftl a n)) else None.

(** [n] is [bits - j]. *)
Fixpoint setUnsigned_loop (n : nat) (p : list Z) (offset value : Z) : option (list Z) :=
  match n with
  | O => Some p
  | S n =>
      m ← shl64 1 (Z.of_nat n);
      let bitval := if Z.land value m =? 0 then 0 else 1 in
      let byte := Z.shiftr offset 3 in
      let bit := 7 - Z.land offset 7 in
      byteval ← load1 p byte;
      let byteval := Z.land byteval (u64 (Z.lnot (Z.shiftl 1 bit))) in
      let byteval := Z.lor byteval (u64 (Z.shiftl bitval bit)) in
      p ← store p byte [Z.land byteval 255];
      setUnsigned_loop n p (u64 (offset + 1)) value
  end.
Definition setUnsignedBitfield (p : list Z) (offset bits value : Z) : option (list Z) :=
  setUnsigned_loop (Z.to_nat bits) p offset value.

Definition setSignedBitfield (p : list Z) (offset bits value : Z) : option (list Z) :=
  let uv := u64 value in setUnsignedBitfield p offset bits uv.

Fixpoint getUnsigned_loop (n : nat) (p : list Z) (offset value : Z) : option Z :=
  match n with
  | O => Some value
  | S n =>
      let byte := Z.shiftr offset 3 in
      let bit := 7 - Z.land offset 7 in
      byteval ← load1 p byte;
      let bitval := Z.land (Z.shiftr byteval bit) 1 in
      getUnsigned_loop n p (u64 (offset + 1)) (Z.lor (u64 (Z.shiftl value 1)) bitval)
  end.
Definition getUnsignedBitfield (p : list Z) (offset bits : Z) : option Z :=
  getUnsigned_loop (Z.to_nat bits) p offset 0.

Definition getSignedBitfield (p : list Z) (offset bits : Z) : option Z :=
  u ← getUnsignedBitfield p offset bits;
  let value := s64 u in
  m ← shl64 1 (bits - 1);
  if Z.land (u64 value) m =? 0 then Some value
  else ext ← shl64 ULLONG_MAX bits; Some (s64 (Z.lor (u64 value) ext)).

(** ** Overflow checks

    The result is the return value and what is written to [*limit], if it is. *)
Inductive bfoverflow := BFOVERFLOW_WRAP | BFOVERFLOW_SAT | BFOVERFLOW_FAIL.

Definition checkUnsignedBitfieldOverflow (value incr bits : Z) (owtype : bfoverflow) (limit : bool) : option (Z * option Z) :=
  max ← (if bits =? 64 then Some ULLONG_MAX else m ← shl64 1 bits; Some (u64 (m - 1)));
  let maxincr := s64 (max - value) in
  let minincr := s64 (u64 (- value)) in
  let handle_wrap :=
    mask ← shl64 ULLONG_MAX bits;
    let res := u64 (value + incr) in
    let res := Z.land res (u64 (Z.lnot mask)) in
    Some (1, Some res) in
  if (value >? max) || ((incr >? 0) && (incr >? maxincr)) then
    match limit, owtype with
    | true, BFOVERFLOW_WRAP => handle_wrap
    | true, BFOVERFLOW_SAT => Some (1, Some max)
    | _, _ => Some (1, None)
    end
  else if (incr <? 0) && (incr <? minincr) then
    match limit, owtype with
    | true, BFOVERFLOW_WRAP => handle_wrap
    | true, BFOVERFLOW_SAT => Some (-1, Some 0)
    | _, _ => Some (-1, None)
    end
  else Some (0, None).

(** The two differences are computed before the range of [value] is known and
    may wrap around, as the comment in the source says. *)
Definition checkSignedBitfieldOverflow (value incr bits : Z) (owtype : bfoverflow) (limit : bool) : option (Z * option Z) :=
  max ← (if bits =? 64 then Some LLONG_MAX else m ← shl64 1 (bits - 1); Some (s64 (m - 1)));
  let min := - max - 1 in
  let maxincr := s64 (max - value) in
  let minincr := s64 (min - value) in
  let handle_wrap :=
    mask ← shl64 ULLONG_MAX bits;
    msb ← shl64 1 (bits - 1);
    let a := u64 value in
    let b := u64 incr in
    let c := u64 (a + b) in
    let c := if Z.land c msb =? 0 then Z.land c (u64 (Z.lnot mask)) else Z.lor c mask in
    Some (1, Some (s64 c)) in
  if (value >? max) || (negb (bits =? 64) && (incr >? maxincr)) || ((value >=? 0) && (incr >? 0) && (incr >? maxincr)) then
    match limit, owtype with
    | true, BFOVERFLOW_WRAP => handle_wrap
    | true, BFOVERFLOW_SAT => Some (1, Some max)
    | _, _ => Some (1, None)
    end
  else if (value <? min) || (negb (bits =? 64) && (incr <? minincr)) || ((value <? 0) && (incr <? 0) && (incr <? minincr)) then
    match limit, owtype with
    | true, BFOVERFLOW_WRAP => handle_wrap
    | true, BFOVERFLOW_SAT => Some (-1, Some min)
    | _, _ => Some (-1, None)
    end
  else Some (0, None).

(** ** Bitmaps as lists of bits *)
(** The low [n] bits of [v], the most significant first, and back. *)
Fixpoint be_bits (n : nat) (v : Z) : list bool :=
  match n with O => [] | S n => Z.testbit v (Z.of_nat n) :: be_bits n v end.
Definition be_val (l : list bool) : Z := fold_left (fun a b => 2 * a + Z.b2z b) l 0.

Definition byte_bits (b : Z) : list bool := be_bits 8 b.
Definition bits_of (p : list Z) : list bool := flat_map byte_bits p.
Definition ones (l : list bool) : Z := foldr (fun b n => Z.b2z b + n) 0 l.

Lemma bits_of_app p q : bits_of (p ++ q) = bits_of p ++ bits_of q.
Proof. apply flat_map_app. Qed.
Lemma bits_of_length p : length (bits_of p) = (8 * length p)%nat.
Proof. induction p as [|b p IH]; [done|]. change (bits_of (b :: p)) with (byte_bits b ++ bits_of p). rewrite length_app, IH. simpl. lia. Qed.
Lemma ones_app l k : ones (l ++ k) = ones l + ones k.
Proof. induction l as [|b l IH]; simpl; [done|]. rewrite IH. lia. Qed.
Lemma ones_bound l : 0 <= ones l <= zlen l.
Proof. unfold zlen. induction l as [|b l IH]; simpl; [done|]. destruct b; simpl; lia. Qed.

(** A property of bytes, by evaluation. *)
Lemma all_bytes (f : Z -> bool) :
  forallb (fun i => f (Z.of_nat i)) (seq 0 256) = true -> forall b, byte_ok b -> f b = true.
Proof.
  intros H b Hb. unfold byte_ok in Hb. rewrite forallb_forall in H. specialize (H (Z.to_nat b)).
  rewrite Z2Nat.id in H by lia. apply H, in_seq. lia.
Qed.

Definition pop8 (b : Z) : Z := ones (byte_bits b).

Lemma bib_spec b : byte_ok b -> bib b = Some (pop8 b).
Proof.
  intros Hb. apply (all_bytes (fun b => bool_decide (bib b = Some (pop8 b)))) in Hb; [by apply bool_decide_eq_true in Hb|].
  vm_compute. reflexivity.
Qed.

Lemma ones_bits_cons b l : ones (bits_of (b :: l)) = pop8 b + ones (bits_of l).
Proof. change (bits_of (b :: l)) with (byte_bits b ++ bits_of l). by rewrite ones_app. Qed.
Lemma pop8_bound b : 0 <= pop8 b <= 8.
Proof. apply (ones_bound (byte_bits b)). Qed.

(** ** Counting in parallel *)
Lemma bit_above j a n : 0 <= a < 2 ^ j -> j <= n -> Z.testbit a n = false.
Proof.
  intros Ha Hn. destruct (decide (a = 0)) as [->|]; [apply Z.bits_0|].
  assert (0 <= Z.log2 a) by apply Z.log2_nonneg. assert (Z.log2 a < j) by (apply Z.log2_lt_pow2; lia).
  apply Z.bits_above_log2; lia.
Qed.

Lemma testbit_split j a b n :
  0 <= j -> 0 <= a < 2 ^ j -> 0 <= n -> Z.testbit (a + 2 ^ j * b) n = if n <? j then Z.testbit a n else Z.testbit b (n - j).
Proof.
  intros Hj Ha Hn. destruct (Z.ltb_spec n j).
  - rewrite <- (Z.mod_pow2_bits_low _ j n), Z.mul_comm, Z.mod_add, Z.mod_small by lia. done.
  - replace n with (n - j + j) at 1 by lia. rewrite <- Z.div_pow2_bits, Z.mul_comm, Z.div_add, Z.div_small by lia. done.
Qed.

Lemma land_bound j a b : 0 <= j -> 0 <= a -> 0 <= b < 2 ^ j -> 0 <= Z.land a b < 2 ^ j.
Proof.
  intros Hj Ha Hb. rewrite <- (Z.mod_small b (2 ^ j)), <- Z.land_ones, Z.land_assoc, Z.land_ones by lia.
  apply Z.mod_pos_bound. lia.
Qed.

Lemma land_split j lo hi ml mh :
  0 <= j -> 0 <= lo < 2 ^ j -> 0 <= ml < 2 ^ j ->
  Z.land (lo + 2 ^ j * hi) (ml + 2 ^ j * mh) = Z.land lo ml + 2 ^ j * Z.land hi mh.
Proof.
  intros Hj Hlo Hml. apply Z.bits_inj'. intros n Hn.
  rewrite Z.land_spec, !testbit_split by (done || (apply land_bound; lia)). rewrite !Z.land_spec.
  by destruct (n <? j).
Qed.

(** A shifted byte under a mask that drops the bits of the next byte. *)
Lemma mask_split k lo hi ml mh :
  0 <= k <= 8 -> 0 <= lo < 256 -> 0 <= ml < 2 ^ (8 - k) ->
  Z.land (Z.shiftr (lo + 256 * hi) k) (ml + 256 * mh) = Z.land (Z.shiftr lo k) ml + 256 * Z.land (Z.shiftr hi k) mh.
Proof.
  intros Hk Hlo Hml. assert (E : 2 ^ 8 = 2 ^ (8 - k) * 2 ^ k) by (rewrite <- Z.pow_add_r by lia; f_equal; lia).
  assert (0 < 2 ^ k) by lia. assert (0 < 2 ^ (8 - k)) by lia. change 256 with (2 ^ 8) in *.
  rewrite !Z.shiftr_div_pow2 by lia.
  assert (Ew : (lo + 2 ^ 8 * hi) / 2 ^ k = (lo / 2 ^ k + 2 ^ (8 - k) * (hi mod 2 ^ k)) + 2 ^ 8 * (hi / 2 ^ k)).
  { rewrite E, <- Z.mul_assoc, (Z.mul_comm (2 ^ k)), Z.mul_assoc, Z.div_add by lia.
    rewrite (Z.div_mod hi (2 ^ k)) at 1 by lia. lia. }
  rewrite Ew. pose proof (Z.mod_pos_bound hi (2 ^ k) ltac:(lia)).
  assert (0 <= lo / 2 ^ k < 2 ^ (8 - k)) by (split; [apply Z.div_pos; lia|apply Z.div_lt_upper_bound; lia]).
  rewrite land_split; [|lia|nia|nia]. f_equal.
  replace ml with (ml + 2 ^ (8 - k) * 0) at 1 by lia. rewrite land_split by lia. rewrite Z.land_0_r. lia.
Qed.

Lemma mask_word k b0 b1 b2 b3 m :
  0 <= k <= 8 -> byte_ok b0 -> byte_ok b1 -> byte_ok b2 -> byte_ok b3 -> 0 <= m < 2 ^ (8 - k) ->
  Z.land (Z.shiftr (b0 + 256 * (b1 + 256 * (b2 + 256 * b3))) k) (m + 256 * (m + 256 * (m + 256 * m))) =
  Z.land (Z.shiftr b0 k) m + 256 * (Z.land (Z.shiftr b1 k) m + 256 * (Z.land (Z.shiftr b2 k) m + 256 * Z.land (Z.shiftr b3 k) m)).
Proof. unfold byte_ok. intros. by rewrite !mask_split. Qed.

(** The two steps on one byte. *)
Definition byte_pairs (b : Z) : Z := b - Z.land (Z.shiftr b 1) 0x55.
Definition byte_nibbles (b : Z) : Z := Z.land (byte_pairs b) 0x33 + Z.land (Z.shiftr (byte_pairs b) 2) 0x33.

Lemma byte_pairs_ok b : byte_ok b -> byte_ok (byte_pairs b).
Proof.
  intros Hb. apply (all_bytes (fun b => (0 <=? byte_pairs b) && (byte_pairs b <? 256))) in Hb; [zb; unfold byte_ok; lia|].
  vm_compute. reflexivity.
Qed.
Lemma byte_nibbles_ok b : byte_ok b ->
  exists lo hi, byte_nibbles b = lo + 16 * hi /\ 0 <= lo <= 4 /\ 0 <= hi <= 4 /\ lo + hi = pop8 b.
Proof.
  intros Hb. exists (byte_nibbles b mod 16), (byte_nibbles b / 16).
  apply (all_bytes (fun b => (byte_nibbles b mod 16 <=? 4) && (0 <=? byte_nibbles b mod 16) && (0 <=? byte_nibbles b / 16)
    && (byte_nibbles b / 16 <=? 4) && (byte_nibbles b mod 16 + byte_nibbles b / 16 =? pop8 b))) in Hb; [|vm_compute; reflexivity].
  zb. split; [|lia]. pose proof (Z.div_mod (byte_nibbles b) 16). lia.
Qed.

Lemma aux_step_spec b0 b1 b2 b3 :
  byte_ok b0 -> byte_ok b1 -> byte_ok b2 -> byte_ok b3 ->
  aux_step (b0 + 256 * (b1 + 256 * (b2 + 256 * b3))) =
  byte_nibbles b0 + 256 * (byte_nibbles b1 + 256 * (byte_nibbles b2 + 256 * byte_nibbles b3)).
Proof.
  intros H0 H1 H2 H3. unfold aux_step.
  assert (E1 := mask_word 1 b0 b1 b2 b3 0x55 ltac:(lia) H0 H1 H2 H3 ltac:(lia)).
  change (0x55 + 256 * (0x55 + 256 * (0x55 + 256 * 0x55))) with 0x55555555 in E1. rewrite E1.
  pose proof (byte_pairs_ok b0 H0) as P0. pose proof (byte_pairs_ok b1 H1) as P1.
  pose proof (byte_pairs_ok b2 H2) as P2. pose proof (byte_pairs_ok b3 H3) as P3.
  match goal with |- context [u32 (?a - ?b)] => replace (a - b) with
    (byte_pairs b0 + 256 * (byte_pairs b1 + 256 * (byte_pairs b2 + 256 * byte_pairs b3))) by (unfold byte_pairs; lia) end.
  rewrite (wrapu_small 32 (_ + _ * (_ + _ * (_ + _ * byte_pairs b3)))) by (unfold byte_ok in *; plia).
  assert (E2 := mask_word 0 (byte_pairs b0) (byte_pairs b1) (byte_pairs b2) (byte_pairs b3) 0x33 ltac:(lia) P0 P1 P2 P3 ltac:(lia)).
  assert (E3 := mask_word 2 (byte_pairs b0) (byte_pairs b1) (byte_pairs b2) (byte_pairs b3) 0x33 ltac:(lia) P0 P1 P2 P3 ltac:(lia)).
  change (0x33 + 256 * (0x33 + 256 * (0x33 + 256 * 0x33))) with 0x33333333 in E2, E3. rewrite !Z.shiftr_0_r in E2. rewrite E2, E3.
  match goal with |- u32 (?a + ?b) = ?c => replace (a + b) with c by (unfold byte_nibbles; lia) end.
  destruct (byte_nibbles_ok b0 H0) as (? & ? & -> & ? & ? & _), (byte_nibbles_ok b1 H1) as (? & ? & -> & ? & ? & _).
  destruct (byte_nibbles_ok b2 H2) as (? & ? & -> & ? & ? & _), (byte_nibbles_ok b3 H3) as (? & ? & -> & ? & ? & _).
  apply wrapu_small. plia.
Qed.

Lemma land_nibble lo hi ml mh : 0 <= lo < 16 -> 0 <= ml < 16 -> Z.land (lo + 16 * hi) (ml + 16 * mh) = Z.land lo ml + 16 * Z.land hi mh.
Proof. apply (land_split 4). lia. Qed.

Lemma aux_nibbles_spec b0 b1 b2 b3 :
  byte_ok b0 -> byte_ok b1 -> byte_ok b2 -> byte_ok b3 ->
  aux_nibbles (aux_step (b0 + 256 * (b1 + 256 * (b2 + 256 * b3)))) =
  pop8 b0 + 256 * (pop8 b1 + 256 * (pop8 b2 + 256 * pop8 b3)).
Proof.
  intros H0 H1 H2 H3. rewrite aux_step_spec by done. unfold aux_nibbles.
  destruct (byte_nibbles_ok b0 H0) as (l0 & h0 & -> & ? & ? & <-), (byte_nibbles_ok b1 H1) as (l1 & h1 & -> & ? & ? & <-).
  destruct (byte_nibbles_ok b2 H2) as (l2 & h2 & -> & ? & ? & <-), (byte_nibbles_ok b3 H3) as (l3 & h3 & -> & ? & ? & <-).
  rewrite Z.shiftr_div_pow2 by lia. change (2 ^ 4) with 16.
  assert (E : (l0 + 16 * h0 + 256 * (l1 + 16 * h1 + 256 * (l2 + 16 * h2 + 256 * (l3 + 16 * h3)))) / 16 =
              h0 + 16 * (l1 + 16 * (h1 + 16 * (l2 + 16 * (h2 + 16 * (l3 + 16 * h3)))))) by
    (symmetry; apply (Z.div_unique_pos _ _ _ l0); lia).
  rewrite E. rewrite wrapu_small by plia.
  match goal with |- Z.land ?a _ = _ => replace a with
    ((l0 + h0) + 16 * ((h0 + l1) + 16 * ((l1 + h1) + 16 * ((h1 + l2) + 16 * ((l2 + h2) + 16 * ((h2 + l3) + 16 * ((l3 + h3) + 16 * h3))))))) by lia end.
  change 0x0F0F0F0F with (15 + 16 * (0 + 16 * (15 + 16 * (0 + 16 * (15 + 16 * (0 + 16 * (15 + 16 * 0))))))).
  rewrite !land_nibble by lia. change 15 with (Z.ones 4). rewrite !Z.land_ones, !Z.land_0_r by lia. rewrite !Z.mod_small by (change (2 ^ 4) with 16; lia). lia.
Qed.

(** A word whose four bytes count the bits of [x]. *)
Definition counts (w n : Z) : Prop :=
  exists p0 p1 p2 p3, w = p0 + 256 * (p1 + 256 * (p2 + 256 * p3)) /\
    0 <= p0 <= 8 /\ 0 <= p1 <= 8 /\ 0 <= p2 <= 8 /\ 0 <= p3 <= 8 /\ p0 + p1 + p2 + p3 = n.

Lemma aux_counts be x : bytes_ok x -> length x = 4%nat -> counts (aux_nibbles (aux_step (native_val be x))) (ones (bits_of x)).
Proof.
  intros Hx Hl. destruct x as [|b0 [|b1 [|b2 [|b3 [|? ?]]]]]; try done.
  repeat match goal with H : bytes_ok (_ :: _) |- _ => apply Forall_cons in H as [? H] end.
  assert (E : native_val be [b0; b1; b2; b3] =
    if be then b3 + 256 * (b2 + 256 * (b1 + 256 * b0)) else b0 + 256 * (b1 + 256 * (b2 + 256 * b3)))
    by (destruct be; unfold native_val; simpl; lia).
  pose proof (pop8_bound b0). pose proof (pop8_bound b1). pose proof (pop8_bound b2). pose proof (pop8_bound b3).
  rewrite E. rewrite !ones_bits_cons. cbn [bits_of flat_map ones foldr]. destruct be; rewrite aux_nibbles_spec by done;
    eexists _, _, _, _; (split; [reflexivity|lia]).
Qed.

Lemma word32_counts be l i :
  bytes_ok l -> 0 <= i -> 4 * i + 4 <= zlen l ->
  exists w, word32 be l i = Some w /\ counts (aux_nibbles (aux_step w)) (ones (bits_of (take 4 (drop (Z.to_nat (4 * i)) l)))).
Proof.
  intros Hl Hi Hn. unfold word32, load.
  replace (_ && _) with true by (symmetry; rewrite !andb_true_iff, !Z.leb_le; lia).
  eexists. split; [reflexivity|]. apply aux_counts; [by apply Forall_take, Forall_drop|].
  unfold zlen in *. rewrite length_take, length_drop. lia.
Qed.

Lemma take_28 (l : list Z) : take 28 l =
  take 4 (drop 0 l) ++ take 4 (drop 4 l) ++ take 4 (drop 8 l) ++ take 4 (drop 12 l) ++ take 4 (drop 16 l) ++ take 4 (drop 20 l) ++ take 4 (drop 24 l).
Proof.
  assert (H : forall n m, take (n + m) l = take n l ++ take m (drop n l)) by (intros; by rewrite take_take_drop).
  rewrite drop_0, (H 24%nat 4%nat : take 28 l = _), (H 20%nat 4%nat : take 24 l = _), (H 16%nat 4%nat : take 20 l = _).
  rewrite (H 12%nat 4%nat : take 16 l = _), (H 8%nat 4%nat : take 12 l = _), (H 4%nat 4%nat : take 8 l = _).
  by rewrite <- !app_assoc.
Qed.

Lemma popcount_28_spec be l : bytes_ok l -> 28 <= zlen l -> popcount_28 be l = Some (ones (bits_of (take 28 l))).
Proof.
  intros Hl Hn. unfold popcount_28.
  destruct (word32_counts be l 0 Hl) as (w0 & -> & C0); [lia|lia|]. destruct (word32_counts be l 1 Hl) as (w1 & -> & C1); [lia|lia|].
  destruct (word32_counts be l 2 Hl) as (w2 & -> & C2); [lia|lia|]. destruct (word32_counts be l 3 Hl) as (w3 & -> & C3); [lia|lia|].
  destruct (word32_counts be l 4 Hl) as (w4 & -> & C4); [lia|lia|]. destruct (word32_counts be l 5 Hl) as (w5 & -> & C5); [lia|lia|].
  destruct (word32_counts be l 6 Hl) as (w6 & -> & C6); [lia|lia|]. cbn [mbind option_bind]. f_equal.
  rewrite take_28, !bits_of_app, !ones_app.
  change (Z.to_nat (4 * 0)) with 0%nat in C0. change (Z.to_nat (4 * 1)) with 4%nat in C1. change (Z.to_nat (4 * 2)) with 8%nat in C2.
  change (Z.to_nat (4 * 3)) with 12%nat in C3. change (Z.to_nat (4 * 4)) with 16%nat in C4. change (Z.to_nat (4 * 5)) with 20%nat in C5.
  change (Z.to_nat (4 * 6)) with 24%nat in C6.
  destruct C0 as (a0 & a1 & a2 & a3 & -> & ? & ? & ? & ? & <-), C1 as (b0 & b1 & b2 & b3 & -> & ? & ? & ? & ? & <-).
  destruct C2 as (c0 & c1 & c2 & c3 & -> & ? & ? & ? & ? & <-), C3 as (d0 & d1 & d2 & d3 & -> & ? & ? & ? & ? & <-).
  destruct C4 as (e0 & e1 & e2 & e3 & -> & ? & ? & ? & ? & <-), C5 as (f0 & f1 & f2 & f3 & -> & ? & ? & ? & ? & <-).
  destruct C6 as (g0 & g1 & g2 & g3 & -> & ? & ? & ? & ? & <-).
  repeat match goal with |- context [u32 (?a + ?b)] =>
    lazymatch a with context [wrapu] => fail | _ => rewrite (wrapu_small 32 (a + b)) by plia end end.
  match goal with |- Z.shiftr (u32 (?s * _)) 24 = _ => replace s with
    ((a0 + b0 + c0 + d0 + e0 + f0 + g0) + 256 * ((a1 + b1 + c1 + d1 + e1 + f1 + g1) + 256 * ((a2 + b2 + c2 + d2 + e2 + f2 + g2) + 256 * (a3 + b3 + c3 + d3 + e3 + f3 + g3)))) by lia end.
  set (x0 := a0 + b0 + c0 + d0 + e0 + f0 + g0) in *. set (x1 := a1 + b1 + c1 + d1 + e1 + f1 + g1) in *.
  set (x2 := a2 + b2 + c2 + d2 + e2 + f2 + g2) in *. set (x3 := a3 + b3 + c3 + d3 + e3 + f3 + g3) in *.
  transitivity (x0 + x1 + x2 + x3); [|lia].
  assert (0 <= x0 <= 56) by lia. assert (0 <= x1 <= 56) by lia. assert (0 <= x2 <= 56) by lia. assert (0 <= x3 <= 56) by lia.
  clearbody x0 x1 x2 x3. unfold wrapu. rewrite Z.shiftr_div_pow2 by lia. zpow.
  assert (Em : ((x0 + 256 * (x1 + 256 * (x2 + 256 * x3))) * 16843009) mod 4294967296 =
    x0 + 256 * (x0 + x1) + 65536 * (x0 + x1 + x2) + 16777216 * (x0 + x1 + x2 + x3)).
  { symmetry. apply (Z.mod_unique_pos _ _ ((x1 + x2 + x3) + 256 * (x2 + x3) + 65536 * x3)); lia. }
  rewrite Em. symmetry. apply (Z.div_unique_pos _ _ _ (x0 + 256 * (x0 + x1) + 65536 * (x0 + x1 + x2))); lia.
Qed.

Lemma popcount_align_spec addr bits l :
  bytes_ok l -> 0 <= bits -> bits + 8 * zlen l < 2 ^ 64 ->
  exists l1 l2, l = l1 ++ l2 /\ popcount_align addr bits l = Some (bits + ones (bits_of l1), l2).
Proof.
  revert addr bits. induction l as [|b l IH]; intros addr bits Hl Hb Hn; simpl.
  - exists [], []. split; [done|]. simpl. do 2 f_equal. lia.
  - destruct (Z.land addr 3 =? 0); [exists [], (b :: l); split; [done|]; simpl; do 2 f_equal; lia|].
    apply Forall_cons in Hl as [Hb0 Hl]. rewrite bib_spec by done. cbn [mbind option_bind].
    pose proof (pop8_bound b). rewrite zlen_cons in Hn. pose proof (zlen_nonneg l). rewrite (wrapu_small 64 (bits + pop8 b)) by lia.
    destruct (IH (u64 (addr + 1)) (bits + pop8 b)) as (l1 & l2 & -> & ->); [done|lia|lia|].
    exists (b :: l1), l2. split; [done|]. rewrite ones_bits_cons. do 2 f_equal. lia.
Qed.

Lemma popcount_words_spec be fuel bits l :
  (length l <= fuel)%nat -> bytes_ok l -> 0 <= bits -> bits + 8 * zlen l < 2 ^ 64 ->
  exists l1 l2, l = l1 ++ l2 /\ popcount_words be fuel bits l = Some (bits + ones (bits_of l1), l2).
Proof.
  revert bits l. induction fuel as [|fuel IH]; intros bits l Hf Hl Hb Hn; simpl.
  - destruct (Z.leb_spec 28 (zlen l)); [unfold zlen in *; lia|]. exists [], l. split; [done|]. simpl. do 2 f_equal. lia.
  - destruct (Z.leb_spec 28 (zlen l)); [|exists [], l; split; [done|]; simpl; do 2 f_equal; lia].
    rewrite popcount_28_spec by done. cbn [mbind option_bind].
    pose proof (ones_bound (bits_of (take 28 l))) as Ho.
    assert (Ht : zlen (bits_of (take 28 l)) = 224) by (unfold zlen in *; rewrite bits_of_length, length_take; lia).
    assert (Hd : zlen (drop 28 l) = zlen l - 28) by (unfold zlen in *; rewrite length_drop; lia).
    rewrite (wrapu_small 64 (bits + _)) by lia.
    destruct (IH (bits + ones (bits_of (take 28 l))) (drop 28 l)) as (l1 & l2 & E & ->);
      [unfold zlen in *; lia|by apply Forall_drop|lia|lia|].
    exists (take 28 l ++ l1), l2. split; [by rewrite <- app_assoc, <- E, take_drop|]. rewrite bits_of_app, ones_app. do 2 f_equal. lia.
Qed.

Lemma popcount_bytes_spec bits l :
  bytes_ok l -> 0 <= bits -> bits + 8 * zlen l < 2 ^ 64 -> popcount_bytes bits l = Some (bits + ones (bits_of l)).
Proof.
  revert bits. induction l as [|b l IH]; intros bits Hl Hb Hn; simpl; [f_equal; lia|].
  apply Forall_cons in Hl as [Hb0 Hl]. rewrite bib_spec by done. cbn [mbind option_bind].
  pose proof (pop8_bound b). rewrite zlen_cons in Hn. pose proof (zlen_nonneg l). rewrite (wrapu_small 64 (bits + pop8 b)) by lia.
  rewrite IH by (done || lia). f_equal. change (flat_map byte_bits l) with (bits_of l). 
  transitivity (bits + ones (bits_of (b :: l))); [rewrite ones_bits_cons; lia|reflexivity].
Qed.

Lemma popcount_spec be addr s :
  bytes_ok s -> zlen s < 2 ^ 60 -> redisPopcount be addr s = Some (ones (bits_of s)).
Proof.
  intros Hs Hn. unfold redisPopcount.
  destruct (popcount_align_spec addr 0 s) as (l1 & l2 & -> & ->); [done|lia|lia|]. cbn [mbind option_bind].
  apply Forall_app in Hs as [H1 H2]. rewrite zlen_app in Hn. pose proof (zlen_nonneg l1). pose proof (zlen_nonneg l2).
  pose proof (ones_bound (bits_of l1)) as B1. assert (zlen (bits_of l1) = 8 * zlen l1) by (unfold zlen; rewrite bits_of_length; lia).
  destruct (popcount_words_spec be (length l2) (0 + ones (bits_of l1)) l2) as (l3 & l4 & -> & ->); [lia|done|lia|lia|].
  cbn [mbind option_bind]. apply Forall_app in H2 as [Hb3 Hb4]. rewrite zlen_app in *. pose proof (zlen_nonneg l3). pose proof (zlen_nonneg l4).
  pose proof (ones_bound (bits_of l3)) as B3. assert (zlen (bits_of l3) = 8 * zlen l3) by (unfold zlen; rewrite bits_of_length; lia).
  rewrite popcount_bytes_spec by (done || lia). rewrite !bits_of_app, !ones_app. f_equal. lia.
Qed.

(** ** Searching *)
Fixpoint bit_index (b : bool) (l : list bool) : option Z :=
  match l with [] => None | x :: l => if Bool.eqb x b then Some 0 else Z.succ <$> bit_index b l end.

(** What [redisBitpos] promises. *)
Definition bitpos_result (bit : bool) (s : list Z) : Z :=
  match bit_index bit (bits_of s) with Some i => i | None => if bit then -1 else 8 * zlen s end.

Lemma bit_index_app b l k :
  bit_index b (l ++ k) = match bit_index b l with Some i => Some i | None => Z.add (zlen l) <$> bit_index b k end.
Proof.
  induction l as [|x l IH]; simpl; [by destruct (bit_index b k)|]. destruct (Bool.eqb x b); [done|]. rewrite IH.
  destruct (bit_index b l); [done|]. destruct (bit_index b k); [|done]. simpl. f_equal. rewrite zlen_cons. lia.
Qed.
Lemma bit_index_bound b l i : bit_index b l = Some i -> 0 <= i < zlen l.
Proof.
  revert i. induction l as [|x l IH]; intros i; simpl; [done|]. rewrite zlen_cons. pose proof (zlen_nonneg l).
  destruct (Bool.eqb x b); [intros [= <-]; lia|]. destruct (bit_index b l) as [j|]; [|done]. intros [= <-].
  specialize (IH j eq_refl). lia.
Qed.
Lemma bit_index_none b l : bit_index b l = None <-> Forall (fun x => x = negb b) l.
Proof.
  induction l as [|x l IH]; simpl; [split; constructor|]. rewrite Forall_cons, <- IH.
  destruct (bit_index b l); destruct x, b; simpl; naive_solver.
Qed.
Lemma bit_index_take b n l :
  bit_index b (take n l) = match bit_index b l with Some i => if i <? Z.of_nat n then Some i else None | None => None end.
Proof.
  revert n. induction l as [|x l IH]; intros n; [by rewrite take_nil|]. destruct n as [|n].
  - cbn [take bit_index]. destruct (Bool.eqb x b); [done|]. destruct (bit_index b l) as [i|] eqn:E; [|done]. apply bit_index_bound in E.
    cbn [fmap option_fmap option_map]. destruct (Z.ltb_spec (Z.succ i) (Z.of_nat 0)); [lia|done].
  - cbn [take bit_index]. destruct (Bool.eqb x b); [done|].
    rewrite IH. destruct (bit_index b l) as [i|]; [|done]. cbn [fmap option_fmap option_map].
    destruct (Z.ltb_spec i (Z.of_nat n)), (Z.ltb_spec (Z.succ i) (Z.of_nat (S n))); simpl; try done; lia.
Qed.

Lemma be_bits_length n v : length (be_bits n v) = n.
Proof. induction n; simpl; auto. Qed.
Lemma be_bits_low k v w : 0 <= w < 2 ^ Z.of_nat k -> forall n, (n <= k)%nat -> be_bits n (w + 2 ^ Z.of_nat k * v) = be_bits n w.
Proof.
  intros Hw. induction n as [|n IH]; intros Hn; [done|]. simpl. rewrite IH by lia. f_equal.
  rewrite testbit_split by lia. destruct (Z.ltb_spec (Z.of_nat n) (Z.of_nat k)); [done|lia].
Qed.
Lemma be_bits_app n k v w : 0 <= w < 2 ^ Z.of_nat k -> be_bits (n + k) (w + 2 ^ Z.of_nat k * v) = be_bits n v ++ be_bits k w.
Proof.
  intros Hw. induction n as [|n IH]; simpl; [by apply be_bits_low|]. rewrite IH. f_equal.
  rewrite testbit_split by lia. destruct (Z.ltb_spec (Z.of_nat (n + k)) (Z.of_nat k)); [lia|]. f_equal. lia.
Qed.

Lemma fold_be_val l a : fold_left (fun a b => 2 * a + Z.b2z b) l a = a * 2 ^ zlen l + be_val l.
Proof.
  unfold be_val. revert a. induction l as [|b l IH]; intros a; cbn [fold_left]; [unfold zlen; simpl; lia|].
  rewrite IH, (IH (2 * 0 + Z.b2z b)), zlen_cons. pose proof (zlen_nonneg l). rewrite Z.pow_add_r by lia. lia.
Qed.
Lemma be_val_cons b l : be_val (b :: l) = Z.b2z b * 2 ^ zlen l + be_val l.
Proof. unfold be_val at 1. cbn [fold_left]. rewrite fold_be_val. f_equal. Qed.
Lemma be_val_app l k : be_val (l ++ k) = be_val l * 2 ^ zlen k + be_val k.
Proof. unfold be_val at 1. rewrite fold_left_app. apply fold_be_val. Qed.
Lemma be_val_bound l : 0 <= be_val l < 2 ^ zlen l.
Proof.
  induction l as [|b l IH]; [done|]. rewrite be_val_cons, zlen_cons. pose proof (zlen_nonneg l).
  rewrite Z.pow_add_r by lia. destruct b; simpl; lia.
Qed.
Lemma be_val_bits n v : be_val (be_bits n v) = wrapu (Z.of_nat n) v.
Proof.
  unfold wrapu. induction n as [|n IH]; [simpl; by rewrite Z.mod_1_r|]. simpl be_bits. rewrite be_val_cons, IH. unfold zlen. rewrite be_bits_length.
  rewrite Nat2Z.inj_succ, Z.pow_succ_r, (Z.mul_comm 2), Z.rem_mul_r by lia.
  rewrite <- (Z.testbit_spec' v (Z.of_nat n)) by lia. lia.
Qed.
Lemma be_bits_val l : be_bits (length l) (be_val l) = l.
Proof.
  induction l as [|b l IH]; [done|]. cbn [length be_bits]. pose proof (be_val_bound l) as Hb.
  rewrite be_val_cons. unfold zlen in *. rewrite Z.add_comm, (Z.mul_comm (Z.b2z b)). f_equal; [|by rewrite be_bits_low by (done || lia)].
  rewrite testbit_split by (done || lia). destruct (Z.ltb_spec (Z.of_nat (length l)) (Z.of_nat (length l))); [lia|].
  rewrite Z.sub_diag. by destruct b.
Qed.

Lemma land_pow2 k w : 0 <= k -> (Z.land (2 ^ k) w =? 0) = negb (Z.testbit w k).
Proof.
  intros Hk. destruct (Z.testbit w k) eqn:E.
  - apply Z.eqb_neq. intros H. assert (T : Z.testbit (Z.land (2 ^ k) w) k = true) by (by rewrite Z.land_spec, Z.pow2_bits_true, E).
    by rewrite H, Z.bits_0 in T.
  - apply Z.eqb_eq, Z.bits_inj'. intros n Hn. rewrite Z.land_spec, Z.bits_0, Z.pow2_bits_eqb by lia.
    destruct (Z.eqb_spec k n) as [->|]; [by rewrite E|done].
Qed.

Lemma bitpos_scan_spec k fuel word bit pos :
  (k + 2 <= fuel)%nat -> bitpos_scan fuel (2 ^ Z.of_nat k) word bit pos = Z.add pos <$> bit_index bit (be_bits (S k) word).
Proof.
  revert fuel pos. induction k as [|k IH]; intros fuel pos Hf; (destruct fuel as [|fuel]; [lia|]); cbn [bitpos_scan be_bits bit_index].
  all: rewrite land_pow2, negb_involutive by lia.
  all: match goal with |- context [2 ^ Z.of_nat ?k =? 0] => destruct (Z.eqb_spec (2 ^ Z.of_nat k) 0); [pose proof (Z.pow_pos_nonneg 2 (Z.of_nat k)); lia|] end.
  - destruct (Bool.eqb _ bit); [simpl; f_equal; lia|]. destruct fuel as [|fuel]; [lia|]. done.
  - destruct (Bool.eqb (Z.testbit word (Z.of_nat (S k))) bit); [simpl; f_equal; lia|].
    replace (Z.shiftr (2 ^ Z.of_nat (S k)) 1) with (2 ^ Z.of_nat k).
    + rewrite IH by lia. cbn [be_bits bit_index].
      destruct (Bool.eqb (Z.testbit word (Z.of_nat k)) bit); [simpl; f_equal; lia|].
      destruct (bit_index bit (be_bits k word)); simpl; f_equal; lia.
    + rewrite Z.shiftr_div_pow2, Nat2Z.inj_succ, Z.pow_succ_r, Z.mul_comm, Z.div_mul by lia. done.
Qed.

Lemma bitpos_load_spec j m word l :
  (m + j <= 8)%nat -> bytes_ok l -> 0 <= word < 2 ^ Z.of_nat (8 * m) ->
  0 <= bitpos_load j word l < 2 ^ Z.of_nat (8 * (m + j)) /\
  be_bits (8 * (m + j)) (bitpos_load j word l) = be_bits (8 * m) word ++ take (8 * j) (bits_of l ++ replicate (8 * j) false).
Proof.
  revert m word l. induction j as [|j IH]; intros m word l Hm Hl Hw; cbn [bitpos_load].
  - rewrite Nat.add_0_r, Nat.mul_0_r, take_0, app_nil_r. done.
  - assert (E2 : 2 ^ Z.of_nat (8 * S m) = 256 * 2 ^ Z.of_nat (8 * m)).
    { replace (Z.of_nat (8 * S m)) with (8 + Z.of_nat (8 * m)) by lia. rewrite Z.pow_add_r by lia. done. }
    assert (Hs : u64 (Z.shiftl word 8) = 2 ^ 8 * word).
    { rewrite Z.shiftl_mul_pow2, wrapu_small, Z.mul_comm by (try split; zpow; try lia;
        assert (2 ^ Z.of_nat (8 * S m) <= 2 ^ 64) by (apply Z.pow_le_mono_r; lia); zpow; lia). done. }
    rewrite Hs.
    assert (Hor : forall b, byte_ok b -> Z.lor (2 ^ 8 * word) b = b + 2 ^ Z.of_nat 8 * word).
    { intros b Hb. unfold byte_ok in Hb. apply Z.bits_inj'. intros n Hn. rewrite Z.lor_spec.
      change (2 ^ 8 * word) with (2 ^ Z.of_nat 8 * word). rewrite testbit_split by lia.
      replace (2 ^ Z.of_nat 8 * word) with (0 + 2 ^ Z.of_nat 8 * word) by lia. rewrite testbit_split, Z.bits_0 by lia.
      destruct (Z.ltb_spec n (Z.of_nat 8)); [done|]. by rewrite (bit_above 8 b) by lia; rewrite orb_false_r. }
    assert (Hstep : forall b l', byte_ok b -> bytes_ok l' ->
      0 <= bitpos_load j (b + 2 ^ Z.of_nat 8 * word) l' < 2 ^ Z.of_nat (8 * (m + S j)) /\
      be_bits (8 * (m + S j)) (bitpos_load j (b + 2 ^ Z.of_nat 8 * word) l') =
        be_bits (8 * m) word ++ byte_bits b ++ take (8 * j) (bits_of l' ++ replicate (8 * j) false)).
    { intros b l' Hb Hl'. unfold byte_ok in Hb.
      destruct (IH (S m) (b + 2 ^ Z.of_nat 8 * word) l') as [IHb IHe]; [lia|done|change (2 ^ Z.of_nat 8) with 256; lia|].
      replace (m + S j)%nat with (S m + j)%nat by lia. split; [done|]. rewrite IHe.
      replace (8 * S m)%nat with (8 * m + 8)%nat by lia. rewrite be_bits_app by (change (2 ^ Z.of_nat 8) with 256; lia).
      by rewrite <- app_assoc. }
    replace (8 * S j)%nat with (8 + 8 * j)%nat by lia.
    destruct l as [|b l].
    + destruct (Hstep 0 []) as [H1 H2]; [unfold byte_ok; lia|constructor|]. change (0 + 2 ^ Z.of_nat 8 * word) with (2 ^ 8 * word) in *.
      split; [done|]. rewrite H2. done.
    + apply Forall_cons in Hl as [Hb Hl]. rewrite Hor by done. destruct (Hstep b l Hb Hl) as [H1 H2]. split; [done|]. rewrite H2. f_equal.
      change (bits_of (b :: l)) with (byte_bits b ++ bits_of l). rewrite <- app_assoc.
      rewrite take_app_add' by done. f_equal. rewrite !take_app, !take_replicate. do 2 f_equal. lia.
Qed.

Lemma bitpos_load_bits l : bytes_ok l ->
  0 <= bitpos_load 8 0 l < 2 ^ 64 /\ be_bits 64 (bitpos_load 8 0 l) = take 64 (bits_of l ++ replicate 64 false).
Proof. intros Hl. destruct (bitpos_load_spec 8 0 0 l) as [H1 H2]; [lia|done|simpl; lia|]. done. Qed.

(** A byte the loops skip has no bit of the kind that is looked for. *)
Definition skip8 (bit : bool) : Z := if bit then 0 else UCHAR_MAX.
Lemma skip8_index bit l : Forall (eq (skip8 bit)) l -> bit_index bit (bits_of l) = None.
Proof.
  induction 1 as [|b l <- _ IH]; [done|]. change (bits_of (skip8 bit :: l)) with (byte_bits (skip8 bit) ++ bits_of l).
  rewrite bit_index_app, IH. by destruct bit.
Qed.
Lemma not_skip8_index bit b : byte_ok b -> b <> skip8 bit -> bit_index bit (byte_bits b) <> None.
Proof.
  intros Hb Hne. apply (all_bytes (fun b => bool_decide (b = skip8 bit \/ bit_index bit (byte_bits b) <> None))) in Hb.
  - apply bool_decide_eq_true in Hb. naive_solver.
  - destruct bit; vm_compute; reflexivity.
Qed.

Lemma bitpos_align_spec addr bit pos l :
  exists l1 l2 found, bitpos_align addr (skip8 bit) pos l = (found, pos + 8 * zlen l1, l2) /\ l = l1 ++ l2 /\
    Forall (eq (skip8 bit)) l1 /\ (found = true -> exists b l3, l2 = b :: l3 /\ b <> skip8 bit).
Proof.
  revert addr pos. induction l as [|b l IH]; intros addr pos; simpl.
  - exists [], [], false. split; [f_equal; f_equal; unfold zlen; simpl; lia|]. split; [done|]. split; [constructor|done].
  - destruct (Z.land addr 7 =? 0).
    { exists [], (b :: l), false. split; [f_equal; f_equal; unfold zlen; simpl; lia|]. split; [done|]. split; [constructor|done]. }
    destruct (Z.eqb_spec b (skip8 bit)) as [->|Hne]; simpl.
    + destruct (IH (u64 (addr + 1)) (pos + 8)) as (l1 & l2 & found & -> & -> & H1 & H2). exists (skip8 bit :: l1), l2, found.
      split; [f_equal; f_equal; rewrite zlen_cons; lia|]. split; [done|]. split; [by constructor|done].
    + exists [], (b :: l), true. split; [f_equal; f_equal; unfold zlen; simpl; lia|]. split; [done|]. split; [constructor|eauto].
Qed.

Lemma native_skip be (bit : bool) x : bytes_ok x -> length x = 8%nat ->
  native_val be x = (if bit then 0 else ULONG_MAX) <-> Forall (eq (skip8 bit)) x.
Proof.
  intros Hx Hl. assert (Hr : native_val be x = native_val be (repeat (skip8 bit) 8) <-> x = repeat (skip8 bit) 8).
  { split; [|by intros ->]. unfold native_val. intros H.
    assert (Hi : forall a b : list Z, bytes_ok a -> bytes_ok b -> length a = length b -> le_val a = le_val b -> a = b)
      by (intros a b Ha Hb Hab Hv; rewrite <- (le_bytes_le_val a), <- (le_bytes_le_val b), Hab, Hv by done; done).
    assert (Hs : bytes_ok (repeat (skip8 bit) 8))
      by (apply Forall_forall; intros y Hy; apply list_elem_of_In, repeat_spec in Hy as ->; unfold byte_ok; by destruct bit).
    destruct be; [apply Hi in H|apply Hi in H]; try done; [|by apply Forall_rev|by rewrite !length_rev].
    by rewrite <- (rev_involutive x), H, rev_involutive. }
  replace (if bit then 0 else ULONG_MAX) with (native_val be (repeat (skip8 bit) 8)) by (destruct be, bit; reflexivity).
  rewrite Hr. split; [intros ->; apply Forall_forall; intros y Hy; by apply list_elem_of_In, repeat_spec in Hy|].
  intros H. clear Hr Hx. rewrite <- Hl. clear Hl. induction H as [|b l <- _ IH]; [done|]. cbn [length repeat]. by rewrite <- IH.
Qed.

Lemma bitpos_words_spec be fuel (bit : bool) pos l :
  (length l <= fuel)%nat -> bytes_ok l ->
  exists l1 l2, bitpos_words be fuel (if bit then 0 else ULONG_MAX) pos l = Some (pos + 8 * zlen l1, l2) /\ l = l1 ++ l2 /\
    Forall (eq (skip8 bit)) l1 /\ (zlen l2 < 8 \/ ~ Forall (eq (skip8 bit)) (take 8 l2)).
Proof.
  revert pos l. induction fuel as [|fuel IH]; intros pos l Hf Hl; simpl; destruct (Z.leb_spec 8 (zlen l)).
  1: unfold zlen in *; lia.
  1, 3: exists [], l; split; [f_equal; f_equal; unfold zlen; simpl; lia|]; split; [done|]; split; [constructor|left; lia].
  assert (El : load l 0 8 = Some (take 8 l)).
  { unfold load. replace (_ && _) with true by (symmetry; rewrite !andb_true_iff, !Z.leb_le; lia). done. }
  rewrite El. cbn [fmap option_fmap option_map mbind option_bind].
  assert (Ht : length (take 8 l) = 8%nat) by (unfold zlen in *; rewrite length_take; lia).
  destruct (Z.eqb_spec (native_val be (take 8 l)) (if bit then 0 else ULONG_MAX)) as [E|E]; cbn [negb].
  - destruct (IH (pos + 64) (drop 8 l)) as (l1 & l2 & -> & E12 & H1 & H2); [rewrite length_drop; unfold zlen in *; lia|by apply Forall_drop|].
    exists (take 8 l ++ l1), l2. split; [do 2 f_equal; rewrite zlen_app; unfold zlen at 2; rewrite Ht; lia|].
    split; [by rewrite <- app_assoc, <- E12, take_drop|]. split; [|done]. apply Forall_app. split; [|done].
    apply (native_skip be bit); [by apply Forall_take|done|done].
  - exists [], l. split; [do 2 f_equal; unfold zlen; simpl; lia|]. split; [done|]. split; [constructor|]. right.
    intros H0. apply E, native_skip; [by apply Forall_take|done|done].
Qed.

Lemma not_skip_index bit l : bytes_ok l -> ~ Forall (eq (skip8 bit)) l -> bit_index bit (bits_of l) <> None.
Proof.
  induction 1 as [|b l Hb _ IH]; intros Hn; [by destruct Hn|].
  change (bits_of (b :: l)) with (byte_bits b ++ bits_of l). rewrite bit_index_app.
  destruct (decide (b = skip8 bit)) as [->|Hne].
  - assert (bit_index bit (bits_of l) <> None) by (apply IH; intros H; apply Hn; by constructor).
    destruct (bit_index bit (byte_bits _)); [done|]. by destruct (bit_index bit (bits_of l)).
  - apply (not_skip8_index bit) in Hne; [|done]. by destruct (bit_index bit (byte_bits b)).
Qed.

Lemma bits_of_take n l : bits_of (take n l) = take (8 * n) (bits_of l).
Proof.
  revert n. induction l as [|b l IH]; intros n; [change (bits_of []) with (@nil bool); by rewrite !take_nil|]. destruct n as [|n]; [done|].
  replace (8 * S n)%nat with (8 + 8 * n)%nat by lia. cbn [take].
  change (bits_of (b :: take n l)) with (byte_bits b ++ bits_of (take n l)).
  change (bits_of (b :: l)) with (byte_bits b ++ bits_of l). by rewrite take_app_add', IH by done.
Qed.

Lemma bit_index_zeros n : bit_index true (replicate n false) = None.
Proof. apply bit_index_none, Forall_replicate. done. Qed.

(** The last word: what is found in it is what is found in the rest of the
    string, and nothing else. *)
Lemma bitpos_tail bit l2 :
  bytes_ok l2 -> (zlen l2 < 8 \/ ~ Forall (eq (skip8 bit)) (take 8 l2)) ->
  bit_index bit (take 64 (bits_of l2 ++ replicate 64 false)) =
    match bit_index bit (bits_of l2) with Some i => Some i | None => if bit then None else Some (8 * zlen l2) end.
Proof.
  intros Hl Hor. pose proof (bits_of_length l2) as HL. pose proof (zlen_nonneg l2).
  rewrite bit_index_take, bit_index_app. destruct Hor as [Hs|Hs].
  - destruct (bit_index bit (bits_of l2)) as [i|] eqn:E.
    + apply bit_index_bound in E. unfold zlen in *. rewrite HL in E. destruct (Z.ltb_spec i (Z.of_nat 64)); [done|lia].
    + destruct bit; [by rewrite bit_index_zeros|].
      change (bit_index false (replicate 64 false)) with (Some 0). cbn [fmap option_fmap option_map]. unfold zlen in *. rewrite HL.
      destruct (Z.ltb_spec (Z.of_nat (8 * length l2) + 0) (Z.of_nat 64)); [f_equal; lia|lia].
  - apply not_skip_index in Hs; [|by apply Forall_take]. rewrite bits_of_take, bit_index_take in Hs.
    destruct (bit_index bit (bits_of l2)) as [i|]; [|done]. change (8 * 8)%nat with 64%nat in Hs.
    by destruct (Z.ltb_spec i (Z.of_nat 64)).
Qed.

Lemma bitpos_spec be addr s bit :
  bytes_ok s -> redisBitpos be addr s bit = Some (bitpos_result bit s).
Proof.
  intros Hs. unfold redisBitpos. change (if bit then 0 else UCHAR_MAX) with (skip8 bit).
  destruct (bitpos_align_spec addr bit 0 s) as (l1 & l2 & found & -> & -> & H1 & Hfound).
  apply Forall_app in Hs as [Hb1 Hb2].
  assert (Hmid : exists l3 l4, (if found then Some (0 + 8 * zlen l1, l2) else bitpos_words be (length l2) (if bit then 0 else ULONG_MAX) (0 + 8 * zlen l1) l2)
      = Some (8 * zlen (l1 ++ l3), l4) /\ l2 = l3 ++ l4 /\ Forall (eq (skip8 bit)) l3 /\ (zlen l4 < 8 \/ ~ Forall (eq (skip8 bit)) (take 8 l4))).
  { destruct found.
    - exists [], l2. rewrite app_nil_r. split; [f_equal; f_equal; lia|]. split; [done|]. split; [constructor|]. right.
      destruct Hfound as (b & l & -> & Hne); [done|]. cbn [take]. intros H. apply Forall_cons in H as [H _]. congruence.
    - destruct (bitpos_words_spec be (length l2) bit (0 + 8 * zlen l1) l2) as (l3 & l4 & -> & -> & H3 & H4); [lia|done|].
      exists l3, l4. split; [do 2 f_equal; rewrite zlen_app; lia|done]. }
  destruct Hmid as (l3 & l4 & -> & -> & H3 & H4). cbn [mbind option_bind]. apply Forall_app in Hb2 as [Hb3 Hb4].
  destruct (bitpos_load_bits l4 Hb4) as [Hw1 Hw2]. pose proof (bitpos_tail bit l4 Hb4 H4) as Ht. rewrite <- Hw2 in Ht.
  set (word := bitpos_load 8 0 l4) in *.
  assert (Hres : bitpos_result bit (l1 ++ l3 ++ l4) =
    match bit_index bit (bits_of l4) with Some i => 8 * zlen (l1 ++ l3) + i | None => if bit then -1 else 8 * zlen (l1 ++ l3) + 8 * zlen l4 end).
  { unfold bitpos_result. rewrite app_assoc, (bits_of_app (l1 ++ l3)), bit_index_app, skip8_index by (by apply Forall_app).
    assert (zlen (bits_of (l1 ++ l3)) = 8 * zlen (l1 ++ l3)) as -> by (unfold zlen; rewrite bits_of_length; lia).
    destruct (bit_index bit (bits_of l4)); [done|]. cbn. destruct bit; [done|]. rewrite (zlen_app _ l4). lia. }
  rewrite Hres. assert (Hscan : forall pos, bitpos_scan 65 (u64 (Z.lnot (Z.shiftr ULONG_MAX 1))) word bit pos = Z.add pos <$> bit_index bit (be_bits 64 word))
    by (intros pos; apply (bitpos_scan_spec 63 65); lia).
  rewrite Hscan, Ht. destruct bit; cbn [andb].
  - destruct (Z.eqb_spec word 0) as [E|E].
    + rewrite E in Ht. change (be_bits 64 0) with (replicate 64 false) in Ht. rewrite bit_index_zeros in Ht.
      by destruct (bit_index true (bits_of l4)).
    + destruct (bit_index true (bits_of l4)) as [i|]; [done|]. exfalso. apply E.
      apply bit_index_none in Ht. rewrite <- (wrapu_small 64 word : _ -> wrapu (Z.of_nat 64) word = word), <- be_val_bits by done.
      assert (Hz : forall l, Forall (fun x => x = negb true) l -> be_val l = 0)
        by (clear; induction 1 as [|x l -> _ IH]; [done|]; rewrite be_val_cons, IH; done).
      by apply Hz.
  - by destruct (bit_index false (bits_of l4)).
Qed.

(** ** Bitfields *)
Lemma land7 n : 0 <= n -> Z.land n 7 = n mod 8.
Proof. intros. apply (Z.land_ones n 3). lia. Qed.
Lemma shift3 n : Z.shiftr n 3 = n / 8.
Proof. apply (Z.shiftr_div_pow2 n 3). lia. Qed.

(** The byte [setUnsignedBitfield] writes: one bit changed. *)
Definition put_bit (byteval bitval bit : Z) : Z :=
  Z.land (Z.lor (Z.land byteval (u64 (Z.lnot (Z.shiftl 1 bit)))) (u64 (Z.shiftl bitval bit))) 255.

Lemma put_bit_spec b (v : bool) r :
  byte_ok b -> (r < 8)%nat ->
  byte_ok (put_bit b (Z.b2z v) (7 - Z.of_nat r)) /\ byte_bits (put_bit b (Z.b2z v) (7 - Z.of_nat r)) = <[r := v]> (byte_bits b).
Proof.
  intros Hb Hr.
  apply (all_bytes (fun b => forallb (fun r => forallb (fun v =>
    (0 <=? put_bit b (Z.b2z v) (7 - Z.of_nat r)) && (put_bit b (Z.b2z v) (7 - Z.of_nat r) <? 256) &&
    bool_decide (byte_bits (put_bit b (Z.b2z v) (7 - Z.of_nat r)) = <[r := v]> (byte_bits b))) [true; false]) (seq 0 8))) in Hb;
    [|vm_compute; reflexivity].
  rewrite forallb_forall in Hb. specialize (Hb r ltac:(apply in_seq; lia)). rewrite forallb_forall in Hb.
  specialize (Hb v ltac:(destruct v; simpl; auto)). apply andb_true_iff in Hb as [Hb E]. apply bool_decide_eq_true in E.
  zb. unfold byte_ok. auto with lia.
Qed.

Lemma bits_of_insert p i b c r v :
  p !! i = Some b -> (r < 8)%nat -> byte_bits c = <[r := v]> (byte_bits b) ->
  bits_of (<[i := c]> p) = <[(8 * i + r)%nat := v]> (bits_of p).
Proof.
  revert i. induction p as [|x p IH]; intros i Hi Hr Hc; [done|]. destruct i as [|i].
  - injection Hi as ->. change (<[0%nat := c]> (b :: p)) with (c :: p).
    change (bits_of (c :: p)) with (byte_bits c ++ bits_of p). change (bits_of (b :: p)) with (byte_bits b ++ bits_of p).
    rewrite insert_app_l by (simpl; lia). by rewrite Hc.
  - change (<[S i := c]> (x :: p)) with (x :: <[i := c]> p).
    change (bits_of (x :: <[i := c]> p)) with (byte_bits x ++ bits_of (<[i := c]> p)). rewrite IH by done.
    change (bits_of (x :: p)) with (byte_bits x ++ bits_of p).
    replace (8 * S i + r)%nat with (length (byte_bits x) + (8 * i + r))%nat by (simpl; lia). by rewrite insert_app_r.
Qed.

Lemma bits_of_lookup p i b r : p !! i = Some b -> (r < 8)%nat -> bits_of p !! (8 * i + r)%nat = Some (Z.testbit b (7 - Z.of_nat r)).
Proof.
  revert i. induction p as [|x p IH]; intros i Hi Hr; [done|].
  change (bits_of (x :: p)) with (byte_bits x ++ bits_of p). destruct i as [|i].
  - injection Hi as ->. rewrite lookup_app_l by (simpl; lia). do 8 (destruct r as [|r]; [done|]). lia.
  - rewrite lookup_app_r by (simpl; lia). replace (8 * S i + r - length (byte_bits x))%nat with (8 * i + r)%nat by (simpl; lia). by apply IH.
Qed.

(** The byte and the bit of it that holds bit [offset]. *)
Lemma bit_address p offset :
  bytes_ok p -> 0 <= offset < 8 * zlen p ->
  exists i r b, Z.shiftr offset 3 = Z.of_nat i /\ Z.land offset 7 = Z.of_nat r /\ (r < 8)%nat /\ p !! i = Some b /\ byte_ok b /\
    Z.to_nat offset = (8 * i + r)%nat.
Proof.
  intros Hp Ho. unfold zlen in Ho. pose proof (Z.div_mod offset 8). pose proof (Z.mod_pos_bound offset 8).
  assert (0 <= offset / 8 < Z.of_nat (length p)) by (split; [apply Z.div_pos; lia|apply Z.div_lt_upper_bound; lia]).
  destruct (lookup_lt_is_Some_2 p (Z.to_nat (offset / 8))) as [b Hb]; [lia|].
  exists (Z.to_nat (offset / 8)), (Z.to_nat (offset mod 8)), b. rewrite shift3, land7 by lia.
  split; [lia|]. split; [lia|]. split; [lia|]. split; [done|]. split; [|lia].
  rewrite Forall_lookup in Hp. by apply (Hp _ _ Hb).
Qed.


Lemma setUnsigned_loop_spec n p offset value :
  (n <= 64)%nat -> bytes_ok p -> 0 <= offset -> offset + Z.of_nat n <= 8 * zlen p -> 8 * zlen p < 2 ^ 64 ->
  exists p', setUnsigned_loop n p offset value = Some p' /\ bytes_ok p' /\ length p' = length p /\
    bits_of p' = take (Z.to_nat offset) (bits_of p) ++ be_bits n value ++ drop (Z.to_nat offset + n) (bits_of p).
Proof.
  intros Hn. revert p offset. induction n as [|n IH]; intros p offset Hp Ho Hb Hl; cbn [setUnsigned_loop].
  - exists p. split; [done|]. split; [done|]. split; [done|]. cbn [be_bits app]. by rewrite Nat.add_0_r, take_drop.
  - assert (Esh : shl64 1 (Z.of_nat n) = Some (2 ^ Z.of_nat n)).
    { unfold shl64. replace (_ && _) with true by (symmetry; rewrite andb_true_iff, Z.leb_le, Z.ltb_lt; lia).
      rewrite Z.shiftl_1_l, wrapu_small; [done|]. split; [lia|]. apply Z.pow_lt_mono_r; lia. }
    rewrite Esh. cbn [mbind option_bind]. rewrite (Z.land_comm value), land_pow2 by lia.
    destruct (bit_address p offset) as (i & r & b & -> & -> & Hr & Hi & Hbok & Eo); [done|lia|].
    rewrite load1_nat, Hi. cbn [mbind option_bind].
    set (v := Z.testbit value (Z.of_nat n)). assert (Ev : (if negb v then 0 else 1) = Z.b2z v) by (by destruct v). rewrite Ev.
    destruct (put_bit_spec b v r Hbok Hr) as [Hc1 Hc2]. fold (put_bit b (Z.b2z v) (7 - Z.of_nat r)).
    set (c := put_bit b (Z.b2z v) (7 - Z.of_nat r)) in *. assert (Hil : (i < length p)%nat) by (by apply lookup_lt_Some in Hi).
    rewrite store1 by done. cbn [mbind option_bind]. rewrite wrapu_small by lia.
    assert (Hlen : zlen (<[i:=c]> p) = zlen p) by (unfold zlen; by rewrite length_insert).
    destruct (IH ltac:(lia) (<[i := c]> p) (offset + 1)) as (p' & -> & Hp' & Hl' & Hbits); [by apply Forall_insert|lia|lia|lia|].
    exists p'. split; [done|]. split; [done|]. split; [by rewrite Hl', length_insert|]. rewrite Hbits.
    rewrite (bits_of_insert p i b c r v Hi Hr Hc2), <- Eo. replace (Z.to_nat (offset + 1)) with (S (Z.to_nat offset)) by lia.
    assert (Hlb : (Z.to_nat offset < length (bits_of p))%nat) by (rewrite bits_of_length; unfold zlen in *; lia).
    rewrite (take_S_r _ _ v) by (by apply list_lookup_insert_eq). rewrite take_insert_ge, drop_insert_lt by lia.
    rewrite <- app_assoc. cbn [be_bits app]. do 3 f_equal. f_equal. lia.
Qed.

Lemma getUnsigned_loop_spec n m p offset value :
  (n + m <= 64)%nat -> bytes_ok p -> 0 <= offset -> offset + Z.of_nat n <= 8 * zlen p -> 8 * zlen p < 2 ^ 64 ->
  0 <= value < 2 ^ Z.of_nat m ->
  getUnsigned_loop n p offset value =
    Some (value * 2 ^ Z.of_nat n + be_val (take n (drop (Z.to_nat offset) (bits_of p)))).
Proof.
  intros Hn Hp. revert m offset value Hn. induction n as [|n IH]; intros m offset value Hn Ho Hb Hl Hv; cbn [getUnsigned_loop].
  - rewrite take_0. unfold be_val. simpl. f_equal. lia.
  - destruct (bit_address p offset) as (i & r & b & -> & -> & Hr & Hi & Hbok & Eo); [done|lia|].
    rewrite load1_nat, Hi. cbn [mbind option_bind].
    set (v := Z.testbit b (7 - Z.of_nat r)).
    assert (Ev : Z.land (Z.shiftr b (7 - Z.of_nat r)) 1 = Z.b2z v).
    { rewrite (Z.land_ones _ 1) by lia. change (2 ^ 1) with 2. by rewrite <- Z.bit0_mod, Z.shiftr_spec. }
    assert (Hm : 2 ^ Z.of_nat (S m) = 2 * 2 ^ Z.of_nat m) by (rewrite Nat2Z.inj_succ, Z.pow_succ_r by lia; done).
    assert (Esh : Z.lor (u64 (Z.shiftl value 1)) (Z.b2z v) = 2 * value + Z.b2z v).
    { assert (2 ^ Z.of_nat (S m) <= 2 ^ 64) by (apply Z.pow_le_mono_r; lia).
      rewrite Z.shiftl_mul_pow2 by lia. change (2 ^ 1) with 2. rewrite wrapu_small by lia. rewrite (Z.mul_comm value 2).
      apply Z.bits_inj'. intros k Hk. rewrite Z.lor_spec. replace (2 * value + Z.b2z v) with (Z.b2z v + 2 ^ 1 * value) by (change (2 ^ 1) with 2; lia).
      replace (2 * value) with (0 + 2 ^ 1 * value) by (change (2 ^ 1) with 2; lia). rewrite !testbit_split by (destruct v; simpl; lia).
      rewrite Z.bits_0. destruct (Z.ltb_spec k 1); [done|]. rewrite (bit_above 1 (Z.b2z v)) by (destruct v; simpl; lia). by rewrite orb_false_r. }
    rewrite Ev, Esh, wrapu_small by lia.
    rewrite (IH (S m)) by (destruct v; simpl; lia).
    assert (Hlk : bits_of p !! Z.to_nat offset = Some v) by (rewrite Eo; by apply bits_of_lookup).
    rewrite (drop_S _ _ _ Hlk). replace (Z.to_nat (offset + 1)) with (S (Z.to_nat offset)) by lia. cbn [take].
    rewrite be_val_cons, Nat2Z.inj_succ, Z.pow_succ_r by lia. f_equal.
    assert (Hz : zlen (take n (drop (S (Z.to_nat offset)) (bits_of p))) = Z.of_nat n).
    { unfold zlen in *. rewrite length_take, length_drop, bits_of_length. lia. }
    rewrite Hz. lia.
Qed.

(** The bits of a field. *)
Definition field (p : list Z) (offset bits : Z) : list bool := take (Z.to_nat bits) (drop (Z.to_nat offset) (bits_of p)).

Lemma field_length p offset bits : 0 <= offset -> 0 <= bits -> offset + bits <= 8 * zlen p -> zlen (field p offset bits) = bits.
Proof. intros. unfold field, zlen in *. rewrite length_take, length_drop, bits_of_length. lia. Qed.

Lemma getUnsigned_spec p offset bits :
  1 <= bits <= 64 -> bytes_ok p -> 0 <= offset -> offset + bits <= 8 * zlen p -> 8 * zlen p < 2 ^ 64 ->
  getUnsignedBitfield p offset bits = Some (be_val (field p offset bits)).
Proof. intros. unfold getUnsignedBitfield. rewrite (getUnsigned_loop_spec _ 0) by (done || lia). f_equal. Qed.

Lemma setUnsigned_spec p offset bits value :
  1 <= bits <= 64 -> bytes_ok p -> 0 <= offset -> offset + bits <= 8 * zlen p -> 8 * zlen p < 2 ^ 64 ->
  exists p', setUnsignedBitfield p offset bits value = Some p' /\ bytes_ok p' /\ length p' = length p /\
    bits_of p' = take (Z.to_nat offset) (bits_of p) ++ be_bits (Z.to_nat bits) value ++ drop (Z.to_nat (offset + bits)) (bits_of p).
Proof.
  intros. destruct (setUnsigned_loop_spec (Z.to_nat bits) p offset value) as (p' & ? & ? & ? & Hb); [lia|done|lia|lia|lia|].
  exists p'. split; [done|]. split; [done|]. split; [done|]. rewrite Hb. do 3 f_equal. lia.
Qed.

Lemma be_bits_mod n v w : wrapu (Z.of_nat n) v = wrapu (Z.of_nat n) w -> be_bits n v = be_bits n w.
Proof. intros E. rewrite <- (be_bits_val (be_bits n v)), <- (be_bits_val (be_bits n w)), !be_val_bits, !be_bits_length. by rewrite E. Qed.

Lemma wrapu_wrapu w w' v : 0 <= w <= w' -> wrapu w (wrapu w' v) = wrapu w v.
Proof.
  intros Hw. unfold wrapu. replace w' with (w + (w' - w)) by lia. rewrite Z.pow_add_r by lia.
  rewrite Z.rem_mul_r, Z.mul_comm, Z.mod_add, Z.mod_mod by lia. done.
Qed.

(** ** Masks and signs *)
Lemma wraps_unique w z r k : in_s w r -> 0 < w -> z = r + k * 2 ^ w -> wraps w z = r.
Proof.
  intros Hr Hw ->. rewrite <- (wraps_small w r) at 2 by done. unfold wraps.
  replace (r + k * 2 ^ w + 2 ^ (w - 1)) with (r + 2 ^ (w - 1) + k * 2 ^ w) by lia. by rewrite Z.mod_add by lia.
Qed.
Lemma wrapu_wraps w z : 0 < w -> wrapu w (wraps w z) = wrapu w z.
Proof.
  intros Hw. unfold wrapu, wraps. rewrite Zminus_mod_idemp_l. f_equal. lia.
Qed.

Lemma shl64_1 n : 0 <= n < 64 -> shl64 1 n = Some (2 ^ n).
Proof.
  intros Hn. unfold shl64. replace (_ && _) with true by (symmetry; rewrite andb_true_iff, Z.leb_le, Z.ltb_lt; lia).
  rewrite Z.shiftl_1_l, wrapu_small; [done|]. split; [lia|]. apply Z.pow_lt_mono_r; lia.
Qed.

(** [((uint64_t)-1) << bits]: ones above the field. *)
Definition mask_high (bits : Z) : Z := 2 ^ bits * Z.ones (64 - bits).
Lemma mask_high_eq bits : 0 <= bits <= 64 -> mask_high bits = 2 ^ 64 - 2 ^ bits.
Proof.
  intros Hb. unfold mask_high. rewrite Z.ones_equiv, <- Z.sub_1_r, Z.mul_sub_distr_l, <- Z.pow_add_r by lia.
  replace (bits + (64 - bits)) with 64 by lia. lia.
Qed.
Lemma shl64_mask n : 0 <= n < 64 -> shl64 ULLONG_MAX n = Some (mask_high n).
Proof.
  intros Hn. unfold shl64. replace (_ && _) with true by (symmetry; rewrite andb_true_iff, Z.leb_le, Z.ltb_lt; lia).
  f_equal. rewrite mask_high_eq, Z.shiftl_mul_pow2 by lia. unfold wrapu, ULLONG_MAX.
  assert (0 < 2 ^ n < 2 ^ 64) by (split; [lia|apply Z.pow_lt_mono_r; lia]).
  symmetry. apply (Z.mod_unique_pos _ _ (2 ^ n - 1)); [lia|zpow; lia].
Qed.
Lemma land_low c bits : 0 <= bits <= 64 -> Z.land c (u64 (Z.lnot (mask_high bits))) = wrapu bits c.
Proof.
  intros Hb. replace (u64 (Z.lnot (mask_high bits))) with (Z.ones bits); [by apply Z.land_ones; lia|].
  rewrite mask_high_eq, Z.ones_equiv by done. unfold Z.lnot, wrapu. assert (0 < 2 ^ bits <= 2 ^ 64) by (split; [lia|apply Z.pow_le_mono_r; lia]).
  apply (Z.mod_unique_pos _ _ (-1)); lia.
Qed.
Lemma lor_high c bits : 0 <= bits <= 64 -> 0 <= c < 2 ^ 64 -> Z.lor c (mask_high bits) = wrapu bits c + mask_high bits.
Proof.
  intros Hb Hc. unfold wrapu, mask_high.
  assert (Hl : 0 <= c mod 2 ^ bits < 2 ^ bits) by (apply Z.mod_pos_bound; lia).
  assert (Hd : 0 <= c / 2 ^ bits < 2 ^ (64 - bits)).
  { split; [apply Z.div_pos; lia|]. apply Z.div_lt_upper_bound; [lia|]. rewrite <- Z.pow_add_r by lia. replace (bits + (64 - bits)) with 64 by lia. lia. }
  assert (Hones : Z.lor (c / 2 ^ bits) (Z.ones (64 - bits)) = Z.ones (64 - bits)).
  { apply Z.bits_inj'. intros n Hn. rewrite Z.lor_spec. destruct (Z.ltb_spec n (64 - bits)).
    - rewrite Z.ones_spec_low by lia. apply orb_true_r.
    - rewrite (bit_above (64 - bits) (c / 2 ^ bits)) by lia. done. }
  rewrite <- Hones at 2. apply Z.bits_inj'. intros n Hn. rewrite Z.lor_spec.
  assert (Ec : c = c mod 2 ^ bits + 2 ^ bits * (c / 2 ^ bits)) by (pose proof (Z.div_mod c (2 ^ bits)); lia).
  rewrite Ec at 1. replace (2 ^ bits * Z.ones (64 - bits)) with (0 + 2 ^ bits * Z.ones (64 - bits)) by lia.
  rewrite !testbit_split by lia. rewrite Z.bits_0, Z.lor_spec. destruct (n <? bits); [apply orb_false_r|done].
Qed.

(** The sign bit of a field. *)
Lemma wraps_sign w z : 0 < w -> wraps w z = if Z.testbit z (w - 1) then wrapu w z - 2 ^ w else wrapu w z.
Proof.
  intros Hw. assert (E2 : 2 ^ w = 2 * 2 ^ (w - 1)) by (rewrite <- Z.pow_succ_r by lia; f_equal; lia).
  pose proof (wrapu_range w z ltac:(lia)) as Hr. rewrite <- wraps_wrapu by done.
  assert (Et : Z.testbit z (w - 1) = Z.testbit (wrapu w z) (w - 1)) by (unfold wrapu; by rewrite Z.mod_pow2_bits_low by lia).
  rewrite Et. set (u := wrapu w z) in *.
  assert (Hd : u = u mod 2 ^ (w - 1) + 2 ^ (w - 1) * (u / 2 ^ (w - 1))) by (pose proof (Z.div_mod u (2 ^ (w - 1))); lia).
  pose proof (Z.mod_pos_bound u (2 ^ (w - 1)) ltac:(lia)) as Hm.
  assert (Hq : 0 <= u / 2 ^ (w - 1) < 2) by (split; [apply Z.div_pos; lia|apply Z.div_lt_upper_bound; lia]).
  assert (Hbit : Z.testbit u (w - 1) = Z.odd (u / 2 ^ (w - 1))) by (by rewrite Z.testbit_odd, Z.shiftr_div_pow2 by lia).
  rewrite Hbit. assert (Hcases : u / 2 ^ (w - 1) = 0 \/ u / 2 ^ (w - 1) = 1) by lia. destruct Hcases as [E|E]; rewrite E in *; simpl.
  - apply wraps_small; [unfold in_s; lia|done].
  - apply (wraps_unique _ _ _ 1); [unfold in_s; lia|done|lia].
Qed.

Lemma getSigned_spec p offset bits :
  1 <= bits <= 64 -> bytes_ok p -> 0 <= offset -> offset + bits <= 8 * zlen p -> 8 * zlen p < 2 ^ 64 ->
  getSignedBitfield p offset bits =
    let u := be_val (field p offset bits) in
    if (bits =? 64) && Z.testbit u 63 then None else Some (wraps bits u).
Proof.
  intros Hb Hp Ho Hl Hm. unfold getSignedBitfield. rewrite getUnsigned_spec by done. cbn [mbind option_bind]. cbv zeta.
  pose proof (be_val_bound (field p offset bits)) as Hu. rewrite field_length in Hu by lia. set (u := be_val (field p offset bits)) in *.
  assert (H64 : 0 <= u < 2 ^ 64) by (assert (2 ^ bits <= 2 ^ 64) by (apply Z.pow_le_mono_r; lia); lia).
  rewrite wrapu_wraps, (wrapu_small 64 u) by (done || lia). rewrite shl64_1 by lia. cbn [mbind option_bind].
  rewrite Z.land_comm, land_pow2 by lia. rewrite (wraps_sign bits), (wrapu_small bits u) by lia.
  destruct (Z.testbit u (bits - 1)) eqn:Et; cbn [negb].
  - destruct (Z.eqb_spec bits 64) as [->|Hne]; [change (64 - 1) with 63 in Et; rewrite Et; done|]. cbn [andb].
    rewrite shl64_mask by lia. cbn [mbind option_bind]. rewrite lor_high, wrapu_small, mask_high_eq by lia. f_equal.
    assert (2 ^ bits <= 2 ^ 63) by (apply Z.pow_le_mono_r; lia).
    apply (wraps_unique _ _ _ 1); [unfold in_s; zpow; lia|lia|zpow; lia].
  - assert (Hn : (bits =? 64) && Z.testbit u 63 = false).
    { destruct (Z.eqb_spec bits 64) as [->|]; [|done]. by change (64 - 1) with 63 in Et. }
    rewrite Hn. f_equal.
    assert (H63 : u < 2 ^ (bits - 1)).
    { pose proof (wraps_range bits u ltac:(lia)) as Hs. rewrite wraps_sign, Et, wrapu_small in Hs by lia. unfold in_s in Hs. lia. }
    assert (2 ^ (bits - 1) <= 2 ^ 63) by (apply Z.pow_le_mono_r; lia). apply wraps_small; [unfold in_s; zpow; lia|lia].
Qed.

(** ** The overflow checks *)
(** The reply for a result above ([1]) or below ([-1]) the range; [wrapped] is
    the result modulo the width. *)
Definition overflow_result (sign : Z) (owtype : bfoverflow) (limit : bool) (bound wrapped : Z) : Z * option Z :=
  match limit, owtype with
  | true, BFOVERFLOW_WRAP => (1, Some wrapped)
  | true, BFOVERFLOW_SAT => (sign, Some bound)
  | _, _ => (sign, None)
  end.

Lemma checkUnsigned_spec value incr bits owtype limit :
  1 <= bits <= 63 -> in_u 64 value -> in_s 64 incr ->
  checkUnsignedBitfieldOverflow value incr bits owtype limit =
    let max := 2 ^ bits - 1 in
    let t := value + incr in
    Some (if (value >? max) || (t >? max) then overflow_result 1 owtype limit max (wrapu bits t)
          else if t <? 0 then overflow_result (-1) owtype limit 0 (wrapu bits t)
          else (0, None)).
Proof.
  intros Hb Hv Hi. unfold in_u, in_s in *. unfold checkUnsignedBitfieldOverflow.
  destruct (Z.eqb_spec bits 64); [lia|]. rewrite shl64_1, shl64_mask by lia. cbn [mbind option_bind]. cbv zeta.
  assert (Hp : 1 <= 2 ^ bits <= 2 ^ 63) by (split; [lia|apply Z.pow_le_mono_r; lia]).
  rewrite (wrapu_small 64 (2 ^ bits - 1)) by lia. rewrite land_low, wrapu_wrapu by lia.
  destruct (Z.gtb_spec value (2 ^ bits - 1)) as [Hgt|Hle]; cbn [orb]; [by destruct limit, owtype|].
  assert (Emax : s64 (2 ^ bits - 1 - value) = 2 ^ bits - 1 - value) by (apply wraps_small; [unfold in_s; zpow; lia|lia]).
  assert (Emin : s64 (u64 (- value)) = - value) by (rewrite wraps_wrapu by lia; apply wraps_small; [unfold in_s; zpow; lia|lia]).
  rewrite Emax, Emin.
  assert (C1 : (incr >? 0) && (incr >? 2 ^ bits - 1 - value) = (value + incr >? 2 ^ bits - 1)).
  { destruct (Z.gtb_spec incr 0), (Z.gtb_spec incr (2 ^ bits - 1 - value)), (Z.gtb_spec (value + incr) (2 ^ bits - 1)); cbn; lia. }
  assert (C2 : (incr <? 0) && (incr <? - value) = (value + incr <? 0)).
  { destruct (Z.ltb_spec incr 0), (Z.ltb_spec incr (- value)), (Z.ltb_spec (value + incr) 0); cbn; lia. }
  rewrite C1, C2. destruct (value + incr >? 2 ^ bits - 1); [by destruct limit, owtype|].
  destruct (value + incr <? 0); [by destruct limit, owtype|done].
Qed.

(** The value wrapped to a signed field of [bits] bits. *)
Lemma signed_wrap_spec t bits :
  1 <= bits <= 63 ->
  s64 (if Z.land (u64 t) (2 ^ (bits - 1)) =? 0 then Z.land (u64 t) (u64 (Z.lnot (mask_high bits))) else Z.lor (u64 t) (mask_high bits))
  = wraps bits t.
Proof.
  intros Hb. rewrite Z.land_comm, land_pow2 by lia. rewrite land_low, lor_high, wrapu_wrapu by (lia || (apply wrapu_range; lia)).
  assert (Et : Z.testbit (u64 t) (bits - 1) = Z.testbit t (bits - 1)) by (unfold wrapu; by rewrite Z.mod_pow2_bits_low by lia).
  rewrite Et, mask_high_eq by lia. pose proof (wraps_range bits t ltac:(lia)) as Hr. rewrite (wraps_sign bits t) in * by lia.
  assert (H2 : 2 ^ (bits - 1) <= 2 ^ 63) by (apply Z.pow_le_mono_r; lia). unfold in_s in Hr.
  destruct (Z.testbit t (bits - 1)); cbn [negb].
  - apply (wraps_unique _ _ _ 1); [unfold in_s; zpow; lia|lia|lia].
  - apply wraps_small; [unfold in_s; zpow; lia|lia].
Qed.

Lemma checkSigned_spec value incr bits owtype limit :
  1 <= bits <= 64 -> in_s 64 value -> in_s 64 incr -> 2 ^ (bits - 1) - 1 - value < 2 ^ 63 \/ bits = 64 ->
  checkSignedBitfieldOverflow value incr bits owtype limit =
    let max := 2 ^ (bits - 1) - 1 in
    let min := - 2 ^ (bits - 1) in
    let t := value + incr in
    let undefined := (bits =? 64) && limit && match owtype with BFOVERFLOW_WRAP => true | _ => false end in
    if (value >? max) || (t >? max) then
      if undefined then None else Some (overflow_result 1 owtype limit max (wraps bits t))
    else if (value <? min) || (t <? min) then
      if undefined then None else Some (overflow_result (-1) owtype limit min (wraps bits t))
    else Some (0, None).
Proof.
  intros Hb Hv Hi Hov. unfold checkSignedBitfieldOverflow.
  assert (Hp : 1 <= 2 ^ (bits - 1) <= 2 ^ 63) by (split; [lia|apply Z.pow_le_mono_r; lia]).
  assert (Emx : (if bits =? 64 then Some LLONG_MAX else m ← shl64 1 (bits - 1); Some (s64 (m - 1))) = Some (2 ^ (bits - 1) - 1)).
  { destruct (Z.eqb_spec bits 64) as [->|]; [done|]. rewrite shl64_1 by lia. cbn [mbind option_bind]. f_equal.
    apply wraps_small; [unfold in_s; lia|lia]. }
  rewrite Emx. cbn [mbind option_bind]. cbv zeta. replace (- (2 ^ (bits - 1) - 1) - 1) with (- 2 ^ (bits - 1)) by lia.
  set (wr := mask ← shl64 ULLONG_MAX bits; _).
  assert (Hwr : wr = if bits =? 64 then None else Some (1, Some (wraps bits (value + incr)))).
  { unfold wr. destruct (Z.eqb_spec bits 64) as [->|]; [done|]. rewrite shl64_mask, shl64_1 by lia. cbn [mbind option_bind].
    assert (Es : u64 (u64 value + u64 incr) = u64 (value + incr)) by (unfold wrapu; by rewrite <- Zplus_mod).
    rewrite Es, signed_wrap_spec by lia. done. }
  rewrite Hwr. clear Hwr wr. unfold in_s in *. set (P := 2 ^ (bits - 1)) in *. zpow.
  assert (C1 : (value >? P - 1) || negb (bits =? 64) && (incr >? s64 (P - 1 - value)) || (value >=? 0) && (incr >? 0) && (incr >? s64 (P - 1 - value))
    = (value >? P - 1) || (value + incr >? P - 1)).
  { destruct (Z.gtb_spec value (P - 1)); [done|]. cbn [orb].
    destruct (Z.geb_spec value 0), (Z.eqb_spec bits 64) as [Eb|]; cbn [negb andb orb].
    all: try (rewrite wraps_small by (unfold in_s; zpow; lia || lia)).
    all: try (assert (P = 9223372036854775808) by (unfold P; rewrite Eb; done)).
    all: repeat match goal with |- context [?a >? ?b] => destruct (Z.gtb_spec a b) end; cbn; lia. }
  rewrite C1. destruct ((value >? P - 1) || (value + incr >? P - 1)) eqn:E1; [by destruct (bits =? 64), limit, owtype|].
  assert (E1' : value <= P - 1 /\ value + incr <= P - 1).
  { apply orb_false_iff in E1 as [E1 E1']. rewrite Z.gtb_ltb in E1, E1'. zb. lia. }
  assert (C2 : (value <? - P) || negb (bits =? 64) && (incr <? s64 (- P - value)) || (value <? 0) && (incr <? 0) && (incr <? s64 (- P - value))
    = (value <? - P) || (value + incr <? - P)).
  { destruct (Z.ltb_spec value (- P)); [done|]. cbn [orb].
    destruct (Z.eqb_spec bits 64) as [Eb|]; cbn [negb andb orb].
    - assert (P = 9223372036854775808) by (unfold P; rewrite Eb; done).
      destruct (Z.ltb_spec value 0); cbn [andb].
      + rewrite wraps_small by (unfold in_s; zpow; lia || lia).
        repeat match goal with |- context [?a <? ?b] => destruct (Z.ltb_spec a b) end; cbn; lia.
      + destruct (Z.ltb_spec (value + incr) (- P)); [lia|done].
    - assert (P <= 4611686018427387904) by (change 4611686018427387904 with (2 ^ 62); apply Z.pow_le_mono_r; lia).
      rewrite wraps_small by (unfold in_s; zpow; lia || lia).
      repeat match goal with |- context [?a <? ?b] => destruct (Z.ltb_spec a b) end; cbn; lia. }
  rewrite C2. destruct ((value <? - P) || (value + incr <? - P)); [by destruct (bits =? 64), limit, owtype|done].
Qed.

Lemma field_set p p' offset bits v :
  0 <= offset -> 0 <= bits -> offset + bits <= 8 * zlen p ->
  bits_of p' = take (Z.to_nat offset) (bits_of p) ++ be_bits (Z.to_nat bits) v ++ drop (Z.to_nat (offset + bits)) (bits_of p) ->
  field p' offset bits = be_bits (Z.to_nat bits) v.
Proof.
  intros Ho Hb Hl E. unfold field. rewrite E.
  assert (Ht : length (take (Z.to_nat offset) (bits_of p)) = Z.to_nat offset).
  { unfold zlen in Hl. rewrite length_take, bits_of_length. lia. }
  rewrite drop_app_length' by done. apply take_app_length'. by rewrite be_bits_length.
Qed.

Lemma setUnsigned_get p offset bits v :
  1 <= bits <= 64 -> bytes_ok p -> 0 <= offset -> offset + bits <= 8 * zlen p -> 8 * zlen p < 2 ^ 64 ->
  exists p', setUnsignedBitfield p offset bits v = Some p' /\ bytes_ok p' /\ zlen p' = zlen p /\
    take (Z.to_nat offset) (bits_of p') = take (Z.to_nat offset) (bits_of p) /\
    drop (Z.to_nat (offset + bits)) (bits_of p') = drop (Z.to_nat (offset + bits)) (bits_of p) /\
    getUnsignedBitfield p' offset bits = Some (wrapu bits v) /\
    (bits < 64 \/ Z.testbit v 63 = false -> getSignedBitfield p' offset bits = Some (wraps bits v)).
Proof.
  intros Hb Hp Ho Hl Hm. destruct (setUnsigned_spec p offset bits v Hb Hp Ho Hl Hm) as (p' & Es & Hp' & Hlen & Hbits).
  exists p'. assert (Hz : zlen p' = zlen p) by (unfold zlen; by rewrite Hlen).
  pose proof (field_set p p' offset bits v Ho ltac:(lia) Hl Hbits) as Hf.
  assert (Ht : length (take (Z.to_nat offset) (bits_of p)) = Z.to_nat offset).
  { unfold zlen in Hl. rewrite length_take, bits_of_length. lia. }
  assert (Hv : be_val (field p' offset bits) = wrapu bits v) by (rewrite Hf, be_val_bits; by rewrite Z2Nat.id by lia).
  split; [done|]. split; [done|]. split; [done|]. split; [rewrite Hbits; by apply take_app_length'|]. split; [|split].
  - rewrite Hbits, app_assoc. apply drop_app_length'. rewrite length_app, Ht, be_bits_length. lia.
  - rewrite getUnsigned_spec by (rewrite ?Hz; done). by rewrite Hv.
  - intros Hs. rewrite getSigned_spec by (rewrite ?Hz; done). cbv zeta. rewrite Hv, wraps_wrapu by lia.
    destruct (Z.eqb_spec bits 64) as [->|]; cbn [andb]; [|done]. destruct Hs as [Hs|Hs]; [lia|].
    unfold wrapu. rewrite Z.mod_pow2_bits_low, Hs by lia. done.
Qed.

Lemma bits_of_inj a b : bytes_ok a -> bytes_ok b -> length a = length b -> bits_of a = bits_of b -> a = b.
Proof.
  revert b. induction a as [|x a IH]; intros [|y b] Ha Hb Hl E; try done.
  apply Forall_cons in Ha as [Hx Ha], Hb as [Hy Hb]. change (byte_bits x ++ bits_of a = byte_bits y ++ bits_of b) in E.
  apply app_inj_1 in E as [E1 E2]; [|done]. f_equal; [|apply IH; [done|done|by injection Hl|done]].
  unfold byte_ok in *. rewrite <- (wrapu_small (Z.of_nat 8) x), <- (wrapu_small (Z.of_nat 8) y), <- !be_val_bits by (simpl; lia).
  unfold byte_bits in E1. by rewrite E1.
Qed.

(** The value counts modulo 2^64 only. *)
Lemma bitfield_set_agree p offset bits v w :
  1 <= bits <= 64 -> bytes_ok p -> 0 <= offset -> offset + bits <= 8 * zlen p -> 8 * zlen p < 2 ^ 64 -> u64 v = u64 w ->
  setUnsignedBitfield p offset bits v = setUnsignedBitfield p offset bits w.
Proof.
  intros Hb Hp Ho Hl Hm E. destruct (setUnsigned_spec p offset bits v Hb Hp Ho Hl Hm) as (q & -> & Q1 & Q2 & Q3).
  destruct (setUnsigned_spec p offset bits w Hb Hp Ho Hl Hm) as (r & -> & R1 & R2 & R3). f_equal.
  rewrite (be_bits_mod (Z.to_nat bits) w v), <- Q3 in R3.
  - apply bits_of_inj; [done|done|congruence|done].
  - rewrite <- (wrapu_wrapu _ 64 w), <- (wrapu_wrapu _ 64 v) by lia. by rewrite E.
Qed.

(** ** Theorems *)

(** C32: [redisPopcount] returns the number of bits set in the string, whatever
    its address, its length and the byte order of the host; in particular the
    28-bytes-at-a-time loop counts what the table does and no sum overflows. *)
Theorem redisPopcount_correct (be : bool) (addr : Z) (s : list Z) :
  bytes_ok s -> zlen s < 2 ^ 60 -> redisPopcount be addr s = Some (ones (bits_of s)).
Proof. apply popcount_spec. Qed.

(** C33: [redisBitpos] returns the position of the first bit equal to [bit]; with
    no such bit it returns -1 when it looks for ones and the number of bits
    of the string when it looks for zeros.  It never reaches its
    [serverPanic]. *)
Theorem redisBitpos_correct (be : bool) (addr : Z) (s : list Z) (bit : bool) :
  bytes_ok s ->
  exists pos, redisBitpos be addr s bit = Some pos /\
    ((pos = (if bit then -1 else 8 * zlen s) /\ Forall (fun b => b = negb bit) (bits_of s)) \/
     (0 <= pos /\ bits_of s !! Z.to_nat pos = Some bit /\ Forall (fun b => b = negb bit) (take (Z.to_nat pos) (bits_of s)))).
Proof.
  intros Hs. rewrite bitpos_spec by done. eexists. split; [reflexivity|]. unfold bitpos_result.
  destruct (bit_index bit (bits_of s)) as [i|] eqn:E; [right|left; split; [done|by apply bit_index_none]].
  generalize dependent i. generalize (bits_of s) as l. clear. induction l as [|x l IH]; intros i; simpl; [done|].
  destruct (Bool.eqb x bit) eqn:Ex; [intros [= <-]; apply eqb_prop in Ex as ->; split; [done|]; split; [done|constructor]|].
  destruct (bit_index bit l) as [j|]; [|done]. intros [= <-]. destruct (IH j eq_refl) as (H1 & H2 & H3).
  rewrite Z2Nat.inj_succ by done. split; [lia|]. split; [done|]. cbn [take]. constructor; [by destruct x, bit|done].
Qed.

(** C34: writing a value to a field of 1 to 64 bits inside the string succeeds
    and changes no other bit.  Reading the field back gives the value modulo
    the width, unsigned or signed, the latter except for negative 64-bit
    values. *)
Theorem bitfield_set_get (p : list Z) (offset bits v : Z) :
  1 <= bits <= 64 -> bytes_ok p -> 0 <= offset -> offset + bits <= 8 * zlen p -> 8 * zlen p < 2 ^ 64 ->
  exists p', setUnsignedBitfield p offset bits v = Some p' /\ setSignedBitfield p offset bits v = Some p' /\
    bytes_ok p' /\ zlen p' = zlen p /\
    take (Z.to_nat offset) (bits_of p') = take (Z.to_nat offset) (bits_of p) /\
    drop (Z.to_nat (offset + bits)) (bits_of p') = drop (Z.to_nat (offset + bits)) (bits_of p) /\
    getUnsignedBitfield p' offset bits = Some (wrapu bits v) /\
    (bits < 64 \/ Z.testbit v 63 = false -> getSignedBitfield p' offset bits = Some (wraps bits v)).
Proof.
  intros Hb Hp Ho Hl Hm. destruct (setUnsigned_get p offset bits v Hb Hp Ho Hl Hm) as (p' & E & H1 & H2 & H3 & H4 & H5).
  exists p'. split; [done|]. split; [|auto].
  unfold setSignedBitfield. rewrite <- E. apply bitfield_set_agree; try done. apply wrapu_wrapu. lia.
Qed.

(** C35: for a signed field of [bits] bits, [checkSignedBitfieldOverflow] detects
    exactly the increments that leave the range and computes the saturated and
    the wrapped value, provided that [max - value] does not overflow (as for
    any value read from a field).  The wrapped value of a 64-bit field is
    undefined behaviour.  An underflow that wraps is reported as 1. *)
Theorem checkSignedBitfieldOverflow_correct (value incr bits : Z) (owtype : bfoverflow) (limit : bool) :
  1 <= bits <= 64 -> in_s 64 value -> in_s 64 incr -> 2 ^ (bits - 1) - 1 - value < 2 ^ 63 \/ bits = 64 ->
  checkSignedBitfieldOverflow value incr bits owtype limit =
    let max := 2 ^ (bits - 1) - 1 in
    let min := - 2 ^ (bits - 1) in
    let t := value + incr in
    let undefined := (bits =? 64) && limit && match owtype with BFOVERFLOW_WRAP => true | _ => false end in
    if (value >? max) || (t >? max) then
      if undefined then None else Some (overflow_result 1 owtype limit max (wraps bits t))
    else if (value <? min) || (t <? min) then
      if undefined then None else Some (overflow_result (-1) owtype limit min (wraps bits t))
    else Some (0, None).
Proof. apply checkSigned_spec. Qed.

(** For an unsigned field of 1 to 63 bits, [checkUnsignedBitfieldOverflow]
    detects exactly the increments that leave the range and computes the
    saturated and the wrapped value. *)
Theorem checkUnsignedBitfieldOverflow_correct (value incr bits : Z) (owtype : bfoverflow) (limit : bool) :
  1 <= bits <= 63 -> in_u 64 value -> in_s 64 incr ->
  checkUnsignedBitfieldOverflow value incr bits owtype limit =
    let max := 2 ^ bits - 1 in
    let t := value + incr in
    Some (if (value >? max) || (t >? max) then overflow_result 1 owtype limit max (wrapu bits t)
          else if t <? 0 then overflow_result (-1) owtype limit 0 (wrapu bits t)
          else (0, None)).
Proof. apply checkUnsigned_spec. Qed.

(** The difference [max - value] wraps around for values near the minimum,
    and the underflow is taken for an overflow: the saturated value of the
    smallest 64-bit integer in a signed byte is 127. *)
Example checkSigned_wrong_side :
  checkSignedBitfieldOverflow LLONG_MIN 0 8 BFOVERFLOW_SAT true = Some (1, Some 127).
Proof. reflexivity. Qed.

(** Wrapping a 64-bit field, or reading a negative one, shifts by 64. *)
Example i64_undefined :
  checkSignedBitfieldOverflow LLONG_MAX 1 64 BFOVERFLOW_WRAP true = None /\
  getSignedBitfield [255; 0; 0; 0; 0; 0; 0; 0] 0 64 = None.
Proof. split; reflexivity. Qed.

(** ** Witnesses *)
Definition bitmap_w : list Z := [0; 255; 16; 3] ++ repeat 7 30 ++ [128].

Lemma redisPopcount_witness : redisPopcount false 3 bitmap_w = Some (ones (bits_of bitmap_w)) /\ ones (bits_of bitmap_w) = 102.
Proof.
  split; [|vm_compute; reflexivity]. apply redisPopcount_correct; [|vm_compute; reflexivity].
  unfold bitmap_w. repeat (apply Forall_cons; split; [unfold byte_ok; lia|]). apply Forall_nil. exact I.
Defined.

Lemma redisBitpos_witness : exists pos, redisBitpos true 0 (repeat 0 9 ++ [16]) true = Some pos /\ pos = 75.
Proof.
  destruct (redisBitpos_correct true 0 (repeat 0 9 ++ [16]) true) as (pos & E & _).
  - simpl. repeat (apply Forall_cons; split; [unfold byte_ok; lia|]). apply Forall_nil. exact I.
  - exists pos. split; [exact E|]. assert (H : redisBitpos true 0 (repeat 0 9 ++ [16]) true = Some 75) by (vm_compute; reflexivity).
    rewrite H in E. injection E as <-. reflexivity.
Defined.

Lemma bitfield_set_get_witness : exists p', setSignedBitfield [0; 0] 7 5 (-9) = Some p' /\ p' = [1; 112] /\ getSignedBitfield p' 7 5 = Some (-9).
Proof.
  destruct (bitfield_set_get [0; 0] 7 5 (-9)) as (p' & _ & E & _ & _ & _ & _ & _ & H).
  - lia.
  - repeat (apply Forall_cons; split; [unfold byte_ok; lia|]). apply Forall_nil. exact I.
  - lia.
  - vm_compute. discriminate.
  - reflexivity.
  - exists p'. split; [exact E|]. split; [|apply H; left; lia].
    assert (H2 : setSignedBitfield [0; 0] 7 5 (-9) = Some [1; 112]) by (vm_compute; reflexivity). rewrite H2 in E. injection E as <-. reflexivity.
Defined.

Lemma checkSignedBitfieldOverflow_witness : checkSignedBitfieldOverflow 120 10 8 BFOVERFLOW_WRAP true = Some (1, Some (-126)).
Proof.
  rewrite checkSignedBitfieldOverflow_correct; [reflexivity|lia|split; [vm_compute; discriminate|reflexivity]
    |split; [vm_compute; discriminate|reflexivity]|left; vm_compute; reflexivity].
Defined.

Lemma checkUnsignedBitfieldOverflow_witness : checkUnsignedBitfieldOverflow 3 (-5) 8 BFOVERFLOW_SAT true = Some (-1, Some 0).
Proof.
  rewrite checkUnsignedBitfieldOverflow_correct; [reflexivity|lia|split; [vm_compute; discriminate|reflexivity]
    |split; [vm_compute; discriminate|reflexivity]].
Defined.
