(* ===== verification/BitCommands.v ===== *)
(** * bitops.c: SETBIT, GETBIT, BITOP, BITCOUNT, BITPOS and BITFIELD

    The commands on a keyspace.  A value of type string is its bytes, or an
    integer when it has the integer encoding; Sds.v shows that sds strings
    implement byte strings, so [sdsgrowzero] and [sdsnewlen] are their
    specifications here.  Expired keys are not in the keyspace: [lookupKeyRead]
    and [lookupKeyWrite] are lookups.  The theorems state the commands in terms
    of the bits of the zero-extended string. *)
From Stdlib Require Import String.
From S2P Require Import Prelude Endian Util Bits.

Abbreviation bs := (list Z).

(** ** State *)
Inductive robj :=
| ORaw (s : bs)      (* OBJ_STRING, raw or embstr *)
| OInt (v : Z)       (* OBJ_STRING, OBJ_ENCODING_INT *)
| OOther.            (* any other type *)

Inductive err :=
| EBitOffset | EBitfieldType | EBitValue | ENotInteger | EOutOfRange | EWrongType | ESyntax | ENotArity | EBitArg | EOverflowType | EReadOnly.
Inductive reply := RInt (v : Z) | RNull | RArrayLen (n : Z) | RErr (e : err).
Inductive event := EvModified (key : bs) | EvSetbit (key : bs) | EvSet (key : bs) | EvDel (key : bs).

Record state := mk_state {
  db : gmap bs robj;
  dirty : Z;
  out : list reply;
  events : list event
}.
Definition reply1 (s : state) (r : reply) : state := mk_state (db s) (dirty s) (out s ++ [r]) (events s).
Definition set_key (s : state) (k : bs) (o : robj) : state := mk_state (<[k := o]> (db s)) (dirty s) (out s) (events s).
Definition del_key (s : state) (k : bs) : state := mk_state (delete k (db s)) (dirty s) (out s) (events s).
Definition add_dirty (s : state) (n : Z) : state := mk_state (db s) (dirty s + n) (out s) (events s).
Definition emit (s : state) (e : event) : state := mk_state (db s) (dirty s) (out s) (events s ++ [e]).

(** ** Arguments *)
(** [(unsigned char)p[0]]: an sds string ends with a NUL. *)
Definition first_char (p : bs) : Z := match p with [] => 0 | c :: _ => c end.

(** [None] is [C_ERR], after the error reply. *)
Definition getBitOffsetFromArgument (o : bs) (hash : bool) (bits : Z) : option Z :=
  let usehash := (first_char o =? 35) && hash && (bits >? 0) in
  loffset ← string2ll (if usehash then drop 1 o else o);
  let loffset := if usehash then s64 (loffset * bits) else loffset in
  if (loffset <? 0) || (Z.shiftr loffset 3 >=? 512 * 1024 * 1024) then None else Some loffset.

(** The type [(sign, bits)]; the number is read with [strlen]. *)
Definition getBitfieldTypeFromArgument (o : bs) : option (bool * Z) :=
  sign ← (if first_char o =? 105 then Some true else if first_char o =? 117 then Some false else None);
  llbits ← string2ll (cstr (drop 1 o));
  if (llbits <? 1) || (sign && (llbits >? 64)) || (negb sign && (llbits >? 63)) then None else Some (sign, llbits).

(** object.c; an argument is an sds string. *)
Definition getLongLongFromObject (o : bs) : option Z := string2ll o.
Definition getLongFromObject (o : bs) (msg : option err) : Z + err :=
  match getLongLongFromObject o with
  | None => inr (default ENotInteger msg)
  | Some value => if (value <? LONG_MIN) || (value >? LONG_MAX) then inr (default EOutOfRange msg) else inl value
  end.

(** [sdsnewlen(NULL,n)], [sdsgrowzero]. *)
Definition zeros (n : Z) : bs := replicate (Z.to_nat n) 0.
Definition growzero (s : bs) (n : Z) : bs := s ++ replicate (Z.to_nat n - length s) 0.

Definition LONG_STR_SIZE : Z := 21.

(** A buffer on the stack: what it holds before is arbitrary. *)
Section Stack.
  Context (llbuf : bs) (be : bool) (use_aligned_access : bool) (addr : Z).

(** [None] is a failed assertion. *)
Definition getObjectReadOnlyString (o : robj) : option bs :=
  match o with
  | OInt v => '(len, buf) ← ll2string llbuf LONG_STR_SIZE v; load buf 0 len
  | ORaw s => Some s
  | OOther => None
  end.

(** [getDecodedObject]: the same with a buffer of its own. *)
Definition getDecodedObject (o : robj) : option bs := getObjectReadOnlyString o.

(** The new keyspace and the string the command writes to; [inr] after an
    error reply. *)
Definition lookupStringForBitCommand (s : state) (key : bs) (maxbit : Z) : option (state * bs + err) :=
  let byte := Z.shiftr maxbit 3 in
  match db s !! key with
  | None => let o := zeros (byte + 1) in Some (inl (set_key s key (ORaw o), o))
  | Some OOther => Some (inr EWrongType)
  | Some o => v ← getDecodedObject o; let v := growzero v (byte + 1) in Some (inl (set_key s key (ORaw v), v))
  end.

(** ** SETBIT, GETBIT *)
Definition setbitCommand (s : state) (key off val : bs) : option state :=
  match getBitOffsetFromArgument off false 0 with
  | None => Some (reply1 s (RErr EBitOffset))
  | Some bitoffset =>
      match getLongFromObject val (Some EBitValue) with
      | inr e => Some (reply1 s (RErr e))
      | inl on =>
          if negb (Z.land on (Z.lnot 1) =? 0) then Some (reply1 s (RErr EBitValue))
          else
            r ← lookupStringForBitCommand s key bitoffset;
            match r with
            | inr e => Some (reply1 s (RErr e))
            | inl (s, o) =>
                let byte := Z.shiftr bitoffset 3 in
                byteval ← load1 o byte;
                let bit := 7 - Z.land bitoffset 7 in
                let bitval := Z.land byteval (Z.shiftl 1 bit) in
                let byteval := Z.land byteval (Z.lnot (Z.shiftl 1 bit)) in
                let byteval := Z.lor byteval (Z.shiftl (Z.land on 1) bit) in
                o ← store o byte [u8 byteval];
                let s := set_key s key (ORaw o) in
                let s := emit (emit s (EvModified key)) (EvSetbit key) in
                let s := add_dirty s 1 in
                Some (reply1 s (RInt (if bitval =? 0 then 0 else 1)))
            end
      end
  end.

Definition getbitCommand (s : state) (key off : bs) : option state :=
  match getBitOffsetFromArgument off false 0 with
  | None => Some (reply1 s (RErr EBitOffset))
  | Some bitoffset =>
      match db s !! key with
      | None => Some (reply1 s (RInt 0))
      | Some OOther => Some (reply1 s (RErr EWrongType))
      | Some o =>
          let byte := Z.shiftr bitoffset 3 in
          let bit := 7 - Z.land bitoffset 7 in
          v ← getObjectReadOnlyString o;
          bitval ← (if byte <? zlen v then b ← load1 v byte; Some (Z.land b (Z.shiftl 1 bit)) else Some 0);
          Some (reply1 s (RInt (if bitval =? 0 then 0 else 1)))
      end
  end.

(** ** BITOP *)
Inductive bitop := BITOP_AND | BITOP_OR | BITOP_XOR | BITOP_NOT.

Definition parse_bitop (opname : bs) : option bitop :=
  let c := first_char opname in
  let name := cstr opname in
  if ((c =? 97) || (c =? 65)) && strcasecmp_eq name (bytes_of_string "and"%string) then Some BITOP_AND
  else if ((c =? 111) || (c =? 79)) && strcasecmp_eq name (bytes_of_string "or"%string) then Some BITOP_OR
  else if ((c =? 120) || (c =? 88)) && strcasecmp_eq name (bytes_of_string "xor"%string) then Some BITOP_XOR
  else if ((c =? 110) || (c =? 78)) && strcasecmp_eq name (bytes_of_string "not"%string) then Some BITOP_NOT
  else None.

(** The lookup loop: the sources (a missing key is the empty string), [maxlen]
    and [minlen]; [inr] when a key holds another type. *)
Fixpoint bitop_lookup (s : state) (keys : list bs) (first : bool) (src : list bs) (maxlen minlen : Z) : option (list bs * Z * Z + err) :=
  match keys with
  | [] => Some (inl (src, maxlen, minlen))
  | k :: keys =>
      match db s !! k with
      | None => bitop_lookup s keys false (src ++ [[]]) maxlen 0
      | Some OOther => Some (inr EWrongType)
      | Some o =>
          v ← getDecodedObject o;
          let maxlen := if zlen v >? maxlen then zlen v else maxlen in
          let minlen := if first || (zlen v <? minlen) then zlen v else minlen in
          bitop_lookup s keys false (src ++ [v]) maxlen minlen
      end
  end.

(** The operation on two words or two bytes. *)
Definition bin_op (op : bitop) (a b : Z) : Z :=
  match op with BITOP_AND => Z.land a b | BITOP_OR => Z.lor a b | BITOP_XOR => Z.lxor a b | BITOP_NOT => a end.

(** [lres[w] op= lp[i][w]], with the word at byte [off]. *)
Definition word_op (op : bitop) (res src : bs) (off : Z) : option bs :=
  a ← load res off 8;
  b ← load src off 8;
  store res off (native_bytes be 8 (bin_op op (native_val be a) (native_val be b))).
Definition word_not (res : bs) (off : Z) : option bs :=
  a ← load res off 8; store res off (native_bytes be 8 (u64 (Z.lnot (native_val be a)))).

(** Four words at byte [j]. *)
Definition words4 (f : bs -> Z -> option bs) (res : bs) (j : Z) : option bs :=
  res ← f res j; res ← f res (j + 8); res ← f res (j + 16); f res (j + 24).

Fixpoint fast_keys (op : bitop) (src : list bs) (res : bs) (j : Z) : option bs :=
  match src with
  | [] => Some res
  | p :: src => res ← words4 (fun res off => word_op op res p off) res j; fast_keys op src res j
  end.

(** [while(minlen >= sizeof(unsigned long)*4)]; [minlen] is enough fuel. *)
Fixpoint fast_loop (fuel : nat) (op : bitop) (src : list bs) (res : bs) (j minlen : Z) : option (bs * Z) :=
  if minlen >=? 32 then
    match fuel with
    | O => None
    | S fuel =>
        res ← match op with BITOP_NOT => words4 word_not res j | _ => fast_keys op (drop 1 src) res j end;
        fast_loop fuel op src res (j + 32) (minlen - 32)
    end
  else Some (res, j).

(** [(len[i] <= j) ? 0 : src[i][j]]. *)
Definition byte_or_zero (p : bs) (j : Z) : option Z := if zlen p <=? j then Some 0 else load1 p j.

Fixpoint slow_keys (op : bitop) (src : list bs) (output j : Z) : option Z :=
  match src with
  | [] => Some output
  | p :: src => byte ← byte_or_zero p j; slow_keys op src (bin_op op output byte) j
  end.

(** [for (; j < maxlen; j++)], [n] iterations left. *)
Fixpoint slow_loop (n : nat) (op : bitop) (src : list bs) (res : bs) (j : Z) : option bs :=
  match n with
  | O => Some res
  | S n =>
      p0 ← src !! 0%nat;
      output ← byte_or_zero p0 j;
      let output := match op with BITOP_NOT => u8 (Z.lnot output) | _ => output end in
      output ← slow_keys op (drop 1 src) output j;
      res ← store res j [output];
      slow_loop n op src res (j + 1)
  end.

Definition bitop_compute (op : bitop) (src : list bs) (maxlen minlen : Z) : option bs :=
  let res := zeros maxlen in
  '(res, j) ← (if negb use_aligned_access && (minlen >=? 32) && (zlen src <=? 16) then
                 p0 ← src !! 0%nat;
                 first ← load p0 0 minlen;
                 res ← store res 0 first;
                 fast_loop (Z.to_nat minlen) op src res 0 minlen
               else Some (res, 0));
  slow_loop (Z.to_nat (maxlen - j)) op src res j.

Definition bitopCommand (s : state) (opname targetkey : bs) (keys : list bs) : option state :=
  match parse_bitop opname with
  | None => Some (reply1 s (RErr ESyntax))
  | Some op =>
      if match op with BITOP_NOT => negb (zlen keys =? 1) | _ => false end then Some (reply1 s (RErr ENotArity))
      else
        r ← bitop_lookup s keys true [] 0 0;
        match r with
        | inr e => Some (reply1 s (RErr e))
        | inl (src, maxlen, minlen) =>
            s ← (if maxlen =? 0 then
                   Some (if bool_decide (is_Some (db s !! targetkey))
                         then emit (emit (del_key s targetkey) (EvModified targetkey)) (EvDel targetkey) else s)
                 else
                   res ← bitop_compute op src maxlen minlen;
                   Some (emit (emit (set_key s targetkey (ORaw res)) (EvModified targetkey)) (EvSet targetkey)));
            Some (reply1 (add_dirty s 1) (RInt maxlen))
        end
  end.

(** ** BITCOUNT, BITPOS *)
(** Negative indexes count from the end. *)
Definition clip (strlen start e : Z) : Z * Z :=
  let start := if start <? 0 then strlen + start else start in
  let e := if e <? 0 then strlen + e else e in
  let start := if start <? 0 then 0 else start in
  let e := if e <? 0 then 0 else e in
  let e := if e >=? strlen then strlen - 1 else e in
  (start, e).

Definition bitcountCommand (s : state) (key : bs) (args : list bs) : option state :=
  match db s !! key with
  | None => Some (reply1 s (RInt 0))
  | Some OOther => Some (reply1 s (RErr EWrongType))
  | Some o =>
      p ← getObjectReadOnlyString o;
      let strlen := zlen p in
      let count start e :=
        if start >? e then Some (reply1 s (RInt 0))
        else
          let bytes := e - start + 1 in
          l ← load p start bytes;
          n ← redisPopcount be (u64 (addr + start)) l;
          Some (reply1 s (RInt (s64 n))) in
      match args with
      | [a; b] =>
          match getLongFromObject a None with
          | inr e => Some (reply1 s (RErr e))
          | inl start =>
              match getLongFromObject b None with
              | inr e => Some (reply1 s (RErr e))
              | inl e =>
                  if (start <? 0) && (e <? 0) && (start >? e) then Some (reply1 s (RInt 0))
                  else let '(start, e) := clip strlen start e in count start e
              end
          end
      | [] => count 0 (strlen - 1)
      | _ => Some (reply1 s (RErr ESyntax))
      end
  end.

Definition bitposCommand (s : state) (key bitarg : bs) (args : list bs) : option state :=
  match getLongFromObject bitarg None with
  | inr e => Some (reply1 s (RErr e))
  | inl bit =>
      if negb (bit =? 0) && negb (bit =? 1) then Some (reply1 s (RErr EBitArg))
      else
        match db s !! key with
        | None => Some (reply1 s (RInt (if bit =? 0 then 0 else -1)))
        | Some OOther => Some (reply1 s (RErr EWrongType))
        | Some o =>
            p ← getObjectReadOnlyString o;
            let strlen := zlen p in
            let search (end_given : bool) start e :=
              if start >? e then Some (reply1 s (RInt (-1)))
              else
                let bytes := e - start + 1 in
                l ← load p start bytes;
                pos ← redisBitpos be (u64 (addr + start)) l (negb (bit =? 0));
                if end_given && (bit =? 0) && (pos =? bytes * 8) then Some (reply1 s (RInt (-1)))
                else Some (reply1 s (RInt (if negb (pos =? -1) then pos + start * 8 else pos))) in
            match args with
            | [] => search false 0 (strlen - 1)
            | a :: rest =>
                match rest with
                | [] | [_] =>
                    match getLongFromObject a None with
                    | inr e => Some (reply1 s (RErr e))
                    | inl start =>
                        match match rest with [b] => getLongFromObject b None | _ => inl (strlen - 1) end with
                        | inr e => Some (reply1 s (RErr e))
                        | inl e =>
                            let '(start, e) := clip strlen start e in
                            search (match rest with [] => false | _ => true end) start e
                        end
                    end
                | _ => Some (reply1 s (RErr ESyntax))
                end
            end
        end
  end.

(** ** BITFIELD *)
Inductive bitfieldop := BITFIELDOP_GET | BITFIELDOP_SET | BITFIELDOP_INCRBY.
Record bitfieldOp := mk_op {
  bf_offset : Z;
  bf_i64 : Z;
  bf_opcode : bitfieldop;
  bf_owtype : bfoverflow;
  bf_bits : Z;
  bf_sign : bool
}.

Inductive subcommand := SubOp (o : bitfieldop) | SubOverflow | SubSyntax.
Definition parse_sub (subcmd : bs) (remargs : Z) : subcommand :=
  let eq n := strcasecmp_eq (cstr subcmd) (bytes_of_string n) in
  if eq "get"%string && (remargs >=? 2) then SubOp BITFIELDOP_GET
  else if eq "set"%string && (remargs >=? 3) then SubOp BITFIELDOP_SET
  else if eq "incrby"%string && (remargs >=? 3) then SubOp BITFIELDOP_INCRBY
  else if eq "overflow"%string && (remargs >=? 1) then SubOverflow
  else SubSyntax.

Definition parse_owtype (name : bs) : option bfoverflow :=
  let eq n := strcasecmp_eq (cstr name) (bytes_of_string n) in
  if eq "wrap"%string then Some BFOVERFLOW_WRAP
  else if eq "sat"%string then Some BFOVERFLOW_SAT
  else if eq "fail"%string then Some BFOVERFLOW_FAIL
  else None.

(** The loop over the arguments: [(ops, readonly, highest_write_offset)].  The
    number of arguments is enough fuel. *)
Fixpoint bitfield_parse (fuel : nat) (args : list bs) (owtype : bfoverflow) (ops : list bitfieldOp) (readonly : bool) (highest : Z)
  : option (list bitfieldOp * bool * Z + err) :=
  match args with
  | [] => Some (inl (ops, readonly, highest))
  | subcmd :: rest =>
      match fuel with
      | O => None
      | S fuel =>
          match parse_sub subcmd (zlen rest) with
          | SubSyntax => Some (inr ESyntax)
          | SubOverflow =>
              name ← rest !! 0%nat;
              match parse_owtype name with
              | None => Some (inr EOverflowType)
              | Some ow => bitfield_parse fuel (drop 1 rest) ow ops readonly highest
              end
          | SubOp opcode =>
              a1 ← rest !! 0%nat;
              match getBitfieldTypeFromArgument a1 with
              | None => Some (inr EBitfieldType)
              | Some (sign, bits) =>
                  a2 ← rest !! 1%nat;
                  match getBitOffsetFromArgument a2 true bits with
                  | None => Some (inr EBitOffset)
                  | Some bitoffset =>
                      match opcode with
                      | BITFIELDOP_GET =>
                          bitfield_parse fuel (drop 2 rest) owtype (ops ++ [mk_op bitoffset 0 opcode owtype bits sign]) readonly highest
                      | _ =>
                          let highest := if highest <? bitoffset + bits - 1 then bitoffset + bits - 1 else highest in
                          a3 ← rest !! 2%nat;
                          match getLongLongFromObject a3 with
                          | None => Some (inr ENotInteger)
                          | Some i64 =>
                              bitfield_parse fuel (drop 3 rest) owtype (ops ++ [mk_op bitoffset i64 opcode owtype bits sign]) false highest
                          end
                      end
                  end
              end
          end
      end
  end.

(** The copy of at most nine bytes to the zeroed buffer, from byte [i] on. *)
Fixpoint copy9 (n : nat) (i byte : Z) (src : bs) (buf : bs) : option bs :=
  match n with
  | O => Some buf
  | S n =>
      if i + byte >=? zlen src then Some buf
      else b ← load1 src (i + byte); buf ← store buf i [b]; copy9 n (i + 1) byte src buf
  end.

(** GET; [None] for the string is the missing key. *)
Definition bitfield_get (src : option bs) (op : bitfieldOp) : option reply :=
  let byte := Z.shiftr (bf_offset op) 3 in
  buf ← match src with None => Some (zeros 9) | Some src => copy9 9 0 byte src (zeros 9) end;
  if bf_sign op
  then v ← getSignedBitfield buf (bf_offset op - byte * 8) (bf_bits op); Some (RInt v)
  else v ← getUnsignedBitfield buf (bf_offset op - byte * 8) (bf_bits op); Some (RInt (s64 v)).

(** SET and INCRBY on the string.  With [BFOVERFLOW_FAIL] the value read from
    the unset [wrapped] is not used. *)
Definition bitfield_write (p : bs) (op : bitfieldOp) : option (reply * bs) :=
  let fails overflow := negb (overflow =? 0) && match bf_owtype op with BFOVERFLOW_FAIL => true | _ => false end in
  if bf_sign op then
    oldval ← getSignedBitfield p (bf_offset op) (bf_bits op);
    '(overflow, newval, retval) ←
      match bf_opcode op with
      | BITFIELDOP_INCRBY =>
          let newval := s64 (oldval + bf_i64 op) in
          '(overflow, wrapped) ← checkSignedBitfieldOverflow oldval (bf_i64 op) (bf_bits op) (bf_owtype op) true;
          let newval := if negb (overflow =? 0) then default 0 wrapped else newval in
          Some (overflow, newval, newval)
      | _ =>
          let newval := bf_i64 op in
          '(overflow, wrapped) ← checkSignedBitfieldOverflow newval 0 (bf_bits op) (bf_owtype op) true;
          let newval := if negb (overflow =? 0) then default 0 wrapped else newval in
          Some (overflow, newval, oldval)
      end;
    if negb (fails overflow)
    then p ← setSignedBitfield p (bf_offset op) (bf_bits op) newval; Some (RInt retval, p)
    else Some (RNull, p)
  else
    oldval ← getUnsignedBitfield p (bf_offset op) (bf_bits op);
    '(overflow, newval, retval) ←
      match bf_opcode op with
      | BITFIELDOP_INCRBY =>
          let newval := u64 (oldval + bf_i64 op) in
          '(overflow, wrapped) ← checkUnsignedBitfieldOverflow oldval (bf_i64 op) (bf_bits op) (bf_owtype op) true;
          let newval := if negb (overflow =? 0) then default 0 wrapped else newval in
          Some (overflow, newval, newval)
      | _ =>
          let newval := u64 (bf_i64 op) in
          '(overflow, wrapped) ← checkUnsignedBitfieldOverflow newval 0 (bf_bits op) (bf_owtype op) true;
          let newval := if negb (overflow =? 0) then default 0 wrapped else newval in
          Some (overflow, newval, oldval)
      end;
    if negb (fails overflow)
    then p ← setUnsignedBitfield p (bf_offset op) (bf_bits op) newval; Some (RInt (s64 retval), p)
    else Some (RNull, p).

(** The loop over the operations: the string, the replies, [changes].  The
    string is there whenever an operation writes. *)
Fixpoint bitfield_exec (ops : list bitfieldOp) (p : option bs) (changes : Z) : option (option bs * list reply * Z) :=
  match ops with
  | [] => Some (p, [], changes)
  | op :: ops =>
      '(r, p, changes) ←
        match bf_opcode op with
        | BITFIELDOP_GET => r ← bitfield_get p op; Some (r, p, changes)
        | _ => q ← p; '(r, q) ← bitfield_write q op; Some (r, Some q, changes + 1)
        end;
      '(p, rs, changes) ← bitfield_exec ops p changes;
      Some (p, r :: rs, changes)
  end.

Definition replies (s : state) (rs : list reply) : state := mk_state (db s) (dirty s) (out s ++ rs) (events s).

Definition bitfieldGeneric (s : state) (flag_readonly : bool) (key : bs) (args : list bs) : option state :=
  r ← bitfield_parse (length args) args BFOVERFLOW_WRAP [] true 0;
  match r with
  | inr e => Some (reply1 s (RErr e))
  | inl (ops, readonly, highest) =>
      if negb readonly && flag_readonly then Some (reply1 s (RErr EReadOnly))
      else
        r ← (if readonly then
               match db s !! key with
               | None => Some (inl (s, None))
               | Some OOther => Some (inr EWrongType)
               | Some o => v ← getObjectReadOnlyString o; Some (inl (s, Some v))
               end
             else
               r ← lookupStringForBitCommand s key highest;
               Some (match r with inr e => inr e | inl (s, v) => inl (s, Some v) end));
        match r with
        | inr e => Some (reply1 s (RErr e))
        | inl (s, p) =>
            let s := reply1 s (RArrayLen (zlen ops)) in
            '(p, rs, changes) ← bitfield_exec ops p 0;
            let s := replies s rs in
            s ← (if readonly then Some s else p ← p; Some (set_key s key (ORaw p)));
            Some (if changes =? 0 then s else add_dirty (emit (emit s (EvModified key)) (EvSetbit key)) changes)
        end
  end.

Definition bitfieldCommand (s : state) (key : bs) (args : list bs) : option state := bitfieldGeneric s false key args.
Definition bitfieldroCommand (s : state) (key : bs) (args : list bs) : option state := bitfieldGeneric s true key args.
End Stack.

(** ** Values and their bits *)
Definition value_of (o : option robj) : option bs :=
  match o with None => Some [] | Some (ORaw s) => Some s | Some (OInt v) => Some (dec v) | Some OOther => None end.

(** A bit of the zero-extended string. *)
Definition bit_at (s : bs) (k : Z) : bool := default false (bits_of s !! Z.to_nat k).

(** Strings are limited to 512 MB. *)
Definition obj_ok (o : robj) : Prop :=
  match o with ORaw s => bytes_ok s /\ zlen s <= 2 ^ 29 | OInt v => in_s 64 v | OOther => True end.
Definition db_ok (d : gmap bs robj) : Prop := forall k o, d !! k = Some o -> obj_ok o.

Lemma readonly_spec llbuf o :
  zlen llbuf = LONG_STR_SIZE -> obj_ok o -> o <> OOther -> getObjectReadOnlyString llbuf o = value_of (Some o).
Proof.
  intros Hb Ho Hne. destruct o as [s|v|]; [done| |done]. cbn [getObjectReadOnlyString value_of].
  pose proof (dec_len20 v Ho) as Hl. unfold LONG_STR_SIZE in *. rewrite <- Hb, ll2string_spec by (done || (rewrite Hb; lia)).
  destruct (Z.ltb_spec (zlen (dec v)) (zlen llbuf)); [|lia]. cbn [mbind option_bind]. by apply (load_app []).
Qed.

Lemma value_bytes d k v : db_ok d -> value_of (d !! k) = Some v -> bytes_ok v /\ zlen v <= 2 ^ 29.
Proof.
  intros Hd. destruct (d !! k) as [o|] eqn:E; [|intros [= <-]; split; [constructor|done]]. apply Hd in E.
  destruct o as [s|n|]; [intros [= <-]; done| |done]. intros [= <-]. pose proof (dec_len20 n E). split; [apply dec_bytes|lia].
Qed.

Lemma offset_spec off k : getBitOffsetFromArgument off false 0 = Some k <-> off = dec k /\ 0 <= k < 2 ^ 32.
Proof.
  unfold getBitOffsetFromArgument. rewrite andb_false_r. cbn [andb].
  destruct (string2ll off) as [n|] eqn:E; cbn [mbind option_bind].
  - apply string2ll_iff in E as [Hn ->]. rewrite Z.shiftr_div_pow2 by lia. change (2 ^ 3) with 8.
    assert (Hc : (n <? 0) || (n / 8 >=? 512 * 1024 * 1024) = negb ((0 <=? n) && (n <? 2 ^ 32))).
    { zpow. rewrite Z.geb_leb. destruct (Z.ltb_spec n 0), (Z.leb_spec (512 * 1024 * 1024) (n / 8)), (Z.leb_spec 0 n), (Z.ltb_spec n 4294967296);
        cbn [orb andb negb]; try reflexivity; exfalso; pose proof (Z.div_mod n 8); pose proof (Z.mod_pos_bound n 8); lia. }
    rewrite Hc. destruct ((0 <=? n) && (n <? 2 ^ 32)) eqn:Er; cbn [negb].
    + zb. split; [intros [= <-]; split; [done|lia]|]. intros [Hd Hk]. f_equal.
      assert (H1 : string2ll (dec n) = Some n) by (by apply string2ll_iff). assert (H2 : string2ll (dec k) = Some k) by (apply string2ll_iff; split; [unfold in_s; zpow; lia|done]).
      congruence.
    + split; [done|]. intros [Hd Hk]. assert (H1 : string2ll (dec n) = Some n) by (by apply string2ll_iff).
      assert (H2 : string2ll (dec k) = Some k) by (apply string2ll_iff; split; [unfold in_s; zpow; lia|done]).
      assert (n = k) as -> by congruence. exfalso. apply andb_false_iff in Er as [Er|Er]; zb; lia.
  - split; [done|]. intros [-> Hk]. assert (H2 : string2ll (dec k) = Some k) by (apply string2ll_iff; split; [unfold in_s; zpow; lia|done]). congruence.
Qed.

Lemma getLong_spec o msg v : in_s 64 v -> getLongFromObject o msg = inl v <-> o = dec v.
Proof.
  intros Hv. unfold getLongFromObject, getLongLongFromObject. destruct (string2ll o) as [n|] eqn:E.
  - apply string2ll_iff in E as [Hn ->]. unfold in_s in *. zpow. unfold LONG_MIN, LONG_MAX, LLONG_MIN, LLONG_MAX.
    rewrite Z.gtb_ltb. destruct (Z.ltb_spec n (-9223372036854775808)); [lia|]. destruct (Z.ltb_spec 9223372036854775807 n); [lia|]. cbn [orb].
    split; [by intros [= ->]|]. intros E. f_equal.
    assert (H1 : string2ll (dec n) = Some n) by (apply string2ll_iff; split; [unfold in_s; zpow; lia|done]).
    assert (H2 : string2ll (dec v) = Some v) by (apply string2ll_iff; split; [unfold in_s; zpow; lia|done]). congruence.
  - split; [done|]. intros ->. assert (H2 : string2ll (dec v) = Some v) by (by apply string2ll_iff). congruence.
Qed.

Lemma bits_zeros n : bits_of (replicate n 0) = replicate (8 * n) false.
Proof.
  induction n as [|n IH]; [done|]. replace (8 * S n)%nat with (8 + 8 * n)%nat by lia. rewrite replicate_add, <- IH. done.
Qed.

Lemma bit_at_grow s n k : bit_at (growzero s n) k = bit_at s k.
Proof.
  unfold bit_at, growzero. rewrite bits_of_app, bits_zeros.
  destruct (decide (Z.to_nat k < length (bits_of s))%nat); [by rewrite lookup_app_l|].
  rewrite lookup_app_r by lia. rewrite (lookup_ge_None_2 (bits_of s)) by lia.
  destruct (replicate _ false !! _) as [b|] eqn:E; [|done]. by apply lookup_replicate in E as [-> _].
Qed.

Lemma growzero_ok s n : bytes_ok s -> bytes_ok (growzero s n) /\ zlen (growzero s n) = Z.max (zlen s) n.
Proof.
  intros Hs. unfold growzero. split.
  - apply Forall_app. split; [done|]. apply Forall_replicate. unfold byte_ok. lia.
  - rewrite zlen_app. unfold zlen. rewrite length_replicate. lia.
Qed.

Lemma lookupString_spec llbuf s key maxbit v :
  zlen llbuf = LONG_STR_SIZE -> db_ok (db s) -> value_of (db s !! key) = Some v ->
  lookupStringForBitCommand llbuf s key maxbit =
    Some (inl (set_key s key (ORaw (growzero v (Z.shiftr maxbit 3 + 1))), growzero v (Z.shiftr maxbit 3 + 1))).
Proof.
  intros Hb Hd Hv. unfold lookupStringForBitCommand. destruct (db s !! key) as [o|] eqn:E.
  - apply Hd in E. destruct o as [x|x|]; [by injection Hv as <-| |done].
    unfold getDecodedObject. rewrite readonly_spec, Hv by done. done.
  - injection Hv as <-. unfold growzero, zeros. simpl. rewrite Nat.sub_0_r. done.
Qed.

(** SETBIT's byte is the one [setUnsignedBitfield] would write. *)
Lemma setbit_byte b (v : bool) r : byte_ok b -> (r < 8)%nat ->
  u8 (Z.lor (Z.land b (Z.lnot (Z.shiftl 1 (7 - Z.of_nat r)))) (Z.shiftl (Z.land (Z.b2z v) 1) (7 - Z.of_nat r))) =
  put_bit b (Z.b2z v) (7 - Z.of_nat r).
Proof.
  intros Hb Hr. apply (all_bytes (fun b => forallb (fun r => forallb (fun v =>
    u8 (Z.lor (Z.land b (Z.lnot (Z.shiftl 1 (7 - Z.of_nat r)))) (Z.shiftl (Z.land (Z.b2z v) 1) (7 - Z.of_nat r))) =?
    put_bit b (Z.b2z v) (7 - Z.of_nat r)) [true; false]) (seq 0 8))) in Hb; [|vm_compute; reflexivity].
  rewrite forallb_forall in Hb. specialize (Hb r ltac:(apply in_seq; lia)). rewrite forallb_forall in Hb.
  specialize (Hb v ltac:(destruct v; simpl; auto)). by apply Z.eqb_eq in Hb.
Qed.

Lemma read_bit b r : (r < 8)%nat -> (if Z.land b (Z.shiftl 1 (7 - Z.of_nat r)) =? 0 then 0 else 1) = Z.b2z (Z.testbit b (7 - Z.of_nat r)).
Proof. intros Hr. rewrite Z.shiftl_1_l, Z.land_comm, land_pow2 by lia. by destruct (Z.testbit b _). Qed.

Lemma bit_at_lookup v k i r b : v !! i = Some b -> (r < 8)%nat -> Z.to_nat k = (8 * i + r)%nat -> bit_at v k = Z.testbit b (7 - Z.of_nat r).
Proof. intros Hb Hr Hk. unfold bit_at. by rewrite Hk, (bits_of_lookup v i b r). Qed.

Lemma bit_at_insert v k i b c r x j :
  v !! i = Some b -> (r < 8)%nat -> Z.to_nat k = (8 * i + r)%nat -> byte_bits c = <[r := x]> (byte_bits b) -> 0 <= k -> 0 <= j ->
  bit_at (<[i := c]> v) j = if decide (j = k) then x else bit_at v j.
Proof.
  intros Hb Hr Hk Hc Hk0 Hj. unfold bit_at. rewrite (bits_of_insert v i b c r x) by done. rewrite <- Hk.
  destruct (decide (j = k)) as [->|Hne].
  - rewrite list_lookup_insert_eq; [done|]. rewrite bits_of_length. apply lookup_lt_Some in Hb. lia.
  - rewrite list_lookup_insert_ne; [done|lia].
Qed.

Lemma setbit_spec llbuf s key k (x : bool) v :
  zlen llbuf = LONG_STR_SIZE -> db_ok (db s) -> value_of (db s !! key) = Some v -> 0 <= k < 2 ^ 32 ->
  exists v', bytes_ok v' /\ zlen v' = Z.max (zlen v) (k / 8 + 1) /\
    (forall j, 0 <= j -> bit_at v' j = if decide (j = k) then x else bit_at v j) /\
    setbitCommand llbuf s key (dec k) (dec (Z.b2z x)) =
      Some (mk_state (<[key := ORaw v']> (db s)) (dirty s + 1) (out s ++ [RInt (Z.b2z (bit_at v k))])
              ((events s ++ [EvModified key]) ++ [EvSetbit key])).
Proof.
  intros Hl Hd Hv Hk. destruct (value_bytes _ _ _ Hd Hv) as [Hvb Hvl].
  destruct (growzero_ok v (k / 8 + 1) Hvb) as [Hgb Hgl].
  destruct (bit_address (growzero v (k / 8 + 1)) k) as (i & r & b & Hi & Hr & Hr8 & Hb & Hbok & Ek).
  { done. }
  { split; [lia|]. rewrite Hgl. pose proof (Z.div_mod k 8). pose proof (Z.mod_pos_bound k 8). lia. }
  set (c := put_bit b (Z.b2z x) (7 - Z.of_nat r)). destruct (put_bit_spec b x r Hbok Hr8) as [Hc1 Hc2]. fold c in Hc1, Hc2.
  exists (<[i := c]> (growzero v (k / 8 + 1))). split; [by apply Forall_insert|].
  split; [unfold zlen in *; by rewrite length_insert|]. split.
  { intros j Hj. rewrite (bit_at_insert _ k i b c r x) by (done || lia). by rewrite bit_at_grow. }
  unfold setbitCommand. rewrite (proj2 (offset_spec (dec k) k)) by done.
  rewrite (proj2 (getLong_spec (dec (Z.b2z x)) (Some EBitValue) (Z.b2z x) ltac:(destruct x; unfold in_s; zpow; simpl; lia)) eq_refl).
  assert (Hon : Z.land (Z.b2z x) (Z.lnot 1) = 0) by (by destruct x). rewrite Hon. cbn [negb Z.eqb].
  rewrite (lookupString_spec llbuf s key k v) by done. cbn [mbind option_bind]. rewrite shift3 in *.
  set (g := growzero v (k / 8 + 1)) in *. rewrite Hi, Hr, load1_nat, Hb. cbn [mbind option_bind].
  rewrite setbit_byte, read_bit by done. fold c. rewrite store1 by (by apply lookup_lt_Some in Hb). cbn [mbind option_bind].
  rewrite <- (bit_at_lookup g k i r b Hb Hr8 Ek). assert (bit_at g k = bit_at v k) as -> by apply bit_at_grow.
  unfold reply1, add_dirty, emit, set_key. cbn [db dirty out events]. by rewrite insert_insert_eq.
Qed.

Lemma getbit_spec llbuf s key k v :
  zlen llbuf = LONG_STR_SIZE -> db_ok (db s) -> value_of (db s !! key) = Some v -> 0 <= k < 2 ^ 32 ->
  getbitCommand llbuf s key (dec k) = Some (reply1 s (RInt (Z.b2z (bit_at v k)))).
Proof.
  intros Hl Hd Hv Hk. destruct (value_bytes _ _ _ Hd Hv) as [Hvb Hvl]. unfold getbitCommand.
  rewrite (proj2 (offset_spec (dec k) k)) by done. destruct (db s !! key) as [o|] eqn:E; [|by injection Hv as <-].
  pose proof (Hd key o E) as Ho. assert (Hne : o <> OOther) by (by intros ->).
  assert (Hrd : (v ← getObjectReadOnlyString llbuf o;
     bitval ← (if Z.shiftr k 3 <? zlen v then b ← load1 v (Z.shiftr k 3); Some (Z.land b (Z.shiftl 1 (7 - Z.land k 7))) else Some 0);
     Some (reply1 s (RInt (if bitval =? 0 then 0 else 1)))) = Some (reply1 s (RInt (Z.b2z (bit_at v k))))).
  { rewrite readonly_spec, Hv by done. cbn [mbind option_bind]. destruct (Z.ltb_spec (Z.shiftr k 3) (zlen v)) as [Hin|Hout].
    - rewrite shift3 in Hin. destruct (bit_address v k) as (i & r & b & -> & -> & Hr8 & Hb & Hbok & Ek); [done|split; [lia|]|].
      { pose proof (Z.div_mod k 8). pose proof (Z.mod_pos_bound k 8). lia. }
      rewrite load1_nat, Hb. cbn [mbind option_bind]. by rewrite read_bit, (bit_at_lookup v k i r b).
    - cbn [mbind option_bind]. unfold bit_at. rewrite lookup_ge_None_2; [done|]. rewrite bits_of_length. rewrite shift3 in Hout.
      unfold zlen in Hout. pose proof (Z.div_mod k 8). pose proof (Z.mod_pos_bound k 8). lia. }
  by destruct o as [x|x|].
Qed.

(** ** BITOP *)
Definition byte_at (p : bs) (i : Z) : Z := default 0 (p !! Z.to_nat i).
Definition bit2 (op : bitop) (a b : bool) : bool :=
  match op with BITOP_AND => a && b | BITOP_OR => a || b | BITOP_XOR => xorb a b | BITOP_NOT => a end.

Lemma bin_op_bit op a b n : 0 <= n -> Z.testbit (bin_op op a b) n = bit2 op (Z.testbit a n) (Z.testbit b n).
Proof. intros Hn. destruct op; simpl; [apply Z.land_spec|apply Z.lor_spec|apply Z.lxor_spec|done]. Qed.

Lemma bin_op_byte op a b : byte_ok a -> byte_ok b -> byte_ok (bin_op op a b).
Proof.
  unfold byte_ok. intros Ha Hb. assert (E : bin_op op a b = bin_op op a b mod 2 ^ 8).
  { apply Z.bits_inj'. intros n Hn. destruct (Z.ltb_spec n 8); [by rewrite Z.mod_pow2_bits_low by lia|].
    rewrite Z.mod_pow2_bits_high, bin_op_bit, (bit_above 8 a), (bit_above 8 b) by lia. by destruct op. }
  rewrite E. apply Z.mod_pos_bound. lia.
Qed.

Lemma bin_op_split op a0 a1 b0 b1 : byte_ok a0 -> byte_ok b0 ->
  bin_op op (a0 + 256 * a1) (b0 + 256 * b1) = bin_op op a0 b0 + 256 * bin_op op a1 b1.
Proof.
  intros Ha Hb. pose proof (bin_op_byte op a0 b0 Ha Hb) as Hc. unfold byte_ok in *. change 256 with (2 ^ 8) in *.
  apply Z.bits_inj'. intros n Hn. rewrite bin_op_bit, !testbit_split by lia. destruct (Z.ltb_spec n 8); by rewrite bin_op_bit by lia.
Qed.

Lemma le_val_zip op a b : bytes_ok a -> bytes_ok b -> length a = length b ->
  bin_op op (le_val a) (le_val b) = le_val (zip_with (bin_op op) a b).
Proof.
  intros Ha. revert b. induction Ha as [|x a Hx Ha IH]; intros [|y b] Hb Hl; try done; [by destruct op|].
  apply Forall_cons in Hb as [Hy Hb]. cbn [zip_with le_val]. rewrite bin_op_split by done. rewrite IH; [done|done|by injection Hl].
Qed.

Lemma zip_bytes op a b : bytes_ok a -> bytes_ok b -> bytes_ok (zip_with (bin_op op) a b).
Proof.
  intros Ha. revert b. induction Ha as [|x a Hx Ha IH]; intros [|y b] Hb; try by constructor.
  apply Forall_cons in Hb as [Hy Hb]. constructor; [by apply bin_op_byte|by apply IH].
Qed.

Lemma rev_zip op (a b : bs) : length a = length b -> rev (zip_with (bin_op op) a b) = zip_with (bin_op op) (rev a) (rev b).
Proof.
  revert b. induction a as [|x a IH]; intros [|y b] Hl; try done. injection Hl as Hl. cbn [zip_with rev]. rewrite IH by done.
  rewrite zip_with_app by (by rewrite !length_rev). done.
Qed.

Lemma native_zip be op a b n : bytes_ok a -> bytes_ok b -> length a = n -> length b = n ->
  native_bytes be n (bin_op op (native_val be a) (native_val be b)) = zip_with (bin_op op) a b.
Proof.
  intros Ha Hb La Lb. unfold native_bytes, native_val. destruct be.
  - rewrite le_val_zip by (try (by apply Forall_rev); rewrite !length_rev; lia). rewrite <- rev_zip by lia.
    replace n with (length (rev (zip_with (bin_op op) a b))) by (rewrite length_rev, length_zip_with; lia).
    rewrite le_bytes_le_val by (by apply Forall_rev, zip_bytes). apply rev_involutive.
  - rewrite le_val_zip by (done || lia). replace n with (length (zip_with (bin_op op) a b)) by (rewrite length_zip_with; lia).
    apply le_bytes_le_val. by apply zip_bytes.
Qed.

Lemma le_val_not a : bytes_ok a -> le_val (map (fun b => 255 - b) a) = 2 ^ (8 * zlen a) - 1 - le_val a.
Proof.
  unfold zlen. induction 1 as [|x a Hx Ha IH]; [done|]. cbn [map le_val length]. rewrite IH, pow256_S. lia.
Qed.

Lemma native_not be a : bytes_ok a -> length a = 8%nat ->
  native_bytes be 8 (u64 (Z.lnot (native_val be a))) = map (fun b => 255 - b) a.
Proof.
  intros Ha La.
  assert (H : forall a, bytes_ok a -> length a = 8%nat -> le_bytes 8 (u64 (Z.lnot (le_val a))) = map (fun b => 255 - b) a).
  { clear. intros a Ha La. assert (E : u64 (Z.lnot (le_val a)) = le_val (map (fun b => 255 - b) a)).
    { rewrite le_val_not by done. pose proof (le_val_range a Ha) as Hr. unfold zlen in *. rewrite La in *. change (8 * Z.of_nat 8) with 64 in *.
      unfold Z.lnot, wrapu. symmetry. apply (Z.mod_unique_pos _ _ (-1)); lia. }
    rewrite E. rewrite <- La at 1. rewrite <- (length_map (fun b => 255 - b) a). apply le_bytes_le_val.
    apply Forall_map. eapply Forall_impl; [exact Ha|]. unfold byte_ok. intros; lia. }
  unfold native_bytes, native_val. destruct be; [|by apply H].
  rewrite H; [by rewrite map_rev, rev_involutive|by apply Forall_rev|by rewrite length_rev].
Qed.

(** [l'] is [l] with the bytes from [lo] to [hi] replaced by [f]. *)
Definition updated (l l' : bs) (lo hi : Z) (f : Z -> Z) : Prop :=
  length l' = length l /\ bytes_ok l' /\
  forall i, 0 <= i -> byte_at l' i = if (lo <=? i) && (i <? hi) then f i else byte_at l i.

Lemma store_updated l off w :
  bytes_ok l -> bytes_ok w -> 0 <= off -> off + zlen w <= zlen l ->
  exists l', store l off w = Some l' /\ updated l l' off (off + zlen w) (fun i => byte_at w (i - off)).
Proof.
  intros Hl Hw Ho Hn. unfold store. replace (_ && _) with true by (symmetry; rewrite andb_true_iff, !Z.leb_le; lia).
  eexists. split; [reflexivity|]. unfold zlen in *. split; [rewrite !length_app, length_take, length_drop; lia|]. split.
  - apply Forall_app. split; [by apply Forall_take|]. apply Forall_app. split; [done|by apply Forall_drop].
  - intros i Hi. unfold byte_at. assert (Ht : length (take (Z.to_nat off) l) = Z.to_nat off) by (rewrite length_take; lia).
    destruct (Z.leb_spec off i); cbn [andb]; [|by rewrite lookup_app_l, lookup_take_lt by lia].
    rewrite lookup_app_r by lia. rewrite Ht. destruct (Z.ltb_spec i (off + Z.of_nat (length w))).
    + rewrite lookup_app_l by lia. do 2 f_equal. lia.
    + rewrite lookup_app_r, lookup_drop by lia. do 2 f_equal. lia.
Qed.

Lemma updated_trans l l1 l2 a b c f g :
  a <= b <= c -> updated l l1 a b f -> updated l1 l2 b c g -> (forall i, b <= i < c -> g i = f i) -> updated l l2 a c f.
Proof.
  intros Habc (L1 & B1 & U1) (L2 & B2 & U2) Hg. split; [congruence|]. split; [done|]. intros i Hi. rewrite U2, U1 by done.
  destruct (Z.leb_spec b i), (Z.ltb_spec i c), (Z.leb_spec a i), (Z.ltb_spec i b); cbn [andb]; try done; try lia. apply Hg. lia.
Qed.

Lemma load_byte l off n w : load l off n = Some w -> zlen w = n /\ forall i, 0 <= i < n -> byte_at w i = byte_at l (off + i).
Proof.
  unfold load. destruct (_ && _) eqn:E; [|done]. intros [= <-]. zb. unfold zlen in *. split; [rewrite length_take, length_drop; lia|].
  intros i Hi. unfold byte_at. rewrite lookup_take_lt, lookup_drop by lia. do 2 f_equal. lia.
Qed.

Lemma byte_at_some l i : 0 <= i < zlen l -> l !! Z.to_nat i = Some (byte_at l i).
Proof.
  intros Hi. unfold byte_at, zlen in *. destruct (lookup_lt_is_Some_2 l (Z.to_nat i)) as [b ->]; [lia|done].
Qed.
Lemma byte_at_ok l i : bytes_ok l -> byte_ok (byte_at l i).
Proof.
  intros Hl. unfold byte_at. destruct (l !! Z.to_nat i) as [b|] eqn:E; [|unfold byte_ok; simpl; lia].
  rewrite Forall_lookup in Hl. by apply (Hl _ _ E).
Qed.

(** An operation on the word at [off], byte by byte. *)
Definition word_updates (f : bs -> Z -> option bs) (F : Z -> Z -> Z) (size : Z) : Prop :=
  forall l off, bytes_ok l -> 0 <= off -> off + 8 <= zlen l -> off + 8 <= size ->
    exists l', f l off = Some l' /\ updated l l' off (off + 8) (fun i => F i (byte_at l i)).

Lemma word_op_updates be op src : bytes_ok src ->
  word_updates (fun res off => word_op be op res src off) (fun i b => bin_op op b (byte_at src i)) (zlen src).
Proof.
  intros Hs l off Hl Ho Hn Hsz. unfold word_op.
  destruct (load_in l off 8) as [a Ea]; [lia|lia|lia|]. destruct (load_in src off 8) as [b Eb]; [lia|lia|lia|].
  rewrite Ea, Eb. cbn [mbind option_bind]. destruct (load_byte _ _ _ _ Ea) as [La Ba], (load_byte _ _ _ _ Eb) as [Lb Bb].
  pose proof (load_bytes _ _ _ _ Hl Ea) as Oa. pose proof (load_bytes _ _ _ _ Hs Eb) as Ob.
  assert (Hzl : zlen (zip_with (bin_op op) a b) = 8) by (unfold zlen in *; rewrite length_zip_with; lia).
  rewrite native_zip by (done || (unfold zlen in *; lia)).
  destruct (store_updated l off (zip_with (bin_op op) a b)) as (l' & E & L & B & U); [done|by apply zip_bytes|lia|lia|].
  exists l'. split; [done|]. split; [done|]. split; [done|]. intros i Hi. rewrite U, Hzl by done.
  destruct (Z.leb_spec off i), (Z.ltb_spec i (off + 8)); cbn [andb]; try done.
  unfold byte_at at 1. rewrite lookup_zip_with.
  rewrite (byte_at_some a (i - off)), (byte_at_some b (i - off)) by lia. cbn.
  rewrite Ba, Bb by lia. by replace (off + (i - off)) with i by lia.
Qed.

Lemma word_not_updates be size : word_updates (word_not be) (fun _ b => 255 - b) size.
Proof.
  intros l off Hl Ho Hn _. unfold word_not. destruct (load_in l off 8) as [a Ea]; [lia|lia|lia|].
  rewrite Ea. cbn [mbind option_bind]. destruct (load_byte _ _ _ _ Ea) as [La Ba]. pose proof (load_bytes _ _ _ _ Hl Ea) as Oa.
  rewrite native_not by (done || (unfold zlen in *; lia)).
  assert (Hzl : zlen (map (fun b => 255 - b) a) = 8) by (unfold zlen in *; rewrite length_map; lia).
  destruct (store_updated l off (map (fun b => 255 - b) a)) as (l' & E & L & B & U); [done| |lia|lia|].
  { apply Forall_map. eapply Forall_impl; [exact Oa|]. unfold byte_ok. intros; lia. }
  exists l'. split; [done|]. split; [done|]. split; [done|]. intros i Hi. rewrite U, Hzl by done.
  destruct (Z.leb_spec off i), (Z.ltb_spec i (off + 8)); cbn [andb]; try done.
  unfold byte_at at 1. rewrite list_lookup_fmap, (byte_at_some a (i - off)) by lia. cbn.
  rewrite Ba by lia. by replace (off + (i - off)) with i by lia.
Qed.

Lemma words4_updates f F size l j :
  word_updates f F size -> bytes_ok l -> 0 <= j -> j + 32 <= zlen l -> j + 32 <= size ->
  exists l', words4 f l j = Some l' /\ updated l l' j (j + 32) (fun i => F i (byte_at l i)).
Proof.
  intros Hf Hl Hj Hn Hs. unfold words4. destruct (Hf l j) as (l1 & -> & U1); [done|lia|lia|lia|]. cbn [mbind option_bind].
  assert (Z1 : zlen l1 = zlen l) by (destruct U1 as (L & _); unfold zlen; by rewrite L).
  destruct (Hf l1 (j + 8)) as (l2 & -> & U2); [by apply U1|lia|lia|lia|]. cbn [mbind option_bind].
  assert (Z2 : zlen l2 = zlen l) by (destruct U2 as (L & _); unfold zlen in *; congruence).
  destruct (Hf l2 (j + 16)) as (l3 & -> & U3); [by apply U2|lia|lia|lia|]. cbn [mbind option_bind].
  assert (Z3 : zlen l3 = zlen l) by (destruct U3 as (L & _); unfold zlen in *; congruence).
  destruct (Hf l3 (j + 24)) as (l4 & -> & U4); [by apply U3|lia|lia|lia|]. exists l4. split; [done|].
  replace (j + 8 + 8) with (j + 16) in U2 by lia. replace (j + 16 + 8) with (j + 24) in U3 by lia. replace (j + 24 + 8) with (j + 32) in U4 by lia.
  assert (Hkeep : forall a b la lb g, updated la lb a b g -> forall i, 0 <= i -> b <= i -> byte_at lb i = byte_at la i).
  { intros a b la lb g (_ & _ & U) i Hi Hb. rewrite U by done. destruct (Z.ltb_spec i b); [lia|]. by rewrite andb_false_r. }
  assert (U12 : updated l l2 j (j + 16) (fun i => F i (byte_at l i))).
  { eapply updated_trans; [|exact U1|exact U2|]; [lia|]. intros i Hi. cbn. by rewrite (Hkeep _ _ _ _ _ U1) by lia. }
  assert (U13 : updated l l3 j (j + 24) (fun i => F i (byte_at l i))).
  { eapply updated_trans; [|exact U12|exact U3|]; [lia|]. intros i Hi. cbn. by rewrite (Hkeep _ _ _ _ _ U12) by lia. }
  eapply updated_trans; [|exact U13|exact U4|]; [lia|]. intros i Hi. cbn. by rewrite (Hkeep _ _ _ _ _ U13) by lia.
Qed.

(** The byte BITOP computes at [i]. *)
Definition fold_byte (op : bitop) (rest : list bs) (i b : Z) : Z := fold_left (fun o p => bin_op op o (byte_at p i)) rest b.
Definition first_byte (op : bitop) (b : Z) : Z := match op with BITOP_NOT => 255 - b | _ => b end.
Definition combine (op : bitop) (p0 : bs) (rest : list bs) (i : Z) : Z := fold_byte op rest i (first_byte op (byte_at p0 i)).

Lemma fold_byte_ok op rest i b : Forall (fun p => bytes_ok p) rest -> byte_ok b -> byte_ok (fold_byte op rest i b).
Proof.
  intros Hr. revert b. induction Hr as [|p rest Hp _ IH]; intros b Hb; [done|]. cbn. apply IH, bin_op_byte; [done|by apply byte_at_ok].
Qed.
Lemma combine_ok op p0 rest i : bytes_ok p0 -> Forall (fun p => bytes_ok p) rest -> byte_ok (combine op p0 rest i).
Proof.
  intros H0 Hr. apply fold_byte_ok; [done|]. pose proof (byte_at_ok p0 i H0). unfold byte_ok in *. destruct op; simpl; lia.
Qed.

Lemma fast_keys_updates be op rest l j :
  Forall (fun p => bytes_ok p /\ j + 32 <= zlen p) rest -> bytes_ok l -> 0 <= j -> j + 32 <= zlen l ->
  exists l', fast_keys be op rest l j = Some l' /\ updated l l' j (j + 32) (fun i => fold_byte op rest i (byte_at l i)).
Proof.
  intros Hr. revert l. induction Hr as [|p rest [Hp Hpl] _ IH]; intros l Hl Hj Hn; cbn [fast_keys].
  - exists l. split; [done|]. split; [done|]. split; [done|]. intros i Hi. cbn. by destruct (_ && _).
  - destruct (words4_updates _ _ _ l j (word_op_updates be op p Hp)) as (l1 & -> & L1 & B1 & U1); [done|lia|lia|lia|]. cbn [mbind option_bind].
    destruct (IH l1) as (l2 & -> & L2 & B2 & U2); [done|lia|unfold zlen in *; lia|]. exists l2. split; [done|]. split; [congruence|].
    split; [done|]. intros i Hi. rewrite U2, !U1 by done. by destruct ((j <=? i) && (i <? j + 32)).
Qed.

Lemma fast_loop_spec be fuel op p0 rest res j minlen :
  minlen <= Z.of_nat fuel -> 0 <= j -> 0 <= minlen ->
  Forall (fun p => bytes_ok p /\ j + minlen <= zlen p) rest -> bytes_ok res -> j + minlen <= zlen res ->
  (op = BITOP_NOT -> rest = []) ->
  (forall i, 0 <= i < j -> byte_at res i = combine op p0 rest i) ->
  (forall i, j <= i < j + minlen -> byte_at res i = byte_at p0 i) ->
  exists res' j', fast_loop be fuel op (p0 :: rest) res j minlen = Some (res', j') /\ length res' = length res /\ bytes_ok res' /\
    j <= j' <= j + minlen /\ (forall i, 0 <= i < j' -> byte_at res' i = combine op p0 rest i).
Proof.
  revert res j minlen. induction fuel as [|fuel IH]; intros res j minlen Hf Hj Hm Hr Hb Hn Hnot Hdone Htodo; cbn [fast_loop];
    rewrite Z.geb_leb; (destruct (Z.leb_spec 32 minlen); [|exists res, j; split; [done|]; split; [done|]; split; [done|]; split; [lia|done]]); [lia|].
  assert (Hstep : exists l', match op with BITOP_NOT => words4 (word_not be) res j | _ => fast_keys be op (drop 1 (p0 :: rest)) res j end = Some l' /\
    updated res l' j (j + 32) (fun i => fold_byte op rest i (first_byte op (byte_at res i)))).
  { assert (Hr' : Forall (fun p => bytes_ok p /\ j + 32 <= zlen p) rest) by (eapply Forall_impl; [exact Hr|]; intros p [? ?]; split; [done|lia]).
    destruct op; try (apply fast_keys_updates; [exact Hr'|done|lia|lia]). rewrite Hnot by done.
    apply (words4_updates _ _ (j + 32) res j (word_not_updates be (j + 32))); [done|lia|lia|lia]. }
  destruct Hstep as (l' & -> & L & B & U). cbn [mbind option_bind].
  destruct (IH l' (j + 32) (minlen - 32)) as (res' & j' & -> & L' & B' & Hj' & Hall); [lia|lia|lia| |done|unfold zlen in *; lia|done| | |].
  - eapply Forall_impl; [exact Hr|]. intros p [? ?]. split; [done|lia].
  - intros i Hi. rewrite U by lia. destruct (Z.leb_spec j i); cbn [andb]; [|apply Hdone; lia].
    destruct (Z.ltb_spec i (j + 32)); [|lia]. rewrite Htodo by lia. done.
  - intros i Hi. rewrite U by lia. destruct (Z.ltb_spec i (j + 32)); [lia|]. rewrite andb_false_r. apply Htodo. lia.
  - exists res', j'. split; [done|]. split; [congruence|]. split; [done|]. split; [lia|done].
Qed.

Lemma byte_or_zero_spec p i : 0 <= i -> byte_or_zero p i = Some (byte_at p i).
Proof.
  intros Hi. unfold byte_or_zero. destruct (Z.leb_spec (zlen p) i).
  - unfold byte_at, zlen in *. by rewrite lookup_ge_None_2 by lia.
  - unfold load1. destruct (Z.leb_spec 0 i); [|lia]. by apply byte_at_some.
Qed.

Lemma slow_keys_spec op rest output i : 0 <= i -> slow_keys op rest output i = Some (fold_byte op rest i output).
Proof.
  intros Hi. revert output. induction rest as [|p rest IH]; intros output; cbn [slow_keys]; [done|].
  rewrite byte_or_zero_spec by done. cbn [mbind option_bind]. by rewrite IH.
Qed.

Lemma slow_loop_spec n op p0 rest res j :
  bytes_ok p0 -> Forall (fun p => bytes_ok p) rest -> bytes_ok res -> 0 <= j -> j + Z.of_nat n = zlen res ->
  (forall i, 0 <= i < j -> byte_at res i = combine op p0 rest i) ->
  exists res', slow_loop n op (p0 :: rest) res j = Some res' /\ length res' = length res /\ bytes_ok res' /\
    (forall i, 0 <= i < zlen res -> byte_at res' i = combine op p0 rest i).
Proof.
  intros H0 Hr. revert res j. induction n as [|n IH]; intros res j Hb Hj Hn Hd; cbn [slow_loop].
  - exists res. split; [done|]. split; [done|]. split; [done|]. intros i Hi. apply Hd. lia.
  - cbn [lookup list_lookup mbind option_bind]. rewrite byte_or_zero_spec by done. cbn [mbind option_bind].
    assert (Ef : match op with BITOP_NOT => u8 (Z.lnot (byte_at p0 j)) | _ => byte_at p0 j end = first_byte op (byte_at p0 j)).
    { destruct op; try done. pose proof (byte_at_ok p0 j H0) as Hk. unfold byte_ok in Hk. unfold Z.lnot, wrapu, first_byte.
      symmetry. apply (Z.mod_unique_pos _ _ (-1)); zpow; lia. }
    rewrite Ef. change (drop 1 (p0 :: rest)) with rest. rewrite slow_keys_spec by done. cbn [mbind option_bind].
    fold (combine op p0 rest j). destruct (store_updated res j [combine op p0 rest j]) as (l' & -> & L & B & U);
      [done|constructor; [by apply combine_ok|constructor]|done|unfold zlen; simpl; unfold zlen in Hn; lia|]. cbn [mbind option_bind].
    destruct (IH l' (j + 1)) as (res' & -> & L' & B' & U'); [done|lia|unfold zlen in *; lia| |].
    + intros i Hi. rewrite U by lia. change (zlen [_]) with 1. destruct (Z.leb_spec j i); cbn [andb]; [|apply Hd; lia].
      destruct (Z.ltb_spec i (j + 1)); [|lia]. assert (i = j) as -> by lia. by rewrite Z.sub_diag.
    + exists res'. split; [done|]. split; [congruence|]. split; [done|]. intros i Hi. apply U'. unfold zlen in *. lia.
Qed.

Lemma byte_at_zeros n i : byte_at (zeros n) i = 0.
Proof. unfold byte_at, zeros. destruct (replicate _ 0 !! _) eqn:E; [|done]. by apply lookup_replicate in E as [-> _]. Qed.

Lemma compute_spec be al op p0 rest maxlen minlen :
  bytes_ok p0 -> Forall (fun p => bytes_ok p) rest -> 0 <= minlen <= maxlen ->
  minlen <= zlen p0 -> Forall (fun p => minlen <= zlen p) rest -> (op = BITOP_NOT -> rest = []) ->
  exists res, bitop_compute be al op (p0 :: rest) maxlen minlen = Some res /\ bytes_ok res /\ zlen res = maxlen /\
    (forall i, 0 <= i < maxlen -> byte_at res i = combine op p0 rest i).
Proof.
  intros H0 Hr Hm Hm0 Hmr Hnot. unfold bitop_compute.
  assert (Hz : zlen (zeros maxlen) = maxlen) by (unfold zlen, zeros; rewrite length_replicate; lia).
  assert (Hzb : bytes_ok (zeros maxlen)) by (apply Forall_replicate; unfold byte_ok; lia).
  assert (Hfast : exists r j, (if negb al && (minlen >=? 32) && (zlen (p0 :: rest) <=? 16) then
      q ← (p0 :: rest) !! 0%nat; first ← load q 0 minlen; res ← store (zeros maxlen) 0 first;
      fast_loop be (Z.to_nat minlen) op (p0 :: rest) res 0 minlen else Some (zeros maxlen, 0)) = Some (r, j) /\
    bytes_ok r /\ zlen r = maxlen /\ 0 <= j <= maxlen /\ (forall i, 0 <= i < j -> byte_at r i = combine op p0 rest i)).
  { destruct (negb al && (minlen >=? 32) && (zlen (p0 :: rest) <=? 16)).
    2: { exists (zeros maxlen), 0. split; [done|]. split; [done|]. split; [done|]. split; [lia|]. intros; lia. }
    cbn [lookup list_lookup mbind option_bind]. destruct (load_in p0 0 minlen) as [w Ew]; [lia|lia|lia|]. rewrite Ew. cbn [mbind option_bind].
    destruct (load_byte _ _ _ _ Ew) as [Lw Bw]. pose proof (load_bytes _ _ _ _ H0 Ew) as Ow.
    destruct (store_updated (zeros maxlen) 0 w) as (r0 & -> & L0 & B0 & U0); [done|done|lia|lia|]. cbn [mbind option_bind].
    destruct (fast_loop_spec be (Z.to_nat minlen) op p0 rest r0 0 minlen) as (r & j & -> & Lr & Br & Hj & Hall).
    - lia.
    - lia.
    - lia.
    - apply Forall_forall. intros p Hp. rewrite Forall_forall in Hr, Hmr. split; [by apply Hr|]. specialize (Hmr p Hp). lia.
    - done.
    - unfold zlen in *. lia.
    - done.
    - intros; lia.
    - intros i Hi. rewrite U0 by lia. destruct (Z.leb_spec 0 i), (Z.ltb_spec i (0 + zlen w)); cbn [andb]; try lia. rewrite Bw by lia.
      f_equal. lia.
    - exists r, j. split; [done|]. split; [done|]. split; [unfold zlen in *; lia|]. split; [lia|done]. }
  destruct Hfast as (r & j & -> & Br & Zr & Hj & Hall). cbn [mbind option_bind].
  destruct (slow_loop_spec (Z.to_nat (maxlen - j)) op p0 rest r j) as (res & -> & L & B & U); [done|done|done|lia|lia|done|].
  exists res. split; [done|]. split; [done|]. split; [unfold zlen in *; lia|]. by rewrite Zr in U.
Qed.

Definition max_len (vs : list bs) (m : Z) : Z := fold_left (fun m v => Z.max m (zlen v)) vs m.
Lemma max_len_ge vs m : m <= max_len vs m /\ Forall (fun v => zlen v <= max_len vs m) vs.
Proof.
  revert m. induction vs as [|v vs IH]; intros m; cbn; [split; [lia|constructor]|].
  destruct (IH (Z.max m (zlen v))) as [H1 H2]. unfold max_len in *. split; [lia|]. constructor; [lia|done].
Qed.

Lemma bitop_lookup_rest llbuf s keys vs src mx mn :
  zlen llbuf = LONG_STR_SIZE -> db_ok (db s) -> Forall2 (fun k v => value_of (db s !! k) = Some v) keys vs -> 0 <= mx -> 0 <= mn ->
  exists mn', bitop_lookup llbuf s keys false src mx mn = Some (inl (src ++ vs, max_len vs mx, mn')) /\
    0 <= mn' <= mn /\ Forall (fun v => mn' <= zlen v) vs.
Proof.
  intros Hl Hd Hv. revert src mx mn. induction Hv as [|k v keys vs Hk Hv IH]; intros src mx mn Hx Hn; cbn [bitop_lookup].
  - exists mn. rewrite app_nil_r. split; [done|]. split; [lia|constructor].
  - destruct (db s !! k) as [o|] eqn:E.
    + pose proof (Hd k o E) as Ho. assert (Hne : o <> OOther) by (by intros ->).
      assert (Es : forall A (f : bs -> option A), (v ← getDecodedObject llbuf o; f v) = f v)
        by (intros; unfold getDecodedObject; by rewrite readonly_spec, Hk).
      set (mx' := if zlen v >? mx then zlen v else mx). set (mn' := if false || (zlen v <? mn) then zlen v else mn).
      assert (Emx : mx' = Z.max mx (zlen v)) by (unfold mx'; rewrite Z.gtb_ltb; destruct (Z.ltb_spec mx (zlen v)); lia).
      assert (Hmn : 0 <= mn' <= mn /\ mn' <= zlen v) by (unfold mn'; cbn; pose proof (zlen_nonneg v); destruct (Z.ltb_spec (zlen v) mn); lia).
      destruct (IH (src ++ [v]) mx' mn') as (m & E2 & Hm & Hall); [rewrite Emx; lia|lia|].
      exists m. rewrite Emx in E2. rewrite <- app_assoc in E2. split; [|split; [lia|constructor; [lia|done]]].
      transitivity (v ← getDecodedObject llbuf o; bitop_lookup llbuf s keys false (src ++ [v]) (if zlen v >? mx then zlen v else mx) (if false || (zlen v <? mn) then zlen v else mn)); [by destruct o|].
      rewrite Es. fold mx' mn'. rewrite Emx. exact E2.
    + injection Hk as <-. destruct (IH (src ++ [[]]) mx 0) as (m & E2 & Hm & Hall); [lia|lia|]. exists m.
      rewrite E2. rewrite <- app_assoc. cbn. split; [|split; [lia|constructor; [unfold zlen; simpl; lia|done]]].
      unfold max_len. cbn [fold_left]. by rewrite (Z.max_l mx (zlen [])) by (unfold zlen; simpl; lia).
Qed.

Lemma bitop_lookup_spec llbuf s keys v0 rest :
  zlen llbuf = LONG_STR_SIZE -> db_ok (db s) -> Forall2 (fun k v => value_of (db s !! k) = Some v) keys (v0 :: rest) ->
  exists mn, bitop_lookup llbuf s keys true [] 0 0 = Some (inl (v0 :: rest, max_len (v0 :: rest) 0, mn)) /\
    0 <= mn <= zlen v0 /\ Forall (fun v => mn <= zlen v) rest.
Proof.
  intros Hl Hd Hv. apply Forall2_cons_inv_r in Hv as (k & keys' & Hk & Hv & ->). cbn [bitop_lookup].
  assert (Hm0 : 0 <= Z.max 0 (zlen v0)) by lia. pose proof (zlen_nonneg v0) as Hz.
  destruct (bitop_lookup_rest llbuf s keys' rest [v0] (Z.max 0 (zlen v0)) (zlen v0) Hl Hd Hv Hm0 Hz) as (mn & E & Hm & Hall).
  exists mn. split; [|split; [lia|done]]. cbn [max_len fold_left]. fold (max_len rest (Z.max 0 (zlen v0))).
  destruct (db s !! k) as [o|] eqn:Ek.
  - pose proof (Hd k o Ek) as Ho. assert (Hne : o <> OOther) by (by intros ->).
    transitivity (v ← getDecodedObject llbuf o; bitop_lookup llbuf s keys' false ([] ++ [v]) (if zlen v >? 0 then zlen v else 0) (if true || (zlen v <? 0) then zlen v else 0)); [by destruct o|].
    unfold getDecodedObject. rewrite readonly_spec, Hk by done. cbn [mbind option_bind orb app].
    replace (if zlen v0 >? 0 then zlen v0 else 0) with (Z.max 0 (zlen v0)) by (rewrite Z.gtb_ltb; destruct (Z.ltb_spec 0 (zlen v0)); lia).
    exact E.
  - injection Hk as <-. exact E.
Qed.

Lemma bit_at_byte p k : 0 <= k -> bit_at p k = Z.testbit (byte_at p (k / 8)) (7 - k mod 8).
Proof.
  intros Hk. pose proof (Z.div_mod k 8). pose proof (Z.mod_pos_bound k 8). assert (0 <= k / 8) by (apply Z.div_pos; lia).
  unfold byte_at. destruct (p !! Z.to_nat (k / 8)) as [b|] eqn:E.
  - rewrite (bit_at_lookup p k (Z.to_nat (k / 8)) (Z.to_nat (k mod 8)) b E) by lia. simpl. f_equal. lia.
  - unfold bit_at. cbn. rewrite Z.bits_0. rewrite lookup_ge_None_2; [done|]. apply lookup_ge_None_1 in E. rewrite bits_of_length. lia.
Qed.

(** What BITOP promises for one bit position. *)
Definition bitop_bit (op : bitop) (l : list bool) : bool :=
  match op with
  | BITOP_AND => forallb (fun b => b) l
  | BITOP_OR => existsb (fun b => b) l
  | BITOP_XOR => foldr xorb false l
  | BITOP_NOT => negb (default false (head l))
  end.

Lemma combine_bit op p0 rest k : bytes_ok p0 -> 0 <= k -> (op = BITOP_NOT -> rest = []) ->
  Z.testbit (combine op p0 rest (k / 8)) (7 - k mod 8) = bitop_bit op (map (fun p => bit_at p k) (p0 :: rest)).
Proof.
  intros H0 Hk Hnot. pose proof (Z.mod_pos_bound k 8). unfold combine.
  assert (Hf : forall b, Z.testbit (fold_byte op rest (k / 8) b) (7 - k mod 8) =
    fold_left (bit2 op) (map (fun p => bit_at p k) rest) (Z.testbit b (7 - k mod 8))).
  { clear Hnot. induction rest as [|p rest IH]; intros b; [done|]. cbn [map fold_left fold_byte]. unfold fold_byte in IH. cbn [fold_left].
    rewrite IH, bin_op_bit by lia. by rewrite <- bit_at_byte. }
  rewrite Hf. cbn [map]. set (l := map (fun p => bit_at p k) rest). rewrite (bit_at_byte p0 k Hk).
  set (b := Z.testbit (byte_at p0 (k / 8)) (7 - k mod 8)).
  destruct op; cbn [first_byte].
  - fold b. clearbody b l. revert b. induction l as [|x l IH]; intros b; [by destruct b|]. cbn. rewrite IH. by destruct b, x.
  - fold b. clearbody b l. revert b. induction l as [|x l IH]; intros b; [by destruct b|]. cbn. rewrite IH. by destruct b, x.
  - fold b. clearbody b l. revert b. induction l as [|x l IH]; intros b; [by destruct b|]. cbn. rewrite IH. cbn. by destruct b, x, (foldr _ _ l).
  - unfold l. rewrite Hnot by done. cbn. unfold b. pose proof (byte_at_ok p0 (k / 8) H0) as Hb. revert Hb. generalize (byte_at p0 (k / 8)) as x. intros x Hx.
    apply (all_bytes (fun x => forallb (fun r => Bool.eqb (Z.testbit (255 - x) (7 - Z.of_nat r)) (negb (Z.testbit x (7 - Z.of_nat r)))) (seq 0 8))) in Hx;
      [|vm_compute; reflexivity]. rewrite forallb_forall in Hx. specialize (Hx (Z.to_nat (k mod 8)) ltac:(apply in_seq; lia)).
    apply eqb_prop in Hx. by rewrite Z2Nat.id in Hx by lia.
Qed.

Lemma bit_at_out p k : 8 * zlen p <= k -> bit_at p k = false.
Proof. intros Hk. unfold bit_at. rewrite lookup_ge_None_2; [done|]. rewrite bits_of_length. unfold zlen in Hk. lia. Qed.

(** ** Ranges *)
(** The bytes from [start] to [e], both included. *)
Definition segment (v : bs) (start e : Z) : bs := take (Z.to_nat (e - start + 1)) (drop (Z.to_nat start) v).

Lemma clip_range strlen a b start e : 0 <= strlen -> clip strlen a b = (start, e) -> 0 <= start /\ e < strlen.
Proof.
  intros Hs. unfold clip. intros [= <- <-].
  destruct (Z.ltb_spec a 0); [destruct (Z.ltb_spec (strlen + a) 0)|destruct (Z.ltb_spec a 0)]; split; try lia;
    repeat match goal with |- context [if ?x >=? ?y then _ else _] => destruct (Z.geb_spec x y) end; lia.
Qed.

Lemma load_segment v start e : 0 <= start -> start <= e -> e < zlen v -> load v start (e - start + 1) = Some (segment v start e).
Proof.
  intros. unfold load. replace (_ && _) with true by (symmetry; rewrite !andb_true_iff, !Z.leb_le; lia). done.
Qed.
Lemma segment_length v start e : 0 <= start -> start <= e -> e < zlen v -> zlen (segment v start e) = e - start + 1.
Proof. intros. unfold segment, zlen in *. rewrite length_take, length_drop. lia. Qed.

(** The reply of BITCOUNT and BITPOS for the bytes [start..e]. *)
Definition count_in (v : bs) (start e : Z) : Z := if start >? e then 0 else ones (bits_of (segment v start e)).
Definition pos_in (v : bs) (bit : bool) (end_given : bool) (start e : Z) : Z :=
  if start >? e then -1
  else match bit_index bit (bits_of (segment v start e)) with
       | Some i => 8 * start + i
       | None => if bit || end_given then -1 else 8 * (e + 1)
       end.

Lemma getLong_dec v msg : in_s 64 v -> getLongFromObject (dec v) msg = inl v.
Proof. intros Hv. by apply getLong_spec. Qed.

Lemma bitcount_spec llbuf be addr s key v args :
  zlen llbuf = LONG_STR_SIZE -> db_ok (db s) -> db s !! key <> None -> value_of (db s !! key) = Some v ->
  match args with
  | [] => bitcountCommand llbuf be addr s key [] = Some (reply1 s (RInt (count_in v 0 (zlen v - 1))))
  | [a; b] => forall x y, in_s 64 x -> in_s 64 y -> a = dec x -> b = dec y ->
      bitcountCommand llbuf be addr s key [a; b] =
        Some (reply1 s (RInt (if (x <? 0) && (y <? 0) && (x >? y) then 0 else let '(start, e) := clip (zlen v) x y in count_in v start e)))
  | _ => bitcountCommand llbuf be addr s key args = Some (reply1 s (RErr ESyntax))
  end.
Proof.
  intros Hl Hd Hk Hv. destruct (value_bytes _ _ _ Hd Hv) as [Hvb Hvl]. pose proof (zlen_nonneg v) as Hz.
  destruct (db s !! key) as [o|] eqn:E; [|done]. pose proof (Hd key o E) as Ho. assert (Hne : o <> OOther) by (by intros ->).
  pose proof (readonly_spec llbuf o Hl Ho Hne) as Hrd. rewrite Hv in Hrd.
  assert (Hcount : forall start e, 0 <= start -> e < zlen v ->
    (if start >? e then Some (reply1 s (RInt 0)) else l ← load v start (e - start + 1); n ← redisPopcount be (u64 (addr + start)) l; Some (reply1 s (RInt (s64 n)))) =
    Some (reply1 s (RInt (count_in v start e)))).
  { intros start e Hs He. unfold count_in. destruct (Z.gtb_spec start e); [done|]. rewrite load_segment by lia. cbn [mbind option_bind].
    pose proof (segment_length v start e). assert (Hsb : bytes_ok (segment v start e)) by (by apply Forall_take, Forall_drop).
    rewrite popcount_spec by (done || (zpow; lia)). cbn [mbind option_bind]. do 3 f_equal.
    pose proof (ones_bound (bits_of (segment v start e))) as Hob. unfold zlen in Hob at 1. rewrite bits_of_length in Hob. unfold zlen in *.
    apply wraps_small; [unfold in_s; zpow; lia|lia]. }
  destruct args as [|a [|b [|c args]]].
  - unfold bitcountCommand. rewrite E. destruct o; try done; rewrite Hrd; cbn [mbind option_bind]; apply Hcount; lia.
  - unfold bitcountCommand. rewrite E. destruct o; try done; rewrite Hrd; done.
  - intros x y Hx Hy -> ->. unfold bitcountCommand. rewrite E.
    destruct (clip (zlen v) x y) as [start e] eqn:Ec. apply clip_range in Ec as Hc; [|done].
    destruct o; try done; rewrite Hrd; cbn [mbind option_bind]; rewrite !getLong_dec by done; rewrite Ec;
      (destruct ((x <? 0) && (y <? 0) && (x >? y)); [done|apply Hcount; lia]).
  - unfold bitcountCommand. rewrite E. destruct o; try done; rewrite Hrd; done.
Qed.

Lemma bitpos_command_spec llbuf be addr s key v (bit : bool) args :
  zlen llbuf = LONG_STR_SIZE -> db_ok (db s) -> db s !! key <> None -> value_of (db s !! key) = Some v ->
  let command := bitposCommand llbuf be addr s key (dec (Z.b2z bit)) args in
  match args with
  | [] => command = Some (reply1 s (RInt (pos_in v bit false 0 (zlen v - 1))))
  | [a] => forall x, in_s 64 x -> a = dec x ->
      command = Some (reply1 s (RInt (let '(start, e) := clip (zlen v) x (zlen v - 1) in pos_in v bit false start e)))
  | [a; b] => forall x y, in_s 64 x -> in_s 64 y -> a = dec x -> b = dec y ->
      command = Some (reply1 s (RInt (let '(start, e) := clip (zlen v) x y in pos_in v bit true start e)))
  | _ => command = Some (reply1 s (RErr ESyntax))
  end.
Proof.
  intros Hl Hd Hk Hv command. destruct (value_bytes _ _ _ Hd Hv) as [Hvb Hvl]. pose proof (zlen_nonneg v) as Hz.
  destruct (db s !! key) as [o|] eqn:E; [|done]. pose proof (Hd key o E) as Ho. assert (Hne : o <> OOther) by (by intros ->).
  pose proof (readonly_spec llbuf o Hl Ho Hne) as Hrd. rewrite Hv in Hrd.
  assert (Hbit : in_s 64 (Z.b2z bit)) by (destruct bit; unfold in_s; zpow; simpl; lia).
  assert (Hnb : negb (Z.b2z bit =? 0) = bit) by (by destruct bit).
  assert (Hsearch : forall eg start e, 0 <= start -> e < zlen v ->
    (if start >? e then Some (reply1 s (RInt (-1)))
     else l ← load v start (e - start + 1); pos ← redisBitpos be (u64 (addr + start)) l (negb (Z.b2z bit =? 0));
       if eg && (Z.b2z bit =? 0) && (pos =? (e - start + 1) * 8) then Some (reply1 s (RInt (-1)))
       else Some (reply1 s (RInt (if negb (pos =? -1) then pos + start * 8 else pos)))) =
    Some (reply1 s (RInt (pos_in v bit eg start e)))).
  { intros eg start e Hs He. unfold pos_in. destruct (Z.gtb_spec start e); [done|]. rewrite load_segment by lia. cbn [mbind option_bind].
    pose proof (segment_length v start e ltac:(lia) ltac:(lia) ltac:(lia)) as Hsl. assert (Hsb : bytes_ok (segment v start e)) by (by apply Forall_take, Forall_drop).
    rewrite Hnb, bitpos_spec by done. cbn [mbind option_bind]. unfold bitpos_result.
    destruct (bit_index bit (bits_of (segment v start e))) as [i|] eqn:Ei.
    - apply bit_index_bound in Ei. unfold zlen in Ei. rewrite bits_of_length in Ei. unfold zlen in Hsl.
      destruct (Z.eqb_spec i ((e - start + 1) * 8)); [lia|]. rewrite andb_false_r. destruct (Z.eqb_spec i (-1)); [lia|]. do 3 f_equal. cbn. lia.
    - rewrite Hsl. destruct bit; cbn [Z.b2z Z.eqb orb]; [rewrite andb_false_r; done|]. rewrite andb_true_r.
      destruct (Z.eqb_spec (8 * (e - start + 1)) ((e - start + 1) * 8)); [|lia]. rewrite andb_true_r. destruct eg; [done|].
      destruct (Z.eqb_spec (8 * (e - start + 1)) (-1)); [lia|]. do 3 f_equal. cbn. lia. }
  assert (Hvr : in_s 64 (zlen v - 1)) by (unfold in_s; zpow; lia).
  assert (Hcmd : negb (Z.b2z bit =? 0) && negb (Z.b2z bit =? 1) = false) by (by destruct bit).
  unfold command. destruct args as [|a [|b [|c args]]]; unfold bitposCommand.
  - rewrite getLong_dec, Hcmd, E by done. destruct o; try done; rewrite Hrd; cbn [mbind option_bind]; apply Hsearch; lia.
  - intros x Hx ->. rewrite getLong_dec, Hcmd, E by done. destruct (clip (zlen v) x (zlen v - 1)) as [start e] eqn:Ec.
    apply clip_range in Ec as Hc; [|done].
    destruct o; try done; rewrite Hrd; cbn [mbind option_bind]; rewrite !getLong_dec by done; rewrite Ec; apply Hsearch; lia.
  - intros x y Hx Hy -> ->. rewrite getLong_dec, Hcmd, E by done. destruct (clip (zlen v) x y) as [start e] eqn:Ec.
    apply clip_range in Ec as Hc; [|done].
    destruct o; try done; rewrite Hrd; cbn [mbind option_bind]; rewrite !getLong_dec by done; rewrite Ec; apply Hsearch; lia.
  - rewrite getLong_dec, Hcmd, E by done. destruct o; try done; rewrite Hrd; done.
Qed.

(** ** BITFIELD *)
(** The specification works on the infinite string of bits [f]. *)
Definition field_of (f : Z -> bool) (off bits : Z) : Z := be_val (map (fun i => f (off + Z.of_nat i)) (seq 0 (Z.to_nat bits))).
Definition put_field (f : Z -> bool) (off bits v : Z) : Z -> bool :=
  fun k => if (off <=? k) && (k <? off + bits) then Z.testbit v (off + bits - 1 - k) else f k.

Definition as_int (sign : bool) (bits u : Z) : Z := if sign then wraps bits u else wrapu bits u.
Definition min_int (sign : bool) (bits : Z) : Z := if sign then - 2 ^ (bits - 1) else 0.
Definition max_int (sign : bool) (bits : Z) : Z := if sign then 2 ^ (bits - 1) - 1 else 2 ^ bits - 1.

(** The value an operation asks for, and what is written; [None] is a failed
    operation. *)
Definition asked (op : bitfieldOp) (old : Z) : Z :=
  match bf_opcode op with BITFIELDOP_INCRBY => old + bf_i64 op | _ => if bf_sign op then bf_i64 op else u64 (bf_i64 op) end.
Definition written (op : bitfieldOp) (t : Z) : option Z :=
  let mx := max_int (bf_sign op) (bf_bits op) in
  let mn := min_int (bf_sign op) (bf_bits op) in
  if (mn <=? t) && (t <=? mx) then Some t
  else match bf_owtype op with
       | BFOVERFLOW_WRAP => Some (as_int (bf_sign op) (bf_bits op) t)
       | BFOVERFLOW_SAT => Some (if t >? mx then mx else mn)
       | BFOVERFLOW_FAIL => None
       end.

Definition bf_spec (f : Z -> bool) (op : bitfieldOp) : reply * (Z -> bool) :=
  let old := as_int (bf_sign op) (bf_bits op) (field_of f (bf_offset op) (bf_bits op)) in
  match bf_opcode op with
  | BITFIELDOP_GET => (RInt old, f)
  | opcode =>
      match written op (asked op old) with
      | None => (RNull, f)
      | Some new =>
          (RInt (match opcode with BITFIELDOP_INCRBY => new | _ => old end), put_field f (bf_offset op) (bf_bits op) new)
      end
  end.
Fixpoint bf_specs (f : Z -> bool) (ops : list bitfieldOp) : list reply * (Z -> bool) :=
  match ops with
  | [] => ([], f)
  | op :: ops => let '(r, f) := bf_spec f op in let '(rs, f) := bf_specs f ops in (r :: rs, f)
  end.

(** Operations within 63 bits; a signed SET whose distance to the maximum
    fits 64 bits. *)
Definition bf_ok (op : bitfieldOp) : Prop :=
  1 <= bf_bits op <= 63 /\ 0 <= bf_offset op < 2 ^ 32 /\ in_s 64 (bf_i64 op) /\
  (bf_opcode op = BITFIELDOP_SET -> bf_sign op = true -> 2 ^ (bf_bits op - 1) - 1 - bf_i64 op < 2 ^ 63).
Definition writes (op : bitfieldOp) : bool := match bf_opcode op with BITFIELDOP_GET => false | _ => true end.

Lemma field_of_eq p off bits : 0 <= off -> 0 <= bits -> off + bits <= 8 * zlen p -> be_val (field p off bits) = field_of (bit_at p) off bits.
Proof.
  intros Ho Hb Hl. unfold field_of. f_equal. apply list_eq. intros i. rewrite list_lookup_fmap. unfold field.
  destruct (decide (i < Z.to_nat bits)%nat) as [Hi|Hi].
  - rewrite lookup_take_lt, lookup_drop, lookup_seq_lt by lia. cbn. unfold bit_at.
    destruct (lookup_lt_is_Some_2 (bits_of p) (Z.to_nat off + i)) as [b Hb2]; [rewrite bits_of_length; unfold zlen in *; lia|].
    replace (Z.to_nat (off + Z.of_nat i)) with (Z.to_nat off + i)%nat by lia. by rewrite Hb2.
  - rewrite lookup_take_ge by lia. by rewrite lookup_seq_ge by lia.
Qed.

Lemma field_of_ext f g off bits off' : (forall i, 0 <= i < bits -> f (off + i) = g (off' + i)) -> field_of f off bits = field_of g off' bits.
Proof.
  intros H. unfold field_of. f_equal. apply map_ext_in. intros i Hi. apply in_seq in Hi. apply H. lia.
Qed.

Lemma field_of_bound f off bits : 0 <= bits -> 0 <= field_of f off bits < 2 ^ bits.
Proof.
  intros Hb. unfold field_of. pose proof (be_val_bound (map (fun i => f (off + Z.of_nat i)) (seq 0 (Z.to_nat bits)))) as H.
  unfold zlen in H. rewrite length_map, length_seq, Z2Nat.id in H by done. done.
Qed.

Lemma be_bits_lookup n v i : (i < n)%nat -> be_bits n v !! i = Some (Z.testbit v (Z.of_nat n - 1 - Z.of_nat i)).
Proof.
  revert i. induction n as [|n IH]; intros i Hi; [lia|]. cbn [be_bits]. destruct i as [|i]; cbn [lookup list_lookup].
  - do 2 f_equal. lia.
  - change (list_lookup i (be_bits n v)) with (be_bits n v !! i). rewrite IH by lia. do 2 f_equal. lia.
Qed.

Lemma set_bit_at p p' off bits v k :
  0 <= off -> 0 <= bits -> off + bits <= 8 * zlen p -> 0 <= k ->
  bits_of p' = take (Z.to_nat off) (bits_of p) ++ be_bits (Z.to_nat bits) v ++ drop (Z.to_nat (off + bits)) (bits_of p) ->
  bit_at p' k = put_field (bit_at p) off bits v k.
Proof.
  intros Ho Hb Hl Hk E. unfold put_field, bit_at. rewrite E.
  assert (Ht : length (take (Z.to_nat off) (bits_of p)) = Z.to_nat off) by (unfold zlen in Hl; rewrite length_take, bits_of_length; lia).
  destruct (Z.leb_spec off k); cbn [andb]; [|by rewrite lookup_app_l, lookup_take_lt by lia].
  rewrite lookup_app_r by lia. rewrite Ht. destruct (Z.ltb_spec k (off + bits)).
  - rewrite lookup_app_l by (rewrite be_bits_length; lia). rewrite be_bits_lookup by lia. cbn. f_equal. lia.
  - rewrite lookup_app_r by (rewrite be_bits_length; lia). rewrite be_bits_length, lookup_drop. do 2 f_equal. lia.
Qed.

Lemma copy9_spec n i byte src buf :
  0 <= i -> 0 <= byte -> i + Z.of_nat n = 9 -> zlen buf = 9 -> bytes_ok src -> bytes_ok buf ->
  (forall k, 0 <= k < i -> byte_at buf k = byte_at src (byte + k)) -> (forall k, i <= k < 9 -> byte_at buf k = 0) ->
  exists buf', copy9 n i byte src buf = Some buf' /\ zlen buf' = 9 /\ bytes_ok buf' /\ (forall k, 0 <= k < 9 -> byte_at buf' k = byte_at src (byte + k)).
Proof.
  revert i buf. induction n as [|n IH]; intros i buf Hi Hb Hn Hz Hs Hok Hd Ht; cbn [copy9].
  - exists buf. split; [done|]. split; [done|]. split; [done|]. intros k Hk. apply Hd. lia.
  - destruct (Z.geb_spec (i + byte) (zlen src)).
    + exists buf. split; [done|]. split; [done|]. split; [done|]. intros k Hk. destruct (decide (k < i)); [apply Hd; lia|]. rewrite Ht by lia.
      unfold byte_at, zlen in *. by rewrite lookup_ge_None_2 by lia.
    + unfold load1. destruct (Z.leb_spec 0 (i + byte)); [|lia]. rewrite byte_at_some by lia. cbn [mbind option_bind].
      destruct (store_updated buf i [byte_at src (i + byte)]) as (b1 & -> & L & B & U);
        [done|constructor; [by apply byte_at_ok|constructor]|done|unfold zlen in *; simpl; lia|]. cbn [mbind option_bind].
      change (zlen [_]) with 1 in U. apply IH; try done; try lia; [unfold zlen in *; lia| |].
      * intros k Hk. rewrite U by lia. destruct (Z.leb_spec i k); cbn [andb]; [|apply Hd; lia]. destruct (Z.ltb_spec k (i + 1)); [|lia].
        assert (k = i) as -> by lia. rewrite Z.sub_diag.
        change (byte_at [byte_at src (i + byte)] 0) with (byte_at src (i + byte)). f_equal. lia.
      * intros k Hk. rewrite U by lia. destruct (Z.ltb_spec k (i + 1)); [lia|]. rewrite andb_false_r. apply Ht. lia.
Qed.

Lemma bitfield_get_spec src op :
  bytes_ok (default [] src) -> bf_ok op ->
  bitfield_get src op = Some (RInt (as_int (bf_sign op) (bf_bits op) (field_of (bit_at (default [] src)) (bf_offset op) (bf_bits op)))).
Proof.
  intros Hs (Hbits & Hoff & _). unfold bitfield_get. rewrite shift3. set (byte := bf_offset op / 8). set (v := default [] src) in *.
  pose proof (Z.div_mod (bf_offset op) 8). pose proof (Z.mod_pos_bound (bf_offset op) 8). assert (0 <= byte) by (apply Z.div_pos; lia).
  assert (Hz : bytes_ok (zeros 9) /\ zlen (zeros 9) = 9) by (split; [apply Forall_replicate; unfold byte_ok; lia|done]).
  assert (Hbuf : exists buf, match src with None => Some (zeros 9) | Some src => copy9 9 0 byte src (zeros 9) end = Some buf /\
    zlen buf = 9 /\ bytes_ok buf /\ (forall k, 0 <= k < 9 -> byte_at buf k = byte_at v (byte + k))).
  { destruct src as [p|]; cbn in v.
    - apply copy9_spec; try done; try lia; [by apply Hz|intros; apply byte_at_zeros].
    - exists (zeros 9). split; [done|]. split; [done|]. split; [by apply Hz|]. intros k Hk. rewrite byte_at_zeros. by unfold byte_at, v. }
  destruct Hbuf as (buf & -> & Hl9 & Hbok & Hcopy). cbn [mbind option_bind].
  assert (Hoff2 : 0 <= bf_offset op - byte * 8 < 8) by lia.
  assert (Hf : be_val (field buf (bf_offset op - byte * 8) (bf_bits op)) = field_of (bit_at v) (bf_offset op) (bf_bits op)).
  { rewrite field_of_eq by lia. apply field_of_ext. intros i Hi. rewrite !bit_at_byte by lia.
    set (k := bf_offset op - byte * 8 + i). assert (Ek : bf_offset op + i = k + byte * 8) by lia. rewrite Ek.
    rewrite Z.div_add, Z.mod_add by lia.
    assert (0 <= k / 8 < 9) by (split; [apply Z.div_pos|apply Z.div_lt_upper_bound]; lia).
    rewrite Hcopy by done. do 2 f_equal. lia. }
  pose proof (field_of_bound (bit_at v) (bf_offset op) (bf_bits op) ltac:(lia)) as Hu.
  assert (2 ^ bf_bits op <= 2 ^ 63) by (apply Z.pow_le_mono_r; lia). unfold as_int. destruct (bf_sign op).
  - rewrite getSigned_spec by (done || lia). cbv zeta. rewrite Hf. destruct (Z.eqb_spec (bf_bits op) 64); [lia|]. done.
  - rewrite getUnsigned_spec by (done || lia). cbn [mbind option_bind]. rewrite Hf. rewrite (wrapu_small (bf_bits op)) by done.
    rewrite wraps_small; [done|unfold in_s; zpow; lia|lia].
Qed.

Definition is_fail (op : bitfieldOp) : bool := match bf_owtype op with BFOVERFLOW_FAIL => true | _ => false end.

(** The result of an overflow check agrees with [written]. *)
Definition agrees (op : bitfieldOp) (t ov : Z) (w : option Z) : Prop :=
  (ov = 0 -> min_int (bf_sign op) (bf_bits op) <= t <= max_int (bf_sign op) (bf_bits op)) /\
  match written op t with
  | Some new => negb (ov =? 0) && is_fail op = false /\ (if negb (ov =? 0) then default 0 w else t) = new
  | None => negb (ov =? 0) && is_fail op = true
  end.

Lemma overflow_agrees op t sg mx mn :
  mx = max_int (bf_sign op) (bf_bits op) -> mn = min_int (bf_sign op) (bf_bits op) -> mn <= mx ->
  (sg = 1 /\ t > mx) \/ (sg = -1 /\ t < mn) ->
  let '(ov, w) := overflow_result sg (bf_owtype op) true (if t >? mx then mx else mn) (as_int (bf_sign op) (bf_bits op) t) in
  agrees op t ov w.
Proof.
  intros -> -> Hmm Hc. unfold agrees, written, overflow_result, is_fail.
  assert (Hout : (min_int (bf_sign op) (bf_bits op) <=? t) && (t <=? max_int (bf_sign op) (bf_bits op)) = false).
  { destruct (Z.leb_spec (min_int (bf_sign op) (bf_bits op)) t), (Z.leb_spec t (max_int (bf_sign op) (bf_bits op))); cbn; try done; lia. }
  rewrite Hout. destruct (bf_owtype op); [done| |]; destruct Hc as [[-> _]|[-> _]]; done || (split; [lia|done]).
Qed.

Lemma no_overflow_agrees op t w :
  min_int (bf_sign op) (bf_bits op) <= t <= max_int (bf_sign op) (bf_bits op) -> agrees op t 0 w.
Proof.
  intros Ht. split; [done|]. unfold written. replace (_ && _) with true by (symmetry; rewrite andb_true_iff, !Z.leb_le; lia). done.
Qed.

Lemma signed_agrees op value incr :
  bf_sign op = true -> 1 <= bf_bits op <= 63 -> in_s 64 value -> in_s 64 incr -> 2 ^ (bf_bits op - 1) - 1 - value < 2 ^ 63 ->
  (incr = 0 \/ - 2 ^ (bf_bits op - 1) <= value < 2 ^ (bf_bits op - 1)) ->
  exists ov w, checkSignedBitfieldOverflow value incr (bf_bits op) (bf_owtype op) true = Some (ov, w) /\ agrees op (value + incr) ov w.
Proof.
  intros Hs Hb Hv Hi Hd Hr. rewrite checkSigned_spec by (done || lia || auto). cbv zeta.
  destruct (Z.eqb_spec (bf_bits op) 64); [lia|]. cbn [andb].
  assert (0 < 2 ^ (bf_bits op - 1)) by lia. set (t := value + incr).
  assert (Hmx : max_int (bf_sign op) (bf_bits op) = 2 ^ (bf_bits op - 1) - 1) by (by rewrite Hs).
  assert (Hmn : min_int (bf_sign op) (bf_bits op) = - 2 ^ (bf_bits op - 1)) by (by rewrite Hs).
  assert (C1 : (value >? 2 ^ (bf_bits op - 1) - 1) || (t >? 2 ^ (bf_bits op - 1) - 1) = (t >? 2 ^ (bf_bits op - 1) - 1)).
  { destruct (Z.gtb_spec value (2 ^ (bf_bits op - 1) - 1)), (Z.gtb_spec t (2 ^ (bf_bits op - 1) - 1)); cbn; try done; lia. }
  assert (C2 : (value <? - 2 ^ (bf_bits op - 1)) || (t <? - 2 ^ (bf_bits op - 1)) = (t <? - 2 ^ (bf_bits op - 1))).
  { destruct (Z.ltb_spec value (- 2 ^ (bf_bits op - 1))), (Z.ltb_spec t (- 2 ^ (bf_bits op - 1))); cbn; try done; lia. }
  rewrite C1, C2. pose proof (overflow_agrees op t 1 _ _ (eq_sym Hmx) (eq_sym Hmn) ltac:(lia)) as O1.
  pose proof (overflow_agrees op t (-1) _ _ (eq_sym Hmx) (eq_sym Hmn) ltac:(lia)) as O2.
  unfold as_int in O1, O2. rewrite Hs in O1, O2.
  destruct (Z.gtb_spec t (2 ^ (bf_bits op - 1) - 1)); [|destruct (Z.ltb_spec t (- 2 ^ (bf_bits op - 1)))].
  - destruct (overflow_result 1 _ _ _ _) as [ov w] eqn:Eo. exists ov, w. split; [done|]. apply O1. lia.
  - destruct (overflow_result (-1) _ _ _ _) as [ov w] eqn:Eo. exists ov, w. split; [done|]. apply O2. lia.
  - eexists _, _. split; [done|]. apply no_overflow_agrees. lia.
Qed.

Lemma unsigned_agrees op value incr :
  bf_sign op = false -> 1 <= bf_bits op <= 63 -> in_u 64 value -> in_s 64 incr -> (incr = 0 \/ 0 <= value < 2 ^ bf_bits op) ->
  exists ov w, checkUnsignedBitfieldOverflow value incr (bf_bits op) (bf_owtype op) true = Some (ov, w) /\ agrees op (value + incr) ov w.
Proof.
  intros Hs Hb Hv Hi Hr. rewrite checkUnsigned_spec by done. cbv zeta. set (t := value + incr). unfold in_u in Hv.
  assert (0 < 2 ^ bf_bits op) by lia.
  assert (Hmx : max_int (bf_sign op) (bf_bits op) = 2 ^ bf_bits op - 1) by (by rewrite Hs).
  assert (Hmn : min_int (bf_sign op) (bf_bits op) = 0) by (by rewrite Hs).
  assert (C1 : (value >? 2 ^ bf_bits op - 1) || (t >? 2 ^ bf_bits op - 1) = (t >? 2 ^ bf_bits op - 1)).
  { destruct (Z.gtb_spec value (2 ^ bf_bits op - 1)), (Z.gtb_spec t (2 ^ bf_bits op - 1)); cbn; try done; lia. }
  rewrite C1. pose proof (overflow_agrees op t 1 _ _ (eq_sym Hmx) (eq_sym Hmn) ltac:(lia)) as O1.
  pose proof (overflow_agrees op t (-1) _ _ (eq_sym Hmx) (eq_sym Hmn) ltac:(lia)) as O2.
  unfold as_int in O1, O2. rewrite Hs in O1, O2.
  destruct (Z.gtb_spec t (2 ^ bf_bits op - 1)); [|destruct (Z.ltb_spec t 0)].
  - destruct (overflow_result 1 _ _ _ _) as [ov w] eqn:Eo. exists ov, w. split; [done|]. apply O1. lia.
  - destruct (overflow_result (-1) _ _ _ _) as [ov w] eqn:Eo. exists ov, w. split; [done|]. apply O2. lia.
  - eexists _, _. split; [done|]. apply no_overflow_agrees. lia.
Qed.

(** Storing what [written] says. *)
Lemma store_field p op new :
  bytes_ok p -> 8 * zlen p < 2 ^ 64 -> bf_offset op + bf_bits op <= 8 * zlen p -> bf_ok op ->
  exists p', (forall v, u64 v = u64 new -> setUnsignedBitfield p (bf_offset op) (bf_bits op) v = Some p') /\ bytes_ok p' /\ zlen p' = zlen p /\
    (forall k, 0 <= k -> bit_at p' k = put_field (bit_at p) (bf_offset op) (bf_bits op) new k).
Proof.
  intros Hp Hl Hf (Hb & Ho & _).
  destruct (setUnsigned_spec p (bf_offset op) (bf_bits op) new) as (p' & Es & Hp' & Hlen & Hbits); [lia|done|lia|done|done|].
  exists p'. assert (Hzl : zlen p' = zlen p) by (unfold zlen; by rewrite Hlen). split; [|split; [done|split; [done|]]].
  - intros v Hv. rewrite <- Es. apply bitfield_set_agree; done || lia.
  - intros k Hk. by apply set_bit_at; try lia.
Qed.

(** The end of the two branches of SET and INCRBY, once the check is known to
    agree with [written]; [conv] is the conversion of the reply. *)
Lemma write_finish p op old ov w nv (conv : Z -> Z) (set : Z -> option bs) :
  bytes_ok p -> 8 * zlen p < 2 ^ 64 -> bf_offset op + bf_bits op <= 8 * zlen p -> bf_ok op -> writes op = true ->
  old = as_int (bf_sign op) (bf_bits op) (field_of (bit_at p) (bf_offset op) (bf_bits op)) ->
  agrees op (asked op old) ov w -> (ov = 0 -> nv = asked op old) ->
  (forall v, set v = setUnsignedBitfield p (bf_offset op) (bf_bits op) (u64 v)) ->
  (forall x, 0 <= x < 2 ^ 63 \/ bf_sign op = true -> conv x = x) ->
  let newval := if negb (ov =? 0) then default 0 w else nv in
  let retval := match bf_opcode op with BITFIELDOP_INCRBY => newval | _ => old end in
  exists p', (if negb (negb (ov =? 0) && is_fail op) then q ← set newval; Some (RInt (conv retval), q) else Some (RNull, p)) =
    Some ((bf_spec (bit_at p) op).1, p') /\ bytes_ok p' /\ zlen p' = zlen p /\ (forall k, 0 <= k -> bit_at p' k = (bf_spec (bit_at p) op).2 k).
Proof.
  intros Hp Hl Hf Hok Hw Eold [Hz Ha] Hnv Hsetf Hconv newval retval. pose proof Hok as (Hb & Ho & _).
  assert (H63 : 2 ^ bf_bits op <= 2 ^ 63) by (apply Z.pow_le_mono_r; lia).
  unfold bf_spec. rewrite <- Eold. unfold writes in Hw.
  destruct (written op (asked op old)) as [new|] eqn:Ew.
  - destruct Ha as [Hnf Hnew]. rewrite Hnf. cbn [negb].
    assert (Env : newval = new) by (unfold newval; destruct (Z.eqb_spec ov 0) as [->|]; cbn [negb] in *; [rewrite Hnv by done; done|done]).
    destruct (store_field p op new) as (p' & Es & Hp' & Hlen & Hbits); [done|done|done|done|].
    assert (Hst : set newval = Some p') by (rewrite Hsetf; apply Es; rewrite Env; apply wrapu_wrapu; lia).
    rewrite Hst. cbn [mbind option_bind].
    assert (Hold : 0 <= old < 2 ^ 63 \/ bf_sign op = true).
    { destruct (bf_sign op) eqn:E; [by right|left]. rewrite Eold. unfold as_int. pose proof (wrapu_range (bf_bits op) (field_of (bit_at p) (bf_offset op) (bf_bits op))). lia. }
    assert (Hrange : 0 <= new < 2 ^ 63 \/ bf_sign op = true).
    { destruct (bf_sign op) eqn:E; [by right|left]. unfold written in Ew. rewrite E in Ew. unfold max_int, min_int, as_int in Ew.
      destruct ((0 <=? asked op old) && (asked op old <=? 2 ^ bf_bits op - 1)) eqn:Er; [injection Ew as <-; zb; lia|].
      pose proof (wrapu_range (bf_bits op) (asked op old)).
      destruct (bf_owtype op); [|destruct (Z.gtb_spec (asked op old) (2 ^ bf_bits op - 1))|done]; injection Ew as <-; lia. }
    exists p'. unfold retval. rewrite Env. destruct (bf_opcode op); [done| |]; cbn [fst snd]; rewrite Hconv by done; done.
  - rewrite Ha. cbn [negb]. exists p. destruct (bf_opcode op); done.
Qed.

Lemma bitfield_write_spec p op :
  bytes_ok p -> 8 * zlen p < 2 ^ 64 -> bf_offset op + bf_bits op <= 8 * zlen p -> bf_ok op -> writes op = true ->
  exists p', bitfield_write p op = Some ((bf_spec (bit_at p) op).1, p') /\ bytes_ok p' /\ zlen p' = zlen p /\
    (forall k, 0 <= k -> bit_at p' k = (bf_spec (bit_at p) op).2 k).
Proof.
  intros Hp Hl Hf Hok Hw. pose proof Hok as (Hb & Ho & Hi & Hset).
  pose proof (field_of_bound (bit_at p) (bf_offset op) (bf_bits op) ltac:(lia)) as Hu.
  pose proof (field_of_eq p (bf_offset op) (bf_bits op) ltac:(lia) ltac:(lia) Hf) as Ef.
  assert (H63 : 2 ^ bf_bits op <= 2 ^ 63) by (apply Z.pow_le_mono_r; lia).
  assert (H62 : 0 < 2 ^ (bf_bits op - 1) <= 2 ^ 62) by (split; [lia|apply Z.pow_le_mono_r; lia]).
  set (old := as_int (bf_sign op) (bf_bits op) (field_of (bit_at p) (bf_offset op) (bf_bits op))).
  pose proof (fun ov w nv conv set => write_finish p op old ov w nv conv set Hp Hl Hf Hok Hw eq_refl) as Hfin.
  unfold bitfield_write. unfold is_fail in Hfin. destruct (bf_sign op) eqn:Es.
  - rewrite getSigned_spec by (done || lia). cbv zeta. rewrite Ef. destruct (Z.eqb_spec (bf_bits op) 64); [lia|]. cbn [andb mbind option_bind].
    change (wraps (bf_bits op) _) with old.
    assert (Hor : - 2 ^ (bf_bits op - 1) <= old < 2 ^ (bf_bits op - 1)) by (apply wraps_range; lia).
    destruct (bf_opcode op) eqn:Eo; [by unfold writes in Hw; rewrite Eo in Hw| |].
    + destruct (signed_agrees op (bf_i64 op) 0) as (ov & w & -> & Ha); [done|done|done|unfold in_s; zpow; lia|auto|auto|]. cbn [mbind option_bind].
      apply (Hfin ov w (bf_i64 op) (fun x => x) (setSignedBitfield p (bf_offset op) (bf_bits op))); try done;
        unfold asked; rewrite Eo, Es; [by rewrite Z.add_0_r in Ha|done].
    + destruct (signed_agrees op old (bf_i64 op)) as (ov & w & -> & Ha); [done|done|unfold in_s; zpow; lia|done|zpow; lia|auto|]. cbn [mbind option_bind].
      apply (Hfin ov w (s64 (old + bf_i64 op)) (fun x => x) (setSignedBitfield p (bf_offset op) (bf_bits op))); try done; unfold asked; rewrite Eo; [done|].
      intros ->. destruct Ha as [Hz _]. specialize (Hz eq_refl). rewrite Es in Hz. unfold min_int, max_int in Hz. apply wraps_small; [unfold in_s; zpow; lia|lia].
  - rewrite getUnsigned_spec by (done || lia). rewrite Ef. cbn [mbind option_bind].
    assert (Eold : field_of (bit_at p) (bf_offset op) (bf_bits op) = old) by (unfold old, as_int; by rewrite wrapu_small). rewrite Eold in *.
    assert (Hset' : forall v, setUnsignedBitfield p (bf_offset op) (bf_bits op) v = setUnsignedBitfield p (bf_offset op) (bf_bits op) (u64 v)).
    { intros v. apply bitfield_set_agree; try done; try lia. symmetry. apply wrapu_wrapu. lia. }
    assert (Hc : forall x, 0 <= x < 2 ^ 63 \/ false = true -> s64 x = x) by (intros x [Hx|]; [apply wraps_small; [unfold in_s; zpow; lia|lia]|done]).
    destruct (bf_opcode op) eqn:Eo; [by unfold writes in Hw; rewrite Eo in Hw| |].
    + destruct (unsigned_agrees op (u64 (bf_i64 op)) 0) as (ov & w & -> & Ha); [done|done|apply wrapu_range; lia|unfold in_s; zpow; lia|auto|]. cbn [mbind option_bind].
      apply (Hfin ov w (u64 (bf_i64 op)) s64 (setUnsignedBitfield p (bf_offset op) (bf_bits op))); try done;
        unfold asked; rewrite Eo, Es; [by rewrite Z.add_0_r in Ha|done].
    + destruct (unsigned_agrees op old (bf_i64 op)) as (ov & w & -> & Ha); [done|done|unfold in_u; zpow; lia|done|auto|]. cbn [mbind option_bind].
      apply (Hfin ov w (u64 (old + bf_i64 op)) s64 (setUnsignedBitfield p (bf_offset op) (bf_bits op))); try done; unfold asked; rewrite Eo; [done|].
      intros ->. destruct Ha as [Hz _]. specialize (Hz eq_refl). rewrite Es in Hz. unfold min_int, max_int in Hz. apply wrapu_small. zpow. lia.
Qed.

Lemma bf_spec_ext f g op : (forall k, 0 <= k -> f k = g k) -> 0 <= bf_offset op ->
  (bf_spec f op).1 = (bf_spec g op).1 /\ forall k, 0 <= k -> (bf_spec f op).2 k = (bf_spec g op).2 k.
Proof.
  intros H Ho. unfold bf_spec. rewrite (field_of_ext f g (bf_offset op) (bf_bits op) (bf_offset op)) by (intros; apply H; lia).
  assert (Hput : forall v k, 0 <= k -> put_field f (bf_offset op) (bf_bits op) v k = put_field g (bf_offset op) (bf_bits op) v k)
    by (intros v k Hk; unfold put_field; destruct (_ && _); auto).
  destruct (bf_opcode op); [auto| |]; destruct (written _ _); cbn; auto.
Qed.

Lemma bitfield_exec_spec ops p changes f :
  (forall k, 0 <= k -> bit_at (default [] p) k = f k) -> bytes_ok (default [] p) -> 8 * zlen (default [] p) < 2 ^ 64 -> Forall bf_ok ops ->
  (forall op, op ∈ ops -> writes op = true -> is_Some p /\ bf_offset op + bf_bits op <= 8 * zlen (default [] p)) ->
  exists p', bitfield_exec ops p changes = Some (p', (bf_specs f ops).1, changes + zlen (filter (fun op => writes op = true) ops)) /\
    (is_Some p -> is_Some p') /\ bytes_ok (default [] p') /\ zlen (default [] p') = zlen (default [] p) /\
    (forall k, 0 <= k -> bit_at (default [] p') k = (bf_specs f ops).2 k).
Proof.
  revert p changes f. induction ops as [|op ops IH]; intros p changes f Hf Hb Hl Hok Hw; cbn [bitfield_exec bf_specs].
  - exists p. split; [do 2 f_equal; unfold zlen; simpl; lia|]. auto.
  - apply Forall_cons in Hok as [Hop Hok]. pose proof Hop as (Hbits & Hoff & _).
    assert (Hstep : exists p1, match bf_opcode op with
        | BITFIELDOP_GET => r ← bitfield_get p op; Some (r, p, changes)
        | _ => q ← p; '(r, q) ← bitfield_write q op; Some (r, Some q, changes + 1) end
        = Some ((bf_spec (bit_at (default [] p)) op).1, p1, changes + (if writes op then 1 else 0)) /\
      (is_Some p -> is_Some p1) /\ bytes_ok (default [] p1) /\ zlen (default [] p1) = zlen (default [] p) /\
      (forall k, 0 <= k -> bit_at (default [] p1) k = (bf_spec (bit_at (default [] p)) op).2 k)).
    { destruct (writes op) eqn:Ew.
      - destruct (Hw op) as [[q ->] Hq]; [set_solver|done|]. cbn [default] in *.
        destruct (bitfield_write_spec q op Hb Hl Hq Hop Ew) as (q' & Eq & H1 & H2 & H3).
        exists (Some q'). split; [|split; [eauto|done]]. unfold writes in Ew. destruct (bf_opcode op); [done| |]; cbn [mbind option_bind]; rewrite Eq; done.
      - exists p. assert (Eo : bf_opcode op = BITFIELDOP_GET) by (unfold writes in Ew; by destruct (bf_opcode op)). rewrite Eo.
        rewrite bitfield_get_spec by done. cbn [mbind option_bind]. unfold bf_spec. rewrite Eo. cbn [fst snd].
        split; [do 2 f_equal; lia|]. auto. }
    destruct Hstep as (p1 & -> & Hs1 & Hb1 & Hl1 & Hf1). cbn [mbind option_bind].
    destruct (bf_spec_ext (bit_at (default [] p)) f op Hf ltac:(lia)) as [Er Ef].
    destruct (IH p1 (changes + (if writes op then 1 else 0)) (bf_spec f op).2) as (p' & -> & Hs' & Hb' & Hl' & Hf').
    + intros k Hk. by rewrite Hf1, Ef.
    + done.
    + by rewrite Hl1.
    + done.
    + intros o Ho Hwo. destruct (Hw o) as [Hsp Hfit]; [set_solver|done|]. rewrite Hl1. auto.
    + cbn [mbind option_bind]. exists p'. rewrite Er. destruct (bf_spec f op) as [r f1]. cbn [fst snd] in *.
      destruct (bf_specs f1 ops) as [rs f2]. cbn [fst snd] in *. rewrite Hl1 in Hl'. split; [|auto]. do 2 f_equal.
      rewrite filter_cons. destruct (decide (writes op = true)) as [E|E]; [rewrite E, zlen_cons; lia|].
      apply not_true_is_false in E. rewrite E. lia.
Qed.

(** What parsing guarantees of an operation. *)
Definition parsed (ro : bool) (highest : Z) (op : bitfieldOp) : Prop :=
  1 <= bf_bits op <= (if bf_sign op then 64 else 63) /\ 0 <= bf_offset op < 2 ^ 32 /\ in_s 64 (bf_i64 op) /\
  (writes op = true -> ro = false /\ bf_offset op + bf_bits op - 1 <= highest).

Lemma type_range o sign bits : getBitfieldTypeFromArgument o = Some (sign, bits) -> 1 <= bits <= (if sign then 64 else 63).
Proof.
  unfold getBitfieldTypeFromArgument. intros H.
  destruct (if first_char o =? 105 then _ else _) as [b|]; [|done]. cbn [mbind option_bind] in H.
  destruct (string2ll _) as [n|]; [|done]. cbn [mbind option_bind] in H.
  destruct ((n <? 1) || (b && (n >? 64)) || (negb b && (n >? 63))) eqn:E; [done|]. injection H as <- <-.
  apply orb_false_iff in E as [E E3]. apply orb_false_iff in E as [E1 E2]. zb. rewrite Z.gtb_ltb in *.
  destruct b; cbn [andb negb] in *; zb; lia.
Qed.
Lemma offset_range o hash bits k : getBitOffsetFromArgument o hash bits = Some k -> 0 <= k < 2 ^ 32.
Proof.
  unfold getBitOffsetFromArgument. intros H. destruct (string2ll _) as [n|]; [|done]. cbn [mbind option_bind] in H.
  set (l := if _ && _ then s64 (n * bits) else n) in H. destruct ((l <? 0) || (Z.shiftr l 3 >=? 512 * 1024 * 1024)) eqn:E; [done|].
  injection H as <-. apply orb_false_iff in E as [E1 E2]. rewrite shift3, Z.geb_leb in E2. zb. zpow.
  pose proof (Z.div_mod l 8). pose proof (Z.mod_pos_bound l 8). lia.
Qed.
Lemma string2ll_range o v : string2ll o = Some v -> in_s 64 v.
Proof. intros H. by apply string2ll_iff in H as [? _]. Qed.

Lemma parsed_mono ro hi ro' hi' op : (ro = false -> ro' = false) -> hi <= hi' -> parsed ro hi op -> parsed ro' hi' op.
Proof. intros Hr Hh (H1 & H2 & H3 & H4). split; [done|]. split; [done|]. split; [done|]. intros Hw. destruct (H4 Hw). split; [auto|lia]. Qed.

Lemma parse_sub_args subcmd n : match parse_sub subcmd n with
  | SubOp BITFIELDOP_GET => 2 <= n | SubOp _ => 3 <= n | SubOverflow => 1 <= n | SubSyntax => True end.
Proof.
  unfold parse_sub. rewrite !Z.geb_leb. destruct (Z.leb_spec 2 n), (Z.leb_spec 3 n), (Z.leb_spec 1 n); rewrite ?andb_false_r, ?andb_true_r;
    repeat match goal with |- context [strcasecmp_eq ?a ?b] => destruct (strcasecmp_eq a b) end; first [lia|exact I].
Qed.

Lemma bitfield_parse_spec fuel args ow ops ro hi :
  (length args <= fuel)%nat -> Forall (parsed ro hi) ops -> 0 <= hi < 2 ^ 33 -> (ro = false -> Exists (fun op => writes op = true) ops) ->
  exists r, bitfield_parse fuel args ow ops ro hi = Some r /\
    match r with
    | inr _ => True
    | inl (ops, ro, hi) => Forall (parsed ro hi) ops /\ 0 <= hi < 2 ^ 33 /\ (ro = false -> Exists (fun op => writes op = true) ops)
    end.
Proof.
  revert args ow ops ro hi. induction fuel as [|fuel IH]; intros args ow ops ro hi Hf Hops Hhi Hex; destruct args as [|sub rest]; cbn [bitfield_parse].
  1, 3: eexists; split; [done|]; done.
  { simpl in Hf. lia. }
  simpl in Hf. pose proof (parse_sub_args sub (zlen rest)) as Hargs.
  assert (Hdrop : forall n, (length (drop n rest) <= fuel)%nat) by (intros n; rewrite length_drop; lia).
  destruct (parse_sub sub (zlen rest)) as [oc| |]; [| |eexists; split; done].
  2: { destruct rest as [|name rest]; [unfold zlen in Hargs; cbn [length] in Hargs; lia|]. cbn [lookup list_lookup mbind option_bind].
       destruct (parse_owtype name); [by apply IH|eexists; split; done]. }
  destruct rest as [|a1 [|a2 rest]]; [destruct oc; unfold zlen in Hargs; cbn [length] in Hargs; lia|destruct oc; unfold zlen in Hargs; cbn [length] in Hargs; lia|]. cbn [lookup list_lookup mbind option_bind].
  destruct (getBitfieldTypeFromArgument a1) as [[sign bits]|] eqn:E1; [|eexists; split; done]. apply type_range in E1.
  destruct (getBitOffsetFromArgument a2 true bits) as [off|] eqn:E2; [|eexists; split; done]. apply offset_range in E2.
  destruct oc eqn:Eoc.
  - apply IH; [done| |done|intros Hro; apply Exists_app; auto]. apply Forall_app. split; [done|]. constructor; [|constructor].
    split; [done|]. split; [done|]. split; [unfold in_s; zpow; simpl; lia|done].
  - destruct rest as [|a3 rest]; [unfold zlen in Hargs; cbn [length] in Hargs; lia|]. cbn [lookup list_lookup mbind option_bind].
    destruct (getLongLongFromObject a3) as [v|] eqn:E3; [|eexists; split; done]. apply string2ll_range in E3.
    set (hi' := if hi <? off + bits - 1 then off + bits - 1 else hi). assert (Hh : hi <= hi' /\ off + bits - 1 <= hi') by (unfold hi'; destruct (Z.ltb_spec hi (off + bits - 1)); lia).
    apply IH; [done| |unfold hi'; destruct (Z.ltb_spec hi (off + bits - 1)); [destruct sign; zpow; lia|done]
      |intros _; apply Exists_app; right; by constructor]. apply Forall_app. split.
    + eapply Forall_impl; [exact Hops|]. intros o. apply parsed_mono; [done|lia].
    + constructor; [|constructor]. split; [done|]. split; [done|]. split; [done|]. cbn. intros _. split; [done|lia].
  - destruct rest as [|a3 rest]; [unfold zlen in Hargs; cbn [length] in Hargs; lia|]. cbn [lookup list_lookup mbind option_bind].
    destruct (getLongLongFromObject a3) as [v|] eqn:E3; [|eexists; split; done]. apply string2ll_range in E3.
    set (hi' := if hi <? off + bits - 1 then off + bits - 1 else hi). assert (Hh : hi <= hi' /\ off + bits - 1 <= hi') by (unfold hi'; destruct (Z.ltb_spec hi (off + bits - 1)); lia).
    apply IH; [done| |unfold hi'; destruct (Z.ltb_spec hi (off + bits - 1)); [destruct sign; zpow; lia|done]
      |intros _; apply Exists_app; right; by constructor]. apply Forall_app. split.
    + eapply Forall_impl; [exact Hops|]. intros o. apply parsed_mono; [done|lia].
    + constructor; [|constructor]. split; [done|]. split; [done|]. split; [done|]. cbn. intros _. split; [done|lia].
Qed.

(** ** Theorems *)

(** SETBIT stores the bit at the given offset, extends the string with zero
    bytes when needed, keeps every other bit of the (zero-extended) value and
    replies with the previous bit, whatever the encoding of the value; GETBIT
    then reads the bit back at any offset. *)
Theorem setbit_getbit llbuf (s : state) (key v : bs) (k : Z) (x : bool) :
  zlen llbuf = LONG_STR_SIZE -> db_ok (db s) -> value_of (db s !! key) = Some v -> 0 <= k < 2 ^ 32 ->
  exists v' s', zlen v' = Z.max (zlen v) (k / 8 + 1) /\
    (forall j, 0 <= j -> bit_at v' j = if decide (j = k) then x else bit_at v j) /\
    setbitCommand llbuf s key (dec k) (dec (Z.b2z x)) = Some s' /\
    db s' = <[key := ORaw v']> (db s) /\ out s' = out s ++ [RInt (Z.b2z (bit_at v k))] /\ dirty s' = dirty s + 1 /\ db_ok (db s') /\
    (forall j, 0 <= j < 2 ^ 32 ->
      getbitCommand llbuf s' key (dec j) = Some (reply1 s' (RInt (Z.b2z (if decide (j = k) then x else bit_at v j))))).
Proof.
  intros Hl Hd Hv Hk. destruct (setbit_spec llbuf s key k x v Hl Hd Hv Hk) as (v' & Hb & Hlen & Hbits & E).
  eexists v', _. split; [done|]. split; [done|]. split; [exact E|]. cbn [db out dirty].
  destruct (value_bytes _ _ _ Hd Hv) as [_ Hvl].
  assert (Hd' : db_ok (<[key := ORaw v']> (db s))).
  { intros k' o Ho. destruct (decide (k' = key)) as [->|]; [|rewrite lookup_insert_ne in Ho by done; by apply (Hd k')].
    rewrite lookup_insert_eq in Ho. injection Ho as <-. split; [done|]. rewrite Hlen. pose proof (Z.div_mod k 8). pose proof (Z.mod_pos_bound k 8). zpow. lia. }
  split; [done|]. split; [done|]. split; [done|]. split; [done|]. intros j Hj.
  rewrite (getbit_spec llbuf _ key j v') by (try done; cbn [db]; by rewrite lookup_insert_eq). by rewrite Hbits by lia.
Qed.

(** C13: BITOP stores the string whose length is that of the longest source and
    whose every bit is the AND, OR, XOR or NOT of the sources' bits, missing
    keys and shorter strings counting as zeros, whichever of the two loops
    computes it; when all sources are empty the target is deleted.  The
    reply is the length. *)
Theorem bitop_correct llbuf be al (s : state) (opname targetkey : bs) (op : bitop) (keys vs : list bs) :
  zlen llbuf = LONG_STR_SIZE -> db_ok (db s) -> parse_bitop opname = Some op -> keys <> [] -> (op = BITOP_NOT -> length keys = 1%nat) ->
  Forall2 (fun k v => value_of (db s !! k) = Some v) keys vs ->
  exists s', bitopCommand llbuf be al s opname targetkey keys = Some s' /\
    out s' = out s ++ [RInt (max_len vs 0)] /\ dirty s' = dirty s + 1 /\
    (max_len vs 0 = 0 -> db s' = delete targetkey (db s)) /\
    (max_len vs 0 <> 0 -> exists res, db s' = <[targetkey := ORaw res]> (db s) /\ bytes_ok res /\ zlen res = max_len vs 0 /\
      forall k, 0 <= k < 8 * max_len vs 0 -> bit_at res k = bitop_bit op (map (fun p => bit_at p k) vs)).
Proof.
  intros Hl Hd Hop Hne Hnot Hv. unfold bitopCommand. rewrite Hop.
  assert (Hlen : length keys = length vs) by (by apply Forall2_length in Hv).
  assert (Hn1 : match op with BITOP_NOT => negb (zlen keys =? 1) | _ => false end = false).
  { destruct op; try done. unfold zlen. by rewrite Hnot. }
  rewrite Hn1. destruct vs as [|v0 rest]; [by destruct keys|].
  destruct (bitop_lookup_spec llbuf s keys v0 rest Hl Hd Hv) as (mn & -> & Hmn & Hmr). cbn [mbind option_bind].
  assert (Hok : Forall (fun p => bytes_ok p) (v0 :: rest)).
  { clear -Hd Hv. induction Hv as [|k v keys vs Hk _ IH]; constructor; [by apply (value_bytes _ _ _ Hd Hk)|done]. }
  apply Forall_cons in Hok as [H0 Hr]. destruct (max_len_ge (v0 :: rest) 0) as [M1 M2]. apply Forall_cons in M2 as [M2 _].
  destruct (Z.eqb_spec (max_len (v0 :: rest) 0) 0) as [E|E].
  - eexists. split; [done|]. cbn [mbind option_bind].
    assert (Hdel : forall b : bool, db (if b then emit (emit (del_key s targetkey) (EvModified targetkey)) (EvDel targetkey) else s) =
      if b then delete targetkey (db s) else db s) by (by intros []).
    split; [by destruct (bool_decide _)|]. split; [by destruct (bool_decide _)|]. split; [|done]. intros _. cbn [reply1 add_dirty db].
    rewrite Hdel. case_bool_decide as Hs; [done|]. rewrite delete_id; [done|]. by apply eq_None_not_Some.
  - assert (Hnr : op = BITOP_NOT -> rest = []) by (intros Ho; specialize (Hnot Ho); simpl in Hlen; destruct rest; [done|simpl in Hlen; lia]).
    destruct (compute_spec be al op v0 rest (max_len (v0 :: rest) 0) mn) as (res & -> & Hb & Hz & Hall); [done|done|lia|lia|done|done|].
    cbn [mbind option_bind]. eexists. split; [done|]. split; [done|]. split; [done|]. split; [done|]. intros _. exists res.
    split; [done|]. split; [done|]. split; [done|]. intros k Hk. pose proof (Z.div_mod k 8). pose proof (Z.mod_pos_bound k 8).
    rewrite bit_at_byte, Hall by lia. by apply combine_bit; try lia.
Qed.

(** On an existing string BITCOUNT replies with the number of ones in the
    selected bytes, and BITPOS with the position (counted from the beginning of
    the string) of the first selected bit equal to [bit]; without one, BITPOS
    replies -1, or the first position after the string when it looks for a
    zero and no end was given. *)
Theorem bitcount_bitpos_correct llbuf be addr (s : state) (key v : bs) (bit : bool) (x y : Z) :
  zlen llbuf = LONG_STR_SIZE -> db_ok (db s) -> db s !! key <> None -> value_of (db s !! key) = Some v -> in_s 64 x -> in_s 64 y ->
  bitcountCommand llbuf be addr s key [] = Some (reply1 s (RInt (ones (bits_of v)))) /\
  bitcountCommand llbuf be addr s key [dec x; dec y] =
    Some (reply1 s (RInt (if (x <? 0) && (y <? 0) && (x >? y) then 0 else let '(start, e) := clip (zlen v) x y in count_in v start e))) /\
  bitposCommand llbuf be addr s key (dec (Z.b2z bit)) [] = Some (reply1 s (RInt (pos_in v bit false 0 (zlen v - 1)))) /\
  bitposCommand llbuf be addr s key (dec (Z.b2z bit)) [dec x] =
    Some (reply1 s (RInt (let '(start, e) := clip (zlen v) x (zlen v - 1) in pos_in v bit false start e))) /\
  bitposCommand llbuf be addr s key (dec (Z.b2z bit)) [dec x; dec y] =
    Some (reply1 s (RInt (let '(start, e) := clip (zlen v) x y in pos_in v bit true start e))).
Proof.
  intros Hl Hd Hk Hv Hx Hy.
  split; [|split; [|split; [|split]]].
  - rewrite (bitcount_spec llbuf be addr s key v [] Hl Hd Hk Hv). do 3 f_equal. unfold count_in, segment. pose proof (zlen_nonneg v).
    destruct (Z.gtb_spec 0 (zlen v - 1)).
    + unfold zlen in *. destruct v; [done|simpl in *; lia].
    + rewrite drop_0, take_ge; [done|]. unfold zlen in *. lia.
  - by apply (bitcount_spec llbuf be addr s key v [dec x; dec y]).
  - by apply (bitpos_command_spec llbuf be addr s key v bit []).
  - by apply (bitpos_command_spec llbuf be addr s key v bit [dec x]).
  - by apply (bitpos_command_spec llbuf be addr s key v bit [dec x; dec y]).
Qed.

(** The two ways BITFIELD runs its operations. *)
Definition bitfield_run (s : state) (key : bs) (ops : list bitfieldOp) (readonly : bool) (r : option (state * option bs + err)) : option state :=
  r ← r;
  match r with
  | inr e => Some (reply1 s (RErr e))
  | inl (s, p) =>
      let s := reply1 s (RArrayLen (zlen ops)) in
      '(p, rs, changes) ← bitfield_exec ops p 0;
      let s := replies s rs in
      s ← (if readonly then Some s else p ← p; Some (set_key s key (ORaw p)));
      Some (if changes =? 0 then s else add_dirty (emit (emit s (EvModified key)) (EvSetbit key)) changes)
  end.

Lemma no_writes_count ops : Forall (fun op => writes op = false) ops -> zlen (filter (fun op => writes op = true) ops) = 0.
Proof. induction 1 as [|op ops H _ IH]; [done|]. rewrite filter_cons, H. destruct (decide (false = true)); done. Qed.

Lemma bitfield_read_run llbuf s key v ops :
  zlen llbuf = LONG_STR_SIZE -> db_ok (db s) -> value_of (db s !! key) = Some v ->
  Forall (fun op => writes op = false) ops -> Forall bf_ok ops ->
  exists s' v', bitfield_run s key ops true
      match db s !! key with
      | None => Some (inl (s, None))
      | Some OOther => Some (inr EWrongType)
      | Some o => v ← getObjectReadOnlyString llbuf o; Some (inl (s, Some v))
      end = Some s' /\
    out s' = out s ++ RArrayLen (zlen ops) :: (bf_specs (bit_at v) ops).1 /\
    (forall k, 0 <= k -> bit_at v' k = (bf_specs (bit_at v) ops).2 k) /\
    dirty s' = dirty s + zlen (filter (fun op => writes op = true) ops) /\ db s' = db s /\ v' = v.
Proof.
  intros Hl Hd Hv Hnw Hok. destruct (value_bytes _ _ _ Hd Hv) as [Hvb Hvl].
  assert (Hp : exists p, default [] p = v /\ match db s !! key with
      | None => Some (inl (s, None))
      | Some OOther => Some (inr EWrongType)
      | Some o => v ← getObjectReadOnlyString llbuf o; Some (inl (s, Some v))
      end = Some (inl (s, p)) :> option (state * option bs + err)).
  { destruct (db s !! key) as [o|] eqn:E; [|exists None; split; [by injection Hv|done]]. exists (Some v). split; [done|].
    pose proof (Hd key o E) as Ho. assert (Hne : o <> OOther) by (by intros ->). pose proof (readonly_spec llbuf o Hl Ho Hne) as Hrd. rewrite Hv in Hrd.
    destruct o; try done; by rewrite Hrd. }
  destruct Hp as (p & Hpv & ->). unfold bitfield_run. cbn [mbind option_bind].
  assert (Hw0 : forall op, op ∈ ops -> writes op = true -> is_Some p /\ bf_offset op + bf_bits op <= 8 * zlen (default [] p)).
  { intros op Hin Hw. rewrite Forall_forall in Hnw. by rewrite Hnw in Hw. }
  destruct (bitfield_exec_spec ops p 0 (bit_at v)) as (p' & -> & _ & _ & _ & Hbits); [by rewrite Hpv|by rewrite Hpv|rewrite Hpv; zpow; lia|done|done|].
  rewrite (no_writes_count ops Hnw). cbn [mbind option_bind]. rewrite Z.add_0_l, Z.add_0_r. cbn [Z.eqb].
  eexists _, v. split; [done|]. cbn [replies reply1 out db dirty]. split; [by rewrite <- app_assoc|]. split; [|done].
  intros k Hk. clear -Hnw. revert v. induction Hnw as [|op ops Hop _ IH]; intros v; [done|]. cbn [bf_specs]. unfold bf_spec.
  unfold writes in Hop. destruct (bf_opcode op); [|done|done]. specialize (IH v). by destruct (bf_specs (bit_at v) ops).
Qed.

Lemma bitfield_write_run llbuf s key v ops highest :
  zlen llbuf = LONG_STR_SIZE -> db_ok (db s) -> value_of (db s !! key) = Some v ->
  Forall (parsed false highest) ops -> 0 <= highest < 2 ^ 33 -> Forall bf_ok ops ->
  exists s' v', bitfield_run s key ops false
      (r ← lookupStringForBitCommand llbuf s key highest; Some (match r with inr e => inr e | inl (s, v) => inl (s, Some v) end)) = Some s' /\
    out s' = out s ++ RArrayLen (zlen ops) :: (bf_specs (bit_at v) ops).1 /\
    (forall k, 0 <= k -> bit_at v' k = (bf_specs (bit_at v) ops).2 k) /\
    dirty s' = dirty s + zlen (filter (fun op => writes op = true) ops) /\
    db s' = <[key := ORaw v']> (db s) /\ bytes_ok v' /\ zlen v' = Z.max (zlen v) (highest / 8 + 1).
Proof.
  intros Hl Hd Hv Hops Hhi Hok. destruct (value_bytes _ _ _ Hd Hv) as [Hvb Hvl].
  rewrite (lookupString_spec llbuf s key highest v) by done. rewrite shift3. cbn [mbind option_bind]. unfold bitfield_run. cbn [mbind option_bind].
  destruct (growzero_ok v (highest / 8 + 1) Hvb) as [Hgb Hgl]. set (g := growzero v (highest / 8 + 1)) in *.
  pose proof (Z.div_mod highest 8). pose proof (Z.mod_pos_bound highest 8).
  destruct (bitfield_exec_spec ops (Some g) 0 (bit_at v)) as (p' & -> & Hsome & Hb' & Hl' & Hbits).
  - intros k Hk. apply bit_at_grow.
  - done.
  - cbn. zpow. lia.
  - done.
  - intros op Hin Hw. split; [eauto|]. rewrite Forall_forall in Hops. destruct (Hops op Hin) as (_ & _ & _ & Hfit). destruct (Hfit Hw) as [_ Hfit'].
    cbn. lia.
  - destruct (Hsome ltac:(eauto)) as [q ->]. cbn [mbind option_bind default] in *. rewrite Z.add_0_l.
    set (n := zlen (filter (fun op => writes op = true) ops)).
    eexists _, q. split; [done|].
    assert (Hst : forall s1 : state, let s2 := if n =? 0 then s1 else add_dirty (emit (emit s1 (EvModified key)) (EvSetbit key)) n in
      out s2 = out s1 /\ db s2 = db s1 /\ dirty s2 = dirty s1 + n).
    { intros s1. destruct (Z.eqb_spec n 0) as [->|]; cbn; [split; [done|]; split; [done|lia]|done]. }
    destruct (Hst (set_key (replies (reply1 (set_key s key (ORaw g)) (RArrayLen (zlen ops))) (bf_specs (bit_at v) ops).1) key (ORaw q))) as (-> & -> & ->).
    cbn [set_key replies reply1 out db dirty]. split; [by rewrite <- app_assoc|]. split; [done|]. split; [done|].
    split; [by rewrite insert_insert_eq|]. split; [done|]. exact (eq_trans Hl' Hgl).
Qed.

(** C12: BITFIELD either replies with one error and changes nothing, or
    executes the parsed operations in order on the zero-extended string: each
    GET, SET and INCRBY has the reply and the effect of the specification,
    with the overflow mode in force, the string is grown only when something
    is written, and no byte out of it is accessed (fields of at most 63 bits;
    a signed SET whose distance to the maximum fits 64 bits). *)
Theorem bitfield_correct llbuf (s : state) (key v : bs) (args : list bs) (flag : bool) :
  zlen llbuf = LONG_STR_SIZE -> db_ok (db s) -> value_of (db s !! key) = Some v ->
  match bitfield_parse (length args) args BFOVERFLOW_WRAP [] true 0 with
  | None => False
  | Some (inr e) => bitfieldGeneric llbuf s flag key args = Some (reply1 s (RErr e))
  | Some (inl (ops, readonly, highest)) =>
      (readonly = true <-> Forall (fun op => writes op = false) ops) /\
      (readonly = false -> flag = true -> bitfieldGeneric llbuf s flag key args = Some (reply1 s (RErr EReadOnly))) /\
      (readonly = true \/ flag = false -> Forall bf_ok ops ->
       exists s' v', bitfieldGeneric llbuf s flag key args = Some s' /\
         out s' = out s ++ RArrayLen (zlen ops) :: (bf_specs (bit_at v) ops).1 /\
         (forall k, 0 <= k -> bit_at v' k = (bf_specs (bit_at v) ops).2 k) /\
         dirty s' = dirty s + zlen (filter (fun op => writes op = true) ops) /\
         if readonly then db s' = db s /\ v' = v
         else db s' = <[key := ORaw v']> (db s) /\ bytes_ok v' /\ zlen v' = Z.max (zlen v) (highest / 8 + 1))
  end.
Proof.
  intros Hl Hd Hv. destruct (value_bytes _ _ _ Hd Hv) as [Hvb Hvl].
  destruct (bitfield_parse_spec (length args) args BFOVERFLOW_WRAP [] true 0) as (r & Er & Hr); [lia|constructor|lia|done|].
  rewrite Er. unfold bitfieldGeneric. rewrite Er. cbn [mbind option_bind]. destruct r as [[[ops readonly] highest]|e]; [|done].
  destruct Hr as (Hops & Hhi & Hex).
  assert (Hnw : readonly = true -> Forall (fun op => writes op = false) ops).
  { intros ->. eapply Forall_impl; [exact Hops|]. intros op (_ & _ & _ & Hw). apply not_true_is_false. intros E. by destruct (Hw E). }
  split; [|split].
  - split; [done|]. intros Hall. destruct readonly; [done|]. destruct (proj1 (Exists_exists _ _) (Hex eq_refl)) as (op & Hin & Hw).
    rewrite Forall_forall in Hall. rewrite Hall in Hw by done. done.
  - intros -> ->. done.
  - intros Hro Hok. destruct readonly; cbn [negb andb].
    + exact (bitfield_read_run llbuf s key v ops Hl Hd Hv (Hnw eq_refl) Hok).
    + destruct Hro as [|Hro]; [done|]. rewrite Hro.
      exact (bitfield_write_run llbuf s key v ops highest Hl Hd Hv Hops Hhi Hok).
Qed.

(** The product of a [#] offset and the width is not checked for overflow: the
    2^60-th 16-bit field is taken for the first. *)
Example hash_offset_overflow : getBitOffsetFromArgument (35 :: dec (2 ^ 60)) true 16 = Some 0.
Proof. vm_compute. reflexivity. Qed.

(** ** Witnesses *)
Definition buf_w : bs := replicate 21 7.
Definition key_w (n : Z) : bs := [107; n].
Definition long_w : bs := replicate 40 170.
(** Key 1 holds the integer 42, key 2 the bytes [0;255;8], key 3 forty bytes. *)
Definition db_w : gmap bs robj := <[key_w 1 := OInt 42]> (<[key_w 2 := ORaw [0; 255; 8]]> (<[key_w 3 := ORaw long_w]> ∅)).
Definition state_w : state := mk_state db_w 0 [] [].

Lemma db_w_ok : db_ok db_w.
Proof.
  intros k o. unfold db_w. destruct (decide (k = key_w 1)) as [->|]; [rewrite lookup_insert_eq; intros [= <-]; unfold obj_ok, in_s; lia|].
  rewrite lookup_insert_ne by done. destruct (decide (k = key_w 2)) as [->|].
  { rewrite lookup_insert_eq. intros [= <-]. split; [|done]. repeat (apply Forall_cons; split; [unfold byte_ok; lia|]). apply Forall_nil. exact I. }
  rewrite lookup_insert_ne by done. destruct (decide (k = key_w 3)) as [->|]; [|by rewrite lookup_insert_ne, lookup_empty].
  rewrite lookup_insert_eq. intros [= <-]. split; [|done]. apply Forall_replicate. unfold byte_ok. lia.
Qed.

Lemma setbit_getbit_witness : exists v' s',
  setbitCommand buf_w state_w (key_w 1) (dec 25) (dec 1) = Some s' /\ db s' = <[key_w 1 := ORaw v']> db_w /\ zlen v' = 4.
Proof.
  destruct (setbit_getbit buf_w state_w (key_w 1) (dec 42) 25 true) as (v' & s' & Hz & _ & E & Hdb & _).
  - reflexivity.
  - apply db_w_ok.
  - reflexivity.
  - vm_compute. split; [discriminate|reflexivity].
  - exists v', s'. split; [exact E|]. split; [exact Hdb|]. rewrite Hz. reflexivity.
Defined.

Lemma bitop_correct_witness : exists s' res,
  bitopCommand buf_w false false state_w (bytes_of_string "Xor"%string) (key_w 9) [key_w 3; key_w 3; key_w 2] = Some s' /\
  db s' = <[key_w 9 := ORaw res]> db_w /\ zlen res = 40 /\ bit_at res 8 = true.
Proof.
  destruct (bitop_correct buf_w false false state_w (bytes_of_string "Xor"%string) (key_w 9) BITOP_XOR
    [key_w 3; key_w 3; key_w 2] [long_w; long_w; [0; 255; 8]]) as (s' & E & _ & _ & _ & H).
  - reflexivity.
  - apply db_w_ok.
  - vm_compute. reflexivity.
  - discriminate.
  - discriminate.
  - repeat (apply Forall2_cons; split; [vm_compute; reflexivity|]). apply Forall2_nil. exact I.
  - destruct H as (res & Hdb & _ & Hz & Hb); [vm_compute; discriminate|].
    exists s', res. split; [exact E|]. split; [exact Hdb|]. split; [rewrite Hz; vm_compute; reflexivity|].
    rewrite Hb; [vm_compute; reflexivity|]. vm_compute. split; [discriminate|reflexivity].
Defined.

Lemma bitcount_bitpos_witness :
  bitcountCommand buf_w false 4 state_w (key_w 2) [] = Some (reply1 state_w (RInt 9)) /\
  bitposCommand buf_w false 4 state_w (key_w 2) (dec (Z.b2z true)) [dec 1] = Some (reply1 state_w (RInt 8)) /\
  bitposCommand buf_w false 4 state_w (key_w 2) (dec (Z.b2z true)) [dec 1; dec (-2)] = Some (reply1 state_w (RInt 8)).
Proof.
  destruct (bitcount_bitpos_correct buf_w false 4 state_w (key_w 2) [0; 255; 8] true 1 (-2)) as (H1 & _ & _ & H2 & H3).
  - reflexivity.
  - apply db_w_ok.
  - vm_compute. discriminate.
  - vm_compute. reflexivity.
  - split; [vm_compute; discriminate|reflexivity].
  - split; [vm_compute; discriminate|reflexivity].
  - rewrite H1, H2, H3. split; [vm_compute; reflexivity|]. split; vm_compute; reflexivity.
Defined.

Definition args_w : list bs :=
  map bytes_of_string ["OVERFLOW"; "SAT"; "INCRBY"; "i5"; "100"; "20"; "GET"; "u4"; "#2"; "SET"; "u8"; "7"; "300"]%string.

Definition ops_w : list bitfieldOp :=
  [mk_op 100 20 BITFIELDOP_INCRBY BFOVERFLOW_SAT 5 true; mk_op 8 0 BITFIELDOP_GET BFOVERFLOW_SAT 4 false;
   mk_op 7 300 BITFIELDOP_SET BFOVERFLOW_SAT 8 false].

Lemma bitfield_correct_witness : exists s',
  bitfieldGeneric buf_w state_w false (key_w 2) args_w = Some s' /\ out s' = [RArrayLen 3; RInt 15; RInt 15; RInt 127].
Proof.
  pose proof (bitfield_correct buf_w state_w (key_w 2) [0; 255; 8] args_w false) as H.
  assert (E : bitfield_parse (length args_w) args_w BFOVERFLOW_WRAP [] true 0 = Some (inl (ops_w, false, 104))) by (vm_compute; reflexivity).
  rewrite E in H. destruct H as (_ & _ & H); [reflexivity|apply db_w_ok|vm_compute; reflexivity|].
  destruct H as (s' & v' & Es & Ho & _); [right; reflexivity| |].
  - repeat (apply Forall_cons; split; [|]); [| | |apply Forall_nil; exact I];
      (split; [vm_compute; split; discriminate|]; split; [vm_compute; split; [discriminate|reflexivity]|]; split; [split; [vm_compute; discriminate|reflexivity]|discriminate]).
  - exists s'. split; [exact Es|]. rewrite Ho. vm_compute. reflexivity.
Defined.
