(* ===== verification/Adlist.v ===== *)
(** * adlist.c: doubly linked lists

    The nodes live in a shared heap; a pointer is an address or NULL.  The
    theorems relate the linked structure to the list of its values: the
    operations never dereference NULL or a freed node, keep both chains of
    pointers and the length consistent, and neither leak nor free twice.
    What the allocator returns is an interface: any unused address. *)
From S2P Require Import Prelude.

(** ** The heap *)
Abbreviation loc := positive.
Abbreviation ptr := (option positive).

Record listNode := mk_node { n_prev : ptr; n_next : ptr; n_value : Z }.
Definition set_prev (n : listNode) (p : ptr) : listNode := mk_node p (n_next n) (n_value n).
Definition set_next (n : listNode) (p : ptr) : listNode := mk_node (n_prev n) p (n_value n).

(** The nodes, and the values passed to the [free] method so far. *)
Record heap := mk_heap { nodes : gmap loc listNode; freed : list Z }.

(** [list->dup] (which may return NULL), [list->free] (set or not) and
    [list->match]. *)
Record list_t := mk_list {
  l_head : ptr;
  l_tail : ptr;
  l_dup : option (Z -> option Z);
  l_free : bool;
  l_match : option (Z -> Z -> bool);
  l_len : Z
}.
Definition set_head (l : list_t) (p : ptr) : list_t := mk_list p (l_tail l) (l_dup l) (l_free l) (l_match l) (l_len l).
Definition set_tail (l : list_t) (p : ptr) : list_t := mk_list (l_head l) p (l_dup l) (l_free l) (l_match l) (l_len l).
Definition set_len (l : list_t) (n : Z) : list_t := mk_list (l_head l) (l_tail l) (l_dup l) (l_free l) (l_match l) n.

Class Allocator := {
  zmalloc : gmap loc listNode -> loc;
  zmalloc_fresh m : m !! zmalloc m = None
}.

(** Accesses through a pointer: [None] is a NULL or dangling pointer. *)
Definition deref (h : heap) (p : ptr) : option listNode := a ← p; nodes h !! a.
Definition update (h : heap) (p : ptr) (f : listNode -> listNode) : option heap :=
  a ← p; n ← nodes h !! a; Some (mk_heap (<[a := f n]> (nodes h)) (freed h)).
Definition zfree (h : heap) (p : ptr) : option heap :=
  a ← p; _ ← nodes h !! a; Some (mk_heap (delete a (nodes h)) (freed h)).
Definition free_value (l : list_t) (h : heap) (v : Z) : heap :=
  if l_free l then mk_heap (nodes h) (freed h ++ [v]) else h.

(** [if (p) p->next = c;] and [if (p) p->prev = c;]. *)
Definition relink_next (h : heap) (p : ptr) (c : ptr) : option heap :=
  match p with None => Some h | p => update h p (fun n => set_next n c) end.
Definition relink_prev (h : heap) (p : ptr) (c : ptr) : option heap :=
  match p with None => Some h | p => update h p (fun n => set_prev n c) end.

(** ** Operations *)
Definition listCreate : list_t := mk_list None None None false None 0.

Fixpoint empty_loop (len : nat) (l : list_t) (h : heap) (current : ptr) : option heap :=
  match len with
  | O => Some h
  | S len =>
      n ← deref h current;
      let h := free_value l h (n_value n) in
      h ← zfree h current;
      empty_loop len l h (n_next n)
  end.
Definition listEmpty (h : heap) (l : list_t) : option (heap * list_t) :=
  h ← empty_loop (Z.to_nat (l_len l)) l h (l_head l);
  Some (h, set_len (set_tail (set_head l None) None) 0).

Definition listRelease (h : heap) (l : list_t) : option heap := '(h, _) ← listEmpty h l; Some h.

Section Alloc.
  Context `{Allocator}.

Definition new_node (h : heap) (n : listNode) : heap * ptr :=
  let a := zmalloc (nodes h) in (mk_heap (<[a := n]> (nodes h)) (freed h), Some a).

Definition listAddNodeHead (h : heap) (l : list_t) (value : Z) : option (heap * list_t) :=
  '(h, l) ← (if l_len l =? 0 then
               let '(h, node) := new_node h (mk_node None None value) in
               Some (h, set_tail (set_head l node) node)
             else
               let '(h, node) := new_node h (mk_node None (l_head l) value) in
               h ← update h (l_head l) (fun n => set_prev n node);
               Some (h, set_head l node));
  Some (h, set_len l (u64 (l_len l + 1))).

Definition listAddNodeTail (h : heap) (l : list_t) (value : Z) : option (heap * list_t) :=
  '(h, l) ← (if l_len l =? 0 then
               let '(h, node) := new_node h (mk_node None None value) in
               Some (h, set_tail (set_head l node) node)
             else
               let '(h, node) := new_node h (mk_node (l_tail l) None value) in
               h ← update h (l_tail l) (fun n => set_next n node);
               Some (h, set_tail l node));
  Some (h, set_len l (u64 (l_len l + 1))).

Definition listInsertNode (h : heap) (l : list_t) (old_node : ptr) (value : Z) (after : bool) : option (heap * list_t) :=
  old ← deref h old_node;
  let n := if after then mk_node old_node (n_next old) value else mk_node (n_prev old) old_node value in
  let '(h, node) := new_node h n in
  let l := if after then (if bool_decide (l_tail l = old_node) then set_tail l node else l)
           else (if bool_decide (l_head l = old_node) then set_head l node else l) in
  h ← relink_next h (n_prev n) node;
  h ← relink_prev h (n_next n) node;
  Some (h, set_len l (u64 (l_len l + 1))).
End Alloc.

Definition listDelNode (h : heap) (l : list_t) (node : ptr) : option (heap * list_t) :=
  n ← deref h node;
  h ← relink_next h (n_prev n) (n_next n);
  let l := match n_prev n with Some _ => l | None => set_head l (n_next n) end in
  h ← relink_prev h (n_next n) (n_prev n);
  let l := match n_next n with Some _ => l | None => set_tail l (n_prev n) end in
  let h := free_value l h (n_value n) in
  h ← zfree h node;
  Some (h, set_len l (u64 (l_len l - 1))).

(** Iterators. *)
Inductive direction := AL_START_HEAD | AL_START_TAIL.
Record listIter := mk_iter { it_next : ptr; it_dir : direction }.

Definition listGetIterator (l : list_t) (d : direction) : listIter :=
  mk_iter (match d with AL_START_HEAD => l_head l | AL_START_TAIL => l_tail l end) d.
Definition listRewind (l : list_t) : listIter := mk_iter (l_head l) AL_START_HEAD.
Definition listRewindTail (l : list_t) : listIter := mk_iter (l_tail l) AL_START_TAIL.

Definition listNext (h : heap) (it : listIter) : option (ptr * listIter) :=
  let current := it_next it in
  match current with
  | None => Some (None, it)
  | _ =>
      n ← deref h current;
      Some (current, mk_iter (match it_dir it with AL_START_HEAD => n_next n | AL_START_TAIL => n_prev n end) (it_dir it))
  end.

(** [while((node = listNext(&iter)) != NULL)]: the fuel is the number of
    nodes plus one. *)
Fixpoint search_loop (fuel : nat) (h : heap) (l : list_t) (it : listIter) (key : Z) : option ptr :=
  match fuel with
  | O => None
  | S fuel =>
      '(node, it) ← listNext h it;
      match node with
      | None => Some None
      | _ =>
          n ← deref h node;
          if match l_match l with Some m => m (n_value n) key | None => key =? n_value n end then Some node
          else search_loop fuel h l it key
      end
  end.
Definition listSearchKey (h : heap) (l : list_t) (key : Z) : option ptr :=
  search_loop (S (Z.to_nat (l_len l))) h l (listRewind l) key.

(** [while(index-- && n) n = n->prev] (or [next]). *)
Fixpoint index_loop (index : nat) (step : listNode -> ptr) (h : heap) (n : ptr) : option ptr :=
  match index with
  | O => Some n
  | S index =>
      match n with
      | None => Some None
      | _ => x ← deref h n; index_loop index step h (step x)
      end
  end.
Definition listIndex (h : heap) (l : list_t) (index : Z) : option ptr :=
  if index =? - 2 ^ 63 then None   (* (-index) overflows *)
  else if index <? 0 then index_loop (Z.to_nat (- index - 1)) n_prev h (l_tail l)
  else index_loop (Z.to_nat index) n_next h (l_head l).

Definition listRotateTailToHead (h : heap) (l : list_t) : option (heap * list_t) :=
  if l_len l <=? 1 then Some (h, l)
  else
    let tail := l_tail l in
    t ← deref h tail;
    let l := set_tail l (n_prev t) in
    h ← update h (l_tail l) (fun n => set_next n None);
    h ← update h (l_head l) (fun n => set_prev n tail);
    h ← update h tail (fun n => set_prev n None);
    h ← update h tail (fun n => set_next n (l_head l));
    Some (h, set_head l tail).

Definition listRotateHeadToTail (h : heap) (l : list_t) : option (heap * list_t) :=
  if l_len l <=? 1 then Some (h, l)
  else
    let head := l_head l in
    x ← deref h head;
    let l := set_head l (n_next x) in
    h ← update h (l_head l) (fun n => set_prev n None);
    h ← update h (l_tail l) (fun n => set_next n head);
    h ← update h head (fun n => set_next n None);
    h ← update h head (fun n => set_prev n (l_tail l));
    Some (h, set_tail l head).

Definition listJoin (h : heap) (l o : list_t) : option (heap * list_t * list_t) :=
  h ← relink_prev h (l_head o) (l_tail l);
  h ← relink_next h (l_tail l) (l_head o);
  let l := match l_tail l with Some _ => l | None => set_head l (l_head o) end in
  let l := match l_tail o with None => l | p => set_tail l p end in
  let l := set_len l (u64 (l_len l + l_len o)) in
  Some (h, l, set_len (set_tail (set_head o None) None) 0).

(** [listDup]: the copy, or NULL when the [dup] method fails. *)
Fixpoint dup_loop `{Allocator} (fuel : nat) (h : heap) (copy : list_t) (it : listIter) : option (heap * option list_t) :=
  match fuel with
  | O => None
  | S fuel =>
      '(node, it) ← listNext h it;
      match node with
      | None => Some (h, Some copy)
      | _ =>
          n ← deref h node;
          match match l_dup copy with Some d => d (n_value n) | None => Some (n_value n) end with
          | None => h ← listRelease h copy; Some (h, None)
          | Some value => '(h, copy) ← listAddNodeTail h copy value; dup_loop fuel h copy it
          end
      end
  end.
Definition listDup `{Allocator} (h : heap) (orig : list_t) : option (heap * option list_t) :=
  let copy := mk_list None None (l_dup orig) (l_free orig) (l_match orig) 0 in
  dup_loop (S (Z.to_nat (l_len orig))) h copy (listRewind orig).

(** ** The shape of a list *)
(** A list of nodes with their values; the pointer to the first and to the
    last of them, or the given pointer when there is none. *)
Abbreviation cells := (list (loc * Z)).
Definition first (xs : cells) (after : ptr) : ptr := match xs with [] => after | (a, _) :: _ => Some a end.
Fixpoint last_ptr (xs : cells) (before : ptr) : ptr := match xs with [] => before | (a, _) :: xs => last_ptr xs (Some a) end.

(** The nodes [xs] are chained in both directions, between [before] and
    [after]. *)
Fixpoint seg (m : gmap loc listNode) (before : ptr) (xs : cells) (after : ptr) : Prop :=
  match xs with
  | [] => True
  | (a, v) :: xs => m !! a = Some (mk_node before (first xs after) v) /\ seg m (Some a) xs after
  end.

Record list_ok (m : gmap loc listNode) (l : list_t) (xs : cells) : Prop := {
  ok_seg : seg m None xs None;
  ok_nodup : NoDup xs.*1;
  ok_head : l_head l = first xs None;
  ok_tail : l_tail l = last_ptr xs None;
  ok_len : l_len l = zlen xs;
  ok_bound : zlen xs < 2 ^ 64
}.

Lemma first_app xs ys p : first (xs ++ ys) p = first xs (first ys p).
Proof. destruct xs as [|[]]; done. Qed.
Lemma last_app xs ys p : last_ptr (xs ++ ys) p = last_ptr ys (last_ptr xs p).
Proof. revert p. induction xs as [|[a v] xs IH]; intros p; simpl; auto. Qed.

Lemma seg_app m b xs ys a : seg m b (xs ++ ys) a <-> seg m b xs (first ys a) /\ seg m (last_ptr xs b) ys a.
Proof.
  revert b. induction xs as [|[x v] xs IH]; intros b; simpl; [naive_solver|]. rewrite IH, first_app. naive_solver.
Qed.

(** A segment depends on its own nodes only. *)
Lemma seg_frame m m' b xs a : (forall k, k ∈ xs.*1 -> m' !! k = m !! k) -> seg m b xs a -> seg m' b xs a.
Proof.
  revert b. induction xs as [|[x v] xs IH]; intros b Hf; simpl; [done|]. intros [Hx Hs]. split.
  - rewrite Hf; [done|]. set_solver.
  - apply IH; [|done]. intros k Hk. apply Hf. set_solver.
Qed.
Lemma seg_insert m b xs a k n : k ∉ xs.*1 -> seg m b xs a -> seg (<[k := n]> m) b xs a.
Proof. intros Hk. apply seg_frame. intros i Hi. rewrite lookup_insert_ne; [done|set_solver]. Qed.
Lemma seg_delete m b xs a k : k ∉ xs.*1 -> seg m b xs a -> seg (delete k m) b xs a.
Proof. intros Hk. apply seg_frame. intros i Hi. rewrite lookup_delete_ne; [done|set_solver]. Qed.
Lemma seg_dom m b xs a k : seg m b xs a -> k ∈ xs.*1 -> is_Some (m !! k).
Proof. revert b. induction xs as [|[x v] xs IH]; intros b; simpl; [set_solver|]. intros [Hx Hs] Hk. apply elem_of_cons in Hk as [->|Hk]; [eauto|by eapply IH]. Qed.

Lemma last_ptr_snoc xs a v p : last_ptr (xs ++ [(a, v)]) p = Some a.
Proof. by rewrite last_app. Qed.
(** [m'] differs from [m] on [xs] only. *)
Definition outside (m m' : gmap loc listNode) (xs : cells) : Prop := forall k, k ∉ xs.*1 -> m' !! k = m !! k.
Lemma outside_trans m1 m2 m3 xs ys : outside m1 m2 xs -> outside m2 m3 ys -> outside m1 m3 (xs ++ ys).
Proof. intros H1 H2 k Hk. rewrite fmap_app in Hk. rewrite H2, H1; set_solver. Qed.
Lemma seg_outside m m' b xs ys a : outside m m' ys -> (forall k, k ∈ xs.*1 -> k ∉ ys.*1) -> seg m b xs a -> seg m' b xs a.
Proof. intros Ho Hd. apply seg_frame. intros k Hk. by apply Ho, Hd. Qed.

(** Changing the outer pointers of a segment. *)

Lemma relink_next_spec h b xs a c :
  seg (nodes h) b xs a -> NoDup xs.*1 ->
  exists m, relink_next h (last_ptr xs None) c = Some (mk_heap m (freed h)) /\ seg m b xs c /\ outside (nodes h) m xs /\ dom m = dom (nodes h).
Proof.
  intros Hs Hn. destruct xs as [|[x v] ys _] using rev_ind.
  - exists (nodes h). split; [by destruct h|]. done.
  - rewrite last_ptr_snoc. apply seg_app in Hs as [Hs [Hx _]]. rewrite fmap_app in Hn. apply NoDup_app in Hn as (Hn & Hd & _).
    assert (Hny : x ∉ ys.*1) by (intros Hi; apply (Hd x Hi); set_solver).
    unfold relink_next, update. cbn [mbind option_bind]. rewrite Hx. cbn [mbind option_bind]. eexists. split; [done|]. split; [|split].
    + apply seg_app. split; [by apply seg_insert|]. split; [by rewrite lookup_insert_eq|done].
    + intros k Hk. rewrite lookup_insert_ne; [done|]. rewrite fmap_app in Hk. set_solver.
    + rewrite dom_insert_lookup_L; eauto.
Qed.

Lemma relink_prev_spec h b xs a c :
  seg (nodes h) b xs a -> NoDup xs.*1 ->
  exists m, relink_prev h (first xs None) c = Some (mk_heap m (freed h)) /\ seg m c xs a /\ outside (nodes h) m xs /\ dom m = dom (nodes h).
Proof.
  intros Hs Hn. destruct xs as [|[x v] xs].
  - exists (nodes h). split; [by destruct h|]. done.
  - destruct Hs as [Hx Hs]. apply NoDup_cons in Hn as [Hnx Hn]. unfold relink_prev, update. cbn [first mbind option_bind]. rewrite Hx. cbn [mbind option_bind].
    eexists. split; [done|]. split; [|split].
    + split; [by rewrite lookup_insert_eq|]. by apply seg_insert.
    + intros k Hk. rewrite lookup_insert_ne; [done|set_solver].
    + rewrite dom_insert_lookup_L; eauto.
Qed.

(** The pieces of a split list. *)
Lemma split_nodup (ys zs : cells) : NoDup (ys ++ zs).*1 -> NoDup ys.*1 /\ NoDup zs.*1 /\ (forall k, k ∈ ys.*1 -> k ∉ zs.*1).
Proof. rewrite fmap_app, NoDup_app. tauto. Qed.

Lemma splice_spec h ys zs a v :
  seg (nodes h) None (ys ++ zs) None -> NoDup (ys ++ zs).*1 -> nodes h !! a = None ->
  exists m, (h ← relink_next (mk_heap (<[a := mk_node (last_ptr ys None) (first zs None) v]> (nodes h)) (freed h)) (last_ptr ys None) (Some a);
             relink_prev h (first zs None) (Some a)) = Some (mk_heap m (freed h)) /\
    seg m None (ys ++ (a, v) :: zs) None /\ outside (nodes h) m (ys ++ (a, v) :: zs) /\ dom m = {[a]} ∪ dom (nodes h).
Proof.
  intros Hs Hn Ha. apply seg_app in Hs as [Hy Hz]. destruct (split_nodup _ _ Hn) as (Ny & Nz & Hd).
  assert (Hay : a ∉ ys.*1) by (intros Hi; destruct (seg_dom _ _ _ _ _ Hy Hi); congruence).
  assert (Haz : a ∉ zs.*1) by (intros Hi; destruct (seg_dom _ _ _ _ _ Hz Hi); congruence).
  set (h1 := mk_heap _ _). destruct (relink_next_spec h1 None ys (first zs None) (Some a)) as (m1 & -> & S1 & O1 & D1); [by apply seg_insert|done|].
  cbn [mbind option_bind].
  assert (Z1 : seg m1 (last_ptr ys None) zs None).
  { eapply seg_outside; [exact O1|intros k Hk Hk'; by apply (Hd k)|]. by apply seg_insert. }
  destruct (relink_prev_spec (mk_heap m1 (freed h1)) (last_ptr ys None) zs None (Some a) Z1 Nz) as (m2 & -> & S2 & O2 & D2).
  exists m2. split; [done|]. split; [|split].
  - apply seg_app. split; [eapply seg_outside; [exact O2|exact Hd|exact S1]|]. split; [|done].
    rewrite O2 by done. cbn. rewrite O1 by done. cbn. by rewrite lookup_insert_eq.
  - intros k Hk. rewrite fmap_app in Hk. rewrite O2 by set_solver. cbn. rewrite O1 by set_solver. cbn. rewrite lookup_insert_ne; [done|set_solver].
  - rewrite D2. cbn. rewrite D1. cbn. by rewrite dom_insert_L.
Qed.

Lemma unsplice_spec h ys zs a v :
  seg (nodes h) None (ys ++ (a, v) :: zs) None -> NoDup (ys ++ (a, v) :: zs).*1 ->
  exists m, (h ← relink_next h (last_ptr ys None) (first zs None); relink_prev h (first zs None) (last_ptr ys None)) = Some (mk_heap m (freed h)) /\
    seg m None (ys ++ zs) None /\ is_Some (m !! a) /\ outside (nodes h) m (ys ++ (a, v) :: zs) /\ dom m = dom (nodes h) /\ a ∉ (ys ++ zs).*1.
Proof.
  intros Hs Hn. apply seg_app in Hs as [Hy [Ha Hz]]. destruct (split_nodup _ _ Hn) as (Ny & Nz & Hd).
  apply NoDup_cons in Nz as [Haz Nz]. assert (Hay : a ∉ ys.*1) by (intros Hi; apply (Hd a Hi); set_solver).
  destruct (relink_next_spec h None ys _ (first zs None) Hy Ny) as (m1 & -> & S1 & O1 & D1). cbn [mbind option_bind].
  assert (Z1 : seg m1 (Some a) zs None) by (eapply seg_outside; [exact O1|intros k Hk Hk'; apply (Hd k Hk'); set_solver|done]).
  destruct (relink_prev_spec (mk_heap m1 (freed h)) (Some a) zs None (last_ptr ys None) Z1 Nz) as (m2 & -> & S2 & O2 & D2).
  exists m2. split; [done|]. split; [|split; [|split; [|split]]].
  - apply seg_app. split; [|done]. eapply seg_outside; [exact O2| |exact S1]. intros k Hk Hk'. apply (Hd k Hk). set_solver.
  - rewrite O2, O1 by done. eauto.
  - intros k Hk. rewrite fmap_app in Hk. rewrite O2 by set_solver. cbn. rewrite O1 by set_solver. done.
  - by rewrite D2.
  - rewrite fmap_app. set_solver.
Qed.

Lemma last_none xs : last_ptr xs None = None <-> xs = [].
Proof.
  destruct xs as [|[x v] xs _] using rev_ind; [done|]. rewrite last_ptr_snoc. split; [done|]. intros E. by destruct xs.
Qed.
Lemma first_none xs : first xs None = None <-> xs = [].
Proof. destruct xs as [|[x v] xs]; [done|]. split; done. Qed.

Definition same_methods (l l' : list_t) : Prop := l_dup l' = l_dup l /\ l_free l' = l_free l /\ l_match l' = l_match l.

(** ** Specifications of the operations *)
Section Specs.
  Context `{Allocator}.

(** What an operation that adds the node [a] at the given place does. *)
Definition added (h : heap) (l : list_t) (ys : cells) (v : Z) (zs : cells) (r : option (heap * list_t)) : Prop :=
  exists a m l', r = Some (mk_heap m (freed h), l') /\ nodes h !! a = None /\ list_ok m l' (ys ++ (a, v) :: zs) /\
    outside (nodes h) m (ys ++ (a, v) :: zs) /\ dom m = {[a]} ∪ dom (nodes h) /\ same_methods l l'.

Lemma zlen_insert (ys zs : cells) a v : zlen (ys ++ (a, v) :: zs) = zlen (ys ++ zs) + 1.
Proof. autorewrite with zlen. lia. Qed.

Lemma nodup_insert h ys zs (a : loc) (v : Z) :
  seg (nodes h) None (ys ++ zs) None -> nodes h !! a = None -> NoDup (ys ++ zs).*1 -> NoDup (ys ++ (a, v) :: zs).*1.
Proof.
  intros Hs Ha Hn. assert (Hi : a ∉ (ys ++ zs).*1) by (intros Hi; destruct (seg_dom _ _ _ _ _ Hs Hi); congruence).
  rewrite !fmap_app in *. cbn. apply NoDup_app in Hn as (H1 & H2 & H3). apply NoDup_app. split; [done|]. split; [|apply NoDup_cons; split; [set_solver|done]].
  intros x Hx Hx'. apply elem_of_cons in Hx' as [->|Hx']; [set_solver|by apply (H2 x)].
Qed.

Lemma add_head_spec h l xs v : list_ok (nodes h) l xs -> zlen xs + 1 < 2 ^ 64 -> added h l [] v xs (listAddNodeHead h l v).
Proof.
  intros [Hs Hn Hh Ht Hl Hb] Hb'. pose proof (zmalloc_fresh (nodes h)) as Ha. set (a := zmalloc (nodes h)) in *.
  destruct (splice_spec h [] xs a v Hs Hn Ha) as (m & E & S & O & D).
  exists a, m, (set_len (set_tail (set_head l (Some a)) (last_ptr ((a, v) :: xs) None)) (zlen xs + 1)).
  split; [|split; [done|]; split; [|done]].
  - unfold listAddNodeHead, new_node. fold a. rewrite Hl, Hh. pose proof (zlen_nonneg xs). cbn [relink_next last_ptr mbind option_bind] in E.
    destruct xs as [|[x w] xs]; [destruct (Z.eqb_spec (zlen (@nil (loc * Z))) 0); [|done]|destruct (Z.eqb_spec (zlen ((x, w) :: xs)) 0); [rewrite zlen_cons in *; pose proof (zlen_nonneg xs); lia|]].
    + cbn [mbind option_bind]. cbn in E. injection E as <-. cbn [set_head set_tail l_len]. rewrite Hl. done.
    + cbn [first] in *. change (relink_prev _ _ _) with (update (mk_heap (<[a:=mk_node None (Some x) v]> (nodes h)) (freed h)) (Some x) (fun n => set_prev n (Some a))) in E.
      rewrite E. cbn [mbind option_bind]. cbn [set_head l_len]. rewrite Hl, wrapu_small by lia. unfold set_len, set_tail, set_head. cbn. by rewrite Ht.
  - constructor; cbn; try done; [by apply (nodup_insert h [] xs a v)|by rewrite zlen_cons, Z.add_comm|rewrite zlen_cons; lia].
Qed.

Lemma add_tail_spec h l xs v : list_ok (nodes h) l xs -> zlen xs + 1 < 2 ^ 64 -> added h l xs v [] (listAddNodeTail h l v).
Proof.
  intros [Hs Hn Hh Ht Hl Hb] Hb'. pose proof (zmalloc_fresh (nodes h)) as Ha. set (a := zmalloc (nodes h)) in *.
  rewrite <- (app_nil_r xs) in Hs, Hn. destruct (splice_spec h xs [] a v Hs Hn Ha) as (m & E & S & O & D).
  exists a, m, (set_len (set_tail (set_head l (first (xs ++ [(a, v)]) None)) (Some a)) (zlen xs + 1)).
  split; [|split; [done|]; split; [|done]].
  - unfold listAddNodeTail, new_node. fold a. rewrite Hl, Ht. pose proof (zlen_nonneg xs). cbn [relink_prev first] in E.
    destruct xs as [|[x w] xs _] using rev_ind.
    + cbn in E. injection E as <-. destruct (Z.eqb_spec (zlen (@nil (loc * Z))) 0); [|done]. cbn [mbind option_bind set_head set_tail l_len]. rewrite Hl. done.
    + destruct (Z.eqb_spec (zlen (xs ++ [(x, w)])) 0); [rewrite zlen_app, zlen_cons in *; pose proof (zlen_nonneg xs); unfold zlen in *; simpl in *; lia|].
      rewrite last_ptr_snoc in *. cbn [relink_next] in E.
      destruct (update _ (Some x) _) as [h2|]; [|done]. cbn [mbind option_bind] in *. injection E as ->. cbn [set_tail l_len]. rewrite Hl, wrapu_small by lia.
      rewrite !first_app in *. unfold set_len, set_tail, set_head. cbn [l_head l_tail l_dup l_free l_match l_len]. rewrite Hh. by destruct xs as [|[]].
  - constructor; cbn [set_len set_tail set_head l_head l_tail l_len]; try done.
    + by apply (nodup_insert h xs [] a v); rewrite ?app_nil_r in *; rewrite ?app_nil_r.
    + by rewrite last_ptr_snoc.
    + rewrite zlen_app, zlen_cons, zlen_nil. lia.
    + rewrite zlen_app, zlen_cons, zlen_nil. lia.
Qed.

Lemma insert_spec h l ys a w zs v (after : bool) :
  list_ok (nodes h) l (ys ++ (a, w) :: zs) -> zlen (ys ++ (a, w) :: zs) + 1 < 2 ^ 64 ->
  if after then added h l (ys ++ [(a, w)]) v zs (listInsertNode h l (Some a) v true)
  else added h l ys v ((a, w) :: zs) (listInsertNode h l (Some a) v false).
Proof.
  intros [Hs Hn Hh Ht Hl Hb] Hb'. pose proof (zmalloc_fresh (nodes h)) as Hx. set (x := zmalloc (nodes h)) in *.
  assert (Ha : nodes h !! a = Some (mk_node (last_ptr ys None) (first zs None) w)) by (apply seg_app in Hs as [_ [Ha _]]; done).
  assert (Esplit : ys ++ (a, w) :: zs = (ys ++ [(a, w)]) ++ zs) by (by rewrite <- app_assoc).
  assert (Hna : a ∉ zs.*1) by (apply split_nodup in Hn as (_ & Hz & _); by apply NoDup_cons in Hz as [? _]).
  assert (Hnay : a ∉ ys.*1) by (intros Hi; apply split_nodup in Hn as (_ & _ & Hd); apply (Hd a Hi); set_solver).
  destruct after.
  - rewrite Esplit in Hs, Hn. destruct (splice_spec h (ys ++ [(a, w)]) zs x v Hs Hn Hx) as (m & E & S & O & D).
    exists x, m, (set_len (set_tail l (last_ptr ((ys ++ [(a, w)]) ++ (x, v) :: zs) None)) (zlen (ys ++ (a, w) :: zs) + 1)).
    split; [|split; [done|]; split; [|done]].
    + unfold listInsertNode, deref, new_node. cbn [mbind option_bind]. rewrite Ha. cbn [mbind option_bind n_prev n_next]. fold x.
      rewrite last_ptr_snoc in E. destruct (relink_next _ (Some a) _) as [h2|]; [|done]. cbn [mbind option_bind] in *.
      rewrite E. cbn [mbind option_bind]. rewrite last_app. cbn [last_ptr].
      assert (El : (if bool_decide (l_tail l = Some a) then set_tail l (Some x) else l) = set_tail l (last_ptr zs (Some x))).
      { rewrite Ht, last_app. cbn [last_ptr]. destruct zs as [|[z u] zs _] using rev_ind; [by rewrite bool_decide_true|].
        rewrite !last_ptr_snoc, bool_decide_false; [|intros [= ->]; apply Hna; rewrite fmap_app; set_solver].
        unfold set_tail. destruct l. cbn in *. f_equal. rewrite Ht. rewrite last_app. cbn. by rewrite last_ptr_snoc. }
      rewrite El. cbn [set_tail l_len]. rewrite Hl, wrapu_small by (pose proof (zlen_nonneg (ys ++ (a, w) :: zs)); lia). done.
    + constructor; cbn [set_len set_tail l_head l_tail l_len]; try done.
      * by apply (nodup_insert h (ys ++ [(a, w)]) zs x v).
      * rewrite Hh, Esplit, !first_app. by destruct ys as [|[]].
      * autorewrite with zlen. lia.
      * autorewrite with zlen in *. lia.
  - destruct (splice_spec h ys ((a, w) :: zs) x v Hs Hn Hx) as (m & E & S & O & D).
    exists x, m, (set_len (set_head l (first (ys ++ (x, v) :: (a, w) :: zs) None)) (zlen (ys ++ (a, w) :: zs) + 1)).
    split; [|split; [done|]; split; [|done]].
    + unfold listInsertNode, deref, new_node. cbn [mbind option_bind]. rewrite Ha. cbn [mbind option_bind n_prev n_next]. fold x.
      cbn [first] in E. rewrite first_app. cbn [first].
      assert (El : (if bool_decide (l_head l = Some a) then set_head l (Some x) else l) = set_head l (first ys (Some x))).
      { rewrite Hh, first_app. cbn [first]. destruct ys as [|[z u] ys]; [by rewrite bool_decide_true|]. cbn [first].
        rewrite bool_decide_false by (intros [= ->]; apply Hnay; set_solver). unfold set_head. destruct l. cbn in *. by rewrite Hh. }
      rewrite El. cbn [set_head l_len].
      destruct (relink_next _ (last_ptr ys None) _) as [h2|]; [|done].
      cbn [mbind option_bind] in *. rewrite E. cbn [mbind option_bind].
      rewrite Hl, wrapu_small by (pose proof (zlen_nonneg (ys ++ (a, w) :: zs)); lia). done.
    + constructor; cbn [set_len set_head l_head l_tail l_len]; try done.
      * by apply (nodup_insert h ys ((a, w) :: zs) x v).
      * rewrite Ht, !last_app. done.
      * autorewrite with zlen. lia.
      * autorewrite with zlen in *. lia.
Qed.
End Specs.

(** What an operation that removes the node [a] does. *)
Definition removed (h : heap) (l : list_t) (ys : cells) (a : loc) (v : Z) (zs : cells) (r : option (heap * list_t)) : Prop :=
  exists m l', r = Some (mk_heap m (freed h ++ if l_free l then [v] else []), l') /\ list_ok m l' (ys ++ zs) /\
    outside (nodes h) m (ys ++ (a, v) :: zs) /\ dom m = dom (nodes h) ∖ {[a]} /\ same_methods l l'.

Lemma del_head l ys a v zs : l_head l = first (ys ++ (a, v) :: zs) None ->
  match last_ptr ys None with Some _ => l | None => set_head l (first zs None) end = set_head l (first (ys ++ zs) None).
Proof.
  intros Hh. rewrite first_app in *. cbn in Hh. destruct ys as [|[y u] ys]; [done|]. cbn [first] in *.
  destruct (last_ptr ((y, u) :: ys) None) eqn:E; [unfold set_head; rewrite <- Hh; by destruct l|by apply last_none in E].
Qed.
Lemma del_tail l ys a v zs : l_tail l = last_ptr (ys ++ (a, v) :: zs) None ->
  match first zs None with Some _ => l | None => set_tail l (last_ptr ys None) end = set_tail l (last_ptr (ys ++ zs) None).
Proof.
  intros Ht. rewrite last_app in *. destruct zs as [|[z u] zs]; [done|]. cbn [last_ptr first] in *. unfold set_tail. rewrite <- Ht. by destruct l.
Qed.

Lemma del_spec h l ys a v zs :
  list_ok (nodes h) l (ys ++ (a, v) :: zs) -> removed h l ys a v zs (listDelNode h l (Some a)).
Proof.
  intros [Hs Hn Hh Ht Hl Hb].
  assert (Ha : nodes h !! a = Some (mk_node (last_ptr ys None) (first zs None) v)) by (apply seg_app in Hs as [_ [Ha _]]; done).
  destruct (unsplice_spec h ys zs a v Hs Hn) as (m & E & S & [n Hma] & O & D & Hna).
  exists (delete a m), (set_len (set_tail (set_head l (first (ys ++ zs) None)) (last_ptr (ys ++ zs) None)) (zlen (ys ++ zs))).
  pose proof (zlen_nonneg (ys ++ zs)). rewrite zlen_insert in Hl, Hb.
  split; [|split; [|split; [|split]]].
  - unfold listDelNode, deref. cbn [mbind option_bind]. rewrite Ha. cbn [mbind option_bind n_prev n_next n_value].
    destruct (relink_next _ _ _) as [h1|]; [|done]. cbn [mbind option_bind] in *. rewrite E. cbn [mbind option_bind].
    rewrite (del_head l ys a v zs Hh), (del_tail _ ys a v zs) by done.
    unfold free_value, zfree. cbn [set_tail set_head l_free l_len].
    assert (Ez : u64 (l_len l - 1) = zlen (ys ++ zs)) by (rewrite Hl, wrapu_small by lia; lia). rewrite Ez.
    destruct (l_free l); cbn [mbind option_bind nodes freed]; rewrite Hma; cbn [mbind option_bind]; [done|by rewrite app_nil_r].
  - constructor; cbn [set_len set_head set_tail l_head l_tail l_len]; try done; [by apply seg_delete| |lia].
    rewrite !fmap_app in *. cbn in Hn. apply NoDup_app in Hn as (H1 & H2 & H3). apply NoDup_cons in H3 as [_ H3]. apply NoDup_app.
    split; [done|]. split; [|done]. intros x Hx Hx'. apply (H2 x Hx). set_solver.
  - intros k Hk. rewrite lookup_delete_ne; [by apply O|]. intros ->. apply Hk. rewrite fmap_app. set_solver.
  - by rewrite dom_delete_L, D.
  - done.
Qed.

(** What an operation that only rearranges the nodes does. *)
Definition rearranged (h : heap) (l : list_t) (xs xs' : cells) (r : option (heap * list_t)) : Prop :=
  exists m l', r = Some (mk_heap m (freed h), l') /\ list_ok m l' xs' /\ outside (nodes h) m xs /\ dom m = dom (nodes h) /\ same_methods l l'.

Lemma update_next h xs c : xs <> [] -> update h (last_ptr xs None) (fun n => set_next n c) = relink_next h (last_ptr xs None) c.
Proof. intros Hx. destruct (last_ptr xs None) eqn:E; [done|]. by apply last_none in E. Qed.
Lemma update_prev h xs c : xs <> [] -> update h (first xs None) (fun n => set_prev n c) = relink_prev h (first xs None) c.
Proof. by destruct xs as [|[]]. Qed.
Lemma update_some m f a n g : m !! a = Some n -> update (mk_heap m f) (Some a) g = Some (mk_heap (<[a := g n]> m) f).
Proof. intros E. unfold update. cbn. by rewrite E. Qed.

Lemma nodup_swap (ys zs : cells) : NoDup (ys ++ zs).*1 -> NoDup (zs ++ ys).*1.
Proof. rewrite !fmap_app. intros Hn. by rewrite (Permutation_app_comm zs.*1). Qed.

Lemma rotate_tail_spec h l ys a v :
  ys <> [] -> list_ok (nodes h) l (ys ++ [(a, v)]) -> rearranged h l (ys ++ [(a, v)]) ((a, v) :: ys) (listRotateTailToHead h l).
Proof.
  intros Hy [Hs Hn Hh Ht Hl Hb]. apply seg_app in Hs as [Hs [Ha _]]. cbn [first] in *.
  destruct (split_nodup _ _ Hn) as (Ny & _ & Hd). assert (Hay : a ∉ ys.*1) by (intros Hi; apply (Hd a Hi); set_solver).
  destruct (relink_next_spec h None ys _ None Hs Ny) as (m1 & E1 & S1 & O1 & D1).
  destruct (relink_prev_spec (mk_heap m1 (freed h)) None ys None (Some a) S1 Ny) as (m2 & E2 & S2 & O2 & D2).
  assert (Ha2 : m2 !! a = Some (mk_node (last_ptr ys None) None v)) by (rewrite O2, O1; done).
  exists (<[a := mk_node None (first ys None) v]> m2), (mk_list (Some a) (last_ptr ys None) (l_dup l) (l_free l) (l_match l) (l_len l)).
  split; [|split; [|split; [|split]]].
  - unfold listRotateTailToHead. rewrite Hl, Ht, last_ptr_snoc. destruct (Z.leb_spec (zlen (ys ++ [(a, v)])) 1) as [Hle|_].
    { destruct ys as [|[y w] ys]; [done|]. autorewrite with zlen in Hle. pose proof (zlen_nonneg ys). lia. }
    unfold deref. cbn [mbind option_bind]. rewrite Ha. cbn [mbind option_bind n_prev set_tail l_tail l_head].
    rewrite update_next, E1 by done. cbn [mbind option_bind]. rewrite Hh, first_app.
    replace (first ys (first [(a, v)] None)) with (first ys None) by (by destruct ys as [|[]]).
    rewrite update_prev, E2 by done. cbn [mbind option_bind]. rewrite (update_some _ _ _ _ _ Ha2). cbn [mbind option_bind].
    rewrite (update_some _ _ _ _ _ (lookup_insert_eq m2 a _)). cbn [mbind option_bind]. by rewrite insert_insert_eq, <- Hl.
  - constructor; cbn [l_head l_tail l_len]; try done.
    + split; [by rewrite lookup_insert_eq|]. by apply seg_insert.
    + by apply (nodup_swap ys [(a, v)]).
    + cbn. destruct ys as [|[y w] ys]; done.
    + rewrite Hl. autorewrite with zlen. lia.
    + autorewrite with zlen in *. lia.
  - intros k Hk. rewrite fmap_app in Hk. rewrite lookup_insert_ne by set_solver. rewrite O2 by set_solver. cbn. rewrite O1 by set_solver. done.
  - rewrite dom_insert_lookup_L by eauto. rewrite D2. cbn. done.
  - done.
Qed.

Lemma rotate_head_spec h l zs a v :
  zs <> [] -> list_ok (nodes h) l ((a, v) :: zs) -> rearranged h l ((a, v) :: zs) (zs ++ [(a, v)]) (listRotateHeadToTail h l).
Proof.
  intros Hz [[Ha Hs] Hn Hh Ht Hl Hb]. pose proof Hn as Hn'. cbn [fmap list_fmap fst] in Hn'. apply NoDup_cons in Hn' as [Haz Nz].
  destruct (relink_prev_spec h (Some a) zs None None Hs Nz) as (m1 & E1 & S1 & O1 & D1).
  destruct (relink_next_spec (mk_heap m1 (freed h)) None zs None (Some a) S1 Nz) as (m2 & E2 & S2 & O2 & D2).
  assert (Ha2 : m2 !! a = Some (mk_node None (first zs None) v)) by (rewrite O2, O1; done).
  exists (<[a := mk_node (last_ptr zs None) None v]> m2), (mk_list (first zs None) (Some a) (l_dup l) (l_free l) (l_match l) (l_len l)).
  split; [|split; [|split; [|split]]].
  - unfold listRotateHeadToTail. rewrite Hl, Hh. destruct (Z.leb_spec (zlen ((a, v) :: zs)) 1) as [Hle|_].
    { destruct zs as [|[y w] zs]; [done|]. autorewrite with zlen in Hle. pose proof (zlen_nonneg zs). lia. }
    unfold deref. cbn [mbind option_bind first]. rewrite Ha. cbn [mbind option_bind n_next set_head l_tail l_head].
    rewrite update_prev, E1 by done. cbn [mbind option_bind]. rewrite Ht.
    replace (last_ptr ((a, v) :: zs) None) with (last_ptr zs None) by (by destruct zs as [|[]]).
    rewrite update_next, E2 by done. cbn [mbind option_bind]. rewrite (update_some _ _ _ _ _ Ha2). cbn [mbind option_bind].
    rewrite (update_some _ _ _ _ _ (lookup_insert_eq m2 a _)). cbn [mbind option_bind]. by rewrite insert_insert_eq, <- Hl.
  - constructor; cbn [l_head l_tail l_len]; try done.
    + apply seg_app. split; [by apply seg_insert|]. split; [by rewrite lookup_insert_eq|done].
    + by apply (nodup_swap [(a, v)] zs).
    + rewrite first_app. by destruct zs as [|[]].
    + by rewrite last_ptr_snoc.
    + rewrite Hl. autorewrite with zlen. lia.
    + autorewrite with zlen in *. lia.
  - intros k Hk. cbn [fmap list_fmap fst] in Hk. rewrite lookup_insert_ne by set_solver. rewrite O2 by set_solver. cbn. rewrite O1 by set_solver. done.
  - rewrite dom_insert_lookup_L by eauto. rewrite D2. cbn. done.
  - done.
Qed.

Lemma list_ok_frame m m' l xs zs : outside m m' zs -> (forall k, k ∈ xs.*1 -> k ∉ zs.*1) -> list_ok m l xs -> list_ok m' l xs.
Proof. intros Ho Hd []. constructor; try done. by eapply seg_outside. Qed.

Lemma empty_ok m l : l_head l = None -> l_tail l = None -> l_len l = 0 -> list_ok m l [].
Proof. intros. constructor; auto; [done|constructor|unfold zlen; cbn; lia]. Qed.

Lemma join_spec h l o xs ys :
  list_ok (nodes h) l xs -> list_ok (nodes h) o ys -> NoDup (xs ++ ys).*1 -> zlen (xs ++ ys) < 2 ^ 64 ->
  exists m l' o', listJoin h l o = Some (mk_heap m (freed h), l', o') /\ list_ok m l' (xs ++ ys) /\ list_ok m o' [] /\
    dom m = dom (nodes h) /\ same_methods l l' /\ same_methods o o'.
Proof.
  intros [Hs Hn Hh Ht Hl Hb] [Hs' Hn' Hh' Ht' Hl' Hb'] Hnd Hlt. destruct (split_nodup _ _ Hnd) as (_ & _ & Hd).
  destruct (relink_prev_spec h None ys None (last_ptr xs None) Hs' Hn') as (m1 & E1 & S1 & O1 & D1).
  assert (X1 : seg m1 None xs None) by (eapply seg_outside; [exact O1|exact Hd|done]).
  destruct (relink_next_spec (mk_heap m1 (freed h)) None xs None (first ys None) X1 Hn) as (m2 & E2 & S2 & O2 & D2).
  exists m2, (mk_list (first (xs ++ ys) None) (last_ptr (xs ++ ys) None) (l_dup l) (l_free l) (l_match l) (zlen (xs ++ ys))), (set_len (set_tail (set_head o None) None) 0).
  split; [|split; [|split; [|split]]].
  - unfold listJoin. rewrite Ht, Hh', E1. cbn [mbind option_bind]. rewrite E2. cbn [mbind option_bind]. repeat f_equal.
    rewrite Ht', Hl', first_app, last_app.
    assert (El : l_len match last_ptr xs None with Some _ => l | None => set_head l (first ys None) end = zlen xs) by (by destruct (last_ptr xs None)).
    assert (Eu : u64 (zlen xs + zlen ys) = zlen (xs ++ ys)).
    { rewrite zlen_app in *. apply wrapu_small. pose proof (zlen_nonneg xs). pose proof (zlen_nonneg ys). lia. }
    destruct xs as [|[x w] xs].
    + cbn [last_ptr first app] in *. unfold set_len, set_tail, set_head. destruct ys as [|[y u] ys _] using rev_ind; [|rewrite !last_ptr_snoc];
        cbn [first l_head l_tail l_dup l_free l_match l_len last_ptr]; rewrite Hl, Eu; [by rewrite Ht|done].
    + destruct (last_ptr ((x, w) :: xs) None) as [e|] eqn:El'; [|by apply last_none in El']. cbn [first].
      unfold set_len, set_tail, set_head. destruct ys as [|[y u] ys _] using rev_ind; [|rewrite !last_ptr_snoc];
        cbn [first l_head l_tail l_dup l_free l_match l_len last_ptr]; rewrite Hl, Eu, Hh; [by rewrite Ht|done].
  - constructor; cbn [l_head l_tail l_len]; try done. apply seg_app. split; [done|]. eapply seg_outside; [exact O2|intros k Hk Hk'; by apply (Hd k)|done].
  - by apply empty_ok.
  - by rewrite D2.
  - done.
Qed.

(** What an operation that frees the nodes of a list does. *)
Lemma empty_loop_spec l b xs : forall h, seg (nodes h) b xs None -> NoDup xs.*1 ->
  exists m, empty_loop (length xs) l h (first xs None) = Some (mk_heap m (freed h ++ if l_free l then xs.*2 else [])) /\
    outside (nodes h) m xs /\ dom m = dom (nodes h) ∖ list_to_set xs.*1.
Proof.
  revert b. induction xs as [|[a v] xs IH]; intros b h Hs Hn.
  - exists (nodes h). cbn. split; [|split; [done|set_solver]]. destruct (l_free l); rewrite app_nil_r; by destruct h.
  - destruct Hs as [Ha Hs]. cbn [fmap list_fmap fst] in Hn. apply NoDup_cons in Hn as [Ha' Hn].
    assert (Hs2 : seg (delete a (nodes h)) (Some a) xs None) by (by apply seg_delete).
    destruct (IH (Some a) (mk_heap (delete a (nodes h)) (if l_free l then freed h ++ [v] else freed h)) Hs2 Hn) as (m & E & O & D).
    cbn [nodes freed] in *. exists m. split; [|split].
    + cbn [empty_loop length first]. unfold deref. cbn [mbind option_bind]. rewrite Ha. cbn [mbind option_bind n_value n_next].
      unfold free_value, zfree. destruct (l_free l); cbn [mbind option_bind nodes freed]; rewrite Ha; cbn [mbind option_bind]; rewrite E; cbn [fmap list_fmap snd]; [by rewrite <- app_assoc|done].
    + intros k Hk. cbn [fmap list_fmap fst] in Hk. rewrite O by set_solver. rewrite lookup_delete_ne; [done|set_solver].
    + rewrite D, dom_delete_L. cbn. set_solver.
Qed.
Lemma list_empty_spec h l xs : list_ok (nodes h) l xs ->
  exists m l', listEmpty h l = Some (mk_heap m (freed h ++ if l_free l then xs.*2 else []), l') /\ list_ok m l' [] /\
    outside (nodes h) m xs /\ dom m = dom (nodes h) ∖ list_to_set xs.*1 /\ same_methods l l'.
Proof.
  intros [Hs Hn Hh Ht Hl Hb]. destruct (empty_loop_spec l None xs h Hs Hn) as (m & E & O & D). eexists m, _.
  unfold listEmpty. rewrite Hl, Hh. replace (Z.to_nat (zlen xs)) with (length xs) by (unfold zlen; lia). rewrite E. cbn [mbind option_bind].
  split; [done|]. split; [by apply empty_ok|]. done.
Qed.

(** Positions. *)
Lemma index_next_spec h b xs i : seg (nodes h) b xs None -> index_loop i n_next h (first xs None) = Some (fst <$> xs !! i).
Proof.
  revert b i. induction xs as [|[a v] xs IH]; intros b [|i] Hs; cbn [index_loop first]; try done.
  destruct Hs as [Ha Hs]. unfold deref. cbn [mbind option_bind]. rewrite Ha. cbn [mbind option_bind n_next]. by eapply IH.
Qed.
Lemma index_prev_spec h xs c i : seg (nodes h) None xs c -> index_loop i n_prev h (last_ptr xs None) = Some (fst <$> reverse xs !! i).
Proof.
  revert i c. induction xs as [|[a v] xs IH] using rev_ind; intros [|i] c Hs; try done; rewrite reverse_snoc, last_ptr_snoc; cbn [index_loop]; [done|].
  apply seg_app in Hs as [Hs [Ha _]]. unfold deref. cbn [mbind option_bind]. rewrite Ha. cbn [mbind option_bind n_prev]. by eapply IH.
Qed.

(** The position an index denotes: from the head, or from the tail when it
    is negative. *)
Definition position (len index : Z) : option nat :=
  if decide (0 <= index < len) then Some (Z.to_nat index)
  else if decide (- len <= index < 0) then Some (Z.to_nat (len + index)) else None.

Lemma index_spec h l xs index : list_ok (nodes h) l xs -> - 2 ^ 63 < index < 2 ^ 63 ->
  listIndex h l index = Some (i ← position (zlen xs) index; fst <$> xs !! i).
Proof.
  intros [Hs Hn Hh Ht Hl Hb] Hi. unfold listIndex. destruct (Z.eqb_spec index (- 2 ^ 63)); [lia|]. unfold position, zlen in *.
  destruct (Z.ltb_spec index 0).
  - rewrite Ht, (index_prev_spec _ _ _ _ Hs). f_equal. rewrite decide_False by lia. case_decide.
    + cbn [mbind option_bind]. rewrite reverse_lookup by lia. do 2 f_equal. lia.
    + cbn [mbind option_bind]. rewrite lookup_ge_None_2 by (rewrite length_reverse; lia). done.
  - rewrite Hh, (index_next_spec _ _ _ _ Hs). f_equal. case_decide; [done|]. rewrite decide_False by lia. rewrite lookup_ge_None_2 by lia. done.
Qed.

(** The position of the first value that satisfies a test. *)
Fixpoint find_pos (p : Z -> bool) (vs : list Z) : option nat :=
  match vs with
  | [] => None
  | v :: vs => if p v then Some O else S <$> find_pos p vs
  end.
Definition matches (l : list_t) (key : Z) (v : Z) : bool := match l_match l with Some f => f v key | None => key =? v end.

Lemma next_head h b a v xs : seg (nodes h) b ((a, v) :: xs) None ->
  listNext h (mk_iter (Some a) AL_START_HEAD) = Some (Some a, mk_iter (first xs None) AL_START_HEAD) /\ exists n, deref h (Some a) = Some n /\ n_value n = v.
Proof. intros [Ha _]. unfold listNext, deref. cbn [it_next it_dir mbind option_bind]. rewrite Ha. cbn [mbind option_bind n_next]. eauto. Qed.
Lemma next_tail h c a v xs : seg (nodes h) None (xs ++ [(a, v)]) c ->
  listNext h (mk_iter (Some a) AL_START_TAIL) = Some (Some a, mk_iter (last_ptr xs None) AL_START_TAIL) /\ exists n, deref h (Some a) = Some n /\ n_value n = v.
Proof. intros Hs. apply seg_app in Hs as [_ [Ha _]]. unfold listNext, deref. cbn [it_next it_dir mbind option_bind]. rewrite Ha. cbn [mbind option_bind n_prev]. eauto. Qed.

Lemma list_search_loop_spec h l key xs b fuel : seg (nodes h) b xs None -> (length xs < fuel)%nat ->
  search_loop fuel h l (mk_iter (first xs None) AL_START_HEAD) key = Some (i ← find_pos (matches l key) xs.*2; fst <$> xs !! i).
Proof.
  revert b fuel. induction xs as [|[a v] xs IH]; intros b [|fuel] Hs Hf; simpl in Hf; [lia|done|lia|].
  destruct (next_head _ _ _ _ _ Hs) as (E & n & En & Ev). cbn [search_loop first]. rewrite E. cbn [mbind option_bind]. rewrite En. cbn [mbind option_bind].
  rewrite Ev. cbn [find_pos fmap list_fmap snd]. change (match l_match l with Some m => m v key | None => key =? v end) with (matches l key v).
  destruct (matches l key v); [done|]. destruct Hs as [_ Hs]. rewrite (IH _ _ Hs) by lia. by destruct (find_pos _ _).
Qed.
Lemma list_search_spec h l xs key : list_ok (nodes h) l xs ->
  listSearchKey h l key = Some (i ← find_pos (matches l key) xs.*2; fst <$> xs !! i).
Proof.
  intros [Hs Hn Hh Ht Hl Hb]. unfold listSearchKey, listRewind. rewrite Hh. eapply list_search_loop_spec; [exact Hs|]. rewrite Hl. unfold zlen. lia.
Qed.

(** ** Iteration, deleting the current node
    [while ((node = listNext(iter)) != NULL) if (p(value)) listDelNode(l,node)]:
    the use of iterators the comment of [listNext] allows. *)
Fixpoint sweep (fuel : nat) (h : heap) (l : list_t) (it : listIter) (p : Z -> bool) : option (heap * list_t * list Z) :=
  match fuel with
  | O => None
  | S fuel =>
      '(node, it) ← listNext h it;
      match node with
      | None => Some (h, l, [])
      | _ =>
          n ← deref h node;
          '(h, l) ← (if p (n_value n) then listDelNode h l node else Some (h, l));
          '(h, l, vs) ← sweep fuel h l it p;
          Some (h, l, n_value n :: vs)
      end
  end.

Definition kept (p : Z -> bool) (xs : cells) : cells := List.filter (fun c => negb (p c.2)) xs.
Definition dropped (p : Z -> bool) (xs : cells) : cells := List.filter (fun c => p c.2) xs.

Definition swept (h : heap) (l : list_t) (p : Z -> bool) (xs xs' visited : cells) (r : option (heap * list_t * list Z)) : Prop :=
  exists m l', r = Some (mk_heap m (freed h ++ if l_free l then (dropped p visited).*2 else []), l', visited.*2) /\
    list_ok m l' xs' /\ outside (nodes h) m xs /\ dom m = dom (nodes h) ∖ list_to_set (dropped p visited).*1 /\ same_methods l l'.

Lemma free_freed (b : bool) (v : Z) (f vs : list Z) :
  (f ++ (if b then [v] else [])) ++ (if b then vs else []) = f ++ (if b then v :: vs else []).
Proof. destruct b; by rewrite <- app_assoc. Qed.


(** One turn of the loop, in either direction. *)
Lemma sweep_turn fuel h l (p : Z -> bool) ys (a : loc) (v : Z) zs it it' vis xs' :
  list_ok (nodes h) l (ys ++ (a, v) :: zs) -> it_next it = Some a -> listNext h it = Some (Some a, it') ->
  (forall h' l', list_ok (nodes h') l' (ys ++ (if p v then [] else [(a, v)]) ++ zs) ->
     swept h' l' p (ys ++ (if p v then [] else [(a, v)]) ++ zs) xs' vis (sweep fuel h' l' it' p)) ->
  swept h l p (ys ++ (a, v) :: zs) xs' ((a, v) :: vis) (sweep (S fuel) h l it p).
Proof.
  intros Hok Hit E Hrest.
  assert (Ha : deref h (Some a) = Some (mk_node (last_ptr ys None) (first zs None) v)) by (destruct Hok as [Hs _ _ _ _ _]; apply seg_app in Hs as [_ [Ha _]]; done).
  unfold swept. cbn [sweep]. rewrite E. cbn [mbind option_bind]. rewrite Ha. cbn [mbind option_bind n_value]. cbn [dropped List.filter snd]. fold (dropped p vis).
  destruct (p v) eqn:Ep.
  - destruct (del_spec h l ys a v zs Hok) as (m & l1 & -> & Hok1 & O1 & D1 & M1). cbn [mbind option_bind].
    destruct (Hrest (mk_heap m (freed h ++ if l_free l then [v] else [])) l1 Hok1) as (m2 & l2 & -> & Hok2 & O2 & D2 & M2). cbn [mbind option_bind nodes freed] in *.
    exists m2, l2. split; [|split; [done|split; [|split]]].
    + destruct M1 as (_ & -> & _). cbn [fmap list_fmap snd]. by rewrite free_freed.
    + intros k Hk. rewrite fmap_app in Hk. rewrite O2 by (rewrite fmap_app; set_solver). apply O1. rewrite fmap_app. set_solver.
    + rewrite D2, D1. cbn. set_solver.
    + destruct M1 as (? & ? & ?), M2 as (? & ? & ?). repeat split; congruence.
  - cbn [mbind option_bind]. destruct (Hrest h l Hok) as (m2 & l2 & -> & Hok2 & O2 & D2 & M2). cbn [mbind option_bind]. exists m2, l2. done.
Qed.

Lemma sweep_head_spec (p : Z -> bool) (zs : cells) : forall fuel h l ys, list_ok (nodes h) l (ys ++ zs) -> (length zs < fuel)%nat ->
  swept h l p (ys ++ zs) (ys ++ kept p zs) zs (sweep fuel h l (mk_iter (first zs None) AL_START_HEAD) p).
Proof.
  induction zs as [|[a v] zs IH]; intros [|fuel] h l ys Hok Hf; simpl in Hf; try lia.
  - exists (nodes h), l. split; [cbn; by destruct h, (l_free l); rewrite app_nil_r|]. split; [done|]. split; [done|]. split; [set_solver|done].
  - eapply sweep_turn; [exact Hok|done| |].
    + destruct Hok as [Hs _ _ _ _ _]. apply seg_app in Hs as [_ Hs]. exact (proj1 (next_head _ _ _ _ _ Hs)).
    + intros h' l' Hok'. cbn [kept List.filter snd]. fold (kept p zs).
      assert (E : ys ++ (if negb (p v) then (a, v) :: kept p zs else kept p zs) = (ys ++ (if p v then [] else [(a, v)])) ++ kept p zs) by (rewrite <- app_assoc; by destruct (p v)).
      rewrite E, app_assoc. rewrite app_assoc in Hok'. apply IH; [done|lia].
Qed.
Lemma sweep_tail_spec (p : Z -> bool) (zs : cells) : forall fuel h l ys, list_ok (nodes h) l (zs ++ ys) -> (length zs < fuel)%nat ->
  swept h l p (zs ++ ys) (kept p zs ++ ys) (reverse zs) (sweep fuel h l (mk_iter (last_ptr zs None) AL_START_TAIL) p).
Proof.
  induction zs as [|[a v] zs IH] using rev_ind; intros [|fuel] h l ys Hok Hf; rewrite ?length_app in Hf; simpl in Hf; try lia.
  - exists (nodes h), l. split; [cbn; by destruct h, (l_free l); rewrite app_nil_r|]. split; [done|]. split; [done|]. split; [set_solver|done].
  - rewrite reverse_snoc, last_ptr_snoc. rewrite <- app_assoc in *. eapply sweep_turn; [exact Hok|done| |].
    + destruct Hok as [Hs _ _ _ _ _]. rewrite app_assoc in Hs. apply seg_app in Hs as [Hs _]. exact (proj1 (next_tail _ _ _ _ _ Hs)).
    + intros h' l' Hok'. unfold kept. rewrite List.filter_app. cbn [List.filter snd]. fold (kept p zs).
      assert (E : (kept p zs ++ (if negb (p v) then [(a, v)] else [])) ++ ys = kept p zs ++ (if p v then [] else [(a, v)]) ++ ys) by (rewrite <- app_assoc; by destruct (p v)).
      rewrite E. apply IH; [done|lia].
Qed.

(** ** Duplication *)
Definition copy_value (l : list_t) (v : Z) : option Z := match l_dup l with Some d => d v | None => Some v end.
(** The copies made before the first failure of the [dup] method. *)
Fixpoint copied (f : Z -> option Z) (vs : list Z) : list Z :=
  match vs with
  | [] => []
  | v :: vs => match f v with Some u => u :: copied f vs | None => [] end
  end.

Section DupSpec.
  Context `{Allocator}.

Definition dup_result (h : heap) (copy : list_t) (cs : cells) (vs : list Z) (r : option (heap * option list_t)) : Prop :=
  match mapM (copy_value copy) vs with
  | Some us => exists m copy' ds, r = Some (mk_heap m (freed h), Some copy') /\ list_ok m copy' (cs ++ ds) /\ ds.*2 = us /\
      outside (nodes h) m (cs ++ ds) /\ (forall k, k ∈ ds.*1 -> nodes h !! k = None) /\ dom m = dom (nodes h) ∪ list_to_set ds.*1 /\ same_methods copy copy'
  | None => exists m, r = Some (mk_heap m (freed h ++ if l_free copy then cs.*2 ++ copied (copy_value copy) vs else []), None) /\
      outside (nodes h) m cs /\ dom m = dom (nodes h) ∖ list_to_set cs.*1
  end.

Lemma dup_loop_spec xs : forall b fuel h copy cs,
  seg (nodes h) b xs None -> list_ok (nodes h) copy cs -> (forall k, k ∈ xs.*1 -> k ∉ cs.*1) -> zlen cs + zlen xs < 2 ^ 64 -> (length xs < fuel)%nat ->
  dup_result h copy cs xs.*2 (dup_loop fuel h copy (mk_iter (first xs None) AL_START_HEAD)).
Proof.
  induction xs as [|[a v] xs IH]; intros b [|fuel] h copy cs Hs Hc Hd Hlt Hf; simpl in Hf; try lia.
  - exists (nodes h), copy, []. rewrite app_nil_r. cbn. split; [by destruct h|]. split; [done|]. split; [done|]. split; [done|]. split; [set_solver|]. split; [set_solver|done].
  - destruct (next_head _ _ _ _ _ Hs) as (E & n & En & Ev). cbn [dup_loop first]. rewrite E. cbn [mbind option_bind]. rewrite En. cbn [mbind option_bind]. rewrite Ev.
    change (match l_dup copy with Some d => d v | None => Some v end) with (copy_value copy v). unfold dup_result. cbn [fmap list_fmap snd mapM copied].
    autorewrite with zlen in Hlt. pose proof (zlen_nonneg xs). destruct (copy_value copy v) as [u|] eqn:Ec; cbn [mbind option_bind].
    + destruct (add_tail_spec h copy cs u Hc ltac:(lia)) as (c & m & copy1 & -> & Hf1 & Hc1 & O1 & D1 & M1). cbn [mbind option_bind].
      assert (Ef : copy_value copy1 = copy_value copy) by (unfold copy_value; destruct M1 as [-> _]; done).
      destruct Hs as [Ha Hs].
      assert (Hk : forall k, k ∈ xs.*1 -> k ∉ (cs ++ [(c, u)]).*1).
      { intros k Hk. rewrite fmap_app. cbn. destruct (seg_dom _ _ _ _ _ Hs Hk) as [x Hx]. specialize (Hd k). cbn in Hd. set_solver. }
      assert (Hs1 : seg m (Some a) xs None) by (eapply seg_outside; [exact O1|exact Hk|done]).
      specialize (IH (Some a) fuel (mk_heap m (freed h)) copy1 (cs ++ [(c, u)]) Hs1 Hc1 Hk). unfold dup_result in IH. rewrite Ef in IH. cbn [nodes freed] in IH.
      autorewrite with zlen in IH. specialize (IH ltac:(lia) ltac:(lia)).
      destruct (mapM (copy_value copy) xs.*2) as [us|]; cbn [mbind option_bind].
      * destruct IH as (m2 & copy2 & ds & -> & Hc2 & Eu & O2 & F2 & D2 & M2). exists m2, copy2, ((c, u) :: ds). rewrite <- app_assoc in Hc2, O2. split; [done|].
        split; [done|]. split; [cbn; by rewrite Eu|]. split; [|split; [|split]].
        -- intros k Hk'. rewrite O2 by done. apply O1. rewrite fmap_app in *. set_solver.
        -- intros k Hk'. cbn in Hk'. apply elem_of_cons in Hk' as [->|Hk']; [done|]. apply not_elem_of_dom. intros Hin. pose proof (F2 k Hk') as Hm. apply not_elem_of_dom in Hm. apply Hm. rewrite D1. set_solver.
        -- rewrite D2, D1. cbn. set_solver.
        -- destruct M1 as (? & ? & ?), M2 as (? & ? & ?). repeat split; congruence.
      * destruct IH as (m2 & -> & O2 & D2). destruct M1 as (_ & -> & _). exists m2. rewrite fmap_app, <- app_assoc. cbn [fmap list_fmap snd]. split; [done|]. split.
        -- intros k Hk'. destruct (decide (k = c)) as [->|Hne].
           ++ rewrite Hf1. apply not_elem_of_dom. rewrite D2, fmap_app. cbn. set_solver.
           ++ assert (Hk2 : k ∉ (cs ++ [(c, u)]).*1) by (rewrite fmap_app; cbn; set_solver). rewrite O2 by done. by apply O1.
        -- rewrite D2, D1, fmap_app. cbn. assert (c ∉ dom (nodes h)) by (by apply not_elem_of_dom). set_solver.
    + unfold listRelease. destruct (list_empty_spec h copy cs Hc) as (m & l' & -> & _ & O1 & D1 & _). cbn [mbind option_bind]. exists m. by rewrite app_nil_r.
Qed.

Lemma list_dup_spec h l xs : list_ok (nodes h) l xs ->
  match mapM (copy_value l) xs.*2 with
  | Some us => exists m copy ds, listDup h l = Some (mk_heap m (freed h), Some copy) /\ list_ok m copy ds /\ ds.*2 = us /\
      outside (nodes h) m ds /\ (forall k, k ∈ ds.*1 -> nodes h !! k = None) /\ dom m = dom (nodes h) ∪ list_to_set ds.*1 /\ same_methods l copy
  | None => exists m, listDup h l = Some (mk_heap m (freed h ++ if l_free l then copied (copy_value l) xs.*2 else []), None) /\ m = nodes h
  end.
Proof.
  intros Hok. set (copy := mk_list None None (l_dup l) (l_free l) (l_match l) 0). pose proof Hok as [Hs Hn Hh Ht Hl Hb].
  assert (Hc : list_ok (nodes h) copy []) by (by apply empty_ok).
  pose proof (dup_loop_spec xs None (S (Z.to_nat (l_len l))) h copy [] Hs Hc) as Hd. unfold dup_result in Hd. change (copy_value copy) with (copy_value l) in Hd.
  assert (E : listDup h l = dup_loop (S (Z.to_nat (l_len l))) h copy (mk_iter (first xs None) AL_START_HEAD)) by (unfold listDup, listRewind; by rewrite Hh).
  rewrite E. autorewrite with zlen in Hd. specialize (Hd ltac:(set_solver) ltac:(lia) ltac:(rewrite Hl; unfold zlen; lia)). destruct (mapM _ _) as [us|].
  - destruct Hd as (m & c & ds & -> & ?). by exists m, c, ds.
  - destruct Hd as (m & -> & O & D). exists m. split; [done|]. apply map_eq. intros k. apply O. set_solver.
Qed.
End DupSpec.

(** ** Clients: sequences of operations on two lists *)
Inductive list_op :=
| AddHead (v : Z)
| AddTail (v : Z)
| Insert (index : Z) (v : Z) (after : bool)
| Del (index : Z)
| SearchDel (key : Z)
| RotateTail
| RotateHead
| Join
| Dup
| Empty
| Sweep (d : direction) (p : Z -> bool).

(** The operations on the list [l]; [Join] moves the nodes of [o] to it and
    [Dup] makes [o] a copy of it.  The result has the values the iteration
    visited. *)
Definition list_run `{Allocator} (s : heap * list_t * list_t) (c : list_op) : option (heap * list_t * list_t * list Z) :=
  let '(h, l, o) := s in
  let on_node (p : option ptr) (f : ptr -> option (heap * list_t)) :=
    node ← p; match node with None => Some (h, l, o, []) | _ => '(h, l) ← f node; Some (h, l, o, []) end in
  match c with
  | AddHead v => '(h, l) ← listAddNodeHead h l v; Some (h, l, o, [])
  | AddTail v => '(h, l) ← listAddNodeTail h l v; Some (h, l, o, [])
  | Insert i v after => on_node (listIndex h l i) (fun n => listInsertNode h l n v after)
  | Del i => on_node (listIndex h l i) (fun n => listDelNode h l n)
  | SearchDel key => on_node (listSearchKey h l key) (fun n => listDelNode h l n)
  | RotateTail => '(h, l) ← listRotateTailToHead h l; Some (h, l, o, [])
  | RotateHead => '(h, l) ← listRotateHeadToTail h l; Some (h, l, o, [])
  | Join => '(h, l, o) ← listJoin h l o; Some (h, l, o, [])
  | Dup => '(h, o) ← listEmpty h o; '(h, c) ← listDup h l; Some (h, l, default o c, [])
  | Empty => '(h, l) ← listEmpty h l; Some (h, l, o, [])
  | Sweep d p => '(h, l, vs) ← sweep (S (Z.to_nat (l_len l))) h l (listGetIterator l d) p; Some (h, l, o, vs)
  end.

(** The same on sequences of values, with the values freed. *)
Record methods := mk_methods { m_dup : option (Z -> option Z); m_free : bool; m_match : option (Z -> Z -> bool) }.
Definition has_methods (M : methods) (l : list_t) : Prop := l_dup l = m_dup M /\ l_free l = m_free M /\ l_match l = m_match M.

Definition rotate_right (vs : list Z) : list Z := match last vs with Some v => v :: removelast vs | None => [] end.
Definition rotate_left (vs : list Z) : list Z := match vs with v :: vs => vs ++ [v] | [] => [] end.

Definition list_spec (M : methods) (s : list Z * list Z * list Z) (c : list_op) : list Z * list Z * list Z * list Z :=
  let '(vs, us, fr) := s in
  let free ws := fr ++ (if m_free M then ws else []) in
  let del_at (i : option nat) :=
    match i with Some i => (take i vs ++ drop (S i) vs, us, free (take 1 (drop i vs)), []) | None => (vs, us, fr, []) end in
  match c with
  | AddHead v => (v :: vs, us, fr, [])
  | AddTail v => (vs ++ [v], us, fr, [])
  | Insert i v after =>
      match position (zlen vs) i with
      | Some i => let i := if after then S i else i in (take i vs ++ v :: drop i vs, us, fr, [])
      | None => (vs, us, fr, [])
      end
  | Del i => del_at (position (zlen vs) i)
  | SearchDel key => del_at (find_pos (fun v => match m_match M with Some f => f v key | None => key =? v end) vs)
  | RotateTail => (rotate_right vs, us, fr, [])
  | RotateHead => (rotate_left vs, us, fr, [])
  | Join => (vs ++ us, [], fr, [])
  | Dup =>
      let f v := match m_dup M with Some d => d v | None => Some v end in
      match mapM f vs with
      | Some ws => (vs, ws, free us, [])
      | None => (vs, [], free (us ++ copied f vs), [])
      end
  | Empty => ([], us, free vs, [])
  | Sweep d p =>
      let seen := match d with AL_START_HEAD => vs | AL_START_TAIL => reverse vs end in
      (List.filter (fun v => negb (p v)) vs, us, free (List.filter p seen), seen)
  end.

(** The two lists hold the given nodes, which are disjoint, and the heap
    holds no other node. *)
Record owns (M : methods) (h : heap) (l o : list_t) (xs ys : cells) : Prop := {
  own_l : list_ok (nodes h) l xs;
  own_o : list_ok (nodes h) o ys;
  own_nodup : NoDup (xs ++ ys).*1;
  own_dom : dom (nodes h) = list_to_set (xs ++ ys).*1;
  own_ml : has_methods M l;
  own_mo : has_methods M o
}.
Definition represents (M : methods) (s : heap * list_t * list_t) (vs us fr : list Z) : Prop :=
  let '(h, l, o) := s in freed h = fr /\ exists xs ys, owns M h l o xs ys /\ xs.*2 = vs /\ ys.*2 = us.

(** The command's index is a [long] whose opposite is one too. *)
Definition index_ok (c : list_op) : Prop :=
  match c with Insert i _ _ | Del i => - 2 ^ 63 < i < 2 ^ 63 | _ => True end.
Definition room (vs us : list Z) : Prop := zlen vs + zlen us + 1 < 2 ^ 64.

Lemma same_has M l l' : same_methods l l' -> has_methods M l -> has_methods M l'.
Proof. intros (? & ? & ?) (? & ? & ?). repeat split; congruence. Qed.

Lemma owns_disjoint M h l o xs ys k : owns M h l o xs ys -> k ∈ xs.*1 -> k ∉ ys.*1.
Proof. intros [_ _ Hn _ _ _]. apply split_nodup in Hn as (_ & _ & Hd). apply Hd. Qed.

Section Steps.
  Context `{Allocator} (M : methods).

Lemma owns_added h l o ys zs us v r : owns M h l o (ys ++ zs) us -> added h l ys v zs r ->
  exists a m l', r = Some (mk_heap m (freed h), l') /\ owns M (mk_heap m (freed h)) l' o (ys ++ (a, v) :: zs) us.
Proof.
  intros Ho (a & m & l' & E & Ha & Hok & O & D & Hm). exists a, m, l'. split; [done|].
  assert (Hau : a ∉ us.*1) by (intros Hi; destruct (seg_dom _ _ _ _ _ (ok_seg _ _ _ (own_o _ _ _ _ _ _ Ho)) Hi); congruence).
  assert (Hd : forall k, k ∈ (ys ++ (a, v) :: zs).*1 -> k ∉ us.*1).
  { intros k Hk. pose proof (owns_disjoint _ _ _ _ _ _ k Ho) as Hk'. rewrite !fmap_app in *. cbn in Hk. set_solver. }
  destruct Ho as [_ Ho Hn Hdom Hl Hmo]. constructor; try done.
  - eapply list_ok_frame; [exact O| |done]. intros k Hk Hk'. by apply (Hd k).
  - rewrite fmap_app. apply NoDup_app. split; [apply Hok|]. split; [done|apply Ho].
  - cbn. rewrite D, Hdom, !fmap_app. cbn. set_solver.
  - by eapply same_has.
Qed.

Lemma owns_removed h l o ys a v zs us r : owns M h l o (ys ++ (a, v) :: zs) us -> removed h l ys a v zs r ->
  exists m l', let h' := mk_heap m (freed h ++ if m_free M then [v] else []) in r = Some (h', l') /\ owns M h' l' o (ys ++ zs) us.
Proof.
  intros Ho (m & l' & E & Hok & O & D & Hm). exists m, l'. assert (Ef : l_free l = m_free M) by apply Ho. rewrite <- Ef. split; [done|].
  pose proof (fun k => owns_disjoint _ _ _ _ _ _ k Ho) as Hd. destruct Ho as [Hl0 Ho Hn Hdom Hl Hmo]. constructor; try done.
  - eapply list_ok_frame; [exact O| |done]. intros k Hk Hk'. by apply (Hd k).
  - rewrite fmap_app. apply NoDup_app. split; [apply Hok|]. split; [|apply Ho]. intros k Hk. apply Hd. rewrite !fmap_app in *. cbn. set_solver.
  - cbn. rewrite D, Hdom. assert (a ∉ ((ys ++ zs) ++ us).*1).
    { intros Hi. rewrite <- app_assoc in Hn. cbn in Hn. rewrite fmap_app in Hn. apply NoDup_app in Hn as (_ & H1 & H2). cbn in H2. apply NoDup_cons in H2 as [H2 _].
      rewrite !fmap_app in *. cbn in *. specialize (H1 a). set_solver. }
    rewrite !fmap_app in *. cbn. set_solver.
  - by eapply same_has.
Qed.

Lemma owns_rearranged h l o xs xs' us r : owns M h l o xs us -> xs ≡ₚ xs' -> rearranged h l xs xs' r ->
  exists m l', r = Some (mk_heap m (freed h), l') /\ owns M (mk_heap m (freed h)) l' o xs' us.
Proof.
  intros Ho Hp (m & l' & E & Hok & O & D & Hm). exists m, l'. split; [done|].
  pose proof (fun k => owns_disjoint _ _ _ _ _ _ k Ho) as Hd. destruct Ho as [Hl0 Ho Hn Hdom Hl Hmo]. constructor; try done.
  - eapply list_ok_frame; [exact O| |done]. intros k Hk Hk'. by apply (Hd k).
  - by rewrite <- Hp.
  - cbn. rewrite D, Hdom, !fmap_app, !list_to_set_app_L. f_equal. apply list_to_set_perm_L. by rewrite Hp.
  - by eapply same_has.
Qed.

(** What it means for the code of a command to implement its specification. *)
Definition implements (h : heap) (l o : list_t) (vs us fr : list Z) (c : list_op) : Prop :=
  exists s' out, list_run (h, l, o) c = Some (s', out) /\
    let '(vs', us', fr', out') := list_spec M (vs, us, fr) c in out = out' /\ represents M s' vs' us' fr'.

Lemma cells_at (xs : cells) i a v : xs !! i = Some (a, v) -> xs = take i xs ++ (a, v) :: drop (S i) xs.
Proof. intros E. by rewrite (take_drop_middle _ _ _ E). Qed.
Lemma position_lookup (xs : cells) i n : position (zlen xs.*2) i = Some n -> exists a v, xs !! n = Some (a, v) /\ (n < length xs)%nat.
Proof.
  unfold position, zlen. rewrite length_fmap. intros E. assert (Hn : (n < length xs)%nat) by (repeat case_decide; simplify_eq; lia).
  destruct (lookup_lt_is_Some_2 _ _ Hn) as [[a v] Ex]. eauto.
Qed.
Lemma find_pos_lookup p vs n : find_pos p vs = Some n -> is_Some (vs !! n).
Proof.
  revert n. induction vs as [|v vs IH]; intros n; cbn; [done|]. destruct (p v); [intros [= <-]; eauto|].
  destruct (find_pos p vs) as [k|]; [|done]. intros [= <-]. by apply IH.
Qed.

Lemma del_implements h l o xs ys n a v :
  owns M h l o xs ys -> xs !! n = Some (a, v) ->
  exists h' l', listDelNode h l (Some a) = Some (h', l') /\
    represents M (h', l', o) (take n xs.*2 ++ drop (S n) xs.*2) ys.*2 (freed h ++ if m_free M then take 1 (drop n xs.*2) else []).
Proof.
  intros Ho En. pose proof (cells_at _ _ _ _ En) as Ex. rewrite Ex in Ho.
  destruct (owns_removed h l o _ a v _ ys _ Ho (del_spec h l _ a v _ (own_l _ _ _ _ _ _ Ho))) as (m & l' & E & Ho'). eexists _, l'. split; [exact E|].
  split; [cbn|eexists _, ys; split; [exact Ho'|]; split; [|done]; by rewrite fmap_app, fmap_take, fmap_drop].
  assert (Ed : drop n xs.*2 = v :: drop (S n) xs.*2) by (apply drop_S; by rewrite list_lookup_fmap, En). by rewrite Ed.
Qed.

Lemma insert_implements h l o xs ys n a w v (after : bool) :
  owns M h l o xs ys -> xs !! n = Some (a, w) -> zlen xs + 1 < 2 ^ 64 ->
  exists h' l', listInsertNode h l (Some a) v after = Some (h', l') /\
    let k := if after then S n else n in represents M (h', l', o) (take k xs.*2 ++ v :: drop k xs.*2) ys.*2 (freed h).
Proof.
  intros Ho En Hb. pose proof (cells_at _ _ _ _ En) as Ex. assert (Hn : (n < length xs)%nat) by (by eapply lookup_lt_Some).
  pose proof Ho as Ho2. rewrite Ex in Ho2. pose proof (insert_spec h l (take n xs) a w (drop (S n) xs) v after (own_l _ _ _ _ _ _ Ho2)) as Hi.
  rewrite <- Ex in Hi. specialize (Hi Hb). destruct after.
  - assert (Et : take n xs ++ [(a, w)] = take (S n) xs) by (symmetry; by apply take_S_r). rewrite Et in Hi. rewrite <- (take_drop (S n) xs) in Ho.
    destruct (owns_added _ _ _ _ _ _ _ _ Ho Hi) as (c & m & l' & E & Ho'). eexists _, l'. split; [exact E|]. cbn. split; [done|].
    eexists _, ys. split; [exact Ho'|]. split; [|done]. by rewrite fmap_app, fmap_cons, fmap_take, fmap_drop.
  - rewrite <- (drop_S _ _ _ En) in Hi. rewrite <- (take_drop n xs) in Ho.
    destruct (owns_added _ _ _ _ _ _ _ _ Ho Hi) as (c & m & l' & E & Ho'). eexists _, l'. split; [exact E|]. cbn. split; [done|].
    eexists _, ys. split; [exact Ho'|]. split; [|done]. by rewrite fmap_app, fmap_cons, fmap_take, fmap_drop.
Qed.

Lemma rotate_tail_implements h l o xs ys : owns M h l o xs ys -> implements h l o xs.*2 ys.*2 (freed h) RotateTail.
Proof.
  intros Ho. unfold implements, list_run. cbn [list_spec]. pose proof (own_l _ _ _ _ _ _ Ho) as Hl.
  destruct (decide (length xs <= 1)%nat) as [Hle|Hgt].
  - unfold listRotateTailToHead. rewrite (ok_len _ _ _ Hl). replace (zlen xs <=? 1) with true by (unfold zlen; lia). eexists _, []. split; [done|]. split; [done|]. split; [done|].
    exists xs, ys. split; [done|]. split; [|done]. by destruct xs as [|[a v] [|[]]]; [| |cbn in Hle; lia].
  - destruct xs as [|[a v] zs _] using rev_ind; [cbn in Hgt; lia|]. rewrite length_app in Hgt. cbn in Hgt.
    destruct (owns_rearranged h l o _ ((a, v) :: zs) ys (listRotateTailToHead h l) Ho) as (m & l' & -> & Ho'); [by rewrite (Permutation_app_comm zs)|apply rotate_tail_spec; [by intros ->; cbn in Hgt; lia|done]|].
    eexists _, []. split; [done|]. split; [done|]. split; [done|]. exists ((a, v) :: zs), ys. split; [done|]. split; [|done].
    unfold rotate_right. rewrite fmap_app. cbn. by rewrite last_snoc, removelast_last.
Qed.
Lemma rotate_head_implements h l o xs ys : owns M h l o xs ys -> implements h l o xs.*2 ys.*2 (freed h) RotateHead.
Proof.
  intros Ho. unfold implements, list_run. cbn [list_spec]. pose proof (own_l _ _ _ _ _ _ Ho) as Hl.
  destruct (decide (length xs <= 1)%nat) as [Hle|Hgt].
  - unfold listRotateHeadToTail. rewrite (ok_len _ _ _ Hl). replace (zlen xs <=? 1) with true by (unfold zlen; lia). eexists _, []. split; [done|]. split; [done|]. split; [done|].
    exists xs, ys. split; [done|]. split; [|done]. by destruct xs as [|[a v] [|[]]]; [| |cbn in Hle; lia].
  - destruct xs as [|[a v] zs]; [cbn in Hgt; lia|]. cbn in Hgt.
    destruct (owns_rearranged h l o _ (zs ++ [(a, v)]) ys (listRotateHeadToTail h l) Ho) as (m & l' & -> & Ho'); [by rewrite (Permutation_app_comm zs)|apply rotate_head_spec; [by intros ->; cbn in Hgt; lia|done]|].
    eexists _, []. split; [done|]. split; [done|]. split; [done|]. exists (zs ++ [(a, v)]), ys. split; [done|]. split; [|done].
    unfold rotate_left. by rewrite fmap_app.
Qed.

Lemma join_implements h l o xs ys : owns M h l o xs ys -> zlen xs + zlen ys < 2 ^ 64 -> implements h l o xs.*2 ys.*2 (freed h) Join.
Proof.
  intros [Hl Ho Hn Hd Ml Mo] Hb. rewrite <- zlen_app in Hb. destruct (join_spec h l o xs ys Hl Ho Hn Hb) as (m & l' & o' & E & Hl' & Ho' & D & Sl & So).
  unfold implements, list_run. rewrite E. cbn [mbind option_bind list_spec]. eexists _, []. split; [done|]. split; [done|]. split; [done|].
  exists (xs ++ ys), []. split; [|by rewrite fmap_app]. constructor; try done; rewrite ?app_nil_r; [done|by rewrite <- Hd|by eapply same_has|by eapply same_has].
Qed.

Lemma owns_emptied h l o xs ys m l' :
  owns M h l o xs ys -> list_ok m l' [] -> outside (nodes h) m xs -> dom m = dom (nodes h) ∖ list_to_set xs.*1 -> same_methods l l' ->
  forall f, owns M (mk_heap m f) l' o [] ys.
Proof.
  intros Ho Hok O D S f. pose proof (fun k => owns_disjoint _ _ _ _ _ _ k Ho) as Hd. destruct Ho as [Hl Ho Hn Hdom Ml Mo]. constructor; try done.
  - eapply list_ok_frame; [exact O| |done]. intros k Hk Hk'. by apply (Hd k).
  - apply Ho.
  - cbn. rewrite D, Hdom, fmap_app. set_solver.
  - by eapply same_has.
Qed.
Lemma owns_swap h l o xs ys : owns M h l o xs ys -> owns M h o l ys xs.
Proof. intros [Hl Ho Hn Hd Ml Mo]. constructor; try done; [by apply nodup_swap|]. rewrite Hd, !fmap_app. set_solver. Qed.

Lemma empty_implements h l o xs ys : owns M h l o xs ys -> implements h l o xs.*2 ys.*2 (freed h) Empty.
Proof.
  intros Ho. destruct (list_empty_spec h l xs (own_l _ _ _ _ _ _ Ho)) as (m & l' & E & Hok & O & D & S). unfold implements, list_run. rewrite E.
  cbn [mbind option_bind list_spec]. eexists _, []. split; [done|]. split; [done|]. assert (Ef : l_free l = m_free M) by apply Ho. rewrite Ef.
  split; [done|]. exists [], ys. split; [by eapply owns_emptied|done].
Qed.

Lemma dup_implements h l o xs ys : owns M h l o xs ys -> implements h l o xs.*2 ys.*2 (freed h) Dup.
Proof.
  intros Ho. destruct (list_empty_spec h o ys (own_o _ _ _ _ _ _ Ho)) as (m & o1 & E & Hok & O & D & S). unfold implements, list_run. rewrite E. cbn [mbind option_bind].
  assert (Ef : l_free o = m_free M) by apply Ho. rewrite Ef. set (h1 := mk_heap m _).
  assert (Ho1 : owns M h1 l o1 xs []) by (apply owns_swap; eapply owns_emptied; [by apply owns_swap|done..]).
  pose proof (list_dup_spec h1 l xs (own_l _ _ _ _ _ _ Ho1)) as Hd. assert (Ec : copy_value l = fun v => match m_dup M with Some d => d v | None => Some v end).
  { unfold copy_value. destruct (own_ml _ _ _ _ _ _ Ho1) as [-> _]. done. }
  rewrite Ec in Hd. cbn [list_spec]. destruct (mapM _ _) as [us|].
  - destruct Hd as (m2 & c & ds & -> & Hc & Eu & O2 & F2 & D2 & S2). cbn [mbind option_bind default]. eexists _, []. split; [done|]. split; [done|]. split; [done|].
    exists xs, ds. split; [|done]. destruct Ho1 as [Hl1 _ Hn1 Hd1 Ml1 _]. rewrite app_nil_r in *.
    assert (Hdj : forall k, k ∈ xs.*1 -> k ∉ ds.*1) by (intros k Hk Hk'; specialize (F2 k Hk'); destruct (seg_dom _ _ _ _ _ (ok_seg _ _ _ Hl1) Hk); congruence).
    constructor; cbn [nodes]; try done; [by eapply list_ok_frame| | |by eapply same_has].
    + rewrite fmap_app. apply NoDup_app. split; [done|]. split; [done|apply Hc].
    + rewrite D2, Hd1, fmap_app. set_solver.
  - destruct Hd as (m2 & -> & ->). cbn [mbind option_bind default]. eexists _, []. split; [done|]. split; [done|]. assert (Ef1 : l_free l = m_free M) by apply Ho. rewrite Ef1.
    split; [cbn; destruct (m_free M); [by rewrite <- app_assoc|by rewrite !app_nil_r]|]. exists xs, []. split; [|done]. destruct Ho1. by constructor.
Qed.

Lemma kept_values p xs : (kept p xs).*2 = List.filter (fun v => negb (p v)) xs.*2.
Proof. induction xs as [|[a v] xs IH]; [done|]. cbn. destruct (p v); cbn; [done|by f_equal]. Qed.
Lemma dropped_values p xs : (dropped p xs).*2 = List.filter p xs.*2.
Proof. induction xs as [|[a v] xs IH]; [done|]. cbn. destruct (p v); cbn; [by f_equal|done]. Qed.
Lemma kept_dropped p xs : xs ≡ₚ kept p xs ++ dropped p xs.
Proof. induction xs as [|[a v] xs IH]; [done|]. cbn. destruct (p v); cbn; [rewrite <- Permutation_middle|]; by constructor. Qed.
Lemma dropped_perm p xs ys : xs ≡ₚ ys -> dropped p xs ≡ₚ dropped p ys.
Proof. induction 1; cbn; repeat case_match; try done; [by constructor|by constructor|by etrans]. Qed.

Lemma sweep_implements h l o xs ys d p : owns M h l o xs ys -> implements h l o xs.*2 ys.*2 (freed h) (Sweep d p).
Proof.
  intros Ho. pose proof (own_l _ _ _ _ _ _ Ho) as Hl. set (vis := match d with AL_START_HEAD => xs | AL_START_TAIL => reverse xs end).
  assert (Hv : vis ≡ₚ xs) by (destruct d; [done|apply reverse_Permutation]).
  assert (Hs : swept h l p xs (kept p xs) vis (sweep (S (Z.to_nat (l_len l))) h l (listGetIterator l d) p)).
  { unfold listGetIterator. rewrite (ok_len _ _ _ Hl), (ok_head _ _ _ Hl), (ok_tail _ _ _ Hl). unfold vis. destruct d.
    - apply (sweep_head_spec p xs _ h l []); [done|unfold zlen; lia].
    - pose proof (sweep_tail_spec p xs (S (Z.to_nat (zlen xs))) h l []) as Hs. rewrite !app_nil_r in Hs. apply Hs; [done|unfold zlen; lia]. }
  destruct Hs as (m & l' & E & Hok & O & D & S). unfold implements, list_run. rewrite E. cbn [mbind option_bind list_spec].
  assert (Ef : l_free l = m_free M) by apply Ho. rewrite Ef, dropped_values.
  assert (Ev : vis.*2 = match d with AL_START_HEAD => xs.*2 | AL_START_TAIL => reverse xs.*2 end) by (unfold vis; destruct d; [done|by rewrite fmap_reverse]).
  rewrite Ev. eexists _, _. split; [done|]. split; [done|]. split; [done|]. exists (kept p xs), ys. split; [|by rewrite kept_values].
  pose proof (fun k => owns_disjoint _ _ _ _ _ _ k Ho) as Hd. destruct Ho as [_ Ho Hn Hdom Ml Mo].
  assert (Hp : xs.*1 ≡ₚ (kept p xs).*1 ++ (dropped p xs).*1) by (rewrite <- fmap_app; by rewrite <- kept_dropped).
  constructor; try done.
  - eapply list_ok_frame; [exact O| |done]. intros k Hk Hk'. by apply (Hd k).
  - rewrite fmap_app. apply NoDup_app. split; [apply Hok|]. split; [|apply Ho]. intros k Hk. apply Hd. rewrite Hp. set_solver.
  - cbn. rewrite D, Hdom. assert (Eq : list_to_set (dropped p vis).*1 =@{gset loc} list_to_set (dropped p xs).*1) by (apply list_to_set_perm_L; by rewrite (dropped_perm _ _ _ Hv)).
    rewrite Eq, !fmap_app, !list_to_set_app_L. rewrite (list_to_set_perm_L _ _ Hp), list_to_set_app_L.
    assert (Hn2 : NoDup (xs.*1 ++ ys.*1)) by (by rewrite <- fmap_app). rewrite Hp, <- app_assoc in Hn2. apply NoDup_app in Hn2 as (_ & H1 & H2). apply NoDup_app in H2 as (_ & H2 & _).
    set_solver.
  - by eapply same_has.
Qed.

Lemma list_step h l o vs us fr c :
  represents M (h, l, o) vs us fr -> index_ok c -> room vs us -> implements h l o vs us fr c.
Proof.
  intros (<- & xs & ys & Ho & <- & <-) Hi Hr. unfold room, zlen in Hr. rewrite !length_fmap in Hr. fold (zlen xs) (zlen ys) in Hr.
  pose proof (zlen_nonneg ys). pose proof (zlen_nonneg xs). pose proof (own_l _ _ _ _ _ _ Ho) as Hl.
  assert (Enf : forall i, position (zlen xs.*2) i = position (zlen xs) i) by (intros i; unfold zlen; by rewrite length_fmap).
  destruct c as [v|v|i v after|i|key| | | | | |d p]; [| | | | |by apply rotate_tail_implements|by apply rotate_head_implements|by apply join_implements; [|lia]|by apply dup_implements|by apply empty_implements|by apply sweep_implements];
    unfold implements, list_run; cbn [list_spec index_ok] in *.
  - destruct (owns_added h l o [] xs ys v _ Ho (add_head_spec h l xs v Hl ltac:(lia))) as (a & m & l' & -> & Ho'). cbn [mbind option_bind].
    eexists _, []. split; [done|]. split; [done|]. split; [done|]. by exists ((a, v) :: xs), ys.
  - rewrite <- (app_nil_r xs) in Ho. destruct (owns_added h l o xs [] ys v _ Ho (add_tail_spec h l xs v Hl ltac:(lia))) as (a & m & l' & -> & Ho'). cbn [mbind option_bind].
    eexists _, []. split; [done|]. split; [done|]. split; [done|]. exists (xs ++ [(a, v)]), ys. split; [done|]. by rewrite fmap_app.
  - rewrite (index_spec _ _ _ _ Hl Hi), Enf. cbn [mbind option_bind]. destruct (position (zlen xs) i) as [n|] eqn:Ep; cbn [mbind option_bind].
    + rewrite <- Enf in Ep. destruct (position_lookup _ _ _ Ep) as (a & w & En & _). rewrite En. cbn [fmap option_fmap option_map fst].
      destruct (insert_implements h l o xs ys n a w v after Ho En ltac:(lia)) as (h' & l' & -> & Hrep). cbn [mbind option_bind]. by eexists _, [].
    + eexists _, []. split; [done|]. split; [done|]. split; [done|]. by exists xs, ys.
  - rewrite (index_spec _ _ _ _ Hl Hi), Enf. cbn [mbind option_bind]. destruct (position (zlen xs) i) as [n|] eqn:Ep; cbn [mbind option_bind].
    + rewrite <- Enf in Ep. destruct (position_lookup _ _ _ Ep) as (a & w & En & _). rewrite En. cbn [fmap option_fmap option_map fst].
      destruct (del_implements h l o xs ys n a w Ho En) as (h' & l' & -> & Hrep). cbn [mbind option_bind]. by eexists _, [].
    + eexists _, []. split; [done|]. split; [done|]. split; [done|]. by exists xs, ys.
  - rewrite (list_search_spec _ _ _ _ Hl). assert (Em : matches l key = fun v => match m_match M with Some f => f v key | None => key =? v end).
    { unfold matches. by destruct (own_ml _ _ _ _ _ _ Ho) as (_ & _ & ->). }
    rewrite Em. cbn [mbind option_bind]. destruct (find_pos _ _) as [n|] eqn:Ep; cbn [mbind option_bind].
    + destruct (find_pos_lookup _ _ _ Ep) as [w Hw]. rewrite list_lookup_fmap in Hw. destruct (xs !! n) as [[a w']|] eqn:En; [|done]. cbn [fmap option_fmap option_map fst].
      destruct (del_implements h l o xs ys n a w' Ho En) as (h' & l' & -> & Hrep). cbn [mbind option_bind]. by eexists _, [].
    + eexists _, []. split; [done|]. split; [done|]. split; [done|]. by exists xs, ys.
Qed.
End Steps.

(** Runs of the code and of the specification; a run is valid when no index
    is [LONG_MIN] and the number of nodes fits in the [unsigned long]. *)
Fixpoint list_runs `{Allocator} (s : heap * list_t * list_t) (cs : list list_op) : option (heap * list_t * list_t * list (list Z)) :=
  match cs with
  | [] => Some (s, [])
  | c :: cs => '(s, out) ← list_run s c; '(s, outs) ← list_runs s cs; Some (s, out :: outs)
  end.
Fixpoint list_specs (M : methods) (s : list Z * list Z * list Z) (cs : list list_op) : list Z * list Z * list Z * list (list Z) :=
  match cs with
  | [] => (s, [])
  | c :: cs => let '(s, out) := list_spec M s c in let '(s, outs) := list_specs M s cs in (s, out :: outs)
  end.
Fixpoint valid_run (M : methods) (s : list Z * list Z * list Z) (cs : list list_op) : Prop :=
  match cs with
  | [] => True
  | c :: cs => index_ok c /\ room s.1.1 s.1.2 /\ valid_run M (list_spec M s c).1 cs
  end.

Lemma list_runs_spec `{Allocator} M cs : forall s vs us fr,
  represents M s vs us fr -> valid_run M (vs, us, fr) cs ->
  exists s' vs' us' fr' outs, list_runs s cs = Some (s', outs) /\ list_specs M (vs, us, fr) cs = (vs', us', fr', outs) /\ represents M s' vs' us' fr'.
Proof.
  induction cs as [|c cs IH]; intros [[h l] o] vs us fr Hr Hv; [by eexists _, vs, us, fr, []|].
  destruct Hv as (Hi & Hroom & Hv). destruct (list_step M h l o vs us fr c Hr Hi Hroom) as (s1 & out & E & Hs).
  cbn [list_runs list_specs]. rewrite E. cbn [mbind option_bind]. destruct (list_spec M (vs, us, fr) c) as [[[vs1 us1] fr1] out1]. destruct Hs as [<- Hr1].
  destruct (IH s1 vs1 us1 fr1 Hr1 Hv) as (s2 & vs2 & us2 & fr2 & outs & -> & -> & Hr2). cbn [mbind option_bind]. by eexists s2, vs2, us2, fr2, (out :: outs).
Qed.

(** C10: the linked lists refine sequences.  Starting from two empty lists
    (with any [dup], [free] and [match] methods, the [dup] method failing or
    not), any valid sequence of insertions at both ends and around a node,
    deletions by index and by key, rotations, joins, duplications, clears
    and iterations in both directions that delete nodes on the way runs
    without dereferencing NULL or a freed node and without freeing twice;
    the values of the two lists, those seen by the iterations and those
    passed to the [free] method are those of the operations on sequences; and
    the heap holds the nodes of the two lists and nothing else. *)
Theorem adlist_refines `{Allocator} (M : methods) (cs : list list_op)
    (Hv : valid_run M ([], [], []) cs) :
  let empty := mk_list None None (m_dup M) (m_free M) (m_match M) 0 in
  exists h l o vs us fr outs,
    list_runs (mk_heap ∅ [], empty, empty) cs = Some (h, l, o, outs) /\
    list_specs M ([], [], []) cs = (vs, us, fr, outs) /\
    represents M (h, l, o) vs us fr.
Proof.
  intros empty. destruct (list_runs_spec M cs (mk_heap ∅ [], empty, empty) [] [] []) as ([[h l] o] & vs & us & fr & outs & ?); [|done|by exists h, l, o, vs, us, fr, outs].
  split; [done|]. exists [], []. split; [|done]. constructor; try done; [by apply empty_ok|by apply empty_ok|constructor].
Qed.

(** An allocator that returns an address not in use. *)
#[export] Instance fresh_allocator : Allocator := {
  zmalloc m := fresh (dom m);
  zmalloc_fresh m := proj1 (not_elem_of_dom m (fresh (dom m))) (is_fresh (dom m))
}.

Lemma adlist_refines_witness :
  exists h l o outs,
    list_runs (mk_heap ∅ [], mk_list None None None true None 0, mk_list None None None true None 0)
      [AddTail 1; AddTail 2; AddHead 0; Dup; Insert (-1) 9 false; Join; SearchDel 9; RotateTail; Sweep AL_START_TAIL Z.even] = Some (h, l, o, outs) /\
    represents (mk_methods None true None) (h, l, o) [1; 1] [] [9; 0; 2; 0; 2] /\ last outs = Some [1; 0; 2; 1; 0; 2].
Proof.
  set (cs := [AddTail 1; AddTail 2; AddHead 0; Dup; Insert (-1) 9 false; Join; SearchDel 9; RotateTail; Sweep AL_START_TAIL Z.even]).
  assert (Hv : valid_run (mk_methods None true None) ([], [], []) cs) by (cbn -[Z.pow]; unfold room, zlen; cbn -[Z.pow]; repeat split; lia).
  destruct (adlist_refines (mk_methods None true None) cs Hv) as (h & l & o & vs & us & fr & outs & E & Es & Hr).
  vm_compute in Es. injection Es as <- <- <- <-. exists h, l, o. eexists. split; [exact E|]. split; [exact Hr|reflexivity].
Defined.
