(* ===== verification/Lzf.v ===== *)
(** * lzf_c.c and lzf_d.c: LZF compression

    The compiled configuration is the default one of lzfP.h on a 64-bit host:
    [HLOG] 16, [VERY_FAST], no initialisation of the hash table (its content
    on entry is the parameter [junk]), offsets in the hash slots, and
    [CHECK_INPUT] in the decompressor.

    The theorems: whatever the stack holds, the compressor stays inside its
    buffers and what it writes decompresses to its input; the decompressor
    stays inside its buffers on every input. *)
From S2P Require Import Prelude.
#[local] Open Scope cmem_scope.

Definition HLOG : Z := 16.
Definition HSIZE : Z := Z.shiftl 1 HLOG.
Definition MAX_LIT : Z := Z.shiftl 1 5.
Definition MAX_OFF : Z := Z.shiftl 1 13.
Definition MAX_REF : Z := Z.shiftl 1 8 + Z.shiftl 1 3.

(** ** The compressor *)
Section Compress.
  Context (junk : Z -> Z) (inp : list Z).

(** [FRST(p)], [NEXT(v,p)], [IDX(h)] *)
Definition FRST (p : Z) : option Z := a ← inp.[p]; b ← inp.[p + 1]; Some (Z.lor (Z.shiftl a 8) b).
Definition NEXT (v p : Z) : option Z := c ← inp.[p + 2]; Some (u32 (Z.lor (Z.shiftl v 8) c)).
Definition IDX (h : Z) : Z := Z.land (u32 (Z.shiftr h (3 * 8 - HLOG) - u32 (h * 5))) (HSIZE - 1).

Record lzf := mk_lzf { ip : Z; op : Z; lit : Z; hval : Z; htab : gmap Z Z; out : list Z }.

Definition slot (t : gmap Z Z) (i : Z) : Z := u32 (default (junk i) (t !! i)).

(** The condition of the [if]: the tests in order, the last two reading the
    input. *)
Definition is_match (ip ref : Z) : option bool :=
  let off := u64 (ip - ref - 1) in
  if negb (off <? MAX_OFF) then Some false
  else if negb (ref >? 0) then Some false
  else
    a ← inp.[ref + 2]; b ← inp.[ip + 2];
    if negb (a =? b) then Some false
    else x ← load inp ref 2; y ← load inp ip 2; Some (bool_decide (x = y)).

(** [len++; if (ref [len] != ip [len]) break;], [n] times; whether it broke. *)
Fixpoint unrolled (n : nat) (ref ip len : Z) : option (Z * bool) :=
  match n with
  | O => Some (len, false)
  | S n =>
      let len := len + 1 in
      a ← inp.[ref + len]; b ← inp.[ip + len];
      if negb (a =? b) then Some (len, true) else unrolled n ref ip len
  end.
(** [do len++; while (len < maxlen && ref[len] == ip[len]);] *)
Fixpoint extend (fuel : nat) (ref ip maxlen len : Z) : option Z :=
  match fuel with
  | O => None
  | S fuel =>
      let len := len + 1 in
      if len <? maxlen then
        a ← inp.[ref + len]; b ← inp.[ip + len];
        if a =? b then extend fuel ref ip maxlen len else Some len
      else Some len
  end.
Definition match_len (ref ip : Z) : option Z :=
  let maxlen := u32 (zlen inp - ip - 2) in
  let maxlen := if maxlen >? MAX_REF then MAX_REF else maxlen in
  '(len, broke) ← (if maxlen >? 16 then unrolled 16 ref ip 2 else Some (2, false));
  if (broke : bool) then Some len else extend (Z.to_nat MAX_REF + 3) ref ip maxlen len.

Inductive turn := Return0 (out : list Z) | Break (s : lzf) | Next (s : lzf).

(** [!lit] *)
Definition notb (z : Z) : Z := if z =? 0 then 1 else 0.

Definition emit_match (s : lzf) (ref off : Z) : option turn :=
  let out_end := zlen (out s) in
  if (op s + 3 + 1 >=? out_end) && (op s - notb (lit s) + 3 + 1 >=? out_end) then Some (Return0 (out s))
  else
    o ← store (out s) (op s - lit s - 1) [u8 (lit s - 1)];
    let op := op s - notb (lit s) in
    len ← match_len ref (ip s);
    let len := len - 2 in
    let ip := ip s + 1 in
    '(o, op) ← (if len <? 7 then o ← store o op [u8 (Z.shiftr off 8 + Z.shiftl len 5)]; Some (o, op + 1)
                else o ← store o op [u8 (Z.shiftr off 8 + Z.shiftl 7 5)];
                     o ← store o (op + 1) [u8 (len - 7)]; Some (o, op + 2));
    o ← store o op [u8 off];
    let op := op + 2 in
    let ip := ip + (len + 1) in
    if ip >=? zlen inp - 2 then Some (Break (mk_lzf ip op 0 (hval s) (htab s) o))
    else
      let ip := ip - 2 in
      h ← FRST ip;
      h ← NEXT h ip;
      let t := <[IDX h := u32 ip]> (htab s) in
      let ip := ip + 1 in
      h ← NEXT h ip;
      let t := <[IDX h := u32 ip]> t in
      Some (Next (mk_lzf (ip + 1) op 0 h t o)).

(** [lit++; *op++ = *ip++; if (lit == MAX_LIT) ...] *)
Definition put_literal (s : lzf) : option lzf :=
  b ← inp.[ip s];
  o ← store (out s) (op s) [b];
  let lit := lit s + 1 in
  let op := op s + 1 in
  if lit =? MAX_LIT then
    o ← store o (op - lit - 1) [u8 (lit - 1)];
    Some (mk_lzf (ip s + 1) (op + 1) 0 (hval s) (htab s) o)
  else Some (mk_lzf (ip s + 1) op lit (hval s) (htab s) o).

Definition compress_turn (s : lzf) : option turn :=
  h ← NEXT (hval s) (ip s);
  let ref := slot (htab s) (IDX h) in
  let s := mk_lzf (ip s) (op s) (lit s) h (<[IDX h := u32 (ip s)]> (htab s)) (out s) in
  found ← is_match (ip s) ref;
  if (found : bool) then emit_match s ref (ip s - ref - 1)
  else if op s >=? zlen (out s) then Some (Return0 (out s))
  else s ← put_literal s; Some (Next s).

Fixpoint compress_loop (fuel : nat) (s : lzf) : option (list Z + lzf) :=
  if ip s <? zlen inp - 2 then
    match fuel with
    | O => None
    | S fuel =>
        t ← compress_turn s;
        match t with
        | Return0 o => Some (inl o)
        | Break s => Some (inr s)
        | Next s => compress_loop fuel s
        end
    end
  else Some (inr s).

Fixpoint last_literals (fuel : nat) (s : lzf) : option lzf :=
  if ip s <? zlen inp then
    match fuel with
    | O => None
    | S fuel => s ← put_literal s; last_literals fuel s
    end
  else Some s.

(** The number of bytes written and the output block. *)
Definition lzf_compress (out0 : list Z) : option (Z * list Z) :=
  if (zlen inp =? 0) || (zlen out0 =? 0) then Some (0, out0)
  else
    h ← FRST 0;
    r ← compress_loop (length inp) (mk_lzf 0 1 0 h ∅ out0);
    match r with
    | inl o => Some (0, o)
    | inr s =>
        if op s + 3 >? zlen (out s) then Some (0, out s)
        else
          s ← last_literals 2 s;
          o ← store (out s) (op s - lit s - 1) [u8 (lit s - 1)];
          Some (op s - notb (lit s), o)
    end.
End Compress.

(** ** The decompressor *)
Inductive errno := E2BIG | EINVAL.

(** [do *op++ = *ref++; while (--len);] *)
Fixpoint octets (n : nat) (o : list Z) (op ref : Z) : option (list Z) :=
  match n with
  | O => Some o
  | S n => b ← o.[ref]; o ← store o op [b]; octets n o (op + 1) (ref + 1)
  end.

Definition back_copy (o : list Z) (op ref len : Z) : option (list Z) :=
  if len <=? 9 then octets (Z.to_nat (len + 2)) o op ref
  else
    let len := len + 2 in
    if op >=? ref + len then bs ← load o ref len; store o op bs
    else octets (Z.to_nat len) o op ref.

(** One turn of the [do ... while]: the error, or the new input and output
    positions; and the output block. *)
Definition decompress_turn (inp : list Z) (ip op : Z) (o : list Z) : option (errno + Z * Z * list Z) :=
  ctrl ← inp.[ip];
  let ip := ip + 1 in
  let in_end := zlen inp in
  let out_end := zlen o in
  if ctrl <? Z.shiftl 1 5 then
    let ctrl := ctrl + 1 in
    if op + ctrl >? out_end then Some (inl E2BIG)
    else if ip + ctrl >? in_end then Some (inl EINVAL)
    else
      bs ← load inp ip ctrl;
      o ← store o op bs;
      Some (inr (ip + ctrl, op + ctrl, o))
  else
    let len := Z.shiftr ctrl 5 in
    let ref := op - Z.shiftl (Z.land ctrl 31) 8 - 1 in
    if ip >=? in_end then Some (inl EINVAL)
    else
      r ← (if len =? 7 then
             b ← inp.[ip];
             if ip + 1 >=? in_end then Some None else Some (Some (len + b, ip + 1))
           else Some (Some (len, ip)));
      match r with
      | None => Some (inl EINVAL)
      | Some (len, ip) =>
          b ← inp.[ip];
          let ref := ref - b in
          let ip := ip + 1 in
          if op + len + 2 >? out_end then Some (inl E2BIG)
          else if ref <? 0 then Some (inl EINVAL)
          else o ← back_copy o op ref len; Some (inr (ip, op + len + 2, o))
      end.

Fixpoint decompress_loop (fuel : nat) (inp : list Z) (ip op : Z) (o : list Z) : option (errno + Z * list Z) :=
  match fuel with
  | O => None
  | S fuel =>
      r ← decompress_turn inp ip op o;
      match r with
      | inl e => Some (inl e)
      | inr (ip, op, o) => if ip <? zlen inp then decompress_loop fuel inp ip op o else Some (inr (op, o))
      end
  end.
(** The error ([errno], returning 0), or the returned length and the output. *)
Definition lzf_decompress (inp o : list Z) : option (errno + Z * list Z) :=
  decompress_loop (length inp) inp 0 0 o.

(** ** The format
    A compressed block is a sequence of literal runs and back references:
    [Ref dist len] repeats [len] bytes starting [dist] bytes before the end
    of what precedes. *)
Inductive token := Lit (bs : list Z) | Ref (dist len : Z).

Definition token_ok (done : Z) (t : token) : Prop :=
  match t with
  | Lit bs => 1 <= zlen bs <= 32 /\ bytes_ok bs
  | Ref dist len => 1 <= dist <= 8192 /\ dist <= done /\ 3 <= len <= 264
  end.
Definition token_len (t : token) : Z := match t with Lit bs => zlen bs | Ref _ len => len end.
Fixpoint tokens_ok (done : Z) (ts : list token) : Prop :=
  match ts with [] => True | t :: ts => token_ok done t /\ tokens_ok (done + token_len t) ts end.

Definition encode_token (t : token) : list Z :=
  match t with
  | Lit bs => (zlen bs - 1) :: bs
  | Ref dist len =>
      let off := dist - 1 in let l := len - 2 in
      if l <? 7 then [off / 256 + 32 * l; off mod 256] else [off / 256 + 224; l - 7; off mod 256]
  end.
Definition encode (ts : list token) : list Z := concat (map encode_token ts).

(** The copy a back reference denotes, byte by byte: it may overlap itself. *)
Fixpoint repeat_back (n : nat) (dist : Z) (done : list Z) : list Z :=
  match n with
  | O => done
  | S n => repeat_back n dist (done ++ [default 0 (done.[zlen done - dist])])
  end.
Definition expand_token (done : list Z) (t : token) : list Z :=
  match t with Lit bs => done ++ bs | Ref dist len => repeat_back (Z.to_nat len) dist done end.
Definition expand (done : list Z) (ts : list token) : list Z := foldl expand_token done ts.

Lemma repeat_back_app n dist done : exists bs, repeat_back n dist done = done ++ bs /\ length bs = n.
Proof.
  revert done. induction n as [|n IH]; intros l; cbn [repeat_back]; [exists []; by rewrite app_nil_r|].
  destruct (IH (l ++ [default 0 (l.[zlen l - dist])])) as (bs & -> & Hb). eexists (_ :: bs). rewrite <- app_assoc. split; [done|cbn; lia].
Qed.
Lemma expand_token_len l t done : token_ok done t -> zlen (expand_token l t) = zlen l + token_len t.
Proof.
  destruct t as [bs|dist len]; cbn [expand_token token_len token_ok]; intros H; [by rewrite zlen_app|].
  destruct (repeat_back_app (Z.to_nat len) dist l) as (bs & -> & Hb). rewrite zlen_app. unfold zlen. lia.
Qed.

(** *** Back references *)
Lemma load1_in_app (a b : list Z) i : i < zlen a -> load1 (a ++ b) i = load1 a i.
Proof. unfold load1. destruct (Z.leb_spec 0 i); [|done]. intros. rewrite lookup_app_l; [done|unfold zlen in *; lia]. Qed.

Lemma octets_spec n : forall l rest dist, 1 <= dist <= zlen l -> (n <= length rest)%nat ->
  octets n (l ++ rest) (zlen l) (zlen l - dist) = Some (repeat_back n dist l ++ drop n rest).
Proof.
  induction n as [|n IH]; intros l rest dist Hd Hn; cbn [octets repeat_back]; [done|].
  destruct rest as [|x rest]; [cbn in Hn; lia|]. rewrite load1_in_app by lia. destruct (load1_some l (zlen l - dist)) as [b Hb]; [lia|].
  rewrite Hb. cbn [mbind option_bind default]. rewrite store1_app by done. cbn [mbind option_bind].
  replace (l ++ b :: rest) with ((l ++ [b]) ++ rest) by (by rewrite <- app_assoc).
  replace (zlen l + 1) with (zlen (l ++ [b])) by (autorewrite with zlen; lia).
  replace (zlen l - dist + 1) with (zlen (l ++ [b]) - dist) by (autorewrite with zlen; lia).
  rewrite IH; [done|autorewrite with zlen; lia|cbn in Hn; lia].
Qed.

(** A copy whose source lies before the end is a plain copy. *)
Lemma repeat_back_far n : forall l dist, Z.of_nat n <= dist <= zlen l ->
  repeat_back n dist l = l ++ take n (drop (Z.to_nat (zlen l - dist)) l).
Proof.
  induction n as [|n IH]; intros l dist Hd; cbn [repeat_back]; [by rewrite app_nil_r|].
  destruct (load1_some l (zlen l - dist)) as [b Hb]; [lia|]. rewrite Hb. cbn [default]. rewrite IH by (autorewrite with zlen; lia).
  rewrite <- app_assoc. f_equal. unfold load1 in Hb. destruct (Z.leb_spec 0 (zlen l - dist)); [|lia].
  rewrite (drop_S _ _ _ Hb). cbn [app firstn]. f_equal. autorewrite with zlen.
  replace (Z.to_nat (zlen l + (1 + 0) - dist)) with (S (Z.to_nat (zlen l - dist))) by lia.
  rewrite drop_app_le by (unfold zlen in *; lia). apply take_app_le. rewrite length_drop. unfold zlen in *. lia.
Qed.

Lemma back_copy_spec l rest dist len : 1 <= dist <= zlen l -> 0 <= len -> len + 2 <= zlen rest ->
  back_copy (l ++ rest) (zlen l) (zlen l - dist) len = Some (repeat_back (Z.to_nat (len + 2)) dist l ++ drop (Z.to_nat (len + 2)) rest).
Proof.
  intros Hd Hl Hr. assert (Hn : (Z.to_nat (len + 2) <= length rest)%nat) by (unfold zlen in *; lia). unfold back_copy.
  destruct (Z.leb_spec len 9); [by apply octets_spec|]. rewrite Z.geb_leb. destruct (Z.leb_spec (zlen l - dist + (len + 2)) (zlen l)); [|by apply octets_spec].
  rewrite repeat_back_far by lia. unfold load. rewrite zlen_app. rewrite !(proj2 (Z.leb_le _ _)) by lia. cbn [andb mbind option_bind].
  rewrite drop_app_le by (unfold zlen in *; lia). rewrite take_app_le by (rewrite length_drop; unfold zlen in *; lia).
  set (bs := take _ (drop _ l)). destruct (split_at rest (len + 2)) as (r1 & r2 & -> & H1 & H2); [lia|].
  assert (Hb : zlen bs = len + 2) by (unfold bs, zlen in *; rewrite length_take, length_drop; lia).
  rewrite (store_app l r1 bs r2) by lia. f_equal. rewrite <- app_assoc. do 2 f_equal.
  replace (Z.to_nat (len + 2)) with (length r1) by (unfold zlen in H1; lia). by rewrite drop_app_length.
Qed.

(** *** One turn of the decompressor reads one token *)
Lemma ctrl_bits a k : 0 <= a < 32 -> Z.shiftr (a + 32 * k) 5 = k /\ Z.land (a + 32 * k) 31 = a.
Proof.
  intros Ha. split.
  - rewrite Z.shiftr_div_pow2 by lia. change (2 ^ 5) with 32. rewrite Z.mul_comm, Z.div_add, Z.div_small; lia.
  - change 31 with (Z.ones 5). rewrite Z.land_ones by lia. change (2 ^ 5) with 32. rewrite Z.mul_comm, Z.mod_add, Z.mod_small; lia.
Qed.

Lemma turn_literal pre bs post l rest : 1 <= zlen bs <= 32 -> zlen bs <= zlen rest ->
  decompress_turn (pre ++ encode_token (Lit bs) ++ post) (zlen pre) (zlen l) (l ++ rest)
  = Some (inr (zlen pre + (1 + zlen bs), zlen l + zlen bs, (l ++ bs) ++ drop (Z.to_nat (zlen bs)) rest)).
Proof.
  intros Hb Hr. unfold decompress_turn. cbn [encode_token]. cbn [app]. rewrite (load1_app pre _ _ (zlen pre)) by done. cbn [mbind option_bind].
  change (Z.shiftl 1 5) with 32. destruct (Z.ltb_spec (zlen bs - 1) 32); [|lia]. autorewrite with zlen. rewrite !Z.gtb_ltb.
  pose proof (zlen_nonneg post). destruct (Z.ltb_spec (zlen l + zlen rest) (zlen l + (zlen bs - 1 + 1))); [lia|].
  destruct (Z.ltb_spec (zlen pre + (1 + (zlen bs + zlen post))) (zlen pre + 1 + (zlen bs - 1 + 1))); [lia|].
  change (pre ++ zlen bs - 1 :: bs ++ post) with (pre ++ [zlen bs - 1] ++ bs ++ post). rewrite (app_assoc pre).
  rewrite load_app by (autorewrite with zlen; lia). cbn [mbind option_bind].
  destruct (split_at rest (zlen bs)) as (r1 & r2 & -> & Hr1 & Hr2); [lia|]. rewrite (store_app l r1 bs r2) by lia. cbn [mbind option_bind].
  replace (Z.to_nat (zlen bs)) with (length r1) by (unfold zlen in *; lia). rewrite drop_app_length, <- app_assoc.
  replace (zlen pre + 1 + (zlen bs - 1 + 1)) with (zlen pre + (1 + zlen bs)) by lia. by replace (zlen l + (zlen bs - 1 + 1)) with (zlen l + zlen bs) by lia.
Qed.

Lemma turn_ref pre dist len post l rest : token_ok (zlen l) (Ref dist len) -> len <= zlen rest ->
  decompress_turn (pre ++ encode_token (Ref dist len) ++ post) (zlen pre) (zlen l) (l ++ rest)
  = Some (inr (zlen pre + zlen (encode_token (Ref dist len)), zlen l + len, repeat_back (Z.to_nat len) dist l ++ drop (Z.to_nat len) rest)).
Proof.
  intros (Hd & Hdl & Hl) Hr. unfold decompress_turn. cbn [encode_token]. set (off := dist - 1).
  assert (Ha : 0 <= off / 256 < 32) by (unfold off; split; [apply Z.div_pos; lia|apply Z.div_lt_upper_bound; lia]).
  pose proof (Z.mod_pos_bound off 256 ltac:(lia)). pose proof (Z.div_mod off 256 ltac:(lia)) as Hdm.
  pose proof (zlen_nonneg post). change (Z.shiftl 1 5) with 32.
  assert (Hcopy : back_copy (l ++ rest) (zlen l) (zlen l - dist) (len - 2) = Some (repeat_back (Z.to_nat len) dist l ++ drop (Z.to_nat len) rest)).
  { rewrite back_copy_spec by lia. by replace (len - 2 + 2) with len by lia. }
  destruct (Z.ltb_spec (len - 2) 7).
  - destruct (ctrl_bits (off / 256) (len - 2) Ha) as [E1 E2]. cbn [app]. rewrite (load1_app pre _ _ (zlen pre)) by done. cbn [mbind option_bind].
    destruct (Z.ltb_spec (off / 256 + 32 * (len - 2)) 32); [lia|]. rewrite E1, E2. autorewrite with zlen. rewrite !Z.geb_leb.
    destruct (Z.leb_spec (zlen pre + (1 + (1 + zlen post))) (zlen pre + 1)); [lia|]. destruct (Z.eqb_spec (len - 2) 7); [lia|]. cbn [mbind option_bind].
    change (pre ++ ?x :: ?y :: post) with (pre ++ [x] ++ y :: post). rewrite app_assoc, load1_app by (autorewrite with zlen; lia). cbn [mbind option_bind].
    rewrite Z.gtb_ltb. destruct (Z.ltb_spec (zlen l + zlen rest) (zlen l + (len - 2) + 2)); [lia|]. rewrite Z.shiftl_mul_pow2 by lia. change (2 ^ 8) with 256.
    replace (zlen l - off / 256 * 256 - 1 - off mod 256) with (zlen l - dist) by (unfold off in *; lia).
    destruct (Z.ltb_spec (zlen l - dist) 0); [lia|]. rewrite Hcopy. cbn [mbind option_bind]. do 3 f_equal. f_equal; lia.
  - destruct (ctrl_bits (off / 256) 7 Ha) as [E1 E2]. cbn [app]. rewrite (load1_app pre _ _ (zlen pre)) by done. cbn [mbind option_bind].
    change 224 with (32 * 7). destruct (Z.ltb_spec (off / 256 + 32 * 7) 32); [lia|]. rewrite E1, E2. autorewrite with zlen. rewrite !Z.geb_leb.
    destruct (Z.leb_spec (zlen pre + (1 + (1 + (1 + zlen post)))) (zlen pre + 1)); [lia|]. cbn [Z.eqb Pos.eqb].
    change (pre ++ ?x :: ?y :: ?z :: post) with (pre ++ [x] ++ [y] ++ z :: post). rewrite (app_assoc pre). cbn [app]. rewrite load1_app by (autorewrite with zlen; lia). cbn [mbind option_bind].
    destruct (Z.leb_spec (zlen pre + (1 + (1 + (1 + zlen post)))) (zlen pre + 1 + 1)); [lia|]. cbn [mbind option_bind].
    change ((pre ++ ?x) ++ ?y :: ?z :: post) with ((pre ++ x) ++ [y] ++ z :: post). rewrite (app_assoc _ [_]). rewrite load1_app by (autorewrite with zlen; lia). cbn [mbind option_bind].
    rewrite Z.gtb_ltb. destruct (Z.ltb_spec (zlen l + zlen rest) (zlen l + (7 + (len - 2 - 7)) + 2)); [lia|]. rewrite Z.shiftl_mul_pow2 by lia. change (2 ^ 8) with 256.
    replace (zlen l - off / 256 * 256 - 1 - off mod 256) with (zlen l - dist) by (unfold off in *; lia).
    destruct (Z.ltb_spec (zlen l - dist) 0); [lia|]. replace (7 + (len - 2 - 7)) with (len - 2) by lia. rewrite Hcopy. cbn [mbind option_bind]. do 3 f_equal. f_equal; lia.
Qed.

Lemma encode_token_pos t done : token_ok done t -> 1 <= zlen (encode_token t).
Proof. destruct t as [bs|dist len]; cbn; [intros; rewrite zlen_cons; pose proof (zlen_nonneg bs); lia|]. intros. destruct (len - 2 <? 7); autorewrite with zlen; lia. Qed.

Fixpoint tokens_len (ts : list token) : Z := match ts with [] => 0 | t :: ts => token_len t + tokens_len ts end.
Lemma tokens_len_nonneg done ts : tokens_ok done ts -> 0 <= tokens_len ts.
Proof. revert done. induction ts as [|t ts IH]; intros d; cbn; [lia|]. intros [Ht Hs]. apply IH in Hs. destruct t; cbn in *; lia. Qed.

Lemma decompress_loop_spec ts : forall fuel pre l rest,
  ts <> [] -> tokens_ok (zlen l) ts -> tokens_len ts <= zlen rest -> (length (encode ts) <= fuel)%nat ->
  decompress_loop fuel (pre ++ encode ts) (zlen pre) (zlen l) (l ++ rest)
  = Some (inr (zlen l + tokens_len ts, expand l ts ++ drop (Z.to_nat (tokens_len ts)) rest)).
Proof.
  induction ts as [|t ts IH]; intros fuel pre l rest Hne Hok Hlen Hf; [done|]. destruct Hok as [Ht Hok]. cbn [tokens_len] in *. pose proof (tokens_len_nonneg _ _ Hok).
  assert (Htp : 0 <= token_len t) by (destruct t; cbn in *; lia).
  unfold encode in *. cbn [map concat] in *. fold (encode ts) in *. rewrite length_app in Hf. pose proof (encode_token_pos t _ Ht) as Hp.
  destruct fuel as [|fuel]; [unfold zlen in Hp; lia|]. cbn [decompress_loop].
  assert (E : decompress_turn (pre ++ encode_token t ++ encode ts) (zlen pre) (zlen l) (l ++ rest)
              = Some (inr (zlen (pre ++ encode_token t), zlen (expand_token l t), expand_token l t ++ drop (Z.to_nat (token_len t)) rest))).
  { rewrite (expand_token_len l t _ Ht), zlen_app. destruct t as [bs|dist len]; [|by apply turn_ref; [|cbn in *; lia]].
    cbn [token_ok token_len expand_token] in *. rewrite turn_literal by lia. cbn [encode_token]. by rewrite zlen_cons. }
  rewrite E. cbn [mbind option_bind]. autorewrite with zlen. pose proof (expand_token_len l t _ Ht) as El.
  destruct ts as [|t' ts'].
  - cbn [encode map concat] in *. autorewrite with zlen. destruct (Z.ltb_spec (zlen pre + zlen (encode_token t)) (zlen pre + (zlen (encode_token t) + 0))); [lia|].
    cbn [tokens_len expand foldl]. by rewrite El, !Z.add_0_r.
  - set (ts := t' :: ts') in *. destruct (Z.ltb_spec (zlen pre + zlen (encode_token t)) (zlen pre + (zlen (encode_token t) + zlen (encode ts)))) as [_|Hge].
    2:{ unfold ts, encode in Hge. cbn [map concat] in Hge. rewrite zlen_app in Hge. destruct Hok as [Ht' _]. pose proof (encode_token_pos _ _ Ht'). pose proof (zlen_nonneg (concat (map encode_token ts'))). lia. }
    rewrite app_assoc, <- zlen_app. rewrite IH; [|done|by rewrite El|rewrite zlen_drop by lia; lia|unfold zlen in Hp; lia].
    cbn [expand foldl]. rewrite El, drop_drop. do 3 f_equal; [lia|]. do 2 f_equal. lia.
Qed.

Lemma decompress_spec ts buf : ts <> [] -> tokens_ok 0 ts -> tokens_len ts <= zlen buf ->
  lzf_decompress (encode ts) buf = Some (inr (tokens_len ts, expand [] ts ++ drop (Z.to_nat (tokens_len ts)) buf)).
Proof. intros Hne Hok Hl. apply (decompress_loop_spec ts (length (encode ts)) [] [] buf Hne Hok Hl). lia. Qed.

(** *** The decompressor is safe on every input *)
Lemma octets_safe n : forall o op ref, 0 <= ref < op -> op + Z.of_nat n <= zlen o -> exists o', octets n o op ref = Some o' /\ zlen o' = zlen o.
Proof.
  induction n as [|n IH]; intros o op ref Hr Ho; cbn [octets]; [eauto|].
  destruct (load1_some o ref) as [b ->]; [lia|]. cbn [mbind option_bind].
  destruct (store_some o op [b]) as (o1 & -> & E1); [lia|unfold zlen in *; cbn; lia|]. cbn [mbind option_bind].
  destruct (IH o1 (op + 1) (ref + 1)) as (o2 & -> & E2); [lia|lia|]. exists o2. split; [done|lia].
Qed.
Lemma back_copy_safe o op ref len : 0 <= ref < op -> 0 <= len -> op + len + 2 <= zlen o -> exists o', back_copy o op ref len = Some o' /\ zlen o' = zlen o.
Proof.
  intros Hr Hl Ho. unfold back_copy. destruct (len <=? 9); [apply octets_safe; lia|]. rewrite Z.geb_leb.
  destruct (Z.leb_spec (ref + (len + 2)) op); [|apply octets_safe; lia].
  destruct (load_some o ref (len + 2)) as (b & -> & Hb); [lia..|]. cbn [mbind option_bind]. apply store_some; lia.
Qed.
Lemma decompress_turn_safe inp ip op o : bytes_ok inp -> 0 <= ip < zlen inp -> 0 <= op <= zlen o ->
  exists r, decompress_turn inp ip op o = Some r /\
    match r with inl _ => True | inr (ip', op', o') => ip < ip' <= zlen inp /\ op <= op' <= zlen o' /\ zlen o' = zlen o end.
Proof.
  intros Hb Hi Ho. unfold decompress_turn. destruct (load1_some inp ip Hi) as [ctrl Hc]. rewrite Hc. cbn [mbind option_bind].
  pose proof (load1_byte _ _ _ Hb Hc) as Hcb. unfold byte_ok in Hcb. change (Z.shiftl 1 5) with 32. rewrite !Z.gtb_ltb, !Z.geb_leb.
  destruct (Z.ltb_spec ctrl 32).
  - destruct (Z.ltb_spec (zlen o) (op + (ctrl + 1))); [by eexists|]. destruct (Z.ltb_spec (zlen inp) (ip + 1 + (ctrl + 1))); [by eexists|].
    destruct (load_some inp (ip + 1) (ctrl + 1)) as (bs & -> & Hbs); [lia..|]. cbn [mbind option_bind].
    destruct (store_some o op bs) as (o' & -> & Ho'); [lia..|]. cbn [mbind option_bind]. eexists. split; [done|]. cbn. lia.
  - destruct (Z.leb_spec (zlen inp) (ip + 1)); [by eexists|].
    assert (Hlen : 1 <= Z.shiftr ctrl 5 <= 7).
    { rewrite Z.shiftr_div_pow2 by lia. change (2 ^ 5) with 32. split; [apply Z.div_le_lower_bound; lia|]. enough (ctrl / 32 < 8) by lia. apply Z.div_lt_upper_bound; lia. }
    assert (Hoff : 0 <= Z.shiftl (Z.land ctrl 31) 8) by (apply Z.shiftl_nonneg, Z.land_nonneg; lia).
    assert (Hstep : exists r, (if Z.shiftr ctrl 5 =? 7 then b ← inp.[ip + 1]; if zlen inp <=? ip + 1 + 1 then Some None else Some (Some (Z.shiftr ctrl 5 + b, ip + 1 + 1)) else Some (Some (Z.shiftr ctrl 5, ip + 1))) = Some r /\
              match r with None => True | Some (len, i) => 1 <= len /\ ip < i < zlen inp end).
    { destruct (Z.shiftr ctrl 5 =? 7); [|eexists; split; [done|cbn; lia]]. destruct (load1_some inp (ip + 1)) as [b Hb']; [lia|]. rewrite Hb'. cbn [mbind option_bind].
      apply load1_byte in Hb'; [|done]. unfold byte_ok in Hb'. destruct (Z.leb_spec (zlen inp) (ip + 1 + 1)); eexists; (split; [done|]); cbn; lia. }
    destruct Hstep as ([[len i]|] & -> & Hr); cbn [mbind option_bind]; [|by eexists]. destruct (load1_some inp i) as [b Hb']; [lia|]. rewrite Hb'. cbn [mbind option_bind].
    apply load1_byte in Hb'; [|done]. unfold byte_ok in Hb'. rewrite Z.gtb_ltb. destruct (Z.ltb_spec (zlen o) (op + len + 2)); [by eexists|].
    destruct (Z.ltb_spec (op - Z.shiftl (Z.land ctrl 31) 8 - 1 - b) 0); [by eexists|].
    destruct (back_copy_safe o op (op - Z.shiftl (Z.land ctrl 31) 8 - 1 - b) len) as (o' & -> & Ho'); [lia..|]. cbn [mbind option_bind]. eexists. split; [done|]. cbn. lia.
Qed.
Lemma decompress_loop_safe inp : bytes_ok inp -> forall fuel ip op o, 0 <= ip < zlen inp -> 0 <= op <= zlen o -> zlen inp - ip <= Z.of_nat fuel ->
  exists r, decompress_loop fuel inp ip op o = Some r /\ match r with inl _ => True | inr (n, o') => 0 <= n <= zlen o' /\ zlen o' = zlen o end.
Proof.
  intros Hb. induction fuel as [|fuel IH]; intros ip op o Hi Ho Hf; [lia|]. cbn [decompress_loop].
  destruct (decompress_turn_safe inp ip op o Hb Hi Ho) as ([e|[[ip' op'] o']] & -> & Hr); cbn [mbind option_bind]; [by eexists|].
  destruct (Z.ltb_spec ip' (zlen inp)).
  - destruct (IH ip' op' o') as (r & -> & Hr'); [lia..|]. exists r. split; [done|]. destruct r as [|[n o2]]; [done|]. lia.
  - eexists. split; [done|]. cbn. lia.
Qed.

(** ** The compressor writes tokens that expand to its input *)
Lemma tokens_ok_app d ts us : tokens_ok d (ts ++ us) <-> tokens_ok d ts /\ tokens_ok (d + tokens_len ts) us.
Proof.
  revert d. induction ts as [|t ts IH]; intros d; cbn; [rewrite Z.add_0_r; tauto|]. rewrite IH, Z.add_assoc. tauto.
Qed.
Lemma tokens_len_app ts us : tokens_len (ts ++ us) = tokens_len ts + tokens_len us.
Proof. induction ts as [|t ts IH]; cbn; [done|]. rewrite IH. lia. Qed.
Lemma encode_app ts us : encode (ts ++ us) = encode ts ++ encode us.
Proof. unfold encode. by rewrite map_app, concat_app. Qed.
Lemma expand_app l ts us : expand l (ts ++ us) = expand (expand l ts) us.
Proof. apply foldl_app. Qed.
Lemma encode_one t : encode [t] = encode_token t.
Proof. unfold encode. cbn. by rewrite app_nil_r. Qed.

Lemma encode_token_bytes done t : token_ok done t -> bytes_ok (encode_token t).
Proof.
  destruct t as [bs|dist len]; cbn [token_ok encode_token]; [intros [Hb ?]; constructor; [unfold byte_ok; lia|done]|].
  intros (Hd & _ & Hl). assert (0 <= (dist - 1) / 256 < 32) by (split; [apply Z.div_pos; lia|apply Z.div_lt_upper_bound; lia]). pose proof (Z.mod_pos_bound (dist - 1) 256 ltac:(lia)).
  destruct (Z.ltb_spec (len - 2) 7); repeat (constructor; [unfold byte_ok; lia|]); constructor.
Qed.
Lemma encode_bytes done ts : tokens_ok done ts -> bytes_ok (encode ts).
Proof.
  revert done. induction ts as [|t ts IH]; intros d; [constructor|]. intros [Ht Hts]. unfold encode. cbn [map concat]. apply Forall_app. split; [by eapply encode_token_bytes|by eapply IH].
Qed.

Section CompressSpec.
  Context (junk : Z -> Z) (inp : list Z) (Hin : bytes_ok inp) (Hlen : 2 <= zlen inp < 2 ^ 32).

(** The tokens written so far, the pending literals. *)
Record cinv (n : Z) (s : lzf) (ts : list token) (ls : list Z) : Prop := {
  ci_ip : 0 <= ip s <= zlen inp;
  ci_lit : lit s = zlen ls;
  ci_max : zlen ls < 32;
  ci_op : op s = zlen (encode ts) + 1 + zlen ls;
  ci_size : zlen (out s) = n;
  ci_out : exists tail, out s = encode ts ++ tail /\ (ls <> [] -> exists hole rest, tail = hole :: ls ++ rest);
  ci_ok : tokens_ok 0 ts;
  ci_len : tokens_len ts + zlen ls = ip s;
  ci_data : expand [] ts ++ ls = take (Z.to_nat (ip s)) inp
}.

(** Ending a run of literals: the tokens now cover the whole prefix. *)
Lemma end_run n s ts ls : cinv n s ts ls -> (lit s = 0 -> op s <= n) ->
  exists o ts' tail, store (out s) (op s - lit s - 1) [u8 (lit s - 1)] = Some o /\ o = encode ts' ++ tail /\ zlen o = n /\
    op s - notb (lit s) = zlen (encode ts') /\ tokens_ok 0 ts' /\ tokens_len ts' = ip s /\ expand [] ts' = take (Z.to_nat (ip s)) inp.
Proof.
  intros [Hip Hl Hmax Hop Hsz (tail & Eo & Htail) Hok Htl Hd] Hn. unfold notb in *. rewrite Hl in *. destruct (Z.eqb_spec (zlen ls) 0) as [E0|E0].
  - destruct ls; [|by autorewrite with zlen in E0; pose proof (zlen_nonneg ls); lia]. autorewrite with zlen in *. rewrite app_nil_r in Hd.
    specialize (Hn eq_refl). destruct tail as [|x tail]; [rewrite Eo, app_nil_r in Hsz; lia|]. exists (encode ts ++ u8 (0 - 1) :: tail), ts, (u8 (0 - 1) :: tail).
    split; [rewrite Eo; apply store1_app; lia|]. split; [done|]. rewrite Eo in Hsz. autorewrite with zlen in *. repeat split; try done; lia.
  - assert (Hne : ls <> []) by (by intros ->). destruct (Htail Hne) as (hole & rest & ->). pose proof (zlen_nonneg ls).
    exists (encode ts ++ u8 (zlen ls - 1) :: ls ++ rest), (ts ++ [Lit ls]), rest. split; [rewrite Eo; apply store1_app; lia|].
    rewrite encode_app, encode_one, expand_app, tokens_ok_app, tokens_len_app. cbn [encode_token tokens_ok token_ok expand foldl expand_token token_len tokens_len].
    rewrite wrapu_small by lia. rewrite Eo in Hsz. autorewrite with zlen in *.
    assert (Hb : bytes_ok (expand [] ts ++ ls)) by (rewrite Hd; auto with cmem). apply Forall_app in Hb as [_ Hb].
    split; [by rewrite <- app_assoc|]. repeat split; try done; lia.
Qed.

Lemma put_literal_spec n s ts ls : cinv n s ts ls -> ip s < zlen inp -> op s < n ->
  exists s' ts' ls', put_literal inp s = Some s' /\ cinv n s' ts' ls' /\ ip s' = ip s + 1 /\
    op s' = op s + (if lit s + 1 =? 32 then 2 else 1) /\ lit s' = (if lit s + 1 =? 32 then 0 else lit s + 1).
Proof.
  intros Hc Hi Ho. destruct Hc as [Hip Hl Hmax Hop Hsz (tail & Eo & Htail) Hok Htl Hd]. pose proof (zlen_nonneg ls).
  assert (Et : exists hole x rest, tail = hole :: ls ++ x :: rest).
  { rewrite Eo in Hsz. rewrite zlen_app in Hsz. destruct ls as [|l0 ls].
    - destruct tail as [|hole [|x rest]]; [autorewrite with zlen in *; lia|autorewrite with zlen in *; lia|]. by exists hole, x, rest.
    - destruct Htail as (hole & rest & ->); [done|]. destruct rest as [|x rest]; [autorewrite with zlen in *; lia|]. by exists hole, x, rest. }
  destruct Et as (hole & x & rest & ->). unfold put_literal. destruct (load1_some inp (ip s)) as [b Hb]; [lia|]. rewrite Hb. cbn [mbind option_bind].
  rewrite Eo. change (encode ts ++ hole :: ls ++ x :: rest) with (encode ts ++ [hole] ++ ls ++ x :: rest). rewrite !app_assoc.
  rewrite store1_app by (rewrite Hop; autorewrite with zlen; lia). cbn [mbind option_bind]. change MAX_LIT with 32.
  assert (Htk : take (Z.to_nat (ip s + 1)) inp = take (Z.to_nat (ip s)) inp ++ [b]).
  { replace (Z.to_nat (ip s + 1)) with (S (Z.to_nat (ip s))) by lia. apply take_S_r. unfold load1 in Hb. by destruct (Z.leb_spec 0 (ip s)); [|lia]. }
  rewrite Eo in Hsz.
  destruct (Z.eqb_spec (lit s + 1) 32) as [E|E].
  - rewrite <- !app_assoc. cbn [app]. rewrite store1_app by (rewrite Hop; autorewrite with zlen; lia). cbn [mbind option_bind].
    eexists _, (ts ++ [Lit (ls ++ [b])]), []. split; [done|]. split; [|cbn; rewrite Hl in *; repeat split; lia].
    assert (Hbb : bytes_ok (ls ++ [b])).
    { apply bytes_ok_app; [|constructor; [by eapply load1_byte|constructor]].
      assert (Hb' : bytes_ok (expand [] ts ++ ls)) by (rewrite Hd; auto with cmem). by apply Forall_app in Hb' as [_ ?]. }
    constructor; cbn [ip op lit out]; rewrite ?encode_app, ?encode_one, ?tokens_len_app, ?expand_app, ?tokens_ok_app; cbn [encode_token tokens_ok token_ok expand foldl expand_token token_len tokens_len];
      autorewrite with zlen in *; try lia; try done.
    + exists rest. split; [|done]. rewrite <- !app_assoc. cbn [app]. rewrite wrapu_small by lia. rewrite Hl. by replace (zlen ls + (1 + 0) - 1) with (zlen ls + 1 - 1) by lia; rewrite <- app_assoc.
    + repeat split; try done; lia.
    + by rewrite app_nil_r, app_assoc, Hd, Htk.
  - eexists _, ts, (ls ++ [b]). split; [done|]. split; [|done].
    constructor; cbn [ip op lit out]; autorewrite with zlen in *; try lia; try done.
    + exists (hole :: (ls ++ [b]) ++ rest). split; [by rewrite <- !app_assoc|]. eauto.
    + by rewrite app_assoc, Hd, Htk.
Qed.

(** *** Matches *)
Definition agree (r i len : Z) : Prop := forall k, 0 <= k < len -> inp.[r + k] = inp.[i + k].

Lemma agree_snoc r i len b : agree r i len -> inp.[r + len] = Some b -> inp.[i + len] = Some b -> agree r i (len + 1).
Proof. intros Ha H1 H2 k Hk. destruct (Z.eq_dec k len) as [->|]; [congruence|]. apply Ha. lia. Qed.

Lemma is_match_spec i r : 0 <= i < zlen inp - 2 -> 0 <= r < 2 ^ 32 ->
  exists b, is_match inp i r = Some b /\ (b = true -> 0 < r < i /\ i - r <= 8192 /\ agree r i 3).
Proof.
  intros Hi Hr. unfold is_match. change MAX_OFF with 8192. destruct (Z.ltb_spec (u64 (i - r - 1)) 8192) as [Ho|_]; [|by exists false]. cbn [negb].
  rewrite Z.gtb_ltb. destruct (Z.ltb_spec 0 r); [|by exists false]. cbn [negb].
  assert (Hri : r < i /\ i - r <= 8192).
  { destruct (Z.le_gt_cases 0 (i - r - 1)).
    - rewrite wrapu_small in Ho by lia. lia.
    - assert (E : u64 (i - r - 1) = i - r - 1 + 2 ^ 64); [|lia]. unfold wrapu. symmetry. apply (Z.mod_unique _ _ (-1)); lia. }
  destruct (load1_some inp (r + 2)) as [a Ha]; [lia|]. destruct (load1_some inp (i + 2)) as [c Hc]; [lia|]. rewrite Ha, Hc. cbn [mbind option_bind].
  destruct (Z.eqb_spec a c) as [->|]; [|by exists false]. cbn [negb].
  destruct (load_in inp r 2) as [x Hx]; [lia..|]. destruct (load_in inp i 2) as [y Hy]; [lia..|]. rewrite Hx, Hy. cbn [mbind option_bind].
  eexists. split; [done|]. intros Eb. apply bool_decide_eq_true in Eb. subst y. split; [lia|]. split; [lia|].
  assert (Hb : forall j w, load inp j 2 = Some w -> 0 <= j -> forall k, 0 <= k < 2 -> inp.[j + k] = w !! Z.to_nat k).
  { intros j w Hw Hj k Hk. unfold load in Hw. destruct (_ && _); [|done]. injection Hw as <-. unfold load1. destruct (Z.leb_spec 0 (j + k)); [|lia].
    rewrite lookup_take_lt, lookup_drop by lia. f_equal. lia. }
  intros k Hk. destruct (Z.eq_dec k 2) as [->|]; [congruence|]. rewrite (Hb r x) by (done || lia). rewrite (Hb i x) by (done || lia). done.
Qed.

Lemma unrolled_spec r i n : forall len, 0 < r < i -> 0 <= len -> agree r i (len + 1) -> i + len + Z.of_nat n < zlen inp ->
  exists len' broke, unrolled inp n r i len = Some (len', broke) /\ len <= len' <= len + Z.of_nat n /\
    if broke then len < len' /\ agree r i len' else len' = len + Z.of_nat n /\ agree r i (len' + 1).
Proof.
  induction n as [|n IH]; intros len Hr Hl Ha Hi; cbn [unrolled].
  - exists len, false. split; [done|]. split; [lia|]. split; [lia|]. by rewrite Z.add_0_r in *.
  - destruct (load1_some inp (r + (len + 1))) as [a Hra]; [lia|]. destruct (load1_some inp (i + (len + 1))) as [b Hib]; [lia|]. rewrite Hra, Hib. cbn [mbind option_bind].
    destruct (Z.eqb_spec a b) as [->|]; cbn [negb].
    + destruct (IH (len + 1)) as (len' & broke & -> & Hl' & Hb); [done|lia|by eapply agree_snoc|lia|]. exists len', broke. split; [done|]. split; [lia|].
      destruct broke; [|]; (split; [lia|apply Hb]).
    + exists (len + 1), true. split; [done|]. split; [lia|]. split; [lia|done].
Qed.
Lemma extend_spec r i maxlen fuel : forall len, 0 < r < i -> 0 <= len -> agree r i (len + 1) -> i + maxlen < zlen inp -> maxlen - len < Z.of_nat fuel -> 0 < Z.of_nat fuel ->
  exists len', extend inp fuel r i maxlen len = Some len' /\ len + 1 <= len' <= Z.max (len + 1) maxlen /\ agree r i len'.
Proof.
  induction fuel as [|fuel IH]; intros len Hr Hl Ha Hi Hf Hf0; [lia|]. cbn [extend]. destruct (Z.ltb_spec (len + 1) maxlen).
  - destruct (load1_some inp (r + (len + 1))) as [a Hra]; [lia|]. destruct (load1_some inp (i + (len + 1))) as [b Hib]; [lia|]. rewrite Hra, Hib. cbn [mbind option_bind].
    destruct (Z.eqb_spec a b) as [->|].
    + destruct (IH (len + 1)) as (len' & -> & Hl' & Ha'); [done|lia|by eapply agree_snoc|lia|lia|lia|]. exists len'. split; [done|]. split; [lia|done].
    + exists (len + 1). split; [done|]. split; [lia|done].
  - exists (len + 1). split; [done|]. split; [lia|done].
Qed.
Lemma match_len_spec r i : 0 < r < i -> i < zlen inp - 2 -> agree r i 3 ->
  exists len, match_len inp r i = Some len /\ 3 <= len <= 264 /\ i + len <= zlen inp /\ agree r i len.
Proof.
  intros Hr Hi Ha. unfold match_len. rewrite wrapu_small by lia. change MAX_REF with 264. rewrite Z.gtb_ltb.
  set (maxlen := if 264 <? zlen inp - i - 2 then 264 else zlen inp - i - 2).
  assert (Hm : maxlen <= 264 /\ 1 <= maxlen <= zlen inp - i - 2) by (unfold maxlen; destruct (Z.ltb_spec 264 (zlen inp - i - 2)); lia).
  rewrite Z.gtb_ltb. destruct (Z.ltb_spec 16 maxlen).
  - destruct (unrolled_spec r i 16 2 Hr) as (len & broke & -> & Hl & Hb); [lia|done|lia|]. cbn [mbind option_bind]. destruct broke; [exists len; split; [done|split; [lia|split; [lia|apply Hb]]]|].
    destruct Hb as [-> Hb]. destruct (extend_spec r i maxlen (Z.to_nat 264 + 3) (2 + Z.of_nat 16) Hr) as (len' & -> & Hl' & Ha'); [lia|done|lia|lia|lia|]. exists len'. split; [done|]. split; [lia|]. split; [lia|done].
  - cbn [mbind option_bind]. destruct (extend_spec r i maxlen (Z.to_nat 264 + 3) 2 Hr) as (len' & -> & Hl' & Ha'); [lia|done|lia|lia|lia|]. exists len'. split; [done|]. split; [lia|]. split; [lia|done].
Qed.

(** A match is a back reference. *)
Lemma repeat_back_match r i n : 0 <= r < i -> i + Z.of_nat n <= zlen inp -> agree r i (Z.of_nat n) ->
  repeat_back n (i - r) (take (Z.to_nat i) inp) = take (Z.to_nat (i + Z.of_nat n)) inp.
Proof.
  revert r i. induction n as [|n IH]; intros r i Hr Hi Ha; cbn [repeat_back]; [by rewrite Z.add_0_r|].
  rewrite zlen_take by lia. replace (i - (i - r)) with r by lia.
  assert (E : take (Z.to_nat i) inp ++ [default 0 (take (Z.to_nat i) inp).[r]] = take (Z.to_nat (i + 1)) inp).
  { replace (Z.to_nat (i + 1)) with (S (Z.to_nat i)) by lia. symmetry. destruct (load1_some inp i) as [b Hb]; [lia|].
    pose proof (Ha 0 ltac:(lia)) as Ha0. rewrite !Z.add_0_r in Ha0. rewrite Hb in Ha0. unfold load1 in *. destruct (Z.leb_spec 0 r); [|lia]. destruct (Z.leb_spec 0 i); [|lia].
    rewrite lookup_take_lt by lia. rewrite Ha0. by apply take_S_r. }
  rewrite E. replace (i - r) with (i + 1 - (r + 1)) by lia. rewrite IH; [f_equal; lia|lia|lia|].
  intros k Hk. replace (r + 1 + k) with (r + (k + 1)) by lia. replace (i + 1 + k) with (i + (k + 1)) by lia. apply Ha. lia.
Qed.

(** Writing a back reference at the end of the tokens. *)
Lemma write_ref o tail p dist len :
  p = zlen o -> 3 <= zlen tail -> 1 <= dist <= 8192 -> 3 <= len <= 264 ->
  exists tail' p', ('(o', q) ← (if len - 2 <? 7 then o1 ← store (o ++ tail) p [u8 (Z.shiftr (dist - 1) 8 + Z.shiftl (len - 2) 5)]; Some (o1, p + 1)
                else o1 ← store (o ++ tail) p [u8 (Z.shiftr (dist - 1) 8 + Z.shiftl 7 5)];
                     o1 ← store o1 (p + 1) [u8 (len - 2 - 7)]; Some (o1, p + 2));
      o' ← store o' q [u8 (dist - 1)]; Some (o', q)) = Some ((o ++ encode_token (Ref dist len)) ++ tail', p') /\
    p' + 1 = zlen (o ++ encode_token (Ref dist len)) /\ zlen (encode_token (Ref dist len)) + zlen tail' = zlen tail.
Proof.
  intros -> Ht Hd Hl. assert (Ha : 0 <= (dist - 1) / 256 < 32) by (split; [apply Z.div_pos; lia|apply Z.div_lt_upper_bound; lia]).
  destruct tail as [|x [|y [|z tail]]]; try (autorewrite with zlen in Ht; lia). rewrite Z.shiftr_div_pow2, !Z.shiftl_mul_pow2 by lia. change (2 ^ 8) with 256. change (2 ^ 5) with 32.
  unfold encode_token. destruct (Z.ltb_spec (len - 2) 7).
  - rewrite store1_app by done. cbn [mbind option_bind]. change (o ++ ?a :: y :: z :: tail) with (o ++ [a] ++ y :: z :: tail). rewrite app_assoc.
    rewrite store1_app by (autorewrite with zlen; lia). cbn [mbind option_bind]. rewrite wrapu_small by lia. replace (u8 (dist - 1)) with ((dist - 1) mod 256) by done.
    exists (z :: tail), (zlen o + 1). split; [|split; autorewrite with zlen; lia]. rewrite <- !app_assoc. cbn [app]. by rewrite (Z.mul_comm (len - 2)).
  - rewrite store1_app by done. cbn [mbind option_bind]. change (o ++ ?a :: y :: z :: tail) with (o ++ [a] ++ y :: z :: tail). rewrite app_assoc.
    rewrite store1_app by (autorewrite with zlen; lia). cbn [mbind option_bind]. change ((o ++ ?a) ++ ?b :: z :: tail) with ((o ++ a) ++ [b] ++ z :: tail). rewrite (app_assoc (o ++ _)).
    rewrite store1_app by (autorewrite with zlen; lia). cbn [mbind option_bind]. replace (u8 (dist - 1)) with ((dist - 1) mod 256) by done. rewrite !wrapu_small by lia.
    exists tail, (zlen o + 2). split; [|split; autorewrite with zlen; lia]. rewrite <- !app_assoc. done.
Qed.

Lemma next_some h p : 0 <= p < zlen inp - 2 -> exists c, NEXT inp h p = Some c.
Proof. intros Hp. unfold NEXT. destruct (load1_some inp (p + 2)) as [c ->]; [lia|]. cbn [mbind option_bind]. eauto. Qed.
Lemma frst_some p : 0 <= p < zlen inp - 1 -> exists c, FRST inp p = Some c.
Proof. intros Hp. unfold FRST. destruct (load1_some inp p) as [a ->]; [lia|]. destruct (load1_some inp (p + 1)) as [b ->]; [lia|]. cbn [mbind option_bind]. eauto. Qed.

(** What a turn leaves. *)
Definition progress (n : Z) (s : lzf) (t : turn) : Prop :=
  match t with
  | Return0 o => zlen o = n
  | Break s' => (exists ts ls, cinv n s' ts ls) /\ ip s < ip s' /\ zlen inp - 2 <= ip s'
  | Next s' => (exists ts ls, cinv n s' ts ls) /\ ip s < ip s'
  end.

Lemma emit_match_spec n s ts ls r : cinv n s ts ls -> ip s < zlen inp - 2 -> 0 < r < ip s -> ip s - r <= 8192 -> agree r (ip s) 3 ->
  exists t, emit_match inp s r (ip s - r - 1) = Some t /\ progress n s t.
Proof.
  intros Hc Hi Hr Hd Ha. unfold emit_match. rewrite (ci_size _ _ _ _ Hc), !Z.geb_leb.
  destruct ((n <=? op s + 3 + 1) && (n <=? op s - notb (lit s) + 3 + 1)) eqn:E; [eexists; split; [done|]; apply Hc|].
  assert (Hn : op s - notb (lit s) + 4 < n) by (assert (0 <= notb (lit s)) by (unfold notb; destruct (lit s =? 0); lia); apply andb_false_iff in E as [E|E]; apply Z.leb_gt in E; lia). clear E.
  destruct (end_run n s ts ls Hc) as (o & ts' & tail & -> & Eo & Hzo & Hop & Hok & Htl & Hex); [unfold notb in Hn; intros E; rewrite E in Hn; cbn in Hn; lia|]. cbn [mbind option_bind].
  destruct (match_len_spec r (ip s) Hr Hi Ha) as (len & -> & Hl & Hil & Hag). cbn [mbind option_bind]. rewrite Hop.
  destruct (write_ref (encode ts') tail (zlen (encode ts')) (ip s - r) len) as (tail' & q & Ew & Hq & Hz2); [done|subst o; rewrite zlen_app in Hzo; lia|lia|done|]. subst o.
  set (W := if len - 2 <? 7 then _ else _) in *. destruct W as [[o1 q1]|]; [|done]. cbn [mbind option_bind] in *.
  destruct (store o1 q1 _) as [o2|] eqn:E2; [|done]. cbn [mbind option_bind] in *. injection Ew as -> ->.
  set (s' := mk_lzf (ip s + 1 + (len - 2 + 1)) (q + 2) 0 (hval s) (htab s) ((encode ts' ++ encode_token (Ref (ip s - r) len)) ++ tail')).
  assert (Hc' : forall h t i, i = ip s' -> cinv n (mk_lzf i (q + 2) 0 h t (out s')) (ts' ++ [Ref (ip s - r) len]) []).
  { intros h t i ->. unfold s'. cbn [ip op lit out]. constructor; cbn [ip op lit out]; rewrite ?encode_app, ?encode_one, ?tokens_len_app, ?expand_app, ?tokens_ok_app;
      cbn [tokens_ok token_ok expand foldl expand_token token_len tokens_len]; autorewrite with zlen in *; try lia; try done.
    - exists tail'. split; [done|]. done.
    - split; [done|]. split; [|done]. split; lia.
    - rewrite Hex, app_nil_r. replace (Z.to_nat len) with (Z.to_nat (Z.of_nat (Z.to_nat len))) by lia.
      rewrite Nat2Z.id, repeat_back_match; [f_equal; lia|lia|lia|by replace (Z.of_nat (Z.to_nat len)) with len by lia]. }
  rewrite Z.geb_leb. destruct (Z.leb_spec (zlen inp - 2) (ip s + 1 + (len - 2 + 1))).
  - eexists. split; [done|]. cbn [progress ip]. split; [eexists _, []; by apply Hc'|lia].
  - destruct (frst_some (ip s + 1 + (len - 2 + 1) - 2)) as [h1 ->]; [lia|]. cbn [mbind option_bind].
    destruct (next_some h1 (ip s + 1 + (len - 2 + 1) - 2)) as [h2 ->]; [lia|]. cbn [mbind option_bind].
    destruct (next_some h2 (ip s + 1 + (len - 2 + 1) - 2 + 1)) as [h3 ->]; [lia|]. cbn [mbind option_bind].
    eexists. split; [done|]. cbn [progress ip]. split; [|lia]. eexists _, []. apply (Hc' _ _ _). cbn. lia.
Qed.

Lemma compress_turn_spec n s ts ls : cinv n s ts ls -> ip s < zlen inp - 2 -> exists t, compress_turn junk inp s = Some t /\ progress n s t.
Proof.
  intros Hc Hi. pose proof (ci_ip _ _ _ _ Hc). unfold compress_turn. destruct (next_some (hval s) (ip s)) as [h ->]; [lia|]. cbn [mbind option_bind].
  set (s1 := mk_lzf _ _ _ _ _ _). assert (Hc1 : cinv n s1 ts ls) by (destruct Hc; by constructor).
  destruct (is_match_spec (ip s) (slot junk (htab s) (IDX h))) as (b & E & Hb); [lia|apply wrapu_range; lia|]. change (ip s1) with (ip s). rewrite E. cbn [mbind option_bind].
  destruct b; [destruct (Hb eq_refl) as (Hr & Hd & Ha); by apply (emit_match_spec n s1 ts ls)|].
  rewrite Z.geb_leb, (ci_size _ _ _ _ Hc1). destruct (Z.leb_spec n (op s1)); [eexists; split; [done|]; apply Hc1|].
  destruct (put_literal_spec n s1 ts ls Hc1) as (s2 & ts2 & ls2 & -> & Hc2 & Hip & _); [cbn; lia|done|]. cbn [mbind option_bind].
  eexists. split; [done|]. cbn [progress]. split; [eauto|]. rewrite Hip. cbn. lia.
Qed.

Lemma compress_loop_spec n fuel : forall s ts ls, cinv n s ts ls -> zlen inp - ip s <= Z.of_nat fuel ->
  exists r, compress_loop junk inp fuel s = Some r /\ match r with inl o => zlen o = n | inr s' => (exists ts ls, cinv n s' ts ls) /\ zlen inp - 2 <= ip s' end.
Proof.
  induction fuel as [|fuel IH]; intros s ts ls Hc Hf; cbn [compress_loop]; pose proof (ci_ip _ _ _ _ Hc).
  - destruct (Z.ltb_spec (ip s) (zlen inp - 2)); [lia|]. eexists. split; [done|]. split; [eauto|lia].
  - destruct (Z.ltb_spec (ip s) (zlen inp - 2)) as [Hi|Hi]; [|eexists; split; [done|]; split; [eauto|lia]].
    destruct (compress_turn_spec n s ts ls Hc Hi) as (t & -> & Hp). cbn [mbind option_bind]. destruct t as [o|s'|s']; cbn [progress] in Hp.
    + by eexists.
    + eexists. split; [done|]. tauto.
    + destruct Hp as ((ts' & ls' & Hc') & Hlt). apply (IH s' ts' ls' Hc'). lia.
Qed.

Lemma last_literals_spec n s ts ls : cinv n s ts ls -> zlen inp - 2 <= ip s -> op s + 3 <= n ->
  exists s' ts' ls', last_literals inp 2 s = Some s' /\ cinv n s' ts' ls' /\ ip s' = zlen inp /\ op s' <= n.
Proof.
  intros Hc Hi Ho. pose proof (ci_ip _ _ _ _ Hc). cbn [last_literals].
  destruct (Z.ltb_spec (ip s) (zlen inp)); [|exists s, ts, ls; split; [done|]; split; [done|]; split; lia].
  destruct (put_literal_spec n s ts ls Hc) as (s1 & ts1 & ls1 & -> & Hc1 & Hip1 & Hop1 & Hl1); [lia|lia|]. cbn [mbind option_bind].
  destruct (Z.ltb_spec (ip s1) (zlen inp)).
  - assert (Ho1 : op s1 < n) by (rewrite Hop1; destruct (lit s + 1 =? 32); lia).
    destruct (put_literal_spec n s1 ts1 ls1 Hc1) as (s2 & ts2 & ls2 & -> & Hc2 & Hip2 & Hop2 & Hl2); [lia|lia|]. cbn [mbind option_bind].
    destruct (Z.ltb_spec (ip s2) (zlen inp)); [lia|]. exists s2, ts2, ls2. split; [done|]. split; [done|]. split; [lia|].
    rewrite Hop2, Hop1, Hl1. destruct (Z.eqb_spec (lit s + 1) 32); [change (0 + 1 =? 32) with false; cbn iota; lia|]. destruct (Z.eqb_spec (lit s + 1 + 1) 32); lia.
  - exists s1, ts1, ls1. split; [done|]. split; [done|]. split; [lia|]. rewrite Hop1. destruct (Z.eqb_spec (lit s + 1) 32); lia.
Qed.

Lemma compress_spec out0 : exists n o, lzf_compress junk inp out0 = Some (n, o) /\ zlen o = zlen out0 /\ 0 <= n <= zlen out0 /\
  (0 < n -> exists ts, take (Z.to_nat n) o = encode ts /\ ts <> [] /\ tokens_ok 0 ts /\ tokens_len ts = zlen inp /\ expand [] ts = inp).
Proof.
  unfold lzf_compress. pose proof (zlen_nonneg out0). destruct (Z.eqb_spec (zlen inp) 0); [lia|]. destruct (Z.eqb_spec (zlen out0) 0) as [E0|]; cbn [orb]; [exists 0, out0; repeat split; lia|].
  destruct (frst_some 0) as [h ->]; [lia|]. cbn [mbind option_bind].
  assert (Hc : cinv (zlen out0) (mk_lzf 0 1 0 h ∅ out0) [] []) by (constructor; cbn; rewrite ?zlen_nil; try lia; try done; exists out0; by split).
  destruct (compress_loop_spec (zlen out0) (length inp) _ _ _ Hc) as ([o|s] & -> & Hr); [cbn; unfold zlen; lia| |]; cbn [mbind option_bind].
  - exists 0, o. repeat split; try lia.
  - destruct Hr as ((ts & ls & Hc') & Hi). rewrite Z.gtb_ltb, (ci_size _ _ _ _ Hc'). destruct (Z.ltb_spec (zlen out0) (op s + 3)).
    + exists 0, (out s). pose proof (ci_size _ _ _ _ Hc'). repeat split; lia.
    + destruct (last_literals_spec (zlen out0) s ts ls Hc' Hi) as (s' & ts' & ls' & -> & Hc2 & Hip & Hop); [lia|]. cbn [mbind option_bind].
      destruct (end_run _ _ _ _ Hc2 (fun _ => Hop)) as (o & us & tail & -> & Eo & Hz & Hn & Hok & Htl & Hex). cbn [mbind option_bind]. exists (op s' - notb (lit s')), o.
      rewrite Hn. pose proof (zlen_nonneg (encode us)). pose proof (zlen_nonneg tail). split; [done|]. split; [done|]. split; [rewrite <- Hz, Eo, zlen_app; lia|]. intros Hpos. exists us. subst o. rewrite Hip in *.
      replace (Z.to_nat (zlen (encode us))) with (length (encode us)) by (unfold zlen; lia). rewrite take_app_length. split; [done|].
      split; [intros ->; cbn in Htl; lia|]. split; [done|]. split; [done|]. rewrite Hex. apply take_ge. unfold zlen. lia.
Qed.
End CompressSpec.

(** C14: LZF round trip.  For every input of at least two bytes, every
    content of the uninitialised hash table and every output buffer,
    lzf_compress returns without accessing memory outside the input and the
    output; when it does not give up (a non-zero length), lzf_decompress of
    the bytes it wrote, into any buffer large enough, returns the length of
    the input and the input itself, leaving the rest of the buffer alone. *)
Theorem lzf_roundtrip (junk : Z -> Z) (inp out0 : list Z)
    (Hb : bytes_ok inp) (Hl : 2 <= zlen inp < 2 ^ 32) :
  exists n o, lzf_compress junk inp out0 = Some (n, o) /\ zlen o = zlen out0 /\ 0 <= n <= zlen out0 /\
    (0 < n -> forall buf, zlen inp <= zlen buf ->
       lzf_decompress (take (Z.to_nat n) o) buf = Some (inr (zlen inp, inp ++ drop (length inp) buf))).
Proof.
  destruct (compress_spec junk inp Hb Hl out0) as (n & o & E & Ho & Hn & Hdec). exists n, o. split; [done|]. split; [done|]. split; [done|].
  intros Hpos buf Hbuf. destruct (Hdec Hpos) as (ts & -> & Hne & Hok & Htl & Hex). rewrite decompress_spec by (done || lia).
  rewrite Htl, Hex. by replace (Z.to_nat (zlen inp)) with (length inp) by (unfold zlen; lia).
Qed.

(** C26: lzf_decompress is safe on every input, corrupted or not: it
    terminates, never accesses memory outside its two buffers, and returns
    an error or the number of bytes it wrote. *)
Theorem lzf_decompress_safe (inp buf : list Z) (Hb : bytes_ok inp) (Hne : 0 < zlen inp) :
  exists r, lzf_decompress inp buf = Some r /\
    match r with inl _ => True | inr (n, o) => 0 <= n <= zlen buf /\ zlen o = zlen buf end.
Proof.
  destruct (decompress_loop_safe inp Hb (length inp) 0 0 buf) as (r & E & Hr); [lia|pose proof (zlen_nonneg buf); lia|unfold zlen; lia|].
  exists r. split; [done|]. destruct r as [|[n o]]; [done|]. lia.
Qed.

Lemma lzf_roundtrip_witness :
  exists n o, lzf_compress (fun i => i * 7919) (repeat 97 40) (repeat 0 36) = Some (n, o) /\ n = 9 /\
    lzf_decompress (take (Z.to_nat n) o) (repeat 0 42) = Some (inr (40, repeat 97 40 ++ [0; 0])).
Proof.
  assert (Hb : bytes_ok (repeat 97 40)) by (repeat constructor; unfold byte_ok; lia).
  destruct (lzf_roundtrip (fun i => i * 7919) (repeat 97 40) (repeat 0 36) Hb ltac:(split; vm_compute; [intros ?; discriminate|reflexivity])) as (n & o & E & _ & Hn & Hd). exists n, o. split; [exact E|].
  assert (En : n = 9) by (assert (E2 : fst <$> lzf_compress (fun i => i * 7919) (repeat 97 40) (repeat 0 36) = Some 9) by (vm_compute; reflexivity); rewrite E in E2; injection E2 as E2; exact E2).
  split; [exact En|]. apply (Hd ltac:(lia) (repeat 0 42)). vm_compute. intros ?. discriminate.
Defined.
Lemma lzf_decompress_safe_witness :
  exists r, lzf_decompress [255; 255; 255; 0] (repeat 0 300) = Some r /\ r = inl EINVAL.
Proof.
  destruct (lzf_decompress_safe [255; 255; 255; 0] (repeat 0 300)) as (r & E & _); [repeat constructor; unfold byte_ok; lia|reflexivity|]. exists r. split; [exact E|].
  assert (E2 : lzf_decompress [255; 255; 255; 0] (repeat 0 300) = Some (inl EINVAL)) by (vm_compute; reflexivity). rewrite E in E2. injection E2 as E2. exact E2.
Defined.
