(* ===== verification/Crc.v ===== *)
(** * crc64.c, crcspeed.c, crc16.c: checksums

    The checksum of RDB streams ([crc64]: table driven, eight bytes at a time)
    against the bit-by-bit definition the tables are generated from, and the
    checksum that places keys in cluster slots ([crc16], [keyHashSlot] of
    cluster.c).  The host byte order is the parameter [be]; the alignment of
    the buffer is an argument. *)
From S2P Require Import Prelude Endian.
#[local] Open Scope cmem_scope.

Definition POLY : Z := 0xad93d23594c935a9.

(** ** crc64.c, bit by bit *)
Fixpoint reflect_loop (n : nat) (data ret : Z) : Z :=
  match n with
  | O => ret
  | S n => let data := Z.shiftr data 1 in reflect_loop n data (Z.lor (u64 (Z.shiftl ret 1)) (Z.land data 1))
  end.
Definition crc_reflect (data : Z) (data_len : nat) : Z := reflect_loop (data_len - 1) data (Z.land data 1).

(** The body of the inner loop, for the mask [i]. *)
Definition crc_bit (c crc i : Z) : Z :=
  let bit := Z.land crc 0x8000000000000000 in
  let bit := if negb (Z.land c i =? 0) then (if bit =? 0 then 1 else 0) else bit in
  let crc := u64 (Z.shiftl crc 1) in
  if negb (bit =? 0) then Z.lxor crc POLY else crc.
(** [for (i = 0x01; i & 0xff; i <<= 1)] *)
Definition masks : list Z := [1; 2; 4; 8; 16; 32; 64; 128].
Definition crc_octet (crc c : Z) : Z := Z.land (foldl (crc_bit c) crc masks) 0xffffffffffffffff.
Definition _crc64 (crc : Z) (data : list Z) : Z :=
  let crc := Z.land (foldl crc_octet crc data) 0xffffffffffffffff in
  Z.lxor (crc_reflect crc 64) 0.

(** ** crcspeed.c: the tables *)
Abbreviation table := (list (list Z)).
(** [table[k][n]] *)
Definition tab (t : table) (k : nat) (n : Z) : option Z := row ← t !! k; row.[n].

Definition numbers (n : nat) : list Z := map Z.of_nat (seq 0 n).

Section Host.
  Context (be : bool).

(** [crcfn(0, &n, 1)]: the checksum of the first byte of the [int] [n]. *)
Definition first_byte (n : Z) : option (list Z) := load (native_bytes be 4 n) 0 1.
Fixpoint nested (n : nat) (t0 : list Z) (crc : Z) : option (list Z) :=
  match n with
  | O => Some []
  | S n =>
      x ← t0.[Z.land crc 0xff];
      let crc := Z.lxor x (Z.shiftr crc 8) in
      rest ← nested n t0 crc;
      Some (crc :: rest)
  end.
Definition crcspeed64little_init (crcfn : Z -> list Z -> Z) : option table :=
  t0 ← mapM (fun n => b ← first_byte n; Some (crcfn 0 b)) (numbers 256);
  cols ← mapM (nested 7 t0) t0;
  Some (t0 :: map (fun k => omap (fun col => col !! k) cols) (seq 0 7)).

(** [rev8]: the bytes of a 64-bit word reversed. *)
Definition rev8 (a : Z) : Z := le_val (rev (le_bytes 8 a)).
Definition crcspeed64big_init (crcfn : Z -> list Z -> Z) : option table :=
  t ← crcspeed64little_init crcfn; Some (map (map rev8) t).
Definition crcspeed64native_init (crcfn : Z -> list Z -> Z) : option table :=
  if be then crcspeed64big_init crcfn else crcspeed64little_init crcfn.

(** ** crcspeed.c: the checksum *)
(** [table[k0][..] ^ table[k1][..] ^ ...] *)
Fixpoint xor_tabs (t : table) (l : list (nat * Z)) : option Z :=
  match l with
  | [] => Some 0
  | (k, n) :: l => x ← tab t k n; y ← xor_tabs t l; Some (Z.lxor x y)
  end.
Definition octet_at (crc : Z) (shift : Z) : Z := Z.land (Z.shiftr crc shift) 0xff.

Definition little_byte (t : table) (crc b : Z) : option Z :=
  x ← tab t 0 (Z.land (Z.lxor crc b) 0xff); Some (Z.lxor x (Z.shiftr crc 8)).
Definition little_word (t : table) (crc w : Z) : option Z :=
  let crc := Z.lxor crc w in
  xor_tabs t [(7%nat, Z.land crc 0xff); (6%nat, octet_at crc 8); (5%nat, octet_at crc 16); (4%nat, octet_at crc 24);
              (3%nat, octet_at crc 32); (2%nat, octet_at crc 40); (1%nat, octet_at crc 48); (0%nat, Z.shiftr crc 56)].
Definition big_byte (t : table) (crc b : Z) : option Z :=
  x ← tab t 0 (Z.lxor (Z.shiftr crc 56) b); Some (Z.lxor x (u64 (Z.shiftl crc 8))).
Definition big_word (t : table) (crc w : Z) : option Z :=
  let crc := Z.lxor crc w in
  xor_tabs t [(0%nat, Z.land crc 0xff); (1%nat, octet_at crc 8); (2%nat, octet_at crc 16); (3%nat, octet_at crc 24);
              (4%nat, octet_at crc 32); (5%nat, octet_at crc 40); (6%nat, octet_at crc 48); (7%nat, Z.shiftr crc 56)].

Section Loops.
  Context (byte_step word_step : table -> Z -> Z -> option Z) (t : table).
(** [while (len && ((uintptr_t)next & 7) != 0)]: the remaining bytes. *)
Fixpoint align_loop (addr : Z) (crc : Z) (buf : list Z) : option (Z * list Z) :=
  match buf with
  | [] => Some (crc, [])
  | b :: rest => if negb (Z.land addr 7 =? 0) then crc ← byte_step t crc b; align_loop (addr + 1) crc rest else Some (crc, buf)
  end.
Fixpoint word_loop (fuel : nat) (crc : Z) (buf : list Z) : option (Z * list Z) :=
  if zlen buf >=? 8 then
    match fuel with
    | O => None
    | S fuel => w ← load buf 0 8; crc ← word_step t crc (native_val be w); word_loop fuel crc (drop 8 buf)
    end
  else Some (crc, buf).
Fixpoint tail_loop (crc : Z) (buf : list Z) : option Z :=
  match buf with
  | [] => Some crc
  | b :: buf => crc ← byte_step t crc b; tail_loop crc buf
  end.
Definition crcspeed_run (addr crc : Z) (buf : list Z) : option Z :=
  '(crc, buf) ← align_loop addr crc buf;
  '(crc, buf) ← word_loop (length buf) crc buf;
  tail_loop crc buf.
End Loops.

Definition crcspeed64little (t : table) (addr crc : Z) (buf : list Z) : option Z := crcspeed_run little_byte little_word t addr crc buf.
Definition crcspeed64big (t : table) (addr crc : Z) (buf : list Z) : option Z :=
  crc ← crcspeed_run big_byte big_word t addr (rev8 crc) buf; Some (rev8 crc).
Definition crcspeed64native (t : table) (addr crc : Z) (buf : list Z) : option Z :=
  if be then crcspeed64big t addr crc buf else crcspeed64little t addr crc buf.

Definition crc64_init : option table := crcspeed64native_init _crc64.
Definition crc64 (crc64_table : table) (addr crc : Z) (s : list Z) : option Z := crcspeed64native crc64_table addr crc s.
End Host.

(** ** crc16.c *)
Definition crc16tab : list Z :=
  [0; 4129; 8258; 12387; 16516; 20645; 24774; 28903; 33032; 37161; 41290; 45419; 49548; 53677; 57806; 61935;
   4657; 528; 12915; 8786; 21173; 17044; 29431; 25302; 37689; 33560; 45947; 41818; 54205; 50076; 62463; 58334;
   9314; 13379; 1056; 5121; 25830; 29895; 17572; 21637; 42346; 46411; 34088; 38153; 58862; 62927; 50604; 54669;
   13907; 9842; 5649; 1584; 30423; 26358; 22165; 18100; 46939; 42874; 38681; 34616; 63455; 59390; 55197; 51132;
   18628; 22757; 26758; 30887; 2112; 6241; 10242; 14371; 51660; 55789; 59790; 63919; 35144; 39273; 43274; 47403;
   23285; 19156; 31415; 27286; 6769; 2640; 14899; 10770; 56317; 52188; 64447; 60318; 39801; 35672; 47931; 43802;
   27814; 31879; 19684; 23749; 11298; 15363; 3168; 7233; 60846; 64911; 52716; 56781; 44330; 48395; 36200; 40265;
   32407; 28342; 24277; 20212; 15891; 11826; 7761; 3696; 65439; 61374; 57309; 53244; 48923; 44858; 40793; 36728;
   37256; 33193; 45514; 41451; 53516; 49453; 61774; 57711; 4224; 161; 12482; 8419; 20484; 16421; 28742; 24679;
   33721; 37784; 41979; 46042; 49981; 54044; 58239; 62302; 689; 4752; 8947; 13010; 16949; 21012; 25207; 29270;
   46570; 42443; 38312; 34185; 62830; 58703; 54572; 50445; 13538; 9411; 5280; 1153; 29798; 25671; 21540; 17413;
   42971; 47098; 34713; 38840; 59231; 63358; 50973; 55100; 9939; 14066; 1681; 5808; 26199; 30326; 17941; 22068;
   55628; 51565; 63758; 59695; 39368; 35305; 47498; 43435; 22596; 18533; 30726; 26663; 6336; 2273; 14466; 10403;
   52093; 56156; 60223; 64286; 35833; 39896; 43963; 48026; 19061; 23124; 27191; 31254; 2801; 6864; 10931; 14994;
   64814; 60687; 56684; 52557; 48554; 44427; 40424; 36297; 31782; 27655; 23652; 19525; 15522; 11395; 7392; 3265;
   61215; 65342; 53085; 57212; 44955; 49082; 36825; 40952; 28183; 32310; 20053; 24180; 11923; 16050; 3793; 7920].
Definition crc16_step (crc b : Z) : option Z :=
  x ← crc16tab.[Z.land (Z.lxor (Z.shiftr crc 8) (s8 b)) 0x00FF]; Some (Z.lxor (u16 (Z.shiftl crc 8)) x).
Fixpoint crc16_loop (crc : Z) (buf : list Z) : option Z :=
  match buf with
  | [] => Some crc
  | b :: buf => crc ← crc16_step crc b; crc16_loop crc buf
  end.
Definition crc16 (buf : list Z) : option Z := crc16_loop 0 buf.

(** ** cluster.c: hash slots *)
(** [for (s = from; s < keylen; s++) if (key[s] == c) break;] *)
Fixpoint find_char (c : Z) (key : list Z) (s : Z) : Z :=
  match key with
  | [] => s
  | b :: key => if b =? c then s else find_char c key (s + 1)
  end.
Definition keyHashSlot (key : list Z) : option Z :=
  let keylen := zlen key in
  let slot k := crc ← crc16 k; Some (Z.land crc 0x3FFF) in
  let s := find_char 123 key 0 in
  if s =? keylen then slot key
  else
    let e := find_char 125 (drop (Z.to_nat (s + 1)) key) (s + 1) in
    if (e =? keylen) || (e =? s + 1) then slot key
    else k ← load key (s + 1) (e - s - 1); slot k.

(** ** Exclusive or *)
(** Equalities of exclusive ors, bit by bit. *)
Ltac xor_bits :=
  apply Z.bits_inj'; intros ? ?; rewrite ?Z.lxor_spec, ?Z.bits_0;
  repeat match goal with |- context [Z.testbit ?x ?n] => destruct (Z.testbit x n) end; reflexivity.

Lemma split8 x : Z.lxor (Z.land x 255) (Z.shiftl (Z.shiftr x 8) 8) = x.
Proof.
  apply Z.bits_inj'. intros n Hn. rewrite Z.lxor_spec, Z.land_spec. change 255 with (Z.ones 8). rewrite Z.testbit_ones by lia.
  rewrite Z.shiftl_spec by lia. destruct (Z.ltb_spec n 8).
  - rewrite (Z.testbit_neg_r _ (n - 8)) by lia. destruct (Z.leb_spec 0 n); [|lia]. by destruct (Z.testbit x n).
  - rewrite Z.shiftr_spec by lia. replace (n - 8 + 8) with n by lia. rewrite andb_false_r, andb_false_r. by destruct (Z.testbit x n).
Qed.

(** ** The checksum as a shift register
    [rbit d c]: the register shifts right by one bit with the data bit [d]. *)
Definition RPOLY : Z := Eval vm_compute in crc_reflect POLY 64.
Definition feedback (b : bool) : Z := if b then RPOLY else 0.
Definition rbit (d : bool) (c : Z) : Z := Z.lxor (Z.shiftr c 1) (feedback (xorb (Z.testbit c 0) d)).
Fixpoint rshift (n : nat) (c : Z) : Z := match n with O => c | S n => rbit false (rshift n c) end.

(** The reference: one byte, any sequence of bytes. *)
Definition crc64_byte (crc b : Z) : Z := rshift 8 (Z.lxor crc b).
Definition crc64_ref (crc : Z) (data : list Z) : Z := foldl crc64_byte crc data.

Lemma rbit_xor x y : rbit false (Z.lxor x y) = Z.lxor (rbit false x) (rbit false y).
Proof.
  unfold rbit, feedback. rewrite Z.shiftr_lxor, Z.lxor_spec, !xorb_false_r. destruct (Z.testbit x 0), (Z.testbit y 0); cbn [xorb]; xor_bits.
Qed.
Lemma rshift_xor n x y : rshift n (Z.lxor x y) = Z.lxor (rshift n x) (rshift n y).
Proof. induction n as [|n IH]; cbn [rshift]; [done|]. by rewrite IH, rbit_xor. Qed.
Lemma rshift_add n m x : rshift (n + m) x = rshift n (rshift m x).
Proof. induction n as [|n IH]; cbn [Nat.add rshift]; [done|]. by rewrite IH. Qed.
Lemma rshift_S n x : rshift (S n) x = rshift n (rbit false x).
Proof. replace (S n) with (n + 1)%nat by lia. by rewrite rshift_add. Qed.
Lemma rbit_even x : rbit false (Z.shiftl x 1) = x.
Proof.
  unfold rbit. rewrite Z.shiftl_spec_low by lia. cbn [xorb feedback]. rewrite Z.lxor_0_r, Z.shiftr_shiftl_l, Z.shiftl_0_r; [done|lia].
Qed.
Lemma rshift_shiftl n x : rshift n (Z.shiftl x (Z.of_nat n)) = x.
Proof.
  revert x. induction n as [|n IH]; intros x; [apply Z.shiftl_0_r|]. rewrite rshift_S.
  replace (Z.shiftl x (Z.of_nat (S n))) with (Z.shiftl (Z.shiftl x (Z.of_nat n)) 1) by (rewrite Z.shiftl_shiftl by lia; f_equal; lia).
  by rewrite rbit_even.
Qed.
Lemma rshift_0 n : rshift n 0 = 0.
Proof. induction n as [|n IH]; cbn [rshift]; [done|]. by rewrite IH. Qed.

(** A register goes through a byte by one table look-up. *)
Lemma rshift8_table x : rshift 8 x = Z.lxor (rshift 8 (Z.land x 255)) (Z.shiftr x 8).
Proof. rewrite <- (split8 x) at 1. rewrite rshift_xor. f_equal. apply (rshift_shiftl 8). Qed.

Lemma shiftr_byte b : byte_ok b -> Z.shiftr b 8 = 0.
Proof. intros Hb. rewrite Z.shiftr_div_pow2 by lia. apply Z.div_small, Hb. Qed.
Lemma crc64_byte_table crc b : byte_ok b -> crc64_byte crc b = Z.lxor (rshift 8 (Z.land (Z.lxor crc b) 255)) (Z.shiftr crc 8).
Proof. intros Hb. unfold crc64_byte. rewrite rshift8_table, Z.shiftr_lxor, (shiftr_byte b Hb), Z.lxor_0_r. done. Qed.

Lemma land1 x : 0 <= Z.land x 1 < 2.
Proof. change (0 <= Z.land x (Z.ones 1) < 2). rewrite Z.land_ones by lia. apply Z.mod_pos_bound. lia. Qed.

(** ** The bit-by-bit code computes the reference *)
Lemma reflect_loop_bits n : forall data ret w, 0 <= ret < 2 ^ w -> 0 <= w -> w + Z.of_nat n <= 64 ->
  0 <= reflect_loop n data ret < 2 ^ (w + Z.of_nat n) /\
  forall i, 0 <= i < w + Z.of_nat n ->
    Z.testbit (reflect_loop n data ret) i = if i <? Z.of_nat n then Z.testbit data (Z.of_nat n - i) else Z.testbit ret (i - Z.of_nat n).
Proof.
  induction n as [|n IH]; intros data ret w Hr Hw Hn; cbn [reflect_loop].
  - change (Z.of_nat 0) with 0. rewrite Z.add_0_r. split; [done|]. intros i Hi. destruct (Z.ltb_spec i 0); [lia|]. f_equal. lia.
  - set (ret' := Z.lor _ _). assert (Hp : 2 ^ (w + 1) <= 2 ^ 64) by (apply Z.pow_le_mono_r; lia).
    assert (Hs : 0 <= Z.shiftl ret 1 < 2 ^ (w + 1)) by (rewrite Z.shiftl_mul_pow2, Z.pow_add_r by lia; change (2 ^ 1) with 2; lia).
    assert (Hb : forall i, 0 <= i -> Z.testbit ret' i = if i =? 0 then Z.testbit data 1 else Z.testbit ret (i - 1)).
    { intros i Hi. unfold ret'. rewrite wrapu_small by lia. rewrite Z.lor_spec, Z.shiftl_spec, Z.land_spec, Z.shiftr_spec by lia. change 1 with (Z.ones 1) at 3. rewrite Z.testbit_ones by lia.
      destruct (Z.eqb_spec i 0) as [->|]; [rewrite Z.testbit_neg_r by lia; cbn; by rewrite andb_true_r|]. destruct (Z.ltb_spec i 1); [lia|]. by rewrite !andb_false_r, orb_false_r. }
    assert (Hr' : 0 <= ret' < 2 ^ (w + 1)).
    { unfold ret'. rewrite wrapu_small by lia. split; [apply Z.lor_nonneg; split; [lia|apply Z.land_nonneg; lia]|].
      destruct (Z.eq_dec (Z.lor (Z.shiftl ret 1) (Z.land (Z.shiftr data 1) 1)) 0) as [->|Hne]; [lia|].
      assert (Hl : 0 <= Z.land (Z.shiftr data 1) 1 <= 1) by (pose proof (land1 (Z.shiftr data 1)); lia).
      apply Z.log2_lt_pow2; [assert (0 <= Z.lor (Z.shiftl ret 1) (Z.land (Z.shiftr data 1) 1)) by (apply Z.lor_nonneg; lia); lia|]. rewrite Z.log2_lor by lia.
      assert (Hlog : forall z, 0 <= z < 2 ^ (w + 1) -> Z.log2 z < w + 1) by (intros z Hz; destruct (Z.eq_dec z 0) as [->|]; [cbn; lia|apply Z.log2_lt_pow2; lia]).
      apply Z.max_lub_lt; apply Hlog; [done|]. assert (2 ^ 1 <= 2 ^ (w + 1)) by (apply Z.pow_le_mono_r; lia). lia. }
    destruct (IH (Z.shiftr data 1) ret' (w + 1) Hr') as [Hrange Hbits]; [lia|lia|]. replace (w + Z.of_nat (S n)) with (w + 1 + Z.of_nat n) by lia. split; [done|].
    intros i Hi. rewrite Hbits by lia. destruct (Z.ltb_spec i (Z.of_nat n)), (Z.ltb_spec i (Z.of_nat (S n))); try lia.
    + rewrite Z.shiftr_spec by lia. f_equal. lia.
    + rewrite Hb by lia. destruct (Z.eqb_spec (i - Z.of_nat n) 0); [|lia]. f_equal. lia.
    + rewrite Hb by lia. destruct (Z.eqb_spec (i - Z.of_nat n) 0); [lia|]. f_equal. lia.
Qed.
Lemma reflect_bits x i : 0 <= i -> Z.testbit (crc_reflect x 64) i = if i <? 64 then Z.testbit x (63 - i) else false.
Proof.
  intros Hi. unfold crc_reflect. pose proof (land1 x : 0 <= Z.land x 1 < 2 ^ 1) as Hl.
  destruct (reflect_loop_bits 63 x (Z.land x 1) 1 Hl) as [Hr Hb]; [lia|lia|]. cbn [Nat.sub]. destruct (Z.ltb_spec i 64).
  - rewrite Hb by lia. destruct (Z.ltb_spec i (Z.of_nat 63)); [f_equal; lia|]. replace (i - Z.of_nat 63) with 0 by lia. replace (63 - i) with 0 by lia.
    rewrite Z.land_spec. by rewrite andb_true_r.
  - destruct (Z.eq_dec (reflect_loop 63 x (Z.land x 1)) 0) as [->|]; [apply Z.bits_0|]. apply Z.bits_above_log2; [lia|].
    enough (Z.log2 (reflect_loop 63 x (Z.land x 1)) < 64) by lia. apply Z.log2_lt_pow2; [lia|]. apply Hr.
Qed.

Lemma reflect_0 : crc_reflect 0 64 = 0.
Proof. reflexivity. Qed.
Lemma reflect_POLY : RPOLY = crc_reflect POLY 64.
Proof. vm_compute. reflexivity. Qed.
#[local] Opaque crc_reflect.

Lemma crc_land_pow2 x k : 0 <= k -> (Z.land x (2 ^ k) =? 0) = negb (Z.testbit x k).
Proof.
  intros Hk. destruct (Z.testbit x k) eqn:E; cbn [negb].
  - apply Z.eqb_neq. intros H. assert (Hb : Z.testbit (Z.land x (2 ^ k)) k = true) by (rewrite Z.land_spec, E, Z.pow2_bits_true by lia; done). rewrite H, Z.bits_0 in Hb. done.
  - apply Z.eqb_eq. apply Z.bits_inj'. intros n Hn. rewrite Z.land_spec, Z.bits_0, Z.pow2_bits_eqb by lia. destruct (Z.eqb_spec k n) as [<-|]; [by rewrite E|apply andb_false_r].
Qed.
Lemma u64_bits x i : 0 <= i -> Z.testbit (u64 x) i = if i <? 64 then Z.testbit x i else false.
Proof.
  intros Hi. unfold wrapu. destruct (Z.ltb_spec i 64); [by apply Z.mod_pow2_bits_low|apply Z.mod_pow2_bits_high; lia].
Qed.
Lemma u64_land x : Z.land x 0xffffffffffffffff = u64 x.
Proof. change 0xffffffffffffffff with (Z.ones 64). apply Z.land_ones. lia. Qed.

(** The code's registers: [crc_reflect] of the code's is the reference's.  One
    bit of data. *)
Lemma crc_bit_spec c crc k : 0 <= k -> u64 crc = crc ->
  u64 (crc_bit c crc (2 ^ k)) = crc_bit c crc (2 ^ k) /\ crc_reflect (crc_bit c crc (2 ^ k)) 64 = rbit (Z.testbit c k) (crc_reflect crc 64).
Proof.
  intros Hk Hc. set (fb := xorb (Z.testbit crc 63) (Z.testbit c k)).
  assert (E : crc_bit c crc (2 ^ k) = Z.lxor (u64 (Z.shiftl crc 1)) (if fb then POLY else 0)).
  { unfold crc_bit. change 0x8000000000000000 with (2 ^ 63). rewrite (crc_land_pow2 c k Hk), negb_involutive. unfold fb. pose proof (crc_land_pow2 crc 63 ltac:(lia)) as H63.
    destruct (Z.testbit c k).
    - rewrite H63. destruct (Z.testbit crc 63); cbn [negb xorb]; [by rewrite Z.lxor_0_r|done].
    - rewrite H63. destruct (Z.testbit crc 63); cbn [negb xorb]; [done|by rewrite Z.lxor_0_r]. }
  assert (Hp : forall i, 0 <= i -> Z.testbit (if fb then POLY else 0) i = if i <? 64 then fb && Z.testbit POLY i else false).
  { intros i Hi. destruct fb; [|rewrite Z.bits_0; by destruct (i <? 64)]. destruct (Z.ltb_spec i 64); [done|]. apply Z.bits_above_log2; [done|]. change (Z.log2 POLY) with 63. lia. }
  rewrite E. split.
  - apply Z.bits_inj'. intros i Hi. rewrite u64_bits, Z.lxor_spec, u64_bits, Hp by lia. destruct (i <? 64); done.
  - apply Z.bits_inj'. intros i Hi. unfold rbit. rewrite reflect_bits by lia. rewrite (Z.lxor_spec (Z.shiftr _ _)), Z.shiftr_spec, (reflect_bits crc (i + 1)) by lia.
    assert (Hf : Z.testbit (feedback (xorb (Z.testbit (crc_reflect crc 64) 0) (Z.testbit c k))) i = fb && (if i <? 64 then Z.testbit POLY (63 - i) else false)).
    { rewrite reflect_bits by lia. cbn [Z.ltb Z.compare]. change (63 - 0) with 63. fold fb. unfold feedback. destruct fb; [|apply Z.bits_0].
      rewrite reflect_POLY. cbn [andb]. by apply reflect_bits. }
    rewrite Hf. destruct (Z.ltb_spec i 64).
    + rewrite Z.lxor_spec, u64_bits, Hp by lia. destruct (Z.ltb_spec (63 - i) 64); [|lia]. f_equal. destruct (Z.ltb_spec (i + 1) 64).
      * rewrite Z.shiftl_spec by lia. f_equal. lia.
      * replace (63 - i) with 0 by lia. by rewrite Z.shiftl_spec_low by lia.
    + destruct (Z.ltb_spec (i + 1) 64); [lia|]. by rewrite andb_false_r.
Qed.

(** A byte, its low bits first. *)
Fixpoint rbits (n : nat) (b c : Z) : Z := match n with O => c | S n => rbits n (Z.shiftr b 1) (rbit (Z.testbit b 0) c) end.
Lemma rbits_spec n : forall b c, 0 <= b < 2 ^ Z.of_nat n -> rbits n b c = rshift n (Z.lxor c b).
Proof.
  induction n as [|n IH]; intros b c Hb; [cbn [rbits rshift]; replace b with 0 by (cbn in Hb; lia); by rewrite Z.lxor_0_r|].
  assert (E : rbit false (Z.lxor c b) = Z.lxor (rbit (Z.testbit b 0) c) (Z.shiftr b 1)).
  { unfold rbit. rewrite Z.shiftr_lxor, Z.lxor_spec, xorb_false_r. xor_bits. }
  cbn [rbits]. rewrite rshift_S, E. apply IH. rewrite Z.shiftr_div_pow2 by lia. change (2 ^ 1) with 2. rewrite Nat2Z.inj_succ, Z.pow_succ_r in Hb by lia.
  split; [apply Z.div_pos; lia|apply Z.div_lt_upper_bound; lia].
Qed.
Lemma crc_bits_spec c ks : forall crc, Forall (fun k => 0 <= k) ks -> u64 crc = crc ->
  let r := foldl (crc_bit c) crc (map (fun k => 2 ^ k) ks) in
  u64 r = r /\ crc_reflect r 64 = foldl (fun r k => rbit (Z.testbit c k) r) (crc_reflect crc 64) ks.
Proof.
  induction ks as [|k ks IH]; intros crc Hk Hc; [done|]. apply Forall_cons in Hk as [Hk Hks].
  destruct (crc_bit_spec c crc k Hk Hc) as [H1 H2]. cbn [map foldl]. rewrite <- H2. by apply IH.
Qed.
Lemma crc_octet_spec crc c : byte_ok c -> u64 crc = crc ->
  u64 (crc_octet crc c) = crc_octet crc c /\ crc_reflect (crc_octet crc c) 64 = crc64_byte (crc_reflect crc 64) c.
Proof.
  intros Hb Hc. unfold crc64_byte. rewrite <- rbits_spec by (apply Hb). unfold crc_octet. rewrite u64_land.
  destruct (crc_bits_spec c [0; 1; 2; 3; 4; 5; 6; 7] crc) as [H1 H2]; [repeat constructor; lia|done|]. change masks with (map (fun k => 2 ^ k) [0; 1; 2; 3; 4; 5; 6; 7]).
  rewrite !H1. split; [done|]. rewrite H2. cbn [foldl rbits]. rewrite !Z.shiftr_spec by lia. cbn [Z.add Pos.add Pos.succ]. reflexivity.
Qed.

Lemma _crc64_spec data : bytes_ok data -> _crc64 0 data = crc64_ref 0 data.
Proof.
  intros Hd. unfold _crc64. rewrite Z.lxor_0_r, u64_land.
  assert (H : forall crc, u64 crc = crc -> u64 (foldl crc_octet crc data) = foldl crc_octet crc data /\ crc_reflect (foldl crc_octet crc data) 64 = crc64_ref (crc_reflect crc 64) data).
  { unfold crc64_ref. induction Hd as [|b data Hb Hd IH]; intros crc Hc; [done|]. cbn [foldl]. destruct (crc_octet_spec crc b Hb Hc) as [H1 H2]. rewrite <- H2. by apply IH. }
  destruct (H 0 eq_refl) as [-> H2]. by rewrite H2, reflect_0.
Qed.

(** ** The tables *)
Definition table_ok (t : table) : Prop := forall k n, (k < 8)%nat -> byte_ok n -> tab t k n = Some (rshift (8 * S k) n).

Lemma mapM_total {A B} (f : A -> option B) (g : A -> B) l : (forall x, x ∈ l -> f x = Some (g x)) -> mapM f l = Some (map g l).
Proof.
  induction l as [|x l IH]; intros H; [done|]. cbn. rewrite (H x) by set_solver. cbn [mbind option_bind]. rewrite IH; [done|]. intros y Hy. apply H. set_solver.
Qed.
Lemma numbers_in n k : k ∈ numbers n -> 0 <= k < Z.of_nat n.
Proof. unfold numbers. intros Hk. apply list_elem_of_In, in_map_iff in Hk as (i & <- & Hi). apply in_seq in Hi. lia. Qed.
Lemma numbers_map (f : Z -> Z) n i : 0 <= i < Z.of_nat n -> (map f (numbers n)).[i] = Some (f i).
Proof.
  intros Hi. unfold load1, numbers. destruct (Z.leb_spec 0 i); [|lia]. rewrite !list_lookup_fmap, lookup_seq_lt by lia. cbn. do 2 f_equal. lia.
Qed.
Lemma land255 x : byte_ok (Z.land x 255).
Proof. unfold byte_ok. change 255 with (Z.ones 8). rewrite Z.land_ones by lia. apply Z.mod_pos_bound. lia. Qed.

Lemma nested_spec m : forall crc, nested m (map (rshift 8) (numbers 256)) crc = Some (map (fun j => rshift (8 * S j) crc) (seq 0 m)).
Proof.
  induction m as [|m IH]; intros crc; [done|]. cbn [nested seq map]. rewrite numbers_map by apply land255. cbn [mbind option_bind].
  rewrite <- rshift8_table, IH. cbn [mbind option_bind]. do 2 f_equal. rewrite <- seq_shift, map_map. apply map_ext. intros j. rewrite <- rshift_add. f_equal. lia.
Qed.
Lemma omap_lookup (g : nat -> Z -> Z) m k l : (k < m)%nat ->
  omap (fun col => col !! k) (map (fun n => map (fun j => g j n) (seq 0 m)) l) = map (g k) l.
Proof. intros Hk. induction l as [|n l IH]; [done|]. cbn. rewrite list_lookup_fmap, lookup_seq_lt by done. cbn. by rewrite IH. Qed.

Lemma little_init_spec : exists t, crcspeed64little_init false _crc64 = Some t /\ table_ok t.
Proof.
  unfold crcspeed64little_init. rewrite (mapM_total _ (rshift 8)).
  2:{ intros n Hn. apply numbers_in in Hn. unfold first_byte, native_bytes. cbn [le_bytes]. change (load (?a :: ?b) 0 1) with (Some [a]). cbn [mbind option_bind].
      rewrite Z.mod_small by (change (Z.of_nat 256) with 256 in Hn; lia). rewrite _crc64_spec by (repeat constructor; unfold byte_ok; lia). done. }
  cbn [mbind option_bind]. rewrite (mapM_total _ (fun c => map (fun j => rshift (8 * S j) c) (seq 0 7))) by (intros; apply nested_spec). cbn [mbind option_bind].
  eexists. split; [done|]. intros k n Hk Hn. unfold tab. rewrite map_map. destruct k as [|k].
  - change ((?x :: ?l) !! 0%nat) with (Some x). cbn [mbind option_bind]. rewrite numbers_map by apply Hn. done.
  - change ((?x :: ?l) !! S k) with (l !! k). rewrite list_lookup_fmap, lookup_seq_lt by lia. cbn [fmap option_fmap option_map mbind option_bind Nat.add].
    rewrite (omap_lookup (fun j n => rshift (8 * S j) (rshift 8 n))) by lia. rewrite numbers_map by apply Hn. rewrite <- rshift_add. do 2 f_equal. lia.
Qed.

(** ** Eight bytes at a time *)
Lemma le_val_cons_xor b l : byte_ok b -> bytes_ok l -> le_val (b :: l) = Z.lxor b (Z.shiftl (le_val l) 8).
Proof.
  intros Hb Hl. cbn [le_val]. rewrite Z.shiftl_mul_pow2 by lia. change (2 ^ 8) with 256. rewrite (Z.mul_comm (le_val l)).
  rewrite <- Z.add_nocarry_lxor; [done|]. change 256 with (2 ^ 8). rewrite Z.mul_comm, <- Z.shiftl_mul_pow2 by lia.
  apply Z.bits_inj'. intros n Hn. rewrite Z.land_spec, Z.bits_0, Z.shiftl_spec by lia. destruct (Z.ltb_spec n 8).
  - rewrite (Z.testbit_neg_r _ (n - 8)) by lia. apply andb_false_r.
  - assert (E : Z.testbit b n = false); [|by rewrite E]. destruct (Z.eq_dec b 0) as [->|]; [apply Z.bits_0|]. unfold byte_ok in Hb. apply Z.bits_above_log2; [lia|].
    enough (Z.log2 b < 8) by lia. apply Z.log2_lt_pow2; lia.
Qed.
Lemma crc64_ref_word crc bs : bytes_ok bs -> crc64_ref crc bs = rshift (8 * length bs) (Z.lxor crc (le_val bs)).
Proof.
  intros Hb. revert crc. unfold crc64_ref. induction Hb as [|b bs Hb Hbs IH]; intros crc; [cbn; by rewrite Z.lxor_0_r|].
  cbn [foldl length]. rewrite IH. replace (8 * S (length bs))%nat with (8 * length bs + 8)%nat by lia. rewrite rshift_add. f_equal.
  rewrite le_val_cons_xor by done. rewrite <- Z.lxor_assoc, rshift_xor, (rshift_shiftl 8). done.
Qed.
Lemma rshift_table k x : rshift (8 * S k) x = Z.lxor (rshift (8 * S k) (Z.land x 255)) (rshift (8 * k) (Z.shiftr x 8)).
Proof.
  rewrite <- (split8 x) at 1. rewrite rshift_xor. f_equal. replace (8 * S k)%nat with (8 * k + 8)%nat by lia. rewrite rshift_add. f_equal. apply (rshift_shiftl 8).
Qed.

Section Tables.
  Context (t : table) (Ht : table_ok t).

Lemma little_byte_spec crc b : byte_ok b -> little_byte t crc b = Some (crc64_byte crc b).
Proof. intros Hb. unfold little_byte. rewrite Ht by (lia || apply land255). cbn [mbind option_bind]. by rewrite (crc64_byte_table _ _ Hb). Qed.
Lemma little_word_spec crc w : 0 <= Z.lxor crc w < 2 ^ 64 -> little_word t crc w = Some (rshift 64 (Z.lxor crc w)).
Proof.
  intros Hx. unfold little_word, octet_at. set (x := Z.lxor crc w) in *. cbn [xor_tabs].
  assert (H56 : byte_ok (Z.shiftr x 56)).
  { unfold byte_ok. rewrite Z.shiftr_div_pow2 by lia. split; [apply Z.div_pos; lia|]. apply Z.div_lt_upper_bound; lia. }
  rewrite !Ht by (lia || apply land255 || done). cbn [mbind option_bind]. f_equal. rewrite Z.lxor_0_r.
  assert (Hs : forall k n, 0 <= n -> rshift (8 * S k) (Z.shiftr x n) = Z.lxor (rshift (8 * S k) (Z.land (Z.shiftr x n) 255)) (rshift (8 * k) (Z.shiftr x (n + 8)))).
  { intros k n Hn. rewrite rshift_table at 1. by rewrite Z.shiftr_shiftr by lia. }
  change 64%nat with (8 * 8)%nat. rewrite (rshift_table 7 x), (Hs 6%nat 8), (Hs 5%nat (8 + 8)), (Hs 4%nat (8 + 8 + 8)), (Hs 3%nat (8 + 8 + 8 + 8)),
    (Hs 2%nat (8 + 8 + 8 + 8 + 8)), (Hs 1%nat (8 + 8 + 8 + 8 + 8 + 8)) by lia. reflexivity.
Qed.
End Tables.

Lemma lxor_range n a b : 0 <= n -> 0 <= a < 2 ^ n -> 0 <= b < 2 ^ n -> 0 <= Z.lxor a b < 2 ^ n.
Proof.
  intros Hn Ha Hb. assert (H0 : 0 <= Z.lxor a b) by (apply Z.lxor_nonneg; lia). split; [done|]. destruct (Z.eq_dec (Z.lxor a b) 0) as [->|]; [lia|].
  apply Z.log2_lt_pow2; [lia|]. assert (Hl : forall z, 0 <= z < 2 ^ n -> z = 0 \/ Z.log2 z < n) by (intros z Hz; destruct (Z.eq_dec z 0); [by left|right; apply Z.log2_lt_pow2; lia]).
  pose proof (Z.log2_lxor a b ltac:(lia) ltac:(lia)).
  destruct (Hl a Ha) as [->|]; [rewrite Z.lxor_0_l in *; by destruct (Hl b Hb) as [->|]|]. destruct (Hl b Hb) as [->|]; [by rewrite Z.lxor_0_r in *|lia].
Qed.
Lemma in_u64_lxor a b : in_u 64 a -> in_u 64 b -> in_u 64 (Z.lxor a b).
Proof. unfold in_u. intros. apply lxor_range; [lia|assumption..]. Qed.
Lemma rbit_range c : in_u 64 c -> in_u 64 (rbit false c).
Proof.
  unfold in_u. intros Hc. unfold rbit, feedback. apply lxor_range; [lia| |].
  - rewrite Z.shiftr_div_pow2 by lia. change (2 ^ 1) with 2. split; [apply Z.div_pos; lia|]. apply Z.div_lt_upper_bound; lia.
  - destruct (xorb _ _); unfold RPOLY; lia.
Qed.
Lemma rshift_range n c : in_u 64 c -> in_u 64 (rshift n c).
Proof. intros Hc. induction n as [|n IH]; [done|]. by apply rbit_range. Qed.
Lemma byte_u64 b : byte_ok b -> in_u 64 b.
Proof. unfold byte_ok, in_u. lia. Qed.
Lemma crc64_byte_range crc b : in_u 64 crc -> byte_ok b -> in_u 64 (crc64_byte crc b).
Proof. intros Hc Hb. apply rshift_range, in_u64_lxor; [done|by apply byte_u64]. Qed.
Lemma crc64_ref_range crc bs : in_u 64 crc -> bytes_ok bs -> in_u 64 (crc64_ref crc bs).
Proof. intros Hc Hb. revert crc Hc. unfold crc64_ref. induction Hb as [|b bs Hb _ IH]; intros crc Hc; [done|]. cbn [foldl]. by apply IH, crc64_byte_range. Qed.
Lemma crc64_ref_app crc a b : crc64_ref crc (a ++ b) = crc64_ref (crc64_ref crc a) b.
Proof. apply foldl_app. Qed.

Section Little.
  Context (t : table) (Ht : table_ok t).

Lemma tail_loop_spec buf : forall crc, bytes_ok buf -> tail_loop little_byte t crc buf = Some (crc64_ref crc buf).
Proof. induction buf as [|b buf IH]; intros crc Hb; [done|]. apply Forall_cons in Hb as [Hb Hbs]. cbn [tail_loop]. rewrite little_byte_spec by done. cbn [mbind option_bind]. by apply IH. Qed.
Lemma align_loop_spec buf : forall addr crc, bytes_ok buf ->
  exists pre rest, buf = pre ++ rest /\ align_loop little_byte t addr crc buf = Some (crc64_ref crc pre, rest).
Proof.
  induction buf as [|b buf IH]; intros addr crc Hb; [by exists [], []|]. apply Forall_cons in Hb as [Hb Hbs]. cbn [align_loop]. destruct (Z.land addr 7 =? 0); cbn [negb]; [by exists [], (b :: buf)|].
  rewrite little_byte_spec by done. cbn [mbind option_bind]. destruct (IH (addr + 1) (crc64_byte crc b) Hbs) as (pre & rest & -> & ->). by exists (b :: pre), rest.
Qed.
Lemma word_loop_spec fuel : forall crc buf, bytes_ok buf -> in_u 64 crc -> (length buf <= fuel)%nat ->
  exists pre rest, buf = pre ++ rest /\ word_loop false little_word t fuel crc buf = Some (crc64_ref crc pre, rest).
Proof.
  induction fuel as [|fuel IH]; intros crc buf Hb Hc Hf; cbn [word_loop]; rewrite Z.geb_leb; destruct (Z.leb_spec 8 (zlen buf)) as [H8|_]; [unfold zlen in H8; lia|by exists [], buf| |by exists [], buf].
  destruct (split_at buf 8) as (w & rest & -> & Hw & Hr); [lia|]. apply Forall_app in Hb as [Hbw Hbr]. rewrite load_prefix by done. cbn [mbind option_bind]. unfold native_val.
  assert (Hv : in_u 64 (le_val w)) by (unfold in_u; pose proof (le_val_range w Hbw) as Hlv; rewrite Hw in Hlv; exact Hlv).
  rewrite little_word_spec by (done || by apply lxor_range). cbn [mbind option_bind].
  assert (El : length w = 8%nat) by (unfold zlen in Hw; lia). rewrite drop_app_length' by done.
  assert (E : rshift 64 (Z.lxor crc (le_val w)) = crc64_ref crc w) by (rewrite crc64_ref_word, El by done; done). rewrite E.
  destruct (IH (crc64_ref crc w) rest Hbr) as (pre & rest' & -> & ->); [by apply crc64_ref_range|rewrite length_app in Hf; lia|].
  exists (w ++ pre), rest'. by rewrite <- app_assoc, crc64_ref_app.
Qed.
Lemma crc64_little_spec addr crc buf : in_u 64 crc -> bytes_ok buf -> crc64 false t addr crc buf = Some (crc64_ref crc buf).
Proof.
  intros Hc Hb. unfold crc64, crcspeed64native, crcspeed64little, crcspeed_run. destruct (align_loop_spec buf addr crc Hb) as (p1 & r1 & -> & ->). cbn [mbind option_bind].
  apply Forall_app in Hb as [Hb1 Hb]. destruct (word_loop_spec (length r1) (crc64_ref crc p1) r1 Hb) as (p2 & r2 & -> & ->); [by apply crc64_ref_range|done|]. cbn [mbind option_bind].
  apply Forall_app in Hb as [Hb2 Hb]. rewrite tail_loop_spec by done. by rewrite !crc64_ref_app.
Qed.
End Little.

(** ** Detection of errors *)
Lemma rbit_inj x y : in_u 64 x -> in_u 64 y -> rbit false x = rbit false y -> x = y.
Proof.
  unfold in_u. intros Hx Hy E.
  assert (H63 : forall c, 0 <= c < 2 ^ 64 -> Z.testbit (rbit false c) 63 = Z.testbit c 0).
  { intros c Hc. unfold rbit. rewrite Z.lxor_spec, Z.shiftr_spec by lia. assert (Z.testbit c (63 + 1) = false) as ->.
    { destruct (Z.eq_dec c 0) as [->|]; [apply Z.bits_0|]. apply Z.bits_above_log2; [lia|]. apply Z.log2_lt_pow2; lia. }
    rewrite xorb_false_l, xorb_false_r. unfold feedback. destruct (Z.testbit c 0); [reflexivity|apply Z.bits_0]. }
  assert (E0 : Z.testbit x 0 = Z.testbit y 0) by (rewrite <- (H63 x), <- (H63 y) by done; by rewrite E).
  unfold rbit in E. rewrite E0 in E. apply (f_equal (fun z => Z.lxor z (feedback (xorb (Z.testbit y 0) false)))) in E.
  rewrite !Z.lxor_assoc, Z.lxor_nilpotent, !Z.lxor_0_r in E.
  apply Z.bits_inj'. intros n Hn. destruct (Z.eq_dec n 0) as [->|]; [done|]. replace n with (n - 1 + 1) by lia. rewrite <- !Z.shiftr_spec by lia. by rewrite E.
Qed.
Lemma rshift_inj n x y : in_u 64 x -> in_u 64 y -> rshift n x = rshift n y -> x = y.
Proof. intros Hx Hy. induction n as [|n IH]; [done|]. cbn [rshift]. intros E. apply IH. apply rbit_inj in E; [done|by apply rshift_range..]. Qed.
Lemma lxor_cancel a b c : Z.lxor a b = Z.lxor a c -> b = c.
Proof. intros E. apply (f_equal (Z.lxor a)) in E. by rewrite <- !Z.lxor_assoc, Z.lxor_nilpotent, !Z.lxor_0_l in E. Qed.
Lemma crc64_byte_inj x y b : byte_ok b -> in_u 64 x -> in_u 64 y -> crc64_byte x b = crc64_byte y b -> x = y.
Proof.
  intros Hb Hx Hy. apply byte_u64 in Hb. unfold crc64_byte. intros E.
  apply rshift_inj in E; [|by apply in_u64_lxor..]. rewrite !(Z.lxor_comm _ b) in E. exact (lxor_cancel _ _ _ E).
Qed.
Lemma crc64_ref_cons x b bs : crc64_ref x (b :: bs) = crc64_ref (crc64_byte x b) bs.
Proof. reflexivity. Qed.
Lemma crc64_ref_inj bs x y : bytes_ok bs -> in_u 64 x -> in_u 64 y -> crc64_ref x bs = crc64_ref y bs -> x = y.
Proof.
  intros Hb. revert x y. induction Hb as [|b bs Hb _ IH]; intros x y Hx Hy E; [exact E|]. rewrite !crc64_ref_cons in E.
  apply (crc64_byte_inj x y b Hb Hx Hy). apply IH; [by apply crc64_byte_range..|exact E].
Qed.
Lemma crc64_ref_burst crc p x y s :
  in_u 64 crc -> bytes_ok (p ++ x ++ s) -> bytes_ok y -> length x = length y -> (length x <= 8)%nat ->
  crc64_ref crc (p ++ x ++ s) = crc64_ref crc (p ++ y ++ s) -> x = y.
Proof.
  intros Hc Hb Hy Hl H8 E. apply Forall_app in Hb as [Hp Hb]. apply Forall_app in Hb as [Hx Hs]. rewrite !crc64_ref_app in E. pose proof (crc64_ref_range crc p Hc Hp) as Hcp.
  apply crc64_ref_inj in E; [|done|by apply crc64_ref_range..]. rewrite (crc64_ref_word _ x), (crc64_ref_word _ y) in E by done. rewrite Hl in E.
  assert (Hr : forall l, bytes_ok l -> (length l <= 8)%nat -> in_u 64 (le_val l)).
  { intros l Hbl Hll. unfold in_u. pose proof (le_val_range l Hbl) as Hlr. assert (2 ^ (8 * zlen l) <= 2 ^ 64) by (apply Z.pow_le_mono_r; unfold zlen; lia). lia. }
  apply rshift_inj in E; [|apply in_u64_lxor; [exact Hcp|apply Hr; (done || lia)]..]. apply lxor_cancel in E.
  rewrite <- (le_bytes_le_val x), <- (le_bytes_le_val y) by done. by rewrite Hl, E.
Qed.

(** ** crc16: the table against the bitwise definition *)
Definition POLY16 : Z := 0x1021.
Definition bit16 (c : Z) : Z := Z.lxor (u16 (Z.shiftl c 1)) (if Z.testbit c 15 then POLY16 else 0).
Fixpoint shift16 (n : nat) (c : Z) : Z := match n with O => c | S n => bit16 (shift16 n c) end.
(** CRC-16/XMODEM: the byte enters at the top of the register. *)
Definition crc16_ref (data : list Z) : Z := foldl (fun crc b => shift16 8 (Z.lxor crc (Z.shiftl b 8))) 0 data.

Lemma u16_bits x i : 0 <= i -> Z.testbit (u16 x) i = if i <? 16 then Z.testbit x i else false.
Proof. intros Hi. unfold wrapu. destruct (Z.ltb_spec i 16); [by apply Z.mod_pow2_bits_low|apply Z.mod_pow2_bits_high; lia]. Qed.
Lemma u16_lxor a b : u16 (Z.lxor a b) = Z.lxor (u16 a) (u16 b).
Proof. apply Z.bits_inj'. intros i Hi. rewrite Z.lxor_spec, !u16_bits, Z.lxor_spec by lia. by destruct (i <? 16). Qed.
Lemma bit16_xor x y : bit16 (Z.lxor x y) = Z.lxor (bit16 x) (bit16 y).
Proof. unfold bit16. rewrite Z.shiftl_lxor, u16_lxor, Z.lxor_spec. destruct (Z.testbit x 15), (Z.testbit y 15); cbn [xorb]; xor_bits. Qed.
Lemma shift16_xor n x y : shift16 n (Z.lxor x y) = Z.lxor (shift16 n x) (shift16 n y).
Proof. induction n as [|n IH]; cbn [shift16]; [done|]. by rewrite IH, bit16_xor. Qed.
Lemma bit16_range x : in_u 16 (bit16 x).
Proof. unfold bit16, in_u. apply lxor_range; [lia|apply wrapu_range; lia|]. destruct (Z.testbit x 15); unfold POLY16; lia. Qed.

(** The table and the low byte, by evaluation on the 256 bytes. *)
Lemma crc16_tables : forallb (fun b => match crc16tab.[b] with Some x => x =? shift16 8 (Z.shiftl b 8) | None => false end && (shift16 8 b =? u16 (Z.shiftl b 8))) (numbers 256) = true.
Proof. vm_compute. reflexivity. Qed.
Lemma numbers_elem n b : 0 <= b < Z.of_nat n -> In b (numbers n).
Proof. intros Hb. apply in_map_iff. exists (Z.to_nat b). split; [lia|]. apply in_seq. lia. Qed.
Lemma crc16_table_spec b : byte_ok b -> crc16tab.[b] = Some (shift16 8 (Z.shiftl b 8)) /\ shift16 8 b = u16 (Z.shiftl b 8).
Proof.
  intros Hb. pose proof crc16_tables as H. rewrite forallb_forall in H. specialize (H b (numbers_elem 256 b Hb)). apply andb_true_iff in H as [H1 H2]. apply Z.eqb_eq in H2.
  destruct crc16tab.[b] as [x|]; [|done]. apply Z.eqb_eq in H1. by subst.
Qed.

Lemma land255_s8 a b : byte_ok a -> byte_ok b -> Z.land (Z.lxor a (s8 b)) 255 = Z.lxor a b.
Proof.
  intros Ha Hb. change 255 with (Z.ones 8). apply Z.bits_inj'. intros i Hi. rewrite Z.land_spec, Z.testbit_ones, !Z.lxor_spec by lia. destruct (Z.leb_spec 0 i); [|lia].
  assert (Hs : u8 (s8 b) = b) by (unfold byte_ok in Hb; unfold wraps, wrapu; rewrite Zminus_mod_idemp_l; replace (b + 2 ^ (8 - 1) - 2 ^ (8 - 1)) with b by lia; apply Z.mod_small; lia).
  destruct (Z.ltb_spec i 8); cbn [andb].
  - rewrite andb_true_r. f_equal. rewrite <- Hs at 2. unfold wrapu. by rewrite Z.mod_pow2_bits_low.
  - rewrite andb_false_r. assert (Hz : forall z, byte_ok z -> Z.testbit z i = false); [|by rewrite !Hz].
    intros z Hz. unfold byte_ok in Hz. destruct (Z.eq_dec z 0) as [->|]; [apply Z.bits_0|]. apply Z.bits_above_log2; [lia|]. enough (Z.log2 z < 8) by lia. apply Z.log2_lt_pow2; lia.
Qed.
Lemma lxor_byte a b : byte_ok a -> byte_ok b -> byte_ok (Z.lxor a b).
Proof. intros. apply (lxor_range 8); [lia|done..]. Qed.

Lemma crc16_step_spec crc b : in_u 16 crc -> byte_ok b -> crc16_step crc b = Some (shift16 8 (Z.lxor crc (Z.shiftl b 8))).
Proof.
  intros Hc Hb. unfold crc16_step. assert (Hh : byte_ok (Z.shiftr crc 8)).
  { unfold byte_ok, in_u in *. rewrite Z.shiftr_div_pow2 by lia. split; [apply Z.div_pos; lia|apply Z.div_lt_upper_bound; lia]. }
  rewrite land255_s8 by done. destruct (crc16_table_spec _ (lxor_byte _ _ Hh Hb)) as [-> _]. cbn [mbind option_bind]. f_equal.
  rewrite <- (split8 crc) at 1 3. rewrite !shift16_xor, !Z.shiftl_lxor, !shift16_xor, u16_lxor. destruct (crc16_table_spec _ (land255 crc)) as [_ ->].
  assert (E0 : u16 (Z.shiftl (Z.shiftl (Z.shiftr crc 8) 8) 8) = 0).
  { rewrite Z.shiftl_shiftl, Z.shiftl_mul_pow2 by lia. unfold wrapu. change (8 + 8) with 16. apply Z.mod_mul. lia. }
  rewrite E0, Z.lxor_0_r. by rewrite Z.lxor_assoc.
Qed.
Lemma crc16_spec data : bytes_ok data -> crc16 data = Some (crc16_ref data) /\ in_u 16 (crc16_ref data).
Proof.
  intros Hd. unfold crc16, crc16_ref. assert (H : forall crc, in_u 16 crc -> crc16_loop crc data = Some (foldl (fun crc b => shift16 8 (Z.lxor crc (Z.shiftl b 8))) crc data) /\
    in_u 16 (foldl (fun crc b => shift16 8 (Z.lxor crc (Z.shiftl b 8))) crc data)); [|apply H; unfold in_u; lia].
  induction Hd as [|b data Hb _ IH]; intros crc Hc; [done|]. cbn [crc16_loop foldl]. rewrite crc16_step_spec by done. cbn [mbind option_bind]. apply IH. cbn [shift16]. apply bit16_range.
Qed.

(** ** Hash tags *)
(** The part of a key that is hashed: what is between the first [{] and the
    first [}] after it, when there is something between them; else the key. *)
Inductive hash_part : list Z -> list Z -> Prop :=
| hash_tag a tag b : 123 ∉ a -> 125 ∉ tag -> tag <> [] -> hash_part (a ++ 123 :: tag ++ 125 :: b) tag
| hash_empty a b : 123 ∉ a -> hash_part (a ++ 123 :: 125 :: b) (a ++ 123 :: 125 :: b)
| hash_unclosed a b : 123 ∉ a -> 125 ∉ b -> hash_part (a ++ 123 :: b) (a ++ 123 :: b)
| hash_whole a : 123 ∉ a -> hash_part a a.

Lemma find_char_in c a b s : c ∉ a -> find_char c (a ++ c :: b) s = s + zlen a.
Proof.
  revert s. induction a as [|x a IH]; intros s Ha; cbn [app find_char]; [rewrite Z.eqb_refl; unfold zlen; cbn; lia|].
  destruct (Z.eqb_spec x c) as [->|]; [set_solver|]. rewrite IH by set_solver. rewrite zlen_cons. lia.
Qed.
Lemma find_char_out c a s : c ∉ a -> find_char c a s = s + zlen a.
Proof.
  revert s. induction a as [|x a IH]; intros s Ha; cbn [find_char]; [unfold zlen; cbn; lia|].
  destruct (Z.eqb_spec x c) as [->|]; [set_solver|]. rewrite IH by set_solver. rewrite zlen_cons. lia.
Qed.
Lemma first_char c (l : list Z) : c ∉ l \/ exists a b, l = a ++ c :: b /\ c ∉ a.
Proof.
  induction l as [|x l IH]; [left; set_solver|]. destruct (Z.eq_dec x c) as [->|]; [right; exists [], l; split; [done|set_solver]|].
  destruct IH as [IH|(a & b & -> & Ha)]; [left; set_solver|right; exists (x :: a), b; split; [done|set_solver]].
Qed.
Lemma hash_part_total key : exists p, hash_part key p.
Proof.
  destruct (first_char 123 key) as [H|(a & b & -> & Ha)]; [eexists; by apply hash_whole|]. destruct (first_char 125 b) as [H|(tag & b' & -> & Htag)]; [eexists; by apply hash_unclosed|].
  destruct tag as [|x tag]; [eexists; by apply hash_empty|]. eexists. by apply hash_tag.
Qed.
Lemma hash_part_bytes key p : hash_part key p -> bytes_ok key -> bytes_ok p.
Proof. intros [a tag b _ _ _| | |]; [|done..]. intros Hb. apply Forall_app in Hb as [_ Hb]. apply Forall_cons in Hb as [_ Hb]. by apply Forall_app in Hb as [Hb _]. Qed.
Lemma keyHashSlot_spec key p : bytes_ok key -> hash_part key p -> keyHashSlot key = Some (Z.land (crc16_ref p) 0x3FFF).
Proof.
  intros Hb Hp. pose proof (hash_part_bytes _ _ Hp Hb) as Hbp. destruct (crc16_spec p Hbp) as [Ep _]. unfold keyHashSlot.
  assert (Hd : forall a (x : Z) b, drop (Z.to_nat (zlen a + 1)) (a ++ x :: b) = b).
  { intros a x b. replace (Z.to_nat (zlen a + 1)) with (length (a ++ [x])) by (rewrite length_app; unfold zlen; cbn; lia). change (a ++ x :: b) with (a ++ [x] ++ b). by rewrite app_assoc, drop_app_length. }
  destruct Hp as [a tag b Ha Ht Hne|a b Ha|a b Ha Hbo|a Ha].
  - rewrite find_char_in by done. rewrite Z.add_0_l, Hd. autorewrite with zlen. pose proof (zlen_nonneg tag). pose proof (zlen_nonneg b). destruct (Z.eqb_spec (zlen a) (zlen a + (1 + (zlen tag + (1 + zlen b))))); [lia|].
    rewrite find_char_in by done. destruct (Z.eqb_spec (zlen a + 1 + zlen tag) (zlen a + (1 + (zlen tag + (1 + zlen b))))); [lia|].
    destruct (Z.eqb_spec (zlen a + 1 + zlen tag) (zlen a + 1)); [by destruct tag; [|autorewrite with zlen in *; pose proof (zlen_nonneg tag); lia]|]. cbn [orb].
    change (a ++ 123 :: tag ++ 125 :: b) with (a ++ [123] ++ tag ++ 125 :: b). rewrite app_assoc, load_app by (autorewrite with zlen; lia). cbn [mbind option_bind]. by rewrite Ep.
  - rewrite find_char_in by done. rewrite Z.add_0_l, Hd. autorewrite with zlen. pose proof (zlen_nonneg b). destruct (Z.eqb_spec (zlen a) (zlen a + (1 + (1 + zlen b)))); [lia|].
    cbn [find_char]. rewrite Z.eqb_refl. rewrite Z.eqb_refl, orb_true_r. by rewrite Ep.
  - rewrite find_char_in by done. rewrite Z.add_0_l, Hd. autorewrite with zlen. pose proof (zlen_nonneg b). destruct (Z.eqb_spec (zlen a) (zlen a + (1 + zlen b))); [lia|].
    rewrite find_char_out by done. replace (zlen a + 1 + zlen b =? zlen a + (1 + zlen b)) with true by lia. cbn [orb]. by rewrite Ep.
  - rewrite find_char_out by done. rewrite Z.add_0_l, Z.eqb_refl. by rewrite Ep.
Qed.

(** ** Theorems *)
(** C25: on a little-endian host the table-driven crc64 (aligned or not,
    eight bytes at a time) of any data equals the bit-by-bit definition the
    tables are generated from; it can be computed piecewise, as the streaming
    code does; and two blocks that differ only inside a window of at most
    eight bytes have different checksums, whatever surrounds it. *)
Theorem crc64_correct :
  exists t, crc64_init false = Some t /\
    (forall addr data, bytes_ok data -> crc64 false t addr 0 data = Some (_crc64 0 data)) /\
    (forall addr addr1 addr2 crc a b, in_u 64 crc -> bytes_ok (a ++ b) ->
       (c ← crc64 false t addr1 crc a; crc64 false t addr2 c b) = crc64 false t addr crc (a ++ b)) /\
    (forall addr crc p x y s, in_u 64 crc -> bytes_ok (p ++ x ++ s) -> bytes_ok y -> length x = length y -> (length x <= 8)%nat -> x <> y ->
       crc64 false t addr crc (p ++ x ++ s) <> crc64 false t addr crc (p ++ y ++ s)).
Proof.
  destruct little_init_spec as (t & Et & Ht). exists t. split; [exact Et|]. split; [|split].
  - intros addr data Hd. assert (H0 : in_u 64 0) by (unfold in_u; lia). rewrite (crc64_little_spec t Ht addr 0 data H0 Hd), _crc64_spec by exact Hd. reflexivity.
  - intros addr addr1 addr2 crc a b Hc Hb. pose proof Hb as Hb'. apply Forall_app in Hb as [Ha Hb]. rewrite (crc64_little_spec t Ht _ _ a Hc Ha). cbn [mbind option_bind].
    rewrite (crc64_little_spec t Ht _ _ b (crc64_ref_range _ _ Hc Ha) Hb), (crc64_little_spec t Ht _ _ _ Hc Hb'), crc64_ref_app. reflexivity.
  - intros addr crc p x y s Hc Hb Hy Hl H8 Hne E. assert (Hb2 : bytes_ok (p ++ y ++ s)) by (apply Forall_app in Hb as [Hp Hb]; apply Forall_app in Hb as [_ Hs]; auto with cmem).
    rewrite (crc64_little_spec t Ht _ _ _ Hc Hb), (crc64_little_spec t Ht _ _ _ Hc Hb2) in E. injection E as E. by apply Hne, (crc64_ref_burst crc p x y s).
Qed.

(** C40: on a big-endian host crcspeed64little_init takes the checksum of the
    first byte of the [int] [n], which is its most significant byte: every
    entry of the tables is zero and the crc64 of every block is 0. *)
Theorem crc64_big_endian :
  exists t, crc64_init true = Some t /\ forall addr data, bytes_ok data -> crc64 true t addr 0 data = Some 0.
Proof.
  exists (replicate 8 (replicate 256 0)). split; [vm_compute; reflexivity|]. pose (t := replicate 8 (replicate 256 0)). fold t. intros addr data Hd.
  assert (Htab : forall k n, (k < 8)%nat -> byte_ok n -> tab t k n = Some 0).
  { intros k n Hk Hn. unfold tab, t. unfold byte_ok in Hn. rewrite lookup_replicate_2 by done. cbn [mbind option_bind]. unfold load1. destruct (Z.leb_spec 0 n); [|lia].
    by rewrite lookup_replicate_2 by lia. }
  assert (Hbyte : forall b, byte_ok b -> big_byte t 0 b = Some 0) by (intros b Hb; unfold big_byte; rewrite Z.shiftr_0_l, Z.lxor_0_l, Htab by (done || lia); done).
  assert (Hword : forall w, in_u 64 w -> big_word t 0 w = Some 0).
  { intros w Hw. unfold big_word, octet_at. rewrite Z.lxor_0_l. cbn [xor_tabs]. assert (byte_ok (Z.shiftr w 56)).
    { unfold byte_ok, in_u in *. rewrite Z.shiftr_div_pow2 by lia. split; [apply Z.div_pos; lia|apply Z.div_lt_upper_bound; lia]. }
    rewrite !Htab by (done || lia || apply land255). done. }
  unfold crc64, crcspeed64native, crcspeed64big, crcspeed_run. change (rev8 0) with 0.
  assert (Ha : exists rest, align_loop big_byte t addr 0 data = Some (0, rest) /\ bytes_ok rest).
  { revert addr. induction Hd as [|b l Hb Hl IH]; intros addr; [by exists []|]. cbn [align_loop]. destruct (Z.land addr 7 =? 0); cbn [negb]; [exists (b :: l); by split; [|constructor]|].
    rewrite Hbyte by done. apply IH. }
  destruct Ha as (r1 & -> & Hr1). cbn [mbind option_bind].
  assert (Hw : forall fuel l, bytes_ok l -> (length l <= fuel)%nat -> exists rest, word_loop true big_word t fuel 0 l = Some (0, rest) /\ bytes_ok rest).
  { induction fuel as [|fuel IH]; intros l Hl Hf; cbn [word_loop]; rewrite Z.geb_leb; destruct (Z.leb_spec 8 (zlen l)) as [H8|_]; [unfold zlen in H8; lia|by exists l| |by exists l].
    destruct (split_at l 8) as (w & rest & -> & Hw & _); [lia|]. apply Forall_app in Hl as [Hbw Hbr]. rewrite load_prefix by done. cbn [mbind option_bind].
    rewrite Hword; [cbn [mbind option_bind]|unfold native_val, in_u; assert (Hrw : bytes_ok (rev w)) by (by apply Forall_rev); pose proof (le_val_range _ Hrw) as Hlv; unfold zlen in *; rewrite length_rev in Hlv; rewrite Hw in Hlv; exact Hlv].
    rewrite drop_app_length' by (unfold zlen in Hw; lia). apply IH; [done|]. rewrite length_app in Hf. unfold zlen in Hw. lia. }
  destruct (Hw (length r1) r1 Hr1) as (r2 & -> & Hr2); [done|]. cbn [mbind option_bind].
  assert (Htail : tail_loop big_byte t 0 r2 = Some 0) by (induction Hr2 as [|b l Hb _ IH]; [done|]; cbn [tail_loop]; rewrite Hbyte by done; exact IH).
  by rewrite Htail.
Qed.

(** C27: keyHashSlot returns the low 14 bits of the CRC-16 (polynomial
    0x1021, computed bit by bit) of the hash tag of the key, the bytes between
    the first brace and the first closing brace after it, or of the whole key
    when there is no such non-empty tag: a slot below 16384, the same for all
    keys that share a tag. *)
Theorem keyHashSlot_correct (key : list Z) (Hb : bytes_ok key) :
  exists slot, keyHashSlot key = Some slot /\ 0 <= slot < 16384 /\
    (exists p, hash_part key p) /\ forall p, hash_part key p -> slot = Z.land (crc16_ref p) 0x3FFF.
Proof.
  destruct (hash_part_total key) as [p Hp]. exists (Z.land (crc16_ref p) 0x3FFF). split; [by apply keyHashSlot_spec|]. split; [|split; [eauto|]].
  - change 0x3FFF with (Z.ones 14). rewrite Z.land_ones by lia. apply Z.mod_pos_bound. lia.
  - intros p' Hp'. pose proof (keyHashSlot_spec key p Hb Hp) as E1. pose proof (keyHashSlot_spec key p' Hb Hp') as E2. rewrite E1 in E2. by injection E2.
Qed.
Lemma keyHashSlot_witness :
  exists slot, keyHashSlot [102; 123; 97; 98; 125; 103] = Some slot /\ slot = Z.land (crc16_ref [97; 98]) 0x3FFF.
Proof.
  destruct (keyHashSlot_correct [102; 123; 97; 98; 125; 103]) as (slot & E & _ & _ & Hs); [repeat constructor; unfold byte_ok; lia|]. exists slot. split; [exact E|].
  apply Hs. apply (hash_tag [102] [97; 98] [103]); set_solver.
Defined.
