(* ===== verification/Rio.v ===== *)
(** * rio.h, rio.c: the stream abstraction of RDB and AOF

    A stream has a backend (memory, file, socket), a running checksum, error
    flags and an optional bound on the size of single operations.  What the
    backends promise is the class [Backend]; the checksum is the class
    [Checksum], which [Crc] implements.  The memory backend of rio.c is an
    instance; the others go through the C library and the network.

    [writes f bs] and [parses f bs a] are the contracts the clients (rdb.c)
    are proved against: [f] appends [bs] and returns its length or fails with
    a prefix written; [f] consumes exactly [bs] and returns [a], and fails on
    every strict prefix of it. *)
From S2P Require Import Prelude Endian Crc.

(** ** Interfaces *)
Class Checksum := {
  crc : Z -> list Z -> Z;
  crc_nil c : in_u 64 c -> crc c [] = c;
  crc_app c a b : in_u 64 c -> bytes_ok a -> bytes_ok b -> crc (crc c a) b = crc c (a ++ b);
  crc_range c a : in_u 64 c -> bytes_ok a -> in_u 64 (crc c a);
  crc_burst c p x y s : in_u 64 c -> bytes_ok (p ++ x ++ s) -> bytes_ok y -> length x = length y -> (length x <= 8)%nat ->
    crc c (p ++ x ++ s) = crc c (p ++ y ++ s) -> x = y
}.

(** The methods of a backend: [write] tells whether it succeeded, [read]
    returns the bytes or fails.  A failed write may have written a part. *)
Class Backend (B : Type) := {
  b_write : B -> list Z -> B * bool;
  b_read : B -> Z -> B * option (list Z);
  written : B -> list Z;
  pending : B -> list Z;
  b_write_spec b bs : exists p, p `prefix_of` bs /\ written (b_write b bs).1 = written b ++ p /\ ((b_write b bs).2 = true -> p = bs);
  b_read_spec b n bs : 0 < n -> (b_read b n).2 = Some bs -> pending b = bs ++ pending (b_read b n).1 /\ zlen bs = n;
  b_read_short b n : zlen (pending b) < n -> (b_read b n).2 = None;
  (** No I/O error happens while reading. *)
  readable : B -> Prop;
  b_read_ok b n : readable b -> 0 < n <= zlen (pending b) -> is_Some (b_read b n).2 /\ readable (b_read b n).1
}.

Definition RIO_FLAG_READ_ERROR : Z := Z.shiftl 1 0.
Definition RIO_FLAG_WRITE_ERROR : Z := Z.shiftl 1 1.

Record rio (B : Type) := mk_rio {
  io : B;
  update_cksum : bool;
  cksum : Z;
  flags : Z;
  processed_bytes : Z;
  max_processing_chunk : Z
}.
Arguments mk_rio {B}.
Arguments io {B}.
Arguments update_cksum {B}.
Arguments cksum {B}.
Arguments flags {B}.
Arguments processed_bytes {B}.
Arguments max_processing_chunk {B}.

Definition hasflag (fl f : Z) : bool := negb (Z.land fl f =? 0).

(** ** The memory backend *)
Record buffer := mk_buffer { ptr : list Z; pos : Z }.
Definition rioBufferWrite (b : buffer) (bs : list Z) : buffer * bool := (mk_buffer (ptr b ++ bs) (pos b + zlen bs), true).
Definition rioBufferRead (b : buffer) (len : Z) : buffer * option (list Z) :=
  if zlen (ptr b) - pos b <? len then (b, None)
  else match load (ptr b) (pos b) len with
       | Some bs => (mk_buffer (ptr b) (pos b + len), Some bs)
       | None => (b, None)
       end.
Definition rioInitWithBuffer (s : list Z) : rio buffer := mk_rio (mk_buffer s 0) false 0 0 0 0.

Section Rio.
  Context {B : Type} `{Backend B} `{Checksum}.

Definition rioGenericUpdateChecksum (r : rio B) (buf : list Z) : rio B :=
  mk_rio (io r) (update_cksum r) (crc (cksum r) buf) (flags r) (processed_bytes r) (max_processing_chunk r).
Definition update (r : rio B) (buf : list Z) : rio B := if update_cksum r then rioGenericUpdateChecksum r buf else r.
Definition set_io (r : rio B) (b : B) : rio B := mk_rio b (update_cksum r) (cksum r) (flags r) (processed_bytes r) (max_processing_chunk r).
Definition set_flag (r : rio B) (f : Z) : rio B := mk_rio (io r) (update_cksum r) (cksum r) (Z.lor (flags r) f) (processed_bytes r) (max_processing_chunk r).
Definition add_processed (r : rio B) (n : Z) : rio B :=
  mk_rio (io r) (update_cksum r) (cksum r) (flags r) (u64 (processed_bytes r + n)) (max_processing_chunk r).
Definition chunk_of (r : rio B) (len : Z) : Z :=
  if negb (max_processing_chunk r =? 0) && (max_processing_chunk r <? len) then max_processing_chunk r else len.

(** [while (len) ...]; the result is whether it succeeded. *)
Fixpoint write_loop (fuel : nat) (r : rio B) (buf : list Z) : rio B * bool :=
  match fuel with
  | O => (r, true)
  | S fuel =>
      if zlen buf =? 0 then (r, true)
      else
        let n := chunk_of r (zlen buf) in
        let now := take (Z.to_nat n) buf in
        let r := update r now in
        let '(b, ok) := b_write (io r) now in
        let r := set_io r b in
        if (ok : bool) then write_loop fuel (add_processed r n) (drop (Z.to_nat n) buf)
        else (set_flag r RIO_FLAG_WRITE_ERROR, false)
  end.
Definition rioWrite (r : rio B) (buf : list Z) : rio B * bool :=
  if hasflag (flags r) RIO_FLAG_WRITE_ERROR then (r, false) else write_loop (length buf) r buf.

Fixpoint read_loop (fuel : nat) (r : rio B) (len : Z) (acc : list Z) : rio B * option (list Z) :=
  match fuel with
  | O => (r, Some acc)
  | S fuel =>
      if len =? 0 then (r, Some acc)
      else
        let n := chunk_of r len in
        let '(b, res) := b_read (io r) n in
        let r := set_io r b in
        match res with
        | None => (set_flag r RIO_FLAG_READ_ERROR, None)
        | Some bs => read_loop fuel (add_processed (update r bs) n) (len - n) (acc ++ bs)
        end
  end.
Definition rioRead (r : rio B) (len : Z) : rio B * option (list Z) :=
  if hasflag (flags r) RIO_FLAG_READ_ERROR then (r, None) else read_loop (Z.to_nat len) r len [].

Definition rioGetReadError (r : rio B) : bool := hasflag (flags r) RIO_FLAG_READ_ERROR.
Definition rioGetWriteError (r : rio B) : bool := hasflag (flags r) RIO_FLAG_WRITE_ERROR.
Definition rioClearErrors (r : rio B) : rio B :=
  mk_rio (io r) (update_cksum r) (cksum r) (Z.land (flags r) (Z.lnot (Z.lor RIO_FLAG_READ_ERROR RIO_FLAG_WRITE_ERROR))) (processed_bytes r) (max_processing_chunk r).

(** ** Contracts *)
Definition rio_ok (r : rio B) : Prop := in_u 64 (cksum r) /\ 0 <= max_processing_chunk r.
Definition sum_with (r : rio B) (bs : list Z) : Z := if update_cksum r then crc (cksum r) bs else cksum r.

(** [r'] is [r] after all of [bs] went through it. *)
Record passed (r r' : rio B) (bs : list Z) : Prop := {
  pass_upd : update_cksum r' = update_cksum r;
  pass_sum : cksum r' = sum_with r bs;
  pass_flags : flags r' = flags r;
  pass_chunk : max_processing_chunk r' = max_processing_chunk r
}.
Lemma passed_nil r : rio_ok r -> passed r r [].
Proof. intros [Hc _]. constructor; try done. unfold sum_with. destruct (update_cksum r); [by rewrite crc_nil|done]. Qed.
Lemma passed_app r1 r2 r3 a b : rio_ok r1 -> bytes_ok a -> bytes_ok b -> passed r1 r2 a -> passed r2 r3 b -> passed r1 r3 (a ++ b).
Proof.
  intros [Hc _] Ha Hb [U1 S1 F1 C1] [U2 S2 F2 C2]. constructor; try congruence. rewrite S2. unfold sum_with in *. rewrite U1, S1. destruct (update_cksum r1); [by rewrite crc_app|done].
Qed.
Lemma passed_ok r r' bs : rio_ok r -> bytes_ok bs -> passed r r' bs -> rio_ok r'.
Proof.
  intros [Hc Hk] Hb [U S F C]. split; [|by rewrite C]. rewrite S. unfold sum_with. destruct (update_cksum r); [by apply crc_range|done].
Qed.

(** The outcome of appending [bs] to a stream. *)
Definition outcome (r r' : rio B) (bs : list Z) (ok : bool) : Prop :=
  if ok then passed r r' bs /\ written (io r') = written (io r) ++ bs
  else rioGetWriteError r' = true /\ (exists p, p `prefix_of` bs /\ written (io r') = written (io r) ++ p) /\
       (rioGetWriteError r = true \/ exists b x, (b_write b x).2 = false).
Lemma set_flag_has r f : 0 < f -> (exists n, f = 2 ^ n /\ 0 <= n) -> hasflag (flags (set_flag r f)) f = true.
Proof.
  intros Hf (n & -> & Hn). unfold hasflag, set_flag. cbn [flags]. apply negb_true_iff, Z.eqb_neq. intros E.
  assert (Hb : Z.testbit (Z.land (Z.lor (flags r) (2 ^ n)) (2 ^ n)) n = true) by (rewrite Z.land_spec, Z.lor_spec, !Z.pow2_bits_true by lia; by rewrite orb_true_r).
  rewrite E, Z.bits_0 in Hb. done.
Qed.

Lemma chunk_range r len : 0 <= max_processing_chunk r -> 0 < len -> 0 < chunk_of r len <= len.
Proof.
  intros Hk Hl. unfold chunk_of. destruct (Z.eqb_spec (max_processing_chunk r) 0); cbn [negb andb]; [lia|]. destruct (Z.ltb_spec (max_processing_chunk r) len); lia.
Qed.

Lemma write_loop_spec fuel : forall r buf, rio_ok r -> bytes_ok buf -> (length buf <= fuel)%nat ->
  exists r' ok, write_loop fuel r buf = (r', ok) /\ outcome r r' buf ok.
Proof.
  induction fuel as [|fuel IH]; intros r buf Hok Hb Hf; cbn [write_loop].
  - destruct buf; [|cbn in Hf; lia]. eexists r, true. split; [done|]. split; [by apply passed_nil|by rewrite app_nil_r].
  - destruct (Z.eqb_spec (zlen buf) 0) as [E|Hne].
    { destruct buf; [|rewrite zlen_cons in E; pose proof (zlen_nonneg buf); lia]. eexists r, true. split; [done|]. split; [by apply passed_nil|by rewrite app_nil_r]. }
    pose proof (zlen_nonneg buf). destruct (chunk_range r (zlen buf)) as [Hn1 Hn2]; [apply Hok|lia|]. set (n := chunk_of r (zlen buf)) in *.
    destruct (split_at buf n) as (now & rest & -> & Hnow & Hrest); [lia|]. apply Forall_app in Hb as [Hbn Hbr].
    replace (Z.to_nat n) with (length now) by (unfold zlen in Hnow; lia). rewrite take_app_length, drop_app_length.
    assert (Ei : io (update r now) = io r) by (unfold update; destruct (update_cksum r); done). rewrite Ei.
    pose proof (b_write_spec (io r) now) as (p & Hp & Hw & Hpt). destruct (b_write (io r) now) as [b ok] eqn:Ebw. cbn [fst snd] in *. destruct ok.
    + set (r1 := add_processed _ _). assert (P1 : passed r r1 now) by (unfold r1, update, sum_with; destruct (update_cksum r) eqn:Eu; constructor; unfold sum_with; cbn; rewrite ?Eu; done).
      rewrite length_app in Hf. assert (0 < length now)%nat by (unfold zlen in Hnow; lia).
      destruct (IH r1 rest) as (r' & ok' & E' & Ho); [by apply (passed_ok r r1 now)|done|lia|]. exists r', ok'. split; [done|]. specialize (Hpt eq_refl). subst p.
      assert (Ew : written (io r1) = written (io r) ++ now) by done. destruct ok'; cbn [outcome] in *.
      * destruct Ho as [P2 W2]. split; [by apply (passed_app r r1 r')|]. by rewrite W2, Ew, <- app_assoc.
      * destruct Ho as (Hfl & (p & Hp' & W2) & Hwhy). split; [done|]. split; [|destruct Hwhy; [left|by right]; unfold rioGetWriteError in *; by rewrite <- (pass_flags _ _ _ P1)].
        exists (now ++ p). split; [by apply prefix_app|]. by rewrite W2, Ew, <- app_assoc.
    + eexists _, false. split; [done|]. split; [apply set_flag_has; [done|by exists 1]|]. split; [exists p; split; [by apply prefix_app_r|done]|].
      right. exists (io r), now. by rewrite Ebw.
Qed.
Lemma rioWrite_spec r buf : rio_ok r -> bytes_ok buf -> exists r' ok, rioWrite r buf = (r', ok) /\ outcome r r' buf ok.
Proof.
  intros Hok Hb. unfold rioWrite. destruct (hasflag (flags r) RIO_FLAG_WRITE_ERROR) eqn:E; [|by apply write_loop_spec].
  eexists r, false. split; [done|]. split; [done|]. split; [exists []; split; [apply prefix_nil|by rewrite app_nil_r]|by left].
Qed.

(** ** Save functions
    They return -1 on error and a length otherwise; a NULL stream only counts.
    The outer option is undefined behaviour. *)
Definition save : Type := option (rio B) -> option (option (rio B) * Z).

(** [if ((n = f) == -1) return -1; nwritten += n; ...] *)
Definition save_add (f g : save) : save := fun rdb =>
  '(rdb, n) ← f rdb;
  if n =? -1 then Some (rdb, -1)
  else '(rdb, m) ← g rdb; if m =? -1 then Some (rdb, -1) else Some (rdb, n + m).
Definition save_ret (n : Z) : save := fun rdb => Some (rdb, n).

Definition writes (f : save) (bs : list Z) : Prop :=
  bytes_ok bs /\ f None = Some (None, zlen bs) /\
  forall r, rio_ok r -> exists r' ok, f (Some r) = Some (Some r', if (ok : bool) then zlen bs else -1) /\ outcome r r' bs ok.

Lemma writes_nil : writes (save_ret 0) [].
Proof. split; [constructor|]. split; [done|]. intros r Hr. exists r, true. split; [done|]. split; [by apply passed_nil|by rewrite app_nil_r]. Qed.
Lemma outcome_app r r1 r2 a b ok : rio_ok r -> bytes_ok a -> bytes_ok b -> outcome r r1 a true -> outcome r1 r2 b ok -> outcome r r2 (a ++ b) ok.
Proof.
  intros Hr Ha Hb [P1 W1] O2. destruct ok; cbn [outcome] in *.
  - destruct O2 as [P2 W2]. split; [by apply (passed_app r r1 r2)|]. by rewrite W2, W1, <- app_assoc.
  - destruct O2 as (Hf & (p & Hp & W2) & Hwhy). split; [done|].
    split; [|destruct Hwhy; [left|by right]; unfold rioGetWriteError in *; by rewrite <- (pass_flags _ _ _ P1)].
    exists (a ++ p). split; [by apply prefix_app|]. by rewrite W2, W1, <- app_assoc.
Qed.
Lemma outcome_fail r r1 a b : outcome r r1 a false -> outcome r r1 (a ++ b) false.
Proof. intros (Hf & (p & Hp & W1) & Hwhy). split; [done|]. split; [|done]. exists p. split; [by apply prefix_app_r|done]. Qed.

Lemma writes_add f g a b : writes f a -> writes g b -> writes (save_add f g) (a ++ b).
Proof.
  intros (Ba & Na & Fa) (Bb & Nb & Fb). pose proof (zlen_nonneg a). pose proof (zlen_nonneg b). unfold save_add. split; [auto with cmem|]. split.
  - rewrite Na. cbn [mbind option_bind]. destruct (Z.eqb_spec (zlen a) (-1)); [lia|]. rewrite Nb. cbn [mbind option_bind]. destruct (Z.eqb_spec (zlen b) (-1)); [lia|]. by rewrite zlen_app.
  - intros r Hr. destruct (Fa r Hr) as (r1 & ok1 & -> & O1). cbn [mbind option_bind]. destruct ok1; [|exists r1, false; split; [done|by apply outcome_fail]].
    destruct (Z.eqb_spec (zlen a) (-1)); [lia|]. destruct (Fb r1) as (r2 & ok2 & -> & O2); [apply (passed_ok r r1 a); [done|done|apply O1]|]. cbn [mbind option_bind].
    exists r2, ok2. split; [|by apply (outcome_app r r1 r2)]. destruct ok2; [|done]. destruct (Z.eqb_spec (zlen b) (-1)); [lia|]. by rewrite zlen_app.
Qed.
(** A guard that returns early on error, whatever is computed after. *)
Lemma writes_ext f g bs : (forall rdb, g rdb = f rdb) -> writes f bs -> writes g bs.
Proof. intros E (B0 & N & F). split; [done|]. split; [by rewrite E|]. intros r Hr. rewrite E. by apply F. Qed.

(** Save functions that return a status instead of a length:
    [if (f == -1) return -1; ...]. *)
Definition save_then (f g : save) : save := fun rdb =>
  '(rdb, n) ← f rdb; if n =? -1 then Some (rdb, -1) else g rdb.
(** [f] appends [bs] to the stream and returns [n], or fails. *)
Definition emits (n : Z) (f : save) (bs : list Z) : Prop :=
  bytes_ok bs /\ 0 <= n /\
  forall r, rio_ok r -> exists r' ok, f (Some r) = Some (Some r', if (ok : bool) then n else -1) /\ outcome r r' bs ok.
Lemma writes_emits f bs : writes f bs -> emits (zlen bs) f bs.
Proof. intros (Hb & _ & F). split; [done|]. split; [apply zlen_nonneg|done]. Qed.
Lemma emits_ret n : 0 <= n -> emits n (save_ret n) [].
Proof. intros Hn. split; [constructor|]. split; [done|]. intros r Hr. exists r, true. split; [done|]. split; [by apply passed_nil|by rewrite app_nil_r]. Qed.
Lemma emits_then n m f g a b : emits n f a -> emits m g b -> emits m (save_then f g) (a ++ b).
Proof.
  intros (Ba & Hn & Fa) (Bb & Hm & Fb). split; [auto with cmem|]. split; [done|]. intros r Hr. unfold save_then.
  destruct (Fa r Hr) as (r1 & ok1 & -> & O1). cbn [mbind option_bind]. destruct ok1; [|exists r1, false; split; [done|by apply outcome_fail]].
  destruct (Z.eqb_spec n (-1)); [lia|]. destruct (Fb r1) as (r2 & ok2 & -> & O2); [apply (passed_ok r r1 a); [done|done|apply O1]|].
  exists r2, ok2. split; [done|by apply (outcome_app r r1 r2)].
Qed.

Lemma emits_ext n f g bs : (forall rdb, g rdb = f rdb) -> emits n f bs -> emits n g bs.
Proof. intros E (B0 & Hn & F). split; [done|]. split; [done|]. intros r Hr. rewrite E. by apply F. Qed.

(** ** Load functions
    [Err] is a short read (NULL or -1), [Exit] a corrupted stream, which ends
    the process. *)
Inductive lres (A : Type) := Ok (a : A) | Err | Exit.
Arguments Ok {A}.
Arguments Err {A}.
Arguments Exit {A}.
Definition load_t (A : Type) : Type := rio B -> option (rio B * lres A).

Definition load_ret {A} (a : A) : load_t A := fun r => Some (r, Ok a).
Definition load_fail {A} : load_t A := fun r => Some (r, Err).
Definition load_exit {A} : load_t A := fun r => Some (r, Exit).
Definition load_bind {A C} (f : load_t A) (g : A -> load_t C) : load_t C := fun r =>
  '(r, x) ← f r;
  match x with Ok a => g a r | Err => Some (r, Err) | Exit => Some (r, Exit) end.
Definition read (n : Z) : load_t (list Z) := fun r =>
  let '(r, res) := rioRead r n in Some (r, match res with Some bs => Ok bs | None => Err end).
(** The same, with a value for the error instead of a failure. *)
Definition read_or {A} (n : Z) (f : list Z -> A) (err : A) : load_t A := fun r =>
  let '(r, res) := rioRead r n in Some (r, Ok (match res with Some bs => f bs | None => err end)).

(** The stream can be read; what is left of it. *)
Definition ready (r : rio B) : Prop := rioGetReadError r = false /\ readable (io r).
Definition remains (r : rio B) (rest : list Z) : Prop := pending (io r) = rest /\ readable (io r).
Definition parses {A} (f : load_t A) (bs : list Z) (a : A) : Prop :=
  bytes_ok bs /\
  forall r, rio_ok r -> ready r ->
    (forall rest, pending (io r) = bs ++ rest -> exists r', f r = Some (r', Ok a) /\ passed r r' bs /\ remains r' rest) /\
    (forall p q, bs = p ++ q -> q <> [] -> pending (io r) = p -> exists r', f r = Some (r', Err)).

Lemma passed_noerr r r' bs : passed r r' bs -> rioGetReadError r = false -> rioGetReadError r' = false.
Proof. intros [_ _ F _]. unfold rioGetReadError. by rewrite F. Qed.
Lemma passed_ready r r' bs rest : passed r r' bs -> ready r -> remains r' rest -> ready r'.
Proof. intros P [He _] [_ Hr]. split; [by apply (passed_noerr r r' bs)|done]. Qed.
Lemma parses_ret {A} (a : A) : parses (load_ret a) [] a.
Proof.
  split; [constructor|]. intros r Hr He. split.
  - intros rest Hp. exists r. split; [done|]. split; [by apply passed_nil|]. split; [done|apply He].
  - intros p q E Hq. symmetry in E. apply app_eq_nil in E as [_ ->]. done.
Qed.
Lemma parses_bind {A C} (f : load_t A) (g : A -> load_t C) a b x y : parses f a x -> parses (g x) b y -> parses (load_bind f g) (a ++ b) y.
Proof.
  intros [Ba Fa] [Bb Fb]. split; [auto with cmem|]. intros r Hr He. destruct (Fa r Hr He) as [F1 F2]. unfold load_bind. split.
  - intros rest Hp. rewrite <- app_assoc in Hp. destruct (F1 _ Hp) as (r1 & -> & P1 & R1). cbn [mbind option_bind].
    destruct (Fb r1) as [G1 _]; [by apply (passed_ok r r1 a)|by apply (passed_ready r r1 a (b ++ rest))|]. destruct (G1 _ (proj1 R1)) as (r2 & -> & P2 & R2). exists r2. split; [done|]. split; [by apply (passed_app r r1 r2)|done].
  - intros p q E Hq Hp. apply app_eq_inv in E as [(l & -> & ->)|(l & -> & ->)].
    + destruct l as [|z l].
      * rewrite app_nil_r in *. destruct (F1 []) as (r1 & -> & P1 & R1); [by rewrite app_nil_r|]. cbn [mbind option_bind].
        destruct (Fb r1) as [_ G2]; [by apply (passed_ok r r1 p)|by apply (passed_ready r r1 p [])|]. apply (G2 [] b); [done|done|apply R1].
      * destruct (F2 p (z :: l)) as (r1 & ->); [done|done|done|]. cbn [mbind option_bind]. eauto.
    + destruct (F1 l Hp) as (r1 & -> & P1 & R1). cbn [mbind option_bind].
      destruct (Fb r1) as [_ G2]; [by apply (passed_ok r r1 a)|by apply (passed_ready r r1 a l)|]. apply (G2 l q); [done|done|apply R1].
Qed.
Lemma parses_map {A C} (f : load_t A) (g : A -> load_t C) a x y : parses f a x -> parses (g x) [] y -> parses (load_bind f g) a y.
Proof. intros F G. rewrite <- (app_nil_r a). by apply (parses_bind f g a [] x). Qed.
Lemma parses_ext {A} (f g : load_t A) bs a : (forall r, g r = f r) -> parses f bs a -> parses g bs a.
Proof. intros E [B0 F]. split; [done|]. intros r Hr He. rewrite !E. by apply F. Qed.

Lemma read_loop_ok fuel : forall r bs rest acc, rio_ok r -> readable (io r) -> bytes_ok bs -> pending (io r) = bs ++ rest -> (length bs <= fuel)%nat ->
  exists r', read_loop fuel r (zlen bs) acc = (r', Some (acc ++ bs)) /\ passed r r' bs /\ remains r' rest.
Proof.
  induction fuel as [|fuel IH]; intros r bs rest acc Hr Hrd Hb Hp Hf; cbn [read_loop].
  - destruct bs; [|cbn in Hf; lia]. exists r. rewrite app_nil_r. split; [done|]. split; [by apply passed_nil|by split].
  - destruct (Z.eqb_spec (zlen bs) 0) as [E|Hne].
    { destruct bs; [|rewrite zlen_cons in E; pose proof (zlen_nonneg bs); lia]. exists r. rewrite app_nil_r. split; [done|]. split; [by apply passed_nil|by split]. }
    pose proof (zlen_nonneg bs). pose proof (zlen_nonneg rest). destruct (chunk_range r (zlen bs)) as [Hn1 Hn2]; [apply Hr|lia|]. set (n := chunk_of r (zlen bs)) in *.
    destruct (b_read_ok (io r) n Hrd) as [[x Hx] Hrd']; [rewrite Hp, zlen_app; lia|]. pose proof (b_read_spec (io r) n x Hn1 Hx) as [Hx1 Hx2].
    destruct (b_read (io r) n) as [b res]. cbn [fst snd] in *. subst res. rewrite Hp in Hx1.
    destruct (split_at bs n) as (b1 & b2 & -> & Hl1 & Hl2); [lia|]. rewrite <- app_assoc in Hx1. apply app_inj_1 in Hx1 as [<- Hx1]; [|unfold zlen in *; lia].
    apply Forall_app in Hb as [Hb1 Hb2].
    set (r1 := add_processed _ _). assert (P1 : passed r r1 b1) by (unfold r1, update, sum_with; cbn [update_cksum set_io]; destruct (update_cksum r) eqn:Eu; constructor; unfold sum_with; cbn; rewrite ?Eu; done).
    assert (Ep : pending (io r1) = b2 ++ rest) by (unfold r1, update; destruct (update_cksum _); cbn; done). rewrite length_app in Hf. assert (0 < length b1)%nat by (unfold zlen in Hl1; lia).
    assert (Hrd1 : readable (io r1)) by (unfold r1, update; destruct (update_cksum _); cbn; done).
    replace (zlen (b1 ++ b2) - n) with (zlen b2) by lia. destruct (IH r1 b2 rest (acc ++ b1)) as (r' & -> & P2 & R2); [by apply (passed_ok r r1 b1)|done|done|done|lia|].
    exists r'. rewrite <- app_assoc. split; [done|]. split; [by apply (passed_app r r1 r')|done].
Qed.
Lemma read_loop_short fuel : forall r len acc, 0 <= max_processing_chunk r -> zlen (pending (io r)) < len -> len <= Z.of_nat fuel ->
  exists r', read_loop fuel r len acc = (r', None).
Proof.
  induction fuel as [|fuel IH]; intros r len acc Hk Hl Hf; cbn [read_loop]; pose proof (zlen_nonneg (pending (io r))); [lia|].
  destruct (Z.eqb_spec len 0) as [|Hne]; [lia|]. destruct (chunk_range r len Hk) as [Hn1 Hn2]; [lia|]. set (n := chunk_of r len) in *.
  pose proof (b_read_spec (io r) n) as Hs. destruct (b_read (io r) n) as [b [x|]]; cbn [fst snd] in *; [|eauto].
  destruct (Hs x Hn1 eq_refl) as [Hp Hx]. apply IH; [unfold update; by destruct (update_cksum _)| |lia].
  assert (E : pending (io (add_processed (update (set_io r b) x) n)) = pending b) by (unfold update; by destruct (update_cksum _)). rewrite E, Hp, zlen_app in *. lia.
Qed.

Lemma rioRead_ok r bs rest : rio_ok r -> ready r -> bytes_ok bs -> pending (io r) = bs ++ rest ->
  exists r', rioRead r (zlen bs) = (r', Some bs) /\ passed r r' bs /\ remains r' rest.
Proof. intros Hr [He Hrd] Hb Hp. unfold rioRead. unfold rioGetReadError in He. rewrite He. apply (read_loop_ok _ r bs rest []); try done. unfold zlen. lia. Qed.
Lemma rioRead_short r n : rio_ok r -> rioGetReadError r = false -> zlen (pending (io r)) < n -> exists r', rioRead r n = (r', None).
Proof. intros Hr He Hp. unfold rioRead. unfold rioGetReadError in He. rewrite He. pose proof (zlen_nonneg (pending (io r))). apply read_loop_short; [apply Hr|done|lia]. Qed.
Lemma rioRead_prefix r p q : rio_ok r -> ready r -> q <> [] -> pending (io r) = p -> exists r', rioRead r (zlen (p ++ q)) = (r', None).
Proof. intros Hr [He _] Hq Hp. apply rioRead_short; [done..|]. rewrite Hp, zlen_app. destruct q; [done|]. rewrite zlen_cons. pose proof (zlen_nonneg q). lia. Qed.
Lemma parses_read bs n : bytes_ok bs -> zlen bs = n -> parses (read n) bs bs.
Proof.
  intros Hb <-. split; [done|]. intros r Hr He. unfold read. split.
  - intros rest Hp. destruct (rioRead_ok r bs rest Hr He Hb Hp) as (r' & -> & P & R). exists r'. done.
  - intros p q -> Hq Hp. destruct (rioRead_prefix r p q Hr He Hq Hp) as (r' & ->). eauto.
Qed.

(** ** What a load consumes
    [tracks f]: when [f] succeeds without a read error, what it took from the
    stream is what went through the checksum. *)
Definition consumed (r r' : rio B) (bs : list Z) : Prop := pending (io r) = bs ++ pending (io r') /\ passed r r' bs.
Record tracks {A} (f : load_t A) : Prop := {
  track_sticky r r' x : f r = Some (r', x) -> rioGetReadError r = true -> rioGetReadError r' = true;
  track_consumed r r' a : rio_ok r -> bytes_ok (pending (io r)) -> f r = Some (r', Ok a) -> rioGetReadError r' = false -> exists bs, consumed r r' bs
}.
Lemma consumed_nil r : rio_ok r -> consumed r r [].
Proof. intros Hr. split; [done|by apply passed_nil]. Qed.
Lemma consumed_ok r r' bs : rio_ok r -> bytes_ok (pending (io r)) -> consumed r r' bs -> bytes_ok bs /\ rio_ok r' /\ bytes_ok (pending (io r')).
Proof. intros Hr Hb [E P]. rewrite E in Hb. apply Forall_app in Hb as [Hb1 Hb2]. split; [done|]. split; [by apply (passed_ok r r' bs)|done]. Qed.
Lemma consumed_app r r1 r2 a b : rio_ok r -> bytes_ok (pending (io r)) -> consumed r r1 a -> consumed r1 r2 b -> consumed r r2 (a ++ b).
Proof.
  intros Hr Hb C1 C2. destruct (consumed_ok r r1 a Hr Hb C1) as (Ha & Hr1 & Hb1). destruct (consumed_ok r1 r2 b Hr1 Hb1 C2) as (Hb' & _ & _).
  destruct C1 as [E1 P1], C2 as [E2 P2]. split; [by rewrite E1, E2, <- app_assoc|by apply (passed_app r r1 r2)].
Qed.
Lemma tracks_ret {A} (a : A) : tracks (load_ret a).
Proof. split; [by intros r r' x [= <- <-]|]. intros r r' x Hr Hb [= <- <-] He. exists []. by apply consumed_nil. Qed.
Lemma tracks_fail {A} : tracks (load_fail (A := A)).
Proof. split; [by intros r r' x [= <- <-]|by intros r r' x Hr Hb [=]]. Qed.
Lemma tracks_exit {A} : tracks (load_exit (A := A)).
Proof. split; [by intros r r' x [= <- <-]|by intros r r' x Hr Hb [=]]. Qed.
Lemma tracks_bind {A C} (f : load_t A) (g : A -> load_t C) : tracks f -> (forall a, tracks (g a)) -> tracks (load_bind f g).
Proof.
  intros [Sf Cf] Tg. split; unfold load_bind.
  - intros r r' y E He. destruct (f r) as [[r1 [a| |]]|] eqn:Ef; cbn [mbind option_bind] in E; try done; [|injection E as <- <-; by apply (Sf _ _ _ Ef)..].
    by apply (track_sticky _ (Tg a) _ _ _ E), (Sf _ _ _ Ef).
  - intros r r' y Hr Hb E He. destruct (f r) as [[r1 [a| |]]|] eqn:Ef; cbn [mbind option_bind] in E; try done.
    destruct (rioGetReadError r1) eqn:He1; [by rewrite (track_sticky _ (Tg a) _ _ _ E He1) in He|].
    destruct (Cf r r1 a Hr Hb Ef He1) as [b1 C1]. destruct (consumed_ok r r1 b1 Hr Hb C1) as (_ & Hr1 & Hb1).
    destruct (track_consumed _ (Tg a) r1 r' y Hr1 Hb1 E He) as [b2 C2]. exists (b1 ++ b2). by apply (consumed_app r r1 r').
Qed.
Lemma tracks_ext {A} (f g : load_t A) : (forall r, g r = f r) -> tracks f -> tracks g.
Proof. intros E [S0 C0]. split; intros r r' x; rewrite E; eauto. Qed.

Lemma read_loop_tracks fuel : forall r len acc r' res, rio_ok r -> bytes_ok (pending (io r)) -> 0 <= len -> read_loop fuel r len acc = (r', res) ->
  match res with Some out => exists bs, out = acc ++ bs /\ consumed r r' bs | None => rioGetReadError r' = true end.
Proof.
  induction fuel as [|fuel IH]; intros r len acc r' res Hr Hb Hl; cbn [read_loop].
  - intros [= <- <-]. exists []. split; [by rewrite app_nil_r|by apply consumed_nil].
  - destruct (Z.eqb_spec len 0) as [->|Hne]; [intros [= <- <-]; exists []; split; [by rewrite app_nil_r|by apply consumed_nil]|].
    destruct (chunk_range r len) as [Hn1 Hn2]; [apply Hr|lia|]. set (n := chunk_of r len) in *.
    pose proof (b_read_spec (io r) n) as Hs. destruct (b_read (io r) n) as [b [x|]]; cbn [fst snd] in *.
    2:{ intros [= <- <-]. apply set_flag_has; [done|by exists 0]. }
    destruct (Hs x Hn1 eq_refl) as [Hp Hx]. set (r1 := add_processed _ _). intros E.
    assert (C1 : consumed r r1 x).
    { split; [unfold r1, update; cbn [update_cksum set_io]; by destruct (update_cksum r)|].
      unfold r1, update; cbn [update_cksum set_io]; destruct (update_cksum r) eqn:Eu; constructor; unfold sum_with; cbn; rewrite ?Eu; done. }
    destruct (consumed_ok r r1 x Hr Hb C1) as (_ & Hr1 & Hb1). specialize (IH r1 (len - n) (acc ++ x) r' res Hr1 Hb1 ltac:(lia) E).
    destruct res as [out|]; [|done]. destruct IH as (bs & -> & C2). exists (x ++ bs). split; [by rewrite app_assoc|by apply (consumed_app r r1 r')].
Qed.
Lemma rioRead_tracks r n r' res : rio_ok r -> bytes_ok (pending (io r)) -> rioRead r n = (r', res) ->
  match res with Some bs => consumed r r' bs | None => rioGetReadError r' = true end.
Proof.
  intros Hr Hb. unfold rioRead. destruct (hasflag (flags r) RIO_FLAG_READ_ERROR) eqn:Ef; [by intros [= <- <-]|].
  destruct (Z.leb_spec 0 n) as [Hn|Hn].
  - intros E. pose proof (read_loop_tracks _ _ _ _ _ _ Hr Hb Hn E) as H1. destruct res; [|done]. destruct H1 as (bs & -> & C). done.
  - replace (Z.to_nat n) with 0%nat by lia. cbn [read_loop]. intros [= <- <-]. by apply consumed_nil.
Qed.
Lemma rioRead_sticky r n r' res : rioRead r n = (r', res) -> rioGetReadError r = true -> rioGetReadError r' = true.
Proof. unfold rioRead, rioGetReadError. intros E He. rewrite He in E. by injection E as <- <-. Qed.
Lemma tracks_read n : tracks (read n).
Proof.
  split; unfold read.
  - intros r r' x E. destruct (rioRead r n) as [r1 res] eqn:Er. injection E as <- _. by apply (rioRead_sticky r n r1 res).
  - intros r r' a Hr Hb E He. destruct (rioRead r n) as [r1 res] eqn:Er. injection E as -> E. pose proof (rioRead_tracks r n r' res Hr Hb Er) as H1. destruct res; [eauto|done].
Qed.
Lemma tracks_read_or {A} n (f : list Z -> A) err : tracks (read_or n f err).
Proof.
  split; unfold read_or.
  - intros r r' x E. destruct (rioRead r n) as [r1 res] eqn:Er. injection E as <- _. by apply (rioRead_sticky r n r1 res).
  - intros r r' a Hr Hb E He. destruct (rioRead r n) as [r1 res] eqn:Er. injection E as -> E. pose proof (rioRead_tracks r n r' res Hr Hb Er) as H1.
    destruct res; [eauto|congruence].
Qed.

(** A failed read leaves the error flag set. *)
Definition loud {A} (f : load_t A) : Prop := forall r r', f r = Some (r', Err) -> rioGetReadError r' = true.
Lemma read_loop_none fuel : forall r len acc r', read_loop fuel r len acc = (r', None) -> rioGetReadError r' = true.
Proof.
  induction fuel as [|fuel IH]; intros r len acc r'; cbn [read_loop]; [done|]. destruct (len =? 0); [done|].
  destruct (b_read (io r) (chunk_of r len)) as [b [x|]]; [apply IH|]. intros [= <-]. apply set_flag_has; [done|by exists 0].
Qed.
Lemma rioRead_none r n r' : rioRead r n = (r', None) -> rioGetReadError r' = true.
Proof. unfold rioRead. destruct (hasflag (flags r) RIO_FLAG_READ_ERROR) eqn:E; [by intros [= <-]|apply read_loop_none]. Qed.
Lemma loud_read n : loud (read n).
Proof. intros r r'. unfold read. destruct (rioRead r n) as [r1 [x|]] eqn:E; [done|]. intros [= <-]. by apply (rioRead_none r n). Qed.
Lemma loud_ret {A} (a : A) : loud (load_ret a).
Proof. by intros r r' [=]. Qed.
Lemma loud_exit {A} : loud (load_exit (A := A)).
Proof. by intros r r' [=]. Qed.
Lemma loud_bind {A C} (f : load_t A) (g : A -> load_t C) : loud f -> (forall a, loud (g a)) -> loud (load_bind f g).
Proof.
  intros Lf Lg r r'. unfold load_bind. destruct (f r) as [[r1 [a| |]]|] eqn:Ef; cbn [mbind option_bind]; try done; [apply Lg|].
  intros [= <-]. by apply (Lf r).
Qed.
(** A read whose error is looked at afterwards: [if (rioGetReadError(rdb)) goto eoferr;] *)
Definition checked {A} (f : load_t A) : load_t A := load_bind f (fun a r => Some (r, if rioGetReadError r then Err else Ok a)).
Lemma tracks_check {A} (a : A) : tracks (fun r => Some (r, if rioGetReadError r then Err else Ok a)).
Proof. split; [by intros r r' x [= <- <-]|]. intros r r' x Hr Hb E He. injection E as <- E. exists []. by apply consumed_nil. Qed.
Lemma tracks_checked {A} (f : load_t A) : tracks f -> tracks (checked f).
Proof. intros Tf. apply tracks_bind; [done|]. apply tracks_check. Qed.
Lemma parses_checked {A} (f : list Z -> A) err bs n : bytes_ok bs -> zlen bs = n -> parses (checked (read_or n f err)) bs (f bs).
Proof.
  intros Hb <-. split; [done|]. intros r Hr He. unfold checked, load_bind, read_or. split.
  - intros rest Hp. destruct (rioRead_ok r bs rest Hr He Hb Hp) as (r' & -> & P & R). cbn [mbind option_bind]. rewrite (passed_noerr _ _ _ P (proj1 He)). by exists r'.
  - intros p q -> Hq Hp. destruct (rioRead_prefix r p q Hr He Hq Hp) as (r' & E).
    rewrite E. cbn [mbind option_bind]. rewrite (rioRead_none _ _ _ E). by exists r'.
Qed.
End Rio.
Create HintDb rio.
#[export] Hint Resolve tracks_ret tracks_fail tracks_exit tracks_read tracks_read_or tracks_check loud_ret loud_exit loud_read : rio.
#[export] Hint Resolve tracks_bind loud_bind : rio.
Arguments save B : clear implicits.
Arguments load_t B A : clear implicits.
Arguments Ok {A}.
Arguments Err {A}.
Arguments Exit {A}.

(** ** The memory backend implements the interface *)
#[export] Program Instance buffer_backend : Backend buffer := {
  b_write := rioBufferWrite;
  b_read := rioBufferRead;
  written b := ptr b;
  pending b := if 0 <=? pos b then drop (Z.to_nat (pos b)) (ptr b) else [];
  readable _ := True
}.
Next Obligation. intros b bs. exists bs. done. Qed.
Next Obligation.
  intros b n bs Hn. unfold rioBufferRead. destruct (Z.ltb_spec (zlen (ptr b) - pos b) n); [done|]. unfold load.
  destruct ((0 <=? pos b) && (0 <=? n) && (pos b + n <=? zlen (ptr b))) eqn:E; [|done]. cbn [fst snd ptr pos]. intros [= <-]. zb.
  rewrite !(proj2 (Z.leb_le _ _)) by lia. replace (Z.to_nat (pos b + n)) with (Z.to_nat (pos b) + Z.to_nat n)%nat by lia. rewrite <- drop_drop, take_drop. split; [done|].
  unfold zlen in *. rewrite length_take, length_drop. lia.
Qed.
Next Obligation.
  intros b n Hn. cbv beta in Hn. unfold rioBufferRead. destruct (Z.ltb_spec (zlen (ptr b) - pos b) n); [done|]. unfold load. destruct (0 <=? pos b) eqn:E; [|done]. zb.
  unfold zlen in *. rewrite length_drop in Hn. lia.
Qed.
Next Obligation.
  intros b n _ Hn. cbv beta in Hn. split; [|done]. unfold rioBufferRead. destruct (0 <=? pos b) eqn:E; [|unfold zlen in Hn; cbn in Hn; lia]. zb.
  unfold zlen in *. rewrite length_drop in Hn. destruct (Z.ltb_spec (Z.of_nat (length (ptr b)) - pos b) n); [lia|]. destruct (load_in (ptr b) (pos b) n) as [w ->]; [lia|lia|unfold zlen; lia|]. by eexists.
Qed.

(** ** crc64 implements the checksum interface, on little-endian hosts *)
Definition crc64_code (c : Z) (bs : list Z) : Z := default 0 (t ← crc64_init false; crc64 false t 0 c bs).
Lemma crc64_code_spec c bs : in_u 64 c -> bytes_ok bs -> crc64_code c bs = crc64_ref c bs.
Proof.
  intros Hc Hb. unfold crc64_code. destruct little_init_spec as (t & Et & Ht). change (crc64_init false) with (crcspeed64little_init false _crc64).
  rewrite Et. cbn [mbind option_bind]. by rewrite (crc64_little_spec t Ht 0 c bs Hc Hb).
Qed.
#[export] Program Instance crc64_checksum : Checksum := { crc := crc64_code }.
Next Obligation. intros c Hc. by rewrite crc64_code_spec by (done || constructor). Qed.
Next Obligation.
  intros c a b Hc Ha Hb. rewrite (crc64_code_spec c a), (crc64_code_spec c (a ++ b)) by auto with cmem. rewrite crc64_code_spec by (done || by apply crc64_ref_range). by rewrite crc64_ref_app.
Qed.
Next Obligation. intros c a Hc Ha. rewrite crc64_code_spec by done. by apply crc64_ref_range. Qed.
Next Obligation.
  intros c p x y s Hc Hb Hy Hl H8 E. rewrite !crc64_code_spec in E; [by apply (crc64_ref_burst c p x y s)|done| |done|done].
  apply Forall_app in Hb as [Hp Hb]. apply Forall_app in Hb as [_ Hs]. auto with cmem.
Qed.
