(* ===== verification/Rdb.v ===== *)
(** * rdb.c: the encodings of the RDB format

    Types, times, lengths, integers, compressed and plain strings, doubles:
    the functions that write them and the ones that read them back, on any
    stream ([Rio]), with the LZF compressor ([Lzf]) and the number
    conversions ([Util]) they call. *)
From S2P Require Import Prelude Endian Util Lzf Crc Rio.

Definition RDB_6BITLEN : Z := 0.
Definition RDB_14BITLEN : Z := 1.
Definition RDB_32BITLEN : Z := 0x80.
Definition RDB_64BITLEN : Z := 0x81.
Definition RDB_ENCVAL : Z := 3.
Definition RDB_LENERR : Z := ULLONG_MAX.
Definition RDB_ENC_INT8 : Z := 0.
Definition RDB_ENC_INT16 : Z := 1.
Definition RDB_ENC_INT32 : Z := 2.
Definition RDB_ENC_LZF : Z := 3.
Definition RDB_LOAD_NONE : Z := 0.
Definition RDB_LOAD_ENC : Z := Z.shiftl 1 0.
Definition RDB_LOAD_PLAIN : Z := Z.shiftl 1 1.
Definition RDB_LOAD_SDS : Z := Z.shiftl 1 2.
Definition UINT32_MAX : Z := 4294967295.
Definition LONG_STR_SIZE : Z := 21.
Definition OBJ_ENCODING_EMBSTR_SIZE_LIMIT : Z := 44.

(** A string object: [OBJ_ENCODING_INT], or an sds, embedded or not. *)
Inductive strobj := StrInt (v : Z) | StrSds (embstr : bool) (bs : list Z).
Definition obj_bytes (o : strobj) : list Z := match o with StrInt v => dec v | StrSds _ bs => bs end.

(** What rdbGenericLoadStringObject returns, according to the flags. *)
Inductive loaded := LPlain (bs : list Z) | LSds (bs : list Z) | LObj (o : strobj).
Definition loaded_bytes (x : loaded) : list Z := match x with LPlain bs | LSds bs => bs | LObj o => obj_bytes o end.

Section Rdb.
  Context {B : Type} `{Backend B} `{Checksum}.
  (** The byte order of the host, the content of fresh memory and of the
      compressor's stack, the configuration. *)
  Context (be : bool) (fresh_mem : nat -> Z) (stack : Z -> Z) (rdb_compression : bool).

#[local] Abbreviation save := (Rio.save B).
#[local] Abbreviation load_t := (Rio.load_t B).

Definition malloc (n : Z) : list Z := realloc fresh_mem [] n.

(** htonl of the C library: network byte order is big endian. *)
Definition htonl (v : Z) : Z := if be then v else intrev32 be v.

Definition rdbWriteRaw (p : list Z) : save := fun rdb =>
  match rdb with
  | Some r => let '(r, ok) := rioWrite r p in Some (Some r, if ok then zlen p else -1)
  | None => Some (None, zlen p)
  end.

Definition rdbSaveType (type : Z) : save := rdbWriteRaw [u8 type].
Definition rdbLoadType : load_t Z := load_bind (read 1) (fun b => load_ret (default 0 (b !! 0%nat))).

Definition rdbSaveMillisecondTime (t : Z) : save := rdbWriteRaw (memrev64ifbe be (native_bytes be 8 t)).
(** The callers look at rioGetReadError after these two. *)
Definition rdbLoadTime : load_t Z := read_or 4 (fun b => s32 (native_val be b)) (-1).
Definition rdbLoadMillisecondTime (rdbver : Z) : load_t Z :=
  read_or 8 (fun b => s64 (native_val be (if rdbver >=? 9 then memrev64ifbe be b else b))) LLONG_MAX.

Definition rdbSaveLen (len : Z) : save :=
  if len <? Z.shiftl 1 6 then rdbWriteRaw [u8 (Z.lor (Z.land len 0xFF) (Z.shiftl RDB_6BITLEN 6))]
  else if len <? Z.shiftl 1 14 then
    rdbWriteRaw [u8 (Z.lor (Z.land (Z.shiftr len 8) 0xFF) (Z.shiftl RDB_14BITLEN 6)); u8 (Z.land len 0xFF)]
  else if len <=? UINT32_MAX then
    save_add (rdbWriteRaw [RDB_32BITLEN]) (rdbWriteRaw (native_bytes be 4 (htonl len)))
  else
    save_add (rdbWriteRaw [RDB_64BITLEN]) (rdbWriteRaw (native_bytes be 8 (htonu64 be len))).

(** [*isencoded] and [*lenptr]. *)
Definition rdbLoadLenByRef : load_t (bool * Z) :=
  load_bind (read 1) (fun b =>
  let buf0 := default 0 (b !! 0%nat) in
  let type := Z.shiftr (Z.land buf0 0xC0) 6 in
  if type =? RDB_ENCVAL then load_ret (true, Z.land buf0 0x3F)
  else if type =? RDB_6BITLEN then load_ret (false, Z.land buf0 0x3F)
  else if type =? RDB_14BITLEN then
    load_bind (read 1) (fun b1 => load_ret (false, Z.lor (Z.shiftl (Z.land buf0 0x3F) 8) (default 0 (b1 !! 0%nat))))
  else if buf0 =? RDB_32BITLEN then load_bind (read 4) (fun x => load_ret (false, htonl (native_val be x)))
  else if buf0 =? RDB_64BITLEN then load_bind (read 8) (fun x => load_ret (false, ntohu64 be (native_val be x)))
  else load_exit).
(** RDB_LENERR stands for a read error. *)
Definition rdbLoadLen : load_t (bool * Z) := fun r =>
  '(r, x) ← rdbLoadLenByRef r;
  Some (r, match x with Ok v => Ok v | Err => Ok (false, RDB_LENERR) | Exit => Exit end).
(** [if ((len = rdbLoadLen(rdb,NULL)) == RDB_LENERR) return NULL;] *)
Definition rdbLoadLen_or_fail : load_t Z :=
  load_bind rdbLoadLen (fun '(_, len) => if len =? RDB_LENERR then load_fail else load_ret len).

(** The bytes stored in [enc]: none when the value does not fit 32 bits. *)
Definition rdbEncodeInteger (value : Z) : list Z :=
  if (value >=? - Z.shiftl 1 7) && (value <=? Z.shiftl 1 7 - 1) then
    [Z.lor (Z.shiftl RDB_ENCVAL 6) RDB_ENC_INT8; Z.land value 0xFF]
  else if (value >=? - Z.shiftl 1 15) && (value <=? Z.shiftl 1 15 - 1) then
    [Z.lor (Z.shiftl RDB_ENCVAL 6) RDB_ENC_INT16; Z.land value 0xFF; Z.land (Z.shiftr value 8) 0xFF]
  else if (value >=? - Z.shiftl 1 31) && (value <=? Z.shiftl 1 31 - 1) then
    [Z.lor (Z.shiftl RDB_ENCVAL 6) RDB_ENC_INT32; Z.land value 0xFF; Z.land (Z.shiftr value 8) 0xFF;
     Z.land (Z.shiftr value 16) 0xFF; Z.land (Z.shiftr value 24) 0xFF]
  else [].

(** The end of rdbLoadIntegerObject: the object for the value read. *)
Definition integer_result (flags val : Z) : load_t loaded :=
  let plain := hasflag flags RDB_LOAD_PLAIN in
  let sds := hasflag flags RDB_LOAD_SDS in
  let encode := hasflag flags RDB_LOAD_ENC in
  if plain || sds then fun r =>
    '(len, buf) ← ll2string (malloc LONG_STR_SIZE) LONG_STR_SIZE val;
    p ← load buf 0 len;
    Some (r, Ok (if plain then LPlain p else LSds p))
  else load_ret (LObj (if encode then StrInt val else StrSds false (dec val))).
Definition rdbLoadIntegerObject (enctype flags : Z) : load_t loaded :=
  let enc b i := default 0 (b !! i%nat) in
  if enctype =? RDB_ENC_INT8 then load_bind (read 1) (fun b => integer_result flags (s8 (enc b 0%nat)))
  else if enctype =? RDB_ENC_INT16 then
    load_bind (read 2) (fun b => integer_result flags (s16 (u16 (Z.lor (enc b 0%nat) (Z.shiftl (enc b 1%nat) 8)))))
  else if enctype =? RDB_ENC_INT32 then
    load_bind (read 4) (fun b =>
      integer_result flags (s32 (u32 (Z.lor (Z.lor (Z.lor (enc b 0%nat) (Z.shiftl (enc b 1%nat) 8)) (Z.shiftl (enc b 2%nat) 16)) (Z.shiftl (enc b 3%nat) 24)))))
  else load_exit.

(** [m] is the memory the string starts at, [len] its length. *)
Definition rdbTryIntegerEncoding (m : list Z) (len : Z) : option (list Z) :=
  let '(value, endptr, _) := strtoll m in
  c ← endptr !! 0%nat;
  if negb (c =? 0) then Some []
  else
    '(_, buf) ← ll2string (malloc 32) 32 value;
    let text := cstr buf in
    if negb (zlen text =? len) then Some []
    else
      s ← load m 0 len;
      if bool_decide (text = s) then Some (rdbEncodeInteger value) else Some [].

Definition rdbSaveLzfBlob (data : list Z) (original_len : Z) : save :=
  save_add (rdbWriteRaw [Z.lor (Z.shiftl RDB_ENCVAL 6) RDB_ENC_LZF])
    (save_add (rdbSaveLen (zlen data)) (save_add (rdbSaveLen original_len) (rdbWriteRaw data))).

(** The part of a buffer that is left when its length is converted to the
    [unsigned int] of lzf_compress and lzf_decompress. *)
Definition unsigned_part (m : list Z) : list Z := take (Z.to_nat (u32 (zlen m))) m.

Definition rdbSaveLzfStringObject (s : list Z) : save := fun rdb =>
  let len := zlen s in
  if len <=? 4 then Some (rdb, 0)
  else
    let outlen := len - 4 in
    '(comprlen, out) ← lzf_compress stack (unsigned_part s) (unsigned_part (malloc outlen));
    if comprlen =? 0 then Some (rdb, 0)
    else rdbSaveLzfBlob (take (Z.to_nat comprlen) out) len rdb.

Definition rdbLoadLzfStringObject (flags : Z) : load_t loaded :=
  let plain := hasflag flags RDB_LOAD_PLAIN in
  let sds := hasflag flags RDB_LOAD_SDS in
  load_bind rdbLoadLen_or_fail (fun clen =>
  load_bind rdbLoadLen_or_fail (fun len =>
  load_bind (read clen) (fun c r =>
    let m := malloc len in
    x ← lzf_decompress (unsigned_part c) (unsigned_part m);
    match x with
    | inl _ => Some (r, Exit)
    | inr (n, out) =>
        let val := out ++ drop (Z.to_nat (u32 len)) m in
        if n =? 0 then Some (r, Exit)
        else Some (r, Ok (if plain then LPlain val else if sds then LSds val else LObj (StrSds false val)))
    end))).

(** [m] as above: the string is [take len m]. *)
Definition rdbSaveRawString (m : list Z) (len : Z) : save := fun rdb =>
  s ← load m 0 len;
  enc ← (if len <=? 11 then rdbTryIntegerEncoding m len else Some []);
  match enc with
  | _ :: _ => rdbWriteRaw enc rdb
  | [] =>
      let verbatim := save_add (rdbSaveLen len) (if len >? 0 then rdbWriteRaw s else save_ret 0) in
      if rdb_compression && (len >? 20) then
        '(rdb, n) ← rdbSaveLzfStringObject s rdb;
        if n =? -1 then Some (rdb, -1) else if n >? 0 then Some (rdb, n) else verbatim rdb
      else verbatim rdb
  end.

Definition rdbSaveLongLongAsStringObject (value : Z) : save := fun rdb =>
  match rdbEncodeInteger value with
  | [] =>
      '(enclen, buf) ← ll2string (malloc 32) 32 value;
      if negb (enclen <? 32) then None
      else text ← load buf 0 enclen; save_add (rdbSaveLen enclen) (rdbWriteRaw text) rdb
  | enc => rdbWriteRaw enc rdb
  end.

(** An sds has a NUL after its bytes. *)
Definition rdbSaveStringObject (o : strobj) : save :=
  match o with
  | StrInt v => rdbSaveLongLongAsStringObject v
  | StrSds _ bs => rdbSaveRawString (bs ++ [0]) (zlen bs)
  end.

Definition rdbGenericLoadStringObject (flags : Z) : load_t loaded :=
  let encode := hasflag flags RDB_LOAD_ENC in
  let plain := hasflag flags RDB_LOAD_PLAIN in
  let sds := hasflag flags RDB_LOAD_SDS in
  load_bind rdbLoadLen (fun '(isencoded, len) =>
  if isencoded : bool then
    if (len =? RDB_ENC_INT8) || (len =? RDB_ENC_INT16) || (len =? RDB_ENC_INT32) then rdbLoadIntegerObject len flags
    else if len =? RDB_ENC_LZF then rdbLoadLzfStringObject flags
    else load_exit
  else if len =? RDB_LENERR then load_fail
  else
    load_bind (if len =? 0 then load_ret [] else read len) (fun buf =>
      load_ret (if plain then LPlain buf else if sds then LSds buf
                else LObj (StrSds (encode && (len <=? OBJ_ENCODING_EMBSTR_SIZE_LIMIT)) buf)))).
Definition rdbLoadStringObject : load_t loaded := rdbGenericLoadStringObject RDB_LOAD_NONE.
Definition rdbLoadEncodedStringObject : load_t loaded := rdbGenericLoadStringObject RDB_LOAD_ENC.

(** A double is its IEEE 754 bits. *)
Definition rdbSaveBinaryDoubleValue (val : Z) : save := rdbWriteRaw (memrev64ifbe be (native_bytes be 8 val)).
Definition rdbLoadBinaryDoubleValue : load_t Z := load_bind (read 8) (fun b => load_ret (native_val be (memrev64ifbe be b))).
End Rdb.

(** ** Network byte order *)
Lemma hton_bytes (be : bool) n (f : list Z -> list Z) v :
  (forall x, length x = n -> f x = rev x) -> native_bytes be n (if be then v else native_val be (f (native_bytes be n v))) = rev (le_bytes n v).
Proof.
  intros Hf. unfold native_bytes, native_val. destruct be; [done|]. rewrite Hf by apply le_bytes_length.
  pose proof (le_bytes_le_val (rev (le_bytes n v)) ltac:(by apply Forall_rev, le_bytes_ok)) as E. rewrite length_rev, le_bytes_length in E. exact E.
Qed.
Lemma ntoh_val (be : bool) n (f : list Z -> list Z) x :
  (forall x, length x = n -> f x = rev x) -> length x = n -> bytes_ok x ->
  (if be then native_val be x else native_val be (f (native_bytes be n (native_val be x)))) = le_val (rev x).
Proof.
  intros Hf Hx Hb. unfold native_bytes, native_val. destruct be; [done|]. rewrite Hf by apply le_bytes_length. rewrite <- Hx. by rewrite le_bytes_le_val.
Qed.
Lemma rev_le_bytes_val n v : in_u (8 * Z.of_nat n) v -> le_val (rev (rev (le_bytes n v))) = v.
Proof. intros Hv. rewrite rev_involutive, le_val_le_bytes. by apply wrapu_small. Qed.

(** ** The encoding of lengths *)
Definition len_bytes (len : Z) : list Z :=
  if len <? 64 then [len]
  else if len <? 16384 then [64 + len / 256; len mod 256]
  else if len <=? UINT32_MAX then RDB_32BITLEN :: rev (le_bytes 4 len)
  else RDB_64BITLEN :: rev (le_bytes 8 len).

Lemma len_bytes_ok len : in_u 64 len -> bytes_ok (len_bytes len).
Proof.
  unfold in_u, len_bytes. intros Hl. destruct (Z.ltb_spec len 64); [repeat constructor; lia|]. destruct (Z.ltb_spec len 16384).
  - constructor; [|constructor; [|constructor]]; unfold byte_ok; [|apply Z.mod_pos_bound; lia]. assert (0 <= len / 256 < 64) by (split; [apply Z.div_pos; lia|apply Z.div_lt_upper_bound; lia]). lia.
  - destruct (len <=? UINT32_MAX); (constructor; [unfold byte_ok, RDB_32BITLEN, RDB_64BITLEN; lia|apply Forall_rev, le_bytes_ok]).
Qed.
Lemma len_bytes_nonempty len : 1 <= zlen (len_bytes len).
Proof. unfold len_bytes. repeat case_match; rewrite zlen_cons; match goal with |- context [zlen ?x] => pose proof (zlen_nonneg x) end; lia. Qed.

Ltac load_auto :=
  repeat first
    [ progress auto 2 with rio nocore
    | apply tracks_bind; [|intros ?]
    | apply loud_bind; [|intros ?]
    | match goal with |- context [match ?x with _ => _ end] => destruct x end ].

Section RdbSpec.
  Context {B : Type} `{Backend B} `{Checksum}.
  Context (be : bool) (fresh_mem : nat -> Z) (stack : Z -> Z) (rdb_compression : bool).

Lemma writes_raw p : bytes_ok p -> writes (rdbWriteRaw (B := B) p) p.
Proof.
  intros Hp. split; [done|]. split; [done|]. intros r Hr. unfold rdbWriteRaw. destruct (rioWrite_spec r p Hr Hp) as (r' & ok & -> & O). exists r', ok. by destruct ok.
Qed.
Lemma writes_type t : byte_ok t -> writes (rdbSaveType (B := B) t) [t].
Proof. intros Ht. unfold rdbSaveType. rewrite wrapu_small by apply Ht. apply writes_raw. auto with cmem. Qed.
Lemma parses_type t : byte_ok t -> parses (rdbLoadType (B := B)) [t] t.
Proof. intros Ht. apply (parses_bind _ _ [t] [] [t]); [apply parses_read; [auto with cmem|done]|apply parses_ret]. Qed.

Lemma hi_bounds len : 0 <= len < 16384 -> 0 <= len / 256 < 64.
Proof. intros Hl. split; [apply Z.div_pos; lia|apply Z.div_lt_upper_bound; lia]. Qed.

Lemma writes_len len : in_u 64 len -> writes (rdbSaveLen (B := B) be len) (len_bytes len).
Proof.
  intros Hl. pose proof (len_bytes_ok len Hl) as Hok. unfold rdbSaveLen, len_bytes in *. change (Z.shiftl 1 6) with 64. change (Z.shiftl 1 14) with 16384. unfold in_u in Hl.
  change 0xFF with (Z.ones 8). rewrite !Z.land_ones by lia. change (2 ^ 8) with 256. change (Z.shiftl RDB_6BITLEN 6) with 0.
  destruct (Z.ltb_spec len 64); [rewrite Z.lor_0_r, (Z.mod_small len), wrapu_small by lia; by apply writes_raw|].
  destruct (Z.ltb_spec len 16384).
  - pose proof (hi_bounds len ltac:(lia)). pose proof (Z.mod_pos_bound len 256 ltac:(lia)). rewrite Z.shiftr_div_pow2 by lia. change (2 ^ 8) with 256. rewrite (Z.mod_small (len / 256)) by lia.
    unfold RDB_14BITLEN. rewrite lor_shiftl by lia. change (2 ^ 6 * 1) with 64. rewrite (Z.add_comm _ 64), !wrapu_small by lia. by apply writes_raw.
  - assert (Hb : forall n x, bytes_ok (rev (le_bytes n x))) by (intros; apply Forall_rev, le_bytes_ok).
    destruct (len <=? UINT32_MAX).
    + unfold htonl, intrev32. rewrite (hton_bytes be 4 memrev32 len memrev32_rev). apply (writes_add _ _ [RDB_32BITLEN]); apply writes_raw; [|apply Hb]. repeat constructor; unfold RDB_32BITLEN; lia.
    + unfold htonu64, intrev64. rewrite (hton_bytes be 8 memrev64 len memrev64_rev). apply (writes_add _ _ [RDB_64BITLEN]); apply writes_raw; [|apply Hb]. repeat constructor; unfold RDB_64BITLEN; lia.
Qed.

(** The first byte of a length. *)
Lemma first_byte_type k x : 0 <= x < 64 -> 0 <= k -> Z.shiftr (Z.land (x + 64 * k) 0xC0) 6 = k mod 4 /\ Z.land (x + 64 * k) 0x3F = x.
Proof.
  intros Hx Hk. replace (x + 64 * k) with (Z.lor x (Z.shiftl k 6)) by (rewrite lor_shiftl by lia; change (2 ^ 6) with 64; lia). split.
  - change 0xC0 with (Z.shiftl (Z.ones 2) 6). change 4 with (2 ^ 2). rewrite <- Z.land_ones by lia. apply Z.bits_inj'. intros i Hi. rewrite Z.shiftr_spec, !Z.land_spec, Z.lor_spec, !Z.shiftl_spec by lia.
    rewrite (testbit_above 6 x) by lia. cbn [orb]. by replace (i + 6 - 6) with i by lia.
  - change 0x3F with (Z.ones 6). rewrite Z.land_ones by lia. rewrite lor_shiftl, Z.mul_comm, Z.mod_add, Z.mod_small by lia. done.
Qed.
Lemma parses_len_ref len : in_u 64 len -> parses (rdbLoadLenByRef (B := B) be) (len_bytes len) (false, len).
Proof.
  intros Hl. pose proof (len_bytes_ok len Hl) as Hok. unfold len_bytes in *. unfold in_u in Hl. unfold rdbLoadLenByRef.
  destruct (Z.ltb_spec len 64).
  - apply (parses_bind _ _ [len] [] [len]); [by apply parses_read|]. change (default 0 ([?x] !! 0%nat)) with x. destruct (first_byte_type 0 len) as [E1 E2]; [lia..|]. rewrite Z.mul_0_r, Z.add_0_r in E1, E2.
    rewrite E1, E2. apply parses_ret.
  - destruct (Z.ltb_spec len 16384).
    + pose proof (hi_bounds len ltac:(lia)) as Hh. pose proof (Z.div_mod len 256 ltac:(lia)). pose proof (Z.mod_pos_bound len 256 ltac:(lia)).
      apply (parses_bind _ _ [64 + len / 256] [len mod 256] [64 + len / 256]); [apply parses_read; [|done]; inversion Hok; by constructor|]. change (default 0 ([?x] !! 0%nat)) with x.
      destruct (first_byte_type 1 (len / 256) Hh) as [E1 E2]; [lia|]. rewrite Z.mul_1_r, Z.add_comm in E1, E2. rewrite E1, E2. change (1 mod 4) with 1. cbn [Z.eqb Pos.eqb RDB_ENCVAL RDB_6BITLEN RDB_14BITLEN].
      apply (parses_bind _ _ [len mod 256] [] [len mod 256]); [apply parses_read; [|done]; inversion Hok; by subst|]. change (default 0 ([?x] !! 0%nat)) with x.
      rewrite Z.lor_comm, lor_shiftl by lia. replace (len mod 256 + 2 ^ 8 * (len / 256)) with len by (change (2 ^ 8) with 256; lia). apply parses_ret.
    + assert (Hb : forall n x, bytes_ok (rev (le_bytes n x))) by (intros; apply Forall_rev, le_bytes_ok). assert (Hz : forall n x, zlen (rev (le_bytes n x)) = Z.of_nat n) by (intros; unfold zlen; by rewrite length_rev, le_bytes_length).
      destruct (Z.leb_spec len UINT32_MAX).
      * apply (parses_bind _ _ [RDB_32BITLEN] (rev (le_bytes 4 len)) [RDB_32BITLEN]); [apply parses_read; [repeat constructor; unfold RDB_32BITLEN; lia|done]|]. change (default 0 ([?x] !! 0%nat)) with x.
        change (Z.shiftr (Z.land RDB_32BITLEN 0xC0) 6) with 2. cbn [Z.eqb Pos.eqb RDB_ENCVAL RDB_6BITLEN RDB_14BITLEN RDB_32BITLEN].
        rewrite <- (app_nil_r (rev _)). apply (parses_bind _ _ _ [] (rev (le_bytes 4 len))); [apply parses_read; [apply Hb|apply Hz]|].
        unfold htonl, intrev32. rewrite (ntoh_val be 4 memrev32 _ memrev32_rev) by (rewrite ?length_rev, ?le_bytes_length; done || apply Hb).
        rewrite rev_le_bytes_val by (unfold in_u, UINT32_MAX in *; lia). apply parses_ret.
      * apply (parses_bind _ _ [RDB_64BITLEN] (rev (le_bytes 8 len)) [RDB_64BITLEN]); [apply parses_read; [repeat constructor; unfold RDB_64BITLEN; lia|done]|]. change (default 0 ([?x] !! 0%nat)) with x.
        change (Z.shiftr (Z.land RDB_64BITLEN 0xC0) 6) with 2. cbn [Z.eqb Pos.eqb RDB_ENCVAL RDB_6BITLEN RDB_14BITLEN RDB_32BITLEN RDB_64BITLEN].
        rewrite <- (app_nil_r (rev _)). apply (parses_bind _ _ _ [] (rev (le_bytes 8 len))); [apply parses_read; [apply Hb|apply Hz]|].
        unfold ntohu64, intrev64. rewrite (ntoh_val be 8 memrev64 _ memrev64_rev) by (rewrite ?length_rev, ?le_bytes_length; done || apply Hb).
        rewrite rev_le_bytes_val by (unfold in_u; lia). apply parses_ret.
Qed.

(** A short length behaves as a short read, for the callers that check. *)
Lemma load_len_bind {A} (g : bool * Z -> load_t B A) r : (forall r, g (false, RDB_LENERR) r = Some (r, Err)) -> load_bind (rdbLoadLen (B := B) be) g r = load_bind (rdbLoadLenByRef be) g r.
Proof.
  intros Hg. unfold load_bind, rdbLoadLen. destruct (rdbLoadLenByRef be r) as [[r' x]|]; cbn [mbind option_bind]; [|done]. destruct x as [v| |]; [done|apply Hg|done].
Qed.
Lemma parses_len_bind {A} (g : bool * Z -> load_t B A) bs v b y :
  parses (rdbLoadLenByRef be) bs v -> (forall r, g (false, RDB_LENERR) r = Some (r, Err)) -> parses (g v) b y -> parses (load_bind (rdbLoadLen be) g) (bs ++ b) y.
Proof. intros Hl Hg Hp. eapply parses_ext; [intros r; by apply load_len_bind|]. by apply (parses_bind _ _ bs b v). Qed.
Lemma parses_len len : 0 <= len < RDB_LENERR -> parses (rdbLoadLen_or_fail (B := B) be) (len_bytes len) len.
Proof.
  intros Hl. rewrite <- (app_nil_r (len_bytes len)). apply (parses_len_bind _ _ (false, len)); [apply parses_len_ref; unfold in_u, RDB_LENERR, ULLONG_MAX in *; lia|done|].
  destruct (Z.eqb_spec len RDB_LENERR); [lia|]. apply parses_ret.
Qed.

(** ** Times and doubles *)
Lemma le8 v : memrev64ifbe be (native_bytes be 8 v) = le_bytes 8 v.
Proof. apply revifbe_bytes, memrev64_rev. Qed.
Lemma writes_time t : writes (rdbSaveMillisecondTime (B := B) be t) (le_bytes 8 t).
Proof. unfold rdbSaveMillisecondTime. rewrite le8. apply writes_raw, le_bytes_ok. Qed.
Lemma writes_double d : writes (rdbSaveBinaryDoubleValue (B := B) be d) (le_bytes 8 d).
Proof. unfold rdbSaveBinaryDoubleValue. rewrite le8. apply writes_raw, le_bytes_ok. Qed.
Lemma zlen_le_bytes n v : zlen (le_bytes n v) = Z.of_nat n.
Proof. unfold zlen. by rewrite le_bytes_length. Qed.
Lemma val8 v : native_val be (memrev64ifbe be (le_bytes 8 v)) = wrapu 64 v.
Proof. unfold memrev64ifbe. rewrite (revifbe_val be 8 _ memrev64 memrev64_rev) by apply le_bytes_length. apply le_val_le_bytes. Qed.
Lemma parses_double d : in_u 64 d -> parses (rdbLoadBinaryDoubleValue (B := B) be) (le_bytes 8 d) d.
Proof.
  intros Hd. rewrite <- (app_nil_r (le_bytes 8 d)). apply (parses_bind _ _ _ [] (le_bytes 8 d)); [apply parses_read; [apply le_bytes_ok|apply zlen_le_bytes]|].
  rewrite val8, wrapu_small by apply Hd. apply parses_ret.
Qed.
Lemma parses_time t : in_s 64 t -> parses (checked (rdbLoadMillisecondTime (B := B) be 9)) (le_bytes 8 t) t.
Proof.
  intros Ht. replace t with (s64 (native_val be (memrev64ifbe be (le_bytes 8 t)))) at 2 by (by rewrite val8, (wraps_wrapu 64 t), wraps_small).
  unfold rdbLoadMillisecondTime. change (9 >=? 9) with true. cbn iota. apply (parses_checked (fun b => s64 (native_val be (memrev64ifbe be b)))); [apply le_bytes_ok|apply zlen_le_bytes].
Qed.

(** ** Integers *)
Lemma encode_integer v : in_s 64 v ->
  rdbEncodeInteger v = [] \/ exists e n, rdbEncodeInteger v = (192 + e) :: le_bytes n v /\ in_s (8 * Z.of_nat n) v /\ ((e = 0 /\ n = 1%nat) \/ (e = 1 /\ n = 2%nat) \/ (e = 2 /\ n = 4%nat)).
Proof.
  intros Hv. unfold rdbEncodeInteger. rewrite !Z.geb_leb. change (Z.shiftl 1 7) with 128. change (Z.shiftl 1 15) with 32768. change (Z.shiftl 1 31) with 2147483648.
  assert (E0 : Z.land v 0xFF = v mod 256) by (change 0xFF with (Z.ones 8); by rewrite Z.land_ones by lia).
  assert (En : forall k, 0 <= k -> Z.land (Z.shiftr v k) 0xFF = v / 2 ^ k mod 256) by (intros k Hk; change 0xFF with (Z.ones 8); by rewrite Z.land_ones, Z.shiftr_div_pow2 by lia).
  destruct ((- (128) <=? v) && (v <=? 128 - 1)) eqn:E8; [zb; right; exists 0, 1%nat; rewrite E0; split; [done|]; split; [unfold in_s; change (8 * Z.of_nat 1 - 1) with 7; lia|by left]|].
  destruct ((- (32768) <=? v) && (v <=? 32768 - 1)) eqn:E16.
  { zb. right. exists 1, 2%nat. rewrite E0, En by lia. split; [done|]. split; [unfold in_s; change (8 * Z.of_nat 2 - 1) with 15; lia|by right; left]. }
  destruct ((- (2147483648) <=? v) && (v <=? 2147483648 - 1)) eqn:E32; [|by left].
  zb. right. exists 2, 4%nat. rewrite E0, !En by lia. cbn [le_bytes]. rewrite !Z.div_div by lia. split; [done|]. split; [unfold in_s; change (8 * Z.of_nat 4 - 1) with 31; lia|by right; right].
Qed.

(** What a string loads as. *)
Definition result_of (flags : Z) (s : list Z) (o : strobj) : loaded :=
  if hasflag flags RDB_LOAD_PLAIN then LPlain s else if hasflag flags RDB_LOAD_SDS then LSds s else LObj o.

Lemma malloc_len n : 0 <= n -> zlen (malloc fresh_mem n) = n.
Proof. apply realloc_length. Qed.
Lemma ll2string_malloc n v : in_s 64 v -> 21 <= n < 2 ^ 64 ->
  ll2string (malloc fresh_mem n) n v = Some (zlen (dec v), dec v ++ [0] ++ drop (S (length (dec v))) (malloc fresh_mem n)).
Proof.
  intros Hv Hn. pose proof (malloc_len n ltac:(lia)) as Hm. pose proof (ll2string_spec (malloc fresh_mem n) v Hv) as E. rewrite Hm in E. specialize (E ltac:(lia)).
  pose proof (dec_len20 v Hv). rewrite (proj2 (Z.ltb_lt _ _)) in E by lia. exact E.
Qed.

Lemma parses_integer e n v flags : in_s (8 * Z.of_nat n) v -> (e = 0 /\ n = 1%nat) \/ (e = 1 /\ n = 2%nat) \/ (e = 2 /\ n = 4%nat) ->
  parses (rdbLoadIntegerObject (B := B) fresh_mem e flags) (le_bytes n v) (result_of flags (dec v) (if hasflag flags RDB_LOAD_ENC then StrInt v else StrSds false (dec v))).
Proof.
  intros Hv He. assert (H64 : in_s 64 v).
  { unfold in_s in *. assert (2 ^ (8 * Z.of_nat n - 1) <= 2 ^ (64 - 1)) by (apply Z.pow_le_mono_r; lia). lia. }
  unfold rdbLoadIntegerObject.
  assert (Hf : parses (integer_result (B := B) fresh_mem flags v) [] (result_of flags (dec v) (if hasflag flags RDB_LOAD_ENC then StrInt v else StrSds false (dec v)))).
  { unfold integer_result, result_of. destruct (hasflag flags RDB_LOAD_PLAIN), (hasflag flags RDB_LOAD_SDS); cbn [orb]; try apply parses_ret;
      (eapply parses_ext; [|apply parses_ret]; intros r; unfold LONG_STR_SIZE; rewrite ll2string_malloc by (done || lia); cbn [mbind option_bind]; rewrite load_prefix by done; done). }
  rewrite <- (app_nil_r (le_bytes n v)).
  assert (Hval : forall k w, (0 < k)%nat -> in_s (8 * Z.of_nat k) w -> wraps (8 * Z.of_nat k) (wrapu (8 * Z.of_nat k) (le_val (le_bytes k w))) = w) by (intros k w Hk Hw; rewrite wraps_wrapu by lia; by apply wraps_le_val).
  pose proof (Z.mod_pos_bound v 256 ltac:(lia)) as M0. pose proof (Z.mod_pos_bound (v / 256) 256 ltac:(lia)) as M1. pose proof (Z.mod_pos_bound (v / 256 / 256) 256 ltac:(lia)) as M2.
  destruct He as [[-> ->]|[[-> ->]|[-> ->]]]; cbn [Z.eqb Pos.eqb RDB_ENC_INT8 RDB_ENC_INT16 RDB_ENC_INT32].
  - apply (parses_bind _ _ _ [] (le_bytes 1 v)); [apply parses_read; [apply le_bytes_ok|done]|]. change (default 0 (le_bytes 1 v !! 0%nat)) with (v mod 256).
    replace (s8 (v mod 256)) with v; [exact Hf|]. symmetry. pose proof (wraps_le_val 1 v Hv ltac:(lia)) as E. cbn [le_bytes le_val] in E. rewrite Z.mul_0_r, Z.add_0_r in E. exact E.
  - apply (parses_bind _ _ _ [] (le_bytes 2 v)); [apply parses_read; [apply le_bytes_ok|done]|].
    change (default 0 (le_bytes 2 v !! 0%nat)) with (v mod 256). change (default 0 (le_bytes 2 v !! 1%nat)) with (v / 256 mod 256).
    rewrite lor_shiftl by lia. replace (s16 (u16 _)) with v; [exact Hf|]. symmetry. rewrite <- (Hval 2%nat v) at 3 by (lia || done). do 2 f_equal. cbn [le_bytes le_val]. change (2 ^ 8) with 256. lia.
  - apply (parses_bind _ _ _ [] (le_bytes 4 v)); [apply parses_read; [apply le_bytes_ok|done]|].
    change (default 0 (le_bytes 4 v !! 0%nat)) with (v mod 256). change (default 0 (le_bytes 4 v !! 1%nat)) with (v / 256 mod 256).
    change (default 0 (le_bytes 4 v !! 2%nat)) with (v / 256 / 256 mod 256). change (default 0 (le_bytes 4 v !! 3%nat)) with (v / 256 / 256 / 256 mod 256).
    rewrite (lor_shiftl _ _ 8) by lia. rewrite (lor_shiftl _ _ 16) by (change (2 ^ 8) with 256; lia). rewrite (lor_shiftl _ _ 24) by (change (2 ^ 8) with 256; change (2 ^ 16) with 65536; lia).
    replace (s32 (u32 _)) with v; [exact Hf|]. symmetry. rewrite <- (Hval 4%nat v) at 5 by (lia || done). do 2 f_equal. cbn [le_bytes le_val]. change (2 ^ 8) with 256. change (2 ^ 16) with 65536. change (2 ^ 24) with 16777216. lia.
Qed.

(** ** Strings *)
(** A byte that stops strtoll. *)
Definition stops (b : Z) : Prop := isspace b = false /\ isdigit b = false /\ b <> 45 /\ b <> 43.
Lemma skip_blanks_stop m : Exists stops m -> Exists stops (skip_blanks m).
Proof.
  induction m as [|c m IH]; intros Hm; [done|]. cbn [skip_blanks]. destruct (isspace c) eqn:E; [|done]. apply IH. inversion Hm as [? ? Hc|]; subst; [|done]. destruct Hc as [Hc _]. congruence.
Qed.
Lemma take_sign_stop m : Exists stops m -> Exists stops (take_sign m).2.
Proof.
  intros Hm. destruct m as [|c m]; [done|]. cbn [take_sign]. destruct (Z.eqb_spec c 45) as [->|]; [|destruct (Z.eqb_spec c 43) as [->|]; [|done]];
    (inversion Hm as [? ? Hc|]; subst; [destruct Hc as (_ & _ & ? & ?); lia|done]).
Qed.
Lemma take_digits_stop m v : Exists stops m -> exists c r, (take_digits m v).2 = c :: r.
Proof.
  revert v. induction m as [|c m IH]; intros v Hm; [by apply Exists_nil in Hm|]. cbn [take_digits]. destruct (isdigit c) eqn:E; [|eauto]. apply IH.
  inversion Hm as [? ? Hc|]; subst; [|done]. destruct Hc as (_ & Hc & _). congruence.
Qed.
Lemma strtoll_spec m : Exists stops m -> exists v c r e, strtoll m = (v, c :: r, e) /\ in_s 64 v.
Proof.
  intros Hm. unfold strtoll, strto. pose proof (take_sign_stop _ (skip_blanks_stop _ Hm)) as Hs. destruct (take_sign (skip_blanks m)) as [neg s1]. cbn [snd] in Hs.
  assert (Hz : exists v c r e, (0, m, false) = (v, c :: r, e) /\ in_s 64 v) by (destruct m as [|c m]; [by apply Exists_nil in Hm|]; exists 0, c, m, false; split; [done|unfold in_s; lia]).
  destruct s1 as [|c s1]; [done|]. destruct (isdigit c); [|done].
  destruct (take_digits_stop (c :: s1) 0 Hs) as (c' & r & E). destruct (take_digits (c :: s1) 0) as [v r']. cbn [snd] in E. subst r'. unfold LLONG_MAX, LLONG_MIN.
  set (v' := if neg then - v else v). rewrite Z.gtb_ltb. destruct (Z.ltb_spec 9223372036854775807 v'); [eexists _, c', r, true; split; [done|]; unfold in_s; lia|].
  destruct (Z.ltb_spec v' (-9223372036854775808)); [eexists _, c', r, true; split; [done|]; unfold in_s; lia|]. eexists v', c', r, false. split; [done|]. unfold in_s. lia.
Qed.
Lemma nul_stops : stops 0.
Proof. repeat split; (reflexivity || lia). Qed.
Lemma cstr_text l r : Forall (fun c => c <> 0) l -> cstr (l ++ 0 :: r) = l.
Proof. induction 1 as [|c l Hc _ IH]; cbn; [done|]. destruct (Z.eqb_spec c 0); [done|]. by rewrite IH. Qed.
Lemma dec_nonzero v : in_s 64 v -> Forall (fun c => c <> 0) (dec v).
Proof.
  intros Hv. rewrite dec_abs. assert (Ha : Z.abs v < 10 ^ 20) by (unfold in_s in Hv; zpow; lia). apply Forall_app. split; [destruct (v <? 0); repeat constructor; lia|].
  destruct (udec_digits (Z.abs v)) as [Hd _]; [lia|]. eapply Forall_impl; [exact Hd|]. unfold digit_ok. lia.
Qed.

Lemma try_integer s t : Exists stops (s ++ t) ->
  exists enc, rdbTryIntegerEncoding fresh_mem (s ++ t) (zlen s) = Some enc /\ (enc = [] \/ exists v, in_s 64 v /\ s = dec v /\ enc = rdbEncodeInteger v).
Proof.
  intros Hm. unfold rdbTryIntegerEncoding. destruct (strtoll_spec _ Hm) as (v & c & r & e & -> & Hv). change ((c :: r) !! 0%nat) with (Some c). cbn [mbind option_bind].
  destruct (c =? 0); cbn [negb]; [|exists []; by split; [|left]]. rewrite ll2string_malloc by (done || lia). cbn [mbind option_bind].
  change (dec v ++ [0] ++ ?x) with (dec v ++ 0 :: x). rewrite (cstr_text _ _ (dec_nonzero v Hv)). destruct (Z.eqb_spec (zlen (dec v)) (zlen s)); cbn [negb]; [|exists []; by split; [|left]].
  rewrite load_prefix by done. cbn [mbind option_bind]. case_bool_decide; [|exists []; by split; [|left]]. exists (rdbEncodeInteger v). split; [done|]. right. by exists v.
Qed.

(** The encodings of a string: an integer, a compressed block, verbatim. *)
Inductive str_code : list Z -> list Z -> Prop :=
| code_int v e n : in_s (8 * Z.of_nat n) v -> (e = 0 /\ n = 1%nat) \/ (e = 1 /\ n = 2%nat) \/ (e = 2 /\ n = 4%nat) -> str_code (dec v) ((192 + e) :: le_bytes n v)
| code_lzf s c : bytes_ok c -> bytes_ok s -> 0 < zlen s < 2 ^ 32 -> 0 < zlen c < 2 ^ 32 ->
    (forall buf, zlen buf = zlen s -> lzf_decompress c buf = Some (inr (zlen s, s))) ->
    str_code s (195 :: len_bytes (zlen c) ++ len_bytes (zlen s) ++ c)
| code_raw s : bytes_ok s -> zlen s < RDB_LENERR -> str_code s (len_bytes (zlen s) ++ s).

Lemma unsigned_part_id m : zlen m < 2 ^ 32 -> unsigned_part m = m.
Proof. intros Hm. unfold unsigned_part. rewrite wrapu_small by (unfold in_u; pose proof (zlen_nonneg m); lia). apply take_ge. unfold zlen. lia. Qed.
Lemma zlen_u64 {A} (l : list A) : zlen l < RDB_LENERR -> in_u 64 (zlen l).
Proof. unfold in_u, RDB_LENERR, ULLONG_MAX. pose proof (zlen_nonneg l). lia. Qed.
Lemma zlen_range {A} (l : list A) : zlen l < RDB_LENERR -> 0 <= zlen l < RDB_LENERR.
Proof. pose proof (zlen_nonneg l). lia. Qed.

Lemma writes_lzf_blob c n : bytes_ok c -> in_u 64 (zlen c) -> in_u 64 n -> writes (rdbSaveLzfBlob (B := B) be c n) (195 :: len_bytes (zlen c) ++ len_bytes n ++ c).
Proof.
  intros Hc Hlc Hn. apply (writes_add _ _ [195]); [apply writes_raw; repeat constructor; lia|]. apply writes_add; [by apply writes_len|]. apply writes_add; [by apply writes_len|by apply writes_raw].
Qed.
Lemma writes_verbatim s : bytes_ok s -> in_u 64 (zlen s) ->
  writes (save_add (rdbSaveLen (B := B) be (zlen s)) (if zlen s >? 0 then rdbWriteRaw s else save_ret 0)) (len_bytes (zlen s) ++ s).
Proof.
  intros Hs Hl. apply writes_add; [by apply writes_len|]. rewrite Z.gtb_ltb. destruct (Z.ltb_spec 0 (zlen s)); [by apply writes_raw|].
  destruct s; [apply writes_nil|]. rewrite zlen_cons in *. pose proof (zlen_nonneg s). lia.
Qed.
Lemma str_code_int v : in_s 64 v -> rdbEncodeInteger v <> [] -> str_code (dec v) (rdbEncodeInteger v) /\ writes (rdbWriteRaw (B := B) (rdbEncodeInteger v)) (rdbEncodeInteger v).
Proof.
  intros Hv Hne. destruct (encode_integer v Hv) as [E|(e & n & E & Hr & Hc)]; [done|]. rewrite E. split; [by apply code_int|]. apply writes_raw. constructor; [unfold byte_ok; lia|apply le_bytes_ok].
Qed.

Lemma writes_raw_string s t : bytes_ok s -> Exists stops (s ++ t) -> zlen s < 2 ^ 32 ->
  exists e, str_code s e /\ writes (rdbSaveRawString (B := B) be fresh_mem stack rdb_compression (s ++ t) (zlen s)) e.
Proof.
  intros Hs Hm Hl. assert (Hle : zlen s < RDB_LENERR) by (unfold RDB_LENERR, ULLONG_MAX; lia). pose proof (zlen_u64 s Hle) as Hu.
  assert (Henc : exists enc, (if zlen s <=? 11 then rdbTryIntegerEncoding fresh_mem (s ++ t) (zlen s) else Some []) = Some enc /\ (enc = [] \/ exists v, in_s 64 v /\ s = dec v /\ enc = rdbEncodeInteger v)).
  { destruct (zlen s <=? 11); [by apply try_integer|exists []; by split; [|left]]. }
  destruct Henc as (enc & Ee & Hcase).
  assert (Hld : load (s ++ t) 0 (zlen s) = Some s) by (by apply load_prefix).
  pose proof (writes_verbatim s Hs Hu) as Hverb. set (verbatim := save_add _ _) in Hverb.
  destruct enc as [|x enc].
  2:{ destruct Hcase as [?|(v & Hv & -> & Ev)]; [done|]. destruct (str_code_int v Hv) as [C W]; [by rewrite <- Ev|]. rewrite Ev in Ee. exists (rdbEncodeInteger v). split; [done|].
      eapply writes_ext; [|exact W]. intros rdb. unfold rdbSaveRawString. rewrite Hld. cbn [mbind option_bind]. rewrite Ee. cbn [mbind option_bind]. by rewrite <- Ev. }
  assert (Eraw : forall rdb, rdbSaveRawString (B := B) be fresh_mem stack rdb_compression (s ++ t) (zlen s) rdb =
    if rdb_compression && (zlen s >? 20) then '(rdb, n) ← rdbSaveLzfStringObject be fresh_mem stack s rdb; if n =? -1 then Some (rdb, -1) else if n >? 0 then Some (rdb, n) else verbatim rdb else verbatim rdb).
  { intros rdb. unfold rdbSaveRawString. rewrite Hld. cbn [mbind option_bind]. by rewrite Ee. }
  rewrite Z.gtb_ltb in Eraw. destruct (rdb_compression && (20 <? zlen s)) eqn:Ez; [|exists (len_bytes (zlen s) ++ s); split; [by apply code_raw|by eapply writes_ext; [exact Eraw|]]].
  zb. unfold rdbSaveLzfStringObject in Eraw. rewrite (proj2 (Z.leb_gt (zlen s) 4)) in Eraw by lia.
  setoid_rewrite (unsigned_part_id s) in Eraw; [|lia]. setoid_rewrite (unsigned_part_id (malloc fresh_mem (zlen s - 4))) in Eraw; [|rewrite malloc_len; lia].
  destruct (compress_spec stack s Hs ltac:(lia) (malloc fresh_mem (zlen s - 4))) as (n & o & Ec & Ho & Hn & Hdec). rewrite malloc_len in * by lia. rewrite Ec in Eraw. cbn [mbind option_bind] in Eraw.
  destruct (Z.eqb_spec n 0) as [->|Hn0]; [exists (len_bytes (zlen s) ++ s); split; [by apply code_raw|by eapply writes_ext; [exact Eraw|]]|].
  destruct (Hdec ltac:(lia)) as (ts & Et & Hne & Hok & Htl & Hex). set (c := take (Z.to_nat n) o) in *.
  assert (Hzc : zlen c = n) by (apply zlen_take; lia).
  assert (Hbc : bytes_ok c) by (rewrite Et; by apply (encode_bytes 0)).
  exists (195 :: len_bytes (zlen c) ++ len_bytes (zlen s) ++ c). split.
  - apply code_lzf; [done|done|lia|lia|]. intros buf Hbuf. rewrite Et, decompress_spec by (done || lia). rewrite Htl, Hex, drop_ge by (unfold zlen in *; lia). by rewrite app_nil_r.
  - pose proof (writes_lzf_blob c (zlen s) Hbc ltac:(unfold in_u; lia) Hu) as (Wb & Wn & Wr). set (e := 195 :: _) in *.
    assert (He0 : 0 < zlen e) by (unfold e; rewrite zlen_cons; pose proof (zlen_nonneg (len_bytes (zlen c) ++ len_bytes (zlen s) ++ c)); lia).
    split; [done|]. split.
    + rewrite Eraw, Wn. cbn [mbind option_bind]. destruct (Z.eqb_spec (zlen e) (-1)); [lia|]. rewrite Z.gtb_ltb. by rewrite (proj2 (Z.ltb_lt 0 (zlen e))) by lia.
    + intros r Hr. destruct (Wr r Hr) as (r' & ok & E & O). exists r', ok. split; [|done]. rewrite Eraw, E. cbn [mbind option_bind]. destruct ok; [|done].
      destruct (Z.eqb_spec (zlen e) (-1)); [lia|]. rewrite Z.gtb_ltb. by rewrite (proj2 (Z.ltb_lt 0 (zlen e))) by lia.
Qed.

Lemma parses_enc_ref e : 0 <= e < 64 -> parses (rdbLoadLenByRef (B := B) be) [192 + e] (true, e).
Proof.
  intros He. apply (parses_bind _ _ [192 + e] [] [192 + e]); [apply parses_read; [repeat constructor; lia|done]|]. change (default 0 ([?x] !! 0%nat)) with x. cbv zeta.
  destruct (first_byte_type 3 e He) as [E1 E2]; [lia|]. change (64 * 3) with 192 in E1, E2. rewrite Z.add_comm in E1, E2. rewrite E1, E2. apply parses_ret.
Qed.
Lemma parses_string s e flags : str_code s e ->
  exists o, obj_bytes o = s /\ parses (rdbGenericLoadStringObject (B := B) be fresh_mem flags) e (result_of flags s o).
Proof.
  intros [v k n Hv Hk|s' c Hc Hs Hls Hlc Hdec|s' Hs Hl].
  - exists (if hasflag flags RDB_LOAD_ENC then StrInt v else StrSds false (dec v)). split; [by destruct (hasflag _ _)|].
    apply (parses_len_bind _ [192 + k] (true, k)); [apply parses_enc_ref; lia|done|]. cbn [fst snd].
    replace ((k =? RDB_ENC_INT8) || (k =? RDB_ENC_INT16) || (k =? RDB_ENC_INT32)) with true by (unfold RDB_ENC_INT8, RDB_ENC_INT16, RDB_ENC_INT32; destruct Hk as [[-> _]|[[-> _]|[-> _]]]; done).
    by apply parses_integer.
  - exists (StrSds false s'). split; [done|]. apply (parses_len_bind _ [195] (true, 3)); [apply (parses_enc_ref 3); lia|done|]. change ((3 =? RDB_ENC_INT8) || (3 =? RDB_ENC_INT16) || (3 =? RDB_ENC_INT32)) with false.
    change (3 =? RDB_ENC_LZF) with true. cbn iota. unfold rdbLoadLzfStringObject.
    apply (parses_bind _ _ (len_bytes (zlen c)) _ (zlen c)); [apply parses_len; unfold RDB_LENERR, ULLONG_MAX; lia|].
    apply (parses_bind _ _ (len_bytes (zlen s')) _ (zlen s')); [apply parses_len; unfold RDB_LENERR, ULLONG_MAX; lia|].
    rewrite <- (app_nil_r c) at 2. apply (parses_bind _ _ c [] c); [by apply parses_read|]. eapply parses_ext; [|apply parses_ret]. intros r.
    assert (Hm : zlen (malloc fresh_mem (zlen s')) = zlen s') by (apply malloc_len; lia).
    rewrite !unsigned_part_id, Hdec by lia. cbn [mbind option_bind].
    rewrite (drop_ge (malloc _ _)), app_nil_r by (rewrite wrapu_small by (unfold in_u; lia); unfold zlen in *; lia). destruct (Z.eqb_spec (zlen s') 0); [lia|]. done.
  - exists (StrSds (hasflag flags RDB_LOAD_ENC && (zlen s' <=? OBJ_ENCODING_EMBSTR_SIZE_LIMIT)) s'). split; [done|].
    apply (parses_len_bind _ _ (false, zlen s')); [apply parses_len_ref; by apply zlen_u64|done|]. destruct (Z.eqb_spec (zlen s') RDB_LENERR); [lia|].
    apply (parses_map _ _ s' s' _); [|apply parses_ret]. destruct (Z.eqb_spec (zlen s') 0); [|by apply parses_read].
    destruct s'; [apply parses_ret|rewrite zlen_cons in *; pose proof (zlen_nonneg s'); lia].
Qed.

(** A string object: what it must be, what is written. *)
Definition strobj_ok (o : strobj) : Prop := match o with StrInt v => in_s 64 v | StrSds _ bs => bytes_ok bs /\ zlen bs < 2 ^ 32 end.
Lemma writes_string o : strobj_ok o -> exists e, str_code (obj_bytes o) e /\ writes (rdbSaveStringObject (B := B) be fresh_mem stack rdb_compression o) e.
Proof.
  destruct o as [v|emb bs]; cbn [strobj_ok obj_bytes rdbSaveStringObject].
  - intros Hv. destruct (decide (rdbEncodeInteger v = [])) as [E|Hne].
    + pose proof (dec_len20 v Hv). exists (len_bytes (zlen (dec v)) ++ dec v). split; [apply code_raw; [apply dec_bytes|unfold RDB_LENERR, ULLONG_MAX; lia]|].
      eapply writes_ext; [|apply writes_add; [apply writes_len|apply writes_raw, dec_bytes]; unfold in_u; lia]. intros rdb. unfold rdbSaveLongLongAsStringObject. rewrite E.
      rewrite ll2string_malloc by (done || lia). cbn [mbind option_bind]. rewrite (proj2 (Z.ltb_lt (zlen (dec v)) 32)) by lia. cbn [negb]. rewrite load_prefix by done. done.
    + destruct (str_code_int v Hv Hne) as [C W]. eexists. split; [exact C|]. eapply writes_ext; [|exact W]. intros rdb. unfold rdbSaveLongLongAsStringObject. by destruct (rdbEncodeInteger v).
  - intros [Hb Hl]. apply (writes_raw_string bs [0] Hb); [|done]. apply Exists_app. right. constructor. apply nul_stops.
Qed.

(** What the loaders consume, whatever the input. *)
Lemma tracks_len_ref : tracks (rdbLoadLenByRef (B := B) be) /\ loud (rdbLoadLenByRef (B := B) be).
Proof. unfold rdbLoadLenByRef. split; load_auto. Qed.
Lemma tracks_len : tracks (rdbLoadLen (B := B) be).
Proof.
  destruct tracks_len_ref as [[S0 C0] L]. unfold rdbLoadLen. split.
  - intros r r' x E. destruct (rdbLoadLenByRef be r) as [[r1 y]|] eqn:Er; [|done]. injection E as <- _. by apply (S0 _ _ _ Er).
  - intros r r' x Hr Hb E He. destruct (rdbLoadLenByRef be r) as [[r1 y]|] eqn:Er; [|done]. injection E as <- E.
    destruct y; [by apply (C0 _ _ _ Hr Hb Er)|by rewrite (L _ _ Er) in He|done].
Qed.
#[local] Hint Resolve tracks_len : rio.
Lemma tracks_len_or_fail : tracks (rdbLoadLen_or_fail (B := B) be).
Proof. unfold rdbLoadLen_or_fail. load_auto. Qed.
#[local] Hint Resolve tracks_len_or_fail : rio.
(** A computation between two reads. *)
Lemma tracks_pure {A} (f : option (lres A)) : tracks (fun r : rio B => x ← f; Some (r, x)).
Proof.
  split.
  - intros r r' x E. destruct f; [|done]. by injection E as <- _.
  - intros r r' x Hr Hb E He. destruct f; [|done]. injection E as <- _. exists []. by apply consumed_nil.
Qed.
Lemma tracks_integer_result flags v : tracks (integer_result (B := B) fresh_mem flags v).
Proof.
  unfold integer_result. case_match; [|auto with rio].
  eapply tracks_ext; [|apply (tracks_pure ('(len, buf) ← ll2string (malloc fresh_mem LONG_STR_SIZE) LONG_STR_SIZE v; p ← load buf 0 len; Some (Ok (if hasflag flags RDB_LOAD_PLAIN then LPlain p else LSds p))))].
  intros r. destruct (ll2string _ _ _) as [[len buf]|]; [|done]. cbn [mbind option_bind]. by destruct (load buf 0 len).
Qed.
#[local] Hint Resolve tracks_integer_result : rio.
Lemma tracks_integer e flags : tracks (rdbLoadIntegerObject (B := B) fresh_mem e flags).
Proof. unfold rdbLoadIntegerObject. load_auto. Qed.
Lemma tracks_lzf flags : tracks (rdbLoadLzfStringObject (B := B) be fresh_mem flags).
Proof.
  unfold rdbLoadLzfStringObject. apply tracks_bind; [auto with rio|intros clen]. apply tracks_bind; [auto with rio|intros len]. apply tracks_bind; [auto with rio|intros c].
  eapply tracks_ext; [|apply (tracks_pure (x ← lzf_decompress (unsigned_part c) (unsigned_part (malloc fresh_mem len));
    Some match x with inl _ => Exit | inr (n, out) => let val := out ++ drop (Z.to_nat (u32 len)) (malloc fresh_mem len) in if n =? 0 then Exit else Ok (if hasflag flags RDB_LOAD_PLAIN then LPlain val else if hasflag flags RDB_LOAD_SDS then LSds val else LObj (StrSds false val)) end))].
  intros r. cbv zeta. destruct (lzf_decompress _ _) as [[|[n val]]|]; [done| |done]. cbn [mbind option_bind]. by destruct (n =? 0).
Qed.
#[local] Hint Resolve tracks_integer tracks_lzf : rio.
Lemma tracks_string flags : tracks (rdbGenericLoadStringObject (B := B) be fresh_mem flags).
Proof. unfold rdbGenericLoadStringObject. load_auto. Qed.
End RdbSpec.

(** C24: RDB strings round trip.  Every string object, integer encoded or not,
    is written by rdbSaveStringObject as a code (an integer, an LZF block or
    the bytes themselves) that rdbGenericLoadStringObject, with any flags,
    reads back to the same bytes, consuming exactly the code; on every strict
    prefix of the code it reports a short read.  The number of bytes returned
    is the number written, and what a NULL stream counts; after a write error
    it is -1 and the stream holds a prefix. *)
Theorem rdb_string_roundtrip {B} `{Backend B} `{Checksum}
    (be : bool) (fresh_mem : nat -> Z) (stack : Z -> Z) (compression : bool) (o : strobj) (Ho : strobj_ok o) :
  exists e, writes (rdbSaveStringObject (B := B) be fresh_mem stack compression o) e /\
    forall flags, exists o', obj_bytes o' = obj_bytes o /\
      parses (rdbGenericLoadStringObject (B := B) be fresh_mem flags) e (result_of flags (obj_bytes o) o').
Proof.
  destruct (writes_string be fresh_mem stack compression o Ho) as (e & C & W). exists e. split; [exact W|]. intros flags. by apply parses_string.
Qed.

(** RDB lengths round trip, at each of the four widths, on hosts of both
    byte orders. *)
Theorem rdb_len_roundtrip {B} `{Backend B} `{Checksum} (be : bool) (len : Z) (Hl : 0 <= len < RDB_LENERR) :
  exists e, writes (rdbSaveLen (B := B) be len) e /\ parses (rdbLoadLen_or_fail (B := B) be) e len /\
    zlen e = (if len <? 64 then 1 else if len <? 16384 then 2 else if len <? 2 ^ 32 then 5 else 9).
Proof.
  exists (len_bytes len). split; [apply writes_len; unfold in_u, RDB_LENERR, ULLONG_MAX in *; lia|]. split; [by apply parses_len|].
  unfold len_bytes, UINT32_MAX. destruct (len <? 64); [done|]. destruct (len <? 16384); [done|].
  assert (E : forall n, zlen (rev (le_bytes n len)) = Z.of_nat n) by (intros n; unfold zlen; by rewrite length_rev, le_bytes_length).
  destruct (Z.leb_spec len 4294967295), (Z.ltb_spec len (2 ^ 32)); try lia; rewrite zlen_cons, E; done.
Qed.
Lemma rdb_string_witness :
  exists e, writes (rdbSaveStringObject (B := buffer) false (fun _ => 7) (fun i => i) true (StrSds false (repeat 65 60))) e /\
    exists o', obj_bytes o' = repeat 65 60 /\ parses (rdbGenericLoadStringObject (B := buffer) false (fun _ => 7) RDB_LOAD_SDS) e (LSds (repeat 65 60)).
Proof.
  assert (Ho : strobj_ok (StrSds false (repeat 65 60))) by (split; [repeat constructor; lia|vm_compute; reflexivity]).
  destruct (rdb_string_roundtrip (B := buffer) false (fun _ => 7) (fun i => i) true (StrSds false (repeat 65 60)) Ho) as (e & W & R). exists e. split; [exact W|].
  destruct (R RDB_LOAD_SDS) as (o' & E & P). exists o'. split; [exact E|exact P].
Defined.
Lemma rdb_len_witness :
  exists e, writes (rdbSaveLen (B := buffer) true 70000) e /\ parses (rdbLoadLen_or_fail (B := buffer) true) e 70000 /\ zlen e = 5.
Proof. apply (rdb_len_roundtrip (B := buffer) true 70000). unfold RDB_LENERR, ULLONG_MAX. lia. Defined.

(** A compressed block that expands to fewer bytes than it declares is
    accepted, the rest of the string being whatever the memory held; one of
    declared length zero makes the decompressor read outside its input. *)
Example rdb_short_lzf_accepted :
  let r := rioInitWithBuffer [195; 3; 5; 1; 65; 66] in
  (snd <$> rdbGenericLoadStringObject (B := buffer) false (fun _ => 99) RDB_LOAD_SDS r) = Some (Ok (LSds [65; 66; 99; 99; 99])).
Proof. vm_compute. reflexivity. Qed.
Example rdb_empty_lzf_undefined :
  rdbGenericLoadStringObject (B := buffer) false (fun _ => 99) RDB_LOAD_SDS (rioInitWithBuffer [195; 0; 5]) = None.
Proof. vm_compute. reflexivity. Qed.
