(* ===== verification/RdbFile.v ===== *)
(** * RDB files (rdb.c; evict.c and object.c for the access times)

    [rdbSaveRio] writes a whole keyspace and [rdbLoadRio] reads one.  The
    values are a class: their type byte, their save and load functions, with
    the round trip the file format needs of them.  The dictionaries are maps
    iterated in any order.  No module is loaded. *)
From Stdlib Require Import Strings.String.
From S2P Require Import Prelude Endian Util Lzf Crc Rio Rdb.

(** ** Constants of rdb.h and server.h *)
Definition RDB_VERSION : Z := 9.
Definition RDB_OPCODE_MODULE_AUX : Z := 247.
Definition RDB_OPCODE_IDLE : Z := 248.
Definition RDB_OPCODE_FREQ : Z := 249.
Definition RDB_OPCODE_AUX : Z := 250.
Definition RDB_OPCODE_RESIZEDB : Z := 251.
Definition RDB_OPCODE_EXPIRETIME_MS : Z := 252.
Definition RDB_OPCODE_EXPIRETIME : Z := 253.
Definition RDB_OPCODE_SELECTDB : Z := 254.
Definition RDB_OPCODE_EOF : Z := 255.
Definition RDBFLAGS_AOF_PREAMBLE : Z := Z.shiftl 1 0.
Definition RDBFLAGS_ALLOW_DUP : Z := Z.shiftl 1 2.
Definition rdbIsObjectType (t : Z) : bool := ((t >=? 0) && (t <=? 7)) || ((t >=? 9) && (t <=? 15)).
Definition MAXMEMORY_FLAG_LRU : Z := Z.shiftl 1 0.
Definition MAXMEMORY_FLAG_LFU : Z := Z.shiftl 1 1.
Definition LRU_CLOCK_MAX : Z := Z.shiftl 1 24 - 1.
Definition LRU_CLOCK_RESOLUTION : Z := 1000.
Definition LFU_INIT_VAL : Z := 5.
Definition CONFIG_RUN_ID_SIZE : Z := 40.

(** ** State *)
Record robj (V : Type) := mk_robj { o_val : V; o_lru : Z }.
Arguments mk_robj {V}.
Arguments o_val {V}.
Arguments o_lru {V}.
Record redisDb (V : Type) := mk_db { db_dict : gmap (list Z) (robj V); db_expires : gmap (list Z) Z }.
Arguments mk_db {V}.
Arguments db_dict {V}.
Arguments db_expires {V}.
(** [rdbSaveInfo] *)
Record rdbSaveInfo := mk_rsi { repl_stream_db : Z; repl_id : option (list Z); repl_offset : Z }.
(** The fields of [server], the configuration and the clocks the code reads. *)
Record server := mk_server {
  dbnum : Z;
  rdb_checksum : bool;
  maxmemory_policy : Z;
  lfu_decay_time : Z;
  hz : Z;
  lruclock : Z;
  unixtime : Z;
  mstime : Z;
  systime : Z;
  used_memory : Z;
  replid : list Z;
  master_repl_offset : Z;
  interval_bytes : Z;
  iAmMaster : bool;
  file_loading : bool
}.

(** ** Access times *)
Definition getLRUClock (s : server) : Z := Z.land (Z.quot (mstime s) LRU_CLOCK_RESOLUTION) LRU_CLOCK_MAX.
Definition LRU_CLOCK (s : server) : Z := if Z.quot 1000 (hz s) <=? LRU_CLOCK_RESOLUTION then lruclock s else getLRUClock s.
Definition estimateObjectIdleTime (s : server) (lru : Z) : Z :=
  let lruclock := LRU_CLOCK s in
  if lruclock >=? lru then u64 ((lruclock - lru) * LRU_CLOCK_RESOLUTION)
  else u64 ((lruclock + (LRU_CLOCK_MAX - lru)) * LRU_CLOCK_RESOLUTION).
Definition LFUGetTimeInMinutes (s : server) : Z := Z.land (Z.quot (unixtime s) 60) 65535.
Definition LFUTimeElapsed (s : server) (ldt : Z) : Z :=
  let now := LFUGetTimeInMinutes s in
  if now >=? ldt then now - ldt else 65535 - ldt + now.
Definition LFUDecrAndReturn (s : server) (lru : Z) : Z :=
  let ldt := Z.shiftr lru 8 in
  let counter := Z.land lru 255 in
  let num_periods := if negb (lfu_decay_time s =? 0) then LFUTimeElapsed s ldt / lfu_decay_time s else 0 in
  if negb (num_periods =? 0) then (if num_periods >? counter then 0 else counter - num_periods) else counter.
(** The [lru] field createObject sets, and the one objectSetLRUOrLFU leaves
    (an assertion failure is [None]). *)
Definition initial_lru (s : server) : Z :=
  if hasflag (maxmemory_policy s) MAXMEMORY_FLAG_LFU then Z.lor (Z.shiftl (LFUGetTimeInMinutes s) 8) LFU_INIT_VAL else LRU_CLOCK s.
Definition objectSetLRUOrLFU (s : server) (lru lfu_freq lru_idle lru_clock lru_multiplier : Z) : option Z :=
  if hasflag (maxmemory_policy s) MAXMEMORY_FLAG_LFU then
    if lfu_freq >=? 0 then if lfu_freq <=? 255 then Some (Z.lor (Z.shiftl (LFUGetTimeInMinutes s) 8) lfu_freq) else None
    else Some lru
  else if lru_idle >=? 0 then
    let lru_idle := Z.quot (s64 (lru_idle * lru_multiplier)) LRU_CLOCK_RESOLUTION in
    let lru_abs := s64 (lru_clock - lru_idle) in
    Some (wrapu 24 (if lru_abs <? 0 then Z.rem (lru_clock + Z.quot LRU_CLOCK_MAX 2) LRU_CLOCK_MAX else lru_abs))
  else Some lru.

(** ** Interfaces *)
(** The Lua interpreter: the digest of a script, whether its function loads. *)
Class Scripting := { sha1hex : list Z -> list Z; lua_loads : list Z -> bool }.

(** The values of the keyspace and what the file format needs of rdbSaveObject
    and rdbLoadObject: a value that is saved loads, from exactly the bytes
    written, as a value of the same content. *)
Class Values (V : Type) {B} `{Backend B} `{Checksum} := {
  content_t : Type;
  content_saved : V -> content_t;    (* on the host that saves *)
  content_loaded : V -> content_t;   (* on the host that loads *)
  value_ok : V -> Prop;
  rdbSaveObjectType : V -> Z;
  rdbSaveObject : V -> list Z -> save B;
  rdbLoadObject : Z -> list Z -> load_t B V;
  type_is_object v : rdbIsObjectType (rdbSaveObjectType v) = true;
  object_roundtrip v key : value_ok v -> exists e v', writes (rdbSaveObject v key) e /\ content_loaded v' = content_saved v /\
    parses (rdbLoadObject (rdbSaveObjectType v) key) e v';
  object_tracks t key : tracks (rdbLoadObject t key)
}.

Section RdbFile.
  Context {B : Type} `{Backend B} `{Checksum} {V : Type} `{!Values V (B := B)} `{DictOrder} `{Scripting}.
  Context (be : bool) (fresh_mem : nat -> Z) (stack : Z -> Z) (rdb_compression : bool) (sv : server).

#[local] Abbreviation save := (Rio.save B).
#[local] Abbreviation load_t := (Rio.load_t B).
#[local] Abbreviation saveRaw := (rdbSaveRawString (B := B) be fresh_mem stack rdb_compression).
#[local] Abbreviation saveLen := (rdbSaveLen (B := B) be).

(** ** Saving *)
Definition rdbSaveAuxField (key : list Z) (keylen : Z) (val : list Z) (vallen : Z) : save :=
  save_add (rdbSaveType RDB_OPCODE_AUX) (save_add (saveRaw key keylen) (saveRaw val vallen)).
(** C strings: the bytes and a NUL. *)
Definition rdbSaveAuxFieldStrStr (key val : list Z) : save :=
  rdbSaveAuxField (key ++ [0]) (zlen (cstr (key ++ [0]))) (val ++ [0]) (zlen (cstr (val ++ [0]))).
Definition rdbSaveAuxFieldStrInt (key : list Z) (val : Z) : save := fun rdb =>
  '(vlen, buf) ← ll2string (malloc fresh_mem LONG_STR_SIZE) LONG_STR_SIZE val;
  rdbSaveAuxField (key ++ [0]) (zlen (cstr (key ++ [0]))) buf vlen rdb.

#[local] Abbreviation text s := (bytes_of_string s%string).
Definition rdbSaveInfoAuxFields (rdbflags : Z) (rsi : option rdbSaveInfo) : save :=
  let aof_preamble := if hasflag rdbflags RDBFLAGS_AOF_PREAMBLE then 1 else 0 in
  save_then (rdbSaveAuxFieldStrStr (text "redis-ver") (text "6.0.1"))
  (save_then (rdbSaveAuxFieldStrInt (text "redis-bits") 64)
  (save_then (rdbSaveAuxFieldStrInt (text "ctime") (systime sv))
  (save_then (rdbSaveAuxFieldStrInt (text "used-mem") (s64 (used_memory sv)))
  (save_then
     match rsi with
     | Some i => save_then (rdbSaveAuxFieldStrInt (text "repl-stream-db") (repl_stream_db i))
                 (save_then (rdbSaveAuxFieldStrStr (text "repl-id") (replid sv))
                    (rdbSaveAuxFieldStrInt (text "repl-offset") (master_repl_offset sv)))
     | None => save_ret 0
     end
  (save_then (rdbSaveAuxFieldStrInt (text "aof-preamble") aof_preamble) (save_ret 1)))))).

Definition getExpire (db : redisDb V) (key : list Z) : option Z :=
  match db_expires db !! key with
  | None => Some (-1)
  | Some t => match db_dict db !! key with Some _ => Some t | None => None end
  end.

Definition rdbSaveKeyValuePair (key : list Z) (val : robj V) (expiretime : Z) : save :=
  let savelru := hasflag (maxmemory_policy sv) MAXMEMORY_FLAG_LRU in
  let savelfu := hasflag (maxmemory_policy sv) MAXMEMORY_FLAG_LFU in
  save_then (if negb (expiretime =? -1) then save_then (rdbSaveType RDB_OPCODE_EXPIRETIME_MS) (rdbSaveMillisecondTime be expiretime) else save_ret 0)
  (save_then (if savelru : bool then save_then (rdbSaveType RDB_OPCODE_IDLE) (saveLen (estimateObjectIdleTime sv (o_lru val) / 1000)) else save_ret 0)
  (save_then (if savelfu : bool then save_then (rdbSaveType RDB_OPCODE_FREQ) (rdbWriteRaw [u8 (LFUDecrAndReturn sv (o_lru val))]) else save_ret 0)
  (save_then (rdbSaveType (rdbSaveObjectType (o_val val)))
  (save_then (rdbSaveStringObject be fresh_mem stack rdb_compression (StrSds false key))
  (save_then (rdbSaveObject (o_val val) key) (save_ret 1)))))).

(** [while((de = dictNext(di)) != NULL)] *)
Fixpoint save_entries (db : redisDb V) (l : list (list Z * robj V)) : save :=
  match l with
  | [] => save_ret 0
  | (key, o) :: l => fun rdb => expire ← getExpire db key; save_then (rdbSaveKeyValuePair key o expire) (save_entries db l) rdb
  end.
Definition save_db (j : Z) (db : redisDb V) : save :=
  if Z.of_nat (size (db_dict db)) =? 0 then save_ret 0
  else
    save_then (rdbSaveType RDB_OPCODE_SELECTDB)
    (save_then (saveLen j)
    (save_then (rdbSaveType RDB_OPCODE_RESIZEDB)
    (save_then (saveLen (Z.of_nat (size (db_dict db))))
    (save_then (saveLen (Z.of_nat (size (db_expires db)))) (save_entries db (entries (db_dict db))))))).
Fixpoint save_dbs (j : Z) (dbs : list (redisDb V)) : save :=
  match dbs with
  | [] => save_ret 0
  | db :: dbs => save_then (save_db j db) (save_dbs (j + 1) dbs)
  end.
Fixpoint save_scripts (l : list (list Z * list Z)) : save :=
  match l with
  | [] => save_ret 0
  | (_, body) :: l => save_then (rdbSaveAuxField (text "lua" ++ [0]) 3 (body ++ [0]) (zlen body)) (save_scripts l)
  end.
(** Without modules rdbSaveModulesAux writes nothing. *)
Definition save_body (rdbflags : Z) (rsi : option rdbSaveInfo) (dbs : list (redisDb V)) (lua_scripts : gmap (list Z) (list Z)) : save :=
  save_then (rdbWriteRaw (text "REDIS0009"))
  (save_then (rdbSaveInfoAuxFields rdbflags rsi)
  (save_then (save_dbs 0 dbs)
  (save_then (match rsi with Some _ => save_scripts (entries lua_scripts) | None => save_ret 0 end)
     (rdbSaveType RDB_OPCODE_EOF)))).

Definition set_update (r : rio B) (u : bool) : rio B := mk_rio (io r) u (cksum r) (flags r) (processed_bytes r) (max_processing_chunk r).
Definition set_chunk (r : rio B) (n : Z) : rio B := mk_rio (io r) (update_cksum r) (cksum r) (flags r) (processed_bytes r) n.

(** The stream and whether C_OK is returned. *)
Definition rdbSaveRio (rdbflags : Z) (rsi : option rdbSaveInfo) (dbs : list (redisDb V)) (lua_scripts : gmap (list Z) (list Z)) (r : rio B) : option (rio B * bool) :=
  let r := if rdb_checksum sv then set_update r true else r in
  '(rdb, n) ← save_body rdbflags rsi dbs lua_scripts (Some r);
  r ← rdb;
  if n =? -1 then Some (r, false)
  else
    let cksum := memrev64ifbe be (native_bytes be 8 (cksum r)) in
    Some (rioWrite r cksum).

(** ** Loading *)
Record loading := mk_loading {
  dbs : list (redisDb V);
  dbid : Z;
  expiretime : Z;
  lru_idle : Z;
  lfu_freq : Z;
  rsi : option rdbSaveInfo;
  lua_scripts : gmap (list Z) (list Z)
}.
Definition set_rsi (st : loading) (f : rdbSaveInfo -> rdbSaveInfo) : loading :=
  mk_loading (dbs st) (dbid st) (expiretime st) (lru_idle st) (lfu_freq st) (f <$> rsi st) (lua_scripts st).
Definition set_expiretime (st : loading) (t : Z) : loading := mk_loading (dbs st) (dbid st) t (lru_idle st) (lfu_freq st) (rsi st) (lua_scripts st).
Definition set_idle (st : loading) (t : Z) : loading := mk_loading (dbs st) (dbid st) (expiretime st) t (lfu_freq st) (rsi st) (lua_scripts st).
Definition set_freq (st : loading) (t : Z) : loading := mk_loading (dbs st) (dbid st) (expiretime st) (lru_idle st) t (rsi st) (lua_scripts st).
Definition set_dbid (st : loading) (d : Z) : loading := mk_loading (dbs st) d (expiretime st) (lru_idle st) (lfu_freq st) (rsi st) (lua_scripts st).
Definition set_scripts (st : loading) (m : gmap (list Z) (list Z)) : loading := mk_loading (dbs st) (dbid st) (expiretime st) (lru_idle st) (lfu_freq st) (rsi st) m.

(** [None]: the script does not compile. *)
Definition luaCreateFunction (scripts : gmap (list Z) (list Z)) (body : list Z) : option (gmap (list Z) (list Z)) :=
  let sha := sha1hex body in
  match scripts !! sha with
  | Some _ => Some scripts
  | None => if lua_loads body then Some (<[sha := body]> scripts) else None
  end.

Definition strtoll_value (m : list Z) : Z := let '(v, _, _) := strtoll m in v.
Definition atoi (m : list Z) : Z := s32 (strtoll_value m).

(** An AUX field; [None] is a fatal error.  Fields that are only logged
    change nothing. *)
Definition load_aux (st : loading) (auxkey auxval : list Z) : option loading :=
  let field name := strcasecmp_eq (cstr (auxkey ++ [0])) (text name) in
  if bool_decide ((auxkey ++ [0]) !! 0%nat = Some 37) then Some st
  else if field "repl-stream-db"%string then Some (set_rsi st (fun i => mk_rsi (atoi (auxval ++ [0])) (repl_id i) (repl_offset i)))
  else if field "repl-id"%string then
    if zlen auxval =? CONFIG_RUN_ID_SIZE then Some (set_rsi st (fun i => mk_rsi (repl_stream_db i) (Some auxval) (repl_offset i))) else Some st
  else if field "repl-offset"%string then Some (set_rsi st (fun i => mk_rsi (repl_stream_db i) (repl_id i) (strtoll_value (auxval ++ [0]))))
  else if field "lua"%string then scripts ← luaCreateFunction (lua_scripts st) auxval; Some (set_scripts st scripts)
  else Some st.

(** [1] if the key was added. *)
Definition dbAddRDBLoad (db : redisDb V) (key : list Z) (val : robj V) : redisDb V * bool :=
  match db_dict db !! key with
  | Some _ => (db, false)
  | None => (mk_db (<[key := val]> (db_dict db)) (db_expires db), true)
  end.
Definition dbSyncDelete (db : redisDb V) (key : list Z) : redisDb V := mk_db (delete key (db_dict db)) (delete key (db_expires db)).
Definition setExpire (db : redisDb V) (key : list Z) (when : Z) : option (redisDb V) :=
  match db_dict db !! key with
  | Some _ => Some (mk_db (db_dict db) (<[key := when]> (db_expires db)))
  | None => None
  end.
(** The end of the loop body: a key and its value have been read.  [None] is a
    panic or a failed assertion. *)
Definition load_key (rdbflags now lru_clock : Z) (st : loading) (key : list Z) (val : V) : option loading :=
  let reset ds := mk_loading ds (dbid st) (-1) (-1) (-1) (rsi st) (lua_scripts st) in
  if iAmMaster sv && negb (hasflag rdbflags RDBFLAGS_AOF_PREAMBLE) && negb (expiretime st =? -1) && (expiretime st <? now) then Some (reset (dbs st))
  else
    db ← dbs st !! Z.to_nat (dbid st);
    lru ← objectSetLRUOrLFU sv (initial_lru sv) (lfu_freq st) (lru_idle st) lru_clock 1000;
    let o := mk_robj val lru in
    let '(db1, added) := dbAddRDBLoad db key o in
    db2 ← (if (added : bool) then Some db1
           else if hasflag rdbflags RDBFLAGS_ALLOW_DUP then Some (dbAddRDBLoad (dbSyncDelete db key) key o).1 else None);
    db3 ← (if negb (expiretime st =? -1) then setExpire db2 key (expiretime st) else Some db2);
    Some (reset (<[Z.to_nat (dbid st) := db3]> (dbs st))).

Definition load_opt {A} (x : option A) : load_t A := match x with Some a => load_ret a | None => load_exit end.

(** One turn of the loop: [inr] is the EOF opcode. *)
Definition handle_opcode (rdbflags now lru_clock rdbver : Z) (st : loading) (type : Z) : load_t (loading + loading) :=
  if type =? RDB_OPCODE_EXPIRETIME then load_bind (checked (rdbLoadTime be)) (fun t => load_ret (inl (set_expiretime st (s64 (t * 1000)))))
  else if type =? RDB_OPCODE_EXPIRETIME_MS then load_bind (checked (rdbLoadMillisecondTime be rdbver)) (fun t => load_ret (inl (set_expiretime st t)))
  else if type =? RDB_OPCODE_FREQ then load_bind (read 1) (fun b => load_ret (inl (set_freq st (default 0 (b !! 0%nat)))))
  else if type =? RDB_OPCODE_IDLE then load_bind (rdbLoadLen_or_fail be) (fun q => load_ret (inl (set_idle st (s64 q))))
  else if type =? RDB_OPCODE_EOF then load_ret (inr st)
  else if type =? RDB_OPCODE_SELECTDB then
    load_bind (rdbLoadLen_or_fail be) (fun d => if d >=? dbnum sv then load_exit else load_ret (inl (set_dbid st d)))
  else if type =? RDB_OPCODE_RESIZEDB then
    load_bind (rdbLoadLen_or_fail be) (fun _ => load_bind (rdbLoadLen_or_fail be) (fun _ => load_ret (inl st)))
  else if type =? RDB_OPCODE_AUX then
    load_bind (rdbLoadStringObject be fresh_mem) (fun k => load_bind (rdbLoadStringObject be fresh_mem) (fun v =>
    load_bind (load_opt (load_aux st (loaded_bytes k) (loaded_bytes v))) (fun st => load_ret (inl st))))
  else if type =? RDB_OPCODE_MODULE_AUX then
    load_bind (checked (load_bind (rdbLoadLen be) (fun _ => load_bind (rdbLoadLen be) (fun _ => rdbLoadLen be)))) (fun _ => load_exit)
  else
    load_bind (rdbGenericLoadStringObject be fresh_mem RDB_LOAD_SDS) (fun k =>
    load_bind (rdbLoadObject type (loaded_bytes k)) (fun val =>
    load_bind (load_opt (load_key rdbflags now lru_clock st (loaded_bytes k) val)) (fun st => load_ret (inl st)))).
Definition load_opcode (rdbflags now lru_clock rdbver : Z) (st : loading) : load_t (loading + loading) :=
  load_bind rdbLoadType (handle_opcode rdbflags now lru_clock rdbver st).
Fixpoint load_loop (fuel : nat) (rdbflags now lru_clock rdbver : Z) (st : loading) : load_t loading :=
  match fuel with
  | O => fun _ => None
  | S fuel => load_bind (load_opcode rdbflags now lru_clock rdbver st) (fun x =>
      match x with inl st => load_loop fuel rdbflags now lru_clock rdbver st | inr st => load_ret st end)
  end.
Definition load_checksum (rdbver : Z) (st : loading) : load_t (option loading) := fun r =>
  if rdbver >=? 5 then
    let expected := cksum r in
    load_bind (read 8) (fun c =>
      if rdb_checksum sv then
        let cksum := native_val be (memrev64ifbe be c) in
        if cksum =? 0 then load_ret (Some st) else if negb (cksum =? expected) then load_exit else load_ret (Some st)
      else load_ret (Some st)) r
  else load_ret (Some st) r.

(** [Ok (Some _)] is C_OK, [Ok None] the C_ERR of a wrong signature or version,
    [Err] the C_ERR of a short read, which ends the process instead when the
    stream is the RDB file being loaded. *)
Definition rdbLoadRio (fuel : nat) (rdbflags : Z) (st : loading) : load_t (option loading) := fun r =>
  let r := set_chunk (set_update r (rdb_checksum sv)) (interval_bytes sv) in
  let st := mk_loading (dbs st) 0 (-1) (-1) (-1) (rsi st) (lua_scripts st) in
  '(r, x) ← load_bind (read 9) (fun buf =>
      if negb (bool_decide (take 5 buf = text "REDIS")) then load_ret None
      else
        let rdbver := atoi (drop 5 buf ++ [0]) in
        if (rdbver <? 1) || (rdbver >? RDB_VERSION) then load_ret None
        else load_bind (load_loop fuel rdbflags (mstime sv) (LRU_CLOCK sv) rdbver st) (load_checksum rdbver)) r;
  Some (r, match x with Err => if file_loading sv then Exit else Err | x => x end).
End RdbFile.

(** ** Numbers in AUX fields *)
Lemma take_digits_stop0 p t v : Forall digit_ok p -> take_digits (p ++ 0 :: t) v = (dval p v, 0 :: t).
Proof.
  intros Hp. revert v. induction Hp as [|c p Hc Hp IH]; intros v; cbn [app take_digits]; [done|]. rewrite isdigit_ok by done. by rewrite IH.
Qed.
Lemma strtoll_dec v t : in_s 64 v -> strtoll (dec v ++ 0 :: t) = (v, 0 :: t, false).
Proof.
  intros Hv. rewrite dec_abs, <- app_assoc. assert (Ha : 0 <= Z.abs v < 10 ^ 20) by (unfold in_s in Hv; zpow; lia). destruct (udec_digits _ Ha) as [Hd Ev].
  assert (Hs : strto ((if v <? 0 then [45] else []) ++ udec (Z.abs v) ++ 0 :: t) = Some (v <? 0, Z.abs v, 0 :: t)).
  { destruct (udec (Z.abs v)) as [|c p] eqn:Eu; [pose proof (udec_pos _ Ha) as Hp; rewrite Eu in Hp; unfold zlen in Hp; cbn in Hp; lia|].
    apply Forall_cons in Hd as Hd'. destruct Hd' as [Hc _]. unfold strto. destruct (v <? 0); cbn [app skip_blanks].
    - change (isspace 45) with false. cbn iota. cbn [take_sign]. change (45 =? 45) with true. cbn iota. rewrite isdigit_ok by done.
      change (c :: p ++ 0 :: t) with ((c :: p) ++ 0 :: t). rewrite take_digits_stop0 by done. by rewrite Ev.
    - assert (Es : isspace c = false) by (unfold isspace, digit_ok in *; destruct (Z.eqb_spec c 32), (Z.leb_spec 9 c), (Z.leb_spec c 13); cbn; lia || done).
      rewrite Es. cbn [take_sign]. rewrite (proj2 (Z.eqb_neq c 45)), (proj2 (Z.eqb_neq c 43)) by (unfold digit_ok in Hc; lia).
      rewrite isdigit_ok by done. change (c :: p ++ 0 :: t) with ((c :: p) ++ 0 :: t). rewrite take_digits_stop0 by done. by rewrite Ev. }
  unfold strtoll. rewrite Hs. destruct (Z.ltb_spec v 0).
  - replace (- Z.abs v) with v by lia. unfold LLONG_MAX, LLONG_MIN, in_s in *. rewrite Z.gtb_ltb, (proj2 (Z.ltb_ge _ _)) by lia. by rewrite (proj2 (Z.ltb_ge _ _)) by lia.
  - replace (Z.abs v) with v by lia. unfold LLONG_MAX, LLONG_MIN, in_s in *. rewrite Z.gtb_ltb, (proj2 (Z.ltb_ge _ _)) by lia. by rewrite (proj2 (Z.ltb_ge _ _)) by lia.
Qed.
Lemma atoi_dec v t : in_s 32 v -> atoi (dec v ++ 0 :: t) = v.
Proof. intros Hv. unfold atoi, strtoll_value. rewrite strtoll_dec by (unfold in_s in *; lia). by apply wraps_small. Qed.

(** ** Specification *)
Section RdbFileSpec.
  Context {B : Type} `{Backend B} `{Checksum} {V : Type} `{!Values V (B := B)} `{DictOrder} `{Scripting}.
  (** The saving and the loading host. *)
  Context (be1 be2 : bool) (mem1 mem2 : nat -> Z) (stack : Z -> Z) (compression : bool) (sv ld : server).
  Context (rdbflags now lru_clock rdbver : Z) (Hver : rdbver = 9).

#[local] Abbreviation opcode := (load_opcode (B := B) be2 mem2 ld rdbflags now lru_clock rdbver).
#[local] Abbreviation loop fuel := (load_loop (B := B) be2 mem2 ld fuel rdbflags now lru_clock rdbver).

(** [e] takes the loader from [st] to [st'], using at most one unit of fuel
    per byte. *)
Definition steps (st : loading) (e : list Z) (st' : loading) : Prop :=
  exists n, (n <= length e)%nat /\ forall fuel bs (a : loading), parses (loop fuel st') bs a -> parses (loop (n + fuel) st) (e ++ bs) a.
Lemma steps_refl st : steps st [] st.
Proof. exists 0%nat. split; [done|]. by intros fuel bs a. Qed.
Lemma steps_trans s1 s2 s3 a b : steps s1 a s2 -> steps s2 b s3 -> steps s1 (a ++ b) s3.
Proof.
  intros (n & Hn & F) (m & Hm & G). exists (n + m)%nat. split; [rewrite length_app; lia|]. intros fuel bs x Hx.
  rewrite <- app_assoc, <- Nat.add_assoc. by apply F, G.
Qed.
Lemma steps_opcode st e st' : e <> [] -> parses (opcode st) e (inl st') -> steps st e st'.
Proof.
  intros Hne He. exists 1%nat. split; [destruct e; [done|cbn; lia]|]. intros fuel bs x Hx. cbn [Nat.add load_loop]. by apply (parses_bind _ _ e bs (inl st')).
Qed.

#[local] Abbreviation handle := (handle_opcode (B := B) be2 mem2 ld rdbflags now lru_clock rdbver).
Lemma steps_handle st op e st' : byte_ok op -> parses (handle st op) e (inl st') -> steps st (op :: e) st'.
Proof. intros Hop He. apply steps_opcode; [done|]. apply (parses_bind _ _ [op] e op); [by apply parses_type|done]. Qed.

(** *** The opcodes *)
Lemma step_select st d : 0 <= d < RDB_LENERR -> d < dbnum ld -> steps st (RDB_OPCODE_SELECTDB :: len_bytes d) (set_dbid st d).
Proof.
  intros Hd Hl. apply steps_handle; [done|]. apply (parses_map _ _ _ d); [by apply parses_len|]. rewrite Z.geb_leb, (proj2 (Z.leb_gt _ _)) by lia. apply parses_ret.
Qed.
Lemma step_resize st a b : 0 <= a < RDB_LENERR -> 0 <= b < RDB_LENERR -> steps st (RDB_OPCODE_RESIZEDB :: len_bytes a ++ len_bytes b) st.
Proof.
  intros Ha Hb. apply steps_handle; [done|]. apply (parses_bind _ _ _ _ a); [by apply parses_len|]. apply (parses_map _ _ _ b); [by apply parses_len|apply parses_ret].
Qed.
Lemma step_expire st t : in_s 64 t -> steps st (RDB_OPCODE_EXPIRETIME_MS :: le_bytes 8 t) (set_expiretime st t).
Proof.
  intros Ht. apply steps_handle; [done|]. rewrite Hver. apply (parses_map _ _ _ t); [by apply parses_time|apply parses_ret].
Qed.
Lemma step_idle st q : 0 <= q < 2 ^ 63 -> steps st (RDB_OPCODE_IDLE :: len_bytes q) (set_idle st q).
Proof.
  intros Hq. apply steps_handle; [done|]. apply (parses_map _ _ _ q); [apply parses_len; unfold RDB_LENERR, ULLONG_MAX; lia|].
  rewrite wraps_small by (unfold in_s; lia). apply parses_ret.
Qed.
Lemma step_freq st b : byte_ok b -> steps st [RDB_OPCODE_FREQ; b] (set_freq st b).
Proof. intros Hb. apply steps_handle; [done|]. apply (parses_map _ _ [b] [b]); [apply parses_read; [by constructor|done]|apply parses_ret]. Qed.
Lemma step_aux st k v ek ev st' : str_code k ek -> str_code v ev -> load_aux st k v = Some st' -> steps st (RDB_OPCODE_AUX :: ek ++ ev) st'.
Proof.
  intros Hk Hv E. apply steps_handle; [done|].
  destruct (parses_string be2 mem2 k ek RDB_LOAD_NONE Hk) as (ok & Ek & Pk). destruct (parses_string be2 mem2 v ev RDB_LOAD_NONE Hv) as (ov & Ev & Pv).
  apply (parses_bind _ _ ek ev _ _ Pk). apply (parses_map _ _ ev _ _ Pv). change (result_of RDB_LOAD_NONE ?s ?o) with (LObj o). cbn [loaded_bytes].
  rewrite Ek, Ev, E. apply (parses_map _ _ [] st'); apply parses_ret.
Qed.
Lemma step_key st t k ek e val st' : rdbIsObjectType t = true -> str_code k ek -> parses (rdbLoadObject t k) e val ->
  load_key ld rdbflags now lru_clock st k val = Some st' -> steps st (t :: ek ++ e) st'.
Proof.
  intros Ht Hk Hp E. assert (Hb : 0 <= t <= 15) by (unfold rdbIsObjectType in Ht; lia). apply steps_handle; [unfold byte_ok; lia|].
  unfold handle_opcode, RDB_OPCODE_EXPIRETIME, RDB_OPCODE_EXPIRETIME_MS, RDB_OPCODE_FREQ, RDB_OPCODE_IDLE, RDB_OPCODE_EOF, RDB_OPCODE_SELECTDB, RDB_OPCODE_RESIZEDB, RDB_OPCODE_AUX, RDB_OPCODE_MODULE_AUX.
  repeat match goal with |- context [t =? ?c] => rewrite (proj2 (Z.eqb_neq t c)) by lia end.
  destruct (parses_string be2 mem2 k ek RDB_LOAD_SDS Hk) as (ok & Ek & Pk). apply (parses_bind _ _ ek e _ _ Pk). change (result_of RDB_LOAD_SDS ?s ?o) with (LSds s). cbn [loaded_bytes].
  apply (parses_map _ _ e _ _ Hp). rewrite E. apply (parses_map _ _ [] st'); apply parses_ret.
Qed.
(** *** Keys and values *)
Definition clean (st : loading (V := V)) : Prop := expiretime st = -1 /\ lru_idle st = -1 /\ lfu_freq st = -1.
Definition key_ok (k : list Z) : Prop := bytes_ok k /\ zlen k < 2 ^ 32.
Definition obj_ok (o : robj V) : Prop := value_ok (o_val o) /\ in_u 24 (o_lru o).
Definition clocks_ok (s : server) : Prop := in_u 24 (LRU_CLOCK s) /\ 0 <= lfu_decay_time s.

Lemma idle_range s lru : in_u 24 (LRU_CLOCK s) -> in_u 24 lru -> 0 <= estimateObjectIdleTime s lru / 1000 < 2 ^ 63.
Proof.
  unfold in_u. intros Hc Hl. unfold estimateObjectIdleTime, LRU_CLOCK_RESOLUTION, LRU_CLOCK_MAX. change (Z.shiftl 1 24 - 1) with 16777215.
  rewrite Z.geb_leb. destruct (Z.leb_spec lru (LRU_CLOCK s)); rewrite wrapu_small by (unfold in_u; lia); rewrite Z.div_mul by lia; lia.
Qed.
Lemma land_range a n : 0 <= n -> 0 <= Z.land a (2 ^ n - 1) < 2 ^ n.
Proof. intros Hn. replace (2 ^ n - 1) with (Z.ones n) by (rewrite Z.ones_equiv; lia). rewrite Z.land_ones by done. apply Z.mod_pos_bound. lia. Qed.
Lemma freq_range s lru : 0 <= lfu_decay_time s -> in_u 24 lru -> byte_ok (LFUDecrAndReturn s lru).
Proof.
  unfold in_u, byte_ok. intros Hd Hl. unfold LFUDecrAndReturn. assert (Hc : 0 <= Z.land lru 255 < 256) by apply (land_range lru 8 ltac:(lia)).
  assert (Hn : 0 <= (if negb (lfu_decay_time s =? 0) then LFUTimeElapsed s (Z.shiftr lru 8) / lfu_decay_time s else 0)).
  { destruct (Z.eqb_spec (lfu_decay_time s) 0); cbn [negb]; [done|]. apply Z.div_pos; [|lia]. unfold LFUTimeElapsed, LFUGetTimeInMinutes.
    pose proof (land_range (Z.quot (unixtime s) 60) 16 ltac:(lia)) as Hm. change (2 ^ 16 - 1) with 65535 in Hm. rewrite Z.shiftr_div_pow2 by lia.
    set (m := Z.land (Z.quot (unixtime s) 60) 65535) in *. change (2 ^ 8) with 256. change (2 ^ 24) with 16777216 in *. change (2 ^ 16) with 65536 in *. assert (lru / 256 < 65536) by (apply Z.div_lt_upper_bound; lia). rewrite Z.geb_leb. destruct (Z.leb_spec (lru / 256) m); lia. }
  set (n := if negb _ then _ else _) in *. rewrite Z.gtb_ltb. destruct (negb (n =? 0)); [|lia]. destruct (Z.ltb_spec (Z.land lru 255) n); lia.
Qed.

Lemma emits_type t : byte_ok t -> emits 1 (rdbSaveType (B := B) t) [t].
Proof. intros Ht. by apply (writes_emits _ [t]), writes_type. Qed.

Lemma emits_opt (b : bool) n (f : save B) e : emits n f e -> exists m, emits m (if b then f else save_ret 0) (if b then e else []).
Proof. intros He. destruct b; [by exists n|exists 0; by apply emits_ret]. Qed.

Lemma set_expiretime_same (st : loading (V := V)) t : expiretime st = t -> set_expiretime st t = st.
Proof. by destruct st; intros <-. Qed.
Lemma set_idle_same (st : loading (V := V)) t : lru_idle st = t -> set_idle st t = st.
Proof. by destruct st; intros <-. Qed.
Lemma set_freq_same (st : loading (V := V)) t : lfu_freq st = t -> set_freq st t = st.
Proof. by destruct st; intros <-. Qed.

(** The state when the key and the value are read. *)
Definition marked (st : loading (V := V)) (o : robj V) (t : Z) : loading :=
  mk_loading (dbs st) (dbid st) t
    (if hasflag (maxmemory_policy sv) MAXMEMORY_FLAG_LRU then estimateObjectIdleTime sv (o_lru o) / 1000 else -1)
    (if hasflag (maxmemory_policy sv) MAXMEMORY_FLAG_LFU then LFUDecrAndReturn sv (o_lru o) else -1) (rsi st) (lua_scripts st).
Lemma pair_saved st k o t : clocks_ok sv -> clean st -> key_ok k -> obj_ok o -> in_s 64 t ->
  exists e val, emits 1 (rdbSaveKeyValuePair be1 mem1 stack compression sv k o t) e /\ content_loaded val = content_saved (o_val o) /\
    forall st', load_key ld rdbflags now lru_clock (marked st o t) k val = Some st' -> steps st e st'.
Proof.
  intros [Hclk Hdec] (C1 & C2 & C3) [Hk Hkl] [Hv Hl] Ht.
  destruct (object_roundtrip (o_val o) k Hv) as (ev & val & Wv & Hc & Pv).
  destruct (writes_string be1 mem1 stack compression (StrSds false k)) as (ek & Sk & Wk); [done|]. cbn [obj_bytes] in Sk.
  set (e1 := if negb (t =? -1) then RDB_OPCODE_EXPIRETIME_MS :: le_bytes 8 t else []).
  set (e2 := if hasflag (maxmemory_policy sv) MAXMEMORY_FLAG_LRU then RDB_OPCODE_IDLE :: len_bytes (estimateObjectIdleTime sv (o_lru o) / 1000) else []).
  set (e3 := if hasflag (maxmemory_policy sv) MAXMEMORY_FLAG_LFU then [RDB_OPCODE_FREQ; LFUDecrAndReturn sv (o_lru o)] else []).
  pose proof (idle_range sv (o_lru o) Hclk Hl) as Hi. pose proof (freq_range sv (o_lru o) Hdec Hl) as Hf.
  pose proof (type_is_object (o_val o)) as Hty. set (ty := rdbSaveObjectType (o_val o)) in *.
  assert (Htb : byte_ok ty) by (unfold rdbIsObjectType in Hty; unfold byte_ok; lia).
  exists (e1 ++ e2 ++ e3 ++ [ty] ++ ek ++ ev ++ []), val. split; [|split; [done|]].
  - unfold rdbSaveKeyValuePair.
    assert (Hu : u8 (LFUDecrAndReturn sv (o_lru o)) = LFUDecrAndReturn sv (o_lru o)) by (apply wrapu_small; unfold in_u, byte_ok in *; lia). rewrite Hu.
    destruct (emits_opt (negb (t =? -1)) _ _ _ (emits_then _ _ _ _ _ _ (emits_type RDB_OPCODE_EXPIRETIME_MS ltac:(done)) (writes_emits _ _ (writes_time be1 t)))) as [n1 E1].
    destruct (emits_opt (hasflag (maxmemory_policy sv) MAXMEMORY_FLAG_LRU) _ _ _ (emits_then _ _ _ _ _ _ (emits_type RDB_OPCODE_IDLE ltac:(done)) (writes_emits _ _ (writes_len be1 (estimateObjectIdleTime sv (o_lru o) / 1000) ltac:(unfold in_u; lia))))) as [n2 E2].
    destruct (emits_opt (hasflag (maxmemory_policy sv) MAXMEMORY_FLAG_LFU) _ _ _ (emits_then _ _ _ _ _ _ (emits_type RDB_OPCODE_FREQ ltac:(done)) (writes_emits _ _ (writes_raw [LFUDecrAndReturn sv (o_lru o)] ltac:(by constructor))))) as [n3 E3].
    eapply emits_then; [exact E1|]. eapply emits_then; [exact E2|]. eapply emits_then; [exact E3|].
    eapply emits_then; [by apply emits_type|]. eapply emits_then; [by apply writes_emits|]. eapply emits_then; [by apply writes_emits|by apply emits_ret].
  - intros st' El. set (st1 := set_expiretime st t). set (st2 := set_idle st1 (if hasflag (maxmemory_policy sv) MAXMEMORY_FLAG_LRU then estimateObjectIdleTime sv (o_lru o) / 1000 else -1)).
    assert (S1 : steps st e1 st1).
    { unfold e1, st1. destruct (Z.eqb_spec t (-1)) as [->|]; cbn [negb]; [|by apply step_expire]. rewrite set_expiretime_same by done. apply steps_refl. }
    assert (S2 : steps st1 e2 st2).
    { unfold e2, st2. destruct (hasflag _ _); [by apply step_idle|]. rewrite set_idle_same by done. apply steps_refl. }
    assert (S3 : steps st2 e3 (marked st o t)).
    { change (marked st o t) with (set_freq st2 (if hasflag (maxmemory_policy sv) MAXMEMORY_FLAG_LFU then LFUDecrAndReturn sv (o_lru o) else -1)).
      unfold e3. destruct (hasflag _ MAXMEMORY_FLAG_LFU); [by apply step_freq|]. rewrite set_freq_same by done. apply steps_refl. }
    eapply steps_trans; [exact S1|]. eapply steps_trans; [exact S2|]. eapply steps_trans; [exact S3|]. rewrite app_nil_r. exact (step_key (marked st o t) ty k ek ev val st' Hty Sk Pv El).
Qed.

(** *** Databases *)
(** A key that is expired when a master loads the file. *)
Definition dropped (t : option Z) : bool :=
  match t with Some t => iAmMaster ld && negb (hasflag rdbflags RDBFLAGS_AOF_PREAMBLE) && (t <? now) | None => false end.
Definition set_dbs (st : loading (V := V)) (ds : list (redisDb V)) : loading := mk_loading ds (dbid st) (expiretime st) (lru_idle st) (lfu_freq st) (rsi st) (lua_scripts st).
Definition put_expire (k : list Z) (t : option Z) (m : gmap (list Z) Z) : gmap (list Z) Z := match t with Some t => <[k := t]> m | None => m end.

Lemma lru_set lru freq idle clk : -1 <= freq <= 255 -> exists l, objectSetLRUOrLFU ld lru freq idle clk 1000 = Some l.
Proof.
  intros Hf. unfold objectSetLRUOrLFU. destruct (hasflag _ _); [|destruct (idle >=? 0); eauto]. destruct (freq >=? 0); [|eauto].
  rewrite (proj2 (Z.leb_le freq 255)) by lia. eauto.
Qed.
Lemma load_marked st k o val t db : clocks_ok sv -> obj_ok o -> clean st -> dbs st !! Z.to_nat (dbid st) = Some db -> db_dict db !! k = None -> t <> Some (-1) ->
  exists db', load_key ld rdbflags now lru_clock (marked st o (default (-1) t)) k val = Some (set_dbs st (<[Z.to_nat (dbid st) := db']> (dbs st))) /\
    if dropped t then db' = db
    else exists o', o_val o' = val /\ db_dict db' = <[k := o']> (db_dict db) /\ db_expires db' = put_expire k t (db_expires db).
Proof.
  intros [_ Hdec] [_ Hl] (C1 & C2 & C3) Hdb Hk Ht. unfold load_key. cbn [marked dbs dbid expiretime lru_idle lfu_freq rsi lua_scripts].
  assert (Hset : forall ds, set_dbs st ds = mk_loading ds (dbid st) (-1) (-1) (-1) (rsi st) (lua_scripts st)) by (intros ds; unfold set_dbs; by rewrite C1, C2, C3).
  assert (Hdrop : iAmMaster ld && negb (hasflag rdbflags RDBFLAGS_AOF_PREAMBLE) && negb (default (-1) t =? -1) && (default (-1) t <? now) = dropped t).
  { unfold dropped. destruct t as [t|]; [|by rewrite andb_false_r]. change (default (-1) (Some t)) with t. rewrite (proj2 (Z.eqb_neq t (-1))) by congruence. by rewrite andb_true_r. }
  rewrite Hdrop. destruct (dropped t); [exists db; rewrite list_insert_id by done; by rewrite Hset|].
  rewrite Hdb. cbn [mbind option_bind].
  destruct (lru_set (initial_lru ld) (if hasflag (maxmemory_policy sv) MAXMEMORY_FLAG_LFU then LFUDecrAndReturn sv (o_lru o) else -1)
    (if hasflag (maxmemory_policy sv) MAXMEMORY_FLAG_LRU then estimateObjectIdleTime sv (o_lru o) / 1000 else -1) lru_clock) as [lru El].
  { pose proof (freq_range sv (o_lru o) Hdec Hl) as Hf. unfold byte_ok in Hf. destruct (hasflag (maxmemory_policy sv) MAXMEMORY_FLAG_LFU); lia. }
  rewrite El. cbn [mbind option_bind]. unfold dbAddRDBLoad. rewrite Hk. cbn [mbind option_bind].
  exists (mk_db (<[k := mk_robj val lru]> (db_dict db)) (put_expire k t (db_expires db))). split; [|by exists (mk_robj val lru)].
  destruct t as [t|]; cbn [put_expire]; [|by rewrite Hset]. change (default (-1) (Some t)) with t.
  rewrite (proj2 (Z.eqb_neq t (-1))) by congruence. cbn [negb]. unfold setExpire. cbn [db_dict]. rewrite lookup_insert_eq. cbn [mbind option_bind db_expires]. by rewrite Hset.
Qed.

Record db_ok (db : redisDb V) : Prop := {
  dict_ok k o : db_dict db !! k = Some o -> key_ok k /\ obj_ok o;
  expires_ok k t : db_expires db !! k = Some t -> is_Some (db_dict db !! k) /\ in_s 64 t /\ t <> -1;
  size_ok : Z.of_nat (size (db_dict db)) < 2 ^ 63;
  size_expires_ok : Z.of_nat (size (db_expires db)) < 2 ^ 63
}.
(** What is loaded of the key [k]. *)
Definition reloaded (sdb db : redisDb V) (k : list Z) : Prop :=
  match db_dict sdb !! k with
  | None => db_dict db !! k = None /\ db_expires db !! k = None
  | Some o =>
      if dropped (db_expires sdb !! k) then db_dict db !! k = None /\ db_expires db !! k = None
      else (exists o', db_dict db !! k = Some o' /\ content_loaded (o_val o') = content_saved (o_val o)) /\ db_expires db !! k = db_expires sdb !! k
  end.
Lemma set_dbs_clean st ds : clean st -> clean (set_dbs st ds).
Proof. done. Qed.

Lemma entries_saved sdb l : clocks_ok sv -> db_ok sdb -> NoDup l.*1 -> (forall k o, (k, o) ∈ l -> db_dict sdb !! k = Some o) ->
  forall st db, clean st -> dbs st !! Z.to_nat (dbid st) = Some db -> (forall k, k ∈ l.*1 -> db_dict db !! k = None /\ db_expires db !! k = None) ->
  exists e db', (exists n, emits n (save_entries be1 mem1 stack compression sv sdb l) e) /\
    steps st e (set_dbs st (<[Z.to_nat (dbid st) := db']> (dbs st))) /\
    (forall k, k ∈ l.*1 -> reloaded sdb db' k) /\
    (forall k, k ∉ l.*1 -> db_dict db' !! k = db_dict db !! k /\ db_expires db' !! k = db_expires db !! k).
Proof.
  intros Hclk Hok. induction l as [|[k o] l IH]; intros Hnd Hin st db Hc Hdb Hfresh.
  - exists [], db. split; [exists 0; by apply emits_ret|]. split; [rewrite list_insert_id by done; destruct st; apply steps_refl|]. split; [by intros k Hk; apply elem_of_nil in Hk|done].
  - cbn [fmap list_fmap fst] in *. apply NoDup_cons in Hnd as [Hk Hnd]. pose proof (Hin k o (list_elem_of_here _ _)) as Hko. destruct (dict_ok sdb Hok k o Hko) as [Hkey Hobj].
    destruct (Hfresh k) as [Hf1 Hf2]; [apply list_elem_of_here|].
    assert (Ht : in_s 64 (default (-1) (db_expires sdb !! k)) /\ db_expires sdb !! k <> Some (-1) /\ getExpire sdb k = Some (default (-1) (db_expires sdb !! k))).
    { unfold getExpire. destruct (db_expires sdb !! k) as [t|] eqn:Et; [|split; [change (default (-1) None) with (-1); unfold in_s; lia|done]]. change (default (-1) (Some t)) with t. destruct (expires_ok sdb Hok k t Et) as (_ & Hs & Hn). rewrite Hko. split; [done|]. split; [congruence|done]. }
    destruct Ht as (Ht & Hne & Hge).
    destruct (pair_saved st k o _ Hclk Hc Hkey Hobj Ht) as (e1 & val & E1 & Hcon & S1).
    destruct (load_marked st k o val _ db Hclk Hobj Hc Hdb Hf1 Hne) as (db1 & El & Hdb1). specialize (S1 _ El).
    assert (Hdb1' : reloaded sdb db1 k /\ forall k', k' <> k -> db_dict db1 !! k' = db_dict db !! k' /\ db_expires db1 !! k' = db_expires db !! k').
    { unfold reloaded. rewrite Hko. destruct (dropped _); [by subst db1|]. destruct Hdb1 as (o' & Eo & -> & ->). split.
      - split; [exists o'; rewrite lookup_insert_eq; by rewrite Eo|]. unfold put_expire. destruct (db_expires sdb !! k); [by rewrite lookup_insert_eq|done].
      - intros k' Hk'. rewrite lookup_insert_ne by done. split; [done|]. unfold put_expire. destruct (db_expires sdb !! k); [by rewrite lookup_insert_ne|done]. }
    destruct Hdb1' as [Hr1 Ho1]. set (st1 := set_dbs st (<[Z.to_nat (dbid st):=db1]> (dbs st))) in *.
    assert (Hlen : (Z.to_nat (dbid st) < length (dbs st))%nat) by (by apply lookup_lt_Some with db).
    assert (Hin' : forall k' o', (k', o') ∈ l -> db_dict sdb !! k' = Some o') by (intros k' o' Hx; apply Hin; by apply list_elem_of_further).
    destruct (IH Hnd Hin' st1 db1) as (e2 & db2 & (n2 & E2) & S2 & R2 & O2); [done| | |].
    { unfold st1. cbn [dbs dbid set_dbs]. by rewrite list_lookup_insert_eq. }
    { intros k' Hk'. assert (k' <> k) by (intros ->; done). destruct (Ho1 k') as [-> ->]; [done|]. apply Hfresh. by apply list_elem_of_further. }
    exists (e1 ++ e2), db2. split; [|split; [|split]].
    + exists n2. eapply emits_ext; [|eapply emits_then; [exact E1|exact E2]]. intros rdb. cbn [save_entries]. by rewrite Hge.
    + eapply steps_trans; [exact S1|]. unfold st1 in S2. cbn [dbs dbid set_dbs] in S2. rewrite list_insert_insert_eq in S2. exact S2.
    + intros k' Hk'. apply elem_of_cons in Hk' as [->|Hk']; [|by apply R2]. unfold reloaded in *. destruct (O2 k Hk) as [-> ->]. done.
    + intros k' Hk'. apply not_elem_of_cons in Hk' as [Hne' Hk']. destruct (O2 k' Hk') as [-> ->]. by apply Ho1.
Qed.

Definition empty_db : redisDb V := mk_db ∅ ∅.
Lemma saved_db j sdb st : clocks_ok sv -> db_ok sdb -> clean st -> Z.of_nat j < dbnum ld -> Z.of_nat j < 2 ^ 32 -> dbs st !! j = Some empty_db ->
  exists e db' d, (exists n, emits n (save_db be1 mem1 stack compression sv (Z.of_nat j) sdb) e) /\
    steps st e (set_dbid (set_dbs st (<[j := db']> (dbs st))) d) /\ forall k, reloaded sdb db' k.
Proof.
  intros Hclk Hok Hc Hj Hj32 Hdb. unfold save_db. destruct (Z.eqb_spec (Z.of_nat (size (db_dict sdb))) 0) as [E|Hne].
  - assert (Hemp : db_dict sdb = ∅) by (apply map_size_empty_inv; lia). exists [], empty_db, (dbid st). split; [exists 0; by apply emits_ret|]. split.
    + rewrite list_insert_id by done. destruct st. apply steps_refl.
    + intros k. unfold reloaded. rewrite Hemp, lookup_empty. split; apply lookup_empty.
  - set (st1 := set_dbid st (Z.of_nat j)). destruct (entries_nodup (db_dict sdb)) as [Hnd Hin]. pose proof (size_ok sdb Hok). pose proof (size_expires_ok sdb Hok).
    destruct (entries_saved sdb (entries (db_dict sdb)) Hclk Hok Hnd (fun k o Hx => proj1 (Hin k o) Hx) st1 empty_db) as (e & db' & (n & En) & S & R & O); [done| | |].
    { unfold st1. cbn [dbs dbid set_dbid]. by rewrite Nat2Z.id. }
    { intros k _. split; apply lookup_empty. }
    assert (Hsz : forall m, 0 <= m < 2 ^ 63 -> 0 <= m < RDB_LENERR) by (unfold RDB_LENERR, ULLONG_MAX; lia).
    exists ((RDB_OPCODE_SELECTDB :: len_bytes (Z.of_nat j)) ++ (RDB_OPCODE_RESIZEDB :: len_bytes (Z.of_nat (size (db_dict sdb))) ++ len_bytes (Z.of_nat (size (db_expires sdb)))) ++ e), db', (Z.of_nat j).
    split; [|split].
    + exists n. eapply (emits_then _ _ _ _ [RDB_OPCODE_SELECTDB] (_ ++ _)); [by apply emits_type|]. eapply emits_then; [apply writes_emits, writes_len; unfold in_u; lia|].
      rewrite <- app_comm_cons, <- app_assoc. eapply (emits_then _ _ _ _ [RDB_OPCODE_RESIZEDB]); [by apply emits_type|].
      eapply emits_then; [apply writes_emits, writes_len; unfold in_u; lia|]. eapply emits_then; [apply writes_emits, writes_len; unfold in_u; lia|exact En].
    + eapply steps_trans; [apply step_select; [apply Hsz; lia|done]|]. eapply steps_trans; [apply step_resize; apply Hsz; lia|].
      unfold st1 in S. cbn [dbs dbid set_dbid set_dbs] in S. rewrite Nat2Z.id in S. exact S.
    + intros k. destruct (decide (k ∈ (entries (db_dict sdb)).*1)) as [Hk|Hk]; [by apply R|]. destruct (O k Hk) as [O1 O2].
      assert (Hko : db_dict sdb !! k = None).
      { destruct (db_dict sdb !! k) as [o|] eqn:Eo; [|done]. destruct Hk. apply list_elem_of_fmap. exists (k, o). split; [done|by apply Hin]. }
      unfold reloaded. rewrite Hko, O1, O2. split; apply lookup_empty.
Qed.

Lemma saved_dbs l : forall j st, clocks_ok sv -> Forall db_ok l -> clean st -> Z.of_nat (j + length l) <= dbnum ld -> Z.of_nat (j + length l) < 2 ^ 32 ->
  (forall i, (j <= i < j + length l)%nat -> dbs st !! i = Some empty_db) ->
  exists e ds d, (exists n, emits n (save_dbs be1 mem1 stack compression sv (Z.of_nat j) l) e) /\ steps st e (set_dbid (set_dbs st ds) d) /\ length ds = length (dbs st) /\
    (forall i sdb, l !! i = Some sdb -> exists db, ds !! (j + i)%nat = Some db /\ forall k, reloaded sdb db k) /\
    (forall i, (i < j \/ j + length l <= i)%nat -> ds !! i = dbs st !! i).
Proof.
  induction l as [|sdb l IH]; intros j st Hclk Hok Hc Hd H32 He.
  - exists [], (dbs st), (dbid st). split; [exists 0; by apply emits_ret|]. split; [destruct st; apply steps_refl|]. split; [done|]. split; [by intros i sdb|done].
  - apply Forall_cons in Hok as [Hok1 Hok]. cbn [length] in *. assert (Hj : dbs st !! j = Some empty_db) by (apply He; lia). assert (Hjl : (j < length (dbs st))%nat) by (by apply lookup_lt_Some with empty_db).
    destruct (saved_db j sdb st Hclk Hok1 Hc ltac:(lia) ltac:(lia) Hj) as (e1 & db1 & d1 & (n1 & E1) & S1 & R1).
    set (st1 := set_dbid (set_dbs st (<[j:=db1]> (dbs st))) d1) in *.
    destruct (IH (S j) st1 Hclk Hok Hc ltac:(lia) ltac:(lia)) as (e2 & ds & d & (n2 & E2) & S2 & L2 & R2 & O2).
    { intros i Hi. unfold st1. cbn [dbs set_dbid set_dbs]. rewrite list_lookup_insert_ne by lia. apply He. lia. }
    assert (Hds1 : forall i, dbs st1 !! i = (<[j:=db1]> (dbs st)) !! i) by done.
    exists (e1 ++ e2), ds, d. split; [|split; [|split; [|split]]].
    + exists n2. cbn [save_dbs]. replace (Z.of_nat j + 1) with (Z.of_nat (S j)) by lia. by eapply emits_then.
    + eapply steps_trans; [exact S1|exact S2].
    + rewrite L2. unfold st1. cbn [dbs set_dbid set_dbs]. apply length_insert.
    + intros [|i] sdb' Hl; cbn in Hl.
      * injection Hl as <-. exists db1. rewrite Nat.add_0_r, O2, Hds1 by lia. by rewrite list_lookup_insert_eq.
      * destruct (R2 i sdb' Hl) as (db & E & R). exists db. by replace (j + S i)%nat with (S j + i)%nat by lia.
    + intros i Hi. rewrite O2, Hds1 by lia. rewrite list_lookup_insert_ne by lia. done.
Qed.

(** *** AUX fields *)
Definition text_ok (k : list Z) : Prop := bytes_ok k /\ Forall (fun c => c <> 0) k /\ zlen k < 2 ^ 32.
#[local] Abbreviation auxField := (rdbSaveAuxField (B := B) be1 mem1 stack compression).
Lemma aux_saved k t v u : key_ok k -> key_ok v -> Exists stops (k ++ t) -> Exists stops (v ++ u) ->
  exists e, (exists n, emits n (auxField (k ++ t) (zlen k) (v ++ u) (zlen v)) e) /\ forall st st', load_aux st k v = Some st' -> steps st e st'.
Proof.
  intros [Hk Hkl] [Hv Hvl] Ht Hu. destruct (writes_raw_string be1 mem1 stack compression k t Hk Ht Hkl) as (ek & Sk & Wk). destruct (writes_raw_string be1 mem1 stack compression v u Hv Hu Hvl) as (ev & Sv & Wv).
  exists (RDB_OPCODE_AUX :: ek ++ ev). split; [|intros st st' E; by apply (step_aux st k v)]. eexists. apply writes_emits.
  apply (writes_add _ _ [RDB_OPCODE_AUX]); [by apply writes_type|]. by apply writes_add.
Qed.
Lemma nul_exists k t : Exists stops (k ++ 0 :: t).
Proof. apply Exists_app. right. constructor. apply nul_stops. Qed.
Lemma cstr_nul k : Forall (fun c => c <> 0) k -> cstr (k ++ [0]) = k.
Proof. apply cstr_text. Qed.
Lemma str_saved k v : text_ok k -> text_ok v ->
  exists e, (exists n, emits n (rdbSaveAuxFieldStrStr be1 mem1 stack compression k v) e) /\ forall st st', load_aux st k v = Some st' -> steps st e st'.
Proof.
  intros (Hk & Hk0 & Hkl) (Hv & Hv0 & Hvl). unfold rdbSaveAuxFieldStrStr. rewrite !cstr_nul by done. apply aux_saved; [done|done|apply nul_exists..].
Qed.
Lemma int_saved k v : text_ok k -> in_s 64 v ->
  exists e, (exists n, emits n (rdbSaveAuxFieldStrInt be1 mem1 stack compression k v) e) /\ forall st st', load_aux st k (dec v) = Some st' -> steps st e st'.
Proof.
  intros (Hk & Hk0 & Hkl) Hv. pose proof (dec_len20 v Hv) as Hl. pose proof (ll2string_malloc mem1 LONG_STR_SIZE v Hv ltac:(unfold LONG_STR_SIZE; lia)) as El.
  set (u := drop _ _) in El. destruct (aux_saved k [0] (dec v) ([0] ++ u)) as (e & (n & E) & S); [done|split; [apply dec_bytes|lia]|apply nul_exists..|].
  exists e. split; [|done]. exists n. eapply emits_ext; [|exact E]. intros rdb. unfold rdbSaveAuxFieldStrInt. rewrite El. cbn [mbind option_bind]. by rewrite cstr_nul by done.
Qed.

Definition scripts_ok (m : gmap (list Z) (list Z)) : Prop := forall sha body, m !! sha = Some body -> sha = sha1hex body /\ lua_loads body = true /\ key_ok body.
Lemma saved_scripts l : (forall sha body, (sha, body) ∈ l -> sha = sha1hex body /\ lua_loads body = true /\ key_ok body) ->
  exists e, (exists n, emits n (save_scripts be1 mem1 stack compression l) e) /\ forall st, steps st e (set_scripts st (lua_scripts st ∪ list_to_map l)).
Proof.
  induction l as [|[sha body] l IH]; intros Hl.
  - exists []. split; [exists 0; by apply emits_ret|]. intros st. rewrite list_to_map_nil, (right_id_L ∅ (∪)). destruct st. apply steps_refl.
  - destruct IH as (e2 & (n2 & E2) & S2); [intros sha' body' Hx; apply Hl; by apply list_elem_of_further|].
    destruct (Hl sha body (list_elem_of_here _ _)) as (-> & Hlua & Hb).
    destruct (aux_saved (bytes_of_string "lua") [0] body [0]) as (e1 & (n1 & E1) & S1); [split; [repeat constructor; lia|done]|done|apply nul_exists..|].
    exists (e1 ++ e2). split; [exists n2; by eapply emits_then|]. intros st.
    assert (Ea : load_aux st (bytes_of_string "lua") body = Some (set_scripts st (match lua_scripts st !! sha1hex body with Some _ => lua_scripts st | None => <[sha1hex body := body]> (lua_scripts st) end))).
    { unfold load_aux. change (bool_decide _) with false. cbn iota. change (strcasecmp_eq (cstr (bytes_of_string "lua" ++ [0])) (bytes_of_string "repl-stream-db")) with false.
      change (strcasecmp_eq (cstr (bytes_of_string "lua" ++ [0])) (bytes_of_string "repl-id")) with false. change (strcasecmp_eq (cstr (bytes_of_string "lua" ++ [0])) (bytes_of_string "repl-offset")) with false.
      change (strcasecmp_eq (cstr (bytes_of_string "lua" ++ [0])) (bytes_of_string "lua")) with true. cbn iota. unfold luaCreateFunction. destruct (lua_scripts st !! sha1hex body); [done|]. by rewrite Hlua. }
    eapply steps_trans; [apply S1; exact Ea|]. set (m := match lua_scripts st !! sha1hex body with Some _ => _ | None => _ end).
    replace (lua_scripts st ∪ list_to_map ((sha1hex body, body) :: l)) with (m ∪ list_to_map l); [exact (S2 (set_scripts st m))|].
    rewrite list_to_map_cons. unfold m. destruct (lua_scripts st !! sha1hex body) as [b|] eqn:Eb.
    + apply map_eq. intros i. rewrite !lookup_union. destruct (decide (i = sha1hex body)) as [->|Hi]; [rewrite Eb, lookup_insert_eq; by destruct (list_to_map l !! _)|by rewrite lookup_insert_ne].
    + by rewrite <- insert_union_l, insert_union_r.
Qed.

(** *** The whole body *)
Definition reload_rsi (i : option rdbSaveInfo) (j : rdbSaveInfo) : rdbSaveInfo :=
  match i with Some i => mk_rsi (repl_stream_db i) (Some (replid sv)) (master_repl_offset sv) | None => j end.
Record server_ok : Prop := {
  ok_clocks : clocks_ok sv;
  ok_systime : in_s 64 (systime sv);
  ok_replid : text_ok (replid sv) /\ zlen (replid sv) = CONFIG_RUN_ID_SIZE;
  ok_offset : in_s 64 (master_repl_offset sv)
}.
Lemma steps_ext st e s1 s2 : s1 = s2 -> steps st e s1 -> steps st e s2.
Proof. by intros <-. Qed.
Lemma text_bool k : forallb (fun c => (0 <? c) && (c <? 256)) k && (zlen k <? 2 ^ 32) = true -> text_ok k.
Proof.
  intros E. apply andb_true_iff in E as [E Hl]. rewrite forallb_forall in E. split; [|split; [|lia]]; apply Forall_forall; intros c Hc; apply list_elem_of_In, E in Hc; unfold byte_ok; lia.
Qed.
Ltac text_tac := by apply text_bool.
Lemma info_saved flags i : server_ok -> (forall j, i = Some j -> in_s 32 (repl_stream_db j)) ->
  exists e, (exists n, emits n (rdbSaveInfoAuxFields be1 mem1 stack compression sv flags i) e) /\ forall st, steps st e (set_rsi st (reload_rsi i)).
Proof.
  intros [Hclk Hsys [Hrid Hridl] Hoff] Hi. unfold rdbSaveInfoAuxFields.
  destruct (str_saved (bytes_of_string "redis-ver") (bytes_of_string "6.0.1")) as (e1 & (n1 & E1) & S1); [text_tac..|].
  destruct (int_saved (bytes_of_string "redis-bits") 64) as (e2 & (n2 & E2) & S2); [text_tac|unfold in_s; lia|].
  destruct (int_saved (bytes_of_string "ctime") (systime sv)) as (e3 & (n3 & E3) & S3); [text_tac|done|].
  destruct (int_saved (bytes_of_string "used-mem") (s64 (used_memory sv))) as (e4 & (n4 & E4) & S4); [text_tac|by apply wraps_range|].
  set (pre := if hasflag flags RDBFLAGS_AOF_PREAMBLE then 1 else 0).
  destruct (int_saved (bytes_of_string "aof-preamble") pre) as (e6 & (n6 & E6) & S6); [text_tac|unfold pre, in_s; destruct (hasflag _ _); lia|].
  assert (M : exists e5, (exists n5, emits n5 match i with
     | Some j => save_then (rdbSaveAuxFieldStrInt be1 mem1 stack compression (bytes_of_string "repl-stream-db") (repl_stream_db j))
                 (save_then (rdbSaveAuxFieldStrStr be1 mem1 stack compression (bytes_of_string "repl-id") (replid sv))
                    (rdbSaveAuxFieldStrInt be1 mem1 stack compression (bytes_of_string "repl-offset") (master_repl_offset sv)))
     | None => save_ret 0
     end e5) /\ forall st, steps st e5 (set_rsi st (reload_rsi i))).
  { destruct i as [j|]; [|exists []; split; [exists 0; by apply emits_ret|]; intros st; apply (steps_ext _ _ st); [destruct st as [? ? ? ? ? [?|] ?]; done|apply steps_refl]].
    specialize (Hi j eq_refl).
    destruct (int_saved (bytes_of_string "repl-stream-db") (repl_stream_db j)) as (a1 & (m1 & A1) & T1); [text_tac|unfold in_s in *; lia|].
    destruct (str_saved (bytes_of_string "repl-id") (replid sv)) as (a2 & (m2 & A2) & T2); [text_tac|done|].
    destruct (int_saved (bytes_of_string "repl-offset") (master_repl_offset sv)) as (a3 & (m3 & A3) & T3); [text_tac|done|].
    exists (a1 ++ a2 ++ a3). split; [eexists; eapply emits_then; [exact A1|]; eapply emits_then; [exact A2|exact A3]|]. intros st.
    eapply steps_trans; [apply T1; reflexivity|]. eapply steps_trans; [apply T2|].
    { change (load_aux ?s _ (replid sv)) with (if zlen (replid sv) =? CONFIG_RUN_ID_SIZE then Some (set_rsi s (fun i => mk_rsi (repl_stream_db i) (Some (replid sv)) (repl_offset i))) else Some s). rewrite Hridl. reflexivity. }
    eapply steps_ext; [|apply T3; reflexivity]. destruct st as [? ? ? ? ? [?|] ?]; [|done]. unfold set_rsi, reload_rsi, strtoll_value. cbn [rsi fmap option_fmap option_map repl_stream_db repl_id repl_offset dbs dbid expiretime lru_idle lfu_freq lua_scripts].
    rewrite (strtoll_dec (master_repl_offset sv) []), (atoi_dec _ []) by done. done. }
  destruct M as (e5 & (n5 & E5) & S5). exists (e1 ++ e2 ++ e3 ++ e4 ++ e5 ++ e6 ++ []). split.
  - eexists. eapply emits_then; [exact E1|]. eapply emits_then; [exact E2|]. eapply emits_then; [exact E3|]. eapply emits_then; [exact E4|]. eapply emits_then; [exact E5|].
    eapply emits_then; [exact E6|by apply emits_ret].
  - intros st. eapply steps_trans; [apply S1; reflexivity|]. eapply steps_trans; [apply S2; reflexivity|]. eapply steps_trans; [apply S3; reflexivity|]. eapply steps_trans; [apply S4; reflexivity|].
    eapply steps_trans; [apply S5|]. rewrite app_nil_r. apply S6. reflexivity.
Qed.

(** What the loaded state is, for what was saved. *)
Record loaded_as (sdbs : list (redisDb V)) (i : option rdbSaveInfo) (scripts : gmap (list Z) (list Z)) (st st' : loading) : Prop := {
  la_length : length (dbs st') = length (dbs st);
  la_dbs j sdb : sdbs !! j = Some sdb -> exists db, dbs st' !! j = Some db /\ forall k, reloaded sdb db k;
  la_rest j : (length sdbs <= j)%nat -> dbs st' !! j = dbs st !! j;
  la_rsi : rsi st' = reload_rsi i <$> rsi st;
  la_lua : lua_scripts st' = match i with Some _ => lua_scripts st ∪ scripts | None => lua_scripts st end
}.
Record dataset_ok (sdbs : list (redisDb V)) (i : option rdbSaveInfo) (scripts : gmap (list Z) (list Z)) : Prop := {
  ok_server : server_ok;
  ok_dbs : Forall db_ok sdbs;
  ok_dbnum : Z.of_nat (length sdbs) < 2 ^ 32;
  ok_info j : i = Some j -> in_s 32 (repl_stream_db j);
  ok_scripts : scripts_ok scripts
}.
Lemma body_saved flags sdbs i scripts st : dataset_ok sdbs i scripts -> Z.of_nat (length sdbs) <= dbnum ld ->
  clean st -> (forall j, (j < length sdbs)%nat -> dbs st !! j = Some empty_db) ->
  exists body st', (exists n, emits n (save_body be1 mem1 stack compression sv flags i sdbs scripts) (bytes_of_string "REDIS0009" ++ body)) /\
    loaded_as sdbs i scripts st st' /\ forall fuel, (length body <= fuel)%nat -> parses (loop fuel st) body st'.
Proof.
  intros [Hsv Hdbs Hnum Hi Hscr] Hld Hc Hempty. destruct (info_saved flags i Hsv Hi) as (e1 & (n1 & E1) & S1).
  destruct (saved_dbs sdbs 0 (set_rsi st (reload_rsi i)) (ok_clocks Hsv) Hdbs Hc Hld Hnum) as (e2 & ds & d & (n2 & E2) & S2 & L2 & R2 & O2); [intros j Hj; apply Hempty; lia|].
  assert (M : exists e3, (exists n3, emits n3 (match i with Some _ => save_scripts be1 mem1 stack compression (entries scripts) | None => save_ret 0 end) e3) /\
    forall st, steps st e3 (set_scripts st (match i with Some _ => lua_scripts st ∪ scripts | None => lua_scripts st end))).
  { destruct i; [|exists []; split; [exists 0; by apply emits_ret|]; intros s; destruct s; apply steps_refl].
    destruct (entries_nodup scripts) as [Hnd Hin]. destruct (saved_scripts (entries scripts)) as (e3 & E3 & S3); [intros sha body Hx; by apply Hscr, Hin|].
    exists e3. split; [done|]. intros s. specialize (S3 s). rewrite (list_to_map_proper (entries scripts) (map_to_list scripts) Hnd (entries_perm scripts)), list_to_map_to_list in S3. exact S3. }
  destruct M as (e3 & (n3 & E3) & S3). specialize (S1 st). specialize (S3 (set_dbid (set_dbs (set_rsi st (reload_rsi i)) ds) d)).
  set (st' := set_scripts _ _) in S3. exists (e1 ++ e2 ++ e3 ++ [RDB_OPCODE_EOF]), st'. split; [|split].
  - eexists. eapply emits_then; [apply writes_emits, writes_raw, text_bool; reflexivity|]. eapply emits_then; [exact E1|]. eapply emits_then; [exact E2|]. eapply emits_then; [exact E3|by apply emits_type].
  - split; [exact L2|exact R2| |done|done]. intros j Hj. apply O2. lia.
  - destruct (steps_trans _ _ _ _ _ S1 (steps_trans _ _ _ _ _ S2 S3)) as (n & Hn & F). rewrite !length_app in Hn. intros fuel Hf. rewrite !length_app in Hf. cbn [length] in Hf.
    rewrite (app_assoc e2), (app_assoc e1). replace fuel with (n + S (fuel - n - 1))%nat by lia. apply F. cbn [load_loop].
    rewrite <- (app_nil_r [RDB_OPCODE_EOF]). apply (parses_bind _ _ _ _ (inr st')); [|apply parses_ret]. apply (parses_map _ _ _ RDB_OPCODE_EOF); [by apply parses_type|]. apply parses_ret.
Qed.
End RdbFileSpec.

Lemma app_prefix_cases {A} (a b p q : list A) : a ++ b = p ++ q -> q <> [] -> (exists q', a = p ++ q' /\ q' <> []) \/ (exists p', p = a ++ p' /\ b = p' ++ q).
Proof.
  intros E Hq. apply app_eq_inv in E as [(l & -> & ->)|(l & -> & ->)]; [|right; by exists l]. destruct l as [|z l]; [right; exists []; by rewrite !app_nil_r|left; by exists (z :: l)].
Qed.

(** ** Saving *)
Section SaveRio.
  Context {B : Type} `{Backend B} `{Checksum}.
(** How a save ended: everything written, or a write error and a part of it. *)
Definition saved (r r' : rio B) (file : list Z) (ok : bool) : Prop :=
  if ok then written (io r') = written (io r) ++ file
  else rioGetWriteError r' = true /\ (exists p, p `prefix_of` file /\ written (io r') = written (io r) ++ p) /\
       (rioGetWriteError r = true \/ exists b x, (b_write b x).2 = false).
Lemma outcome_saved r1 r r' bs bs' ok : io r1 = io r -> flags r1 = flags r -> outcome r1 r' bs ok -> (if ok then bs = bs' else bs `prefix_of` bs') -> saved r r' bs' ok.
Proof.
  intros Ei Ef O Hb. unfold outcome, saved, rioGetWriteError in *. rewrite Ei, Ef in O. destruct ok; [subst bs; apply O|].
  destruct O as (Hf & (p & Hp & Hw) & Hwhy). split; [done|]. split; [|done]. exists p. split; [by trans bs|done].
Qed.
Definition stored_sum (on : bool) (body : list Z) : Z := if on then crc 0 body else 0.
Lemma save_rio_spec {V} `{!Values V (B := B)} `{DictOrder} `{Scripting} be mem stack compression sv sflags i (sdbs : list (redisDb V)) scripts body n :
  emits n (save_body be mem stack compression sv sflags i sdbs scripts) body -> forall r, rio_ok r -> cksum r = 0 -> update_cksum r = false ->
  exists r' ok, rdbSaveRio be mem stack compression sv sflags i sdbs scripts r = Some (r', ok) /\ saved r r' (body ++ le_bytes 8 (stored_sum (rdb_checksum sv) body)) ok.
Proof.
  intros (Hb & Hn & F) r Hr Hc Hu. set (r1 := if rdb_checksum sv then set_update r true else r).
  assert (Hr1 : rio_ok r1 /\ io r1 = io r /\ flags r1 = flags r /\ cksum r1 = 0 /\ update_cksum r1 = rdb_checksum sv) by (unfold r1; destruct (rdb_checksum sv); done).
  destruct Hr1 as (Hr1 & Ei & Ef & Ec & Eu). unfold rdbSaveRio. fold r1. destruct (F r1 Hr1) as (r2 & ok & -> & O). cbn [mbind option_bind].
  destruct ok; [|exists r2, false; split; [done|apply (outcome_saved r1 r r2 body); [done..|by apply prefix_app_r]]].
  destruct (Z.eqb_spec n (-1)); [lia|].
  assert (E8 : memrev64ifbe be (native_bytes be 8 (cksum r2)) = le_bytes 8 (stored_sum (rdb_checksum sv) body)).
  { rewrite (pass_sum _ _ _ (proj1 O)). unfold sum_with, stored_sum. rewrite Eu, Ec. apply le8. }
  rewrite E8. destruct (rioWrite_spec r2 (le_bytes 8 (stored_sum (rdb_checksum sv) body))) as (r3 & ok & -> & O3); [by apply (passed_ok r1 r2 body Hr1 Hb), O|apply le_bytes_ok|].
  exists r3, ok. split; [done|]. apply (outcome_saved r1 r r3 (body ++ le_bytes 8 (stored_sum (rdb_checksum sv) body))); [done..| |by destruct ok].
  apply (outcome_app r1 r2 r3); [done|done|apply le_bytes_ok|done|done].
Qed.

Lemma read_loop_length fuel : forall (r : rio B) len acc r' out, 0 <= len <= Z.of_nat fuel -> 0 <= max_processing_chunk r -> read_loop fuel r len acc = (r', Some out) -> zlen out = zlen acc + len.
Proof.
  induction fuel as [|fuel IH]; intros r len acc r' out Hl Hk; cbn [read_loop]; [intros [= <- <-]; lia|]. destruct (Z.eqb_spec len 0) as [->|Hne]; [intros [= <- <-]; lia|].
  destruct (chunk_range r len Hk) as [Hn1 Hn2]; [lia|]. set (n := chunk_of r len) in *. pose proof (b_read_spec (io r) n) as Hs. destruct (b_read (io r) n) as [b [x|]]; [|done]. cbn [fst snd] in Hs.
  destruct (Hs x Hn1 eq_refl) as [_ Hx]. intros E. apply IH in E; [rewrite zlen_app in E; lia|lia|unfold update; by destruct (update_cksum _)].
Qed.
Lemma rioRead_length (r : rio B) n r' bs : 0 <= n -> rio_ok r -> rioRead r n = (r', Some bs) -> zlen bs = n /\ rioGetReadError r = false.
Proof.
  intros Hn Hr. unfold rioRead, rioGetReadError. destruct (hasflag (flags r) RIO_FLAG_READ_ERROR); [done|]. intros E. split; [|done]. apply read_loop_length in E; [exact E|lia|apply Hr].
Qed.
End SaveRio.
Lemma bind_ok {B A C} (f : load_t B A) (g : A -> load_t B C) r r' a : f r = Some (r', Ok a) -> load_bind f g r = g a r'.
Proof. intros E. unfold load_bind. by rewrite E. Qed.
Lemma bind_err {B A C} (f : load_t B A) (g : A -> load_t B C) r r' : f r = Some (r', Err) -> load_bind f g r = Some (r', Err).
Proof. intros E. unfold load_bind. by rewrite E. Qed.

(** ** Loading *)
Section LoadRio.
  Context {B : Type} `{Backend B} `{Checksum} {V : Type} `{!Values V (B := B)} `{DictOrder} `{Scripting}.
  Context (be : bool) (mem : nat -> Z) (ld : server) (rdbflags : Z).
#[local] Abbreviation loop fuel := (load_loop (B := B) be mem ld fuel rdbflags (mstime ld) (LRU_CLOCK ld) 9).
#[local] Abbreviation magic := (bytes_of_string "REDIS0009").
Definition start (st : loading (V := V)) : loading := mk_loading (dbs st) 0 (-1) (-1) (-1) (rsi st) (lua_scripts st).
Definition prepared (r : rio B) : rio B := set_chunk (set_update r (rdb_checksum ld)) (interval_bytes ld).

(** With the header of this version. *)
Lemma load_header fuel st r rest : 0 <= interval_bytes ld -> rio_ok r -> ready r -> pending (io r) = magic ++ rest ->
  exists r1, passed (prepared r) r1 magic /\ remains r1 rest /\
    rdbLoadRio be mem ld fuel rdbflags st r = '(r, x) ← load_bind (loop fuel (start st)) (load_checksum be ld 9) r1; Some (r, match x with Err => if file_loading ld then Exit else Err | x => x end).
Proof.
  intros Hint [Hc _] Hrd Hp. assert (Hm : bytes_ok magic) by (by apply text_bool).
  destruct (proj2 (parses_read magic 9 Hm eq_refl) (prepared r)) as [R1 _]; [done|done|]. destruct (R1 rest Hp) as (r1 & E1 & P1 & Q1).
  exists r1. split; [done|]. split; [done|]. unfold rdbLoadRio. fold (prepared r) (start st). rewrite (bind_ok _ _ _ _ _ E1). reflexivity.
Qed.
Lemma load_short fuel st r p q : 0 <= interval_bytes ld -> rio_ok r -> ready r -> magic = p ++ q -> q <> [] -> pending (io r) = p ->
  exists r', rdbLoadRio be mem ld fuel rdbflags st r = Some (r', if file_loading ld then Exit else Err).
Proof.
  intros Hint [Hc _] Hrd E Hq Hp. assert (Hm : bytes_ok magic) by (by apply text_bool).
  destruct (proj2 (parses_read magic 9 Hm eq_refl) (prepared r)) as [_ R1]; [done|done|]. destruct (R1 p q E Hq Hp) as (r1 & E1).
  exists r1. unfold rdbLoadRio. fold (prepared r) (start st). rewrite (bind_err _ _ _ _ E1). cbn [mbind option_bind]. by destruct (file_loading ld).
Qed.

Lemma load_checksum_ok r (st : loading (V := V)) c rest : rio_ok r -> ready r -> in_u 64 c -> (rdb_checksum ld = true -> c = 0 \/ c = cksum r) -> pending (io r) = le_bytes 8 c ++ rest ->
  exists r', load_checksum be ld 9 st r = Some (r', Ok (Some st)) /\ remains r' rest.
Proof.
  intros Hr Hrd Hc Hck Hp. unfold load_checksum. change (9 >=? 5) with true. cbn iota.
  destruct (proj2 (parses_read (le_bytes 8 c) 8 (le_bytes_ok _ _) (zlen_le_bytes 8 c)) r Hr Hrd) as [R1 _]. destruct (R1 rest Hp) as (r1 & E1 & P1 & Q1).
  exists r1. split; [|done]. rewrite (bind_ok _ _ _ _ _ E1), val8, wrapu_small by done. destruct (rdb_checksum ld); [|done].
  destruct (Hck eq_refl) as [->| ->]; [done|]. destruct (cksum r =? 0); [done|]. by rewrite Z.eqb_refl.
Qed.
Lemma load_checksum_short r (st : loading (V := V)) c p q : rio_ok r -> ready r -> le_bytes 8 c = p ++ q -> q <> [] -> pending (io r) = p ->
  exists r', load_checksum be ld 9 st r = Some (r', Err).
Proof.
  intros Hr Hrd E Hq Hp. unfold load_checksum. change (9 >=? 5) with true. cbn iota.
  destruct (proj2 (parses_read (le_bytes 8 c) 8 (le_bytes_ok _ _) (zlen_le_bytes 8 c)) r Hr Hrd) as [_ R1]. destruct (R1 p q E Hq Hp) as (r1 & E1).
  exists r1. by rewrite (bind_err _ _ _ _ E1).
Qed.

Lemma tracks_opt {A} (x : option A) : tracks (load_opt (B := B) x).
Proof. destruct x; [apply tracks_ret|apply tracks_exit]. Qed.
#[local] Hint Resolve tracks_opt tracks_len tracks_len_or_fail tracks_string object_tracks : rio.
Lemma tracks_loop fuel ver now clk : forall st, tracks (load_loop (B := B) be mem ld fuel rdbflags now clk ver st).
Proof.
  induction fuel as [|fuel IH]; intros st; cbn [load_loop]; [split; by intros|]. apply tracks_bind; [|intros [?|?]; [apply IH|apply tracks_ret]].
  unfold load_opcode, rdbLoadType. apply tracks_bind; [load_auto|intros type]. unfold handle_opcode, rdbLoadTime, rdbLoadMillisecondTime, rdbLoadStringObject.
  repeat match goal with |- context [if type =? ?c then _ else _] => destruct (type =? c) end; load_auto.
Qed.
End LoadRio.

(** ** Theorems *)
Section Theorems.
  Context {B : Type} `{Backend B} `{Checksum} {V : Type} `{!Values V (B := B)} `{DictOrder} `{Scripting}.

(** C15: an RDB file round trips.  Let a server with any configuration save its
    databases, its replication data and its scripts with rdbSaveRio, on a
    stream that may fail: C_OK means that the whole file was written, C_ERR that
    a part of it was.  rdbLoadRio, on a host of either byte order, with any
    configuration, loading the file into empty databases, reads exactly the
    file, returns C_OK, and every database has the keys that were saved, with
    their contents and their expire times; a master leaves out, outside AOF
    preambles, the keys already expired.  Loading any strict prefix of the
    file is a short read. *)
Theorem rdb_file_roundtrip (be1 be2 : bool) (mem1 mem2 : nat -> Z) (stack : Z -> Z) (compression : bool) (sv ld : server) (saveflags loadflags : Z)
    (sdbs : list (redisDb V)) (i : option rdbSaveInfo) (scripts : gmap (list Z) (list Z)) (st : loading)
    (Hsv : dataset_ok sv sdbs i scripts) (Hnum : Z.of_nat (length sdbs) <= dbnum ld) (Hint : 0 <= interval_bytes ld)
    (Hempty : forall j, (j < length sdbs)%nat -> dbs st !! j = Some empty_db) :
  exists file,
    (forall r : rio B, rio_ok r -> cksum r = 0 -> update_cksum r = false ->
       exists r' ok, rdbSaveRio be1 mem1 stack compression sv saveflags i sdbs scripts r = Some (r', ok) /\ saved r r' file ok) /\
    (forall fuel (r : rio B) rest, (length file <= fuel)%nat -> rio_ok r -> ready r -> cksum r = 0 -> pending (io r) = file ++ rest ->
       exists r' st', rdbLoadRio be2 mem2 ld fuel loadflags st r = Some (r', Ok (Some st')) /\ remains r' rest /\
         loaded_as sv ld loadflags (mstime ld) sdbs i scripts (start st) st') /\
    (forall fuel (r : rio B) p q, (length file <= fuel)%nat -> rio_ok r -> ready r -> file = p ++ q -> q <> [] -> pending (io r) = p ->
       exists r', rdbLoadRio be2 mem2 ld fuel loadflags st r = Some (r', if file_loading ld then Exit else Err)).
Proof.
  destruct (body_saved be1 be2 mem1 mem2 stack compression sv ld loadflags (mstime ld) (LRU_CLOCK ld) 9 eq_refl saveflags sdbs i scripts (start st) Hsv Hnum) as (body & st' & (n & En) & La & Pb); [done|done|].
  assert (Hm : bytes_ok (bytes_of_string "REDIS0009")) by (by apply text_bool). set (magic := bytes_of_string "REDIS0009") in *.
  pose proof En as (Hb & _). apply Forall_app in Hb as [_ Hb].
  set (c := stored_sum (rdb_checksum sv) (magic ++ body)). assert (Hc : in_u 64 c) by (unfold c, stored_sum; destruct (rdb_checksum sv); [apply crc_range; [unfold in_u; lia|auto with cmem]|unfold in_u; lia]).
  exists ((magic ++ body) ++ le_bytes 8 c). split; [|split].
  - intros r Hr Hck Hu. by apply (save_rio_spec be1 mem1 stack compression sv saveflags i sdbs scripts (magic ++ body) n En).
  - intros fuel r rest Hf Hr Hrd Hck Hp. rewrite !length_app in Hf. rewrite <- !app_assoc in Hp.
    destruct (load_header be2 mem2 ld loadflags fuel st r _ Hint Hr Hrd Hp) as (r1 & P1 & Q1 & ->).
    assert (Hr0 : rio_ok (prepared ld r) /\ ready (prepared ld r)) by (destruct Hr; done). destruct Hr0 as [Hr0 Hrd0].
    pose proof (passed_ok _ _ _ Hr0 Hm P1) as Hr1. pose proof (passed_ready _ _ _ _ P1 Hrd0 Q1) as Hrd1.
    destruct (proj2 (Pb fuel ltac:(lia)) r1 Hr1 Hrd1) as [F1 _]. destruct (F1 _ (proj1 Q1)) as (r2 & E2 & P2 & Q2). rewrite (bind_ok _ _ _ _ _ E2).
    pose proof (passed_ok _ _ _ Hr1 Hb P2) as Hr2. pose proof (passed_ready _ _ _ _ P2 Hrd1 Q2) as Hrd2.
    destruct (load_checksum_ok be2 ld r2 st' c rest Hr2 Hrd2 Hc) as (r3 & E3 & Q3); [|apply Q2|].
    { intros Hon. pose proof (pass_sum _ _ _ (passed_app _ _ _ _ _ Hr0 Hm Hb P1 P2)) as Es. unfold sum_with, prepared in Es. cbn in Es. rewrite Hon, Hck in Es.
      unfold c, stored_sum. destruct (rdb_checksum sv); [by right|by left]. }
    rewrite E3. exists r3, st'. done.
  - intros fuel r p q Hf Hr Hrd E Hq Hp. rewrite !length_app in Hf. rewrite <- app_assoc in E.
    assert (Hr0 : rio_ok (prepared ld r) /\ ready (prepared ld r)) by (destruct Hr; done). destruct Hr0 as [Hr0 Hrd0].
    destruct (app_prefix_cases magic (body ++ le_bytes 8 c) p q E Hq) as [(q' & Em & Hq')|(p' & Ep & E')].
    { by apply (load_short be2 mem2 ld loadflags fuel st r p q'). }
    rewrite Ep in Hp. destruct (load_header be2 mem2 ld loadflags fuel st r p' Hint Hr Hrd Hp) as (r1 & P1 & Q1 & ->). pose proof (passed_ok _ _ _ Hr0 Hm P1) as Hr1. pose proof (passed_ready _ _ _ _ P1 Hrd0 Q1) as Hrd1.
    destruct (proj2 (Pb fuel ltac:(lia)) r1 Hr1 Hrd1) as [F1 F2]. destruct (app_prefix_cases body (le_bytes 8 c) p' q E' Hq) as [(q' & Em & Hq')|(p2 & Ep2 & E2)].
    { destruct (F2 p' q' Em Hq' (proj1 Q1)) as (r2 & E2). rewrite (bind_err _ _ _ _ E2). cbn [mbind option_bind]. exists r2. by destruct (file_loading ld). }
    destruct (F1 p2) as (r2 & E3 & P2 & Q2); [by rewrite (proj1 Q1)|]. rewrite (bind_ok _ _ _ _ _ E3).
    destruct (load_checksum_short be2 ld r2 st' c p2 q (passed_ok _ _ _ Hr1 Hb P2) (passed_ready _ _ _ _ P2 Hrd1 Q2) E2 Hq (proj1 Q2)) as (r3 & ->). cbn [mbind option_bind]. exists r3. by destruct (file_loading ld).
Qed.

(** What the checksum guarantees.  Change at most eight consecutive bytes of an
    RDB file behind its header and before its checksum, which is not 0 and is
    verified: when rdbLoadRio still accepts the file, then only because it found
    the end of a shorter one, and bytes behind it are unread.  Changes of the
    version or of the checksum itself (which 0 turns off) can go unnoticed. *)
Theorem rdb_corruption_detected (be : bool) (mem : nat -> Z) (ld : server) (rdbflags : Z) (fuel : nat) (st st' : loading (V := V)) (r r' : rio B) (p x y s : list Z)
    (Hint : 0 <= interval_bytes ld) (Hon : rdb_checksum ld = true) (Hr : rio_ok r) (Hc : cksum r = 0) (Hrd : ready r)
    (Hb : bytes_ok (bytes_of_string "REDIS0009" ++ p ++ x ++ s)) (Hy : bytes_ok y) (Hl : length x = length y) (H8 : (length x <= 8)%nat) (Hne : x <> y)
    (Hsum : crc 0 (bytes_of_string "REDIS0009" ++ p ++ x ++ s) <> 0)
    (Hp : pending (io r) = (bytes_of_string "REDIS0009" ++ p ++ y ++ s) ++ le_bytes 8 (crc 0 (bytes_of_string "REDIS0009" ++ p ++ x ++ s)))
    (E : rdbLoadRio be mem ld fuel rdbflags st r = Some (r', Ok (Some st'))) :
  pending (io r') <> [].
Proof.
  intros Hend. set (magic := bytes_of_string "REDIS0009") in *. set (c := crc 0 _) in *. rewrite <- app_assoc in Hp.
  destruct (load_header be mem ld rdbflags fuel st r _ Hint Hr Hrd Hp) as (r1 & P1 & Q1 & E1). rewrite E1 in E. clear E1.
  assert (Hr0 : rio_ok (prepared ld r) /\ ready (prepared ld r)) by (destruct Hr; done). destruct Hr0 as [Hr0 Hrd0].
  apply Forall_app in Hb as Hb'. destruct Hb' as [Hm Hb']. apply Forall_app in Hb' as [Hbp Hb']. apply Forall_app in Hb' as [Hbx Hbs].
  pose proof (passed_ok _ _ _ Hr0 Hm P1) as Hr1.
  assert (Hc64 : in_u 64 c) by (apply crc_range; [unfold in_u; lia|done]).
  unfold load_bind in E at 1. destruct (load_loop _ _ _ _ _ _ _ _ _ r1) as [[r2 [st2| |]]|] eqn:E2; cbn [mbind option_bind] in E; [|by destruct (file_loading ld)|done|done].
  unfold load_checksum in E. change (9 >=? 5) with true in E. cbn iota in E. unfold load_bind, read in E. destruct (rioRead r2 8) as [r3 [c8|]] eqn:E3; cbn [mbind option_bind] in E; [|by destruct (file_loading ld)].
  assert (Hb1 : bytes_ok (pending (io r1))) by (rewrite (proj1 Q1); repeat (apply Forall_app; split); try done; apply le_bytes_ok).
  assert (Hn2 : rioGetReadError r2 = false) by (unfold rioRead, rioGetReadError in *; by destruct (hasflag (flags r2) RIO_FLAG_READ_ERROR)).
  destruct (track_consumed _ (tracks_loop be mem ld rdbflags fuel 9 (mstime ld) (LRU_CLOCK ld) (start st)) r1 r2 st2 Hr1 Hb1 E2 Hn2) as (bs & C2).
  destruct (consumed_ok _ _ _ Hr1 Hb1 C2) as (Hbs2 & Hr2 & Hb2). pose proof (rioRead_tracks _ _ _ _ Hr2 Hb2 E3) as C3. cbn iota in C3.
  destruct (rioRead_length r2 8 r3 c8 ltac:(lia) Hr2 E3) as [Hl8 _]. rewrite Hon in E.
  assert (Er : r' = r3 /\ (native_val be (memrev64ifbe be c8) = 0 \/ native_val be (memrev64ifbe be c8) = cksum r2)).
  { destruct (Z.eqb_spec (native_val be (memrev64ifbe be c8)) 0); [injection E as <- _; by split; [|left]|].
    destruct (Z.eqb_spec (native_val be (memrev64ifbe be c8)) (cksum r2)); cbn [negb] in E; [injection E as <- _; by split; [|right]|done]. }
  destruct Er as [-> Ev]. destruct C2 as [Ep2 P2], C3 as [Ep3 _]. rewrite Hend, app_nil_r in Ep3. rewrite (proj1 Q1), Ep3 in Ep2.
  rewrite app_assoc in Ep2. apply app_inj_2 in Ep2 as [Ebs Ec8]; [|pose proof (zlen_le_bytes 8 c); unfold zlen in *; lia].
  rewrite <- Ec8, val8, wrapu_small in Ev by done. destruct Ev as [Ev|Ev]; [done|].
  pose proof (pass_sum _ _ _ (passed_app _ _ _ _ _ Hr0 Hm Hbs2 P1 P2)) as Es. unfold sum_with, prepared in Es. cbn [update_cksum cksum set_chunk set_update] in Es. rewrite Hon, Hc in Es.
  rewrite Es, <- Ebs in Ev. apply Hne, (crc_burst 0 (magic ++ p) x y s); [unfold in_u; lia|by rewrite <- app_assoc|done|done|done|]. rewrite <- (app_assoc p y s) in Ev. rewrite <- !app_assoc. exact Ev.
Qed.
End Theorems.
