(* ===== verification/Tset.v ===== *)
(** * Sets (t_set.c)

    A set object is an intset or a hash table.  The operations of the type
    convert between the two; the commands work on a keyspace of sets and
    values of other types.  Every object is the value of one key, so pointer
    equality of objects is equality of keys.  Sets refine [gset]s of byte
    strings, whatever their encodings, and the commands refine the set algebra
    on the keyspace.  Cardinalities and the counts in replies are unbounded
    integers where the code has an int or an unsigned long. *)
From Stdlib Require Import Strings.String Sorting.Sorted.
From stdpp Require Import sorting.
From S2P Require Import Prelude Endian Intset Util.

Inductive setobj := IntsetEnc (s : intset) | HtEnc (d : gmap (list Z) ()).

(** What setTypeNext yields: an integer or an sds, according to the encoding. *)
Inductive elem := EInt (v : Z) | ESds (bs : list Z).
(** [setTypeNextObject]: sdsfromlonglong writes the decimal notation. *)
Definition setTypeNextObject (e : elem) : list Z := match e with EInt v => dec v | ESds bs => bs end.

(** [qsort] with a comparison function that compares a size. *)
Class Qsort := {
  qsort {A} : (A -> Z) -> list A -> list A;
  qsort_perm {A} (f : A -> Z) l : qsort f l ≡ₚ l;
  qsort_sorted {A} (f : A -> Z) l : StronglySorted (fun x y => f x <= f y) (qsort f l)
}.

Section Tset.
  Context `{DictOrder} `{Qsort} (be : bool) (junk : nat -> Z) (set_max_intset_entries : Z).

Definition isSdsRepresentableAsLongLong (s : list Z) : option Z := string2ll s.
Definition createIntsetObject : setobj := IntsetEnc (intsetNew be).
Definition createSetObject : setobj := HtEnc ∅.
Definition setTypeCreate (value : list Z) : setobj :=
  match isSdsRepresentableAsLongLong value with Some _ => createIntsetObject | None => createSetObject end.

(** The iterator: the position in the intset, or the entries still to come. *)
Inductive iterator := IterIntset (s : intset) (ii : Z) | IterHt (rest : list (list Z * ())).
Definition setTypeInitIterator (o : setobj) : iterator :=
  match o with IntsetEnc s => IterIntset s 0 | HtEnc d => IterHt (entries d) end.
Definition setTypeNext (si : iterator) : option (option elem * iterator) :=
  match si with
  | IterHt [] => Some (None, si)
  | IterHt ((k, _) :: rest) => Some (Some (ESds k), IterHt rest)
  | IterIntset s ii => x ← intsetGet be s ii; Some (option_map EInt x, IterIntset s (ii + 1))
  end.
(** The elements of a [while] loop over a set its body leaves alone. *)
Fixpoint walk (fuel : nat) (si : iterator) : option (list elem) :=
  match fuel with
  | O => None
  | S fuel =>
      '(x, si) ← setTypeNext si;
      match x with None => Some [] | Some e => l ← walk fuel si; Some (e :: l) end
  end.
Definition setTypeSize (o : setobj) : Z :=
  match o with IntsetEnc s => intsetLen be s | HtEnc d => Z.of_nat (size d) end.
Definition iterate (o : setobj) : option (list elem) := walk (S (Z.to_nat (setTypeSize o))) (setTypeInitIterator o).

(** [serverAssert(dictAdd(d,element,NULL) == DICT_OK)] *)
Definition dict_add (d : gmap (list Z) ()) (x : list Z) : option (gmap (list Z) ()) :=
  match d !! x with Some _ => None | None => Some (<[x := ()]> d) end.
Definition setTypeConvert (o : setobj) : option setobj :=
  match o with
  | HtEnc _ => None
  | IntsetEnc _ =>
      l ← iterate o;
      d ← foldl (fun d e => d ← d; dict_add d (setTypeNextObject e)) (Some ∅) l;
      Some (HtEnc d)
  end.

Definition setTypeAdd (subject : setobj) (value : list Z) : option (setobj * bool) :=
  match subject with
  | HtEnc ht => match ht !! value with None => Some (HtEnc (<[value := ()]> ht), true) | Some _ => Some (subject, false) end
  | IntsetEnc s =>
      match isSdsRepresentableAsLongLong value with
      | Some llval =>
          '(s, success) ← intsetAdd be junk s llval;
          if (success : bool) then
            if intsetLen be s >? set_max_intset_entries then o ← setTypeConvert (IntsetEnc s); Some (o, true)
            else Some (IntsetEnc s, true)
          else Some (IntsetEnc s, false)
      | None =>
          o ← setTypeConvert subject;
          match o with
          | HtEnc d => d ← dict_add d value; Some (HtEnc d, true)
          | IntsetEnc _ => None
          end
      end
  end.
Definition setTypeRemove (o : setobj) (value : list Z) : option (setobj * bool) :=
  match o with
  | HtEnc d => match d !! value with Some _ => Some (HtEnc (delete value d), true) | None => Some (o, false) end
  | IntsetEnc s =>
      match isSdsRepresentableAsLongLong value with
      | Some llval => '(s, success) ← intsetRemove be junk s llval; Some (IntsetEnc s, success)
      | None => Some (o, false)
      end
  end.
Definition setTypeIsMember (o : setobj) (value : list Z) : option bool :=
  match o with
  | HtEnc d => Some (match d !! value with Some _ => true | None => false end)
  | IntsetEnc s =>
      match isSdsRepresentableAsLongLong value with
      | Some llval => intsetFind be s llval
      | None => Some false
      end
  end.

(** ** The keyspace *)
Inductive value := VSet (o : setobj) | VOther (type : Z).
Record state := mk_state {
  db : gmap (list Z) value;
  dirty : Z;
  touched : list (list Z);            (* signalModifiedKey, latest first *)
  notified : list (list Z * list Z)   (* notifyKeyspaceEvent: the event and the key *)
}.
Inductive reply := ReplyInt (n : Z) | ReplyWrongType | ReplySet (len : Z) (l : list (list Z)).
#[local] Abbreviation text s := (bytes_of_string s%string).

Definition set_db (st : state) (m : gmap (list Z) value) : state := mk_state m (dirty st) (touched st) (notified st).
Definition signalModifiedKey (st : state) (key : list Z) : state := mk_state (db st) (dirty st) (key :: touched st) (notified st).
Definition notifyKeyspaceEvent (st : state) (event key : list Z) : state := mk_state (db st) (dirty st) (touched st) ((event, key) :: notified st).
Definition add_dirty (st : state) (n : Z) : state := mk_state (db st) (dirty st + n) (touched st) (notified st).
Definition dbAdd (st : state) (key : list Z) (v : value) : option state :=
  match db st !! key with Some _ => None | None => Some (set_db st (<[key := v]> (db st))) end.
Definition dbDelete (st : state) (key : list Z) : state * bool :=
  (set_db st (delete key (db st)), match db st !! key with Some _ => true | None => false end).

(** ** Commands *)
(** [for (j = 2; j < c->argc; j++) if (setTypeAdd(...)) added++;] *)
Fixpoint add_all (o : setobj) (l : list (list Z)) (added : Z) : option (setobj * Z) :=
  match l with
  | [] => Some (o, added)
  | x :: l => '(o, ok) ← setTypeAdd o x; add_all o l (if (ok : bool) then added + 1 else added)
  end.
Definition saddCommand (st : state) (key member : list Z) (more : list (list Z)) : option (state * reply) :=
  start ← match db st !! key with
          | None => let set := setTypeCreate member in st ← dbAdd st key (VSet set); Some (Some (st, set))
          | Some (VSet set) => Some (Some (st, set))
          | Some (VOther _) => Some None
          end;
  match start with
  | None => Some (st, ReplyWrongType)
  | Some (st, set) =>
      '(set, added) ← add_all set (member :: more) 0;
      let st := set_db st (<[key := VSet set]> (db st)) in
      let st := if negb (added =? 0) then notifyKeyspaceEvent (signalModifiedKey st key) (text "sadd") key else st in
      Some (add_dirty st added, ReplyInt added)
  end.

(** The elements removed, and whether the set became empty, which ends the
    loop. *)
Fixpoint remove_all (o : setobj) (l : list (list Z)) (deleted : Z) : option (setobj * Z * bool) :=
  match l with
  | [] => Some (o, deleted, false)
  | x :: l =>
      '(o, ok) ← setTypeRemove o x;
      if (ok : bool) then
        if setTypeSize o =? 0 then Some (o, deleted + 1, true) else remove_all o l (deleted + 1)
      else remove_all o l deleted
  end.
Definition sremCommand (st : state) (key : list Z) (members : list (list Z)) : option (state * reply) :=
  match db st !! key with
  | None => Some (st, ReplyInt 0)
  | Some (VOther _) => Some (st, ReplyWrongType)
  | Some (VSet set) =>
      '(set, deleted, keyremoved) ← remove_all set members 0;
      let st := set_db st (<[key := VSet set]> (db st)) in
      let st := if (keyremoved : bool) then (dbDelete st key).1 else st in
      if negb (deleted =? 0) then
        let st := notifyKeyspaceEvent (signalModifiedKey st key) (text "srem") key in
        let st := if keyremoved then notifyKeyspaceEvent st (text "del") key else st in
        Some (add_dirty st deleted, ReplyInt deleted)
      else Some (st, ReplyInt deleted)
  end.

Definition smoveCommand (st : state) (src dst ele : list Z) : option (state * reply) :=
  match db st !! src, db st !! dst with
  | None, _ => Some (st, ReplyInt 0)
  | Some (VOther _), _ => Some (st, ReplyWrongType)
  | _, Some (VOther _) => Some (st, ReplyWrongType)
  | Some (VSet srcset), dstset =>
      if bool_decide (src = dst) then
        b ← setTypeIsMember srcset ele; Some (st, ReplyInt (if (b : bool) then 1 else 0))
      else
        '(srcset, ok) ← setTypeRemove srcset ele;
        let st := set_db st (<[src := VSet srcset]> (db st)) in
        if negb (ok : bool) then Some (st, ReplyInt 0)
        else
          let st := notifyKeyspaceEvent st (text "srem") src in
          let st := if setTypeSize srcset =? 0 then notifyKeyspaceEvent (dbDelete st src).1 (text "del") src else st in
          '(st, dstset) ← match dstset with
                          | Some (VSet o) => Some (st, o)
                          | _ => let o := setTypeCreate ele in st ← dbAdd st dst (VSet o); Some (st, o)
                          end;
          let st := signalModifiedKey (signalModifiedKey st src) dst in
          let st := add_dirty st 1 in
          '(dstset, ok) ← setTypeAdd dstset ele;
          let st := set_db st (<[dst := VSet dstset]> (db st)) in
          let st := if (ok : bool) then notifyKeyspaceEvent (add_dirty st 1) (text "sadd") dst else st in
          Some (st, ReplyInt 1)
  end.

Definition sismemberCommand (st : state) (key ele : list Z) : option reply :=
  match db st !! key with
  | None => Some (ReplyInt 0)
  | Some (VOther _) => Some ReplyWrongType
  | Some (VSet set) => b ← setTypeIsMember set ele; Some (ReplyInt (if (b : bool) then 1 else 0))
  end.
Definition scardCommand (st : state) (key : list Z) : option reply :=
  match db st !! key with
  | None => Some (ReplyInt 0)
  | Some (VOther _) => Some ReplyWrongType
  | Some (VSet set) => Some (ReplyInt (setTypeSize set))
  end.

(** *** SINTER *)
Inductive found := Missing | WrongType | Sets (l : list (list Z * setobj)).
Fixpoint lookup_sets (st : state) (setkeys : list (list Z)) : found :=
  match setkeys with
  | [] => Sets []
  | k :: ks =>
      match db st !! k with
      | None => Missing
      | Some (VOther _) => WrongType
      | Some (VSet o) => match lookup_sets st ks with Sets l => Sets ((k, o) :: l) | r => r end
      end
  end.
(** [for (j = 1; j < setnum; j++)]: whether it ran to the end. *)
Fixpoint in_all (k0 : list Z) (e : elem) (sets : list (list Z * setobj)) : option bool :=
  match sets with
  | [] => Some true
  | (k, o) :: sets =>
      if bool_decide (k = k0) then in_all k0 e sets
      else
        ok ← match e, o with
             | EInt v, IntsetEnc s => intsetFind be s v
             | EInt v, HtEnc _ => setTypeIsMember o (dec v)
             | ESds bs, _ => setTypeIsMember o bs
             end;
        if (ok : bool) then in_all k0 e sets else Some false
  end.
Fixpoint inter_reply (k0 : list Z) (others : list (list Z * setobj)) (l : list elem) : option (list (list Z)) :=
  match l with
  | [] => Some []
  | e :: l =>
      ok ← in_all k0 e others;
      r ← inter_reply k0 others l;
      Some (if (ok : bool) then setTypeNextObject e :: r else r)
  end.
Fixpoint inter_store (k0 : list Z) (others : list (list Z * setobj)) (l : list elem) (dstset : setobj) : option setobj :=
  match l with
  | [] => Some dstset
  | e :: l =>
      ok ← in_all k0 e others;
      dstset ← (if (ok : bool) then '(d, _) ← setTypeAdd dstset (setTypeNextObject e); Some d else Some dstset);
      inter_store k0 others l dstset
  end.
(** The end of the STORE commands. *)
Definition store_result (st : state) (dstkey : list Z) (dstset : setobj) (event : list Z) : option (state * reply) :=
  let '(st, deleted) := dbDelete st dstkey in
  '(st, r) ← (if setTypeSize dstset >? 0 then
                st ← dbAdd st dstkey (VSet dstset);
                Some (notifyKeyspaceEvent st event dstkey, ReplyInt (setTypeSize dstset))
              else Some (if (deleted : bool) then notifyKeyspaceEvent st (text "del") dstkey else st, ReplyInt 0));
  Some (add_dirty (signalModifiedKey st dstkey) 1, r).

Definition sinterGenericCommand (st : state) (setkeys : list (list Z)) (dstkey : option (list Z)) : option (state * reply) :=
  match lookup_sets st setkeys with
  | Missing =>
      match dstkey with
      | Some dst => let '(st, deleted) := dbDelete st dst in
                    Some (if (deleted : bool) then add_dirty (signalModifiedKey st dst) 1 else st, ReplyInt 0)
      | None => Some (st, ReplySet 0 [])
      end
  | WrongType => Some (st, ReplyWrongType)
  | Sets sets =>
      match qsort (fun s => setTypeSize s.2) sets with
      | [] => None
      | (k0, o0) :: others =>
          l ← iterate o0;
          match dstkey with
          | None => r ← inter_reply k0 others l; Some (st, ReplySet (zlen r) r)
          | Some dst => dstset ← inter_store k0 others l createIntsetObject; store_result st dst dstset (text "sinterstore")
          end
      end
  end.
Definition sinterCommand (st : state) (keys : list (list Z)) : option (state * reply) := sinterGenericCommand st keys None.
Definition sinterstoreCommand (st : state) (dst : list Z) (keys : list (list Z)) : option (state * reply) := sinterGenericCommand st keys (Some dst).

(** *** SUNION and SDIFF *)
Inductive set_op := SET_OP_UNION | SET_OP_DIFF.
(** A missing key is a NULL object. *)
Fixpoint lookup_some (st : state) (setkeys : list (list Z)) : option (list (list Z * option setobj)) :=
  match setkeys with
  | [] => Some []
  | k :: ks =>
      match db st !! k with
      | None => l ← lookup_some st ks; Some ((k, None) :: l)
      | Some (VOther _) => None
      | Some (VSet o) => l ← lookup_some st ks; Some ((k, Some o) :: l)
      end
  end.
Definition size_or_zero (o : option setobj) : Z := match o with Some o => setTypeSize o | None => 0 end.
Definition diff_algo (o0 : setobj) (sets : list (list Z * option setobj)) : Z :=
  let live := omap (fun s => s.2) sets in
  let algo_one_work := Z.quot (foldl (fun n _ => n + setTypeSize o0) 0 live) 2 in
  let algo_two_work := foldl (fun n o => n + setTypeSize o) 0 live in
  if algo_one_work <=? algo_two_work then 1 else 2.

(** [while((ele = setTypeNextObject(si)) != NULL) if (setTypeAdd(dstset,ele)) cardinality++;] *)
Definition add_elems (dstset : setobj) (l : list elem) (cardinality : Z) : option (setobj * Z) := add_all dstset (map setTypeNextObject l) cardinality.
Fixpoint remove_elems (dstset : setobj) (l : list (list Z)) (cardinality : Z) : option (setobj * Z) :=
  match l with
  | [] => Some (dstset, cardinality)
  | x :: l => '(o, ok) ← setTypeRemove dstset x; remove_elems o l (if (ok : bool) then cardinality - 1 else cardinality)
  end.
Fixpoint union_all (sets : list (list Z * option setobj)) (dstset : setobj) (cardinality : Z) : option (setobj * Z) :=
  match sets with
  | [] => Some (dstset, cardinality)
  | (_, None) :: sets => union_all sets dstset cardinality
  | (_, Some o) :: sets => l ← iterate o; '(d, n) ← add_elems dstset l cardinality; union_all sets d n
  end.
(** Whether no other set has the element. *)
Fixpoint in_none (k0 x : list Z) (sets : list (list Z * option setobj)) : option bool :=
  match sets with
  | [] => Some true
  | (_, None) :: sets => in_none k0 x sets
  | (k, Some o) :: sets =>
      if bool_decide (k = k0) then Some false
      else b ← setTypeIsMember o x; if (b : bool) then Some false else in_none k0 x sets
  end.
Fixpoint diff_one (k0 : list Z) (others : list (list Z * option setobj)) (l : list (list Z)) (dstset : setobj) (cardinality : Z) : option (setobj * Z) :=
  match l with
  | [] => Some (dstset, cardinality)
  | x :: l =>
      ok ← in_none k0 x others;
      if (ok : bool) then '(d, _) ← setTypeAdd dstset x; diff_one k0 others l d (cardinality + 1)
      else diff_one k0 others l dstset cardinality
  end.
Fixpoint diff_two_rest (sets : list (list Z * option setobj)) (dstset : setobj) (cardinality : Z) : option (setobj * Z) :=
  match sets with
  | [] => Some (dstset, cardinality)
  | (_, None) :: sets => diff_two_rest sets dstset cardinality
  | (_, Some o) :: sets =>
      l ← iterate o; '(d, n) ← remove_elems dstset (map setTypeNextObject l) cardinality;
      if n =? 0 then Some (d, n) else diff_two_rest sets d n
  end.

(** [dstset] and [cardinality] after the operation. *)
Definition union_diff (op : set_op) (sets : list (list Z * option setobj)) : option (setobj * Z) :=
  let dstset := createIntsetObject in
  match op, sets with
  | SET_OP_UNION, _ => union_all sets dstset 0
  | SET_OP_DIFF, (k0, Some o0) :: others =>
      if diff_algo o0 sets =? 1 then
        let others := qsort (fun s => - size_or_zero s.2) others in
        l ← iterate o0; diff_one k0 others (map setTypeNextObject l) dstset 0
      else
        l ← iterate o0; '(d, n) ← add_elems dstset l 0;
        if n =? 0 then Some (d, n) else diff_two_rest others d n
  | SET_OP_DIFF, _ => Some (dstset, 0)
  end.
Definition sunionDiffGenericCommand (st : state) (setkeys : list (list Z)) (dstkey : option (list Z)) (op : set_op) : option (state * reply) :=
  match lookup_some st setkeys with
  | None => Some (st, ReplyWrongType)
  | Some sets =>
      '(dstset, cardinality) ← union_diff op sets;
      match dstkey with
      | None => l ← iterate dstset; Some (st, ReplySet cardinality (map setTypeNextObject l))
      | Some dst => store_result st dst dstset (match op with SET_OP_UNION => text "sunionstore" | SET_OP_DIFF => text "sdiffstore" end)
      end
  end.
Definition sunionCommand (st : state) (keys : list (list Z)) : option (state * reply) := sunionDiffGenericCommand st keys None SET_OP_UNION.
Definition sunionstoreCommand (st : state) (dst : list Z) (keys : list (list Z)) : option (state * reply) := sunionDiffGenericCommand st keys (Some dst) SET_OP_UNION.
Definition sdiffCommand (st : state) (keys : list (list Z)) : option (state * reply) := sunionDiffGenericCommand st keys None SET_OP_DIFF.
Definition sdiffstoreCommand (st : state) (dst : list Z) (keys : list (list Z)) : option (state * reply) := sunionDiffGenericCommand st keys (Some dst) SET_OP_DIFF.
End Tset.

(** ** The set type *)
Section TypeSpec.
  Context `{DictOrder} `{Qsort} (be : bool) (junk : nat -> Z) (set_max_intset_entries : Z) (Hmax : set_max_intset_entries + 1 < 2 ^ 28).
#[local] Abbreviation tadd := (setTypeAdd be junk set_max_intset_entries).
#[local] Abbreviation trem := (setTypeRemove be junk).

(** The set of byte strings an object stands for. *)
Definition holds (o : setobj) (S : gset (list Z)) : Prop :=
  match o with
  | IntsetEnc s => exists e l, repr be s e l /\ zlen l + 1 < 2 ^ 28 /\ S = list_to_set (map dec l)
  | HtEnc d => S = dom d
  end.

Lemma repr_in64 s e l v : repr be s e l -> v ∈ l -> in_s 64 v.
Proof.
  intros R Hv. pose proof (repr_range _ _ _ _ R) as Hr. rewrite Forall_forall in Hr. specialize (Hr v Hv).
  change 64 with (8 * 8). apply (in_s_mono e 8); [apply R|right; by right| |done]. destruct (repr_enc _ _ _ _ R) as [-> |[-> | ->]]; lia.
Qed.
Lemma repr_nodup s e l : repr be s e l -> NoDup l.
Proof.
  intros R. pose proof (repr_sorted _ _ _ _ R) as Hs. clear R. induction Hs as [|x l Hs IH Hx]; constructor; [|done].
  intros Hin. rewrite Forall_forall in Hx. specialize (Hx x Hin). lia.
Qed.
Lemma dec_nodup l : Forall (in_s 64) l -> NoDup l -> NoDup (map dec l).
Proof.
  intros Hr Hn. induction Hn as [|x l Hx Hn IH]; cbn; constructor.
  - intros Hin. apply list_elem_of_In, in_map_iff in Hin as (y & E & Hy). apply list_elem_of_In in Hy. apply Forall_cons in Hr as [H1 H2]. rewrite Forall_forall in H2. by rewrite (dec_inj x y) in Hx by eauto.
  - apply IH. by apply Forall_cons in Hr as [_ Hr].
Qed.
Lemma dec_elem l v : Forall (in_s 64) l -> in_s 64 v -> dec v ∈ map dec l <-> v ∈ l.
Proof.
  intros Hr Hv. rewrite !list_elem_of_In, in_map_iff. split; [|by exists v]. intros (y & E & Hy). rewrite Forall_forall in Hr. rewrite <- list_elem_of_In in Hy.
  rewrite (dec_inj v y) by eauto. by apply list_elem_of_In.
Qed.
Lemma repr_all64 s e l : repr be s e l -> Forall (in_s 64) l.
Proof. intros R. apply Forall_forall. intros v Hv. by apply (repr_in64 s e l). Qed.

Lemma repr_size s e l : repr be s e l -> size (list_to_set l : gset Z) = length l.
Proof. intros R. apply size_list_to_set. by apply (repr_nodup s e l). Qed.

(** An element that is not the notation of an integer is not in an intset. *)
Lemma holds_intset_elem s e l x : repr be s e l -> x ∈ (list_to_set (map dec l) : gset (list Z)) <-> exists v, string2ll x = Some v /\ v ∈ l.
Proof.
  intros R. rewrite elem_of_list_to_set, list_elem_of_In, in_map_iff. split.
  - intros (v & <- & Hv). apply list_elem_of_In in Hv. exists v. split; [apply string2ll_iff; split; [by apply (repr_in64 s e l)|done]|done].
  - intros (v & E & Hv). apply string2ll_iff in E as [_ ->]. exists v. split; [done|by apply list_elem_of_In].
Qed.

(** *** Size and iteration *)
Lemma intset_get s e l pos : repr be s e l -> 0 <= pos -> intsetGet be s pos = Some (l !! Z.to_nat pos) /\ intsetLen be s = zlen l.
Proof. intros R Hp. destruct (intset_find_spec be s e l 0 pos R ltac:(unfold in_s; lia) Hp) as (_ & E1 & E2 & _). done. Qed.
Lemma size_spec o S : holds o S -> setTypeSize be o = Z.of_nat (size S).
Proof.
  destruct o as [s|d]; cbn [holds setTypeSize].
  - intros (e & l & R & _ & ->). destruct (intset_get s e l 0 R ltac:(lia)) as [_ ->]. unfold zlen. rewrite size_list_to_set by (apply dec_nodup; [by apply (repr_all64 s e)|by apply (repr_nodup s e)]). by rewrite length_map.
  - intros ->. by rewrite size_dom.
Qed.
Lemma walk_intset s e l : repr be s e l -> forall fuel ii, 0 <= ii -> (length l - Z.to_nat ii < fuel)%nat -> walk be fuel (IterIntset s ii) = Some (map EInt (drop (Z.to_nat ii) l)).
Proof.
  intros R. induction fuel as [|fuel IH]; intros ii Hi Hf; [lia|]. cbn [walk setTypeNext]. destruct (intset_get s e l ii R Hi) as [-> _]. cbn [mbind option_bind].
  destruct (l !! Z.to_nat ii) as [v|] eqn:E; cbn [option_map].
  - assert (Z.to_nat ii < length l)%nat by (by apply lookup_lt_Some with v). rewrite IH by lia. cbn [mbind option_bind]. rewrite (drop_S l v (Z.to_nat ii) E). cbn [map].
    by replace (Z.to_nat (ii + 1)) with (S (Z.to_nat ii)) by lia.
  - apply lookup_ge_None in E. by rewrite drop_ge.
Qed.
Lemma walk_ht l : forall fuel, (length l < fuel)%nat -> walk be fuel (IterHt l) = Some (map (fun p => ESds p.1) l).
Proof.
  induction l as [|[k u] l IH]; intros [|fuel] Hf; cbn [length] in Hf; try lia; cbn [walk setTypeNext mbind option_bind map fst]; [done|]. rewrite IH by lia. done.
Qed.
Definition elem_ok (e : elem) : Prop := match e with EInt v => in_s 64 v | ESds _ => True end.
Definition elems_of (l : list elem) (S : gset (list Z)) : Prop := Forall elem_ok l /\ NoDup (map setTypeNextObject l) /\ list_to_set (map setTypeNextObject l) = S.
Lemma iterate_intset s e l : repr be s e l -> exists k, iterate be (IntsetEnc s) = Some k /\ elems_of k (list_to_set (map dec l)).
Proof.
  intros R. unfold iterate. cbn [setTypeSize setTypeInitIterator]. destruct (intset_get s e l 0 R ltac:(lia)) as [_ ->]. pose proof (repr_all64 _ _ _ R) as H64. pose proof (dec_nodup l H64 (repr_nodup _ _ _ R)) as Hn.
  rewrite (walk_intset s e l R) by (unfold zlen; lia). cbn [Z.to_nat drop]. assert (Em : map setTypeNextObject (map EInt l) = map dec l) by (rewrite map_map; done).
  exists (map EInt l). split; [done|]. unfold elems_of. rewrite Em. split; [by apply Forall_map|]. split; [done|done].
Qed.
Lemma iterate_spec o S : holds o S -> exists l, iterate be o = Some l /\ elems_of l S.
Proof.
  intros Ho. destruct o as [s|d]; cbn [holds] in *; [destruct Ho as (e & l & R & _ & ->); by apply (iterate_intset s e l)|].
  subst S. unfold iterate. cbn [setTypeSize setTypeInitIterator]. destruct (entries_nodup d) as [Hn Hin]. rewrite Nat2Z.id, walk_ht; cycle 1.
  { rewrite entries_perm, length_map_to_list. lia. }
  assert (Em : map setTypeNextObject (map (fun p : list Z * () => ESds p.1) (entries d)) = (entries d).*1) by (rewrite map_map; done).
  eexists. split; [done|]. unfold elems_of. rewrite Em. split; [apply Forall_map; by apply Forall_true|]. split; [done|]. apply sets.set_eq. intros x. rewrite elem_of_list_to_set, elem_of_dom, list_elem_of_fmap.
  split; [intros ([k u] & -> & Hx); exists u; by apply Hin|intros [u Hu]; exists (x, u); split; [done|by apply Hin]].
Qed.

(** *** Conversion *)
Lemma fold_dict_add l : forall d : gmap (list Z) (), NoDup (map setTypeNextObject l) -> (forall x, x ∈ map setTypeNextObject l -> d !! x = None) ->
  exists d', foldl (fun d e => d ← d; dict_add d (setTypeNextObject e)) (Some d) l = Some d' /\ dom d' = dom d ∪ list_to_set (map setTypeNextObject l).
Proof.
  induction l as [|e l IH]; intros d Hn Hd; cbn [foldl map list_to_set] in *; [exists d; split; [done|set_solver]|].
  apply NoDup_cons in Hn as [Hx Hn]. cbn [mbind option_bind]. unfold dict_add at 2. rewrite Hd by apply list_elem_of_here.
  destruct (IH (<[setTypeNextObject e := ()]> d) Hn) as (d' & -> & Hdom).
  - intros x Hin. rewrite lookup_insert_ne by (intros <-; done). apply Hd. by apply list_elem_of_further.
  - exists d'. split; [done|]. rewrite Hdom, dom_insert_L. set_solver.
Qed.
Lemma convert_spec s e l : repr be s e l -> exists d, setTypeConvert be (IntsetEnc s) = Some (HtEnc d) /\ dom d = list_to_set (map dec l).
Proof.
  intros R. destruct (iterate_intset s e l R) as (k & El & _ & Hn & Hs). unfold setTypeConvert. rewrite El. cbn [mbind option_bind].
  destruct (fold_dict_add k ∅ Hn) as (d & -> & Hd); [intros; apply lookup_empty|]. exists d. split; [done|]. rewrite Hd, dom_empty_L, Hs. set_solver.
Qed.

(** *** The operations *)
Lemma create_spec x : holds (setTypeCreate be x) ∅.
Proof. unfold setTypeCreate. destruct (isSdsRepresentableAsLongLong x); cbn; [exists 2, []; split; [apply repr_new|]; split; [done|done]|by rewrite dom_empty_L]. Qed.
Lemma intset_new_holds : holds (createIntsetObject be) ∅.
Proof. exists 2, []. split; [apply repr_new|]. split; [done|done]. Qed.
(** intsetAdd on the integers of a set, whatever the size it then has. *)
Lemma int_add_spec s S v : holds (IntsetEnc s) S -> in_s 64 v -> exists s' e l,
  intsetAdd be junk s v = Some (s', bool_decide (dec v ∉ S)) /\ repr be s' e l /\ {[dec v]} ∪ S = list_to_set (map dec l) /\ zlen l = Z.of_nat (size ({[dec v]} ∪ S)).
Proof.
  intros (e & l & R & Hl & ES) Hv. destruct (intset_add_spec be junk s e l v R Hv ltac:(lia)) as (s' & l' & -> & R' & Hset).
  assert (Emem : dec v ∈ S <-> v ∈ l) by (subst S; rewrite elem_of_list_to_set; apply dec_elem; [by apply (repr_all64 s e)|done]).
  rewrite (bool_decide_ext (v ∉ l) (dec v ∉ S)) by naive_solver.
  assert (Hs' : {[dec v]} ∪ S = list_to_set (map dec l')).
  { subst S. apply sets.set_eq. intros y. rewrite elem_of_union, elem_of_singleton, !elem_of_list_to_set, !list_elem_of_In, !in_map_iff.
    assert (Hl' : forall u, List.In u l' <-> u = v \/ List.In u l) by (intros u; rewrite <- !list_elem_of_In, <- !(elem_of_list_to_set (C := gset Z)), Hset; set_solver).
    split; [intros [-> |(u & <- & Hu)]; [exists v|exists u]; (split; [done|apply Hl'; auto])|intros (u & <- & Hu); apply Hl' in Hu as [-> |Hu]; [by left|right; by exists u]]. }
  eexists s', _, l'. split; [done|]. split; [exact R'|]. split; [done|]. rewrite Hs', size_list_to_set by (apply dec_nodup; [by eapply repr_all64|by eapply repr_nodup]). unfold zlen. by rewrite length_map.
Qed.
Lemma intset_size (s : intset) (e : Z) (l : list Z) (S : gset (list Z)) : repr be s e l -> S = list_to_set (map dec l) -> Z.of_nat (size S) = zlen l.
Proof. intros R ->. rewrite size_list_to_set by (apply dec_nodup; [by apply (repr_all64 s e)|by apply (repr_nodup s e)]). unfold zlen. by rewrite length_map. Qed.
Lemma add_spec o S x : holds o S -> exists o', tadd o x = Some (o', bool_decide (x ∉ S)) /\ holds o' ({[x]} ∪ S).
Proof.
  intros Ho. destruct o as [s|d]; cbn [setTypeAdd].
  - unfold isSdsRepresentableAsLongLong. destruct (string2ll x) as [v|] eqn:Ex.
    + apply string2ll_iff in Ex as Hv. destruct Hv as [Hv ->]. destruct (int_add_spec s S v Ho Hv) as (s' & e & l & -> & R & ES & Hl). cbn [mbind option_bind]. destruct (decide (dec v ∈ S)) as [Hin|Hin].
      * rewrite !bool_decide_false by naive_solver. eexists. split; [done|]. exists e, l. split; [done|]. split; [|done]. rewrite Hl. replace ({[dec v]} ∪ S) with S by set_solver. destruct Ho as (e0 & l0 & R0 & Hl0 & ES0). by rewrite (intset_size s e0 l0 S R0 ES0).
      * rewrite !bool_decide_true by naive_solver. destruct (intset_get s' e l 0 R ltac:(lia)) as [_ Elen]. rewrite Elen, Z.gtb_ltb. destruct (Z.ltb_spec set_max_intset_entries (zlen l)).
        -- destruct (convert_spec s' e l R) as (d & -> & Hd). cbn [mbind option_bind]. exists (HtEnc d). split; [done|]. cbn. by rewrite Hd.
        -- eexists. split; [done|]. exists e, l. split; [done|]. split; [lia|done].
    + pose proof Ho as (e & l & R & Hl & ES). destruct (convert_spec s e l R) as (d & -> & Hd). rewrite <- ES in Hd. cbn [mbind option_bind]. assert (Hx : x ∉ S).
      { subst S. rewrite (holds_intset_elem s e l x R). intros (v & E & _). congruence. }
      unfold dict_add. destruct (d !! x) eqn:E; [destruct Hx; rewrite <- Hd; apply elem_of_dom; by eexists|]. cbn [mbind option_bind].
      rewrite bool_decide_true by done. eexists. split; [done|]. cbn. by rewrite dom_insert_L, Hd.
  - cbn in Ho. subst S. destruct (d !! x) as [u|] eqn:E.
    + assert (x ∈ dom d) by (apply elem_of_dom; by eexists). rewrite bool_decide_false by naive_solver. eexists. split; [done|]. cbn. set_solver.
    + assert (x ∉ dom d) by (by apply not_elem_of_dom). rewrite bool_decide_true by done. eexists. split; [done|]. cbn. by rewrite dom_insert_L.
Qed.
Lemma remove_spec o S x : holds o S -> exists o', trem o x = Some (o', bool_decide (x ∈ S)) /\ holds o' (S ∖ {[x]}).
Proof.
  intros Ho. destruct o as [s|d]; cbn [setTypeRemove].
  - pose proof Ho as (e & l & R & Hl & ES). unfold isSdsRepresentableAsLongLong. destruct (string2ll x) as [v|] eqn:Ex.
    + apply string2ll_iff in Ex as Hv. destruct Hv as [Hv ->]. destruct (intset_remove_spec be junk s e l v R Hv) as (s' & l' & -> & R' & Hset). cbn [mbind option_bind].
      pose proof (repr_all64 s e l R) as H64.
      assert (Emem : dec v ∈ S <-> v ∈ l) by (subst S; rewrite elem_of_list_to_set; by apply dec_elem).
      rewrite (bool_decide_ext (v ∈ l) (dec v ∈ S)) by naive_solver. eexists. split; [done|]. exists e, l'. split; [done|].
      assert (Hl' : forall u, u ∈ l' <-> u ∈ l /\ u <> v) by (intros u; rewrite <- !(elem_of_list_to_set (C := gset Z)), Hset; set_solver). split.
      * pose proof (repr_size s' e l' R') as E1. pose proof (repr_size s e l R) as E2. pose proof (subseteq_size (list_to_set l' : gset Z) (list_to_set l) ltac:(rewrite Hset; set_solver)). unfold zlen in *. lia.
      * subst S. apply sets.set_eq. intros y. rewrite elem_of_difference, elem_of_singleton, !elem_of_list_to_set, !list_elem_of_In, !in_map_iff. split.
        -- intros ((u & <- & Hu) & Hne). exists u. split; [done|]. apply list_elem_of_In, Hl'. apply list_elem_of_In in Hu. split; [done|]. by intros ->.
        -- intros (u & <- & Hu). apply list_elem_of_In, Hl' in Hu as [Hu Hne]. split; [exists u; split; [done|by apply list_elem_of_In]|]. intros E. apply Hne. rewrite Forall_forall in H64. apply dec_inj; auto.
    + assert (Hx : x ∉ S) by (subst S; rewrite (holds_intset_elem s e l x R); intros (v & E & _); congruence). rewrite bool_decide_false by done. eexists. split; [done|]. by replace (S ∖ {[x]}) with S by set_solver.
  - cbn in Ho. subst S. destruct (d !! x) as [u|] eqn:E.
    + assert (x ∈ dom d) by (apply elem_of_dom; by eexists). rewrite bool_decide_true by done. eexists. split; [done|]. cbn. by rewrite dom_delete_L.
    + assert (x ∉ dom d) by (by apply not_elem_of_dom). rewrite bool_decide_false by done. eexists. split; [done|]. cbn. set_solver.
Qed.
Lemma find_int s e l v : repr be s e l -> in_s 64 v -> intsetFind be s v = Some (bool_decide (dec v ∈ (list_to_set (map dec l) : gset (list Z)))).
Proof.
  intros R Hv. destruct (intset_find_spec be s e l v 0 R Hv ltac:(lia)) as (-> & _). f_equal. apply bool_decide_ext. rewrite elem_of_list_to_set. symmetry. apply dec_elem; [by apply (repr_all64 s e)|done].
Qed.
Lemma member_spec o S x : holds o S -> setTypeIsMember be o x = Some (bool_decide (x ∈ S)).
Proof.
  intros Ho. destruct o as [s|d]; cbn [setTypeIsMember].
  - destruct Ho as (e & l & R & Hl & ->). unfold isSdsRepresentableAsLongLong. destruct (string2ll x) as [v|] eqn:Ex.
    + apply string2ll_iff in Ex as [Hv ->]. by apply (find_int s e).
    + rewrite bool_decide_false; [done|]. rewrite (holds_intset_elem s e l x R). intros (v & E & _). congruence.
  - cbn in Ho. subst S. destruct (d !! x) as [u|] eqn:E; [rewrite bool_decide_true; [done|apply elem_of_dom; by eexists]|rewrite bool_decide_false; [done|by apply not_elem_of_dom]].
Qed.
End TypeSpec.

(** ** Specification of the commands *)
Abbreviation keyspace := (gmap (list Z) (gset (list Z) + Z)).
Definition get (sp : keyspace) (k : list Z) : gset (list Z) := match sp !! k with Some (inl X) => X | _ => ∅ end.
(** No empty set is stored. *)
Definition put (sp : keyspace) (k : list Z) (S : gset (list Z)) : keyspace := if decide (S = ∅) then delete k sp else <[k := inl S]> sp.
Inductive sreply := SInt (n : Z) | SWrong | SSet (S : gset (list Z)).
Inductive cmd :=
| SADD (key member : list Z) (more : list (list Z)) | SREM (key : list Z) (members : list (list Z)) | SMOVE (src dst ele : list Z)
| SISMEMBER (key ele : list Z) | SCARD (key : list Z)
| SINTER (key : list Z) (keys : list (list Z)) | SINTERSTORE (dst key : list Z) (keys : list (list Z))
| SUNION (key : list Z) (keys : list (list Z)) | SUNIONSTORE (dst key : list Z) (keys : list (list Z))
| SDIFF (key : list Z) (keys : list (list Z)) | SDIFFSTORE (dst key : list Z) (keys : list (list Z)).

(** The first key that is missing or of another type decides for SINTER. *)
Fixpoint scan (sp : keyspace) (keys : list (list Z)) : option bool :=
  match keys with
  | [] => None
  | k :: ks => match sp !! k with None => Some true | Some (inr _) => Some false | Some (inl _) => scan sp ks end
  end.
Definition wrong_type (sp : keyspace) (k : list Z) : bool := match sp !! k with Some (inr _) => true | _ => false end.
Definition inter (sp : keyspace) (k : list Z) (ks : list (list Z)) : gset (list Z) := foldr (fun k T => get sp k ∩ T) (get sp k) ks.
Definition store_spec (sp : keyspace) (dst : list Z) (S : gset (list Z)) : keyspace * sreply := (put sp dst S, SInt (Z.of_nat (size S))).
Definition set_result (sp : keyspace) (dst : option (list Z)) (S : gset (list Z)) : keyspace * sreply :=
  match dst with Some dst => store_spec sp dst S | None => (sp, SSet S) end.
Definition inter_spec (sp : keyspace) (dst : option (list Z)) (k : list Z) (ks : list (list Z)) : keyspace * sreply :=
  match scan sp (k :: ks) with
  | Some true => set_result sp dst ∅
  | Some false => (sp, SWrong)
  | None => set_result sp dst (inter sp k ks)
  end.
Definition union_diff_spec (op : set_op) (sp : keyspace) (dst : option (list Z)) (k : list Z) (ks : list (list Z)) : keyspace * sreply :=
  if existsb (wrong_type sp) (k :: ks) then (sp, SWrong)
  else set_result sp dst (match op with SET_OP_UNION => ⋃ map (get sp) (k :: ks) | SET_OP_DIFF => get sp k ∖ ⋃ map (get sp) ks end).
Definition spec (sp : keyspace) (c : cmd) : keyspace * sreply :=
  match c with
  | SADD key member more =>
      if wrong_type sp key then (sp, SWrong)
      else let T := list_to_set (member :: more) in (put sp key (T ∪ get sp key), SInt (Z.of_nat (size (T ∖ get sp key))))
  | SREM key members =>
      if wrong_type sp key then (sp, SWrong)
      else let T := list_to_set members in (put sp key (get sp key ∖ T), SInt (Z.of_nat (size (get sp key ∩ T))))
  | SMOVE src dst ele =>
      if bool_decide (sp !! src = None) then (sp, SInt 0)
      else if wrong_type sp src || wrong_type sp dst then (sp, SWrong)
      else if bool_decide (ele ∈ get sp src) then
        (if bool_decide (src = dst) then sp else put (put sp src (get sp src ∖ {[ele]})) dst ({[ele]} ∪ get sp dst), SInt 1)
      else (sp, SInt 0)
  | SISMEMBER key ele => (sp, if wrong_type sp key then SWrong else SInt (if bool_decide (ele ∈ get sp key) then 1 else 0))
  | SCARD key => (sp, if wrong_type sp key then SWrong else SInt (Z.of_nat (size (get sp key))))
  | SINTER k ks => inter_spec sp None k ks
  | SINTERSTORE dst k ks => inter_spec sp (Some dst) k ks
  | SUNION k ks => union_diff_spec SET_OP_UNION sp None k ks
  | SUNIONSTORE dst k ks => union_diff_spec SET_OP_UNION sp (Some dst) k ks
  | SDIFF k ks => union_diff_spec SET_OP_DIFF sp None k ks
  | SDIFFSTORE dst k ks => union_diff_spec SET_OP_DIFF sp (Some dst) k ks
  end.

Lemma size_zero (X : gset (list Z)) : Z.of_nat (size X) = 0 <-> X = ∅.
Proof. rewrite <- leibniz_equiv_iff, <- size_empty_iff. lia. Qed.

Section CommandSpec.
  Context `{DictOrder} `{Qsort} (be : bool) (junk : nat -> Z) (set_max_intset_entries : Z) (Hmax : set_max_intset_entries + 1 < 2 ^ 28).
#[local] Abbreviation holds := (holds be).
#[local] Abbreviation tadd := (setTypeAdd be junk set_max_intset_entries).

Definition exec (st : state) (c : cmd) : option (state * reply) :=
  let keep r := r ← r; Some (st, r) in
  match c with
  | SADD key member more => saddCommand be junk set_max_intset_entries st key member more
  | SREM key members => sremCommand be junk st key members
  | SMOVE src dst ele => smoveCommand be junk set_max_intset_entries st src dst ele
  | SISMEMBER key ele => keep (sismemberCommand be st key ele)
  | SCARD key => keep (scardCommand be st key)
  | SINTER k ks => sinterCommand be junk set_max_intset_entries st (k :: ks)
  | SINTERSTORE dst k ks => sinterstoreCommand be junk set_max_intset_entries st dst (k :: ks)
  | SUNION k ks => sunionCommand be junk set_max_intset_entries st (k :: ks)
  | SUNIONSTORE dst k ks => sunionstoreCommand be junk set_max_intset_entries st dst (k :: ks)
  | SDIFF k ks => sdiffCommand be junk set_max_intset_entries st (k :: ks)
  | SDIFFSTORE dst k ks => sdiffstoreCommand be junk set_max_intset_entries st dst (k :: ks)
  end.

(** The state represents the keyspace of sets. *)
Definition rel (m : gmap (list Z) value) (sp : keyspace) : Prop := forall k,
  match m !! k, sp !! k with
  | None, None => True
  | Some (VSet o), Some (inl X) => holds o X /\ X <> ∅
  | Some (VOther t), Some (inr t') => t = t'
  | _, _ => False
  end.
Definition reply_ok (r : reply) (s : sreply) : Prop :=
  match r, s with
  | ReplyInt n, SInt m => n = m
  | ReplyWrongType, SWrong => True
  | ReplySet n l, SSet X => n = zlen l /\ NoDup l /\ list_to_set l = X
  | _, _ => False
  end.
(** Every key that changed is signalled, and counted as a change. *)
Definition signals (st st' : state) (sp sp' : keyspace) : Prop :=
  exists new, touched st' = new ++ touched st /\ (forall k, sp' !! k <> sp !! k -> k ∈ new) /\
    dirty st <= dirty st' /\ (sp' <> sp -> dirty st < dirty st').
Definition refines (st : state) (sp : keyspace) (res : option (state * reply)) (out : keyspace * sreply) : Prop :=
  exists st' r, res = Some (st', r) /\ rel (db st') out.1 /\ reply_ok r out.2 /\ signals st st' sp out.1.

Lemma signals_quiet st st' sp : touched st' = touched st -> dirty st' = dirty st -> signals st st' sp sp.
Proof. intros Ht Hd. exists []. split; [done|]. split; [done|]. split; [lia|done]. Qed.
Lemma signals_same st sp : signals st st sp sp.
Proof. by apply signals_quiet. Qed.
Lemma refines_same st sp r s : rel (db st) sp -> reply_ok r s -> refines st sp (Some (st, r)) (sp, s).
Proof. intros Hr Hs. exists st, r. split; [done|]. split; [done|]. split; [done|apply signals_same]. Qed.

Lemma rel_set m sp k o : rel m sp -> m !! k = Some (VSet o) -> exists S, sp !! k = Some (inl S) /\ holds o S /\ S <> ∅.
Proof. intros Hr E. specialize (Hr k). rewrite E in Hr. destruct (sp !! k) as [[S|]|]; [by exists S|done|done]. Qed.
Lemma rel_get m sp k o : rel m sp -> m !! k = Some (VSet o) -> holds o (get sp k) /\ get sp k <> ∅ /\ sp !! k = Some (inl (get sp k)).
Proof. intros Hr E. destruct (rel_set m sp k o Hr E) as (S & Es & Ho & Hn). unfold get. by rewrite Es. Qed.
Lemma rel_none m sp k : rel m sp -> m !! k = None <-> sp !! k = None.
Proof. intros Hr. specialize (Hr k). destruct (m !! k) as [[o|t]|], (sp !! k) as [[S|t']|]; done. Qed.
Lemma rel_other m sp k t : rel m sp -> m !! k = Some (VOther t) -> sp !! k = Some (inr t).
Proof. intros Hr E. specialize (Hr k). rewrite E in Hr. destruct (sp !! k) as [[S|t']|]; [done|by subst|done]. Qed.
Lemma wrong_iff m sp k : rel m sp -> wrong_type sp k = match m !! k with Some (VOther _) => true | _ => false end.
Proof. intros Hr. specialize (Hr k). unfold wrong_type. destruct (m !! k) as [[o|t]|], (sp !! k) as [[S|t']|]; done. Qed.
Lemma get_none sp k : sp !! k = None -> get sp k = ∅.
Proof. intros E. unfold get. by rewrite E. Qed.

Lemma rel_insert m sp k o S : rel m sp -> holds o S -> S <> ∅ -> rel (<[k := VSet o]> m) (<[k := inl S]> sp).
Proof. intros Hr Ho Hn k'. destruct (decide (k = k')) as [<-|Hk]; [by rewrite !lookup_insert_eq|]. rewrite !lookup_insert_ne by done. apply Hr. Qed.
Lemma rel_delete m sp k : rel m sp -> rel (delete k m) (delete k sp).
Proof. intros Hr k'. destruct (decide (k = k')) as [<-|Hk]; [by rewrite !lookup_delete_eq|]. rewrite !lookup_delete_ne by done. apply Hr. Qed.
(** Writing an object back, or deleting the key when it became empty. *)
Lemma rel_put m sp k o S : rel m sp -> holds o S -> rel (if setTypeSize be o =? 0 then delete k m else <[k := VSet o]> m) (put sp k S).
Proof.
  intros Hr Ho. unfold put. rewrite (size_spec be o S Ho). destruct (decide (S = ∅)) as [->|Hn].
  - rewrite size_empty. by apply rel_delete.
  - rewrite (proj2 (Z.eqb_neq _ 0)); [by apply rel_insert|]. by rewrite size_zero.
Qed.
Lemma put_lookup_ne sp k S k' : k' <> k -> put sp k S !! k' = sp !! k'.
Proof. intros Hk. unfold put. destruct (decide (S = ∅)); [by rewrite lookup_delete_ne|by rewrite lookup_insert_ne]. Qed.
Lemma put_same sp k o : sp !! k = o -> get sp k = (match o with Some (inl X) => X | _ => ∅ end).
Proof. by intros <-. Qed.
Lemma put_get sp k : wrong_type sp k = false -> (forall S, sp !! k = Some (inl S) -> S <> ∅) -> put sp k (get sp k) = sp.
Proof.
  intros Hw Hn. unfold put, get, wrong_type in *. destruct (sp !! k) as [[S|t]|] eqn:E; [|done|].
  - rewrite decide_False by (by apply Hn). by apply insert_id.
  - rewrite decide_True by done. by apply delete_id.
Qed.
Lemma signals_put st st' sp k S new : touched st' = new ++ touched st -> k ∈ new -> dirty st < dirty st' -> signals st st' sp (put sp k S).
Proof. intros Ht Hk Hd. exists new. split; [done|]. split; [|by split; [lia|]]. intros k' Hne. destruct (decide (k' = k)) as [->|Hk']; [done|]. by rewrite put_lookup_ne in Hne. Qed.

(** *** Loops *)
Lemma size_add (L S : gset (list Z)) x : Z.of_nat (size (({[x]} ∪ L) ∖ S)) = (if bool_decide (x ∉ S) then 1 else 0) + Z.of_nat (size (L ∖ ({[x]} ∪ S))).
Proof.
  case_bool_decide as Hx.
  - replace (({[x]} ∪ L) ∖ S) with ({[x]} ∪ L ∖ ({[x]} ∪ S)); [|apply sets.set_eq; intros y; destruct (decide (y = x)); set_solver]. rewrite size_union by set_solver. rewrite size_singleton. lia.
  - replace (({[x]} ∪ L) ∖ S) with (L ∖ ({[x]} ∪ S)) by set_solver. lia.
Qed.
Lemma add_all_spec l : forall o S n, holds o S ->
  exists o', add_all be junk set_max_intset_entries o l n = Some (o', n + Z.of_nat (size (list_to_set l ∖ S))) /\ holds o' (list_to_set l ∪ S).
Proof.
  induction l as [|x l IH]; intros o S n Ho; cbn [add_all list_to_set].
  - exists o. split; [do 2 f_equal; replace (∅ ∖ S) with (∅ : gset (list Z)) by set_solver; rewrite size_empty; lia|by rewrite (left_id_L ∅ (∪))].
  - destruct (add_spec be junk set_max_intset_entries Hmax o S x Ho) as (o1 & -> & Ho1). cbn [mbind option_bind]. destruct (IH o1 _ (if bool_decide (x ∉ S) then n + 1 else n) Ho1) as (o' & -> & Ho').
    exists o'. split; [|by replace ({[x]} ∪ list_to_set l ∪ S) with (list_to_set l ∪ ({[x]} ∪ S)) by set_solver]. do 2 f_equal. rewrite size_add. destruct (bool_decide (x ∉ S)); lia.
Qed.
Lemma size_rem (L S : gset (list Z)) x : Z.of_nat (size (S ∩ ({[x]} ∪ L))) = (if bool_decide (x ∈ S) then 1 else 0) + Z.of_nat (size ((S ∖ {[x]}) ∩ L)).
Proof.
  case_bool_decide as Hx.
  - replace (S ∩ ({[x]} ∪ L)) with ({[x]} ∪ (S ∖ {[x]}) ∩ L); [|apply sets.set_eq; intros y; destruct (decide (y = x)); set_solver]. rewrite size_union by set_solver. rewrite size_singleton. lia.
  - replace (S ∩ ({[x]} ∪ L)) with ((S ∖ {[x]}) ∩ L) by set_solver. lia.
Qed.
Lemma remove_all_spec l : forall o S n, holds o S ->
  exists o' b, remove_all be junk o l n = Some (o', n + Z.of_nat (size (S ∩ list_to_set l)), b) /\ holds o' (S ∖ list_to_set l) /\
    (S <> ∅ -> b = (setTypeSize be o' =? 0)).
Proof.
  induction l as [|x l IH]; intros o S n Ho; cbn [remove_all list_to_set].
  - exists o, false. split; [do 2 f_equal; f_equal; replace (S ∩ ∅) with (∅ : gset (list Z)) by set_solver; rewrite size_empty; lia|]. split; [by replace (S ∖ ∅) with S by set_solver|].
    intros Hn. rewrite (size_spec be o S Ho). symmetry. apply Z.eqb_neq. by rewrite size_zero.
  - destruct (remove_spec be junk set_max_intset_entries Hmax o S x Ho) as (o1 & -> & Ho1). cbn [mbind option_bind]. rewrite size_rem. replace (S ∖ ({[x]} ∪ list_to_set l)) with (S ∖ {[x]} ∖ list_to_set l) by set_solver.
    destruct (bool_decide (x ∈ S)) eqn:Ex.
    + destruct (Z.eqb_spec (setTypeSize be o1) 0) as [E|Hne].
      * exists o1, true. rewrite (size_spec be o1 _ Ho1) in E. assert (Hemp : S ∖ {[x]} = ∅) by (by apply size_zero). rewrite Hemp in *.
        replace (∅ ∩ list_to_set l : gset (list Z)) with (∅ : gset (list Z)) by set_solver. replace (∅ ∖ list_to_set l : gset (list Z)) with (∅ : gset (list Z)) by set_solver. rewrite size_empty.
        split; [do 2 f_equal; f_equal; lia|]. split; [done|]. intros _. rewrite (size_spec be o1 _ Ho1), size_empty. done.
      * destruct (IH o1 _ (n + 1) Ho1) as (o' & b & -> & Ho' & Hb). exists o', b. split; [do 2 f_equal; f_equal; lia|]. split; [done|]. intros _. apply Hb. intros E. rewrite (size_spec be o1 _ Ho1), E, size_empty in Hne. done.
    + destruct (IH o1 _ n Ho1) as (o' & b & -> & Ho' & Hb). exists o', b. split; [done|]. split; [done|]. apply bool_decide_eq_false in Ex. intros Hn. apply Hb. replace (S ∖ {[x]}) with S by set_solver. done.
Qed.

(** *** SINTER *)
Definition sets_ok (sp : keyspace) (sets : list (list Z * setobj)) : Prop := Forall (fun s => holds s.2 (get sp s.1)) sets.
Lemma lookup_sets_spec st sp keys : rel (db st) sp ->
  match scan sp keys with
  | Some true => lookup_sets st keys = Missing
  | Some false => lookup_sets st keys = WrongType
  | None => exists sets, lookup_sets st keys = Sets sets /\ sets.*1 = keys /\ sets_ok sp sets
  end.
Proof.
  intros Hr. induction keys as [|k ks IH]; cbn [scan lookup_sets]; [exists []; split; [done|]; split; [done|constructor]|].
  pose proof (Hr k) as Hk. destruct (db st !! k) as [[o|t]|] eqn:Ek, (sp !! k) as [[X|t']|] eqn:Es; try done.
  destruct (scan sp ks) as [[]|]; [by rewrite IH|by rewrite IH|]. destruct IH as (sets & -> & <- & Hs). exists ((k, o) :: sets). split; [done|]. split; [done|].
  constructor; [|done]. cbn. unfold get. rewrite Es. apply Hk.
Qed.
Lemma in_all_spec sp k0 e sets : sets_ok sp sets -> elem_ok e -> setTypeNextObject e ∈ get sp k0 ->
  in_all be k0 e sets = Some (bool_decide (Forall (fun k => setTypeNextObject e ∈ get sp k) sets.*1)).
Proof.
  intros Hs He H0k. induction Hs as [|[k o] sets Ho Hs IH]; [done|]. cbn [in_all fmap list_fmap fst snd] in *.
  assert (Hstep : forall b : bool, b = bool_decide (setTypeNextObject e ∈ get sp k) ->
    (if b then in_all be k0 e sets else Some false) = Some (bool_decide (Forall (fun k => setTypeNextObject e ∈ get sp k) (k :: sets.*1)))).
  { intros b ->. destruct (decide (setTypeNextObject e ∈ get sp k)) as [Hin|Hin]; [rewrite (bool_decide_true (_ ∈ get sp k)) by done; rewrite IH; f_equal; apply bool_decide_ext; by rewrite Forall_cons; naive_solver|].
    rewrite (bool_decide_false (_ ∈ get sp k)) by done. f_equal. symmetry. apply bool_decide_false. rewrite Forall_cons. naive_solver. }
  destruct (decide (k = k0)) as [Ek|Ek]; [rewrite (bool_decide_true (k = k0)) by done; subst k; apply (Hstep true); symmetry; by apply bool_decide_true|]. rewrite (bool_decide_false (k = k0)) by done.
  assert (Hmem : match e, o with EInt v, IntsetEnc s => intsetFind be s v | EInt v, HtEnc _ => setTypeIsMember be o (dec v) | ESds bs, _ => setTypeIsMember be o bs end = Some (bool_decide (setTypeNextObject e ∈ get sp k))).
  { destruct e as [v|bs]; cbn [setTypeNextObject elem_ok] in *; [|by apply member_spec]. destruct o as [s|d]; [|by apply member_spec]. destruct Ho as (en & l & R & _ & ->). by apply (find_int be s en). }
  rewrite Hmem. cbn [mbind option_bind]. by apply Hstep.
Qed.
Definition in_every (sp : keyspace) (ks : list (list Z)) (x : list Z) : Prop := Forall (fun k => x ∈ get sp k) ks.
#[export] Instance in_every_dec sp ks x : Decision (in_every sp ks x).
Proof. unfold in_every. apply _. Defined.
Lemma inter_reply_spec sp k0 sets l : sets_ok sp sets -> Forall elem_ok l -> (forall x, x ∈ map setTypeNextObject l -> x ∈ get sp k0) ->
  inter_reply be k0 sets l = Some (filter (in_every sp sets.*1) (map setTypeNextObject l)).
Proof.
  intros Hs Hl Hx. induction Hl as [|e l He Hl IH]; [done|]. cbn [inter_reply map] in *. rewrite (in_all_spec sp k0 e sets Hs He) by (apply Hx, list_elem_of_here). cbn [mbind option_bind].
  rewrite IH by (intros x Hin; by apply Hx, list_elem_of_further). cbn [mbind option_bind]. rewrite filter_cons. f_equal. unfold in_every at 1. by case_bool_decide; case_decide.
Qed.
Lemma inter_store_spec sp k0 sets l : sets_ok sp sets -> Forall elem_ok l -> (forall x, x ∈ map setTypeNextObject l -> x ∈ get sp k0) ->
  forall d T, holds d T -> exists d', inter_store be junk set_max_intset_entries k0 sets l d = Some d' /\ holds d' (list_to_set (filter (in_every sp sets.*1) (map setTypeNextObject l)) ∪ T).
Proof.
  intros Hs Hl Hx. induction Hl as [|e l He Hl IH]; intros d T Hd; cbn [inter_store map] in *; [exists d; split; [done|]; rewrite filter_nil; cbn [list_to_set]; by rewrite (left_id_L ∅ (∪))|].
  rewrite (in_all_spec sp k0 e sets Hs He) by (apply Hx, list_elem_of_here). cbn [mbind option_bind]. specialize (IH ltac:(intros x Hin; by apply Hx, list_elem_of_further)).
  rewrite filter_cons. unfold in_every at 1. case_bool_decide as Hc.
  - destruct (add_spec be junk set_max_intset_entries Hmax d T (setTypeNextObject e) Hd) as (d1 & -> & Hd1). cbn [mbind option_bind]. destruct (IH d1 _ Hd1) as (d' & -> & Hd').
    exists d'. split; [done|]. rewrite decide_True by done. cbn [list_to_set]. by replace ({[setTypeNextObject e]} ∪ list_to_set (filter (in_every sp sets.*1) (map setTypeNextObject l)) ∪ T) with (list_to_set (filter (in_every sp sets.*1) (map setTypeNextObject l)) ∪ ({[setTypeNextObject e]} ∪ T)) by set_solver.
  - cbn [mbind option_bind]. rewrite decide_False by done. by apply IH.
Qed.
Lemma inter_elem sp k ks x : x ∈ inter sp k ks <-> in_every sp (k :: ks) x.
Proof.
  unfold inter, in_every. rewrite Forall_cons. induction ks as [|k' ks IH]; cbn [foldr]; [by rewrite Forall_nil; naive_solver|]. rewrite elem_of_intersection, IH, Forall_cons. tauto.
Qed.
Lemma inter_filter sp k ks k0 ks0 L : k0 :: ks0 ≡ₚ k :: ks -> list_to_set L = get sp k0 -> list_to_set (filter (in_every sp ks0) L) = inter sp k ks.
Proof.
  intros Hp HL. apply sets.set_eq. intros x. rewrite inter_elem. unfold in_every at 2. rewrite <- Hp, Forall_cons, elem_of_list_to_set, list_elem_of_filter, <- HL, elem_of_list_to_set. unfold in_every. tauto.
Qed.

Lemma delete_put_empty sp k : put sp k ∅ = delete k sp.
Proof. unfold put. by rewrite decide_True. Qed.
Lemma store_result_spec st sp dst d S ev : rel (db st) sp -> holds d S -> refines st sp (store_result be st dst d ev) (store_spec sp dst S).
Proof.
  intros Hr Hd. unfold store_result, dbDelete. rewrite (size_spec be d S Hd), Z.gtb_ltb. set (st1 := set_db st (delete dst (db st))).
  assert (Hfin : forall st2 r, touched st2 = touched st -> dirty st2 = dirty st -> rel (db st2) (put sp dst S) -> r = ReplyInt (Z.of_nat (size S)) ->
    refines st sp (Some (add_dirty (signalModifiedKey st2 dst) 1, r)) (store_spec sp dst S)).
  { intros st2 r Ht Hdi Hrel ->. eexists _, _. split; [done|]. split; [done|]. split; [done|]. apply (signals_put _ _ _ _ _ [dst]); cbn; [by rewrite Ht|set_solver|lia]. }
  pose proof (rel_put (delete dst (db st)) (delete dst sp) dst d S (rel_delete _ _ dst Hr) Hd) as Hput. rewrite (size_spec be d S Hd) in Hput.
  assert (Ep : put (delete dst sp) dst S = put sp dst S) by (unfold put; destruct (decide (S = ∅)); [by rewrite delete_delete_eq|by rewrite insert_delete_eq]). rewrite Ep in Hput.
  destruct (Z.ltb_spec 0 (Z.of_nat (size S))) as [Hp|Hp].
  - unfold dbAdd, st1. cbn [db set_db]. rewrite lookup_delete_eq. cbn [mbind option_bind]. apply Hfin; [done|done| |done]. cbn. by rewrite (proj2 (Z.eqb_neq _ 0)) in Hput by lia.
  - assert (Hz : Z.of_nat (size S) = 0) by lia. cbn [mbind option_bind]. apply Hfin; [by destruct (db st !! dst)|by destruct (db st !! dst)| |by rewrite Hz]. rewrite Hz in Hput. cbn [Z.eqb] in Hput. rewrite delete_delete_eq in Hput.
    by destruct (db st !! dst).
Qed.
Lemma sinter_spec st sp dst k ks : rel (db st) sp -> refines st sp (sinterGenericCommand be junk set_max_intset_entries st (k :: ks) dst) (inter_spec sp dst k ks).
Proof.
  intros Hr. unfold sinterGenericCommand, inter_spec. pose proof (lookup_sets_spec st sp (k :: ks) Hr) as Hl. destruct (scan sp (k :: ks)) as [[]|] eqn:Esc.
  - rewrite Hl. unfold set_result. destruct dst as [dst|]; [|apply refines_same; [done|by split; [|split; [constructor|]]]]. unfold dbDelete, store_spec. rewrite size_empty, delete_put_empty. pose proof (rel_delete _ _ dst Hr) as Hd.
    destruct (db st !! dst) as [v|] eqn:Ed.
    + eexists _, _. split; [done|]. split; [done|]. split; [done|]. rewrite <- delete_put_empty. apply (signals_put _ _ _ _ _ [dst]); cbn; [done|set_solver|lia].
    + assert (En : sp !! dst = None) by (by apply (rel_none _ _ _ Hr)). rewrite (delete_id sp) by done. rewrite (delete_id sp) in Hd by done. eexists _, _. split; [done|]. split; [done|]. split; [done|]. by apply signals_quiet.
  - rewrite Hl. by apply refines_same.
  - destruct Hl as (sets & -> & Hk & Hs). set (q := qsort _ sets). assert (Hq : q ≡ₚ sets) by apply qsort_perm.
    assert (Hqs : sets_ok sp q) by (unfold sets_ok; by rewrite Hq). assert (Hqk : q.*1 ≡ₚ k :: ks) by (by rewrite Hq, Hk).
    destruct q as [|[k0 o0] others]; [by apply Permutation_nil_cons in Hqk|]. apply Forall_cons in Hqs as [Ho0 Hot]. cbn [fmap list_fmap fst snd] in *.
    destruct (iterate_spec be o0 _ Ho0) as (l & -> & He & Hn & Hset). cbn [mbind option_bind].
    assert (Hx : forall x, x ∈ map setTypeNextObject l -> x ∈ get sp k0) by (intros x; by rewrite <- Hset, elem_of_list_to_set).
    destruct dst as [dst|].
    + destruct (inter_store_spec sp k0 others l Hot He Hx (createIntsetObject be) ∅ (intset_new_holds be)) as (d & -> & Hd). cbn [mbind option_bind]. unfold set_result.
      rewrite (right_id_L ∅ (∪)), (inter_filter sp k ks k0 others.*1 _ Hqk Hset) in Hd. by apply store_result_spec.
    + rewrite (inter_reply_spec sp k0 others l Hot He Hx). cbn [mbind option_bind]. apply refines_same; [done|]. split; [done|]. split; [by apply NoDup_filter|]. by apply (inter_filter sp k ks k0).
Qed.

(** *** SUNION, SDIFF *)
Definition somes_ok (sp : keyspace) (sets : list (list Z * option setobj)) : Prop :=
  Forall (fun s => match s.2 with Some o => holds o (get sp s.1) | None => get sp s.1 = ∅ end) sets.
Lemma lookup_some_spec st sp keys : rel (db st) sp ->
  if existsb (wrong_type sp) keys then lookup_some st keys = None else exists sets, lookup_some st keys = Some sets /\ sets.*1 = keys /\ somes_ok sp sets.
Proof.
  intros Hr. induction keys as [|k ks IH]; cbn [existsb lookup_some]; [exists []; split; [done|]; split; [done|constructor]|].
  pose proof (Hr k) as Hk. unfold wrong_type at 1. destruct (db st !! k) as [[o|t]|] eqn:Ek, (sp !! k) as [[X|t']|] eqn:Es; try done; cbn [orb].
  all: destruct (existsb (wrong_type sp) ks); [by rewrite IH|]; destruct IH as (sets & -> & <- & Hs); eexists; split; [done|]; split; [done|]; constructor; [cbn; unfold get; rewrite Es; by try apply Hk|done].
Qed.
Lemma remove_elems_spec l : forall d T n, holds d T -> n = Z.of_nat (size T) ->
  exists d', remove_elems be junk d l n = Some (d', Z.of_nat (size (T ∖ list_to_set l))) /\ holds d' (T ∖ list_to_set l).
Proof.
  induction l as [|x l IH]; intros d T n Hd ->; cbn [remove_elems list_to_set]; [exists d; by replace (T ∖ ∅) with T by set_solver|].
  destruct (remove_spec be junk set_max_intset_entries Hmax d T x Hd) as (d1 & -> & Hd1). cbn [mbind option_bind]. replace (T ∖ ({[x]} ∪ list_to_set l)) with (T ∖ {[x]} ∖ list_to_set l) by set_solver.
  apply (IH d1 _ _ Hd1). case_bool_decide as Hx; [|by replace (T ∖ {[x]}) with T by set_solver]. rewrite size_difference by set_solver. rewrite size_singleton.
  assert (size T <> 0)%nat; [|lia]. intros E. apply size_empty_inv in E. set_solver.
Qed.
Lemma add_elems_spec l d T n S : holds d T -> n = Z.of_nat (size T) -> list_to_set (map setTypeNextObject l) = S ->
  exists d', add_elems be junk set_max_intset_entries d l n = Some (d', Z.of_nat (size (S ∪ T))) /\ holds d' (S ∪ T).
Proof.
  intros Hd -> <-. destruct (add_all_spec (map setTypeNextObject l) d T (Z.of_nat (size T)) Hd) as (d' & E & Hd'). exists d'. split; [|done]. unfold add_elems. rewrite E. do 2 f_equal.
  pose proof (size_union_alt T (list_to_set (map setTypeNextObject l))) as Hs. replace (T ∪ list_to_set (map setTypeNextObject l)) with (list_to_set (map setTypeNextObject l) ∪ T) in Hs by set_solver. lia.
Qed.
Lemma union_all_spec sp sets : somes_ok sp sets -> forall d T n, holds d T -> n = Z.of_nat (size T) ->
  exists d', union_all be junk set_max_intset_entries sets d n = Some (d', Z.of_nat (size ((⋃ map (get sp) sets.*1) ∪ T))) /\ holds d' ((⋃ map (get sp) sets.*1) ∪ T).
Proof.
  intros Hs. induction Hs as [|[k o] sets Ho Hs IH]; intros d T n Hd Hn; cbn [union_all fmap list_fmap map fst snd union_list foldr] in *; [exists d; rewrite (left_id_L ∅ (∪)); by subst n|].
  destruct o as [o|].
  - destruct (iterate_spec be o _ Ho) as (l & -> & _ & _ & Hset). cbn [mbind option_bind]. destruct (add_elems_spec l d T n _ Hd Hn Hset) as (d1 & -> & Hd1). cbn [mbind option_bind].
    destruct (IH d1 _ _ Hd1 eq_refl) as (d' & -> & Hd'). exists d'. replace (get sp k ∪ ⋃ map (get sp) sets.*1 ∪ T) with (⋃ map (get sp) sets.*1 ∪ (get sp k ∪ T)) by set_solver. done.
  - rewrite Ho, (left_id_L ∅ (∪)). by apply IH.
Qed.
Definition in_no (sp : keyspace) (ks : list (list Z)) (x : list Z) : Prop := Forall (fun k => x ∉ get sp k) ks.
#[export] Instance in_no_dec sp ks x : Decision (in_no sp ks x).
Proof. unfold in_no. apply _. Defined.
Lemma in_none_spec sp k0 x sets : somes_ok sp sets -> x ∈ get sp k0 -> in_none be k0 x sets = Some (bool_decide (in_no sp sets.*1 x)).
Proof.
  intros Hs Hx. induction Hs as [|[k o] sets Ho Hs IH]; [done|]. cbn [in_none fmap list_fmap fst snd] in *. unfold in_no in *.
  assert (Hin : x ∈ get sp k -> Some false = Some (bool_decide (Forall (fun k => x ∉ get sp k) (k :: sets.*1)))) by (intros Hin; rewrite bool_decide_false; [done|]; rewrite Forall_cons; naive_solver).
  assert (Hout : x ∉ get sp k -> in_none be k0 x sets = Some (bool_decide (Forall (fun k => x ∉ get sp k) (k :: sets.*1)))) by (intros Hout; rewrite IH; f_equal; apply bool_decide_ext; rewrite Forall_cons; naive_solver).
  destruct o as [o|]; [|apply Hout; rewrite Ho; set_solver]. destruct (decide (k = k0)) as [Ek|Ek]; [rewrite (bool_decide_true (k = k0)) by done; subst k; by apply Hin|]. rewrite (bool_decide_false (k = k0)) by done.
  rewrite (member_spec be o _ x Ho). cbn [mbind option_bind]. destruct (decide (x ∈ get sp k)); [rewrite (bool_decide_true (x ∈ get sp k)) by done|rewrite (bool_decide_false (x ∈ get sp k)) by done]; auto.
Qed.
Lemma diff_one_spec sp k0 sets l : somes_ok sp sets -> (forall x, x ∈ l -> x ∈ get sp k0) -> NoDup l -> forall d T n, holds d T -> n = Z.of_nat (size T) -> (forall x, x ∈ l -> x ∉ T) ->
  exists d', let U := list_to_set (filter (in_no sp sets.*1) l) ∪ T in diff_one be junk set_max_intset_entries k0 sets l d n = Some (d', Z.of_nat (size U)) /\ holds d' U.
Proof.
  intros Hs Hx Hnd. induction Hnd as [|x l Hxl Hnd IH]; intros d T n Hd Hn HT; cbn [diff_one]; [exists d; rewrite filter_nil; cbn [list_to_set]; rewrite (left_id_L ∅ (∪)); by subst n|].
  rewrite (in_none_spec sp k0 x sets Hs) by (apply Hx, list_elem_of_here). cbn [mbind option_bind]. specialize (IH ltac:(intros y Hy; by apply Hx, list_elem_of_further)). rewrite filter_cons.
  assert (HT' : forall y, y ∈ l -> y ∉ T) by (intros y Hy; by apply HT, list_elem_of_further). case_bool_decide as Hc.
  - destruct (add_spec be junk set_max_intset_entries Hmax d T x Hd) as (d1 & -> & Hd1). cbn [mbind option_bind].
    destruct (IH d1 ({[x]} ∪ T) (n + 1) Hd1) as (d' & E & Hd'); [rewrite size_union by (specialize (HT x (list_elem_of_here _ _)); set_solver); rewrite size_singleton; lia|intros y Hy; specialize (HT' y Hy); set_solver|].
    exists d'. rewrite decide_True by done. cbn [list_to_set]. replace ({[x]} ∪ list_to_set (filter (in_no sp sets.*1) l) ∪ T) with (list_to_set (filter (in_no sp sets.*1) l) ∪ ({[x]} ∪ T)) by set_solver. done.
  - rewrite decide_False by done. by apply IH.
Qed.
Lemma diff_two_rest_spec sp sets : somes_ok sp sets -> forall d T n, holds d T -> n = Z.of_nat (size T) ->
  exists d', let U := T ∖ ⋃ map (get sp) sets.*1 in diff_two_rest be junk sets d n = Some (d', Z.of_nat (size U)) /\ holds d' U.
Proof.
  intros Hs. induction Hs as [|[k o] sets Ho Hs IH]; intros d T n Hd Hn; cbn [diff_two_rest fmap list_fmap map fst snd union_list foldr] in *; [exists d; replace (T ∖ ∅) with T by set_solver; by subst n|].
  destruct o as [o|]; [|rewrite Ho, (left_id_L ∅ (∪)); by apply IH].
  destruct (iterate_spec be o _ Ho) as (l & -> & _ & _ & Hset). cbn [mbind option_bind]. destruct (remove_elems_spec (map setTypeNextObject l) d T n Hd Hn) as (d1 & -> & Hd1). cbn [mbind option_bind]. rewrite Hset in *.
  replace (T ∖ (get sp k ∪ ⋃ map (get sp) sets.*1)) with (T ∖ get sp k ∖ ⋃ map (get sp) sets.*1) by set_solver.
  destruct (Z.eqb_spec (Z.of_nat (size (T ∖ get sp k))) 0) as [E|E]; [|by apply IH]. exists d1. apply size_zero in E. rewrite E in *. by replace (∅ ∖ ⋃ map (get sp) sets.*1) with (∅ : gset (list Z)) by set_solver.
Qed.
Lemma union_diff_ok op sp k ks sets : somes_ok sp sets -> sets.*1 = k :: ks ->
  exists d, let U := match op with SET_OP_UNION => ⋃ map (get sp) (k :: ks) | SET_OP_DIFF => get sp k ∖ ⋃ map (get sp) ks end in union_diff be junk set_max_intset_entries op sets = Some (d, Z.of_nat (size U)) /\ holds d U.
Proof.
  intros Hs Hk. unfold union_diff. destruct op.
  - destruct (union_all_spec sp sets Hs (createIntsetObject be) ∅ 0 (intset_new_holds be) eq_refl) as (d & E & Hd). exists d. rewrite Hk, (right_id_L ∅ (∪)) in *. done.
  - destruct sets as [|[k0 o0] others]; [done|]. injection Hk as -> Hks. change (others.*1 = ks) in Hks. apply Forall_cons in Hs as [Ho Hs]. cbn [fst snd] in Ho. destruct o0 as [o0|]; [|exists (createIntsetObject be); rewrite Ho; replace (∅ ∖ ⋃ map (get sp) ks) with (∅ : gset (list Z)) by set_solver; split; [done|apply intset_new_holds]].
    destruct (iterate_spec be o0 _ Ho) as (l & -> & _ & Hn & Hset). destruct (diff_algo be o0 ((k, Some o0) :: others) =? 1).
    + set (q := qsort _ others). assert (Hq : q ≡ₚ others) by apply qsort_perm. cbn [mbind option_bind]. assert (Hqs : somes_ok sp q) by (unfold somes_ok; by rewrite Hq).
      destruct (diff_one_spec sp k q (map setTypeNextObject l) Hqs) with (d := createIntsetObject be) (T := (∅ : gset (list Z))) (n := 0) as (d & E & Hd); [intros x; by rewrite <- Hset, elem_of_list_to_set|done|apply intset_new_holds|done|set_solver|].
      assert (EU : list_to_set (filter (in_no sp q.*1) (map setTypeNextObject l)) ∪ ∅ = get sp k ∖ ⋃ map (get sp) ks).
      { apply sets.set_eq. intros x. rewrite elem_of_union, elem_of_difference, elem_of_list_to_set, list_elem_of_filter, <- Hset, elem_of_list_to_set, elem_of_union_list. unfold in_no. rewrite Hq, Hks, Forall_forall. split.
        - intros [[Hx Hl]|Hx]; [|set_solver]. split; [done|]. intros (X & HX & Hin). apply list_elem_of_In, in_map_iff in HX as (k' & <- & Hk'). apply list_elem_of_In in Hk'. by apply (Hx k').
        - intros [Hl Hx]. left. split; [|done]. intros k' Hk' Hin. apply Hx. exists (get sp k'). split; [|done]. apply list_elem_of_In, in_map_iff. exists k'. split; [done|by apply list_elem_of_In]. }
      exists d. rewrite EU in *. done.
    + cbn [mbind option_bind]. destruct (add_elems_spec l (createIntsetObject be) ∅ 0 _ (intset_new_holds be) eq_refl Hset) as (d1 & -> & Hd1). cbn [mbind option_bind]. rewrite (right_id_L ∅ (∪)) in *.
      destruct (Z.eqb_spec (Z.of_nat (size (get sp k))) 0) as [E|E]; [|rewrite <- Hks; by apply diff_two_rest_spec]. exists d1. apply size_zero in E. rewrite E in *. by replace (∅ ∖ ⋃ map (get sp) ks) with (∅ : gset (list Z)) by set_solver.
Qed.
Lemma sunion_diff_spec st sp dst k ks op : rel (db st) sp -> refines st sp (sunionDiffGenericCommand be junk set_max_intset_entries st (k :: ks) dst op) (union_diff_spec op sp dst k ks).
Proof.
  intros Hr. unfold sunionDiffGenericCommand, union_diff_spec. pose proof (lookup_some_spec st sp (k :: ks) Hr) as Hl. destruct (existsb _ _); [rewrite Hl; by apply refines_same|]. destruct Hl as (sets & -> & Hk & Hs).
  destruct (union_diff_ok op sp k ks sets Hs Hk) as (d & E & Hd). rewrite E. cbn [mbind option_bind]. set (U := match op with SET_OP_UNION => _ | SET_OP_DIFF => _ end) in *.
  destruct dst as [dst|]; [by apply store_result_spec|]. destruct (iterate_spec be d _ Hd) as (l & -> & _ & Hn & Hset). cbn [mbind option_bind]. apply refines_same; [done|].
  split; [|by split]. rewrite <- Hset, size_list_to_set by done. done.
Qed.
(** *** SADD, SREM, SMOVE, SISMEMBER, SCARD *)
Lemma put_nonempty sp k S : S <> ∅ -> put sp k S = <[k := inl S]> sp.
Proof. intros Hn. unfold put. by rewrite decide_False. Qed.
Lemma get_put_ne sp k k' S : k' <> k -> get (put sp k S) k' = get sp k'.
Proof. intros Hk. unfold get. by rewrite put_lookup_ne. Qed.
(** Putting back what a key of the right type holds changes nothing. *)
Lemma rel_put_get m sp k X : rel m sp -> wrong_type sp k = false -> X = get sp k -> put sp k X = sp.
Proof.
  intros Hr Hw ->. apply put_get; [done|]. intros S E. pose proof (Hr k) as Hk. rewrite E in Hk. destruct (m !! k) as [[o|]|]; [apply Hk|done|done].
Qed.
Lemma get_set m sp k o : rel m sp -> m !! k = Some (VSet o) -> holds o (get sp k).
Proof. intros Hr E. by apply (rel_get m sp k o). Qed.

Lemma sadd_finish st st1 sp key o x more : rel (db st) sp -> wrong_type sp key = false -> holds o (get sp key) ->
  touched st1 = touched st -> dirty st1 = dirty st -> (forall o', <[key := VSet o']> (db st1) = <[key := VSet o']> (db st)) ->
  refines st sp ('(set, added) ← add_all be junk set_max_intset_entries o (x :: more) 0;
      let st := set_db st1 (<[key := VSet set]> (db st1)) in
      let st := if negb (added =? 0) then notifyKeyspaceEvent (signalModifiedKey st key) (bytes_of_string "sadd") key else st in
      Some (add_dirty st added, ReplyInt added)) (spec sp (SADD key x more)).
Proof.
  intros Hr Hw Ho Ht Hd Hdb. destruct (add_all_spec (x :: more) o (get sp key) 0 Ho) as (o' & -> & Ho'). cbn [mbind option_bind spec]. rewrite Hw, Z.add_0_l. set (T := list_to_set (x :: more)) in *.
  assert (Hx : x ∈ T) by (unfold T; set_solver). set (added := Z.of_nat (size (T ∖ get sp key))). eexists _, _. split; [done|].
  assert (Hrel : rel (<[key := VSet o']> (db st1)) (put sp key (T ∪ get sp key))) by (rewrite Hdb, put_nonempty by set_solver; apply rel_insert; [done|done|set_solver]).
  destruct (Z.eqb_spec added 0) as [E|E]; cbn [negb]; (split; [exact Hrel|]); (split; [done|]).
  - assert (Esub := E). unfold added in Esub. apply size_zero in Esub. cbn [fst]. rewrite (rel_put_get _ _ _ (T ∪ get sp key) Hr Hw) by (apply sets.set_eq; intros y; destruct (decide (y ∈ T)), (decide (y ∈ get sp key)); set_solver). apply signals_quiet; [exact Ht|]. cbn. lia.
  - apply (signals_put _ _ _ _ _ [key]); cbn; [by rewrite Ht|set_solver|unfold added in *; lia].
Qed.
Lemma sadd_spec st sp key x more : rel (db st) sp -> refines st sp (saddCommand be junk set_max_intset_entries st key x more) (spec sp (SADD key x more)).
Proof.
  intros Hr. unfold saddCommand. pose proof (wrong_iff _ _ key Hr) as Hw. destruct (db st !! key) as [[o|t]|] eqn:E; cbn [mbind option_bind].
  - apply sadd_finish; try done. by apply (get_set _ _ _ _ Hr).
  - cbn [spec]. rewrite Hw. by apply refines_same.
  - unfold dbAdd. rewrite E. cbn [mbind option_bind]. apply sadd_finish; try done; [|intros o'; cbn; by rewrite insert_insert_eq].
    rewrite get_none by (by apply (rel_none _ _ _ Hr)). apply create_spec.
Qed.
Lemma srem_spec st sp key l : rel (db st) sp -> refines st sp (sremCommand be junk st key l) (spec sp (SREM key l)).
Proof.
  intros Hr. unfold sremCommand. pose proof (wrong_iff _ _ key Hr) as Hw. cbn [spec]. rewrite Hw. destruct (db st !! key) as [[o|t]|] eqn:E.
  - destruct (rel_get _ _ _ _ Hr E) as (Ho & Hn & _). destruct (remove_all_spec l o _ 0 Ho) as (o' & b & -> & Ho' & Hb). cbn [mbind option_bind]. rewrite Z.add_0_l. specialize (Hb Hn). set (T := list_to_set l) in *.
    pose proof (rel_put _ _ key o' _ Hr Ho') as Hput. rewrite <- Hb in Hput. set (st1 := if b then (dbDelete _ key).1 else _).
    assert (Hrel : rel (db st1) (put sp key (get sp key ∖ T))) by (unfold st1; destruct b; [cbn; by rewrite delete_insert_eq|done]). assert (Ht : touched st1 = touched st) by (unfold st1; by destruct b). assert (Hd : dirty st1 = dirty st) by (unfold st1; by destruct b).
    destruct (Z.eqb_spec (Z.of_nat (size (get sp key ∩ T))) 0) as [E0|E0]; cbn [negb]; eexists _, _; (split; [done|]).
    + cbn [fst snd]. split; [done|]. split; [done|]. apply size_zero in E0. rewrite (rel_put_get _ _ _ _ Hr Hw) by set_solver. by apply signals_quiet.
    + split; [by destruct b|]. split; [done|]. apply (signals_put _ _ _ _ _ [key]); destruct b; cbn in *; try set_solver; try (by rewrite Ht); lia.
  - by apply refines_same.
  - assert (Eg : get sp key = ∅) by (apply get_none; by apply (rel_none _ _ _ Hr)). rewrite Eg. replace (∅ ∖ list_to_set l) with (∅ : gset (list Z)) by set_solver. replace (∅ ∩ list_to_set l) with (∅ : gset (list Z)) by set_solver.
    rewrite (rel_put_get _ _ _ _ Hr Hw) by done. rewrite size_empty. by apply refines_same.
Qed.
Lemma sismember_spec st sp key ele : rel (db st) sp -> refines st sp (exec st (SISMEMBER key ele)) (spec sp (SISMEMBER key ele)).
Proof.
  intros Hr. cbn [exec spec]. unfold sismemberCommand. rewrite (wrong_iff _ _ key Hr). destruct (db st !! key) as [[o|t]|] eqn:E; cbn [mbind option_bind].
  - rewrite (member_spec be o _ ele (get_set _ _ _ _ Hr E)). by apply refines_same.
  - by apply refines_same.
  - rewrite (get_none sp key) by (by apply (rel_none _ _ _ Hr)). rewrite bool_decide_false by set_solver. by apply refines_same.
Qed.
Lemma scard_spec st sp key : rel (db st) sp -> refines st sp (exec st (SCARD key)) (spec sp (SCARD key)).
Proof.
  intros Hr. cbn [exec spec]. unfold scardCommand. rewrite (wrong_iff _ _ key Hr). destruct (db st !! key) as [[o|t]|] eqn:E; cbn [mbind option_bind].
  - rewrite (size_spec be o _ (get_set _ _ _ _ Hr E)). by apply refines_same.
  - by apply refines_same.
  - rewrite (get_none sp key) by (by apply (rel_none _ _ _ Hr)). rewrite size_empty. by apply refines_same.
Qed.
(** The target of SMOVE, created when it is missing. *)
Lemma smove_target st2 sp2 dst ele : rel (db st2) sp2 -> wrong_type sp2 dst = false ->
  exists st3 o, match db st2 !! dst with
                | Some (VSet o) => Some (st2, o)
                | _ => let o := setTypeCreate be ele in st ← dbAdd st2 dst (VSet o); Some (st, o)
                end = Some (st3, o) /\ holds o (get sp2 dst) /\ touched st3 = touched st2 /\ dirty st3 = dirty st2 /\ (forall v, <[dst := v]> (db st3) = <[dst := v]> (db st2)).
Proof.
  intros Hr Hw. rewrite (wrong_iff _ _ dst Hr) in Hw. destruct (db st2 !! dst) as [[o|t]|] eqn:E; [|done|].
  - exists st2, o. split; [done|]. split; [by apply (get_set _ _ _ _ Hr)|done].
  - cbn. unfold dbAdd. rewrite E. eexists _, _. split; [done|]. rewrite get_none by (by apply (rel_none _ _ _ Hr)). split; [apply create_spec|]. split; [done|]. split; [done|]. intros v. cbn. apply insert_insert_eq.
Qed.
Lemma smove_spec st sp src dst ele : rel (db st) sp -> refines st sp (smoveCommand be junk set_max_intset_entries st src dst ele) (spec sp (SMOVE src dst ele)).
Proof.
  intros Hr. unfold smoveCommand. cbn [spec]. pose proof (wrong_iff _ _ src Hr) as Hws. pose proof (wrong_iff _ _ dst Hr) as Hwd. destruct (db st !! src) as [[o|t]|] eqn:Es; cycle 1.
  { rewrite (bool_decide_false (sp !! src = None)) by (rewrite <- (rel_none _ _ src Hr); congruence). rewrite Hws. by apply refines_same. }
  { rewrite bool_decide_true by (by apply (rel_none _ _ src Hr)). by apply refines_same. }
  rewrite (bool_decide_false (sp !! src = None)) by (rewrite <- (rel_none _ _ src Hr); congruence). rewrite Hws. cbn [orb]. destruct (wrong_type sp dst) eqn:Ewd; [destruct (db st !! dst) as [[|]|]; try done; by apply refines_same|].
  assert (Ho : holds o (get sp src)) by (by apply (get_set _ _ _ _ Hr)).
  match goal with |- refines st sp ?R _ => assert (Hbody : R = (if bool_decide (src = dst) then b ← setTypeIsMember be o ele; Some (st, ReplyInt (if (b : bool) then 1 else 0)) else
        '(srcset, ok) ← setTypeRemove be junk o ele;
        let st1 := set_db st (<[src := VSet srcset]> (db st)) in
        if negb (ok : bool) then Some (st1, ReplyInt 0) else
          let st1 := notifyKeyspaceEvent st1 (bytes_of_string "srem") src in
          let st2 := if setTypeSize be srcset =? 0 then notifyKeyspaceEvent (dbDelete st1 src).1 (bytes_of_string "del") src else st1 in
          '(st, dstset) ← match db st !! dst with Some (VSet o) => Some (st2, o) | _ => let o := setTypeCreate be ele in st ← dbAdd st2 dst (VSet o); Some (st, o) end;
          let st := signalModifiedKey (signalModifiedKey st src) dst in
          let st := add_dirty st 1 in
          '(dstset, ok) ← tadd dstset ele;
          let st := set_db st (<[dst := VSet dstset]> (db st)) in
          let st := if (ok : bool) then notifyKeyspaceEvent (add_dirty st 1) (bytes_of_string "sadd") dst else st in
          Some (st, ReplyInt 1))) by (by destruct (db st !! dst) as [[|]|]) end.
  rewrite Hbody. clear Hbody. destruct (decide (src = dst)) as [->|Hne].
  { rewrite !(bool_decide_true (dst = dst)) by done. rewrite (member_spec be o _ ele Ho). cbn [mbind option_bind]. case_bool_decide; by apply refines_same. }
  rewrite !(bool_decide_false (src = dst)) by done. destruct (remove_spec be junk set_max_intset_entries Hmax o _ ele Ho) as (o1 & -> & Ho1). cbn [mbind option_bind].
  case_bool_decide as Hin; cbn [negb]; cycle 1.
  { eexists _, _. split; [done|]. cbn. replace (get sp src ∖ {[ele]}) with (get sp src) in Ho1 by set_solver. split; [|by split; [done|apply signals_quiet]]. intros k. destruct (decide (k = src)) as [->|Hk]; [|rewrite lookup_insert_ne by done; apply Hr].
    rewrite lookup_insert_eq. destruct (rel_get _ _ _ _ Hr Es) as (_ & Hn & ->). done. }
  set (st1 := notifyKeyspaceEvent (set_db st _) _ src). set (st2 := if setTypeSize be o1 =? 0 then _ else st1). set (sp2 := put sp src (get sp src ∖ {[ele]})).
  assert (Hr2 : rel (db st2) sp2) by (pose proof (rel_put _ _ src o1 _ Hr Ho1) as Hp; unfold st2, sp2; destruct (setTypeSize be o1 =? 0); [cbn; by rewrite delete_insert_eq|done]).
  assert (Ed : db st !! dst = db st2 !! dst) by (unfold st2; destruct (setTypeSize be o1 =? 0); cbn; by rewrite ?lookup_delete_ne, ?lookup_insert_ne by done).
  assert (Ht2 : touched st2 = touched st /\ dirty st2 = dirty st) by (unfold st2; by destruct (setTypeSize be o1 =? 0)).
  rewrite Ed. destruct (smove_target st2 sp2 dst ele Hr2) as (st3 & o3 & Etgt & Ho3 & Ht & Hd & Hdb); [unfold wrong_type, sp2; by rewrite put_lookup_ne|]. cbn [mbind option_bind] in Etgt. rewrite Etgt. cbn [mbind option_bind].
  destruct (add_spec be junk set_max_intset_entries Hmax o3 _ ele Ho3) as (o4 & -> & Ho4). cbn [mbind option_bind]. unfold sp2 in Ho4 at 1. rewrite get_put_ne in Ho4 by done.
  eexists _, _. split; [done|]. cbn [fst snd]. split; [|split; [done|]].
  - rewrite put_nonempty by set_solver. pose proof (rel_insert _ _ dst o4 _ Hr2 Ho4 ltac:(set_solver)) as Hfin. rewrite <- Hdb in Hfin. by destruct (bool_decide (ele ∉ get sp2 dst)).
  - exists [dst; src]. split; [destruct (bool_decide (ele ∉ get sp2 dst)); cbn; by rewrite Ht, (proj1 Ht2)|]. split; [|destruct (bool_decide (ele ∉ get sp2 dst)); cbn; split; intros; lia].
    intros k Hk. destruct (decide (k = dst)) as [->|Hk1]; [set_solver|]. destruct (decide (k = src)) as [->|Hk2]; [set_solver|]. unfold sp2 in Hk. by rewrite put_lookup_ne, put_lookup_ne in Hk.
Qed.

(** *** Sequences of commands *)
Lemma set_exec_spec st sp c : rel (db st) sp -> refines st sp (exec st c) (spec sp c).
Proof.
  intros Hr. destruct c; cbn [exec spec]; unfold sinterCommand, sinterstoreCommand, sunionCommand, sunionstoreCommand, sdiffCommand, sdiffstoreCommand.
  all: first [by apply sadd_spec|by apply srem_spec|by apply smove_spec|by apply (sismember_spec st sp)|by apply (scard_spec st sp)|by apply sinter_spec|by apply sunion_diff_spec].
Qed.
Fixpoint run (st : state) (cs : list cmd) : option (state * list reply) :=
  match cs with
  | [] => Some (st, [])
  | c :: cs => '(st, r) ← exec st c; '(st, rs) ← run st cs; Some (st, r :: rs)
  end.
Fixpoint spec_run (sp : keyspace) (cs : list cmd) : keyspace * list sreply :=
  match cs with
  | [] => (sp, [])
  | c :: cs => let '(sp, r) := spec sp c in let '(sp, rs) := spec_run sp cs in (sp, r :: rs)
  end.
Lemma signals_trans st1 st2 st3 sp1 sp2 sp3 : signals st1 st2 sp1 sp2 -> signals st2 st3 sp2 sp3 -> signals st1 st3 sp1 sp3.
Proof.
  intros (n1 & Ht1 & Hk1 & Hd1 & Hs1) (n2 & Ht2 & Hk2 & Hd2 & Hs2). exists (n2 ++ n1). split; [by rewrite Ht2, Ht1, app_assoc|]. split; [|split; [lia|]].
  - intros k Hk. apply elem_of_app. destruct (decide (sp3 !! k = sp2 !! k)) as [E|E]; [right; apply Hk1; congruence|left; by apply Hk2].
  - intros Hne. destruct (decide (sp2 = sp1)) as [->|E]; [specialize (Hs2 Hne); lia|specialize (Hs1 E); lia].
Qed.

(** C23: the set commands refine the set algebra.  Any sequence of SADD,
    SREM, SMOVE, SISMEMBER, SCARD, SINTER, SUNION, SDIFF and the STORE
    commands, on a keyspace that holds sets in either encoding and values of
    other types, runs to the end, gives the replies of the specification on
    mathematical sets (WRONGTYPE errors included, no element twice in a
    reply), leaves the keyspace the specification gives with no empty set in
    it, and signals and counts every key that it changed. *)
Theorem set_commands_refine st sp cs : rel (db st) sp ->
  exists st' rs, run st cs = Some (st', rs) /\ rel (db st') (spec_run sp cs).1 /\ Forall2 reply_ok rs (spec_run sp cs).2 /\ signals st st' sp (spec_run sp cs).1.
Proof.
  revert st sp. induction cs as [|c cs IH]; intros st sp Hr; cbn [run spec_run].
  - exists st, []. split; [done|]. split; [done|]. split; [constructor|apply signals_same].
  - destruct (set_exec_spec st sp c Hr) as (st1 & r & -> & Hr1 & Hrep & Hsig). cbn [mbind option_bind]. destruct (spec sp c) as [sp1 s]. cbn [fst snd] in *.
    destruct (IH st1 sp1 Hr1) as (st' & rs & -> & Hr' & Hreps & Hsigs). cbn [mbind option_bind]. destruct (spec_run sp1 cs) as [sp2 ss]. cbn [fst snd] in *.
    exists st', (r :: rs). split; [done|]. split; [done|]. split; [by constructor|by apply (signals_trans _ st1 _ _ sp1)].
Qed.
End CommandSpec.

(** An order of the entries of a hash table, and a sort. *)
#[local] Instance map_order : DictOrder := {| entries V m := map_to_list m; entries_perm V m := reflexivity _ |}.
#[local] Instance size_order {A} (f : A -> Z) : RelDecision (fun x y => f x <= f y).
Proof. intros x y. apply _. Defined.
#[local] Program Instance sort_by_size : Qsort := {| qsort A f l := merge_sort (fun x y => f x <= f y) l |}.
Next Obligation. intros A f l. apply merge_sort_Permutation. Qed.
Next Obligation. intros A f l. apply StronglySorted_merge_sort; intros x y; lia. Qed.

#[local] Abbreviation b s := (bytes_of_string s%string).
Definition session : list cmd :=
  [SADD (b "x") (b "1") [b "2"; b "3"; b "2"]; SADD (b "y") (b "3") [b "a"]; SINTERSTORE (b "z") (b "x") [b "y"];
   SMOVE (b "y") (b "z") (b "a"); SDIFF (b "n") [b "x"]; SREM (b "z") [b "3"; b "a"]; SCARD (b "z")].
Lemma set_commands_witness :
  exists st' rs, run false (fun _ => 0) 2 (mk_state {[b "n" := VOther 0]} 0 [] []) session = Some (st', rs) /\
    Forall2 reply_ok rs [SInt 3; SInt 2; SInt 1; SInt 1; SWrong; SInt 2; SInt 0].
Proof.
  destruct (set_commands_refine false (fun _ => 0) 2 ltac:(lia) (mk_state {[b "n" := VOther 0]} 0 [] []) {[b "n" := inr 0]} session) as (st' & rs & Hrun & _ & Hreps & _).
  - intros k. cbn [db]. destruct (decide (k = b "n")) as [->|Hk]; [by rewrite !lookup_singleton_eq|by rewrite !lookup_singleton_ne].
  - exists st', rs. split; [exact Hrun|]. assert (E : (spec_run {[b "n" := inr 0]} session).2 = [SInt 3; SInt 2; SInt 1; SInt 1; SWrong; SInt 2; SInt 0]) by (vm_compute; reflexivity). by rewrite <- E.
Defined.
