(* ===== verification/RdbObject.v ===== *)
(** * RDB values (rdb.c, object.c)

    [rdbSaveObject] and [rdbLoadObject] for strings and for both encodings of
    sets; the other types are a parameter with the same interface.  The
    functions implement the class [Values] of the RDB file, so that the
    theorems on files hold of keyspaces of strings and sets. *)
From Stdlib Require Import Strings.String.
From S2P Require Import Prelude Endian Intset Util Lzf Crc Rio Rdb RdbFile Tset.

Definition RDB_TYPE_STRING : Z := 0.
Definition RDB_TYPE_SET : Z := 2.
Definition RDB_TYPE_SET_INTSET : Z := 11.

(** ** Operations *)
(** The object tryObjectEncoding returns for a string that is not shared; a
    shared integer and a private one have the same value. *)
Definition tryObjectEncoding (o : strobj) : strobj :=
  match o with
  | StrInt _ => o
  | StrSds embstr s =>
      let len := zlen s in
      match (if len <=? 20 then string2l s else None) with
      | Some value => StrInt value
      | None =>
          if len <=? OBJ_ENCODING_EMBSTR_SIZE_LIMIT then (if embstr then o else StrSds true s)
          else o
      end
  end.

(** A value of the keyspace. *)
Inductive rvalue (W : Type) := RString (o : strobj) | RSet (o : setobj) | ROther (x : W).
Arguments RString {W}.
Arguments RSet {W}.
Arguments ROther {W}.

(** The memory of an intset, and the intset at an address. *)
Definition intset_blob (be : bool) (s : intset) : list Z :=
  native_bytes be 4 (is_encoding s) ++ native_bytes be 4 (is_length s) ++ is_contents s.
Definition intset_at (be : bool) (m : list Z) : option intset :=
  e ← load m 0 4; l ← load m 4 4; Some (Intset (native_val be e) (native_val be l) (drop 8 m)).

Section Objects.
  Context {B : Type} `{Backend B} `{Checksum} `{DictOrder} {W : Type} `{!Values W (B := B)}.
  Context (be1 : bool) (mem1 : nat -> Z) (stack : Z -> Z) (compression : bool).
  Context (be2 : bool) (mem2 : nat -> Z) (set_max_intset_entries : Z).
#[local] Abbreviation saveRaw := (rdbSaveRawString (B := B) be1 mem1 stack compression).

Definition object_type (v : rvalue W) : Z :=
  match v with
  | RString _ => RDB_TYPE_STRING
  | RSet (IntsetEnc _) => RDB_TYPE_SET_INTSET
  | RSet (HtEnc _) => RDB_TYPE_SET
  | ROther x => rdbSaveObjectType x
  end.
(** The loop over the entries of the hash table. *)
Fixpoint save_elements (l : list (list Z * ())) : Rio.save B :=
  match l with
  | [] => save_ret 0
  | (ele, _) :: l => save_add (saveRaw (ele ++ [0]) (zlen ele)) (save_elements l)
  end.
Definition save_object (v : rvalue W) (key : list Z) : Rio.save B :=
  match v with
  | RString o => rdbSaveStringObject be1 mem1 stack compression o
  | RSet (HtEnc set) => save_add (rdbSaveLen be1 (Z.of_nat (size set))) (save_elements (entries set))
  | RSet (IntsetEnc s) => saveRaw (intset_blob be1 s) (intsetBlobLen be1 s)
  | ROther x => rdbSaveObject x key
  end.

#[local] Abbreviation loadString := (rdbGenericLoadStringObject (B := B) be2 mem2).
(** The body of the loop over the elements of a RDB_TYPE_SET. *)
Definition add_loaded (o : setobj) (sdsele : list Z) : option setobj :=
  o ← match o with
      | IntsetEnc s =>
          match isSdsRepresentableAsLongLong sdsele with
          | Some llval => '(s, _) ← intsetAdd be2 mem2 s llval; Some (IntsetEnc s)
          | None => setTypeConvert be2 o
          end
      | HtEnc _ => Some o
      end;
  match o with HtEnc d => Some (HtEnc (<[sdsele := ()]> d)) | IntsetEnc _ => Some o end.
(** [for (i = 0; i < len; i++)] with an [unsigned int]: it does not end when
    [len] is larger, which is [None]. *)
Fixpoint load_elements (fuel : nat) (i len : Z) (o : setobj) : Rio.load_t B setobj :=
  if i <? len then
    match fuel with
    | O => fun _ => None
    | S fuel =>
        load_bind (loadString RDB_LOAD_SDS) (fun sdsele r =>
          o ← add_loaded o (loaded_bytes sdsele); load_elements fuel (u32 (i + 1)) len o r)
    end
  else load_ret o.
Definition load_set : Rio.load_t B setobj :=
  load_bind (rdbLoadLen_or_fail be2) (fun len =>
    load_elements (Z.to_nat len) 0 len (if len >? set_max_intset_entries then createSetObject else createIntsetObject be2)).
Definition load_intset : Rio.load_t B setobj :=
  load_bind (loadString RDB_LOAD_PLAIN) (fun encoded r =>
    s ← intset_at be2 (loaded_bytes encoded);
    o ← (if intsetLen be2 s >? set_max_intset_entries then setTypeConvert be2 (IntsetEnc s) else Some (IntsetEnc s));
    Some (r, Ok o)).
Definition load_string : Rio.load_t B strobj :=
  load_bind (rdbLoadEncodedStringObject be2 mem2) (fun x =>
    load_ret (match x with LObj o => tryObjectEncoding o | LPlain bs | LSds bs => StrSds false bs end)).
Definition load_object (rdbtype : Z) (key : list Z) : Rio.load_t B (rvalue W) :=
  if rdbtype =? RDB_TYPE_STRING then load_bind load_string (fun o => load_ret (RString o))
  else if rdbtype =? RDB_TYPE_SET then load_bind load_set (fun o => load_ret (RSet o))
  else if rdbtype =? RDB_TYPE_SET_INTSET then load_bind load_intset (fun o => load_ret (RSet o))
  else load_bind (rdbLoadObject rdbtype key) (fun x => load_ret (ROther x)).

(** ** The contents of values *)
(** The elements of a set, as the iterator gives them. *)
Definition set_content (be : bool) (o : setobj) : gset (list Z) :=
  match iterate be o with Some l => list_to_set (map setTypeNextObject l) | None => ∅ end.
Definition value_content (be : bool) (other : W -> content_t (V := W)) (v : rvalue W) : list Z + gset (list Z) + content_t (V := W) :=
  match v with RString o => inl (inl (obj_bytes o)) | RSet o => inl (inr (set_content be o)) | ROther x => inr (other x) end.
Definition rvalue_ok (v : rvalue W) : Prop :=
  match v with
  | RString o => strobj_ok o
  | RSet o => exists S, holds be1 o S /\ Z.of_nat (size S) < 2 ^ 32 /\ forall x, x ∈ S -> bytes_ok x /\ zlen x < 2 ^ 32
  | ROther x => value_ok x /\ rdbSaveObjectType x ∉ [RDB_TYPE_STRING; RDB_TYPE_SET; RDB_TYPE_SET_INTSET]
  end.
Lemma content_holds be o S : holds be o S -> set_content be o = S.
Proof. intros Ho. unfold set_content. by destruct (iterate_spec be o S Ho) as (l & -> & _ & _ & ->). Qed.

(** *** Strings *)
Lemma try_encoding_bytes o : obj_bytes (tryObjectEncoding o) = obj_bytes o.
Proof.
  destruct o as [v|emb s]; [done|]. cbn [tryObjectEncoding]. cbv zeta. destruct (if zlen s <=? 20 then string2l s else None) as [v|] eqn:E; [|by repeat case_match].
  destruct (zlen s <=? 20); [|done]. unfold string2l in E. destruct (string2ll s) as [u|] eqn:E2; [|done]. apply string2ll_iff in E2 as [_ ->]. case_match; [done|]. by injection E as ->.
Qed.
Lemma parses_load_string s e : str_code s e -> exists o, obj_bytes o = s /\ parses load_string e o.
Proof.
  intros C. destruct (parses_string be2 mem2 s e RDB_LOAD_ENC C) as (o & Eo & P). exists (tryObjectEncoding o). split; [by rewrite try_encoding_bytes|].
  unfold load_string. change (result_of RDB_LOAD_ENC s o) with (LObj o) in P. eapply parses_map; [exact P|apply parses_ret].
Qed.

(** *** Sets in a hash table *)
Definition element_ok (x : list Z) : Prop := bytes_ok x /\ zlen x < 2 ^ 32.
Lemma elements_saved l : Forall element_ok l.*1 -> exists es, Forall2 str_code l.*1 es /\ writes (save_elements l) (concat es).
Proof.
  induction l as [|[x u] l IH]; intros Hl; cbn [fmap list_fmap save_elements fst] in *; [exists []; split; [constructor|apply writes_nil]|].
  apply Forall_cons in Hl as [[Hb Hx] Hl]. destruct (IH Hl) as (es & F & W0). destruct (writes_raw_string be1 mem1 stack compression x [0] Hb) as (e & C & W1); [apply Exists_app; right; constructor; apply nul_stops|done|].
  exists (e :: es). split; [by constructor|]. cbn [concat]. by apply writes_add.
Qed.
(** The room left in an intset while a set of at most
    set-max-intset-entries elements is loaded. *)
Definition room (o : setobj) (T : gset (list Z)) (n : Z) : Prop := match o with IntsetEnc _ => Z.of_nat (size T) + n <= set_max_intset_entries | HtEnc _ => True end.
Lemma add_loaded_spec o T x n : set_max_intset_entries + 1 < 2 ^ 28 -> holds be2 o T -> room o T (n + 1) -> 0 <= n ->
  exists o', add_loaded o x = Some o' /\ holds be2 o' ({[x]} ∪ T) /\ room o' ({[x]} ∪ T) n.
Proof.
  intros Hmax Ho Hn Hp. unfold add_loaded. destruct o as [s|d]; cbn [mbind option_bind].
  - unfold isSdsRepresentableAsLongLong. destruct (string2ll x) as [v|] eqn:Ex.
    + apply string2ll_iff in Ex as [Hv ->]. destruct (int_add_spec be2 mem2 set_max_intset_entries Hmax s T v Ho Hv) as (s' & e & l & -> & R & ES & Hl). cbn [mbind option_bind]. cbn [room] in Hn.
      assert (Hs : (size ({[dec v]} ∪ T) <= size T + 1)%nat) by (rewrite size_union_alt, size_singleton; pose proof (subseteq_size (T ∖ {[dec v]}) T ltac:(set_solver)); lia).
      exists (IntsetEnc s'). split; [done|]. split; [exists e, l; split; [done|]; split; [lia|done]|cbn; lia].
    + destruct Ho as (e & l & R & Hl & ->). destruct (convert_spec be2 set_max_intset_entries Hmax s e l R) as (d & -> & Hd). cbn [mbind option_bind]. eexists. split; [done|]. split; [cbn; by rewrite dom_insert_L, Hd|done].
  - cbn in Ho. subst T. eexists. split; [done|]. split; [cbn; by rewrite dom_insert_L|done].
Qed.
Lemma parses_elements xs es : set_max_intset_entries + 1 < 2 ^ 28 -> Forall2 str_code xs es -> forall fuel i o T, zlen xs + i < 2 ^ 32 -> 0 <= i -> (length xs <= fuel)%nat ->
  holds be2 o T -> room o T (zlen xs) -> exists o', parses (load_elements fuel i (i + zlen xs) o) (concat es) o' /\ holds be2 o' (list_to_set xs ∪ T).
Proof.
  intros Hmax F. induction F as [|x e xs es C F IH]; intros fuel i o T Hl Hi Hf Ho Hr.
  - exists o. split; [|cbn; by rewrite (left_id_L ∅ (∪))]. rewrite Z.add_0_r. destruct fuel; cbn [load_elements]; rewrite Z.ltb_irrefl; apply parses_ret.
  - destruct fuel as [|fuel]; [cbn in Hf; lia|]. cbn [load_elements concat list_to_set]. rewrite zlen_cons in *. pose proof (zlen_nonneg xs). rewrite (proj2 (Z.ltb_lt i (i + (1 + zlen xs)))) by lia.
    destruct (parses_string be2 mem2 x e RDB_LOAD_SDS C) as (o1 & _ & P). change (result_of RDB_LOAD_SDS x o1) with (LSds x) in P.
    destruct (add_loaded_spec o T x (zlen xs) Hmax Ho) as (o2 & E2 & Ho2 & Hr2); [by rewrite Z.add_comm|done|].
    destruct (IH fuel (i + 1) o2 _ ltac:(lia) ltac:(lia) ltac:(cbn in Hf; lia) Ho2 Hr2) as (o' & P' & Ho'). exists o'. split; [|by replace ({[x]} ∪ list_to_set xs ∪ T) with (list_to_set xs ∪ ({[x]} ∪ T)) by set_solver].
    eapply parses_bind; [exact P|]. eapply parses_ext; [|exact P']. intros r. cbn [loaded_bytes]. rewrite E2. cbn [mbind option_bind].
    rewrite wrapu_small by (unfold in_u; lia). by replace (i + (1 + zlen xs)) with (i + 1 + zlen xs) by lia.
Qed.
Lemma parses_load_set S xs es : set_max_intset_entries + 1 < 2 ^ 28 -> Forall2 str_code xs es -> list_to_set xs = S -> NoDup xs -> zlen xs < 2 ^ 32 ->
  exists o, parses load_set (len_bytes (zlen xs) ++ concat es) o /\ holds be2 o S.
Proof.
  intros Hmax F <- Hnd Hl. pose proof (zlen_nonneg xs). set (o0 := if zlen xs >? set_max_intset_entries then createSetObject else createIntsetObject be2).
  assert (Hstart : holds be2 o0 ∅ /\ room o0 ∅ (zlen xs)).
  { unfold o0. rewrite Z.gtb_ltb. destruct (Z.ltb_spec set_max_intset_entries (zlen xs)); split; [cbn; by rewrite dom_empty_L|done|apply intset_new_holds|cbn; rewrite size_empty; lia]. }
  destruct (parses_elements xs es Hmax F (Z.to_nat (zlen xs)) 0 o0 ∅) as (o & P & Ho); [lia|done|unfold zlen; lia|apply Hstart|apply Hstart|]. rewrite Z.add_0_l in P. rewrite (right_id_L ∅ (∪)) in Ho.
  exists o. split; [|done]. eapply parses_bind; [apply parses_len; unfold RDB_LENERR, ULLONG_MAX; lia|exact P].
Qed.

(** *** Sets of integers: the memory of an intset is the same on every host *)
Lemma field32_bytes be v : in_u 32 v -> native_bytes be 4 (intrev32ifbe be v) = le_bytes 4 v.
Proof.
  intros Hv. unfold native_bytes, intrev32ifbe, intrev32, native_val, native_bytes. destruct be; [|done]. rewrite memrev32_rev by (by rewrite length_rev, le_bytes_length). rewrite rev_involutive.
  pose proof (le_bytes_le_val (rev (le_bytes 4 v)) ltac:(by apply Forall_rev, le_bytes_ok)) as E. rewrite length_rev, le_bytes_length in E. by rewrite E, rev_involutive.
Qed.
Lemma field32_val be v : in_u 32 v -> native_val be (le_bytes 4 v) = intrev32ifbe be v.
Proof.
  intros Hv. unfold intrev32ifbe, intrev32, native_val, native_bytes. destruct be.
  - rewrite memrev32_rev by (by rewrite length_rev, le_bytes_length). by rewrite rev_involutive.
  - rewrite le_val_le_bytes. by apply wrapu_small.
Qed.
Lemma repr_fields be s e l : repr be s e l -> in_u 32 e /\ in_u 32 (zlen l) /\ intset_blob be s = le_bytes 4 e ++ le_bytes 4 (zlen l) ++ cells e l /\ intsetBlobLen be s = zlen (intset_blob be s).
Proof.
  intros R. assert (He : in_u 32 e) by (destruct (repr_enc _ _ _ _ R) as [-> |[-> | ->]]; unfold in_u; lia). assert (Hl : in_u 32 (zlen l)) by (pose proof (repr_small _ _ _ _ R); pose proof (zlen_nonneg l); unfold in_u; lia).
  split; [done|]. split; [done|]. assert (E : intset_blob be s = le_bytes 4 e ++ le_bytes 4 (zlen l) ++ cells e l) by (unfold intset_blob; by rewrite (repr_encoding _ _ _ _ R), (repr_length _ _ _ _ R), (repr_contents _ _ _ _ R), !field32_bytes).
  split; [done|]. destruct (intset_find_spec be s e l 0 0 R) as (_ & _ & _ & ->); [unfold in_s; lia|lia|]. rewrite E, !zlen_app, !zlen_le_bytes, (repr_contents _ _ _ _ R). unfold sizeof_intset. lia.
Qed.
Lemma cells_bytes e l : bytes_ok (cells e l).
Proof. induction l as [|v l IH]; [constructor|]. rewrite cells_cons. apply Forall_app. split; [apply le_bytes_ok|done]. Qed.
Lemma intset_at_blob s e l : repr be1 s e l -> exists s', intset_at be2 (intset_blob be1 s) = Some s' /\ repr be2 s' e l.
Proof.
  intros R. destruct (repr_fields be1 s e l R) as (He & Hl & -> & _). unfold intset_at. rewrite load_prefix by (by rewrite zlen_le_bytes). cbn [mbind option_bind].
  rewrite load_app by (by rewrite zlen_le_bytes). cbn [mbind option_bind]. rewrite !field32_val by done. eexists. split; [done|]. destruct R. split; cbn; try done.
Qed.
Lemma parses_load_intset s S : set_max_intset_entries + 1 < 2 ^ 28 -> holds be1 (IntsetEnc s) S ->
  exists e o, writes (saveRaw (intset_blob be1 s) (intsetBlobLen be1 s)) e /\ parses load_intset e o /\ holds be2 o S.
Proof.
  intros Hmax (e & l & R & Hl & ES). destruct (repr_fields be1 s e l R) as (He & Hz & Eb & ->). destruct (intset_at_blob s e l R) as (s' & E' & R').
  assert (Hlen : zlen (intset_blob be1 s) < 2 ^ 32) by (rewrite Eb, !zlen_app, !zlen_le_bytes, cells_zlen by apply R; pose proof (zlen_nonneg l); destruct (repr_enc _ _ _ _ R) as [-> |[-> | ->]]; lia).
  destruct (writes_raw_string be1 mem1 stack compression (intset_blob be1 s) []) as (c & C & W0); [rewrite Eb; repeat apply Forall_app_2; apply le_bytes_ok || apply cells_bytes| |done|].
  { rewrite app_nil_r, Eb. apply Exists_app. left. destruct (repr_enc _ _ _ _ R) as [-> |[-> | ->]]; constructor; repeat split; (reflexivity || (vm_compute; discriminate)). }
  rewrite app_nil_r in W0. exists c. destruct (parses_string be2 mem2 _ c RDB_LOAD_PLAIN C) as (o1 & _ & P). change (result_of RDB_LOAD_PLAIN ?x o1) with (LPlain x) in P.
  assert (Ho : exists o, (if intsetLen be2 s' >? set_max_intset_entries then setTypeConvert be2 (IntsetEnc s') else Some (IntsetEnc s')) = Some o /\ holds be2 o S).
  { destruct (intsetLen be2 s' >? set_max_intset_entries); [|exists (IntsetEnc s'); split; [done|]; by exists e, l]. destruct (convert_spec be2 set_max_intset_entries Hmax s' e l R') as (d & -> & Hd). exists (HtEnc d). split; [done|]. cbn. by rewrite Hd. }
  destruct Ho as (o & Eo & Ho). exists o. split; [exact W0|]. split; [|done]. eapply parses_map; [exact P|]. eapply parses_ext; [|apply parses_ret]. intros r. cbn [loaded_bytes]. rewrite E'. cbn [mbind option_bind]. by rewrite Eo.
Qed.

(** *** Values *)
Lemma set_roundtrip o S : set_max_intset_entries + 1 < 2 ^ 28 -> holds be1 o S -> Z.of_nat (size S) < 2 ^ 32 -> (forall x, x ∈ S -> element_ok x) -> forall key,
  exists e o', writes (save_object (RSet o) key) e /\ parses (load_object (object_type (RSet o)) key) e (RSet o') /\ holds be2 o' S.
Proof.
  intros Hmax Ho Hsz Hx key. destruct o as [s|d]; cbn [save_object object_type].
  - destruct (parses_load_intset s S Hmax Ho) as (e & o & W0 & P & Ho'). exists e, o. split; [done|]. split; [|done]. eapply parses_map; [exact P|apply parses_ret].
  - cbn in Ho. subst S. destruct (entries_nodup d) as [Hn Hin]. assert (Hel : forall x, x ∈ (entries d).*1 <-> x ∈ dom d).
    { intros x. rewrite elem_of_dom, list_elem_of_fmap. split; [intros ([k u] & -> & Hk); exists u; by apply Hin|intros [u Hu]; exists (x, u); split; [done|by apply Hin]]. }
    destruct (elements_saved (entries d)) as (es & F & W0); [apply Forall_forall; intros x Hxe; by apply Hx, Hel|].
    assert (Hz : Z.of_nat (size d) = zlen (entries d).*1) by (unfold zlen; by rewrite length_fmap, entries_perm, length_map_to_list). rewrite size_dom in Hsz. rewrite Hz in *.
    destruct (parses_load_set (dom d) _ es Hmax F) as (o & P & Ho); [apply sets.set_eq; intros x; rewrite elem_of_list_to_set; apply Hel|done|done|].
    exists (len_bytes (zlen (entries d).*1) ++ concat es), o. split; [apply writes_add; [apply writes_len; pose proof (zlen_nonneg (entries d).*1); unfold in_u; lia|done]|]. split; [|done]. eapply parses_map; [exact P|apply parses_ret].
Qed.
End Objects.

Section Instances.
  Context {B : Type} `{Backend B} `{Checksum} `{DictOrder} {W : Type} `{!Values W (B := B)}.
  Context (be1 : bool) (mem1 : nat -> Z) (stack : Z -> Z) (compression : bool).
  Context (be2 : bool) (mem2 : nat -> Z) (set_max_intset_entries : Z) (Hmax : set_max_intset_entries + 1 < 2 ^ 28).

Lemma tracks_try {A C} (x : option A) (g : A -> Rio.load_t B C) : (forall a, tracks (g a)) -> tracks (fun r => a ← x; g a r).
Proof. intros Hg. destruct x as [a|]; [apply Hg|split; by intros]. Qed.
Lemma tracks_elements fuel : forall i len o, tracks (load_elements (B := B) be2 mem2 fuel i len o).
Proof.
  induction fuel as [|fuel IH]; intros i len o; cbn [load_elements]; destruct (i <? len); try apply tracks_ret; [split; by intros|].
  apply tracks_bind; [apply tracks_string|]. intros x. apply tracks_try. intros o'. apply IH.
Qed.
Lemma tracks_object t key : tracks (load_object (W := W) be2 mem2 set_max_intset_entries t key).
Proof.
  unfold load_object. repeat (destruct (t =? _)).
  - apply tracks_bind; [|auto with rio]. unfold load_string, rdbLoadEncodedStringObject. apply tracks_bind; [apply tracks_string|auto with rio].
  - apply tracks_bind; [|auto with rio]. apply tracks_bind; [apply tracks_len_or_fail|intros len; apply tracks_elements].
  - apply tracks_bind; [|auto with rio]. apply tracks_bind; [apply tracks_string|]. intros x. apply tracks_try. intros s. apply tracks_try. intros o. apply tracks_ret.
  - apply tracks_bind; [apply object_tracks|auto with rio].
Qed.
Lemma object_type_ok (v : rvalue W) : rdbIsObjectType (object_type v) = true.
Proof. destruct v as [o|[s|d]|x]; try done. apply type_is_object. Qed.
Lemma object_saved (v : rvalue W) key : rvalue_ok be1 v -> exists e v', writes (save_object be1 mem1 stack compression v key) e /\
  value_content be2 content_loaded v' = value_content be1 content_saved v /\ parses (load_object be2 mem2 set_max_intset_entries (object_type v) key) e v'.
Proof.
  destruct v as [o|o|x]; cbn [rvalue_ok].
  - intros Ho. destruct (writes_string be1 mem1 stack compression o Ho) as (e & C & W0). destruct (parses_load_string be2 mem2 _ e C) as (o' & Eo & P). exists e, (RString o'). split; [done|]. split; [cbn; by rewrite Eo|].
    eapply parses_map; [exact P|apply parses_ret].
  - intros (S & Ho & Hs & Hx). destruct (set_roundtrip (W := W) be1 mem1 stack compression be2 mem2 set_max_intset_entries o S Hmax Ho Hs Hx key) as (e & o' & W0 & P & Ho').
    exists e, (RSet o'). split; [done|]. split; [cbn; by rewrite (content_holds be2 o' S Ho'), (content_holds be1 o S Ho)|done].
  - intros [Hv Ht]. destruct (object_roundtrip x key Hv) as (e & x' & W0 & Ex & P). exists e, (ROther x'). split; [done|]. split; [cbn; by rewrite Ex|]. cbn [object_type]. unfold load_object.
    assert (Hne : forall c, c ∈ [RDB_TYPE_STRING; RDB_TYPE_SET; RDB_TYPE_SET_INTSET] -> (rdbSaveObjectType x =? c) = false) by (intros c Hc; apply Z.eqb_neq; intros E; by rewrite E in Ht).
    rewrite !Hne by set_solver. eapply parses_map; [exact P|apply parses_ret].
Qed.
#[export] Instance object_values : Values (rvalue W) (B := B) := {|
  content_saved := value_content be1 content_saved;
  content_loaded := value_content be2 content_loaded;
  value_ok := rvalue_ok be1;
  rdbSaveObjectType := object_type;
  rdbSaveObject := save_object be1 mem1 stack compression;
  rdbLoadObject := load_object be2 mem2 set_max_intset_entries;
  type_is_object := object_type_ok;
  object_roundtrip := object_saved;
  object_tracks := tracks_object
|}.
End Instances.

(** ** A keyspace saved on a big-endian host and loaded on a little-endian one *)
#[local] Instance file_order : DictOrder := {| entries V m := map_to_list m; entries_perm V m := reflexivity _ |}.
#[local] Instance id_scripting : Scripting := {| sha1hex := fun b => b; lua_loads := fun _ => true |}.
#[local] Program Instance no_values : Values Empty_set (B := buffer) := {|
  content_t := Empty_set; content_saved v := v; content_loaded v := v; value_ok _ := True;
  rdbSaveObjectType v := match v with end; rdbSaveObject v _ := match v with end; rdbLoadObject _ _ := load_exit |}.
Next Obligation. by intros []. Qed.
Next Obligation. by intros []. Qed.
Next Obligation. intros. apply tracks_exit. Qed.
#[local] Instance sample_values : Values (rvalue Empty_set) (B := buffer) := object_values true (fun _ => 0) (fun i => i) true false (fun _ => 0) 512 ltac:(lia).
#[local] Abbreviation b s := (bytes_of_string s%string).
Definition sample_server : server := mk_server 16 true 0 1 10 100 1000 1000000 1000 0 (repeat 97 40) 0 2097152 true true.
Definition sample_set : setobj := HtEnc {[b "7" := (); b "member" := ()]}.
Definition sample_db : redisDb (rvalue Empty_set) :=
  mk_db {[b "greeting" := mk_robj (RString (StrSds false (b "hello, hello, hello, hello"))) 5; b "set" := mk_robj (RSet sample_set) 7]} {[b "greeting" := 2000000]}.
Lemma text_bytes s : forallb (fun c => (0 <=? c) && (c <? 256)) s = true -> bytes_ok s.
Proof. intros E. rewrite forallb_forall in E. apply Forall_forall. intros c Hc. apply list_elem_of_In, E in Hc. unfold byte_ok. lia. Qed.
Lemma sample_ok : dataset_ok sample_server [sample_db] None ∅.
Proof.
  split.
  - split; [split; [vm_compute; split; [discriminate|reflexivity]|done]|unfold in_s; cbn; lia|split; [by apply text_bool|reflexivity]|unfold in_s; cbn; lia].
  - constructor; [|constructor]. split; [| |reflexivity|reflexivity].
    + intros k o. cbn [db_dict sample_db]. rewrite lookup_insert_Some, lookup_singleton_Some. intros [[<- <-]|[_ [<- <-]]].
      * split; [split; [by apply text_bytes|reflexivity]|]. split; [|split; cbn; lia]. split; [by apply text_bytes|reflexivity].
      * split; [split; [by apply text_bytes|reflexivity]|]. split; [|split; cbn; lia]. exists {[b "7"; b "member"]}. split; [reflexivity|]. split; [reflexivity|].
        intros x. rewrite elem_of_union, !elem_of_singleton. intros [-> | ->]; (split; [by apply text_bytes|reflexivity]).
    + intros k t. cbn [db_expires sample_db]. rewrite lookup_singleton_Some. intros [<- <-]. split; [|split; [unfold in_s; lia|lia]]. cbn [db_dict sample_db]. by rewrite lookup_insert_eq.
  - done.
  - done.
  - intros sha body. by rewrite lookup_empty.
Qed.
Lemma rdb_file_witness : exists file r1 r2 st' db o so,
  rdbSaveRio true (fun _ => 0) (fun i => i) true sample_server 0 None [sample_db] ∅ (rioInitWithBuffer []) = Some (r1, true) /\ ptr (io r1) = file /\
  rdbLoadRio false (fun _ => 0) sample_server (length file) 0 (mk_loading [empty_db] 0 0 0 0 None ∅) (rioInitWithBuffer file) = Some (r2, Ok (Some st')) /\
  dbs st' !! 0%nat = Some db /\ db_dict db !! b "set" = Some o /\ o_val o = RSet so /\ set_content false so = {[b "7"; b "member"]} /\ db_expires db !! b "greeting" = Some 2000000.
Proof.
  destruct (rdb_file_roundtrip (B := buffer) (V := rvalue Empty_set) true false (fun _ => 0) (fun _ => 0) (fun i => i) true sample_server sample_server 0 0 [sample_db] None ∅ (mk_loading [empty_db] 0 0 0 0 None ∅))
    as (file & Hsave & Hload & _); [apply sample_ok|cbn; lia|cbn; lia|intros [|j] Hj; [done|cbn in Hj; lia]|].
  destruct (Hsave (rioInitWithBuffer [])) as (r1 & ok & Es & Hs); [split; cbn; unfold in_u; lia|done|done|].
  destruct ok; [|destruct Hs as (_ & _ & [Hf|(? & ? & Hf)]); done].
  destruct (Hload (length file) (rioInitWithBuffer file) []) as (r2 & st' & El & _ & Hst); [lia|split; cbn; unfold in_u; lia|by split|done|by rewrite app_nil_r|].
  destruct (la_dbs _ _ _ _ _ _ _ _ _ Hst 0%nat sample_db eq_refl) as (db & Edb & Hk). pose proof (Hk (b "set")) as Hset. pose proof (Hk (b "greeting")) as Hg.
  destruct Hset as ((o & Eo & Ec) & _). destruct Hg as (_ & Eg). destruct o as [[|so|[]] lru]; [done| ]. apply (inj inl), (inj inr) in Ec.
  exists file, r1, r2, st', db, (mk_robj (RSet so) lru), so. split; [done|]. split; [done|]. split; [done|]. split; [done|]. split; [done|]. split; [done|]. split; [|done]. rewrite Ec. reflexivity.
Defined.

(** A file of two AUX fields, whose second field was overwritten with an end
    of file. *)
Definition aux_head : list Z := [250; 1; 97; 1; 98].
Definition aux_field : list Z := [250; 5; 104; 101; 108; 108; 111; 1].
Definition overwritten : list Z := [255; 0; 0; 0; 0; 0; 0; 0].
Definition aux_tail : list Z := [0; 255].
Lemma rdb_corruption_witness :
  let magic := bytes_of_string "REDIS0009" in
  let r := rioInitWithBuffer ((magic ++ aux_head ++ overwritten ++ aux_tail) ++ le_bytes 8 (crc 0 (magic ++ aux_head ++ aux_field ++ aux_tail))) in
  exists r' st', rdbLoadRio (V := rvalue Empty_set) false (fun _ => 0) sample_server 20 0 (mk_loading [empty_db] 0 0 0 0 None ∅) r = Some (r', Ok (Some st')) /\ pending (io r') <> [].
Proof.
  cbv zeta. set (r := rioInitWithBuffer _). set (st := mk_loading _ 0 0 0 0 None ∅).
  assert (Hload : match rdbLoadRio false (fun _ => 0) sample_server 20 0 st r with Some (_, Ok (Some _)) => true | _ => false end = true) by (vm_compute; reflexivity).
  destruct (rdbLoadRio _ _ _ _ _ st r) as [[r' [[st'|]| |]]|] eqn:E; try discriminate Hload. exists r', st'. split; [done|].
  refine (rdb_corruption_detected false (fun _ => 0) sample_server 0 20 st st' r r' aux_head aux_field overwritten aux_tail _ _ _ _ _ _ _ _ _ _ _ _ E).
  - cbn. lia.
  - reflexivity.
  - split; cbn; unfold in_u; lia.
  - reflexivity.
  - by split.
  - by apply text_bytes.
  - by apply text_bytes.
  - reflexivity.
  - cbn. lia.
  - discriminate.
  - vm_compute. discriminate.
  - reflexivity.
Defined.
