(* ===== verification/Zskiplist.v ===== *)
(** * Skip lists of sorted sets (t_zset.c)

    The nodes live in a heap; each has a pointer to the previous node and, per
    level, a forward pointer with the number of nodes it spans.  A score is
    the 64 bits of an IEEE 754 double.  The skip list is related to the list
    of its rows (node, height, score, element), from which every forward
    pointer, span and backward pointer is determined; the operations are
    proved against the sorted list of scores and elements, whatever the random
    heights are. *)
From Stdlib Require Import Sorting.Sorted.
From S2P Require Import Prelude Sds.

(** ** Comparison of doubles *)
Definition magnitude (d : Z) : Z := Z.land d (2 ^ 63 - 1).
Definition isnan (d : Z) : bool := magnitude d >? 0x7FF0000000000000.
(** Doubles are ordered as sign and magnitude; the two zeros are equal. *)
Definition dord (d : Z) : Z := if Z.testbit d 63 then - magnitude d else magnitude d.
Definition ordered (a b : Z) : bool := negb (isnan a) && negb (isnan b).
Definition dlt (a b : Z) : bool := ordered a b && (dord a <? dord b).
Definition dle (a b : Z) : bool := ordered a b && (dord a <=? dord b).
Definition deq (a b : Z) : bool := ordered a b && (dord a =? dord b).

(** ** The heap *)
Abbreviation ptr := (option positive).
Record zskiplistNode := mk_znode { z_ele : option (list Z); z_score : Z; z_backward : ptr; z_level : list (ptr * Z) }.
Abbreviation zheap := (gmap positive zskiplistNode).
Record zskiplist := mk_zsl { zsl_header : positive; zsl_tail : ptr; zsl_length : Z; zsl_level : Z }.
Definition ZSKIPLIST_MAXLEVEL : Z := 32.

(** What zmalloc returns: an unused address, and what the memory holds. *)
Class NodeAllocator := {
  new_addr : zheap -> positive;
  new_fresh m : m !! new_addr m = None;
  junk_back : ptr;
  junk_level : nat -> ptr * Z
}.

Definition lev (m : zheap) (x : positive) (i : nat) : option (ptr * Z) := n ← m !! x; z_level n !! i.
Definition set_lev (m : zheap) (x : positive) (i : nat) (v : ptr * Z) : option zheap :=
  n ← m !! x; _ ← z_level n !! i;
  Some (<[x := mk_znode (z_ele n) (z_score n) (z_backward n) (<[i := v]> (z_level n))]> m).
Definition set_back (m : zheap) (x : positive) (b : ptr) : option zheap :=
  n ← m !! x; Some (<[x := mk_znode (z_ele n) (z_score n) b (z_level n)]> m).
Definition set_score (m : zheap) (x : positive) (s : Z) : option zheap :=
  n ← m !! x; Some (<[x := mk_znode (z_ele n) s (z_backward n) (z_level n)]> m).
Definition set_tail (zsl : zskiplist) (t : ptr) : zskiplist := mk_zsl (zsl_header zsl) t (zsl_length zsl) (zsl_level zsl).
Definition set_length (zsl : zskiplist) (n : Z) : zskiplist := mk_zsl (zsl_header zsl) (zsl_tail zsl) n (zsl_level zsl).
Definition set_zlevel (zsl : zskiplist) (l : Z) : zskiplist := mk_zsl (zsl_header zsl) (zsl_tail zsl) (zsl_length zsl) l.
Definition zslFreeNode (m : zheap) (x : positive) : option zheap := _ ← m !! x; Some (delete x m).

(** [for (i = ...; ...; i++)] over levels. *)
Fixpoint for_levels (body : zheap -> nat -> option zheap) (m : zheap) (levels : list nat) : option zheap :=
  match levels with
  | [] => Some m
  | i :: levels => m ← body m i; for_levels body m levels
  end.

(** ** Searching *)
(** One level: [while (x->level[i].forward && ...)].  The condition sees the
    next node and the rank it would be reached with; [w] is the width of the
    rank. *)
Fixpoint walk (w : Z) (fuel : nat) (m : zheap) (cond : zskiplistNode -> Z -> bool) (i : nat) (x : positive) (rank : Z) : option (positive * Z) :=
  '(f, span) ← lev m x i;
  match f with
  | None => Some (x, rank)
  | Some y =>
      n ← m !! y;
      let rank' := wrapu w (rank + span) in
      if cond n rank' then match fuel with O => None | S fuel => walk w fuel m cond i y rank' end
      else Some (x, rank)
  end.
(** All levels from the highest: the arrays [update] and [rank]. *)
Fixpoint search (w : Z) (fuel : nat) (m : zheap) (cond : zskiplistNode -> Z -> bool) (levels : nat) (x : positive) (rank : Z) : option (list (positive * Z)) :=
  match levels with
  | O => Some []
  | S i =>
      '(x, rank) ← walk w fuel m cond i x rank;
      rest ← search w fuel m cond i x rank;
      Some (rest ++ [(x, rank)])
  end.
Definition seek (w : Z) (m : zheap) (zsl : zskiplist) (cond : zskiplistNode -> Z -> bool) : option (list (positive * Z)) :=
  search w (Z.to_nat (zsl_length zsl)) m cond (Z.to_nat (zsl_level zsl)) (zsl_header zsl) 0.
(** The node the search ends at: [update[0]]. *)
Definition found (ur : list (positive * Z)) (zsl : zskiplist) : positive := match ur with (x, _) :: _ => x | [] => zsl_header zsl end.

(** [sdscmp] on the element of a node, which the header does not have. *)
Definition elecmp (n : zskiplistNode) (ele : list Z) : Z := match z_ele n with Some e => lex_cmp e ele | None => 0 end.
Definition before (score : Z) (ele : list Z) (n : zskiplistNode) (_ : Z) : bool :=
  dlt (z_score n) score || (deq (z_score n) score && (elecmp n ele <? 0)).

(** ** Operations *)
Section Skiplist.
  Context `{NodeAllocator}.

Definition zslCreateNode (level : Z) (score : Z) (ele : option (list Z)) : zskiplistNode :=
  mk_znode ele score junk_back (map junk_level (seq 0 (Z.to_nat level))).
Definition zslCreate (m : zheap) : option (zheap * zskiplist) :=
  let x := new_addr m in
  let m := <[x := zslCreateNode ZSKIPLIST_MAXLEVEL 0 None]> m in
  m ← for_levels (fun m j => set_lev m x j (None, 0)) m (seq 0 (Z.to_nat ZSKIPLIST_MAXLEVEL));
  m ← set_back m x None;
  Some (m, mk_zsl x None 0 1).

Fixpoint free_loop (fuel : nat) (m : zheap) (node : ptr) : option zheap :=
  match node with
  | None => Some m
  | Some x =>
      match fuel with
      | O => None
      | S fuel => '(next, _) ← lev m x 0; m ← zslFreeNode m x; free_loop fuel m next
      end
  end.
Definition zslFree (m : zheap) (zsl : zskiplist) : option zheap :=
  '(node, _) ← lev m (zsl_header zsl) 0;
  m ← zslFreeNode m (zsl_header zsl);
  free_loop (Z.to_nat (zsl_length zsl)) m node.

(** The values random() returns are an argument; [random() & 0xFFFF] is less
    than [0.25 * 0xFFFF = 16383.75].  [None]: the values are used up, or the
    int overflows. *)
Fixpoint level_loop (draws : list Z) (level : Z) : option (Z * list Z) :=
  match draws with
  | [] => None
  | r :: draws =>
      if Z.land r 0xFFFF <=? 16383 then if level <? 2147483647 then level_loop draws (level + 1) else None
      else Some (level, draws)
  end.
Definition zslRandomLevel (draws : list Z) : option (Z * list Z) :=
  '(level, draws) ← level_loop draws 1;
  Some (if level <? ZSKIPLIST_MAXLEVEL then level else ZSKIPLIST_MAXLEVEL, draws).

(** The bodies of the three loops: the new levels of the list, the levels of
    the new node, the levels above it. *)
Definition raise_level (header : positive) (length : Z) (m : zheap) (i : nat) : option zheap :=
  '(f, _) ← lev m header i; set_lev m header i (f, length).
Definition link_level (x : positive) (ur : list (positive * Z)) (rank0 : Z) (m : zheap) (i : nat) : option zheap :=
  '(u, r) ← ur !! i;
  '(f, span) ← lev m u i;
  m ← set_lev m x i (f, u64 (span - u32 (rank0 - r)));
  set_lev m u i (Some x, u32 (u32 (rank0 - r) + 1)).
Definition stretch_level (ur : list (positive * Z)) (m : zheap) (i : nat) : option zheap :=
  '(u, _) ← ur !! i; '(f, span) ← lev m u i; set_lev m u i (f, u64 (span + 1)).

Definition zslInsert (m : zheap) (zsl : zskiplist) (score : Z) (ele : list Z) (draws : list Z) : option (zheap * zskiplist * positive * list Z) :=
  if isnan score then None
  else
    ur ← seek 32 m zsl (before score ele);
    '(level, draws) ← zslRandomLevel draws;
    '(m, zsl, ur) ← (if level >? zsl_level zsl then
        let more := Z.to_nat (level - zsl_level zsl) in
        m ← for_levels (raise_level (zsl_header zsl) (zsl_length zsl)) m (seq (Z.to_nat (zsl_level zsl)) more);
        Some (m, set_zlevel zsl level, ur ++ replicate more (zsl_header zsl, 0))
      else Some (m, zsl, ur));
    let x := new_addr m in
    let m := <[x := zslCreateNode level score (Some ele)]> m in
    '(u0, rank0) ← ur !! 0%nat;
    m ← for_levels (link_level x ur rank0) m (seq 0 (Z.to_nat level));
    m ← for_levels (stretch_level ur) m (seq (Z.to_nat level) (Z.to_nat (zsl_level zsl - level)));
    m ← set_back m x (if bool_decide (u0 = zsl_header zsl) then None else Some u0);
    '(f, _) ← lev m x 0;
    '(m, zsl) ← match f with
                | Some y => m ← set_back m y (Some x); Some (m, zsl)
                | None => Some (m, set_tail zsl (Some x))
                end;
    Some (m, set_length zsl (u64 (zsl_length zsl + 1)), x, draws).

Definition unlink_level (x : positive) (upd : list positive) (m : zheap) (i : nat) : option zheap :=
  u ← upd !! i;
  '(f, span) ← lev m u i;
  if bool_decide (f = Some x) then '(fx, sx) ← lev m x i; set_lev m u i (fx, u64 (span + (sx - 1)))
  else set_lev m u i (f, u64 (span - 1)).
(** [while(zsl->level > 1 && zsl->header->level[zsl->level-1].forward == NULL)] *)
Fixpoint shrink_loop (m : zheap) (header : positive) (level : nat) : option nat :=
  match level with
  | S (S l as level') =>
      '(f, _) ← lev m header level';
      match f with None => shrink_loop m header level' | Some _ => Some level end
  | _ => Some level
  end.
Definition zslDeleteNode (m : zheap) (zsl : zskiplist) (x : positive) (upd : list positive) : option (zheap * zskiplist) :=
  m ← for_levels (unlink_level x upd) m (seq 0 (Z.to_nat (zsl_level zsl)));
  n ← m !! x;
  '(f, _) ← z_level n !! 0%nat;
  '(m, zsl) ← match f with
              | Some y => m ← set_back m y (z_backward n); Some (m, zsl)
              | None => Some (m, set_tail zsl (z_backward n))
              end;
  level ← shrink_loop m (zsl_header zsl) (Z.to_nat (zsl_level zsl));
  Some (m, set_length (set_zlevel zsl (Z.of_nat level)) (u64 (zsl_length zsl - 1))).

(** With [node == NULL]: the node is freed. *)
Definition zslDelete (m : zheap) (zsl : zskiplist) (score : Z) (ele : list Z) : option (zheap * zskiplist * bool) :=
  ur ← seek 64 m zsl (before score ele);
  '(f, _) ← lev m (found ur zsl) 0;
  match f with
  | None => Some (m, zsl, false)
  | Some x =>
      n ← m !! x;
      if deq score (z_score n) && (elecmp n ele =? 0) then
        '(m, zsl) ← zslDeleteNode m zsl x ur.*1;
        m ← zslFreeNode m x;
        Some (m, zsl, true)
      else Some (m, zsl, false)
  end.

Definition zslUpdateScore (m : zheap) (zsl : zskiplist) (curscore : Z) (ele : list Z) (newscore : Z) (draws : list Z) : option (zheap * zskiplist * positive * list Z) :=
  ur ← seek 64 m zsl (before curscore ele);
  '(f, _) ← lev m (found ur zsl) 0;
  x ← f;
  n ← m !! x;
  if negb (deq curscore (z_score n) && (elecmp n ele =? 0)) then None
  else
    below ← match z_backward n with None => Some true | Some b => nb ← m !! b; Some (dlt (z_score nb) newscore) end;
    '(f0, _) ← z_level n !! 0%nat;
    above ← match f0 with None => Some true | Some y => ny ← m !! y; Some (dlt newscore (z_score ny)) end;
    if (below : bool) && (above : bool) then m ← set_score m x newscore; Some (m, zsl, x, draws)
    else
      '(m, zsl) ← zslDeleteNode m zsl x ur.*1;
      e ← z_ele n;
      '(m, zsl, y, draws) ← zslInsert m zsl newscore e draws;
      m ← zslFreeNode m x;
      Some (m, zsl, y, draws).
End Skiplist.

(** ** Ranges of scores *)
Record zrangespec := mk_range { r_min : Z; r_max : Z; r_minex : bool; r_maxex : bool }.
Definition zslValueGteMin (value : Z) (spec : zrangespec) : bool := if r_minex spec then dlt (r_min spec) value else dle (r_min spec) value.
Definition zslValueLteMax (value : Z) (spec : zrangespec) : bool := if r_maxex spec then dlt value (r_max spec) else dle value (r_max spec).

(** The test that something is in range, on the first and the last node. *)
Definition in_range (m : zheap) (zsl : zskiplist) (gte lte : zskiplistNode -> bool) : option bool :=
  match zsl_tail zsl with
  | None => Some false
  | Some t =>
      nt ← m !! t;
      if negb (gte nt) then Some false
      else
        '(f, _) ← lev m (zsl_header zsl) 0;
        match f with
        | None => Some false
        | Some x => nx ← m !! x; Some (lte nx)
        end
  end.
Definition zslIsInRange (m : zheap) (zsl : zskiplist) (range : zrangespec) : option bool :=
  if dlt (r_max range) (r_min range) || (deq (r_min range) (r_max range) && (r_minex range || r_maxex range)) then Some false
  else in_range m zsl (fun n => zslValueGteMin (z_score n) range) (fun n => zslValueLteMax (z_score n) range).

(** The searches once something is known to be in range. *)
Definition first_in (m : zheap) (zsl : zskiplist) (gte lte : zskiplistNode -> bool) : option ptr :=
  ur ← seek 64 m zsl (fun n _ => negb (gte n));
  '(f, _) ← lev m (found ur zsl) 0;
  x ← f;
  n ← m !! x;
  Some (if negb (lte n) then None else Some x).
Definition last_in (m : zheap) (zsl : zskiplist) (gte lte : zskiplistNode -> bool) : option ptr :=
  ur ← seek 64 m zsl (fun n _ => lte n);
  n ← m !! found ur zsl;
  Some (if negb (gte n) then None else Some (found ur zsl)).
Definition zslFirstInRange (m : zheap) (zsl : zskiplist) (range : zrangespec) : option ptr :=
  b ← zslIsInRange m zsl range;
  if negb b then Some None else first_in m zsl (fun n => zslValueGteMin (z_score n) range) (fun n => zslValueLteMax (z_score n) range).
Definition zslLastInRange (m : zheap) (zsl : zskiplist) (range : zrangespec) : option ptr :=
  b ← zslIsInRange m zsl range;
  if negb b then Some None else last_in m zsl (fun n => zslValueGteMin (z_score n) range) (fun n => zslValueLteMax (z_score n) range).

(** [while (x && ...)]: nodes are unlinked, removed from the hash table and
    freed.  The condition sees the node and the number of nodes traversed. *)
Fixpoint delete_loop {A} (fuel : nat) (m : zheap) (zsl : zskiplist) (dict : gmap (list Z) A) (cond : zskiplistNode -> Z -> bool) (upd : list positive) (x : ptr) (traversed removed : Z)
  : option (zheap * zskiplist * gmap (list Z) A * Z) :=
  match x with
  | None => Some (m, zsl, dict, removed)
  | Some a =>
      n ← m !! a;
      if cond n traversed then
        match fuel with
        | O => None
        | S fuel =>
            '(next, _) ← z_level n !! 0%nat;
            '(m, zsl) ← zslDeleteNode m zsl a upd;
            e ← z_ele n;
            m ← zslFreeNode m a;
            delete_loop fuel m zsl (delete e dict) cond upd next (u64 (traversed + 1)) (u64 (removed + 1))
        end
      else Some (m, zsl, dict, removed)
  end.
Definition delete_range {A} (m : zheap) (zsl : zskiplist) (dict : gmap (list Z) A) (skip keep : zskiplistNode -> Z -> bool) : option (zheap * zskiplist * gmap (list Z) A * Z) :=
  ur ← seek 64 m zsl skip;
  '(_, traversed) ← (match ur with u :: _ => Some u | [] => None end);
  '(f, _) ← lev m (found ur zsl) 0;
  delete_loop (Z.to_nat (zsl_length zsl)) m zsl dict keep ur.*1 f (u64 (traversed + 1)) 0.
Definition zslDeleteRangeByScore {A} (m : zheap) (zsl : zskiplist) (range : zrangespec) (dict : gmap (list Z) A) : option (zheap * zskiplist * gmap (list Z) A * Z) :=
  delete_range m zsl dict
    (fun n _ => if r_minex range then dle (z_score n) (r_min range) else dlt (z_score n) (r_min range))
    (fun n _ => if r_maxex range then dlt (z_score n) (r_max range) else dle (z_score n) (r_max range)).
Definition zslDeleteRangeByRank {A} (m : zheap) (zsl : zskiplist) (start stop : Z) (dict : gmap (list Z) A) : option (zheap * zskiplist * gmap (list Z) A * Z) :=
  delete_range m zsl dict (fun _ rank => rank <? start) (fun _ traversed => traversed <=? stop).

(** ** Ranks *)
Definition upto (score : Z) (ele : list Z) (n : zskiplistNode) (_ : Z) : bool :=
  dlt (z_score n) score || (deq (z_score n) score && (elecmp n ele <=? 0)).
Definition is_ele (n : zskiplistNode) (ele : list Z) : bool := match z_ele n with Some e => lex_cmp e ele =? 0 | None => false end.
(** The loop over the levels, left as soon as [stop] holds. *)
Fixpoint rank_loop (fuel : nat) (m : zheap) (cond : zskiplistNode -> Z -> bool) (stop : zskiplistNode -> Z -> bool) (levels : nat) (x : positive) (rank : Z) : option (option (positive * Z)) :=
  match levels with
  | O => Some None
  | S i =>
      '(x, rank) ← walk 64 fuel m cond i x rank;
      n ← m !! x;
      if stop n rank then Some (Some (x, rank)) else rank_loop fuel m cond stop i x rank
  end.
Definition zslGetRank (m : zheap) (zsl : zskiplist) (score : Z) (ele : list Z) : option Z :=
  r ← rank_loop (Z.to_nat (zsl_length zsl)) m (upto score ele) (fun n _ => is_ele n ele) (Z.to_nat (zsl_level zsl)) (zsl_header zsl) 0;
  Some (match r with Some (_, rank) => rank | None => 0 end).
Definition zslGetElementByRank (m : zheap) (zsl : zskiplist) (rank : Z) : option ptr :=
  r ← rank_loop (Z.to_nat (zsl_length zsl)) m (fun _ reached => reached <=? rank) (fun _ traversed => traversed =? rank) (Z.to_nat (zsl_level zsl)) (zsl_header zsl) 0;
  Some (match r with Some (x, _) => Some x | None => None end).

(** ** Ranges of elements *)
(** shared.minstring, shared.maxstring or a string. *)
Inductive lexstr := MinString | MaxString | Str (s : list Z).
Record zlexrangespec := mk_lexrange { l_min : lexstr; l_max : lexstr; l_minex : bool; l_maxex : bool }.
Definition zslParseLexRangeItem (c : list Z) : option (lexstr * bool) :=
  match c ++ [0] with
  | 43 :: d :: _ => if negb (d =? 0) then None else Some (MaxString, true)
  | 45 :: d :: _ => if negb (d =? 0) then None else Some (MinString, true)
  | 40 :: _ => Some (Str (drop 1 c), true)
  | 91 :: _ => Some (Str (drop 1 c), false)
  | _ => None
  end.
(** Both arguments are strings that are not integer encoded. *)
Definition zslParseLexRange (min max : list Z) : option zlexrangespec :=
  '(mn, minex) ← zslParseLexRangeItem min; '(mx, maxex) ← zslParseLexRangeItem max; Some (mk_lexrange mn mx minex maxex).
Definition sdscmplex (a b : lexstr) : Z :=
  match a, b with
  | MinString, MinString | MaxString, MaxString => 0
  | MinString, _ | _, MaxString => -1
  | MaxString, _ | _, MinString => 1
  | Str a, Str b => lex_cmp a b
  end.
Definition zslLexValueGteMin (value : list Z) (spec : zlexrangespec) : bool :=
  if l_minex spec then sdscmplex (Str value) (l_min spec) >? 0 else sdscmplex (Str value) (l_min spec) >=? 0.
Definition zslLexValueLteMax (value : list Z) (spec : zlexrangespec) : bool :=
  if l_maxex spec then sdscmplex (Str value) (l_max spec) <? 0 else sdscmplex (Str value) (l_max spec) <=? 0.
Definition ele_test (f : list Z -> bool) (n : zskiplistNode) : bool := match z_ele n with Some e => f e | None => false end.
Definition zslIsInLexRange (m : zheap) (zsl : zskiplist) (range : zlexrangespec) : option bool :=
  let cmp := sdscmplex (l_min range) (l_max range) in
  if (cmp >? 0) || ((cmp =? 0) && (l_minex range || l_maxex range)) then Some false
  else in_range m zsl (ele_test (fun e => zslLexValueGteMin e range)) (ele_test (fun e => zslLexValueLteMax e range)).
Definition zslFirstInLexRange (m : zheap) (zsl : zskiplist) (range : zlexrangespec) : option ptr :=
  b ← zslIsInLexRange m zsl range;
  if negb b then Some None else first_in m zsl (ele_test (fun e => zslLexValueGteMin e range)) (ele_test (fun e => zslLexValueLteMax e range)).
Definition zslLastInLexRange (m : zheap) (zsl : zskiplist) (range : zlexrangespec) : option ptr :=
  b ← zslIsInLexRange m zsl range;
  if negb b then Some None else last_in m zsl (ele_test (fun e => zslLexValueGteMin e range)) (ele_test (fun e => zslLexValueLteMax e range)).
Definition zslDeleteRangeByLex {A} (m : zheap) (zsl : zskiplist) (range : zlexrangespec) (dict : gmap (list Z) A) : option (zheap * zskiplist * gmap (list Z) A * Z) :=
  delete_range m zsl dict (fun n _ => negb (ele_test (fun e => zslLexValueGteMin e range) n)) (fun n _ => ele_test (fun e => zslLexValueLteMax e range) n).

(** ** Rows *)
Record row := mk_row { r_addr : positive; r_h : nat; r_score : Z; r_ele : list Z }.
(** The forward pointer and the span at level [i] of a node the rows [post]
    follow; without a next node the span reaches the end. *)
Fixpoint fwd (i : nat) (post : list row) : ptr * Z :=
  match post with
  | [] => (None, 0)
  | r :: post => if decide (i < r_h r)%nat then (Some (r_addr r), 1) else let '(f, s) := fwd i post in (f, s + 1)
  end.
Abbreviation low i := (Forall (fun r => (r_h r <= i)%nat)).
Definition last_addr (l : list row) : ptr := r_addr <$> last l.
Definition maxh (l : list row) : nat := foldr (fun r n => Nat.max (r_h r) n) 1%nat l.

Lemma fwd_low i b q : low i b -> fwd i (b ++ q) = ((fwd i q).1, (fwd i q).2 + zlen b).
Proof.
  intros Hb. induction Hb as [|r b Hr Hb IH]; cbn [app fwd]; [by destruct (fwd i q); rewrite Z.add_0_r|].
  rewrite decide_False by lia. rewrite IH, zlen_cons. f_equal. lia.
Qed.
Lemma fwd_high i b q q' : ~ low i b -> fwd i (b ++ q) = fwd i (b ++ q').
Proof.
  induction b as [|r b IH]; intros Hb; [destruct Hb; constructor|]. cbn [app fwd]. destruct (decide (i < r_h r)%nat); [done|].
  rewrite IH; [done|]. intros Hl. apply Hb. constructor; [lia|done].
Qed.
Lemma low_split i b : low i b \/ exists c r d, b = c ++ r :: d /\ low i c /\ (i < r_h r)%nat.
Proof.
  induction b as [|r b IH]; [by left|]. destruct (decide (i < r_h r)%nat) as [Hr|Hr]; [right; by exists [], r, b|].
  destruct IH as [Hl|(c & r' & d & -> & Hc & Hr')]; [left; constructor; [lia|done]|right; exists (r :: c), r', d]. split; [done|]. split; [constructor; [lia|done]|done].
Qed.
Lemma fwd_next i c r q : low i c -> (i < r_h r)%nat -> fwd i (c ++ r :: q) = (Some (r_addr r), zlen c + 1).
Proof. intros Hc Hr. rewrite fwd_low by done. cbn [fwd]. rewrite decide_True by done. cbn. f_equal. lia. Qed.
Lemma fwd_nil i q : low i q -> fwd i q = (None, zlen q).
Proof. intros Hq. rewrite <- (app_nil_r q) at 1. by rewrite fwd_low. Qed.
Lemma fwd_range i q : 0 <= (fwd i q).2 <= zlen q.
Proof.
  destruct (low_split i q) as [Hl|(c & r & d & -> & Hc & Hr)]; [rewrite fwd_nil by done; pose proof (zlen_nonneg q); cbn; lia|].
  rewrite fwd_next by done. rewrite zlen_app, zlen_cons. pose proof (zlen_nonneg c). pose proof (zlen_nonneg d). cbn. lia.
Qed.
Lemma maxh_cons r l : maxh (r :: l) = Nat.max (r_h r) (maxh l).
Proof. done. Qed.
Lemma maxh_pos l : (1 <= maxh l)%nat.
Proof. induction l; [done|]. rewrite maxh_cons. lia. Qed.
Lemma low_maxh i l : (maxh l <= i)%nat -> low i l.
Proof. induction l as [|r l IH]; [constructor|]. rewrite maxh_cons. intros Hl. constructor; [lia|apply IH; lia]. Qed.
Lemma maxh_ge l r : r ∈ l -> (r_h r <= maxh l)%nat.
Proof. induction 1; rewrite maxh_cons; lia. Qed.
Lemma maxh_app a b : maxh (a ++ b) = Nat.max (maxh a) (maxh b).
Proof. induction a as [|r a IH]; cbn [app]; [pose proof (maxh_pos b); cbn [maxh foldr]; lia|]. rewrite !maxh_cons, IH. lia. Qed.

(** ** Heap changes *)
(** Nothing but the cells changed. *)
Definition frame (m m' : zheap) : Prop := forall a,
  match m !! a, m' !! a with
  | Some n, Some n' => z_ele n' = z_ele n /\ z_score n' = z_score n /\ z_backward n' = z_backward n /\ length (z_level n') = length (z_level n)
  | None, None => True
  | _, _ => False
  end.
Lemma frame_refl m : frame m m.
Proof. intros a. by destruct (m !! a). Qed.
Lemma frame_trans m1 m2 m3 : frame m1 m2 -> frame m2 m3 -> frame m1 m3.
Proof. intros H1 H2 a. specialize (H1 a). specialize (H2 a). destruct (m1 !! a), (m2 !! a), (m3 !! a); naive_solver congruence. Qed.
Lemma frame_some m m' a n : frame m m' -> m !! a = Some n -> exists n', m' !! a = Some n' /\ z_ele n' = z_ele n /\ z_score n' = z_score n /\ z_backward n' = z_backward n /\ length (z_level n') = length (z_level n).
Proof. intros Hf E. specialize (Hf a). rewrite E in Hf. destruct (m' !! a); [eauto|done]. Qed.
Lemma frame_dom m m' a : frame m m' -> m !! a = None <-> m' !! a = None.
Proof. intros Hf. specialize (Hf a). by destruct (m !! a), (m' !! a). Qed.
Lemma lev_some m a n : m !! a = Some n -> forall i, lev m a i = z_level n !! i.
Proof. intros E i. unfold lev. by rewrite E. Qed.
Lemma set_lev_spec m x i v c : lev m x i = Some c -> exists m', set_lev m x i v = Some m' /\ frame m m' /\
  (forall a j, a <> x \/ j <> i -> lev m' a j = lev m a j) /\ lev m' x i = Some v.
Proof.
  unfold lev, set_lev. intros E. destruct (m !! x) as [n|] eqn:En; [|done]. cbn [mbind option_bind] in *. rewrite E. cbn [mbind option_bind].
  eexists. split; [done|]. split; [|split].
  - intros a. destruct (decide (a = x)) as [->|Ha]; [rewrite lookup_insert_eq, En; cbn; by rewrite length_insert|rewrite lookup_insert_ne by done; by destruct (m !! a)].
  - intros a j Hne. destruct (decide (a = x)) as [->|Ha]; [|by rewrite lookup_insert_ne]. rewrite lookup_insert_eq, En. cbn. destruct Hne as [|Hj]; [done|]. by rewrite list_lookup_insert_ne.
  - rewrite lookup_insert_eq. cbn. rewrite list_lookup_insert_eq; [done|]. by apply lookup_lt_Some in E.
Qed.
(** A loop whose body at level [i] changes only the cells of level [i]. *)
Definition changes (m m' : zheap) (i : nat) (new : positive -> option (ptr * Z)) : Prop :=
  frame m m' /\ (forall a j, j <> i -> lev m' a j = lev m a j) /\ (forall a, lev m' a i = new a).
Lemma for_levels_spec body (new : nat -> positive -> option (ptr * Z)) levels : forall m,
  (forall m1 i, i ∈ levels -> frame m m1 -> (forall a, lev m1 a i = lev m a i) -> exists m2, body m1 i = Some m2 /\ changes m1 m2 i (new i)) -> NoDup levels ->
  exists m', for_levels body m levels = Some m' /\ frame m m' /\ (forall a j, j ∈ levels -> lev m' a j = new j a) /\ (forall a j, j ∉ levels -> lev m' a j = lev m a j).
Proof.
  induction levels as [|i levels IH]; intros m Hb Hnd; cbn [for_levels]; [exists m; split; [done|]; split; [apply frame_refl|]; split; [by intros a j Hj; apply elem_of_nil in Hj|done]|].
  apply NoDup_cons in Hnd as [Hi Hnd]. destruct (Hb m i (list_elem_of_here _ _) (frame_refl m)) as (m1 & -> & Hf & Ho & Hn); [done|]. cbn [mbind option_bind].
  destruct (IH m1) as (m' & -> & Hf' & Hin & Hout); [|done|].
  { intros m2 j Hj Hf2 Hl2. destruct (Hb m2 j (list_elem_of_further _ _ _ Hj)) as (m3 & E & Hc); [by apply (frame_trans m m1)| |eauto]. intros a. rewrite Hl2. apply Ho. by intros ->. }
  exists m'. split; [done|]. split; [by apply (frame_trans m m1)|]. split.
  - intros a j Hj. apply elem_of_cons in Hj as [-> |Hj]; [by rewrite Hout by done|by apply Hin].
  - intros a j Hj. apply not_elem_of_cons in Hj as [Hj1 Hj2]. rewrite Hout by done. by apply Ho.
Qed.

(** ** Searching *)
Section Search.
  Context (m : zheap) (all : list row) (w : Z) (Hw : 0 <= w).
Definition cells_ok (m : zheap) (all : list row) : Prop := forall a r post i, all = a ++ r :: post -> (i < r_h r)%nat -> lev m (r_addr r) i = Some (fwd i post).
(** The condition holds of the rows before the position [K] only. *)
Definition cut (cond : zskiplistNode -> Z -> bool) (K : nat) : Prop := forall a r post, all = a ++ r :: post -> a <> [] ->
  exists n, m !! r_addr r = Some n /\ cond n (zlen a) = (length a <? K)%nat.
(** [u] is the last row of [pre] at level [i], at position [k]. *)
Definition last_at (pre : list row) (i : nat) (u : positive) (k : Z) : Prop := exists a r b, pre = a ++ r :: b /\ (i < r_h r)%nat /\ low i b /\ u = r_addr r /\ k = zlen a.

  Context (Hc : cells_ok m all) (Hlen : zlen all < 2 ^ w).
Lemma walk_spec cond pre post i : cut cond (length pre) -> all = pre ++ post -> forall fuel a r b, pre = a ++ r :: b -> (i < r_h r)%nat -> (length b <= fuel)%nat ->
  exists a' r' b', walk w fuel m cond i (r_addr r) (zlen a) = Some (r_addr r', zlen a') /\ pre = a' ++ r' :: b' /\ (i < r_h r')%nat /\ low i b' /\ (length b' <= length b)%nat.
Proof.
  intros Hcut ->. induction fuel as [fuel IH] using lt_wf_ind. intros a r b -> Hr Hf.
  assert (El : lev m (r_addr r) i = Some (fwd i (b ++ post))) by (apply (Hc a r (b ++ post)); [by rewrite <- app_assoc|done]).
  assert (Hrank : forall c r' d, (a ++ r :: b) ++ post = (a ++ r :: c) ++ r' :: d -> wrapu w (zlen a + (zlen c + 1)) = zlen (a ++ r :: c)).
  { intros c r' d E. rewrite zlen_app, zlen_cons. rewrite wrapu_small; [lia|]. rewrite E in Hlen. rewrite !zlen_app, !zlen_cons in Hlen. pose proof (zlen_nonneg a). pose proof (zlen_nonneg c). pose proof (zlen_nonneg d). unfold in_u. lia. }
  assert (Hwalk : walk w fuel m cond i (r_addr r) (zlen a) = '(f, span) ← Some (fwd i (b ++ post));
    match f with None => Some (r_addr r, zlen a) | Some y => n ← m !! y; let rank' := wrapu w (zlen a + span) in if cond n rank' then match fuel with O => None | S fuel => walk w fuel m cond i y rank' end else Some (r_addr r, zlen a) end) by (rewrite <- El; by destruct fuel).
  rewrite Hwalk. clear Hwalk El. cbn [mbind option_bind]. destruct (low_split i b) as [Hl|(c & r' & d & -> & Hlc & Hr')].
  - assert (Hstop : exists a' r' b', Some (r_addr r, zlen a) = Some (r_addr r', zlen a') /\ a ++ r :: b = a' ++ r' :: b' /\ (i < r_h r')%nat /\ low i b' /\ (length b' <= length b)%nat) by (by exists a, r, b).
    destruct (low_split i post) as [Hp|(c & r' & d & -> & Hlc & Hr')]; [by rewrite fwd_nil by (by apply Forall_app)|].
    rewrite (app_assoc b c). rewrite fwd_next by (done || by apply Forall_app). destruct (Hcut ((a ++ r :: b) ++ c) r' d) as (n & -> & Ec); [by list_simplifier|by destruct a|]. cbn [mbind option_bind].
    rewrite (Hrank (b ++ c) r' d) by (by list_simplifier). rewrite app_comm_cons, (app_assoc a). rewrite Ec, (proj2 (Nat.ltb_ge _ _)); [done|]. rewrite !length_app. lia.
  - rewrite <- app_assoc, <- app_comm_cons, fwd_next by done. destruct (Hcut (a ++ r :: c) r' (d ++ post)) as (n & -> & Ec); [by list_simplifier|by destruct a|]. cbn [mbind option_bind].
    rewrite (Hrank c r' (d ++ post)) by (by list_simplifier). cbv zeta. rewrite Ec, (proj2 (Nat.ltb_lt _ _)) by (rewrite !length_app; cbn; rewrite length_app; cbn; lia).
    destruct fuel as [|fuel]; [rewrite length_app in Hf; cbn in Hf; lia|]. destruct (IH fuel ltac:(lia) (a ++ r :: c) r' d) as (a' & r2 & b' & E & Ep & Hr2 & Hb' & Hl'); [by rewrite <- app_assoc|done|rewrite length_app in Hf; cbn in Hf; lia|].
    exists a', r2, b'. split; [done|]. split; [done|]. split; [done|]. split; [done|]. rewrite length_app. cbn. lia.
Qed.
Lemma zsl_search_spec cond pre post fuel : cut cond (length pre) -> all = pre ++ post -> (length pre <= S fuel)%nat -> forall levels a r b, pre = a ++ r :: b -> (levels <= r_h r)%nat ->
  exists ur, search w fuel m cond levels (r_addr r) (zlen a) = Some ur /\ length ur = levels /\ forall i, (i < levels)%nat -> exists u k, ur !! i = Some (u, k) /\ last_at pre i u k.
Proof.
  intros Hcut Eall Hf. induction levels as [|i IH]; intros a r b Ep Hr; cbn [search]; [exists []; split; [done|]; split; [done|lia]|].
  destruct (walk_spec cond pre post i Hcut Eall fuel a r b Ep ltac:(lia)) as (a' & r' & b' & -> & Ep' & Hr' & Hb' & _); [rewrite Ep, length_app in Hf; cbn in Hf; lia|]. cbn [mbind option_bind].
  destruct (IH a' r' b' Ep' ltac:(lia)) as (ur & -> & Hl & Hur). cbn [mbind option_bind]. exists (ur ++ [(r_addr r', zlen a')]). split; [done|]. split; [rewrite length_app; cbn; lia|].
  intros j Hj. destruct (decide (j = i)) as [->|Hji].
  - exists (r_addr r'), (zlen a'). split; [by rewrite lookup_app_r, Hl, Nat.sub_diag by lia|]. by exists a', r', b'.
  - destruct (Hur j ltac:(lia)) as (u & k & E & Hat). exists u, k. split; [by rewrite lookup_app_l by lia|done].
Qed.
End Search.

(** ** The representation *)
Definition hrow (hd : positive) (L : nat) : row := mk_row hd L 0 [].
Definition is_row (m : zheap) (r : row) (back : ptr) : Prop :=
  exists n, m !! r_addr r = Some n /\ z_ele n = Some (r_ele r) /\ z_score n = r_score r /\ z_backward n = back /\ length (z_level n) = r_h r.
Record shape (m : zheap) (hd : positive) (L : nat) (rows : list row) : Prop := {
  sh_cells : cells_ok m (hrow hd L :: rows);
  sh_high i : (L <= i < 32)%nat -> exists s, lev m hd i = Some (None, s);
  sh_head : exists n, m !! hd = Some n /\ z_ele n = None /\ z_backward n = None /\ length (z_level n) = 32%nat;
  sh_rows a r c : rows = a ++ r :: c -> is_row m r (last_addr a);
  sh_nodup : NoDup (hd :: map r_addr rows);
  sh_heights : Forall (fun r => (1 <= r_h r <= L)%nat) rows;
  sh_level : (1 <= L <= 32)%nat
}.
Record zsl_ok (m : zheap) (zsl : zskiplist) (rows : list row) : Prop := {
  ok_shape : shape m (zsl_header zsl) (Z.to_nat (zsl_level zsl)) rows;
  ok_tail : zsl_tail zsl = last_addr rows;
  ok_length : zsl_length zsl = zlen rows;
  ok_level : zsl_level zsl = Z.of_nat (maxh rows)
}.

Lemma last_addr_snoc l r : last_addr (l ++ [r]) = Some (r_addr r).
Proof. unfold last_addr. by rewrite last_snoc. Qed.
Lemma last_addr_app l r d : last_addr (l ++ r :: d) = last_addr (r :: d).
Proof. unfold last_addr. rewrite last_app_cons. done. Qed.

(** What a search that stops after [p] finds at each level. *)
Definition found_at (hd : positive) (L : nat) (p : list row) (ur : list (positive * Z)) : Prop :=
  length ur = L /\ forall i, (i < L)%nat -> exists u k, ur !! i = Some (u, k) /\ last_at (hrow hd L :: p) i u k.
(** [cond] separates the rows [p] from the rows after them. *)
Definition splits (cond : zskiplistNode -> Z -> bool) (p rows : list row) : Prop := forall a r c n, rows = a ++ r :: c ->
  z_ele n = Some (r_ele r) -> z_score n = r_score r -> cond n (zlen a + 1) = (length a <? length p)%nat.
Lemma splits_cut m hd L rows cond p : shape m hd L rows -> splits cond p rows -> cut m (hrow hd L :: rows) cond (S (length p)).
Proof.
  intros Hs Hc a r post E Ha. destruct a as [|r0 a]; [done|]. injection E as <- ->. destruct (sh_rows _ _ _ _ Hs a r post eq_refl) as (n & En & He & Hsc & _). exists n. split; [done|].
  rewrite zlen_cons, Z.add_comm. by rewrite (Hc a r post n).
Qed.
Lemma seek_shape m hd L rows w cond p q fuel : shape m hd L rows -> rows = p ++ q -> splits cond p rows -> zlen rows + 1 < 2 ^ w -> 0 <= w -> (length rows <= fuel)%nat ->
  exists ur, search w fuel m cond L hd 0 = Some ur /\ found_at hd L p ur.
Proof.
  intros Hs Er Hc Hw Hw0 Hf. destruct (zsl_search_spec m (hrow hd L :: rows) w Hw0 (sh_cells _ _ _ _ Hs) ltac:(rewrite zlen_cons; lia) cond (hrow hd L :: p) q fuel) with (levels := L) (a := @nil row) (r := hrow hd L) (b := p) as (ur & E & Hl & Hur).
  - by apply splits_cut.
  - by rewrite Er.
  - cbn. rewrite Er, length_app in Hf. lia.
  - done.
  - done.
  - exists ur. split; [exact E|]. by split.
Qed.
Lemma seek_spec m zsl rows w cond p q : zsl_ok m zsl rows -> rows = p ++ q -> splits cond p rows -> zlen rows + 1 < 2 ^ w -> 0 <= w ->
  exists ur, seek w m zsl cond = Some ur /\ found_at (zsl_header zsl) (Z.to_nat (zsl_level zsl)) p ur.
Proof.
  intros [Hs _ Hl _] Er Hc Hw Hw0. apply (seek_shape m _ _ rows w cond p q); try done. rewrite Hl. unfold zlen. lia.
Qed.

(** Level 0: the last row before the cut. *)
Lemma last_at_unique (pre : list row) i a r b a' r' b' : pre = a ++ r :: b -> pre = a' ++ r' :: b' -> (i < r_h r)%nat -> low i b -> (i < r_h r')%nat -> low i b' -> a = a' /\ r = r' /\ b = b'.
Proof.
  intros -> E Hr Hb Hr' Hb'. apply app_eq_inv in E as [(k & Ea & E2)|(k & Ea & E2)].
  - destruct k as [|y k]; [cbn in E2; rewrite app_nil_r in Ea; by injection E2 as -> ->|]. injection E2 as -> E2. rewrite E2 in Hb'. apply Forall_app in Hb' as [_ Hb']. apply Forall_cons in Hb' as [Hb' _]. lia.
  - destruct k as [|y k]; [cbn in E2; rewrite app_nil_r in Ea; by injection E2 as -> ->|]. injection E2 as -> E2. rewrite E2 in Hb. apply Forall_app in Hb as [_ Hb]. apply Forall_cons in Hb as [Hb _]. lia.
Qed.
Lemma row_by_addr (l : list row) a r b a' r' b' : NoDup (map r_addr l) -> l = a ++ r :: b -> l = a' ++ r' :: b' -> r_addr r = r_addr r' -> a = a' /\ r = r' /\ b = b'.
Proof.
  intros Hnd E1 E2 Ea. assert (Hlen : length a = length a').
  { apply (NoDup_lookup (map r_addr l) (length a) (length a') (r_addr r) Hnd); rewrite list_lookup_fmap; [rewrite E1|rewrite E2, Ea]; by rewrite list_lookup_middle. }
  rewrite E1 in E2. apply app_inj_1 in E2 as [-> E2]; [|done]. by injection E2 as -> ->.
Qed.
Lemma low0 (p : list row) : Forall (fun r => (1 <= r_h r)%nat) p -> low 0 p -> p = [].
Proof. intros H1 H2. destruct p as [|r p]; [done|]. apply Forall_cons in H1 as [H1 _]. apply Forall_cons in H2 as [H2 _]. lia. Qed.
Lemma last_at_0 hd L p u k : Forall (fun r => (1 <= r_h r)%nat) p -> last_at (hrow hd L :: p) 0 u k -> k = zlen p /\ u = default hd (last_addr p).
Proof.
  intros Hp (a & r & b & E & Hr & Hb & -> & ->). destruct a as [|r0 a].
  - injection E as <- ->. apply low0 in Hb as ->; [done|done].
  - injection E as <- ->. apply Forall_app in Hp as [_ Hp]. apply Forall_cons in Hp as [_ Hp]. apply low0 in Hb as ->; [|done]. rewrite last_addr_snoc. split; [unfold zlen; rewrite length_app; cbn; lia|done].
Qed.
Lemma last_at_gap hd L p i u k : last_at (hrow hd L :: p) i u k -> exists a r b, hrow hd L :: p = a ++ r :: b /\ u = r_addr r /\ (i < r_h r)%nat /\ low i b /\ zlen p - k = zlen b /\ 0 <= k.
Proof.
  intros (a & r & b & E & Hr & Hb & -> & ->). exists a, r, b. pose proof (f_equal zlen E) as El. rewrite zlen_cons, zlen_app, zlen_cons in El. pose proof (zlen_nonneg a). repeat split; try done; lia.
Qed.

(** ** Splicing rows in and out *)
(** [mid] between [pre] and [q] is replaced by [mid']: the cells to change are
    those of the last row of [pre] at each level. *)
Lemma splice_cells m m' pre mid mid' q : cells_ok m (pre ++ mid ++ q) -> NoDup (map r_addr (pre ++ mid' ++ q)) ->
  (forall a r b i, pre = a ++ r :: b -> (i < r_h r)%nat -> low i b -> lev m' (r_addr r) i = Some (fwd i (b ++ mid' ++ q))) ->
  (forall a r b i, pre = a ++ r :: b -> (i < r_h r)%nat -> ~ low i b -> lev m' (r_addr r) i = lev m (r_addr r) i) ->
  (forall a r b i, mid' = a ++ r :: b -> (i < r_h r)%nat -> lev m' (r_addr r) i = Some (fwd i (b ++ q))) ->
  (forall r i, r ∈ q -> (i < r_h r)%nat -> lev m' (r_addr r) i = lev m (r_addr r) i) ->
  cells_ok m' (pre ++ mid' ++ q).
Proof.
  intros Hc Hnd Hlow Hhigh Hmid Hq a r post i E Hi. apply app_eq_inv in E as [(k & -> & E)|(k & -> & E)].
  - destruct k as [|y k]; cbn in E.
    + destruct mid' as [|y mid']; cbn in E; [subst q|injection E as -> ->; by apply (Hmid [] y mid')].
      rewrite Hq by (done || apply list_elem_of_here). by apply (Hc (a ++ mid) r post); [rewrite app_nil_r, <- app_assoc|].
    + injection E as <- ->. destruct (Forall_dec (fun r => (r_h r <= i)%nat) k) as [Hl|Hl]; [by apply (Hlow a)|]. rewrite (Hhigh a r k) by done. rewrite (fwd_high i k _ (mid ++ q)) by done. apply (Hc a r); [by rewrite <- app_assoc|done].
  - apply app_eq_inv in E as [(k' & -> & E)|(k' & -> & E)].
    + destruct k' as [|y k']; cbn in E; [|injection E as <- ->; by apply (Hmid k r k')]. subst q. rewrite Hq by (done || apply list_elem_of_here). apply (Hc (pre ++ mid) r post); [by rewrite <- app_assoc|done].
    + subst q. rewrite Hq by (done || (apply elem_of_app; right; apply list_elem_of_here)). apply (Hc (pre ++ mid ++ k') r post); [by list_simplifier|done].
Qed.

Lemma set_back_spec m x b n : m !! x = Some n -> exists m', set_back m x b = Some m' /\ m' !! x = Some (mk_znode (z_ele n) (z_score n) b (z_level n)) /\
  (forall a, a <> x -> m' !! a = m !! a) /\ (forall a i, lev m' a i = lev m a i).
Proof.
  intros E. unfold set_back. rewrite E. cbn [mbind option_bind]. eexists. split; [done|]. split; [apply lookup_insert_eq|]. split; [intros a Ha; by rewrite lookup_insert_ne|].
  intros a i. unfold lev. destruct (decide (a = x)) as [->|Ha]; [by rewrite lookup_insert_eq, E|by rewrite lookup_insert_ne].
Qed.
Lemma is_row_frame m m' r b : frame m m' -> is_row m r b -> is_row m' r b.
Proof. intros Hf (n & En & He & Hs & Hb & Hl). destruct (frame_some m m' _ n Hf En) as (n' & En' & E1 & E2 & E3 & E4). exists n'. by rewrite E1, E2, E3, E4. Qed.
Lemma is_row_same m m' r b : m' !! r_addr r = m !! r_addr r -> is_row m r b -> is_row m' r b.
Proof. intros E (n & Hn). exists n. by rewrite E. Qed.

(** ** Insertion *)
Lemma shape_raise m hd L rows L' : shape m hd L rows -> (L <= L' <= 32)%nat ->
  exists m', for_levels (raise_level hd (zlen rows)) m (seq L (L' - L)) = Some m' /\ shape m' hd L' rows /\ (forall a, m !! a = None <-> m' !! a = None).
Proof.
  intros Hs HL. assert (Hlow : forall i, (L <= i)%nat -> low i rows) by (intros i Hi; eapply Forall_impl; [exact (sh_heights _ _ _ _ Hs)|cbn; lia]).
  destruct (for_levels_spec (raise_level hd (zlen rows)) (fun i a => if decide (a = hd) then Some (None, zlen rows) else lev m a i) (seq L (L' - L)) m) as (m' & E & Hf & Hin & Hout); [|apply NoDup_seq|].
  { intros m1 i Hi Hf Hl. apply elem_of_seq in Hi. destruct (sh_high _ _ _ _ Hs i) as [s Es]; [lia|]. unfold raise_level. rewrite Hl, Es. cbn [mbind option_bind].
    destruct (set_lev_spec m1 hd i (None, zlen rows) (None, s)) as (m2 & -> & Hf2 & Ho & Hn); [by rewrite Hl|]. exists m2. split; [done|]. split; [done|]. split; [intros a j Hj; apply Ho; by right|].
    intros a. case_decide as Ha; [by subst a|rewrite Ho by (by left); apply Hl]. }
  exists m'. split; [done|]. assert (Hold : forall a i, (i < L)%nat \/ a <> hd -> lev m' a i = lev m a i).
  { intros a i Hai. destruct (decide (i ∈ seq L (L' - L))) as [Hi|Hi]; [|by apply Hout]. rewrite Hin by done. apply elem_of_seq in Hi. rewrite decide_False; [done|]. destruct Hai; [lia|done]. }
  split; [|intros a; by apply frame_dom]. pose proof (sh_nodup _ _ _ _ Hs) as Hnd. destruct Hs as [Hc Hh Hhd Hr _ Hhe Hle]. split.
  - intros a r post i Ea Hi. destruct a as [|r0 a].
    + injection Ea as <- <-. cbn in Hi. destruct (decide (i < L)%nat) as [HiL|HiL]; [rewrite Hold by (by left); by apply (Hc [] (hrow hd L) rows)|].
      change (r_addr (hrow hd L')) with hd. rewrite Hin by (apply elem_of_seq; lia). rewrite decide_True by done. by rewrite fwd_nil by (apply Hlow; lia).
    + injection Ea as <- ->. rewrite Hold; [by apply (Hc (hrow hd L :: a) r post)|]. right. intros Eh. apply NoDup_cons in Hnd as [Hnd _]. apply Hnd. rewrite <- Eh, map_app. apply elem_of_app. right. apply list_elem_of_here.
  - intros i Hi. destruct (Hh i) as [s Es]; [lia|]. exists s. rewrite <- Es. apply Hout. rewrite elem_of_seq. lia.
  - destruct Hhd as (n & En & H1 & H2 & H3). destruct (frame_some m m' _ n Hf En) as (n' & En' & E1 & E2 & E3 & E4). exists n'. by rewrite E1, E3, E4.
  - intros a r c Ea. apply (is_row_frame m); [done|]. by apply (Hr a r c).
  - done.
  - eapply Forall_impl; [exact Hhe|cbn; lia].
  - lia.
Qed.
Lemma found_raise hd L L' p ur : found_at hd L p ur -> (L <= L')%nat -> low L p -> found_at hd L' p (ur ++ replicate (L' - L) (hd, 0)).
Proof.
  intros [Hl Hur] HL Hp. split; [rewrite length_app, length_replicate; lia|]. intros i Hi. destruct (decide (i < L)%nat) as [HiL|HiL].
  - destruct (Hur i HiL) as (u & k & E & (a & r & b & Ep & Hr & Hb & -> & ->)). exists (r_addr r), (zlen a). split; [by rewrite lookup_app_l by lia|]. destruct a as [|r0 a].
    + injection Ep as <- <-. by exists [], (hrow hd L'), p.
    + injection Ep as <- ->. by exists (hrow hd L' :: a), r, b.
  - exists hd, 0. split; [rewrite lookup_app_r by lia; by apply lookup_replicate_2; lia|]. exists [], (hrow hd L'), p. split; [done|]. split; [done|]. split; [|done]. eapply Forall_impl; [exact Hp|cbn; lia].
Qed.
Section InsertNode.
  Context (m : zheap) (hd : positive) (L : nat) (p q : list row) (ur : list (positive * Z)) (x : positive) (n0 : zskiplistNode) (h : nat).
  Context (Hs : shape m hd L (p ++ q)) (Hur : found_at hd L p ur) (Hx : m !! x = None) (Hn0 : length (z_level n0) = h) (Hh : (1 <= h <= L)%nat) (Hlen : zlen (p ++ q) + 1 < 2 ^ 32).
#[local] Abbreviation m2 := (<[x := n0]> m).
#[local] Abbreviation pre := (hrow hd L :: p).

Lemma addr_ne r a b : pre = a ++ r :: b -> r_addr r <> x /\ forall i, (i < r_h r)%nat -> lev m2 (r_addr r) i = Some (fwd i (b ++ q)).
Proof.
  intros E. assert (Hne : r_addr r <> x).
  { intros Ex. destruct a as [|r0 a].
    - injection E as <- _. destruct (sh_head _ _ _ _ Hs) as (n & En & _). cbn in Ex. congruence.
    - injection E as _ Ep. destruct (sh_rows _ _ _ _ Hs a r (b ++ q)) as (n & En & _); [rewrite Ep; by list_simplifier|]. congruence. }
  split; [done|]. intros i Hi. unfold lev. rewrite lookup_insert_ne by done. apply (sh_cells _ _ _ _ Hs a r (b ++ q) i); [|done]. change (hrow hd L :: p ++ q) with (pre ++ q). rewrite E. by list_simplifier.
Qed.
Lemma gap i u k : ur !! i = Some (u, k) -> (i < L)%nat -> exists a r b, pre = a ++ r :: b /\ u = r_addr r /\ (i < r_h r)%nat /\ low i b /\ u32 (zlen p - k) = zlen b /\ zlen p - k = zlen b /\ zlen b + zlen q < 2 ^ 32 - 1.
Proof.
  intros E Hi. destruct Hur as [_ H1]. destruct (H1 i Hi) as (u' & k' & E' & Hat). rewrite E in E'. injection E' as <- <-.
  destruct (last_at_gap hd L p i u k Hat) as (a & r & b & Ep & Eu & Hr & Hb & Hg & Hk). exists a, r, b. rewrite zlen_app in Hlen. pose proof (zlen_nonneg b). pose proof (zlen_nonneg q). rewrite Hg, wrapu_small by (unfold in_u; lia).
  repeat split; try done. lia.
Qed.
Definition linked (i : nat) (a : positive) : option (ptr * Z) :=
  if decide (a = x) then Some (fwd i q) else match ur !! i with Some (u, k) => if decide (a = u) then Some (Some x, zlen p - k + 1) else lev m2 a i | None => lev m2 a i end.
Definition stretched (i : nat) (a : positive) : option (ptr * Z) :=
  match ur !! i with Some (u, k) => if decide (a = u) then Some ((fwd i q).1, (fwd i q).2 + (zlen p - k) + 1) else lev m2 a i | None => lev m2 a i end.
Lemma link_body m1 i : (i < h)%nat -> (forall a, lev m1 a i = lev m2 a i) -> exists m3, link_level x ur (zlen p) m1 i = Some m3 /\ changes m1 m3 i (linked i).
Proof.
  intros Hi Hl. destruct Hur as [Hlu H1]. destruct (H1 i ltac:(lia)) as (u & k & Eu & _). destruct (gap i u k Eu ltac:(lia)) as (a & r & b & Ep & -> & Hr & Hb & Hg & Hg' & Hbd).
  destruct (addr_ne r a b Ep) as [Hne Hc]. pose proof (fwd_range i q) as Hq. pose proof (zlen_nonneg b) as Hzb. pose proof (zlen_nonneg q). unfold link_level. rewrite Eu. cbn [mbind option_bind]. rewrite Hl, Hc by done. cbn [mbind option_bind]. rewrite fwd_low by done. rewrite Hg.
  rewrite (wrapu_small 64) by (unfold in_u; lia). rewrite (wrapu_small 32) by (unfold in_u; lia). replace ((fwd i q).2 + zlen b - zlen b) with (fwd i q).2 by lia.
  destruct (z_level n0 !! i) as [c|] eqn:Ec; [|apply lookup_ge_None in Ec; lia].
  destruct (set_lev_spec m1 x i ((fwd i q).1, (fwd i q).2) c) as (m3 & -> & Hf3 & Ho3 & Hn3); [rewrite Hl; unfold lev; rewrite lookup_insert_eq; done|]. cbn [mbind option_bind].
  destruct (set_lev_spec m3 (r_addr r) i (Some x, zlen b + 1) (fwd i (b ++ q))) as (m4 & -> & Hf4 & Ho4 & Hn4); [rewrite Ho3 by (by left); by rewrite Hl, Hc|].
  exists m4. split; [done|]. split; [by apply (frame_trans m1 m3)|]. split.
  - intros a' j Hj. rewrite Ho4, Ho3 by (by right). done.
  - intros a'. unfold linked. rewrite Eu. case_decide as Ha; [subst a'; rewrite Ho4 by (left; congruence); rewrite Hn3; by destruct (fwd i q)|].
    case_decide as Ha'; [subst a'; by rewrite Hn4, Hg'|]. rewrite Ho4, Ho3 by (by left). apply Hl.
Qed.
Lemma stretch_body m1 i : (h <= i < L)%nat -> (forall a, lev m1 a i = lev m2 a i) -> exists m3, stretch_level ur m1 i = Some m3 /\ changes m1 m3 i (stretched i).
Proof.
  intros Hi Hl. destruct Hur as [Hlu H1]. destruct (H1 i ltac:(lia)) as (u & k & Eu & _). destruct (gap i u k Eu ltac:(lia)) as (a & r & b & Ep & -> & Hr & Hb & Hg & Hg' & Hbd).
  destruct (addr_ne r a b Ep) as [Hne Hc]. pose proof (fwd_range i q) as Hq. pose proof (zlen_nonneg b) as Hzb. pose proof (zlen_nonneg q). unfold stretch_level. rewrite Eu. cbn [mbind option_bind]. rewrite Hl, Hc by done. cbn [mbind option_bind]. rewrite fwd_low by done.
  rewrite (wrapu_small 64) by (unfold in_u; lia).
  destruct (set_lev_spec m1 (r_addr r) i ((fwd i q).1, (fwd i q).2 + zlen b + 1) (fwd i (b ++ q))) as (m4 & -> & Hf4 & Ho4 & Hn4); [by rewrite Hl, Hc|].
  exists m4. split; [done|]. split; [done|]. split; [intros a' j Hj; rewrite Ho4 by (by right); done|].
  intros a'. unfold stretched. rewrite Eu. case_decide as Ha; [subst a'; by rewrite Hn4, Hg'|]. rewrite Ho4 by (by left). apply Hl.
Qed.
Lemma insert_cells s e : exists m3 m4, for_levels (link_level x ur (zlen p)) m2 (seq 0 h) = Some m3 /\ for_levels (stretch_level ur) m3 (seq h (L - h)) = Some m4 /\
  frame m2 m4 /\ cells_ok m4 (hrow hd L :: p ++ mk_row x h s e :: q) /\ (forall i, (L <= i)%nat -> lev m4 hd i = lev m hd i).
Proof.
  destruct (for_levels_spec (link_level x ur (zlen p)) linked (seq 0 h) m2) as (m3 & E3 & Hf3 & Hin3 & Hout3); [|apply NoDup_seq|].
  { intros m1 i Hi _ Hl. apply elem_of_seq in Hi. apply link_body; [lia|done]. }
  destruct (for_levels_spec (stretch_level ur) stretched (seq h (L - h)) m3) as (m4 & E4 & Hf4 & Hin4 & Hout4); [|apply NoDup_seq|].
  { intros m1 i Hi _ Hl. apply elem_of_seq in Hi. apply stretch_body; [lia|]. intros a. rewrite Hl. apply Hout3. rewrite elem_of_seq. lia. }
  exists m3, m4. split; [done|]. split; [done|]. split; [by apply (frame_trans _ m3)|].
  assert (Hlo : forall a i, (i < h)%nat -> lev m4 a i = linked i a) by (intros a i Hi; rewrite Hout4 by (rewrite elem_of_seq; lia); apply Hin3, elem_of_seq; lia).
  assert (Hhi : forall a i, (h <= i < L)%nat -> lev m4 a i = stretched i a) by (intros a i Hi; apply Hin4, elem_of_seq; lia).
  assert (Hab : forall a i, (L <= i)%nat -> lev m4 a i = lev m2 a i) by (intros a i Hi; rewrite Hout4, Hout3 by (rewrite elem_of_seq; lia); done).
  assert (HrL : forall a r b, pre = a ++ r :: b -> (r_h r <= L)%nat).
  { intros a r b E. destruct a as [|r0 a]; [by injection E as <- _|]. injection E as _ Ep. pose proof (sh_heights _ _ _ _ Hs) as Hall. rewrite Ep, !Forall_app, Forall_cons in Hall. lia. }
  assert (Hnd : NoDup (map r_addr (pre ++ q))) by exact (sh_nodup _ _ _ _ Hs).
  split.
  - apply (splice_cells m2 m4 pre [] [mk_row x h s e] q).
    + intros a r post i E Hi. unfold lev. rewrite lookup_insert_ne; [by apply (sh_cells _ _ _ _ Hs a r post)|]. intros Ex. destruct a as [|r0 a]; [injection E as <- _; destruct (sh_head _ _ _ _ Hs) as (n & En & _); cbn in Ex; congruence|].
      injection E as _ Ep. destruct (sh_rows _ _ _ _ Hs a r post Ep) as (n & En & _). congruence.
    + rewrite map_app in *. change (map r_addr ([mk_row x h s e] ++ q)) with (x :: map r_addr q). apply NoDup_app in Hnd as (N1 & N2 & N3). assert (Hxs : x ∉ map r_addr pre /\ x ∉ map r_addr q).
      { split; intros Hin; apply list_elem_of_In, in_map_iff in Hin as (r & Er & Hin); apply list_elem_of_In, list_elem_of_split in Hin as (a & b & Eab).
        - by destruct (addr_ne r a b Eab).
        - destruct (sh_rows _ _ _ _ Hs (p ++ a) r b) as (n & En & _); [rewrite Eab; by list_simplifier|]. congruence. }
      apply NoDup_app. split; [done|]. split; [intros y Hy Hy2; apply elem_of_cons in Hy2 as [-> |Hy2]; [by destruct Hxs|by apply (N2 y)]|]. constructor; [by apply Hxs|done].
    + intros a r b i E Hi Hb. pose proof (HrL a r b E). destruct Hur as [_ H1]. destruct (H1 i ltac:(lia)) as (u & k & Eu & _). destruct (gap i u k Eu ltac:(lia)) as (a' & r' & b' & Ep & -> & Hr' & Hb' & Hg & Hg' & _).
      destruct (last_at_unique pre i a r b a' r' b' E Ep Hi Hb Hr' Hb') as (<- & <- & <-). destruct (addr_ne r a b E) as [Hne _]. cbn [app]. destruct (decide (i < h)%nat) as [Hih|Hih].
      * rewrite Hlo by done. unfold linked. rewrite decide_False by done. rewrite Eu, decide_True, Hg' by done. by rewrite fwd_next by done.
      * rewrite Hhi by lia. unfold stretched. rewrite Eu, decide_True, Hg' by done. rewrite fwd_low by done. cbn [fwd r_h]. rewrite decide_False by done. destruct (fwd i q) as [f sp]. cbn. do 2 f_equal. lia.
    + intros a r b i E Hi Hb. pose proof (HrL a r b E). destruct Hur as [_ H1]. destruct (H1 i ltac:(lia)) as (u & k & Eu & _). destruct (gap i u k Eu ltac:(lia)) as (a' & r' & b' & Ep & -> & Hr' & Hb' & _).
      destruct (addr_ne r a b E) as [Hne _]. assert (Hu : r_addr r <> r_addr r').
      { intros Er. rewrite map_app in Hnd. apply NoDup_app in Hnd as (N1 & _). destruct (row_by_addr pre a r b a' r' b' N1 E Ep Er) as (_ & _ & ->). done. }
      destruct (decide (i < h)%nat) as [Hih|Hih]; [rewrite Hlo by done; unfold linked|rewrite Hhi by lia; unfold stretched]; rewrite ?(decide_False (P := r_addr r = x)) by done; rewrite Eu, decide_False by done; done.
    + intros a r b i E Hi. destruct a as [|r0 a]; [|by destruct a]. injection E as <- <-. cbn in Hi |- *. rewrite Hlo by done. unfold linked. by rewrite decide_True.
    + intros r i Hin Hi. apply list_elem_of_split in Hin as (a & b & Eab). assert (HrL' : (r_h r <= L)%nat) by (pose proof (sh_heights _ _ _ _ Hs) as Hall; rewrite Eab, !Forall_app, Forall_cons in Hall; lia).
      assert (Hne : r_addr r <> x) by (destruct (sh_rows _ _ _ _ Hs (p ++ a) r b) as (n & En & _); [rewrite Eab; by list_simplifier|]; congruence).
      destruct Hur as [_ H1]. destruct (H1 i ltac:(lia)) as (u & k & Eu & _). destruct (gap i u k Eu ltac:(lia)) as (a' & r' & b' & Ep & -> & _).
      assert (Hu : r_addr r <> r_addr r').
      { intros Er. rewrite map_app in Hnd. apply NoDup_app in Hnd as (_ & N2 & _). apply (N2 (r_addr r')); [rewrite Ep, map_app; apply elem_of_app; right; apply list_elem_of_here|rewrite <- Er, Eab, map_app; apply elem_of_app; right; apply list_elem_of_here]. }
      destruct (decide (i < h)%nat) as [Hih|Hih]; [rewrite Hlo by done; unfold linked|rewrite Hhi by lia; unfold stretched]; rewrite ?(decide_False (P := r_addr r = x)) by done; rewrite Eu, decide_False by done; done.
  - intros i Hi. rewrite Hab by done. unfold lev. rewrite lookup_insert_ne; [done|]. intros ->. destruct (sh_head _ _ _ _ Hs) as (n & En & _). congruence.
Qed.
End InsertNode.
Lemma splice_rows m' p mid' q :
  (forall a r b, p = a ++ r :: b -> is_row m' r (last_addr a)) ->
  (forall a r b, mid' = a ++ r :: b -> is_row m' r (last_addr (p ++ a))) ->
  (forall a r b, q = a ++ r :: b -> is_row m' r (last_addr (p ++ mid' ++ a))) ->
  forall a r c, p ++ mid' ++ q = a ++ r :: c -> is_row m' r (last_addr a).
Proof.
  intros Hp Hm Hq a r c E. apply app_eq_inv in E as [(k & -> & E)|(k & -> & E)].
  - destruct k as [|y k]; [|injection E as <- ->; by apply (Hp a r k)]. cbn in E. rewrite app_nil_r in *. destruct mid' as [|y mid']; cbn in E; [subst q; specialize (Hq [] r c eq_refl)|injection E as -> ->; specialize (Hm [] y mid' eq_refl)]; cbn in *; by rewrite ?app_nil_r in *.
  - apply app_eq_inv in E as [(k' & -> & E)|(k' & -> & E)]; [|subst q; by apply (Hq k' r c)]. destruct k' as [|y k']; [|injection E as <- ->; by apply (Hm k r k')].
    cbn in E. subst q. specialize (Hq [] r c eq_refl). by rewrite !app_nil_r in *.
Qed.
Lemma frame_doms m m' : frame m m' -> dom m' = dom m.
Proof. intros Hf. apply set_eq. intros a. rewrite !elem_of_dom. specialize (Hf a). destruct (m !! a), (m' !! a); (split; intros [? ?]; done) || (split; intros _; by eexists). Qed.

Lemma random_level draws h rest : zslRandomLevel draws = Some (h, rest) -> 1 <= h <= 32.
Proof.
  assert (H1 : forall z l d, level_loop draws z = Some (l, d) -> z <= l).
  { clear. induction draws as [|r draws IH]; intros z l d; cbn [level_loop]; [done|]. destruct (_ <=? 16383); [|by intros [= <- <-]]. destruct (z <? 2147483647); [|done]. intros E. specialize (IH _ _ _ E). lia. }
  unfold zslRandomLevel. destruct (level_loop draws 1) as [[l d]|] eqn:E; [|done]. cbn [mbind option_bind]. intros [= <- <-]. specialize (H1 _ _ _ E).
  unfold ZSKIPLIST_MAXLEVEL. destruct (Z.ltb_spec l 32); lia.
Qed.
Lemma random_level_some draws : Exists (fun r => 16383 < Z.land r 0xFFFF) draws -> zlen draws < 2 ^ 31 -> exists h rest, zslRandomLevel draws = Some (h, rest).
Proof.
  intros He Hl. assert (H1 : forall z, 1 <= z -> z + zlen draws <= 2 ^ 31 -> is_Some (level_loop draws z)).
  { clear Hl. induction draws as [|r draws IH]; intros z Hz Hb; [by apply Exists_nil in He|]. cbn [level_loop]. destruct (Z.leb_spec (Z.land r 65535) 16383); [|by eexists]. rewrite zlen_cons in Hb.
    assert (He' : Exists (fun r => 16383 < Z.land r 0xFFFF) draws) by (apply Exists_cons in He as [He|He]; [lia|done]). assert (0 < zlen draws) by (destruct draws; [by apply Exists_nil in He'|rewrite zlen_cons; pose proof (zlen_nonneg draws); lia]).
    rewrite (proj2 (Z.ltb_lt z 2147483647)) by lia. apply IH; [done|lia|lia]. }
  destruct (H1 1) as [[l d] E]; [lia|lia|]. unfold zslRandomLevel. rewrite E. cbn [mbind option_bind]. by eexists _, _.
Qed.

(** The backward pointers of the rows around a new one. *)
Section BackInsert.
  Context `{NodeAllocator} (m m4 : zheap) (hd : positive) (L : nat) (p q : list row) (x : positive) (n0 : zskiplistNode) (h : nat) (s : Z) (e : list Z).
  Context (Hs : shape m hd L (p ++ q)) (Hx : m !! x = None) (Hn0 : length (z_level n0) = h) (Hh : (1 <= h <= L)%nat) (He : z_ele n0 = Some e) (Hsc : z_score n0 = s).
  Context (Hf : frame (<[x := n0]> m) m4) (Hc : cells_ok m4 (hrow hd L :: p ++ mk_row x h s e :: q)) (Hhigh : forall i, (L <= i)%nat -> lev m4 hd i = lev m hd i).
#[local] Abbreviation rows' := (p ++ [mk_row x h s e] ++ q).
Lemma back_insert : exists m5 m6, set_back m4 x (last_addr p) = Some m5 /\ lev m5 x 0 = Some (fwd 0 q) /\
  match (fwd 0 q).1 with Some y => set_back m5 y (Some x) | None => Some m5 end = Some m6 /\ ((fwd 0 q).1 = None <-> q = []) /\
  shape m6 hd L rows' /\ dom m6 = {[x]} ∪ dom m.
Proof.
  assert (Hnx : exists n4, m4 !! x = Some n4 /\ z_ele n4 = Some e /\ z_score n4 = s /\ length (z_level n4) = h).
  { destruct (frame_some _ _ x n0 Hf) as (n4 & E4 & H1 & H2 & _ & H4); [apply lookup_insert_eq|]. exists n4. by rewrite H1, H2, H4. }
  destruct Hnx as (n4 & En4 & He4 & Hs4 & Hl4). destruct (set_back_spec m4 x (last_addr p) n4 En4) as (m5 & E5 & Ex5 & Ho5 & Hl5).
  assert (Hcx : lev m4 x 0 = Some (fwd 0 q)) by (apply (Hc (hrow hd L :: p) (mk_row x h s e) q 0%nat); [done|cbn; lia]).
  assert (Hq0 : match q with [] => fwd 0 q = (None, 0) | y :: _ => fwd 0 q = (Some (r_addr y), 1) end).
  { destruct q as [|y q']; [done|]. cbn [fwd]. pose proof (sh_heights _ _ _ _ Hs) as Hall. rewrite Forall_app, Forall_cons in Hall. by rewrite decide_True by lia. }
  assert (Hold : forall a r c, p ++ q = a ++ r :: c -> is_row m4 r (last_addr a) /\ r_addr r <> x).
  { intros a r c E. pose proof (sh_rows _ _ _ _ Hs a r c E) as Hr. assert (Hne : r_addr r <> x) by (destruct Hr as (n & En & _); congruence). split; [|done]. apply (is_row_frame (<[x := n0]> m)); [done|]. apply (is_row_same m); [by rewrite lookup_insert_ne|done]. }
  assert (Hqn : forall a r c, q = a ++ r :: c -> p ++ q = (p ++ a) ++ r :: c) by (intros a r c ->; by list_simplifier). assert (Hpn : forall a r c, p = a ++ r :: c -> p ++ q = a ++ r :: c ++ q) by (intros a r c ->; by list_simplifier).
  pose proof (sh_nodup _ _ _ _ Hs) as Hnd. apply NoDup_cons in Hnd as [Hhd Hnd].
  assert (H6 : exists m6, match (fwd 0 q).1 with Some y => set_back m5 y (Some x) | None => Some m5 end = Some m6 /\ (forall a i, lev m6 a i = lev m4 a i) /\ m6 !! x = Some (mk_znode (z_ele n4) (z_score n4) (last_addr p) (z_level n4)) /\
    (forall a, a <> x -> (forall y q', q = y :: q' -> a <> r_addr y) -> m6 !! a = m4 !! a) /\ (forall y q', q = y :: q' -> is_row m6 y (Some x)) /\ dom m6 = dom m4).
  { assert (Hd5 : dom m5 = dom m4) by (unfold set_back in E5; rewrite En4 in E5; cbn in E5; injection E5 as <-; rewrite dom_insert_L; apply (elem_of_dom_2 (D := gset positive)) in En4; set_solver).
    destruct q as [|y q'] eqn:Eq; rewrite Hq0; cbn [fst].
    - exists m5. split; [done|]. split; [done|]. split; [done|]. split; [intros a Ha _; by apply Ho5|]. by split.
    - destruct (Hold (p ++ []) y q') as [(ny & Eny & Hy1 & Hy2 & _ & Hy4) Hyx]; [by list_simplifier|]. rewrite <- (Ho5 _ Hyx) in Eny. destruct (set_back_spec m5 (r_addr y) (Some x) ny Eny) as (m6 & E6 & Ey6 & Ho6 & Hl6). exists m6. split; [done|].
      split; [intros a i; by rewrite Hl6, Hl5|]. split; [by rewrite Ho6|]. split; [intros a Ha1 Ha2; rewrite Ho6 by (by apply (Ha2 y q')); by apply Ho5|]. split.
      + intros y' q'' [= <- <-]. by exists (mk_znode (z_ele ny) (z_score ny) (Some x) (z_level ny)).
      + rewrite <- Hd5. unfold set_back in E6. rewrite Eny in E6. cbn in E6. injection E6 as <-. rewrite dom_insert_L. apply (elem_of_dom_2 (D := gset positive)) in Eny. set_solver. }
  destruct H6 as (m6 & E6 & Hl6 & Hx6 & Ho6 & Hy6 & Hd6). exists m5, m6. split; [done|]. split; [by rewrite Hl5|]. split; [done|]. split; [destruct q as [|y q']; rewrite Hq0; cbn; [done|split; discriminate]|].
  assert (Hhdx : hd <> x) by (destruct (sh_head _ _ _ _ Hs) as (n & En & _); congruence).
  assert (Hhdq : forall y q', q = y :: q' -> hd <> r_addr y) by (intros y q' ->; intros ->; apply Hhd; rewrite map_app; apply elem_of_app; right; apply list_elem_of_here).
  split; [split|].
  - intros a r post i E Hi. rewrite Hl6. by apply (Hc a r post).
  - intros i Hi. rewrite Hl6, Hhigh by lia. apply (sh_high _ _ _ _ Hs); lia.
  - destruct (sh_head _ _ _ _ Hs) as (n & En & H1 & H2 & H3). destruct (frame_some _ _ hd n Hf) as (n' & En' & F1 & _ & F3 & F4); [by rewrite lookup_insert_ne|]. exists n'. rewrite Ho6 by done. by rewrite En', F1, F3, F4.
  - apply splice_rows.
    + intros a r b E. destruct (Hold a r (b ++ q) (Hpn a r b E)) as [Hr Hne]. apply (is_row_same m4); [|done]. apply Ho6; [done|]. intros y q' Eq Ey. rewrite map_app in Hnd. apply NoDup_app in Hnd as (_ & N2 & _).
      apply (N2 (r_addr r)); [rewrite E, map_app; apply elem_of_app; right; apply list_elem_of_here|rewrite Ey, Eq; apply list_elem_of_here].
    + intros a r b E. destruct a as [|r0 a]; [|by destruct a]. injection E as <- <-. rewrite app_nil_r. eexists. split; [exact Hx6|]. by rewrite He4, Hs4.
    + intros a r b E. destruct a as [|y a]; [cbn; rewrite last_addr_snoc; by apply (Hy6 r b)|]. destruct (Hold (p ++ y :: a) r b (Hqn _ _ _ E)) as [Hr Hne]. rewrite last_addr_app in Hr. cbn [app]. rewrite last_addr_app.
      change (last_addr (mk_row x h s e :: y :: a)) with (last_addr ([mk_row x h s e] ++ y :: a)). rewrite last_addr_app. apply (is_row_same m4); [|done]. apply Ho6; [done|]. intros y' q' Eq Ey. rewrite E in Eq. injection Eq as <- _.
      rewrite map_app, E in Hnd. apply NoDup_app in Hnd as (_ & _ & N3). cbn [map app] in N3. apply NoDup_cons in N3 as [N3 _]. apply N3. rewrite <- Ey, map_app. apply elem_of_app. right. apply list_elem_of_here.
  - rewrite !map_app. cbn [map app r_addr]. rewrite map_app in Hhd, Hnd. assert (Hxn : x ∉ map r_addr p ++ map r_addr q).
    { rewrite <- map_app. intros Hin. apply list_elem_of_In, in_map_iff in Hin as (r & Er & Hin). apply list_elem_of_In, list_elem_of_split in Hin as (a & b & Eab). by destruct (Hold a r b Eab). }
    constructor; [set_solver|]. apply NoDup_app in Hnd as (N1 & N2 & N3). apply NoDup_app. split; [done|]. split; [intros y Hy Hy2; apply elem_of_cons in Hy2 as [-> |Hy2]; [set_solver|by apply (N2 y)]|]. constructor; [set_solver|done].
  - pose proof (sh_heights _ _ _ _ Hs) as Hall. rewrite Forall_app in Hall. apply Forall_app. split; [apply Hall|]. constructor; [cbn; lia|apply Hall].
  - apply (sh_level _ _ _ _ Hs).
  - rewrite Hd6, (frame_doms _ _ Hf), dom_insert_L. done.
Qed.
End BackInsert.
Section InsertSpec.
  Context `{NodeAllocator}.
(** The node for a new row, and the row the search ends at. *)
Lemma create_node h s e : 1 <= h -> length (z_level (zslCreateNode h s (Some e))) = Z.to_nat h.
Proof. intros Hh. unfold zslCreateNode. cbn. by rewrite length_map, length_seq. Qed.
Lemma zsl_insert_spec m zsl p q score ele draws h rest : zsl_ok m zsl (p ++ q) -> splits (before score ele) p (p ++ q) -> isnan score = false -> zslRandomLevel draws = Some (h, rest) -> zlen (p ++ q) + 1 < 2 ^ 32 ->
  exists m' zsl' x, zslInsert m zsl score ele draws = Some (m', zsl', x, rest) /\ zsl_ok m' zsl' (p ++ mk_row x (Z.to_nat h) score ele :: q) /\
    m !! x = None /\ zsl_header zsl' = zsl_header zsl /\ dom m' = {[x]} ∪ dom m.
Proof.
  intros Hok Hsp Hnan Hd Hlen. pose proof (random_level _ _ _ Hd) as Hh. unfold zslInsert. rewrite Hnan.
  destruct (seek_spec m zsl (p ++ q) 32 (before score ele) p q Hok eq_refl Hsp ltac:(lia) ltac:(lia)) as (ur & -> & Hur). cbn [mbind option_bind]. rewrite Hd. cbn [mbind option_bind].
  destruct Hok as [Hs Ht Hl Hlv]. pose proof (sh_level _ _ _ _ Hs) as HL. pose proof (sh_heights _ _ _ _ Hs) as Hhe. set (L := Z.to_nat (zsl_level zsl)) in *. set (hd := zsl_header zsl) in *. set (L' := Nat.max L (Z.to_nat h)).
  assert (H1 : exists m1 ur1, (if h >? zsl_level zsl then let more := Z.to_nat (h - zsl_level zsl) in
      m ← for_levels (raise_level hd (zsl_length zsl)) m (seq L more); Some (m, set_zlevel zsl h, ur ++ replicate more (hd, 0)) else Some (m, zsl, ur))
      = Some (m1, set_zlevel zsl (Z.of_nat L'), ur1) /\ shape m1 hd L' (p ++ q) /\ found_at hd L' p ur1 /\ dom m1 = dom m).
  { rewrite Z.gtb_ltb. destruct (Z.ltb_spec (zsl_level zsl) h) as [Hgt|Hle].
    - destruct (shape_raise m hd L (p ++ q) L' Hs ltac:(lia)) as (m1 & E1 & Hs1 & Hd1). replace (L' - L)%nat with (Z.to_nat (h - zsl_level zsl)) in E1 by lia. cbv zeta. rewrite Hl, E1. cbn [mbind option_bind]. eexists m1, _. replace h with (Z.of_nat L') at 1 by lia.
      split; [done|]. split; [done|]. split; [replace (Z.to_nat (h - zsl_level zsl)) with (L' - L)%nat by lia; apply found_raise; [done|lia|]|].
      + apply Forall_app in Hhe as [Hhe _]. eapply Forall_impl; [exact Hhe|cbn; lia].
      + apply set_eq. intros a. rewrite !elem_of_dom, <- !not_eq_None_Some. by rewrite Hd1.
    - exists m, ur. replace L' with L by lia. split; [|done]. do 3 f_equal. unfold L. rewrite Z2Nat.id by lia. by destruct zsl. }
  destruct H1 as (m1 & ur1 & E1 & Hs1 & Hur1 & Hd1). cbv zeta in E1. fold hd L. rewrite E1. cbn [mbind option_bind]. clear E1 Hur Hs. set (x := new_addr m1). set (n0 := zslCreateNode h score (Some ele)).
  assert (Hx1 : m1 !! x = None) by apply new_fresh. pose proof (create_node h score ele ltac:(lia)) as Hn0. fold n0 in Hn0.
  destruct (proj2 Hur1 0%nat ltac:(lia)) as (u0 & k0 & Eu0 & Hat0). destruct (last_at_0 hd L' p u0 k0) as [-> ->]; [|exact Hat0|]; [apply Forall_app in Hhe as [Hhe _]; eapply Forall_impl; [exact Hhe|cbn; lia]|].
  rewrite Eu0. cbn [mbind option_bind]. destruct (insert_cells m1 hd L' p q ur1 x n0 (Z.to_nat h) Hs1 Hur1 Hx1 Hn0 ltac:(lia) Hlen score ele) as (m3 & m4 & E3 & E4 & Hf4 & Hc4 & Hh4).
  rewrite E3. cbn [mbind option_bind set_zlevel zsl_level zsl_header]. replace (Z.to_nat (Z.of_nat L' - h)) with (L' - Z.to_nat h)%nat by lia. rewrite E4. cbn [mbind option_bind].
  destruct (back_insert m1 m4 hd L' p q x n0 (Z.to_nat h) score ele Hs1 Hx1 Hn0 ltac:(lia) eq_refl eq_refl Hf4 Hc4 Hh4) as (m5 & m6 & E5 & El5 & E6 & Eq & Hs6 & Hd6).
  assert (Eb : (if bool_decide (default hd (last_addr p) = hd) then None else Some (default hd (last_addr p))) = last_addr p).
  { destruct (last_addr p) as [a|] eqn:Ea; [change (default hd (Some a)) with a|by rewrite bool_decide_true]. rewrite bool_decide_false; [done|]. intros ->. pose proof (sh_nodup _ _ _ _ Hs1) as Hnd. apply NoDup_cons in Hnd as [Hnd _]. apply Hnd. rewrite map_app. apply elem_of_app. left.
    unfold last_addr in Ea. destruct (last p) as [r|] eqn:Er; [|done]. injection Ea as <-. apply last_Some in Er as [l' ->]. rewrite map_app. apply elem_of_app. right. apply list_elem_of_here. }
  fold hd. rewrite Eb, E5. cbn [mbind option_bind]. rewrite El5. cbn [mbind option_bind]. destruct (fwd 0 q) as [f0 s0] eqn:Ef. cbn [fst] in *.
  assert (Hfin : forall t, t = last_addr (p ++ mk_row x (Z.to_nat h) score ele :: q) -> zsl_ok m6 (set_length (set_tail (set_zlevel zsl (Z.of_nat L')) t) (u64 (zsl_length zsl + 1))) (p ++ mk_row x (Z.to_nat h) score ele :: q)).
  { intros t Et. split; cbn; [by rewrite Nat2Z.id|done| |].
    - rewrite Hl, !zlen_app, zlen_cons. rewrite zlen_app in Hlen. pose proof (zlen_nonneg p). pose proof (zlen_nonneg q). rewrite wrapu_small by (unfold in_u; lia). lia.
    - f_equal. rewrite maxh_app, maxh_cons. cbn [r_h]. rewrite maxh_app in Hlv. unfold L', L. lia. }
  destruct f0 as [y|].
  - rewrite E6. cbn [mbind option_bind]. eexists _, _, _. split; [done|]. split; [|split; [apply not_elem_of_dom; rewrite <- Hd1; by apply not_elem_of_dom|split; [done|by rewrite Hd6, Hd1]]].
    destruct q as [|r q']; [by destruct Eq as [_ Eq]; discriminate Eq|]. assert (Et : zsl_tail zsl = last_addr (p ++ mk_row x (Z.to_nat h) score ele :: r :: q')).
    { rewrite Ht, !last_addr_app. change (mk_row x (Z.to_nat h) score ele :: r :: q') with ([mk_row x (Z.to_nat h) score ele] ++ r :: q'). by rewrite last_addr_app. }
    specialize (Hfin _ eq_refl). rewrite <- Et in Hfin. exact Hfin.
  - injection E6 as <-. assert (q = []) as -> by (by apply Eq). eexists _, _, _. split; [done|]. split; [apply Hfin; by rewrite last_addr_snoc|]. split; [apply not_elem_of_dom; rewrite <- Hd1; by apply not_elem_of_dom|]. split; [done|by rewrite Hd6, Hd1].
Qed.
End InsertSpec.

(** ** Deletion *)
Lemma fwd_target i q a : (fwd i q).1 = Some a -> a ∈ map r_addr q.
Proof.
  destruct (low_split i q) as [Hl|(c & r & d & -> & Hc & Hr)]; [by rewrite fwd_nil by done|]. rewrite fwd_next by done. cbn. intros [= <-]. rewrite map_app. apply elem_of_app. right. apply list_elem_of_here.
Qed.
Lemma shape_lower m hd L rows L2 : shape m hd L rows -> (maxh rows <= L2 <= L)%nat -> shape m hd L2 rows.
Proof.
  intros [Hc Hh Hhd Hr Hnd Hhe Hle] HL. pose proof (maxh_pos rows). split; try done.
  - intros a r post i E Hi. destruct a as [|r0 a]; [injection E as <- <-; apply (Hc [] (hrow hd L)); [done|cbn in *; lia]|injection E as <- E; apply (Hc (hrow hd L :: a)); [by rewrite E|done]].
  - intros i Hi. destruct (decide (i < L)%nat) as [HiL|HiL]; [|apply Hh; lia]. exists (zlen rows). rewrite <- fwd_nil with (i := i) by (apply low_maxh; lia). by apply (Hc [] (hrow hd L) rows).
  - apply Forall_forall. intros r Hin. rewrite Forall_forall in Hhe. specialize (Hhe r Hin). pose proof (maxh_ge rows r Hin). lia.
  - lia.
Qed.
Lemma zsl_shrink_spec m hd rows : forall l, (maxh rows <= l)%nat -> (forall i, (i < l)%nat -> lev m hd i = Some (fwd i rows)) -> shrink_loop m hd l = Some (maxh rows).
Proof.
  pose proof (maxh_pos rows) as Hp. induction l as [|l IH]; intros Hl Hc; [lia|]. destruct l as [|k]; [cbn; f_equal; lia|].
  change (shrink_loop m hd (S (S k))) with ('(f, _) ← lev m hd (S k); match f with None => shrink_loop m hd (S k) | Some _ => Some (S (S k)) end). rewrite (Hc (S k)) by lia. cbn [mbind option_bind].
  destruct (low_split (S k) rows) as [Hlow|(c & r & d & E & Hlc & Hr)].
  - rewrite fwd_nil by done. apply IH; [|intros i Hi; apply Hc; lia]. clear -Hlow. induction Hlow as [|r l Hr Hl IH]; [cbn; lia|]. rewrite maxh_cons. lia.
  - rewrite E, fwd_next by done. f_equal. assert (r_h r <= maxh rows)%nat; [|subst rows; lia]. apply maxh_ge. rewrite E. apply elem_of_app. right. apply list_elem_of_here.
Qed.
(** The nodes to update when the row after [p] is unlinked. *)
Definition updates (hd : positive) (L : nat) (p : list row) (upd : list positive) : Prop :=
  forall i, (i < L)%nat -> exists a r b, upd !! i = Some (r_addr r) /\ hrow hd L :: p = a ++ r :: b /\ (i < r_h r)%nat /\ low i b.
Lemma found_updates hd L p ur : found_at hd L p ur -> updates hd L p ur.*1.
Proof. intros [_ Hur] i Hi. destruct (Hur i Hi) as (u & k & E & (a & r & b & Ep & Hr & Hb & -> & _)). exists a, r, b. split; [by rewrite list_lookup_fmap, E|done]. Qed.
Lemma updates_lower hd L L2 p upd : updates hd L p upd -> (L2 <= L)%nat -> updates hd L2 p upd.
Proof.
  intros Hu HL i Hi. destruct (Hu i ltac:(lia)) as (a & r & b & E & Ep & Hr & Hb). destruct a as [|r0 a].
  - injection Ep as <- <-. exists [], (hrow hd L2), p. done.
  - injection Ep as <- ->. exists (hrow hd L2 :: a), r, b. done.
Qed.

Section DeleteNode.
  Context (m : zheap) (hd : positive) (L : nat) (p q : list row) (x : row) (upd : list positive).
  Context (Hs : shape m hd L (p ++ x :: q)) (Hu : updates hd L p upd) (Hlen : zlen (p ++ x :: q) + 1 < 2 ^ 32).
#[local] Abbreviation pre := (hrow hd L :: p).
Lemma pre_cells a r b i : pre = a ++ r :: b -> (i < r_h r)%nat -> lev m (r_addr r) i = Some (fwd i (b ++ x :: q)).
Proof. intros E Hi. apply (sh_cells _ _ _ _ Hs a r (b ++ x :: q) i); [|done]. change (hrow hd L :: p ++ x :: q) with (pre ++ x :: q). rewrite E. by list_simplifier. Qed.
Lemma pre_nodup : NoDup (map r_addr pre ++ r_addr x :: map r_addr q).
Proof. pose proof (sh_nodup _ _ _ _ Hs) as Hnd. rewrite map_app in Hnd. exact Hnd. Qed.
Definition unlinked (i : nat) (a : positive) : option (ptr * Z) :=
  match upd !! i with Some u => if decide (a = u) then (fun c : ptr * Z => ((fwd i q).1, c.2 + (if decide (i < r_h x)%nat then (fwd i q).2 else 0) - 1)) <$> lev m u i else lev m a i | None => lev m a i end.
Lemma unlink_body m1 i : (i < L)%nat -> (forall a, lev m1 a i = lev m a i) -> exists m3, unlink_level (r_addr x) upd m1 i = Some m3 /\ changes m1 m3 i (unlinked i).
Proof.
  intros Hi Hl. destruct (Hu i Hi) as (a & r & b & Eu & Ep & Hr & Hb). pose proof (pre_cells a r b i Ep Hr) as Hc. pose proof (fwd_range i q) as Hq. pose proof (zlen_nonneg b).
  assert (Hsz : zlen b + zlen q < 2 ^ 32 - 1).
  { pose proof (f_equal zlen Ep) as El. rewrite zlen_cons, zlen_app, zlen_cons in El. rewrite zlen_app, zlen_cons in Hlen. pose proof (zlen_nonneg a). lia. }
  pose proof pre_nodup as Hnd. apply NoDup_app in Hnd as (_ & _ & Hnd). apply NoDup_cons in Hnd as [Hxq _].
  assert (Hun : forall a', unlinked i a' = if decide (a' = r_addr r) then Some ((fwd i q).1, (fwd i (b ++ x :: q)).2 + (if decide (i < r_h x)%nat then (fwd i q).2 else 0) - 1) else lev m a' i).
  { intros a'. unfold unlinked. rewrite Eu. case_decide; [by rewrite Hc|done]. }
  unfold unlink_level. rewrite Eu. cbn [mbind option_bind]. rewrite (Hl (r_addr r)), Hc. cbn [mbind option_bind]. rewrite fwd_low in Hun |- * by done. cbn [fwd] in Hun |- *. destruct (decide (i < r_h x)%nat) as [Hx|Hx].
  - cbn [fst snd]. rewrite bool_decide_true by done. rewrite Hl.
    rewrite (sh_cells _ _ _ _ Hs (hrow hd L :: p) x q i) by done. cbn [mbind option_bind]. destruct (fwd i q) as [f0 s0] eqn:Ef. cbn [fst snd] in *. rewrite wrapu_small by (unfold in_u; lia).
    destruct (set_lev_spec m1 (r_addr r) i (f0, 1 + zlen b + (s0 - 1)) (fwd i (b ++ x :: q))) as (m3 & -> & Hf & Ho & Hn); [by rewrite Hl|]. exists m3. split; [done|]. split; [done|]. split; [intros a' j Hj; apply Ho; by right|].
    intros a'. rewrite Hun. case_decide as Ha; [subst a'; rewrite Hn; do 2 f_equal; lia|rewrite Ho by (by left); apply Hl].
  - destruct (fwd i q) as [f0 s0] eqn:Ef. cbn [fst snd] in *. rewrite bool_decide_false; [|intros E0; apply Hxq, (fwd_target i); by rewrite Ef]. rewrite wrapu_small by (unfold in_u; lia).
    destruct (set_lev_spec m1 (r_addr r) i (f0, s0 + 1 + zlen b - 1) (fwd i (b ++ x :: q))) as (m3 & -> & Hf & Ho & Hn); [by rewrite Hl|]. exists m3. split; [done|]. split; [done|]. split; [intros a' j Hj; apply Ho; by right|].
    intros a'. rewrite Hun. case_decide as Ha; [subst a'; rewrite Hn; do 2 f_equal; lia|rewrite Ho by (by left); apply Hl].
Qed.
Lemma delete_cells : exists m3, for_levels (unlink_level (r_addr x) upd) m (seq 0 L) = Some m3 /\ frame m m3 /\ cells_ok m3 (hrow hd L :: p ++ q) /\
  (forall i, (L <= i)%nat -> lev m3 hd i = lev m hd i) /\ lev m3 (r_addr x) 0 = Some (fwd 0 q).
Proof.
  destruct (for_levels_spec (unlink_level (r_addr x) upd) unlinked (seq 0 L) m) as (m3 & E3 & Hf & Hin & Hout); [|apply NoDup_seq|].
  { intros m1 i Hi _ Hl. apply elem_of_seq in Hi. apply unlink_body; [lia|done]. }
  exists m3. split; [done|]. split; [done|]. pose proof pre_nodup as Hnd. apply NoDup_app in Hnd as (N1 & N2 & N3). apply NoDup_cons in N3 as [N3 N4]. pose proof (sh_heights _ _ _ _ Hs) as Hall.
  assert (Hrest : forall r i, r ∈ x :: q -> (i < r_h r)%nat -> lev m3 (r_addr r) i = lev m (r_addr r) i).
  { intros r i Hr Hi. assert (HrL : (r_h r <= L)%nat) by (rewrite Forall_forall in Hall; apply (Hall r), elem_of_app; by right). rewrite Hin by (apply elem_of_seq; lia). unfold unlinked. destruct (Hu i ltac:(lia)) as (a & r' & b & Eu & Ep & _). rewrite Eu, decide_False; [done|].
    intros Er. apply (N2 (r_addr r')); [rewrite Ep, map_app; apply elem_of_app; right; apply list_elem_of_here|rewrite <- Er; apply list_elem_of_In, (in_map r_addr (x :: q)); by apply list_elem_of_In]. }
  split; [|split].
  - apply (splice_cells m m3 pre [x] [] q).
    + exact (sh_cells _ _ _ _ Hs).
    + rewrite map_app. apply NoDup_app. split; [done|]. split; [intros y Hy Hy2; apply (N2 y Hy); by right|done].
    + intros a r b i E Hi Hb. assert (HrL : (r_h r <= L)%nat) by (destruct a as [|r0 a]; [by injection E as <- _|injection E as _ Ep; rewrite Ep, !Forall_app, Forall_cons in Hall; lia]).
      rewrite Hin by (apply elem_of_seq; lia). unfold unlinked. destruct (Hu i ltac:(lia)) as (a' & r' & b' & Eu & Ep & Hr' & Hb'). destruct (last_at_unique pre i a r b a' r' b' E Ep Hi Hb Hr' Hb') as (<- & <- & <-). rewrite Eu, decide_True by done.
      rewrite (pre_cells a r b i E Hi), !fwd_low by done. cbn [fwd app]. destruct (fwd i q) as [f0 s0]. change (zlen (@nil row)) with 0. destruct (decide (i < r_h x)%nat); cbn [fst snd fmap option_fmap option_map]; do 2 f_equal; lia.
    + intros a r b i E Hi Hb. assert (HrL : (r_h r <= L)%nat) by (destruct a as [|r0 a]; [by injection E as <- _|injection E as _ Ep; rewrite Ep, !Forall_app, Forall_cons in Hall; lia]).
      rewrite Hin by (apply elem_of_seq; lia). unfold unlinked. destruct (Hu i ltac:(lia)) as (a' & r' & b' & Eu & Ep & Hr' & Hb'). rewrite Eu, decide_False; [done|]. intros Er. destruct (row_by_addr pre a r b a' r' b' N1 E Ep Er) as (_ & _ & ->). done.
    + intros a r b i E. by destruct a.
    + intros r i Hr Hi. apply Hrest; [by apply list_elem_of_further|done].
  - intros i Hi. apply Hout. rewrite elem_of_seq. lia.
  - rewrite Forall_app, Forall_cons in Hall. rewrite Hrest by (apply list_elem_of_here || lia). by apply (sh_cells _ _ _ _ Hs (hrow hd L :: p) x q); [|lia].
Qed.
End DeleteNode.
(** An unlinked row: the rows around it are a skip list again. *)
Lemma delete_node_spec m zsl p x q upd : zsl_ok m zsl (p ++ x :: q) -> updates (zsl_header zsl) (Z.to_nat (zsl_level zsl)) p upd -> zlen (p ++ x :: q) + 1 < 2 ^ 32 ->
  exists m' zsl', zslDeleteNode m zsl (r_addr x) upd = Some (m', zsl') /\ zsl_ok m' zsl' (p ++ q) /\ (exists b, is_row m' x b) /\ zsl_header zsl' = zsl_header zsl /\
    zsl_level zsl' <= zsl_level zsl /\ dom m' = dom m.
Proof.
  intros [Hs Ht Hl Hlv] Hu Hlen. set (hd := zsl_header zsl) in *. set (L := Z.to_nat (zsl_level zsl)) in *. destruct (delete_cells m hd L p q x upd Hs Hu Hlen) as (m3 & E3 & Hf & Hc & Hh & Hx0).
  pose proof (sh_nodup _ _ _ _ Hs) as Hnd. rewrite map_app in Hnd. cbn [map] in Hnd. pose proof (sh_heights _ _ _ _ Hs) as Hall. rewrite Forall_app, Forall_cons in Hall. destruct Hall as (Hp & Hxh & Hqh).
  unfold zslDeleteNode. fold hd L. rewrite E3. cbn [mbind option_bind].
  assert (Hrow : forall a r c, p ++ x :: q = a ++ r :: c -> is_row m3 r (last_addr a)) by (intros a r c E; apply (is_row_frame m); [done|]; by apply (sh_rows _ _ _ _ Hs a r c)).
  destruct (Hrow p x q eq_refl) as (nx & Ex & Hx1 & Hx2 & Hx3 & Hx4). rewrite Ex. cbn [mbind option_bind]. rewrite (lev_some m3 _ nx Ex) in Hx0. rewrite Hx0. cbn [mbind option_bind].
  assert (H4 : exists m4 t, match (fwd 0 q).1 with Some y => m ← set_back m3 y (z_backward nx); Some (m, zsl) | None => Some (m3, set_tail zsl (z_backward nx)) end = Some (m4, set_tail zsl t) /\ t = last_addr (p ++ q) /\
    (forall a i, lev m4 a i = lev m3 a i) /\ (forall a, (forall y q', q = y :: q' -> a <> r_addr y) -> m4 !! a = m3 !! a) /\ (forall y q', q = y :: q' -> is_row m4 y (last_addr p)) /\ dom m4 = dom m3).
  { rewrite Hx3. destruct q as [|y q'].
    - exists m3, (last_addr p). rewrite app_nil_r. by repeat split.
    - assert (Eq0 : (fwd 0 (y :: q')).1 = Some (r_addr y)) by (cbn [fwd]; apply Forall_cons in Hqh as [Hqh _]; by rewrite decide_True by lia). rewrite Eq0. destruct (Hrow (p ++ [x]) y q') as (ny & Ey & Hy1 & Hy2 & _ & Hy4); [by list_simplifier|].
      destruct (set_back_spec m3 (r_addr y) (last_addr p) ny Ey) as (m4 & E4 & Ey4 & Ho4 & Hl4). rewrite E4. cbn [mbind option_bind]. exists m4, (zsl_tail zsl). split; [by destruct zsl|]. split; [|split; [done|split; [|split]]].
      + rewrite Ht, !last_addr_app. change (x :: y :: q') with ([x] ++ y :: q'). by rewrite last_addr_app.
      + intros a Ha. apply Ho4. by apply (Ha y q').
      + intros y' q'' [= <- <-]. by exists (mk_znode (z_ele ny) (z_score ny) (last_addr p) (z_level ny)).
      + unfold set_back in E4. rewrite Ey in E4. cbn in E4. injection E4 as <-. rewrite dom_insert_L. apply (elem_of_dom_2 (D := gset positive)) in Ey. set_solver. }
  destruct H4 as (m4 & t & E4 & Et & Hl4 & Ho4 & Hy4 & Hd4). destruct (fwd 0 q) as [f0 s0] eqn:Ef0. cbn [fst] in E4. rewrite E4. cbn [mbind option_bind].
  apply NoDup_cons in Hnd as [Hhd Hnd]. apply NoDup_app in Hnd as (N1 & N2 & N3). apply NoDup_cons in N3 as [N3 N4].
  assert (Hs4 : shape m4 hd L (p ++ q)).
  { split.
    - intros a r post i E Hi. rewrite Hl4. by apply (Hc a r post).
    - intros i Hi. rewrite Hl4, Hh by lia. apply (sh_high _ _ _ _ Hs); lia.
    - destruct (sh_head _ _ _ _ Hs) as (n & En & F1 & F2 & F3). destruct (frame_some _ _ hd n Hf En) as (n' & En' & G1 & _ & G3 & G4). exists n'. rewrite Ho4 by (intros y q' -> ->; set_solver). by rewrite En', G1, G3, G4.
    - apply (splice_rows m4 p [] q).
      + intros a r b E. apply (is_row_same m3); [|apply (Hrow a r (b ++ x :: q)); rewrite E; by list_simplifier]. apply Ho4. intros y q' Eq Ey. apply (N2 (r_addr r)); [rewrite E, map_app; apply elem_of_app; right; apply list_elem_of_here|rewrite Ey, Eq; set_solver].
      + intros a r b E. by destruct a.
      + intros a r b E. cbn [app]. destruct a as [|y a]; [rewrite app_nil_r; by apply (Hy4 r b)|]. apply (is_row_same m3); [|].
        * apply Ho4. intros y' q' Eq Ey. rewrite E in Eq, N4. injection Eq as <- _. cbn [map app] in N4. apply NoDup_cons in N4 as [N4 _]. apply N4. rewrite <- Ey, map_app. apply elem_of_app. right. apply list_elem_of_here.
        * specialize (Hrow (p ++ x :: y :: a) r b). rewrite !last_addr_app in *. change (x :: y :: a) with ([x] ++ y :: a) in Hrow. rewrite last_addr_app in Hrow. apply Hrow. rewrite E. by list_simplifier.
    - rewrite map_app. constructor; [set_solver|]. apply NoDup_app. split; [done|]. split; [intros y Hy Hy2; apply (N2 y Hy); by right|done].
    - by apply Forall_app.
    - apply (sh_level _ _ _ _ Hs). }
  assert (HmL : (maxh (p ++ q) <= L)%nat) by (rewrite maxh_app in *; rewrite maxh_cons in Hlv; unfold L; lia).
  cbn [set_tail zsl_header zsl_level]. fold hd L. rewrite (zsl_shrink_spec m4 hd (p ++ q)); [|done|intros i Hi; by apply (sh_cells _ _ _ _ Hs4 [] (hrow hd L) (p ++ q))]. cbn [mbind option_bind].
  eexists _, _. split; [done|]. split; [split; cbn|split; [|split; [done|split; [cbn; lia|by rewrite Hd4, (frame_doms _ _ Hf)]]]].
  - rewrite Nat2Z.id. apply (shape_lower m4 hd L); [done|lia].
  - done.
  - rewrite Hl, !zlen_app, zlen_cons. rewrite zlen_app, zlen_cons in Hlen. pose proof (zlen_nonneg p). pose proof (zlen_nonneg q). rewrite wrapu_small by (unfold in_u; lia). lia.
  - done.
  - exists (last_addr p). apply (is_row_same m3); [|by exists nx]. apply Ho4. intros y q' -> Ey. rewrite Ey in N3. set_solver.
Qed.
(** Freeing a node that is not linked. *)
Lemma zsl_ok_delete m zsl rows a : zsl_ok m zsl rows -> a ∉ zsl_header zsl :: map r_addr rows -> zsl_ok (delete a m) zsl rows.
Proof.
  intros [[Hc Hh Hhd Hr Hnd Hhe Hle] Ht Hl Hlv] Ha. apply not_elem_of_cons in Ha as [Ha1 Ha2]. assert (Hlev : forall b i, b <> a -> lev (delete a m) b i = lev m b i) by (intros b i Hb; unfold lev; by rewrite lookup_delete_ne).
  assert (Hra : forall b r c, rows = b ++ r :: c -> r_addr r <> a) by (intros b r c -> <-; apply Ha2; rewrite map_app; apply elem_of_app; right; apply list_elem_of_here).
  split; [split|..]; try done.
  - intros b r post i E Hi. rewrite Hlev; [by apply (Hc b r post)|]. destruct b as [|r0 b]; [injection E as <- _; cbn; congruence|injection E as _ E; by apply (Hra b r post)].
  - intros i Hi. rewrite Hlev by congruence. by apply Hh.
  - destruct Hhd as (n & En & Hn). exists n. rewrite lookup_delete_ne by congruence. done.
  - intros b r c E. apply (is_row_same m); [rewrite lookup_delete_ne; [done|by apply not_eq_sym, (Hra b r c)]|by apply (Hr b r c)].
Qed.
Lemma row_not_linked m zsl p x q : zsl_ok m zsl (p ++ x :: q) -> r_addr x ∉ zsl_header zsl :: map r_addr (p ++ q).
Proof.
  intros [Hs _ _ _]. pose proof (sh_nodup _ _ _ _ Hs) as Hnd. rewrite map_app in *. cbn [map] in Hnd. apply NoDup_cons in Hnd as [Hhd Hnd]. apply NoDup_app in Hnd as (N1 & N2 & N3). apply NoDup_cons in N3 as [N3 _].
  rewrite not_elem_of_cons, not_elem_of_app. split; [intros E; rewrite E in *; set_solver|]. split; [intros Hin; apply (N2 _ Hin); set_solver|done].
Qed.
Lemma free_row m zsl rows x b : zsl_ok m zsl rows -> is_row m x b -> r_addr x ∉ zsl_header zsl :: map r_addr rows ->
  exists m', zslFreeNode m (r_addr x) = Some m' /\ zsl_ok m' zsl rows /\ dom m' = dom m ∖ {[r_addr x]}.
Proof. intros Hok (n & En & _) Hx. unfold zslFreeNode. rewrite En. cbn [mbind option_bind]. eexists. split; [done|]. split; [by apply zsl_ok_delete|by rewrite dom_delete_L]. Qed.
(** The node after the rows [p]. *)
Lemma next_row m zsl p q ur : zsl_ok m zsl (p ++ q) -> found_at (zsl_header zsl) (Z.to_nat (zsl_level zsl)) p ur -> lev m (found ur zsl) 0 = Some (fwd 0 q) /\ (fwd 0 q).1 = head (map r_addr q) /\
  found ur zsl = default (zsl_header zsl) (last_addr p) /\ ur !! 0%nat = Some (found ur zsl, zlen p).
Proof.
  intros [Hs _ _ _] Hur. pose proof (sh_level _ _ _ _ Hs) as HL. pose proof (sh_heights _ _ _ _ Hs) as Hall. apply Forall_app in Hall as [Hp Hq]. destruct (proj2 Hur 0%nat ltac:(lia)) as (u & k & Eu & Hat).
  destruct (last_at_0 _ _ _ _ _ ltac:(eapply Forall_impl; [exact Hp|cbn; lia]) Hat) as [-> Hud]. assert (Ef : found ur zsl = u) by (destruct ur as [|[u' k'] ur]; [done|]; by injection Eu as -> _).
  destruct Hat as (a & r & b & E & Hr & Hb & Eu2 & _). assert (Eb : b = []).
  { apply low0; [|done]. destruct a as [|r0 a]; [injection E as _ <-|injection E as _ Ep; rewrite Ep, Forall_app, Forall_cons in Hp; destruct Hp as (_ & _ & Hp)]; eapply Forall_impl; try exact Hp; cbn; lia. }
  subst b. split; [|split; [|split]].
  - rewrite Ef, Eu2. apply (sh_cells _ _ _ _ Hs a r q 0%nat); [|done]. change (hrow ?h ?l :: p ++ q) with ((hrow h l :: p) ++ q). rewrite E. by list_simplifier.
  - destruct q as [|y q']; [done|]. cbn [fwd map head]. apply Forall_cons in Hq as [Hy _]. by rewrite decide_True by lia.
  - by rewrite Ef.
  - by rewrite Ef.
Qed.

(** ** The other operations, on rows *)
Section RowSpec.
  Context `{NodeAllocator}.
Lemma found_split m zsl p q cond : zsl_ok m zsl (p ++ q) -> splits cond p (p ++ q) -> zlen (p ++ q) + 1 < 2 ^ 32 -> exists ur, seek 64 m zsl cond = Some ur /\
  found_at (zsl_header zsl) (Z.to_nat (zsl_level zsl)) p ur /\ (exists s, lev m (found ur zsl) 0 = Some (head (map r_addr q), s)) /\ found ur zsl = default (zsl_header zsl) (last_addr p) /\ ur !! 0%nat = Some (found ur zsl, zlen p).
Proof.
  intros Hok Hsp Hlen. destruct (seek_spec m zsl (p ++ q) 64 cond p q Hok eq_refl Hsp ltac:(lia) ltac:(lia)) as (ur & E & Hur). exists ur. split; [done|]. split; [done|].
  destruct (next_row m zsl p q ur Hok Hur) as (E1 & E2 & E3 & E4). split; [exists (fwd 0 q).2; rewrite E1, <- E2; by destruct (fwd 0 q)|done].
Qed.
Lemma delete_row m zsl p x q upd : zsl_ok m zsl (p ++ x :: q) -> updates (zsl_header zsl) (Z.to_nat (zsl_level zsl)) p upd -> zlen (p ++ x :: q) + 1 < 2 ^ 32 ->
  exists m1 zsl' m', zslDeleteNode m zsl (r_addr x) upd = Some (m1, zsl') /\ zslFreeNode m1 (r_addr x) = Some m' /\ zsl_ok m' zsl' (p ++ q) /\ zsl_header zsl' = zsl_header zsl /\
    zsl_level zsl' <= zsl_level zsl /\ dom m' = dom m ∖ {[r_addr x]}.
Proof.
  intros Hok Hu Hlen. destruct (delete_node_spec m zsl p x q upd Hok Hu Hlen) as (m1 & zsl' & E1 & Hok1 & (b & Hrow) & Eh & Hlv & Hd). pose proof (row_not_linked m zsl p x q Hok) as Hx. rewrite <- Eh in Hx.
  destruct (free_row m1 zsl' (p ++ q) x b Hok1 Hrow Hx) as (m' & E' & Hok' & Hd'). exists m1, zsl', m'. rewrite Hd in Hd'. done.
Qed.
Definition same_key (score : Z) (ele : list Z) (r : row) : bool := deq score (r_score r) && (lex_cmp (r_ele r) ele =? 0).
Lemma row_node m zsl p x q : zsl_ok m zsl (p ++ x :: q) -> exists n, m !! r_addr x = Some n /\ z_ele n = Some (r_ele x) /\ z_score n = r_score x /\ z_backward n = last_addr p /\ z_level n !! 0%nat = Some (fwd 0 q).
Proof.
  intros [Hs _ _ _]. destruct (sh_rows _ _ _ _ Hs p x q eq_refl) as (n & En & H1 & H2 & H3 & H4). exists n. repeat split; try done. rewrite <- (lev_some m _ n En). apply (sh_cells _ _ _ _ Hs (hrow (zsl_header zsl) (Z.to_nat (zsl_level zsl)) :: p) x q); [done|].
  pose proof (sh_heights _ _ _ _ Hs) as Hall. rewrite Forall_app, Forall_cons in Hall. lia.
Qed.
Lemma zslDelete_hit m zsl p x q score ele : zsl_ok m zsl (p ++ x :: q) -> splits (before score ele) p (p ++ x :: q) -> same_key score ele x = true -> zlen (p ++ x :: q) + 1 < 2 ^ 32 ->
  exists m' zsl', zslDelete m zsl score ele = Some (m', zsl', true) /\ zsl_ok m' zsl' (p ++ q) /\ zsl_header zsl' = zsl_header zsl /\ dom m' = dom m ∖ {[r_addr x]}.
Proof.
  intros Hok Hsp Hk Hlen. unfold zslDelete. destruct (found_split m zsl p (x :: q) _ Hok Hsp Hlen) as (ur & -> & Hur & (s & El) & _). cbn [mbind option_bind]. rewrite El. cbn [mbind option_bind map head].
  destruct (row_node m zsl p x q Hok) as (n & -> & He & Hsc & _). cbn [mbind option_bind]. unfold elecmp. rewrite He, Hsc. unfold same_key in Hk. rewrite Hk.
  destruct (delete_row m zsl p x q ur.*1 Hok (found_updates _ _ _ _ Hur) Hlen) as (m1 & zsl' & m' & -> & E2 & Hok' & Eh & _ & Hd). cbn [mbind option_bind]. rewrite E2. cbn [mbind option_bind]. by exists m', zsl'.
Qed.
Lemma zslDelete_miss m zsl p q score ele : zsl_ok m zsl (p ++ q) -> splits (before score ele) p (p ++ q) -> (forall x q', q = x :: q' -> same_key score ele x = false) -> zlen (p ++ q) + 1 < 2 ^ 32 ->
  zslDelete m zsl score ele = Some (m, zsl, false).
Proof.
  intros Hok Hsp Hk Hlen. unfold zslDelete. destruct (found_split m zsl p q _ Hok Hsp Hlen) as (ur & -> & Hur & (s & El) & _). cbn [mbind option_bind]. rewrite El. cbn [mbind option_bind map head].
  destruct q as [|x q]; [done|]. cbn [map head]. destruct (row_node m zsl p x q Hok) as (n & -> & He & Hsc & _). cbn [mbind option_bind]. unfold elecmp. rewrite He, Hsc. specialize (Hk x q eq_refl). unfold same_key in Hk. by rewrite Hk.
Qed.
(** zslUpdateScore when the node stays where it is, and when it moves. *)
Definition stays (p q : list row) (newscore : Z) : bool :=
  (match last p with None => true | Some b => dlt (r_score b) newscore end) && (match q with [] => true | y :: _ => dlt newscore (r_score y) end).
Lemma set_score_ok m zsl p x q s : zsl_ok m zsl (p ++ x :: q) -> exists m', set_score m (r_addr x) s = Some m' /\ zsl_ok m' zsl (p ++ mk_row (r_addr x) (r_h x) s (r_ele x) :: q) /\ dom m' = dom m.
Proof.
  intros Hok. pose proof (row_node m zsl p x q Hok) as (n & En & He & Hsc & Hb & _). unfold set_score. rewrite En. cbn [mbind option_bind]. eexists. split; [done|]. set (x' := mk_row _ _ s _). pose proof (row_not_linked m zsl p x q Hok) as Hx. apply not_elem_of_cons in Hx as [Hx1 Hx2]. rewrite map_app, not_elem_of_app in Hx2. destruct Hx2 as [Hx2 Hx3].
  destruct Hok as [[Hc Hh Hhd Hr Hnd Hhe Hle] Ht Hl Hlv]. assert (Hfwd : forall i c, fwd i (c ++ x' :: q) = fwd i (c ++ x :: q)) by (intros i c; induction c as [|r c IH]; [done|]; cbn [app fwd]; by rewrite IH).
  assert (Hlev : forall a i, lev (<[r_addr x := mk_znode (z_ele n) s (z_backward n) (z_level n)]> m) a i = lev m a i) by (intros a i; unfold lev; destruct (decide (a = r_addr x)) as [->|Ha]; [by rewrite lookup_insert_eq, En|by rewrite lookup_insert_ne]).
  split; [|rewrite dom_insert_L; apply (elem_of_dom_2 (D := gset positive)) in En; set_solver]. split; [split|..].
  - intros a r post i E Hi. rewrite Hlev. change (hrow ?h ?l :: p ++ x' :: q) with ((hrow h l :: p) ++ [x'] ++ q) in E. apply app_eq_inv in E as [(k & E1 & E)|(k & -> & E)].
    + destruct k as [|y k]; [rewrite app_nil_r in E1; subst a; injection E as -> ->; apply (Hc (hrow (zsl_header zsl) (Z.to_nat (zsl_level zsl)) :: p) x q i); [done|exact Hi]|]. injection E as <- ->. cbn [app]. rewrite Hfwd. apply (Hc a r (k ++ x :: q)); [|done]. change (hrow ?h ?l :: p ++ x :: q) with ((hrow h l :: p) ++ x :: q). rewrite E1. by list_simplifier.
    + destruct k as [|y k]; [injection E as <- <-; apply (Hc (hrow (zsl_header zsl) (Z.to_nat (zsl_level zsl)) :: p) x q i); [done|exact Hi]|]. injection E as <- E. apply (Hc (hrow (zsl_header zsl) (Z.to_nat (zsl_level zsl)) :: p ++ x :: k) r post i); [rewrite E; by list_simplifier|done].
  - intros i Hi. rewrite Hlev. by apply Hh.
  - destruct Hhd as (nh & Enh & Hnh). exists nh. by rewrite lookup_insert_ne by congruence.
  - assert (Hsame : forall r b, r_addr r <> r_addr x -> is_row m r b -> is_row (<[r_addr x := mk_znode (z_ele n) s (z_backward n) (z_level n)]> m) r b) by (intros r b Hne Hrow; apply (is_row_same m); [by rewrite lookup_insert_ne|done]).
    apply (splice_rows _ p [x'] q).
    + intros a r b E. apply Hsame; [intros Er; apply Hx2; rewrite <- Er, E, map_app; apply elem_of_app; right; apply list_elem_of_here|]. apply (Hr a r (b ++ x :: q)). rewrite E. by list_simplifier.
    + intros a r b E. destruct a as [|r0 a]; [|by destruct a]. injection E as <- <-. rewrite app_nil_r. destruct (Hr p x q eq_refl) as (n' & En' & G1 & G2 & G3 & G4). rewrite En in En'. injection En' as <-. eexists. split; [apply lookup_insert_eq|]. done.
    + intros a r b E. apply Hsame; [intros Er; apply Hx3; rewrite <- Er, E, map_app; apply elem_of_app; right; apply list_elem_of_here|]. specialize (Hr (p ++ x :: a) r b). rewrite last_addr_app in Hr. cbn [app]. rewrite last_addr_app. assert (El : last_addr (x' :: a) = last_addr (x :: a)) by (unfold last_addr; by destruct a). rewrite El. apply Hr. rewrite E. by list_simplifier.
  - rewrite map_app in *. exact Hnd.
  - rewrite Forall_app, Forall_cons in *. done.
  - done.
  - rewrite Ht, !last_addr_app. unfold last_addr. by destruct q.
  - by rewrite Hl, !zlen_app, !zlen_cons.
  - rewrite Hlv, !maxh_app, !maxh_cons. done.
Qed.
Lemma update_spec m zsl p x q curscore ele newscore draws h rest : zsl_ok m zsl (p ++ x :: q) -> splits (before curscore ele) p (p ++ x :: q) -> same_key curscore ele x = true -> zlen (p ++ x :: q) + 1 < 2 ^ 32 ->
  zslRandomLevel draws = Some (h, rest) -> isnan newscore = false ->
  if stays p q newscore then exists m', zslUpdateScore m zsl curscore ele newscore draws = Some (m', zsl, r_addr x, draws) /\ zsl_ok m' zsl (p ++ mk_row (r_addr x) (r_h x) newscore (r_ele x) :: q) /\ dom m' = dom m
  else forall p' q', p ++ q = p' ++ q' -> splits (before newscore (r_ele x)) p' (p' ++ q') ->
    exists m' zsl' y, zslUpdateScore m zsl curscore ele newscore draws = Some (m', zsl', y, rest) /\ zsl_ok m' zsl' (p' ++ mk_row y (Z.to_nat h) newscore (r_ele x) :: q') /\ y <> r_addr x /\ m !! y = None /\
      zsl_header zsl' = zsl_header zsl /\ dom m' = {[y]} ∪ dom m ∖ {[r_addr x]}.
Proof.
  intros Hok Hsp Hk Hlen Hd Hnan. destruct (found_split m zsl p (x :: q) _ Hok Hsp Hlen) as (ur & Es & Hur & (s0 & El) & _). destruct (row_node m zsl p x q Hok) as (n & En & He & Hsc & Hb & Hf0).
  assert (Hend : exists below above, match z_backward n with None => Some true | Some b => nb ← m !! b; Some (dlt (z_score nb) newscore) end = Some below /\
    match (fwd 0 q).1 with None => Some true | Some y => ny ← m !! y; Some (dlt newscore (z_score ny)) end = Some above /\ below && above = stays p q newscore).
  { unfold stays. rewrite Hb. unfold last_addr.
    exists (match last p with None => true | Some b => dlt (r_score b) newscore end), (match q with [] => true | y :: _ => dlt newscore (r_score y) end). split; [|split].
    - destruct (last p) as [r|] eqn:Er; cbn; [|reflexivity]. apply last_Some in Er as [l ->]. rewrite <- app_assoc in Hok. destruct (row_node m zsl l r (x :: q) Hok) as (nb & Enb & _ & Esb & _). rewrite Enb. cbn [mbind option_bind]. by rewrite Esb.
    - destruct q as [|y q']; [reflexivity|]. cbn [fwd]. pose proof (sh_heights _ _ _ _ (ok_shape _ _ _ Hok)) as Hall. rewrite Forall_app, !Forall_cons in Hall. rewrite decide_True by lia. cbn. destruct (row_node m zsl (p ++ [x]) y q') as (ny & Eny & _ & Esy & _); [by rewrite <- app_assoc|]. rewrite Eny. cbn [mbind option_bind]. by rewrite Esy.
    - done. }
  destruct Hend as (below & above & Ebelow & Eabove & Estays).
  assert (Hbody : zslUpdateScore m zsl curscore ele newscore draws = if stays p q newscore then m ← set_score m (r_addr x) newscore; Some (m, zsl, r_addr x, draws) else
      '(m, zsl) ← zslDeleteNode m zsl (r_addr x) ur.*1; '(m, zsl, y, draws) ← zslInsert m zsl newscore (r_ele x) draws; m ← zslFreeNode m (r_addr x); Some (m, zsl, y, draws)).
  { unfold zslUpdateScore. rewrite Es. cbn [mbind option_bind]. rewrite El. cbn [mbind option_bind map head]. rewrite En. cbn [mbind option_bind]. unfold elecmp. rewrite He, Hsc. unfold same_key in Hk. rewrite Hk. cbn [negb]. cbn [mbind option_bind] in Ebelow. rewrite Ebelow, Hf0. cbn [mbind option_bind].
    destruct (fwd 0 q) as [f0 sp0]. cbn [fst] in Eabove. cbn [mbind option_bind] in Eabove. rewrite Eabove. cbn [mbind option_bind]. by rewrite Estays. }
  rewrite Hbody. destruct (stays p q newscore).
  - destruct (set_score_ok m zsl p x q newscore Hok) as (m' & -> & Hok' & Hd'). by exists m'.
  - intros p' q' Epq Hsp'. destruct (delete_node_spec m zsl p x q ur.*1 Hok (found_updates _ _ _ _ Hur) Hlen) as (m1 & zsl1 & -> & Hok1 & (b & Hrow) & Eh & _ & Hd1). cbn [mbind option_bind]. rewrite Epq in Hok1.
    assert (Hlen' : zlen (p' ++ q') + 1 < 2 ^ 32) by (rewrite <- Epq, zlen_app; rewrite zlen_app, zlen_cons in Hlen; lia).
    destruct (zsl_insert_spec m1 zsl1 p' q' newscore (r_ele x) draws h rest Hok1 Hsp' Hnan Hd Hlen') as (m2 & zsl2 & y & -> & Hok2 & Hy & Eh2 & Hd2). cbn [mbind option_bind].
    assert (Hyx : y <> r_addr x) by (intros ->; destruct Hrow as (n1 & En1 & _); congruence). pose proof (row_not_linked m zsl p x q Hok) as Hx. rewrite Epq in Hx.
    assert (Hx2 : m2 !! r_addr x <> None) by (apply not_eq_None_Some, elem_of_dom; rewrite Hd2, Hd1; apply elem_of_union; right; by apply (elem_of_dom_2 (D := gset positive)) in En).
    unfold zslFreeNode. destruct (m2 !! r_addr x) eqn:Ex2; [|done]. cbn [mbind option_bind]. eexists _, _, _. split; [done|]. split; [|split; [done|split; [|split; [congruence|]]]].
    + apply zsl_ok_delete; [done|]. rewrite Eh2, Eh. rewrite map_app in *. cbn [map r_addr]. set_solver.
    + apply not_elem_of_dom. rewrite <- Hd1. by apply not_elem_of_dom.
    + rewrite dom_delete_L, Hd2, Hd1. set_solver.
Qed.
End RowSpec.
