(* ===== verification/ZskiplistSpec.v ===== *)
(** * Sorted sets as skip lists: ranges, ranks and the sorted list they implement

    The rows of a skip list ([Zskiplist.zsl_ok]) determine what the range and
    rank operations answer.  The elements of a sorted set are ordered by score
    and then by the bytes of the element; every operation is proved against
    the sorted list of pairs of score and element. *)
From Stdlib Require Import Sorting.Sorted.
From S2P Require Import Prelude Sds Zskiplist.

(** ** The order of byte strings *)
Lemma lex_cmp_eq a b : lex_cmp a b = 0 <-> a = b.
Proof.
  revert b. induction a as [|x a IH]; intros [|y b]; cbn; try done. destruct (x <? y) eqn:E1; [split; [done|]; intros [= -> _]; lia|]. destruct (y <? x) eqn:E2; [split; [done|]; intros [= -> _]; lia|].
  rewrite IH. replace y with x by lia. split; [by intros ->|by intros [=]].
Qed.
Lemma lex_cmp_antisym a b : lex_cmp b a = - lex_cmp a b.
Proof. revert b. induction a as [|x a IH]; intros [|y b]; cbn; try done. destruct (x <? y) eqn:E1, (y <? x) eqn:E2; try done. lia. Qed.
Lemma lex_cmp_trans a b c : lex_cmp a b < 0 -> lex_cmp b c < 0 -> lex_cmp a c < 0.
Proof.
  revert b c. induction a as [|x a IH]; intros [|y b] [|z c]; cbn; try lia. destruct (x <? y) eqn:E1, (y <? x) eqn:E2, (y <? z) eqn:E3, (z <? y) eqn:E4, (x <? z) eqn:E5, (z <? x) eqn:E6; try lia. apply IH.
Qed.

(** *** Ranges *)
Section RangeSpec.
  Context (m : zheap) (zsl : zskiplist) (rows : list row) (Hok : zsl_ok m zsl rows) (Hlen : zlen rows + 1 < 2 ^ 32).
(** A test of nodes that a test of rows decides. *)
Definition node_test (f : zskiplistNode -> bool) (P : row -> bool) : Prop := forall n r, z_ele n = Some (r_ele r) -> z_score n = r_score r -> f n = P r.
Lemma splits_test cond P p q : (forall k, node_test (fun n => cond n k) P) -> forallb P p = true -> forallb (fun r => negb (P r)) q = true -> splits cond p (p ++ q).
Proof.
  intros Hc Hp Hq a r c n E He Hs. rewrite (Hc _ n r He Hs). rewrite !forallb_forall in *. apply app_eq_inv in E as [(k & -> & E)|(k & -> & E)].
  - destruct k as [|y k]; [rewrite app_nil_r, Nat.ltb_irrefl; cbn in E; rewrite <- E in Hq; apply negb_true_iff, Hq; by left|]. injection E as <- _. rewrite (Hp r) by (apply in_app_iff; right; by left). symmetry. apply Nat.ltb_lt. rewrite length_app. cbn. lia.
  - rewrite E in Hq. rewrite length_app. rewrite (proj2 (Nat.ltb_ge _ _)) by lia. apply negb_true_iff, Hq. apply in_app_iff. right. by left.
Qed.
Lemma in_range_spec gte lte G T : node_test gte G -> node_test lte T ->
  in_range m zsl gte lte = Some (match last rows, head rows with Some t, Some f => G t && T f | _, _ => false end).
Proof.
  intros Hg Ht. unfold in_range. rewrite (ok_tail _ _ _ Hok). unfold last_addr. destruct (last rows) as [t|] eqn:El; cbn [fmap option_fmap option_map]; [|done].
  apply last_Some in El as [l Er]. assert (Hok2 := Hok). rewrite Er in Hok2. destruct (row_node m zsl l t [] Hok2) as (nt & -> & E1 & E2 & _). cbn [mbind option_bind]. rewrite (Hg nt t E1 E2).
  destruct rows as [|f rows'] eqn:Ef; [by destruct l|]. cbn [head]. destruct (G t); cbn [negb andb]; [|done].
  pose proof (sh_cells _ _ _ _ (ok_shape _ _ _ Hok) [] (hrow _ (Z.to_nat (zsl_level zsl))) (f :: rows') 0%nat eq_refl) as Hc. pose proof (sh_level _ _ _ _ (ok_shape _ _ _ Hok)). pose proof (sh_heights _ _ _ _ (ok_shape _ _ _ Hok)) as Hall. apply Forall_cons in Hall as [Hall _].
  cbn [r_addr hrow] in Hc. rewrite Hc by (cbn; lia). cbn [mbind option_bind fwd]. rewrite decide_True by lia. destruct (row_node m zsl [] f rows' Hok) as (nf & -> & E3 & E4 & _). cbn [mbind option_bind]. by rewrite (Ht nf f E3 E4).
Qed.
Lemma first_in_spec gte lte G T p x q : node_test gte G -> node_test lte T -> rows = p ++ x :: q -> forallb (fun r => negb (G r)) p = true -> forallb G (x :: q) = true ->
  first_in m zsl gte lte = Some (if T x then Some (r_addr x) else None).
Proof.
  intros Hg Ht E Hp Hq. unfold first_in. assert (Hok2 := Hok). assert (Hlen2 := Hlen). rewrite E in Hok2, Hlen2. destruct (found_split m zsl p (x :: q) (fun n _ => negb (gte n)) Hok2) as (ur & Es & _ & (s & El) & _); [|done|].
  { apply (splits_test _ (fun r => negb (G r))); [intros k n r H1 H2; by rewrite (Hg n r)|done|]. rewrite forallb_forall in *. intros r Hr. rewrite negb_involutive. by apply Hq. }
  rewrite Es. cbn [mbind option_bind]. rewrite El. cbn [mbind option_bind map head]. destruct (row_node m zsl p x q Hok2) as (n & -> & E1 & E2 & _). cbn [mbind option_bind]. rewrite (Ht n x E1 E2). by destruct (T x).
Qed.
Lemma last_in_spec gte lte G T p x q : node_test gte G -> node_test lte T -> rows = p ++ x :: q -> forallb T (p ++ [x]) = true -> forallb (fun r => negb (T r)) q = true ->
  last_in m zsl gte lte = Some (if G x then Some (r_addr x) else None).
Proof.
  intros Hg Ht E Hp Hq. unfold last_in. assert (E' : rows = (p ++ [x]) ++ q) by (rewrite E; by list_simplifier). assert (Hok2 := Hok). assert (Hlen2 := Hlen). rewrite E' in Hok2, Hlen2. destruct (found_split m zsl (p ++ [x]) q (fun n _ => lte n) Hok2) as (ur & Es & _ & _ & Ef & _); [|done|].
  { by apply (splits_test _ T). }
  rewrite Es. cbn [mbind option_bind]. rewrite Ef, last_addr_snoc. cbn [default]. assert (Hok3 := Hok). rewrite E in Hok3. destruct (row_node m zsl p x q Hok3) as (n & En & E1 & E2 & _). cbn. rewrite En. cbn [mbind option_bind]. rewrite (Hg n x E1 E2). by destruct (G x).
Qed.
End RangeSpec.

(** The loop that deletes the rows [d] after [p]. *)
Lemma delete_loop_spec {A} (cond : zskiplistNode -> Z -> bool) (d : list row) : forall (fuel : nat) (m : zheap) (zsl : zskiplist) (p q : list row) (dict : gmap (list Z) A) upd t removed,
  zsl_ok m zsl (p ++ d ++ q) -> updates (zsl_header zsl) (Z.to_nat (zsl_level zsl)) p upd -> zlen (p ++ d ++ q) + 1 < 2 ^ 32 -> (length d <= fuel)%nat -> 0 <= t -> t + zlen d < 2 ^ 64 -> 0 <= removed -> removed + zlen d < 2 ^ 64 ->
  (forall a r c n, d = a ++ r :: c -> z_ele n = Some (r_ele r) -> z_score n = r_score r -> cond n (t + zlen a) = true) ->
  (forall r q' n, q = r :: q' -> z_ele n = Some (r_ele r) -> z_score n = r_score r -> cond n (t + zlen d) = false) ->
  exists m' zsl', delete_loop fuel m zsl dict cond upd (head (map r_addr (d ++ q))) t removed = Some (m', zsl', foldl (fun dict r => delete (r_ele r) dict) dict d, removed + zlen d) /\
    zsl_ok m' zsl' (p ++ q) /\ zsl_header zsl' = zsl_header zsl /\ dom m' = dom m ∖ list_to_set (map r_addr d).
Proof.
  induction d as [|x d IH]; intros fuel m zsl p q dict upd t removed Hok Hu Hlen Hf Ht0 Ht Hr0 Hr Hd Hq.
  - exists m, zsl. cbn [foldl map list_to_set app]. change (zlen (@nil row)) with 0 in *. rewrite Z.add_0_r. cbn [app] in *. split; [|split; [done|split; [done|set_solver]]]. destruct q as [|y q]; [by destruct fuel|]. cbn [map head].
    destruct (row_node m zsl p y q Hok) as (n & En & E1 & E2 & _). specialize (Hq y q n eq_refl E1 E2). rewrite Z.add_0_r in Hq. destruct fuel; cbn [delete_loop]; rewrite En; cbn [mbind option_bind]; by rewrite Hq.
  - destruct fuel as [|fuel]; [cbn in Hf; lia|]. cbn [app map head foldl] in *. rewrite zlen_cons in *. pose proof (zlen_nonneg d). destruct (row_node m zsl p x (d ++ q) Hok) as (n & En & E1 & E2 & _ & E3). cbn [delete_loop]. rewrite En. cbn [mbind option_bind].
    pose proof (Hd [] x d n eq_refl E1 E2) as Hc. change (zlen (@nil row)) with 0 in Hc. rewrite Z.add_0_r in Hc. rewrite Hc, E3. cbn [mbind option_bind].
    destruct (delete_row m zsl p x (d ++ q) upd Hok Hu Hlen) as (m1 & zsl1 & m2 & Edel & Efree & Hok2 & Eh & Hlv & Hdom). assert (Ehead : (fwd 0 (d ++ q)).1 = head (map r_addr (d ++ q))).
    { pose proof (sh_heights _ _ _ _ (ok_shape _ _ _ Hok)) as Hall. rewrite Forall_app, Forall_cons in Hall. destruct (d ++ q) as [|y l]; [done|]. cbn [fwd map head]. destruct Hall as (_ & _ & Hall). apply Forall_cons in Hall as [Hall _]. by rewrite decide_True by lia. }
    destruct (fwd 0 (d ++ q)) as [f0 s0]. cbn [fst] in Ehead. subst f0. rewrite Edel. cbn [mbind option_bind]. rewrite E1. cbn [mbind option_bind]. rewrite Efree. cbn [mbind option_bind].
    rewrite !wrapu_small by (unfold in_u; lia).
    destruct (IH fuel m2 zsl1 p q (delete (r_ele x) dict) upd (t + 1) (removed + 1) Hok2) as (m' & zsl' & -> & Hok' & Eh' & Hdom'); try lia.
    + rewrite Eh. apply (updates_lower _ (Z.to_nat (zsl_level zsl))); [done|]. pose proof (sh_level _ _ _ _ (ok_shape _ _ _ Hok)). lia.
    + rewrite zlen_app, zlen_cons in Hlen. rewrite zlen_app. lia.
    + cbn in Hf. lia.
    + intros a r c n' -> H1 H2. replace (t + 1 + zlen a) with (t + zlen (x :: a)) by (rewrite zlen_cons; lia). by apply (Hd (x :: a) r c).
    + intros r q' n' Eq H1 H2. replace (t + 1 + zlen d) with (t + (1 + zlen d)) by lia. by apply (Hq r q').
    + exists m', zsl'. split; [do 2 f_equal; lia|]. split; [done|]. split; [congruence|]. rewrite Hdom', Hdom. cbn [list_to_set]. set_solver.
Qed.
Lemma delete_range_spec {A} (m : zheap) (zsl : zskiplist) (p d q : list row) (dict : gmap (list Z) A) skip keep :
  zsl_ok m zsl (p ++ d ++ q) -> zlen (p ++ d ++ q) + 1 < 2 ^ 32 -> splits skip p (p ++ d ++ q) ->
  (forall a r c n, d = a ++ r :: c -> z_ele n = Some (r_ele r) -> z_score n = r_score r -> keep n (zlen p + 1 + zlen a) = true) ->
  (forall r q' n, q = r :: q' -> z_ele n = Some (r_ele r) -> z_score n = r_score r -> keep n (zlen p + 1 + zlen d) = false) ->
  exists m' zsl', delete_range m zsl dict skip keep = Some (m', zsl', foldl (fun dict r => delete (r_ele r) dict) dict d, zlen d) /\
    zsl_ok m' zsl' (p ++ q) /\ zsl_header zsl' = zsl_header zsl /\ dom m' = dom m ∖ list_to_set (map r_addr d).
Proof.
  intros Hok Hlen Hsp Hk1 Hk2. unfold delete_range. destruct (found_split m zsl p (d ++ q) skip Hok Hsp Hlen) as (ur & -> & Hur & (s & El) & _ & Eu). cbn [mbind option_bind].
  destruct ur as [|[u0 k0] ur]; [done|]. injection Eu as Ek. cbn [mbind option_bind]. rewrite El. cbn [mbind option_bind]. rewrite Ek. rewrite !zlen_app in Hlen. pose proof (zlen_nonneg p). pose proof (zlen_nonneg d). pose proof (zlen_nonneg q). rewrite wrapu_small by (unfold in_u; lia).
  destruct (delete_loop_spec keep d (Z.to_nat (zsl_length zsl)) m zsl p q dict (((u0, k0) :: ur).*1) (zlen p + 1) 0 Hok (found_updates _ _ _ _ Hur)) as (m' & zsl' & E & Hrest); try done; try lia.
  - rewrite !zlen_app. lia.
  - rewrite (ok_length _ _ _ Hok), !zlen_app. unfold zlen. lia.
  - exists m', zsl'. rewrite Z.add_0_l in E. split; [exact E|done].
Qed.

(** *** Ranks *)
Section RankSpec.
  Context (m : zheap) (zsl : zskiplist) (rows : list row) (Hok : zsl_ok m zsl rows) (Hlen : zlen rows + 1 < 2 ^ 32).
#[local] Abbreviation hd := (zsl_header zsl).
#[local] Abbreviation L := (Z.to_nat (zsl_level zsl)).
#[local] Abbreviation all := (hrow hd L :: rows).
Lemma row_some a r c : all = a ++ r :: c -> exists n, m !! r_addr r = Some n.
Proof.
  destruct Hok as [[_ _ (n & En & _) Hr _ _ _] _ _ _]. destruct a as [|h a]; intros E; injection E as <- E; [by exists n|]. destruct (Hr a r c E) as (n' & En' & _). by exists n'.
Qed.
Lemma rank_loop_rows cond stop pre post fuel : cut m all cond (length pre) -> all = pre ++ post -> (length pre <= S fuel)%nat -> forall levels a r b, pre = a ++ r :: b -> (levels <= r_h r)%nat ->
  exists res, rank_loop fuel m cond stop levels (r_addr r) (zlen a) = Some res /\
    match res with
    | Some (u, k) => exists i n, last_at pre i u k /\ m !! u = Some n /\ stop n k = true
    | None => forall i u k, (i < levels)%nat -> last_at pre i u k -> exists n, m !! u = Some n /\ stop n k = false
    end.
Proof.
  intros Hcut Eall Hfuel. induction levels as [|i IH]; intros a r b Epre Hh; cbn [rank_loop]; [exists None; split; [done|intros; lia]|].
  assert (Hall : zlen all < 2 ^ 64) by (rewrite zlen_cons; lia). assert (Hb : (length b <= fuel)%nat) by (rewrite Epre, length_app in Hfuel; cbn in Hfuel; lia).
  destruct (walk_spec m all 64 ltac:(lia) (sh_cells _ _ _ _ (ok_shape _ _ _ Hok)) Hall cond pre post i Hcut Eall fuel a r b Epre ltac:(lia) Hb) as (a' & r' & b' & -> & Ep' & Hi' & Hlow & _).
  cbn [mbind option_bind]. destruct (row_some a' r' (b' ++ post)) as (n & En); [rewrite Eall, Ep'; by list_simplifier|]. rewrite En. cbn [mbind option_bind]. destruct (stop n (zlen a')) eqn:Es.
  - eexists. split; [done|]. exists i, n. split; [by exists a', r', b'|done].
  - destruct (IH a' r' b' Ep' ltac:(lia)) as (res & -> & Hres). exists res. split; [done|]. destruct res as [[u k]|]; [done|]. intros j u k Hj Hu. destruct (decide (j = i)) as [->|]; [|apply (Hres j); [lia|done]].
    destruct Hu as (a2 & r2 & b2 & E2 & Hi2 & Hl2 & -> & ->). destruct (last_at_unique pre i a2 r2 b2 a' r' b' E2 Ep' Hi2 Hl2 Hi' Hlow) as (-> & -> & ->). by exists n.
Qed.
Lemma rank_loop_spec cond stop p q : rows = p ++ q -> splits cond p rows ->
  exists res, rank_loop (Z.to_nat (zsl_length zsl)) m cond stop L hd 0 = Some res /\
    match res with
    | Some (u, k) => exists i n, last_at (hrow hd L :: p) i u k /\ m !! u = Some n /\ stop n k = true
    | None => exists n, m !! default hd (last_addr p) = Some n /\ stop n (zlen p) = false
    end.
Proof.
  intros E Hsp. pose proof (ok_shape _ _ _ Hok) as Hs. destruct (rank_loop_rows cond stop (hrow hd L :: p) q (Z.to_nat (zsl_length zsl))) with (levels := L) (a := @nil row) (r := hrow hd L) (b := p) as (res & Er & Hres).
  - apply (splits_cut m hd L rows cond p); done.
  - by rewrite E.
  - rewrite (ok_length _ _ _ Hok), E, zlen_app. unfold zlen. cbn [length]. lia.
  - done.
  - done.
  - exists res. split; [exact Er|]. destruct res as [[u k]|]; [done|]. pose proof (sh_level _ _ _ _ Hs). apply (Hres 0%nat); [lia|].
    pose proof (sh_heights _ _ _ _ Hs) as Hall. rewrite E, Forall_app in Hall. destruct Hall as [Hall _]. destruct p as [|x l _] using rev_ind; [exists [], (hrow hd L), []; cbn; split; [done|split; [lia|done]]|].
    rewrite last_addr_snoc. exists (hrow hd L :: l), x, []. apply Forall_app in Hall as [_ Hall]. apply Forall_cons in Hall as [Hall _]. split; [done|]. split; [lia|]. split; [done|]. split; [done|]. rewrite zlen_app, !zlen_cons. change (zlen (@nil row)) with 0. lia.
Qed.
Lemma last_at_row p q i u k : rows = p ++ q -> last_at (hrow hd L :: p) i u k -> k = 0 /\ u = hd \/ exists a x b, p = a ++ x :: b /\ u = r_addr x /\ k = zlen a + 1.
Proof.
  intros E (a & r & b & Ep & _ & _ & -> & ->). destruct a as [|h a]; injection Ep as <- Ep; [by left|]. right. exists a, r, b. by rewrite zlen_cons, Z.add_comm.
Qed.
Lemma head_node : exists n, m !! hd = Some n /\ z_ele n = None.
Proof. destruct Hok as [[_ _ (n & En & He & _) _ _ _ _] _ _ _]. by exists n. Qed.
Lemma get_rank_hit p x q score ele : rows = p ++ x :: q -> splits (upto score ele) (p ++ [x]) rows -> r_ele x = ele -> NoDup (map r_ele rows) -> zslGetRank m zsl score ele = Some (zlen p + 1).
Proof.
  intros E Hsp He Hnd. unfold zslGetRank. assert (E' : rows = (p ++ [x]) ++ q) by (rewrite E; by list_simplifier). destruct (rank_loop_spec (upto score ele) (fun n _ => is_ele n ele) (p ++ [x]) q E' Hsp) as (res & -> & Hres). cbn [mbind option_bind].
  destruct res as [[u k]|].
  - destruct Hres as (i & n & Hat & En & Hst). destruct (last_at_row _ _ _ _ _ E' Hat) as [[-> ->]|(a & y & b & Ep & -> & ->)].
    + destruct head_node as (nh & Enh & Hh). rewrite Enh in En. injection En as <-. unfold is_ele in Hst. by rewrite Hh in Hst.
    + assert (Ey : rows = a ++ y :: (b ++ q)) by (rewrite E', Ep; by list_simplifier). assert (Hok2 := Hok). rewrite Ey in Hok2. destruct (row_node m zsl a y (b ++ q) Hok2) as (n' & En' & E1 & _). rewrite En in En'. injection En' as <-. unfold is_ele in Hst. rewrite E1, Z.eqb_eq, lex_cmp_eq in Hst.
      f_equal. f_equal. assert (Hl : length a = length p); [|unfold zlen; lia]. apply (NoDup_lookup (map r_ele rows) _ _ ele Hnd).
      * rewrite Ey, map_app, <- Hst. cbn [map]. by rewrite list_lookup_middle by (by rewrite length_map).
      * rewrite E, map_app, <- He. cbn [map]. by rewrite list_lookup_middle by (by rewrite length_map).
  - destruct Hres as (n & En & Hst). rewrite last_addr_snoc in En. cbn [default] in En. assert (Hok2 := Hok). rewrite E in Hok2. destruct (row_node m zsl p x q Hok2) as (n' & En' & E1 & _). cbn in En. rewrite En in En'. injection En' as <-. unfold is_ele in Hst. rewrite E1, He in Hst. apply Z.eqb_neq in Hst. by rewrite (proj2 (lex_cmp_eq _ _)) in Hst.
Qed.
Lemma get_rank_miss p q score ele : rows = p ++ q -> splits (upto score ele) p rows -> ele ∉ map r_ele rows -> zslGetRank m zsl score ele = Some 0.
Proof.
  intros E Hsp Hni. unfold zslGetRank. destruct (rank_loop_spec (upto score ele) (fun n _ => is_ele n ele) p q E Hsp) as (res & -> & Hres). cbn [mbind option_bind]. destruct res as [[u k]|]; [|done]. exfalso.
  destruct Hres as (i & n & Hat & En & Hst). destruct (last_at_row _ _ _ _ _ E Hat) as [[-> ->]|(a & y & b & Ep & -> & ->)].
  - destruct head_node as (nh & Enh & Hh). rewrite Enh in En. injection En as <-. unfold is_ele in Hst. by rewrite Hh in Hst.
  - assert (Ey : rows = a ++ y :: (b ++ q)) by (rewrite E, Ep; by list_simplifier). assert (Hok2 := Hok). rewrite Ey in Hok2. destruct (row_node m zsl a y (b ++ q) Hok2) as (n' & En' & E1 & _). rewrite En in En'. injection En' as <-. unfold is_ele in Hst. rewrite E1, Z.eqb_eq, lex_cmp_eq in Hst.
    apply Hni. rewrite Ey, map_app, <- Hst. apply elem_of_app. right. apply list_elem_of_here.
Qed.
(** A rank of at least 1: rank 0 is the header's. *)
Lemma by_rank_spec rank : 1 <= rank -> zslGetElementByRank m zsl rank = Some (r_addr <$> rows !! Z.to_nat (rank - 1)).
Proof.
  intros Hr. unfold zslGetElementByRank. set (p := take (Z.to_nat rank) rows). assert (E : rows = p ++ drop (Z.to_nat rank) rows) by (symmetry; apply take_drop).
  assert (Hsp : splits (fun _ reached => reached <=? rank) p rows).
  { intros a r c n Ea _ _. unfold p. rewrite length_take, Ea, length_app. cbn [length]. unfold zlen. apply eq_true_iff_eq. rewrite Nat.ltb_lt, Z.leb_le. lia. }
  destruct (rank_loop_spec _ (fun _ t => t =? rank) p _ E Hsp) as (res & -> & Hres). cbn [mbind option_bind]. f_equal. destruct res as [[u k]|].
  - destruct Hres as (i & n & Hat & En & Hk). apply Z.eqb_eq in Hk. destruct (last_at_row _ _ _ _ _ E Hat) as [[-> ->]|(a & y & b & Ep & -> & ->)]; [lia|]. rewrite E, Ep, <- Hk, Z.add_simpl_r. rewrite <- app_assoc, <- app_comm_cons, list_lookup_middle by (unfold zlen; lia). done.
  - destruct Hres as (n & En & Hk). apply Z.eqb_neq in Hk. rewrite lookup_ge_None_2; [done|]. unfold p, zlen in Hk. rewrite length_take in Hk. lia.
Qed.
End RankSpec.

(** *** Creation and release *)
Section Release.
  Context `{NodeAllocator}.
Lemma zsl_create_spec m : exists m' zsl, zslCreate m = Some (m', zsl) /\ zsl_ok m' zsl [] /\ m !! zsl_header zsl = None /\ dom m' = {[zsl_header zsl]} ∪ dom m.
Proof.
  unfold zslCreate. set (x := new_addr m). set (n0 := zslCreateNode ZSKIPLIST_MAXLEVEL 0 None). set (m0 := <[x := n0]> m).
  assert (Hn0 : length (z_level n0) = 32%nat) by (cbn; by rewrite length_map, length_seq).
  destruct (for_levels_spec (fun m j => set_lev m x j (None, 0)) (fun i a => if decide (a = x) then Some (None, 0) else lev m0 a i) (seq 0 32) m0) as (m1 & E1 & Hf & Hlev & _).
  { intros m1 i Hi Hf Heq. apply elem_of_seq in Hi. assert (Hc : exists c, lev m1 x i = Some c).
    { rewrite Heq. unfold lev, m0. rewrite lookup_insert_eq. cbn [mbind option_bind]. destruct (lookup_lt_is_Some_2 (z_level n0) i) as [c Ec]; [lia|]. by exists c. }
    destruct Hc as [c Hc]. destruct (set_lev_spec m1 x i (None, 0) c Hc) as (m2 & E2 & Hf2 & Hother & Hx). exists m2. split; [done|]. split; [done|]. split; [intros a j Hj; apply Hother; by right|].
    intros a. destruct (decide (a = x)) as [->|Ha]; [done|]. rewrite Hother by (by left). apply Heq. }
  { apply NoDup_seq. }
  destruct (frame_some m0 m1 x n0 Hf) as (n1 & En1 & He & _ & _ & Hl); [apply lookup_insert_eq|].
  change (Z.to_nat ZSKIPLIST_MAXLEVEL) with 32%nat. rewrite E1. cbn [mbind option_bind]. destruct (set_back_spec m1 x None n1 En1) as (m2 & -> & Ex & Hother & Hlev2). cbn [mbind option_bind]. exists m2, (mk_zsl x None 0 1). split; [done|]. cbn [zsl_header].
  assert (Hlx : forall i, (i < 32)%nat -> lev m2 x i = Some (None, 0)) by (intros i Hi; rewrite Hlev2, Hlev by (apply elem_of_seq; lia); by rewrite decide_True).
  split; [split; [split|..]|].
  - intros a r post i E Hi. destruct a as [|h a]; [injection E as <- <-|by destruct a]. cbn in Hi. rewrite Hlx by lia. done.
  - intros i Hi. exists 0. cbn in Hi. apply Hlx. lia.
  - eexists. split; [exact Ex|]. cbn. split; [done|]. split; [done|]. by rewrite Hl.
  - intros a r c E. by destruct a.
  - cbn. apply NoDup_singleton.
  - done.
  - cbn. lia.
  - done.
  - done.
  - done.
  - split; [apply new_fresh|]. apply sets.set_eq. intros a. rewrite elem_of_union, elem_of_singleton, !elem_of_dom. destruct (decide (a = x)) as [->|Ha]; [rewrite Ex; split; [by left|done]|]. rewrite Hother by done.
    pose proof (frame_dom m0 m1 a Hf) as Hd. unfold m0 in Hd. rewrite lookup_insert_ne in Hd by done. rewrite <- !not_eq_None_Some. naive_solver.
Qed.
Lemma free_loop_spec q : forall fuel m, (length q <= fuel)%nat -> NoDup (map r_addr q) -> (forall a r c, q = a ++ r :: c -> exists s, lev m (r_addr r) 0 = Some (head (map r_addr c), s)) ->
  exists m', free_loop fuel m (head (map r_addr q)) = Some m' /\ dom m' = dom m ∖ list_to_set (map r_addr q).
Proof.
  induction q as [|r q IH]; intros fuel m Hf Hnd Hl; [exists m; split; [by destruct fuel|cbn; set_solver]|]. destruct fuel as [|fuel]; [cbn in Hf; lia|]. cbn [map head free_loop] in *. destruct (Hl [] r q eq_refl) as (s & El). rewrite El. cbn [mbind option_bind].
  unfold zslFreeNode. unfold lev in El. destruct (m !! r_addr r) as [n|] eqn:En; [|done]. cbn [mbind option_bind]. apply NoDup_cons in Hnd as [Hni Hnd]. destruct (IH fuel (delete (r_addr r) m)) as (m' & -> & Hd); [cbn in Hf; lia|done| |].
  - intros a r' c ->. destruct (Hl (r :: a) r' c eq_refl) as (s' & El'). exists s'. unfold lev. rewrite lookup_delete_ne; [done|]. intros Er. apply Hni. rewrite map_app, Er. apply elem_of_app. right. apply list_elem_of_here.
  - exists m'. split; [done|]. rewrite Hd, dom_delete_L. cbn [list_to_set]. set_solver.
Qed.
Lemma zsl_free_spec m zsl rows : zsl_ok m zsl rows -> exists m', zslFree m zsl = Some m' /\ dom m' = dom m ∖ list_to_set (zsl_header zsl :: map r_addr rows).
Proof.
  intros [Hs Ht Hl Hlv]. unfold zslFree. pose proof (sh_level _ _ _ _ Hs). pose proof (sh_heights _ _ _ _ Hs) as Hh. assert (Hfwd : forall c, Forall (fun r => (1 <= r_h r)%nat) c -> (fwd 0 c).1 = head (map r_addr c)) by (intros [|y c] Hc; [done|]; cbn [fwd map head]; apply Forall_cons in Hc as [Hc _]; by rewrite decide_True by lia).
  assert (Hh1 : Forall (fun r => (1 <= r_h r)%nat) rows) by (eapply Forall_impl; [exact Hh|cbn; intros; lia]).
  pose proof (sh_cells _ _ _ _ Hs [] (hrow (zsl_header zsl) (Z.to_nat (zsl_level zsl))) rows 0%nat eq_refl ltac:(cbn; lia)) as Hc. cbn [r_addr hrow] in Hc. rewrite Hc. cbn [mbind option_bind]. rewrite (surjective_pairing (fwd 0 rows)), Hfwd by done. cbn [mbind option_bind].
  unfold zslFreeNode at 1. destruct (sh_head _ _ _ _ Hs) as (n & En & _). rewrite En. cbn [mbind option_bind]. pose proof (sh_nodup _ _ _ _ Hs) as Hnd. apply NoDup_cons in Hnd as [Hni Hnd].
  destruct (free_loop_spec rows (Z.to_nat (zsl_length zsl)) (delete (zsl_header zsl) m)) as (m' & -> & Hd); [rewrite Hl; unfold zlen; lia|done| |].
  - intros a r c E. exists (fwd 0 c).2. rewrite E in Hh1. apply Forall_app in Hh1 as [_ Hh1]. apply Forall_cons in Hh1 as [Hr Hc1]. rewrite <- Hfwd by done. unfold lev. rewrite lookup_delete_ne.
    + rewrite <- surjective_pairing. apply (sh_cells _ _ _ _ Hs (hrow (zsl_header zsl) (Z.to_nat (zsl_level zsl)) :: a) r c); [by rewrite E|lia].
    + intros Er. apply Hni. rewrite E, map_app, Er. apply elem_of_app. right. apply list_elem_of_here.
  - exists m'. split; [done|]. rewrite Hd, dom_delete_L. cbn [list_to_set]. set_solver.
Qed.
End Release.
