(* ===== verification/Zset.v ===== *)
(** * Sorted sets (t_zset.c), skip list encoding

    A sorted set is a hash table from elements to nodes and a skip list that
    shares those nodes.  The operations behind ZADD, ZINCRBY, ZREM, ZSCORE,
    ZRANK, ZRANGE, ZRANGEBYSCORE, ZCOUNT, ZPOPMIN and the ZREMRANGE commands
    are composed from those of the skip list, and proved to implement the
    list of the pairs of score and element sorted by score and element,
    for every sequence of operations and whatever the random heights are.
    The hash table is the finite map that [Dict] shows it implements; the
    value of an entry, the address of the score in a node, is the node's
    address.  Counts and indexes of the commands are unbounded integers,
    which the bounds of the theorems keep within the widths of the code. *)
From Stdlib Require Import Sorting.Sorted.
From S2P Require Import Prelude Sds Zskiplist ZskiplistSpec.

Record zset := mk_zset { zs_dict : gmap (list Z) positive; zs_zsl : zskiplist }.

Definition ZADD_INCR : Z := 1.
Definition ZADD_NX : Z := 2.
Definition ZADD_XX : Z := 4.
Definition ZADD_NOP : Z := 8.
Definition ZADD_NAN : Z := 16.
Definition ZADD_ADDED : Z := 32.
Definition ZADD_UPDATED : Z := 64.
Definition has_flag (flags f : Z) : bool := negb (Z.land flags f =? 0).

(** ** Operations *)
Section Operations.
  Context `{NodeAllocator}.
  (** Addition of doubles, on their 64 bits. *)
  Variable dadd : Z -> Z -> Z.

Definition createZsetObject (m : zheap) : option (zheap * zset) :=
  '(m, zsl) ← zslCreate m; Some (m, mk_zset ∅ zsl).
Definition zsetLength (zs : zset) : Z := zsl_length (zs_zsl zs).
(** The double that [dictGetVal(de)] points to. *)
Definition score_at (m : zheap) (a : positive) : option Z := n ← m !! a; Some (z_score n).
(** The inner [None] is C_ERR. *)
Definition zsetScore (m : zheap) (zs : zset) (member : list Z) : option (option Z) :=
  match zs_dict zs !! member with
  | None => Some None
  | Some a => s ← score_at m a; Some (Some s)
  end.

(** The return value, the flags and what is stored in [*newscore]. *)
Record zadded := mk_zadded { za_ret : Z; za_flags : Z; za_newscore : option Z }.
Definition zsetAdd (m : zheap) (zs : zset) (score : Z) (ele : list Z) (flags : Z) (draws : list Z) : option (zheap * zset * zadded * list Z) :=
  let incr := has_flag flags ZADD_INCR in
  let nx := has_flag flags ZADD_NX in
  let xx := has_flag flags ZADD_XX in
  if isnan score then Some (m, zs, mk_zadded 0 ZADD_NAN None, draws)
  else match zs_dict zs !! ele with
  | Some de =>
      if nx then Some (m, zs, mk_zadded 1 ZADD_NOP None, draws)
      else
        curscore ← score_at m de;
        let score := if incr then dadd score curscore else score in
        let newscore := if incr then Some score else None in
        if incr && isnan score then Some (m, zs, mk_zadded 0 ZADD_NAN None, draws)
        else if negb (deq score curscore) then
          '(m, zsl, znode, draws) ← zslUpdateScore m (zs_zsl zs) curscore ele score draws;
          Some (m, mk_zset (<[ele := znode]> (zs_dict zs)) zsl, mk_zadded 1 ZADD_UPDATED newscore, draws)
        else Some (m, zs, mk_zadded 1 0 newscore, draws)
  | None =>
      if xx then Some (m, zs, mk_zadded 1 ZADD_NOP None, draws)
      else
        '(m, zsl, znode, draws) ← zslInsert m (zs_zsl zs) score ele draws;
        Some (m, mk_zset (<[ele := znode]> (zs_dict zs)) zsl, mk_zadded 1 ZADD_ADDED (Some score), draws)
  end.

Definition zsetDel (m : zheap) (zs : zset) (ele : list Z) : option (zheap * zset * bool) :=
  match zs_dict zs !! ele with
  | Some de =>
      score ← score_at m de;
      '(m, zsl, retval) ← zslDelete m (zs_zsl zs) score ele;
      if (retval : bool) then Some (m, mk_zset (delete ele (zs_dict zs)) zsl, true) else None
  | None => Some (m, zs, false)
  end.

Definition zsetRank (m : zheap) (zs : zset) (ele : list Z) (reverse : bool) : option Z :=
  let llen := zsetLength zs in
  match zs_dict zs !! ele with
  | Some de =>
      score ← score_at m de;
      rank ← zslGetRank m (zs_zsl zs) score ele;
      if rank =? 0 then None else Some (if reverse then llen - rank else rank - 1)
  | None => Some (-1)
  end.

(** The indexes of a range by rank, [None] when it is empty. *)
Definition range_indexes (llen start stop : Z) : option (Z * Z) :=
  let start := if start <? 0 then llen + start else start in
  let stop := if stop <? 0 then llen + stop else stop in
  let start := if start <? 0 then 0 else start in
  if (start >? stop) || (start >=? llen) then None
  else Some (start, if stop >=? llen then llen - 1 else stop).

(** zremrangeGenericCommand once the arguments are parsed: the sorted set,
    the number of elements removed, and whether the key is removed. *)
Inductive zremrange := ByRank (start stop : Z) | ByScore (range : zrangespec) | ByLex (range : zlexrangespec).
Definition zremrangeGeneric (m : zheap) (zs : zset) (r : zremrange) : option (zheap * zset * (Z * bool)) :=
  let finish (res : option (zheap * zskiplist * gmap (list Z) positive * Z)) :=
    '(m, zsl, dict, deleted) ← res; Some (m, mk_zset dict zsl, (deleted, bool_decide (dict = ∅))) in
  match r with
  | ByRank start stop =>
      match range_indexes (zsetLength zs) start stop with
      | None => Some (m, zs, (0, false))
      | Some (start, stop) => finish (zslDeleteRangeByRank m (zs_zsl zs) (start + 1) (stop + 1) (zs_dict zs))
      end
  | ByScore range => finish (zslDeleteRangeByScore m (zs_zsl zs) range (zs_dict zs))
  | ByLex range => finish (zslDeleteRangeByLex m (zs_zsl zs) range (zs_dict zs))
  end.

(** [reverse ? ln->backward : ln->level[0].forward] *)
Definition move (reverse : bool) (n : zskiplistNode) : option ptr :=
  if reverse then Some (z_backward n) else '(f, _) ← z_level n !! 0%nat; Some f.
Definition reply_of (n : zskiplistNode) : option (Z * list Z) := e ← z_ele n; Some (z_score n, e).
Fixpoint range_loop (rangelen : nat) (m : zheap) (reverse : bool) (ln : ptr) : option (list (Z * list Z)) :=
  match rangelen with
  | O => Some []
  | S rangelen =>
      x ← ln; n ← m !! x; k ← reply_of n; ln ← move reverse n;
      rest ← range_loop rangelen m reverse ln; Some (k :: rest)
  end.
(** zrangeGenericCommand: the elements with their scores. *)
Definition zrangeGeneric (m : zheap) (zs : zset) (start stop : Z) (reverse : bool) : option (list (Z * list Z)) :=
  let zsl := zs_zsl zs in
  let llen := zsetLength zs in
  match range_indexes llen start stop with
  | None => Some []
  | Some (start, stop) =>
      let rangelen := stop - start + 1 in
      ln ← (if reverse then if start >? 0 then zslGetElementByRank m zsl (llen - start) else Some (zsl_tail zsl)
            else if start >? 0 then zslGetElementByRank m zsl (start + 1) else '(f, _) ← lev m (zsl_header zsl) 0; Some f);
      range_loop (Z.to_nat rangelen) m reverse ln
  end.

(** [while (ln && offset--)] and [while (ln && limit--)]; [None] also when
    the decrement overflows a long. *)
Definition dec_long (z : Z) : option Z := if z =? - 2 ^ 63 then None else Some (z - 1).
Fixpoint skip_loop (fuel : nat) (m : zheap) (reverse : bool) (ln : ptr) (offset : Z) : option ptr :=
  match ln with
  | None => Some None
  | Some x =>
      offset' ← dec_long offset;
      if offset =? 0 then Some ln
      else match fuel with O => None | S fuel => n ← m !! x; ln ← move reverse n; skip_loop fuel m reverse ln offset' end
  end.
Fixpoint take_loop (fuel : nat) (m : zheap) (reverse : bool) (inside : zskiplistNode -> bool) (ln : ptr) (limit : Z) : option (list (Z * list Z)) :=
  match ln with
  | None => Some []
  | Some x =>
      limit' ← dec_long limit;
      if limit =? 0 then Some []
      else
        n ← m !! x;
        if negb (inside n) then Some []
        else match fuel with
             | O => None
             | S fuel => k ← reply_of n; ln ← move reverse n; rest ← take_loop fuel m reverse inside ln limit'; Some (k :: rest)
             end
  end.
(** genericZrangebyscoreCommand *)
Definition zrangebyscore (m : zheap) (zs : zset) (range : zrangespec) (reverse : bool) (offset limit : Z) : option (list (Z * list Z)) :=
  let zsl := zs_zsl zs in
  let fuel := Z.to_nat (zsl_length zsl) in
  ln ← (if reverse then zslLastInRange m zsl range else zslFirstInRange m zsl range);
  match ln with
  | None => Some []
  | Some _ =>
      ln ← skip_loop fuel m reverse ln offset;
      take_loop fuel m reverse (fun n => if reverse then zslValueGteMin (z_score n) range else zslValueLteMax (z_score n) range) ln limit
  end.

(** zcountCommand *)
Definition rank_of (m : zheap) (zsl : zskiplist) (x : positive) : option Z :=
  n ← m !! x; e ← z_ele n; zslGetRank m zsl (z_score n) e.
Definition zcount (m : zheap) (zs : zset) (range : zrangespec) : option Z :=
  let zsl := zs_zsl zs in
  zn ← zslFirstInRange m zsl range;
  match zn with
  | None => Some 0
  | Some x =>
      rank ← rank_of m zsl x;
      let count := zsl_length zsl - (rank - 1) in
      zn ← zslLastInRange m zsl range;
      match zn with
      | None => Some count
      | Some y => rank ← rank_of m zsl y; Some (count - (zsl_length zsl - rank))
      end
  end.

(** genericZpopCommand on one sorted set: [do { ... } while(--count)]; what
    is replied, and whether the key is removed. *)
Fixpoint zpop_loop (count : nat) (m : zheap) (zs : zset) (max : bool) : option (zheap * zset * (list (Z * list Z) * bool)) :=
  match count with
  | O => Some (m, zs, ([], false))
  | S count =>
      '(first, _) ← lev m (zsl_header (zs_zsl zs)) 0;
      x ← (if max then zsl_tail (zs_zsl zs) else first);
      n ← m !! x;
      k ← reply_of n;
      '(m, zs, b) ← zsetDel m zs k.2;
      if negb b then None
      else if zsetLength zs =? 0 then Some (m, zs, ([k], true))
      else '(m, zs, (ks, removed)) ← zpop_loop count m zs max; Some (m, zs, (k :: ks, removed))
  end.
End Operations.

(** ** The sorted list *)
(** Scores and elements: by score, then by element. *)
Abbreviation zkey := (Z * list Z)%type.
Definition kltb (a b : zkey) : bool := (dord a.1 <? dord b.1) || ((dord a.1 =? dord b.1) && (lex_cmp a.2 b.2 <? 0)).
Definition klt (a b : zkey) : Prop := kltb a b = true.
Definition key (r : row) : zkey := (r_score r, r_ele r).

Lemma klt_iff a b : klt a b <-> dord a.1 < dord b.1 \/ (dord a.1 = dord b.1 /\ lex_cmp a.2 b.2 < 0).
Proof. unfold klt, kltb. rewrite orb_true_iff, andb_true_iff, !Z.ltb_lt, Z.eqb_eq. done. Qed.
#[export] Instance klt_trans : Transitive klt.
Proof. intros a b c. rewrite !klt_iff. intros [H1|[H1 H1']] [H2|[H2 H2']]; try lia. right. split; [lia|]. by apply (lex_cmp_trans _ b.2). Qed.
#[export] Instance klt_irreflexive : Irreflexive klt.
Proof. intros a Ha. apply klt_iff in Ha as [|[_ Ha]]; [lia|]. rewrite (proj2 (lex_cmp_eq a.2 a.2) eq_refl) in Ha. lia. Qed.
Lemma klt_asym a b : klt a b -> kltb b a = false.
Proof. intros Hab. apply not_true_iff_false. intros Hba. exact (klt_irreflexive a (transitivity Hab Hba)). Qed.
Lemma klt_total a b : a.2 <> b.2 -> kltb a b = false -> klt b a.
Proof.
  intros Hne Hab. apply not_true_iff_false in Hab. unfold klt. destruct (kltb b a) eqn:E; [done|]. apply not_true_iff_false in E. exfalso. apply Hne, lex_cmp_eq. fold (klt a b) in Hab. fold (klt b a) in E. rewrite klt_iff in Hab, E. rewrite (lex_cmp_antisym a.2 b.2) in E. lia.
Qed.

(** ** Splitting sorted lists *)
Lemma sorted_app {A} (R : A -> A -> Prop) l1 l2 : StronglySorted R (l1 ++ l2) <-> StronglySorted R l1 /\ StronglySorted R l2 /\ Forall (fun a => Forall (R a) l2) l1.
Proof.
  induction l1 as [|a l1 IH]; cbn [app]; [split; [intros Hs; split; [constructor|split; [done|constructor]]|by intros (_ & Hs & _)]|]. split.
  - intros Hs. apply StronglySorted_inv in Hs as [Hs Ha]. apply IH in Hs as (H1 & H2 & H3). apply Forall_app in Ha as [Ha1 Ha2]. split; [by constructor|]. split; [done|]. by constructor.
  - intros (Hs & H2 & H3). apply StronglySorted_inv in Hs as [Hs Ha]. apply Forall_cons in H3 as [H3 H4]. constructor; [by apply IH|]. by apply Forall_app.
Qed.
Lemma filter_none {A} (P : A -> bool) l : Forall (fun a => P a = false) l -> List.filter P l = [].
Proof. induction 1 as [|a l Ha _ IH]; [done|]. cbn. by rewrite Ha. Qed.
Lemma filter_all {A} (P : A -> bool) l : Forall (fun a => P a = true) l -> List.filter P l = l.
Proof. induction 1 as [|a l Ha _ IH]; [done|]. cbn. by rewrite Ha, IH. Qed.
Lemma forallb_Forall {A} (P : A -> bool) l : forallb P l = true <-> Forall (fun a => P a = true) l.
Proof. rewrite forallb_forall, List.Forall_forall. done. Qed.
(** A test that holds of everything below what it holds of splits a sorted list. *)
Lemma sorted_split {A} (R : A -> A -> Prop) (P : A -> bool) l : (forall a b, R a b -> P b = true -> P a = true) -> StronglySorted R l -> l = List.filter P l ++ List.filter (fun a => negb (P a)) l.
Proof.
  intros Hdown. induction 1 as [|a l Hl IH Ha]; [done|]. cbn [List.filter]. destruct (P a) eqn:E; cbn [negb]; [cbn [app]; by rewrite <- IH|].
  assert (Hn : List.filter P l = []); [|rewrite Hn in IH |- *; cbn [app] in *; congruence]. apply filter_none. eapply Forall_impl; [exact Ha|]. cbn. intros b Hb. apply not_true_iff_false. intros Hp. rewrite (Hdown a b Hb Hp) in E. done.
Qed.
(** Two such tests, of which the second holds where the first does: what lies between. *)
Lemma sorted_split3 {A} (R : A -> A -> Prop) (P Q : A -> bool) l : (forall a b, R a b -> P b = true -> P a = true) -> (forall a b, R a b -> Q b = true -> Q a = true) -> StronglySorted R l ->
  exists p d q, l = p ++ d ++ q /\ p = List.filter P l /\ Forall (fun a => P a = true) p /\ Forall (fun a => P a = false) (d ++ q) /\ Forall (fun a => Q a = true) d /\ Forall (fun a => P a = false /\ Q a = false) q /\
    d = List.filter (fun a => negb (P a) && Q a) l.
Proof.
  intros HP HQ Hs. set (p := List.filter P l). set (r := List.filter (fun a => negb (P a)) l). assert (E : l = p ++ r) by (by apply (sorted_split R)). assert (Hr : StronglySorted R r) by (rewrite E in Hs; apply sorted_app in Hs as (_ & Hs & _); exact Hs).
  assert (Hpt : Forall (fun a => P a = true) p) by (apply List.Forall_forall; intros a Ha; apply filter_In in Ha as [_ Ha]; exact Ha). assert (Hrf : Forall (fun a => P a = false) r) by (apply List.Forall_forall; intros a Ha; apply filter_In in Ha as [_ Ha]; apply negb_true_iff in Ha; exact Ha).
  exists p, (List.filter Q r), (List.filter (fun a => negb (Q a)) r). rewrite <- (sorted_split R Q r HQ Hr). split; [done|]. split; [done|]. split; [done|]. split; [done|]. split; [|split].
  - apply List.Forall_forall. intros a Ha. apply filter_In in Ha as [_ Ha]. exact Ha.
  - apply List.Forall_forall. intros a Ha. apply filter_In in Ha as [Ha Hq]. rewrite List.Forall_forall in Hrf. split; [by apply Hrf|by apply negb_true_iff].
  - rewrite E at 1. rewrite List.filter_app, (filter_none (fun a => negb (P a) && Q a) p), app_nil_l by (eapply Forall_impl; [exact Hpt|]; cbn; intros a Ha; by rewrite Ha).
    apply List.filter_ext_in. intros a Ha. rewrite List.Forall_forall in Hrf. by rewrite (Hrf a Ha).
Qed.

(** ** What the operations compute on the sorted list *)
Definition has_ele (e : list Z) (k : zkey) : bool := bool_decide (k.2 = e).
Definition z_insert (k : zkey) (l : list zkey) : list zkey := List.filter (fun a => kltb a k) l ++ k :: List.filter (fun a => negb (kltb a k)) l.
Definition z_remove (e : list Z) (l : list zkey) : list zkey := List.filter (fun a => negb (has_ele e a)) l.
Definition z_find (e : list Z) (l : list zkey) : option (nat * zkey) := list_find (fun a => a.2 = e) l.
Definition z_score_of (e : list Z) (l : list zkey) : option Z := (fun x => x.2.1) <$> z_find e l.
Definition z_set (s : Z) (e : list Z) (l : list zkey) : list zkey := z_insert (s, e) (z_remove e l).
Definition z_add (dadd : Z -> Z -> Z) (score : Z) (e : list Z) (flags : Z) (l : list zkey) : list zkey * zadded :=
  let incr := has_flag flags ZADD_INCR in
  if isnan score then (l, mk_zadded 0 ZADD_NAN None)
  else match z_score_of e l with
  | Some cur =>
      if has_flag flags ZADD_NX then (l, mk_zadded 1 ZADD_NOP None)
      else
        let s := if incr then dadd score cur else score in
        if isnan s then (l, mk_zadded 0 ZADD_NAN None)
        else if deq s cur then (l, mk_zadded 1 0 (if incr then Some s else None))
        else (z_set s e l, mk_zadded 1 ZADD_UPDATED (if incr then Some s else None))
  | None =>
      if has_flag flags ZADD_XX then (l, mk_zadded 1 ZADD_NOP None)
      else (z_set score e l, mk_zadded 1 ZADD_ADDED (Some score))
  end.
Definition z_rank (e : list Z) (reverse : bool) (l : list zkey) : Z :=
  match z_find e l with Some (i, _) => if reverse then zlen l - 1 - Z.of_nat i else Z.of_nat i | None => -1 end.

(** ** The representation *)
Abbreviation rlt := (fun a b : row => klt (key a) (key b)).
Record rep (m : zheap) (zs : zset) (rows : list row) : Prop := {
  rep_zsl : zsl_ok m (zs_zsl zs) rows;
  rep_sorted : StronglySorted rlt rows;
  rep_nan : Forall (fun r => isnan (r_score r) = false) rows;
  rep_nodup : NoDup (map r_ele rows);
  rep_dict e a : zs_dict zs !! e = Some a <-> exists r, r ∈ rows /\ r_ele r = e /\ r_addr r = a;
  rep_dom : dom m = list_to_set (zsl_header (zs_zsl zs) :: map r_addr rows)
}.
(** The sorted list a sorted set stands for. *)
Definition zset_of (m : zheap) (zs : zset) (l : list zkey) : Prop := exists rows, rep m zs rows /\ l = map key rows.

Lemma dlt_dord a b : isnan a = false -> isnan b = false -> dlt a b = (dord a <? dord b).
Proof. intros Ha Hb. unfold dlt, ordered. by rewrite Ha, Hb. Qed.
Lemma dle_dord a b : isnan a = false -> isnan b = false -> dle a b = (dord a <=? dord b).
Proof. intros Ha Hb. unfold dle, ordered. by rewrite Ha, Hb. Qed.
Lemma deq_dord a b : isnan a = false -> isnan b = false -> deq a b = (dord a =? dord b).
Proof. intros Ha Hb. unfold deq, ordered. by rewrite Ha, Hb. Qed.

(** The conditions of the searches, on rows. *)
Definition row_before (s : Z) (e : list Z) (r : row) : bool := dlt (r_score r) s || (deq (r_score r) s && (lex_cmp (r_ele r) e <? 0)).
Definition row_upto (s : Z) (e : list Z) (r : row) : bool := dlt (r_score r) s || (deq (r_score r) s && (lex_cmp (r_ele r) e <=? 0)).
Lemma before_test s e k : node_test (fun n => before s e n k) (row_before s e).
Proof. intros n r He Hs. unfold before, row_before, elecmp. by rewrite He, Hs. Qed.
Lemma upto_test s e k : node_test (fun n => upto s e n k) (row_upto s e).
Proof. intros n r He Hs. unfold upto, row_upto, elecmp. by rewrite He, Hs. Qed.
Lemma row_before_key s e r : isnan s = false -> isnan (r_score r) = false -> row_before s e r = kltb (key r) (s, e).
Proof. intros Hs Hr. unfold row_before, kltb, key. cbn [fst snd]. by rewrite dlt_dord, deq_dord. Qed.
Lemma row_upto_key s e r : isnan s = false -> isnan (r_score r) = false -> row_upto s e r = negb (kltb (s, e) (key r)).
Proof.
  intros Hs Hr. unfold row_upto, kltb, key. cbn [fst snd]. rewrite dlt_dord, deq_dord by done. rewrite (lex_cmp_antisym (r_ele r) e). apply eq_true_iff_eq. rewrite negb_true_iff, <- not_true_iff_false, !orb_true_iff, !andb_true_iff, !Z.ltb_lt, !Z.eqb_eq, Z.leb_le. lia.
Qed.
Lemma splits_rows cond P p q : (forall k, node_test (fun n => cond n k) P) -> Forall (fun r => P r = true) p -> Forall (fun r => P r = false) q -> splits cond p (p ++ q).
Proof.
  intros Hc Hp Hq. apply (splits_test cond P); [done|by apply forallb_Forall|]. apply forallb_Forall. eapply Forall_impl; [exact Hq|]. cbn. intros r ->. done.
Qed.

(** *** Rows and the sorted list *)
Definition dict_for (d : gmap (list Z) positive) (rows : list row) : Prop := forall e a, d !! e = Some a <-> exists r, r ∈ rows /\ r_ele r = e /\ r_addr r = a.
Lemma elem_row (rows : list row) e : e ∈ map r_ele rows <-> exists r, r ∈ rows /\ r_ele r = e.
Proof. change (map r_ele rows) with (r_ele <$> rows). rewrite list_elem_of_fmap. naive_solver. Qed.
Lemma row_split e rows : e ∈ map r_ele rows -> NoDup (map r_ele rows) -> exists p x q, rows = p ++ x :: q /\ r_ele x = e /\ e ∉ map r_ele (p ++ q).
Proof.
  intros He Hnd. apply elem_row in He as (x & Hx & <-). apply list_elem_of_split in Hx as (p & q & ->). exists p, x, q. split; [done|]. split; [done|]. rewrite map_app in *. cbn [map] in Hnd. apply NoDup_app in Hnd as (H1 & H2 & H3). apply NoDup_cons in H3 as [H3 H4]. set_solver.
Qed.
Lemma z_find_row p x q : r_ele x ∉ map r_ele (p ++ q) -> z_find (r_ele x) (map key (p ++ x :: q)) = Some (length p, key x).
Proof.
  intros Hni. unfold z_find. apply list_find_Some. rewrite map_app. cbn [map]. split; [by rewrite list_lookup_middle by (by rewrite length_map)|]. split; [done|]. intros j y Hy Hj E. apply Hni. rewrite lookup_app_l in Hy by (by rewrite length_map). change (map key p) with (key <$> p) in Hy. rewrite list_lookup_fmap in Hy.
  destruct (p !! j) as [r|] eqn:Er; [|done]. injection Hy as <-. rewrite elem_row. exists r. split; [apply elem_of_app; left; by eapply list_elem_of_lookup_2|done].
Qed.
Lemma z_find_none e rows : e ∉ map r_ele rows -> z_find e (map key rows) = None.
Proof. intros Hni. apply list_find_None, List.Forall_forall. intros k Hk E. apply in_map_iff in Hk as (r & <- & Hr). apply Hni, elem_row. exists r. split; [by apply list_elem_of_In|done]. Qed.
Lemma z_remove_none e rows : e ∉ map r_ele rows -> z_remove e (map key rows) = map key rows.
Proof.
  intros Hni. apply filter_all, List.Forall_forall. intros k Hk. apply in_map_iff in Hk as (r & <- & Hr). unfold has_ele. rewrite (bool_decide_false (snd (key r) = e)); [done|]. intros E. apply Hni, elem_row. exists r. split; [by apply list_elem_of_In|done].
Qed.
Lemma z_remove_row p x q : r_ele x ∉ map r_ele (p ++ q) -> z_remove (r_ele x) (map key (p ++ x :: q)) = map key (p ++ q).
Proof.
  intros Hni. rewrite !map_app in *. apply not_elem_of_app in Hni as [Hp Hq]. unfold z_remove. rewrite List.filter_app. cbn [map List.filter]. unfold has_ele at 2. rewrite (bool_decide_true (snd (key x) = r_ele x)) by done. cbn [negb]. f_equal; by apply z_remove_none.
Qed.
Lemma z_insert_at p q k : Forall (fun r => kltb (key r) k = true) p -> Forall (fun r => kltb (key r) k = false) q -> z_insert k (map key (p ++ q)) = map key p ++ k :: map key q.
Proof.
  intros Hp Hq. unfold z_insert. rewrite map_app, !List.filter_app. rewrite (filter_all _ (map key p)), (filter_none _ (map key q)), app_nil_r, (filter_none _ (map key p)), (filter_all _ (map key q)); [done|..]; apply Forall_map.
  - eapply Forall_impl; [exact Hq|]. cbn. intros r ->. done.
  - eapply Forall_impl; [exact Hp|]. cbn. intros r ->. done.
  - done.
  - done.
Qed.
Lemma sorted_middle p x q : StronglySorted rlt (p ++ x :: q) -> Forall (fun r => klt (key r) (key x)) p /\ Forall (fun r => klt (key x) (key r)) q /\ StronglySorted rlt (p ++ q).
Proof.
  rewrite !sorted_app. intros (H1 & H2 & H3). apply StronglySorted_inv in H2 as [H2 H4]. split; [eapply Forall_impl; [exact H3|]; cbn; intros r Hr; by apply Forall_cons in Hr as [Hr _]|]. split; [done|]. split; [done|]. split; [done|]. eapply Forall_impl; [exact H3|]. cbn. intros r Hr. by apply Forall_cons in Hr as [_ Hr].
Qed.
Lemma sorted_put p x q : StronglySorted rlt (p ++ q) -> Forall (fun r => klt (key r) (key x)) p -> Forall (fun r => klt (key x) (key r)) q -> StronglySorted rlt (p ++ x :: q).
Proof.
  rewrite !sorted_app. intros (H1 & H2 & H3) Hp Hq. split; [done|]. split; [by constructor|]. rewrite List.Forall_forall in *. intros r Hr. constructor; [by apply Hp|by apply H3].
Qed.
Lemma insert_place s e rows : StronglySorted rlt rows -> Forall (fun r => isnan (r_score r) = false) rows -> isnan s = false ->
  exists p q, rows = p ++ q /\ splits (before s e) p (p ++ q) /\ Forall (fun r => kltb (key r) (s, e) = true) p /\ Forall (fun r => kltb (key r) (s, e) = false) q.
Proof.
  intros Hs Hn Hnan. set (P := fun r => kltb (key r) (s, e)). assert (E : rows = List.filter P rows ++ List.filter (fun r => negb (P r)) rows).
  { apply (sorted_split rlt); [|done]. unfold P. intros a b Hab Hb. exact (transitivity Hab Hb). }
  set (p := List.filter P rows) in *. set (q := List.filter (fun r => negb (P r)) rows) in *. assert (Hp : Forall (fun r => P r = true) p) by (apply List.Forall_forall; intros r Hr; apply filter_In in Hr as [_ Hr]; exact Hr).
  assert (Hq : Forall (fun r => P r = false) q) by (apply List.Forall_forall; intros r Hr; apply filter_In in Hr as [_ Hr]; by apply negb_true_iff). exists p, q. split; [done|]. split; [|done]. rewrite E in Hn. apply Forall_app in Hn as [Hn1 Hn2]. apply (splits_rows _ (row_before s e)); [intros k; apply before_test|..]; rewrite List.Forall_forall in Hn1, Hn2, Hp, Hq |- *; intros r Hr.
  - rewrite row_before_key; [by apply Hp|done|by apply Hn1].
  - rewrite row_before_key; [by apply Hq|done|by apply Hn2].
Qed.
Lemma other_after p x q : r_ele x ∉ map r_ele (p ++ q) -> Forall (fun r => kltb (key r) (key x) = false) q -> Forall (fun r => klt (key x) (key r)) q.
Proof.
  intros Hni Hq. rewrite List.Forall_forall in *. intros r Hr. apply klt_total; [|by apply Hq]. cbn. intros E. apply Hni. rewrite elem_row. exists r. split; [apply elem_of_app; right; by apply list_elem_of_In|done].
Qed.
Lemma dict_put d p x q : dict_for d (p ++ q) -> r_ele x ∉ map r_ele (p ++ q) -> dict_for (<[r_ele x := r_addr x]> d) (p ++ x :: q).
Proof.
  intros Hd Hni e a. destruct (decide (e = r_ele x)) as [->|Hne].
  - rewrite lookup_insert_eq. split; [intros [= <-]; exists x; split; [set_solver|done]|]. intros (r & Hr & Er & <-). f_equal. assert (r = x) as ->; [|done]. apply elem_of_app in Hr. rewrite elem_of_cons in Hr. destruct Hr as [Hr|[->|Hr]]; [|done|]; destruct Hni; apply elem_row; exists r; (split; [apply elem_of_app; tauto|done]).
  - rewrite lookup_insert_ne by done. rewrite (Hd e a). split; intros (r & Hr & Er & Ea); exists r; (split; [|done]); rewrite elem_of_app in *; [rewrite elem_of_cons; tauto|]. rewrite elem_of_cons in Hr. destruct Hr as [?|[->|?]]; [tauto|done|tauto].
Qed.
Lemma dict_drop d p x q : dict_for d (p ++ x :: q) -> r_ele x ∉ map r_ele (p ++ q) -> dict_for (delete (r_ele x) d) (p ++ q).
Proof.
  intros Hd Hni e a. destruct (decide (e = r_ele x)) as [->|Hne].
  - rewrite lookup_delete_eq. split; [done|]. intros (r & Hr & Er & _). destruct Hni. apply elem_row. by exists r.
  - rewrite lookup_delete_ne by done. rewrite (Hd e a). split; intros (r & Hr & Er & Ea); exists r; (split; [|done]); rewrite elem_of_app in *; [|rewrite elem_of_cons; tauto]. rewrite elem_of_cons in Hr. destruct Hr as [?|[->|?]]; [tauto|done|tauto].
Qed.
Lemma nodup_drop p x q : NoDup (map r_ele (p ++ x :: q)) -> NoDup (map r_ele (p ++ q)) /\ r_ele x ∉ map r_ele (p ++ q).
Proof. rewrite !map_app. cbn [map]. rewrite !NoDup_app, NoDup_cons. set_solver. Qed.
Lemma nodup_put p x q : NoDup (map r_ele (p ++ q)) -> r_ele x ∉ map r_ele (p ++ q) -> NoDup (map r_ele (p ++ x :: q)).
Proof. rewrite !map_app. cbn [map]. rewrite !NoDup_app, NoDup_cons. set_solver. Qed.

Lemma rep_put m zsl d p x q : zsl_ok m zsl (p ++ x :: q) -> StronglySorted rlt (p ++ q) -> Forall (fun r => isnan (r_score r) = false) (p ++ q) -> NoDup (map r_ele (p ++ q)) -> dict_for d (p ++ q) -> r_ele x ∉ map r_ele (p ++ q) ->
  isnan (r_score x) = false -> Forall (fun r => kltb (key r) (key x) = true) p -> Forall (fun r => kltb (key r) (key x) = false) q -> dom m = list_to_set (zsl_header zsl :: map r_addr (p ++ x :: q)) ->
  rep m (mk_zset (<[r_ele x := r_addr x]> d) zsl) (p ++ x :: q).
Proof.
  intros Hok Hs Hn Hnd Hd Hni Hx Hp Hq Hdom. split; cbn [zs_zsl zs_dict]; try done.
  - apply sorted_put; [done|done|by apply (other_after p)].
  - apply Forall_app in Hn as [Hn1 Hn2]. apply Forall_app. by split; [|constructor].
  - by apply nodup_put.
  - by apply dict_put.
Qed.
Lemma rep_drop m zs m' zsl' p x q : rep m zs (p ++ x :: q) -> zsl_ok m' zsl' (p ++ q) -> zsl_header zsl' = zsl_header (zs_zsl zs) -> dom m' = dom m ∖ {[r_addr x]} -> rep m' (mk_zset (delete (r_ele x) (zs_dict zs)) zsl') (p ++ q).
Proof.
  intros Hr Hok Hh Hd. destruct (nodup_drop p x q (rep_nodup _ _ _ Hr)) as [Hnd Hni]. split; cbn [zs_zsl zs_dict]; try done.
  - apply (sorted_middle p x q (rep_sorted _ _ _ Hr)).
  - pose proof (rep_nan _ _ _ Hr) as Hn. rewrite Forall_app, Forall_cons in Hn. rewrite Forall_app. tauto.
  - apply dict_drop; [exact (rep_dict _ _ _ Hr)|done].
  - rewrite Hd, (rep_dom _ _ _ Hr), Hh. pose proof (row_not_linked m (zs_zsl zs) p x q (rep_zsl _ _ _ Hr)) as Hx. rewrite !map_app in *. cbn [map]. cbn [list_to_set]. rewrite !list_to_set_app_L. cbn [list_to_set]. apply sets.set_eq. intros a. rewrite elem_of_cons, elem_of_app in Hx.
    rewrite elem_of_difference, !elem_of_union, !elem_of_singleton, !elem_of_list_to_set. split; [tauto|]. intros Ha. split; [tauto|]. intros ->. tauto.
Qed.

(** ** The operations implement the sorted list *)
Section Implements.
  Context `{NodeAllocator} (dadd : Z -> Z -> Z).

Lemma nan_middle p x q : Forall (fun r => isnan (r_score r) = false) (p ++ x :: q) -> isnan (r_score x) = false /\ Forall (fun r => isnan (r_score r) = false) p /\ Forall (fun r => isnan (r_score r) = false) q.
Proof. rewrite Forall_app, Forall_cons. tauto. Qed.
(** The place of a row, and the place after it. *)
Lemma splits_row m zs p x q : rep m zs (p ++ x :: q) -> splits (before (r_score x) (r_ele x)) p (p ++ x :: q) /\ splits (upto (r_score x) (r_ele x)) (p ++ [x]) (p ++ x :: q).
Proof.
  intros Hr. destruct (nan_middle p x q (rep_nan _ _ _ Hr)) as (Hx & Hp & Hq). destruct (sorted_middle p x q (rep_sorted _ _ _ Hr)) as (Sp & Sq & _). rewrite List.Forall_forall in *. split.
  - apply (splits_rows _ (row_before (r_score x) (r_ele x))); [intros k; apply before_test|..].
    + apply List.Forall_forall. intros r Hin. rewrite row_before_key by auto. by apply Sp.
    + constructor; [rewrite row_before_key by done; apply not_true_iff_false, klt_irreflexive|]. apply List.Forall_forall. intros r Hin. rewrite row_before_key by auto. by apply klt_asym, Sq.
  - replace (p ++ x :: q) with ((p ++ [x]) ++ q) by (by list_simplifier). apply (splits_rows _ (row_upto (r_score x) (r_ele x))); [intros k; apply upto_test|..].
    + apply Forall_app. split; [apply List.Forall_forall; intros r Hin; rewrite row_upto_key by auto; apply negb_true_iff; by apply klt_asym, Sp|]. constructor; [|constructor]. rewrite row_upto_key by done. apply negb_true_iff, not_true_iff_false, klt_irreflexive.
    + apply List.Forall_forall. intros r Hin. rewrite row_upto_key by auto. apply negb_false_iff. by apply Sq.
Qed.
Lemma same_key_row m zs p x q : rep m zs (p ++ x :: q) -> same_key (r_score x) (r_ele x) x = true.
Proof.
  intros Hr. destruct (nan_middle p x q (rep_nan _ _ _ Hr)) as (Hx & _). unfold same_key. by rewrite deq_dord, Z.eqb_refl, (proj2 (lex_cmp_eq _ _)) by done.
Qed.
Lemma rep_lookup m zs rows e : rep m zs rows ->
  match zs_dict zs !! e with
  | Some a => exists p x q, rows = p ++ x :: q /\ r_addr x = a /\ r_ele x = e /\ e ∉ map r_ele (p ++ q) /\ score_at m a = Some (r_score x) /\ z_find e (map key rows) = Some (length p, key x)
  | None => e ∉ map r_ele rows /\ z_find e (map key rows) = None
  end.
Proof.
  intros Hr. destruct (zs_dict zs !! e) as [a|] eqn:Ed.
  - apply (rep_dict _ _ _ Hr) in Ed as (x & Hx & <- & <-). apply list_elem_of_split in Hx as (p & q & ->). destruct (nodup_drop p x q (rep_nodup _ _ _ Hr)) as [_ Hni]. exists p, x, q. repeat split; try done; [|by apply z_find_row].
    unfold score_at. destruct (row_node m (zs_zsl zs) p x q (rep_zsl _ _ _ Hr)) as (n & -> & _ & <- & _). done.
  - assert (Hni : e ∉ map r_ele rows); [|split; [done|by apply z_find_none]]. intros He. apply elem_row in He as (r & Hin & E). assert (Hs : zs_dict zs !! e = Some (r_addr r)) by (apply (rep_dict _ _ _ Hr); by exists r). congruence.
Qed.

Lemma zsetScore_spec m zs l e : zset_of m zs l -> zsetScore m zs e = Some (z_score_of e l).
Proof.
  intros (rows & Hr & ->). unfold zsetScore, z_score_of. pose proof (rep_lookup m zs rows e Hr) as Hl. destruct (zs_dict zs !! e) as [a|]; [|destruct Hl as [_ ->]; done]. destruct Hl as (p & x & q & _ & _ & _ & _ & -> & ->). done.
Qed.
Lemma zsetLength_spec m zs l : zset_of m zs l -> zsetLength zs = zlen l.
Proof. intros (rows & Hr & ->). unfold zsetLength. rewrite (ok_length _ _ _ (rep_zsl _ _ _ Hr)). unfold zlen. by rewrite length_map. Qed.
Lemma zsetDel_spec m zs l e : zset_of m zs l -> zlen l + 1 < 2 ^ 32 -> exists m' zs', zsetDel m zs e = Some (m', zs', bool_decide (is_Some (z_score_of e l))) /\ zset_of m' zs' (z_remove e l).
Proof.
  intros (rows & Hr & ->) Hlen. unfold zlen in Hlen. rewrite length_map in Hlen. fold (zlen rows) in Hlen. unfold zsetDel, z_score_of. pose proof (rep_lookup m zs rows e Hr) as Hl. destruct (zs_dict zs !! e) as [a|] eqn:Ed.
  - destruct Hl as (p & x & q & -> & <- & <- & Hni & -> & ->). cbn [mbind option_bind]. destruct (zslDelete_hit m (zs_zsl zs) p x q (r_score x) (r_ele x)) as (m' & zsl' & -> & Hok & Hh & Hd); [apply Hr|eapply splits_row, Hr|by eapply same_key_row|done|]. cbn [mbind option_bind].
    exists m', (mk_zset (delete (r_ele x) (zs_dict zs)) zsl'). split; [done|]. exists (p ++ q). split; [by apply (rep_drop m)|by apply z_remove_row].
  - destruct Hl as [Hni ->]. exists m, zs. split; [done|]. exists rows. split; [done|by apply z_remove_none].
Qed.
Lemma zsetRank_spec m zs l e reverse : zset_of m zs l -> zlen l + 1 < 2 ^ 32 -> zsetRank m zs e reverse = Some (z_rank e reverse l).
Proof.
  intros (rows & Hr & ->) Hlen. unfold zlen in Hlen. rewrite length_map in Hlen. fold (zlen rows) in Hlen. unfold zsetRank, z_rank. pose proof (rep_lookup m zs rows e Hr) as Hl. destruct (zs_dict zs !! e) as [a|] eqn:Ed; [|destruct Hl as [_ ->]; done].
  destruct Hl as (p & x & q & -> & <- & <- & Hni & -> & ->). cbn [mbind option_bind]. rewrite (get_rank_hit m (zs_zsl zs) (p ++ x :: q) (rep_zsl _ _ _ Hr) Hlen p x q _ _ eq_refl (proj2 (splits_row m zs p x q Hr)) eq_refl (rep_nodup _ _ _ Hr)). cbn [mbind option_bind]. pose proof (zlen_nonneg p).
  rewrite (proj2 (Z.eqb_neq _ _)) by lia. unfold zsetLength. rewrite (ok_length _ _ _ (rep_zsl _ _ _ Hr)). f_equal. unfold zlen. rewrite length_map. destruct reverse; lia.
Qed.
Lemma stays_place p x q s e : StronglySorted rlt (p ++ x :: q) -> Forall (fun r => isnan (r_score r) = false) (p ++ x :: q) -> isnan s = false -> stays p q s = true ->
  Forall (fun r => kltb (key r) (s, e) = true) p /\ Forall (fun r => kltb (key r) (s, e) = false) q.
Proof.
  intros Hs Hn Hsn Hst. destruct (nan_middle p x q Hn) as (_ & Hp & Hq). apply andb_true_iff in Hst as [H1 H2]. apply sorted_middle in Hs as (_ & _ & Hs). apply sorted_app in Hs as (Sp & Sq & _). split.
  - destruct p as [|y p _] using rev_ind; [done|]. rewrite last_snoc in H1. apply Forall_app in Hp as [Hp Hy]. apply Forall_cons in Hy as [Hy _]. rewrite dlt_dord, Z.ltb_lt in H1 by done. assert (Hk : klt (key y) (s, e)) by (apply klt_iff; by left). apply sorted_app in Sp as (_ & _ & Sp). apply Forall_app. split; [|by constructor].
    eapply Forall_impl; [exact Sp|]. cbn. intros r Hr. apply Forall_cons in Hr as [Hr _]. exact (transitivity Hr Hk).
  - destruct q as [|y q]; [done|]. apply Forall_cons in Hq as [Hy Hq]. rewrite dlt_dord, Z.ltb_lt in H2 by done. assert (Hk : klt (s, e) (key y)) by (apply klt_iff; by left). apply StronglySorted_inv in Sq as [_ Sq]. constructor; [by apply klt_asym|].
    eapply Forall_impl; [exact Sq|]. cbn. intros r Hr. apply klt_asym. exact (transitivity Hk Hr).
Qed.
Lemma dom_put (m m' : zheap) zs zsl' p q p' q' x : rep m zs (p ++ q) -> p ++ q = p' ++ q' -> zsl_header zsl' = zsl_header (zs_zsl zs) -> dom m' = {[r_addr x]} ∪ dom m -> dom m' = list_to_set (zsl_header zsl' :: map r_addr (p' ++ x :: q')).
Proof.
  intros Hr E Hh ->. rewrite (rep_dom _ _ _ Hr), E, Hh, !map_app. cbn [map list_to_set]. rewrite !list_to_set_app_L. cbn [list_to_set]. set_solver.
Qed.
(** A new element. *)
Lemma insert_new m zs rows s e draws h rest : rep m zs rows -> zlen rows + 1 < 2 ^ 32 -> e ∉ map r_ele rows -> isnan s = false -> zslRandomLevel draws = Some (h, rest) ->
  exists m' zsl' x, zslInsert m (zs_zsl zs) s e draws = Some (m', zsl', x, rest) /\ zset_of m' (mk_zset (<[e := x]> (zs_dict zs)) zsl') (z_set s e (map key rows)).
Proof.
  intros Hr Hlen Hni Hs Hd. destruct (insert_place s e rows (rep_sorted _ _ _ Hr) (rep_nan _ _ _ Hr) Hs) as (p & q & -> & Hsp & Hp & Hq).
  destruct (zsl_insert_spec m (zs_zsl zs) p q s e draws h rest (rep_zsl _ _ _ Hr) Hsp Hs Hd Hlen) as (m' & zsl' & x & E & Hok & Hx & Hh & Hdom). exists m', zsl', x. split; [done|].
  exists (p ++ mk_row x (Z.to_nat h) s e :: q). split; [|unfold z_set; rewrite z_remove_none, z_insert_at by done; by rewrite map_app].
  apply (rep_put m' zsl' (zs_dict zs) p (mk_row x (Z.to_nat h) s e) q); try done; try apply Hr; [exact (rep_dict _ _ _ Hr)|]. by apply (dom_put m m' zs zsl' p q).
Qed.
(** A new score for an element: the node keeps its place, or a new one
    replaces it. *)
Lemma update_score m zs p x q s draws h rest : rep m zs (p ++ x :: q) -> zlen (p ++ x :: q) + 1 < 2 ^ 32 -> isnan s = false -> zslRandomLevel draws = Some (h, rest) ->
  exists m' zsl' y draws', zslUpdateScore m (zs_zsl zs) (r_score x) (r_ele x) s draws = Some (m', zsl', y, draws') /\ zset_of m' (mk_zset (<[r_ele x := y]> (zs_dict zs)) zsl') (z_set s (r_ele x) (map key (p ++ x :: q))).
Proof.
  intros Hr Hlen Hs Hd. destruct (nodup_drop p x q (rep_nodup _ _ _ Hr)) as [Hnd Hni]. destruct (nan_middle p x q (rep_nan _ _ _ Hr)) as (Hx & Hn1 & Hn2). assert (Hn : Forall (fun r => isnan (r_score r) = false) (p ++ q)) by (by apply Forall_app). destruct (sorted_middle p x q (rep_sorted _ _ _ Hr)) as (_ & _ & Hso).
  pose proof (dict_drop _ p x q (rep_dict _ _ _ Hr) Hni) as Hdict. unfold z_set. rewrite z_remove_row by done. pose proof (update_spec m (zs_zsl zs) p x q (r_score x) (r_ele x) s draws h rest (rep_zsl _ _ _ Hr) (proj1 (splits_row m zs p x q Hr)) (same_key_row m zs p x q Hr) Hlen Hd Hs) as Hu.
  destruct (stays p q s) eqn:Est.
  - destruct Hu as (m' & E & Hok & Hdom). exists m', (zs_zsl zs), (r_addr x), draws. split; [done|]. set (x' := mk_row (r_addr x) (r_h x) s (r_ele x)) in *. destruct (stays_place p x q s (r_ele x) (rep_sorted _ _ _ Hr) (rep_nan _ _ _ Hr) Hs Est) as [Hp Hq].
    exists (p ++ x' :: q). split; [|rewrite z_insert_at by done; by rewrite map_app]. rewrite <- insert_delete_eq. apply (rep_put m' (zs_zsl zs) (delete (r_ele x) (zs_dict zs)) p x' q); try done. rewrite Hdom, (rep_dom _ _ _ Hr), !map_app. done.
  - destruct (insert_place s (r_ele x) (p ++ q) Hso Hn Hs) as (p' & q' & E & Hsp & Hp & Hq). destruct (Hu p' q' E Hsp) as (m' & zsl' & y & Eu & Hok & Hy & _ & Hh & Hdom). exists m', zsl', y, rest. split; [done|]. set (x' := mk_row y (Z.to_nat h) s (r_ele x)) in *.
    exists (p' ++ x' :: q'). rewrite E in *. split; [|rewrite z_insert_at by done; by rewrite map_app]. rewrite <- insert_delete_eq. apply (rep_put m' zsl' (delete (r_ele x) (zs_dict zs)) p' x' q'); try done.
    rewrite Hdom, (rep_dom _ _ _ Hr), Hh. pose proof (row_not_linked m (zs_zsl zs) p x q (rep_zsl _ _ _ Hr)) as Hxl. rewrite E, elem_of_cons in Hxl. change (map r_addr (p' ++ x' :: q')) with (r_addr <$> (p' ++ x' :: q')). assert (Hset : list_to_set (map r_addr (p ++ x :: q)) = {[r_addr x]} ∪ list_to_set (map r_addr (p' ++ q')) :> gset positive) by (rewrite <- E, !map_app, !list_to_set_app_L; cbn [map list_to_set]; set_solver).
    cbn [list_to_set]. rewrite Hset. change (r_addr <$> (p' ++ x' :: q')) with (map r_addr (p' ++ x' :: q')). rewrite !map_app in *. cbn [map]. rewrite !list_to_set_app_L in *. cbn [list_to_set r_addr x']. set_solver.
Qed.
Lemma zsetAdd_spec m zs l s e flags draws h rest : zset_of m zs l -> zlen l + 1 < 2 ^ 32 -> zslRandomLevel draws = Some (h, rest) ->
  exists m' zs' draws', zsetAdd dadd m zs s e flags draws = Some (m', zs', (z_add dadd s e flags l).2, draws') /\ zset_of m' zs' (z_add dadd s e flags l).1.
Proof.
  intros (rows & Hr & ->) Hlen Hd. unfold zlen in Hlen. rewrite length_map in Hlen. fold (zlen rows) in Hlen. unfold zsetAdd, z_add, z_score_of. cbv zeta.
  assert (Hkeep : forall r : zadded, exists m' zs' draws', Some (m, zs, r, draws) = Some (m', zs', r, draws') /\ zset_of m' zs' (map key rows)) by (intros r; exists m, zs, draws; split; [done|by exists rows]).
  destruct (isnan s) eqn:Es; [apply Hkeep|]. pose proof (rep_lookup m zs rows e Hr) as Hl. destruct (zs_dict zs !! e) as [a|] eqn:Ed.
  - destruct Hl as (p & x & q & -> & <- & <- & Hni & Hsc & ->). cbn [fmap option_fmap option_map snd]. destruct (has_flag flags ZADD_NX); [apply Hkeep|]. rewrite Hsc. cbn [mbind option_bind fst key].
    set (s' := if has_flag flags ZADD_INCR then dadd s (r_score x) else s). assert (Hnan : has_flag flags ZADD_INCR && isnan s' = isnan s') by (unfold s'; by destruct (has_flag flags ZADD_INCR)). rewrite Hnan. destruct (isnan s') eqn:Es'; [apply Hkeep|]. destruct (deq s' (r_score x)); cbn [negb]; [apply Hkeep|].
    destruct (update_score m zs p x q s' draws h rest Hr Hlen Es' Hd) as (m' & zsl' & y & draws' & -> & Hz). cbn [mbind option_bind]. eexists _, _, _. split; [done|exact Hz].
  - destruct Hl as [Hni ->]. cbn [fmap option_fmap option_map]. destruct (has_flag flags ZADD_XX); [apply Hkeep|]. destruct (insert_new m zs rows s e draws h rest Hr Hlen Hni Es Hd) as (m' & zsl' & y & -> & Hz). cbn [mbind option_bind]. eexists _, _, _. split; [done|exact Hz].
Qed.
End Implements.
