(* ===== verification/ZsetRange.v ===== *)
(** * Ranges of sorted sets, and the theorem on sequences of operations

    The operations of [Zset] on ranges of scores, elements and ranks select
    what a filter of the sorted list selects; walking from a node in either
    direction gives the rows that follow it.  At the end, every sequence of
    operations is related to the same sequence on the sorted list. *)
From Stdlib Require Import Sorting.Sorted.
From S2P Require Import Prelude Sds Zskiplist ZskiplistSpec Zset.

(** ** Ranges *)
Section Between.
  Context (m : zheap) (zsl : zskiplist) (rows : list row) (Hok : zsl_ok m zsl rows) (Hlen : zlen rows + 1 < 2 ^ 32).
  Context (R : row -> row -> Prop) (Hsorted : StronglySorted R rows) (gte lte : zskiplistNode -> bool) (G T : row -> bool) (Hg : node_test gte G) (Ht : node_test lte T).
  Context (Hup : forall a b, R a b -> G a = true -> G b = true) (Hdown : forall a b, R a b -> T b = true -> T a = true).
Definition inside (r : row) : bool := G r && T r.
Lemma between : exists p d q, rows = p ++ d ++ q /\ Forall (fun r => G r = false) p /\ Forall (fun r => G r = true) (d ++ q) /\ Forall (fun r => T r = true) d /\ Forall (fun r => T r = false) q /\ List.filter inside rows = d.
Proof.
  assert (HdG : forall a b, R a b -> negb (G b) = true -> negb (G a) = true) by (intros a b Hab Hb; apply negb_true_iff; apply negb_true_iff in Hb; destruct (G a) eqn:Ea; [|done]; rewrite (Hup a b Hab Ea) in Hb; done).
  destruct (sorted_split3 R (fun r => negb (G r)) T rows HdG Hdown Hsorted) as (p & d & q & E & _ & Hp & Hdq & Hd & Hq & Ed). exists p, d, q. split; [done|]. split; [eapply Forall_impl; [exact Hp|]; cbn; intros r; apply negb_true_iff|]. split; [eapply Forall_impl; [exact Hdq|]; cbn; intros r; apply negb_false_iff|].
  split; [done|]. split; [eapply Forall_impl; [exact Hq|]; cbn; tauto|]. rewrite Ed. apply List.filter_ext. intros r. unfold inside. by rewrite negb_involutive.
Qed.
Lemma in_range_false : in_range m zsl gte lte = Some false -> List.filter inside rows = [].
Proof.
  rewrite (in_range_spec m zsl rows Hok Hlen gte lte G T Hg Ht). destruct between as (p & d & q & E & Hp & Hdq & Hd & Hq & ->). destruct d as [|y d]; [done|]. intros E2. exfalso. revert E2. rewrite E. destruct (last (p ++ (y :: d) ++ q)) as [t|] eqn:El; [|apply last_None in El; by destruct p].
  assert (Ht' : G t = true). { cbn [app] in El. rewrite last_app_cons in El. rewrite List.Forall_forall in Hdq. apply Hdq, list_elem_of_In. apply last_Some in El as [l El]. cbn [app]. rewrite El. apply elem_of_app. right. apply list_elem_of_here. }
  rewrite Ht'. apply Forall_cons in Hd as [Hy _]. destruct p as [|f p]; cbn [app head]; [by rewrite Hy|]. rewrite (Hdown f y); [done| |done]. rewrite E in Hsorted. apply StronglySorted_inv in Hsorted as [_ Hf]. rewrite List.Forall_forall in Hf. apply Hf. apply in_app_iff. right. by left.
Qed.
Lemma first_between : (b ← in_range m zsl gte lte; if negb b then Some None else first_in m zsl gte lte) = Some (r_addr <$> head (List.filter inside rows)).
Proof.
  pose proof in_range_false as Hf. pose proof (in_range_spec m zsl rows Hok Hlen gte lte G T Hg Ht) as Hi. destruct (in_range m zsl gte lte) as [[]|]; [..|done]; cbn [mbind option_bind negb]; [|by rewrite Hf].
  destruct between as (p & d & q & E & Hp & Hdq & Hd & Hq & ->). destruct (d ++ q) as [|x r] eqn:Edq.
  - exfalso. rewrite app_nil_r in E. destruct (last rows) as [t|] eqn:El; [|done]. destruct (head rows); [|done]. injection Hi as Hi. symmetry in Hi. apply andb_true_iff in Hi as [Hi _]. apply last_Some in El as [l El]. rewrite <- E, El in Hp. apply Forall_app in Hp as [_ Hp]. apply Forall_cons in Hp as [Hp _]. congruence.
  - rewrite (first_in_spec m zsl rows Hok Hlen gte lte G T p x r Hg Ht E); [|apply forallb_Forall; eapply Forall_impl; [exact Hp|]; cbn; intros y ->; done|by apply forallb_Forall].
    destruct d as [|y d]; cbn [app] in Edq.
    + subst q. apply Forall_cons in Hq as [-> _]. done.
    + injection Edq as -> _. apply Forall_cons in Hd as [-> _]. done.
Qed.
Lemma last_between : (b ← in_range m zsl gte lte; if negb b then Some None else last_in m zsl gte lte) = Some (r_addr <$> last (List.filter inside rows)).
Proof.
  pose proof in_range_false as Hf. pose proof (in_range_spec m zsl rows Hok Hlen gte lte G T Hg Ht) as Hi. destruct (in_range m zsl gte lte) as [[]|]; [..|done]; cbn [mbind option_bind negb]; [|by rewrite Hf].
  pose proof (sorted_split R T rows Hdown Hsorted) as E. set (a := List.filter T rows) in *. set (b := List.filter (fun r => negb (T r)) rows) in *.
  assert (Ha : Forall (fun r => T r = true) a) by (apply List.Forall_forall; intros r Hr; apply filter_In in Hr as [_ Hr]; exact Hr). assert (Hb : Forall (fun r => negb (T r) = true) b) by (apply List.Forall_forall; intros r Hr; apply filter_In in Hr as [_ Hr]; exact Hr).
  assert (Efil : List.filter inside rows = List.filter inside a).
  { rewrite E, List.filter_app, (filter_none inside b), app_nil_r; [done|]. eapply Forall_impl; [exact Hb|]. cbn. intros r Hr. apply negb_true_iff in Hr. unfold inside. by rewrite Hr, andb_false_r. }
  rewrite Efil. destruct a as [|x a' _] eqn:Ea using rev_ind.
  - exfalso. destruct (last rows); [|done]. cbn [app] in E. destruct (head rows) as [f|] eqn:Eh; [|done]. injection Hi as Hi. symmetry in Hi. apply andb_true_iff in Hi as [_ Hi]. rewrite E in Eh. destruct b as [|f' b]; [done|]. injection Eh as ->. apply Forall_cons in Hb as [Hb _]. by rewrite Hi in Hb.
  - rewrite (last_in_spec m zsl rows Hok Hlen gte lte G T a' x b Hg Ht); [|rewrite E; by list_simplifier|by apply forallb_Forall|by apply forallb_Forall].
    apply Forall_app in Ha as [Ha Hx]. apply Forall_cons in Hx as [Hx _]. rewrite List.filter_app. cbn [List.filter]. unfold inside at 2. rewrite Hx, andb_true_r. destruct (G x) eqn:Gx; [by rewrite last_snoc|]. rewrite app_nil_r, (filter_none inside a'); [done|].
    rewrite E in Hsorted. rewrite <- app_assoc in Hsorted. cbn [app] in Hsorted. apply sorted_app in Hsorted as (_ & _ & Hr). eapply Forall_impl; [exact Hr|]. cbn. intros r Hrx. apply Forall_cons in Hrx as [Hrx _]. unfold inside. destruct (G r) eqn:Gr; [|done]. by rewrite (Hup r x Hrx Gr) in Gx.
Qed.
End Between.

(** ** Ranges of scores *)
Abbreviation rok := (fun a b : row => klt (key a) (key b) /\ isnan (r_score a) = false /\ isnan (r_score b) = false).
Lemma sorted_rok rows : StronglySorted (fun a b : row => klt (key a) (key b)) rows -> Forall (fun r => isnan (r_score r) = false) rows -> StronglySorted rok rows.
Proof.
  induction 1 as [|r rows Hs IH Hr]; intros Hn; [constructor|]. apply Forall_cons in Hn as [H1 Hn]. constructor; [by apply IH|]. rewrite List.Forall_forall in *. auto.
Qed.
Definition z_in (range : zrangespec) (k : zkey) : bool := zslValueGteMin k.1 range && zslValueLteMax k.1 range.
Lemma klt_dord a b : klt a b -> dord a.1 <= dord b.1.
Proof. rewrite klt_iff. lia. Qed.
Lemma gte_up range a b : rok a b -> zslValueGteMin (r_score a) range = true -> zslValueGteMin (r_score b) range = true.
Proof.
  intros (Hk & Ha & Hb). apply klt_dord in Hk. cbn in Hk. unfold zslValueGteMin, dlt, dle, ordered. rewrite Ha, Hb. destruct (r_minex range); rewrite !andb_true_iff, ?Z.ltb_lt, ?Z.leb_le; intros [H1 ?]; (split; [exact H1|lia]).
Qed.
Lemma lte_down range a b : rok a b -> zslValueLteMax (r_score b) range = true -> zslValueLteMax (r_score a) range = true.
Proof.
  intros (Hk & Ha & Hb). apply klt_dord in Hk. cbn in Hk. unfold zslValueLteMax, dlt, dle, ordered. rewrite Ha, Hb. destruct (r_maxex range); rewrite !andb_true_iff, ?Z.ltb_lt, ?Z.leb_le; intros [H1 ?]; (split; [exact H1|lia]).
Qed.
Lemma score_test (f : Z -> bool) : node_test (fun n => f (z_score n)) (fun r => f (r_score r)).
Proof. intros n r _ ->. done. Qed.
(** The test that rejects a range without looking at the list. *)
Lemma empty_range range s : dlt (r_max range) (r_min range) || (deq (r_min range) (r_max range) && (r_minex range || r_maxex range)) = true -> zslValueGteMin s range && zslValueLteMax s range = false.
Proof.
  intros He. apply not_true_iff_false. intros Hin. apply andb_true_iff in Hin as [H1 H2]. revert He H1 H2. unfold zslValueGteMin, zslValueLteMax, dlt, dle, deq, ordered.
  destruct (r_minex range), (r_maxex range); rewrite ?orb_true_iff, ?andb_true_iff, ?Z.ltb_lt, ?Z.leb_le, ?Z.eqb_eq; cbn [orb]; intuition (congruence || lia).
Qed.
Lemma filter_empty {A} (P : A -> bool) l : (forall a, P a = false) -> List.filter P l = [].
Proof. intros HP. apply filter_none, List.Forall_forall. auto. Qed.
Section ScoreRange.
  Context (m : zheap) (zs : zset) (rows : list row) (Hr : rep m zs rows) (Hlen : zlen rows + 1 < 2 ^ 32) (range : zrangespec).
#[local] Abbreviation sel := (List.filter (fun r => z_in range (key r)) rows).
Lemma first_in_range : zslFirstInRange m (zs_zsl zs) range = Some (r_addr <$> head sel).
Proof.
  unfold zslFirstInRange, zslIsInRange. destruct (_ || _) eqn:Ee; [cbn [mbind option_bind negb]; rewrite filter_empty; [done|]; intros r; by apply empty_range|].
  apply (first_between m (zs_zsl zs) rows (rep_zsl _ _ _ Hr) Hlen rok (sorted_rok rows (rep_sorted _ _ _ Hr) (rep_nan _ _ _ Hr)) _ _ (fun r => zslValueGteMin (r_score r) range) (fun r => zslValueLteMax (r_score r) range)).
  - apply (score_test (fun s => zslValueGteMin s range)).
  - apply (score_test (fun s => zslValueLteMax s range)).
  - apply gte_up.
  - apply lte_down.
Qed.
Lemma last_in_range : zslLastInRange m (zs_zsl zs) range = Some (r_addr <$> last sel).
Proof.
  unfold zslLastInRange, zslIsInRange. destruct (_ || _) eqn:Ee; [cbn [mbind option_bind negb]; rewrite filter_empty; [done|]; intros r; by apply empty_range|].
  apply (last_between m (zs_zsl zs) rows (rep_zsl _ _ _ Hr) Hlen rok (sorted_rok rows (rep_sorted _ _ _ Hr) (rep_nan _ _ _ Hr)) _ _ (fun r => zslValueGteMin (r_score r) range) (fun r => zslValueLteMax (r_score r) range)).
  - apply (score_test (fun s => zslValueGteMin s range)).
  - apply (score_test (fun s => zslValueLteMax s range)).
  - apply gte_up.
  - apply lte_down.
Qed.
(** The rows in a range are consecutive. *)
Lemma range_rows : exists p d q, rows = p ++ d ++ q /\ sel = d /\ Forall (fun r => zslValueGteMin (r_score r) range = false) p /\ Forall (fun r => zslValueGteMin (r_score r) range = true) (d ++ q) /\
  Forall (fun r => zslValueLteMax (r_score r) range = true) d /\ Forall (fun r => zslValueLteMax (r_score r) range = false) q.
Proof.
  destruct (between rows rok (sorted_rok rows (rep_sorted _ _ _ Hr) (rep_nan _ _ _ Hr)) (fun r => zslValueGteMin (r_score r) range) (fun r => zslValueLteMax (r_score r) range) (gte_up range) (lte_down range)) as (p & d & q & E & H1 & H2 & H3 & H4 & Ed).
  exists p, d, q. by repeat split.
Qed.
End ScoreRange.

(** ** Ranges of elements, when the scores are equal *)
Definition same_scores (l : list zkey) : Prop := forall a b, a ∈ l -> b ∈ l -> dord a.1 = dord b.1.
Abbreviation rlex := (fun a b : row => lex_cmp (r_ele a) (r_ele b) < 0).
Lemma sorted_rlex rows : StronglySorted (fun a b : row => klt (key a) (key b)) rows -> same_scores (map key rows) -> StronglySorted rlex rows.
Proof.
  intros Hs Hsame. assert (Hsame' : forall a b, In a rows -> In b rows -> dord (r_score a) = dord (r_score b)) by (intros a b Ha Hb; apply (Hsame (key a) (key b)); apply list_elem_of_In; by apply in_map). clear Hsame.
  induction Hs as [|r rows Hs IH Hr]; [constructor|]. constructor; [apply IH; intros a b Ha Hb; apply Hsame'; by right|]. rewrite List.Forall_forall in *. intros a Ha. specialize (Hr a Ha). apply klt_iff in Hr. cbn in Hr. pose proof (Hsame' r a (or_introl eq_refl) (or_intror Ha)). lia.
Qed.
Definition z_in_lex (range : zlexrangespec) (k : zkey) : bool := zslLexValueGteMin k.2 range && zslLexValueLteMax k.2 range.
Lemma lex_chain a b c : lex_cmp a b <= 0 -> lex_cmp b c <= 0 -> lex_cmp a c <= 0 /\ (lex_cmp a b < 0 \/ lex_cmp b c < 0 -> lex_cmp a c < 0).
Proof.
  intros H1 H2. destruct (decide (lex_cmp a b = 0)) as [E|]; [apply lex_cmp_eq in E as ->; rewrite (proj2 (lex_cmp_eq b b) eq_refl) in *; lia|]. destruct (decide (lex_cmp b c = 0)) as [E|]; [apply lex_cmp_eq in E as ->; rewrite (proj2 (lex_cmp_eq c c) eq_refl); lia|].
  pose proof (lex_cmp_trans a b c ltac:(lia) ltac:(lia)). lia.
Qed.
Lemma lex_gte_up range a b : lex_cmp a b < 0 -> zslLexValueGteMin a range = true -> zslLexValueGteMin b range = true.
Proof.
  intros Hab. unfold zslLexValueGteMin. destruct (l_min range) as [| |v]; cbn [sdscmplex]; [by destruct (l_minex range)..|]. rewrite (lex_cmp_antisym v a), (lex_cmp_antisym v b). destruct (l_minex range); rewrite ?Z.gtb_lt, ?Z.geb_le; intros Ha; pose proof (lex_chain v a b ltac:(lia) ltac:(lia)); lia.
Qed.
Lemma lex_lte_down range a b : lex_cmp a b < 0 -> zslLexValueLteMax b range = true -> zslLexValueLteMax a range = true.
Proof.
  intros Hab. unfold zslLexValueLteMax. destruct (l_max range) as [| |v]; cbn [sdscmplex]; [by destruct (l_maxex range)..|]. destruct (l_maxex range); rewrite ?Z.ltb_lt, ?Z.leb_le; intros Hb; pose proof (lex_chain a b v ltac:(lia) ltac:(lia)); lia.
Qed.
Lemma empty_lex_range range e : (sdscmplex (l_min range) (l_max range) >? 0) || ((sdscmplex (l_min range) (l_max range) =? 0) && (l_minex range || l_maxex range)) = true -> zslLexValueGteMin e range && zslLexValueLteMax e range = false.
Proof.
  intros He. apply not_true_iff_false. intros Hin. apply andb_true_iff in Hin as [H1 H2]. revert He H1 H2. unfold zslLexValueGteMin, zslLexValueLteMax.
  destruct (l_min range) as [| |v], (l_max range) as [| |w]; cbn [sdscmplex]; destruct (l_minex range), (l_maxex range); cbn; try done; rewrite ?andb_true_r, ?andb_false_r, ?orb_false_r, ?orb_true_iff, ?Z.gtb_lt, ?Z.geb_le, ?Z.ltb_lt, ?Z.leb_le, ?Z.eqb_eq; rewrite (lex_cmp_antisym v e); intros He H1 H2; pose proof (lex_chain v e w ltac:(lia) ltac:(lia)); lia.
Qed.
Lemma ele_node_test f : node_test (ele_test f) (fun r => f (r_ele r)).
Proof. intros n r E _. unfold ele_test. by rewrite E. Qed.

(** ** Removing a range *)
Lemma dict_drops d : forall dict p q, dict_for dict (p ++ d ++ q) -> NoDup (map r_ele (p ++ d ++ q)) -> dict_for (foldl (fun dict r => delete (r_ele r) dict) dict d) (p ++ q).
Proof.
  induction d as [|x d IH]; intros dict p q Hd Hnd; [exact Hd|]. cbn [foldl]. cbn [app] in *. destruct (nodup_drop p x (d ++ q) Hnd) as [Hnd' Hni]. apply IH; [by apply dict_drop|done].
Qed.
Lemma rep_drops m zs m' zsl' p d q : rep m zs (p ++ d ++ q) -> zsl_ok m' zsl' (p ++ q) -> zsl_header zsl' = zsl_header (zs_zsl zs) -> dom m' = dom m ∖ list_to_set (map r_addr d) ->
  rep m' (mk_zset (foldl (fun dict r => delete (r_ele r) dict) (zs_dict zs) d) zsl') (p ++ q).
Proof.
  intros Hr Hok Hh Hd. split; cbn [zs_zsl zs_dict]; try done.
  - pose proof (rep_sorted _ _ _ Hr) as Hs. rewrite !sorted_app in Hs. destruct Hs as (S1 & (S2 & S3 & _) & S4). apply sorted_app. split; [done|]. split; [done|]. eapply Forall_impl; [exact S4|]. cbn. intros r. rewrite Forall_app. tauto.
  - pose proof (rep_nan _ _ _ Hr) as Hn. rewrite !Forall_app in *. tauto.
  - pose proof (rep_nodup _ _ _ Hr) as Hn. rewrite !map_app, !NoDup_app in *. set_solver.
  - apply dict_drops; [exact (rep_dict _ _ _ Hr)|apply Hr].
  - rewrite Hd, (rep_dom _ _ _ Hr), Hh. pose proof (sh_nodup _ _ _ _ (ok_shape _ _ _ (rep_zsl _ _ _ Hr))) as Hn. cbn [list_to_set]. rewrite !map_app, !list_to_set_app_L in *. apply NoDup_cons in Hn as [H1 Hn]. rewrite !NoDup_app in Hn. destruct Hn as (_ & H2 & _ & H3 & _). rewrite !elem_of_app in H1.
    apply sets.set_eq. intros a. rewrite elem_of_difference, !elem_of_union, !elem_of_singleton, !elem_of_list_to_set. split; [tauto|]. intros Ha. split; [tauto|]. intros Had. specialize (H2 a). specialize (H3 a Had). rewrite elem_of_app in H2. destruct Ha as [->|[Ha|Ha]]; tauto.
Qed.
Lemma dict_empty d rows : dict_for d rows -> d = ∅ <-> rows = [].
Proof.
  intros Hd. split.
  - intros ->. destruct rows as [|r rows]; [done|]. assert (Hx : (∅ : gmap (list Z) positive) !! r_ele r = Some (r_addr r)) by (apply Hd; exists r; split; [apply list_elem_of_here|done]). by rewrite lookup_empty in Hx.
  - intros ->. apply map_empty. intros e. destruct (d !! e) as [a|] eqn:E; [|done]. apply Hd in E as (r & Hr & _). by apply elem_of_nil in Hr.
Qed.
Definition z_remrange (r : zremrange) (l : list zkey) : list zkey * (Z * bool) :=
  let keep (l' : list zkey) := (l', (zlen l - zlen l', bool_decide (l' = []))) in
  match r with
  | ByRank start stop =>
      match range_indexes (zlen l) start stop with
      | None => (l, (0, false))
      | Some (start, stop) => keep (take (Z.to_nat start) l ++ drop (Z.to_nat (stop + 1)) l)
      end
  | ByScore range => keep (List.filter (fun k => negb (z_in range k)) l)
  | ByLex range => keep (List.filter (fun k => negb (z_in_lex range k)) l)
  end.
(** A range of scores needs bounds that are numbers, one of elements equal
    scores. *)
Definition remrange_legal (r : zremrange) (l : list zkey) : Prop :=
  match r with
  | ByRank start stop => True
  | ByScore range => isnan (r_min range) = false /\ isnan (r_max range) = false
  | ByLex range => same_scores l
  end.
Lemma filter_others (P : row -> bool) (p d q : list row) : List.filter P (p ++ d ++ q) = d -> Forall (fun r => P r = false) p -> Forall (fun r => P r = false) q -> List.filter (fun r => negb (P r)) (p ++ d ++ q) = p ++ q.
Proof.
  intros Hd Hp Hq. assert (Hdt : Forall (fun r => P r = true) d) by (rewrite <- Hd; apply List.Forall_forall; intros r Hr; apply filter_In in Hr as [_ Hr]; exact Hr). rewrite !List.filter_app, (filter_all _ p), (filter_none _ d), (filter_all _ q); [done|..]; (eapply Forall_impl; [eassumption|]); cbn; intros r ->; done.
Qed.
Lemma remove_rows m zs p d q skip keep :
  rep m zs (p ++ d ++ q) -> zlen (p ++ d ++ q) + 1 < 2 ^ 32 -> splits skip p (p ++ d ++ q) ->
  (forall a r c n, d = a ++ r :: c -> z_ele n = Some (r_ele r) -> z_score n = r_score r -> keep n (zlen p + 1 + zlen a) = true) ->
  (forall r q' n, q = r :: q' -> z_ele n = Some (r_ele r) -> z_score n = r_score r -> keep n (zlen p + 1 + zlen d) = false) ->
  exists m' zs', ('(m, zsl, dict, deleted) ← delete_range m (zs_zsl zs) (zs_dict zs) skip keep; Some (m, mk_zset dict zsl, (deleted, bool_decide (dict = ∅)))) = Some (m', zs', (zlen (map key (p ++ d ++ q)) - zlen (map key (p ++ q)), bool_decide (map key (p ++ q) = []))) /\
    zset_of m' zs' (map key (p ++ q)).
Proof.
  intros Hr Hlen Hsp Hk1 Hk2. destruct (delete_range_spec m (zs_zsl zs) p d q (zs_dict zs) skip keep (rep_zsl _ _ _ Hr) Hlen Hsp Hk1 Hk2) as (m' & zsl' & -> & Hok & Hh & Hd). cbn [mbind option_bind]. pose proof (rep_drops m zs m' zsl' p d q Hr Hok Hh Hd) as Hrep. eexists _, _. split; [|by exists (p ++ q)].
  do 2 f_equal. f_equal; [unfold zlen; rewrite !length_map, !length_app; lia|]. apply bool_decide_ext. rewrite (dict_empty _ _ (rep_dict _ _ _ Hrep)). split; [by intros ->|by intros ?%map_eq_nil].
Qed.
Lemma zlen_map_key rows : zlen (map key rows) = zlen rows.
Proof. unfold zlen. by rewrite length_map. Qed.
Lemma range_indexes_spec llen start stop a b : 0 <= llen -> range_indexes llen start stop = Some (a, b) -> 0 <= a <= b /\ b < llen.
Proof. intros Hl. unfold range_indexes. repeat case_match; intros [= <- <-]; lia. Qed.
Lemma middle_test (K : zskiplistNode -> bool) (P : row -> bool) (d : list row) (f : zskiplistNode -> Z -> bool) k : node_test K P -> (forall n k, f n k = K n) -> Forall (fun r => P r = true) d ->
  forall a r c n, d = a ++ r :: c -> z_ele n = Some (r_ele r) -> z_score n = r_score r -> f n (k + zlen a) = true.
Proof. intros Ht Hf Hd a r c n -> H1 H2. rewrite Hf, (Ht n r H1 H2). apply Forall_app in Hd as [_ Hd]. by apply Forall_cons in Hd as [Hd _]. Qed.
Lemma after_test (K : zskiplistNode -> bool) (P : row -> bool) (q : list row) (f : zskiplistNode -> Z -> bool) k : node_test K P -> (forall n k, f n k = K n) -> Forall (fun r => P r = false) q ->
  forall r q' n, q = r :: q' -> z_ele n = Some (r_ele r) -> z_score n = r_score r -> f n k = false.
Proof. intros Ht Hf Hq r q' n -> H1 H2. rewrite Hf, (Ht n r H1 H2). by apply Forall_cons in Hq as [Hq _]. Qed.
Lemma rem_by_score m zs rows range : rep m zs rows -> zlen rows + 1 < 2 ^ 32 -> remrange_legal (ByScore range) (map key rows) ->
  exists m' zs', zremrangeGeneric m zs (ByScore range) = Some (m', zs', (z_remrange (ByScore range) (map key rows)).2) /\ zset_of m' zs' (z_remrange (ByScore range) (map key rows)).1.
Proof.
  intros Hr Hlen [Hmin Hmax]. destruct (range_rows m zs rows Hr range) as (p & d & q & E & Ed & Hp & Hdq & Hd & Hq). rewrite E in Ed.
  assert (Hother : List.filter (fun k => negb (z_in range k)) (map key rows) = map key (p ++ q)).
  { rewrite List.filter_map_swap, E. f_equal. apply (filter_others (fun r => z_in range (key r))); [done|..]; (eapply Forall_impl; [eassumption|]); cbn; intros r Hx; unfold z_in; cbn [key fst]; rewrite Hx; [done|apply andb_false_r]. }
  unfold zremrangeGeneric, z_remrange. cbn [fst snd]. rewrite Hother, E. rewrite E in Hr, Hlen. unfold zslDeleteRangeByScore. apply remove_rows; [done|done|..].
  - pose proof (rep_nan _ _ _ Hr) as Hn. rewrite Forall_app in Hn. destruct Hn as [Hn1 Hn2]. set (S := fun s => if r_minex range then dle s (r_min range) else dlt s (r_min range)).
    assert (HS : forall s, isnan s = false -> S s = negb (zslValueGteMin s range)). { intros s Hs. unfold S, zslValueGteMin. destruct (r_minex range); rewrite dlt_dord, dle_dord by done; apply eq_true_iff_eq; rewrite negb_true_iff, ?Z.ltb_lt, ?Z.leb_le, ?Z.ltb_ge, ?Z.leb_gt; lia. }
    apply (splits_rows _ (fun r => S (r_score r))); [intros k; apply (score_test S)|..]; apply List.Forall_forall; intros r Hin; rewrite List.Forall_forall in *; rewrite HS by auto; [by rewrite Hp|by rewrite Hdq].
  - apply (middle_test (fun n => zslValueLteMax (z_score n) range) (fun r => zslValueLteMax (r_score r) range) _ (fun n _ => if r_maxex range then dlt (z_score n) (r_max range) else dle (z_score n) (r_max range)) (zlen p + 1)); [apply (score_test (fun s => zslValueLteMax s range))|done|done].
  - apply (after_test (fun n => zslValueLteMax (z_score n) range) (fun r => zslValueLteMax (r_score r) range) _ (fun n _ => if r_maxex range then dlt (z_score n) (r_max range) else dle (z_score n) (r_max range)) (zlen p + 1 + zlen d)); [apply (score_test (fun s => zslValueLteMax s range))|done|done].
Qed.
Lemma rem_by_lex m zs rows range : rep m zs rows -> zlen rows + 1 < 2 ^ 32 -> remrange_legal (ByLex range) (map key rows) ->
  exists m' zs', zremrangeGeneric m zs (ByLex range) = Some (m', zs', (z_remrange (ByLex range) (map key rows)).2) /\ zset_of m' zs' (z_remrange (ByLex range) (map key rows)).1.
Proof.
  intros Hr Hlen Hsame. set (G := fun r => zslLexValueGteMin (r_ele r) range). set (T := fun r => zslLexValueLteMax (r_ele r) range).
  destruct (between rows rlex (sorted_rlex rows (rep_sorted _ _ _ Hr) Hsame) G T (fun a b => lex_gte_up range (r_ele a) (r_ele b)) (fun a b => lex_lte_down range (r_ele a) (r_ele b))) as (p & d & q & E & Hp & Hdq & Hd & Hq & Ed). rewrite E in Ed.
  assert (Hother : List.filter (fun k => negb (z_in_lex range k)) (map key rows) = map key (p ++ q)).
  { rewrite List.filter_map_swap, E. f_equal. apply (filter_others (inside G T)); [done|..]; (eapply Forall_impl; [eassumption|]); cbn; intros r Hx; unfold inside; rewrite Hx; [done|apply andb_false_r]. }
  unfold zremrangeGeneric, z_remrange. cbn [fst snd]. rewrite Hother, E. rewrite E in Hr, Hlen. unfold zslDeleteRangeByLex. apply remove_rows; [done|done|..].
  - apply (splits_rows _ (fun r => negb (G r))).
    + intros k n r H1 H2. f_equal. by apply (ele_node_test (fun e => zslLexValueGteMin e range)).
    + eapply Forall_impl; [exact Hp|]. cbn. intros r Hx. by rewrite Hx.
    + eapply Forall_impl; [exact Hdq|]. cbn. intros r Hx. by rewrite Hx.
  - apply (middle_test (ele_test (fun e => zslLexValueLteMax e range)) T _ (fun n _ => ele_test (fun e => zslLexValueLteMax e range) n) (zlen p + 1)); [apply ele_node_test|done|done].
  - apply (after_test (ele_test (fun e => zslLexValueLteMax e range)) T _ (fun n _ => ele_test (fun e => zslLexValueLteMax e range) n) (zlen p + 1 + zlen d)); [apply ele_node_test|done|done].
Qed.
Lemma rem_by_rank m zs rows start stop : rep m zs rows -> zlen rows + 1 < 2 ^ 32 ->
  exists m' zs', zremrangeGeneric m zs (ByRank start stop) = Some (m', zs', (z_remrange (ByRank start stop) (map key rows)).2) /\ zset_of m' zs' (z_remrange (ByRank start stop) (map key rows)).1.
Proof.
  intros Hr Hlen. unfold zremrangeGeneric, z_remrange. rewrite (zsetLength_spec m zs (map key rows)) by (by exists rows). destruct (range_indexes _ start stop) as [[a b]|] eqn:Ei; [|exists m, zs; split; [done|by exists rows]].
  apply range_indexes_spec in Ei as [Ha Hb]; [|apply zlen_nonneg]. rewrite zlen_map_key in Hb. cbn [fst snd].
  set (p := take (Z.to_nat a) rows). set (d := take (Z.to_nat (b + 1 - a)) (drop (Z.to_nat a) rows)). set (q := drop (Z.to_nat (b + 1)) rows).
  assert (E : rows = p ++ d ++ q). { unfold p, d, q. replace (drop (Z.to_nat (b + 1)) rows) with (drop (Z.to_nat (b + 1 - a)) (drop (Z.to_nat a) rows)) by (rewrite drop_drop; f_equal; lia). by rewrite !take_drop. }
  assert (Hp : zlen p = a) by (unfold p, zlen in *; rewrite length_take; lia). assert (Hd : zlen d = b + 1 - a) by (unfold d, zlen in *; rewrite length_take, length_drop; lia).
  assert (Eother : take (Z.to_nat a) (map key rows) ++ drop (Z.to_nat (b + 1)) (map key rows) = map key (p ++ q)) by (unfold p, q; rewrite map_app; change (@map row zkey key) with (@fmap list _ row zkey key); by rewrite fmap_take, fmap_drop). rewrite Eother, E. rewrite E in Hr, Hlen. unfold zslDeleteRangeByRank. apply remove_rows; [done|done|..].
  - intros c r e n Ec _ _. unfold zlen in *. apply eq_true_iff_eq. rewrite Z.ltb_lt, Nat.ltb_lt. lia.
  - intros c r e n Ec _ _. apply Z.leb_le. rewrite Ec, zlen_app, zlen_cons in Hd. pose proof (zlen_nonneg e). lia.
  - intros r q' n _ _ _. apply Z.leb_gt. lia.
Qed.

(** ** Walking the list *)
(** The rows that follow a node in a direction. *)
Fixpoint chain (m : zheap) (reverse : bool) (c : list row) : Prop :=
  match c with
  | [] => True
  | x :: c => (exists n, m !! r_addr x = Some n /\ reply_of n = Some (key x) /\ z_score n = r_score x /\ move reverse n = Some (head (map r_addr c))) /\ chain m reverse c
  end.
Lemma chain_drop m reverse c k : chain m reverse c -> chain m reverse (drop k c).
Proof. revert k. induction c as [|x c IH]; intros [|k] Hc; try done. apply IH, Hc. Qed.
Lemma fwd_head m zsl p q : zsl_ok m zsl (p ++ q) -> (fwd 0 q).1 = head (map r_addr q).
Proof.
  intros Hok. pose proof (sh_heights _ _ _ _ (ok_shape _ _ _ Hok)) as Hh. apply Forall_app in Hh as [_ Hh]. destruct q as [|y q]; [done|]. apply Forall_cons in Hh as [Hh _]. cbn [fwd map head]. by rewrite decide_True by lia.
Qed.
Lemma chain_fwd m zsl q : forall p, zsl_ok m zsl (p ++ q) -> chain m false q.
Proof.
  induction q as [|x q IH]; intros p Hok; [done|]. split; [|apply (IH (p ++ [x])); by rewrite <- app_assoc]. destruct (row_node m zsl p x q Hok) as (n & En & He & Hs & _ & Hf). exists n. unfold reply_of, move. rewrite He, Hs, Hf. cbn [mbind option_bind]. repeat split; try done.
  rewrite (surjective_pairing (fwd 0 q)). cbn. f_equal. apply (fwd_head m zsl (p ++ [x])). by rewrite <- app_assoc.
Qed.
Lemma head_rev (p : list row) : head (map r_addr (rev p)) = last_addr p.
Proof. destruct p as [|x p _] using rev_ind; [done|]. by rewrite rev_app_distr, last_addr_snoc. Qed.
Lemma chain_rev m zsl p : forall q, zsl_ok m zsl (p ++ q) -> chain m true (rev p).
Proof.
  induction p as [|x p IH] using rev_ind; intros q Hok; [done|]. rewrite rev_app_distr. cbn [rev app]. rewrite <- app_assoc in Hok. cbn [app] in Hok. split; [|by apply (IH (x :: q))]. destruct (row_node m zsl p x q Hok) as (n & En & He & Hs & Hb & _). exists n. unfold reply_of, move. rewrite He, Hs, Hb, head_rev. done.
Qed.
Lemma range_loop_chain m reverse k : forall c, chain m reverse c -> (k <= length c)%nat -> range_loop k m reverse (head (map r_addr c)) = Some (map key (take k c)).
Proof.
  induction k as [|k IH]; intros [|x c] Hc Hk; try done; [cbn in Hk; lia|]. destruct Hc as [(n & En & Hk1 & _ & Hm) Hc]. cbn [range_loop map head]. cbn [mbind option_bind]. rewrite En. cbn [mbind option_bind]. rewrite Hk1. cbn [mbind option_bind]. rewrite Hm. cbn [mbind option_bind]. rewrite IH by (try done; cbn in Hk; lia). done.
Qed.
Definition skipped {A} (offset : Z) (c : list A) : list A := if offset <? 0 then [] else drop (Z.to_nat offset) c.
Definition limited {A} (limit : Z) (c : list A) : list A := if limit <? 0 then c else take (Z.to_nat limit) c.
Lemma dec_long_ok z : - 2 ^ 63 < z -> dec_long z = Some (z - 1).
Proof. intros Hz. unfold dec_long. by rewrite (proj2 (Z.eqb_neq _ _)) by lia. Qed.
Lemma skip_loop_chain m reverse : forall c fuel offset, chain m reverse c -> (length c <= fuel)%nat -> - 2 ^ 63 + zlen c < offset -> skip_loop fuel m reverse (head (map r_addr c)) offset = Some (head (map r_addr (skipped offset c))).
Proof.
  induction c as [|x c IH]; intros fuel offset Hc Hf Ho; [unfold skipped; destruct fuel, (offset <? 0); cbn [skip_loop map head]; by rewrite ?drop_nil|]. rewrite zlen_cons in Ho. pose proof (zlen_nonneg c). destruct fuel as [|fuel]; [cbn in Hf; lia|]. cbn [skip_loop map head]. rewrite dec_long_ok by lia. cbn [mbind option_bind].
  destruct (Z.eqb_spec offset 0) as [->|Hz]; [done|]. destruct Hc as [(n & -> & _ & _ & Hm) Hc]. cbn [mbind option_bind]. rewrite Hm. cbn [mbind option_bind]. rewrite IH by (try done; cbn in Hf; lia). unfold skipped. destruct (Z.ltb_spec offset 0); [by rewrite (proj2 (Z.ltb_lt _ _)) by lia|]. rewrite (proj2 (Z.ltb_ge _ _)) by lia.
  replace (Z.to_nat offset) with (S (Z.to_nat (offset - 1))) by lia. done.
Qed.
Lemma take_loop_chain m reverse (f : Z -> bool) rest : (forall x c, rest = x :: c -> f (r_score x) = false) -> forall d fuel limit, chain m reverse (d ++ rest) -> Forall (fun r => f (r_score r) = true) d -> (length d <= fuel)%nat -> - 2 ^ 63 + zlen d < limit ->
  take_loop fuel m reverse (fun n => f (z_score n)) (head (map r_addr (d ++ rest))) limit = Some (map key (limited limit d)).
Proof.
  intros Hrest. induction d as [|x d IH]; intros fuel limit Hc Hd Hf Hl.
  - cbn [app] in *. assert (El : limited limit (@nil row) = []) by (unfold limited; destruct (limit <? 0); by rewrite ?take_nil). rewrite El. cbn [map]. destruct rest as [|y rest]; [by destruct fuel|]. destruct Hc as [(n & En & _ & Hs & _) _]. specialize (Hrest y rest eq_refl). change (zlen (@nil row)) with 0 in Hl.
    destruct fuel; cbn [take_loop map head]; rewrite dec_long_ok by lia; cbn [mbind option_bind]; destruct (limit =? 0); try done; rewrite En; cbn [mbind option_bind]; by rewrite Hs, Hrest.
  - cbn [app] in *. rewrite zlen_cons in Hl. pose proof (zlen_nonneg d). apply Forall_cons in Hd as [Hx Hd]. destruct fuel as [|fuel]; [cbn in Hf; lia|]. cbn [take_loop map head]. rewrite dec_long_ok by lia. cbn [mbind option_bind]. destruct (Z.eqb_spec limit 0) as [->|Hz]; [done|]. destruct Hc as [(n & -> & Hk & Hs & Hm) Hc]. cbn [mbind option_bind]. rewrite Hs, Hx. cbn [negb]. rewrite Hk. cbn [mbind option_bind]. rewrite Hm. cbn [mbind option_bind].
    rewrite IH by (try done; cbn in Hf; lia). cbn [mbind option_bind]. unfold limited. destruct (Z.ltb_spec limit 0); [by rewrite (proj2 (Z.ltb_lt _ _)) by lia|]. rewrite (proj2 (Z.ltb_ge _ _)) by lia. replace (Z.to_nat limit) with (S (Z.to_nat (limit - 1))) by lia. done.
Qed.

(** ** The read commands *)
Definition directed {A} (reverse : bool) (l : list A) : list A := if reverse then rev l else l.
Definition z_range (start stop : Z) (reverse : bool) (l : list zkey) : list zkey :=
  match range_indexes (zlen l) start stop with
  | None => []
  | Some (start, stop) => take (Z.to_nat (stop - start + 1)) (drop (Z.to_nat start) (directed reverse l))
  end.
Definition z_range_by_score (range : zrangespec) (reverse : bool) (offset limit : Z) (l : list zkey) : list zkey :=
  limited limit (skipped offset (directed reverse (List.filter (z_in range) l))).
Lemma lookup_head_drop (c : list row) k : r_addr <$> c !! k = head (map r_addr (drop k c)).
Proof. revert k. induction c as [|x c IH]; intros [|k]; try done. cbn. apply IH. Qed.
Lemma map_directed reverse rows : map key (directed reverse rows) = directed reverse (map key rows).
Proof. destruct reverse; [apply map_rev|done]. Qed.
Lemma zrange_spec m zs l start stop reverse : zset_of m zs l -> zlen l + 1 < 2 ^ 32 -> zrangeGeneric m zs start stop reverse = Some (z_range start stop reverse l).
Proof.
  intros Hz Hlen. unfold zrangeGeneric, z_range. rewrite (zsetLength_spec m zs l Hz). destruct Hz as (rows & Hr & ->). rewrite zlen_map_key in *. destruct (range_indexes _ start stop) as [[a b]|] eqn:Ei; [|done]. apply range_indexes_spec in Ei as [Ha Hb]; [|apply zlen_nonneg].
  pose proof (rep_zsl _ _ _ Hr) as Hok. set (c := directed reverse rows). assert (Hln : (if reverse then if a >? 0 then zslGetElementByRank m (zs_zsl zs) (zlen rows - a) else Some (zsl_tail (zs_zsl zs))
     else if a >? 0 then zslGetElementByRank m (zs_zsl zs) (a + 1) else '(f, _) ← lev m (zsl_header (zs_zsl zs)) 0; Some f) = Some (head (map r_addr (drop (Z.to_nat a) c)))).
  { unfold c. destruct reverse; cbn [directed]; (destruct (Z.gtb_spec a 0) as [Hpos|Hz]; [rewrite (by_rank_spec m (zs_zsl zs) rows Hok Hlen) by lia|replace a with 0 by lia]).
    - rewrite <- lookup_head_drop. do 2 f_equal. rewrite rev_alt. change (rev_append rows []) with (reverse rows). symmetry. rewrite reverse_lookup by (unfold zlen in *; lia). f_equal. unfold zlen in *. lia.
    - change (drop (Z.to_nat 0) (rev rows)) with (rev rows). by rewrite head_rev, (ok_tail _ _ _ Hok).
    - rewrite <- lookup_head_drop. do 3 f_equal. lia.
    - change (drop (Z.to_nat 0) rows) with rows. pose proof (sh_level _ _ _ _ (ok_shape _ _ _ Hok)). pose proof (sh_cells _ _ _ _ (ok_shape _ _ _ Hok) [] (hrow _ (Z.to_nat (zsl_level (zs_zsl zs)))) rows 0%nat eq_refl ltac:(cbn; lia)) as Hc. cbn [r_addr hrow] in Hc. rewrite Hc. cbn [mbind option_bind]. rewrite <- (fwd_head m (zs_zsl zs) [] rows Hok). by destruct (fwd 0 rows). }
  rewrite Hln. cbn [mbind option_bind]. assert (Hc : chain m reverse c) by (unfold c; destruct reverse; cbn [directed]; [apply (chain_rev m (zs_zsl zs) rows []); by rewrite app_nil_r|by apply (chain_fwd m (zs_zsl zs) rows [])]).
  assert (Hlc : length c = length rows) by (unfold c; destruct reverse; cbn [directed]; [apply length_rev|done]). rewrite range_loop_chain; [|by apply chain_drop|rewrite length_drop, Hlc; unfold zlen in *; lia].
  rewrite <- map_directed. fold c. change (@map row zkey key) with (@fmap list _ row zkey key). by rewrite fmap_take, fmap_drop.
Qed.
Lemma by_score_chain m reverse (f : Z -> bool) d rest fuel offset limit : chain m reverse (d ++ rest) -> Forall (fun r => f (r_score r) = true) d -> Forall (fun r => f (r_score r) = false) rest -> (length (d ++ rest) <= fuel)%nat -> - 2 ^ 63 + zlen (d ++ rest) < offset -> - 2 ^ 63 + zlen d < limit ->
  (ln ← skip_loop fuel m reverse (head (map r_addr (d ++ rest))) offset; take_loop fuel m reverse (fun n => f (z_score n)) ln limit) = Some (map key (limited limit (skipped offset d))).
Proof.
  intros Hc Hd Hrest Hf Ho Hl. rewrite skip_loop_chain by done. cbn [mbind option_bind]. rewrite length_app in Hf. unfold skipped. destruct (offset <? 0).
  - change (@nil row) with (@nil row ++ []) at 1. apply (take_loop_chain m reverse f []); [done|done|done|cbn; lia|]. pose proof (zlen_nonneg d). change (zlen (@nil row)) with 0. lia.
  - rewrite drop_app. apply (take_loop_chain m reverse f).
    + intros x c E. apply (Forall_drop _ (Z.to_nat offset - length d)) in Hrest. rewrite E in Hrest. by apply Forall_cons in Hrest as [Hrest _].
    + rewrite <- drop_app. by apply chain_drop.
    + by apply Forall_drop.
    + rewrite length_drop. lia.
    + unfold zlen in *. rewrite length_drop. lia.
Qed.
Lemma zrangebyscore_spec m zs l range reverse offset limit : zset_of m zs l -> zlen l + 1 < 2 ^ 32 -> - 2 ^ 62 < offset -> - 2 ^ 62 < limit ->
  zrangebyscore m zs range reverse offset limit = Some (z_range_by_score range reverse offset limit l).
Proof.
  intros (rows & Hr & ->) Hlen Ho Hl. rewrite zlen_map_key in Hlen. unfold zrangebyscore, z_range_by_score. pose proof (rep_zsl _ _ _ Hr) as Hok. rewrite (ok_length _ _ _ Hok), List.filter_map_swap, <- map_directed.
  rewrite (first_in_range m zs rows Hr Hlen range), (last_in_range m zs rows Hr Hlen range). destruct (range_rows m zs rows Hr range) as (p & d & q & E & -> & Hp & Hdq & Hd & Hq).
  assert (Hmap : forall c, limited limit (skipped offset (map key c)) = map key (limited limit (skipped offset c))).
  { intros c. unfold limited, skipped. change (@map row zkey key) with (@fmap list _ row zkey key). destruct (offset <? 0), (limit <? 0); by rewrite ?fmap_take, ?fmap_drop. }
  rewrite Hmap. assert (Hln : (if reverse then Some (r_addr <$> last d) else Some (r_addr <$> head d)) = Some (head (map r_addr (directed reverse d)))) by (destruct reverse; cbn [directed]; [by rewrite head_rev|by destruct d]). rewrite Hln. cbn [mbind option_bind].
  destruct (decide (d = [])) as [->|Hne]; [assert (En : directed reverse (@nil row) = []) by (by destruct reverse); rewrite En; unfold limited, skipped; destruct (offset <? 0), (limit <? 0); by rewrite ?drop_nil, ?take_nil|].
  set (rest := if reverse then rev p else q). assert (Hhead : head (map r_addr (directed reverse d)) = head (map r_addr (directed reverse d ++ rest))).
  { destruct reverse; cbn [directed]; destruct d as [|y d] using rev_ind; try done; rewrite ?rev_app_distr; try done. destruct d; done. }
  destruct (head (map r_addr (directed reverse d))) as [x|] eqn:Eh.
  2: { exfalso. apply Hne. destruct reverse; cbn [directed] in Eh; [|by destruct d]. rewrite head_rev in Eh. unfold last_addr in Eh. by apply fmap_None, last_None in Eh. }
  rewrite Hhead. assert (Hlens : zlen rows = zlen p + zlen d + zlen q) by (rewrite E, !zlen_app; lia). pose proof (zlen_nonneg p). pose proof (zlen_nonneg d). pose proof (zlen_nonneg q).
  assert (Hbounds : zlen (directed reverse d ++ rest) <= zlen rows /\ zlen (directed reverse d) <= zlen rows) by (unfold rest; destruct reverse; cbn [directed]; unfold zlen in *; rewrite ?length_app, ?length_rev; lia).
  apply (by_score_chain m reverse (fun s => if reverse then zslValueGteMin s range else zslValueLteMax s range)).
  - unfold rest. destruct reverse; cbn [directed].
    + rewrite <- rev_app_distr. apply (chain_rev m (zs_zsl zs) (p ++ d) q). by rewrite <- app_assoc, <- E.
    + apply (chain_fwd m (zs_zsl zs) (d ++ q) p). by rewrite <- E.
  - apply Forall_app in Hdq as [Hdq _]. destruct reverse; cbn [directed]; [by apply Forall_rev|done].
  - unfold rest. destruct reverse; [by apply Forall_rev|done].
  - unfold zlen in *. lia.
  - lia.
  - lia.
Qed.
Lemma rank_of_row m zs p x q : rep m zs (p ++ x :: q) -> zlen (p ++ x :: q) + 1 < 2 ^ 32 -> rank_of m (zs_zsl zs) (r_addr x) = Some (zlen p + 1).
Proof.
  intros Hr Hlen. unfold rank_of. destruct (row_node m (zs_zsl zs) p x q (rep_zsl _ _ _ Hr)) as (n & -> & He & Hs & _). cbn [mbind option_bind]. rewrite He. cbn [mbind option_bind]. rewrite Hs.
  exact (get_rank_hit m (zs_zsl zs) (p ++ x :: q) (rep_zsl _ _ _ Hr) Hlen p x q _ _ eq_refl (proj2 (splits_row m zs p x q Hr)) eq_refl (rep_nodup _ _ _ Hr)).
Qed.
Lemma zcount_spec m zs l range : zset_of m zs l -> zlen l + 1 < 2 ^ 32 -> zcount m zs range = Some (zlen (List.filter (z_in range) l)).
Proof.
  intros (rows & Hr & ->) Hlen. rewrite zlen_map_key in Hlen. unfold zcount. rewrite (first_in_range m zs rows Hr Hlen range), (last_in_range m zs rows Hr Hlen range), List.filter_map_swap, zlen_map_key. destruct (range_rows m zs rows Hr range) as (p & d & q & E & -> & _). cbn [mbind option_bind].
  destruct d as [|x d]; [done|]. cbn [head fmap option_fmap option_map]. rewrite (ok_length _ _ _ (rep_zsl _ _ _ Hr)). assert (Hx : rank_of m (zs_zsl zs) (r_addr x) = Some (zlen p + 1)) by (rewrite E in Hr, Hlen; by apply (rank_of_row m zs p x (d ++ q))). rewrite Hx. cbn [mbind option_bind].
  destruct (last (x :: d)) as [y|] eqn:Ey; [|by apply last_None in Ey]. apply last_Some in Ey as [d' Ed]. cbn [fmap option_fmap option_map].
  assert (Hy : rank_of m (zs_zsl zs) (r_addr y) = Some (zlen (p ++ d') + 1)) by (rewrite Ed in E; rewrite E in Hr, Hlen; assert (E2 : p ++ (d' ++ [y]) ++ q = (p ++ d') ++ y :: q) by (by list_simplifier); rewrite E2 in Hr, Hlen; by apply (rank_of_row m zs (p ++ d') y q)). rewrite Hy. cbn [mbind option_bind].
  f_equal. rewrite Ed, !zlen_app, zlen_cons. change (zlen (@nil row)) with 0. lia.
Qed.
(** ZPOPMIN and ZPOPMAX *)
Definition z_pop (count : nat) (max : bool) (l : list zkey) : list zkey * (list zkey * bool) :=
  let rest := drop count (directed max l) in (directed max rest, (take count (directed max l), bool_decide (rest = []))).
Lemma zset_nonempty m zs x l : zset_of m zs (x :: l) -> exists r rows, rep m zs (r :: rows) /\ key r = x /\ map key rows = l.
Proof. intros ([|r rows] & Hr & E); [done|]. injection E as -> ->. by exists r, rows. Qed.
Lemma directed_twice {A} max (l : list A) : directed max (directed max l) = l.
Proof. destruct max; [apply rev_involutive|done]. Qed.
(** The first element in a direction, and what is left without it. *)
Lemma end_row m zs l max k c : zset_of m zs l -> directed max l = k :: c -> exists first x n, lev m (zsl_header (zs_zsl zs)) 0 = Some first /\ (if max then zsl_tail (zs_zsl zs) else first.1) = Some x /\ m !! x = Some n /\ reply_of n = Some k /\
  z_remove k.2 l = directed max c /\ is_Some (z_score_of k.2 l).
Proof.
  intros (rows & Hr & ->) E. rewrite <- map_directed in E. destruct (directed max rows) as [|r cr] eqn:Ed; [done|]. injection E as <- <-. pose proof (rep_zsl _ _ _ Hr) as Hok. pose proof (sh_level _ _ _ _ (ok_shape _ _ _ Hok)). pose proof (sh_cells _ _ _ _ (ok_shape _ _ _ Hok) [] (hrow _ (Z.to_nat (zsl_level (zs_zsl zs)))) rows 0%nat eq_refl ltac:(cbn; lia)) as Hc. cbn [r_addr hrow] in Hc.
  assert (Hsplit : exists p q, rows = p ++ r :: q /\ p ++ q = directed max cr).
  { destruct max; cbn [directed] in *; [exists (rev cr), []; rewrite app_nil_r; split; [|done]; rewrite <- (rev_involutive rows), Ed; done|by exists [], cr]. }
  destruct Hsplit as (p & q & Erows & Epq). assert (Hok2 := Hok). rewrite Erows in Hok2. destruct (row_node m (zs_zsl zs) p r q Hok2) as (n & En & He & Hs & _). exists (fwd 0 rows), (r_addr r), n. split; [done|]. split.
  { destruct max; cbn [directed] in Ed; [by rewrite (ok_tail _ _ _ Hok), <- head_rev, Ed|]. rewrite (fwd_head m (zs_zsl zs) [] rows Hok), Ed. done. }
  split; [done|]. split; [unfold reply_of; by rewrite He, Hs|]. destruct (nodup_drop p r q) as [_ Hni]; [rewrite <- Erows; apply Hr|]. rewrite Erows. cbn [key snd]. split; [by rewrite z_remove_row, Epq, map_directed by done|]. unfold z_score_of. by rewrite z_find_row.
Qed.
Lemma directed_nil {A} max (l : list A) : directed max l = [] <-> l = [].
Proof. destruct max; cbn [directed]; [|done]. split; [intros E; by rewrite <- (rev_involutive l), E|by intros ->]. Qed.
Lemma zlen_directed {A} max (l : list A) : zlen (directed max l) = zlen l.
Proof. destruct max; cbn [directed]; [unfold zlen; by rewrite length_rev|done]. Qed.
Lemma zpop_spec max count : forall m zs l, zset_of m zs l -> zlen l + 1 < 2 ^ 32 -> l <> [] -> exists m' zs', zpop_loop (S count) m zs max = Some (m', zs', (z_pop (S count) max l).2) /\ zset_of m' zs' (z_pop (S count) max l).1.
Proof.
  induction count as [|count IH]; intros m zs l Hz Hlen Hne; (destruct (directed max l) as [|k c] eqn:Ed; [by apply directed_nil in Ed|]).
  all: destruct (end_row m zs l max k c Hz Ed) as ([f s] & x & n & Ef & Ex & En & Ek & Erem & Hsc).
  all: destruct (zsetDel_spec m zs l k.2 Hz Hlen) as (m1 & zs1 & Edel & Hz1); rewrite (bool_decide_true _ Hsc) in Edel; rewrite Erem in Hz1; pose proof (zsetLength_spec m1 zs1 _ Hz1) as Hl1; rewrite zlen_directed in Hl1.
  all: assert (Hstep : forall j, zpop_loop (S j) m zs max = if zsetLength zs1 =? 0 then Some (m1, zs1, ([k], true)) else '(m, zs, (ks, removed)) ← zpop_loop j m1 zs1 max; Some (m, zs, (k :: ks, removed))) by
    (intros j; cbn [zpop_loop]; rewrite Ef; cbn [mbind option_bind]; cbn [fst] in Ex; rewrite Ex; cbn [mbind option_bind]; rewrite En; cbn [mbind option_bind]; rewrite Ek; cbn [mbind option_bind]; rewrite Edel; done).
  all: rewrite Hstep, Hl1; unfold z_pop; rewrite Ed; cbn [fst snd take drop].
  all: destruct c as [|k2 c]; [exists m1, zs1; rewrite ?drop_nil, ?take_nil; split; [done|exact Hz1]|rewrite (proj2 (Z.eqb_neq _ _)) by (rewrite zlen_cons; pose proof (zlen_nonneg c); lia)].
  - exists m1, zs1. cbn [zpop_loop mbind option_bind]. rewrite (bool_decide_false (k2 :: c = [])) by done. done.
  - destruct (IH m1 zs1 (directed max (k2 :: c)) Hz1) as (m' & zs' & -> & Hz'); [apply (f_equal zlen) in Ed; rewrite zlen_directed, zlen_cons in Ed; rewrite zlen_directed; lia|by rewrite directed_nil|]. cbn [mbind option_bind]. unfold z_pop in *. rewrite directed_twice in *. cbn [fst snd take drop] in *. by exists m', zs'.
Qed.

(** ** The ends of a range of elements *)
Section LexEnds.
  Context (m : zheap) (zs : zset) (rows : list row) (Hr : rep m zs rows) (Hlen : zlen rows + 1 < 2 ^ 32) (Hsame : same_scores (map key rows)) (range : zlexrangespec).
#[local] Abbreviation sel := (List.filter (fun r => z_in_lex range (key r)) rows).
Lemma first_in_lex : zslFirstInLexRange m (zs_zsl zs) range = Some (r_addr <$> head sel).
Proof.
  unfold zslFirstInLexRange, zslIsInLexRange. cbv zeta. destruct (_ || _) eqn:Ee; [cbn [mbind option_bind negb]; rewrite filter_empty; [done|]; intros r; by apply empty_lex_range|].
  apply (first_between m (zs_zsl zs) rows (rep_zsl _ _ _ Hr) Hlen rlex (sorted_rlex rows (rep_sorted _ _ _ Hr) Hsame) _ _ (fun r => zslLexValueGteMin (r_ele r) range) (fun r => zslLexValueLteMax (r_ele r) range)).
  - apply (ele_node_test (fun e => zslLexValueGteMin e range)).
  - apply (ele_node_test (fun e => zslLexValueLteMax e range)).
  - intros a b. apply lex_gte_up.
  - intros a b. apply lex_lte_down.
Qed.
Lemma last_in_lex : zslLastInLexRange m (zs_zsl zs) range = Some (r_addr <$> last sel).
Proof.
  unfold zslLastInLexRange, zslIsInLexRange. cbv zeta. destruct (_ || _) eqn:Ee; [cbn [mbind option_bind negb]; rewrite filter_empty; [done|]; intros r; by apply empty_lex_range|].
  apply (last_between m (zs_zsl zs) rows (rep_zsl _ _ _ Hr) Hlen rlex (sorted_rlex rows (rep_sorted _ _ _ Hr) Hsame) _ _ (fun r => zslLexValueGteMin (r_ele r) range) (fun r => zslLexValueLteMax (r_ele r) range)).
  - apply (ele_node_test (fun e => zslLexValueGteMin e range)).
  - apply (ele_node_test (fun e => zslLexValueLteMax e range)).
  - intros a b. apply lex_gte_up.
  - intros a b. apply lex_lte_down.
Qed.
End LexEnds.
(** What a returned node holds. *)
Definition read (m : zheap) (x : ptr) : option (option zkey) :=
  match x with None => Some None | Some a => n ← m !! a; k ← reply_of n; Some (Some k) end.
Lemma read_row m zs rows r : rep m zs rows -> (forall x, r = Some x -> x ∈ rows) -> read m (r_addr <$> r) = Some (key <$> r).
Proof.
  intros Hr Hin. destruct r as [x|]; [|done]. specialize (Hin x eq_refl). apply list_elem_of_split in Hin as (p & q & ->). cbn. destruct (row_node m (zs_zsl zs) p x q (rep_zsl _ _ _ Hr)) as (n & -> & He & Hs & _). cbn. unfold reply_of. by rewrite He, Hs.
Qed.
Definition lex_ends (m : zheap) (zs : zset) (range : zlexrangespec) : option (option zkey * option zkey) :=
  a ← zslFirstInLexRange m (zs_zsl zs) range; b ← zslLastInLexRange m (zs_zsl zs) range; ka ← read m a; kb ← read m b; Some (ka, kb).
Lemma head_map {A B} (f : A -> B) l : head (map f l) = f <$> head l.
Proof. by destruct l. Qed.
Lemma last_map {A B} (f : A -> B) l : last (map f l) = f <$> last l.
Proof. change (map f l) with (f <$> l). apply fmap_last. Qed.
Lemma lex_ends_spec m zs l range : zset_of m zs l -> zlen l + 1 < 2 ^ 32 -> same_scores l -> lex_ends m zs range = Some (head (List.filter (z_in_lex range) l), last (List.filter (z_in_lex range) l)).
Proof.
  intros (rows & Hr & ->) Hlen Hsame. rewrite zlen_map_key in Hlen. unfold lex_ends. rewrite (first_in_lex m zs rows Hr Hlen Hsame range), (last_in_lex m zs rows Hr Hlen Hsame range). cbn [mbind option_bind].
  assert (Hin : forall x, In x (List.filter (fun r => z_in_lex range (key r)) rows) -> x ∈ rows) by (intros x Hx; apply filter_In in Hx as [Hx _]; by apply list_elem_of_In).
  rewrite (read_row m zs rows), (read_row m zs rows); try done.
  - cbn [mbind option_bind]. by rewrite List.filter_map_swap, head_map, last_map.
  - intros x Hx. apply Hin. destruct (List.filter _ rows); [done|]. injection Hx as ->. by left.
  - intros x Hx. apply Hin, list_elem_of_In. apply last_Some in Hx as [c ->]. apply elem_of_app. right. apply list_elem_of_here.
Qed.

(** ** Sequences of operations *)
Inductive zop :=
  | Add (score : Z) (ele : list Z) (flags : Z) (draws : list Z)
  | Del (ele : list Z)
  | Score (ele : list Z)
  | Rank (ele : list Z) (reverse : bool)
  | Card
  | RemRange (r : zremrange)
  | Range (start stop : Z) (reverse : bool)
  | RangeByScore (range : zrangespec) (reverse : bool) (offset limit : Z)
  | Count (range : zrangespec)
  | LexEnds (range : zlexrangespec)
  | Pop (count : Z) (max : bool).
Inductive zres :=
  | RAdd (r : zadded) | RBool (b : bool) | RScore (s : option Z) | RInt (n : Z) | RRem (r : Z * bool)
  | RList (l : list zkey) | REnds (ends : option zkey * option zkey) | RPop (r : list zkey * bool).
Section Sequences.
  Context `{NodeAllocator} (dadd : Z -> Z -> Z).
Definition zstep (m : zheap) (zs : zset) (op : zop) : option (zheap * zset * zres) :=
  match op with
  | Add score ele flags draws => '(m, zs, r, _) ← zsetAdd dadd m zs score ele flags draws; Some (m, zs, RAdd r)
  | Del ele => '(m, zs, b) ← zsetDel m zs ele; Some (m, zs, RBool b)
  | Score ele => s ← zsetScore m zs ele; Some (m, zs, RScore s)
  | Rank ele reverse => n ← zsetRank m zs ele reverse; Some (m, zs, RInt n)
  | Card => Some (m, zs, RInt (zsetLength zs))
  | RemRange r => '(m, zs, r) ← zremrangeGeneric m zs r; Some (m, zs, RRem r)
  | Range start stop reverse => l ← zrangeGeneric m zs start stop reverse; Some (m, zs, RList l)
  | RangeByScore range reverse offset limit => l ← zrangebyscore m zs range reverse offset limit; Some (m, zs, RList l)
  | Count range => n ← zcount m zs range; Some (m, zs, RInt n)
  | LexEnds range => e ← lex_ends m zs range; Some (m, zs, REnds e)
  | Pop count max => '(m, zs, r) ← zpop_loop (Z.to_nat count) m zs max; Some (m, zs, RPop r)
  end.
Definition z_step (l : list zkey) (op : zop) : list zkey * zres :=
  match op with
  | Add score ele flags _ => let '(l', r) := z_add dadd score ele flags l in (l', RAdd r)
  | Del ele => (z_remove ele l, RBool (bool_decide (is_Some (z_score_of ele l))))
  | Score ele => (l, RScore (z_score_of ele l))
  | Rank ele reverse => (l, RInt (z_rank ele reverse l))
  | Card => (l, RInt (zlen l))
  | RemRange r => let '(l', r) := z_remrange r l in (l', RRem r)
  | Range start stop reverse => (l, RList (z_range start stop reverse l))
  | RangeByScore range reverse offset limit => (l, RList (z_range_by_score range reverse offset limit l))
  | Count range => (l, RInt (zlen (List.filter (z_in range) l)))
  | LexEnds range => (l, REnds (head (List.filter (z_in_lex range) l), last (List.filter (z_in_lex range) l)))
  | Pop count max => let '(l', r) := z_pop (Z.to_nat count) max l in (l', RPop r)
  end.
(** The values random() gives end the loop of zslRandomLevel. *)
Definition draws_ok (draws : list Z) : Prop := Exists (fun r => 16383 < Z.land r 0xFFFF) draws /\ zlen draws < 2 ^ 31.
Definition zlegal (l : list zkey) (op : zop) : Prop := zlen l + 1 < 2 ^ 32 /\
  match op with
  | Add _ _ _ draws => draws_ok draws
  | RemRange r => remrange_legal r l
  | RangeByScore _ _ offset limit => - 2 ^ 62 < offset /\ - 2 ^ 62 < limit
  | LexEnds _ => same_scores l
  | Pop count _ => 1 <= count /\ l <> []
  | _ => True
  end.
Lemma zstep_spec m zs l op : zset_of m zs l -> zlegal l op -> exists m' zs', zstep m zs op = Some (m', zs', (z_step l op).2) /\ zset_of m' zs' (z_step l op).1.
Proof.
  intros Hz [Hlen Hl]. destruct op as [score ele flags draws|ele|ele|ele rv| |r|start stop rv|range rv offset limit|range|range|count max]; cbn [zstep z_step].
  - destruct Hl as [Hd Hdl]. destruct (random_level_some draws Hd Hdl) as (h & rest & Er). destruct (zsetAdd_spec dadd m zs l score ele flags draws h rest Hz Hlen Er) as (m' & zs' & draws' & -> & Hz'). cbn [mbind option_bind]. exists m', zs'. by destruct (z_add _ _ _ _ _).
  - destruct (zsetDel_spec m zs l ele Hz Hlen) as (m' & zs' & -> & Hz'). by exists m', zs'.
  - rewrite (zsetScore_spec m zs l ele Hz). by exists m, zs.
  - rewrite (zsetRank_spec m zs l ele rv Hz Hlen). by exists m, zs.
  - rewrite (zsetLength_spec m zs l Hz). by exists m, zs.
  - destruct Hz as (rows & Hr & ->). rewrite zlen_map_key in Hlen. assert (Hx : exists m' zs', zremrangeGeneric m zs r = Some (m', zs', (z_remrange r (map key rows)).2) /\ zset_of m' zs' (z_remrange r (map key rows)).1) by (destruct r; [by apply rem_by_rank|by apply rem_by_score|by apply rem_by_lex]).
    destruct Hx as (m' & zs' & -> & Hz'). exists m', zs'. cbn [mbind option_bind]. by destruct (z_remrange _ _).
  - rewrite (zrange_spec m zs l start stop rv Hz Hlen). by exists m, zs.
  - destruct Hl as [Ho Hli]. rewrite (zrangebyscore_spec m zs l range rv offset limit Hz Hlen Ho Hli). by exists m, zs.
  - rewrite (zcount_spec m zs l range Hz Hlen). by exists m, zs.
  - rewrite (lex_ends_spec m zs l range Hz Hlen Hl). by exists m, zs.
  - destruct Hl as [Hc Hne]. replace (Z.to_nat count) with (S (Z.to_nat (count - 1))) by lia. destruct (zpop_spec max (Z.to_nat (count - 1)) m zs l Hz Hlen Hne) as (m' & zs' & -> & Hz'). exists m', zs'. cbn [mbind option_bind]. by destruct (z_pop _ _ _).
Qed.
Fixpoint zrun (m : zheap) (zs : zset) (ops : list zop) : option (zheap * zset * list zres) :=
  match ops with
  | [] => Some (m, zs, [])
  | op :: ops => '(m, zs, r) ← zstep m zs op; '(m, zs, rs) ← zrun m zs ops; Some (m, zs, r :: rs)
  end.
Fixpoint z_run (l : list zkey) (ops : list zop) : list zkey * list zres :=
  match ops with
  | [] => (l, [])
  | op :: ops => let '(l', rs) := z_run (z_step l op).1 ops in (l', (z_step l op).2 :: rs)
  end.
Fixpoint zlegal_run (l : list zkey) (ops : list zop) : Prop :=
  match ops with
  | [] => True
  | op :: ops => zlegal l op /\ zlegal_run (z_step l op).1 ops
  end.
Lemma zrun_spec ops : forall m zs l, zset_of m zs l -> zlegal_run l ops -> exists m' zs', zrun m zs ops = Some (m', zs', (z_run l ops).2) /\ zset_of m' zs' (z_run l ops).1.
Proof.
  induction ops as [|op ops IH]; intros m zs l Hz Hl; [by exists m, zs|]. destruct Hl as [H1 H2]. cbn [zrun z_run]. destruct (zstep_spec m zs l op Hz H1) as (m1 & zs1 & -> & Hz1). cbn [mbind option_bind]. destruct (IH m1 zs1 _ Hz1 H2) as (m' & zs' & -> & Hz'). cbn [mbind option_bind]. exists m', zs'. by destruct (z_run _ ops).
Qed.
Lemma create_zset : exists m zs, createZsetObject ∅ = Some (m, zs) /\ zset_of m zs [].
Proof.
  unfold createZsetObject. destruct (zsl_create_spec ∅) as (m & zsl & -> & Hok & _ & Hd). cbn [mbind option_bind]. exists m, (mk_zset ∅ zsl). split; [done|]. exists []. split; [|done]. split; cbn [zs_zsl zs_dict]; try done.
  - constructor.
  - constructor.
  - intros e a. rewrite lookup_empty. split; [done|]. intros (r & Hr & _). by apply elem_of_nil in Hr.
Qed.
Lemma sorted_keys rows : StronglySorted (fun a b : row => klt (key a) (key b)) rows -> StronglySorted klt (map key rows).
Proof. induction 1 as [|r rows Hs IH Hf]; [constructor|]. cbn [map]. constructor; [done|]. apply Forall_map. exact Hf. Qed.
Lemma zset_sorted m zs l : zset_of m zs l -> StronglySorted klt l /\ NoDup (map snd l).
Proof.
  intros (rows & Hr & ->). split.
  - apply sorted_keys, Hr.
  - rewrite map_map. apply Hr.
Qed.
Lemma zset_free m zs l : zset_of m zs l -> zslFree m (zs_zsl zs) = Some ∅.
Proof.
  intros (rows & Hr & ->). destruct (zsl_free_spec m (zs_zsl zs) rows (rep_zsl _ _ _ Hr)) as (m' & -> & Hd). f_equal. apply (dom_empty_iff_L (D := gset positive)). rewrite Hd, (rep_dom _ _ _ Hr). set_solver.
Qed.

(** C5: a sorted set (hash table and skip list sharing nodes) behaves, for
    every sequence of operations, every outcome of the random node heights and
    any addition of doubles, as the list of its scores and elements sorted by
    score and element: every reply is that of the list, the list stays sorted
    with each element once, and releasing the skip list at the end leaves no
    node.  The operations are those of ZADD with its NX, XX and INCR flags,
    ZREM, ZSCORE, ZRANK, ZCARD, the ZREMRANGE commands, ZRANGE, ZRANGEBYSCORE
    with LIMIT, ZCOUNT, ranges by element and ZPOPMIN/ZPOPMAX. *)
Theorem zset_refines ops :
  zlegal_run [] ops ->
  exists m zs, ('(m, zs) ← createZsetObject ∅; zrun m zs ops) = Some (m, zs, (z_run [] ops).2) /\
    zset_of m zs (z_run [] ops).1 /\ StronglySorted klt (z_run [] ops).1 /\ NoDup (map snd (z_run [] ops).1) /\
    zslFree m (zs_zsl zs) = Some ∅.
Proof.
  intros Hl. destruct create_zset as (m0 & zs0 & -> & Hz0). cbn [mbind option_bind]. destruct (zrun_spec ops m0 zs0 [] Hz0 Hl) as (m & zs & -> & Hz). exists m, zs. split; [done|]. split; [done|]. destruct (zset_sorted m zs _ Hz) as [H1 H2]. split; [done|]. split; [done|]. by apply (zset_free m zs (z_run [] ops).1).
Qed.
End Sequences.

(** ** The sorted list as a map *)
Lemma z_score_iff l e s : NoDup (map snd l) -> z_score_of e l = Some s <-> (s, e) ∈ l.
Proof.
  intros Hnd. unfold z_score_of, z_find. split.
  - destruct (list_find _ l) as [[i k]|] eqn:E; [|done]. intros [= <-]. apply list_find_Some in E as (E & <- & _). cbn. rewrite <- surjective_pairing. by eapply list_elem_of_lookup_2.
  - intros Hin. destruct (list_find _ l) as [[i k]|] eqn:E.
    + apply list_find_Some in E as (E & He & _). cbn. f_equal. apply list_elem_of_lookup in Hin as [j Hj]. assert (i = j) as ->; [|rewrite E in Hj; by injection Hj as ->]. apply (NoDup_lookup (map snd l) i j e Hnd); change (map snd l) with (l.*2); rewrite list_lookup_fmap; [by rewrite E, <- He|by rewrite Hj].
    + apply list_find_None in E. rewrite List.Forall_forall in E. by destruct (E (s, e) (proj1 (list_elem_of_In _ _) Hin)).
Qed.
Lemma elem_of_z_set s e l k : k ∈ z_set s e l <-> k = (s, e) \/ (k ∈ l /\ k.2 <> e).
Proof.
  unfold z_set, z_insert, z_remove. rewrite elem_of_app, elem_of_cons, !list_elem_of_In, !filter_In, negb_true_iff, negb_true_iff. unfold has_ele. rewrite bool_decide_eq_false. destruct (kltb k (s, e)); tauto.
Qed.
Section MapLaws.
  Context `{NodeAllocator} (dadd : Z -> Z -> Z).
(** Adding an element without flags gives it the score (for an element
    that had an equal score, such as the other zero, that score is kept) and
    changes the score of no other element. *)
Theorem zsetAdd_zsetScore m zs l score ele draws :
  zset_of m zs l -> zlen l + 1 < 2 ^ 32 -> draws_ok draws -> isnan score = false ->
  exists m' zs' r draws' s, zsetAdd dadd m zs score ele 0 draws = Some (m', zs', r, draws') /\ za_ret r = 1 /\
    zsetScore m' zs' ele = Some (Some s) /\ (s = score \/ (deq score s = true /\ zsetScore m zs ele = Some (Some s))) /\
    (forall e, e <> ele -> zsetScore m' zs' e = zsetScore m zs e) /\
    (za_flags r = ZADD_ADDED <-> zsetScore m zs ele = Some None).
Proof.
  intros Hz Hlen [Hd Hdl] Hnan. destruct (random_level_some draws Hd Hdl) as (h & rest & Er). destruct (zsetAdd_spec dadd m zs l score ele 0 draws h rest Hz Hlen Er) as (m' & zs' & draws' & E & Hz'). destruct (zset_sorted m' zs' _ Hz') as [_ Hnd']. destruct (zset_sorted m zs l Hz) as [_ Hnd].
  unfold z_add in *. rewrite Hnan in *. change (has_flag 0 ZADD_INCR) with false in *. change (has_flag 0 ZADD_NX) with false in *. change (has_flag 0 ZADD_XX) with false in *. cbv iota in *. rewrite Hnan in *.
  assert (Hset : forall l' : list zkey, NoDup (map snd l') -> l' = z_set score ele l -> z_score_of ele l' = Some score /\ forall e, e <> ele -> z_score_of e l' = z_score_of e l).
  { intros l' Hn' ->. split; [apply z_score_iff; [done|]; apply elem_of_z_set; by left|]. intros e He. apply option_eq. intros s. rewrite !z_score_iff by done. rewrite elem_of_z_set. cbn [snd]. naive_solver. }
  rewrite (zsetScore_spec m zs l ele Hz). destruct (z_score_of ele l) as [cur|] eqn:Ec; [destruct (deq score cur) eqn:Eq|]; cbn [fst snd] in *.
  - eexists m', zs', _, draws', cur. split; [done|]. rewrite (zsetScore_spec m' zs' l ele Hz'), Ec. split; [done|]. split; [done|]. split; [by right|]. split; [|done]. intros e _. by rewrite (zsetScore_spec m' zs' l e Hz'), (zsetScore_spec m zs l e Hz).
  - destruct (Hset _ Hnd' eq_refl) as [H1 H2]. eexists m', zs', _, draws', score. split; [done|]. rewrite (zsetScore_spec m' zs' _ ele Hz'), H1. split; [done|]. split; [done|]. split; [by left|]. split; [|done]. intros e He. by rewrite (zsetScore_spec m' zs' _ e Hz'), (zsetScore_spec m zs l e Hz), H2.
  - destruct (Hset _ Hnd' eq_refl) as [H1 H2]. eexists m', zs', _, draws', score. split; [done|]. rewrite (zsetScore_spec m' zs' _ ele Hz'), H1. split; [done|]. split; [done|]. split; [by left|]. split; [|done]. intros e He. by rewrite (zsetScore_spec m' zs' _ e Hz'), (zsetScore_spec m zs l e Hz), H2.
Qed.
End MapLaws.

(** ** Witnesses *)
(** An allocator: the least unused address, memory filled with other values. *)
#[local] Program Instance first_fit : NodeAllocator := {| new_addr m := fresh (dom m); junk_back := Some 7%positive; junk_level := fun _ => (Some 77%positive, 99) |}.
Next Obligation. intros. apply not_elem_of_dom, is_fresh. Qed.
Definition d1 : Z := 4607182418800017408.
Definition d2 : Z := 4611686018427387904.
Definition d3 : Z := 4613937818241073152.
Definition sample_ops : list zop :=
  [Add d2 [97] 0 [0; 65535]; Add d1 [98] 0 [65535]; Add d2 [99; 0] ZADD_NX [0; 0; 65535]; Rank [97] false; Add d1 [98] ZADD_INCR [65535]; Range 0 (-1) true;
   Count (mk_range d2 d3 true false); RangeByScore (mk_range d1 d3 false false) false 1 (-1); Score [99; 0]; Pop 1 true; LexEnds (mk_lexrange (Str [97]) MaxString true true); RemRange (ByRank (-1) 5); Del [97]].
Lemma zset_refines_witness : exists m zs, ('(m, zs) ← createZsetObject ∅; zrun (fun _ _ => d3) m zs sample_ops) = Some (m, zs,
    [RAdd (mk_zadded 1 ZADD_ADDED (Some d2)); RAdd (mk_zadded 1 ZADD_ADDED (Some d1)); RAdd (mk_zadded 1 ZADD_ADDED (Some d2)); RInt 1; RAdd (mk_zadded 1 ZADD_UPDATED (Some d3)); RList [(d3, [98]); (d2, [99; 0]); (d2, [97])];
     RInt 1; RList [(d2, [99; 0]); (d3, [98])]; RScore (Some d2); RPop ([(d3, [98])], false); REnds (Some (d2, [99; 0]), Some (d2, [99; 0])); RRem (1, false); RBool true]).
Proof.
  destruct (zset_refines (fun _ _ => d3) sample_ops) as (m & zs & E & _).
  - cbn [zlegal_run sample_ops]. repeat match goal with |- _ /\ _ => split end; try exact I.
    all: match goal with |- zlegal _ _ => split; [vm_compute; reflexivity|] end; try exact I.
    all: try (split; [apply Exists_exists; exists 65535; split; [set_solver|vm_compute; reflexivity]|vm_compute; reflexivity]).
    + split; vm_compute; reflexivity.
    + split; vm_compute; discriminate.
    + intros a b Ha Hb. vm_compute in Ha, Hb. set_solver.
  - exists m, zs. rewrite E. vm_compute. reflexivity.
Defined.
Lemma zsetAdd_zsetScore_witness : exists m zs m' zs' r draws', createZsetObject ∅ = Some (m, zs) /\ zsetAdd (fun _ _ => d3) m zs d1 [97] 0 [65535] = Some (m', zs', r, draws') /\ zsetScore m' zs' [97] = Some (Some d1).
Proof.
  destruct create_zset as (m & zs & E & Hz). destruct (zsetAdd_zsetScore (fun _ _ => d3) m zs [] d1 [97] [65535] Hz) as (m' & zs' & r & draws' & s & E' & _ & Hs & Hor & _).
  - vm_compute. reflexivity.
  - split; [apply Exists_cons_hd|]; vm_compute; reflexivity.
  - vm_compute. reflexivity.
  - exists m, zs, m', zs', r, draws'. split; [exact E|]. split; [exact E'|]. destruct Hor as [->|[_ Hn]]; [exact Hs|]. rewrite (zsetScore_spec m zs [] [97] Hz) in Hn. discriminate Hn.
Defined.
