(* ===== verification/Ziplist.v ===== *)
(** * Ziplists (ziplist.c)

    A ziplist is one block of memory: a header (total bytes, offset of the
    last entry, number of entries), the entries and an end byte.  An entry
    starts with the length of the entry before it, in 1 or 5 bytes, so that
    inserting or deleting an entry can change the size of the next one, and in
    turn of those after it (the cascade).  A pointer into the list is its offset in
    the block; [be] is the byte order of the host and [junk] what fresh memory
    holds.  [None] is an access outside the block or a failed assertion.
    The theorems relate the block to the list of the strings it stores. *)
From S2P Require Import Prelude Endian Util.
#[local] Open Scope cmem_scope.

Definition ZIP_END : Z := 255.
Definition ZIP_BIG_PREVLEN : Z := 254.
Definition ZIP_STR_MASK : Z := 0xc0.
Definition ZIP_STR_06B : Z := Z.shiftl 0 6.
Definition ZIP_STR_14B : Z := Z.shiftl 1 6.
Definition ZIP_STR_32B : Z := Z.shiftl 2 6.
Definition ZIP_INT_16B : Z := Z.lor 0xc0 (Z.shiftl 0 4).
Definition ZIP_INT_32B : Z := Z.lor 0xc0 (Z.shiftl 1 4).
Definition ZIP_INT_64B : Z := Z.lor 0xc0 (Z.shiftl 2 4).
Definition ZIP_INT_24B : Z := Z.lor 0xc0 (Z.shiftl 3 4).
Definition ZIP_INT_8B : Z := 0xfe.
Definition ZIP_INT_IMM_MASK : Z := 0x0f.
Definition ZIP_INT_IMM_MIN : Z := 0xf1.
Definition ZIP_INT_IMM_MAX : Z := 0xfd.
Definition INT24_MAX : Z := 0x7fffff.
Definition INT24_MIN : Z := - INT24_MAX - 1.
Definition UINT16_MAX : Z := 65535.
Definition ZIPLIST_HEADER_SIZE : Z := 10.
Definition ZIPLIST_END_SIZE : Z := 1.

Definition ZIP_IS_STR (enc : Z) : bool := Z.land enc ZIP_STR_MASK <? ZIP_STR_MASK.

Section Ziplist.
  Context (be : bool) (junk : nat -> Z).

(** ** The header *)
Definition intrev16ifbe (v : Z) : Z := if be then intrev16 be v else v.
(** [intrev32ifbe] of the 32 bits at an offset, and the converse. *)
Definition get32 (zl : list Z) (off : Z) : option Z := b ← load zl off 4; Some (intrev32ifbe be (native_val be b)).
Definition set32 (zl : list Z) (off v : Z) : option (list Z) := store zl off (native_bytes be 4 (intrev32ifbe be (u32 v))).
Definition get16 (zl : list Z) (off : Z) : option Z := b ← load zl off 2; Some (native_val be b).
Definition set16 (zl : list Z) (off v : Z) : option (list Z) := store zl off (native_bytes be 2 v).
Definition ZIPLIST_BYTES (zl : list Z) : option Z := get32 zl 0.
Definition ZIPLIST_TAIL_OFFSET (zl : list Z) : option Z := get32 zl 4.
(** The field as it is stored. *)
Definition ZIPLIST_LENGTH (zl : list Z) : option Z := get16 zl 8.
Definition set_tail (zl : list Z) (off : Z) : option (list Z) := set32 zl 4 off.
Definition ZIPLIST_INCR_LENGTH (zl : list Z) (incr : Z) : option (list Z) :=
  n ← ZIPLIST_LENGTH zl;
  if n <? UINT16_MAX then set16 zl 8 (intrev16ifbe (u16 (intrev16ifbe n + incr))) else Some zl.

(** ** Entries *)
Definition ZIP_ENTRY_ENCODING (b : Z) : Z := if b <? ZIP_STR_MASK then Z.land b ZIP_STR_MASK else b.
Definition zipIntSize (encoding : Z) : option Z :=
  if encoding =? ZIP_INT_8B then Some 1
  else if encoding =? ZIP_INT_16B then Some 2
  else if encoding =? ZIP_INT_24B then Some 3
  else if encoding =? ZIP_INT_32B then Some 4
  else if encoding =? ZIP_INT_64B then Some 8
  else if (encoding >=? ZIP_INT_IMM_MIN) && (encoding <=? ZIP_INT_IMM_MAX) then Some 0
  else None.
(** What zipStoreEntryEncoding writes; its return value is the length. *)
Definition entry_encoding (encoding rawlen : Z) : list Z :=
  if ZIP_IS_STR encoding then
    if rawlen <=? 0x3f then [Z.lor ZIP_STR_06B rawlen]
    else if rawlen <=? 0x3fff then [Z.lor ZIP_STR_14B (Z.land (Z.shiftr rawlen 8) 0x3f); Z.land rawlen 0xff]
    else [ZIP_STR_32B; Z.land (Z.shiftr rawlen 24) 0xff; Z.land (Z.shiftr rawlen 16) 0xff; Z.land (Z.shiftr rawlen 8) 0xff; Z.land rawlen 0xff]
  else [encoding].
Definition zipStoreEntryEncoding (zl : list Z) (p encoding rawlen : Z) : option (list Z * Z) :=
  let buf := entry_encoding encoding rawlen in
  zl ← store zl p buf; Some (zl, zlen buf).
(** The encoding, [lensize] and [len]. *)
Definition ZIP_DECODE_LENGTH (zl : list Z) (ptr : Z) : option (Z * Z * Z) :=
  b ← zl.[ptr];
  let encoding := ZIP_ENTRY_ENCODING b in
  if encoding <? ZIP_STR_MASK then
    if encoding =? ZIP_STR_06B then Some (encoding, 1, Z.land b 0x3f)
    else if encoding =? ZIP_STR_14B then
      b1 ← zl.[ptr + 1]; Some (encoding, 2, Z.lor (Z.shiftl (Z.land b 0x3f) 8) b1)
    else if encoding =? ZIP_STR_32B then
      b1 ← zl.[ptr + 1]; b2 ← zl.[ptr + 2]; b3 ← zl.[ptr + 3]; b4 ← zl.[ptr + 4];
      Some (encoding, 5, u32 (Z.lor (Z.lor (Z.lor (Z.shiftl b1 24) (Z.shiftl b2 16)) (Z.shiftl b3 8)) b4))
    else None
  else len ← zipIntSize encoding; Some (encoding, 1, len).
Definition zipStorePrevEntryLengthLarge (zl : list Z) (p len : Z) : option (list Z) :=
  store zl p (ZIP_BIG_PREVLEN :: memrev32ifbe be (native_bytes be 4 len)).
(** With [p == NULL], and with a place to write to. *)
Definition prevlen_size (len : Z) : Z := if len <? ZIP_BIG_PREVLEN then 1 else 5.
Definition zipStorePrevEntryLength (zl : list Z) (p len : Z) : option (list Z * Z) :=
  if len <? ZIP_BIG_PREVLEN then zl ← store zl p [u8 len]; Some (zl, 1)
  else zl ← zipStorePrevEntryLengthLarge zl p len; Some (zl, 5).
Definition ZIP_DECODE_PREVLENSIZE (zl : list Z) (ptr : Z) : option Z :=
  b ← zl.[ptr]; Some (if b <? ZIP_BIG_PREVLEN then 1 else 5).
Definition ZIP_DECODE_PREVLEN (zl : list Z) (ptr : Z) : option (Z * Z) :=
  size ← ZIP_DECODE_PREVLENSIZE zl ptr;
  if size =? 1 then b ← zl.[ptr]; Some (size, b)
  else b ← load zl (ptr + 1) 4; Some (size, native_val be (memrev32ifbe be b)).
Definition zipPrevLenByteDiff (zl : list Z) (p len : Z) : option Z :=
  size ← ZIP_DECODE_PREVLENSIZE zl p; Some (prevlen_size len - size).
Definition zipRawEntryLength (zl : list Z) (p : Z) : option Z :=
  prevlensize ← ZIP_DECODE_PREVLENSIZE zl p;
  '(_, lensize, len) ← ZIP_DECODE_LENGTH zl (p + prevlensize);
  Some (u32 (prevlensize + lensize + len)).
(** The value and its encoding. *)
Definition zipTryEncoding (entry : list Z) : option (Z * Z) :=
  let entrylen := zlen entry in
  if (entrylen >=? 32) || (entrylen =? 0) then None
  else
    value ← string2ll entry;
    let encoding :=
      if (value >=? 0) && (value <=? 12) then ZIP_INT_IMM_MIN + value
      else if (value >=? -128) && (value <=? 127) then ZIP_INT_8B
      else if (value >=? -32768) && (value <=? 32767) then ZIP_INT_16B
      else if (value >=? INT24_MIN) && (value <=? INT24_MAX) then ZIP_INT_24B
      else if (value >=? -2147483648) && (value <=? 2147483647) then ZIP_INT_32B
      else ZIP_INT_64B in
    Some (value, encoding).
Definition is_immediate (encoding : Z) : bool := (encoding >=? ZIP_INT_IMM_MIN) && (encoding <=? ZIP_INT_IMM_MAX).
Definition zipSaveInteger (zl : list Z) (p value encoding : Z) : option (list Z) :=
  if encoding =? ZIP_INT_8B then store zl p [u8 value]
  else if encoding =? ZIP_INT_16B then store zl p (memrev16ifbe be (native_bytes be 2 value))
  else if encoding =? ZIP_INT_24B then store zl p (drop 1 (memrev32ifbe be (native_bytes be 4 (Z.shiftl value 8))))
  else if encoding =? ZIP_INT_32B then store zl p (memrev32ifbe be (native_bytes be 4 value))
  else if encoding =? ZIP_INT_64B then store zl p (memrev64ifbe be (native_bytes be 8 value))
  else if is_immediate encoding then Some zl
  else None.
Definition zipLoadInteger (zl : list Z) (p encoding : Z) : option Z :=
  if encoding =? ZIP_INT_8B then b ← zl.[p]; Some (s8 b)
  else if encoding =? ZIP_INT_16B then b ← load zl p 2; Some (s16 (native_val be (memrev16ifbe be b)))
  else if encoding =? ZIP_INT_32B then b ← load zl p 4; Some (s32 (native_val be (memrev32ifbe be b)))
  else if encoding =? ZIP_INT_24B then b ← load zl p 3; Some (Z.shiftr (s32 (native_val be (memrev32ifbe be (0 :: b)))) 8)
  else if encoding =? ZIP_INT_64B then b ← load zl p 8; Some (s64 (native_val be (memrev64ifbe be b)))
  else if is_immediate encoding then Some (Z.land encoding ZIP_INT_IMM_MASK - 1)
  else None.

Record zlentry := mk_zlentry { prevrawlensize : Z; prevrawlen : Z; lensize : Z; len : Z; headersize : Z; encoding : Z; e_p : Z }.
Definition zipEntry (zl : list Z) (p : Z) : option zlentry :=
  '(psize, plen) ← ZIP_DECODE_PREVLEN zl p;
  '(enc, lsize, ln) ← ZIP_DECODE_LENGTH zl (p + psize);
  Some (mk_zlentry psize plen lsize ln (psize + lsize) enc p).

(** ** The list *)
Definition ziplistNew : option (list Z) :=
  let bytes := ZIPLIST_HEADER_SIZE + ZIPLIST_END_SIZE in
  let zl := realloc junk [] bytes in
  zl ← set32 zl 0 bytes;
  zl ← set_tail zl ZIPLIST_HEADER_SIZE;
  zl ← set16 zl 8 0;
  store zl (bytes - 1) [ZIP_END].
Definition ziplistResize (zl : list Z) (len : Z) : option (list Z) :=
  let len := u32 len in
  zl ← set32 (realloc junk zl len) 0 len;
  store zl (len - 1) [ZIP_END].

Fixpoint cascade_loop (fuel : nat) (zl : list Z) (p curlen : Z) : option (list Z) :=
  b ← zl.[p];
  if b =? ZIP_END then Some zl
  else
    cur ← zipEntry zl p;
    let rawlen := u32 (headersize cur + len cur) in
    let rawlensize := prevlen_size rawlen in
    b ← zl.[p + rawlen];
    if b =? ZIP_END then Some zl
    else
      next ← zipEntry zl (p + rawlen);
      if prevrawlen next =? rawlen then Some zl
      else if prevrawlensize next <? rawlensize then
        let extra := rawlensize - prevrawlensize next in
        zl ← ziplistResize zl (curlen + extra);
        let np := p + rawlen in
        tail ← ZIPLIST_TAIL_OFFSET zl;
        zl ← (if negb (tail =? np) then set_tail zl (tail + extra) else Some zl);
        zl ← memmove zl (np + rawlensize) (np + prevrawlensize next) (curlen - np - prevrawlensize next - 1);
        '(zl, _) ← zipStorePrevEntryLength zl np rawlen;
        match fuel with O => None | S fuel => cascade_loop fuel zl (p + rawlen) (curlen + extra) end
      else if prevrawlensize next >? rawlensize then zipStorePrevEntryLengthLarge zl (p + rawlen) rawlen
      else '(zl, _) ← zipStorePrevEntryLength zl (p + rawlen) rawlen; Some zl.
Definition ziplistCascadeUpdate (zl : list Z) (p : Z) : option (list Z) :=
  curlen ← ZIPLIST_BYTES zl; cascade_loop (length zl) zl p curlen.

(** [for (i = 0; p[0] != ZIP_END && i < num; i++)]: the pointer and the
    number of entries passed. *)
Fixpoint delete_scan (fuel : nat) (zl : list Z) (p num deleted : Z) : option (Z * Z) :=
  b ← zl.[p];
  if (b =? ZIP_END) || (num <=? deleted) then Some (p, deleted)
  else match fuel with
       | O => None
       | S fuel => l ← zipRawEntryLength zl p; delete_scan fuel zl (p + l) num (deleted + 1)
       end.
Definition ziplistDelete_at (zl : list Z) (p num : Z) : option (list Z) :=
  first ← zipEntry zl p;
  '(q, deleted) ← delete_scan (length zl) zl p num 0;
  let totlen := u32 (q - p) in
  if totlen >? 0 then
    b ← zl.[q];
    '(zl, nextdiff) ← (if negb (b =? ZIP_END) then
        nextdiff ← zipPrevLenByteDiff zl q (prevrawlen first);
        let q := q - nextdiff in
        '(zl, _) ← zipStorePrevEntryLength zl q (prevrawlen first);
        tail ← ZIPLIST_TAIL_OFFSET zl;
        zl ← set_tail zl (tail - totlen);
        te ← zipEntry zl q;
        b ← zl.[q + headersize te + len te];
        zl ← (if negb (b =? ZIP_END) then tail ← ZIPLIST_TAIL_OFFSET zl; set_tail zl (tail + nextdiff) else Some zl);
        bytes ← ZIPLIST_BYTES zl;
        zl ← memmove zl p q (bytes - q - 1);
        Some (zl, nextdiff)
      else
        zl ← set_tail zl (p - prevrawlen first);
        Some (zl, 0));
    bytes ← ZIPLIST_BYTES zl;
    zl ← ziplistResize zl (bytes - totlen + nextdiff);
    zl ← ZIPLIST_INCR_LENGTH zl (- deleted);
    if negb (nextdiff =? 0) then ziplistCascadeUpdate zl p else Some zl
  else Some zl.

(** Moving what follows the insertion, whose first entry gets the new length. *)
Definition insert_move (zl : list Z) (p reqlen nextdiff : Z) (forcelarge : bool) (curlen : Z) : option (list Z) :=
  zl ← memmove zl (p + reqlen) (p - nextdiff) (curlen - p - 1 + nextdiff);
  zl ← (if forcelarge then zipStorePrevEntryLengthLarge zl (p + reqlen) (u32 reqlen)
        else '(zl, _) ← zipStorePrevEntryLength zl (p + reqlen) (u32 reqlen); Some zl);
  tail ← ZIPLIST_TAIL_OFFSET zl;
  zl ← set_tail zl (tail + reqlen);
  te ← zipEntry zl (p + reqlen);
  b ← zl.[p + reqlen + headersize te + len te];
  if negb (b =? ZIP_END) then tail ← ZIPLIST_TAIL_OFFSET zl; set_tail zl (tail + nextdiff) else Some zl.
Definition ziplistInsert (zl : list Z) (p : Z) (s : list Z) : option (list Z) :=
  let slen := zlen s in
  curlen ← ZIPLIST_BYTES zl;
  b ← zl.[p];
  prevlen ← (if negb (b =? ZIP_END) then '(_, prevlen) ← ZIP_DECODE_PREVLEN zl p; Some prevlen
             else
               ptail ← ZIPLIST_TAIL_OFFSET zl;
               t ← zl.[ptail];
               if negb (t =? ZIP_END) then zipRawEntryLength zl ptail else Some 0);
  let '(value, encoding) := match zipTryEncoding s with Some (v, e) => (v, e) | None => (123456789, 0) end in
  datalen ← match zipTryEncoding s with Some (_, e) => zipIntSize e | None => Some slen end;
  let reqlen := datalen + prevlen_size prevlen + zlen (entry_encoding encoding slen) in
  nextdiff ← (if negb (b =? ZIP_END) then zipPrevLenByteDiff zl p (u32 reqlen) else Some 0);
  let forcelarge := (nextdiff =? -4) && (reqlen <? 4) in
  let nextdiff := if forcelarge then 0 else nextdiff in
  zl ← ziplistResize zl (curlen + reqlen + nextdiff);
  b ← zl.[p];
  zl ← (if negb (b =? ZIP_END) then insert_move zl p reqlen nextdiff forcelarge curlen
    else set_tail zl p);
  zl ← (if negb (nextdiff =? 0) then ziplistCascadeUpdate zl (p + reqlen) else Some zl);
  '(zl, n) ← zipStorePrevEntryLength zl p prevlen;
  let p := p + n in
  '(zl, n) ← zipStoreEntryEncoding zl p encoding slen;
  let p := p + n in
  zl ← (if ZIP_IS_STR encoding then store zl p s else zipSaveInteger zl p value encoding);
  ZIPLIST_INCR_LENGTH zl 1.

Inductive zl_where := ZIPLIST_HEAD | ZIPLIST_TAIL.
Definition ziplistPush (zl : list Z) (s : list Z) (where_ : zl_where) : option (list Z) :=
  p ← match where_ with ZIPLIST_HEAD => Some ZIPLIST_HEADER_SIZE | ZIPLIST_TAIL => bytes ← ZIPLIST_BYTES zl; Some (bytes - 1) end;
  ziplistInsert zl p s.

(** Both loops of ziplistIndex; the index the loop ends with. *)
Fixpoint index_back (fuel : nat) (zl : list Z) (p prevlen index : Z) : option (Z * Z) :=
  if prevlen >? 0 then
    if index =? 0 then Some (p, -1)
    else match fuel with
         | O => None
         | S fuel => '(_, prevlen') ← ZIP_DECODE_PREVLEN zl (p - prevlen); index_back fuel zl (p - prevlen) prevlen' (index - 1)
         end
  else Some (p, index).
Fixpoint index_fwd (fuel : nat) (zl : list Z) (p index : Z) : option (Z * Z) :=
  b ← zl.[p];
  if b =? ZIP_END then Some (p, index)
  else if index =? 0 then Some (p, -1)
  else match fuel with
       | O => None
       | S fuel => l ← zipRawEntryLength zl p; index_fwd fuel zl (p + l) (index - 1)
       end.
(** The outer [None] is a failure, as the negation of INT_MIN is, the inner
    one NULL. *)
Definition ziplistIndex (zl : list Z) (index : Z) : option (option Z) :=
  '(p, index) ← (if index =? - 2 ^ 31 then None
    else if index <? 0 then
      p ← ZIPLIST_TAIL_OFFSET zl;
      b ← zl.[p];
      if negb (b =? ZIP_END) then '(_, prevlen) ← ZIP_DECODE_PREVLEN zl p; index_back (length zl) zl p prevlen (- index - 1)
      else Some (p, - index - 1)
    else index_fwd (length zl) zl ZIPLIST_HEADER_SIZE index);
  b ← zl.[p];
  Some (if (b =? ZIP_END) || (index >? 0) then None else Some p).
Definition ziplistNext (zl : list Z) (p : Z) : option (option Z) :=
  b ← zl.[p];
  if b =? ZIP_END then Some None
  else l ← zipRawEntryLength zl p; b ← zl.[p + l]; Some (if b =? ZIP_END then None else Some (p + l)).
Definition ziplistPrev (zl : list Z) (p : Z) : option (option Z) :=
  b ← zl.[p];
  if b =? ZIP_END then t ← ZIPLIST_TAIL_OFFSET zl; b ← zl.[t]; Some (if b =? ZIP_END then None else Some t)
  else if p =? ZIPLIST_HEADER_SIZE then Some None
  else '(_, prevlen) ← ZIP_DECODE_PREVLEN zl p; if prevlen >? 0 then Some (Some (p - prevlen)) else None.

(** A string, or an integer. *)
Inductive zlvalue := ZlStr (s : list Z) | ZlInt (v : Z).
Definition ziplistGet (zl : list Z) (p : Z) : option (option zlvalue) :=
  b ← zl.[p];
  if b =? ZIP_END then Some None
  else
    e ← zipEntry zl p;
    if ZIP_IS_STR (encoding e) then s ← load zl (p + headersize e) (len e); Some (Some (ZlStr s))
    else v ← zipLoadInteger zl (p + headersize e) (encoding e); Some (Some (ZlInt v)).
(** ziplistDelete moves the pointer to what follows: the same offset. *)
Definition ziplistDelete (zl : list Z) (p : Z) : option (list Z * Z) := zl ← ziplistDelete_at zl p 1; Some (zl, p).
Definition ziplistDeleteRange (zl : list Z) (index num : Z) : option (list Z) :=
  p ← ziplistIndex zl index;
  match p with None => Some zl | Some p => ziplistDelete_at zl p num end.
Definition ziplistCompare (zl : list Z) (p : Z) (s : list Z) : option bool :=
  b ← zl.[p];
  if b =? ZIP_END then Some false
  else
    e ← zipEntry zl p;
    if ZIP_IS_STR (encoding e) then
      if len e =? zlen s then t ← load zl (p + headersize e) (zlen s); Some (bool_decide (t = s)) else Some false
    else match zipTryEncoding s with
         | Some (sval, _) => zval ← zipLoadInteger zl (p + headersize e) (encoding e); Some (zval =? sval)
         | None => Some false
         end.

Definition UCHAR_MAX : Z := 255.
Fixpoint find_loop (fuel : nat) (zl : list Z) (p : Z) (vstr : list Z) (skip skipcnt vencoding vll : Z) : option (option Z) :=
  b ← zl.[p];
  if b =? ZIP_END then Some None
  else
    prevlensize ← ZIP_DECODE_PREVLENSIZE zl p;
    '(enc, lsize, ln) ← ZIP_DECODE_LENGTH zl (p + prevlensize);
    let q := p + prevlensize + lsize in
    let next := q + ln in
    match fuel with
    | O => None
    | S fuel =>
        if skipcnt =? 0 then
          if ZIP_IS_STR enc then
            same ← (if ln =? zlen vstr then t ← load zl q (zlen vstr); Some (bool_decide (t = vstr)) else Some false);
            if (same : bool) then Some (Some p) else find_loop fuel zl next vstr skip skip vencoding vll
          else
            let '(vencoding, vll) :=
              if vencoding =? 0 then match zipTryEncoding vstr with Some (v, e) => (e, v) | None => (UCHAR_MAX, vll) end
              else (vencoding, vll) in
            if vencoding =? 0 then None
            else
              same ← (if negb (vencoding =? UCHAR_MAX) then ll ← zipLoadInteger zl q enc; Some (ll =? vll) else Some false);
              if (same : bool) then Some (Some p) else find_loop fuel zl next vstr skip skip vencoding vll
        else find_loop fuel zl next vstr skip (skipcnt - 1) vencoding vll
    end.
Definition ziplistFind (zl : list Z) (p : Z) (vstr : list Z) (skip : Z) : option (option Z) := find_loop (S (length zl)) zl p vstr skip 0 0 0.

Fixpoint len_loop (fuel : nat) (zl : list Z) (p n : Z) : option Z :=
  b ← zl.[p];
  if b =? ZIP_END then Some n
  else match fuel with O => None | S fuel => l ← zipRawEntryLength zl p; len_loop fuel zl (p + l) (n + 1) end.
(** The length, which may be stored again. *)
Definition ziplistLen (zl : list Z) : option (list Z * Z) :=
  n ← ZIPLIST_LENGTH zl;
  if intrev16ifbe n <? UINT16_MAX then Some (zl, intrev16ifbe n)
  else
    n ← len_loop (length zl) zl ZIPLIST_HEADER_SIZE 0;
    zl ← (if n <? UINT16_MAX then set16 zl 8 (intrev16ifbe n) else Some zl);
    Some (zl, n).
Definition ziplistBlobLen (zl : list Z) : option Z := ZIPLIST_BYTES zl.

(** Two different ziplists: the block that is kept, and whether it is the
    first. *)
Definition ziplistMerge (first second : list Z) : option (list Z * bool) :=
  first_bytes ← ZIPLIST_BYTES first; n1 ← ZIPLIST_LENGTH first; let first_len := intrev16ifbe n1 in
  second_bytes ← ZIPLIST_BYTES second; n2 ← ZIPLIST_LENGTH second; let second_len := intrev16ifbe n2 in
  let append := first_len >=? second_len in
  let zlbytes := first_bytes + second_bytes - ZIPLIST_HEADER_SIZE - ZIPLIST_END_SIZE in
  let zllength := if first_len + second_len <? UINT16_MAX then first_len + second_len else UINT16_MAX in
  first_offset ← ZIPLIST_TAIL_OFFSET first;
  second_offset ← ZIPLIST_TAIL_OFFSET second;
  target ← (if append then
      let target := realloc junk first zlbytes in
      bs ← load second ZIPLIST_HEADER_SIZE (second_bytes - ZIPLIST_HEADER_SIZE);
      store target (first_bytes - ZIPLIST_END_SIZE) bs
    else
      let target := realloc junk second zlbytes in
      target ← memmove target (first_bytes - ZIPLIST_END_SIZE) ZIPLIST_HEADER_SIZE (second_bytes - ZIPLIST_HEADER_SIZE);
      bs ← load first 0 (first_bytes - ZIPLIST_END_SIZE);
      store target 0 bs);
  target ← set32 target 0 zlbytes;
  target ← set16 target 8 (intrev16ifbe zllength);
  target ← set_tail target (first_bytes - ZIPLIST_END_SIZE + (second_offset - ZIPLIST_HEADER_SIZE));
  target ← ziplistCascadeUpdate target first_offset;
  Some (target, append).
End Ziplist.

(** ** What the block holds *)
Inductive zbody := BStr (s : list Z) | BInt (v : Z).
Definition int_encoding (v : Z) : Z :=
  if (v >=? 0) && (v <=? 12) then ZIP_INT_IMM_MIN + v
  else if (v >=? -128) && (v <=? 127) then ZIP_INT_8B
  else if (v >=? -32768) && (v <=? 32767) then ZIP_INT_16B
  else if (v >=? INT24_MIN) && (v <=? INT24_MAX) then ZIP_INT_24B
  else if (v >=? -2147483648) && (v <=? 2147483647) then ZIP_INT_32B
  else ZIP_INT_64B.
Definition int_bytes (v : Z) : list Z := le_bytes (Z.to_nat (default 0 (zipIntSize (int_encoding v)))) v.
Definition body_head (b : zbody) : list Z := match b with BStr s => entry_encoding 0 (zlen s) | BInt v => [int_encoding v] end.
Definition body_data (b : zbody) : list Z := match b with BStr s => s | BInt v => int_bytes v end.
Definition body_bytes (b : zbody) : list Z := body_head b ++ body_data b.
Definition body_ok (b : zbody) : Prop := match b with BStr s => bytes_ok s /\ zlen s < 2 ^ 32 | BInt v => in_s 64 v end.
(** The string an entry stands for. *)
Definition body_str (b : zbody) : list Z := match b with BStr s => s | BInt v => dec v end.
(** The encoding that ZIP_DECODE_LENGTH gives. *)
Definition body_enc (b : zbody) : Z := match b with BStr s => ZIP_ENTRY_ENCODING (default 0 (head (entry_encoding 0 (zlen s)))) | BInt v => int_encoding v end.

Record zent := mk_zent { z_ps : Z; z_body : zbody }.
Definition ent_len (e : zent) : Z := z_ps e + zlen (body_bytes (z_body e)).
Definition prev_field (ps v : Z) : list Z := if ps =? 1 then [v] else ZIP_BIG_PREVLEN :: le_bytes 4 v.
Definition ent_bytes (v : Z) (e : zent) : list Z := prev_field (z_ps e) v ++ body_bytes (z_body e).
Definition fits (v : Z) (e : zent) : Prop := (z_ps e = 1 /\ 0 <= v < 254) \/ (z_ps e = 5 /\ 0 <= v < 2 ^ 32).
Definition ent_ok (v : Z) (e : zent) : Prop := fits v e /\ body_ok (z_body e) /\ ent_len e < 2 ^ 32.

(** The values that the encoding byte itself holds, one by one. *)
Ltac small_int v :=
  let Hc := fresh in assert (Hc : v = 0 \/ v = 1 \/ v = 2 \/ v = 3 \/ v = 4 \/ v = 5 \/ v = 6 \/ v = 7 \/ v = 8 \/ v = 9 \/ v = 10 \/ v = 11 \/ v = 12) by lia;
  repeat destruct Hc as [->|Hc]; [done..|]; by subst v.

Lemma int_encoding_cases v : in_s 64 v ->
  (0 <= v <= 12 /\ int_encoding v = 241 + v /\ int_bytes v = []) \/
  (in_s 8 v /\ int_encoding v = 254 /\ int_bytes v = le_bytes 1 v) \/
  (in_s 16 v /\ int_encoding v = 192 /\ int_bytes v = le_bytes 2 v) \/
  (in_s 24 v /\ int_encoding v = 240 /\ int_bytes v = le_bytes 3 v) \/
  (in_s 32 v /\ int_encoding v = 208 /\ int_bytes v = le_bytes 4 v) \/
  (int_encoding v = 224 /\ int_bytes v = le_bytes 8 v).
Proof.
  intros Hv. unfold int_bytes. unfold int_encoding, in_s. change INT24_MIN with (-8388608). change INT24_MAX with 8388607. rewrite !Z.geb_leb.
  destruct ((0 <=? v) && (v <=? 12)) eqn:E1; zb.
  { left. split; [lia|]. split; [done|]. small_int v. }
  right. destruct ((-128 <=? v) && (v <=? 127)) eqn:E2; zb; [left; split; [cbn; lia|done]|].
  right. destruct ((-32768 <=? v) && (v <=? 32767)) eqn:E3; zb; [left; split; [cbn; lia|done]|].
  right. destruct ((-8388608 <=? v) && (v <=? 8388607)) eqn:E4; zb; [left; split; [cbn; lia|done]|].
  right. destruct ((-2147483648 <=? v) && (v <=? 2147483647)) eqn:E5; zb; [left; split; [cbn; lia|done]|]. right. done.
Qed.

(** ** Reading an entry *)
Lemma land_byte x : 0 <= x < 256 -> Z.land x 192 = 64 * (x / 64) /\ Z.land x 63 = x mod 64.
Proof.
  intros Hx. assert (Hall : forallb (fun n => (Z.land (Z.of_nat n) 192 =? 64 * (Z.of_nat n / 64)) && (Z.land (Z.of_nat n) 63 =? Z.of_nat n mod 64)) (seq 0 256) = true) by (vm_compute; reflexivity).
  rewrite forallb_forall in Hall. specialize (Hall (Z.to_nat x)). rewrite Z2Nat.id in Hall by lia. assert (Hin : In (Z.to_nat x) (seq 0 256)) by (apply in_seq; lia). apply Hall in Hin. zb. done.
Qed.
Lemma land_ff x : Z.land x 255 = x mod 256.
Proof. exact (Z.land_ones x 8 ltac:(lia)). Qed.
Lemma lor_low a b n : 0 <= n -> 0 <= a < 2 ^ n -> Z.lor (Z.shiftl b n) a = b * 2 ^ n + a.
Proof. intros Hn Ha. rewrite Z.lor_comm, lor_shiftl by lia. lia. Qed.
Lemma entry_encoding_cases n : 0 <= n < 2 ^ 32 ->
  (n <= 63 /\ entry_encoding 0 n = [n]) \/
  (63 < n <= 16383 /\ entry_encoding 0 n = [64 + n / 256; n mod 256]) \/
  (16383 < n /\ entry_encoding 0 n = [128; n / 2 ^ 24; (n / 2 ^ 16) mod 256; (n / 2 ^ 8) mod 256; n mod 256]).
Proof.
  intros Hn. unfold entry_encoding. change (ZIP_IS_STR 0) with true. cbv iota. destruct (Z.leb_spec n 63); [left; split; [done|]; unfold ZIP_STR_06B; by rewrite Z.shiftl_0_l, Z.lor_0_l|]. right. rewrite !land_ff, !Z.shiftr_div_pow2 by lia. destruct (Z.leb_spec n 16383).
  - left. split; [lia|]. change (2 ^ 8) with 256. assert (Hd : 0 <= n / 256 < 64) by (split; [apply Z.div_pos; lia|apply Z.div_lt_upper_bound; lia]). rewrite (proj2 (land_byte (n / 256) ltac:(lia))), Z.mod_small by lia. unfold ZIP_STR_14B. rewrite (lor_low (n / 256) 1 6) by lia. done.
  - right. split; [lia|]. rewrite (Z.mod_small (n / 2 ^ 24) 256); [done|]. split; [apply Z.div_pos; lia|apply Z.div_lt_upper_bound; lia].
Qed.
Lemma load1_cons (a : list Z) x c k off : 0 <= k -> off = zlen a + 1 + k -> (a ++ x :: c).[off] = c.[k].
Proof.
  intros Hk ->. unfold load1. pose proof (zlen_nonneg a). rewrite !(proj2 (Z.leb_le _ _)) by lia. unfold zlen. rewrite lookup_app_r by lia. replace (Z.to_nat (Z.of_nat (length a) + 1 + k) - length a)%nat with (S (Z.to_nat k)) by lia. done.
Qed.
Lemma load1_0 x0 (c : list Z) : (x0 :: c).[0] = Some x0.
Proof. done. Qed.
Lemma load1_1 x0 x1 (c : list Z) : (x0 :: x1 :: c).[1] = Some x1.
Proof. done. Qed.
Lemma load1_2 x0 x1 x2 (c : list Z) : (x0 :: x1 :: x2 :: c).[2] = Some x2.
Proof. done. Qed.
Lemma load1_3 x0 x1 x2 x3 (c : list Z) : (x0 :: x1 :: x2 :: x3 :: c).[3] = Some x3.
Proof. done. Qed.
Lemma be32 n : 0 <= n < 2 ^ 32 -> Z.lor (Z.lor (Z.lor (Z.shiftl (n / 2 ^ 24) 24) (Z.shiftl ((n / 2 ^ 16) mod 256) 16)) (Z.shiftl ((n / 2 ^ 8) mod 256) 8)) (n mod 256) = n.
Proof.
  intros Hn. pose proof (Z.mod_pos_bound n 256 ltac:(lia)). pose proof (Z.mod_pos_bound (n / 2 ^ 8) 256 ltac:(lia)). pose proof (Z.mod_pos_bound (n / 2 ^ 16) 256 ltac:(lia)).
  rewrite (lor_low (Z.shiftl ((n / 2 ^ 16) mod 256) 16)) by (rewrite ?Z.shiftl_mul_pow2 by lia; lia). rewrite (Z.shiftl_mul_pow2 ((n / 2 ^ 16) mod 256)) by lia.
  replace (n / 2 ^ 24 * 2 ^ 24 + (n / 2 ^ 16) mod 256 * 2 ^ 16) with (Z.shiftl (n / 2 ^ 16) 16).
  2: { rewrite Z.shiftl_mul_pow2 by lia. pose proof (Z.div_mod (n / 2 ^ 16) 256 ltac:(lia)) as E. rewrite Z.div_div in E by lia. change (2 ^ 16 * 256) with (2 ^ 24) in E. lia. }
  rewrite (lor_low (Z.shiftl ((n / 2 ^ 8) mod 256) 8)) by (rewrite ?Z.shiftl_mul_pow2 by lia; lia). rewrite (Z.shiftl_mul_pow2 ((n / 2 ^ 8) mod 256)) by lia.
  replace (n / 2 ^ 16 * 2 ^ 16 + (n / 2 ^ 8) mod 256 * 2 ^ 8) with (Z.shiftl (n / 2 ^ 8) 8).
  2: { rewrite Z.shiftl_mul_pow2 by lia. pose proof (Z.div_mod (n / 2 ^ 8) 256 ltac:(lia)) as E. rewrite Z.div_div in E by lia. change (2 ^ 8 * 256) with (2 ^ 16) in E. lia. }
  rewrite lor_low by lia. change (2 ^ 8) with 256. pose proof (Z.div_mod n 256 ltac:(lia)). lia.
Qed.
Lemma decode_length a b c p : body_ok b -> p = zlen a -> ZIP_DECODE_LENGTH (a ++ body_bytes b ++ c) p = Some (body_enc b, zlen (body_head b), zlen (body_data b)).
Proof.
  intros Hb ->. unfold ZIP_DECODE_LENGTH, body_bytes. destruct b as [s|v]; cbn [body_head body_data body_enc body_ok] in *.
  - destruct Hb as [_ Hs]. pose proof (zlen_nonneg s). destruct (entry_encoding_cases (zlen s) ltac:(lia)) as [[Hn ->]|[[Hn ->]|[Hn ->]]]; cbn [app head]; (match goal with |- context [default 0 (Some ?x)] => change (default 0 (Some x)) with x end); rewrite (load1_app a _ _ (zlen a)) by done; cbn [mbind option_bind]; unfold ZIP_ENTRY_ENCODING, ZIP_STR_MASK.
    + rewrite (proj2 (Z.ltb_lt (zlen s) 192)) by lia. destruct (land_byte (zlen s) ltac:(lia)) as [-> ->]. rewrite Z.div_small, Z.mod_small by lia. done.
    + assert (Hd : 0 <= zlen s / 256 < 64) by (split; [apply Z.div_pos; lia|apply Z.div_lt_upper_bound; lia]). rewrite (proj2 (Z.ltb_lt (64 + zlen s / 256) 192)) by lia. destruct (land_byte (64 + zlen s / 256) ltac:(lia)) as [-> ->]. replace ((64 + zlen s / 256) / 64) with 1 by (apply (Z.div_unique _ _ _ (zlen s / 256)); lia). replace ((64 + zlen s / 256) mod 64) with (zlen s / 256) by (apply (Z.mod_unique _ _ 1); lia).
      change (64 * 1 <? 192) with true. change (64 * 1 =? ZIP_STR_06B) with false. change (64 * 1 =? ZIP_STR_14B) with true. cbv iota. rewrite (load1_cons a _ _ 0) by lia. rewrite load1_0. cbn [mbind option_bind]. rewrite lor_low by (try lia; apply Z.mod_pos_bound; lia). change (2 ^ 8) with 256. do 2 f_equal. pose proof (Z.div_mod (zlen s) 256 ltac:(lia)). lia.
    + change (128 <? 192) with true. change (Z.land 128 192) with 128. change (128 =? ZIP_STR_06B) with false. change (128 =? ZIP_STR_14B) with false. change (128 =? ZIP_STR_32B) with true. cbv iota. rewrite (load1_cons a _ _ 0 (zlen a + 1)), (load1_cons a _ _ 1 (zlen a + 2)), (load1_cons a _ _ 2 (zlen a + 3)), (load1_cons a _ _ 3 (zlen a + 4)) by lia.
      rewrite load1_0, load1_1, load1_2, load1_3. cbn [mbind option_bind]. rewrite be32 by lia. rewrite wrapu_small by lia. done.
  - destruct (int_encoding_cases v Hb) as [(Hv & -> & ->)|[(_ & -> & ->)|[(_ & -> & ->)|[(_ & -> & ->)|[(_ & -> & ->)|(-> & ->)]]]]]; cbn [app]; rewrite (load1_app a _ _ (zlen a)) by done; cbn [mbind option_bind]; try done.
    small_int v.
Qed.

Section Block.
  Context {be : bool} {junk : nat -> Z}.
Lemma native_val_bytes x : bytes_ok x -> native_bytes be (length x) (native_val be x) = x.
Proof.
  intros Hx. unfold native_bytes, native_val. destruct be; [|by apply le_bytes_le_val]. rewrite <- length_rev, le_bytes_le_val by (by apply Forall_rev). apply rev_involutive.
Qed.
Lemma get32_val x : length x = 4%nat -> bytes_ok x -> intrev32ifbe be (native_val be x) = le_val x.
Proof.
  intros Hl Hx. unfold intrev32ifbe, intrev32. pose proof (native_val_bytes x Hx) as E. rewrite Hl in E. destruct be; [|done]. rewrite E, memrev32_rev by done. unfold native_val. by rewrite rev_involutive.
Qed.
Lemma set32_bytes v : native_bytes be 4 (intrev32ifbe be v) = le_bytes 4 v.
Proof.
  unfold intrev32ifbe, intrev32. destruct be eqn:Eb; [|done]. rewrite memrev32_rev by apply native_bytes_length. pose proof (native_val_bytes (rev (native_bytes true 4 v))) as E. rewrite length_rev, native_bytes_length in E. rewrite Eb in E. rewrite E; [unfold native_bytes; apply rev_involutive|]. unfold native_bytes. rewrite rev_involutive. apply le_bytes_ok.
Qed.
Lemma get16_val x : length x = 2%nat -> bytes_ok x -> intrev16ifbe be (native_val be x) = le_val x.
Proof.
  intros Hl Hx. unfold intrev16ifbe, intrev16. pose proof (native_val_bytes x Hx) as E. rewrite Hl in E. destruct be; [|done]. rewrite E, memrev16_rev by done. unfold native_val. by rewrite rev_involutive.
Qed.
Lemma set16_bytes v : native_bytes be 2 (intrev16ifbe be v) = le_bytes 2 v.
Proof.
  unfold intrev16ifbe, intrev16. destruct be eqn:Eb; [|done]. rewrite memrev16_rev by apply native_bytes_length. pose proof (native_val_bytes (rev (native_bytes true 2 v))) as E. rewrite length_rev, native_bytes_length in E. rewrite Eb in E. rewrite E; [unfold native_bytes; apply rev_involutive|]. unfold native_bytes. rewrite rev_involutive. apply le_bytes_ok.
Qed.

(** *** The header *)
Definition hdr (total tail n : Z) : list Z := le_bytes 4 total ++ le_bytes 4 tail ++ le_bytes 2 n.
Lemma zlen_le n v : zlen (le_bytes n v) = Z.of_nat n.
Proof. unfold zlen. by rewrite le_bytes_length. Qed.
Lemma zlen_hdr t o n : zlen (hdr t o n) = 10.
Proof. unfold hdr. by rewrite !zlen_app, !zlen_le. Qed.
Lemma get_bytes t o n c : in_u 32 t -> ZIPLIST_BYTES be (hdr t o n ++ c) = Some t.
Proof.
  intros Ht. unfold ZIPLIST_BYTES, get32, hdr. rewrite <- !app_assoc, load_prefix by (by rewrite zlen_le). cbn [mbind option_bind]. rewrite get32_val by (apply le_bytes_length || apply le_bytes_ok). rewrite le_val_le_bytes. by rewrite wrapu_small.
Qed.
Lemma get_tail t o n c : in_u 32 o -> ZIPLIST_TAIL_OFFSET be (hdr t o n ++ c) = Some o.
Proof.
  intros Ho. unfold ZIPLIST_TAIL_OFFSET, get32, hdr. rewrite <- !app_assoc. rewrite (load_app (le_bytes 4 t) (le_bytes 4 o)) by (by rewrite zlen_le). cbn [mbind option_bind]. rewrite get32_val by (apply le_bytes_length || apply le_bytes_ok). rewrite le_val_le_bytes. by rewrite wrapu_small.
Qed.
Lemma put_bytes t o n c v : in_u 32 v -> set32 be (hdr t o n ++ c) 0 v = Some (hdr v o n ++ c).
Proof. intros Hv. unfold set32. rewrite (wrapu_small 32 v Hv), set32_bytes. unfold hdr. rewrite <- !app_assoc. apply store_head; [done|by rewrite !zlen_le]. Qed.
Lemma put_tail t o n c v : in_u 32 v -> set_tail be (hdr t o n ++ c) v = Some (hdr t v n ++ c).
Proof. intros Hv. unfold set_tail, set32. rewrite (wrapu_small 32 v Hv), set32_bytes. unfold hdr. rewrite <- !app_assoc. apply store_app; by rewrite !zlen_le. Qed.
Lemma put_len t o n c v : set16 be (hdr t o n ++ c) 8 (intrev16ifbe be v) = Some (hdr t o v ++ c).
Proof. unfold set16. rewrite set16_bytes. unfold hdr. rewrite <- !app_assoc. rewrite !(app_assoc (le_bytes 4 t)). apply store_app; [by rewrite zlen_app, !zlen_le|by rewrite !zlen_le]. Qed.
Lemma get_len t o n c : in_u 16 n -> exists raw, ZIPLIST_LENGTH be (hdr t o n ++ c) = Some raw /\ intrev16ifbe be raw = n /\ (raw <? UINT16_MAX) = (n <? UINT16_MAX).
Proof.
  intros Hn. unfold ZIPLIST_LENGTH, get16, hdr. rewrite <- !app_assoc, (app_assoc (le_bytes 4 t)). rewrite load_app by (by rewrite ?zlen_app, !zlen_le). cbn [mbind option_bind]. eexists. split; [done|].
  assert (Hg : intrev16ifbe be (native_val be (le_bytes 2 n)) = n) by (rewrite get16_val by (apply le_bytes_length || apply le_bytes_ok); rewrite le_val_le_bytes; by rewrite wrapu_small). split; [done|].
  assert (Hr : in_u 16 (native_val be (le_bytes 2 n))). { unfold native_val. destruct be; [pose proof (le_val_range (rev (le_bytes 2 n)) (Forall_rev (le_bytes_ok 2 n))) as Hx|pose proof (le_val_range (le_bytes 2 n) (le_bytes_ok 2 n)) as Hx]; exact Hx. }
  set (raw := native_val be (le_bytes 2 n)) in *. assert (Hff : intrev16ifbe be UINT16_MAX = UINT16_MAX) by (unfold intrev16ifbe; by destruct be). assert (Hiff : raw = UINT16_MAX <-> n = UINT16_MAX).
  { split; [intros E; by rewrite <- Hg, E|]. intros E. unfold raw. rewrite E. unfold native_val. by destruct be. }
  unfold UINT16_MAX, in_u in *. apply eq_true_iff_eq. rewrite !Z.ltb_lt. lia.
Qed.
Lemma incr_len t o n c k : in_u 16 n -> ZIPLIST_INCR_LENGTH be (hdr t o n ++ c) k = Some (hdr t o (if n <? UINT16_MAX then u16 (n + k) else n) ++ c).
Proof.
  intros Hn. unfold ZIPLIST_INCR_LENGTH. destruct (get_len t o n c Hn) as (raw & -> & Hr & Hc). cbn [mbind option_bind]. rewrite Hc, Hr. destruct (n <? UINT16_MAX); [|done]. apply put_len.
Qed.
Lemma resize_grow t o n c k : 0 <= k -> 11 + zlen c + k < 2 ^ 32 ->
  exists ext ext2, ziplistResize be junk (hdr t o n ++ c ++ [ZIP_END]) (11 + zlen c + k) = Some (hdr (11 + zlen c + k) o n ++ c ++ ext ++ [ZIP_END]) /\ zlen ext = k /\ ext ++ [ZIP_END] = ZIP_END :: ext2.
Proof.
  intros Hk Hlen. pose proof (zlen_nonneg c). unfold ziplistResize. cbv zeta. rewrite (wrapu_small 32) by lia. destruct (realloc_grow junk (hdr t o n ++ c ++ [ZIP_END]) (11 + zlen c + k)) as (ext & -> & Hext & _); [rewrite !zlen_app, zlen_hdr, zlen_cons, zlen_nil; lia|].
  rewrite !zlen_app, zlen_hdr, zlen_cons, zlen_nil in Hext. rewrite <- app_assoc, put_bytes by (unfold in_u; lia). cbn [mbind option_bind]. rewrite <- app_assoc. cbn [app].
  destruct ext as [|x ext _] using rev_ind.
  - change (zlen (@nil Z)) with 0 in Hext. exists [], []. split; [|split; [rewrite zlen_nil; lia|done]]. rewrite app_assoc. cbn [app]. apply store1_app. rewrite zlen_app, zlen_hdr. lia.
  - rewrite zlen_app, zlen_cons, zlen_nil in Hext. exists (ZIP_END :: ext), (ext ++ [ZIP_END]). split; [|split; [rewrite zlen_cons; lia|done]]. cbn [app]. replace (hdr (11 + zlen c + k) o n ++ c ++ ZIP_END :: ext ++ [x]) with ((hdr (11 + zlen c + k) o n ++ c ++ ZIP_END :: ext) ++ [x]) by (by rewrite <- !app_assoc). rewrite store1_app; [by rewrite <- !app_assoc|]. rewrite !zlen_app, zlen_hdr, zlen_cons. lia.
Qed.
Lemma resize_shrink t o n c d : 1 <= zlen d -> 11 + zlen c < 2 ^ 32 -> ziplistResize be junk (hdr t o n ++ c ++ d) (11 + zlen c) = Some (hdr (11 + zlen c) o n ++ c ++ [ZIP_END]).
Proof.
  intros Hd Hlen. pose proof (zlen_nonneg c). unfold ziplistResize. cbv zeta. rewrite (wrapu_small 32) by lia. destruct d as [|x d]; [rewrite zlen_nil in Hd; lia|]. replace (hdr t o n ++ c ++ x :: d) with ((hdr t o n ++ c ++ [x]) ++ d) by (by rewrite <- !app_assoc). rewrite realloc_shrink by (rewrite !zlen_app, zlen_hdr, zlen_cons, zlen_nil; lia).
  rewrite put_bytes by (unfold in_u; lia). cbn [mbind option_bind]. rewrite (app_assoc _ c [x]), (app_assoc _ c [ZIP_END]). apply store1_app. rewrite zlen_app, zlen_hdr. lia.
Qed.

(** *** Entries in memory *)
Lemma prev_field_len v e : fits v e -> zlen (prev_field (z_ps e) v) = z_ps e.
Proof. intros [[-> _]|[-> _]]; [done|]. unfold prev_field. cbn [Z.eqb Pos.eqb]. by rewrite zlen_cons, zlen_le. Qed.
Lemma ent_bytes_len v e : fits v e -> zlen (ent_bytes v e) = ent_len e.
Proof. intros Hf. unfold ent_bytes, ent_len. by rewrite zlen_app, prev_field_len. Qed.
Lemma ent_first v e : fits v e -> exists x t, ent_bytes v e = x :: t /\ (x =? ZIP_END) = false /\ (x <? ZIP_BIG_PREVLEN) = (z_ps e =? 1).
Proof.
  intros Hf. unfold ent_bytes, prev_field. destruct Hf as [[-> Hv]|[-> Hv]]; cbn [Z.eqb Pos.eqb app]; eexists _, _; (split; [done|]); [|done]. unfold ZIP_END, ZIP_BIG_PREVLEN. split; [apply Z.eqb_neq; lia|apply Z.ltb_lt; lia].
Qed.
Lemma body_pos b : body_ok b -> 1 <= zlen (body_bytes b).
Proof.
  intros Hb. unfold body_bytes. rewrite zlen_app. pose proof (zlen_nonneg (body_data b)). destruct b as [s|v]; cbn [body_head body_data body_ok] in *; [|rewrite zlen_cons, zlen_nil; lia]. pose proof (zlen_nonneg s). destruct (entry_encoding_cases (zlen s) ltac:(lia)) as [[_ ->]|[[_ ->]|[_ ->]]]; rewrite !zlen_cons, zlen_nil; lia.
Qed.
Lemma ent_len_pos v e : ent_ok v e -> 2 <= ent_len e.
Proof. intros (Hf & Hb & _). unfold ent_len. pose proof (body_pos _ Hb). destruct Hf as [[-> _]|[-> _]]; lia. Qed.
Section At.
  Context (a c : list Z) (v : Z) (e : zent) (He : ent_ok v e).
#[local] Abbreviation m := (a ++ ent_bytes v e ++ c).
Lemma at_entry : exists x, m.[zlen a] = Some x /\ (x =? ZIP_END) = false /\ (x <? ZIP_BIG_PREVLEN) = (z_ps e =? 1).
Proof.
  destruct He as (Hf & _). destruct (ent_first v e Hf) as (x & t & -> & Hx & Hy). cbn [app]. exists x. split; [|done]. by apply load1_app.
Qed.
Lemma decode_prevsize : ZIP_DECODE_PREVLENSIZE m (zlen a) = Some (z_ps e).
Proof.
  unfold ZIP_DECODE_PREVLENSIZE. destruct at_entry as (x & -> & _ & Hx). cbn [mbind option_bind]. rewrite Hx. destruct He as ([[-> _]|[-> _]] & _); done.
Qed.
Lemma decode_prevlen : ZIP_DECODE_PREVLEN be m (zlen a) = Some (z_ps e, v).
Proof.
  unfold ZIP_DECODE_PREVLEN. rewrite decode_prevsize. cbn [mbind option_bind]. unfold ent_bytes, prev_field. destruct He as ([[-> Hv]|[-> Hv]] & _); cbn [Z.eqb Pos.eqb app].
  - by rewrite load1_app.
  - rewrite <- !app_assoc, (app_assoc a [ZIP_BIG_PREVLEN]) || idtac. replace (a ++ ZIP_BIG_PREVLEN :: (le_bytes 4 v ++ body_bytes (z_body e)) ++ c) with ((a ++ [ZIP_BIG_PREVLEN]) ++ le_bytes 4 v ++ body_bytes (z_body e) ++ c) by (by rewrite <- !app_assoc).
    rewrite load_app by (rewrite ?zlen_app, ?zlen_cons, ?zlen_nil, ?zlen_le; lia). cbn [mbind option_bind]. unfold memrev32ifbe. rewrite (revifbe_val be 4 _ memrev32 memrev32_rev) by apply le_bytes_length. rewrite le_val_le_bytes. by rewrite wrapu_small.
Qed.
Lemma decode_body : ZIP_DECODE_LENGTH m (zlen a + z_ps e) = Some (body_enc (z_body e), zlen (body_head (z_body e)), zlen (body_data (z_body e))).
Proof.
  destruct He as (Hf & Hb & _). unfold ent_bytes. rewrite <- !app_assoc, (app_assoc a). apply decode_length; [done|]. by rewrite zlen_app, prev_field_len.
Qed.
Lemma body_len_split b : zlen (body_bytes b) = zlen (body_head b) + zlen (body_data b).
Proof. unfold body_bytes. apply zlen_app. Qed.
Lemma raw_length : zipRawEntryLength m (zlen a) = Some (ent_len e).
Proof.
  unfold zipRawEntryLength. rewrite decode_prevsize. cbn [mbind option_bind]. rewrite decode_body. cbn [mbind option_bind]. pose proof (ent_len_pos v e He). destruct He as (_ & _ & Hl). unfold ent_len in *. rewrite body_len_split in *. rewrite wrapu_small by lia. f_equal. lia.
Qed.
Lemma zip_entry : zipEntry be m (zlen a) = Some (mk_zlentry (z_ps e) v (zlen (body_head (z_body e))) (zlen (body_data (z_body e))) (z_ps e + zlen (body_head (z_body e))) (body_enc (z_body e)) (zlen a)).
Proof. unfold zipEntry. rewrite decode_prevlen. cbn [mbind option_bind]. by rewrite decode_body. Qed.
End At.
Lemma prev_field_size v : 0 <= v < 2 ^ 32 -> zlen (prev_field (prevlen_size v) v) = prevlen_size v /\ (prevlen_size v = 1 \/ prevlen_size v = 5).
Proof. intros Hv. unfold prevlen_size, prev_field. destruct (v <? ZIP_BIG_PREVLEN); cbn [Z.eqb Pos.eqb]; [by split; [|left]|]. rewrite zlen_cons, zlen_le. split; [done|by right]. Qed.
Lemma store_large a old c v p : zlen old = 5 -> p = zlen a -> zipStorePrevEntryLengthLarge be (a ++ old ++ c) p v = Some (a ++ prev_field 5 v ++ c).
Proof.
  intros Ho ->. unfold zipStorePrevEntryLengthLarge, memrev32ifbe. rewrite (revifbe_bytes be 4 v memrev32 memrev32_rev). apply store_app; [done|by rewrite Ho].
Qed.
Lemma store_prev a old c v p : 0 <= v < 2 ^ 32 -> zlen old = prevlen_size v -> p = zlen a -> zipStorePrevEntryLength be (a ++ old ++ c) p v = Some (a ++ prev_field (prevlen_size v) v ++ c, prevlen_size v).
Proof.
  intros Hv Ho ->. unfold zipStorePrevEntryLength, prevlen_size in *. destruct (Z.ltb_spec v ZIP_BIG_PREVLEN) as [Hs|Hs].
  - unfold ZIP_BIG_PREVLEN in Hs. rewrite wrapu_small by lia. rewrite (store_app a old [v] c) by (by rewrite ?Ho). done.
  - rewrite (store_large a old c v (zlen a) Ho eq_refl). done.
Qed.
Lemma fits_size v body : 0 <= v < 2 ^ 32 -> fits v (mk_zent (prevlen_size v) body).
Proof. intros Hv. unfold fits, prevlen_size, ZIP_BIG_PREVLEN. cbn [z_ps]. destruct (Z.ltb_spec v 254); [left|right]; lia. Qed.

(** *** The sequence of entries *)
Fixpoint layout (v : Z) (es : list zent) : list Z := match es with [] => [] | e :: es => ent_bytes v e ++ layout (ent_len e) es end.
Fixpoint chain_ok (v : Z) (es : list zent) : Prop := match es with [] => True | e :: es => ent_ok v e /\ chain_ok (ent_len e) es end.
Fixpoint sz (es : list zent) : Z := match es with [] => 0 | e :: es => ent_len e + sz es end.
Definition last_len (v : Z) (es : list zent) : Z := match last es with Some e => ent_len e | None => v end.
Lemma last_len_cons v e es : last_len v (e :: es) = last_len (ent_len e) es.
Proof. unfold last_len. destruct es as [|x es]; [done|]. rewrite last_cons_cons. by destruct (last (x :: es)) eqn:E; [|apply last_None in E]. Qed.
Lemma layout_app v a b : layout v (a ++ b) = layout v a ++ layout (last_len v a) b.
Proof. revert v. induction a as [|e a IH]; intros v; [done|]. cbn [app layout]. by rewrite IH, last_len_cons, app_assoc. Qed.
Lemma chain_ok_app v a b : chain_ok v (a ++ b) <-> chain_ok v a /\ chain_ok (last_len v a) b.
Proof. revert v. induction a as [|e a IH]; intros v; [cbn; tauto|]. cbn [app chain_ok]. rewrite IH, last_len_cons. tauto. Qed.
Lemma sz_app a b : sz (a ++ b) = sz a + sz b.
Proof. induction a as [|e a IH]; [done|]. cbn [app sz]. rewrite IH. lia. Qed.
Lemma layout_len v es : chain_ok v es -> zlen (layout v es) = sz es.
Proof. revert v. induction es as [|e es IH]; intros v Hc; [done|]. destruct Hc as [He Hc]. cbn [layout sz]. rewrite zlen_app, ent_bytes_len, IH by (done || apply He). done. Qed.
Lemma sz_pos v es : chain_ok v es -> 2 * zlen es <= sz es.
Proof. revert v. induction es as [|e es IH]; intros v Hc; [done|]. destruct Hc as [He Hc]. cbn [sz]. rewrite zlen_cons. pose proof (ent_len_pos v e He). specialize (IH _ Hc). lia. Qed.
(** The offset of the last entry in a sequence. *)
Definition tail_pos (es : list zent) : Z := sz (removelast es).
Lemma tail_pos_snoc l e : tail_pos (l ++ [e]) = sz l.
Proof. unfold tail_pos. by rewrite removelast_last. Qed.
Lemma tail_pos_cons e x es : tail_pos (e :: x :: es) = ent_len e + tail_pos (x :: es).
Proof. done. Qed.
Lemma tail_pos_nonneg v es : chain_ok v es -> 0 <= tail_pos es <= sz es.
Proof.
  intros Hc. destruct es as [|e es _] using rev_ind; [done|]. rewrite tail_pos_snoc, sz_app. apply chain_ok_app in Hc as [H1 H2]. pose proof (sz_pos _ _ H1). pose proof (sz_pos _ _ H2). pose proof (zlen_nonneg es). rewrite zlen_cons, zlen_nil in *. lia.
Qed.

(** *** The cascade *)
Definition chain_bytes (t o n : Z) (X : list Z) (v : Z) (es : list zent) : list Z := hdr t o n ++ X ++ layout v es ++ [ZIP_END].
Lemma at_end a : (a ++ [ZIP_END]).[zlen a] = Some ZIP_END.
Proof. by apply load1_app. Qed.
Lemma rawlen_entry v e : ent_ok v e -> u32 (z_ps e + zlen (body_head (z_body e)) + zlen (body_data (z_body e))) = ent_len e.
Proof. intros He. pose proof (ent_len_pos v e He). destruct He as (_ & _ & Hl). unfold ent_len in *. rewrite body_len_split in *. rewrite wrapu_small by lia. lia. Qed.
Lemma cascade_alone fuel a v e t : ent_ok v e -> cascade_loop be junk fuel (a ++ ent_bytes v e ++ [ZIP_END]) (zlen a) t = Some (a ++ ent_bytes v e ++ [ZIP_END]).
Proof.
  intros He. assert (Hb : (a ++ ent_bytes v e ++ [ZIP_END]).[zlen a + ent_len e] = Some ZIP_END) by (rewrite app_assoc; apply load1_app; rewrite zlen_app, ent_bytes_len by apply He; done).
  destruct (at_entry a [ZIP_END] v e He) as (x & Ex & Hx & _). destruct fuel; cbn [cascade_loop]; rewrite Ex; cbn [mbind option_bind]; rewrite Hx, (zip_entry a [ZIP_END] v e He); cbn [mbind option_bind headersize len]; rewrite (rawlen_entry v e He), Hb; done.
Qed.
(** Making room for four more bytes in the field of an entry. *)
Lemma widen H x B ext y : zlen ext = 4 -> exists five old, H ++ x :: B ++ ext ++ [y] = H ++ five ++ old ++ [y] /\ zlen five = 5 /\
  memmove (H ++ x :: B ++ ext ++ [y]) (zlen H + 5) (zlen H + 1) (zlen B) = Some (H ++ five ++ B ++ [y]).
Proof.
  intros Hext. pose proof (zlen_nonneg B). destruct (split_at (x :: B ++ ext) 5) as (five & old & E & Hf & Ho); [rewrite zlen_cons, zlen_app; lia|]. exists five, old.
  assert (Em : H ++ x :: B ++ ext ++ [y] = (H ++ five) ++ old ++ [y]) by (rewrite <- !app_assoc; f_equal; rewrite (app_assoc B), app_comm_cons, E; by rewrite <- app_assoc). split; [rewrite Em; by rewrite <- app_assoc|]. split; [done|].
  apply (memmove_app (H ++ [x]) B (ext ++ [y])); [by rewrite <- app_assoc|by rewrite zlen_app, zlen_cons, zlen_nil|done|]. rewrite Em, (app_assoc H five (B ++ [y])). apply store_app; [rewrite zlen_app; lia|]. rewrite Ho, zlen_cons, zlen_app. lia.
Qed.
Lemma size_cases v e : ent_ok v e -> (z_ps e = 1 \/ z_ps e = 5).
Proof. intros ([[? _]|[? _]] & _); tauto. Qed.
Lemma widened v w e : ent_ok v e -> 0 <= w < 2 ^ 32 -> ent_len e + 4 < 2 ^ 32 -> z_ps e = 1 -> ent_ok w (mk_zent 5 (z_body e)) /\ ent_len (mk_zent 5 (z_body e)) = ent_len e + 4.
Proof.
  intros (_ & Hb & Hl) Hw Hl4 Hp. unfold ent_ok, fits, ent_len in *. cbn [z_ps z_body]. rewrite Hp in *. split; [|lia]. split; [right; lia|]. split; [done|lia].
Qed.
Lemma restored v w e : ent_ok v e -> fits w e -> ent_ok w e.
Proof. intros (_ & Hb & Hl) Hw. done. Qed.
Definition cascaded (n : Z) (X : list Z) (pv : Z) (e : zent) (es es' : list zent) (t' o' : Z) (zl : list Z) : Prop :=
  zl = hdr t' o' n ++ X ++ ent_bytes pv e ++ layout (ent_len e) es' ++ [ZIP_END] /\ chain_ok (ent_len e) es' /\ map z_body es' = map z_body es /\
  t' = 11 + zlen X + ent_len e + sz es' /\ o' = 10 + zlen X + ent_len e + tail_pos es' /\ sz es' <= sz es + 4 * zlen es.
Lemma cascade_step rest fuel t o n X pv e v0 nxt :
  ent_ok pv e -> ent_ok v0 nxt -> chain_ok (ent_len nxt) rest -> t = 11 + zlen X + ent_len e + sz (nxt :: rest) -> o = 10 + zlen X + ent_len e + tail_pos (nxt :: rest) -> t + 4 < 2 ^ 32 ->
  let es := nxt :: rest in let nxt' := mk_zent 5 (z_body nxt) in
  let run fuel := cascade_loop be junk fuel (hdr t o n ++ X ++ ent_bytes pv e ++ ent_bytes v0 nxt ++ layout (ent_len nxt) rest ++ [ZIP_END]) (10 + zlen X) t in
  (exists zl, run (S fuel) = Some zl /\ cascaded n X pv e es es t o zl) \/
  (z_ps nxt = 1 /\ run (S fuel) = cascade_loop be junk fuel (hdr (t + 4) (10 + zlen X + ent_len e + tail_pos (nxt' :: rest)) n ++ (X ++ ent_bytes pv e) ++ ent_bytes (ent_len e) nxt' ++ layout (ent_len nxt) rest ++ [ZIP_END]) (10 + zlen (X ++ ent_bytes pv e)) (t + 4)).
Proof.
  intros He Hn Hrest Ht Ho Hlen es nxt' run. fold es in Ht, Ho. set (L := layout (ent_len nxt) rest) in *. pose proof (zlen_nonneg X). pose proof (ent_len_pos _ _ He). pose proof (ent_len_pos _ _ Hn). pose proof (zlen_nonneg es).
  assert (HL : zlen L = sz es - ent_len nxt) by (unfold L, es; cbn [sz]; rewrite layout_len by done; lia). assert (Htp : 0 <= tail_pos es <= sz es) by (apply (tail_pos_nonneg v0); by split). assert (Hke : ent_len e < 2 ^ 32) by apply He.
  set (HH := hdr t o n ++ X ++ ent_bytes pv e). assert (Epos : zlen HH = 10 + zlen X + ent_len e) by (unfold HH; rewrite !zlen_app, zlen_hdr, ent_bytes_len by apply He; lia).
  set (M := hdr t o n ++ X ++ ent_bytes pv e ++ ent_bytes v0 nxt ++ L ++ [ZIP_END]) in *. assert (EM : M = HH ++ ent_bytes v0 nxt ++ L ++ [ZIP_END]) by (unfold M, HH; by rewrite <- !app_assoc).
  assert (EM1 : M = (hdr t o n ++ X) ++ ent_bytes pv e ++ ent_bytes v0 nxt ++ L ++ [ZIP_END]) by (unfold M; by rewrite <- !app_assoc).
  destruct (at_entry (hdr t o n ++ X) (ent_bytes v0 nxt ++ L ++ [ZIP_END]) pv e He) as (x & Ex & Hx & _). rewrite zlen_app, zlen_hdr, <- EM1 in Ex. pose proof (zip_entry (hdr t o n ++ X) (ent_bytes v0 nxt ++ L ++ [ZIP_END]) pv e He) as Ee. rewrite zlen_app, zlen_hdr, <- EM1 in Ee.
  destruct (at_entry HH (L ++ [ZIP_END]) v0 nxt Hn) as (y & Ey & Hy & _). rewrite Epos, <- EM in Ey. pose proof (zip_entry HH (L ++ [ZIP_END]) v0 nxt Hn) as En. rewrite Epos, <- EM in En.
  assert (Hrun : forall k, run k = if v0 =? ent_len e then Some M
    else if z_ps nxt <? prevlen_size (ent_len e) then
      zl ← ziplistResize be junk M (t + (prevlen_size (ent_len e) - z_ps nxt));
      tail ← ZIPLIST_TAIL_OFFSET be zl;
      zl ← (if negb (tail =? 10 + zlen X + ent_len e) then set_tail be zl (tail + (prevlen_size (ent_len e) - z_ps nxt)) else Some zl);
      zl ← memmove zl (10 + zlen X + ent_len e + prevlen_size (ent_len e)) (10 + zlen X + ent_len e + z_ps nxt) (t - (10 + zlen X + ent_len e) - z_ps nxt - 1);
      '(zl, _) ← zipStorePrevEntryLength be zl (10 + zlen X + ent_len e) (ent_len e);
      match k with O => None | S k => cascade_loop be junk k zl (10 + zlen X + ent_len e) (t + (prevlen_size (ent_len e) - z_ps nxt)) end
    else if z_ps nxt >? prevlen_size (ent_len e) then zipStorePrevEntryLengthLarge be M (10 + zlen X + ent_len e) (ent_len e)
    else '(zl, _) ← zipStorePrevEntryLength be M (10 + zlen X + ent_len e) (ent_len e); Some zl).
  { intros k. unfold run. destruct k; cbn [cascade_loop]; rewrite Ex; cbn [mbind option_bind]; rewrite Hx, Ee; cbn [mbind option_bind headersize len]; rewrite (rawlen_entry pv e He), Ey; cbn [mbind option_bind]; rewrite Hy, En; reflexivity. }
  rewrite !Hrun. clear Hrun Ex Ee Ey En. 
  assert (Hstop : forall zl, fits (ent_len e) nxt -> zl = HH ++ ent_bytes (ent_len e) nxt ++ L ++ [ZIP_END] -> cascaded n X pv e es es t o zl).
  { intros zl Hf ->. split; [unfold es, HH; cbn [layout]; by rewrite <- !app_assoc|]. split; [split; [by apply (restored v0)|done]|]. split; [done|]. split; [done|]. split; [done|lia]. }
  destruct (Z.eqb_spec v0 (ent_len e)) as [Ev|Ev]; [left; eexists; split; [done|]; apply Hstop; [destruct Hn as (Hf & _); by rewrite <- Ev|by rewrite EM, Ev]|].
  destruct (prev_field_size (ent_len e) ltac:(lia)) as [Hps Hpc]. pose proof (fits_size (ent_len e) (z_body nxt) ltac:(lia)) as Hfs.
  assert (Eold : M = HH ++ prev_field (z_ps nxt) v0 ++ (body_bytes (z_body nxt) ++ L ++ [ZIP_END])) by (rewrite EM; unfold ent_bytes; by rewrite <- !app_assoc). assert (Hpl : zlen (prev_field (z_ps nxt) v0) = z_ps nxt) by (apply prev_field_len, Hn).
  destruct (size_cases _ _ Hn) as [Hz|Hz], Hpc as [Hc|Hc]; rewrite Hz, Hc in *; cbn [Z.ltb Z.gtb Z.compare Pos.compare Pos.compare_cont].
  - left. rewrite Eold, (store_prev HH) by lia. cbn [mbind option_bind]. eexists. split; [done|]. rewrite Hc. apply Hstop; [destruct nxt; cbn in *; by subst|]. unfold ent_bytes. rewrite Hz. by rewrite <- !app_assoc.
  - right. split; [done|]. set (B := body_bytes (z_body nxt) ++ L). assert (HB : zlen B = sz es - 1) by (unfold B; rewrite zlen_app, HL; unfold ent_len; rewrite Hz; lia).
    assert (Enb : ent_bytes v0 nxt = v0 :: body_bytes (z_body nxt)) by (unfold ent_bytes; by rewrite Hz). assert (Ec : M = hdr t o n ++ (X ++ ent_bytes pv e ++ v0 :: B) ++ [ZIP_END]) by (rewrite EM, Enb; unfold HH, B; by list_simplifier). assert (Hzc : zlen (X ++ ent_bytes pv e ++ v0 :: B) = zlen X + ent_len e + sz es) by (rewrite !zlen_app, zlen_cons, ent_bytes_len by apply He; lia).
    destruct (resize_grow t o n (X ++ ent_bytes pv e ++ v0 :: B) 4 ltac:(lia)) as (ext & ext2 & Er & Hext & _); [rewrite Hzc; lia|]. rewrite Hzc in Er. replace (t + (5 - 1)) with (11 + (zlen X + ent_len e + sz es) + 4) by lia. rewrite Ec, Er. cbn [mbind option_bind]. rewrite get_tail by (unfold in_u; lia). cbn [mbind option_bind].
    set (o2 := 10 + zlen X + ent_len e + tail_pos (nxt' :: rest)). set (t2 := 11 + (zlen X + ent_len e + sz es) + 4). assert (Hl' : ent_len nxt' = ent_len nxt + 4) by (unfold nxt', ent_len; cbn [z_ps z_body]; rewrite Hz; lia).
    assert (Etail : (if negb (o =? 10 + zlen X + ent_len e) then set_tail be (hdr t2 o n ++ (X ++ ent_bytes pv e ++ v0 :: B) ++ ext ++ [ZIP_END]) (o + (5 - 1)) else Some (hdr t2 o n ++ (X ++ ent_bytes pv e ++ v0 :: B) ++ ext ++ [ZIP_END])) = Some (hdr t2 o2 n ++ (X ++ ent_bytes pv e ++ v0 :: B) ++ ext ++ [ZIP_END])).
    { unfold o2. destruct rest as [|r rest]; [unfold es in Ho; change (tail_pos [nxt]) with 0 in Ho; change (tail_pos [nxt']) with 0; rewrite Ho, Z.add_0_r, Z.eqb_refl; done|]. assert (Htr : 0 <= tail_pos (r :: rest)) by (apply (tail_pos_nonneg (ent_len nxt)); done). unfold es in Ho, Htp, Hzc. rewrite tail_pos_cons in Ho, Htp. rewrite tail_pos_cons, Hl'. rewrite (proj2 (Z.eqb_neq _ _)) by lia. cbn [negb].
      rewrite put_tail by (unfold in_u, es in *; cbn [sz] in *; lia). do 3 f_equal. lia. }
    rewrite Etail. cbn [mbind option_bind]. destruct (widen (hdr t2 o2 n ++ X ++ ent_bytes pv e) v0 B ext ZIP_END Hext) as (five & old & _ & Hfive & Emv). assert (Ezl : zlen (hdr t2 o2 n ++ X ++ ent_bytes pv e) = 10 + zlen X + ent_len e) by (rewrite !zlen_app, zlen_hdr, ent_bytes_len by apply He; lia). rewrite Ezl in Emv.
    replace (hdr t2 o2 n ++ (X ++ ent_bytes pv e ++ v0 :: B) ++ ext ++ [ZIP_END]) with ((hdr t2 o2 n ++ X ++ ent_bytes pv e) ++ v0 :: B ++ ext ++ [ZIP_END]) by (by list_simplifier). replace (t - (10 + zlen X + ent_len e) - 1 - 1) with (zlen B) by lia. rewrite Emv. cbn [mbind option_bind].
    rewrite (store_prev (hdr t2 o2 n ++ X ++ ent_bytes pv e) five (B ++ [ZIP_END])) by lia. cbn [mbind option_bind]. rewrite Hc. replace (10 + zlen (X ++ ent_bytes pv e)) with (10 + zlen X + ent_len e) by (rewrite zlen_app, ent_bytes_len by apply He; lia). replace (t + 4) with t2 by (unfold t2; lia). fold o2. f_equal. unfold ent_bytes at 3, nxt', B. cbn [z_ps z_body]. by rewrite <- !app_assoc.
  - left. rewrite Eold, (store_large HH) by lia. eexists. split; [done|]. apply Hstop; [right; lia|]. unfold ent_bytes. rewrite Hz. by rewrite <- !app_assoc.
  - left. rewrite Eold, (store_prev HH) by lia. cbn [mbind option_bind]. eexists. split; [done|]. rewrite Hc. apply Hstop; [destruct nxt; cbn in *; by subst|]. unfold ent_bytes. rewrite Hz. by rewrite <- !app_assoc.
Qed.

Lemma cascade_spec rest : forall fuel t o n X pv e v0 nxt,
  ent_ok pv e -> ent_ok v0 nxt -> chain_ok (ent_len nxt) rest -> t = 11 + zlen X + ent_len e + sz (nxt :: rest) -> o = 10 + zlen X + ent_len e + tail_pos (nxt :: rest) -> t + 4 * zlen (nxt :: rest) < 2 ^ 32 -> (length rest < fuel)%nat ->
  exists t' o' es' zl, cascade_loop be junk fuel (hdr t o n ++ X ++ ent_bytes pv e ++ ent_bytes v0 nxt ++ layout (ent_len nxt) rest ++ [ZIP_END]) (10 + zlen X) t = Some zl /\ cascaded n X pv e (nxt :: rest) es' t' o' zl.
Proof.
  induction rest as [|nx2 rest IH]; intros fuel t o n X pv e v0 nxt He Hn Hrest Ht Ho Hlen Hfuel; (destruct fuel as [|fuel]; [lia|]).
  all: rewrite zlen_cons in Hlen; pose proof (ent_len_pos _ _ He); pose proof (ent_len_pos _ _ Hn); pose proof (zlen_nonneg X).
  all: match goal with Hrest : chain_ok _ ?r |- _ => pose proof (sz_pos _ _ Hrest); pose proof (zlen_nonneg r); destruct (cascade_step r fuel t o n X pv e v0 nxt He Hn Hrest Ht Ho ltac:(lia)) as [(zl & E & Hz)|[Hz E]] end.
  - exists t, o, [nxt], zl. by split.
  - destruct (widened v0 (ent_len e) nxt Hn ltac:(destruct He as (_ & _ & ?); lia) ltac:(cbn [sz] in *; lia) Hz) as [Hok' Hl']. set (nxt' := mk_zent 5 (z_body nxt)) in *. cbv zeta in E. rewrite E. cbn [layout app]. rewrite (app_assoc (hdr _ _ n)). replace (10 + zlen (X ++ ent_bytes pv e)) with (zlen (hdr (t + 4) (10 + zlen X + ent_len e + tail_pos [nxt']) n ++ X ++ ent_bytes pv e)) by (by rewrite !zlen_app, zlen_hdr).
    rewrite cascade_alone by done. exists (t + 4), (10 + zlen X + ent_len e + tail_pos [nxt']), [nxt']. eexists. split; [done|]. split; [cbn [layout]; by list_simplifier|]. split; [by split|]. split; [done|]. cbn [sz] in *. rewrite Hl'. split; [lia|]. split; [done|]. rewrite zlen_cons. lia.
  - exists t, o, (nxt :: nx2 :: rest), zl. by split.
  - destruct (widened v0 (ent_len e) nxt Hn ltac:(destruct He as (_ & _ & ?); lia) ltac:(cbn [sz] in *; lia) Hz) as [Hok' Hl']. set (nxt' := mk_zent 5 (z_body nxt)) in *. destruct Hrest as [Hn2 Hrest]. cbv zeta in E. rewrite E. cbn [layout]. cbn [sz] in *. rewrite tail_pos_cons in Ho.
    assert (Hzx : zlen (X ++ ent_bytes pv e) = zlen X + ent_len e) by (rewrite zlen_app, ent_bytes_len by apply He; done). rewrite zlen_cons in *.
    destruct (IH fuel (t + 4) (10 + zlen X + ent_len e + tail_pos (nxt' :: nx2 :: rest)) n (X ++ ent_bytes pv e) (ent_len e) nxt' (ent_len nxt) nx2) as (t' & o' & es' & zl & E' & Hc1 & Hc2 & Hc3 & Hc4 & Hc5 & Hc6); try done.
    + cbn [sz]. lia.
    + rewrite tail_pos_cons. lia.
    + rewrite zlen_cons. lia.
    + cbn [length] in Hfuel. lia.
    + exists t', o', (nxt' :: es'), zl. rewrite <- !app_assoc in E'. rewrite <- !app_assoc. split; [exact E'|]. split; [rewrite Hc1; cbn [layout]; by list_simplifier|]. split; [by split|]. split; [cbn [map]; by rewrite Hc3|]. cbn [sz]. split; [lia|]. split; [|cbn [sz] in *; rewrite !zlen_cons in *; lia].
      rewrite Hc5, Hzx. destruct es' as [|x es']; [done|]. rewrite tail_pos_cons. lia.
Qed.
(** After an entry got another length, the cascade restores the lengths. *)
Lemma settle t o n X pv x old rest :
  ent_ok pv x -> chain_ok old rest -> t = 11 + zlen X + sz (x :: rest) -> o = 10 + zlen X + tail_pos (x :: rest) -> t + 4 * zlen rest < 2 ^ 32 ->
  exists q' t' o', (if negb (ent_len x - old =? 0) then ziplistCascadeUpdate be junk (hdr t o n ++ X ++ ent_bytes pv x ++ layout old rest ++ [ZIP_END]) (10 + zlen X) else Some (hdr t o n ++ X ++ ent_bytes pv x ++ layout old rest ++ [ZIP_END])) = Some (hdr t' o' n ++ X ++ layout pv q' ++ [ZIP_END]) /\
    chain_ok pv q' /\ map z_body q' = map z_body (x :: rest) /\ t' = 11 + zlen X + sz q' /\ o' = 10 + zlen X + tail_pos q' /\ sz q' <= sz (x :: rest) + 4 * zlen rest.
Proof.
  intros Hx Hrest Ht Ho Hlen. pose proof (ent_len_pos _ _ Hx). pose proof (zlen_nonneg X). pose proof (sz_pos _ _ Hrest). pose proof (zlen_nonneg rest). cbn [sz] in Ht. destruct (Z.eqb_spec (ent_len x - old) 0) as [E|E]; cbn [negb].
  - assert (old = ent_len x) as -> by lia. exists (x :: rest), t, o. split; [cbn [layout]; by rewrite <- app_assoc|]. split; [by split|]. split; [done|]. split; [cbn [sz]; lia|]. split; [done|lia].
  - unfold ziplistCascadeUpdate. rewrite get_bytes by (unfold in_u; lia). cbn [mbind option_bind]. destruct rest as [|y rest].
    + cbn [layout app]. rewrite (app_assoc (hdr t o n) X). replace (10 + zlen X) with (zlen (hdr t o n ++ X)) by (by rewrite zlen_app, zlen_hdr). rewrite cascade_alone by done. rewrite zlen_app, zlen_hdr. exists [x], t, o. split; [cbn [layout]; by list_simplifier|]. split; [by split|]. split; [done|]. split; [done|]. split; [done|lia].
    + destruct Hrest as [Hy Hrest]. cbn [layout]. rewrite <- (app_assoc (ent_bytes old y)). destruct (cascade_spec rest (length (hdr t o n ++ X ++ ent_bytes pv x ++ ent_bytes old y ++ layout (ent_len y) rest ++ [ZIP_END])) t o n X pv x old y) as (t' & o' & es' & zl & E' & Hc1 & Hc2 & Hc3 & Hc4 & Hc5 & Hc6); try done.
      * lia.
      * rewrite tail_pos_cons in Ho. lia.
      * pose proof (layout_len _ _ Hrest). pose proof (sz_pos _ _ Hrest). pose proof (zlen_nonneg rest). rewrite !length_app. cbn [length]. unfold zlen in *. lia.
      * exists (x :: es'), t', o'. rewrite E', Hc1. split; [cbn [layout]; by list_simplifier|]. split; [by split|]. split; [cbn [map]; by rewrite Hc3|]. cbn [sz] in *. split; [lia|]. split; [|lia]. rewrite Hc5. destruct es' as [|z es']; [done|]. rewrite tail_pos_cons. lia.
Qed.
(** Moving what follows to make room, or to take room back. *)
Lemma shift (a f B ext : list Z) y req nd : zlen ext = req + nd -> 0 <= req -> 0 <= req + nd -> 4 <= zlen a -> nd <= 4 -> 0 <= zlen f + nd ->
  exists G F, memmove (a ++ f ++ B ++ ext ++ [y]) (zlen a + req) (zlen a - nd) (zlen f + zlen B + nd) = Some (a ++ G ++ F ++ B ++ [y]) /\ zlen G = req /\ zlen F = zlen f + nd.
Proof.
  intros Hext Hreq Hk Ha Hnd Hf. pose proof (zlen_nonneg B). pose proof (zlen_nonneg f). destruct (split_at (a ++ f) (zlen a - nd)) as (a2 & F & EF & Ha2 & HF); [rewrite zlen_app; lia|]. rewrite zlen_app in HF.
  destruct (split_at (f ++ B ++ ext) req) as (G & old & EG & HG & Ho); [rewrite !zlen_app; lia|]. rewrite !zlen_app in Ho. exists G, F. split; [|split; lia].
  apply (memmove_app a2 (F ++ B) (ext ++ [y])); [rewrite (app_assoc a f), EF; by list_simplifier|lia|rewrite zlen_app; lia|]. replace (a ++ f ++ B ++ ext ++ [y]) with ((a ++ G) ++ old ++ [y]); [|rewrite <- !app_assoc; f_equal; rewrite (app_assoc G), <- EG; by list_simplifier].
  replace (a ++ G ++ F ++ B ++ [y]) with ((a ++ G) ++ (F ++ B) ++ [y]) by (by list_simplifier). apply store_app; [rewrite zlen_app; lia|rewrite zlen_app; lia].
Qed.
End Block.
