(* ===== verification/ZiplistEdit.v ===== *)
(** * Insertion and deletion in ziplists

    The proofs that __ziplistInsert and __ziplistDelete of ziplist.c turn a block that
    holds a list of entries into one that holds the list with the entry
    added, or with a range of entries removed. *)
From S2P Require Import Prelude Endian Util Ziplist.
#[local] Open Scope cmem_scope.

Section Block.
  Context {be : bool} {junk : nat -> Z}.

(** *** Writing an entry *)
Definition body_of (s : list Z) : zbody := match zipTryEncoding s with Some (v, _) => BInt v | None => BStr s end.
Lemma try_encoding s v e : zipTryEncoding s = Some (v, e) -> in_s 64 v /\ s = dec v /\ e = int_encoding v.
Proof. unfold zipTryEncoding. destruct (_ || _); [done|]. destruct (string2ll s) as [w|] eqn:E; [|done]. cbn [mbind option_bind]. intros [= <- <-]. apply string2ll_iff in E as [H1 H2]. done. Qed.
Lemma body_of_str s : body_str (body_of s) = s.
Proof. unfold body_of. destruct (zipTryEncoding s) as [[v e]|] eqn:E; [|done]. apply try_encoding in E as (_ & -> & _). done. Qed.
Lemma body_of_ok s : bytes_ok s -> zlen s < 2 ^ 32 -> body_ok (body_of s).
Proof. intros H1 H2. unfold body_of. destruct (zipTryEncoding s) as [[v e]|] eqn:E; [|done]. by apply try_encoding in E as (Hv & _). Qed.
Lemma int_not_str v : in_s 64 v -> ZIP_IS_STR (int_encoding v) = false.
Proof.
  intros Hv. destruct (int_encoding_cases v Hv) as [(H0 & -> & _)|[(_ & -> & _)|[(_ & -> & _)|[(_ & -> & _)|[(_ & -> & _)|(-> & _)]]]]]; try done.
  unfold ZIP_IS_STR, ZIP_STR_MASK. rewrite (proj1 (land_byte (241 + v) ltac:(lia))). replace ((241 + v) / 64) with 3 by (apply (Z.div_unique _ _ _ (49 + v)); lia). done.
Qed.
Lemma int_size v : in_s 64 v -> zipIntSize (int_encoding v) = Some (zlen (int_bytes v)).
Proof.
  intros Hv. destruct (int_encoding_cases v Hv) as [(H0 & E & ->)|[(_ & -> & ->)|[(_ & -> & ->)|[(_ & -> & ->)|[(_ & -> & ->)|(-> & ->)]]]]]; try done.
  rewrite E. small_int v.
Qed.
(** What the insertion computes about the string. *)
Lemma plan s : bytes_ok s -> zlen s < 2 ^ 32 -> exists value enc, match zipTryEncoding s with Some (v, e) => (v, e) | None => (123456789, 0) end = (value, enc) /\
  match zipTryEncoding s with Some (_, e) => zipIntSize e | None => Some (zlen s) end = Some (zlen (body_data (body_of s))) /\ entry_encoding enc (zlen s) = body_head (body_of s) /\
  ((ZIP_IS_STR enc = true /\ body_data (body_of s) = s) \/ (ZIP_IS_STR enc = false /\ in_s 64 value /\ enc = int_encoding value /\ body_data (body_of s) = int_bytes value)).
Proof.
  intros Hs Hl. unfold body_of. destruct (zipTryEncoding s) as [[v e]|] eqn:E; eexists _, _; (split; [done|]).
  - apply try_encoding in E as (Hv & _ & ->). cbn [body_data body_head]. split; [by apply int_size|]. unfold entry_encoding. rewrite int_not_str by done. split; [done|]. by right.
  - cbn [body_data body_head]. split; [done|]. split; [done|]. by left.
Qed.
Lemma le_bytes_shift v : drop 1 (le_bytes 4 (Z.shiftl v 8)) = le_bytes 3 v.
Proof. rewrite Z.shiftl_mul_pow2 by lia. cbn [le_bytes drop]. change (2 ^ 8) with 256. by rewrite Z.div_mul by lia. Qed.
Lemma save_integer a old c v p : in_s 64 v -> zlen old = zlen (int_bytes v) -> p = zlen a -> zipSaveInteger be (a ++ old ++ c) p v (int_encoding v) = Some (a ++ int_bytes v ++ c).
Proof.
  intros Hv Ho ->. unfold zipSaveInteger, memrev16ifbe, memrev32ifbe, memrev64ifbe. rewrite (revifbe_bytes be 2 v memrev16 memrev16_rev), (revifbe_bytes be 4 v memrev32 memrev32_rev), (revifbe_bytes be 8 v memrev64 memrev64_rev), (revifbe_bytes be 4 (Z.shiftl v 8) memrev32 memrev32_rev), le_bytes_shift.
  destruct (int_encoding_cases v Hv) as [(H0 & E & E2)|[(H8 & -> & E2)|[(_ & -> & E2)|[(_ & -> & E2)|[(_ & -> & E2)|(-> & E2)]]]]]; rewrite E2 in *.
  2: { change (254 =? ZIP_INT_8B) with true. cbv iota. rewrite (store_app a old [u8 v]) by done. done. }
  2-5: apply store_app; done.
  destruct old; [|rewrite zlen_cons, zlen_nil in Ho; pose proof (zlen_nonneg old); lia]. rewrite E. small_int v.
Qed.

(** *** Insertion *)
Definition len_ok (n : Z) (es : list zent) : Prop := (n = zlen es /\ n < UINT16_MAX) \/ n = UINT16_MAX.
(** The block [zl] holds the entries [es]. *)
Definition zl_of (zl : list Z) (es : list zent) : Prop := exists n, zl = hdr (11 + sz es) (10 + tail_pos es) n ++ layout 0 es ++ [ZIP_END] /\ chain_ok 0 es /\ 11 + sz es < 2 ^ 32 /\ len_ok n es.
Lemma len_ok_u16 n es : len_ok n es -> in_u 16 n.
Proof. unfold len_ok, UINT16_MAX, in_u. pose proof (zlen_nonneg es). intros [[-> ?]| ->]; lia. Qed.
Lemma write_entry a old c v s value enc p : bytes_ok s -> 0 <= v < 2 ^ 32 -> zlen old = ent_len (mk_zent (prevlen_size v) (body_of s)) -> p = zlen a ->
  entry_encoding enc (zlen s) = body_head (body_of s) -> ((ZIP_IS_STR enc = true /\ body_data (body_of s) = s) \/ (ZIP_IS_STR enc = false /\ in_s 64 value /\ enc = int_encoding value /\ body_data (body_of s) = int_bytes value)) ->
  ('(zl, n) ← zipStorePrevEntryLength be (a ++ old ++ c) p v; let p := p + n in '(zl, n) ← zipStoreEntryEncoding zl p enc (zlen s); let p := p + n in if ZIP_IS_STR enc then store zl p s else zipSaveInteger be zl p value enc) =
  Some (a ++ ent_bytes v (mk_zent (prevlen_size v) (body_of s)) ++ c).
Proof.
  intros Hs Hv Ho -> Hh Hd. unfold ent_len in Ho. cbn [z_ps z_body] in Ho. rewrite body_len_split in Ho. destruct (prev_field_size v Hv) as [Hpf Hpc]. pose proof (zlen_nonneg (body_head (body_of s))). pose proof (zlen_nonneg (body_data (body_of s))).
  destruct (split_at old (prevlen_size v)) as (o1 & o2 & -> & H1 & H2); [lia|]. destruct (split_at o2 (zlen (body_head (body_of s)))) as (o3 & o4 & -> & H3 & H4); [lia|]. rewrite <- !app_assoc. rewrite (store_prev a o1 (o3 ++ o4 ++ c) v (zlen a) Hv H1 eq_refl). cbn [mbind option_bind]. cbv zeta.
  unfold zipStoreEntryEncoding. rewrite Hh. rewrite (app_assoc a). rewrite store_app by (rewrite ?zlen_app; lia). cbn [mbind option_bind]. rewrite (app_assoc (a ++ _)).
  unfold ent_bytes, body_bytes. cbn [z_ps z_body]. rewrite !zlen_app in *.
  destruct Hd as [[-> Ed]|(-> & Hval & -> & Ed)]; rewrite Ed in *.
  - rewrite store_app by (rewrite ?zlen_app; lia). by list_simplifier.
  - rewrite save_integer by (rewrite ?zlen_app; (done || lia)). by list_simplifier.
Qed.
Lemma chain_last v es : chain_ok v es -> 0 <= v < 2 ^ 32 -> 0 <= last_len v es < 2 ^ 32.
Proof.
  intros Hc Hv. unfold last_len. destruct es as [|e es _] using rev_ind; [done|]. rewrite last_snoc. apply chain_ok_app in Hc as [_ [He _]]. pose proof (ent_len_pos _ _ He). destruct He as (_ & _ & ?). lia.
Qed.
Lemma tail_pos_app p x q : tail_pos (p ++ x :: q) = sz p + tail_pos (x :: q).
Proof. induction p as [|e p IH]; [done|]. cbn [app sz]. destruct (p ++ x :: q) as [|y l] eqn:E; [by destruct p|]. rewrite tail_pos_cons, <- E. rewrite E, IH. lia. Qed.
Lemma zl_len zl es : zl_of zl es -> zlen zl = 11 + sz es.
Proof. intros (n & -> & Hc & _). rewrite !zlen_app, zlen_hdr, (layout_len 0), zlen_cons, zlen_nil by done. lia. Qed.
Lemma last_len_snoc v p e : last_len v (p ++ [e]) = ent_len e.
Proof. unfold last_len. by rewrite last_snoc. Qed.
(** The length of the entry before the place of the insertion. *)
Lemma prev_of zl p q : zl_of zl (p ++ q) -> exists b, zl.[10 + sz p] = Some b /\ (b =? ZIP_END) = match q with [] => true | _ => false end /\
  (if negb (b =? ZIP_END) then '(_, prevlen) ← ZIP_DECODE_PREVLEN be zl (10 + sz p); Some prevlen else ptail ← ZIPLIST_TAIL_OFFSET be zl; t ← zl.[ptail]; if negb (t =? ZIP_END) then zipRawEntryLength zl ptail else Some 0) = Some (last_len 0 p).
Proof.
  intros (n & -> & Hc & Hlen & _). pose proof Hc as Hc0. pose proof (sz_pos _ _ Hc). pose proof (zlen_nonneg (p ++ q)). rewrite layout_app. apply chain_ok_app in Hc as [Hp Hq]. pose proof (layout_len _ _ Hp) as Elp. set (o := 10 + tail_pos (p ++ q)). set (t := 11 + sz (p ++ q)). pose proof (tail_pos_nonneg _ _ Hc0).
  destruct q as [|x q].
  - exists ZIP_END. rewrite app_nil_r in *. cbn [layout]. split; [rewrite app_assoc; apply load1_app; rewrite zlen_app, zlen_hdr; lia|]. split; [done|]. change (ZIP_END =? ZIP_END) with true. cbn [negb]. assert (Eo : o = 10 + tail_pos p) by (unfold o; by rewrite app_nil_r). rewrite get_tail by (unfold in_u; lia). cbn [mbind option_bind]. clearbody t o. subst o.
     destruct p as [|e p _] using rev_ind; [change (tail_pos []) with 0; cbn [layout app]; change (10 + 0) with 10; rewrite <- (zlen_hdr t 10 n), at_end; done|]. rewrite tail_pos_snoc. rewrite layout_app in *. cbn [layout]. rewrite app_nil_r. apply chain_ok_app in Hp as [Hp [He _]]. rewrite last_len_snoc.
    set (A := hdr t (10 + sz p) n ++ layout 0 p). replace (hdr t (10 + sz p) n ++ (layout 0 p ++ ent_bytes (last_len 0 p) e) ++ [ZIP_END]) with (A ++ ent_bytes (last_len 0 p) e ++ [ZIP_END]) by (unfold A; by list_simplifier). assert (E10 : zlen A = 10 + sz p) by (unfold A; rewrite zlen_app, zlen_hdr, (layout_len 0) by done; done).
    destruct (at_entry A [ZIP_END] _ e He) as (b & Eb & Hb & _). pose proof (raw_length A [ZIP_END] _ e He) as Er. rewrite E10 in Eb, Er. rewrite Eb. cbn [mbind option_bind]. rewrite Hb. exact Er.
  - cbn [layout]. destruct Hq as [Hx Hq]. replace (hdr t o n ++ (layout 0 p ++ ent_bytes (last_len 0 p) x ++ layout (ent_len x) q) ++ [ZIP_END]) with ((hdr t o n ++ layout 0 p) ++ ent_bytes (last_len 0 p) x ++ (layout (ent_len x) q ++ [ZIP_END])) by (by list_simplifier).
    replace (10 + sz p) with (zlen (hdr t o n ++ layout 0 p)) by (rewrite zlen_app, zlen_hdr; lia). destruct (at_entry (hdr t o n ++ layout 0 p) (layout (ent_len x) q ++ [ZIP_END]) _ x Hx) as (b & -> & Hb & _). exists b. split; [done|]. rewrite Hb. split; [done|]. cbn [negb]. by rewrite decode_prevlen.
Qed.
(** The place of the next entry once an entry of length [req] comes before it. *)
Lemma next_size req nxt pv : ent_ok pv nxt -> 2 <= req < 2 ^ 32 -> ent_len nxt + 4 < 2 ^ 32 ->
  let d := prevlen_size req - z_ps nxt in let forced := (d =? -4) && (req <? 4) in let nd := if forced then 0 else d in
  let nxt' := mk_zent (z_ps nxt + nd) (z_body nxt) in
  ent_ok req nxt' /\ ent_len nxt' = ent_len nxt + nd /\ 0 <= req + nd /\ -4 <= nd <= 4 /\ 1 <= z_ps nxt + nd /\ (if forced then z_ps nxt + nd = 5 else z_ps nxt + nd = prevlen_size req).
Proof.
  intros Hn Hreq Hlen d forced nd nxt'. assert (Hl : ent_len nxt' = ent_len nxt + nd) by (unfold ent_len, nxt'; cbn [z_ps z_body]; lia). destruct (prev_field_size req ltac:(lia)) as [_ Hpc]. pose proof (size_cases _ _ Hn) as Hz.
  assert (Hps : (if forced then z_ps nxt + nd = 5 else z_ps nxt + nd = prevlen_size req) /\ 0 <= req + nd /\ -4 <= nd <= 4 /\ 1 <= z_ps nxt + nd).
  { unfold nd, forced. destruct (Z.eqb_spec d (-4)), (Z.ltb_spec req 4); cbn [andb]; unfold d in *; lia. }
  destruct Hps as (H1 & H2 & H3 & H4). split; [|split; [done|]; split; [done|]; split; [done|]; split; [done|exact H1]]. destruct Hn as (_ & Hb & Hln). split; [|split; [done|lia]].
  destruct forced; [right; cbn [nxt' z_ps]; lia|]. unfold nxt'. rewrite H1. apply fits_size. lia.
Qed.
Lemma first_of_chain a v es c : chain_ok v es -> es <> [] -> exists x, (a ++ layout v es ++ c).[zlen a] = Some x /\ (x =? ZIP_END) = false.
Proof.
  intros Hc Hne. destruct es as [|e es]; [done|]. destruct Hc as [He _]. cbn [layout]. rewrite <- app_assoc. destruct (at_entry a (layout (ent_len e) es ++ c) v e He) as (x & E & Hx & _). by exists x.
Qed.
(** The tail offset after the next entry got its new length. *)
Lemma move_tail t o n X req v nxt' old nd rest w : ent_ok v nxt' -> chain_ok old rest -> in_u 32 o -> in_u 32 (o + req) -> in_u 32 w -> o + req = w - match rest with [] => 0 | _ => nd end ->
  (let zl := hdr t o n ++ X ++ ent_bytes v nxt' ++ layout old rest ++ [ZIP_END] in
   tail ← ZIPLIST_TAIL_OFFSET be zl; zl ← set_tail be zl (tail + req); te ← zipEntry be zl (10 + zlen X); b ← zl.[10 + zlen X + headersize te + len te];
   if negb (b =? ZIP_END) then tail ← ZIPLIST_TAIL_OFFSET be zl; set_tail be zl (tail + nd) else Some zl) = Some (hdr t w n ++ X ++ ent_bytes v nxt' ++ layout old rest ++ [ZIP_END]).
Proof.
  intros Hx Hrest Ho Ho2 Hw Hor. cbv zeta. rewrite get_tail by done. cbn [mbind option_bind]. rewrite put_tail by done. cbn [mbind option_bind].
  set (A := hdr t (o + req) n ++ X). assert (EA : zlen A = 10 + zlen X) by (unfold A; by rewrite zlen_app, zlen_hdr). assert (EM : hdr t (o + req) n ++ X ++ ent_bytes v nxt' ++ layout old rest ++ [ZIP_END] = A ++ ent_bytes v nxt' ++ layout old rest ++ [ZIP_END]) by (unfold A; by rewrite <- app_assoc). rewrite EM, <- EA, (zip_entry A _ v nxt' Hx). cbn [mbind option_bind headersize len].
  replace (zlen A + (z_ps nxt' + zlen (body_head (z_body nxt'))) + zlen (body_data (z_body nxt'))) with (zlen (A ++ ent_bytes v nxt')) by (rewrite zlen_app, ent_bytes_len by apply Hx; unfold ent_len; rewrite body_len_split; lia).
  rewrite (app_assoc A). destruct rest as [|y rest].
  - cbn [layout app]. rewrite at_end. cbn [mbind option_bind]. change (negb (ZIP_END =? ZIP_END)) with false. cbv iota. unfold A. replace (o + req) with w by lia. by rewrite <- !app_assoc.
  - destruct (first_of_chain (A ++ ent_bytes v nxt') old (y :: rest) [ZIP_END] Hrest ltac:(done)) as (b & -> & Hb). cbn [mbind option_bind]. rewrite Hb. cbn [negb]. rewrite <- app_assoc. unfold A. rewrite <- !app_assoc. rewrite get_tail by done. cbn [mbind option_bind]. replace (o + req + nd) with w by lia. by rewrite put_tail.
Qed.
Lemma body_size s : bytes_ok s -> zlen s < 2 ^ 32 -> zlen (body_bytes (body_of s)) <= zlen s + 9.
Proof.
  intros Hs Hl. pose proof (zlen_nonneg s). rewrite body_len_split. pose proof (body_of_ok s Hs Hl) as Hb. unfold body_of in *. destruct (zipTryEncoding s) as [[v e]|]; cbn [body_head body_data body_ok] in *.
  - rewrite zlen_cons, zlen_nil. destruct (int_encoding_cases v Hb) as [(_ & _ & ->)|[(_ & _ & ->)|[(_ & _ & ->)|[(_ & _ & ->)|[(_ & _ & ->)|(_ & ->)]]]]]; unfold zlen in *; rewrite ?le_bytes_length; cbn [length]; lia.
  - destruct (entry_encoding_cases (zlen s) ltac:(lia)) as [[_ ->]|[[_ ->]|[_ ->]]]; rewrite !zlen_cons, zlen_nil; lia.
Qed.
Lemma len_ok_incr n p q x q' : len_ok n (p ++ q) -> zlen q' = zlen q -> len_ok (if n <? UINT16_MAX then u16 (n + 1) else n) (p ++ x :: q').
Proof.
  intros Hn Hq. pose proof (zlen_nonneg (p ++ q)). unfold len_ok in *. rewrite zlen_app, zlen_cons, Hq. rewrite zlen_app in *. destruct Hn as [[-> Hn]| ->]; [|right; done]. rewrite (proj2 (Z.ltb_lt _ _) Hn). unfold UINT16_MAX in *. rewrite wrapu_small by lia. lia.
Qed.
Lemma map_body_len (q q' : list zent) : map z_body q' = map z_body q -> zlen q' = zlen q.
Proof. intros E. apply (f_equal length) in E. rewrite !length_map in E. unfold zlen. by rewrite E. Qed.
(** Making room before the entries [q]: what the block holds then, the room
    being [G]. *)
Definition roomed (n : Z) (p : list zent) (req : Z) (q q' : list zent) (zl : list Z) : Prop := exists G,
  zl = hdr (11 + sz p + req + sz q') (10 + sz p + match q' with [] => 0 | _ => req + tail_pos q' end) n ++ layout 0 p ++ G ++ layout req q' ++ [ZIP_END] /\
  zlen G = req /\ chain_ok req q' /\ map z_body q' = map z_body q /\ sz q' <= sz q + 4 * zlen q.
Lemma room_mid n p nxt rest req : chain_ok 0 (p ++ nxt :: rest) -> 2 <= req < 2 ^ 32 -> 11 + sz (p ++ nxt :: rest) + req + 4 + 4 * zlen (nxt :: rest) < 2 ^ 32 ->
  let d := prevlen_size req - z_ps nxt in let forced := (d =? -4) && (req <? 4) in let nd := if forced then 0 else d in let t := 11 + sz (p ++ nxt :: rest) in
  exists zl1 b zl2 zl3 q', ziplistResize be junk (hdr t (10 + tail_pos (p ++ nxt :: rest)) n ++ layout 0 (p ++ nxt :: rest) ++ [ZIP_END]) (t + req + nd) = Some zl1 /\ zl1.[10 + sz p] = Some b /\ (b =? ZIP_END) = false /\
    insert_move be zl1 (10 + sz p) req nd forced t = Some zl2 /\ (if negb (nd =? 0) then ziplistCascadeUpdate be junk zl2 (10 + sz p + req) else Some zl2) = Some zl3 /\ roomed n p req (nxt :: rest) q' zl3.
Proof.
  intros Hc Hreq Hlen d forced nd t. apply chain_ok_app in Hc as [Hp [Hn Hrest]]. set (pv := last_len 0 p) in *. pose proof (layout_len _ _ Hp) as Elp. set (P := layout 0 p) in *. pose proof (sz_pos _ _ Hp). pose proof (zlen_nonneg p). pose proof (sz_pos _ _ Hrest). pose proof (zlen_nonneg rest). pose proof (ent_len_pos _ _ Hn). rewrite zlen_cons in Hlen. rewrite sz_app in Hlen. cbn [sz] in Hlen.
  destruct (next_size req nxt pv Hn Hreq ltac:(lia)) as (Hok' & Hl' & Hk & Hnd & Hps1 & Hps). fold d in Hok', Hl', Hk, Hnd, Hps1, Hps. fold forced in Hok', Hl', Hk, Hnd, Hps1, Hps. fold nd in Hok', Hl', Hk, Hnd, Hps1, Hps. set (nxt' := mk_zent (z_ps nxt + nd) (z_body nxt)) in *.
  assert (Et : t = 11 + sz p + ent_len nxt + sz rest) by (unfold t; rewrite sz_app; cbn [sz]; lia). set (f := prev_field (z_ps nxt) pv). assert (Hf : zlen f = z_ps nxt) by (apply prev_field_len, Hn). set (B := body_bytes (z_body nxt) ++ layout (ent_len nxt) rest). assert (HB : zlen B = ent_len nxt - z_ps nxt + sz rest) by (unfold B; rewrite zlen_app, layout_len by done; unfold ent_len; lia).
  assert (Elay : layout 0 (p ++ nxt :: rest) = P ++ f ++ B) by (rewrite layout_app; cbn [layout]; unfold P, f, B, ent_bytes; by list_simplifier). rewrite Elay. set (o := 10 + tail_pos (p ++ nxt :: rest)).
  assert (Ho : o = 10 + sz p + tail_pos (nxt :: rest)) by (unfold o; rewrite tail_pos_app; lia). assert (Htr : 0 <= tail_pos (nxt :: rest) <= ent_len nxt + sz rest) by (apply (tail_pos_nonneg pv (nxt :: rest)); by split).
  destruct (resize_grow (be:=be) (junk:=junk) t o n (P ++ f ++ B) (req + nd) Hk) as (ext & ext2 & Er & Hext & _); [rewrite !zlen_app; lia|]. replace (11 + zlen (P ++ f ++ B) + (req + nd)) with (t + req + nd) in Er by (rewrite !zlen_app; lia). set (t1 := t + req + nd) in *.
  destruct (shift (hdr t1 o n ++ P) f B ext ZIP_END req nd Hext ltac:(lia) Hk) as (G & F & Emv & HG & HF); [rewrite zlen_app, zlen_hdr; pose proof (zlen_nonneg P); lia|lia|lia|].
  assert (Ea : zlen (hdr t1 o n ++ P) = 10 + sz p) by (rewrite zlen_app, zlen_hdr; lia). rewrite Ea in Emv.
  assert (E1 : hdr t1 o n ++ (P ++ f ++ B) ++ ext ++ [ZIP_END] = (hdr t1 o n ++ P) ++ f ++ B ++ ext ++ [ZIP_END]) by (by list_simplifier). rewrite E1 in Er.
  assert (E1' : (hdr t1 o n ++ P) ++ f ++ B ++ ext ++ [ZIP_END] = (hdr t1 o n ++ P) ++ ent_bytes pv nxt ++ (layout (ent_len nxt) rest ++ ext ++ [ZIP_END])) by (unfold f, B, ent_bytes; by list_simplifier).
  destruct (at_entry (hdr t1 o n ++ P) (layout (ent_len nxt) rest ++ ext ++ [ZIP_END]) pv nxt Hn) as (b & Eb & Hb & _). rewrite <- E1', Ea in Eb.
  exists ((hdr t1 o n ++ P) ++ f ++ B ++ ext ++ [ZIP_END]), b. unfold insert_move. replace (t - (10 + sz p) - 1 + nd) with (zlen f + zlen B + nd) by lia. rewrite Emv. cbn [mbind option_bind]. rewrite (wrapu_small 32 req) by lia.
  set (X := P ++ G). assert (HX : zlen X = sz p + req) by (unfold X; rewrite zlen_app; lia).
  assert (Estore : (if forced then zipStorePrevEntryLengthLarge be ((hdr t1 o n ++ P) ++ G ++ F ++ B ++ [ZIP_END]) (10 + sz p + req) req else '(zl, _) ← zipStorePrevEntryLength be ((hdr t1 o n ++ P) ++ G ++ F ++ B ++ [ZIP_END]) (10 + sz p + req) req; Some zl) = Some (hdr t1 o n ++ X ++ ent_bytes req nxt' ++ layout (ent_len nxt) rest ++ [ZIP_END])).
  { replace ((hdr t1 o n ++ P) ++ G ++ F ++ B ++ [ZIP_END]) with ((hdr t1 o n ++ X) ++ F ++ (B ++ [ZIP_END])) by (unfold X; by list_simplifier). destruct forced; [rewrite (store_large (hdr t1 o n ++ X)) by (rewrite ?zlen_app, ?zlen_hdr; lia)|rewrite (store_prev (hdr t1 o n ++ X)) by (rewrite ?zlen_app, ?zlen_hdr; lia); cbn [mbind option_bind]]; f_equal; unfold ent_bytes, nxt', B; cbn [z_ps z_body]; rewrite Hps; by list_simplifier. }
  cbn [mbind option_bind] in Estore. rewrite Estore. clear Estore Emv. cbn [mbind option_bind]. assert (Htail : tail_pos (nxt' :: rest) = tail_pos (nxt :: rest) + match rest with [] => 0 | _ => nd end) by (destruct rest; [done|rewrite !tail_pos_cons; lia]).
  assert (Htp' : 0 <= tail_pos (nxt' :: rest) <= ent_len nxt' + sz rest) by (destruct rest as [|y rest']; [change (tail_pos [nxt']) with 0; pose proof (ent_len_pos _ _ Hok'); cbn [sz]; lia|rewrite tail_pos_cons; pose proof (tail_pos_nonneg _ _ Hrest); pose proof (ent_len_pos _ _ Hok'); lia]). pose proof (move_tail t1 o n X req req nxt' (ent_len nxt) nd rest (10 + zlen X + tail_pos (nxt' :: rest)) Hok' Hrest ltac:(unfold in_u; lia) ltac:(unfold in_u; lia) ltac:(unfold in_u; lia) ltac:(lia)) as Emt. cbv zeta in Emt. replace (10 + zlen X) with (10 + sz p + req) in Emt by lia.
  destruct (settle (be:=be) (junk:=junk) t1 (10 + sz p + req + tail_pos (nxt' :: rest)) n X req nxt' (ent_len nxt) rest Hok' Hrest) as (q' & t' & o' & Es & Hq1 & Hq2 & Hq3 & Hq4 & Hq5); [cbn [sz]; lia|lia|cbn [sz] in *; lia|]. replace (ent_len nxt' - ent_len nxt) with nd in Es by lia. replace (10 + zlen X) with (10 + sz p + req) in Es by lia.
  eexists _, _, q'. split; [exact Er|]. split; [exact Eb|]. split; [exact Hb|]. split; [exact Emt|]. split; [exact Es|]. exists G. cbn [sz] in *. split; [|split; [done|split; [done|split; [by rewrite Hq2|rewrite zlen_cons; lia]]]].
  destruct q' as [|x q']; [done|]. subst t' o'. rewrite !HX. unfold X. rewrite <- !app_assoc. f_equal. f_equal; lia.
Qed.
Lemma room_end n p req : chain_ok 0 p -> 2 <= req -> 11 + sz p + req < 2 ^ 32 ->
  exists zl1, ziplistResize be junk (hdr (11 + sz p) (10 + tail_pos p) n ++ layout 0 p ++ [ZIP_END]) (11 + sz p + req + 0) = Some zl1 /\ zl1.[10 + sz p] = Some ZIP_END /\
    exists zl2, set_tail be zl1 (10 + sz p) = Some zl2 /\ roomed n p req [] [] zl2.
Proof.
  intros Hp Hreq Hlen. pose proof (layout_len _ _ Hp) as Elp. pose proof (sz_pos _ _ Hp). pose proof (zlen_nonneg p). destruct (resize_grow (be:=be) (junk:=junk) (11 + sz p) (10 + tail_pos p) n (layout 0 p) req ltac:(lia) ltac:(lia)) as (ext & ext2 & Er & Hext & Eext). rewrite Elp in Er. rewrite Z.add_0_r. eexists. split; [exact Er|]. split.
  - rewrite Eext, app_assoc. apply load1_app. rewrite zlen_app, zlen_hdr. lia.
  - rewrite put_tail by (unfold in_u; lia). eexists. split; [done|]. exists ext. cbn [layout app sz tail_pos]. split; [f_equal; f_equal; lia|]. split; [done|]. by split.
Qed.
Lemma zl_insert zl p q s : zl_of zl (p ++ q) -> bytes_ok s -> 11 + sz (p ++ q) + zlen s + 18 + 4 * zlen q < 2 ^ 32 ->
  exists zl' q', ziplistInsert be junk zl (10 + sz p) s = Some zl' /\ zl_of zl' (p ++ mk_zent (prevlen_size (last_len 0 p)) (body_of s) :: q') /\ map z_body q' = map z_body q /\ sz q' <= sz q + 4 * zlen q.
Proof.
  intros Hz Hs Hlen. pose proof (zlen_nonneg s). pose proof (prev_of zl p q Hz) as (b & Eb & Hb & Eprev). destruct Hz as (n & Ezl & Hc & Ht & Hn). pose proof (sz_pos _ _ Hc). pose proof (zlen_nonneg q). pose proof (zlen_nonneg (p ++ q)).
  set (v := last_len 0 p) in *. assert (Hv : 0 <= v < 2 ^ 32) by (apply (chain_last 0 p); [by apply chain_ok_app in Hc as [Hp _]|lia]). set (new := mk_zent (prevlen_size v) (body_of s)). set (req := ent_len new).
  destruct (plan s Hs ltac:(lia)) as (value & enc & Eplan & Edata & Ehead & Hd). pose proof (body_size s Hs ltac:(lia)) as Hbs. destruct (prev_field_size v Hv) as [_ Hpc]. pose proof (body_pos _ (body_of_ok s Hs ltac:(lia))). assert (Hreq : 2 <= req <= zlen s + 14) by (unfold req, new, ent_len; cbn [z_ps z_body]; lia).
  assert (Hnew : ent_ok v new) by (split; [by apply fits_size|]; split; [by apply body_of_ok; [|lia]|fold req; lia]).
  assert (Hroom : exists nd0 zl1 b1 zl2 zl3 q', (if negb (b =? ZIP_END) then zipPrevLenByteDiff zl (10 + sz p) (u32 req) else Some 0) = Some nd0 /\
      let forced := (nd0 =? -4) && (req <? 4) in let nd := if forced then 0 else nd0 in
      ziplistResize be junk zl (11 + sz (p ++ q) + req + nd) = Some zl1 /\ zl1.[10 + sz p] = Some b1 /\
      (if negb (b1 =? ZIP_END) then insert_move be zl1 (10 + sz p) req nd forced (11 + sz (p ++ q)) else set_tail be zl1 (10 + sz p)) = Some zl2 /\
      (if negb (nd =? 0) then ziplistCascadeUpdate be junk zl2 (10 + sz p + req) else Some zl2) = Some zl3 /\ roomed n p req q q' zl3).
  { rewrite Hb. destruct q as [|nxt rest]; cbn [negb].
    - rewrite app_nil_r in *. destruct (room_end n p req Hc ltac:(lia) ltac:(lia)) as (zl1 & E1 & E2 & zl2 & E3 & Hroom). exists 0, zl1, ZIP_END, zl2, zl2, []. rewrite Ezl. done.
    - rewrite wrapu_small by lia. destruct (room_mid n p nxt rest req Hc ltac:(lia)) as (zl1 & b1 & zl2 & zl3 & q' & E1 & E2 & E3 & E4 & E5 & Hroom); [lia|]. assert (Ed : zipPrevLenByteDiff zl (10 + sz p) req = Some (prevlen_size req - z_ps nxt)).
      { unfold zipPrevLenByteDiff. rewrite Ezl, layout_app. cbn [layout]. apply chain_ok_app in Hc as [Hp [Hnx Hrest]]. fold v. replace (hdr (11 + sz (p ++ nxt :: rest)) (10 + tail_pos (p ++ nxt :: rest)) n ++ (layout 0 p ++ ent_bytes v nxt ++ layout (ent_len nxt) rest) ++ [ZIP_END]) with ((hdr (11 + sz (p ++ nxt :: rest)) (10 + tail_pos (p ++ nxt :: rest)) n ++ layout 0 p) ++ ent_bytes v nxt ++ (layout (ent_len nxt) rest ++ [ZIP_END])) by (by list_simplifier).
        pose proof (decode_prevsize (hdr (11 + sz (p ++ nxt :: rest)) (10 + tail_pos (p ++ nxt :: rest)) n ++ layout 0 p) (layout (ent_len nxt) rest ++ [ZIP_END]) v nxt Hnx) as Edp. rewrite zlen_app, zlen_hdr, (layout_len 0 p Hp) in Edp. rewrite Edp. done. }
      exists (prevlen_size req - z_ps nxt), zl1, b1, zl2, zl3, q'. split; [exact Ed|]. cbv zeta. rewrite Ezl, E3. done. }
  destruct Hroom as (nd0 & zl1 & b1 & zl2 & zl3 & q' & E0 & E1 & E2 & E3 & E4 & G & Ezl3 & HG & Hq1 & Hq2 & Hq3). set (forced := (nd0 =? -4) && (req <? 4)) in *. set (nd := if forced then 0 else nd0) in *.
  pose proof (write_entry (hdr (11 + sz p + req + sz q') (10 + sz p + match q' with [] => 0 | _ => req + tail_pos q' end) n ++ layout 0 p) G (layout req q' ++ [ZIP_END]) v s value enc (10 + sz p) Hs Hv HG) as Ew. rewrite <- !app_assoc, <- Ezl3 in Ew. rewrite zlen_app, zlen_hdr, layout_len in Ew by (by apply chain_ok_app in Hc as [Hp _]). specialize (Ew eq_refl Ehead Hd). cbv zeta in Ew.
  pose proof (map_body_len q q' Hq2) as Hql. assert (Hfin : ziplistInsert be junk zl (10 + sz p) s = Some (hdr (11 + sz (p ++ new :: q')) (10 + tail_pos (p ++ new :: q')) (if n <? UINT16_MAX then u16 (n + 1) else n) ++ layout 0 (p ++ new :: q') ++ [ZIP_END])).
  { unfold ziplistInsert. rewrite Ezl at 1. rewrite get_bytes by (unfold in_u; lia). cbn [mbind option_bind]. cbv zeta. rewrite Eb. cbn [mbind option_bind]. cbn [mbind option_bind] in Eprev. rewrite Eprev. cbn [mbind option_bind]. rewrite Eplan, Edata. cbn [mbind option_bind]. rewrite Ehead. replace (zlen (body_data (body_of s)) + prevlen_size v + zlen (body_head (body_of s))) with req by (unfold req, new, ent_len; cbn [z_ps z_body]; rewrite body_len_split; lia).
    rewrite E0. cbn [mbind option_bind]. fold forced. fold nd. rewrite E1. cbn [mbind option_bind]. rewrite E2. cbn [mbind option_bind]. rewrite E3. cbn [mbind option_bind]. rewrite E4. cbn [mbind option_bind].
    destruct (zipStorePrevEntryLength be zl3 (10 + sz p) v) as [[z5 n5]|]; [|done]. cbn [mbind option_bind] in Ew |- *. destruct (zipStoreEntryEncoding z5 (10 + sz p + n5) enc (zlen s)) as [[z6 n6]|]; [|done]. cbn [mbind option_bind] in Ew |- *. rewrite Ew. cbn [mbind option_bind]. rewrite incr_len by (by eapply len_ok_u16).
    f_equal. rewrite layout_app. cbn [layout]. fold v. fold new. fold req. rewrite sz_app, tail_pos_app. cbn [sz]. fold req. rewrite <- !app_assoc. f_equal. f_equal; [lia|]. destruct q' as [|x q']; [change (tail_pos [new]) with 0; lia|]. rewrite tail_pos_cons. fold req. lia. }
  eexists _, q'. split; [exact Hfin|]. split; [|done]. exists (if n <? UINT16_MAX then u16 (n + 1) else n). split; [done|]. pose proof (proj1 (chain_ok_app 0 p q) Hc) as [Hp _]. split; [apply chain_ok_app; by split|]. split; [rewrite sz_app; cbn [sz]; fold req; rewrite sz_app in Hlen; lia|]. by apply (len_ok_incr n p q).
Qed.
(** *** Deletion *)
(** The entry after the entries [p] of a block. *)
Lemma zl_at zl p e r : zl_of zl (p ++ e :: r) -> exists A C, zl = A ++ ent_bytes (last_len 0 p) e ++ C /\ zlen A = 10 + sz p /\ ent_ok (last_len 0 p) e.
Proof.
  intros (n & -> & Hc & _). rewrite layout_app. apply chain_ok_app in Hc as [Hp [He _]]. cbn [layout]. eexists (hdr _ _ n ++ layout 0 p), (layout (ent_len e) r ++ [ZIP_END]). split; [by list_simplifier|]. split; [|done]. by rewrite zlen_app, zlen_hdr, layout_len.
Qed.
Lemma zl_at_end zl p : zl_of zl p -> zl.[10 + sz p] = Some ZIP_END.
Proof. intros (n & -> & Hc & _). rewrite app_assoc. apply load1_app. by rewrite zlen_app, zlen_hdr, layout_len. Qed.
Lemma zl_head zl p e r : zl_of zl (p ++ e :: r) -> exists x, zl.[10 + sz p] = Some x /\ (x =? ZIP_END) = false /\ zipRawEntryLength zl (10 + sz p) = Some (ent_len e) /\
  ZIP_DECODE_PREVLEN be zl (10 + sz p) = Some (z_ps e, last_len 0 p).
Proof.
  intros Hz. destruct (zl_at zl p e r Hz) as (A & C & -> & <- & He). destruct (at_entry A C _ e He) as (x & Ex & Hx & _). exists x. split; [done|]. split; [done|]. split; [by apply raw_length|by apply decode_prevlen].
Qed.
Lemma sz_snoc p e : sz (p ++ [e]) = sz p + ent_len e.
Proof. rewrite sz_app. cbn [sz]. lia. Qed.
Lemma delete_scan_spec zl num : forall r p fuel k, zl_of zl (p ++ r) -> (length r <= fuel)%nat -> k <= num ->
  delete_scan fuel zl (10 + sz p) num k = Some (10 + sz p + sz (take (Z.to_nat (num - k)) r), k + zlen (take (Z.to_nat (num - k)) r)).
Proof.
  induction r as [|e r IH]; intros p fuel k Hz Hf Hk.
  - rewrite app_nil_r in Hz. rewrite take_nil. change (zlen (@nil zent)) with 0. cbn [sz]. rewrite !Z.add_0_r. destruct fuel; cbn [delete_scan]; rewrite (zl_at_end zl p Hz); done.
  - destruct (zl_head zl p e r Hz) as (x & Ex & Hx & Er & _). destruct fuel as [|fuel]; [cbn [length] in Hf; lia|]. cbn [delete_scan]. rewrite Ex. cbn [mbind option_bind]. rewrite Hx. cbn [orb]. destruct (Z.leb_spec num k) as [Hn|Hn].
    + replace (Z.to_nat (num - k)) with O by lia. cbn [take sz]. change (zlen (@nil zent)) with 0. do 2 f_equal; lia.
    + rewrite Er. cbn [mbind option_bind]. replace (Z.to_nat (num - k)) with (S (Z.to_nat (num - (k + 1)))) by lia. cbn [take sz]. replace (10 + sz p + ent_len e) with (10 + sz (p ++ [e])) by (rewrite sz_snoc; lia). rewrite IH; [|by rewrite <- app_assoc|cbn [length] in Hf; lia|lia]. rewrite sz_snoc, zlen_cons. do 2 f_equal; lia.
Qed.
Lemma tail_last p : tail_pos p = sz p - last_len 0 p.
Proof. destruct p as [|e p _] using rev_ind; [done|]. rewrite tail_pos_snoc, last_len_snoc, sz_snoc. lia. Qed.
Lemma len_ok_decr n p d q q' : len_ok n (p ++ d ++ q) -> zlen q' = zlen q -> len_ok (if n <? UINT16_MAX then u16 (n + - zlen d) else n) (p ++ q').
Proof.
  intros Hn Hq. pose proof (zlen_nonneg p). pose proof (zlen_nonneg d). pose proof (zlen_nonneg q). unfold len_ok in *. rewrite zlen_app, Hq. rewrite !zlen_app in *. destruct Hn as [[-> Hn]| ->]; [|right; done]. rewrite (proj2 (Z.ltb_lt _ _) Hn). unfold UINT16_MAX in *. rewrite wrapu_small by lia. lia.
Qed.
(** Closing the gap of the deleted entries [d] before the entry [nxt]: a block
    that still ends with what is left over. *)
Lemma close_gap n p d nxt rest : d <> [] -> chain_ok 0 (p ++ d ++ nxt :: rest) -> 15 + sz (p ++ d ++ nxt :: rest) < 2 ^ 32 ->
  let v := last_len 0 p in let nd := prevlen_size v - z_ps nxt in let es := p ++ d ++ nxt :: rest in let t := 11 + sz es in let q := 10 + sz p + sz d in let nxt' := mk_zent (prevlen_size v) (z_body nxt) in
  exists zl1 zl2 zl3 te b left, zipStorePrevEntryLength be (hdr t (10 + tail_pos es) n ++ layout 0 es ++ [ZIP_END]) (q - nd) v = Some (zl1, prevlen_size v) /\
    ZIPLIST_TAIL_OFFSET be zl1 = Some (10 + tail_pos es) /\ set_tail be zl1 (10 + tail_pos es - sz d) = Some zl2 /\ zipEntry be zl2 (q - nd) = Some te /\ zl2.[q - nd + headersize te + len te] = Some b /\
    (if negb (b =? ZIP_END) then tail ← ZIPLIST_TAIL_OFFSET be zl2; set_tail be zl2 (tail + nd) else Some zl2) = Some zl3 /\ ZIPLIST_BYTES be zl3 = Some t /\
    memmove zl3 (10 + sz p) (q - nd) (t - (q - nd) - 1) = Some (hdr t (10 + sz p + tail_pos (nxt' :: rest)) n ++ (layout 0 p ++ ent_bytes v nxt' ++ layout (ent_len nxt) rest) ++ left) /\
    1 <= zlen left /\ ent_ok v nxt' /\ ent_len nxt' = ent_len nxt + nd /\ -4 <= nd <= 4.
Proof.
  intros Hd Hc Hlen v nd es t q nxt'. apply chain_ok_app in Hc as [Hp Hc]. apply chain_ok_app in Hc as [Hdc [Hn Hrest]]. fold v in Hdc, Hn. set (vd := last_len v d) in *.
  pose proof (sz_pos _ _ Hp). pose proof (sz_pos _ _ Hrest). pose proof (zlen_nonneg rest). pose proof (zlen_nonneg p). pose proof (ent_len_pos _ _ Hn). assert (Hv : 0 <= v < 2 ^ 32) by (by apply (chain_last 0 p)). destruct (prev_field_size v Hv) as [Hpf Hpc].
  pose proof (size_cases _ _ Hn) as Hz. assert (Hl' : ent_len nxt' = ent_len nxt + nd) by (unfold ent_len, nxt', nd; cbn [z_ps z_body]; lia).
  assert (Hd6 : 2 <= sz d /\ 1 <= sz d - nd).
  { destruct d as [|x d]; [done|]. destruct Hdc as [Hx Hdc]. cbn [sz]. pose proof (sz_pos _ _ Hdc). pose proof (zlen_nonneg d). pose proof (ent_len_pos _ _ Hx). split; [lia|]. destruct Hx as ([[Hx1 Hx2]|[Hx1 _]] & Hxb & _); unfold nd; [|unfold ent_len in *; pose proof (body_pos _ Hxb); lia]. unfold prevlen_size, ZIP_BIG_PREVLEN. rewrite (proj2 (Z.ltb_lt v 254)) by lia. lia. }
  rewrite !sz_app in Hlen. cbn [sz] in Hlen. assert (Et : t = 11 + sz p + sz d + ent_len nxt + sz rest) by (unfold t, es; rewrite !sz_app; cbn [sz]; lia).
  assert (Hnx : ent_ok v nxt') by (split; [by apply fits_size|]; split; [apply Hn|lia]).
  set (P := layout 0 p) in *. pose proof (layout_len _ _ Hp) as Elp. fold P in Elp. set (D := layout v d). pose proof (layout_len _ _ Hdc) as EDl. fold D in EDl. set (f := prev_field (z_ps nxt) vd). assert (Hf : zlen f = z_ps nxt) by (apply prev_field_len, Hn). set (R := layout (ent_len nxt) rest). assert (HR : zlen R = sz rest) by (by apply layout_len).
  destruct (split_at (D ++ f) (sz d - nd)) as (D2 & F & EDF & HD2 & HF); [rewrite zlen_app; unfold nd; lia|]. rewrite zlen_app, Hf, EDl in HF. set (o := 10 + tail_pos es).
  assert (Ho : o = 10 + sz p + sz d + tail_pos (nxt :: rest)) by (unfold o, es; rewrite (app_assoc p d), tail_pos_app, sz_app; lia). assert (Htr : 0 <= tail_pos (nxt :: rest) <= ent_len nxt + sz rest) by (apply (tail_pos_nonneg vd (nxt :: rest)); by split).
  assert (Htail : tail_pos (nxt' :: rest) = tail_pos (nxt :: rest) + match rest with [] => 0 | _ => nd end) by (destruct rest; [done|rewrite !tail_pos_cons; lia]). assert (Hnd : -4 <= nd <= 4) by (unfold nd; lia).
  assert (Htp' : 0 <= tail_pos (nxt' :: rest) <= ent_len nxt' + sz rest) by (destruct rest as [|y rest']; [change (tail_pos [nxt']) with 0; pose proof (ent_len_pos _ _ Hnx); cbn [sz]; lia|rewrite tail_pos_cons; pose proof (tail_pos_nonneg _ _ Hrest); pose proof (ent_len_pos _ _ Hnx); lia]).
  set (X := P ++ D2). assert (HX : zlen X = sz p + sz d - nd) by (unfold X; rewrite zlen_app; lia). assert (Eq : q - nd = 10 + zlen X) by (unfold q; lia). rewrite Eq.
  assert (Elay : hdr t o n ++ layout 0 es ++ [ZIP_END] = (hdr t o n ++ X) ++ F ++ body_bytes (z_body nxt) ++ R ++ [ZIP_END]) by (unfold es; rewrite layout_app; fold v; fold P; rewrite layout_app; fold vd; fold D; cbn [layout]; fold R; unfold ent_bytes; fold f; unfold X; list_simplifier; rewrite (app_assoc D f), EDF; by list_simplifier).
  rewrite Elay, (store_prev (hdr t o n ++ X)) by (rewrite ?zlen_app, ?zlen_hdr; unfold nd in *; lia). set (zl1 := (hdr t o n ++ X) ++ prev_field (prevlen_size v) v ++ body_bytes (z_body nxt) ++ R ++ [ZIP_END]).
  assert (Ezl1 : zl1 = hdr t o n ++ X ++ ent_bytes v nxt' ++ R ++ [ZIP_END]) by (unfold zl1, ent_bytes, nxt'; cbn [z_ps z_body]; by list_simplifier).
  pose proof (move_tail t o n X (- sz d) v nxt' (ent_len nxt) nd rest (10 + sz p + tail_pos (nxt' :: rest)) Hnx Hrest ltac:(unfold in_u; lia) ltac:(unfold in_u; lia) ltac:(unfold in_u; lia) ltac:(lia)) as Emt. cbv zeta in Emt. fold R in Emt. rewrite <- Ezl1 in Emt.
  assert (Eg : ZIPLIST_TAIL_OFFSET be zl1 = Some o) by (rewrite Ezl1; apply get_tail; unfold in_u; lia). rewrite Eg in Emt. cbn [mbind option_bind] in Emt. replace (o + - sz d) with (o - sz d) in Emt by lia.
  destruct (set_tail be zl1 (o - sz d)) as [zl2|] eqn:E2; [|done]. cbn [mbind option_bind] in Emt. destruct (zipEntry be zl2 (10 + zlen X)) as [te|] eqn:E3; [|done]. cbn [mbind option_bind] in Emt. destruct (zl2.[10 + zlen X + headersize te + len te]) as [b|] eqn:E4; [|done]. cbn [mbind option_bind] in Emt.
  set (zl3 := hdr t (10 + sz p + tail_pos (nxt' :: rest)) n ++ X ++ ent_bytes v nxt' ++ R ++ [ZIP_END]) in *. set (T := ent_bytes v nxt' ++ R). assert (HT : zlen T = ent_len nxt' + sz rest) by (unfold T; rewrite zlen_app, ent_bytes_len by apply Hnx; lia). set (w := 10 + sz p + tail_pos (nxt' :: rest)) in *.
  destruct (split_at (D2 ++ T) (zlen T)) as (old & left & EL & Hold & Hleft); [rewrite zlen_app; pose proof (zlen_nonneg T); pose proof (zlen_nonneg D2); lia|]. rewrite zlen_app in Hleft.
  exists zl1, zl2, zl3, te, b, (left ++ [ZIP_END]). split; [done|]. split; [done|]. split; [done|]. split; [done|]. split; [done|]. split; [exact Emt|]. split; [unfold zl3; apply get_bytes; unfold in_u; lia|]. split; [|split; [rewrite zlen_app, zlen_cons, zlen_nil; pose proof (zlen_nonneg left); lia|split; [done|]; by split]].
  apply (memmove_app (hdr t w n ++ X) T [ZIP_END]); [unfold zl3, T; by list_simplifier|rewrite zlen_app, zlen_hdr; lia|lia|].
  replace zl3 with ((hdr t w n ++ P) ++ old ++ left ++ [ZIP_END]) by (unfold zl3, X; fold T; list_simplifier; rewrite (app_assoc old), <- EL; unfold T; by list_simplifier). replace (hdr t w n ++ (P ++ T) ++ left ++ [ZIP_END]) with ((hdr t w n ++ P) ++ T ++ left ++ [ZIP_END]) by (by list_simplifier). apply store_app; [rewrite zlen_app, zlen_hdr; lia|lia].
Qed.
Lemma delete_tail n p d : chain_ok 0 (p ++ d) -> 11 + sz (p ++ d) < 2 ^ 32 ->
  exists zl1, set_tail be (hdr (11 + sz (p ++ d)) (10 + tail_pos (p ++ d)) n ++ layout 0 (p ++ d) ++ [ZIP_END]) (10 + sz p - last_len 0 p) = Some zl1 /\
    ZIPLIST_BYTES be zl1 = Some (11 + sz (p ++ d)) /\ ziplistResize be junk zl1 (11 + sz (p ++ d) - sz d + 0) = Some (hdr (11 + sz p) (10 + tail_pos p) n ++ layout 0 p ++ [ZIP_END]).
Proof.
  intros Hc Hlen. rewrite layout_app. apply chain_ok_app in Hc as [Hp Hdc]. pose proof (sz_pos _ _ Hp). pose proof (sz_pos _ _ Hdc). pose proof (zlen_nonneg p). pose proof (zlen_nonneg d). pose proof (tail_pos_nonneg _ _ Hp). rewrite sz_app in *. replace (10 + sz p - last_len 0 p) with (10 + tail_pos p) by (rewrite tail_last; lia).
  rewrite put_tail by (unfold in_u; lia). eexists. split; [done|]. split; [apply get_bytes; unfold in_u; lia|]. pose proof (layout_len _ _ Hp) as Elp. rewrite <- app_assoc. replace (11 + (sz p + sz d) - sz d + 0) with (11 + zlen (layout 0 p)) by lia. rewrite <- Elp. apply resize_shrink; [rewrite zlen_app, zlen_cons; pose proof (zlen_nonneg (layout (last_len 0 p) d)); pose proof (zlen_nonneg (@nil Z)); lia|lia].
Qed.
(** The entries [d] leave the block. *)
Definition removed (zl : list Z) (p d q : list zent) (zl' : list Z) : Prop := exists q', zl_of zl' (p ++ q') /\ map z_body q' = map z_body q /\ sz q' <= sz q + 4 * zlen q.
Lemma delete_range zl p e r d q num : zl_of zl (p ++ e :: r) -> e :: r = d ++ q -> d <> [] -> delete_scan (length zl) zl (10 + sz p) num 0 = Some (10 + sz p + sz d, zlen d) -> 15 + sz (p ++ d ++ q) + 4 * zlen q < 2 ^ 32 ->
  exists zl', ziplistDelete_at be junk zl (10 + sz p) num = Some zl' /\ removed zl p d q zl'.
Proof.
  intros Hz Er Hd Escan Hlen. destruct (zl_at zl p e r Hz) as (A & C & EA & HA & He). set (v := last_len 0 p) in *. pose proof (zip_entry (be:=be) A C v e He) as Efirst. rewrite <- EA, HA in Efirst. rewrite Er in Hz. pose proof Hz as (n & Ezl & Hc & Hlen0 & Hn). clear EA HA. 
  pose proof (proj1 (chain_ok_app _ _ _) Hc) as [Hp Hc2]. pose proof (proj1 (chain_ok_app _ _ _) Hc2) as [Hdc Hqc]. fold v in Hc2, Hdc, Hqc. pose proof (sz_pos _ _ Hp). pose proof (sz_pos _ _ Hdc). pose proof (sz_pos _ _ Hqc). pose proof (zlen_nonneg p). pose proof (zlen_nonneg d). pose proof (zlen_nonneg q). assert (1 <= zlen d) by (destruct d; [done|]; rewrite zlen_cons; pose proof (zlen_nonneg d); lia).
  assert (Hesz : sz (p ++ d ++ q) = sz p + sz d + sz q) by (rewrite !sz_app; lia). pose proof (len_ok_u16 _ _ Hn) as Hn16.
  unfold ziplistDelete_at. rewrite Efirst. cbn [mbind option_bind]. rewrite Escan. cbn [mbind option_bind prevrawlen]. replace (10 + sz p + sz d - (10 + sz p)) with (sz d) by lia. rewrite wrapu_small by lia. rewrite Z.gtb_ltb, (proj2 (Z.ltb_lt 0 (sz d))) by lia.
  replace (10 + sz p + sz d) with (10 + sz (p ++ d)) by (rewrite sz_app; lia). destruct q as [|nxt rest].
  - rewrite app_nil_r in *. rewrite (zl_at_end zl (p ++ d) Hz). cbn [mbind option_bind]. change (negb (ZIP_END =? ZIP_END)) with false. cbv iota. destruct (delete_tail n p d Hc Hlen0) as (zl1 & E1 & E2 & E3). fold v in E1. rewrite Ezl, E1. cbn [mbind option_bind]. rewrite E2. cbn [mbind option_bind]. rewrite E3. cbn [mbind option_bind]. rewrite incr_len by done. cbn [mbind option_bind]. change (negb (0 =? 0)) with false. cbv iota.
    eexists. split; [done|]. exists []. rewrite app_nil_r. split; [|done]. eexists. split; [done|]. split; [done|]. split; [lia|]. pose proof (len_ok_decr n p d [] []) as Hl. rewrite !app_nil_r in Hl. by apply Hl.
  - rewrite (app_assoc p) in Hz. destruct (zl_head zl (p ++ d) nxt rest Hz) as (x & Ex & Hx & _). rewrite Ex. cbn [mbind option_bind]. rewrite Hx. cbn [negb]. destruct (zl_at zl (p ++ d) nxt rest Hz) as (A2 & C2 & EA2 & HA2 & Hnx). pose proof (decode_prevsize A2 C2 _ nxt Hnx) as Edp. rewrite <- EA2, HA2 in Edp. unfold zipPrevLenByteDiff. rewrite Edp. cbn [mbind option_bind]. 
    destruct (close_gap n p d nxt rest Hd Hc ltac:(lia)) as (zl1 & zl2 & zl3 & te & b & left & E1 & E2 & E3 & E4 & E5 & E6 & E7 & E8 & Hleft & Hok & Hl & Hnd). fold v in E1, E2, E3, E4, E5, E6, E7, E8, Hok, Hl, Hnd. set (nd := prevlen_size v - z_ps nxt) in *. set (nxt' := mk_zent (prevlen_size v) (z_body nxt)) in *. replace (10 + sz p + sz d) with (10 + sz (p ++ d)) in E1, E4, E5, E8 by (rewrite sz_app; lia).
    rewrite Ezl, E1. cbn [mbind option_bind]. rewrite E2. cbn [mbind option_bind]. rewrite E3. cbn [mbind option_bind]. rewrite E4. cbn [mbind option_bind]. rewrite E5. cbn [mbind option_bind]. cbn [mbind option_bind] in E6. rewrite E6. cbn [mbind option_bind]. rewrite E7. cbn [mbind option_bind]. rewrite E8. cbn [mbind option_bind].
    destruct Hqc as [_ Hrest]. pose proof (layout_len _ _ Hp) as Elp. pose proof (layout_len _ _ Hrest) as Elr. pose proof (ent_len_pos _ _ Hok). pose proof (zlen_nonneg rest). rewrite zlen_cons in *. cbn [sz] in *. rewrite get_bytes by (unfold in_u; lia). cbn [mbind option_bind].
    set (c := layout 0 p ++ ent_bytes v nxt' ++ layout (ent_len nxt) rest) in *. assert (Hcl : zlen c = sz p + ent_len nxt' + sz rest) by (unfold c; rewrite !zlen_app, ent_bytes_len by apply Hok; lia). replace (11 + sz (p ++ d ++ nxt :: rest) - sz d + nd) with (11 + zlen c) by lia. rewrite resize_shrink by lia. cbn [mbind option_bind]. rewrite incr_len by done. cbn [mbind option_bind].
    set (n' := if n <? UINT16_MAX then u16 (n + - zlen d) else n). destruct (settle (be:=be) (junk:=junk) (11 + zlen c) (10 + sz p + tail_pos (nxt' :: rest)) n' (layout 0 p) v nxt' (ent_len nxt) rest Hok Hrest) as (q' & t' & o' & Es & Hq1 & Hq2 & Hq3 & Hq4 & Hq5); [cbn [sz]; lia|lia|lia|]. replace (ent_len nxt' - ent_len nxt) with nd in Es by lia. rewrite Elp in Es. assert (Ec : c ++ [ZIP_END] = layout 0 p ++ ent_bytes v nxt' ++ layout (ent_len nxt) rest ++ [ZIP_END]) by (unfold c; by list_simplifier). rewrite Ec. fold n'. rewrite Es.
    eexists. split; [done|]. exists q'. split; [|split; [by rewrite Hq2|cbn [sz] in Hq5; rewrite zlen_cons; cbn [sz]; lia]]. exists n'. split; [rewrite layout_app; fold v; rewrite sz_app; rewrite <- app_assoc; f_equal; f_equal; [lia|]; destruct q' as [|y q']; [done|]; rewrite tail_pos_app; lia|]. split; [apply chain_ok_app; by split|]. split; [rewrite sz_app; cbn [sz] in Hq5; lia|]. apply (len_ok_decr n p d (nxt :: rest)); [done|]. apply map_body_len. by rewrite Hq2.
Qed.
Lemma zl_delete zl p e r num : zl_of zl (p ++ e :: r) -> 0 <= num -> 15 + sz (p ++ e :: r) + 4 * zlen r < 2 ^ 32 ->
  exists zl', ziplistDelete_at be junk zl (10 + sz p) num = Some zl' /\ removed zl p (take (Z.to_nat num) (e :: r)) (drop (Z.to_nat num) (e :: r)) zl'.
Proof.
  intros Hz Hnum Hlen. pose proof (zl_len _ _ Hz) as Hzl. pose proof Hz as (n & Ezl & Hc & Hlen0 & Hn). pose proof (sz_pos _ _ Hc) as Hpos. assert (Escan : delete_scan (length zl) zl (10 + sz p) num 0 = Some (10 + sz p + sz (take (Z.to_nat num) (e :: r)), zlen (take (Z.to_nat num) (e :: r)))).
  { rewrite (delete_scan_spec zl num (e :: r) p) by (done || unfold zlen in *; rewrite ?length_app in *; cbn [length] in *; lia). by rewrite Z.sub_0_r. }
  destruct (decide (num = 0)) as [->|Hne].
  - destruct (zl_at zl p e r Hz) as (A & C & EA & HA & He). pose proof (zip_entry (be:=be) A C _ e He) as Efirst. rewrite <- EA, HA in Efirst. unfold ziplistDelete_at. rewrite Efirst. cbn [mbind option_bind]. rewrite Escan. cbn [mbind option_bind]. change (Z.to_nat 0) with O. cbn [take sz]. rewrite Z.add_0_r, Z.sub_diag. exists zl. split; [done|]. exists (e :: r). split; [done|]. split; [done|]. cbn [drop]. pose proof (zlen_nonneg (e :: r)). lia.
  - destruct (delete_range zl p e r (take (Z.to_nat num) (e :: r)) (drop (Z.to_nat num) (e :: r)) num Hz) as (zl' & E & Hr); [by rewrite take_drop| |exact Escan| |by exists zl'].
    + destruct (Z.to_nat num) eqn:E; [lia|done].
    + rewrite take_drop. destruct (Z.to_nat num) as [|k] eqn:E; [lia|]. cbn [drop]. assert (zlen (drop k r) <= zlen r) by (unfold zlen; rewrite length_drop; lia). lia.
Qed.
End Block.
