(* ===== verification/ZiplistSpec.v ===== *)
(** * What ziplists compute

    Reading a ziplist (ziplist.c: index, next, previous, get, compare, find,
    length), merging two, and the refinement theorem: every sequence of calls
    behaves like the same sequence on a list of strings. *)
From S2P Require Import Prelude Endian Util Ziplist ZiplistEdit.
#[local] Open Scope cmem_scope.

(** ** The specification *)
Definition strings (es : list zent) : list (list Z) := map (fun e => body_str (z_body e)) es.
Definition value_str (v : zlvalue) : list Z := match v with ZlStr s => s | ZlInt v => dec v end.
(** The place an index stands for: from the end when it is negative. *)
Definition place {A} (l : list A) (i : Z) : option nat :=
  if i <? 0 then if 0 <=? zlen l + i then Some (Z.to_nat (zlen l + i)) else None
  else if i <? zlen l then Some (Z.to_nat i) else None.

Section Block.
  Context {be : bool} {junk : nat -> Z}.

(** ** Reading *)
Lemma zl_new : exists zl, ziplistNew be junk = Some zl /\ zl_of zl [].
Proof.
  unfold ziplistNew. cbv zeta. change (ZIPLIST_HEADER_SIZE + ZIPLIST_END_SIZE) with 11. destruct (realloc_grow junk [] 11 ltac:(done)) as (ext & -> & He & _). cbn [app]. change (zlen (@nil Z)) with 0 in He.
  destruct (split_at ext 4 ltac:(lia)) as (a & x & -> & Ha & Hx). destruct (split_at x 4 ltac:(lia)) as (b & y & -> & Hb & Hy). destruct (split_at y 2 ltac:(lia)) as (c & z & -> & Hc & Hz). unfold set_tail, set32. rewrite !set32_bytes. rewrite !zlen_app in *.
  rewrite store_head by (by rewrite ?zlen_le). cbn [mbind option_bind]. rewrite store_app by (by rewrite ?zlen_le). cbn [mbind option_bind]. unfold set16. replace (native_bytes be 2 0) with (le_bytes 2 0) by (by destruct be). rewrite (app_assoc (le_bytes 4 _)), store_app by (by rewrite ?zlen_app, ?zlen_le). cbn [mbind option_bind].
  rewrite (app_assoc (_ ++ _)). destruct z as [|w z]; [rewrite zlen_nil in *; lia|]. destruct z as [|w2 z]; [|rewrite !zlen_cons in *; pose proof (zlen_nonneg z); lia]. rewrite store1_app by (by rewrite !zlen_app, !zlen_le). eexists. split; [done|]. exists 0. split; [unfold hdr; by list_simplifier|]. split; [done|]. split; [done|]. left. done.
Qed.
Lemma load24 v : s32 (le_val (0 :: le_bytes 3 v)) = s32 (256 * v).
Proof. cbn [le_val]. rewrite le_val_le_bytes. unfold wrapu. change (2 ^ (8 * Z.of_nat 3)) with (2 ^ 24). rewrite Z.add_0_l, <- Z.mul_mod_distr_l by lia. apply (wraps_wrapu 32 (256 * v)). lia. Qed.
Lemma load_integer a c v p : in_s 64 v -> p = zlen a -> zipLoadInteger be (a ++ int_bytes v ++ c) p (int_encoding v) = Some v.
Proof.
  intros Hv ->. unfold zipLoadInteger, memrev16ifbe, memrev32ifbe, memrev64ifbe.
  destruct (int_encoding_cases v Hv) as [(H0 & -> & _)|[(H8 & -> & ->)|[(H16 & -> & ->)|[(H24 & -> & ->)|[(H32 & -> & ->)|(-> & ->)]]]]].
  - small_int v.
  - change (254 =? ZIP_INT_8B) with true. cbv iota. cbn [le_bytes app]. rewrite (load1_app a _ _ (zlen a)) by done. cbn [mbind option_bind]. f_equal. change (v mod 256) with (wrapu 8 v). rewrite wraps_wrapu by lia. apply wraps_small; [done|lia].
  - change (192 =? ZIP_INT_8B) with false. change (192 =? ZIP_INT_16B) with true. cbv iota. rewrite load_app by (by rewrite ?zlen_le). cbn [mbind option_bind]. rewrite (revifbe_val be 2 _ memrev16 memrev16_rev) by apply le_bytes_length. f_equal. apply (wraps_le_val 2); [done|lia].
  - change (240 =? ZIP_INT_8B) with false. change (240 =? ZIP_INT_16B) with false. change (240 =? ZIP_INT_32B) with false. change (240 =? ZIP_INT_24B) with true. cbv iota. rewrite load_app by (by rewrite ?zlen_le). cbn [mbind option_bind]. rewrite (revifbe_val be 4 _ memrev32 memrev32_rev) by done. f_equal.
    rewrite load24. rewrite wraps_small by (unfold in_s in *; lia). rewrite Z.shiftr_div_pow2, Z.mul_comm by lia. by apply Z.div_mul.
  - change (208 =? ZIP_INT_8B) with false. change (208 =? ZIP_INT_16B) with false. change (208 =? ZIP_INT_32B) with true. cbv iota. rewrite load_app by (by rewrite ?zlen_le). cbn [mbind option_bind]. rewrite (revifbe_val be 4 _ memrev32 memrev32_rev) by apply le_bytes_length. f_equal. apply (wraps_le_val 4); [done|lia].
  - change (224 =? ZIP_INT_8B) with false. change (224 =? ZIP_INT_16B) with false. change (224 =? ZIP_INT_32B) with false. change (224 =? ZIP_INT_24B) with false. change (224 =? ZIP_INT_64B) with true. cbv iota. rewrite load_app by (by rewrite ?zlen_le). cbn [mbind option_bind]. rewrite (revifbe_val be 8 _ memrev64 memrev64_rev) by apply le_bytes_length. f_equal. apply (wraps_le_val 8); [done|lia].
Qed.
Lemma enc_is_str b : body_ok b -> ZIP_IS_STR (body_enc b) = match b with BStr _ => true | BInt _ => false end.
Proof.
  destruct b as [s|v]; cbn [body_ok body_enc]; [|apply int_not_str]. intros [_ Hs]. pose proof (zlen_nonneg s). unfold ZIP_IS_STR, ZIP_ENTRY_ENCODING, ZIP_STR_MASK.
  assert (Hx : exists x, default 0 (head (entry_encoding 0 (zlen s))) = x /\ 0 <= x < 192).
  { destruct (entry_encoding_cases (zlen s) ltac:(lia)) as [[Hn ->]|[[Hn ->]|[Hn ->]]]; cbn [head from_option]; unfold id; (eexists; split; [reflexivity|]); [lia| |lia]. assert (0 <= zlen s / 256 < 64) by (split; [apply Z.div_pos; lia|apply Z.div_lt_upper_bound; lia]). lia. }
  destruct Hx as (x & -> & Hx). rewrite (proj2 (Z.ltb_lt x 192)) by lia. assert (0 <= x / 64 < 3) by (split; [apply Z.div_pos; lia|apply Z.div_lt_upper_bound; lia]). rewrite (proj1 (land_byte x ltac:(lia))), (proj1 (land_byte (64 * (x / 64)) ltac:(lia))). rewrite (Z.mul_comm 64 (x / 64)), Z.div_mul by lia. apply Z.ltb_lt. lia.
Qed.
Lemma zipTry_dec v : in_s 64 v -> zipTryEncoding (dec v) = Some (v, int_encoding v).
Proof.
  intros Hv. unfold zipTryEncoding. pose proof (dec_len20 v Hv). rewrite Z.geb_leb, (proj2 (Z.leb_gt _ _)), (proj2 (Z.eqb_neq _ _)) by lia. cbn [orb]. rewrite (proj2 (string2ll_iff (dec v) v)) by done. done.
Qed.
Section Entry.
  Context (zl : list Z) (p : list zent) (e : zent) (r : list zent) (Hz : zl_of zl (p ++ e :: r)).
#[local] Abbreviation pos := (10 + sz p).
#[local] Abbreviation body := (z_body e).
#[local] Abbreviation data_pos := (pos + (z_ps e + zlen (body_head body))).
Lemma zl_entry : exists x, zl.[pos] = Some x /\ (x =? ZIP_END) = false /\
  zipEntry be zl pos = Some (mk_zlentry (z_ps e) (last_len 0 p) (zlen (body_head body)) (zlen (body_data body)) (z_ps e + zlen (body_head body)) (body_enc body) pos).
Proof.
  destruct (zl_at zl p e r Hz) as (A & C & -> & <- & He). destruct (at_entry A C _ e He) as (x & Ex & Hx & _). exists x. split; [done|]. split; [done|by apply zip_entry].
Qed.
Lemma zl_body_ok : body_ok body.
Proof. destruct (zl_at zl p e r Hz) as (A & C & _ & _ & He). apply He. Qed.
Lemma zl_str s : body = BStr s -> load zl data_pos (zlen s) = Some s.
Proof.
  intros Hb. destruct (zl_at zl p e r Hz) as (A & C & -> & <- & He). unfold ent_bytes, body_bytes. rewrite Hb. cbn [body_data body_head].
  replace (A ++ (prev_field (z_ps e) (last_len 0 p) ++ entry_encoding 0 (zlen s) ++ s) ++ C) with ((A ++ prev_field (z_ps e) (last_len 0 p) ++ entry_encoding 0 (zlen s)) ++ s ++ C) by (by list_simplifier). apply load_app; [|done]. rewrite !zlen_app, prev_field_len by apply He. lia.
Qed.
Lemma zl_int v : body = BInt v -> zipLoadInteger be zl data_pos (body_enc body) = Some v.
Proof.
  intros Hb. pose proof zl_body_ok as Hok. destruct (zl_at zl p e r Hz) as (A & C & -> & <- & He). unfold ent_bytes, body_bytes. rewrite Hb in *. cbn [body_data body_head body_enc].
  replace (A ++ (prev_field (z_ps e) (last_len 0 p) ++ [int_encoding v] ++ int_bytes v) ++ C) with ((A ++ prev_field (z_ps e) (last_len 0 p) ++ [int_encoding v]) ++ int_bytes v ++ C) by (by list_simplifier). apply load_integer; [done|]. rewrite !zlen_app, prev_field_len by apply He. lia.
Qed.
Lemma zl_get : exists v, ziplistGet be zl pos = Some (Some v) /\ value_str v = body_str body /\ forall n, v = ZlInt n -> in_s 64 n.
Proof.
  destruct zl_entry as (x & Ex & Hx & Ee). unfold ziplistGet. rewrite Ex. cbn [mbind option_bind]. rewrite Hx, Ee. cbn [mbind option_bind encoding headersize len]. rewrite (enc_is_str _ zl_body_ok). pose proof zl_str as Hs. pose proof zl_int as Hi. pose proof zl_body_ok as Hok. destruct body as [s|v]; cbn [body_data].
  - rewrite (Hs s eq_refl). by exists (ZlStr s).
  - rewrite (Hi v eq_refl). exists (ZlInt v). split; [done|]. split; [done|]. by intros n [= <-].
Qed.
Lemma zl_compare s : ziplistCompare be zl pos s = Some (bool_decide (body_str body = s)).
Proof.
  destruct zl_entry as (x & Ex & Hx & Ee). unfold ziplistCompare. rewrite Ex. cbn [mbind option_bind]. rewrite Hx, Ee. cbn [mbind option_bind encoding headersize len]. rewrite (enc_is_str _ zl_body_ok). pose proof zl_str as Hs. pose proof zl_int as Hi. pose proof zl_body_ok as Hok. destruct body as [t|v]; cbn [body_data body_str].
  - specialize (Hs t eq_refl). destruct (Z.eqb_spec (zlen t) (zlen s)) as [E|E]; [rewrite <- E, Hs; done|]. rewrite bool_decide_eq_false_2; [done|]. by intros ->.
  - specialize (Hi v eq_refl). destruct (zipTryEncoding s) as [[w en]|] eqn:Et.
    + apply try_encoding in Et as (Hw & -> & _). rewrite Hi. cbn [mbind option_bind]. f_equal. apply eq_true_iff_eq. rewrite Z.eqb_eq, bool_decide_eq_true. split; [by intros ->|by apply dec_inj].
    + rewrite bool_decide_eq_false_2; [done|]. intros <-. by rewrite zipTry_dec in Et.
Qed.
Lemma zl_next : ziplistNext zl pos = Some (match r with [] => None | _ => Some (10 + sz (p ++ [e])) end).
Proof.
  destruct (zl_head (be:=be) zl p e r Hz) as (x & Ex & Hx & Er & _). unfold ziplistNext. rewrite Ex. cbn [mbind option_bind]. rewrite Hx, Er. cbn [mbind option_bind]. replace (pos + ent_len e) with (10 + sz (p ++ [e])) by (rewrite sz_snoc; lia). destruct r as [|e2 r2].
  - rewrite (zl_at_end zl (p ++ [e]) Hz). done.
  - assert (Hz2 : zl_of zl ((p ++ [e]) ++ e2 :: r2)) by (by rewrite <- app_assoc). destruct (zl_head (be:=be) zl _ e2 r2 Hz2) as (y & -> & Hy & _). cbn [mbind option_bind]. by rewrite Hy.
Qed.
End Entry.
Lemma last_len_pos zl p e r : zl_of zl ((p ++ [e]) ++ r) -> 0 < last_len 0 (p ++ [e]).
Proof. intros (n & _ & Hc & _). rewrite last_len_snoc. apply chain_ok_app in Hc as [Hc _]. apply chain_ok_app in Hc as [_ [He _]]. pose proof (ent_len_pos _ _ He). lia. Qed.
Lemma zl_tail zl es : zl_of zl es -> ZIPLIST_TAIL_OFFSET be zl = Some (10 + tail_pos es).
Proof. intros (n & -> & Hc & Hlen & _). apply get_tail. pose proof (tail_pos_nonneg _ _ Hc). unfold in_u. lia. Qed.
Lemma zl_prev zl p r : zl_of zl (p ++ r) -> ziplistPrev be zl (10 + sz p) = Some (match p with [] => None | _ => Some (10 + sz (removelast p)) end).
Proof.
  intros Hz. unfold ziplistPrev. destruct r as [|e r].
  - rewrite app_nil_r in Hz. rewrite (zl_at_end zl p Hz). cbn [mbind option_bind]. change (ZIP_END =? ZIP_END) with true. cbv iota. rewrite (zl_tail zl p Hz). cbn [mbind option_bind]. destruct p as [|x p _] using rev_ind; [change (tail_pos []) with (sz []); by rewrite (zl_at_end zl [] Hz)|]. rewrite tail_pos_snoc, removelast_last. destruct (zl_head (be:=be) zl p x [] Hz) as (y & -> & Hy & _). cbn [mbind option_bind]. rewrite Hy. by destruct p.
  - destruct (zl_head (be:=be) zl p e r Hz) as (x & -> & Hx & _ & Ep). cbn [mbind option_bind]. rewrite Hx. change ZIPLIST_HEADER_SIZE with 10. destruct p as [|y p _] using rev_ind; [done|]. pose proof (last_len_pos zl p y _ Hz). rewrite last_len_snoc in *. assert (0 <= sz p) by (destruct Hz as (? & _ & Hc & _); apply chain_ok_app in Hc as [Hc _]; apply chain_ok_app in Hc as [Hc _]; pose proof (sz_pos _ _ Hc); pose proof (zlen_nonneg p); lia). rewrite sz_snoc in *. rewrite (proj2 (Z.eqb_neq _ _)) by lia. rewrite Ep. cbn [mbind option_bind].
    rewrite Z.gtb_ltb, (proj2 (Z.ltb_lt 0 _)) by lia. rewrite removelast_last. replace (10 + (sz p + ent_len y) - ent_len y) with (10 + sz p) by lia. by destruct p.
Qed.
Lemma index_fwd_spec zl : forall r p fuel i, zl_of zl (p ++ r) -> (length r <= fuel)%nat -> 0 <= i ->
  index_fwd fuel zl (10 + sz p) i = Some (if i <? zlen r then (10 + sz (p ++ take (Z.to_nat i) r), -1) else (10 + sz (p ++ r), i - zlen r)).
Proof.
  induction r as [|e r IH]; intros p fuel i Hz Hf Hi.
  - rewrite app_nil_r in *. change (zlen (@nil zent)) with 0. rewrite (proj2 (Z.ltb_ge _ _)), Z.sub_0_r by lia. destruct fuel; cbn [index_fwd]; rewrite (zl_at_end zl p Hz); done.
  - destruct (zl_head (be:=be) zl p e r Hz) as (x & Ex & Hx & Er & _). destruct fuel as [|fuel]; [cbn [length] in Hf; lia|]. cbn [index_fwd]. rewrite Ex. cbn [mbind option_bind]. rewrite Hx. rewrite zlen_cons. pose proof (zlen_nonneg r). destruct (Z.eqb_spec i 0) as [->|Hne].
    + rewrite (proj2 (Z.ltb_lt _ _)) by lia. change (Z.to_nat 0) with O. cbn [take]. by rewrite app_nil_r.
    + rewrite Er. cbn [mbind option_bind]. replace (10 + sz p + ent_len e) with (10 + sz (p ++ [e])) by (rewrite sz_snoc; lia). rewrite IH; [|by rewrite <- app_assoc|cbn [length] in Hf; lia|lia]. replace (Z.to_nat i) with (S (Z.to_nat (i - 1))) by lia. cbn [take]. rewrite <- !app_assoc. cbn [app]. destruct (Z.ltb_spec (i - 1) (zlen r)), (Z.ltb_spec i (1 + zlen r)); try lia; [done|]. do 2 f_equal. lia.
Qed.
Lemma index_back_spec zl : forall p e r fuel i, zl_of zl (p ++ e :: r) -> (length p <= fuel)%nat -> 0 <= i ->
  index_back be fuel zl (10 + sz p) (last_len 0 p) i = Some (if i <? zlen p then (10 + sz (take (Z.to_nat (zlen p - i)) p), -1) else (10, i - zlen p)).
Proof.
  induction p as [|y p IH] using rev_ind; intros e r fuel i Hz Hf Hi.
  - change (zlen (@nil zent)) with 0. rewrite (proj2 (Z.ltb_ge _ _)), Z.sub_0_r by lia. by destruct fuel.
  - pose proof (last_len_pos zl p y _ Hz) as Hl. rewrite last_len_snoc in *. pose proof (zlen_nonneg p). assert (Hs : zlen (p ++ [y]) = zlen p + 1) by (rewrite zlen_app; done). rewrite Hs. rewrite length_app in Hf. cbn [length] in Hf. destruct fuel as [|fuel]; [lia|]. cbn [index_back]. rewrite Z.gtb_ltb, (proj2 (Z.ltb_lt 0 _)) by lia. rewrite sz_snoc. destruct (Z.eqb_spec i 0) as [->|Hne].
    + rewrite (proj2 (Z.ltb_lt _ _)) by lia. rewrite Z.sub_0_r, take_ge by (unfold zlen in *; lia). rewrite sz_snoc. done.
    + replace (10 + (sz p + ent_len y) - ent_len y) with (10 + sz p) by lia. rewrite <- app_assoc in Hz. destruct (zl_head (be:=be) zl p y _ Hz) as (x & _ & _ & _ & ->). cbn [mbind option_bind]. rewrite (IH y (e :: r)) by (done || lia). destruct (Z.ltb_spec (i - 1) (zlen p)), (Z.ltb_spec i (zlen p + 1)); try lia; [|do 2 f_equal; lia]. rewrite (take_app_le p) by (unfold zlen in *; lia). do 5 f_equal. lia.
Qed.
Lemma zl_size zl es : zl_of zl es -> (length es <= length zl)%nat.
Proof. intros Hz. pose proof (zl_len _ _ Hz). destruct Hz as (n & _ & Hc & _). pose proof (sz_pos _ _ Hc). unfold zlen in *. lia. Qed.
Lemma take_cons_split {A} (l : list A) k x : l !! k = Some x -> l = take k l ++ x :: drop (S k) l.
Proof. intros E. by rewrite take_drop_middle. Qed.
Lemma zl_index zl es i : zl_of zl es -> - 2 ^ 31 < i -> ziplistIndex be zl i = Some ((fun k => 10 + sz (take k es)) <$> place es i).
Proof.
  intros Hz Hi. unfold ziplistIndex, place. pose proof (zlen_nonneg es). pose proof (zl_size _ _ Hz) as Hsz. rewrite (proj2 (Z.eqb_neq _ _)) by lia.
  assert (Hat : forall k, (k < length es)%nat -> exists b, zl.[10 + sz (take k es)] = Some b /\ (b =? ZIP_END) = false).
  { intros k Hk. destruct (lookup_lt_is_Some_2 es k Hk) as [x Ex]. rewrite (take_cons_split es k x Ex) in Hz. destruct (zl_head (be:=be) zl _ x _ Hz) as (b & Eb & Hb & _). by exists b. }
  destruct (Z.ltb_spec i 0) as [Hn|Hn].
  - rewrite (zl_tail zl es Hz). cbn [mbind option_bind]. destruct es as [|x es _] using rev_ind.
    + change (tail_pos []) with (sz []). rewrite (zl_at_end zl [] Hz). cbn [mbind option_bind]. change (negb (ZIP_END =? ZIP_END)) with false. cbv iota. cbn [mbind option_bind]. rewrite (zl_at_end zl [] Hz). change (zlen (@nil zent)) with 0. by rewrite (proj2 (Z.leb_gt _ _)) by lia.
    + rewrite tail_pos_snoc. destruct (zl_head (be:=be) zl es x [] Hz) as (b & -> & Hb & _ & Ep). cbn [mbind option_bind]. rewrite Hb. cbn [negb]. rewrite Ep. cbn [mbind option_bind]. rewrite length_app in Hsz. rewrite (index_back_spec zl es x [] _ _ Hz) by (cbn [length] in Hsz; lia). rewrite zlen_app in *. change (zlen [x]) with 1 in *. pose proof (zlen_nonneg es).
      destruct (Z.ltb_spec (- i - 1) (zlen es)) as [Hb1|Hb1]; cbn [mbind option_bind].
      * destruct (Hat (Z.to_nat (zlen es + 1 + i))) as (b' & Eb & Hb'); [rewrite length_app; unfold zlen in *; cbn [length]; lia|]. rewrite (take_app_le es) in Eb by (unfold zlen in *; lia). replace (zlen es - (- i - 1)) with (zlen es + 1 + i) by lia. rewrite Eb. cbn [mbind option_bind]. rewrite Hb'. cbn [orb]. change (-1 >? 0) with false. cbv iota. rewrite (proj2 (Z.leb_le 0 _)) by lia. cbn [fmap option_fmap option_map]. by rewrite (take_app_le es) by (unfold zlen in *; lia).
      * destruct (Hat O) as (b' & Eb & Hb'); [rewrite length_app; cbn [length]; lia|]. rewrite take_0 in Eb; change (10 + sz []) with 10 in Eb. rewrite Eb. cbn [mbind option_bind]. rewrite Hb'. cbn [orb]. rewrite Z.gtb_ltb. destruct (Z.ltb_spec 0 (- i - 1 - zlen es)), (Z.leb_spec 0 (zlen es + 1 + i)); try lia; [done|]. cbn [fmap option_fmap option_map]. by replace (Z.to_nat (zlen es + 1 + i)) with O by lia.
  - pose proof (index_fwd_spec zl es [] (length zl) i Hz Hsz Hn) as Ei. cbn [sz app] in Ei. change (10 + 0) with ZIPLIST_HEADER_SIZE in Ei. rewrite Ei. destruct (Z.ltb_spec i (zlen es)); cbn [mbind option_bind].
    + destruct (Hat (Z.to_nat i)) as (b & -> & Hb); [unfold zlen in *; lia|]. cbn [mbind option_bind]. rewrite Hb. done.
    + rewrite (zl_at_end zl es Hz). done.
Qed.
(** ** Searching, with entries skipped between the comparisons *)
Fixpoint find_ix (skip cnt : nat) (l : list (list Z)) (s : list Z) : option nat :=
  match l with
  | [] => None
  | x :: l => match cnt with
              | O => if bool_decide (x = s) then Some O else S <$> find_ix skip skip l s
              | S cnt => S <$> find_ix skip cnt l s
              end
  end.
(** The places that are compared. *)
Definition find_turn (skip cnt j : nat) : Prop := exists m, j = (cnt + m * S skip)%nat.
Lemma find_turn_0 skip j : find_turn skip 0 (S j) <-> find_turn skip skip j.
Proof. unfold find_turn. split; [intros [[|m] E]; [lia|exists m; lia]|intros [m E]; exists (S m); lia]. Qed.
Lemma find_turn_S skip cnt j : find_turn skip (S cnt) (S j) <-> find_turn skip cnt j.
Proof. unfold find_turn. split; intros [m E]; exists m; lia. Qed.
Lemma find_ix_spec skip s : forall l cnt, match find_ix skip cnt l s with
  | Some k => find_turn skip cnt k /\ l !! k = Some s /\ forall j, (j < k)%nat -> find_turn skip cnt j -> l !! j <> Some s
  | None => forall j, find_turn skip cnt j -> l !! j <> Some s end.
Proof.
  induction l as [|x l IH]; intros cnt; [done|]. cbn [find_ix]. destruct cnt as [|cnt].
  - destruct (bool_decide_reflect (x = s)) as [->|Hne]; [split; [exists O; lia|]; split; [done|]; lia|]. specialize (IH skip). destruct (find_ix skip skip l s) as [k|]; cbn [fmap option_fmap option_map].
    + destruct IH as (H1 & H2 & H3). split; [by apply find_turn_0|]. split; [done|]. intros [|j] Hj Ht; [cbn; congruence|]. apply H3; [lia|by apply find_turn_0].
    + intros [|j] Ht; [cbn; congruence|]. by apply IH, find_turn_0.
  - specialize (IH cnt). destruct (find_ix skip cnt l s) as [k|]; cbn [fmap option_fmap option_map].
    + destruct IH as (H1 & H2 & H3). split; [by apply find_turn_S|]. split; [done|]. intros [|j] Hj Ht; [destruct Ht; lia|]. apply H3; [lia|by apply find_turn_S].
    + intros [|j] Ht; [destruct Ht; lia|]. by apply IH, find_turn_S.
Qed.
(** What the search remembers of the string it looks for. *)
Definition known (s : list Z) (venc vll : Z) : Prop := match zipTryEncoding s with Some (v, e) => venc = e /\ vll = v | None => venc = UCHAR_MAX end.
Lemma int_encoding_range v : in_s 64 v -> 0 < int_encoding v < UCHAR_MAX.
Proof. intros Hv. unfold UCHAR_MAX. destruct (int_encoding_cases v Hv) as [(H0 & -> & _)|[(_ & -> & _)|[(_ & -> & _)|[(_ & -> & _)|[(_ & -> & _)|(-> & _)]]]]]; lia. Qed.
Lemma know s venc vll : venc = 0 \/ known s venc vll -> exists venc' vll', (if venc =? 0 then match zipTryEncoding s with Some (v, e) => (e, v) | None => (UCHAR_MAX, vll) end else (venc, vll)) = (venc', vll') /\ known s venc' vll' /\ venc' <> 0.
Proof.
  unfold known. intros H. destruct (Z.eqb_spec venc 0) as [->|Hne].
  - destruct (zipTryEncoding s) as [[v e]|] eqn:E; eexists _, _; (split; [done|]); (split; [done|]); [|done]. apply try_encoding in E as (Hv & _ & ->). pose proof (int_encoding_range v Hv). lia.
  - destruct H as [?|H]; [done|]. by exists venc, vll.
Qed.
Lemma known_same zl p e r s v venc vll : zl_of zl (p ++ e :: r) -> z_body e = BInt v -> known s venc vll ->
  (if negb (venc =? UCHAR_MAX) then ll ← zipLoadInteger be zl (10 + sz p + (z_ps e + zlen (body_head (z_body e)))) (body_enc (z_body e)); Some (ll =? vll) else Some false) = Some (bool_decide (body_str (z_body e) = s)).
Proof.
  intros Hz Hb Hk. rewrite (zl_int zl p e r Hz v Hb). pose proof (zl_body_ok zl p e r Hz) as Hok. rewrite Hb in *. cbn [body_str body_ok mbind option_bind] in *. unfold known in Hk. destruct (zipTryEncoding s) as [[w en]|] eqn:Et.
  - destruct Hk as [-> ->]. apply try_encoding in Et as (Hw & -> & ->). pose proof (int_encoding_range w Hw). rewrite (proj2 (Z.eqb_neq _ _)) by lia. cbn [negb]. f_equal. apply eq_true_iff_eq. rewrite Z.eqb_eq, bool_decide_eq_true. split; [by intros ->|by apply dec_inj].
  - rewrite Hk. rewrite bool_decide_eq_false_2; [done|]. intros <-. by rewrite zipTry_dec in Et.
Qed.
Lemma find_loop_spec zl s skip : forall r p fuel cnt venc vll, zl_of zl (p ++ r) -> (length r < fuel)%nat -> venc = 0 \/ known s venc vll ->
  find_loop be fuel zl (10 + sz p) s (Z.of_nat skip) (Z.of_nat cnt) venc vll = Some ((fun k => 10 + sz (p ++ take k r)) <$> find_ix skip cnt (strings r) s).
Proof.
  induction r as [|e r IH]; intros p fuel cnt venc vll Hz Hf Hk; (destruct fuel as [|fuel]; [lia|]).
  - rewrite app_nil_r in Hz. cbn [find_loop]. by rewrite (zl_at_end zl p Hz).
  - destruct (zl_at zl p e r Hz) as (A & C & EA & HA & He). pose proof (decode_prevsize A C _ e He) as E1. pose proof (decode_body A C _ e He) as E2. rewrite <- EA, HA in E1, E2. destruct (zl_head (be:=be) zl p e r Hz) as (x & Ex & Hx & _). cbn [find_loop]. rewrite Ex. cbn [mbind option_bind]. rewrite Hx, E1. cbn [mbind option_bind]. rewrite E2. cbn [mbind option_bind]. cbn [length] in Hf.
    replace (10 + sz p + z_ps e + zlen (body_head (z_body e)) + zlen (body_data (z_body e))) with (10 + sz (p ++ [e])) by (rewrite sz_snoc; unfold ent_len; rewrite body_len_split; lia). replace (10 + sz p + z_ps e + zlen (body_head (z_body e))) with (10 + sz p + (z_ps e + zlen (body_head (z_body e)))) by lia.
    assert (Hz2 : zl_of zl ((p ++ [e]) ++ r)) by (by rewrite <- app_assoc).
    assert (Hgo : forall cnt' venc vll, venc = 0 \/ known s venc vll -> find_loop be fuel zl (10 + sz (p ++ [e])) s (Z.of_nat skip) (Z.of_nat cnt') venc vll = Some ((fun k => 10 + sz (p ++ take k (e :: r))) <$> (S <$> find_ix skip cnt' (strings r) s))).
    { intros cnt' venc' vll' Hk'. rewrite IH by (done || lia). f_equal. destruct (find_ix skip cnt' (strings r) s) as [k|]; [|done]. cbn [fmap option_fmap option_map take]. by rewrite <- app_assoc. }
    cbn [strings map find_ix]. fold (strings r). destruct cnt as [|cnt].
    + change (Z.of_nat 0 =? 0) with true. cbv iota. rewrite (enc_is_str _ (zl_body_ok zl p e r Hz)). pose proof (zl_str zl p e r Hz) as Hs. pose proof (known_same zl p e r s) as Hks. destruct (z_body e) as [t|v].
      * cbn [body_data body_str]. specialize (Hs t eq_refl). assert (Esame : (if zlen t =? zlen s then t ← load zl (10 + sz p + (z_ps e + zlen (body_head (BStr t)))) (zlen s); Some (bool_decide (t = s)) else Some false) = Some (bool_decide (t = s))).
        { destruct (Z.eqb_spec (zlen t) (zlen s)) as [E|E]; [by rewrite <- E, Hs|]. rewrite bool_decide_eq_false_2; [done|]. by intros ->. }
        cbn [mbind option_bind] in Esame. rewrite Esame. cbn [mbind option_bind]. destruct (bool_decide (t = s)); [cbn [fmap option_fmap option_map take]; by rewrite app_nil_r|by apply Hgo].
      * destruct (know s venc vll Hk) as (venc' & vll' & -> & Hk' & Hne). rewrite (proj2 (Z.eqb_neq _ _) Hne). specialize (Hks v venc' vll' Hz eq_refl Hk'). cbn [mbind option_bind] in Hks. rewrite Hks. cbn [mbind option_bind]. destruct (bool_decide (body_str (BInt v) = s)); [cbn [fmap option_fmap option_map take]; by rewrite app_nil_r|by apply Hgo; right].
    + rewrite (proj2 (Z.eqb_neq _ _)) by lia. replace (Z.of_nat (S cnt) - 1) with (Z.of_nat cnt) by lia. by apply Hgo.
Qed.
Lemma zl_find zl es s skip : zl_of zl es -> ziplistFind be zl 10 s (Z.of_nat skip) = Some ((fun k => 10 + sz (take k es)) <$> find_ix skip 0 (strings es) s).
Proof. intros Hz. pose proof (zl_size _ _ Hz). apply (find_loop_spec zl s skip es [] _ O); [done|lia|by left]. Qed.
(** ** The number of entries *)
Lemma len_loop_spec zl : forall r p fuel n, zl_of zl (p ++ r) -> (length r <= fuel)%nat -> len_loop fuel zl (10 + sz p) n = Some (n + zlen r).
Proof.
  induction r as [|e r IH]; intros p fuel n Hz Hf.
  - rewrite app_nil_r in Hz. change (zlen (@nil zent)) with 0. rewrite Z.add_0_r. destruct fuel; cbn [len_loop]; by rewrite (zl_at_end zl p Hz).
  - destruct (zl_head (be:=be) zl p e r Hz) as (x & Ex & Hx & Er & _). destruct fuel as [|fuel]; [cbn [length] in Hf; lia|]. cbn [len_loop]. rewrite Ex. cbn [mbind option_bind]. rewrite Hx, Er. cbn [mbind option_bind]. replace (10 + sz p + ent_len e) with (10 + sz (p ++ [e])) by (rewrite sz_snoc; lia). rewrite IH; [|by rewrite <- app_assoc|cbn [length] in Hf; lia]. rewrite zlen_cons. f_equal. lia.
Qed.
Lemma zl_length zl es : zl_of zl es -> exists zl', ziplistLen be zl = Some (zl', zlen es) /\ zl_of zl' es.
Proof.
  intros Hz. pose proof (zl_size _ _ Hz) as Hsz. pose proof (len_loop_spec zl es [] (length zl) 0 Hz Hsz) as El. cbn [sz] in El. change (10 + 0) with ZIPLIST_HEADER_SIZE in El. rewrite Z.add_0_l in El. pose proof Hz as (n & Ezl & Hc & Hlen & Hn). unfold ziplistLen. destruct (get_len (be:=be) (11 + sz es) (10 + tail_pos es) n (layout 0 es ++ [ZIP_END]) (len_ok_u16 _ _ Hn)) as (raw & Er & Hr & _). rewrite <- Ezl in Er. rewrite Er. cbn [mbind option_bind]. rewrite Hr. destruct (Z.ltb_spec n UINT16_MAX) as [Hlt|Hge].
  - exists zl. split; [|done]. destruct Hn as [[-> _]| ->]; [done|lia].
  - rewrite El. cbn [mbind option_bind]. destruct (Z.ltb_spec (zlen es) UINT16_MAX) as [Hs|Hs]; [|by exists zl]. rewrite Ezl, put_len. eexists. split; [done|]. exists (zlen es). split; [done|]. split; [done|]. split; [done|]. by left.
Qed.
(** ** Merging *)
(** The cascade at the seam: the entries after [e] start with some length
    [v0], not with that of [e]. *)
Lemma seam n p e v0 q : chain_ok 0 (p ++ [e]) -> chain_ok v0 q -> 11 + sz (p ++ e :: q) + 4 * zlen q < 2 ^ 32 ->
  exists q', ziplistCascadeUpdate be junk (hdr (11 + sz (p ++ e :: q)) (10 + tail_pos (p ++ e :: q)) n ++ layout 0 (p ++ [e]) ++ layout v0 q ++ [ZIP_END]) (10 + sz p) = Some (hdr (11 + sz (p ++ e :: q')) (10 + tail_pos (p ++ e :: q')) n ++ layout 0 (p ++ e :: q') ++ [ZIP_END]) /\
    chain_ok 0 (p ++ e :: q') /\ map z_body q' = map z_body q /\ sz q' <= sz q + 4 * zlen q.
Proof.
  intros Hpe Hq Hlen. apply chain_ok_app in Hpe as [Hp [He _]]. pose proof (layout_len _ _ Hp) as Elp. pose proof (sz_pos _ _ Hp). pose proof (sz_pos _ _ Hq). pose proof (zlen_nonneg q). pose proof (zlen_nonneg p). pose proof (ent_len_pos _ _ He). rewrite layout_app. cbn [layout]. rewrite app_nil_r. set (v := last_len 0 p) in *. rewrite <- app_assoc. unfold ziplistCascadeUpdate. assert (Hsz : sz (p ++ e :: q) = sz p + ent_len e + sz q) by (rewrite sz_app; cbn [sz]; lia).
  rewrite get_bytes by (unfold in_u; lia). cbn [mbind option_bind]. rewrite Hsz in *. destruct q as [|y rest].
  - cbn [layout app sz]. set (o := 10 + tail_pos (p ++ [e])). rewrite (app_assoc (hdr _ o n)). replace (10 + sz p) with (zlen (hdr (11 + (sz p + ent_len e + 0)) o n ++ layout 0 p)) by (rewrite zlen_app, zlen_hdr; lia). rewrite cascade_alone by done. exists []. split; [|split; [apply chain_ok_app; by split|by split]]. rewrite layout_app. cbn [layout]. fold v. rewrite sz_snoc. unfold o. f_equal. rewrite app_nil_r. rewrite <- !app_assoc. f_equal. f_equal. lia.
  - destruct Hq as [Hy Hrest]. rewrite tail_pos_app, tail_pos_cons. cbn [layout]. rewrite <- (app_assoc (ent_bytes v0 y)). set (t := 11 + (sz p + ent_len e + sz (y :: rest))) in *. set (o := 10 + (sz p + (ent_len e + tail_pos (y :: rest)))). set (M := hdr t o n ++ layout 0 p ++ ent_bytes v e ++ ent_bytes v0 y ++ layout (ent_len y) rest ++ [ZIP_END]).
    destruct (cascade_spec (be:=be) (junk:=junk) rest (length M) t o n (layout 0 p) v e v0 y He Hy Hrest) as (t' & o' & es' & zl & E & Hc1 & Hc2 & Hc3 & Hc4 & Hc5 & Hc6).
    + unfold t. lia.
    + unfold o. lia.
    + unfold t. lia.
    + pose proof (sz_pos _ _ Hrest). pose proof (layout_len _ _ Hrest). unfold M, zlen in *. rewrite !length_app. cbn [length]. lia.
    + rewrite Elp in *. fold M in E. rewrite E. exists es'. split; [|split; [apply chain_ok_app; by split|by split]]. rewrite Hc1. f_equal. rewrite layout_app. cbn [layout]. fold v. rewrite <- !app_assoc. f_equal. rewrite sz_app, tail_pos_app. cbn [sz]. f_equal; [lia|]. rewrite Hc5. destruct es' as [|z es']; [change (tail_pos [e]) with 0|rewrite tail_pos_cons; lia]. done.
Qed.
(** Both ways to put the entries side by side. *)
Lemma join_blocks h1 h2 P Q : zlen h1 = 10 -> zlen h2 = 10 -> let z1 := h1 ++ P ++ [ZIP_END] in let z2 := h2 ++ Q ++ [ZIP_END] in let total := 11 + zlen P + zlen Q in
  (bs ← load z2 10 (11 + zlen Q - 10); store (realloc junk z1 total) (11 + zlen P - 1) bs) = Some (h1 ++ P ++ Q ++ [ZIP_END]) /\
  (target ← memmove (realloc junk z2 total) (11 + zlen P - 1) 10 (11 + zlen Q - 10); bs ← load z1 0 (11 + zlen P - 1); store target 0 bs) = Some (h1 ++ P ++ Q ++ [ZIP_END]).
Proof.
  intros H1 H2 z1 z2 total. pose proof (zlen_nonneg P). pose proof (zlen_nonneg Q). assert (Hend : zlen [ZIP_END] = 1) by done. split.
  - unfold z2 at 1. rewrite <- (app_nil_r (Q ++ [ZIP_END])). rewrite load_app by (rewrite ?zlen_app; lia). cbn [mbind option_bind]. destruct (realloc_grow junk z1 total) as (ext & -> & He & _); [unfold z1, total; rewrite !zlen_app; lia|]. unfold z1, total in *. rewrite !zlen_app in He.
    replace ((h1 ++ P ++ [ZIP_END]) ++ ext) with ((h1 ++ P) ++ ([ZIP_END] ++ ext) ++ []) by (by list_simplifier). rewrite store_app by (rewrite ?zlen_app; lia). by list_simplifier.
  - destruct (realloc_grow junk z2 total) as (ext & -> & He & _); [unfold z2, total; rewrite !zlen_app; lia|]. unfold z2, total in *. rewrite !zlen_app in He. destruct (split_at (h2 ++ Q ++ [ZIP_END] ++ ext) (10 + zlen P)) as (a & b & E & Ha & Hb); [rewrite !zlen_app; lia|]. rewrite !zlen_app in Hb.
    assert (Emv : memmove ((h2 ++ Q ++ [ZIP_END]) ++ ext) (11 + zlen P - 1) 10 (11 + zlen Q - 10) = Some (a ++ Q ++ [ZIP_END])).
    { apply (memmove_app h2 (Q ++ [ZIP_END]) ext); [by list_simplifier|lia|rewrite zlen_app; lia|]. replace ((h2 ++ Q ++ [ZIP_END]) ++ ext) with (a ++ b ++ []) by (rewrite app_nil_r, <- E; by list_simplifier). rewrite (store_app a b (Q ++ [ZIP_END]) []) by (rewrite ?zlen_app; lia). by rewrite app_nil_r. }
    rewrite Emv. cbn [mbind option_bind]. unfold z1. rewrite (app_assoc h1), load_prefix by (rewrite zlen_app; lia). cbn [mbind option_bind]. rewrite store_head by (rewrite ?zlen_app; lia). by list_simplifier.
Qed.
Lemma len_ok_sum n1 n2 p q q' : len_ok n1 p -> len_ok n2 q -> zlen q' = zlen q -> len_ok (if n1 + n2 <? UINT16_MAX then n1 + n2 else UINT16_MAX) (p ++ q').
Proof.
  intros H1 H2 Hq. pose proof (len_ok_u16 _ _ H1) as U1. pose proof (len_ok_u16 _ _ H2) as U2. unfold len_ok, in_u in *. rewrite zlen_app, Hq. destruct (Z.ltb_spec (n1 + n2) UINT16_MAX); [|by right]. left. lia.
Qed.
Lemma zl_merge z1 z2 p q : zl_of z1 p -> zl_of z2 q -> q <> [] -> 11 + sz p + sz q + 4 * zlen q < 2 ^ 32 ->
  exists zl first q', ziplistMerge be junk z1 z2 = Some (zl, first) /\ zl_of zl (p ++ q') /\ map z_body q' = map z_body q.
Proof.
  intros (n1 & E1 & Hp & Hl1 & Hn1) (n2 & E2 & Hq & Hl2 & Hn2) Hne Hlen. pose proof (sz_pos _ _ Hp). pose proof (sz_pos _ _ Hq). pose proof (zlen_nonneg p). pose proof (zlen_nonneg q). pose proof (tail_pos_nonneg _ _ Hp). pose proof (tail_pos_nonneg _ _ Hq). pose proof (layout_len _ _ Hp) as Elp. pose proof (layout_len _ _ Hq) as Elq.
  destruct (get_len (be:=be) (11 + sz p) (10 + tail_pos p) n1 (layout 0 p ++ [ZIP_END]) (len_ok_u16 _ _ Hn1)) as (raw1 & Er1 & Hr1 & _). destruct (get_len (be:=be) (11 + sz q) (10 + tail_pos q) n2 (layout 0 q ++ [ZIP_END]) (len_ok_u16 _ _ Hn2)) as (raw2 & Er2 & Hr2 & _). rewrite <- E1 in Er1. rewrite <- E2 in Er2.
  assert (Gb1 : ZIPLIST_BYTES be z1 = Some (11 + sz p)) by (rewrite E1; apply get_bytes; unfold in_u; lia). assert (Gb2 : ZIPLIST_BYTES be z2 = Some (11 + sz q)) by (rewrite E2; apply get_bytes; unfold in_u; lia). assert (Gt1 : ZIPLIST_TAIL_OFFSET be z1 = Some (10 + tail_pos p)) by (rewrite E1; apply get_tail; unfold in_u; lia). assert (Gt2 : ZIPLIST_TAIL_OFFSET be z2 = Some (10 + tail_pos q)) by (rewrite E2; apply get_tail; unfold in_u; lia).
  destruct (join_blocks (hdr (11 + sz p) (10 + tail_pos p) n1) (hdr (11 + sz q) (10 + tail_pos q) n2) (layout 0 p) (layout 0 q) (zlen_hdr _ _ _) (zlen_hdr _ _ _)) as [Ej1 Ej2]. cbv zeta in Ej1, Ej2. rewrite <- E1, <- E2, Elp, Elq in Ej1, Ej2. cbn [mbind option_bind] in Ej1, Ej2.
  unfold ziplistMerge. rewrite Gb1. cbn [mbind option_bind]. rewrite Er1. cbn [mbind option_bind]. rewrite Gb2. cbn [mbind option_bind]. rewrite Er2. cbn [mbind option_bind]. rewrite Hr1, Hr2, Gt1. cbn [mbind option_bind]. rewrite Gt2. cbn [mbind option_bind]. change ZIPLIST_HEADER_SIZE with 10. change ZIPLIST_END_SIZE with 1. replace (11 + sz p + (11 + sz q) - 10 - 1) with (11 + sz p + sz q) by lia. rewrite Ej1, Ej2.
  set (nn := if n1 + n2 <? UINT16_MAX then n1 + n2 else UINT16_MAX). replace (if n1 >=? n2 then Some _ else Some _) with (Some (hdr (11 + sz p) (10 + tail_pos p) n1 ++ layout 0 p ++ layout 0 q ++ [ZIP_END])) by (by destruct (n1 >=? n2)). cbn [mbind option_bind]. rewrite put_bytes by (unfold in_u; lia). cbn [mbind option_bind]. rewrite put_len. cbn [mbind option_bind]. rewrite put_tail by (unfold in_u; lia). cbn [mbind option_bind].
  assert (Hseam : exists q', ziplistCascadeUpdate be junk (hdr (11 + sz p + sz q) (11 + sz p - 1 + (10 + tail_pos q - 10)) nn ++ layout 0 p ++ layout 0 q ++ [ZIP_END]) (10 + tail_pos p) = Some (hdr (11 + sz (p ++ q')) (10 + tail_pos (p ++ q')) nn ++ layout 0 (p ++ q') ++ [ZIP_END]) /\ chain_ok 0 (p ++ q') /\ map z_body q' = map z_body q /\ sz q' <= sz q + 4 * zlen q).
  { destruct q as [|y q]; [done|]. destruct p as [|e p _] using rev_ind.
    - destruct Hq as [Hy Hq]. rewrite zlen_cons in Hlen. destruct (seam nn [] y (ent_len y) q) as (q' & E & Hs1 & Hs2 & Hs3); [by split|done|cbn [app sz] in *; lia|]. exists (y :: q'). cbn [app sz layout] in *. rewrite <- !app_assoc in E. rewrite app_nil_l in E. rewrite <- !app_assoc in *. change (tail_pos []) with 0. replace (11 + 0 - 1 + (10 + tail_pos (y :: q) - 10)) with (10 + tail_pos (y :: q)) by lia. replace (11 + 0 + (ent_len y + sz q)) with (11 + (ent_len y + sz q)) by lia. split; [exact E|]. split; [done|]. split; [cbn [map]; by rewrite Hs2|]. rewrite zlen_cons. lia.
    - rewrite tail_pos_snoc in *. destruct (seam nn p e 0 (y :: q)) as (q' & E & Hs1 & Hs2 & Hs3); [done|done|rewrite sz_app; cbn [sz] in *; rewrite sz_snoc in Hlen; lia|]. exists q'. rewrite <- !(app_assoc p [e]). cbn [app]. split; [|done]. rewrite <- E. rewrite sz_snoc. rewrite (sz_app p (e :: _)), (tail_pos_app p e), tail_pos_cons. cbn [sz]. do 2 f_equal. f_equal; lia. }
  destruct Hseam as (q' & -> & H1' & H2' & H3'). cbn [mbind option_bind]. exists (hdr (11 + sz (p ++ q')) (10 + tail_pos (p ++ q')) nn ++ layout 0 (p ++ q') ++ [ZIP_END]), (n1 >=? n2), q'. split; [done|]. split; [|done]. exists nn. split; [done|]. split; [done|]. split; [rewrite sz_app; lia|]. apply (len_ok_sum n1 n2 p q); [done|done|by apply map_body_len].
Qed.
(** ** The refinement *)
Definition represents (zl : list Z) (l : list (list Z)) : Prop := exists es, zl_of zl es /\ strings es = l.
(** A bound on the bytes of a list whatever the sizes of its length fields. *)
Definition weight (l : list (list Z)) : Z := foldr (fun s w => zlen s + 18 + w) 0 l.
Lemma weight_app a b : weight (a ++ b) = weight a + weight b.
Proof. induction a as [|s a IH]; [done|]. cbn [weight foldr app] in *. unfold weight in *. cbn [foldr] in *. lia. Qed.
Lemma weight_nonneg l : 0 <= weight l.
Proof. induction l as [|s l IH]; [done|]. unfold weight in *. cbn [foldr]. pose proof (zlen_nonneg s). lia. Qed.
Lemma body_bound b : body_ok b -> zlen (body_bytes b) <= zlen (body_str b) + 9.
Proof.
  intros Hb. rewrite body_len_split. destruct b as [s|v]; cbn [body_head body_data body_str body_ok] in *.
  - destruct Hb as [_ Hs]. pose proof (zlen_nonneg s). destruct (entry_encoding_cases (zlen s) ltac:(lia)) as [[_ ->]|[[_ ->]|[_ ->]]]; rewrite !zlen_cons, zlen_nil; lia.
  - pose proof (dec_len20 v Hb). rewrite zlen_cons, zlen_nil. destruct (int_encoding_cases v Hb) as [(_ & _ & ->)|[(_ & _ & ->)|[(_ & _ & ->)|[(_ & _ & ->)|[(_ & _ & ->)|(_ & ->)]]]]]; rewrite ?zlen_le; change (zlen (@nil Z)) with 0; lia.
Qed.
Lemma chain_weight v es : chain_ok v es -> sz es + 4 * zlen es <= weight (strings es).
Proof.
  revert v. induction es as [|e es IH]; intros v Hc; [done|]. destruct Hc as [(Hf & Hb & _) Hc]. specialize (IH _ Hc). unfold strings, weight in *. cbn [map foldr sz]. rewrite zlen_cons. pose proof (body_bound _ Hb). unfold ent_len at 1. destruct Hf as [[-> _]|[-> _]]; lia.
Qed.
Lemma zl_weight zl es : zl_of zl es -> sz es + 4 * zlen es <= weight (strings es) /\ 0 <= sz es.
Proof. intros (n & _ & Hc & _). split; [by apply (chain_weight 0)|]. pose proof (sz_pos _ _ Hc). pose proof (zlen_nonneg es). lia. Qed.
Lemma strings_len es : length (strings es) = length es.
Proof. apply length_map. Qed.
Lemma strings_app a b : strings (a ++ b) = strings a ++ strings b.
Proof. apply map_app. Qed.
Lemma strings_body q q' : map z_body q' = map z_body q -> strings q' = strings q.
Proof. intros E. unfold strings. rewrite <- !(map_map z_body body_str). by rewrite E. Qed.
Lemma strings_take es k : strings (take k es) = take k (strings es).
Proof. unfold strings. symmetry. apply firstn_map. Qed.
Lemma strings_drop es k : strings (drop k es) = drop k (strings es).
Proof. unfold strings. symmetry. apply skipn_map. Qed.
Lemma place_strings es i : place (strings es) i = place es i.
Proof. unfold place, zlen. by rewrite strings_len. Qed.
Lemma place_lt {A} (l : list A) i k : place l i = Some k -> (k < length l)%nat.
Proof. unfold place, zlen. destruct (Z.ltb_spec i 0); [destruct (Z.leb_spec 0 (Z.of_nat (length l) + i))|destruct (Z.ltb_spec i (Z.of_nat (length l)))]; intros [= <-]; lia. Qed.
Lemma rep_insert zl es k s : zl_of zl es -> bytes_ok s -> 40 + weight (strings es) + zlen s + 18 < 2 ^ 32 ->
  exists zl', ziplistInsert be junk zl (10 + sz (take k es)) s = Some zl' /\ represents zl' (take k (strings es) ++ s :: drop k (strings es)).
Proof.
  intros Hz Hs Hw. pose proof (zl_weight _ _ Hz) as [Hw1 Hw2]. pose proof (zlen_nonneg es). assert (Hd : zlen (drop k es) <= zlen es) by (unfold zlen; rewrite length_drop; lia). rewrite <- (take_drop k es) in Hz. destruct (zl_insert (be:=be) (junk:=junk) zl _ _ s Hz Hs) as (zl' & q' & E & Hz' & Hb & _); [rewrite take_drop; lia|]. exists zl'. split; [done|]. eexists. split; [exact Hz'|]. rewrite strings_app. cbn [strings map z_body]. fold (strings q'). rewrite body_of_str, (strings_body _ _ Hb), strings_take, strings_drop. done.
Qed.
Lemma rep_delete zl es k num : zl_of zl es -> (k < length es)%nat -> 0 <= num -> 40 + weight (strings es) < 2 ^ 32 ->
  exists zl', ziplistDelete_at be junk zl (10 + sz (take k es)) num = Some zl' /\ represents zl' (take k (strings es) ++ drop (k + Z.to_nat num) (strings es)).
Proof.
  intros Hz Hk Hn Hw. pose proof (zl_weight _ _ Hz) as [Hw1 Hw2]. pose proof (zlen_nonneg es). destruct (lookup_lt_is_Some_2 es k Hk) as [x Ex]. pose proof (drop_S es x k Ex) as Edrop. assert (Hd : zlen (drop (S k) es) <= zlen es) by (unfold zlen; rewrite length_drop; lia). pose proof Hz as Hz0. rewrite (take_cons_split es k x Ex) in Hz.
  destruct (zl_delete (be:=be) (junk:=junk) zl _ x _ num Hz Hn) as (zl' & E & q' & Hz' & Hb & _); [rewrite <- (take_cons_split es k x Ex); lia|]. exists zl'. split; [done|]. eexists. split; [exact Hz'|]. rewrite strings_app, (strings_body _ _ Hb), strings_take, <- Edrop, drop_drop, strings_drop. done.
Qed.
(** The calls, and what they answer. *)
Inductive zl_op :=
  | ZPush (s : list Z) (w : zl_where) | ZInsert (i : Z) (s : list Z) | ZDelete (i : Z) | ZDeleteRange (i num : Z)
  | ZGet (i : Z) | ZCompare (i : Z) (s : list Z) | ZFindNext (s : list Z) (skip : nat) | ZWalk (i : Z) | ZLen.
Inductive zl_reply := ZrDone | ZrStr (s : option (list Z)) | ZrBool (b : bool) | ZrLen (n : Z).
Definition get_str (zl : list Z) (p : option Z) : option zl_reply :=
  match p with None => Some (ZrStr None) | Some p => v ← ziplistGet be zl p; Some (ZrStr (value_str <$> v)) end.
Definition run_op (zl : list Z) (op : zl_op) : option (list Z * zl_reply) :=
  match op with
  | ZPush s w => zl ← ziplistPush be junk zl s w; Some (zl, ZrDone)
  | ZInsert i s => p ← ziplistIndex be zl i; match p with None => Some (zl, ZrDone) | Some p => zl ← ziplistInsert be junk zl p s; Some (zl, ZrDone) end
  | ZDelete i => p ← ziplistIndex be zl i; match p with None => Some (zl, ZrDone) | Some p => '(zl, _) ← ziplistDelete be junk zl p; Some (zl, ZrDone) end
  | ZDeleteRange i num => zl ← ziplistDeleteRange be junk zl i num; Some (zl, ZrDone)
  | ZGet i => p ← ziplistIndex be zl i; r ← get_str zl p; Some (zl, r)
  | ZCompare i s => p ← ziplistIndex be zl i; match p with None => Some (zl, ZrBool false) | Some p => b ← ziplistCompare be zl p s; Some (zl, ZrBool b) end
  | ZFindNext s skip => p ← ziplistFind be zl ZIPLIST_HEADER_SIZE s (Z.of_nat skip);
      p ← match p with None => Some None | Some p => ziplistNext zl p end; r ← get_str zl p; Some (zl, r)
  | ZWalk i => p ← ziplistIndex be zl i; p ← match p with None => Some None | Some p => ziplistPrev be zl p end; r ← get_str zl p; Some (zl, r)
  | ZLen => '(zl, n) ← ziplistLen be zl; Some (zl, ZrLen n)
  end.
Fixpoint run_ops (zl : list Z) (ops : list zl_op) : option (list Z * list zl_reply) :=
  match ops with [] => Some (zl, []) | op :: ops => '(zl, r) ← run_op zl op; '(zl, rs) ← run_ops zl ops; Some (zl, r :: rs) end.
End Block.

(** The same on a list of strings. *)
Definition spec_op (l : list (list Z)) (op : zl_op) : list (list Z) * zl_reply :=
  match op with
  | ZPush s ZIPLIST_HEAD => (s :: l, ZrDone)
  | ZPush s ZIPLIST_TAIL => (l ++ [s], ZrDone)
  | ZInsert i s => (match place l i with None => l | Some k => take k l ++ s :: drop k l end, ZrDone)
  | ZDelete i => (match place l i with None => l | Some k => take k l ++ drop (S k) l end, ZrDone)
  | ZDeleteRange i num => (match place l i with None => l | Some k => take k l ++ drop (k + Z.to_nat num) l end, ZrDone)
  | ZGet i => (l, ZrStr (k ← place l i; l !! k))
  | ZCompare i s => (l, ZrBool (match place l i with None => false | Some k => bool_decide (l !! k = Some s) end))
  | ZFindNext s skip => (l, ZrStr (k ← find_ix skip 0 l s; l !! S k))
  | ZWalk i => (l, ZrStr (k ← place l i; match k with O => None | S k => l !! k end))
  | ZLen => (l, ZrLen (zlen l))
  end.
Fixpoint spec_ops (l : list (list Z)) (ops : list zl_op) : list (list Z) * list zl_reply :=
  match ops with [] => (l, []) | op :: ops => let '(l, r) := spec_op l op in let '(l, rs) := spec_ops l ops in (l, r :: rs) end.
(** Strings are bytes, an index is a C int other than INT_MIN, a count is
    not negative. *)
Definition op_ok (op : zl_op) : Prop :=
  match op with
  | ZPush s _ => bytes_ok s
  | ZInsert i s => - 2 ^ 31 < i < 2 ^ 31 /\ bytes_ok s
  | ZDelete i | ZGet i | ZCompare i _ | ZWalk i => - 2 ^ 31 < i < 2 ^ 31
  | ZDeleteRange i num => - 2 ^ 31 < i < 2 ^ 31 /\ in_u 32 num
  | ZFindNext _ skip => Z.of_nat skip < 2 ^ 31
  | ZLen => True
  end.
Definition op_weight (op : zl_op) : Z := match op with ZPush s _ | ZInsert _ s => zlen s + 18 | _ => 0 end.
Definition ops_weight (ops : list zl_op) : Z := foldr (fun op w => op_weight op + w) 0 ops.

Lemma weight_split k l : weight l = weight (take k l) + weight (drop k l).
Proof. by rewrite <- weight_app, take_drop. Qed.
Lemma weight_cons s l : weight (s :: l) = zlen s + 18 + weight l.
Proof. done. Qed.
Lemma weight_drop k j l : weight (take k l ++ drop (k + j) l) <= weight l.
Proof. rewrite weight_app, <- drop_drop. rewrite (weight_split k l), (weight_split j (drop k l)). pose proof (weight_nonneg (take j (drop k l))). lia. Qed.
Lemma weight_step l op : weight (spec_op l op).1 <= weight l + op_weight op.
Proof.
  destruct op as [s w|i s|i|i num|i|i s|s skip|i|]; cbn [spec_op fst op_weight]; try lia.
  - destruct w; cbn [fst]; [rewrite weight_cons; lia|rewrite weight_app, weight_cons; change (weight []) with 0; lia].
  - pose proof (zlen_nonneg s). destruct (place l i) as [k|]; [|lia]. rewrite weight_app, weight_cons, (weight_split k l). lia.
  - destruct (place l i) as [k|]; [|lia]. rewrite <- (Nat.add_1_r k). pose proof (weight_drop k 1 l). lia.
  - destruct (place l i) as [k|]; [|lia]. pose proof (weight_drop k (Z.to_nat num) l). lia.
Qed.
Section Refinement.
  Context (be : bool) (junk : nat -> Z).
Lemma get_str_at zl es k x : zl_of zl es -> strings es !! k = Some x -> get_str (be:=be) zl (Some (10 + sz (take k es))) = Some (ZrStr (Some x)).
Proof.
  intros Hz Hk. unfold strings in Hk. rewrite list_lookup_fmap in Hk. destruct (es !! k) as [e|] eqn:Ex; [|done]. injection Hk as <-. rewrite (take_cons_split es k e Ex) in Hz. cbn [get_str]. destruct (zl_get (be:=be) zl _ e _ Hz) as (v & -> & Hv & _). cbn [mbind option_bind fmap option_fmap option_map]. by rewrite Hv.
Qed.
Lemma place_lookup es i k : place es i = Some k -> exists e, es !! k = Some e /\ strings es !! k = Some (body_str (z_body e)) /\ es = take k es ++ e :: drop (S k) es.
Proof. intros Hp. destruct (lookup_lt_is_Some_2 es k (place_lt _ _ _ Hp)) as [e Ee]. exists e. split; [done|]. split; [unfold strings; by rewrite list_lookup_fmap, Ee|by apply take_cons_split]. Qed.
Lemma step_read zl es op : zl_of zl es -> op_ok op -> match op with ZGet _ | ZCompare _ _ | ZFindNext _ _ | ZWalk _ | ZLen => True | _ => False end ->
  exists zl', run_op (be:=be) (junk:=junk) zl op = Some (zl', (spec_op (strings es) op).2) /\ zl_of zl' es.
Proof.
  intros Hz Hok Hr. destruct op as [s w|i s|i|i num|i|i s|s skip|i|]; try done; cbn [run_op spec_op snd op_ok] in *.
  - exists zl. split; [|done]. rewrite (zl_index zl es i Hz) by lia. cbn [mbind option_bind]. rewrite place_strings. destruct (place es i) as [k|] eqn:Ep; [|done]. destruct (place_lookup es i k Ep) as (e & _ & El & _). cbn [fmap option_fmap option_map mbind option_bind]. by rewrite (get_str_at zl es k _ Hz El), El.
  - exists zl. split; [|done]. rewrite (zl_index zl es i Hz) by lia. cbn [mbind option_bind]. rewrite place_strings. destruct (place es i) as [k|] eqn:Ep; [|done]. destruct (place_lookup es i k Ep) as (e & _ & El & Es). cbn [fmap option_fmap option_map]. rewrite Es in Hz. rewrite (zl_compare zl _ e _ Hz), El. cbn [mbind option_bind]. do 3 f_equal. apply bool_decide_ext. split; [by intros ->|by intros [=]].
  - exists zl. split; [|done]. change ZIPLIST_HEADER_SIZE with 10. rewrite (zl_find zl es s skip Hz). cbn [mbind option_bind]. pose proof (find_ix_spec skip s (strings es) 0) as Hf. destruct (find_ix skip 0 (strings es) s) as [k|]; [|done]. destruct Hf as (_ & Hk & _). cbn [fmap option_fmap option_map mbind option_bind]. unfold strings in Hk. rewrite list_lookup_fmap in Hk. destruct (es !! k) as [e|] eqn:Ee; [|done]. pose proof Hz as Hz0. rewrite (take_cons_split es k e Ee) in Hz. rewrite (zl_next (be:=be) zl _ e _ Hz). cbn [mbind option_bind].
    rewrite <- (take_S_r es k e Ee). destruct (strings es !! S k) as [x|] eqn:Ex.
    + destruct (drop (S k) es) as [|y q] eqn:Ed; [apply lookup_lt_Some in Ex; rewrite strings_len in Ex; apply (f_equal length) in Ed; rewrite length_drop in Ed; cbn in Ed; lia|]. by rewrite (get_str_at zl es (S k) x Hz0 Ex).
    + apply lookup_ge_None in Ex. rewrite strings_len in Ex. rewrite (drop_ge es) by lia. done.
  - exists zl. split; [|done]. rewrite (zl_index zl es i Hz) by lia. cbn [mbind option_bind]. rewrite place_strings. destruct (place es i) as [k|] eqn:Ep; [|done]. destruct (place_lookup es i k Ep) as (e & Ee & El & Es). cbn [fmap option_fmap option_map mbind option_bind]. pose proof Hz as Hz0. rewrite Es in Hz. rewrite (zl_prev zl _ _ Hz). cbn [mbind option_bind]. apply lookup_lt_Some in Ee. destruct k as [|k]; [done|]. destruct (lookup_lt_is_Some_2 es k ltac:(lia)) as [y Ey]. rewrite (take_S_r es k y Ey), removelast_last. destruct (take k es ++ [y]) eqn:En; [by destruct (take k es)|]. rewrite (get_str_at zl es k (body_str (z_body y)) Hz0); [|unfold strings; by rewrite list_lookup_fmap, Ey]. unfold strings. by rewrite list_lookup_fmap, Ey.
  - destruct (zl_length (be:=be) zl es Hz) as (zl' & -> & Hz'). exists zl'. split; [|done]. cbn [mbind option_bind]. do 3 f_equal. unfold zlen. by rewrite strings_len.
Qed.
Lemma zl_step_refines zl l op : represents zl l -> op_ok op -> 40 + weight l + op_weight op < 2 ^ 32 ->
  exists zl', run_op (be:=be) (junk:=junk) zl op = Some (zl', (spec_op l op).2) /\ represents zl' (spec_op l op).1.
Proof.
  intros (es & Hz & <-) Hok Hw. destruct op as [s w|i s|i|i num|i|i s|s skip|i|].
  5-9: match goal with |- context [spec_op _ ?op] => destruct (step_read zl es op Hz Hok I) as (zl' & E & Hz'); exists zl'; split; [exact E|by exists es] end.
  all: cbn [run_op spec_op op_ok op_weight fst snd] in *.
  - unfold ziplistPush. destruct w; cbn [mbind option_bind].
    + destruct (rep_insert (be:=be) (junk:=junk) zl es O s Hz Hok ltac:(lia)) as (zl' & E & Hr). rewrite take_0 in E. change (10 + sz []) with ZIPLIST_HEADER_SIZE in E. rewrite E. cbn [mbind option_bind]. by exists zl'.
    + assert (Gb : ZIPLIST_BYTES be zl = Some (11 + sz es)) by (destruct Hz as (n & -> & Hc & Hlen & _); apply get_bytes; pose proof (sz_pos _ _ Hc); pose proof (zlen_nonneg es); unfold in_u; lia). rewrite Gb. cbn [mbind option_bind]. destruct (rep_insert (be:=be) (junk:=junk) zl es (length es) s Hz Hok ltac:(lia)) as (zl' & E & Hr). rewrite take_ge in E by lia. replace (11 + sz es - 1) with (10 + sz es) by lia. rewrite E. cbn [mbind option_bind]. exists zl'. split; [done|]. rewrite take_ge, drop_ge in Hr by (rewrite strings_len; lia). done.
  - destruct Hok as [Hi Hs]. rewrite (zl_index zl es i Hz) by lia. cbn [mbind option_bind]. rewrite place_strings. destruct (place es i) as [k|] eqn:Ep; [|exists zl; split; [done|by exists es]]. cbn [fmap option_fmap option_map]. destruct (rep_insert (be:=be) (junk:=junk) zl es k s Hz Hs ltac:(lia)) as (zl' & -> & Hr). by exists zl'.
  - rewrite (zl_index zl es i Hz) by lia. cbn [mbind option_bind]. rewrite place_strings. destruct (place es i) as [k|] eqn:Ep; [|exists zl; split; [done|by exists es]]. cbn [fmap option_fmap option_map]. unfold ziplistDelete. destruct (rep_delete (be:=be) (junk:=junk) zl es k 1 Hz (place_lt _ _ _ Ep) ltac:(lia) ltac:(lia)) as (zl' & -> & Hr). exists zl'. split; [done|]. change (Z.to_nat 1) with 1%nat in Hr. by rewrite Nat.add_1_r in Hr.
  - destruct Hok as [Hi Hnum]. unfold ziplistDeleteRange. rewrite (zl_index zl es i Hz) by lia. cbn [mbind option_bind]. rewrite place_strings. destruct (place es i) as [k|] eqn:Ep; [|exists zl; split; [done|by exists es]]. cbn [fmap option_fmap option_map]. destruct (rep_delete (be:=be) (junk:=junk) zl es k num Hz (place_lt _ _ _ Ep) ltac:(unfold in_u in Hnum; lia) ltac:(lia)) as (zl' & -> & Hr). by exists zl'.
Qed.
(** An entry deleted, and another put in its place. *)
Lemma zl_replace zl p e r s : zl_of zl (p ++ e :: r) -> bytes_ok s -> 40 + weight (strings (p ++ e :: r)) + zlen s + 18 < 2 ^ 32 ->
  exists zl1 zl2, ziplistDelete be junk zl (10 + sz p) = Some (zl1, 10 + sz p) /\ ziplistInsert be junk zl1 (10 + sz p) s = Some zl2 /\ represents zl2 (strings p ++ s :: strings r).
Proof.
  intros Hz Hs Hw. pose proof (zl_weight _ _ Hz) as [W1 W2]. pose proof (zlen_nonneg s). pose proof (zlen_nonneg p). rewrite zlen_app, zlen_cons in W1. destruct (zl_delete (be:=be) (junk:=junk) zl p e r 1 Hz ltac:(lia)) as (zl1 & E1 & q' & Hz1 & Hb & Hq); [pose proof (zlen_nonneg r); lia|]. change (Z.to_nat 1) with 1%nat in *. cbn [drop] in *; rewrite ?drop_0 in *.
  pose proof (map_body_len _ _ Hb). pose proof (zl_weight _ _ Hz1) as [W3 W4]. rewrite strings_app in W3, Hw. rewrite (strings_body _ _ Hb) in W3. cbn [strings map] in Hw. fold (strings r) in Hw. rewrite weight_app in W3, Hw. rewrite weight_cons in Hw. pose proof (zlen_nonneg (body_str (z_body e))). rewrite zlen_app in W3. pose proof (zlen_nonneg q').
  destruct (zl_insert (be:=be) (junk:=junk) zl1 p q' s Hz1 Hs) as (zl2 & q2 & E2 & Hz2 & Hb2 & _); [lia|]. exists zl1, zl2. unfold ziplistDelete. rewrite E1. split; [done|]. split; [done|]. eexists. split; [exact Hz2|]. rewrite strings_app. cbn [strings map z_body]. fold (strings q2). by rewrite body_of_str, (strings_body _ _ Hb2), (strings_body _ _ Hb).
Qed.
Lemma rep_merge z1 z2 l1 l2 : represents z1 l1 -> represents z2 l2 -> l2 <> [] -> 40 + weight l1 + weight l2 < 2 ^ 32 ->
  exists zl kept, ziplistMerge be junk z1 z2 = Some (zl, kept) /\ represents zl (l1 ++ l2).
Proof.
  intros (es1 & H1 & <-) (es2 & H2 & <-) Hne Hw. pose proof (zl_weight _ _ H1) as [W1 _]. pose proof (zl_weight _ _ H2) as [W2 _]. pose proof (zlen_nonneg es1). destruct (zl_merge (be:=be) (junk:=junk) z1 z2 es1 es2 H1 H2) as (zl & kept & q' & E & Hz & Hb); [by intros ->|lia|]. exists zl, kept. split; [done|]. exists (es1 ++ q'). split; [done|]. by rewrite strings_app, (strings_body _ _ Hb).
Qed.
Lemma rep_length zl l : represents zl l -> exists zl', ziplistLen be zl = Some (zl', zlen l) /\ represents zl' l.
Proof. intros (es & Hz & <-). destruct (zl_length (be:=be) zl es Hz) as (zl' & E & Hz'). exists zl'. unfold zlen in *. rewrite strings_len. split; [done|]. by exists es. Qed.
Lemma ops_refine ops : forall zl l, represents zl l -> Forall op_ok ops -> 40 + weight l + ops_weight ops < 2 ^ 32 ->
  exists zl', run_ops (be:=be) (junk:=junk) zl ops = Some (zl', (spec_ops l ops).2) /\ represents zl' (spec_ops l ops).1.
Proof.
  induction ops as [|op ops IH]; intros zl l Hr Hok Hw; [by exists zl|]. apply Forall_cons in Hok as [Hok Hoks]. cbn [ops_weight foldr] in Hw. fold (ops_weight ops) in Hw. assert (H0 : 0 <= ops_weight ops) by (clear; induction ops as [|o ops IH]; [done|]; unfold ops_weight in *; cbn [foldr]; destruct o as [s w|i s| | | | | | |]; cbn [op_weight]; try lia; pose proof (zlen_nonneg s); lia).
  destruct (zl_step_refines zl l op Hr Hok ltac:(lia)) as (zl1 & E1 & Hr1). pose proof (weight_step l op) as Hws. cbn [run_ops spec_ops]. rewrite E1. cbn [mbind option_bind]. destruct (spec_op l op) as [l1 r]. cbn [fst snd] in *. destruct (IH zl1 l1 Hr1 Hoks ltac:(lia)) as (zl2 & E2 & Hr2). rewrite E2. destruct (spec_ops l1 ops) as [l2 rs]. by exists zl2.
Qed.
End Refinement.

(** C6: a ziplist is a list of strings: for either byte order and whatever fresh
    memory holds, every sequence of pushes at both ends, insertions, deletions
    of one entry or of a range at an index from either end, reads, comparisons,
    searches that skip entries and step to the next, steps back and length
    queries succeeds on a new ziplist (no access outside the block, no failed
    assertion, the loops end) and answers what the same calls answer on a list
    of strings; the block then holds that list, with every length field and the
    tail offset right, whatever cascade of resizings this took. *)
Theorem ziplist_refines (be : bool) (junk : nat -> Z) (ops : list zl_op) : Forall op_ok ops -> 40 + ops_weight ops < 2 ^ 32 ->
  exists zl zl', ziplistNew be junk = Some zl /\ run_ops (be:=be) (junk:=junk) zl ops = Some (zl', (spec_ops [] ops).2) /\ represents zl' (spec_ops [] ops).1.
Proof.
  intros Hok Hw. destruct (zl_new (be:=be) (junk:=junk)) as (zl & E & Hz). exists zl. destruct (ops_refine be junk ops zl [] ltac:(by exists []) Hok ltac:(change (weight []) with 0; lia)) as (zl' & E' & Hr). by exists zl'.
Qed.
(** Merging two ziplists, whichever of the two blocks is kept, gives a ziplist
    of the strings of the first followed by those of the second, when the
    second is not empty. *)
Theorem ziplist_merge_appends (be : bool) (junk : nat -> Z) (z1 z2 : list Z) (l1 l2 : list (list Z)) : represents z1 l1 -> represents z2 l2 -> l2 <> [] -> 40 + weight l1 + weight l2 < 2 ^ 32 ->
  exists zl kept, ziplistMerge be junk z1 z2 = Some (zl, kept) /\ represents zl (l1 ++ l2).
Proof. apply rep_merge. Qed.
(** Merging with an empty second list leaves the tail offset at the end byte:
    the block has its entry, but not seen from its end. *)
Theorem ziplist_merge_empty_second : exists zl e z, ziplistNew false (fun _ => 0) = Some e /\ ziplistPush false (fun _ => 0) e [97] ZIPLIST_TAIL = Some zl /\ ziplistMerge false (fun _ => 0) zl e = Some (z, true) /\
  ziplistIndex false z 0 = Some (Some 10) /\ ziplistIndex false z (-1) = Some None /\ ziplistIndex false zl (-1) = Some (Some 10).
Proof. eexists _, _, _. split; [vm_compute; reflexivity|]. split; [vm_compute; reflexivity|]. split; [vm_compute; reflexivity|]. vm_compute. done. Qed.

(** The field of the second and of the third entry grow when the first is
    pushed. *)
Definition sample_ops : list zl_op :=
  [ZPush (replicate 249 97) ZIPLIST_HEAD; ZPush (replicate 249 98) ZIPLIST_HEAD; ZPush (replicate 300 99) ZIPLIST_HEAD; ZPush [49; 50] ZIPLIST_TAIL; ZInsert (-1) [45; 49; 48; 48; 48; 48; 48];
   ZFindNext [49; 50] 0; ZGet (-2); ZDelete 0; ZWalk 1; ZDeleteRange 1 7; ZLen; ZCompare 0 [98]].
Lemma sample_ops_ok : Forall op_ok sample_ops.
Proof. unfold sample_ops. repeat (apply Forall_cons; split); try apply Forall_nil; cbn [op_ok]; unfold in_u; try (split; [lia|]); try lia; try apply Forall_replicate; repeat constructor; lia. Qed.
Lemma ziplist_refines_witness : exists zl zl', ziplistNew true (fun _ => 7) = Some zl /\ run_ops (be:=true) (junk:=fun _ => 7) zl sample_ops = Some (zl', (spec_ops [] sample_ops).2) /\ represents zl' (spec_ops [] sample_ops).1.
Proof. apply ziplist_refines; [exact sample_ops_ok|vm_compute; reflexivity]. Defined.
Lemma sample_block : exists zl, represents zl [[97]; [49; 50]].
Proof.
  destruct (zl_new (be:=false) (junk:=fun _ => 0)) as (zl & _ & Hz). destruct (ops_refine false (fun _ => 0) [ZPush [97] ZIPLIST_TAIL; ZPush [49; 50] ZIPLIST_TAIL] zl [] ltac:(by exists [])) as (zl' & _ & Hr); [repeat (apply Forall_cons; split); try apply Forall_nil; cbn [op_ok]; repeat constructor; lia|vm_compute; reflexivity|]. by exists zl'.
Qed.
Lemma ziplist_merge_appends_witness : exists z1 zl kept, represents z1 [[97]; [49; 50]] /\ ziplistMerge false (fun _ => 0) z1 z1 = Some (zl, kept) /\ represents zl ([[97]; [49; 50]] ++ [[97]; [49; 50]]).
Proof.
  destruct sample_block as (z1 & H1). destruct (ziplist_merge_appends false (fun _ => 0) z1 z1 [[97]; [49; 50]] [[97]; [49; 50]] H1 H1 ltac:(done) ltac:(vm_compute; reflexivity)) as (zl & kept & E & Hr). by exists z1, zl, kept.
Defined.
