(* ===== verification/Thash.v ===== *)
(** * Hashes (t_hash.c)

    A hash object is a ziplist of fields and values in turn, or a hash table;
    a ziplist becomes a hash table when it gets too many entries or when a
    command has an argument that is too long.  The commands work on a keyspace
    of hashes and values of other types.  Hashes refine finite maps from byte
    strings to byte strings, whatever their encoding: the proofs use the
    ziplist through its specification in [ZiplistSpec].  Lengths and counts in
    replies are unbounded integers where the code has an int or an unsigned
    long. *)
From Stdlib Require Import Strings.String.
From S2P Require Import Prelude Endian Util Ziplist ZiplistEdit ZiplistSpec.
#[local] Open Scope cmem_scope.

Inductive hashobj := HZiplist (zl : list Z) | HTable (d : gmap (list Z) (list Z)).
Inductive hash_what := OBJ_HASH_KEY | OBJ_HASH_VALUE.

Section Thash.
  Context `{DictOrder} (be : bool) (junk : nat -> Z) (hash_max_ziplist_entries hash_max_ziplist_value : Z).

Definition createHashObject : option hashobj := zl ← ziplistNew be junk; Some (HZiplist zl).

(** ** Looking up *)
(** The pointer to the field, in the three functions that search it. *)
Definition find_field (zl field : list Z) : option (option Z) :=
  fptr ← ziplistIndex be zl 0;
  match fptr with None => Some None | Some fptr => ziplistFind be zl fptr field 1 end.
(** The pointer to the value; the assertion that there is one. *)
Definition value_after (zl : list Z) (fptr : Z) : option Z := vptr ← ziplistNext zl fptr; vptr.
Definition hashTypeGetFromZiplist (zl field : list Z) : option (option zlvalue) :=
  fptr ← find_field zl field;
  match fptr with
  | None => Some None
  | Some fptr => vptr ← value_after zl fptr; r ← ziplistGet be zl vptr; match r with None => None | Some v => Some (Some v) end
  end.
Definition hashTypeGetFromHashTable (d : gmap (list Z) (list Z)) (field : list Z) : option (list Z) := d !! field.
Definition hashTypeGetValue (o : hashobj) (field : list Z) : option (option zlvalue) :=
  match o with
  | HZiplist zl => hashTypeGetFromZiplist zl field
  | HTable d => Some (ZlStr <$> hashTypeGetFromHashTable d field)
  end.
Definition hashTypeGetValueLength (o : hashobj) (field : list Z) : option Z :=
  match o with
  | HZiplist zl =>
      r ← hashTypeGetFromZiplist zl field;
      Some (match r with None => 0 | Some (ZlStr s) => zlen s | Some (ZlInt v) => sdigits10 v end)
  | HTable d => Some (match hashTypeGetFromHashTable d field with None => 0 | Some s => zlen s end)
  end.
Definition hashTypeExists (o : hashobj) (field : list Z) : option bool :=
  match o with
  | HZiplist zl => r ← hashTypeGetFromZiplist zl field; Some (match r with Some _ => true | None => false end)
  | HTable d => Some (match hashTypeGetFromHashTable d field with Some _ => true | None => false end)
  end.
(** The length, with the object, in which ziplistLen may have stored it. *)
Definition hashTypeLength (o : hashobj) : option (hashobj * Z) :=
  match o with
  | HZiplist zl => '(zl, n) ← ziplistLen be zl; Some (HZiplist zl, n / 2)
  | HTable d => Some (o, Z.of_nat (size d))
  end.

(** ** Iterators *)
Inductive hashTypeIterator := IterZl (zl : list Z) (ptrs : option (Z * Z)) | IterHt (de : option (list Z * list Z)) (rest : list (list Z * list Z)).
Definition hashTypeInitIterator (subject : hashobj) : hashTypeIterator :=
  match subject with HZiplist zl => IterZl zl None | HTable d => IterHt None (entries d) end.
(** The inner [None] is C_ERR. *)
Definition hashTypeNext (hi : hashTypeIterator) : option (option hashTypeIterator) :=
  match hi with
  | IterZl zl ptrs =>
      fptr ← match ptrs with None => ziplistIndex be zl 0 | Some (_, vptr) => ziplistNext zl vptr end;
      match fptr with
      | None => Some None
      | Some fptr => vptr ← value_after zl fptr; Some (Some (IterZl zl (Some (fptr, vptr))))
      end
  | IterHt _ [] => Some None
  | IterHt _ (de :: rest) => Some (Some (IterHt (Some de) rest))
  end.
Definition hashTypeCurrentFromZiplist (zl : list Z) (ptrs : option (Z * Z)) (what : hash_what) : option zlvalue :=
  '(fptr, vptr) ← ptrs;
  r ← ziplistGet be zl (match what with OBJ_HASH_KEY => fptr | OBJ_HASH_VALUE => vptr end);
  r.
Definition hashTypeCurrentFromHashTable (de : option (list Z * list Z)) (what : hash_what) : option (list Z) :=
  '(key, val) ← de; Some (match what with OBJ_HASH_KEY => key | OBJ_HASH_VALUE => val end).
Definition hashTypeCurrentObject (hi : hashTypeIterator) (what : hash_what) : option zlvalue :=
  match hi with
  | IterZl zl ptrs => hashTypeCurrentFromZiplist zl ptrs what
  | IterHt de _ => ele ← hashTypeCurrentFromHashTable de what; Some (ZlStr ele)
  end.
(** sdsfromlonglong writes the decimal notation. *)
Definition hashTypeCurrentObjectNewSds (hi : hashTypeIterator) (what : hash_what) : option (list Z) :=
  v ← hashTypeCurrentObject hi what; Some (value_str v).
(** The fields and values of a [while (hashTypeNext(hi) != C_ERR)] loop. *)
Fixpoint walk (fuel : nat) (hi : hashTypeIterator) : option (list (list Z * list Z)) :=
  match fuel with
  | O => None
  | S fuel =>
      r ← hashTypeNext hi;
      match r with
      | None => Some []
      | Some hi =>
          key ← hashTypeCurrentObjectNewSds hi OBJ_HASH_KEY;
          val ← hashTypeCurrentObjectNewSds hi OBJ_HASH_VALUE;
          l ← walk fuel hi; Some ((key, val) :: l)
      end
  end.
Definition iterate (o : hashobj) : option (list (list Z * list Z)) :=
  walk (match o with HZiplist zl => S (length zl) | HTable d => S (size d) end) (hashTypeInitIterator o).

(** ** Conversion *)
(** A duplicate field is a corrupted ziplist: serverPanic. *)
Fixpoint dict_of (d : gmap (list Z) (list Z)) (l : list (list Z * list Z)) : option (gmap (list Z) (list Z)) :=
  match l with
  | [] => Some d
  | (key, val) :: l => match d !! key with Some _ => None | None => dict_of (<[key := val]> d) l end
  end.
(** To OBJ_ENCODING_HT, the only encoding it is called with. *)
Definition hashTypeConvertZiplist (zl : list Z) : option hashobj :=
  l ← iterate (HZiplist zl); d ← dict_of ∅ l; Some (HTable d).
Definition hashTypeConvert (o : hashobj) : option hashobj :=
  match o with HZiplist zl => hashTypeConvertZiplist zl | HTable _ => None end.
Definition hashTypeTryConversion (o : hashobj) (argv : list (list Z)) : option hashobj :=
  match o with
  | HTable _ => Some o
  | HZiplist _ => if existsb (fun a => zlen a >? hash_max_ziplist_value) argv then hashTypeConvert o else Some o
  end.

(** ** Changing *)
(** Whether the field was there. *)
Definition hashTypeSet (o : hashobj) (field value : list Z) : option (hashobj * bool) :=
  match o with
  | HZiplist zl =>
      fptr ← find_field zl field;
      '(zl, update) ← match fptr with
        | Some fptr =>
            vptr ← value_after zl fptr;
            '(zl, vptr) ← ziplistDelete be junk zl vptr;
            zl ← ziplistInsert be junk zl vptr value;
            Some (zl, true)
        | None =>
            zl ← ziplistPush be junk zl field ZIPLIST_TAIL;
            zl ← ziplistPush be junk zl value ZIPLIST_TAIL;
            Some (zl, false)
        end;
      '(o, n) ← hashTypeLength (HZiplist zl);
      o ← (if n >? hash_max_ziplist_entries then hashTypeConvert o else Some o);
      Some (o, update)
  | HTable d => Some (HTable (<[field := value]> d), match d !! field with Some _ => true | None => false end)
  end.
Definition hashTypeDelete (o : hashobj) (field : list Z) : option (hashobj * bool) :=
  match o with
  | HZiplist zl =>
      fptr ← find_field zl field;
      match fptr with
      | Some fptr => '(zl, fptr) ← ziplistDelete be junk zl fptr; '(zl, _) ← ziplistDelete be junk zl fptr; Some (HZiplist zl, true)
      | None => Some (o, false)
      end
  | HTable d => Some (HTable (delete field d), match d !! field with Some _ => true | None => false end)
  end.

(** ** The keyspace *)
Inductive value := VHash (o : hashobj) | VOther (type : Z).
Record state := mk_state {
  db : gmap (list Z) value;
  dirty : Z;
  touched : list (list Z);            (* signalModifiedKey, latest first *)
  notified : list (list Z * list Z)   (* notifyKeyspaceEvent: the event and the key *)
}.
(** An array or a map with the length that is announced. *)
Inductive reply := ReplyInt (n : Z) | ReplyWrongType | ReplyError (msg : list Z) | ReplyOk
  | ReplyBulk (s : option (list Z)) | ReplyArray (len : Z) (l : list (option (list Z))) | ReplyMap (len : Z) (l : list (list Z * list Z)).
#[local] Abbreviation text s := (bytes_of_string s%string).

Definition set_db (st : state) (m : gmap (list Z) value) : state := mk_state m (dirty st) (touched st) (notified st).
Definition put_hash (st : state) (key : list Z) (o : hashobj) : state := set_db st (<[key := VHash o]> (db st)).
(** signalModifiedKey, notifyKeyspaceEvent and the increment of dirty. *)
Definition signal (st : state) (event key : list Z) (n : Z) : state := mk_state (db st) (dirty st + n) (key :: touched st) ((event, key) :: notified st).
(** The inner [None] is a value of another type. *)
Definition hashTypeLookupWriteOrCreate (st : state) (key : list Z) : option (option (state * hashobj)) :=
  match db st !! key with
  | None => o ← createHashObject; Some (Some (put_hash st key o, o))
  | Some (VHash o) => Some (Some (st, o))
  | Some (VOther _) => Some None
  end.

(** ** Commands *)
Definition hsetnxCommand (st : state) (key field value : list Z) : option (state * reply) :=
  r ← hashTypeLookupWriteOrCreate st key;
  match r with
  | None => Some (st, ReplyWrongType)
  | Some (st, o) =>
      o ← hashTypeTryConversion o [field; value];
      let st := put_hash st key o in
      exists_ ← hashTypeExists o field;
      if (exists_ : bool) then Some (st, ReplyInt 0)
      else
        '(o, _) ← hashTypeSet o field value;
        Some (signal (put_hash st key o) (text "hset") key 1, ReplyInt 1)
  end.
(** [for (i = 2; i < c->argc; i += 2) created += !hashTypeSet(...)] *)
Fixpoint set_all (o : hashobj) (args : list (list Z)) (created : Z) : option (hashobj * Z) :=
  match args with
  | field :: value :: args => '(o, update) ← hashTypeSet o field value; set_all o args (if (update : bool) then created else created + 1)
  | _ => Some (o, created)
  end.
(** HSET, and HMSET with [hmset]; [args] is what follows the key. *)
Definition hsetCommand (hmset : bool) (st : state) (key : list Z) (args : list (list Z)) : option (state * reply) :=
  if Nat.odd (2 + length args) then Some (st, ReplyError (text "wrong number of arguments for HMSET"))
  else
    r ← hashTypeLookupWriteOrCreate st key;
    match r with
    | None => Some (st, ReplyWrongType)
    | Some (st, o) =>
        o ← hashTypeTryConversion o args;
        '(o, created) ← set_all o args 0;
        Some (signal (put_hash st key o) (text "hset") key 1, if hmset then ReplyOk else ReplyInt created)
    end.
Definition hincrbyCommand (st : state) (key field arg : list Z) : option (state * reply) :=
  match string2ll arg with
  | None => Some (st, ReplyError (text "value is not an integer or out of range"))
  | Some incr =>
      r ← hashTypeLookupWriteOrCreate st key;
      match r with
      | None => Some (st, ReplyWrongType)
      | Some (st, o) =>
          v ← hashTypeGetValue o field;
          match match v with None => Some 0 | Some (ZlStr s) => string2ll s | Some (ZlInt n) => Some n end with
          | None => Some (st, ReplyError (text "hash value is not an integer"))
          | Some oldvalue =>
              if ((incr <? 0) && (oldvalue <? 0) && (incr <? LLONG_MIN - oldvalue)) || ((incr >? 0) && (oldvalue >? 0) && (incr >? LLONG_MAX - oldvalue)) then
                Some (st, ReplyError (text "increment or decrement would overflow"))
              else
                let value := oldvalue + incr in
                '(o, _) ← hashTypeSet o field (dec value);
                Some (signal (put_hash st key o) (text "hincrby") key 1, ReplyInt value)
          end
      end
  end.
Definition addHashFieldToReply (o : option hashobj) (field : list Z) : option (option (list Z)) :=
  match o with
  | None => Some None
  | Some o => v ← hashTypeGetValue o field; Some (option_map value_str v)
  end.
Definition hgetCommand (st : state) (key field : list Z) : option reply :=
  match db st !! key with
  | None => Some (ReplyBulk None)
  | Some (VOther _) => Some ReplyWrongType
  | Some (VHash o) => r ← addHashFieldToReply (Some o) field; Some (ReplyBulk r)
  end.
Fixpoint get_all (o : option hashobj) (fields : list (list Z)) : option (list (option (list Z))) :=
  match fields with
  | [] => Some []
  | f :: fields => r ← addHashFieldToReply o f; l ← get_all o fields; Some (r :: l)
  end.
Definition hmgetCommand (st : state) (key : list Z) (fields : list (list Z)) : option reply :=
  match db st !! key with
  | Some (VOther _) => Some ReplyWrongType
  | None => l ← get_all None fields; Some (ReplyArray (zlen fields) l)
  | Some (VHash o) => l ← get_all (Some o) fields; Some (ReplyArray (zlen fields) l)
  end.
(** The fields deleted, and whether the hash became empty, which ends the
    loop. *)
Fixpoint delete_all (o : hashobj) (fields : list (list Z)) (deleted : Z) : option (hashobj * Z * bool) :=
  match fields with
  | [] => Some (o, deleted, false)
  | f :: fields =>
      '(o, ok) ← hashTypeDelete o f;
      if (ok : bool) then
        '(o, n) ← hashTypeLength o;
        if n =? 0 then Some (o, deleted + 1, true) else delete_all o fields (deleted + 1)
      else delete_all o fields deleted
  end.
Definition hdelCommand (st : state) (key : list Z) (fields : list (list Z)) : option (state * reply) :=
  match db st !! key with
  | None => Some (st, ReplyInt 0)
  | Some (VOther _) => Some (st, ReplyWrongType)
  | Some (VHash o) =>
      '(o, deleted, keyremoved) ← delete_all o fields 0;
      let st := put_hash st key o in
      let st := if (keyremoved : bool) then set_db st (delete key (db st)) else st in
      if negb (deleted =? 0) then
        let st := signal st (text "hdel") key deleted in
        let st := if keyremoved then mk_state (db st) (dirty st) (touched st) ((text "del", key) :: notified st) else st in
        Some (st, ReplyInt deleted)
      else Some (st, ReplyInt deleted)
  end.
Definition hlenCommand (st : state) (key : list Z) : option (state * reply) :=
  match db st !! key with
  | None => Some (st, ReplyInt 0)
  | Some (VOther _) => Some (st, ReplyWrongType)
  | Some (VHash o) => '(o, n) ← hashTypeLength o; Some (put_hash st key o, ReplyInt n)
  end.
Definition hstrlenCommand (st : state) (key field : list Z) : option reply :=
  match db st !! key with
  | None => Some (ReplyInt 0)
  | Some (VOther _) => Some ReplyWrongType
  | Some (VHash o) => n ← hashTypeGetValueLength o field; Some (ReplyInt n)
  end.
Definition hexistsCommand (st : state) (key field : list Z) : option reply :=
  match db st !! key with
  | None => Some (ReplyInt 0)
  | Some (VOther _) => Some ReplyWrongType
  | Some (VHash o) => b ← hashTypeExists o field; Some (ReplyInt (if (b : bool) then 1 else 0))
  end.
Inductive getall := HKeys | HVals | HGetall.
(** A missing key has the reply of an empty map whatever is asked for.  The
    assertion at the end compares the number of elements sent. *)
Definition genericHgetallCommand (st : state) (key : list Z) (flags : getall) : option (state * reply) :=
  match db st !! key with
  | None => Some (st, ReplyMap 0 [])
  | Some (VOther _) => Some (st, ReplyWrongType)
  | Some (VHash o) =>
      '(o, len) ← hashTypeLength o;
      l ← iterate o;
      if zlen l =? len then
        Some (put_hash st key o, match flags with
          | HKeys => ReplyArray len (map (fun kv => Some kv.1) l)
          | HVals => ReplyArray len (map (fun kv => Some kv.2) l)
          | HGetall => ReplyMap len l end)
      else None
  end.
End Thash.

(** ** Ziplists of fields and values in turn *)
Section Pairs.
  Context (be : bool) (junk : nat -> Z).
Fixpoint flat (l : list (list Z * list Z)) : list (list Z) := match l with [] => [] | (k, v) :: l => k :: v :: flat l end.
Lemma flat_app a b : flat (a ++ b) = flat a ++ flat b.
Proof. induction a as [|[k v] a IH]; [done|]. cbn [flat app]. by rewrite IH. Qed.
Lemma flat_len l : length (flat l) = (2 * length l)%nat.
Proof. induction l as [|[k v] l IH]; [done|]. cbn [flat length]. lia. Qed.
Lemma find_flat f l : match find_ix 1 0 (flat l) f with
  | Some k => exists l1 v l2, l = l1 ++ (f, v) :: l2 /\ k = length (flat l1) /\ f ∉ l1.*1
  | None => f ∉ l.*1 end.
Proof.
  induction l as [|[k v] l IH]; [apply not_elem_of_nil|]. cbn [flat find_ix]. destruct (bool_decide_reflect (k = f)) as [->|Hne].
  - exists [], v, l. split; [done|]. split; [done|apply not_elem_of_nil].
  - destruct (find_ix 1 0 (flat l) f) as [j|]; cbn [fmap option_fmap option_map].
    + destruct IH as (l1 & w & l2 & -> & -> & Hn). exists ((k, v) :: l1), w, l2. split; [done|]. split; [done|]. cbn. rewrite elem_of_cons. naive_solver.
    + cbn. rewrite elem_of_cons. naive_solver.
Qed.
(** The entries around a place of the list of strings. *)
Lemma strings_split es a b : strings es = a ++ b -> exists p q, es = p ++ q /\ strings p = a /\ strings q = b.
Proof.
  intros E. exists (take (length a) es), (drop (length a) es). rewrite take_drop. split; [done|]. rewrite strings_take, strings_drop, E. split; [apply take_app_length|apply drop_app_length].
Qed.
Lemma strings_cons es x b : strings es = x :: b -> exists e q, es = e :: q /\ body_str (z_body e) = x /\ strings q = b.
Proof. destruct es as [|e q]; [done|]. intros [= E1 E2]. by exists e, q. Qed.
Lemma strings_pair es a k v b : strings es = a ++ k :: v :: b -> exists p ek ev r, es = p ++ ek :: ev :: r /\ strings p = a /\ body_str (z_body ek) = k /\ body_str (z_body ev) = v /\ strings r = b.
Proof.
  intros E. destruct (strings_split es a (k :: v :: b) E) as (p & q & -> & Ep & Eq). destruct (strings_cons q k _ Eq) as (ek & q2 & -> & Ek & Eq2). destruct (strings_cons q2 v _ Eq2) as (ev & r & -> & Ev & Er). by exists p, ek, ev, r.
Qed.
Lemma find_field_spec zl es f l : zl_of zl es -> strings es = flat l ->
  (f ∉ l.*1 /\ find_field be zl f = Some None) \/
  (exists l1 v l2 p ek ev r, l = l1 ++ (f, v) :: l2 /\ f ∉ l1.*1 /\ es = p ++ ek :: ev :: r /\ strings p = flat l1 /\ body_str (z_body ek) = f /\ body_str (z_body ev) = v /\ strings r = flat l2 /\ find_field be zl f = Some (Some (10 + sz p))).
Proof.
  intros Hz Es. pose proof (find_flat f l) as Hf. unfold find_field. rewrite (zl_index zl es 0 Hz) by lia. cbn [mbind option_bind]. destruct es as [|e es].
  - left. destruct l as [|[k v] l]; [|done]. split; [apply not_elem_of_nil|done].
  - change (place (e :: es) 0) with (Some 0%nat). cbn [fmap option_fmap option_map]. change (10 + sz (take 0 (e :: es))) with 10. pose proof (zl_find (be:=be) zl (e :: es) f 1 Hz) as Efind. change (Z.of_nat 1) with 1 in Efind. rewrite Efind, Es. destruct (find_ix 1 0 (flat l) f) as [k|]; [|by left]. right. destruct Hf as (l1 & v & l2 & -> & -> & Hn). rewrite flat_app in Es. cbn [flat] in Es.
    destruct (strings_pair _ _ _ _ _ Es) as (p & ek & ev & r & E & Ep & Ek & Ev & Er). exists l1, v, l2, p, ek, ev, r. split; [done|]. split; [done|]. split; [done|]. split; [done|]. split; [done|]. split; [done|]. split; [done|]. cbn [fmap option_fmap option_map]. do 4 f_equal. rewrite E, <- Ep, strings_len. apply take_app_length.
Qed.
Lemma value_after_spec zl p ek ev r : zl_of zl (p ++ ek :: ev :: r) -> value_after zl (10 + sz p) = Some (10 + sz (p ++ [ek])).
Proof. intros Hz. unfold value_after. by rewrite (zl_next (be:=be) zl p ek _ Hz). Qed.
(** A field and its value deleted. *)
Lemma zl_delete_pair zl p e1 e2 r : zl_of zl (p ++ e1 :: e2 :: r) -> 40 + weight (strings (p ++ e1 :: e2 :: r)) < 2 ^ 32 ->
  exists zl1 zl2, ziplistDelete be junk zl (10 + sz p) = Some (zl1, 10 + sz p) /\ ziplistDelete be junk zl1 (10 + sz p) = Some (zl2, 10 + sz p) /\ represents zl2 (strings p ++ strings r).
Proof.
  intros Hz Hw. pose proof (zl_weight _ _ Hz) as [W1 W2]. pose proof (zlen_nonneg p). pose proof (zlen_nonneg r). rewrite zlen_app, !zlen_cons in W1. destruct (zl_delete (be:=be) (junk:=junk) zl p e1 (e2 :: r) 1 Hz ltac:(lia)) as (zl1 & E1 & q' & Hz1 & Hb & Hq); [rewrite zlen_cons; lia|]. change (Z.to_nat 1) with 1%nat in *. cbn [drop] in *; rewrite ?drop_0 in *.
  destruct q' as [|e2' r']; [done|]. injection Hb as Hb1 Hb2. pose proof (zl_weight _ _ Hz1) as [W3 W4]. rewrite strings_app in W3, Hw. cbn [strings map] in W3, Hw. fold (strings r) in Hw. fold (strings r') in W3. rewrite Hb1, (strings_body _ _ Hb2) in W3. rewrite weight_app in W3, Hw. rewrite weight_cons in W3. rewrite weight_cons in Hw. rewrite weight_cons in Hw. pose proof (zlen_nonneg (body_str (z_body e1))). rewrite zlen_app, zlen_cons in W3. pose proof (zlen_nonneg r').
  destruct (zl_delete (be:=be) (junk:=junk) zl1 p e2' r' 1 Hz1 ltac:(lia)) as (zl2 & E2 & q2 & Hz2 & Hc & _); [lia|]. change (Z.to_nat 1) with 1%nat in *. cbn [drop] in *; rewrite ?drop_0 in *. exists zl1, zl2. unfold ziplistDelete. rewrite E1, E2. split; [done|]. split; [done|]. eexists. split; [exact Hz2|]. by rewrite strings_app, (strings_body _ _ Hc), (strings_body _ _ Hb2).
Qed.
Lemma rep_push zl l s : represents zl l -> bytes_ok s -> 40 + weight l + zlen s + 18 < 2 ^ 32 -> exists zl', ziplistPush be junk zl s ZIPLIST_TAIL = Some zl' /\ represents zl' (l ++ [s]).
Proof.
  intros Hr Hs Hw. destruct (zl_step_refines be junk zl l (ZPush s ZIPLIST_TAIL) Hr Hs) as (zl' & E & Hr'); [cbn [op_weight]; lia|]. cbn [run_op spec_op fst snd] in *. destruct (ziplistPush be junk zl s ZIPLIST_TAIL) as [z|]; [|done]. injection E as ->. by exists zl'.
Qed.
End Pairs.

(** ** The hash type *)
Section TypeSpec.
  Context `{DictOrder} (be : bool) (junk : nat -> Z) (hash_max_ziplist_entries hash_max_ziplist_value : Z).
#[local] Abbreviation hset := (hashTypeSet be junk hash_max_ziplist_entries).

(** The object holds the map; [W] bounds the weight of a ziplist. *)
Definition holds (W : Z) (o : hashobj) (m : gmap (list Z) (list Z)) : Prop :=
  match o with
  | HTable d => d = m
  | HZiplist zl => exists l, represents zl (flat l) /\ NoDup l.*1 /\ m = list_to_map l /\ weight (flat l) <= W
  end.
Lemma holds_mono W W' o m : holds W o m -> W <= W' -> holds W' o m.
Proof. destruct o as [zl|d]; [|done]. intros (l & H1 & H2 & H3 & H4) HW. exists l. split; [done|]. split; [done|]. split; [done|lia]. Qed.
Lemma map_at l1 f v l2 : NoDup (l1 ++ (f, v) :: l2).*1 -> (list_to_map (l1 ++ (f, v) :: l2) : gmap (list Z) (list Z)) !! f = Some v.
Proof. intros Hn. apply elem_of_list_to_map_1; [done|]. apply elem_of_app. right. apply elem_of_cons. by left. Qed.
Lemma map_not_in l f : f ∉ l.*1 -> (list_to_map l : gmap (list Z) (list Z)) !! f = None.
Proof. apply not_elem_of_list_to_map_1. Qed.
Lemma map_size (l : list (list Z * list Z)) : NoDup l.*1 -> size (list_to_map l : gmap (list Z) (list Z)) = length l.
Proof. intros Hn. rewrite <- length_map_to_list. by rewrite (map_to_list_to_map l Hn). Qed.
Lemma from_ziplist W zl m f : holds W (HZiplist zl) m -> exists r, hashTypeGetFromZiplist be zl f = Some r /\ option_map value_str r = m !! f /\ forall n, r = Some (ZlInt n) -> in_s 64 n.
Proof.
  intros (l & (es & Hz & Es) & Hn & -> & _). unfold hashTypeGetFromZiplist. destruct (find_field_spec be zl es f l Hz Es) as [[Hf ->]|(l1 & v & l2 & p & ek & ev & r & -> & Hf & -> & Ep & Ek & Ev & Er & ->)]; cbn [mbind option_bind].
  - exists None. split; [done|]. split; [by rewrite map_not_in|done].
  - rewrite (value_after_spec be zl p ek ev r Hz). cbn [mbind option_bind]. assert (Hz2 : zl_of zl ((p ++ [ek]) ++ ev :: r)) by (by rewrite <- app_assoc). destruct (zl_get (be:=be) zl _ ev r Hz2) as (x & -> & Hx & Hr). exists (Some x). split; [done|]. split; [cbn [option_map]; rewrite Hx, Ev; by rewrite map_at|]. intros n [= ->]. by apply Hr.
Qed.
Lemma hash_get_spec W o m f : holds W o m -> exists r, hashTypeGetValue be o f = Some r /\ option_map value_str r = m !! f /\ forall n, r = Some (ZlInt n) -> in_s 64 n.
Proof.
  destruct o as [zl|d]; [apply from_ziplist|]. intros <-. eexists. split; [done|]. unfold hashTypeGetFromHashTable. destruct (d !! f); done.
Qed.
Lemma exists_spec W o m f : holds W o m -> hashTypeExists be o f = Some (bool_decide (is_Some (m !! f))).
Proof.
  destruct o as [zl|d]; cbn [hashTypeExists].
  - intros Ho. destruct (from_ziplist W zl m f Ho) as (r & -> & Hr & _). cbn [mbind option_bind]. rewrite <- Hr. f_equal. destruct r; cbn [option_map]; symmetry; [apply bool_decide_eq_true_2; eauto|apply bool_decide_eq_false_2; by intros [? ?]].
  - intros <-. unfold hashTypeGetFromHashTable. f_equal. destruct (d !! f); symmetry; [apply bool_decide_eq_true_2; eauto|apply bool_decide_eq_false_2; by intros [? ?]].
Qed.
Lemma value_length_spec W o m f : holds W o m -> hashTypeGetValueLength be o f = Some (match m !! f with Some s => zlen s | None => 0 end).
Proof.
  destruct o as [zl|d]; cbn [hashTypeGetValueLength].
  - intros Ho. destruct (from_ziplist W zl m f Ho) as (r & -> & Hr & Hi). cbn [mbind option_bind]. rewrite <- Hr. f_equal. destruct r as [[s|n]|]; [done| |done]. cbn [option_map value_str]. by apply sdigits10_dec, Hi.
  - intros <-. done.
Qed.
Lemma length_spec W o m : holds W o m -> exists o', hashTypeLength be o = Some (o', Z.of_nat (size m)) /\ holds W o' m.
Proof.
  destruct o as [zl|d]; cbn [hashTypeLength]; [|intros <-; by exists (HTable d)]. intros (l & (es & Hz & Es) & Hn & -> & HW). destruct (zl_length (be:=be) zl es Hz) as (zl' & -> & Hz'). cbn [mbind option_bind]. exists (HZiplist zl'). split.
  - do 3 f_equal. unfold zlen. rewrite <- strings_len, Es, flat_len, Nat2Z.inj_mul. change (Z.of_nat 2) with 2. rewrite Z.mul_comm, Z.div_mul by lia. by rewrite map_size.
  - exists l. split; [by exists es|]. by split.
Qed.
(** *** Iterating *)
Lemma walk_zl zl : forall l p q ptrs fuel, zl_of zl (p ++ q) -> strings q = flat l -> (length l < fuel)%nat ->
  match ptrs with None => ziplistIndex be zl 0 | Some (_, vptr) => ziplistNext zl vptr end = Some (match q with [] => None | _ => Some (10 + sz p) end) ->
  walk be fuel (IterZl zl ptrs) = Some l.
Proof.
  induction l as [|[k v] l IH]; intros p q ptrs fuel Hz Eq Hf Hstart; (destruct fuel as [|fuel]; [lia|]); cbn [walk hashTypeNext].
  - rewrite Hstart. by destruct q.
  - cbn [flat] in Eq. destruct (strings_cons q k _ Eq) as (ek & q2 & -> & Ek & Eq2). destruct (strings_cons q2 v _ Eq2) as (ev & r & -> & Ev & Er). rewrite Hstart. cbn [mbind option_bind]. rewrite (value_after_spec be zl p ek ev r Hz). cbn [mbind option_bind].
    assert (Hz2 : zl_of zl ((p ++ [ek]) ++ ev :: r)) by (by rewrite <- app_assoc). unfold hashTypeCurrentObjectNewSds. cbn [hashTypeCurrentObject hashTypeCurrentFromZiplist mbind option_bind]. destruct (zl_get (be:=be) zl p ek _ Hz) as (x & -> & Hx & _). destruct (zl_get (be:=be) zl _ ev r Hz2) as (y & -> & Hy & _). cbn [mbind option_bind].
    rewrite (IH ((p ++ [ek]) ++ [ev]) r (Some (10 + sz p, 10 + sz (p ++ [ek]))) fuel); [cbn [mbind option_bind]; by rewrite Hx, Hy, Ek, Ev|by rewrite <- app_assoc|done|cbn [length] in Hf; lia|by apply (zl_next (be:=be) zl _ ev r)].
Qed.
Lemma hash_walk_ht l : forall fuel de, (length l < fuel)%nat -> walk be fuel (IterHt de l) = Some l.
Proof.
  induction l as [|[k v] l IH]; intros fuel de Hf; (destruct fuel as [|fuel]; [lia|]); cbn [walk hashTypeNext]; [done|]. cbn [mbind option_bind]. cbn [length] in Hf. unfold hashTypeCurrentObjectNewSds. cbn [hashTypeCurrentObject hashTypeCurrentFromHashTable mbind option_bind value_str]. by rewrite IH by lia.
Qed.
Lemma iterate_zl W zl m : holds W (HZiplist zl) m -> exists l, iterate be (HZiplist zl) = Some l /\ NoDup l.*1 /\ m = list_to_map l.
Proof.
  intros (l & (es & Hz & Es) & Hn & -> & _). exists l. split; [|done]. unfold iterate. cbn [hashTypeInitIterator]. apply (walk_zl zl l [] es None); [done|done| |].
  - pose proof (zl_size _ _ Hz) as Hs. rewrite <- strings_len, Es, flat_len in Hs. lia.
  - rewrite (zl_index zl es 0 Hz) by lia. by destruct es.
Qed.
Lemma hash_iterate_spec W o m : holds W o m -> exists l, iterate be o = Some l /\ l ≡ₚ map_to_list m.
Proof.
  destruct o as [zl|d].
  - intros Ho. destruct (iterate_zl W zl m Ho) as (l & E & Hn & ->). exists l. split; [done|]. symmetry. by apply map_to_list_to_map.
  - intros <-. exists (entries d). split; [|apply entries_perm]. unfold iterate. cbn [hashTypeInitIterator]. apply hash_walk_ht. assert (Hl : length (entries d) = size d) by (rewrite (Permutation_length (entries_perm d)); apply length_map_to_list). lia.
Qed.
(** *** Conversion *)
Lemma dict_of_spec l : forall d, NoDup l.*1 -> (forall k, k ∈ l.*1 -> d !! k = None) -> dict_of d l = Some (list_to_map l ∪ d).
Proof.
  induction l as [|[k v] l IH]; intros d Hn Hd; cbn [dict_of]; [cbn; by rewrite (left_id_L ∅ (∪))|]. cbn in Hn. apply NoDup_cons in Hn as [Hk Hn]. rewrite (Hd k) by (cbn; apply elem_of_cons; by left). rewrite IH; [|done|intros j Hj; rewrite lookup_insert_ne by (intros ->; done); apply Hd; cbn; apply elem_of_cons; by right]. f_equal. cbn. rewrite <- insert_union_l. symmetry. apply insert_union_r. by apply map_not_in.
Qed.
Lemma hash_convert_spec W zl m : holds W (HZiplist zl) m -> hashTypeConvert be (HZiplist zl) = Some (HTable m).
Proof.
  intros Ho. destruct (iterate_zl W zl m Ho) as (l & E & Hn & ->). cbn [hashTypeConvert]. unfold hashTypeConvertZiplist. rewrite E. cbn [mbind option_bind]. rewrite dict_of_spec by done. cbn [mbind option_bind]. by rewrite (right_id_L ∅ (∪)).
Qed.
Lemma try_conversion_spec W o m argv : holds W o m -> exists o', hashTypeTryConversion be hash_max_ziplist_value o argv = Some o' /\ holds W o' m.
Proof.
  intros Ho. destruct o as [zl|d]; cbn [hashTypeTryConversion]; [|by exists (HTable d)]. destruct (existsb _ argv); [|by exists (HZiplist zl)]. rewrite (hash_convert_spec W zl m Ho). by exists (HTable m).
Qed.
(** *** Changing *)
Lemma length_ziplist zl o n : hashTypeLength be (HZiplist zl) = Some (o, n) -> exists zl', o = HZiplist zl'.
Proof. cbn [hashTypeLength]. destruct (ziplistLen be zl) as [[zl' k]|]; [|done]. cbn [mbind option_bind]. intros [= <- _]. by exists zl'. Qed.
Lemma after_set W zl m (update : bool) : holds W (HZiplist zl) m -> exists o', ('(o, n) ← hashTypeLength be (HZiplist zl); o ← (if n >? hash_max_ziplist_entries then hashTypeConvert be o else Some o); Some (o, update)) = Some (o', update) /\ holds W o' m.
Proof.
  intros Ho. destruct (length_spec W _ m Ho) as (o1 & E & Ho1). destruct (length_ziplist zl o1 _ E) as (zl1 & ->). rewrite E. cbn [mbind option_bind]. destruct (_ >? _); [|by exists (HZiplist zl1)]. rewrite (hash_convert_spec W zl1 m Ho1). by exists (HTable m).
Qed.
Lemma insert_at (l1 : list (list Z * list Z)) f v old l2 : NoDup (l1 ++ (f, old) :: l2).*1 -> (<[f := v]> (list_to_map (l1 ++ (f, old) :: l2)) : gmap (list Z) (list Z)) = list_to_map (l1 ++ (f, v) :: l2).
Proof.
  intros Hn. rewrite fmap_app in Hn. apply NoDup_app in Hn as (_ & Hd & _). assert (Hf : f ∉ l1.*1) by (intros Hin; apply (Hd f Hin); cbn; apply elem_of_cons; by left). rewrite !list_to_map_app. cbn [list_to_map foldr uncurry]. rewrite <- !insert_union_r by (by apply map_not_in). cbn. by rewrite insert_insert_eq.
Qed.
Lemma delete_at (l1 : list (list Z * list Z)) f v l2 : NoDup (l1 ++ (f, v) :: l2).*1 -> (delete f (list_to_map (l1 ++ (f, v) :: l2)) : gmap (list Z) (list Z)) = list_to_map (l1 ++ l2).
Proof.
  intros Hn. rewrite fmap_app in Hn. apply NoDup_app in Hn as (_ & Hd & Hn2). cbn in Hn2. apply NoDup_cons in Hn2 as [Hf2 _]. assert (Hf : f ∉ l1.*1) by (intros Hin; apply (Hd f Hin); cbn; apply elem_of_cons; by left). rewrite !list_to_map_app. cbn [list_to_map foldr uncurry]. rewrite delete_union, delete_id by (by apply map_not_in). f_equal. cbn. rewrite delete_insert_eq. by apply delete_id, map_not_in.
Qed.
Lemma set_spec W o m f v : holds W o m -> bytes_ok f -> bytes_ok v -> 80 + W + zlen f + zlen v + 36 < 2 ^ 32 ->
  exists o', hset o f v = Some (o', bool_decide (is_Some (m !! f))) /\ holds (W + zlen f + zlen v + 36) o' (<[f := v]> m).
Proof.
  intros Ho Hf Hv HW. pose proof (zlen_nonneg f). pose proof (zlen_nonneg v). destruct o as [zl|d]; cbn [hashTypeSet].
  2: { rewrite Ho. exists (HTable (<[f := v]> m)). split; [|done]. do 2 f_equal. destruct (m !! f); symmetry; [apply bool_decide_eq_true_2; eauto|apply bool_decide_eq_false_2; by intros [? ?]]. }
  destruct Ho as (l & (es & Hz & Es) & Hn & -> & HWl). destruct (find_field_spec be zl es f l Hz Es) as [[Hnf ->]|(l1 & old & l2 & p & ek & ev & r & -> & Hnf & -> & Ep & Ek & Ev & Er & ->)]; cbn [mbind option_bind].
  - rewrite (map_not_in l f Hnf), bool_decide_eq_false_2 by (by intros [? ?]). destruct (rep_push be junk zl (flat l) f) as (zl1 & -> & Hr1); [by exists es|done|lia|]. cbn [mbind option_bind]. destruct (rep_push be junk zl1 (flat l ++ [f]) v Hr1 Hv) as (zl2 & -> & Hr2); [rewrite weight_app, weight_cons; change (weight []) with 0; lia|]. cbn [mbind option_bind]. apply after_set. exists (l ++ [(f, v)]). rewrite flat_app. cbn [flat]. rewrite <- app_assoc in Hr2. split; [done|]. split; [|split].
    + rewrite fmap_app. apply NoDup_app. split; [done|]. split; [|apply NoDup_singleton]. intros x Hx Hx2. cbn in Hx2. apply list_elem_of_singleton in Hx2 as ->. done.
    + rewrite list_to_map_app. cbn. rewrite <- insert_union_r by (by apply map_not_in). by rewrite (right_id_L ∅ (∪)).
    + rewrite weight_app, !weight_cons. change (weight []) with 0. lia.
  - rewrite (map_at l1 f old l2 Hn), bool_decide_eq_true_2 by eauto. rewrite (value_after_spec be zl p ek ev r Hz). cbn [mbind option_bind]. rewrite flat_app in Es, HWl. cbn [flat] in Es, HWl. assert (Hz2 : zl_of zl ((p ++ [ek]) ++ ev :: r)) by (by rewrite <- app_assoc). destruct (zl_replace be junk zl (p ++ [ek]) ev r v Hz2 Hv) as (zl1 & zl2 & E1 & E2 & Hr); [rewrite <- app_assoc; cbn [app]; rewrite Es; lia|].
    rewrite E1. cbn [mbind option_bind]. rewrite E2. cbn [mbind option_bind]. rewrite insert_at by done. apply after_set. exists (l1 ++ (f, v) :: l2). rewrite strings_app in Hr. cbn [strings map] in Hr. fold (strings r) in Hr. rewrite Ep, Ek, Er, <- app_assoc in Hr. rewrite flat_app. cbn [flat]. split; [done|]. split; [by rewrite fmap_app in *|]. split; [done|]. rewrite weight_app, !weight_cons in *. pose proof (zlen_nonneg old). lia.
Qed.
Lemma hash_delete_spec W o m f : holds W o m -> 80 + W < 2 ^ 32 -> exists o', hashTypeDelete be junk o f = Some (o', bool_decide (is_Some (m !! f))) /\ holds W o' (delete f m).
Proof.
  intros Ho HW. destruct o as [zl|d]; cbn [hashTypeDelete].
  2: { rewrite Ho. exists (HTable (delete f m)). split; [|done]. do 2 f_equal. destruct (m !! f); symmetry; [apply bool_decide_eq_true_2; eauto|apply bool_decide_eq_false_2; by intros [? ?]]. }
  pose proof Ho as (l & (es & Hz & Es) & Hn & -> & HWl). destruct (find_field_spec be zl es f l Hz Es) as [[Hnf ->]|(l1 & old & l2 & p & ek & ev & r & -> & Hnf & -> & Ep & Ek & Ev & Er & ->)]; cbn [mbind option_bind].
  - rewrite (map_not_in l f Hnf), bool_decide_eq_false_2 by (by intros [? ?]). exists (HZiplist zl). split; [done|]. by rewrite delete_id by (by apply map_not_in).
  - rewrite (map_at l1 f old l2 Hn), bool_decide_eq_true_2 by eauto. rewrite flat_app in Es, HWl. cbn [flat] in Es, HWl. destruct (zl_delete_pair be junk zl p ek ev r Hz) as (zl1 & zl2 & E1 & E2 & Hr); [rewrite Es; lia|]. rewrite E1. cbn [mbind option_bind]. rewrite E2. cbn [mbind option_bind]. exists (HZiplist zl2). split; [done|]. rewrite delete_at by done. exists (l1 ++ l2). rewrite Ep, Er in Hr. rewrite flat_app. split; [done|]. split; [|split; [done|]].
    + rewrite fmap_app in *. cbn in Hn. apply NoDup_app in Hn as (Hn1 & Hd & Hn2). apply NoDup_cons in Hn2 as [_ Hn2]. apply NoDup_app. split; [done|]. split; [|done]. intros x Hx Hx2. apply (Hd x Hx). apply elem_of_cons. by right.
    + rewrite weight_app, !weight_cons in *. pose proof (zlen_nonneg old). pose proof (zlen_nonneg f). lia.
Qed.
Lemma hash_create_spec W : 0 <= W -> exists o, createHashObject be junk = Some o /\ holds W o ∅.
Proof. intros HW. unfold createHashObject. destruct (zl_new (be:=be) (junk:=junk)) as (zl & -> & Hz). eexists. split; [done|]. exists []. split; [by exists []|]. split; [apply NoDup_nil_2|]. by split. Qed.
End TypeSpec.

(** ** The specification of the commands *)
Abbreviation fields := (gmap (list Z) (list Z)).
Abbreviation keyspace := (gmap (list Z) (fields + Z)).
Definition get (sp : keyspace) (k : list Z) : fields := match sp !! k with Some (inl m) => m | _ => ∅ end.
(** A key whose hash becomes empty disappears. *)
Definition put (sp : keyspace) (k : list Z) (m : fields) : keyspace := if decide (m = ∅) then delete k sp else <[k := inl m]> sp.
Definition wrong_type (sp : keyspace) (k : list Z) : bool := match sp !! k with Some (inr _) => true | _ => false end.
#[local] Abbreviation text s := (bytes_of_string s%string).
Inductive cmd :=
  | HSETNX (k f v : list Z) | HSET (hmset : bool) (k : list Z) (args : list (list Z)) | HINCRBY (k f arg : list Z) | HGET (k f : list Z) | HMGET (k : list Z) (fs : list (list Z))
  | HDEL (k : list Z) (fs : list (list Z)) | HLEN (k : list Z) | HSTRLEN (k f : list Z) | HEXISTS (k f : list Z) | HALL (flags : getall) (k : list Z).
Definition key_of (c : cmd) : list Z :=
  match c with HSETNX k _ _ | HSET _ k _ | HINCRBY k _ _ | HGET k _ | HMGET k _ | HDEL k _ | HLEN k | HSTRLEN k _ | HEXISTS k _ | HALL _ k => k end.
Inductive sreply := SInt (n : Z) | SWrong | SError (msg : list Z) | SOk | SBulk (s : option (list Z)) | SArray (l : list (option (list Z))) | SAll (flags : getall) (m : fields) | SEmptyMap.
Fixpoint set_pairs (m : fields) (args : list (list Z)) : fields := match args with f :: v :: args => set_pairs (<[f := v]> m) args | _ => m end.
Definition without (m : fields) (fs : list (list Z)) : fields := foldl (fun m f => delete f m) m fs.
(** What a command does to the hash of its key, when its value is a hash or
    the key is missing. *)
Definition spec_hash (m : fields) (c : cmd) : fields * sreply :=
  match c with
  | HSETNX _ f v => match m !! f with Some _ => (m, SInt 0) | None => (<[f := v]> m, SInt 1) end
  | HSET hmset _ args => let m' := set_pairs m args in (m', if hmset then SOk else SInt (Z.of_nat (size m') - Z.of_nat (size m)))
  | HINCRBY _ f arg =>
      match string2ll arg, match m !! f with None => Some 0 | Some s => string2ll s end with
      | None, _ => (m, SError (text "value is not an integer or out of range"))
      | _, None => (m, SError (text "hash value is not an integer"))
      | Some incr, Some old => if decide (in_s 64 (old + incr)) then (<[f := dec (old + incr)]> m, SInt (old + incr)) else (m, SError (text "increment or decrement would overflow"))
      end
  | HGET _ f => (m, SBulk (m !! f))
  | HMGET _ fs => (m, SArray (map (fun f => m !! f) fs))
  | HDEL _ fs => let m' := without m fs in (m', SInt (Z.of_nat (size m) - Z.of_nat (size m')))
  | HLEN _ => (m, SInt (Z.of_nat (size m)))
  | HSTRLEN _ f => (m, SInt (match m !! f with Some s => zlen s | None => 0 end))
  | HEXISTS _ f => (m, SInt (match m !! f with Some _ => 1 | None => 0 end))
  | HALL flags _ => (m, if decide (m = ∅) then SEmptyMap else SAll flags m)
  end.
(** The errors that are reported before the key is looked up. *)
Definition early_error (c : cmd) : option (list Z) :=
  match c with
  | HSET _ _ args => if Nat.odd (length args) then Some (text "wrong number of arguments for HMSET") else None
  | HINCRBY _ _ arg => match string2ll arg with None => Some (text "value is not an integer or out of range") | Some _ => None end
  | _ => None
  end.
Definition spec (sp : keyspace) (c : cmd) : keyspace * sreply :=
  match early_error c with
  | Some msg => (sp, SError msg)
  | None => if wrong_type sp (key_of c) then (sp, SWrong)
            else let '(m, r) := spec_hash (get sp (key_of c)) c in (put sp (key_of c) m, r)
  end.
(** Arguments are bytes, and HSET has at least one pair, as its arity says. *)
Definition cmd_ok (c : cmd) : Prop :=
  match c with
  | HSETNX _ f v => bytes_ok f /\ bytes_ok v
  | HSET _ _ args => Forall bytes_ok args /\ (2 <= length args)%nat
  | HINCRBY _ f _ => bytes_ok f
  | _ => True
  end.
Definition cmd_weight (c : cmd) : Z :=
  match c with HSETNX _ f v => zlen f + zlen v + 36 | HSET _ _ args => weight args | HINCRBY _ f _ => zlen f + 56 | _ => 0 end.

Section CommandSpec.
  Context `{DictOrder} (be : bool) (junk : nat -> Z) (hash_max_ziplist_entries hash_max_ziplist_value : Z).
#[local] Abbreviation N := hash_max_ziplist_entries.
#[local] Abbreviation V := hash_max_ziplist_value.
Definition exec (st : state) (c : cmd) : option (state * reply) :=
  let pure r := r ← r; Some (st, r) in
  match c with
  | HSETNX k f v => hsetnxCommand be junk N V st k f v
  | HSET hmset k args => hsetCommand be junk N V hmset st k args
  | HINCRBY k f arg => hincrbyCommand be junk N st k f arg
  | HGET k f => pure (hgetCommand be st k f)
  | HMGET k fs => pure (hmgetCommand be st k fs)
  | HDEL k fs => hdelCommand be junk st k fs
  | HLEN k => hlenCommand be st k
  | HSTRLEN k f => pure (hstrlenCommand be st k f)
  | HEXISTS k f => pure (hexistsCommand be st k f)
  | HALL flags k => genericHgetallCommand be st k flags
  end.
Definition entry_ok (W : Z) (v : option value) (s : option (fields + Z)) : Prop :=
  match v, s with
  | None, None => True
  | Some (VHash o), Some (inl m) => holds W o m /\ m <> ∅
  | Some (VOther t), Some (inr t') => t = t'
  | _, _ => False
  end.
Definition rel (W : Z) (m : gmap (list Z) value) (sp : keyspace) : Prop := forall k, entry_ok W (m !! k) (sp !! k).
Definition reply_ok (r : reply) (s : sreply) : Prop :=
  match s with
  | SInt n => r = ReplyInt n
  | SWrong => r = ReplyWrongType
  | SError msg => r = ReplyError msg
  | SOk => r = ReplyOk
  | SBulk b => r = ReplyBulk b
  | SArray l => r = ReplyArray (zlen l) l
  | SEmptyMap => r = ReplyMap 0 []
  | SAll HGetall m => exists l, r = ReplyMap (Z.of_nat (size m)) l /\ l ≡ₚ map_to_list m
  | SAll HKeys m => exists l, r = ReplyArray (Z.of_nat (size m)) (map (fun kv => Some kv.1) l) /\ l ≡ₚ map_to_list m
  | SAll HVals m => exists l, r = ReplyArray (Z.of_nat (size m)) (map (fun kv => Some kv.2) l) /\ l ≡ₚ map_to_list m
  end.
(** A change is signalled to the clients that watch the key, and counted. *)
Definition signals (k : list Z) (st st' : state) (sp sp' : keyspace) : Prop :=
  (sp' = sp /\ dirty st' = dirty st /\ touched st' = touched st /\ notified st' = notified st) \/ (dirty st < dirty st' /\ touched st' = k :: touched st).
Definition refines (W : Z) (k : list Z) (st : state) (sp : keyspace) (res : option (state * reply)) (out : keyspace * sreply) : Prop :=
  exists st' r, res = Some (st', r) /\ rel W (db st') out.1 /\ reply_ok r out.2 /\ signals k st st' sp out.1.
Lemma rel_mono W W' m sp : rel W m sp -> W <= W' -> rel W' m sp.
Proof. intros Hr HW k. specialize (Hr k). destruct (m !! k) as [[o|t]|], (sp !! k) as [[x|t']|]; try done. destruct Hr as [Ho Hne]. split; [by apply (holds_mono W)|done]. Qed.
Lemma hash_rel_put W W' m sp k o x : rel W m sp -> W <= W' -> holds W' o x -> x <> ∅ -> rel W' (<[k := VHash o]> m) (put sp k x).
Proof.
  intros Hr HW Ho Hx j. unfold put. rewrite decide_False by done. destruct (decide (j = k)) as [->|Hj]; [by rewrite !lookup_insert_eq|]. rewrite !lookup_insert_ne by done. by apply (rel_mono W).
Qed.
Lemma rel_hash W m sp k o : rel W m sp -> m !! k = Some (VHash o) -> sp !! k = Some (inl (get sp k)) /\ holds W o (get sp k) /\ get sp k <> ∅ /\ wrong_type sp k = false.
Proof. intros Hr E. specialize (Hr k). rewrite E in Hr. unfold get, wrong_type. destruct (sp !! k) as [[x|t]|]; [|done|done]. destruct Hr as [Ho Hne]. done. Qed.
Lemma hash_rel_none W m sp k : rel W m sp -> m !! k = None -> sp !! k = None /\ get sp k = ∅ /\ wrong_type sp k = false.
Proof. intros Hr E. specialize (Hr k). rewrite E in Hr. unfold get, wrong_type. by destruct (sp !! k) as [[x|t]|]. Qed.
Lemma hash_rel_other W m sp k t : rel W m sp -> m !! k = Some (VOther t) -> wrong_type sp k = true.
Proof. intros Hr E. specialize (Hr k). rewrite E in Hr. unfold wrong_type. by destruct (sp !! k) as [[x|t']|]. Qed.
Lemma hash_put_get W m sp k : rel W m sp -> wrong_type sp k = false -> put sp k (get sp k) = sp.
Proof.
  intros Hr Hw. unfold put. destruct (m !! k) as [[o|t]|] eqn:E.
  - destruct (rel_hash W m sp k o Hr E) as (E1 & _ & Hne & _). rewrite decide_False by done. by apply insert_id.
  - rewrite (hash_rel_other W m sp k t Hr E) in Hw. done.
  - destruct (hash_rel_none W m sp k Hr E) as (E1 & -> & _). rewrite decide_True by done. by apply delete_id.
Qed.
Lemma same_signals k st st' sp : dirty st' = dirty st -> touched st' = touched st -> notified st' = notified st -> signals k st st' sp sp.
Proof. intros. left. done. Qed.
(** *** Commands that read *)
Lemma read_refines W st sp c (f : hashobj -> option (hashobj * reply)) (none : reply) : rel W (db st) sp -> early_error c = None ->
  exec st c = match db st !! key_of c with None => Some (st, none) | Some (VOther _) => Some (st, ReplyWrongType) | Some (VHash o) => '(o, r) ← f o; Some (put_hash st (key_of c) o, r) end \/
  exec st c = match db st !! key_of c with None => Some (st, none) | Some (VOther _) => Some (st, ReplyWrongType) | Some (VHash o) => '(_, r) ← f o; Some (st, r) end ->
  (spec_hash (get sp (key_of c)) c).1 = get sp (key_of c) ->
  (get sp (key_of c) = ∅ -> reply_ok none (spec_hash ∅ c).2) ->
  (forall o, holds W o (get sp (key_of c)) -> get sp (key_of c) <> ∅ -> exists o' r, f o = Some (o', r) /\ holds W o' (get sp (key_of c)) /\ reply_ok r (spec_hash (get sp (key_of c)) c).2) ->
  refines W (key_of c) st sp (exec st c) (spec sp c).
Proof.
  intros Hr He Hx Hsame Hnone Hhash. unfold spec. rewrite He. destruct (spec_hash (get sp (key_of c)) c) as [m s] eqn:Es. cbn [fst snd] in *. subst m. set (k := key_of c) in *. destruct (db st !! k) as [[o|t]|] eqn:E.
  - destruct (rel_hash W _ sp k o Hr E) as (E1 & Ho & Hne & ->). destruct (Hhash o Ho Hne) as (o' & r & Ef & Ho' & Hrep). rewrite (hash_put_get W (db st)) by (done || by destruct (rel_hash W _ sp k o Hr E) as (_ & _ & _ & ?)). destruct Hx as [-> | ->]; rewrite Ef; cbn [mbind option_bind].
    + exists (put_hash st k o'), r. split; [done|]. cbn [fst snd]. split; [|split; [done|by apply same_signals]]. pose proof (hash_rel_put W W _ sp k o' (get sp k) Hr ltac:(lia) Ho' Hne) as Hp. rewrite (hash_put_get W (db st)) in Hp by (done || by destruct (rel_hash W _ sp k o Hr E) as (_ & _ & _ & ?)). exact Hp.
    + exists st, r. split; [done|]. cbn [fst snd]. split; [done|]. split; [done|by apply same_signals].
  - rewrite (hash_rel_other W _ sp k t Hr E). exists st, ReplyWrongType. split; [by destruct Hx as [-> | ->]|]. cbn [fst snd]. split; [done|]. split; [done|by apply same_signals].
  - destruct (hash_rel_none W _ sp k Hr E) as (E1 & Eg & Hw). rewrite Hw. rewrite (hash_put_get W (db st)) by done. exists st, none. split; [by destruct Hx as [-> | ->]|]. cbn [fst snd]. split; [done|]. split; [rewrite Eg in Es; specialize (Hnone Eg); rewrite Es in Hnone; exact Hnone|by apply same_signals].
Qed.
Lemma field_reply W o m f : holds W o m -> addHashFieldToReply be (Some o) f = Some (m !! f).
Proof. intros Ho. cbn [addHashFieldToReply]. destruct (hash_get_spec be W o m f Ho) as (r & -> & Hr & _). cbn [mbind option_bind]. by rewrite Hr. Qed.
Lemma get_all_spec W o m fs : holds W o m -> get_all be (Some o) fs = Some (map (fun f => m !! f) fs).
Proof. intros Ho. induction fs as [|f fs IH]; [done|]. cbn [get_all map]. rewrite (field_reply W o m f Ho). cbn [mbind option_bind]. by rewrite IH. Qed.
Lemma get_all_none fs : get_all be None fs = Some (map (fun _ => None) fs).
Proof. induction fs as [|f fs IH]; [done|]. cbn [get_all map addHashFieldToReply mbind option_bind]. cbn [get_all] in IH. by rewrite IH. Qed.
Lemma hget_refines W st sp k f : rel W (db st) sp -> refines W k st sp (exec st (HGET k f)) (spec sp (HGET k f)).
Proof.
  intros Hr. apply (read_refines W st sp (HGET k f) (fun o => r ← addHashFieldToReply be (Some o) f; Some (o, ReplyBulk r)) (ReplyBulk None)); try done.
  - right. cbn [exec key_of]. unfold hgetCommand. destruct (db st !! k) as [[o|t]|]; [|done..]. by destruct (addHashFieldToReply be (Some o) f).
  - intros o Ho _. cbn [key_of] in *. rewrite (field_reply W o _ f Ho). by eexists _, _.
Qed.
Lemma hmget_refines W st sp k fs : rel W (db st) sp -> refines W k st sp (exec st (HMGET k fs)) (spec sp (HMGET k fs)).
Proof.
  intros Hr. apply (read_refines W st sp (HMGET k fs) (fun o => l ← get_all be (Some o) fs; Some (o, ReplyArray (zlen fs) l)) (ReplyArray (zlen fs) (map (fun _ => None) fs))); try done.
  - right. cbn [exec key_of]. unfold hmgetCommand. destruct (db st !! k) as [[o|t]|]; [by destruct (get_all be (Some o) fs)|done|by rewrite get_all_none].
  - intros _. cbn [spec_hash snd reply_ok]. assert (E : map (fun f => (∅ : fields) !! f) fs = map (fun _ => None) fs) by (apply map_ext; intros f; apply lookup_empty). rewrite E. unfold zlen. by rewrite length_map.
  - intros o Ho _. cbn [key_of] in *. rewrite (get_all_spec W o _ fs Ho). eexists _, _. split; [done|]. split; [done|]. cbn [spec_hash snd reply_ok]. unfold zlen. by rewrite length_map.
Qed.
Lemma hlen_refines W st sp k : rel W (db st) sp -> refines W k st sp (exec st (HLEN k)) (spec sp (HLEN k)).
Proof.
  intros Hr. apply (read_refines W st sp (HLEN k) (fun o => '(o, n) ← hashTypeLength be o; Some (o, ReplyInt n)) (ReplyInt 0)); try done.
  - left. cbn [exec key_of]. unfold hlenCommand. destruct (db st !! k) as [[o|t]|]; [|done..]. by destruct (hashTypeLength be o) as [[o' n]|].
  - intros o Ho _. cbn [key_of] in *. destruct (length_spec be W o _ Ho) as (o' & -> & Ho'). by eexists _, _.
Qed.
Lemma hstrlen_refines W st sp k f : rel W (db st) sp -> refines W k st sp (exec st (HSTRLEN k f)) (spec sp (HSTRLEN k f)).
Proof.
  intros Hr. apply (read_refines W st sp (HSTRLEN k f) (fun o => n ← hashTypeGetValueLength be o f; Some (o, ReplyInt n)) (ReplyInt 0)); try done.
  - right. cbn [exec key_of]. unfold hstrlenCommand. destruct (db st !! k) as [[o|t]|]; [|done..]. by destruct (hashTypeGetValueLength be o f).
  - intros o Ho _. cbn [key_of] in *. rewrite (value_length_spec be W o _ f Ho). by eexists _, _.
Qed.
Lemma hexists_refines W st sp k f : rel W (db st) sp -> refines W k st sp (exec st (HEXISTS k f)) (spec sp (HEXISTS k f)).
Proof.
  intros Hr. apply (read_refines W st sp (HEXISTS k f) (fun o => b ← hashTypeExists be o f; Some (o, ReplyInt (if (b : bool) then 1 else 0))) (ReplyInt 0)); try done.
  - right. cbn [exec key_of]. unfold hexistsCommand. destruct (db st !! k) as [[o|t]|]; [|done..]. by destruct (hashTypeExists be o f).
  - intros o Ho _. cbn [key_of] in *. rewrite (exists_spec be W o _ f Ho). eexists _, _. split; [done|]. split; [done|]. cbn [spec_hash snd reply_ok]. destruct (get sp k !! f); [rewrite bool_decide_eq_true_2 by eauto; done|rewrite bool_decide_eq_false_2 by (by intros [? ?]); done].
Qed.
Lemma hall_refines W st sp flags k : rel W (db st) sp -> refines W k st sp (exec st (HALL flags k)) (spec sp (HALL flags k)).
Proof.
  intros Hr. set (out := fun len (l : list (list Z * list Z)) => match flags with HKeys => ReplyArray len (map (fun kv => Some kv.1) l) | HVals => ReplyArray len (map (fun kv => Some kv.2) l) | HGetall => ReplyMap len l end).
  apply (read_refines W st sp (HALL flags k) (fun o => '(o, len) ← hashTypeLength be o; l ← iterate be o; if zlen l =? len then Some (o, out len l) else None) (ReplyMap 0 [])); try done.
  - left. cbn [exec key_of]. unfold genericHgetallCommand. destruct (db st !! k) as [[o|t]|]; [|done..]. destruct (hashTypeLength be o) as [[o' n]|]; [|done]. cbn [mbind option_bind]. destruct (iterate be o') as [l|]; [|done]. cbn [mbind option_bind]. by destruct (zlen l =? n).
  - intros o Ho Hne. cbn [key_of] in *. destruct (length_spec be W o _ Ho) as (o' & -> & Ho'). cbn [mbind option_bind]. destruct (hash_iterate_spec be W o' _ Ho') as (l & -> & Hl). cbn [mbind option_bind]. assert (El : zlen l = Z.of_nat (size (get sp k))) by (unfold zlen; rewrite (Permutation_length Hl), length_map_to_list; done). rewrite El, Z.eqb_refl. eexists _, _. split; [done|]. split; [done|]. cbn [spec_hash snd]. rewrite decide_False by done. unfold out. by destruct flags; exists l.
Qed.
(** *** Commands that write *)
Lemma lookup_create W st sp k : rel W (db st) sp -> 0 <= W -> wrong_type sp k = false -> exists st1 o, hashTypeLookupWriteOrCreate be junk st k = Some (Some (st1, o)) /\ holds W o (get sp k) /\
  (get sp k <> ∅ -> db st1 = db st) /\ (forall x, <[k := x]> (db st1) = <[k := x]> (db st)) /\ dirty st1 = dirty st /\ touched st1 = touched st /\ notified st1 = notified st.
Proof.
  intros Hr HW Hw. unfold hashTypeLookupWriteOrCreate. destruct (db st !! k) as [[o|t]|] eqn:E.
  - destruct (rel_hash W _ sp k o Hr E) as (_ & Ho & _). exists st, o. split; [done|]. split; [done|]. by split.
  - by rewrite (hash_rel_other W _ sp k t Hr E) in Hw.
  - destruct (hash_rel_none W _ sp k Hr E) as (_ & Eg & _). destruct (hash_create_spec be junk W HW) as (o & -> & Ho). cbn [mbind option_bind]. exists (put_hash st k o), o. rewrite Eg. split; [done|]. split; [done|]. split; [done|]. split; [intros x; unfold put_hash, set_db; cbn [db]; apply insert_insert_eq|done].
Qed.
Lemma lookup_wrong W st sp k : rel W (db st) sp -> wrong_type sp k = true -> hashTypeLookupWriteOrCreate be junk st k = Some None.
Proof.
  intros Hr Hw. unfold hashTypeLookupWriteOrCreate. destruct (db st !! k) as [[o|t]|] eqn:E; [|done|].
  - destruct (rel_hash W _ sp k o Hr E) as (_ & _ & _ & E2). congruence.
  - destruct (hash_rel_none W _ sp k Hr E) as (_ & _ & E2). congruence.
Qed.
Lemma written W W' k st st1 sp o m ev n r s : rel W (db st) sp -> W <= W' -> holds W' o m -> m <> ∅ -> (forall x, <[k := x]> (db st1) = <[k := x]> (db st)) -> dirty st1 = dirty st -> touched st1 = touched st -> 0 < n -> reply_ok r s ->
  refines W' k st sp (Some (signal (put_hash st1 k o) ev k n, r)) (put sp k m, s).
Proof.
  intros Hr HW Ho Hm Hdb Hd Ht Hn Hs. eexists _, _. split; [done|]. cbn [fst snd signal put_hash set_db db]. split; [rewrite Hdb; by apply (hash_rel_put W)|]. split; [done|]. right. cbn [signal put_hash set_db dirty touched]. rewrite Hd, Ht. split; [lia|done].
Qed.
Lemma hsetnx_refines W st sp k f v : rel W (db st) sp -> 0 <= W -> bytes_ok f -> bytes_ok v -> 80 + W + zlen f + zlen v + 36 < 2 ^ 32 ->
  refines (W + zlen f + zlen v + 36) k st sp (exec st (HSETNX k f v)) (spec sp (HSETNX k f v)).
Proof.
  intros Hr HW Hf Hv Hlen. pose proof (zlen_nonneg f). pose proof (zlen_nonneg v). unfold spec. cbn [early_error key_of exec]. unfold hsetnxCommand. destruct (wrong_type sp k) eqn:Hw.
  - rewrite (lookup_wrong W st sp k Hr Hw). exists st, ReplyWrongType. split; [done|]. split; [apply (rel_mono W); [done|lia]|]. split; [done|by apply same_signals].
  - destruct (lookup_create W st sp k Hr HW Hw) as (st1 & o & -> & Ho & Hdb1 & Hdb & Hd & Ht & Hnt). cbn [mbind option_bind]. destruct (try_conversion_spec be hash_max_ziplist_value W o _ [f; v] Ho) as (o1 & -> & Ho1). cbn [mbind option_bind]. rewrite (exists_spec be W o1 _ f Ho1). cbn [mbind option_bind spec_hash]. destruct (get sp k !! f) as [old|] eqn:Ef.
    + rewrite bool_decide_eq_true_2 by eauto. assert (Hne : get sp k <> ∅) by (intros E; by rewrite E, lookup_empty in Ef). eexists _, _. split; [done|]. cbn [fst snd put_hash set_db db]. rewrite Hdb. split; [apply (hash_rel_put W); [done|lia|by apply (holds_mono W); [|lia]|done]|]. split; [done|]. rewrite (hash_put_get W (db st)) by done. by apply same_signals.
    + rewrite bool_decide_eq_false_2 by (by intros [? ?]). destruct (set_spec be junk hash_max_ziplist_entries W o1 _ f v Ho1 Hf Hv Hlen) as (o2 & -> & Ho2). cbn [mbind option_bind]. replace (put_hash (put_hash st1 k o1) k o2) with (put_hash st1 k o2) by (unfold put_hash, set_db; cbn [db dirty touched notified]; by rewrite insert_insert_eq). apply (written W); [done|lia|done|apply insert_non_empty|done|done|done|lia|done].
Qed.
Lemma size_insert_new (m : fields) f v : Z.of_nat (size (<[f := v]> m)) = Z.of_nat (size m) + (if bool_decide (is_Some (m !! f)) then 0 else 1).
Proof. destruct (m !! f) as [old|] eqn:E; [rewrite bool_decide_eq_true_2, map_size_insert_Some by eauto; lia|rewrite bool_decide_eq_false_2, map_size_insert_None by (done || by intros [? ?]); lia]. Qed.
Lemma set_all_spec args : forall W o m n, holds W o m -> Nat.odd (length args) = false -> Forall bytes_ok args -> 80 + W + weight args < 2 ^ 32 ->
  exists o', set_all be junk hash_max_ziplist_entries o args n = Some (o', n + (Z.of_nat (size (set_pairs m args)) - Z.of_nat (size m))) /\ holds (W + weight args) o' (set_pairs m args).
Proof.
  induction args as [args IH] using (induction_ltof1 _ (@length (list Z))). unfold ltof in IH. intros W o m n Ho Hodd Hb HW. destruct args as [|f [|v args]]; [|done|].
  - exists o. cbn [set_all set_pairs]. split; [do 2 f_equal; lia|]. change (weight []) with 0. by rewrite Z.add_0_r.
  - apply Forall_cons in Hb as [Hf Hb]. apply Forall_cons in Hb as [Hv Hb]. rewrite !weight_cons in *. pose proof (weight_nonneg args). destruct (set_spec be junk hash_max_ziplist_entries W o m f v Ho Hf Hv ltac:(lia)) as (o1 & E1 & Ho1). cbn [set_all set_pairs]. rewrite E1. cbn [mbind option_bind].
    destruct (IH args ltac:(cbn [length]; lia) _ o1 _ (if bool_decide (is_Some (m !! f)) then n else n + 1) Ho1) as (o2 & E2 & Ho2); [by rewrite <- Hodd|done|lia|]. exists o2. rewrite E2. split; [|by replace (W + (zlen f + 18 + (zlen v + 18 + weight args))) with (W + zlen f + zlen v + 36 + weight args) by lia]. do 2 f_equal. rewrite size_insert_new. destruct (bool_decide _); lia.
Qed.
Lemma set_pairs_ne m args : Nat.odd (length args) = false -> m <> ∅ \/ (2 <= length args)%nat -> set_pairs m args <> ∅.
Proof.
  revert m. induction args as [args IH] using (induction_ltof1 _ (@length (list Z))). unfold ltof in IH. intros m Hodd Hm. destruct args as [|f [|v args]]; [|done|]; cbn [set_pairs]; [destruct Hm as [?|Hm]; [done|cbn in Hm; lia]|]. apply IH; [cbn [length]; lia|by rewrite <- Hodd|left; apply insert_non_empty].
Qed.
Lemma hset_refines W st sp hmset k args : rel W (db st) sp -> 0 <= W -> Forall bytes_ok args -> (2 <= length args)%nat -> 80 + W + weight args < 2 ^ 32 ->
  refines (W + weight args) k st sp (exec st (HSET hmset k args)) (spec sp (HSET hmset k args)).
Proof.
  intros Hr HW Hb Hlen2 Hlen. pose proof (weight_nonneg args). unfold spec. cbn [early_error key_of exec]. unfold hsetCommand. change (Nat.odd (2 + length args)) with (Nat.odd (length args)). destruct (Nat.odd (length args)) eqn:Hodd.
  - eexists _, _. split; [done|]. split; [apply (rel_mono W); [done|lia]|]. split; [done|by apply same_signals].
  - destruct (wrong_type sp k) eqn:Hw.
    + rewrite (lookup_wrong W st sp k Hr Hw). exists st, ReplyWrongType. split; [done|]. split; [apply (rel_mono W); [done|lia]|]. split; [done|by apply same_signals].
    + destruct (lookup_create W st sp k Hr HW Hw) as (st1 & o & -> & Ho & Hdb1 & Hdb & Hd & Ht & Hnt). cbn [mbind option_bind]. destruct (try_conversion_spec be hash_max_ziplist_value W o _ args Ho) as (o1 & -> & Ho1). cbn [mbind option_bind spec_hash]. destruct (set_all_spec args W o1 _ 0 Ho1 Hodd Hb Hlen) as (o2 & -> & Ho2). cbn [mbind option_bind]. rewrite Z.add_0_l. apply (written W); [done|lia|done|apply set_pairs_ne; [done|by right]|done|done|done|lia|]. by destruct hmset.
Qed.
Lemma no_overflow a b : in_s 64 a -> in_s 64 b -> (((b <? 0) && (a <? 0) && (b <? LLONG_MIN - a)) || ((b >? 0) && (a >? 0) && (b >? LLONG_MAX - a))) = negb (bool_decide (in_s 64 (a + b))).
Proof.
  intros Ha Hb. apply eq_true_iff_eq. rewrite !Z.gtb_ltb, orb_true_iff, !andb_true_iff, !Z.ltb_lt, negb_true_iff, bool_decide_eq_false. unfold in_s, LLONG_MIN, LLONG_MAX in *. zpow. lia.
Qed.
Lemma hincrby_refines W st sp k f arg : rel W (db st) sp -> 0 <= W -> bytes_ok f -> 80 + W + zlen f + 56 < 2 ^ 32 ->
  refines (W + zlen f + 56) k st sp (exec st (HINCRBY k f arg)) (spec sp (HINCRBY k f arg)).
Proof.
  intros Hr HW Hf Hlen. pose proof (zlen_nonneg f). assert (Hr2 : rel (W + zlen f + 56) (db st) sp) by (apply (rel_mono W); [done|lia]). unfold spec. cbn [early_error key_of exec]. unfold hincrbyCommand. destruct (string2ll arg) as [incr|] eqn:Ea.
  2: { eexists _, _. split; [done|]. split; [done|]. split; [done|by apply same_signals]. }
  destruct (wrong_type sp k) eqn:Hw.
  { rewrite (lookup_wrong W st sp k Hr Hw). exists st, ReplyWrongType. split; [done|]. split; [done|]. split; [done|by apply same_signals]. }
  destruct (lookup_create W st sp k Hr HW Hw) as (st1 & o & -> & Ho & Hdb1 & Hdb & Hd & Ht & Hnt). cbn [mbind option_bind spec_hash]. rewrite Ea. destruct (hash_get_spec be W o _ f Ho) as (r & -> & Hrv & Hri). cbn [mbind option_bind].
  assert (Eold : match r with None => Some 0 | Some (ZlStr s) => string2ll s | Some (ZlInt n) => Some n end = match get sp k !! f with None => Some 0 | Some s => string2ll s end) by (rewrite <- Hrv; destruct r as [[s|n]|]; cbn [option_map value_str]; [done| |done]; symmetry; apply string2ll_iff; split; [by apply Hri|done]). rewrite Eold.
  apply string2ll_iff in Ea as [Hincr _]. destruct (match get sp k !! f with None => Some 0 | Some s => string2ll s end) as [old|] eqn:Eo.
  - assert (Hold : in_s 64 old) by (destruct (get sp k !! f) as [s|]; [by apply string2ll_iff in Eo as [? _]|injection Eo as <-; unfold in_s; lia]). rewrite no_overflow by done. destruct (decide (in_s 64 (old + incr))) as [Hin|Hout].
    + rewrite bool_decide_eq_true_2 by done. cbn [negb]. pose proof (dec_len20 _ Hin) as Hdl. destruct (set_spec be junk hash_max_ziplist_entries W o _ f (dec (old + incr)) Ho Hf (dec_bytes _) ltac:(lia)) as (o2 & -> & Ho2). cbn [mbind option_bind]. apply (written W); [done|lia|by apply (holds_mono _ _ _ _ Ho2); lia|apply insert_non_empty|done|done|done|lia|done].
    + rewrite bool_decide_eq_false_2 by done. cbn [negb]. assert (Hne : get sp k <> ∅) by (intros E; rewrite E, lookup_empty in Eo; injection Eo as <-; by rewrite Z.add_0_l in Hout). eexists _, _. split; [done|]. cbn [fst snd]. rewrite (hash_put_get W (db st)) by done. rewrite (Hdb1 Hne). split; [done|]. split; [done|by apply same_signals].
  - assert (Hne : get sp k <> ∅) by (intros E; by rewrite E, lookup_empty in Eo). eexists _, _. split; [done|]. cbn [fst snd]. rewrite (hash_put_get W (db st)) by done. rewrite (Hdb1 Hne). split; [done|]. split; [done|by apply same_signals].
Qed.
Lemma without_none (m : fields) f fs : m !! f = None -> without m (f :: fs) = without m fs.
Proof. intros E. cbn [without foldl]. by rewrite delete_id. Qed.
Lemma without_empty fs : without ∅ fs = ∅.
Proof. induction fs as [|f fs IH]; [done|]. by rewrite without_none. Qed.
Lemma without_size fs : forall m : fields, (size (without m fs) <= size m)%nat.
Proof. induction fs as [|f fs IH]; intros m; [done|]. change (without m (f :: fs)) with (without (delete f m) fs). etrans; [exact (IH (delete f m))|]. rewrite map_size_delete. destruct (m !! f); [apply Nat.le_pred_l|done]. Qed.
Lemma delete_all_spec fs : forall W o m n, holds W o m -> m <> ∅ -> 80 + W < 2 ^ 32 ->
  exists o', delete_all be junk o fs n = Some (o', n + (Z.of_nat (size m) - Z.of_nat (size (without m fs))), bool_decide (without m fs = ∅)) /\ holds W o' (without m fs).
Proof.
  induction fs as [|f fs IH]; intros W o m n Ho Hne HW; cbn [delete_all].
  - exists o. cbn [without foldl]. rewrite bool_decide_eq_false_2 by done. split; [do 3 f_equal; lia|done].
  - destruct (hash_delete_spec be junk W o m f Ho HW) as (o1 & -> & Ho1). cbn [mbind option_bind]. destruct (m !! f) as [v|] eqn:Ef.
    + rewrite bool_decide_eq_true_2 by eauto. destruct (length_spec be W o1 _ Ho1) as (o2 & -> & Ho2). cbn [mbind option_bind without foldl]. fold (without (delete f m) fs). assert (Es : Z.of_nat (size (delete f m)) = Z.of_nat (size m) - 1) by (rewrite map_size_delete_Some by eauto; assert (size m <> 0)%nat by (by apply map_size_non_empty_iff); lia). destruct (Z.eqb_spec (Z.of_nat (size (delete f m))) 0) as [Ez|Ez].
      * assert (Ee : delete f m = ∅) by (apply map_size_empty_iff; lia). rewrite Ee, without_empty in *. exists o2. split; [|done]. rewrite bool_decide_eq_true_2 by done. change (size (∅ : fields)) with O. do 3 f_equal. lia.
      * destruct (IH W o2 (delete f m) (n + 1) Ho2) as (o3 & -> & Ho3); [intros E; rewrite E in Ez; done|done|]. exists o3. split; [|done]. do 3 f_equal. lia.
    + rewrite bool_decide_eq_false_2 by (by intros [? ?]). rewrite delete_id in Ho1 by done. rewrite without_none by done. by apply IH.
Qed.
Lemma hdel_refines W st sp k fs : rel W (db st) sp -> 80 + W < 2 ^ 32 -> refines W k st sp (exec st (HDEL k fs)) (spec sp (HDEL k fs)).
Proof.
  intros Hr HW. unfold spec. cbn [early_error key_of exec]. unfold hdelCommand. destruct (db st !! k) as [[o|t]|] eqn:E.
  - destruct (rel_hash W _ sp k o Hr E) as (E1 & Ho & Hne & ->). cbn [spec_hash]. destruct (delete_all_spec fs W o _ 0 Ho Hne HW) as (o' & -> & Ho'). cbn [mbind option_bind]. rewrite Z.add_0_l. set (m' := without (get sp k) fs) in *. pose proof (without_size fs (get sp k)) as Hsz. fold m' in Hsz.
    assert (Hrel : rel W (db (if bool_decide (m' = ∅) then set_db (put_hash st k o') (delete k (db (put_hash st k o'))) else put_hash st k o')) (put sp k m')).
    { destruct (bool_decide_reflect (m' = ∅)) as [Em|Em]; cbn [put_hash set_db db]; [|by apply (hash_rel_put W)]. unfold put. rewrite decide_True by done. intros j. destruct (decide (j = k)) as [->|Hj]; [by rewrite !lookup_delete_eq|]. rewrite !lookup_delete_ne, lookup_insert_ne by done. apply Hr. }
    destruct (Z.eqb_spec (Z.of_nat (size (get sp k)) - Z.of_nat (size m')) 0) as [Ez|Ez]; cbn [negb].
    + eexists _, _. split; [done|]. split; [exact Hrel|]. split; [done|]. assert (Esame : m' = get sp k).
      { unfold m' in *. clear -Ez. revert Ez. generalize (get sp k). induction fs as [|f fs IH]; intros m Hz; [done|]. destruct (m !! f) as [v|] eqn:Ef; [|rewrite without_none in * by done; by apply IH]. exfalso. cbn [without foldl] in Hz. fold (without (delete f m) fs) in Hz. pose proof (without_size fs (delete f m)) as Hs. rewrite map_size_delete_Some in Hs by eauto. assert (size m <> 0)%nat by (apply (map_size_ne_0_lookup_2 m f); eauto). lia. }
      cbn [fst]. rewrite Esame in *. rewrite (hash_put_get W (db st)) by (done || by destruct (rel_hash W _ sp k o Hr E) as (_ & _ & _ & ?)). rewrite bool_decide_eq_false_2 by done. by apply same_signals.
    + eexists _, _. split; [done|]. split; [by destruct (bool_decide (m' = ∅))|]. split; [done|]. right. destruct (bool_decide (m' = ∅)); cbn [signal put_hash set_db dirty touched db]; (split; [lia|done]).
  - rewrite (hash_rel_other W _ sp k t Hr E). eexists _, _. split; [done|]. split; [done|]. split; [done|by apply same_signals].
  - destruct (hash_rel_none W _ sp k Hr E) as (E1 & Eg & Hw). rewrite Hw. cbn [spec_hash]. rewrite Eg, without_empty. change (size (∅ : fields)) with O. eexists _, _. split; [done|]. cbn [fst snd]. rewrite <- Eg at 1. rewrite (hash_put_get W (db st)) by done. split; [done|]. split; [done|]. rewrite <- Eg. rewrite (hash_put_get W (db st)) by done. by apply same_signals.
Qed.
Lemma weight_cmd c : 0 <= cmd_weight c.
Proof. destruct c as [k f v|b k args|k f arg|k f|k fs|k fs|k|k f|k f|fl k]; cbn [cmd_weight]; try lia; [pose proof (zlen_nonneg f); pose proof (zlen_nonneg v); lia|apply weight_nonneg|pose proof (zlen_nonneg f); lia]. Qed.
Lemma cmd_refines W st sp c : rel W (db st) sp -> 0 <= W -> cmd_ok c -> 80 + W + cmd_weight c < 2 ^ 32 -> refines (W + cmd_weight c) (key_of c) st sp (exec st c) (spec sp c).
Proof.
  intros Hr HW Hok Hlen. destruct c as [k f v|b k args|k f arg|k f|k fs|k fs|k|k f|k f|fl k]; cbn [cmd_weight cmd_ok key_of] in *; rewrite ?Z.add_0_r in *.
  - destruct Hok as [Hf Hv]. rewrite !Z.add_assoc. apply hsetnx_refines; try done. lia.
  - destruct Hok as [Hb Hl]. by apply hset_refines.
  - rewrite !Z.add_assoc. apply hincrby_refines; try done. lia.
  - by apply hget_refines.
  - by apply hmget_refines.
  - by apply hdel_refines.
  - by apply hlen_refines.
  - by apply hstrlen_refines.
  - by apply hexists_refines.
  - by apply hall_refines.
Qed.
Fixpoint run (st : state) (cs : list cmd) : option (state * list reply) :=
  match cs with [] => Some (st, []) | c :: cs => '(st, r) ← exec st c; '(st, rs) ← run st cs; Some (st, r :: rs) end.
End CommandSpec.
Fixpoint spec_run (sp : keyspace) (cs : list cmd) : keyspace * list sreply :=
  match cs with [] => (sp, []) | c :: cs => let '(sp, r) := spec sp c in let '(sp, rs) := spec_run sp cs in (sp, r :: rs) end.
Definition cmds_weight (cs : list cmd) : Z := foldr (fun c w => cmd_weight c + w) 0 cs.
Lemma cmds_weight_nonneg cs : 0 <= cmds_weight cs.
Proof. induction cs as [|c cs IH]; [done|]. cbn [cmds_weight foldr]. fold (cmds_weight cs). pose proof (weight_cmd c). lia. Qed.

(** HINCRBY does not compare the length of its field with the limit: a hash
    with a longer field stays a ziplist, which HSET would have converted. *)
Theorem hincrby_keeps_ziplist `{DictOrder} : exists st st' r r' zl d, let field := bytes_of_string "counter" in
  exec false (fun _ => 0) 512 4 (mk_state ∅ 0 [] []) (HINCRBY [1] field [49]) = Some (st, r) /\ db st !! [1] = Some (VHash (HZiplist zl)) /\
  exec false (fun _ => 0) 512 4 (mk_state ∅ 0 [] []) (HSET false [1] [field; [49]]) = Some (st', r') /\ db st' !! [1] = Some (VHash (HTable d)).
Proof. eexists _, _, _, _, _, _. split; [vm_compute; reflexivity|]. split; [vm_compute; reflexivity|]. split; [vm_compute; reflexivity|]. vm_compute. reflexivity. Qed.
(** C22: hashes are finite maps, whatever their encoding and whatever the
    limits at which a ziplist is converted: from a keyspace that holds a map
    of hashes, every sequence of HSET, HMSET, HSETNX, HINCRBY, HDEL, HGET, HMGET, HLEN,
    HSTRLEN, HEXISTS, HKEYS, HVALS and HGETALL succeeds (no assertion or panic of
    the type or of its ziplists is reached) and replies, errors, wrong types
    and overflows included, as the same commands on the map; the keyspace
    then holds the resulting map, without empty hashes. *)
Theorem hash_commands_refine `{DictOrder} (be : bool) (junk : nat -> Z) (hash_max_ziplist_entries hash_max_ziplist_value W : Z) (cs : list cmd) : forall (st : state) (sp : keyspace),
  rel W (db st) sp -> 0 <= W -> Forall cmd_ok cs -> 80 + W + cmds_weight cs < 2 ^ 32 ->
  exists st' rs, run be junk hash_max_ziplist_entries hash_max_ziplist_value st cs = Some (st', rs) /\ rel (W + cmds_weight cs) (db st') (spec_run sp cs).1 /\ Forall2 reply_ok rs (spec_run sp cs).2.
Proof.
  revert W. induction cs as [|c cs IH]; intros W st sp Hr HW Hok Hlen; [exists st, []; cbn [spec_run fst snd cmds_weight foldr]; rewrite Z.add_0_r; by repeat split|].
  cbn [cmds_weight foldr] in *. fold (cmds_weight cs) in *. apply Forall_cons in Hok as [Hc Hcs]. pose proof (weight_cmd c). pose proof (cmds_weight_nonneg cs). destruct (cmd_refines be junk hash_max_ziplist_entries hash_max_ziplist_value W st sp c Hr HW Hc ltac:(lia)) as (st1 & r & E & Hr1 & Hrep & _). cbn [run spec_run]. rewrite E. destruct (spec sp c) as [sp1 s]. cbn [fst snd mbind option_bind] in *.
  destruct (IH (W + cmd_weight c) st1 sp1 Hr1 ltac:(lia) Hcs ltac:(lia)) as (st2 & rs & E2 & Hr2 & Hreps). rewrite E2. destruct (spec_run sp1 cs) as [sp2 ss]. cbn [fst snd] in *. exists st2, (r :: rs). rewrite Z.add_assoc. split; [done|]. split; [done|]. by constructor.
Qed.
(** Every change of a hash is signalled: a command that changes the
    keyspace touches the watched key and increments the counter of changes, a
    command that does neither leaves the keyspace as it was. *)
Theorem hash_changes_signalled `{DictOrder} (be : bool) (junk : nat -> Z) (hash_max_ziplist_entries hash_max_ziplist_value W : Z) (c : cmd) (st : state) (sp : keyspace) :
  rel W (db st) sp -> 0 <= W -> cmd_ok c -> 80 + W + cmd_weight c < 2 ^ 32 ->
  exists st' r, exec be junk hash_max_ziplist_entries hash_max_ziplist_value st c = Some (st', r) /\ signals (key_of c) st st' sp (spec sp c).1.
Proof. intros Hr HW Hc Hlen. destruct (cmd_refines be junk hash_max_ziplist_entries hash_max_ziplist_value W st sp c Hr HW Hc Hlen) as (st' & r & E & _ & _ & Hs). by exists st', r. Qed.

Definition b (s : String.string) : list Z := bytes_of_string s.
#[local] Instance listed : DictOrder := {| entries V m := map_to_list m; entries_perm V m := Permutation_refl _ |}.
Definition session : list cmd :=
  [HSET false (b "k") [b "f"; b "12"; b "g"; b "x"; b "f"; b "100000"]; HINCRBY (b "k") (b "f") (b "-7"); HSETNX (b "k") (b "h") (b "l"); HALL HGetall (b "k"); HINCRBY (b "k") (b "g") (b "1");
   HDEL (b "k") [b "f"; b "z"]; HMGET (b "k") [b "f"; b "g"]; HSTRLEN (b "k") (b "g"); HDEL (b "k") [b "g"; b "h"; b "q"]; HLEN (b "k")].
Lemma session_ok : Forall cmd_ok session.
Proof. unfold session. repeat (apply Forall_cons; split); try apply Forall_nil; cbn [cmd_ok]; repeat split; repeat constructor; vm_compute; intuition discriminate. Qed.
Lemma rel_empty W : rel W ∅ ∅.
Proof. intros k. by rewrite !lookup_empty. Qed.
Lemma hash_commands_refine_witness : exists st rs, run false (fun _ => 0) 2 64 (mk_state ∅ 0 [] []) session = Some (st, rs) /\ rel (0 + cmds_weight session) (db st) (spec_run ∅ session).1 /\ Forall2 reply_ok rs (spec_run ∅ session).2.
Proof. apply (hash_commands_refine false (fun _ => 0) 2 64 0 session (mk_state ∅ 0 [] []) ∅ (rel_empty 0)); [lia|exact session_ok|vm_compute; reflexivity]. Defined.
Lemma hash_changes_signalled_witness : exists st r, exec false (fun _ => 0) 2 64 (mk_state ∅ 0 [] []) (HSETNX (b "k") (b "f") (b "1")) = Some (st, r) /\ signals (b "k") (mk_state ∅ 0 [] []) st ∅ (spec ∅ (HSETNX (b "k") (b "f") (b "1"))).1.
Proof. apply (hash_changes_signalled false (fun _ => 0) 2 64 0 (HSETNX (b "k") (b "f") (b "1")) (mk_state ∅ 0 [] []) ∅ (rel_empty 0)); [lia|split; repeat constructor; vm_compute; intuition discriminate|vm_compute; reflexivity]. Defined.
