(* ===== verification/Quicklist.v ===== *)
(** * Quicklists (quicklist.c): the operations

    A quicklist is a doubly linked list of nodes, each with a ziplist of some
    of the elements; nodes away from the ends may be compressed with LZF.  The
    nodes live on a heap; a pointer is an address or NULL, a pointer into a
    ziplist its offset.  [None] is a NULL or dangling pointer, a failure in a
    ziplist or the use of a compressed node as a ziplist.  What the allocator
    returns and what fresh memory and the hash table of the compressor hold
    are parameters. *)
From S2P Require Import Prelude Endian Util Lzf Ziplist.
#[local] Open Scope cmem_scope.

Abbreviation loc := positive.
Abbreviation ptr := (option positive).

(** [node->zl] with [node->encoding]: NULL, a ziplist, or a quicklistLZF. *)
Inductive zldata := ZNull | ZRaw (zl : list Z) | ZLzf (compressed : list Z).
Record quicklistNode := mk_qnode { q_prev : ptr; q_next : ptr; q_zl : zldata; q_sz : Z; q_count : Z; q_recompress : bool }.
(** A bookmark: its name and its node. *)
Abbreviation bookmark := (list Z * ptr)%type.
Record quicklist := mk_ql { ql_head : ptr; ql_tail : ptr; ql_count : Z; ql_len : Z; ql_fill : Z; ql_compress : Z; ql_bookmarks : list bookmark }.
Abbreviation qheap := (gmap loc quicklistNode).

Definition with_prev (n : quicklistNode) (p : ptr) : quicklistNode := mk_qnode p (q_next n) (q_zl n) (q_sz n) (q_count n) (q_recompress n).
Definition with_next (n : quicklistNode) (p : ptr) : quicklistNode := mk_qnode (q_prev n) p (q_zl n) (q_sz n) (q_count n) (q_recompress n).
Definition with_zl (n : quicklistNode) (d : zldata) (sz : Z) : quicklistNode := mk_qnode (q_prev n) (q_next n) d sz (q_count n) (q_recompress n).
Definition with_count (n : quicklistNode) (c : Z) : quicklistNode := mk_qnode (q_prev n) (q_next n) (q_zl n) (q_sz n) c (q_recompress n).
Definition with_recompress (n : quicklistNode) (b : bool) : quicklistNode := mk_qnode (q_prev n) (q_next n) (q_zl n) (q_sz n) (q_count n) b.
Definition with_head (q : quicklist) (p : ptr) : quicklist := mk_ql p (ql_tail q) (ql_count q) (ql_len q) (ql_fill q) (ql_compress q) (ql_bookmarks q).
Definition with_tail (q : quicklist) (p : ptr) : quicklist := mk_ql (ql_head q) p (ql_count q) (ql_len q) (ql_fill q) (ql_compress q) (ql_bookmarks q).
Definition add_count (q : quicklist) (k : Z) : quicklist := mk_ql (ql_head q) (ql_tail q) (u64 (ql_count q + k)) (ql_len q) (ql_fill q) (ql_compress q) (ql_bookmarks q).
Definition with_bookmarks (q : quicklist) (bms : list bookmark) : quicklist := mk_ql (ql_head q) (ql_tail q) (ql_count q) (ql_len q) (ql_fill q) (ql_compress q) bms.
Definition add_len (q : quicklist) (k : Z) : quicklist := mk_ql (ql_head q) (ql_tail q) (ql_count q) (u64 (ql_len q + k)) (ql_fill q) (ql_compress q) (ql_bookmarks q).

Class QAllocator := { znode : qheap -> loc; znode_fresh h : h !! znode h = None }.

(** Using the node's data as a ziplist. *)
Definition raw (n : quicklistNode) : option (list Z) := match q_zl n with ZRaw zl => Some zl | _ => None end.
Definition deref (h : qheap) (p : ptr) : option quicklistNode := a ← p; h !! a.
Definition update (h : qheap) (p : ptr) (f : quicklistNode -> quicklistNode) : option qheap :=
  a ← p; n ← h !! a; Some (<[a := f n]> h).

Definition MIN_COMPRESS_BYTES : Z := 48.
Definition MIN_COMPRESS_IMPROVE : Z := 8.
Definition SIZE_SAFETY_LIMIT : Z := 8192.
Definition optimization_level : list Z := [4096; 8192; 16384; 32768; 65536].
Definition COMPRESS_MAX : Z := 2 ^ 16 - 1.
Definition FILL_MAX : Z := 2 ^ 15 - 1.

Definition quicklistCreate : quicklist := mk_ql None None 0 0 (-2) 0 [].
Definition quicklistSetCompressDepth (q : quicklist) (compress : Z) : quicklist :=
  let compress := if compress >? COMPRESS_MAX then COMPRESS_MAX else if compress <? 0 then 0 else compress in
  mk_ql (ql_head q) (ql_tail q) (ql_count q) (ql_len q) (ql_fill q) compress (ql_bookmarks q).
Definition quicklistSetFill (q : quicklist) (fill : Z) : quicklist :=
  let fill := if fill >? FILL_MAX then FILL_MAX else if fill <? -5 then -5 else fill in
  mk_ql (ql_head q) (ql_tail q) (ql_count q) (ql_len q) fill (ql_compress q) (ql_bookmarks q).
Definition quicklistSetOptions (q : quicklist) (fill depth : Z) : quicklist := quicklistSetCompressDepth (quicklistSetFill q fill) depth.
Definition quicklistNew (fill compress : Z) : quicklist := quicklistSetOptions quicklistCreate fill compress.
(** ** Bookmarks *)
Definition QL_MAX_BM : nat := 15.
Fixpoint find_index {A} (f : A -> bool) (l : list A) : option nat :=
  match l with [] => None | x :: l => if f x then Some 0%nat else S <$> find_index f l end.
Definition _quicklistBookmarkFindByName (q : quicklist) (name : list Z) : option nat := find_index (fun bm : bookmark => bool_decide (bm.1 = name)) (ql_bookmarks q).
Definition _quicklistBookmarkFindByNode (q : quicklist) (node : ptr) : option nat := find_index (fun bm : bookmark => bool_decide (bm.2 = node)) (ql_bookmarks q).
Definition _quicklistBookmarkDelete (q : quicklist) (index : nat) : quicklist :=
  with_bookmarks q (take index (ql_bookmarks q) ++ drop (S index) (ql_bookmarks q)).
Definition bookmark_set (q : quicklist) (index : nat) (node : ptr) : quicklist :=
  with_bookmarks q (alter (fun bm : bookmark => (bm.1, node)) index (ql_bookmarks q)).
Definition quicklistBookmarkCreate (q : quicklist) (name : list Z) (node : ptr) : quicklist * bool :=
  if (QL_MAX_BM <=? length (ql_bookmarks q))%nat then (q, false)
  else match _quicklistBookmarkFindByName q name with
       | Some i => (bookmark_set q i node, true)
       | None => (with_bookmarks q (ql_bookmarks q ++ [(name, node)]), true)
       end.
Definition quicklistBookmarkFind (q : quicklist) (name : list Z) : ptr :=
  i ← _quicklistBookmarkFindByName q name; bm ← ql_bookmarks q !! i; bm.2.
Definition quicklistBookmarkDelete (q : quicklist) (name : list Z) : quicklist * bool :=
  match _quicklistBookmarkFindByName q name with None => (q, false) | Some i => (_quicklistBookmarkDelete q i, true) end.
Definition quicklistBookmarksClear (q : quicklist) : quicklist := with_bookmarks q [].

Definition quicklistCount (q : quicklist) : Z := ql_count q.

Section Quicklist.
  Context `{QAllocator} (be : bool) (junk : nat -> Z) (hjunk : Z -> Z).

(** A new node, with its ziplist and its size. *)
Definition quicklistCreateNode (h : qheap) (zl : list Z) (sz : Z) : qheap * loc :=
  let a := znode h in (<[a := mk_qnode None None (ZRaw zl) sz 0 false]> h, a).

(** ** Compression *)
Definition __quicklistCompressNode (n : quicklistNode) : option quicklistNode :=
  if q_sz n <? MIN_COMPRESS_BYTES then Some n
  else
    zl ← raw n;
    inp ← load zl 0 (q_sz n);
    '(len, out) ← lzf_compress hjunk inp (realloc junk [] (q_sz n));
    if (len =? 0) || (u32 (len + MIN_COMPRESS_IMPROVE) >=? q_sz n) then Some n
    else Some (with_recompress (with_zl n (ZLzf (take (Z.to_nat len) out)) (q_sz n)) false).
Definition quicklistCompressNode (h : qheap) (p : ptr) : option qheap :=
  match p with
  | None => Some h
  | Some a => n ← h !! a; match q_zl n with ZRaw _ => n ← __quicklistCompressNode n; Some (<[a := n]> h) | _ => Some h end
  end.
(** The result is ignored by the callers: a node that does not decompress
    stays as it is. *)
Definition __quicklistDecompressNode (n : quicklistNode) : option quicklistNode :=
  match q_zl n with
  | ZLzf c =>
      r ← lzf_decompress c (realloc junk [] (q_sz n));
      Some (match r with inl _ => n | inr (len, out) => if len =? 0 then n else with_zl n (ZRaw out) (q_sz n) end)
  | _ => None
  end.
Definition quicklistDecompressNode (h : qheap) (p : ptr) : option qheap :=
  match p with
  | None => Some h
  | Some a => n ← h !! a; match q_zl n with ZLzf _ => n ← __quicklistDecompressNode n; Some (<[a := n]> h) | _ => Some h end
  end.
Definition quicklistDecompressNodeForUse (h : qheap) (p : ptr) : option qheap :=
  match p with
  | None => Some h
  | Some a => n ← h !! a; match q_zl n with ZLzf _ => n ← __quicklistDecompressNode n; Some (<[a := with_recompress n true]> h) | _ => Some h end
  end.
(** [depth] turns are left. *)
Fixpoint compress_turns (depth : nat) (q : quicklist) (h : qheap) (node forward reverse : ptr) (in_depth : bool) : option qheap :=
  match depth with
  | O =>
      h ← (if in_depth then Some h else quicklistCompressNode h node);
      if ql_compress q + 1 >? 2 then h ← quicklistCompressNode h forward; quicklistCompressNode h reverse else Some h
  | S depth =>
      h ← quicklistDecompressNode h forward;
      h ← quicklistDecompressNode h reverse;
      let in_depth := in_depth || bool_decide (forward = node) || bool_decide (reverse = node) in
      if bool_decide (forward = reverse) then Some h
      else nf ← deref h forward; nr ← deref h reverse; compress_turns depth q h node (q_next nf) (q_prev nr) in_depth
  end.
Definition __quicklistCompress (q : quicklist) (h : qheap) (node : ptr) : option qheap :=
  if (ql_compress q =? 0) || (ql_len q <? ql_compress q * 2) then Some h
  else compress_turns (Z.to_nat (ql_compress q)) q h node (ql_head q) (ql_tail q) false.
Definition quicklistCompress (q : quicklist) (h : qheap) (node : ptr) : option qheap :=
  n ← deref h node; if q_recompress n then quicklistCompressNode h node else __quicklistCompress q h node.
Definition quicklistRecompressOnly (h : qheap) (node : ptr) : option qheap :=
  n ← deref h node; if q_recompress n then quicklistCompressNode h node else Some h.

(** ** Linking nodes *)
Definition relink (h : qheap) (p : ptr) (f : quicklistNode -> quicklistNode) : option qheap :=
  match p with None => Some h | _ => update h p f end.
Definition __quicklistInsertNode (h : qheap) (q : quicklist) (old_node new_node : ptr) (after : bool) : option (qheap * quicklist) :=
  '(h, q) ← (if after then
      h ← update h new_node (fun n => with_prev n old_node);
      h ← match old_node with
          | None => Some h
          | _ => old ← deref h old_node;
                 h ← update h new_node (fun n => with_next n (q_next old));
                 h ← relink h (q_next old) (fun n => with_prev n new_node);
                 update h old_node (fun n => with_next n new_node)
          end;
      Some (h, if bool_decide (ql_tail q = old_node) then with_tail q new_node else q)
    else
      h ← update h new_node (fun n => with_next n old_node);
      h ← match old_node with
          | None => Some h
          | _ => old ← deref h old_node;
                 h ← update h new_node (fun n => with_prev n (q_prev old));
                 h ← relink h (q_prev old) (fun n => with_next n new_node);
                 update h old_node (fun n => with_prev n new_node)
          end;
      Some (h, if bool_decide (ql_head q = old_node) then with_head q new_node else q));
  let q := if ql_len q =? 0 then with_tail (with_head q new_node) new_node else q in
  h ← match old_node with None => Some h | _ => quicklistCompress q h old_node end;
  Some (h, add_len q 1).
Definition _quicklistInsertNodeBefore (h : qheap) (q : quicklist) (old_node new_node : ptr) := __quicklistInsertNode h q old_node new_node false.
Definition _quicklistInsertNodeAfter (h : qheap) (q : quicklist) (old_node new_node : ptr) := __quicklistInsertNode h q old_node new_node true.
Definition __quicklistDelNode (h : qheap) (q : quicklist) (node : ptr) : option (qheap * quicklist) :=
  n ← deref h node;
  let q := match _quicklistBookmarkFindByNode q node with
           | None => q
           | Some i => let q := bookmark_set q i (q_next n) in match q_next n with None => _quicklistBookmarkDelete q i | _ => q end
           end in
  h ← relink h (q_next n) (fun x => with_prev x (q_prev n));
  h ← relink h (q_prev n) (fun x => with_next x (q_next n));
  let q := if bool_decide (node = ql_tail q) then with_tail q (q_prev n) else q in
  let q := if bool_decide (node = ql_head q) then with_head q (q_next n) else q in
  h ← __quicklistCompress q h None;
  let q := add_count q (- q_count n) in
  a ← node;
  Some (delete a h, add_len q (-1)).

(** ** When a node takes another entry *)
Definition _quicklistNodeSizeMeetsOptimizationRequirement (sz fill : Z) : bool :=
  if fill >=? 0 then false
  else match optimization_level !! Z.to_nat (- fill - 1) with Some level => sz <=? level | None => false end.
Definition sizeMeetsSafetyLimit (sz : Z) : bool := sz <=? SIZE_SAFETY_LIMIT.
Definition _quicklistNodeAllowInsert (node : option quicklistNode) (fill sz : Z) : bool :=
  match node with
  | None => false
  | Some n =>
      let ziplist_overhead := (if sz <? 254 then 1 else 5) + (if sz <? 64 then 1 else if sz <? 16384 then 2 else 5) in
      let new_sz := u32 (q_sz n + sz + ziplist_overhead) in
      if _quicklistNodeSizeMeetsOptimizationRequirement new_sz fill then true
      else if negb (sizeMeetsSafetyLimit new_sz) then false
      else q_count n <? fill
  end.
Definition _quicklistNodeAllowMerge (a b : option quicklistNode) (fill : Z) : bool :=
  match a, b with
  | Some a, Some b =>
      let merge_sz := u32 (q_sz a + q_sz b - 11) in
      if _quicklistNodeSizeMeetsOptimizationRequirement merge_sz fill then true
      else if negb (sizeMeetsSafetyLimit merge_sz) then false
      else q_count a + q_count b <=? fill
  | _, _ => false
  end.
(** The node a pointer that may be NULL points to: the outer [None] is a
    dangling pointer. *)
Definition node_at (h : qheap) (p : ptr) : option (option quicklistNode) :=
  match p with None => Some None | Some a => n ← h !! a; Some (Some n) end.

(** ** Adding at the ends *)
(** The new ziplist of a node, and quicklistNodeUpdateSz. *)
Definition set_ziplist (n : quicklistNode) (zl : list Z) : option quicklistNode := sz ← ziplistBlobLen be zl; Some (with_zl n (ZRaw zl) sz).
Definition push_in_node (h : qheap) (p : ptr) (value : list Z) (w : zl_where) : option qheap :=
  a ← p; n ← h !! a; zl ← raw n; zl ← ziplistPush be junk zl value w; n ← set_ziplist n zl; Some (<[a := n]> h).
Definition new_with (h : qheap) (value : list Z) (w : zl_where) : option (qheap * loc) :=
  zl ← ziplistNew be junk; zl ← ziplistPush be junk zl value w; sz ← ziplistBlobLen be zl; Some (quicklistCreateNode h zl sz).
Definition incr_node (h : qheap) (p : ptr) (k : Z) : option qheap := update h p (fun n => with_count n (u16 (q_count n + k))).
Definition quicklistPushHead (h : qheap) (q : quicklist) (value : list Z) : option (qheap * quicklist * bool) :=
  let orig_head := ql_head q in
  hn ← node_at h (ql_head q);
  '(h, q) ← (if _quicklistNodeAllowInsert hn (ql_fill q) (zlen value) then h ← push_in_node h (ql_head q) value ZIPLIST_HEAD; Some (h, q)
             else '(h, a) ← new_with h value ZIPLIST_HEAD; _quicklistInsertNodeBefore h q (ql_head q) (Some a));
  let q := add_count q 1 in
  h ← incr_node h (ql_head q) 1;
  Some (h, q, negb (bool_decide (orig_head = ql_head q))).
Definition quicklistPushTail (h : qheap) (q : quicklist) (value : list Z) : option (qheap * quicklist * bool) :=
  let orig_tail := ql_tail q in
  tn ← node_at h (ql_tail q);
  '(h, q) ← (if _quicklistNodeAllowInsert tn (ql_fill q) (zlen value) then h ← push_in_node h (ql_tail q) value ZIPLIST_TAIL; Some (h, q)
             else '(h, a) ← new_with h value ZIPLIST_TAIL; _quicklistInsertNodeAfter h q (ql_tail q) (Some a));
  let q := add_count q 1 in
  h ← incr_node h (ql_tail q) 1;
  Some (h, q, negb (bool_decide (orig_tail = ql_tail q))).
Inductive ql_where := QUICKLIST_HEAD | QUICKLIST_TAIL.
Definition quicklistPush (h : qheap) (q : quicklist) (value : list Z) (w : ql_where) : option (qheap * quicklist) :=
  '(h, q, _) ← match w with QUICKLIST_HEAD => quicklistPushHead h q value | QUICKLIST_TAIL => quicklistPushTail h q value end; Some (h, q).
(** [quicklistDelIndex]: also the pointer it updates, and whether the node is
    gone. *)
Definition quicklistDelIndex (h : qheap) (q : quicklist) (node : ptr) (p : Z) : option (qheap * quicklist * Z * bool) :=
  a ← node; n ← h !! a; zl ← raw n;
  '(zl, p) ← ziplistDelete be junk zl p;
  let n := with_count (with_zl n (ZRaw zl) (q_sz n)) (u16 (q_count n - 1)) in
  '(h, q, gone) ← (if q_count n =? 0 then '(h, q) ← __quicklistDelNode (<[a := n]> h) q node; Some (h, q, true)
                   else n ← set_ziplist n zl; Some (<[a := n]> h, q, false));
  Some (h, add_count q (-1), p, gone).

(** ** Entries and iterators *)
Record quicklistEntry := mk_entry { e_node : ptr; e_zi : option Z; e_value : option zlvalue; e_offset : Z }.
Definition initEntry : quicklistEntry := mk_entry None None None 123456789.
Inductive ql_direction := AL_START_HEAD | AL_START_TAIL.
Record quicklistIter := mk_iter { it_current : ptr; it_zi : option Z; it_offset : Z; it_direction : ql_direction }.

(** ziplistGet through a pointer that may be NULL. *)
Definition zl_get_opt (zl : list Z) (p : option Z) : option (option zlvalue) :=
  match p with None => Some None | Some p => ziplistGet be zl p end.
(** A value as bytes: integers are written into [longstr]. *)
Definition value_bytes (v : zlvalue) : option (list Z) :=
  match v with ZlStr s => Some s | ZlInt v => '(sz, longstr) ← ll2string (replicate 32 0) 32 v; load longstr 0 sz end.

(** The node the walk stops at, and the number of entries before it. *)
Fixpoint find_node (fuel : nat) (h : qheap) (forward : bool) (n : ptr) (accum index : Z) : option (ptr * Z) :=
  match n with
  | None => Some (None, accum)
  | Some a =>
      x ← h !! a;
      if u64 (accum + q_count x) >? index then Some (n, accum)
      else match fuel with O => None | S fuel => find_node fuel h forward (if forward then q_next x else q_prev x) (u64 (accum + q_count x)) index end
  end.
Definition quicklistIndex (h : qheap) (q : quicklist) (idx : Z) : option (qheap * quicklistEntry * bool) :=
  if idx =? - 2 ^ 63 then None   (* -idx overflows *)
  else
    let forward := negb (idx <? 0) in
    let index := if forward then idx else - idx - 1 in
    if index >=? ql_count q then Some (h, initEntry, false)
    else
      '(n, accum) ← find_node (size h) h forward (if forward then ql_head q else ql_tail q) 0 index;
      match n with
      | None => Some (h, initEntry, false)
      | _ =>
          let offset := s32 (if forward then u64 (index - accum) else u64 (- index - 1 + accum)) in
          h ← quicklistDecompressNodeForUse h n;
          x ← deref h n; zl ← raw x;
          zi ← ziplistIndex be zl offset;
          value ← zl_get_opt zl zi;
          Some (h, mk_entry n zi value offset, true)
      end.

Definition quicklistGetIterator (q : quicklist) (direction : ql_direction) : quicklistIter :=
  match direction with AL_START_HEAD => mk_iter (ql_head q) None 0 direction | AL_START_TAIL => mk_iter (ql_tail q) None (-1) direction end.
Definition quicklistGetIteratorAtIdx (h : qheap) (q : quicklist) (direction : ql_direction) (idx : Z) : option (qheap * option quicklistIter) :=
  '(h, entry, found) ← quicklistIndex h q idx;
  Some (h, if (found : bool) then Some (mk_iter (e_node entry) None (e_offset entry) direction) else None).
Definition quicklistReleaseIterator (h : qheap) (q : quicklist) (iter : quicklistIter) : option qheap :=
  match it_current iter with None => Some h | p => quicklistCompress q h p end.
(** The recursion moves to another node: the nodes bound it. *)
Fixpoint next_loop (fuel : nat) (h : qheap) (q : quicklist) (iter : quicklistIter) : option (qheap * quicklistIter * quicklistEntry * bool) :=
  let current := it_current iter in
  match current with
  | None => Some (h, iter, initEntry, false)
  | _ =>
      '(h, zi, offset) ← match it_zi iter with
        | None =>
            h ← quicklistDecompressNodeForUse h current;
            x ← deref h current; zl ← raw x; zi ← ziplistIndex be zl (s32 (it_offset iter)); Some (h, zi, it_offset iter)
        | Some p =>
            x ← deref h current; zl ← raw x;
            match it_direction iter with
            | AL_START_HEAD => zi ← ziplistNext zl p; Some (h, zi, it_offset iter + 1)
            | AL_START_TAIL => zi ← ziplistPrev be zl p; Some (h, zi, it_offset iter - 1)
            end
        end;
      x ← deref h current;
      match zi with
      | Some p =>
          zl ← raw x; value ← ziplistGet be zl p;
          Some (h, mk_iter current zi offset (it_direction iter), mk_entry current zi value (s32 offset), true)
      | None =>
          h ← quicklistCompress q h current;
          x ← deref h current;
          let iter := match it_direction iter with
                      | AL_START_HEAD => mk_iter (q_next x) None 0 AL_START_HEAD
                      | AL_START_TAIL => mk_iter (q_prev x) None (-1) AL_START_TAIL
                      end in
          match fuel with O => None | S fuel => next_loop fuel h q iter end
      end
  end.
Definition quicklistNext (h : qheap) (q : quicklist) (iter : option quicklistIter) : option (qheap * option quicklistIter * quicklistEntry * bool) :=
  match iter with
  | None => Some (h, None, initEntry, false)
  | Some iter => '(h, iter, entry, found) ← next_loop (size h) h q iter; Some (h, Some iter, entry, found)
  end.
Definition quicklistDelEntry (h : qheap) (q : quicklist) (iter : quicklistIter) (entry : quicklistEntry) : option (qheap * quicklist * quicklistIter * quicklistEntry) :=
  n ← deref h (e_node entry);
  let prev := q_prev n in let next := q_next n in
  zi ← e_zi entry;
  '(h, q, zi, deleted_node) ← quicklistDelIndex h q (e_node entry) zi;
  let entry := mk_entry (e_node entry) (Some zi) (e_value entry) (e_offset entry) in
  Some (h, q,
    if (deleted_node : bool) then match it_direction iter with AL_START_HEAD => mk_iter next None 0 AL_START_HEAD | AL_START_TAIL => mk_iter prev None (-1) AL_START_TAIL end
    else mk_iter (it_current iter) None (it_offset iter) (it_direction iter), entry).
Definition quicklistCompare (zl : list Z) (p1 : Z) (p2 : list Z) : option bool := ziplistCompare be zl p1 p2.

(** ** Replacing, merging and splitting *)
Definition quicklistReplaceAtIndex (h : qheap) (q : quicklist) (index : Z) (data : list Z) : option (qheap * bool) :=
  '(h, entry, found) ← quicklistIndex h q index;
  if (found : bool) then
    a ← e_node entry; n ← h !! a; zl ← raw n; zi ← e_zi entry;
    '(zl, zi) ← ziplistDelete be junk zl zi;
    zl ← ziplistInsert be junk zl zi data;
    n ← set_ziplist n zl;
    h ← quicklistCompress q (<[a := n]> h) (Some a);
    Some (h, true)
  else Some (h, false).
(** ziplistMerge never fails on two different nodes. *)
Definition _quicklistZiplistMerge (h : qheap) (q : quicklist) (a b : ptr) : option (qheap * quicklist * ptr) :=
  h ← quicklistDecompressNode h a;
  h ← quicklistDecompressNode h b;
  na ← deref h a; nb ← deref h b; za ← raw na; zb ← raw nb;
  '(zl, append) ← ziplistMerge be junk za zb;
  let '(keep, nokeep) := if (append : bool) then (a, b) else (b, a) in
  '(zl, len) ← ziplistLen be zl;
  sz ← ziplistBlobLen be zl;
  h ← update h keep (fun n => with_count (with_zl n (ZRaw zl) sz) (u16 len));
  h ← update h nokeep (fun n => with_count (with_zl n ZNull (q_sz n)) 0);
  '(h, q) ← __quicklistDelNode h q nokeep;
  h ← quicklistCompress q h keep;
  Some (h, q, keep).
Definition merge_if (h : qheap) (q : quicklist) (x y a b : ptr) : option (qheap * quicklist * option ptr) :=
  nx ← node_at h x; ny ← node_at h y;
  if _quicklistNodeAllowMerge nx ny (ql_fill q) then '(h, q, target) ← _quicklistZiplistMerge h q a b; Some (h, q, Some target)
  else Some (h, q, None).
Definition ptr_prev (h : qheap) (p : ptr) : option ptr := match p with None => Some None | Some a => n ← h !! a; Some (q_prev n) end.
Definition ptr_next (h : qheap) (p : ptr) : option ptr := match p with None => Some None | Some a => n ← h !! a; Some (q_next n) end.
Definition _quicklistMergeNodes (h : qheap) (q : quicklist) (center : ptr) : option (qheap * quicklist) :=
  n ← deref h center;
  let prev := q_prev n in prev_prev ← ptr_prev h prev;
  let next := q_next n in next_next ← ptr_next h next;
  '(h, q, _) ← merge_if h q prev prev_prev prev_prev prev;
  '(h, q, _) ← merge_if h q next next_next next next_next;
  n ← deref h center;
  '(h, q, merged) ← merge_if h q center (q_prev n) (q_prev n) center;
  let target := match merged with Some t => t | None => center end in
  n ← deref h target;
  '(h, q, _) ← merge_if h q target (q_next n) target (q_next n);
  Some (h, q).
Definition _quicklistSplitNode (h : qheap) (node : ptr) (offset : Z) (after : bool) : option (qheap * loc) :=
  a ← node; n ← h !! a; zl ← raw n;
  new_zl ← load zl 0 (q_sz n);
  let orig_start := if after then s32 (offset + 1) else 0 in
  let orig_extent := if after then -1 else offset in
  let new_start := if after then 0 else offset in
  let new_extent := if after then s32 (offset + 1) else -1 in
  zl ← ziplistDeleteRange be junk zl orig_start (u32 orig_extent);
  '(zl, count) ← ziplistLen be zl;
  n ← set_ziplist (with_count n (u16 count)) zl;
  new_zl ← ziplistDeleteRange be junk new_zl new_start (u32 new_extent);
  '(new_zl, count) ← ziplistLen be new_zl;
  sz ← ziplistBlobLen be new_zl;
  let '(h, new) := quicklistCreateNode (<[a := n]> h) new_zl sz in
  h ← update h (Some new) (fun n => with_count n (u16 count));
  Some (h, new).

(** ** Inserting *)
(** One more entry in a node, decompressed for it and compressed again. *)
Definition edit_node (h : qheap) (node : ptr) (edit : list Z -> option (list Z)) : option qheap :=
  h ← quicklistDecompressNodeForUse h node;
  a ← node; n ← h !! a; zl ← raw n;
  zl ← edit zl;
  n ← set_ziplist (with_count n (u16 (q_count n + 1))) zl;
  quicklistRecompressOnly (<[a := n]> h) node.
Definition _quicklistInsert (h : qheap) (q : quicklist) (entry : quicklistEntry) (value : list Z) (after : bool) : option (qheap * quicklist) :=
  let fill := ql_fill q in
  let sz := zlen value in
  let node := e_node entry in
  match node with
  | None =>
      zl ← ziplistNew be junk; zl ← ziplistPush be junk zl value ZIPLIST_HEAD;
      let '(h, new_node) := quicklistCreateNode h zl 0 in
      '(h, q) ← __quicklistInsertNode h q None (Some new_node) after;
      h ← incr_node h (Some new_node) 1;
      Some (h, add_count q 1)
  | Some a =>
      n ← h !! a;
      let full := negb (_quicklistNodeAllowInsert (Some n) fill sz) in
      let at_tail := after && (e_offset entry =? q_count n) in
      nn ← node_at h (q_next n);
      let full_next := at_tail && negb (_quicklistNodeAllowInsert nn fill sz) in
      let at_head := negb after && (e_offset entry =? 0) in
      np ← node_at h (q_prev n);
      let full_prev := at_head && negb (_quicklistNodeAllowInsert np fill sz) in
      let has_next := bool_decide (is_Some (q_next n)) in
      let has_prev := bool_decide (is_Some (q_prev n)) in
      '(h, q) ← (if negb full && after then
          zi ← e_zi entry;
          h ← edit_node h node (fun zl => next ← ziplistNext zl zi;
                                 match next with None => ziplistPush be junk zl value ZIPLIST_TAIL | Some next => ziplistInsert be junk zl next value end);
          Some (h, q)
        else if negb full && negb after then
          zi ← e_zi entry;
          h ← edit_node h node (fun zl => ziplistInsert be junk zl zi value);
          Some (h, q)
        else if full && at_tail && has_next && negb full_next && after then
          h ← edit_node h (q_next n) (fun zl => ziplistPush be junk zl value ZIPLIST_HEAD);
          Some (h, q)
        else if full && at_head && has_prev && negb full_prev && negb after then
          h ← edit_node h (q_prev n) (fun zl => ziplistPush be junk zl value ZIPLIST_TAIL);
          Some (h, q)
        else if full && ((at_tail && has_next && full_next && after) || (at_head && has_prev && full_prev && negb after)) then
          '(h, new_node) ← new_with h value ZIPLIST_HEAD;
          h ← incr_node h (Some new_node) 1;
          __quicklistInsertNode h q node (Some new_node) after
        else
          h ← quicklistDecompressNodeForUse h node;
          '(h, new_node) ← _quicklistSplitNode h node (e_offset entry) after;
          h ← push_in_node h (Some new_node) value (if after then ZIPLIST_HEAD else ZIPLIST_TAIL);
          h ← incr_node h (Some new_node) 1;
          '(h, q) ← __quicklistInsertNode h q node (Some new_node) after;
          _quicklistMergeNodes h q node);
      Some (h, add_count q 1)
  end.
Definition quicklistInsertBefore (h : qheap) (q : quicklist) (entry : quicklistEntry) (value : list Z) := _quicklistInsert h q entry value false.
Definition quicklistInsertAfter (h : qheap) (q : quicklist) (entry : quicklistEntry) (value : list Z) := _quicklistInsert h q entry value true.

(** ** Deleting a range *)
Fixpoint delrange_loop (fuel : nat) (h : qheap) (q : quicklist) (node : ptr) (offset extent : Z) : option (qheap * quicklist) :=
  if extent =? 0 then Some (h, q)
  else match fuel with
  | O => None
  | S fuel =>
      n ← deref h node;
      let next := q_next n in
      let delete_entire_node := (offset =? 0) && (extent >=? q_count n) in
      let del := if delete_entire_node then q_count n
                 else if (offset >=? 0) && (extent >=? q_count n) then u64 (q_count n - offset)
                 else if offset <? 0 then (let del := - offset in if del >? extent then extent else del)
                 else extent in
      '(h, q) ← (if delete_entire_node then __quicklistDelNode h q node
        else
          h ← quicklistDecompressNodeForUse h node;
          a ← node; n ← h !! a; zl ← raw n;
          zl ← ziplistDeleteRange be junk zl offset (u32 del);
          n ← set_ziplist n zl;
          let n := with_count n (u16 (q_count n - del)) in
          let h := <[a := n]> h in
          let q := add_count q (- del) in
          if q_count n =? 0 then __quicklistDelNode h q node
          else h ← quicklistRecompressOnly h node; Some (h, q));
      delrange_loop fuel h q next 0 (u64 (extent - del))
  end.
Definition quicklistDelRange (h : qheap) (q : quicklist) (start count : Z) : option (qheap * quicklist * bool) :=
  if count <=? 0 then Some (h, q, false)
  else
    let extent := count in
    let extent := if (start >=? 0) && (extent >? u64 (ql_count q - start)) then u64 (ql_count q - start)
                  else if (start <? 0) && (extent >? - start) then - start
                  else extent in
    '(h, entry, found) ← quicklistIndex h q start;
    if (found : bool) then '(h, q) ← delrange_loop (size h) h q (e_node entry) (e_offset entry) extent; Some (h, q, true)
    else Some (h, q, false).

(** ** Whole lists *)
Definition quicklistRotate (h : qheap) (q : quicklist) : option (qheap * quicklist) :=
  if ql_count q <=? 1 then Some (h, q)
  else
    t ← deref h (ql_tail q); zl ← raw t;
    p ← ziplistIndex be zl (-1);
    v ← zl_get_opt zl p;
    v ← v; value ← value_bytes v;
    '(h, q, _) ← quicklistPushHead h q value;
    p ← (if ql_len q =? 1 then t ← deref h (ql_tail q); zl ← raw t; ziplistIndex be zl (-1) else Some p);
    p ← p;
    '(h, q, _, _) ← quicklistDelIndex h q (ql_tail q) p;
    Some (h, q).
(** [saver] copies a string; an integer is returned as it is. *)
Definition quicklistPopCustom {A} (saver : list Z -> A) (h : qheap) (q : quicklist) (w : ql_where) : option (qheap * quicklist * option (A + Z)) :=
  if ql_count q =? 0 then Some (h, q, None)
  else
    let '(node, pos) := match w with QUICKLIST_HEAD => (ql_head q, 0) | QUICKLIST_TAIL => (ql_tail q, -1) end in
    match node with
    | None => Some (h, q, None)
    | _ =>
        n ← deref h node; zl ← raw n;
        p ← ziplistIndex be zl pos;
        v ← zl_get_opt zl p;
        match v with
        | None => Some (h, q, None)
        | Some v =>
            p ← p;
            '(h, q, _, _) ← quicklistDelIndex h q node p;
            Some (h, q, Some (match v with ZlStr s => inl (saver s) | ZlInt v => inr v end))
        end
    end.
Definition _quicklistSaver (data : list Z) : list Z := data.
Definition quicklistPop (h : qheap) (q : quicklist) (w : ql_where) : option (qheap * quicklist * option (list Z + Z)) :=
  if ql_count q =? 0 then Some (h, q, None) else quicklistPopCustom _quicklistSaver h q w.

Definition quicklistAppendZiplist (h : qheap) (q : quicklist) (zl : list Z) : option (qheap * quicklist) :=
  '(zl, count) ← ziplistLen be zl;
  sz ← ziplistBlobLen be zl;
  let '(h, a) := quicklistCreateNode h zl sz in
  h ← update h (Some a) (fun n => with_count n (u16 count));
  '(h, q) ← _quicklistInsertNodeAfter h q (ql_tail q) (Some a);
  n ← h !! a;
  Some (h, add_count q (q_count n)).
Fixpoint append_loop (fuel : nat) (h : qheap) (q : quicklist) (zl : list Z) (p : option Z) : option (qheap * quicklist) :=
  v ← zl_get_opt zl p;
  match v with
  | None => Some (h, q)
  | Some v =>
      match fuel with
      | O => None
      | S fuel =>
          value ← value_bytes v;
          '(h, q, _) ← quicklistPushTail h q value;
          p ← p; p ← ziplistNext zl p;
          append_loop fuel h q zl p
      end
  end.
Definition quicklistAppendValuesFromZiplist (h : qheap) (q : quicklist) (zl : list Z) : option (qheap * quicklist) :=
  p ← ziplistIndex be zl 0; append_loop (length zl) h q zl p.
Definition quicklistCreateFromZiplist (h : qheap) (fill compress : Z) (zl : list Z) : option (qheap * quicklist) :=
  quicklistAppendValuesFromZiplist h (quicklistNew fill compress) zl.
Fixpoint dup_loop (fuel : nat) (h : qheap) (copy : quicklist) (current : ptr) : option (qheap * quicklist) :=
  match current with
  | None => Some (h, copy)
  | Some c =>
      match fuel with
      | O => None
      | S fuel =>
          n ← h !! c;
          zl ← match q_zl n with ZLzf lzf => Some (ZLzf lzf) | ZRaw zl => zl ← load zl 0 (q_sz n); Some (ZRaw zl) | ZNull => None end;
          let a := znode h in
          let h := <[a := mk_qnode None None zl (q_sz n) (q_count n) false]> h in
          '(h, copy) ← _quicklistInsertNodeAfter h (add_count copy (q_count n)) (ql_tail copy) (Some a);
          n ← h !! c;
          dup_loop fuel h copy (q_next n)
      end
  end.
Definition quicklistDup (h : qheap) (orig : quicklist) : option (qheap * quicklist) :=
  dup_loop (size h) h (quicklistNew (ql_fill orig) (ql_compress orig)) (ql_head orig).
(** The heap and the count left, which is dropped with the list. *)
Fixpoint release_loop (len : nat) (h : qheap) (count : Z) (current : ptr) : option (qheap * Z) :=
  match len with
  | O => Some (h, count)
  | S len => a ← current; n ← h !! a; release_loop len (delete a h) (u64 (count - q_count n)) (q_next n)
  end.
Definition quicklistRelease (h : qheap) (q : quicklist) : option qheap :=
  '(h, _) ← release_loop (Z.to_nat (ql_len q)) h (ql_count q) (ql_head q); Some h.
Definition quicklistGetLzf (n : quicklistNode) : option (list Z) := match q_zl n with ZLzf c => Some c | _ => None end.
End Quicklist.
