(* ===== verification/QuicklistShape.v ===== *)
(** * The shape of a quicklist

    The nodes of a quicklist on the heap, the data of a node, compressed or
    not, and the operations on whole nodes (quicklist.c: compressing,
    decompressing, linking and unlinking): they keep the links and the
    contents. *)
From S2P Require Import Prelude Endian Util Lzf Ziplist ZiplistEdit ZiplistSpec Quicklist.
#[local] Open Scope cmem_scope.

(** ** The bytes of a ziplist *)
Lemma body_bytes_ok b : body_ok b -> bytes_ok (body_bytes b).
Proof.
  intros Hb. unfold body_bytes. apply Forall_app. destruct b as [s|v]; cbn [body_head body_data body_ok] in *.
  - destruct Hb as [Hs Hl]. split; [|done]. pose proof (zlen_nonneg s).
    assert (H256 : forall x, byte_ok (x mod 256)) by (intros x; pose proof (Z.mod_pos_bound x 256 ltac:(lia)); unfold byte_ok; lia).
    assert (H24 : 0 <= zlen s / 2 ^ 24 < 256) by (split; [apply Z.div_pos; lia|apply Z.div_lt_upper_bound; lia]).
    assert (H8 : zlen s <= 16383 -> 0 <= zlen s / 256 < 64) by (intros; split; [apply Z.div_pos; lia|apply Z.div_lt_upper_bound; lia]).
    destruct (entry_encoding_cases (zlen s) ltac:(lia)) as [[Hn ->]|[[Hn ->]|[Hn ->]]]; repeat apply Forall_cons_2; try apply Forall_nil_2; try apply H256; unfold byte_ok; lia.
  - destruct (int_encoding_cases v Hb) as [(Hv & -> & ->)|[(Hv & -> & ->)|[(Hv & -> & ->)|[(Hv & -> & ->)|[(Hv & -> & ->)|(-> & ->)]]]]];
      (split; [repeat constructor; unfold byte_ok; lia|apply le_bytes_ok || constructor]).
Qed.
Lemma layout_bytes v es : chain_ok v es -> bytes_ok (layout v es).
Proof.
  revert v. induction es as [|e es IH]; intros v; [constructor|]. intros [(Hf & Hb & _) Hc]. cbn [layout]. apply Forall_app. split; [|by apply IH].
  apply Forall_app. split; [|by apply body_bytes_ok]. unfold prev_field. destruct Hf as [[-> Hv]|[-> Hv]]; cbn [Z.eqb Pos.eqb].
  - repeat constructor; unfold byte_ok; lia.
  - constructor; [unfold byte_ok, ZIP_BIG_PREVLEN; lia|apply le_bytes_ok].
Qed.
Lemma represents_block blk l : represents blk l -> bytes_ok blk /\ 11 + 2 * zlen l <= zlen blk < 2 ^ 32 /\ zlen blk <= 11 + weight l.
Proof.
  intros (es & Hz & <-). pose proof (zl_len _ _ Hz) as Hl. pose proof (zl_weight _ _ Hz) as [Hw _]. destruct Hz as (n & E & Hc & Hs & _).
  pose proof (sz_pos _ _ Hc). pose proof (zlen_nonneg es). unfold zlen at 1. rewrite strings_len. fold (zlen es).
  split; [|lia]. rewrite E. unfold hdr. rewrite !Forall_app. repeat split; try apply le_bytes_ok; [by apply layout_bytes|]. repeat constructor; unfold byte_ok, ZIP_END; lia.
Qed.
Lemma rep_blob be blk l : represents blk l -> ziplistBlobLen be blk = Some (zlen blk).
Proof.
  intros (es & Hz & _). rewrite (zl_len _ _ Hz). destruct Hz as (n & -> & Hc & Hs & _). pose proof (sz_pos _ _ Hc). pose proof (zlen_nonneg es).
  unfold ziplistBlobLen. apply get_bytes; unfold in_u; lia.
Qed.

(** ** The data of a node *)
(** The block a node's data stands for. *)
Definition data_is (d : zldata) (blk : list Z) : Prop :=
  match d with
  | ZNull => False
  | ZRaw zl => zl = blk
  | ZLzf c => forall buf, zlen buf = zlen blk -> lzf_decompress c buf = Some (inr (zlen blk, blk))
  end.
Definition is_raw (n : quicklistNode) : Prop := match q_zl n with ZRaw _ => True | _ => False end.
Record node_ok (n : quicklistNode) (l : list (list Z)) : Prop := {
  ok_data : exists blk, represents blk l /\ q_sz n = zlen blk /\ data_is (q_zl n) blk;
  ok_recompress : q_recompress n = false;
  ok_nonempty : l <> [];
  ok_small : zlen l < 2 ^ 16
}.
(** The block that the data is, or decompresses to. *)
Definition blk_of (n : quicklistNode) : option (list Z) :=
  match q_zl n with
  | ZNull => None
  | ZRaw zl => Some zl
  | ZLzf c => match lzf_decompress c (realloc (fun _ => 0) [] (q_sz n)) with Some (inr (_, out)) => Some out | _ => None end
  end.
Lemma blk_of_data n blk : data_is (q_zl n) blk -> q_sz n = zlen blk -> blk_of n = Some blk.
Proof.
  unfold blk_of. destruct (q_zl n) as [|zl|c]; cbn [data_is]; [done|by intros ->|]. intros Hd Hs. rewrite Hd; [done|]. rewrite realloc_length; [done|]. rewrite Hs. apply zlen_nonneg.
Qed.
(** The links of a node, apart from its data. *)
Definition linked (p x : ptr) (n : quicklistNode) : quicklistNode := with_next (with_prev n p) x.
Lemma node_ok_linked p x n l : node_ok (linked p x n) l <-> node_ok n l.
Proof. split; intros []; by constructor. Qed.
Lemma raw_ok n l : node_ok n l -> is_raw n -> exists zl, q_zl n = ZRaw zl /\ raw n = Some zl /\ represents zl l /\ q_sz n = zlen zl.
Proof. intros [(blk & Hr & Hs & Hd) _ _ _] Hraw. unfold is_raw, raw in *. destruct (q_zl n) as [|zl|]; [done| |done]. cbn in Hd. subst. by exists blk. Qed.

(** The nodes in order, with their data; their links are those of the order. *)
Abbreviation cells := (list (loc * quicklistNode)).

Section Shape.
  Context `{QAllocator} {be : bool} {junk : nat -> Z} {hjunk : Z -> Z}.

Lemma compress_node n l : node_ok n l -> is_raw n ->
  exists n', node_ok n' l /\ q_count n' = q_count n /\ blk_of n' = blk_of n /\ forall p x, __quicklistCompressNode junk hjunk (linked p x n) = Some (linked p x n').
Proof.
  intros Hn Hraw. destruct (raw_ok n l Hn Hraw) as (zl & Ez & Er & Hrep & Hs). unfold __quicklistCompressNode. change (q_sz (linked ?p ?x ?n)) with (q_sz n).
  destruct (Z.ltb_spec (q_sz n) MIN_COMPRESS_BYTES) as [|Hmin]; [by exists n|]. unfold MIN_COMPRESS_BYTES in Hmin.
  destruct (represents_block zl l Hrep) as (Hb & Hl & _).
  assert (Eload : load zl 0 (q_sz n) = Some zl) by (rewrite Hs; rewrite <- (app_nil_r zl) at 1; by apply load_prefix).
  change (raw (linked ?p ?x n)) with (raw n). setoid_rewrite Er. cbn [mbind option_bind]. rewrite Eload. cbn [mbind option_bind].
  destruct (compress_spec hjunk zl Hb ltac:(lia) (realloc junk [] (q_sz n))) as (len & o & -> & Ho & Hlen & Hdec). rewrite realloc_length in * by lia. cbn [mbind option_bind].
  destruct ((len =? 0) || (u32 (len + MIN_COMPRESS_IMPROVE) >=? q_sz n)) eqn:E; [by exists n|].
  apply orb_false_iff in E as [E _]. apply Z.eqb_neq in E. destruct (Hdec ltac:(lia)) as (ts & Et & Hne & Hok & Htl & Hex).
  exists (with_recompress (with_zl n (ZLzf (take (Z.to_nat len) o)) (q_sz n)) false).
  assert (Hd : data_is (ZLzf (take (Z.to_nat len) o)) zl).
  { intros buf Hbuf. rewrite Et, decompress_spec by (done || lia). rewrite Htl, Hex, drop_ge by (unfold zlen in *; lia). by rewrite app_nil_r. }
  destruct Hn as [_ _ Hnil Hsm]. split; [constructor; try done; by exists zl|]. split; [done|]. split; [|done].
  rewrite (blk_of_data (with_recompress (with_zl n (ZLzf (take (Z.to_nat len) o)) (q_sz n)) false) zl Hd Hs). unfold blk_of. by rewrite Ez.
Qed.
Lemma decompress_node n l c : node_ok n l -> q_zl n = ZLzf c ->
  exists n', node_ok n' l /\ is_raw n' /\ q_count n' = q_count n /\ blk_of n' = blk_of n /\ forall p x, __quicklistDecompressNode junk (linked p x n) = Some (linked p x n').
Proof.
  intros [(blk & Hr & Hs & Hd) Hre Hne Hsm] Ez. rewrite Ez in Hd. cbn in Hd. destruct (represents_block blk l Hr) as (_ & Hl & _). pose proof (zlen_nonneg l).
  exists (with_zl n (ZRaw blk) (q_sz n)). split; [|split; [done|split; [done|split; [|]]]].
  - constructor; try done. by exists blk.
  - by rewrite (blk_of_data n blk) by (by rewrite ?Ez).
  - intros p x. unfold __quicklistDecompressNode. change (q_zl (linked p x n)) with (q_zl n). rewrite Ez. change (q_sz (linked p x n)) with (q_sz n).
    rewrite Hd by (rewrite realloc_length; lia). cbn [mbind option_bind]. by rewrite (proj2 (Z.eqb_neq (zlen blk) 0)) by lia.
Qed.

(** ** The shape of a list *)
Definition at_ (xs : cells) (i : nat) : ptr := fst <$> xs !! i.
Definition pv (xs : cells) (i : nat) : ptr := match i with O => None | S j => at_ xs j end.
Record ql_heap (h : qheap) (xs : cells) : Prop := {
  hp_nodup : NoDup xs.*1;
  hp_at i a n : xs !! i = Some (a, n) -> h !! a = Some (linked (pv xs i) (at_ xs (S i)) n)
}.
Lemma at_inj h xs i j a : ql_heap h xs -> at_ xs i = Some a -> at_ xs j = Some a -> i = j.
Proof.
  intros [Hn _] Hi Hj. unfold at_ in *. rewrite <- list_lookup_fmap in Hi, Hj. by eapply NoDup_lookup.
Qed.
Lemma at_cell xs i a n : xs !! i = Some (a, n) -> at_ xs i = Some a.
Proof. intros E. unfold at_. by rewrite E. Qed.
Lemma cell_at xs i a : at_ xs i = Some a -> exists n, xs !! i = Some (a, n).
Proof. unfold at_. destruct (xs !! i) as [[b n]|]; intros [= <-]. by exists n. Qed.
Lemma at_lt xs i a : at_ xs i = Some a -> (i < length xs)%nat.
Proof. intros Hi. apply cell_at in Hi as [n Hi]. by eapply lookup_lt_Some. Qed.
Lemma at_ex xs i : (i < length xs)%nat -> exists a, at_ xs i = Some a.
Proof. intros Hi. apply lookup_lt_is_Some_2 in Hi as [[a n] E]. exists a. by eapply at_cell. Qed.
Lemma at_ge xs i : (length xs <= i)%nat -> at_ xs i = None.
Proof. intros Hi. unfold at_. by rewrite lookup_ge_None_2. Qed.
Lemma heap_get h xs i a n : ql_heap h xs -> xs !! i = Some (a, n) -> h !! a = Some (linked (pv xs i) (at_ xs (S i)) n).
Proof. intros [_ Hh]. apply Hh. Qed.
Lemma at_some h xs i a : ql_heap h xs -> at_ xs i = Some a -> is_Some (h !! a).
Proof. intros Hh Ha. destruct (cell_at _ _ _ Ha) as [n Hi]. rewrite (heap_get h xs i a n Hh Hi). eauto. Qed.
Lemma fresh_addr h xs b i : ql_heap h xs -> h !! b = None -> at_ xs i <> Some b.
Proof. intros Hh Hb Hi. destruct (at_some h xs i b Hh Hi). congruence. Qed.
Lemma addr_at (xs : cells) a : a ∈ xs.*1 <-> exists i, at_ xs i = Some a.
Proof. rewrite list_elem_of_lookup. unfold at_. split; intros [i Hi]; exists i; rewrite list_lookup_fmap in *; done. Qed.
Lemma heap_size h xs : ql_heap h xs -> (length xs <= size h)%nat.
Proof.
  intros Hh. rewrite <- (length_fmap fst xs), <- (size_list_to_set (C:=gset loc) xs.*1) by apply Hh. rewrite <- (size_dom (D:=gset loc)). apply subseteq_size.
  intros a Ha. apply elem_of_list_to_set, addr_at in Ha as [i Hi]. apply elem_of_dom. by eapply at_some.
Qed.
(** The rest of the heap stays as it is. *)
Definition frame (xs : cells) (h h' : qheap) : Prop := forall k, k ∉ xs.*1 -> h' !! k = h !! k.
Lemma ql_frame_refl xs h : frame xs h h.
Proof. done. Qed.
Lemma ql_frame_trans xs ys h1 h2 h3 : ys.*1 = xs.*1 -> frame xs h1 h2 -> frame ys h2 h3 -> frame xs h1 h3.
Proof. intros E F1 F2 k Hk. rewrite F2 by (by rewrite E). by apply F1. Qed.
Lemma frame_edit xs h i a n : at_ xs i = Some a -> frame xs h (<[a := n]> h).
Proof. intros Hi k Hk. rewrite lookup_insert_ne; [done|]. intros <-. apply Hk, addr_at. eauto. Qed.
Lemma heap_frame h h' xs : ql_heap h xs -> (forall i a, at_ xs i = Some a -> h' !! a = h !! a) -> ql_heap h' xs.
Proof. intros [Hn Hat] Hf. constructor; [done|]. intros i a n Hi. rewrite (Hf i a) by (by eapply at_cell). by apply Hat. Qed.

(** New data for a node: the links stay. *)
Lemma at_insert xs i a n j : at_ xs i = Some a -> at_ (<[i := (a, n)]> xs) j = at_ xs j.
Proof.
  intros Hi. unfold at_. destruct (decide (i = j)) as [<-|Hne]; [|by rewrite list_lookup_insert_ne].
  rewrite list_lookup_insert_eq by (by eapply at_lt). symmetry. exact Hi.
Qed.
Lemma fst_insert xs i a (n : quicklistNode) : at_ xs i = Some a -> (<[i := (a, n)]> xs).*1 = xs.*1.
Proof. intros Hi. apply list_eq. intros j. rewrite !list_lookup_fmap. exact (at_insert xs i a n j Hi). Qed.
Lemma pv_insert xs i a n j : at_ xs i = Some a -> pv (<[i := (a, n)]> xs) j = pv xs j.
Proof. intros Hi. destruct j; [done|]. by apply at_insert. Qed.
Lemma heap_edit h xs i a n m : ql_heap h xs -> xs !! i = Some (a, n) -> ql_heap (<[a := linked (pv xs i) (at_ xs (S i)) m]> h) (<[i := (a, m)]> xs).
Proof.
  intros Hh Hi. pose proof (at_cell _ _ _ _ Hi) as Ha. pose proof Hh as [Hn Hat]. constructor.
  - by rewrite fst_insert.
  - intros j b k Hj. rewrite pv_insert, at_insert by done. destruct (decide (i = j)) as [<-|Hne].
    + rewrite list_lookup_insert_eq in Hj by (by eapply lookup_lt_Some). injection Hj as <- <-. by rewrite lookup_insert_eq.
    + rewrite list_lookup_insert_ne in Hj by done. rewrite lookup_insert_ne; [by apply Hat|]. intros ->. apply Hne. by apply (at_inj h xs i j b); [|eapply at_cell..].
Qed.
Lemma update_in (h : qheap) (p : ptr) f a n : p = Some a -> h !! a = Some n -> update h p f = Some (alter f a h).
Proof.
  intros -> E. unfold update. cbn [mbind option_bind]. rewrite E. cbn [mbind option_bind]. f_equal. symmetry. apply map_eq. intros k.
  destruct (decide (k = a)) as [->|]; [by rewrite lookup_alter_eq, lookup_insert_eq, E|by rewrite lookup_alter_ne, lookup_insert_ne].
Qed.
Lemma ql_update_some (h : qheap) f a n : h !! a = Some n -> update h (Some a) f = Some (<[a := f n]> h).
Proof. intros E. unfold update. cbn [mbind option_bind]. by rewrite E. Qed.
(** Following a pointer that may be NULL. *)
Definition alter_ptr (f : quicklistNode -> quicklistNode) (p : ptr) (h : qheap) : qheap := match p with Some a => alter f a h | None => h end.
Lemma relink_in (h : qheap) (p : ptr) f : (forall a, p = Some a -> is_Some (h !! a)) -> relink h p f = Some (alter_ptr f p h).
Proof. intros Hp. destruct p as [a|]; [|done]. destruct (Hp a eq_refl) as [n E]. unfold relink. by rewrite (update_in h (Some a) f a n eq_refl E). Qed.
Lemma alter_ptr_lookup f p h a : alter_ptr f p h !! a = if bool_decide (p = Some a) then f <$> h !! a else h !! a.
Proof.
  destruct p as [b|]; cbn [alter_ptr]; [|by rewrite bool_decide_eq_false_2]. case_bool_decide as E.
  - injection E as ->. by rewrite lookup_alter_eq.
  - rewrite lookup_alter_ne; [done|]. congruence.
Qed.
Lemma dom_alter_ptr f p (h : qheap) : dom (alter_ptr f p h) = dom h.
Proof. destruct p; [|done]. apply dom_alter_L. Qed.

(** ** A node more, a node less *)
Definition put {A} (k : nat) (x : A) (xs : list A) : list A := take k xs ++ x :: drop k xs.
Lemma put_lookup {A} k (x : A) xs i : (k <= length xs)%nat ->
  put k x xs !! i = if bool_decide (i < k)%nat then xs !! i else if bool_decide (i = k) then Some x else xs !! pred i.
Proof.
  intros Hk. unfold put. case_bool_decide as H1; [rewrite lookup_app_l by (rewrite length_take; lia); by rewrite lookup_take_lt|].
  rewrite lookup_app_r by (rewrite length_take; lia). rewrite length_take, Nat.min_l by lia. case_bool_decide as H2; [subst; by rewrite Nat.sub_diag|].
  destruct (i - k)%nat as [|j] eqn:Ej; [lia|]. change (drop k xs !! j = xs !! pred i). rewrite lookup_drop. f_equal. lia.
Qed.
Lemma fst_put k (x : loc * quicklistNode) xs : (put k x xs).*1 = put k x.1 xs.*1.
Proof. unfold put. by rewrite fmap_app, fmap_cons, fmap_take, fmap_drop. Qed.
Lemma at_put k b m xs i : (k <= length xs)%nat -> at_ (put k (b, m) xs) i = if bool_decide (i < k)%nat then at_ xs i else if bool_decide (i = k) then Some b else at_ xs (pred i).
Proof. intros Hk. unfold at_. rewrite put_lookup by done. repeat case_bool_decide; done. Qed.
Lemma put_perm {A} k (x : A) xs : put k x xs ≡ₚ x :: xs.
Proof. unfold put. rewrite <- Permutation_middle. by rewrite take_drop. Qed.
(** The heap of a list with a new node in place [k]. *)
Lemma heap_put h h' xs k b m : ql_heap h xs -> h !! b = None -> (k <= length xs)%nat ->
  h' !! b = Some (linked (pv xs k) (at_ xs k) m) ->
  (forall i a n, xs !! i = Some (a, n) -> h' !! a = Some (linked (if bool_decide (i = k) then Some b else pv xs i) (if bool_decide (S i = k) then Some b else at_ xs (S i)) n)) ->
  ql_heap h' (put k (b, m) xs).
Proof.
  intros Hh Hb Hk Hnew Hold. pose proof Hh as [Hn Hat]. constructor.
  - rewrite fst_put, put_perm. apply NoDup_cons. split; [|done]. intros Hi. apply list_elem_of_lookup in Hi as [i Hi]. rewrite list_lookup_fmap in Hi. by apply (fresh_addr h xs b i Hh Hb).
  - intros i a n Hi. rewrite put_lookup in Hi by done. rewrite at_put by done.
    assert (Epv : pv (put k (b, m) xs) i = if bool_decide (i <= k)%nat then pv xs i else if bool_decide (i = S k) then Some b else at_ xs (pred (pred i))).
    { destruct i as [|i]; [done|]. cbn [pv]. rewrite at_put by done. repeat case_bool_decide; try done; lia. }
    rewrite Epv. clear Epv. destruct (decide (i < k)%nat) as [H1|H1]; [rewrite (bool_decide_eq_true_2 _ H1) in *|rewrite (bool_decide_eq_false_2 _ H1) in *].
    + rewrite (Hold _ _ _ Hi). repeat case_bool_decide; try done; lia.
    + destruct (decide (i = k)) as [H2|H2]; [rewrite (bool_decide_eq_true_2 _ H2) in *|rewrite (bool_decide_eq_false_2 _ H2) in *]; [injection Hi as <- <-; subst i; rewrite Hnew; repeat case_bool_decide; try done; lia|].
      rewrite (Hold _ _ _ Hi). destruct i as [|i]; [lia|]. cbn [pred] in *. repeat case_bool_decide; try done; try lia. destruct i as [|i]; [lia|done].
Qed.
(** The heap of a list without its node [k]. *)
Lemma delete_lookup {A} (xs : list A) k i : delete k xs !! i = if bool_decide (i < k)%nat then xs !! i else xs !! S i.
Proof. case_bool_decide; [by apply list_lookup_delete_lt|apply list_lookup_delete_ge; lia]. Qed.
Lemma fst_delete k (xs : cells) : (delete k xs).*1 = delete k (xs.*1).
Proof. apply list_eq. intros i. rewrite list_lookup_fmap, !delete_lookup. by case_bool_decide; rewrite list_lookup_fmap. Qed.
Lemma at_delete k xs i : at_ (delete k xs) i = if bool_decide (i < k)%nat then at_ xs i else at_ xs (S i).
Proof. unfold at_. rewrite delete_lookup. by case_bool_decide. Qed.
Lemma heap_remove h h' xs k b m : ql_heap h xs -> xs !! k = Some (b, m) ->
  (forall i a n, i <> k -> xs !! i = Some (a, n) -> h' !! a = Some (linked (if bool_decide (i = S k) then pv xs k else pv xs i) (if bool_decide (S i = k) then at_ xs (S k) else at_ xs (S i)) n)) ->
  ql_heap h' (delete k xs).
Proof.
  intros Hh Hk Hold. pose proof Hh as [Hn Hat].
  assert (Hperm : xs.*1 ≡ₚ b :: delete k (xs.*1)) by (apply delete_Permutation; by rewrite list_lookup_fmap, Hk).
  assert (Hn' : NoDup (b :: delete k (xs.*1))) by (by rewrite <- Hperm). apply NoDup_cons in Hn' as [Hni Hn'].
  constructor.
  - by rewrite fst_delete.
  - intros i a n Hi. rewrite delete_lookup in Hi. rewrite at_delete.
    assert (Epv : pv (delete k xs) i = if bool_decide (i <= k)%nat then pv xs i else at_ xs i).
    { destruct i as [|i]; [done|]. cbn [pv]. rewrite at_delete. repeat case_bool_decide; try done; lia. }
    rewrite Epv. clear Epv. destruct (decide (i < k)%nat) as [H1|H1]; [rewrite (bool_decide_eq_true_2 _ H1) in *|rewrite (bool_decide_eq_false_2 _ H1) in *].
    + rewrite (Hold i a n ltac:(lia) Hi). repeat case_bool_decide; try done; try lia. by subst.
    + rewrite (Hold (S i) a n ltac:(lia) Hi). repeat case_bool_decide; try done; try lia. by replace k with i by lia.
Qed.

(** ** Compressing and decompressing keep the contents *)
Definition nok (x : loc * quicklistNode) (l : list (list Z)) : Prop := node_ok x.2 l.
Definition shape (h : qheap) (xs : cells) (ls : list (list (list Z))) : Prop := ql_heap h xs /\ Forall2 nok xs ls.
Definition raw_at (xs : cells) (j : nat) : Prop := forall a n, xs !! j = Some (a, n) -> is_raw n.
(** What compression keeps: the addresses, the counts and the blocks. *)
Definition key (x : loc * quicklistNode) : loc * option (list Z) * Z := (x.1, blk_of x.2, q_count x.2).
Definition keys (xs : cells) : list (loc * option (list Z) * Z) := map key xs.
Lemma keys_fst xs xs' : keys xs' = keys xs -> xs'.*1 = xs.*1.
Proof. intros E. apply (f_equal (fmap (fun k => k.1.1))) in E. unfold keys in E. rewrite <- !list_fmap_compose in E. exact E. Qed.
Lemma keys_insert xs i a n m : xs !! i = Some (a, n) -> q_count m = q_count n -> blk_of m = blk_of n -> keys (<[i := (a, m)]> xs) = keys xs.
Proof.
  intros Hi Hm Hb. unfold keys. rewrite list_fmap_insert. apply list_insert_id. rewrite list_lookup_fmap, Hi. unfold key. cbn. by rewrite Hm, Hb.
Qed.
Lemma at_fst xs xs' : xs'.*1 = xs.*1 -> forall i, at_ xs' i = at_ xs i.
Proof. intros E i. unfold at_. by rewrite <- !list_lookup_fmap, E. Qed.
Lemma len_fst (xs xs' : cells) : xs'.*1 = xs.*1 -> length xs' = length xs.
Proof. intros E. by rewrite <- (length_fmap fst), E, length_fmap. Qed.
Lemma shape_edit h xs ls i a n m l : shape h xs ls -> xs !! i = Some (a, n) -> ls !! i = Some l -> node_ok m l ->
  shape (<[a := linked (pv xs i) (at_ xs (S i)) m]> h) (<[i := (a, m)]> xs) ls.
Proof.
  intros [Hh Hf] Hi Hl Hm. split; [by eapply heap_edit|]. rewrite <- (list_insert_id ls i l) by done. by apply Forall2_insert.
Qed.
Lemma shape_node h xs ls i a n : shape h xs ls -> xs !! i = Some (a, n) -> exists l, ls !! i = Some l /\ node_ok n l /\ h !! a = Some (linked (pv xs i) (at_ xs (S i)) n).
Proof.
  intros [Hh Hf] Hi. destruct (Forall2_lookup_l _ _ _ _ _ Hf Hi) as (l & Hl & Hn). exists l. split; [done|]. split; [exact Hn|]. by apply heap_get.
Qed.
Lemma edit_same h xs i a n : ql_heap h xs -> xs !! i = Some (a, n) -> <[a := linked (pv xs i) (at_ xs (S i)) n]> h = h.
Proof. intros Hh Hi. apply insert_id. by apply heap_get. Qed.

Lemma compress_ptr h xs ls p i : shape h xs ls -> p = at_ xs i ->
  exists h' xs', quicklistCompressNode junk hjunk h p = Some h' /\ shape h' xs' ls /\ keys xs' = keys xs /\ frame xs h h' /\ forall j, at_ xs j <> p -> raw_at xs j -> raw_at xs' j.
Proof.
  intros Hs ->. destruct (at_ xs i) as [a|] eqn:Ea; [|by exists h, xs]. destruct (cell_at _ _ _ Ea) as [n Hi].
  destruct (shape_node h xs ls i a n Hs Hi) as (l & Hl & Hn & Hg). cbn [quicklistCompressNode]. rewrite Hg. cbn [mbind option_bind]. change (q_zl (linked ?p ?x n)) with (q_zl n).
  destruct (q_zl n) as [|zl|c] eqn:Ez; [by exists h, xs| |by exists h, xs].
  destruct (compress_node n l Hn ltac:(unfold is_raw; by rewrite Ez)) as (n' & Hn' & Hcnt & Hblk & ->). cbn [mbind option_bind].
  eexists _, (<[i := (a, n')]> xs). split; [done|]. split; [by eapply shape_edit|]. split; [by eapply keys_insert|]. split; [by eapply frame_edit|].
  intros j Hj Hraw b m E. rewrite list_lookup_insert_ne in E; [by eapply Hraw|]. intros ->. done.
Qed.
Lemma decompress_ptr h xs ls p i : shape h xs ls -> p = at_ xs i ->
  exists h' xs', quicklistDecompressNode junk h p = Some h' /\ shape h' xs' ls /\ keys xs' = keys xs /\ frame xs h h' /\ (forall j, raw_at xs j -> raw_at xs' j) /\ raw_at xs' i.
Proof.
  intros Hs ->. destruct (at_ xs i) as [a|] eqn:Ea.
  2:{ exists h, xs. repeat split; try done; try apply Hs. intros a n E. by rewrite (at_cell _ _ _ _ E) in Ea. }
  destruct (cell_at _ _ _ Ea) as [n Hi].
  destruct (shape_node h xs ls i a n Hs Hi) as (l & Hl & Hn & Hg). cbn [quicklistDecompressNode]. rewrite Hg. cbn [mbind option_bind]. change (q_zl (linked ?p ?x n)) with (q_zl n).
  assert (Hraw : is_raw n -> raw_at xs i) by (intros Hr b m E; rewrite Hi in E; by injection E as <- <-).
  destruct (q_zl n) as [|zl|c] eqn:Ez.
  - destruct Hn as [(blk & _ & _ & Hd) _ _ _]. by rewrite Ez in Hd.
  - exists h, xs. repeat split; try done; try apply Hs. apply Hraw. unfold is_raw. by rewrite Ez.
  - destruct (decompress_node n l c Hn Ez) as (n' & Hn' & Hr' & Hcnt & Hblk & ->). cbn [mbind option_bind].
    eexists _, (<[i := (a, n')]> xs). split; [done|]. split; [by eapply shape_edit|]. split; [by eapply keys_insert|]. split; [by eapply frame_edit|].
    assert (Hat : raw_at (<[i := (a, n')]> xs) i).
    { intros b m E. rewrite list_lookup_insert_eq in E by (by eapply lookup_lt_Some). by injection E as <- <-. }
    split; [|done]. intros j Hj. destruct (decide (i = j)) as [<-|Hne]; [done|]. intros b m E. rewrite list_lookup_insert_ne in E by done. by eapply Hj.
Qed.

Lemma turns_spec q c : ql_compress q = Z.of_nat c -> (1 <= c)%nat -> forall d i h xs ls node jn in_depth, shape h xs ls -> (i + d = c)%nat ->
  (2 * c <= length xs + 1)%nat -> (d = O -> 2 * c <= length xs)%nat -> node = at_ xs jn ->
  (forall j, (j < i \/ length xs <= j + i)%nat -> raw_at xs j) ->
  (in_depth = false -> (1 <= i)%nat -> at_ xs 0 <> node /\ at_ xs (length xs - 1) <> node) ->
  exists h' xs', compress_turns junk hjunk d q h node (at_ xs i) (at_ xs (length xs - 1 - i)) in_depth = Some h' /\ shape h' xs' ls /\ keys xs' = keys xs /\ frame xs h h' /\
    raw_at xs' 0 /\ raw_at xs' (length xs - 1) /\ (length xs + 1 = 2 * c -> forall j, raw_at xs' j)%nat.
Proof.
  intros Hq Hc. induction d as [|d IH]; intros i h xs ls node jn in_depth Hs Hid Hlen Hlen0 Hnode Hraw Hdep; cbn [compress_turns].
  - specialize (Hlen0 eq_refl). assert (Hi : i = c) by lia. subst i.
    assert (H1 : exists h1 xs1, (if in_depth then Some h else quicklistCompressNode junk hjunk h node) = Some h1 /\ shape h1 xs1 ls /\ keys xs1 = keys xs /\ frame xs h h1 /\ raw_at xs1 0 /\ raw_at xs1 (length xs - 1)).
    { pose proof (Hraw 0%nat ltac:(lia)). pose proof (Hraw (length xs - 1)%nat ltac:(lia)). destruct in_depth; [by exists h, xs|].
      destruct (compress_ptr h xs ls node jn Hs Hnode) as (h1 & xs1 & E1 & S1 & F1 & P1 & R1). destruct (Hdep eq_refl Hc). exists h1, xs1. repeat split; try done; try apply S1; by apply R1. }
    destruct H1 as (h1 & xs1 & -> & S1 & F1 & P1 & R1 & R1'). cbn [mbind option_bind]. rewrite Hq. rewrite Z.gtb_ltb. destruct (Z.ltb_spec 2 (Z.of_nat c + 1)) as [Hc2|Hc2].
    2:{ exists h1, xs1. repeat split; try done; try apply S1. intros; lia. }
    pose proof (at_fst _ _ (keys_fst _ _ F1)) as A1. pose proof (len_fst _ _ (keys_fst _ _ F1)) as L1.
    assert (Hne : forall j k, (j < length xs)%nat -> j <> k -> at_ xs j <> at_ xs k).
    { intros j k Hj Hjk E. destruct (at_ex xs j Hj) as [a Ea]. apply Hjk. apply (at_inj h xs j k a); [apply Hs|done|by rewrite <- E]. }
    destruct (compress_ptr h1 xs1 ls (at_ xs c) c S1 ltac:(by rewrite A1)) as (h2 & xs2 & -> & S2 & F2 & P2 & R2). cbn [mbind option_bind].
    pose proof (at_fst _ _ (keys_fst _ _ F2)) as A2.
    destruct (compress_ptr h2 xs2 ls (at_ xs (length xs - 1 - c)) (length xs - 1 - c) S2 ltac:(by rewrite A2, A1)) as (h3 & xs3 & -> & S3 & F3 & P3 & R3).
    exists h3, xs3. split; [done|]. split; [done|]. split; [congruence|].
    split; [eapply (ql_frame_trans _ xs2); [apply keys_fst; congruence|eapply (ql_frame_trans _ xs1); [by apply keys_fst|exact P1|exact P2]|exact P3]|]. split; [|split; [|intros; lia]].
    + apply R3; [rewrite A2, A1; apply Hne; lia|]. apply R2; [rewrite A1; apply Hne; lia|done].
    + apply R3; [rewrite A2, A1; apply Hne; lia|]. apply R2; [rewrite A1; apply Hne; lia|done].
  - destruct (decompress_ptr h xs ls (at_ xs i) i Hs eq_refl) as (h1 & xs1 & -> & S1 & F1 & P1 & M1 & R1). cbn [mbind option_bind]. pose proof (at_fst _ _ (keys_fst _ _ F1)) as A1.
    destruct (decompress_ptr h1 xs1 ls (at_ xs (length xs - 1 - i)) (length xs - 1 - i) S1 ltac:(by rewrite A1)) as (h2 & xs2 & -> & S2 & F2 & P2 & M2 & R2). cbn [mbind option_bind].
    assert (F : keys xs2 = keys xs) by congruence. assert (P : frame xs h h2) by (eapply (ql_frame_trans _ xs1); [by apply keys_fst|exact P1|exact P2]). pose proof (at_fst _ _ (keys_fst _ _ F)) as A2. pose proof (len_fst _ _ (keys_fst _ _ F)) as L2.
    assert (HR : forall j, (j < S i \/ length xs <= j + S i)%nat -> raw_at xs2 j).
    { intros j Hj. destruct (decide (j = i)) as [->|]; [by apply M2|]. destruct (decide (j = length xs - 1 - i)%nat) as [->|]; [done|]. apply M2, M1, Hraw. lia. }
    destruct (at_ex xs i ltac:(lia)) as [a Ha]. destruct (at_ex xs (length xs - 1 - i) ltac:(lia)) as [b Hb].
    case_bool_decide as Efr.
    + assert (i = (length xs - 1 - i)%nat) by (apply (at_inj h xs _ _ a); [apply Hs|done|congruence]).
      exists h2, xs2. split; [done|]. split; [done|]. split; [done|]. split; [done|]. split; [apply HR; lia|]. split; [apply HR; lia|]. intros _ j. apply HR. lia.
    + rewrite Ha, Hb in *. destruct (cell_at xs2 i a ltac:(by rewrite A2)) as [na Ena]. destruct (cell_at xs2 (length xs - 1 - i) b ltac:(by rewrite A2)) as [nb Enb].
      unfold deref. cbn [mbind option_bind]. rewrite (heap_get h2 xs2 _ _ _ (proj1 S2) Ena), (heap_get h2 xs2 _ _ _ (proj1 S2) Enb). cbn [mbind option_bind].
      assert (Hii : i <> (length xs - 1 - i)%nat) by (intros E; apply Efr; congruence).
      change (q_next (linked ?p ?x na)) with x. change (q_prev (linked ?p ?x nb)) with p. replace (pv xs2 (length xs - 1 - i)) with (at_ xs2 (length xs2 - 1 - S i)).
      2:{ rewrite L2. destruct (length xs - 1 - i)%nat as [|k] eqn:Ek; [lia|]. cbn [pv]. f_equal. lia. }
      destruct (IH (S i) h2 xs2 ls node jn (in_depth || bool_decide (Some a = node) || bool_decide (Some b = node)) S2 ltac:(lia) ltac:(lia) ltac:(lia) ltac:(by rewrite A2)) as (h3 & xs3 & E3 & S3 & F3 & P3 & R3).
      * intros j Hj. apply HR. lia.
      * intros Hdf _. apply orb_false_iff in Hdf as [Hdf Hd3]. apply orb_false_iff in Hdf as [Hd1 Hd2]. rewrite bool_decide_eq_false in Hd2, Hd3. rewrite !A2, L2.
        destruct i as [|i]; [|by apply Hdep; [|lia]]. rewrite Nat.sub_0_r in Hb. by rewrite Ha, Hb.
      * exists h3, xs3. rewrite E3. rewrite L2 in R3. split; [done|]. split; [done|]. split; [congruence|]. split; [|exact R3]. eapply (ql_frame_trans _ xs2); [by apply keys_fst|exact P|exact P3].
Qed.

(** Both ends are raw; so is every node of a list that is not longer than
    twice the depth, or when compression is off. *)
Definition ends (c : Z) (xs : cells) : Prop :=
  raw_at xs 0 /\ raw_at xs (length xs - 1) /\ (c = 0 \/ zlen xs < 2 * c -> forall j, raw_at xs j).
Lemma ends_all c xs : (forall j, raw_at xs j) -> ends c xs.
Proof. intros Hr. by repeat split. Qed.
Lemma compress_list q h xs ls node jn : shape h xs ls -> node = at_ xs jn -> ql_head q = at_ xs 0 -> ql_tail q = at_ xs (length xs - 1) ->
  0 <= ql_compress q -> ql_len q <= zlen xs + 1 -> (ql_compress q = 0 \/ ql_len q < 2 * ql_compress q -> forall j, raw_at xs j) ->
  exists h' xs', __quicklistCompress junk hjunk q h node = Some h' /\ shape h' xs' ls /\ keys xs' = keys xs /\ frame xs h h' /\ ends (ql_compress q) xs'.
Proof.
  intros Hs Hnode Hh Ht Hc Hlen Hall. unfold __quicklistCompress. destruct ((ql_compress q =? 0) || (ql_len q <? ql_compress q * 2)) eqn:E.
  { exists h, xs. split; [done|]. split; [done|]. split; [done|]. split; [done|]. apply ends_all, Hall. zb; lia. }
  apply orb_false_iff in E as [E1 E2]. apply Z.eqb_neq in E1. apply Z.ltb_ge in E2. unfold zlen in Hlen.
  destruct (turns_spec q (Z.to_nat (ql_compress q)) ltac:(lia) ltac:(lia) (Z.to_nat (ql_compress q)) 0 h xs ls node jn false Hs ltac:(lia) ltac:(lia) ltac:(lia) Hnode) as (h' & xs' & E & S' & F & P & R0 & R1 & R2).
  - intros j Hj. intros a n Hjn. apply lookup_lt_Some in Hjn. lia.
  - lia.
  - rewrite Nat.sub_0_r in E. rewrite Hh, Ht, E. exists h', xs'. split; [done|]. split; [done|]. split; [done|]. split; [done|].
    pose proof (len_fst _ _ (keys_fst _ _ F)) as L. split; [done|]. rewrite L. split; [done|]. intros [?|Hl]; [done|]. apply R2. unfold zlen in Hl. lia.
Qed.

Lemma at_iff h xs j k c : ql_heap h xs -> at_ xs j = Some c -> at_ xs k = Some c <-> j = k.
Proof. intros Hh Hj. split; [intros Hk; by eapply at_inj|by intros <-]. Qed.
Lemma pv_iff h xs j k c : ql_heap h xs -> at_ xs j = Some c -> pv xs k = Some c <-> S j = k.
Proof. intros Hh Hj. destruct k as [|k]; cbn [pv]; [split; [done|lia]|]. rewrite (at_iff h xs j k c Hh Hj). lia. Qed.
Lemma alter_at h xs f k j c H' : ql_heap h xs -> at_ xs j = Some c -> alter_ptr f (at_ xs k) H' !! c = if bool_decide (j = k) then f <$> H' !! c else H' !! c.
Proof. intros Hh Hj. rewrite alter_ptr_lookup. by rewrite (bool_decide_ext _ _ (at_iff h xs j k c Hh Hj)). Qed.
Lemma alter_pv h xs f k j c H' : ql_heap h xs -> at_ xs j = Some c -> alter_ptr f (pv xs k) H' !! c = if bool_decide (S j = k) then f <$> H' !! c else H' !! c.
Proof. intros Hh Hj. rewrite alter_ptr_lookup. by rewrite (bool_decide_ext _ _ (pv_iff h xs j k c Hh Hj)). Qed.
Lemma pv_at xs i a : pv xs i = Some a -> exists j, at_ xs j = Some a.
Proof. destruct i as [|i]; [done|]. intros E. by exists i. Qed.
Lemma pv_some h xs i a : ql_heap h xs -> pv xs i = Some a -> is_Some (h !! a).
Proof. intros Hh Ha. destruct (pv_at _ _ _ Ha). by eapply at_some. Qed.

(** The links around a new node. *)
Lemma splice h xs k b m h' : ql_heap h xs -> h !! b = None -> (k <= length xs)%nat ->
  h' = alter_ptr (fun n => with_next n (Some b)) (pv xs k) (alter_ptr (fun n => with_prev n (Some b)) (at_ xs k) (<[b := linked (pv xs k) (at_ xs k) m]> h)) \/
  h' = alter_ptr (fun n => with_prev n (Some b)) (at_ xs k) (alter_ptr (fun n => with_next n (Some b)) (pv xs k) (<[b := linked (pv xs k) (at_ xs k) m]> h)) ->
  ql_heap h' (put k (b, m) xs).
Proof.
  intros Hh Hb Hk E. assert (Hpb : pv xs k <> Some b) by (intros Hp; destruct (pv_at _ _ _ Hp) as [j Hj]; by apply (fresh_addr h xs b j Hh Hb)).
  pose proof (fresh_addr h xs b k Hh Hb) as Hab. apply (heap_put h); try done.
  - destruct E as [-> | ->]; rewrite !alter_ptr_lookup, !(bool_decide_eq_false_2 (_ = Some b)) by done; by rewrite lookup_insert_eq.
  - intros i a n Hi. pose proof (at_cell _ _ _ _ Hi) as Ha. assert (a <> b) by (intros ->; by apply (fresh_addr h xs b i Hh Hb)).
    destruct E as [-> | ->]; repeat first [rewrite (alter_at h xs _ _ i) by done|rewrite (alter_pv h xs _ _ i) by done];
      rewrite lookup_insert_ne, (heap_get h xs i a n Hh Hi) by done; repeat case_bool_decide; done.
Qed.
(** The links around a node that goes. *)
Lemma unsplice h xs k b m : ql_heap h xs -> xs !! k = Some (b, m) ->
  ql_heap (alter_ptr (fun x => with_next x (at_ xs (S k))) (pv xs k) (alter_ptr (fun x => with_prev x (pv xs k)) (at_ xs (S k)) h)) (delete k xs).
Proof.
  intros Hh Hk. apply (heap_remove h _ xs k b m Hh Hk).
  intros i a n Hne Hi. pose proof (at_cell _ _ _ _ Hi) as Ha.
  rewrite (alter_pv h xs _ _ i), (alter_at h xs _ _ i) by done. rewrite (heap_get h xs i a n Hh Hi). repeat case_bool_decide; done.
Qed.

(** ** Linking and unlinking nodes *)
Record hdr_ok (q : quicklist) (xs : cells) : Prop := {
  hd_head : ql_head q = at_ xs 0;
  hd_tail : ql_tail q = at_ xs (length xs - 1);
  hd_len : ql_len q = zlen xs;
  hd_bound : zlen xs < 2 ^ 32;
  hd_depth : 0 <= ql_compress q
}.
(** What linking keeps. *)
Definition same_opts (q q' : quicklist) : Prop := ql_fill q' = ql_fill q /\ ql_compress q' = ql_compress q.
Lemma keys_lookup xs i : keys xs !! i = key <$> xs !! i.
Proof. apply list_lookup_fmap. Qed.
Lemma keys_put k x xs : keys (put k x xs) = put k (key x) (keys xs).
Proof. unfold keys, put. by rewrite map_app, map_cons, firstn_map, skipn_map. Qed.
Lemma keys_delete k xs : keys (delete k xs) = delete k (keys xs).
Proof. apply list_eq. intros i. rewrite keys_lookup, !delete_lookup, !keys_lookup. by case_bool_decide. Qed.
Lemma hdr_keys q xs xs' : keys xs' = keys xs -> hdr_ok q xs -> hdr_ok q xs'.
Proof.
  intros E [H1 H2 H3 H4 H5]. pose proof (at_fst _ _ (keys_fst _ _ E)) as A. pose proof (len_fst _ _ (keys_fst _ _ E)) as L. constructor; unfold zlen in *; rewrite ?A, ?L; done.
Qed.
Lemma length_put {A} k (x : A) xs : length (put k x xs) = S (length xs).
Proof. by rewrite (Permutation_length (put_perm k x xs)). Qed.
Lemma length_del {A} k (xs : list A) x : xs !! k = Some x -> length xs = S (length (delete k xs)).
Proof. intros E. rewrite (Permutation_length (delete_Permutation xs k x E)). done. Qed.

Lemma del_node h q xs ls k b m : ql_heap h xs -> xs !! k = Some (b, m) -> Forall2 nok (delete k xs) ls -> hdr_ok q xs ->
  (ql_compress q = 0 \/ zlen xs < 2 * ql_compress q -> forall j, j <> k -> raw_at xs j) ->
  exists h' q' xs', __quicklistDelNode junk hjunk h q (Some b) = Some (h', q') /\ shape h' xs' ls /\ keys xs' = delete k (keys xs) /\
    hdr_ok q' xs' /\ ends (ql_compress q) xs' /\ frame xs h h' /\ h' !! b = None /\ ql_count q' = u64 (ql_count q - q_count m) /\ same_opts q q'.
Proof.
  intros Hh Hk Hf [Hhd Htl Hln Hbd Hdp] Hraw. pose proof (at_cell _ _ _ _ Hk) as Hb. pose proof (lookup_lt_Some _ _ _ Hk) as Hlt. pose proof (length_del k xs _ Hk) as Hld.
  assert (Hzl : zlen xs = zlen (delete k xs) + 1) by (unfold zlen; lia).
  unfold __quicklistDelNode. cbn [deref mbind option_bind]. unfold deref. cbn [mbind option_bind]. rewrite (heap_get h xs k b m Hh Hk). cbn [mbind option_bind].
  change (q_next (linked ?p ?x m)) with x. change (q_prev (linked ?p ?x m)) with p. change (q_count (linked ?p ?x m)) with (q_count m).
  set (q1 := match _quicklistBookmarkFindByNode q (Some b) with None => q | Some _ => _ end).
  assert (Hq1 : ql_head q1 = ql_head q /\ ql_tail q1 = ql_tail q /\ ql_count q1 = ql_count q /\ ql_len q1 = ql_len q /\ same_opts q q1).
  { unfold q1, same_opts. destruct (_quicklistBookmarkFindByNode q (Some b)); [|done]. by destruct (at_ xs (S k)). }
  destruct Hq1 as (Eh & Et & Ec & El & Eo1 & Eo2). clearbody q1.
  rewrite relink_in by (intros a Ha; by eapply at_some). cbn [mbind option_bind].
  rewrite relink_in by (intros a Ha; destruct (pv_some h xs k a Hh Ha) as [n En]; rewrite alter_ptr_lookup, En; by case_bool_decide; eexists). cbn [mbind option_bind].
  set (h1 := alter_ptr _ (pv xs k) _). pose proof (unsplice h xs k b m Hh Hk) as Hh1. fold h1 in Hh1.
  set (q2 := if bool_decide (Some b = ql_tail q1) then _ else _). set (q3 := if bool_decide (Some b = ql_head q2) then _ else _).
  assert (Hq2 : ql_head q2 = ql_head q /\ ql_count q2 = ql_count q /\ ql_len q2 = ql_len q /\ same_opts q q2 /\ ql_tail q2 = at_ (delete k xs) (length (delete k xs) - 1)).
  { unfold q2. rewrite Et, Htl, <- Hb. rewrite (bool_decide_ext _ (k = length xs - 1)%nat), at_delete.
    2:{ split; [intros E; eapply (at_inj h xs); [done|exact Hb|by rewrite <- E]|by intros <-]. }
    unfold same_opts. case_bool_decide as E1; cbn [ql_head ql_tail ql_count ql_len ql_fill ql_compress with_tail]; repeat split; try congruence.
    - rewrite E1 in *. case_bool_decide as E2; [|destruct (length xs - 1)%nat as [|j] eqn:Ej; [cbn [pv]; symmetry; apply at_ge; lia|lia]]. destruct (length xs - 1)%nat as [|j] eqn:Ej; [lia|]. cbn [pv]. f_equal. lia.
    - rewrite Et, Htl. case_bool_decide as E2; [lia|f_equal; lia]. }
  destruct Hq2 as (Eh2 & Ec2 & El2 & [Ef2 Eco2] & Et2). clearbody q2.
  assert (Hq3 : ql_count q3 = ql_count q /\ ql_len q3 = ql_len q /\ same_opts q q3 /\ ql_tail q3 = at_ (delete k xs) (length (delete k xs) - 1) /\ ql_head q3 = at_ (delete k xs) 0).
  { unfold q3. rewrite Eh2, Hhd, <- Hb. rewrite (bool_decide_ext _ (k = 0)%nat).
    2:{ split; [intros E; eapply (at_inj h xs); [done|exact Hb|by rewrite <- E]|by intros ->]. }
    unfold same_opts. case_bool_decide as E1; cbn [ql_head ql_tail ql_count ql_len ql_fill ql_compress with_head]; repeat split; try congruence.
    - subst k. by rewrite at_delete, bool_decide_eq_false_2 by lia.
    - rewrite Eh2, Hhd, at_delete. by rewrite bool_decide_eq_true_2 by lia. }
  destruct Hq3 as (Ec3 & El3 & [Ef3 Eco3] & Et3 & Eh3). clearbody q3.
  destruct (compress_list q3 h1 (delete k xs) ls None (length xs) ltac:(by split) ltac:(symmetry; apply at_ge; lia) Eh3 Et3 ltac:(lia) ltac:(lia)) as (h2 & xs2 & -> & S2 & F2 & P2 & E2).
  { rewrite Eco3, El3, Hln. intros Hc j a n Hj. rewrite delete_lookup in Hj. case_bool_decide as Hjk; [eapply (Hraw Hc j); [lia|done]|eapply (Hraw Hc (S j)); [lia|done]]. }
  cbn [mbind option_bind]. rewrite keys_delete in F2.
  assert (Hnb : forall i, at_ xs2 i <> Some b).
  { intros i Hi. assert (E : at_ (delete k xs) i = Some b) by (rewrite <- Hi; symmetry; apply at_fst, keys_fst; by rewrite keys_delete). rewrite at_delete in E.
    case_bool_decide as Hik; [assert (i = k) by (by apply (at_inj h xs i k b)); lia|assert (S i = k) by (by apply (at_inj h xs (S i) k b)); lia]. }
  exists (delete b h2). eexists. exists xs2. split; [done|]. split; [|split; [done|]].
  { destruct S2 as [S2 S2']. split; [|done]. apply (heap_frame h2); [done|]. intros i a Hi. rewrite lookup_delete_ne; [done|]. intros <-. by eapply Hnb. }
  split; [|split; [|split; [|split; [by rewrite lookup_delete_eq|split; [|done]]]]].
  - apply (hdr_keys _ (delete k xs)); [by rewrite keys_delete|]. pose proof (zlen_nonneg (delete k xs)).
    constructor; cbn [ql_head ql_tail ql_len ql_compress add_count add_len]; try done; try lia. rewrite El3, Hln, Hzl. unfold u64, wrapu. rewrite Z.mod_small; lia.
  - by rewrite Eco3 in E2.
  - intros a Ha. assert (Ha' : forall i, at_ xs i <> Some a) by (intros i Hi; apply Ha, addr_at; eauto).
    rewrite lookup_delete_ne by (intros <-; by eapply Ha'). rewrite P2.
    + unfold h1. rewrite !alter_ptr_lookup, !bool_decide_eq_false_2; [done|apply Ha'|]. intros E. destruct (pv_at _ _ _ E) as [j Hj]. by eapply Ha'.
    + rewrite addr_at. intros [i Hi]. rewrite at_delete in Hi. case_bool_decide; by eapply Ha'.
  - cbn [ql_count add_count add_len]. rewrite Ec3. f_equal.
Qed.

Lemma update_new (h : qheap) b n f : update (<[b := n]> h) (Some b) f = Some (<[b := f n]> h).
Proof. unfold update. cbn [mbind option_bind]. rewrite lookup_insert_eq. cbn [mbind option_bind]. by rewrite insert_insert_eq. Qed.
Lemma put_raw k x (xs : cells) : is_raw x.2 -> (k <= length xs)%nat -> (forall j, raw_at xs j) -> forall j, raw_at (put k x xs) j.
Proof. intros Hx Hk Hr j a n. rewrite put_lookup by done. repeat case_bool_decide; [apply Hr|by intros [= ->]|apply Hr]. Qed.
Lemma put_other k b (m : quicklistNode) xs c : c ∉ (put k (b, m) xs).*1 -> (forall j, at_ xs j <> Some c) /\ b <> c.
Proof. rewrite fst_put, put_perm, not_elem_of_cons. intros [Hb Hx]. split; [intros j Hj; apply Hx, addr_at; eauto|by intros ->]. Qed.
(** The links that inserting a node beside the node [i] writes. *)
Definition place_new (xs : cells) (i : nat) (after : bool) : nat := match xs with [] => O | _ => if after then S i else i end.
Lemma link_new (h : qheap) (q : quicklist) (xs : cells) (i : nat) (b : loc) (m : quicklistNode) (after : bool) : ql_heap h xs -> hdr_ok q xs -> h !! b = None -> (i < length xs)%nat ->
  exists (h' : qheap) (q' : quicklist), (if after then
      h ← update (<[b := m]> h) (Some b) (fun n => with_prev n (at_ xs i));
      h ← match at_ xs i with
          | None => Some h
          | _ => old ← deref h (at_ xs i);
                 h ← update h (Some b) (fun n => with_next n (q_next old));
                 h ← relink h (q_next old) (fun n => with_prev n (Some b));
                 update h (at_ xs i) (fun n => with_next n (Some b))
          end;
      Some (h, if bool_decide (ql_tail q = at_ xs i) then with_tail q (Some b) else q)
    else
      h ← update (<[b := m]> h) (Some b) (fun n => with_next n (at_ xs i));
      h ← match at_ xs i with
          | None => Some h
          | _ => old ← deref h (at_ xs i);
                 h ← update h (Some b) (fun n => with_prev n (q_prev old));
                 h ← relink h (q_prev old) (fun n => with_next n (Some b));
                 update h (at_ xs i) (fun n => with_prev n (Some b))
          end;
      Some (h, if bool_decide (ql_head q = at_ xs i) then with_head q (Some b) else q)) = Some (h', q') /\
    ql_heap h' (put (place_new xs i after) (b, m) xs) /\ ql_head q' = at_ (put (place_new xs i after) (b, m) xs) 0 /\ ql_tail q' = at_ (put (place_new xs i after) (b, m) xs) (length xs) /\
    ql_len q' = ql_len q /\ ql_count q' = ql_count q /\ same_opts q q' /\ frame (put (place_new xs i after) (b, m) xs) h h'.
Proof.
  intros Hh [Hhd Htl _ _ _] Hb Hi. assert (Hne : xs <> []) by (intros ->; cbn in Hi; lia). assert (Ek : place_new xs i after = if after then S i else i) by (by destruct xs). rewrite Ek. clear Ek.
  destruct (at_ex xs i Hi) as [a Ha]. destruct (cell_at _ _ _ Ha) as [n Hn]. assert (Hab : a <> b) by (intros ->; by apply (fresh_addr h xs b i Hh Hb)).
  assert (Hold : forall x, (<[b := x]> h) !! a = Some (linked (pv xs i) (at_ xs (S i)) n)) by (intros x; rewrite lookup_insert_ne by done; by apply heap_get).
  assert (Hsome : forall c x, is_Some (h !! c) -> is_Some ((<[b := x]> h) !! c)) by (intros c x Hc; destruct (decide (b = c)) as [<-|]; [rewrite lookup_insert_eq; eauto|by rewrite lookup_insert_ne]).
  rewrite !Ha. destruct after; rewrite update_new; cbn [mbind option_bind]; unfold deref; cbn [mbind option_bind]; rewrite Hold; cbn [mbind option_bind]; rewrite update_new; cbn [mbind option_bind].
  - change (q_next (linked ?p ?x n)) with x. rewrite relink_in by (intros c Hc; apply Hsome; by eapply at_some). cbn [mbind option_bind].
    assert (exists y, alter_ptr (fun n => with_prev n (Some b)) (at_ xs (S i)) (<[b := with_next (with_prev m (Some a)) (at_ xs (S i))]> h) !! a = Some y) as [y Hy] by (rewrite alter_ptr_lookup, Hold; by case_bool_decide; eexists).
    rewrite (update_in _ _ _ a y eq_refl Hy). eexists _, _. split; [done|]. split; [|split; [|split; [|split; [|split; [|split]]]]].
    + eapply (splice h xs (S i) b m); [done|done|lia|]. left. cbn [pv]. rewrite Ha. done.
    + rewrite at_put by lia. rewrite (bool_decide_eq_true_2 (0 < S i)%nat) by lia. by destruct (bool_decide (ql_tail q = Some a)).
    + rewrite Htl, <- Ha, at_put by lia. rewrite (bool_decide_ext (at_ xs (length xs - 1) = at_ xs i) (length xs = S i)).
      2:{ split; [intros E; assert (length xs - 1 = i)%nat by (apply (at_inj h xs _ _ a); congruence); lia|intros E; f_equal; lia]. }
      rewrite (bool_decide_eq_false_2 (length xs < S i)%nat) by lia. case_bool_decide as E; [done|]. rewrite Htl. f_equal. lia.
    + by destruct (bool_decide (ql_tail q = Some a)).
    + by destruct (bool_decide (ql_tail q = Some a)).
    + by destruct (bool_decide (ql_tail q = Some a)).
    + intros c Hc. destruct (put_other _ _ _ _ _ Hc) as [Hx Hbc]. change (alter ?f a ?h) with (alter_ptr f (Some a) h). rewrite !alter_ptr_lookup, <- Ha.
      rewrite !bool_decide_eq_false_2 by apply Hx. by rewrite lookup_insert_ne.
  - change (q_prev (linked ?p ?x n)) with p. rewrite relink_in by (intros c Hc; apply Hsome; by eapply pv_some). cbn [mbind option_bind].
    assert (exists y, alter_ptr (fun n => with_next n (Some b)) (pv xs i) (<[b := with_prev (with_next m (Some a)) (pv xs i)]> h) !! a = Some y) as [y Hy] by (rewrite alter_ptr_lookup, Hold; by case_bool_decide; eexists).
    rewrite (update_in _ _ _ a y eq_refl Hy). eexists _, _. split; [done|]. split; [|split; [|split; [|split; [|split; [|split]]]]].
    + eapply (splice h xs i b m); [done|done|lia|]. right. rewrite Ha. done.
    + rewrite Hhd, <- Ha, at_put by lia. rewrite (bool_decide_ext (at_ xs 0 = at_ xs i) (0 = i)%nat).
      2:{ split; [intros E; apply (at_inj h xs _ _ a); congruence|by intros <-]. }
      case_bool_decide as E; [subst i; by rewrite bool_decide_eq_false_2 by lia|]. rewrite Hhd. by rewrite bool_decide_eq_true_2 by lia.
    + rewrite at_put by lia. rewrite (bool_decide_eq_false_2 (length xs < i)%nat), (bool_decide_eq_false_2 (length xs = i)) by lia. replace (pred (length xs)) with (length xs - 1)%nat by lia. rewrite <- Htl. by destruct (bool_decide (ql_head q = Some a)).
    + by destruct (bool_decide (ql_head q = Some a)).
    + by destruct (bool_decide (ql_head q = Some a)).
    + by destruct (bool_decide (ql_head q = Some a)).
    + intros c Hc. destruct (put_other _ _ _ _ _ Hc) as [Hx Hbc]. change (alter ?f a ?h) with (alter_ptr f (Some a) h). rewrite !alter_ptr_lookup, <- Ha.
      rewrite !bool_decide_eq_false_2; [by rewrite lookup_insert_ne|intros E; destruct (pv_at _ _ _ E) as [j Hj]; by eapply Hx|apply Hx].
Qed.
Lemma Forall2_put {A B} (P : A -> B -> Prop) k x y xs ys : P x y -> Forall2 P xs ys -> Forall2 P (put k x xs) (put k y ys).
Proof. intros Hx Hf. unfold put. apply Forall2_app; [by apply Forall2_take|]. constructor; [done|by apply Forall2_drop]. Qed.
Lemma compress_flag q h xs ls a i : shape h xs ls -> at_ xs i = Some a -> quicklistCompress junk hjunk q h (Some a) = __quicklistCompress junk hjunk q h (Some a).
Proof.
  intros Hs Ha. destruct (cell_at _ _ _ Ha) as [n Hn]. destruct (shape_node h xs ls i a n Hs Hn) as (l & _ & Hok & Hg). unfold quicklistCompress, deref. cbn [mbind option_bind]. rewrite Hg. cbn [mbind option_bind].
  change (q_recompress (linked ?p ?x n)) with (q_recompress n). by rewrite (ok_recompress _ _ Hok).
Qed.
Lemma insert_node h q xs ls i b m l after : shape h xs ls -> hdr_ok q xs -> ends (ql_compress q) xs -> h !! b = None -> node_ok m l -> is_raw m -> linked None None m = m ->
  zlen xs + 1 < 2 ^ 32 -> (i < length xs)%nat \/ xs = [] ->
  exists h' q' xs', __quicklistInsertNode junk hjunk (<[b := m]> h) q (at_ xs i) (Some b) after = Some (h', q') /\ shape h' xs' (put (place_new xs i after) l ls) /\
    keys xs' = put (place_new xs i after) (key (b, m)) (keys xs) /\ hdr_ok q' xs' /\ ends (ql_compress q) xs' /\ frame (put (place_new xs i after) (b, m) xs) h h' /\ ql_count q' = ql_count q /\ same_opts q q'.
Proof.
  intros Hs Hq He Hb Hm Hraw Hlk Hbd Hi. pose proof Hq as [Hhd Htl Hln _ Hdp]. destruct Hs as [Hh Hf]. unfold __quicklistInsertNode. destruct Hi as [Hi| ->].
  - destruct (link_new h q xs i b m after Hh Hq Hb Hi) as (h1 & q1 & -> & H1 & Eh1 & Et1 & El1 & Ec1 & [Ef1 Eo1] & P1). cbn [mbind option_bind].
    rewrite El1, Hln, (proj2 (Z.eqb_neq (zlen xs) 0)) by (unfold zlen; lia). set (k := place_new xs i after) in *.
    assert (Hk : (k <= length xs)%nat /\ exists j, at_ (put k (b, m) xs) j = at_ xs i).
    { assert (Ek : k = if after then S i else i) by (unfold k; destruct xs; [cbn in Hi; lia|done]). split; [destruct after; lia|]. exists (if after then i else S i). rewrite at_put by (destruct after; lia). rewrite Ek.
      destruct after; [by rewrite bool_decide_eq_true_2 by lia|by rewrite bool_decide_eq_false_2, bool_decide_eq_false_2 by lia]. }
    destruct Hk as [Hk [j Hj]]. destruct (at_ex xs i Hi) as [a Ha]. rewrite Ha in Hj |- *.
    assert (S1 : shape h1 (put k (b, m) xs) (put k l ls)) by (split; [done|by apply Forall2_put]).
    rewrite (compress_flag q1 h1 _ _ a j S1 Hj).
    destruct (compress_list q1 h1 _ _ (Some a) j S1 ltac:(done) Eh1 ltac:(rewrite length_put; by rewrite Nat.sub_succ, Nat.sub_0_r) ltac:(lia)) as (h2 & xs2 & -> & S2 & F2 & P2 & E2).
    { rewrite El1, Hln. unfold zlen. rewrite length_put. lia. }
    { rewrite Eo1, El1, Hln. intros Hc. apply put_raw; [done|done|]. by apply He. }
    cbn [mbind option_bind]. eexists h2, _, xs2. split; [done|]. split; [done|]. rewrite keys_put in F2. split; [done|]. rewrite Eo1 in E2. split; [|split; [done|split; [|done]]].
    + apply (hdr_keys _ (put k (b, m) xs)); [by rewrite keys_put|]. constructor; cbn [ql_head ql_tail ql_len ql_compress add_len]; unfold zlen in *; rewrite ?length_put, ?Nat.sub_succ, ?Nat.sub_0_r; [done|done| |lia|lia].
      rewrite El1, Hln. unfold u64, wrapu. rewrite Z.mod_small; lia.
    + intros c Hc. rewrite P2 by done. by apply P1.
  - apply Forall2_nil_inv_l in Hf as ->. cbn [at_ lookup list_lookup fmap option_fmap option_map] in *. change (at_ [] i) with (@None loc).
    assert (Hp : with_prev m None = m) by (rewrite <- Hlk; done). assert (Hn : with_next m None = m) by (rewrite <- Hlk; done).
    assert (E : forall f g, (if after then h ← update (<[b := m]> h) (Some b) (fun n => with_prev n None); h ← Some h; Some (h, f) else h ← update (<[b := m]> h) (Some b) (fun n => with_next n None); h ← Some h; Some (h, g)) =
      Some (<[b := m]> h, if after then f else g : quicklist)) by (intros f g; destruct after; rewrite update_new; cbn [mbind option_bind]; by rewrite ?Hp, ?Hn).
    rewrite E. cbn [mbind option_bind]. set (q1 := if after then _ else _). assert (Hq1 : ql_len q1 = 0 /\ ql_count q1 = ql_count q /\ same_opts q q1) by (unfold q1, same_opts; rewrite Hhd, Htl; by destruct after).
    clearbody q1. destruct Hq1 as (El & Ec & Ef & Eo). rewrite El. change (0 =? 0) with true. cbv iota. eexists _, _, [(b, m)]. split; [done|]. split; [|split; [done|split; [|split; [|split; [|split]]]]].
    + change (put (place_new [] i after) l []) with [l]. split; [|constructor; [exact Hm|constructor]]. constructor; [apply NoDup_singleton|]. intros [|j] a n; [intros [= <- <-]; rewrite lookup_insert_eq; by rewrite <- Hlk at 1|done].
    + constructor; cbn [ql_head ql_tail ql_len ql_compress add_len with_head with_tail]; try done; [by rewrite El|by rewrite Eo].
    + apply ends_all. intros [|j] a n; [by intros [= <- <-]|done].
    + intros c Hc. rewrite lookup_insert_ne; [done|]. intros ->. apply Hc. cbn. set_solver.
    + done.
    + done.
Qed.
End Shape.
