(* ===== verification/QuicklistEnds.v ===== *)
(** * Both ends of a quicklist

    The representation of a list of strings by a quicklist, at any
    compression depth, and the operations that work at the ends
    (quicklist.c: push, pop, rotate), with the deletion of an element. *)
From S2P Require Import Prelude Endian Util Lzf Ziplist ZiplistEdit ZiplistSpec Quicklist QuicklistShape.
#[local] Open Scope cmem_scope.
Section Ends.
  Context `{QAllocator} {be : bool} {junk : nat -> Z} {hjunk : Z -> Z}.

(** ** Lists of strings *)
Record ql_rep (h : qheap) (q : quicklist) (xs : cells) (ls : list (list (list Z))) : Prop := {
  rp_shape : shape h xs ls;
  rp_hdr : hdr_ok q xs;
  rp_ends : ends (ql_compress q) xs;
  rp_counts : (keys xs).*2 = map zlen ls;
  rp_total : ql_count q = zlen (concat ls);
  rp_bound : 40 + weight (concat ls) < 2 ^ 32;
  rp_closed k : k ∉ xs.*1 -> h !! k = None;
  rp_fill : -5 <= ql_fill q <= 32767
}.
(** The same, but for the total count. *)
Definition set_total (q : quicklist) (c : Z) : quicklist := mk_ql (ql_head q) (ql_tail q) c (ql_len q) (ql_fill q) (ql_compress q) (ql_bookmarks q).
Definition rep0 (h : qheap) (q : quicklist) (xs : cells) (ls : list (list (list Z))) : Prop := ql_rep h (set_total q (zlen (concat ls))) xs ls.
Lemma rep_total h q xs ls : ql_rep h q xs ls <-> rep0 h q xs ls /\ ql_count q = zlen (concat ls).
Proof.
  unfold rep0. split.
  - intros Hr. assert (E : set_total q (zlen (concat ls)) = q) by (rewrite <- (rp_total _ _ _ _ Hr); by destruct q). rewrite E. split; [done|apply Hr].
  - intros [Hr E]. rewrite <- E in Hr. by destruct q.
Qed.
Lemma rep0_any h q q' xs ls : ql_rep h q' xs ls -> (forall c, set_total q c = set_total q' c) -> rep0 h q xs ls.
Proof. intros Hr E. apply rep_total in Hr as [Hr _]. unfold rep0 in *. by rewrite E. Qed.
Lemma hdr_total q xs c : hdr_ok (set_total q c) xs <-> hdr_ok q xs.
Proof. split; by intros []. Qed.
Lemma concat_at {A} (ls : list (list A)) i l : ls !! i = Some l ->
  concat ls = concat (take i ls) ++ l ++ concat (drop (S i) ls) /\ forall l', concat (<[i := l']> ls) = concat (take i ls) ++ l' ++ concat (drop (S i) ls).
Proof.
  intros Hi. pose proof (lookup_lt_Some _ _ _ Hi). split; [rewrite <- (take_drop_middle ls i l Hi) at 1; by rewrite concat_app|]. intros l'. rewrite insert_take_drop by done. by rewrite concat_app.
Qed.
Lemma concat_put {A} (ls : list (list A)) k l : concat (put k l ls) = concat (take k ls) ++ l ++ concat (drop k ls).
Proof. unfold put. by rewrite concat_app. Qed.
Lemma weight_len l : 18 * zlen l <= weight l.
Proof. induction l as [|s l IH]; [done|]. rewrite weight_cons, zlen_cons. pose proof (zlen_nonneg s). lia. Qed.
Lemma weight_part A l B : 0 <= weight l <= weight (A ++ l ++ B).
Proof. rewrite !weight_app. pose proof (weight_nonneg A). pose proof (weight_nonneg B). pose proof (weight_nonneg l). lia. Qed.
Lemma rep_nodes h q xs ls : ql_rep h q xs ls -> zlen xs <= zlen (concat ls) /\ length xs = length ls.
Proof.
  intros [[_ Hf] _ _ _ _ _ _ _]. split; [|by eapply Forall2_length]. induction Hf as [|x l xs ls Hx Hf IH]; [done|]. cbn [concat]. rewrite zlen_cons, zlen_app. pose proof (ok_nonempty _ _ Hx). destruct l as [|s l]; [done|]. rewrite zlen_cons. pose proof (zlen_nonneg l). lia.
Qed.
Lemma key_count h q xs ls i a n l : ql_rep h q xs ls -> xs !! i = Some (a, n) -> ls !! i = Some l -> q_count n = zlen l.
Proof.
  intros Hr Hi Hl. pose proof (rp_counts _ _ _ _ Hr) as E. apply (f_equal (fun x => x !! i)) in E. rewrite !list_lookup_fmap in E. unfold keys in E. rewrite list_lookup_fmap, Hi, Hl in E. by injection E.
Qed.
Lemma ends_mono c xs xs' : (forall j, raw_at xs j -> raw_at xs' j) -> length xs' = length xs -> ends c xs -> ends c xs'.
Proof. intros Hm L (H1 & H2 & H3). unfold ends, zlen in *. rewrite L. split; [by apply Hm|]. split; [by apply Hm|]. intros Hc j. by apply Hm, H3. Qed.
(** New contents for a node. *)
Lemma edit_at h xs ls i a n m l' : shape h xs ls -> xs !! i = Some (a, n) -> node_ok m l' -> (is_raw n -> is_raw m) ->
  exists xs', shape (<[a := linked (pv xs i) (at_ xs (S i)) m]> h) xs' (<[i := l']> ls) /\ keys xs' = <[i := key (a, m)]> (keys xs) /\ xs'.*1 = xs.*1 /\
    frame xs h (<[a := linked (pv xs i) (at_ xs (S i)) m]> h) /\ (forall j, raw_at xs j -> raw_at xs' j) /\ length xs' = length xs.
Proof.
  intros [Hh Hf] Hi Hm Hraw. pose proof (at_cell _ _ _ _ Hi) as Ha. exists (<[i := (a, m)]> xs). split; [split; [by eapply heap_edit|by apply Forall2_insert]|].
  split; [unfold keys; by rewrite list_fmap_insert|]. split; [by apply fst_insert|]. split; [by eapply frame_edit|]. split; [|apply length_insert].
  intros j Hj b k E. destruct (decide (i = j)) as [<-|Hne]; [|rewrite list_lookup_insert_ne in E by done; by eapply Hj].
  rewrite list_lookup_insert_eq in E by (by eapply lookup_lt_Some). injection E as <- <-. apply Hraw. by eapply Hj.
Qed.
Lemma rep_push_at zl l s w : represents zl l -> bytes_ok s -> 40 + weight l + zlen s + 18 < 2 ^ 32 ->
  exists zl', ziplistPush be junk zl s w = Some zl' /\ represents zl' (match w with ZIPLIST_HEAD => s :: l | ZIPLIST_TAIL => l ++ [s] end).
Proof.
  intros Hr Hs Hw. destruct (zl_step_refines be junk zl l (ZPush s w) Hr Hs ltac:(cbn [op_weight]; lia)) as (zl' & E & Hr'). cbn [run_op] in E.
  destruct (ziplistPush be junk zl s w) as [z|]; [|done]. injection E as <-. exists z. split; [done|]. by destruct w.
Qed.
Lemma rep_new : exists zl, ziplistNew be junk = Some zl /\ represents zl [].
Proof. destruct (zl_new (be:=be) (junk:=junk)) as (zl & E & Hz). exists zl. split; [done|]. by exists []. Qed.

(** *** The fill factor bounds the count *)
Lemma level_bound i level : optimization_level !! i = Some level -> level <= 65536.
Proof. unfold optimization_level. do 5 (destruct i as [|i]; [intros [= <-]; lia|]). done. Qed.
Lemma allow_insert n l fill (s : list Z) : node_ok n l -> q_count n = zlen l -> fill <= 32767 -> 40 + weight l + zlen s + 18 < 2 ^ 32 ->
  _quicklistNodeAllowInsert (Some n) fill (zlen s) = true -> zlen l + 1 < 2 ^ 16.
Proof.
  intros Hn Hc Hfill Hw. destruct (ok_data _ _ Hn) as (blk & Hr & Hsz & _). destruct (represents_block blk l Hr) as (_ & Hl & Hlw). pose proof (zlen_nonneg s). pose proof (zlen_nonneg l).
  unfold _quicklistNodeAllowInsert. set (ov := (if zlen s <? 254 then 1 else 5) + (if zlen s <? 64 then 1 else if zlen s <? 16384 then 2 else 5)). assert (Hov : 2 <= ov <= 10) by (unfold ov; destruct (zlen s <? 254), (zlen s <? 64), (zlen s <? 16384); lia). cbv zeta.
  rewrite (wrapu_small 32) by lia. unfold _quicklistNodeSizeMeetsOptimizationRequirement, sizeMeetsSafetyLimit, SIZE_SAFETY_LIMIT.
  destruct (fill >=? 0) eqn:Ef.
  - destruct (_ <=? 8192) eqn:E8; cbn [negb]; [|done]. intros Hlt. apply Z.ltb_lt in Hlt. lia.
  - destruct (optimization_level !! Z.to_nat (- fill - 1)) as [level|] eqn:El.
    + apply level_bound in El. destruct (_ <=? level) eqn:E1; [zb; lia|]. destruct (_ <=? 8192) eqn:E8; cbn [negb]; [|done]. zb. intros Hlt. apply Z.ltb_lt in Hlt. lia.
    + destruct (_ <=? 8192) eqn:E8; cbn [negb]; [|done]. intros Hlt. apply Z.ltb_lt in Hlt. zb. lia.
Qed.

(** ** Adding at the ends *)
Lemma shape_len h xs ls : shape h xs ls -> length ls = length xs.
Proof. intros [_ Hf]. symmetry. by eapply Forall2_length. Qed.
Lemma total_step q (k n : Z) : ql_count q = n -> 0 <= n + k < 2 ^ 64 -> ql_count (add_count q k) = n + k.
Proof. intros <- Hk. cbn [ql_count add_count]. by rewrite wrapu_small. Qed.
Lemma concat_bound (L : list (list Z)) : 40 + weight L < 2 ^ 32 -> 0 <= zlen L < 2 ^ 28.
Proof. pose proof (weight_len L). pose proof (zlen_nonneg L). lia. Qed.
Lemma hdr_count q xs k : hdr_ok q xs -> hdr_ok (add_count q k) xs.
Proof. by intros []. Qed.
Lemma rep_edit h q xs ls i a n l m l' d : ql_rep h q xs ls -> xs !! i = Some (a, n) -> ls !! i = Some l -> node_ok m l' -> (is_raw n -> is_raw m) -> q_count m = zlen l' ->
  d = zlen l' - zlen l -> 40 + weight (concat (<[i := l']> ls)) < 2 ^ 32 ->
  exists xs', ql_rep (<[a := linked (pv xs i) (at_ xs (S i)) m]> h) (add_count q d) xs' (<[i := l']> ls) /\ xs'.*1 = xs.*1 /\ (forall j, raw_at xs j -> raw_at xs' j) /\ keys xs' = <[i := key (a, m)]> (keys xs).
Proof.
  intros Hr Hi Hl Hm Hraw Hc -> Hw. pose proof Hr as [Hs Hq He Hk Ht _ Hcl Hfl]. destruct (edit_at h xs ls i a n m l' Hs Hi Hm Hraw) as (xs' & S' & K' & F' & P' & M' & L').
  exists xs'. split; [|done]. pose proof (concat_bound _ Hw). destruct (concat_at ls i l Hl) as [E1 E2]. rewrite E1 in Ht. pose proof (E2 l') as E2'.
  assert (Htot : zlen (concat (<[i := l']> ls)) = zlen (concat (take i ls) ++ l ++ concat (drop (S i) ls)) + (zlen l' - zlen l)) by (rewrite E2', !zlen_app; lia).
  constructor; try done.
  - apply hdr_count. destruct Hq. pose proof (at_fst _ _ F') as A'. constructor; unfold zlen in *; rewrite ?A', ?L'; done.
  - by apply (ends_mono _ xs).
  - rewrite K', list_fmap_insert, Hk. change (zlen <$> ls) with (map zlen ls). unfold key at 1. cbn [snd]. rewrite Hc. symmetry. exact (list_fmap_insert zlen ls i l').
  - rewrite Htot. apply total_step; [done|lia].
  - intros k Hkk. rewrite F' in Hkk. rewrite P' by done. by apply Hcl.
Qed.
Lemma raw_linked p x n : raw (linked p x n) = raw n.
Proof. done. Qed.
Lemma push_node h q xs ls i a n l v w : ql_rep h q xs ls -> xs !! i = Some (a, n) -> ls !! i = Some l -> is_raw n -> bytes_ok v -> 40 + weight (concat ls) + zlen v + 18 < 2 ^ 32 -> zlen l + 1 < 2 ^ 16 ->
  let l' := match w with ZIPLIST_HEAD => v :: l | ZIPLIST_TAIL => l ++ [v] end in
  exists h1 h2 xs', push_in_node be junk h (Some a) v w = Some h1 /\ incr_node h1 (Some a) 1 = Some h2 /\ ql_rep h2 (add_count q 1) xs' (<[i := l']> ls) /\ xs'.*1 = xs.*1 /\ forall j, j <> i -> keys xs' !! j = keys xs !! j.
Proof.
  intros Hr Hi Hl Hraw Hv Hw Hsm l'. destruct (shape_node h xs ls i a n (rp_shape _ _ _ _ Hr) Hi) as (l0 & Hl0 & Hn & Hg). rewrite Hl in Hl0. injection Hl0 as <-.
  destruct (raw_ok n l Hn Hraw) as (zl & Ez & Er & Hrep & Hsz). destruct (concat_at ls i l Hl) as [E1 E2].
  assert (Hwl : weight l <= weight (concat ls)) by (rewrite E1; apply weight_part). pose proof (zlen_nonneg l).
  destruct (rep_push_at zl l v w Hrep Hv ltac:(lia)) as (zl' & Ep & Hrep'). fold l' in Hrep'.
  assert (Hlen : zlen l' = zlen l + 1) by (unfold l'; destruct w; rewrite ?zlen_app, zlen_cons, ?zlen_nil; lia).
  set (m := with_count (with_zl n (ZRaw zl') (zlen zl')) (u16 (q_count n + 1))). pose proof (key_count h q xs ls i a n l Hr Hi Hl) as Hcnt.
  assert (Em : q_count m = zlen l') by (cbn [q_count m with_count]; rewrite wrapu_small; lia).
  destruct (rep_edit h q xs ls i a n l m l' 1 Hr Hi Hl) as (xs' & Hr' & F' & _ & K'); [|done|done|lia| |].
  - constructor; [by exists zl'|apply (ok_recompress _ _ Hn)| |lia]. intros E. rewrite E in Hlen. change (zlen []) with 0 in Hlen. lia.
  - rewrite E2. rewrite E1 in Hw. rewrite !weight_app in *. unfold l'. destruct w; rewrite ?weight_app, weight_cons; change (weight []) with 0; lia.
  - unfold push_in_node. cbn [mbind option_bind]. rewrite Hg. cbn [mbind option_bind]. rewrite raw_linked, Er. cbn [mbind option_bind]. rewrite Ep. cbn [mbind option_bind]. unfold set_ziplist. rewrite (rep_blob be zl' l' Hrep'). cbn [mbind option_bind].
    eexists _, _, xs'. split; [done|]. split; [|split; [exact Hr'|split; [done|]]]. { unfold incr_node. rewrite update_new. done. } intros j Hj. rewrite K'. by apply list_lookup_insert_ne.
Qed.
(** A new node beside another. *)
Lemma rep0_inserted h q xs ls i b m l after h' q' xs' : rep0 h q xs ls -> (place_new xs i after <= length xs)%nat ->
  shape h' xs' (put (place_new xs i after) l ls) -> keys xs' = put (place_new xs i after) (key (b, m)) (keys xs) -> hdr_ok q' xs' -> ends (ql_compress q) xs' ->
  frame (put (place_new xs i after) (b, m) xs) h h' -> same_opts q q' -> q_count m = zlen l -> 40 + weight (concat ls) + weight l < 2 ^ 32 ->
  rep0 h' q' xs' (put (place_new xs i after) l ls) /\ zlen (concat (put (place_new xs i after) l ls)) = zlen (concat ls) + zlen l.
Proof.
  set (k := place_new xs i after). intros Hr Hk S' K' Q' E' P' [Ef Eo] Hm Hw. pose proof Hr as [Hs _ _ Hkk _ _ Hcl Hfl].
  assert (Ecs : concat ls = concat (take k ls) ++ concat (drop k ls)) by (by rewrite <- concat_app, take_drop).
  assert (Hcp : concat (put k l ls) ≡ₚ l ++ concat ls) by (rewrite concat_put, Ecs; apply Permutation_app_swap_app).
  assert (Hwp : weight (concat (put k l ls)) = weight (concat ls) + weight l) by (rewrite concat_put, Ecs, !weight_app; lia).
  assert (Hlp : zlen (concat (put k l ls)) = zlen (concat ls) + zlen l) by (unfold zlen; rewrite (Permutation_length Hcp), length_app; lia).
  split; [|done]. constructor.
  - done.
  - by apply hdr_total.
  - cbn [ql_compress set_total]. by rewrite Eo.
  - rewrite K'. unfold put. rewrite fmap_app, fmap_cons. unfold key at 1. cbn [snd]. rewrite fmap_take, fmap_drop, Hkk, Hm. by rewrite map_app, map_cons, firstn_map, skipn_map.
  - done.
  - lia.
  - assert (Efst : xs'.*1 = (put k (b, m) xs).*1) by (apply keys_fst; by rewrite keys_put). intros c Hc. rewrite Efst in Hc. rewrite P' by done. apply Hcl. rewrite fst_put, put_perm in Hc. set_solver.
  - cbn [ql_fill set_total] in *. by rewrite Ef.
Qed.
Lemma rep_inserted h q xs ls i b m l after h' q' xs' : ql_rep h q xs ls -> (place_new xs i after <= length xs)%nat ->
  shape h' xs' (put (place_new xs i after) l ls) -> keys xs' = put (place_new xs i after) (key (b, m)) (keys xs) -> hdr_ok q' xs' -> ends (ql_compress q) xs' ->
  frame (put (place_new xs i after) (b, m) xs) h h' -> ql_count q' = ql_count q -> same_opts q q' -> q_count m = zlen l -> 40 + weight (concat ls) + weight l < 2 ^ 32 ->
  ql_rep h' (add_count q' (zlen l)) xs' (put (place_new xs i after) l ls).
Proof.
  intros Hr Hk S' K' Q' E' P' Ec O' Hm Hw. apply rep_total in Hr as [Hr Ht]. destruct (rep0_inserted h q xs ls i b m l after h' q' xs' Hr Hk S' K' Q' E' P' O' Hm Hw) as [R' L'].
  pose proof (concat_bound _ (rp_bound _ _ _ _ R')). apply rep_total. split; [exact R'|]. rewrite L' in *. apply total_step; [congruence|lia].
Qed.
Lemma put_at {A} k (x : A) xs : (k <= length xs)%nat -> put k x xs !! k = Some x.
Proof. intros Hk. rewrite put_lookup by done. by rewrite bool_decide_eq_false_2, bool_decide_eq_true_2 by lia. Qed.
Lemma put_insert {A} k (x y : A) xs : (k <= length xs)%nat -> <[k := y]> (put k x xs) = put k y xs.
Proof. intros Hk. unfold put. rewrite insert_app_r_alt by (rewrite length_take; lia). rewrite length_take, Nat.min_l by lia. by rewrite Nat.sub_diag. Qed.
Lemma place_le xs i after : (i < length xs)%nat \/ xs = [] -> (place_new xs i after <= length xs)%nat.
Proof. intros [Hi| ->]; [|done]. unfold place_new. destruct xs; [done|]. destruct after; cbn in *; lia. Qed.
Lemma rep_room h q xs ls (s : list Z) : ql_rep h q xs ls -> 40 + weight (concat ls) + zlen s + 18 < 2 ^ 32 -> zlen xs + 1 < 2 ^ 32.
Proof. intros Hr Hw. destruct (rep_nodes _ _ _ _ Hr) as [Hn _]. pose proof (weight_len (concat ls)). pose proof (zlen_nonneg s). pose proof (zlen_nonneg (concat ls)). lia. Qed.
Lemma new_node h v w : bytes_ok v -> 40 + zlen v + 18 < 2 ^ 32 -> exists zl, represents zl [v] /\ new_with be junk h v w = Some (<[znode h := mk_qnode None None (ZRaw zl) (zlen zl) 0 false]> h, znode h) /\
  node_ok (mk_qnode None None (ZRaw zl) (zlen zl) 0 false) [v].
Proof.
  intros Hv Hl. destruct rep_new as (zl0 & E0 & R0). destruct (rep_push_at zl0 [] v w R0 Hv ltac:(change (weight []) with 0; lia)) as (zl & E & R). exists zl.
  assert (R' : represents zl [v]) by (by destruct w). split; [done|]. split; [|constructor; [by exists zl|done|done|done]]. unfold new_with. rewrite E0. cbn [mbind option_bind]. rewrite E. cbn [mbind option_bind]. rewrite (rep_blob be zl [v] R'). done.
Qed.
Lemma push_new h q xs ls i v w after : ql_rep h q xs ls -> bytes_ok v -> 40 + weight (concat ls) + zlen v + 18 < 2 ^ 32 -> (i < length xs)%nat \/ xs = [] ->
  exists h1 h2 q2 h3 xs', new_with be junk h v w = Some (h1, znode h) /\ __quicklistInsertNode junk hjunk h1 q (at_ xs i) (Some (znode h)) after = Some (h2, q2) /\
    incr_node h2 (Some (znode h)) 1 = Some h3 /\ ql_rep h3 (add_count q2 1) xs' (put (place_new xs i after) [v] ls) /\ at_ xs' (place_new xs i after) = Some (znode h) /\ same_opts q q2 /\ exists x, keys xs' = put (place_new xs i after) x (keys xs).
Proof.
  intros Hr Hv Hw Hi. pose proof (weight_nonneg (concat ls)). destruct (new_node h v w Hv ltac:(pose proof (weight_nonneg (concat ls)); lia)) as (zl & Rz & Enew & Hm). set (m := mk_qnode _ _ _ _ _ _) in *. set (b := znode h) in *.
  assert (Hb : h !! b = None) by apply znode_fresh. pose proof Hr as [Hs Hq He _ _ _ _ _]. pose proof (place_le xs i after Hi) as Hk. set (k := place_new xs i after) in *.
  destruct (insert_node (junk:=junk) (hjunk:=hjunk) h q xs ls i b m [v] after Hs Hq He Hb Hm I eq_refl (rep_room _ _ _ _ _ Hr Hw) Hi) as (h2 & q2 & xs2 & E2 & S2 & K2 & Q2 & En2 & P2 & C2 & O2). fold k in S2, K2, P2.
  assert (Hkeys : keys xs2 !! k = Some (key (b, m))) by (rewrite K2; apply put_at; unfold keys; by rewrite length_map). rewrite keys_lookup in Hkeys. destruct (xs2 !! k) as [[b' n2]|] eqn:Ex2; [|done]. injection Hkeys as -> Hblk2 Hc2.
  destruct (shape_node h2 xs2 _ k b n2 S2 Ex2) as (l2 & Hl2 & Hn2 & Hg2).
  assert (l2 = [v]) as -> by (rewrite put_at in Hl2 by (rewrite (shape_len _ _ _ Hs); done); by injection Hl2 as <-).
  set (n3 := with_count n2 (u16 (q_count n2 + 1))). assert (Ec3 : q_count n3 = 1) by (unfold n3; cbn [q_count with_count]; by rewrite Hc2).
  destruct (edit_at h2 xs2 _ k b n2 n3 [v] S2 Ex2) as (xs3 & S3 & K3 & F3 & P3 & M3 & L3); [by destruct Hn2|done|].
  rewrite put_insert in S3 by (rewrite (shape_len _ _ _ Hs); done).
  eexists _, h2, q2, _, xs3. split; [exact Enew|]. split; [exact E2|].
  assert (Hkx : keys xs3 = put k (key (b, with_count m 1)) (keys xs)) by (rewrite K3, K2; unfold key; cbn [fst snd]; rewrite Ec3; change (blk_of n3) with (blk_of n2); rewrite Hblk2; apply put_insert; unfold keys; by rewrite length_map).
  split; [|split; [|split; [|split; [done|by eexists]]]].
  - unfold incr_node, update. cbn [mbind option_bind]. rewrite Hg2. done.
  - apply (rep_inserted h q xs ls i b (with_count m 1) [v] after); [done|done|exact S3|exact Hkx| |by apply (ends_mono _ xs2)| |done|done|done|rewrite weight_cons; change (weight []) with 0; lia].
    + destruct Q2. pose proof (at_fst _ _ F3) as A3. constructor; unfold zlen in *; rewrite ?A3, ?L3; done.
    + intros c Hc. fold k in Hc. assert (Hc2' : c ∉ xs2.*1) by (assert (E : xs2.*1 = (put k (b, m) xs).*1) by (apply keys_fst; by rewrite keys_put); by rewrite E, fst_put, <- (fst_put k (b, with_count m 1)) in *).
      rewrite P3 by done. apply P2. by rewrite fst_put in Hc |- *.
  - rewrite (at_fst _ _ F3). by rewrite (at_cell _ _ _ _ Ex2).
Qed.
(** A list of strings on the heap. *)
Definition qrep (h : qheap) (q : quicklist) (L : list (list Z)) : Prop := exists xs ls, ql_rep h q xs ls /\ concat ls = L.
(** The last node of a list that has others is not touched. *)
Definition same_last (xs xs' : cells) : Prop := length xs' <> 1%nat -> keys xs' !! (length xs' - 1)%nat = keys xs !! (length xs - 1)%nat.
Lemma push_head h q xs ls v : ql_rep h q xs ls -> bytes_ok v -> 40 + weight (concat ls) + zlen v + 18 < 2 ^ 32 ->
  exists h' q' r xs' ls', quicklistPushHead be junk hjunk h q v = Some (h', q', r) /\ ql_rep h' q' xs' ls' /\ concat ls' = v :: concat ls /\ same_opts q q' /\ same_last xs xs'.
Proof.
  intros Hr Hv Hw. pose proof Hr as [Hs [Hhd Htl Hln _ _] He _ _ _ _ Hfl]. unfold quicklistPushHead.
  assert (Hnew : exists h1 h2 q2 h3 xs' ls', new_with be junk h v ZIPLIST_HEAD = Some (h1, znode h) /\ _quicklistInsertNodeBefore junk hjunk h1 q (ql_head q) (Some (znode h)) = Some (h2, q2) /\
    incr_node h2 (ql_head (add_count q2 1)) 1 = Some h3 /\ ql_rep h3 (add_count q2 1) xs' ls' /\ concat ls' = v :: concat ls /\ same_opts q q2 /\ same_last xs xs').
  { destruct (push_new h q xs ls 0 v ZIPLIST_HEAD false Hr Hv Hw ltac:(destruct xs; [by right|left; cbn; lia])) as (h1 & h2 & q2 & h3 & xs' & E1 & E2 & E3 & R' & A' & O' & x & K'). exists h1, h2, q2, h3, xs', (put 0 [v] ls). rewrite Hhd. split; [done|]. split; [done|].
    assert (Ek : place_new xs 0 false = O) by (by destruct xs). rewrite Ek in *. pose proof (hd_head _ _ (rp_hdr _ _ _ _ R')) as Hh'. rewrite A' in Hh'. rewrite Hh'. split; [done|]. split; [exact R'|]. split; [done|]. split; [done|]. intros Hne1.
    assert (Lx : length xs' = S (length xs)) by (rewrite <- (length_map key xs'); fold (keys xs'); rewrite K', length_put; unfold keys; by rewrite length_map). rewrite K', Lx, Nat.sub_succ, Nat.sub_0_r. rewrite put_lookup by lia.
    rewrite bool_decide_eq_false_2, bool_decide_eq_false_2 by lia. f_equal. lia. }
  destruct xs as [|[a n] xs].
  - rewrite Hhd. cbn [at_ lookup list_lookup fmap option_fmap option_map node_at mbind option_bind _quicklistNodeAllowInsert]. destruct Hnew as (h1 & h2 & q2 & h3 & xs' & ls' & -> & E2 & E3 & R3). rewrite Hhd in E2. change (at_ [] 0) with (@None loc) in *. cbn [mbind option_bind]. rewrite E2. cbn [mbind option_bind]. rewrite E3. eexists _, _, _, xs', ls'. split; [done|]. exact R3.
  - destruct (shape_node h _ ls 0 a n Hs eq_refl) as (l & Hl & Hn & Hg). rewrite Hhd. change (at_ ((a, n) :: xs) 0) with (Some a) in *. cbn [node_at]. rewrite Hg. cbn [mbind option_bind].
    pose proof (key_count _ _ _ _ 0 a n l Hr eq_refl Hl) as Hc. destruct (concat_at ls 0 l Hl) as [E1 E2]. rewrite take_0 in E1, E2. cbn [concat app] in E1, E2.
    assert (Hwl : weight l <= weight (concat ls)) by (rewrite E1, weight_app; pose proof (weight_nonneg (concat (drop 1 ls))); lia).
    destruct (_quicklistNodeAllowInsert _ _ _) eqn:Eal.
    + assert (Hsm : zlen l + 1 < 2 ^ 16) by (eapply (allow_insert (linked _ _ n) l (ql_fill q) v); [by apply node_ok_linked|done|lia|lia|exact Eal]).
      destruct (push_node h q _ ls 0 a n l v ZIPLIST_HEAD Hr eq_refl Hl ltac:(by apply (proj1 He a)) Hv Hw Hsm) as (h1 & h2 & xs' & -> & E4 & R' & F' & K'). cbn [mbind option_bind]. change (ql_head (add_count q 1)) with (ql_head q). rewrite Hhd, E4. cbn [mbind option_bind].
      eexists _, _, _, xs', (<[0%nat := v :: l]> ls). split; [done|]. split; [exact R'|]. split; [by rewrite E2, E1|]. split; [done|].
      intros Hne1. rewrite (len_fst _ _ F') in *. apply K'. cbn [length] in *. lia.
    + destruct Hnew as (h1 & h2 & q2 & h3 & xs' & ls' & -> & E3 & E4 & R3). cbn [mbind option_bind]. rewrite Hhd in E3. rewrite E3. cbn [mbind option_bind]. rewrite E4. eexists _, _, _, xs', ls'. split; [done|]. exact R3.
Qed.
Lemma place_last xs : place_new xs (length xs - 1) true = length xs.
Proof. destruct xs as [|x xs]; [done|]. cbn [place_new length]. lia. Qed.
Lemma push_tail h q L v : qrep h q L -> bytes_ok v -> 40 + weight L + zlen v + 18 < 2 ^ 32 ->
  exists h' q' r, quicklistPushTail be junk hjunk h q v = Some (h', q', r) /\ qrep h' q' (L ++ [v]) /\ same_opts q q'.
Proof.
  intros (xs & ls & Hr & <-) Hv Hw. pose proof Hr as [Hs [Hhd Htl Hln _ _] He _ _ _ _ Hfl]. pose proof (shape_len _ _ _ Hs) as Hlen. unfold quicklistPushTail.
  assert (Hnew : exists h1 h2 q2 h3, new_with be junk h v ZIPLIST_TAIL = Some (h1, znode h) /\ _quicklistInsertNodeAfter junk hjunk h1 q (ql_tail q) (Some (znode h)) = Some (h2, q2) /\
    incr_node h2 (ql_tail (add_count q2 1)) 1 = Some h3 /\ qrep h3 (add_count q2 1) (concat ls ++ [v]) /\ same_opts q q2).
  { destruct (push_new h q xs ls (length xs - 1) v ZIPLIST_TAIL true Hr Hv Hw ltac:(destruct xs; [by right|left; cbn; lia])) as (h1 & h2 & q2 & h3 & xs' & E1 & E2 & E3 & R' & A' & O' & _). exists h1, h2, q2, h3. rewrite Htl. split; [done|]. split; [done|].
    rewrite place_last in *. pose proof (hd_tail _ _ (rp_hdr _ _ _ _ R')) as Hh'. pose proof (shape_len _ _ _ (rp_shape _ _ _ _ R')) as L'. rewrite length_put, Hlen in L'.
    rewrite <- L', Nat.sub_succ, Nat.sub_0_r, A' in Hh'. rewrite Hh'. split; [done|]. split; [|done]. exists xs', (put (length xs) [v] ls). split; [done|]. rewrite concat_put, take_ge, drop_ge by lia. cbn [concat]. by rewrite app_nil_r. }
  destruct (decide (xs = [])) as [->|Hne].
  - rewrite Htl in *. change (at_ [] (length [] - 1)) with (@None loc) in *. cbn [node_at mbind option_bind _quicklistNodeAllowInsert]. destruct Hnew as (h1 & h2 & q2 & h3 & -> & E2 & E3 & R3 & O3). cbn [mbind option_bind]. rewrite E2. cbn [mbind option_bind]. rewrite E3. eexists _, _, _. split; [done|]. done.
  - assert (Hi : (length xs - 1 < length xs)%nat) by (destruct xs; [done|cbn; lia]). destruct (at_ex xs _ Hi) as [a Ha]. destruct (cell_at _ _ _ Ha) as [n Hx]. destruct (shape_node h _ ls _ a n Hs Hx) as (l & Hl & Hn & Hg). rewrite Htl in *. rewrite Ha in *. cbn [node_at]. rewrite Hg. cbn [mbind option_bind].
    pose proof (key_count _ _ _ _ _ a n l Hr Hx Hl) as Hc. destruct (concat_at ls _ l Hl) as [E1 E2]. rewrite (drop_ge ls) in E1, E2 by lia. cbn [concat] in E1, E2. rewrite app_nil_r in E1. setoid_rewrite app_nil_r in E2.
    assert (Hwl : weight l <= weight (concat ls)) by (rewrite E1, weight_app; pose proof (weight_nonneg (concat (take (length xs - 1) ls))); lia).
    destruct (_quicklistNodeAllowInsert _ _ _) eqn:Eal.
    + assert (Hsm : zlen l + 1 < 2 ^ 16) by (eapply (allow_insert (linked _ _ n) l (ql_fill q) v); [by apply node_ok_linked|done|lia|lia|exact Eal]).
      destruct (push_node h q _ ls _ a n l v ZIPLIST_TAIL Hr Hx Hl ltac:(by apply (proj1 (proj2 He) a)) Hv Hw Hsm) as (h1 & h2 & xs' & -> & E4 & R' & F' & _). cbn [mbind option_bind]. change (ql_tail (add_count q 1)) with (ql_tail q). rewrite Htl, E4. cbn [mbind option_bind].
      eexists _, _, _. split; [done|]. split; [|done]. eexists xs', _. split; [done|]. rewrite E2, E1. by rewrite app_assoc.
    + destruct Hnew as (h1 & h2 & q2 & h3 & -> & E3 & E4 & R3 & O3). cbn [mbind option_bind]. rewrite E3. cbn [mbind option_bind]. rewrite E4. eexists _, _, _. done.
Qed.

(** ** Taking elements out *)
Lemma hdr_edit q xs xs' : xs'.*1 = xs.*1 -> hdr_ok q xs -> hdr_ok q xs'.
Proof. intros F []. pose proof (at_fst _ _ F) as A. pose proof (len_fst _ _ F) as L. constructor; unfold zlen in *; rewrite ?A, ?L; done. Qed.
Lemma delete_insert {A} (xs : list A) i x : delete i (<[i := x]> xs) = delete i xs.
Proof.
  apply list_eq. intros j. rewrite !delete_lookup. case_bool_decide; rewrite list_lookup_insert_ne; [done|lia|done|lia].
Qed.
Lemma concat_delete {A} (ls : list (list A)) i : concat (delete i ls) = concat (take i ls) ++ concat (drop (S i) ls).
Proof. rewrite delete_take_drop. apply concat_app. Qed.
(** A node goes, whatever it still holds. *)
Lemma del_node0 h q xs ls i a n l m : rep0 h q xs ls -> xs !! i = Some (a, n) -> ls !! i = Some l ->
  let h1 := <[a := linked (pv xs i) (at_ xs (S i)) m]> h in
  exists h' q' xs', __quicklistDelNode junk hjunk h1 q (Some a) = Some (h', q') /\ rep0 h' q' xs' (delete i ls) /\ keys xs' = delete i (keys xs) /\ ql_count q' = u64 (ql_count q - q_count m) /\ same_opts q q'.
Proof.
  intros Hr Hi Hl h1. pose proof Hr as [[Hh Hf] Hq He Hk _ Hw Hcl Hfl]. apply (hdr_total q xs (zlen (concat ls))) in Hq. cbn [ql_compress ql_fill set_total] in *. pose proof (at_cell _ _ _ _ Hi) as Ha.
  assert (F1 : (<[i := (a, m)]> xs).*1 = xs.*1) by (by apply fst_insert).
  assert (Hi1 : (<[i := (a, m)]> xs) !! i = Some (a, m)) by (by apply list_lookup_insert_eq; eapply lookup_lt_Some).
  destruct (del_node (junk:=junk) (hjunk:=hjunk) h1 q (<[i := (a, m)]> xs) (delete i ls) i a m) as (h' & q' & xs' & E' & S' & K' & Q' & En' & P' & Hb' & C' & O').
  - by eapply heap_edit.
  - done.
  - rewrite delete_insert. by apply Forall2_delete.
  - by eapply hdr_edit.
  - unfold zlen. rewrite length_insert. intros Hc j Hj b k E. rewrite list_lookup_insert_ne in E by done. by eapply (proj2 (proj2 He) Hc j).
  - exists h', q', xs'. split; [done|]. rewrite <- keys_delete, delete_insert in K'. assert (Ef : xs'.*1 = delete i xs.*1) by (rewrite (keys_fst _ _ K'); apply fst_delete). split; [|split; [by rewrite K', keys_delete|by split]].
    destruct (concat_at ls i l Hl) as [E1 _]. destruct O' as [Of Oc]. constructor; try done.
    + by apply hdr_total.
    + cbn [ql_compress set_total]. by rewrite Oc.
    + rewrite K', keys_delete. apply list_eq. intros j. change (map zlen ?l) with (zlen <$> l). rewrite !list_lookup_fmap, !delete_lookup. case_bool_decide; rewrite <- !list_lookup_fmap; by rewrite Hk.
    + rewrite concat_delete, weight_app. rewrite E1, !weight_app in Hw. pose proof (weight_nonneg l). lia.
    + intros k Hkk. destruct (decide (k = a)) as [->|Hka]; [done|]. assert (Hkx : k ∉ xs.*1).
      { intros Hin. apply Hkk. rewrite Ef. assert (Hp : xs.*1 ≡ₚ a :: delete i (xs.*1)) by (apply delete_Permutation; by rewrite list_lookup_fmap, Hi). rewrite Hp in Hin. set_solver. }
      rewrite P' by (by rewrite F1). unfold h1. rewrite lookup_insert_ne by done. by apply Hcl.
    + cbn [ql_fill set_total]. by rewrite Of.
Qed.
Lemma rep_del_node h q xs ls i a n l m d : ql_rep h q xs ls -> xs !! i = Some (a, n) -> ls !! i = Some l -> 0 <= d -> q_count m = zlen l - d ->
  let h1 := <[a := linked (pv xs i) (at_ xs (S i)) m]> h in
  exists h' q' xs', __quicklistDelNode junk hjunk h1 q (Some a) = Some (h', q') /\ ql_rep h' (add_count q' (- d)) xs' (delete i ls) /\ xs'.*1 = delete i xs.*1 /\ same_opts q q'.
Proof.
  intros Hr Hi Hl Hd Hm h1. apply rep_total in Hr as [Hr Ht]. destruct (del_node0 h q xs ls i a n l m Hr Hi Hl) as (h' & q' & xs' & E' & R' & K' & C' & O'). exists h', q', xs'. split; [done|].
  split; [|split; [rewrite <- fst_delete; apply keys_fst; by rewrite K', keys_delete|done]].
  destruct (concat_at ls i l Hl) as [E1 _]. assert (Etot : zlen (concat ls) = zlen (concat (delete i ls)) + zlen l) by (rewrite E1, concat_delete, !zlen_app; lia). pose proof (zlen_nonneg (concat (delete i ls))). pose proof (concat_bound _ (rp_bound _ _ _ _ Hr)). pose proof (zlen_nonneg l).
  apply rep_total. split; [exact R'|]. cbn [ql_count add_count]. rewrite C', Ht, Etot, Hm. unfold wrapu. rewrite Zplus_mod_idemp_l, Z.mod_small; lia.
Qed.
Lemma del_index h q xs ls i a n l zl es j : ql_rep h q xs ls -> xs !! i = Some (a, n) -> ls !! i = Some l -> q_zl n = ZRaw zl -> zl_of zl es -> strings es = l -> (j < length l)%nat ->
  exists h' q' gone xs', quicklistDelIndex be junk hjunk h q (Some a) (10 + sz (take j es)) = Some (h', q', 10 + sz (take j es), gone) /\ same_opts q q' /\ gone = bool_decide (length l = 1%nat) /\
    (if gone then ql_rep h' q' xs' (delete i ls) /\ xs'.*1 = delete i xs.*1 else ql_rep h' q' xs' (<[i := take j l ++ drop (S j) l]> ls) /\ xs'.*1 = xs.*1 /\ (forall k, raw_at xs k -> raw_at xs' k)).
Proof.
  intros Hr Hi Hl Ez Hz Hst Hj. destruct (shape_node h xs ls i a n (rp_shape _ _ _ _ Hr) Hi) as (l0 & Hl0 & Hn & Hg). rewrite Hl in Hl0. injection Hl0 as <-.
  pose proof (key_count _ _ _ _ _ _ _ _ Hr Hi Hl) as Hc. destruct (concat_at ls i l Hl) as [E1 E2]. pose proof (rp_bound _ _ _ _ Hr) as Hw. rewrite E1 in Hw. pose proof (weight_part (concat (take i ls)) l (concat (drop (S i) ls))) as Hwp. pose proof (ok_small _ _ Hn) as Hsm.
  destruct (rep_delete (be:=be) (junk:=junk) zl es j 1 Hz ltac:(by rewrite <- strings_len, Hst) ltac:(lia) ltac:(rewrite Hst; lia)) as (zl' & Ed & Hrep). rewrite Hst in Hrep. change (Z.to_nat 1) with 1%nat in Hrep. rewrite Nat.add_1_r in Hrep.
  set (l' := take j l ++ drop (S j) l) in *. assert (Hll : length l = S (length l')) by (unfold l'; rewrite length_app, length_take, length_drop; lia).
  unfold quicklistDelIndex. cbn [mbind option_bind]. rewrite Hg. cbn [mbind option_bind]. unfold raw at 1. change (q_zl (linked ?p ?x n)) with (q_zl n). rewrite Ez. cbn [mbind option_bind]. unfold ziplistDelete. rewrite Ed. cbn [mbind option_bind].
  change (q_count (with_count ?x ?c)) with c. change (q_count (linked ?p ?x n)) with (q_count n). rewrite Hc. assert (Eu : u16 (zlen l - 1) = zlen l') by (rewrite wrapu_small; unfold zlen in *; lia). rewrite Eu.
  destruct (Z.eqb_spec (zlen l') 0) as [E0|E0].
  - destruct (rep_del_node h q xs ls i a n l (with_count (with_zl n (ZRaw zl') (q_sz n)) (zlen l')) 1 Hr Hi Hl ltac:(lia) ltac:(cbn [q_count with_count]; unfold zlen in *; lia)) as (h' & q' & xs' & E' & R' & F' & O').
    change (with_count (with_zl (linked ?p ?x n) ?d ?s) ?c) with (linked p x (with_count (with_zl n d s) c)). change (q_sz (linked ?p ?x n)) with (q_sz n). rewrite E'. cbn [mbind option_bind].
    eexists _, _, _, xs'. split; [done|]. split; [done|]. split; [symmetry; apply bool_decide_eq_true_2; unfold zlen in *; lia|]. done.
  - unfold set_ziplist. rewrite (rep_blob be zl' l' Hrep). cbn [mbind option_bind].
    destruct (rep_edit h q xs ls i a n l (with_zl (with_count (with_zl n (ZRaw zl') (q_sz n)) (zlen l')) (ZRaw zl') (zlen zl')) l' (-1) Hr Hi Hl) as (xs' & R' & F' & M' & _); [|done|done|unfold zlen; lia| |].
    + constructor; [by exists zl'|apply (ok_recompress _ _ Hn)|by intros ->|unfold zlen in *; lia].
    + rewrite E2. rewrite !weight_app in *. assert (weight l' <= weight l) by (unfold l'; rewrite <- (Nat.add_1_r j); apply weight_drop). lia.
    + eexists _, _, _, xs'. split; [done|]. split; [done|]. split; [symmetry; apply bool_decide_eq_false_2; unfold zlen in *; lia|]. done.
Qed.
Lemma value_bytes_str v : (forall n, v = ZlInt n -> in_s 64 n) -> value_bytes v = Some (value_str v).
Proof.
  intros Hv. destruct v as [s|v]; [done|]. cbn [value_bytes value_str]. pose proof (dec_len20 v (Hv v eq_refl)) as Hl.
  rewrite (ll2string_spec (replicate 32 0) v (Hv v eq_refl) eq_refl : ll2string (replicate 32 0) 32 v = _). rewrite (proj2 (Z.ltb_lt _ _)) by (change (zlen (replicate 32 0)) with 32; lia). cbn [mbind option_bind]. by apply load_prefix.
Qed.
(** The ziplist of a raw node and a place in it. *)
Lemma node_entry h q xs ls i a n l : ql_rep h q xs ls -> xs !! i = Some (a, n) -> ls !! i = Some l -> is_raw n ->
  exists zl es, h !! a = Some (linked (pv xs i) (at_ xs (S i)) n) /\ q_zl n = ZRaw zl /\ raw n = Some zl /\ zl_of zl es /\ strings es = l /\ l <> [].
Proof.
  intros Hr Hi Hl Hraw. destruct (shape_node h xs ls i a n (rp_shape _ _ _ _ Hr) Hi) as (l0 & Hl0 & Hn & Hg). rewrite Hl in Hl0. injection Hl0 as <-.
  destruct (raw_ok n l Hn Hraw) as (zl & Ez & Er & (es & Hz & Hs) & _). exists zl, es. repeat split; try done. apply (ok_nonempty _ _ Hn).
Qed.
Lemma get_at zl es j x : zl_of zl es -> strings es !! j = Some x -> exists v, ziplistGet be zl (10 + sz (take j es)) = Some (Some v) /\ value_str v = x /\ forall n, v = ZlInt n -> in_s 64 n.
Proof.
  intros Hz Hj. unfold strings in Hj. rewrite list_lookup_fmap in Hj. destruct (es !! j) as [e|] eqn:Ee; [|done]. injection Hj as <-. rewrite (take_cons_split es j e Ee) in Hz.
  destruct (zl_get (be:=be) zl _ e _ Hz) as (v & E & Hv & Hi). exists v. done.
Qed.
(** Deleting an element, on the whole list. *)
Lemma del_element h q xs ls i a n l zl es j : ql_rep h q xs ls -> xs !! i = Some (a, n) -> ls !! i = Some l -> q_zl n = ZRaw zl -> zl_of zl es -> strings es = l -> (j < length l)%nat ->
  exists h' q' gone, quicklistDelIndex be junk hjunk h q (Some a) (10 + sz (take j es)) = Some (h', q', 10 + sz (take j es), gone) /\ same_opts q q' /\
    qrep h' q' (concat (take i ls) ++ (take j l ++ drop (S j) l) ++ concat (drop (S i) ls)).
Proof.
  intros Hr Hi Hl Ez Hz Hst Hj. destruct (del_index h q xs ls i a n l zl es j Hr Hi Hl Ez Hz Hst Hj) as (h' & q' & gone & xs' & E & O & Hgone & Hrest). exists h', q', gone. split; [done|]. split; [done|].
  destruct gone.
  - exists xs', (delete i ls). split; [apply Hrest|]. rewrite concat_delete. symmetry in Hgone. apply bool_decide_eq_true in Hgone. destruct l as [|x [|]]; [done| |done]. destruct j as [|]; [done|cbn in Hj; lia].
  - eexists xs', _. split; [apply Hrest|]. by rewrite (proj2 (concat_at ls i l Hl)).
Qed.
Definition pop_str (r : list Z + Z) : list Z := match r with inl s => s | inr v => dec v end.
Definition spec_pop (L : list (list Z)) (w : ql_where) : list (list Z) * option (list Z) :=
  match w with QUICKLIST_HEAD => (drop 1 L, L !! 0%nat) | QUICKLIST_TAIL => (take (length L - 1) L, L !! (length L - 1)%nat) end.
Lemma place_first {A} (l : list A) : l <> [] -> place l 0 = Some 0%nat.
Proof. intros Hl. unfold place. destruct l; [done|]. rewrite zlen_cons. pose proof (zlen_nonneg l). change (0 <? 0) with false. cbv iota. by rewrite (proj2 (Z.ltb_lt 0 _)) by lia. Qed.
Lemma place_end {A} (l : list A) : l <> [] -> place l (-1) = Some (length l - 1)%nat.
Proof. intros Hl. unfold place. destruct l as [|x l]; [done|]. rewrite zlen_cons. pose proof (zlen_nonneg l). change (-1 <? 0) with true. cbv iota. rewrite (proj2 (Z.leb_le 0 _)) by lia. f_equal. unfold zlen. cbn [length]. lia. Qed.
Lemma take_last {A} (a b : list A) : b <> [] -> take (length (a ++ b) - 1) (a ++ b) = a ++ take (length b - 1) b /\ (a ++ b) !! (length (a ++ b) - 1)%nat = b !! (length b - 1)%nat.
Proof.
  intros Hb. assert (length b <> 0)%nat by (by destruct b). rewrite length_app. split; [rewrite take_app_ge by lia; f_equal; f_equal; lia|rewrite lookup_app_r by lia; f_equal; lia].
Qed.
Lemma rep_nonempty h q xs ls : ql_rep h q xs ls -> ql_count q <> 0 -> (0 < length xs)%nat.
Proof. intros Hr Hc. destruct (rep_nodes _ _ _ _ Hr) as [_ Hlen]. rewrite (rp_total _ _ _ _ Hr) in Hc. destruct ls; [done|]. rewrite Hlen. cbn. lia. Qed.
Lemma pop_spec h q L w : qrep h q L ->
  exists h' q' r, quicklistPop be junk hjunk h q w = Some (h', q', r) /\ same_opts q q' /\ qrep h' q' (spec_pop L w).1 /\ option_map pop_str r = (spec_pop L w).2.
Proof.
  intros (xs & ls & Hr & <-). pose proof Hr as [Hs [Hhd Htl _ _ _] He _ Ht _ _ _]. unfold quicklistPop. destruct (Z.eqb_spec (ql_count q) 0) as [E0|E0].
  { exists h, q, None. split; [done|]. split; [done|]. rewrite Ht in E0. assert (Enil : concat ls = []) by (apply nil_length_inv; unfold zlen in E0; lia). rewrite Enil in *. destruct w; cbn [spec_pop fst snd]; rewrite ?drop_nil, ?take_nil; (split; [|done]); by exists xs, ls. }
  unfold quicklistPopCustom. rewrite (proj2 (Z.eqb_neq _ _)) by done. pose proof (rep_nonempty _ _ _ _ Hr E0) as Hx. pose proof (shape_len _ _ _ Hs) as Hlen.
  set (i := match w with QUICKLIST_HEAD => 0%nat | QUICKLIST_TAIL => (length xs - 1)%nat end). assert (Hi : (i < length xs)%nat) by (unfold i; destruct w; lia).
  destruct (at_ex xs i Hi) as [a Ha]. destruct (cell_at _ _ _ Ha) as [n Hn]. destruct (lookup_lt_is_Some_2 ls i ltac:(lia)) as [l Hl].
  assert (Hraw : is_raw n) by (destruct w; [by apply (proj1 He a)|by apply (proj1 (proj2 He) a)]).
  destruct (node_entry h q xs ls i a n l Hr Hn Hl Hraw) as (zl & es & Hg & Ez & Er & Hz & Hst & Hne).
  set (j := match w with QUICKLIST_HEAD => 0%nat | QUICKLIST_TAIL => (length l - 1)%nat end). assert (Hj : (j < length l)%nat) by (destruct l; [done|]; unfold j; cbn; destruct w; lia).
  assert (Hle : length es = length l) by (by rewrite <- Hst, strings_len).
  assert (Epos : ziplistIndex be zl (match w with QUICKLIST_HEAD => 0 | QUICKLIST_TAIL => -1 end) = Some (Some (10 + sz (take j es)))).
  { rewrite (zl_index (be:=be) zl es _ Hz) by (destruct w; lia). assert (es <> []) by (intros ->; cbn in Hle; by destruct l). destruct w; [by rewrite place_first|rewrite place_end by done; cbn [fmap option_fmap option_map]; by rewrite Hle]. }
  destruct (lookup_lt_is_Some_2 l j Hj) as [x Hxj]. destruct (get_at zl es j x Hz ltac:(by rewrite Hst)) as (v & Ev & Hv & _).
  destruct (del_element h q xs ls i a n l zl es j Hr Hn Hl Ez Hz Hst Hj) as (h' & q' & gone & Ed & O' & R').
  destruct (concat_at ls i l Hl) as [E1 _].
  exists h', q', (Some (match v with ZlStr s => inl (_quicklistSaver s) | ZlInt v => inr v end)). split; [|split; [done|]].
  - replace (match w with QUICKLIST_HEAD => (ql_head q, 0) | QUICKLIST_TAIL => (ql_tail q, -1) end) with (Some a, match w with QUICKLIST_HEAD => 0 | QUICKLIST_TAIL => -1 end) by (rewrite Hhd, Htl; unfold i in Ha; destruct w; by rewrite Ha).
    unfold deref. cbn [mbind option_bind]. rewrite Hg. cbn [mbind option_bind]. rewrite raw_linked, Er. cbn [mbind option_bind]. rewrite Epos. cbn [mbind option_bind zl_get_opt]. rewrite Ev. cbn [mbind option_bind]. rewrite Ed. done.
  - assert (Epop : option_map pop_str (Some (match v with ZlStr s => inl (_quicklistSaver s) | ZlInt v => inr v end)) = Some x) by (cbn [option_map]; rewrite <- Hv; by destruct v). rewrite Epop. unfold i, j in *. rewrite E1. destruct w; cbn [spec_pop fst snd].
    + rewrite take_0 in R' |- *. cbn [concat app] in *. destruct l as [|y l]; [done|]. injection Hxj as ->. done.
    + rewrite (drop_ge ls) in R' |- * by lia. cbn [concat] in *. rewrite app_nil_r in *. rewrite (drop_ge l), app_nil_r in R' by lia. destruct (take_last (concat (take (length xs - 1) ls)) l Hne) as [T1 T2]. by rewrite T1, T2.
Qed.
(** A block represents one list. *)
Lemma represents_inj zl l1 l2 : represents zl l1 -> represents zl l2 -> zlen l1 < 2 ^ 16 -> zlen l2 < 2 ^ 16 -> l1 = l2.
Proof.
  intros (e1 & H1 & <-) (e2 & H2 & <-) Hb1 Hb2. apply list_eq. intros i.
  destruct (decide (Z.of_nat i < 2 ^ 16)) as [Hi|Hi]; [|unfold zlen in *; rewrite !lookup_ge_None_2 by lia; done].
  destruct (step_read be junk zl e1 (ZGet (Z.of_nat i)) H1 ltac:(cbn; lia) I) as (z1 & E1 & _). destruct (step_read be junk zl e2 (ZGet (Z.of_nat i)) H2 ltac:(cbn; lia) I) as (z2 & E2 & _).
  assert (Hp : forall l : list (list Z), (k ← place l (Z.of_nat i); l !! k) = l !! i).
  { intros l. unfold place, zlen. rewrite (proj2 (Z.ltb_ge (Z.of_nat i) 0)) by lia. destruct (Z.ltb_spec (Z.of_nat i) (Z.of_nat (length l))); cbn [mbind option_bind]; [by rewrite Nat2Z.id|]. symmetry. apply lookup_ge_None_2. lia. }
  cbn [spec_op snd] in E1, E2. rewrite !Hp in *. rewrite E1 in E2. by injection E2.
Qed.
Definition spec_rotate (L : list (list Z)) : list (list Z) := match L !! (length L - 1)%nat with Some x => x :: take (length L - 1) L | None => L end.
Lemma rotate_spec h q L : qrep h q L -> 40 + 2 * weight L < 2 ^ 32 -> Forall bytes_ok L ->
  exists h' q', quicklistRotate be junk hjunk h q = Some (h', q') /\ same_opts q q' /\ qrep h' q' (spec_rotate L).
Proof.
  intros (xs & ls & Hr & <-) Hw2 Hby. pose proof Hr as [Hs [Hhd Htl _ _ _] He _ Ht Hw _ _]. unfold quicklistRotate. destruct (Z.leb_spec (ql_count q) 1) as [E0|E0].
  { exists h, q. split; [done|]. split; [done|]. exists xs, ls. split; [done|]. rewrite Ht in E0. unfold spec_rotate, zlen in *. destruct (concat ls) as [|x [|y r]] eqn:E; [done|done|cbn in E0; lia]. }
  pose proof (rep_nonempty _ _ _ _ Hr ltac:(lia)) as Hx. pose proof (shape_len _ _ _ Hs) as Hlen.
  set (i := (length xs - 1)%nat) in *. destruct (at_ex xs i ltac:(unfold i; lia)) as [a Ha]. destruct (cell_at _ _ _ Ha) as [n Hn]. destruct (lookup_lt_is_Some_2 ls i ltac:(unfold i; lia)) as [l Hl].
  assert (Hraw : is_raw n) by (by apply (proj1 (proj2 He) a)). destruct (node_entry h q xs ls i a n l Hr Hn Hl Hraw) as (zl & es & Hg & Ez & Er & Hz & Hst & Hne).
  assert (Hle : length es = length l) by (by rewrite <- Hst, strings_len). assert (Hes : es <> []) by (intros ->; cbn in Hle; by destruct l). assert (Hl0 : (0 < length l)%nat) by (destruct l; [done|cbn; lia]).
  assert (Epos : ziplistIndex be zl (-1) = Some (Some (10 + sz (take (length l - 1) es)))) by (rewrite (zl_index (be:=be) zl es _ Hz), place_end by (done || lia); cbn [fmap option_fmap option_map]; by rewrite Hle).
  destruct (lookup_lt_is_Some_2 l (length l - 1) ltac:(lia)) as [x Hxj]. destruct (get_at zl es _ x Hz ltac:(by rewrite Hst)) as (v & Ev & Hv & Hint).
  destruct (concat_at ls i l Hl) as [E1 _]. rewrite (drop_ge ls) in E1 by (unfold i; lia). cbn [concat] in E1. rewrite app_nil_r in E1.
  destruct (take_last (concat (take i ls)) l Hne) as [T1 T2]. rewrite <- E1 in T1, T2.
  assert (Hxin : x ∈ concat ls) by (rewrite E1; apply elem_of_app; right; by eapply list_elem_of_lookup_2).
  assert (Hxw : zlen x + 18 <= weight (concat ls)) by (apply list_elem_of_split in Hxin as (A & B & ->); rewrite weight_app, weight_cons; pose proof (weight_nonneg A); pose proof (weight_nonneg B); lia).
  destruct (push_head h q xs ls x Hr ltac:(rewrite Forall_forall in Hby; by apply Hby) ltac:(lia)) as (h1 & q1 & r1 & xs1 & ls1 & Ep & R1 & C1 & O1 & L1).
  unfold deref. rewrite Htl, Ha. cbn [mbind option_bind]. rewrite Hg. cbn [mbind option_bind]. rewrite raw_linked, Er. cbn [mbind option_bind]. rewrite Epos. cbn [mbind option_bind zl_get_opt]. rewrite Ev. cbn [mbind option_bind]. rewrite (value_bytes_str v Hint), Hv. cbn [mbind option_bind]. rewrite Ep. cbn [mbind option_bind].
  pose proof R1 as [S1 [Hhd1 Htl1 Hln1 _ _] He1 _ Ht1 _ _ _]. pose proof (shape_len _ _ _ S1) as Hlen1. pose proof (rep_nonempty _ _ _ _ R1 ltac:(rewrite Ht1, C1, zlen_cons; pose proof (zlen_nonneg (concat ls)); lia)) as Hx1.
  set (i1 := (length xs1 - 1)%nat) in *. destruct (at_ex xs1 i1 ltac:(unfold i1; lia)) as [a1 Ha1]. destruct (cell_at _ _ _ Ha1) as [n1 Hn1]. destruct (lookup_lt_is_Some_2 ls1 i1 ltac:(unfold i1; lia)) as [l1 Hl1].
  assert (Hraw1 : is_raw n1) by (by apply (proj1 (proj2 He1) a1)). destruct (node_entry h1 q1 xs1 ls1 i1 a1 n1 l1 R1 Hn1 Hl1 Hraw1) as (zl1 & es1 & Hg1 & Ez1 & Er1 & Hz1 & Hst1 & Hne1).
  destruct (concat_at ls1 i1 l1 Hl1) as [E1' _]. rewrite (drop_ge ls1) in E1' by (unfold i1; lia). cbn [concat] in E1'. rewrite app_nil_r in E1'.
  destruct (take_last (concat (take i1 ls1)) l1 Hne1) as [T1' _]. rewrite <- E1', C1 in T1'. assert (Hll1 : (0 < length l1)%nat) by (destruct l1; [done|cbn; lia]).
  assert (Efin : concat (take i1 ls1) ++ (take (length l1 - 1) l1 ++ drop (S (length l1 - 1)) l1) ++ concat (drop (S i1) ls1) = spec_rotate (concat ls)).
  { rewrite (drop_ge l1), (drop_ge ls1) by (unfold i1; lia). cbn [concat]. rewrite !app_nil_r, <- T1'. unfold spec_rotate. rewrite T2, Hxj. cbn [length]. rewrite Nat.sub_succ, Nat.sub_0_r. destruct (length (concat ls)) as [|k] eqn:Ek; [unfold zlen in *; lia|]. cbn [take]. by rewrite Nat.sub_succ, Nat.sub_0_r. }
  assert (Hdel : exists es', zl_of zl1 es' /\ strings es' = l1 /\ (p ← (if ql_len q1 =? 1 then t ← deref h1 (ql_tail q1); zl ← raw t; ziplistIndex be zl (-1) else Some (Some (10 + sz (take (length l - 1) es)))); p) = Some (10 + sz (take (length l1 - 1) es'))).
  { destruct (Z.eqb_spec (ql_len q1) 1) as [El|El].
    - exists es1. split; [done|]. split; [done|]. unfold deref. rewrite Htl1, Ha1. cbn [mbind option_bind]. rewrite Hg1. cbn [mbind option_bind]. rewrite raw_linked, Er1. cbn [mbind option_bind].
      assert (Hle1 : length es1 = length l1) by (by rewrite <- Hst1, strings_len). rewrite (zl_index (be:=be) zl1 es1 _ Hz1), place_end by (lia || (intros ->; cbn in Hle1; lia)). cbn [fmap option_fmap option_map mbind option_bind]. by rewrite Hle1.
    - exists es. specialize (L1 ltac:(rewrite Hln1 in El; unfold zlen in El; lia)). fold i i1 in L1. rewrite !keys_lookup, Hn, Hn1 in L1. injection L1 as _ Eblk _. unfold blk_of in Eblk. rewrite Ez, Ez1 in Eblk. injection Eblk as ->.
      destruct (shape_node _ _ _ _ _ _ Hs Hn) as (l' & Hl' & Hok & _). destruct (shape_node _ _ _ _ _ _ S1 Hn1) as (l1' & Hl1' & Hok1 & _). assert (l' = l) as -> by congruence. assert (l1' = l1) as -> by congruence.
      assert (El1 : l1 = l) by (apply (represents_inj zl); [by exists es1|by exists es|apply (ok_small _ _ Hok1)|apply (ok_small _ _ Hok)]). split; [done|]. split; [congruence|]. by rewrite El1. }
  destruct Hdel as (es' & Hz' & Hst' & Epp). destruct (del_element h1 q1 xs1 ls1 i1 a1 n1 l1 zl1 es' (length l1 - 1) R1 Hn1 Hl1 Ez1 Hz' Hst' ltac:(lia)) as (h2 & q2 & gone & Ed & O2 & R2).
  rewrite Efin in R2. exists h2, q2.
  destruct (if ql_len q1 =? 1 then _ else _) as [p1|]; [|done]. cbn [mbind option_bind] in Epp |- *. rewrite Epp. cbn [mbind option_bind]. rewrite Htl1, Ha1, Ed. cbn [mbind option_bind]. split; [done|]. split; [|done]. destruct O1, O2. split; congruence.
Qed.
End Ends.
