(* ===== verification/QuicklistSpec.v ===== *)
(** * Quicklists as lists of strings

    Positions, replacing, inserting, splitting and merging nodes, deleting
    ranges and iterating (quicklist.c), and the refinement theorems. *)
From S2P Require Import Prelude Endian Util Lzf Ziplist ZiplistEdit ZiplistSpec Quicklist QuicklistShape QuicklistEnds.
#[local] Open Scope cmem_scope.
Section Positions.
  Context `{QAllocator} {be : bool} {junk : nat -> Z} {hjunk : Z -> Z}.

(** ** Finding a position *)
Lemma s32_u64 v : - 2 ^ 31 <= v < 2 ^ 31 -> s32 (u64 v) = v.
Proof.
  intros Hv. transitivity (s32 v); [|apply wraps_small; [exact Hv|lia]]. rewrite <- (wraps_wrapu 32 (u64 v)), <- (wraps_wrapu 32 v) by lia. f_equal. unfold wrapu. apply Z.mod_mod_divide. by exists (2 ^ 32).
Qed.
Lemma concat_take_S {A} (ls : list (list A)) i l : ls !! i = Some l -> concat (take (S i) ls) = concat (take i ls) ++ l.
Proof. intros Hi. rewrite (take_S_r ls i l Hi), concat_app. cbn [concat]. by rewrite app_nil_r. Qed.
Lemma concat_drop_S {A} (ls : list (list A)) i l : ls !! i = Some l -> concat (drop i ls) = l ++ concat (drop (S i) ls).
Proof. intros Hi. by rewrite (drop_S ls l i Hi). Qed.
Lemma concat_split {A} (ls : list (list A)) i : zlen (concat ls) = zlen (concat (take i ls)) + zlen (concat (drop i ls)).
Proof. by rewrite <- zlen_app, <- concat_app, take_drop. Qed.
Lemma find_fwd h q xs ls index : ql_rep h q xs ls -> 0 <= index < zlen (concat ls) -> forall r i fuel, (length xs - i = r)%nat -> (r <= fuel)%nat -> zlen (concat (take i ls)) <= index ->
  exists k l, find_node fuel h true (at_ xs i) (zlen (concat (take i ls))) index = Some (at_ xs k, zlen (concat (take k ls))) /\ ls !! k = Some l /\ 0 <= index - zlen (concat (take k ls)) < zlen l.
Proof.
  intros Hr Hix. pose proof (concat_bound _ (rp_bound _ _ _ _ Hr)) as Hb. pose proof (shape_len _ _ _ (rp_shape _ _ _ _ Hr)) as Hlen. induction r as [|r IH]; intros i fuel Hri Hfu Hacc.
  - rewrite take_ge in Hacc by lia. lia.
  - destruct (at_ex xs i ltac:(lia)) as [a Ha]. destruct (cell_at _ _ _ Ha) as [n Hn]. destruct (lookup_lt_is_Some_2 ls i ltac:(lia)) as [l Hl].
    pose proof (key_count _ _ _ _ _ _ _ _ Hr Hn Hl) as Hc. pose proof (concat_take_S ls i l Hl) as Ets. pose proof (concat_split ls (S i)) as Esp. rewrite Ets, zlen_app in Esp. pose proof (zlen_nonneg (concat (drop (S i) ls))). pose proof (zlen_nonneg l). pose proof (zlen_nonneg (concat (take i ls))).
    destruct fuel as [|fuel]; [lia|]. cbn [find_node]. rewrite Ha. rewrite (heap_get h xs i a n (proj1 (rp_shape _ _ _ _ Hr)) Hn). cbn [mbind option_bind]. change (q_count (linked ?p ?x n)) with (q_count n). rewrite Hc, wrapu_small by lia. rewrite Z.gtb_ltb.
    destruct (Z.ltb_spec index (zlen (concat (take i ls)) + zlen l)) as [Hlt|Hge].
    + exists i, l. rewrite Ha. split; [done|]. split; [done|lia].
    + change (q_next (linked ?p ?x n)) with x. destruct (IH (S i) fuel ltac:(lia) ltac:(lia)) as (k & l' & E & Hk & Hin); [rewrite Ets, zlen_app; lia|]. rewrite Ets, zlen_app in E. by exists k, l'.
Qed.
Lemma find_bwd h q xs ls index : ql_rep h q xs ls -> 0 <= index < zlen (concat ls) -> forall r fuel, (r <= length xs)%nat -> (r <= fuel)%nat -> zlen (concat (drop r ls)) <= index ->
  exists k l, find_node fuel h false (pv xs r) (zlen (concat (drop r ls))) index = Some (at_ xs k, zlen (concat (drop (S k) ls))) /\ ls !! k = Some l /\ 0 <= index - zlen (concat (drop (S k) ls)) < zlen l.
Proof.
  intros Hr Hix. pose proof (concat_bound _ (rp_bound _ _ _ _ Hr)) as Hb. pose proof (shape_len _ _ _ (rp_shape _ _ _ _ Hr)) as Hlen. induction r as [|r IH]; intros fuel Hri Hfu Hacc.
  - rewrite drop_0 in Hacc. lia.
  - destruct (at_ex xs r ltac:(lia)) as [a Ha]. destruct (cell_at _ _ _ Ha) as [n Hn]. destruct (lookup_lt_is_Some_2 ls r ltac:(lia)) as [l Hl].
    pose proof (key_count _ _ _ _ _ _ _ _ Hr Hn Hl) as Hc. pose proof (concat_drop_S ls r l Hl) as Eds. pose proof (concat_split ls r) as Esp. rewrite Eds, zlen_app in Esp. pose proof (zlen_nonneg (concat (drop (S r) ls))). pose proof (zlen_nonneg l). pose proof (zlen_nonneg (concat (take r ls))).
    destruct fuel as [|fuel]; [lia|]. cbn [find_node pv]. rewrite Ha. rewrite (heap_get h xs r a n (proj1 (rp_shape _ _ _ _ Hr)) Hn). cbn [mbind option_bind]. change (q_count (linked ?p ?x n)) with (q_count n). rewrite Hc, wrapu_small by lia. rewrite Z.gtb_ltb.
    destruct (Z.ltb_spec index (zlen (concat (drop (S r) ls)) + zlen l)) as [Hlt|Hge].
    + exists r, l. rewrite Ha. split; [done|]. split; [done|lia].
    + change (q_prev (linked ?p ?x n)) with p. destruct (IH fuel ltac:(lia) ltac:(lia)) as (k & l' & E & Hk & Hin); [rewrite Eds, zlen_app; lia|]. rewrite Eds, zlen_app, (Z.add_comm (zlen l)) in E. by exists k, l'.
Qed.
(** An element: its node, its place in the node and the pointer to it. *)
Record at_entry (xs : cells) (ls : list (list (list Z))) (i j : nat) (a : loc) (n : quicklistNode) (l : list (list Z)) (zl : list Z) (es : list zent) : Prop := {
  ae_cell : xs !! i = Some (a, n);
  ae_list : ls !! i = Some l;
  ae_raw : q_zl n = ZRaw zl;
  ae_zl : zl_of zl es;
  ae_strings : strings es = l;
  ae_lt : (j < length l)%nat
}.
Lemma entry_of h q xs ls i j l : ql_rep h q xs ls -> raw_at xs i -> ls !! i = Some l -> (j < length l)%nat -> exists a n zl es, at_entry xs ls i j a n l zl es.
Proof.
  intros Hr Hraw Hl Hj. pose proof (shape_len _ _ _ (rp_shape _ _ _ _ Hr)) as Hlen. destruct (at_ex xs i ltac:(rewrite <- Hlen; by eapply lookup_lt_Some)) as [a Ha]. destruct (cell_at _ _ _ Ha) as [n Hn].
  destruct (node_entry h q xs ls i a n l Hr Hn Hl ltac:(by apply (Hraw a))) as (zl & es & _ & Ez & _ & Hz & Hst & _). exists a, n, zl, es. done.
Qed.
Lemma all_raw h q xs ls : ql_rep h q xs ls -> ql_compress q = 0 -> forall j, raw_at xs j.
Proof. intros Hr Hc. apply (rp_ends _ _ _ _ Hr). by left. Qed.
Lemma concat_lookup {A} (ls : list (list A)) i l j : ls !! i = Some l -> (j < length l)%nat -> concat ls !! (length (concat (take i ls)) + j)%nat = l !! j.
Proof.
  intros Hl Hj. rewrite (proj1 (concat_at ls i l Hl)). rewrite lookup_app_r by lia. rewrite lookup_app_l by lia. f_equal. lia.
Qed.
Lemma use_raw h xs i a n zl p : ql_heap h xs -> xs !! i = Some (a, n) -> q_zl n = ZRaw zl -> p = Some a -> quicklistDecompressNodeForUse junk h p = Some h.
Proof. intros Hh Hi Ez ->. cbn [quicklistDecompressNodeForUse]. rewrite (heap_get h xs i a n Hh Hi). cbn [mbind option_bind]. change (q_zl (linked ?p ?x n)) with (q_zl n). by rewrite Ez. Qed.
Lemma index_ok h q xs ls idx g x : ql_rep h q xs ls -> ql_compress q = 0 -> - 2 ^ 63 < idx < 2 ^ 63 -> place (concat ls) idx = Some g -> concat ls !! g = Some x ->
  exists i j a n l zl es v, quicklistIndex be junk h q idx = Some (h, mk_entry (Some a) (Some (10 + sz (take j es))) (Some v) (if idx <? 0 then Z.of_nat j - zlen l else Z.of_nat j), true) /\
    at_entry xs ls i j a n l zl es /\ g = (length (concat (take i ls)) + j)%nat /\ l !! j = Some x /\ value_str v = x /\ forall m, v = ZlInt m -> in_s 64 m.
Proof.
  intros Hr Hc Hidx Hp Hx. pose proof Hr as [[Hh Hf] [Hhd Htl _ _ _] _ _ Ht _ _ _]. pose proof (concat_bound _ (rp_bound _ _ _ _ Hr)) as Hb. pose proof (shape_len _ _ _ (rp_shape _ _ _ _ Hr)) as Hlen. pose proof (heap_size h xs Hh) as Hsz.
  unfold quicklistIndex. rewrite (proj2 (Z.eqb_neq idx _)) by lia. unfold place in Hp. set (fwd := negb (idx <? 0)). set (index := if fwd then idx else - idx - 1).
  assert (Hin : 0 <= index < zlen (concat ls) /\ g = (if idx <? 0 then Z.to_nat (zlen (concat ls) + idx) else Z.to_nat idx)).
  { unfold index, fwd. destruct (Z.ltb_spec idx 0); cbn [negb]; [destruct (Z.leb_spec 0 (zlen (concat ls) + idx))|destruct (Z.ltb_spec idx (zlen (concat ls)))]; try discriminate Hp; injection Hp as <-; (split; [lia|done]). }
  destruct Hin as [Hin Hg]. rewrite Z.geb_leb, (proj2 (Z.leb_gt (ql_count q) index)) by lia.
  assert (Hfind : exists k l acc j, find_node (size h) h fwd (if fwd then ql_head q else ql_tail q) 0 index = Some (at_ xs k, acc) /\ ls !! k = Some l /\ (j < length l)%nat /\ g = (length (concat (take k ls)) + j)%nat /\
    s32 (if fwd then u64 (index - acc) else u64 (- index - 1 + acc)) = (if idx <? 0 then Z.of_nat j - zlen l else Z.of_nat j)).
  { destruct fwd eqn:Ef; unfold fwd in Ef.
    - apply negb_true_iff in Ef. rewrite Ef in *. unfold index in *. destruct (find_fwd h q xs ls idx Hr Hin (length xs) 0 (size h) ltac:(lia) Hsz ltac:(change (zlen (concat (take 0 ls))) with 0; lia)) as (k & l & E & Hk & Hr').
      exists k, l, (zlen (concat (take k ls))), (Z.to_nat (idx - zlen (concat (take k ls)))). rewrite Hhd. split; [exact E|]. split; [done|]. unfold zlen in *. split; [lia|]. split; [lia|]. rewrite wrapu_small by lia. rewrite wraps_small by (unfold in_s; lia). lia.
    - apply negb_false_iff in Ef. rewrite Ef in *. unfold index in *. destruct (find_bwd h q xs ls (- idx - 1) Hr Hin (length xs) (size h) ltac:(lia) Hsz ltac:(rewrite drop_ge by lia; change (zlen (concat [])) with 0; lia)) as (k & l & E & Hk & Hr'). rewrite (drop_ge ls) in E by lia.
      pose proof (concat_split ls k) as Esp. rewrite (concat_drop_S ls k l Hk), zlen_app in Esp.
      exists k, l, (zlen (concat (drop (S k) ls))), (Z.to_nat (zlen l - 1 - (- idx - 1 - zlen (concat (drop (S k) ls))))). replace (ql_tail q) with (pv xs (length xs)) by (rewrite Htl; destruct (length xs) as [|m] eqn:Em; [by rewrite at_ge by lia|cbn [pv]; f_equal; lia]). split; [exact E|]. split; [done|]. unfold zlen in *. split; [lia|]. split; [lia|].
      rewrite s32_u64; lia. }
  destruct Hfind as (k & l & acc & j & -> & Hk & Hj & Hgk & Hoff). cbn [mbind option_bind]. destruct (entry_of h q xs ls k j l Hr (all_raw _ _ _ _ Hr Hc k) Hk Hj) as (a & n & zl & es & He). pose proof He as [Hcell _ Ez Hz Hst _].
  rewrite (at_cell _ _ _ _ Hcell), Hoff. rewrite (use_raw h xs k a n zl (Some a) Hh Hcell Ez eq_refl). cbn [mbind option_bind]. unfold deref. cbn [mbind option_bind]. rewrite (heap_get h xs k a n Hh Hcell). cbn [mbind option_bind]. rewrite raw_linked. unfold raw. rewrite Ez. cbn [mbind option_bind].
  assert (Hes : length es = length l) by (by rewrite <- Hst, strings_len).
  assert (Epl : place es (if idx <? 0 then Z.of_nat j - zlen l else Z.of_nat j) = Some j).
  { unfold place, zlen. rewrite Hes. destruct (idx <? 0); [rewrite (proj2 (Z.ltb_lt _ 0)) by lia; rewrite (proj2 (Z.leb_le 0 _)) by lia; f_equal; lia|]. rewrite (proj2 (Z.ltb_ge _ 0)), (proj2 (Z.ltb_lt _ _)) by lia. f_equal. lia. }
  assert (Hl16 : zlen l < 2 ^ 28) by (pose proof (concat_split ls k) as Esp; rewrite (concat_drop_S ls k l Hk), zlen_app in Esp; pose proof (zlen_nonneg (concat (take k ls))); pose proof (zlen_nonneg (concat (drop (S k) ls))); lia).
  rewrite (zl_index (be:=be) zl es _ Hz) by (unfold zlen in *; destruct (idx <? 0); lia). rewrite Epl. cbn [fmap option_fmap option_map mbind option_bind zl_get_opt].
  rewrite Hgk, (concat_lookup ls k l j Hk Hj) in Hx. destruct (get_at (be:=be) zl es j x Hz ltac:(by rewrite Hst)) as (v & Ev & Hv & Hvi). rewrite Ev. cbn [mbind option_bind].
  exists k, j, a, n, l, zl, es, v. done.
Qed.
Lemma index_miss h q xs ls idx : ql_rep h q xs ls -> - 2 ^ 63 < idx < 2 ^ 63 -> place (concat ls) idx = None -> quicklistIndex be junk h q idx = Some (h, initEntry, false).
Proof.
  intros Hr Hidx Hp. unfold quicklistIndex. rewrite (proj2 (Z.eqb_neq idx _)) by lia. rewrite (rp_total _ _ _ _ Hr). unfold place in Hp. rewrite Z.geb_leb.
  destruct (Z.ltb_spec idx 0); cbn [negb]; [destruct (Z.leb_spec 0 (zlen (concat ls) + idx))|destruct (Z.ltb_spec idx (zlen (concat ls)))]; try discriminate Hp; rewrite (proj2 (Z.leb_le _ _)) by lia; done.
Qed.
Lemma compress_off q h xs ls i a : shape h xs ls -> ql_compress q = 0 -> at_ xs i = Some a -> quicklistCompress junk hjunk q h (Some a) = Some h.
Proof. intros Hs Hc Ha. rewrite (compress_flag q h xs ls a i Hs Ha). unfold __quicklistCompress. by rewrite Hc. Qed.
Lemma keys_edit xs xs' i a n m : xs !! i = Some (a, n) -> keys xs' = <[i := key (a, m)]> (keys xs) -> xs'.*1 = xs.*1.
Proof.
  intros Hi K. apply (f_equal (fmap (fun k => k.1.1))) in K. rewrite list_fmap_insert, list_insert_id in K by (unfold keys; by rewrite !list_lookup_fmap, Hi).
  unfold keys in K. rewrite <- !list_fmap_compose in K. exact K.
Qed.
Lemma edit0 h q xs ls i a n l m l' : rep0 h q xs ls -> xs !! i = Some (a, n) -> ls !! i = Some l -> node_ok m l' -> (is_raw n -> is_raw m) -> q_count m = zlen l' -> 40 + weight (concat (<[i := l']> ls)) < 2 ^ 32 ->
  exists xs', rep0 (<[a := linked (pv xs i) (at_ xs (S i)) m]> h) q xs' (<[i := l']> ls) /\ keys xs' = <[i := key (a, m)]> (keys xs) /\ (forall j, raw_at xs j -> raw_at xs' j).
Proof.
  intros Hr Hi Hl Hm Hraw Hc Hw. destruct (rep_edit h _ xs ls i a n l m l' _ Hr Hi Hl Hm Hraw Hc eq_refl Hw) as (xs' & R' & _ & M' & K'). exists xs'. split; [eapply rep0_any; [exact R'|done]|]. done.
Qed.
Lemma rep0_of h q xs ls : ql_rep h q xs ls -> rep0 h q xs ls.
Proof. intros Hr. by apply rep_total in Hr as [Hr _]. Qed.
(** An element replaced. *)
Lemma replace_spec h q L idx data : qrep h q L -> ql_compress q = 0 -> - 2 ^ 63 < idx < 2 ^ 63 -> bytes_ok data -> 40 + weight L + zlen data + 18 < 2 ^ 32 ->
  exists h', quicklistReplaceAtIndex be junk hjunk h q idx data = Some (h', bool_decide (is_Some (place L idx))) /\ qrep h' q (match place L idx with Some g => <[g := data]> L | None => L end).
Proof.
  intros (xs & ls & Hr & <-) Hc Hidx Hd Hw. unfold quicklistReplaceAtIndex. destruct (place (concat ls) idx) as [g|] eqn:Ep.
  2:{ rewrite (index_miss h q xs ls idx Hr Hidx Ep). exists h. split; [done|]. by exists xs, ls. }
  destruct (lookup_lt_is_Some_2 (concat ls) g (place_lt _ _ _ Ep)) as [x Hx]. destruct (index_ok h q xs ls idx g x Hr Hc Hidx Ep Hx) as (i & j & a & n & l & zl & es & v & -> & He & Hg & Hj & _). pose proof He as [Hcell Hl Ez Hz Hst Hlt].
  cbn [mbind option_bind e_node e_zi]. rewrite (heap_get h xs i a n (proj1 (rp_shape _ _ _ _ Hr)) Hcell). cbn [mbind option_bind]. rewrite raw_linked. unfold raw at 1. rewrite Ez. cbn [mbind option_bind].
  destruct (lookup_lt_is_Some_2 es j ltac:(by rewrite <- strings_len, Hst)) as [e Hej]. pose proof (take_cons_split es j e Hej) as Ees. rewrite Ees in Hz. destruct (concat_at ls i l Hl) as [E1 E2]. rewrite E1, !weight_app in Hw. pose proof (weight_nonneg (concat (take i ls))). pose proof (weight_nonneg (concat (drop (S i) ls))).
  destruct (zl_replace be junk zl (take j es) e (drop (S j) es) data Hz Hd ltac:(rewrite <- Ees, Hst; lia)) as (zl1 & zl2 & -> & Hins & Hrep). cbn [mbind option_bind]. rewrite Hins. cbn [mbind option_bind]. rewrite strings_take, strings_drop, Hst in Hrep.
  set (l' := take j l ++ data :: drop (S j) l) in *. assert (El' : l' = <[j := data]> l) by (symmetry; by apply insert_take_drop). unfold set_ziplist. rewrite (rep_blob be zl2 l' Hrep). cbn [mbind option_bind].
  destruct (shape_node _ _ _ _ _ _ (rp_shape _ _ _ _ Hr) Hcell) as (l0 & Hl0 & Hn & _). assert (l0 = l) as -> by congruence. assert (Hll : zlen l' = zlen l) by (rewrite El'; unfold zlen; by rewrite length_insert).
  destruct (edit0 h q xs ls i a n l (with_zl n (ZRaw zl2) (zlen zl2)) l' (rep0_of _ _ _ _ Hr) Hcell Hl) as (xs' & R' & K' & M'); [|done|rewrite Hll; exact (key_count _ _ _ _ _ _ _ _ Hr Hcell Hl)| |].
  - constructor; [by exists zl2|apply Hn|intros E; rewrite E in Hll; pose proof (ok_nonempty _ _ Hn); destruct l; done|rewrite Hll; apply Hn].
  - rewrite E2, !weight_app. unfold l'. rewrite weight_app, weight_cons. rewrite (weight_split j l) in Hw. assert (weight (drop (S j) l) <= weight (drop j l)) by (rewrite (drop_S l x j Hj), weight_cons; pose proof (zlen_nonneg x); lia). lia.
  - change (with_zl (linked ?p ?y n) ?d ?s) with (linked p y (with_zl n d s)).
    rewrite (compress_off q _ xs' _ i a (rp_shape _ _ _ _ R') Hc) by (rewrite (at_fst xs xs'), (at_cell _ _ _ _ Hcell); [done|]; by eapply keys_edit). cbn [mbind option_bind].
    eexists. rewrite bool_decide_eq_true_2 by eauto. split; [done|]. exists xs', (<[i := l']> ls). assert (Econ : concat (<[i := l']> ls) = <[g := data]> (concat ls)).
    { rewrite E2, E1, Hg, El'. rewrite insert_app_r_alt by lia. f_equal. rewrite insert_app_l by lia. do 2 f_equal. lia. }
    split; [|done]. apply rep_total. split; [done|]. rewrite (rp_total _ _ _ _ Hr), Econ. unfold zlen. by rewrite length_insert.
Qed.

(** ** Merging *)
Lemma allow_merge n1 n2 l1 l2 fill : node_ok n1 l1 -> node_ok n2 l2 -> q_count n1 = zlen l1 -> q_count n2 = zlen l2 -> fill <= 32767 -> 40 + weight l1 + weight l2 < 2 ^ 32 ->
  _quicklistNodeAllowMerge (Some n1) (Some n2) fill = true -> zlen l1 + zlen l2 < 2 ^ 16.
Proof.
  intros H1 H2 C1 C2 Hfill Hw. destruct (ok_data _ _ H1) as (b1 & R1 & S1 & _). destruct (ok_data _ _ H2) as (b2 & R2 & S2 & _). destruct (represents_block b1 l1 R1) as (_ & L1 & W1). destruct (represents_block b2 l2 R2) as (_ & L2 & W2).
  pose proof (zlen_nonneg l1). pose proof (zlen_nonneg l2). unfold _quicklistNodeAllowMerge. cbv zeta. rewrite (wrapu_small 32) by lia. unfold _quicklistNodeSizeMeetsOptimizationRequirement, sizeMeetsSafetyLimit, SIZE_SAFETY_LIMIT.
  destruct (fill >=? 0) eqn:Ef; [|destruct (optimization_level !! Z.to_nat (- fill - 1)) as [level|] eqn:El].
  - destruct (_ <=? 8192) eqn:E8; cbn [negb]; [|done]. intros Hlt. zb. lia.
  - apply level_bound in El. destruct (_ <=? level) eqn:E1; [zb; lia|]. destruct (_ <=? 8192) eqn:E8; cbn [negb]; [|done]. zb. intros Hlt. apply Z.leb_le in Hlt. lia.
  - destruct (_ <=? 8192) eqn:E8; cbn [negb]; [|done]. intros Hlt. apply Z.leb_le in Hlt. zb. lia.
Qed.
Lemma decompress_off h xs i a n : ql_heap h xs -> raw_at xs i -> xs !! i = Some (a, n) -> quicklistDecompressNode junk h (Some a) = Some h.
Proof.
  intros Hh Hraw Hi. cbn [quicklistDecompressNode]. rewrite (heap_get h xs i a n Hh Hi). cbn [mbind option_bind]. change (q_zl (linked ?p ?x n)) with (q_zl n). pose proof (Hraw a n Hi) as Hr. unfold is_raw in Hr. by destruct (q_zl n).
Qed.
Lemma raw0 h q xs ls : rep0 h q xs ls -> ql_compress q = 0 -> forall j, raw_at xs j.
Proof. intros Hr Hc. apply (all_raw _ _ _ _ Hr). done. Qed.
(** Two neighbours become one: [keep] takes the contents of both. *)
Lemma keep_one h q xs ls k d a1 n1 l1 a2 n2 l2 zl sz2 : rep0 h q xs ls -> ql_compress q = 0 -> in_u 64 (ql_count q) -> xs !! k = Some (a1, n1) -> xs !! d = Some (a2, n2) -> k <> d -> ls !! k = Some l1 -> ls !! d = Some l2 ->
  forall l, represents zl l -> l <> [] -> zlen l < 2 ^ 16 -> zlen l = zlen l1 + zlen l2 -> weight l = weight l1 + weight l2 -> 40 + 2 * weight (concat ls) < 2 ^ 32 ->
  exists h' q' xs',
    (h ← update h (Some a1) (fun n => with_count (with_zl n (ZRaw zl) (zlen zl)) (u16 (zlen l))); h ← update h (Some a2) (fun n => with_count (with_zl n ZNull (sz2 n)) 0); '(h, q) ← __quicklistDelNode junk hjunk h q (Some a2);
     h ← quicklistCompress junk hjunk q h (Some a1); Some (h, q, Some a1)) = Some (h', q', Some a1) /\
    rep0 h' q' xs' (delete d (<[k := l]> ls)) /\ xs'.*1 = delete d xs.*1 /\ ql_count q' = ql_count q /\ same_opts q q'.
Proof.
  intros Hr Hc Hu H1 H2 Hkd L1 L2 l Hrep Hne Hsm Hlen Hwl Hw. pose proof Hr as [[Hh Hf] _ _ _ _ Hb _ _]. pose proof (concat_bound _ Hb). pose proof (zlen_nonneg l).
  destruct (shape_node h xs ls k a1 n1 (rp_shape _ _ _ _ Hr) H1) as (l0 & Hl0 & Hn1 & G1). assert (l0 = l1) as -> by congruence.
  destruct (concat_at ls k l1 L1) as [E1 E2].
  assert (Hw2 : weight l2 <= weight (concat ls)) by (rewrite (proj1 (concat_at ls d l2 L2)); apply weight_part).
  set (m := with_count (with_zl n1 (ZRaw zl) (zlen zl)) (u16 (zlen l))). assert (Em : q_count m = zlen l) by (cbn [q_count m with_count]; rewrite wrapu_small; lia).
  destruct (edit0 h q xs ls k a1 n1 l1 m l Hr H1 L1) as (xs1 & R1 & K1 & M1); [constructor; [by exists zl|apply Hn1|done|done]|done|done|rewrite E2; rewrite E1 in Hw, Hb, Hw2; rewrite !weight_app in *; lia|].
  set (h1 := <[a1 := linked (pv xs k) (at_ xs (S k)) m]> h) in *. pose proof (keys_edit _ _ _ _ _ _ H1 K1) as F1. assert (A2 : at_ xs1 d = Some a2) by (rewrite (at_fst _ _ F1); by eapply at_cell). destruct (cell_at _ _ _ A2) as [n2' H2'].
  pose proof (heap_get h1 xs1 d a2 n2' (proj1 (rp_shape _ _ _ _ R1)) H2') as G2.
  destruct (del_node0 (junk:=junk) (hjunk:=hjunk) h1 q xs1 (<[k := l]> ls) d a2 n2' l2 (with_count (with_zl n2' ZNull (sz2 (linked (pv xs1 d) (at_ xs1 (S d)) n2'))) 0) R1 H2' ltac:(by rewrite list_lookup_insert_ne)) as (h' & q' & xs' & Ed & R' & K' & C' & O').
  rewrite (ql_update_some h _ a1 _ G1). cbn [mbind option_bind]. change (with_count (with_zl (linked ?p ?x n1) ?dd ?s) ?c) with (linked p x (with_count (with_zl n1 dd s) c)). fold m h1. rewrite (ql_update_some h1 _ a2 _ G2). cbn [mbind option_bind].
  change (with_count (with_zl (linked ?p ?x n2') ?dd ?s) ?c) with (linked p x (with_count (with_zl n2' dd s) c)). rewrite Ed. cbn [mbind option_bind].
  assert (F' : xs'.*1 = delete d xs.*1) by (rewrite <- F1, <- fst_delete; apply keys_fst; by rewrite K', keys_delete).
  assert (Ha1 : exists i, at_ xs' i = Some a1).
  { destruct (decide (k < d)%nat) as [Hlt|Hge]; [exists k|exists (pred k)]; rewrite (at_fst (delete d xs) xs') by (by rewrite F', fst_delete); rewrite at_delete.
    - rewrite bool_decide_eq_true_2 by lia. by eapply at_cell.
    - rewrite bool_decide_eq_false_2 by lia. replace (S (pred k)) with k by lia. by eapply at_cell. }
  destruct Ha1 as [i Ha1]. destruct O' as [Of Oc]. rewrite (compress_off q' h' xs' _ i a1 (rp_shape _ _ _ _ R')) by (congruence || done). cbn [mbind option_bind].
  exists h', q', xs'. split; [done|]. split; [done|]. split; [done|]. split; [|by split]. rewrite C'. cbn [q_count with_count]. rewrite Z.sub_0_r. by apply wrapu_small.
Qed.
Lemma merge_concat {A} (ls : list (list A)) k l1 l2 : ls !! k = Some l1 -> ls !! S k = Some l2 ->
  concat (delete (S k) (<[k := l1 ++ l2]> ls)) = concat ls /\ concat (delete k (<[S k := l1 ++ l2]> ls)) = concat ls.
Proof.
  intros H1 H2. pose proof (lookup_lt_Some _ _ _ H2) as Hlt. rewrite !concat_delete. pose proof (drop_S ls l1 k H1) as D1. pose proof (drop_S ls l2 (S k) H2) as D2.
  assert (E : concat ls = concat (take k ls) ++ l1 ++ l2 ++ concat (drop (S (S k)) ls)) by (rewrite <- (take_drop k ls) at 1; rewrite concat_app, D1, D2; done). rewrite E. split.
  - rewrite (concat_take_S (<[k := l1 ++ l2]> ls) k (l1 ++ l2)) by (apply list_lookup_insert_eq; lia). rewrite take_insert_ge, drop_insert_lt by lia. by rewrite <- !app_assoc.
  - rewrite take_insert_ge by lia. rewrite (concat_drop_S (<[S k := l1 ++ l2]> ls) (S k) (l1 ++ l2)) by (apply list_lookup_insert_eq; lia). rewrite drop_insert_lt by lia. by rewrite <- !app_assoc.
Qed.
Lemma zmerge h q xs ls k l1 l2 : rep0 h q xs ls -> ql_compress q = 0 -> in_u 64 (ql_count q) -> ls !! k = Some l1 -> ls !! S k = Some l2 -> zlen l1 + zlen l2 < 2 ^ 16 -> 40 + 2 * weight (concat ls) < 2 ^ 32 ->
  exists h' q' xs' ls' t, _quicklistZiplistMerge be junk hjunk h q (at_ xs k) (at_ xs (S k)) = Some (h', q', t) /\ rep0 h' q' xs' ls' /\ concat ls' = concat ls /\
    (xs'.*1 = delete k xs.*1 \/ xs'.*1 = delete (S k) xs.*1) /\ t = at_ xs' k /\ ql_count q' = ql_count q /\ same_opts q q'.
Proof.
  intros Hr Hc Hu L1 L2 Hsm Hw. pose proof (shape_len _ _ _ (rp_shape _ _ _ _ Hr)) as Hlen. pose proof (lookup_lt_Some _ _ _ L2) as Hlt. pose proof (rp_shape _ _ _ _ Hr) as [Hh _].
  destruct (at_ex xs k ltac:(lia)) as [a1 A1]. destruct (cell_at _ _ _ A1) as [n1 H1]. destruct (at_ex xs (S k) ltac:(lia)) as [a2 A2]. destruct (cell_at _ _ _ A2) as [n2 H2].
  destruct (node_entry h _ xs ls k a1 n1 l1 Hr H1 L1 (raw0 _ _ _ _ Hr Hc k _ _ H1)) as (z1 & e1 & G1 & Z1 & Er1 & Hz1 & Hs1 & Hne1). destruct (node_entry h _ xs ls (S k) a2 n2 l2 Hr H2 L2 (raw0 _ _ _ _ Hr Hc (S k) _ _ H2)) as (z2 & e2 & G2 & Z2 & Er2 & Hz2 & Hs2 & Hne2).
  destruct (merge_concat ls k l1 l2 L1 L2) as [M1 M2].
  assert (Hwl : weight l1 + weight l2 <= weight (concat ls)) by (rewrite <- M1, concat_delete, (concat_take_S (<[k := l1 ++ l2]> ls) k (l1 ++ l2)), !weight_app by (apply list_lookup_insert_eq; lia); pose proof (weight_nonneg (concat (take k (<[k := l1 ++ l2]> ls)))); pose proof (weight_nonneg (concat (drop (S (S k)) (<[k := l1 ++ l2]> ls)))); lia).
  destruct (rep_merge be junk z1 z2 l1 l2 ltac:(by exists e1) ltac:(by exists e2) Hne2 ltac:(pose proof (weight_nonneg (concat ls)); lia)) as (zl & append & Emerge & Hrep). destruct (rep_length be zl _ Hrep) as (zl' & Elen & Hrep').
  unfold _quicklistZiplistMerge. rewrite A1, A2. rewrite (decompress_off h xs k a1 n1 Hh (raw0 _ _ _ _ Hr Hc k) H1). cbn [mbind option_bind]. rewrite (decompress_off h xs (S k) a2 n2 Hh (raw0 _ _ _ _ Hr Hc (S k)) H2). cbn [mbind option_bind].
  unfold deref. cbn [mbind option_bind]. rewrite G1, G2. cbn [mbind option_bind]. rewrite !raw_linked, Er1, Er2. cbn [mbind option_bind]. rewrite Emerge. cbn [mbind option_bind].
  assert (Hne : l1 ++ l2 <> []) by (destruct l1; done). assert (Hlz : zlen (l1 ++ l2) = zlen l1 + zlen l2) by apply zlen_app. assert (Hlw : weight (l1 ++ l2) = weight l1 + weight l2) by apply weight_app.
  assert (Hat : forall d xs', xs'.*1 = delete d xs.*1 -> forall i, at_ xs' i = at_ (delete d xs) i) by (intros d xs' F i; apply at_fst; by rewrite F, fst_delete).
  destruct append; rewrite Elen; cbn [mbind option_bind]; rewrite (rep_blob be zl' _ Hrep'); cbn [mbind option_bind].
  - destruct (keep_one h q xs ls k (S k) a1 n1 l1 a2 n2 l2 zl' q_sz Hr Hc Hu H1 H2 ltac:(lia) L1 L2 (l1 ++ l2) Hrep' Hne ltac:(lia) Hlz Hlw Hw) as (h' & q' & xs' & E' & R' & F' & C' & O').
    exists h', q', xs', (delete (S k) (<[k := l1 ++ l2]> ls)), (Some a1). split; [exact E'|]. split; [done|]. split; [done|]. split; [by right|]. split; [|done]. rewrite (Hat _ _ F'), at_delete, bool_decide_eq_true_2 by lia. done.
  - destruct (keep_one h q xs ls (S k) k a2 n2 l2 a1 n1 l1 zl' q_sz Hr Hc Hu H2 H1 ltac:(lia) L2 L1 (l1 ++ l2) Hrep' Hne ltac:(lia) ltac:(lia) ltac:(lia) Hw) as (h' & q' & xs' & E' & R' & F' & C' & O').
    exists h', q', xs', (delete k (<[S k := l1 ++ l2]> ls)), (Some a2). split; [exact E'|]. split; [done|]. split; [done|]. split; [by left|]. split; [|done]. rewrite (Hat _ _ F'), at_delete, bool_decide_eq_false_2 by lia. done.
Qed.
(** What a step of _quicklistMergeNodes may do: nothing, or one node less. *)
Definition merged_at (k : nat) (xs xs' : cells) (r : option ptr) : Prop :=
  match r with None => xs'.*1 = xs.*1 | Some t => t = at_ xs' k /\ (S k < length xs)%nat /\ exists d, (d = k \/ d = S k) /\ xs'.*1 = delete d xs.*1 end.
Lemma merge_if_none h q x y a b : (x = None \/ y = None) -> (forall p, x = Some p -> is_Some (h !! p)) -> (forall p, y = Some p -> is_Some (h !! p)) -> merge_if be junk hjunk h q x y a b = Some (h, q, None).
Proof.
  intros Hn Hx Hy. unfold merge_if, node_at. destruct x as [x|]; [destruct (Hx x eq_refl) as [nx ->]|]; cbn [mbind option_bind]; (destruct y as [y|]; [destruct (Hy y eq_refl) as [ny ->]|]; cbn [mbind option_bind]); try (destruct Hn; done); done.
Qed.
Lemma merge_if_spec h q xs ls k x y : rep0 h q xs ls -> ql_compress q = 0 -> in_u 64 (ql_count q) -> 40 + 2 * weight (concat ls) < 2 ^ 32 ->
  (x = at_ xs k /\ y = at_ xs (S k)) \/ (x = at_ xs (S k) /\ y = at_ xs k) ->
  exists h' q' xs' ls' r, merge_if be junk hjunk h q x y (at_ xs k) (at_ xs (S k)) = Some (h', q', r) /\ rep0 h' q' xs' ls' /\ concat ls' = concat ls /\ ql_count q' = ql_count q /\ same_opts q q' /\ merged_at k xs xs' r.
Proof.
  intros Hr Hc Hu Hw Hxy. pose proof (shape_len _ _ _ (rp_shape _ _ _ _ Hr)) as Hlen. pose proof (rp_shape _ _ _ _ Hr) as [Hh _]. pose proof (rp_fill _ _ _ _ Hr) as Hfl. cbn [ql_fill set_total] in Hfl.
  destruct (decide (S k < length xs)%nat) as [Hlt|Hge].
  2:{ rewrite merge_if_none.
      - exists h, q, xs, ls, None. exact (conj eq_refl (conj Hr (conj eq_refl (conj eq_refl (conj (conj eq_refl eq_refl) eq_refl))))).
      - rewrite (at_ge xs (S k)) in Hxy by lia. destruct Hxy as [[_ ->]|[-> _]]; auto.
      - intros p ->. destruct Hxy as [[E _]|[E _]]; by eapply at_some.
      - intros p ->. destruct Hxy as [[_ E]|[_ E]]; by eapply at_some. }
  destruct (at_ex xs k ltac:(lia)) as [a1 A1]. destruct (cell_at _ _ _ A1) as [n1 H1]. destruct (at_ex xs (S k) ltac:(lia)) as [a2 A2]. destruct (cell_at _ _ _ A2) as [n2 H2].
  destruct (shape_node _ _ _ _ _ _ (rp_shape _ _ _ _ Hr) H1) as (l1 & L1 & O1 & G1). destruct (shape_node _ _ _ _ _ _ (rp_shape _ _ _ _ Hr) H2) as (l2 & L2 & O2 & G2).
  pose proof (key_count _ _ _ _ _ _ _ _ Hr H1 L1) as C1. pose proof (key_count _ _ _ _ _ _ _ _ Hr H2 L2) as C2.
  assert (Hwl : weight l1 <= weight (concat ls) /\ weight l2 <= weight (concat ls)) by (split; [rewrite (proj1 (concat_at ls k l1 L1))|rewrite (proj1 (concat_at ls (S k) l2 L2))]; apply weight_part).
  assert (Hmerge : zlen l1 + zlen l2 < 2 ^ 16 -> exists h' q' xs' ls' r, ('(h, q, target) ← _quicklistZiplistMerge be junk hjunk h q (at_ xs k) (at_ xs (S k)); Some (h, q, Some target)) = Some (h', q', r) /\ rep0 h' q' xs' ls' /\ concat ls' = concat ls /\ ql_count q' = ql_count q /\ same_opts q q' /\ merged_at k xs xs' r).
  { intros Hs. destruct (zmerge h q xs ls k l1 l2 Hr Hc Hu L1 L2 Hs Hw) as (h' & q' & xs' & ls' & t & -> & R' & E' & F' & T' & C' & O'). cbn [mbind option_bind]. exists h', q', xs', ls', (Some t). split; [done|]. split; [exact R'|]. split; [done|]. split; [done|]. split; [done|]. split; [done|]. split; [done|]. destruct F' as [F'|F']; eexists; split; [by left|exact F'|by right|exact F']. }
  unfold merge_if. assert (N1 : node_at h (at_ xs k) = Some (Some (linked (pv xs k) (at_ xs (S k)) n1))) by (rewrite A1; cbn [node_at]; by rewrite G1). assert (N2 : node_at h (at_ xs (S k)) = Some (Some (linked (pv xs (S k)) (at_ xs (S (S k))) n2))) by (rewrite A2; cbn [node_at]; by rewrite G2).
  destruct Hxy as [[-> ->]|[-> ->]]; rewrite N1, N2; cbn [mbind option_bind]; (destruct (_quicklistNodeAllowMerge _ _ _) eqn:Eal; [|exists h, q, xs, ls, None; exact (conj eq_refl (conj Hr (conj eq_refl (conj eq_refl (conj (conj eq_refl eq_refl) eq_refl)))))]).
  - apply Hmerge. eapply (allow_merge (linked _ _ n1) (linked _ _ n2)); [by apply node_ok_linked|by apply node_ok_linked|done|done|apply Hfl|lia|exact Eal].
  - apply Hmerge. rewrite Z.add_comm. eapply (allow_merge (linked _ _ n2) (linked _ _ n1)); [by apply node_ok_linked|by apply node_ok_linked|done|done|apply Hfl|lia|exact Eal].
Qed.
Lemma at_removed d (xs xs' : cells) : xs'.*1 = delete d xs.*1 -> forall i, at_ xs' i = if bool_decide (i < d)%nat then at_ xs i else at_ xs (S i).
Proof. intros F i. rewrite <- fst_delete in F. rewrite (at_fst _ _ F). apply at_delete. Qed.
Lemma merged_after k xs xs' r : merged_at k xs xs' r -> forall i, (i < k)%nat -> at_ xs' i = at_ xs i.
Proof. destruct r as [t|]; [intros (_ & _ & d & Hd & F) i Hi; rewrite (at_removed _ _ _ F); by rewrite bool_decide_eq_true_2 by lia|intros F i _; by apply at_fst]. Qed.
Lemma ptr_next_at h xs i : ql_heap h xs -> ptr_next h (at_ xs i) = Some (at_ xs (S i)).
Proof. intros Hh. destruct (at_ xs i) as [a|] eqn:Ea; [|rewrite at_ge; [done|]; destruct (decide (i < length xs)%nat) as [Hi|]; [destruct (at_ex xs i Hi); congruence|lia]]. destruct (cell_at _ _ _ Ea) as [n Hn]. cbn [ptr_next]. by rewrite (heap_get h xs i a n Hh Hn). Qed.
Lemma ptr_prev_pv h xs i : ql_heap h xs -> (i <= length xs)%nat -> ptr_prev h (pv xs i) = Some (pv xs (pred i)).
Proof. intros Hh Hi. destruct i as [|i]; [done|]. cbn [pv pred]. destruct (at_ex xs i ltac:(lia)) as [a Ea]. destruct (cell_at _ _ _ Ea) as [n Hn]. rewrite Ea. cbn [ptr_prev]. by rewrite (heap_get h xs i a n Hh Hn). Qed.
Lemma deref_at h xs i a : ql_heap h xs -> at_ xs i = Some a -> exists n, deref h (Some a) = Some (linked (pv xs i) (at_ xs (S i)) n).
Proof. intros Hh Ea. destruct (cell_at _ _ _ Ea) as [n Hn]. exists n. unfold deref. cbn [mbind option_bind]. by apply heap_get. Qed.
(** A step that merges the two nodes before the place [i]. *)
Lemma merge_before h q xs ls i x y : rep0 h q xs ls -> ql_compress q = 0 -> in_u 64 (ql_count q) -> 40 + 2 * weight (concat ls) < 2 ^ 32 -> (0 < i <= length xs)%nat ->
  (x = pv xs i /\ y = pv xs (pred i)) ->
  exists h' q' xs' ls' r, merge_if be junk hjunk h q x y y x = Some (h', q', r) /\ rep0 h' q' xs' ls' /\ concat ls' = concat ls /\ ql_count q' = ql_count q /\ same_opts q q' /\
    ((r = None /\ xs'.*1 = xs.*1) \/ (r = Some (pv xs' (pred i)) /\ (1 < i)%nat /\ exists d, (d < i)%nat /\ xs'.*1 = delete d xs.*1)).
Proof.
  intros Hr Hc Hu Hw Hi [-> ->]. pose proof (rp_shape _ _ _ _ Hr) as [Hh _]. destruct i as [|[|i]]; [lia| |]; cbn [pv pred].
  - rewrite merge_if_none; [|by right|intros p Hp; by eapply at_some|done]. exists h, q, xs, ls, None. exact (conj eq_refl (conj Hr (conj eq_refl (conj eq_refl (conj (conj eq_refl eq_refl) (or_introl (conj eq_refl eq_refl))))))).
  - destruct (merge_if_spec h q xs ls i (at_ xs (S i)) (at_ xs i) Hr Hc Hu Hw ltac:(by right)) as (h' & q' & xs' & ls' & r & E' & R' & L' & C' & O' & M'). exists h', q', xs', ls', r. split; [exact E'|]. split; [done|]. split; [done|]. split; [done|]. split; [done|].
    destruct r as [t|]; [right|by left]. destruct M' as (-> & Hlt & d & Hd & F). split; [done|]. split; [lia|]. exists d. split; [lia|done].
Qed.
Lemma mergenodes_spec h q xs ls i a : rep0 h q xs ls -> ql_compress q = 0 -> in_u 64 (ql_count q) -> 40 + 2 * weight (concat ls) < 2 ^ 32 -> at_ xs i = Some a ->
  exists h' q' xs' ls', _quicklistMergeNodes be junk hjunk h q (Some a) = Some (h', q') /\ rep0 h' q' xs' ls' /\ concat ls' = concat ls /\ ql_count q' = ql_count q /\ same_opts q q'.
Proof.
  intros Hr Hc Hu Hw Ha. pose proof (rp_shape _ _ _ _ Hr) as [Hh _]. pose proof (at_lt _ _ _ Ha) as Hi. unfold _quicklistMergeNodes. destruct (deref_at h xs i a Hh Ha) as [n ->]. cbn [mbind option_bind].
  change (q_prev (linked ?p ?x n)) with p. change (q_next (linked ?p ?x n)) with x. rewrite (ptr_prev_pv h xs i Hh) by lia. cbn [mbind option_bind]. rewrite (ptr_next_at h xs (S i) Hh). cbn [mbind option_bind].
  assert (H1 : exists h1 q1 xs1 ls1 r i1, merge_if be junk hjunk h q (pv xs i) (pv xs (pred i)) (pv xs (pred i)) (pv xs i) = Some (h1, q1, r) /\ rep0 h1 q1 xs1 ls1 /\ concat ls1 = concat ls /\ ql_count q1 = ql_count q /\ same_opts q q1 /\
    forall j, at_ xs1 (i1 + j) = at_ xs (i + j)).
  { destruct i as [|i].
    - rewrite merge_if_none by (done || by left). exists h, q, xs, ls, None, 0%nat. done.
    - destruct (merge_before h q xs ls (S i) (pv xs (S i)) (pv xs i) Hr Hc Hu Hw ltac:(lia) ltac:(done)) as (h1 & q1 & xs1 & ls1 & r & E1 & R1 & L1 & C1 & O1 & [[-> F]|(_ & _ & d & Hd & F)]).
      + exists h1, q1, xs1, ls1, None, (S i). repeat (split; [done|]). intros j. by apply at_fst.
      + exists h1, q1, xs1, ls1, r, i. repeat (split; [done|]). intros j. rewrite (at_removed _ _ _ F). rewrite bool_decide_eq_false_2 by lia. done. }
  destruct H1 as (h1 & q1 & xs1 & ls1 & r1 & i1 & -> & R1 & L1 & C1 & [Of1 Oc1] & A1). cbn [mbind option_bind].
  assert (Ha1 : at_ xs1 i1 = Some a) by (rewrite <- (Nat.add_0_r i1), A1, Nat.add_0_r; done). rewrite <- (Nat.add_1_r i), <- (Nat.add_1_r (i + 1)), <- (Nat.add_assoc i 1 1), <- !A1, !Nat.add_succ_r, !Nat.add_0_r.
  destruct (merge_if_spec h1 q1 xs1 ls1 (S i1) (at_ xs1 (S i1)) (at_ xs1 (S (S i1))) R1 ltac:(congruence) ltac:(by rewrite C1) ltac:(by rewrite L1) ltac:(by left)) as (h2 & q2 & xs2 & ls2 & r2 & -> & R2 & L2 & C2 & [Of2 Oc2] & M2). cbn [mbind option_bind].
  assert (Ha2 : at_ xs2 i1 = Some a) by (rewrite (merged_after _ _ _ _ M2) by lia; done). pose proof (rp_shape _ _ _ _ R2) as [Hh2 _]. pose proof (at_lt _ _ _ Ha2) as Hi2. destruct (deref_at h2 xs2 i1 a Hh2 Ha2) as [n2 ->]. cbn [mbind option_bind]. change (q_prev (linked ?p ?x n2)) with p.
  rewrite <- Ha2. destruct (merge_before h2 q2 xs2 ls2 (S i1) (at_ xs2 i1) (pv xs2 i1) R2 ltac:(congruence) ltac:(by rewrite C2, C1) ltac:(by rewrite L2, L1) ltac:(lia) ltac:(done)) as (h3 & q3 & xs3 & ls3 & r3 & -> & R3 & L3 & C3 & [Of3 Oc3] & M3). cbn [mbind option_bind].
  assert (H3 : exists i3 b, match r3 with Some t => t | None => at_ xs2 i1 end = Some b /\ at_ xs3 i3 = Some b).
  { destruct M3 as [[-> F]|(-> & Hi1 & d & Hd & F)]; [exists i1, a; split; [done|]; by rewrite (at_fst _ _ F)|]. cbn [pred]. exists (pred i1). destruct i1 as [|i1]; [lia|]. cbn [pv pred]. pose proof (len_fst _ _ (eq_trans F (eq_sym (fst_delete d xs2)))) as Lx. destruct (cell_at _ _ _ Ha2) as [n0 H0].
    assert (Hd2 : exists z, xs2 !! d = Some z) by (apply lookup_lt_is_Some_2; lia). destruct Hd2 as [z Hz]. pose proof (length_del d xs2 z Hz). destruct (at_ex xs3 i1 ltac:(lia)) as [b Hb]. by exists b. }
  destruct H3 as (i3 & b & -> & Hb). pose proof (rp_shape _ _ _ _ R3) as [Hh3 _]. destruct (deref_at h3 xs3 i3 b Hh3 Hb) as [n3 ->]. cbn [mbind option_bind]. change (q_next (linked ?p ?x n3)) with x. rewrite <- Hb.
  destruct (merge_if_spec h3 q3 xs3 ls3 i3 (at_ xs3 i3) (at_ xs3 (S i3)) R3 ltac:(congruence) ltac:(by rewrite C3, C2, C1) ltac:(by rewrite L3, L2, L1) ltac:(by left)) as (h4 & q4 & xs4 & ls4 & r4 & -> & R4 & L4 & C4 & [Of4 Oc4] & _). cbn [mbind option_bind].
  exists h4, q4, xs4, ls4. split; [done|]. split; [done|]. split; [congruence|]. split; [congruence|]. split; congruence.
Qed.

(** ** Inserting beside an element *)
Lemma put_concat {A} (ls : list (list A)) i l j v : ls !! i = Some l -> (j <= length l)%nat ->
  put (length (concat (take i ls)) + j) v (concat ls) = concat (take i ls) ++ put j v l ++ concat (drop (S i) ls).
Proof.
  intros Hl Hj. rewrite (proj1 (concat_at ls i l Hl)). unfold put. rewrite take_app_add, drop_app_add, take_app_le, drop_app_le by lia. by rewrite <- !app_assoc.
Qed.
Lemma edit_node_spec h q xs ls i a n l f l' zl zl' w : ql_rep h q xs ls -> xs !! i = Some (a, n) -> ls !! i = Some l -> q_zl n = ZRaw zl -> f zl = Some zl' -> represents zl' l' -> zlen l' = zlen l + 1 -> zlen l + 1 < 2 ^ 16 ->
  weight l' = weight l + w -> 40 + weight (concat ls) + w < 2 ^ 32 ->
  exists h' xs', edit_node be junk hjunk h (Some a) f = Some h' /\ ql_rep h' (add_count q 1) xs' (<[i := l']> ls).
Proof.
  intros Hr Hi Hl Ez Hf Hrep Hlen Hsm Hwl Hw. destruct (shape_node _ _ _ _ _ _ (rp_shape _ _ _ _ Hr) Hi) as (l0 & Hl0 & Hn & Hg). assert (l0 = l) as -> by congruence. pose proof (key_count _ _ _ _ _ _ _ _ Hr Hi Hl) as Hc. pose proof (zlen_nonneg l).
  unfold edit_node. rewrite (use_raw h xs i a n zl (Some a) (proj1 (rp_shape _ _ _ _ Hr)) Hi Ez eq_refl). cbn [mbind option_bind]. rewrite Hg. cbn [mbind option_bind]. rewrite raw_linked. unfold raw at 1. rewrite Ez. cbn [mbind option_bind]. rewrite Hf. cbn [mbind option_bind]. unfold set_ziplist. rewrite (rep_blob be zl' l' Hrep). cbn [mbind option_bind].
  set (m := with_zl (with_count n (u16 (q_count n + 1))) (ZRaw zl') (zlen zl')). assert (Em : q_count m = zlen l') by (cbn [m q_count with_zl with_count]; rewrite Hc, wrapu_small; lia).
  destruct (rep_edit h q xs ls i a n l m l' 1 Hr Hi Hl) as (xs' & R' & F' & _); [|done|done|lia| |].
  - constructor; [by exists zl'|apply Hn| |lia]. intros E. rewrite E in Hlen. change (zlen []) with 0 in Hlen. lia.
  - destruct (concat_at ls i l Hl) as [E1 E2]. rewrite E2. rewrite E1 in Hw. rewrite !weight_app in *. lia.
  - eexists _, xs'. split; [|exact R']. unfold quicklistRecompressOnly, deref. cbn [mbind option_bind]. rewrite lookup_insert_eq. cbn [mbind option_bind]. change (q_recompress (with_zl (with_count (linked ?p ?x n) ?c) ?d ?s)) with (q_recompress n). by rewrite (ok_recompress _ _ Hn).
Qed.
Lemma rep_delete_range zl l i num : represents zl l -> - 2 ^ 31 < i < 2 ^ 31 -> in_u 32 num -> 40 + weight l < 2 ^ 32 ->
  exists zl', ziplistDeleteRange be junk zl i num = Some zl' /\ represents zl' (match place l i with None => l | Some k => take k l ++ drop (k + Z.to_nat num) l end).
Proof.
  intros Hr Hi Hn Hw. destruct (zl_step_refines be junk zl l (ZDeleteRange i num) Hr ltac:(done) ltac:(cbn [op_weight]; lia)) as (zl' & E & Hr'). cbn [run_op] in E. destruct (ziplistDeleteRange be junk zl i num) as [z|]; [|done]. injection E as <-. by exists z.
Qed.
Lemma insert0 h q xs ls i b m l after : rep0 h q xs ls -> h !! b = None -> node_ok m l -> is_raw m -> linked None None m = m -> q_count m = zlen l -> (i < length xs)%nat -> 40 + weight (concat ls) + weight l < 2 ^ 32 ->
  exists h' q' xs', __quicklistInsertNode junk hjunk (<[b := m]> h) q (at_ xs i) (Some b) after = Some (h', q') /\ rep0 h' q' xs' (put (if after then S i else i) l ls) /\ xs'.*1 = put (if after then S i else i) b xs.*1 /\
    ql_count q' = ql_count q /\ same_opts q q'.
Proof.
  intros Hr Hb Hm Hraw Hlk Hc Hi Hw. pose proof Hr as [Hs Hq He _ _ _ _ _]. apply (hdr_total q xs (zlen (concat ls))) in Hq. cbn [ql_compress set_total] in He. assert (Ek : place_new xs i after = if after then S i else i) by (destruct xs; [cbn in Hi; lia|done]).
  destruct (rep_nodes _ _ _ _ Hr) as [Hnn _]. pose proof (weight_len (concat ls)). pose proof (zlen_nonneg (concat ls)).
  assert (Hlw : 0 <= weight l) by apply weight_nonneg.
  destruct (insert_node (junk:=junk) (hjunk:=hjunk) h q xs ls i b m l after Hs Hq He Hb Hm Hraw Hlk ltac:(lia) ltac:(by left)) as (h' & q' & xs' & E' & S' & K' & Q' & En' & P' & C' & O').
  destruct (rep0_inserted (junk:=junk) (hjunk:=hjunk) h q xs ls i b m l after h' q' xs' Hr ltac:(apply place_le; by left) S' K' Q' En' P' O' Hc Hw) as [R' _]. rewrite Ek in *. exists h', q', xs'. split; [done|]. split; [done|]. split; [|done].
  rewrite <- (fst_put _ (b, m)). apply keys_fst. by rewrite keys_put.
Qed.
(** The node of an element split: the node keeps one side, a new node not yet
    linked has the other. *)
Lemma split_spec (h : qheap) (q : quicklist) (xs : cells) ls i j (a : loc) n l zl es (after : bool) : ql_rep h q xs ls -> at_entry xs ls i j a n l zl es ->
  exists (az nz : list Z), let na := with_zl (with_count n (zlen (if after then take (S j) l else drop j l))) (ZRaw az) (zlen az) in let h1 := <[a := linked (pv xs i) (at_ xs (S i)) na]> h in let lb := if after then drop (S j) l else take j l in
    _quicklistSplitNode be junk h (Some a) (Z.of_nat j) after = Some (<[znode h1 := mk_qnode None None (ZRaw nz) (zlen nz) (zlen lb) false]> h1, znode h1) /\
    represents az (if after then take (S j) l else drop j l) /\ represents nz lb.
Proof.
  intros Hr [Hi Hl Ez Hz Hst Hj]. destruct (shape_node _ _ _ _ _ _ (rp_shape _ _ _ _ Hr) Hi) as (l0 & Hl0 & Hn & Hg). assert (l0 = l) as -> by congruence. pose proof (ok_small _ _ Hn) as Hsm. assert (Hjz : Z.of_nat j < 2 ^ 16) by (unfold zlen in Hsm; lia).
  destruct (ok_data _ _ Hn) as (blk & Hrep & Hsz & Hd). rewrite Ez in Hd. cbn in Hd. subst blk. assert (Hwl : 40 + weight l < 2 ^ 32) by (pose proof (rp_bound _ _ _ _ Hr) as Hw; rewrite (proj1 (concat_at ls i l Hl)) in Hw; pose proof (weight_part (concat (take i ls)) l (concat (drop (S i) ls))); lia).
  assert (Eload : load zl 0 (q_sz n) = Some zl) by (rewrite Hsz; rewrite <- (app_nil_r zl) at 1; by apply load_prefix).
  assert (Hm1 : u32 (-1) = 2 ^ 32 - 1) by done.
  assert (Hkeep : exists az, ziplistDeleteRange be junk zl (if after then s32 (Z.of_nat j + 1) else 0) (u32 (if after then -1 else Z.of_nat j)) = Some az /\ represents az (if after then take (S j) l else drop j l)).
  { destruct after.
    - rewrite wraps_small by (unfold in_s; lia). destruct (rep_delete_range zl l (Z.of_nat j + 1) (u32 (-1)) Hrep ltac:(lia) ltac:(rewrite Hm1; unfold in_u; lia) Hwl) as (az & E & R). exists az. split; [exact E|]. revert R. unfold place. rewrite (proj2 (Z.ltb_ge _ 0)) by lia. destruct (Z.ltb_spec (Z.of_nat j + 1) (zlen l)) as [Hlt|Hge]; intros R.
      + replace (Z.to_nat (Z.of_nat j + 1)) with (S j) in R by lia. rewrite drop_ge, app_nil_r in R by (rewrite Hm1; unfold zlen in *; lia). exact R.
      + rewrite take_ge by (unfold zlen in *; lia). exact R.
    - rewrite wrapu_small by lia. destruct (rep_delete_range zl l 0 (Z.of_nat j) Hrep ltac:(lia) ltac:(unfold in_u; lia) Hwl) as (az & E & R). exists az. split; [exact E|]. rewrite place_first in R by (by destruct l; [cbn in Hj; lia|]). rewrite take_0, Nat2Z.id in R. exact R. }
  assert (Hnew : exists nz, ziplistDeleteRange be junk zl (if after then 0 else Z.of_nat j) (u32 (if after then s32 (Z.of_nat j + 1) else -1)) = Some nz /\ represents nz (if after then drop (S j) l else take j l)).
  { destruct after.
    - rewrite wraps_small by (unfold in_s; lia). rewrite wrapu_small by lia. destruct (rep_delete_range zl l 0 (Z.of_nat j + 1) Hrep ltac:(lia) ltac:(unfold in_u; lia) Hwl) as (az & E & R). exists az. split; [exact E|]. rewrite place_first in R by (by destruct l; [cbn in Hj; lia|]). rewrite take_0 in R. replace (0 + Z.to_nat (Z.of_nat j + 1))%nat with (S j) in R by lia. exact R.
    - destruct (rep_delete_range zl l (Z.of_nat j) (u32 (-1)) Hrep ltac:(lia) ltac:(rewrite Hm1; unfold in_u; lia) Hwl) as (az & E & R). exists az. split; [exact E|]. revert R. unfold place. rewrite (proj2 (Z.ltb_ge _ 0)), (proj2 (Z.ltb_lt _ (zlen l))) by (unfold zlen; lia). rewrite Nat2Z.id, (drop_ge l), app_nil_r by (rewrite Hm1; unfold zlen in *; lia). done. }
  destruct Hkeep as (az0 & Ea0 & Ra0). destruct Hnew as (nz0 & En0 & Rn0). destruct (rep_length be az0 _ Ra0) as (az & Ea & Ra). destruct (rep_length be nz0 _ Rn0) as (nz & En & Rn). exists az, nz. cbv zeta. split; [|done].
  unfold _quicklistSplitNode. cbn [mbind option_bind]. rewrite Hg. cbn [mbind option_bind]. rewrite raw_linked. unfold raw at 1. rewrite Ez. cbn [mbind option_bind]. change (q_sz (linked ?p ?x n)) with (q_sz n). rewrite Eload. cbn [mbind option_bind]. rewrite Ea0. cbn [mbind option_bind]. rewrite Ea. cbn [mbind option_bind]. unfold set_ziplist. rewrite (rep_blob be az _ Ra). cbn [mbind option_bind]. rewrite En0. cbn [mbind option_bind]. rewrite En. cbn [mbind option_bind]. rewrite (rep_blob be nz _ Rn). cbn [mbind option_bind].
  unfold quicklistCreateNode. rewrite update_new. cbn [mbind option_bind]. rewrite !(wrapu_small 16) by (unfold zlen in *; destruct after; rewrite ?length_take, ?length_drop; lia). done.
Qed.
(** The sum of the pieces of a split node. *)
Lemma split_contents {A} (ls : list (list A)) i l j v (after : bool) : ls !! i = Some l -> (j < length l)%nat ->
  concat (put (if after then S i else i) (if after then v :: drop (S j) l else take j l ++ [v]) (<[i := if after then take (S j) l else drop j l]> ls)) =
  put (length (concat (take i ls)) + (if after then S j else j)) v (concat ls).
Proof.
  intros Hl Hj. pose proof (lookup_lt_Some _ _ _ Hl) as Hlt. rewrite (put_concat ls i l) by (done || destruct after; lia). rewrite concat_put. destruct after.
  - rewrite (concat_take_S (<[i := take (S j) l]> ls) i (take (S j) l)) by (by apply list_lookup_insert_eq). rewrite take_insert_ge, drop_insert_lt by lia. unfold put. by rewrite <- !app_assoc.
  - rewrite take_insert_ge by lia. rewrite (concat_drop_S (<[i := drop j l]> ls) i (drop j l)) by (by apply list_lookup_insert_eq). rewrite drop_insert_lt by lia. unfold put. by rewrite <- !app_assoc.
Qed.
Lemma insert_split h q xs ls i j a n l zl es v after : ql_rep h q xs ls -> ql_compress q = 0 -> at_entry xs ls i j a n l zl es -> bytes_ok v -> 40 + 2 * (weight (concat ls) + zlen v + 18) < 2 ^ 32 ->
  exists h' q', (h ← quicklistDecompressNodeForUse junk h (Some a); '(h, new_node) ← _quicklistSplitNode be junk h (Some a) (Z.of_nat j) after; h ← push_in_node be junk h (Some new_node) v (if after then ZIPLIST_HEAD else ZIPLIST_TAIL);
     h ← incr_node h (Some new_node) 1; '(h, q) ← __quicklistInsertNode junk hjunk h q (Some a) (Some new_node) after; _quicklistMergeNodes be junk hjunk h q (Some a)) = Some (h', q') /\
    qrep h' (add_count q' 1) (put (length (concat (take i ls)) + (if after then S j else j)) v (concat ls)) /\ same_opts q q'.
Proof.
  intros Hr Hc He Hv Hw. pose proof He as [Hi Hl Ez Hz Hst Hj]. pose proof (zlen_nonneg v). pose proof (weight_nonneg (concat ls)) as Hw0.
  destruct (shape_node _ _ _ _ _ _ (rp_shape _ _ _ _ Hr) Hi) as (l0 & Hl0 & Hn & Hg). assert (l0 = l) as -> by congruence. pose proof (ok_small _ _ Hn) as Hsm. destruct (concat_at ls i l Hl) as [E1 E2].
  rewrite (use_raw h xs i a n zl (Some a) (proj1 (rp_shape _ _ _ _ Hr)) Hi Ez eq_refl). cbn [mbind option_bind]. destruct (split_spec h q xs ls i j a n l zl es after Hr He) as (az & nz & Hsplit). cbv zeta in Hsplit. destruct Hsplit as (Es & Ra & Rn).
  set (la := if after then take (S j) l else drop j l) in *. set (lb := if after then drop (S j) l else take j l) in *. set (na := with_zl _ (ZRaw az) _) in Es. set (h1 := <[a := _]> h) in Es.
  assert (Hlab : (length la + length lb = length l)%nat /\ la <> [] /\ weight la + weight lb = weight l).
  { unfold la, lb. assert (Hnn : forall k : list (list Z), (0 < length k)%nat -> k <> []) by (intros [|] Hk; [cbn in Hk; lia|done]).
    destruct after; [pose proof (weight_split (S j) l)|pose proof (weight_split j l)]; (split; [rewrite length_take, length_drop; lia|]); (split; [apply Hnn; rewrite ?length_take, ?length_drop; lia|lia]). }
  destruct Hlab as (Hlab & Hlane & Hwab). assert (Hla0 : (0 < length la)%nat) by (destruct la; [done|cbn; lia]). rewrite Es. cbn [mbind option_bind].
  set (lb' := if after then v :: drop (S j) l else take j l ++ [v]).
  assert (Elb' : lb' = match (if after then ZIPLIST_HEAD else ZIPLIST_TAIL) with ZIPLIST_HEAD => v :: lb | ZIPLIST_TAIL => lb ++ [v] end) by (unfold lb', lb; by destruct after).
  assert (Hlb' : zlen lb' = zlen lb + 1 /\ weight lb' = weight lb + (zlen v + 18)) by (rewrite Elb'; destruct after; rewrite ?zlen_app, ?weight_app, ?zlen_cons, ?weight_cons; change (zlen []) with 0; change (weight []) with 0; lia). destruct Hlb' as [Hlb' Hwb'].
  assert (Hwl : 0 <= weight l <= weight (concat ls)) by (rewrite E1; apply weight_part). pose proof (weight_nonneg la) as Hwa0. pose proof (weight_nonneg lb) as Hwb0.
  destruct (rep_push_at (be:=be) (junk:=junk) nz lb v (if after then ZIPLIST_HEAD else ZIPLIST_TAIL) Rn Hv ltac:(lia)) as (nz' & Ep & Rn'). rewrite <- Elb' in Rn'.
  unfold push_in_node. cbn [mbind option_bind]. rewrite lookup_insert_eq. cbn [mbind option_bind raw q_zl]. rewrite Ep. cbn [mbind option_bind]. unfold set_ziplist. rewrite (rep_blob be nz' lb' Rn'). cbn [mbind option_bind]. rewrite insert_insert_eq. unfold incr_node. rewrite update_new. cbn [mbind option_bind].
  set (b := znode h1) in *. set (m := with_count _ _). assert (Em : q_count m = zlen lb') by (unfold m; cbn [q_count with_count with_zl]; rewrite wrapu_small; unfold zlen in *; lia).
  destruct (edit0 h q xs ls i a n l na la (rep0_of _ _ _ _ Hr) Hi Hl) as (xs1 & R1 & K1 & M1); [constructor; [by exists az|apply Hn|done|unfold zlen in *; lia]|done|done|rewrite E2; rewrite E1 in Hw; rewrite !weight_app in *; lia|]. fold h1 in R1.
  pose proof (keys_edit _ _ _ _ _ _ Hi K1) as F1. pose proof (len_fst _ _ F1) as L1. pose proof (lookup_lt_Some _ _ _ Hi) as Hlt. assert (Ha1 : at_ xs1 i = Some a) by (rewrite (at_fst _ _ F1); by eapply at_cell).
  assert (Hwc : weight (concat (<[i := la]> ls)) + weight lb = weight (concat ls)) by (rewrite E2, E1, !weight_app; lia).
  destruct (insert0 h1 q xs1 (<[i := la]> ls) i b m lb' after R1 (znode_fresh h1)) as (h2 & q2 & xs2 & Eins & R2 & F2 & C2 & [Of2 Oc2]); [constructor; [by exists nz'|done|intros E; rewrite E in Hlb'; change (zlen []) with 0 in Hlb'; pose proof (zlen_nonneg lb); lia|unfold zlen in *; lia]|done|done|done|lia|lia|].
  rewrite Ha1 in Eins. rewrite Eins. cbn [mbind option_bind]. pose proof (split_contents ls i l j v after Hl Hj) as Econ. fold la lb' in Econ.
  assert (Hwt : weight (concat (put (if after then S i else i) lb' (<[i := la]> ls))) = weight (concat ls) + (zlen v + 18)) by (rewrite Econ, (put_concat ls i l), E1 by (done || destruct after; lia); rewrite !weight_app; unfold put; rewrite weight_app, weight_cons, (weight_split (if after then S j else j) l); lia).
  assert (Ha2 : exists i2, at_ xs2 i2 = Some a).
  { exists (if after then i else S i). rewrite (at_fst (put (if after then S i else i) (b, m) xs1) xs2) by (rewrite F2, fst_put; done). rewrite at_put by (destruct after; lia). destruct after; [by rewrite bool_decide_eq_true_2 by lia|by rewrite bool_decide_eq_false_2, bool_decide_eq_false_2 by lia]. }
  destruct Ha2 as [i2 Ha2]. pose proof (concat_bound _ (rp_bound _ _ _ _ Hr)) as Hcb. pose proof (rp_total _ _ _ _ Hr) as Ht.
  destruct (mergenodes_spec h2 q2 xs2 _ i2 a R2 ltac:(congruence) ltac:(rewrite C2, Ht; unfold in_u; lia) ltac:(rewrite Hwt; lia) Ha2) as (h3 & q3 & xs3 & ls3 & Emn & R3 & L3 & C3 & [Of3 Oc3]).
  exists h3, q3. split; [exact Emn|]. split; [|split; congruence]. exists xs3, ls3. split; [|congruence]. apply rep_total. split; [exact R3|]. rewrite L3, Econ.
  assert (Elen : zlen (put (length (concat (take i ls)) + (if after then S j else j)) v (concat ls)) = zlen (concat ls) + 1) by (unfold zlen; rewrite length_put; lia). rewrite Elen. apply total_step; [congruence|lia].
Qed.
Lemma node_at_at h xs k : ql_heap h xs -> exists o, node_at h (at_ xs k) = Some o /\ match o with None => at_ xs k = None | Some n => exists a n', xs !! k = Some (a, n') /\ n = linked (pv xs k) (at_ xs (S k)) n' end.
Proof.
  intros Hh. destruct (at_ xs k) as [a|] eqn:Ea; [|by exists None]. destruct (cell_at _ _ _ Ea) as [n Hn]. cbn [node_at]. rewrite (heap_get h xs k a n Hh Hn). cbn [mbind option_bind]. eexists. split; [done|]. by exists a, n.
Qed.
Lemma edit_result h q ls i l l' g v xs' : ls !! i = Some l -> ql_rep h q xs' (<[i := l']> ls) -> concat (take i ls) ++ l' ++ concat (drop (S i) ls) = put g v (concat ls) -> qrep h q (put g v (concat ls)).
Proof. intros Hl R' E. exists xs', (<[i := l']> ls). split; [done|]. by rewrite (proj2 (concat_at ls i l Hl)). Qed.
Lemma ql_insert_entry h q xs ls i j a n l zl es v0 v after : ql_rep h q xs ls -> ql_compress q = 0 -> at_entry xs ls i j a n l zl es -> bytes_ok v -> 40 + 2 * (weight (concat ls) + zlen v + 18) < 2 ^ 32 ->
  exists h' q', _quicklistInsert be junk hjunk h q (mk_entry (Some a) (Some (10 + sz (take j es))) v0 (Z.of_nat j)) v after = Some (h', q') /\ same_opts q q' /\
    qrep h' q' (put (length (concat (take i ls)) + (if after then S j else j)) v (concat ls)).
Proof.
  intros Hr Hc He Hv Hw. pose proof He as [Hi Hl Ez Hz Hst Hj]. pose proof (zlen_nonneg v). pose proof (weight_nonneg (concat ls)) as Hw0. pose proof Hr as [[Hh Hf] _ _ _ _ _ _ Hfl].
  destruct (shape_node _ _ _ _ _ _ (rp_shape _ _ _ _ Hr) Hi) as (l0 & Hl0 & Hn & Hg). assert (l0 = l) as -> by congruence. pose proof (key_count _ _ _ _ _ _ _ _ Hr Hi Hl) as Hcnt. destruct (concat_at ls i l Hl) as [E1 E2]. assert (Hwl : 0 <= weight l <= weight (concat ls)) by (rewrite E1; apply weight_part).
  unfold _quicklistInsert. cbn [e_node e_zi e_offset]. rewrite Hg. cbn [mbind option_bind]. change (q_next (linked ?p ?x n)) with x. change (q_prev (linked ?p ?x n)) with p. change (q_count (linked ?p ?x n)) with (q_count n).
  destruct (node_at_at h xs (S i) Hh) as (on & -> & _). cbn [mbind option_bind].
  assert (Hprev : exists op, node_at h (pv xs i) = Some op /\ (forall np, op = Some np -> exists i0 a0 n0, i = S i0 /\ xs !! i0 = Some (a0, n0) /\ np = linked (pv xs i0) (at_ xs (S i0)) n0) /\ (op = None -> pv xs i = None)).
  { destruct i as [|i0]; [exists None; done|]. cbn [pv]. destruct (node_at_at h xs i0 Hh) as (op & Eop & Hop). exists op. split; [done|]. destruct op as [np|]; [|done]. destruct Hop as (a0 & n0 & Hx0 & ->). split; [|done]. intros np' [= <-]. by exists i0, a0, n0. }
  destruct Hprev as (op & -> & Hop & Hopn). cbn [mbind option_bind]. rewrite (proj2 (Z.eqb_neq (Z.of_nat j) (q_count n))) by (rewrite Hcnt; unfold zlen; lia). rewrite !andb_false_r. cbn [andb orb].
  set (g := (length (concat (take i ls)) + (if after then S j else j))%nat).
  assert (Hins : forall (R : option (qheap * quicklist)), (exists h' q', R = Some (h', q') /\ qrep h' (add_count q' 1) (put g v (concat ls)) /\ same_opts q q') -> exists h' q', ('(h, q) ← R; Some (h, add_count q 1)) = Some (h', q') /\ same_opts q q' /\ qrep h' q' (put g v (concat ls))).
  { intros R (h' & q' & -> & R' & O'). cbn [mbind option_bind]. exists h', (add_count q' 1). done. }
  apply Hins. clear Hins. destruct (_quicklistNodeAllowInsert (Some _) (ql_fill q) (zlen v)) eqn:Eal; cbn [negb andb].
  - assert (Hsm : zlen l + 1 < 2 ^ 16) by (eapply (allow_insert (linked _ _ n) l (ql_fill q) v); [by apply node_ok_linked|done|lia|lia|exact Eal]).
    assert (Hput : forall k, zlen (put k v l) = zlen l + 1 /\ weight (put k v l) = weight l + (zlen v + 18)) by (intros k; unfold zlen; rewrite length_put; split; [lia|]; unfold put; rewrite weight_app, weight_cons, (weight_split k l); unfold zlen; lia).
    assert (Hres : forall k f zl', f zl = Some zl' -> represents zl' (put k v l) -> (k <= length l)%nat -> exists h', edit_node be junk hjunk h (Some a) f = Some h' /\ qrep h' (add_count q 1) (put (length (concat (take i ls)) + k) v (concat ls))).
    { intros k f zl' Ef Rz Hk. destruct (Hput k) as [Hz1 Hz2]. destruct (edit_node_spec h q xs ls i a n l f (put k v l) zl zl' _ Hr Hi Hl Ez Ef Rz Hz1 Hsm Hz2 ltac:(lia)) as (h' & xs' & Ee & R'). exists h'. split; [done|]. eapply edit_result; [exact Hl|exact R'|]. by rewrite (put_concat ls i l k v Hl Hk). }
    destruct after; cbn [negb].
    + destruct (lookup_lt_is_Some_2 es j ltac:(by rewrite <- strings_len, Hst)) as [e Hej]. pose proof Hz as Hz0. rewrite (take_cons_split es j e Hej) in Hz0.
      assert (Hf' : exists zl', (next ← ziplistNext zl (10 + sz (take j es)); match next with None => ziplistPush be junk zl v ZIPLIST_TAIL | Some next => ziplistInsert be junk zl next v end) = Some zl' /\ represents zl' (put (S j) v l)).
      { rewrite (zl_next (be:=be) zl _ e _ Hz0). cbn [mbind option_bind]. rewrite <- (take_S_r es j e Hej). destruct (drop (S j) es) as [|y r] eqn:Ed.
        - destruct (rep_push_at (be:=be) (junk:=junk) zl l v ZIPLIST_TAIL ltac:(by exists es) Hv ltac:(lia)) as (zl' & -> & R'). exists zl'. split; [done|]. apply (f_equal length) in Ed. rewrite length_drop, <- strings_len, Hst in Ed. cbn in Ed. unfold put. rewrite take_ge, drop_ge by lia. exact R'.
        - destruct (rep_insert (be:=be) (junk:=junk) zl es (S j) v Hz Hv ltac:(rewrite Hst; lia)) as (zl' & -> & R'). exists zl'. split; [done|]. rewrite Hst in R'. exact R'. }
      destruct Hf' as (zl' & Ef & Rz). destruct (Hres (S j) (fun zl => next ← ziplistNext zl (10 + sz (take j es)); match next with None => ziplistPush be junk zl v ZIPLIST_TAIL | Some next => ziplistInsert be junk zl next v end) zl' Ef Rz ltac:(lia)) as (h' & -> & R'). cbn [mbind option_bind]. exists h', q. done.
    + destruct (rep_insert (be:=be) (junk:=junk) zl es j v Hz Hv ltac:(rewrite Hst; lia)) as (zl' & Ef & Rz). rewrite Hst in Rz. destruct (Hres j (fun zl => ziplistInsert be junk zl (10 + sz (take j es)) v) zl' Ef Rz ltac:(lia)) as (h' & -> & R'). cbn [mbind option_bind]. exists h', q. done.
  - destruct (insert_split h q xs ls i j a n l zl es v after Hr Hc He Hv Hw) as (hs & qs & Esplit & Rsplit & Osplit). fold g in Rsplit.
    destruct after; cbn [negb andb].
    { exists hs, qs. done. }
    destruct (Z.eqb_spec (Z.of_nat j) 0) as [Ej|Ej]; cbn [andb orb]; [|exists hs, qs; done].
    assert (j = 0%nat) as -> by lia. destruct op as [np|].
    2:{ rewrite (Hopn eq_refl). cbn [andb]. rewrite bool_decide_eq_false_2 by (by intros [? ?]). cbn [andb]. exists hs, qs. done. }
    destruct (Hop np eq_refl) as (i0 & a0 & n0 & -> & Hx0 & ->). cbn [pv]. rewrite (at_cell _ _ _ _ Hx0). rewrite bool_decide_eq_true_2 by eauto. cbn [andb orb].
    destruct (_quicklistNodeAllowInsert (Some (linked (pv xs i0) (at_ xs (S i0)) n0)) (ql_fill q) (zlen v)) eqn:Eal0; cbn [negb andb orb].
    + clear Hl0. destruct (shape_node _ _ _ _ _ _ (rp_shape _ _ _ _ Hr) Hx0) as (l0 & Hl0 & Hn0 & Hg0). pose proof (key_count _ _ _ _ _ _ _ _ Hr Hx0 Hl0) as Hcnt0. destruct (raw_ok n0 l0 Hn0 (all_raw _ _ _ _ Hr Hc i0 _ _ Hx0)) as (zl0 & Ez0 & _ & Rz0 & _). assert (Hwl0 : 0 <= weight l0 <= weight (concat ls)) by (rewrite (proj1 (concat_at ls i0 l0 Hl0)); apply weight_part).
      assert (Hsm : zlen l0 + 1 < 2 ^ 16) by (eapply (allow_insert (linked _ _ n0) l0 (ql_fill q) v); [by apply node_ok_linked|done|lia|lia|exact Eal0]).
      destruct (rep_push_at (be:=be) (junk:=junk) zl0 l0 v ZIPLIST_TAIL Rz0 Hv ltac:(lia)) as (zl' & Ef & Rz).
      destruct (edit_node_spec h q xs ls i0 a0 n0 l0 (fun zl => ziplistPush be junk zl v ZIPLIST_TAIL) (l0 ++ [v]) zl0 zl' (zlen v + 18) Hr Hx0 Hl0 Ez0 Ef Rz) as (h' & xs' & -> & R'); [rewrite zlen_app; done|done|rewrite weight_app, weight_cons; change (weight []) with 0; lia|lia|]. cbn [mbind option_bind]. exists h', q. split; [done|]. split; [|done].
      eapply edit_result; [exact Hl0|exact R'|]. unfold g. rewrite (put_concat ls (S i0) l) by (done || lia). rewrite (concat_take_S ls i0 l0 Hl0), (concat_drop_S ls (S i0) l Hl). unfold put. rewrite take_0, drop_0. by rewrite <- !app_assoc.
    + destruct (new_node (be:=be) (junk:=junk) h v ZIPLIST_HEAD Hv ltac:(lia)) as (nz & Rn & -> & Hm). cbn [mbind option_bind]. unfold incr_node. rewrite update_new. cbn [mbind option_bind].
      set (m := with_count _ _). pose proof (lookup_lt_Some _ _ _ Hi) as Hlt.
      destruct (insert0 h q xs ls (S i0) (znode h) m [v] false (rep0_of _ _ _ _ Hr) (znode_fresh h)) as (h' & q' & xs' & Eins & R' & F' & C' & O'); [by destruct Hm|done|done|done|done|rewrite weight_cons; change (weight []) with 0; lia|].
      rewrite (at_cell _ _ _ _ Hi) in Eins. rewrite Eins. exists h', q'. split; [done|]. split; [|done]. exists xs', (put (S i0) [v] ls). assert (Ecc : concat (put (S i0) [v] ls) = put g v (concat ls)).
      { unfold g. rewrite (put_concat ls (S i0) l) by (done || lia). rewrite concat_put, (concat_drop_S ls (S i0) l Hl). unfold put. rewrite take_0, drop_0. done. }
      split; [|exact Ecc]. apply rep_total. split; [exact R'|]. rewrite Ecc. assert (Elen : zlen (put g v (concat ls)) = zlen (concat ls) + 1) by (unfold zlen; rewrite length_put; lia). rewrite Elen. pose proof (concat_bound _ (rp_bound _ _ _ _ Hr)). apply total_step; [rewrite C'; apply (rp_total _ _ _ _ Hr)|lia].
Qed.

(** ** Deleting a range *)
(** A part of a node, and the node with it when nothing is left. *)
Lemma del_part h q xs ls k a n l zl off j del : ql_rep h q xs ls -> xs !! k = Some (a, n) -> ls !! k = Some l -> q_zl n = ZRaw zl -> place l off = Some j -> - 2 ^ 31 < off < 2 ^ 31 -> (0 < del)%nat -> (j + del <= length l)%nat ->
  exists h' q' xs', (h ← quicklistDecompressNodeForUse junk h (Some a); n ← h !! a; zl ← raw n; zl ← ziplistDeleteRange be junk zl off (u32 (Z.of_nat del)); n ← set_ziplist be n zl;
      let n := with_count n (u16 (q_count n - Z.of_nat del)) in let h := <[a := n]> h in let q := add_count q (- Z.of_nat del) in
      if q_count n =? 0 then __quicklistDelNode junk hjunk h q (Some a) else h ← quicklistRecompressOnly junk hjunk h (Some a); Some (h, q)) = Some (h', q') /\ same_opts q q' /\
    (if decide (del = length l) then ql_rep h' q' xs' (delete k ls) /\ xs'.*1 = delete k xs.*1 else ql_rep h' q' xs' (<[k := take j l ++ drop (j + del) l]> ls) /\ xs'.*1 = xs.*1).
Proof.
  intros Hr Hi Hl Ez Hp Hoff Hd0 Hdel. destruct (shape_node _ _ _ _ _ _ (rp_shape _ _ _ _ Hr) Hi) as (l0 & Hl0 & Hn & Hg). assert (l0 = l) as -> by congruence. pose proof (ok_small _ _ Hn) as Hsm. pose proof (key_count _ _ _ _ _ _ _ _ Hr Hi Hl) as Hcnt. destruct (concat_at ls k l Hl) as [E1 E2].
  pose proof (rp_bound _ _ _ _ Hr) as Hb. pose proof (concat_bound _ Hb) as Hcb. assert (Hwl : 0 <= weight l <= weight (concat ls)) by (rewrite E1; apply weight_part). destruct (raw_ok n l Hn ltac:(unfold is_raw; by rewrite Ez)) as (zl0 & Ez0 & _ & Rz & _). assert (zl0 = zl) as -> by congruence.
  destruct (rep_delete_range zl l off (u32 (Z.of_nat del)) Rz Hoff ltac:(apply wrapu_range; lia) ltac:(lia)) as (zl' & Ed & R'). rewrite Hp, wrapu_small, Nat2Z.id in R' by (unfold zlen in *; lia). set (l' := take j l ++ drop (j + del) l) in *.
  assert (Hll : (length l' + del = length l)%nat) by (unfold l'; rewrite length_app, length_take, length_drop; lia). assert (Hzl : zlen l = zlen l' + Z.of_nat del) by (unfold zlen; lia).
  rewrite (use_raw h xs k a n zl (Some a) (proj1 (rp_shape _ _ _ _ Hr)) Hi Ez eq_refl). cbn [mbind option_bind]. rewrite Hg. cbn [mbind option_bind]. rewrite raw_linked. unfold raw at 1. rewrite Ez. cbn [mbind option_bind]. rewrite Ed. cbn [mbind option_bind]. unfold set_ziplist. rewrite (rep_blob be zl' l' R'). cbn [mbind option_bind]. cbv zeta.
  change (q_count (with_count ?x ?c)) with c. change (q_count (with_zl (linked ?p ?x n) ?d ?s)) with (q_count n). rewrite Hcnt. assert (Eu : u16 (zlen l - Z.of_nat del) = zlen l') by (rewrite wrapu_small; unfold zlen in *; lia). rewrite Eu.
  change (with_count (with_zl (linked ?p ?x n) ?d ?s) ?c) with (linked p x (with_count (with_zl n d s) c)). set (m := with_count (with_zl n (ZRaw zl') (zlen zl')) (zlen l')).
  destruct (decide (del = length l)) as [Hall|Hpart].
  - rewrite (proj2 (Z.eqb_eq (zlen l') 0)) by (unfold zlen; lia). assert (Hr0 : rep0 h (add_count q (- Z.of_nat del)) xs ls) by (eapply rep0_any; [exact Hr|done]).
    destruct (del_node0 (junk:=junk) (hjunk:=hjunk) h _ xs ls k a n l m Hr0 Hi Hl) as (h' & q' & xs' & -> & R0 & K' & C' & O'). exists h', q', xs'. split; [done|]. split; [done|]. split; [|rewrite <- fst_delete; apply keys_fst; by rewrite K', keys_delete].
    apply rep_total. split; [done|]. assert (Etot : zlen (concat ls) = zlen (concat (delete k ls)) + zlen l) by (rewrite E1, concat_delete, !zlen_app; lia). pose proof (zlen_nonneg (concat (delete k ls))). rewrite C'. cbn [ql_count add_count]. rewrite (rp_total _ _ _ _ Hr), Etot. unfold m. cbn [q_count with_count].
    rewrite (wrapu_small 64 (_ + - _)) by (unfold zlen in *; lia). rewrite wrapu_small; unfold zlen in *; lia.
  - rewrite (proj2 (Z.eqb_neq (zlen l') 0)) by (unfold zlen; lia). assert (Hne : l' <> []) by (intros E; rewrite E in Hll; cbn in Hll; lia).
    destruct (rep_edit h q xs ls k a n l m l' (- Z.of_nat del) Hr Hi Hl) as (xs' & R0 & F' & _); [constructor; [by exists zl'|apply Hn|done|unfold zlen in *; lia]|done|done|unfold zlen; lia|rewrite E2; rewrite E1 in Hb; rewrite !weight_app in *; assert (weight l' <= weight l) by apply weight_drop; lia|].
    eexists _, _, xs'. split; [|split; [|split; [exact R0|done]]]; [|done]. unfold quicklistRecompressOnly, deref. cbn [mbind option_bind]. rewrite lookup_insert_eq. cbn [mbind option_bind]. change (q_recompress (linked _ _ m)) with (q_recompress n). by rewrite (ok_recompress _ _ Hn).
Qed.
Lemma delrange_rest : forall r k fuel h q xs ls e, ql_rep h q xs ls -> ql_compress q = 0 -> (length xs - k = r)%nat -> (r <= fuel)%nat -> (e <= length (concat (drop k ls)))%nat ->
  exists h' q', delrange_loop be junk hjunk fuel h q (at_ xs k) 0 (Z.of_nat e) = Some (h', q') /\ same_opts q q' /\ qrep h' q' (concat (take k ls) ++ drop e (concat (drop k ls))).
Proof.
  induction r as [|r IH]; intros k fuel h q xs ls e Hr Hc Hrk Hfu He; pose proof (shape_len _ _ _ (rp_shape _ _ _ _ Hr)) as Hlen.
  - rewrite (drop_ge ls) in He |- * by lia. cbn in He. assert (e = 0%nat) as -> by lia. exists h, q. split; [by destruct fuel|]. split; [done|]. exists xs, ls. split; [done|]. rewrite take_ge by lia. cbn. by rewrite app_nil_r.
  - destruct (decide (e = 0%nat)) as [->|He0]. { exists h, q. split; [by destruct fuel|]. split; [done|]. exists xs, ls. split; [done|]. by rewrite drop_0, <- concat_app, take_drop. }
    destruct fuel as [|fuel]; [lia|]. cbn [delrange_loop]. rewrite (proj2 (Z.eqb_neq (Z.of_nat e) 0)) by lia.
    destruct (at_ex xs k ltac:(lia)) as [a Ha]. destruct (cell_at _ _ _ Ha) as [n Hn]. destruct (shape_node _ _ _ _ _ _ (rp_shape _ _ _ _ Hr) Hn) as (l & Hl & Hok & Hg). pose proof (key_count _ _ _ _ _ _ _ _ Hr Hn Hl) as Hcnt. destruct (concat_at ls k l Hl) as [E1 E2]. pose proof (concat_bound _ (rp_bound _ _ _ _ Hr)) as Hcb.
    rewrite (concat_drop_S ls k l Hl) in He |- *. rewrite length_app in He. assert (Hl0 : (0 < length l)%nat) by (pose proof (ok_nonempty _ _ Hok); destruct l; [done|cbn; lia]).
    assert (Hez : Z.of_nat e < 2 ^ 28) by (rewrite E1 in Hcb; unfold zlen in Hcb; rewrite !length_app in Hcb; lia).
    rewrite Ha. unfold deref. cbn [mbind option_bind]. rewrite Hg. cbn [mbind option_bind]. change (q_next (linked ?p ?x n)) with x. change (q_count (linked ?p ?x n)) with (q_count n). rewrite Hcnt. change (0 =? 0) with true. change (0 >=? 0) with true. change (0 <? 0) with false. cbn [andb]. rewrite Z.geb_leb.
    destruct (Z.leb_spec (zlen l) (Z.of_nat e)) as [Hge|Hlt]; cbn [negb].
    + destruct (del_node0 (junk:=junk) (hjunk:=hjunk) h q xs ls k a n l n (rep0_of _ _ _ _ Hr) Hn Hl) as (h' & q' & xs' & Ed & R0 & K' & C' & [Of Oc]). rewrite (edit_same h xs k a n (proj1 (rp_shape _ _ _ _ Hr)) Hn) in Ed. rewrite Ed. cbn [mbind option_bind].
      assert (F' : xs'.*1 = delete k xs.*1) by (rewrite <- fst_delete; apply keys_fst; by rewrite K', keys_delete).
      assert (R' : ql_rep h' q' xs' (delete k ls)).
      { apply rep_total. split; [done|]. rewrite C', Hcnt, (rp_total _ _ _ _ Hr), E1, concat_delete, !zlen_app. rewrite E1, !zlen_app in Hcb. pose proof (zlen_nonneg l). pose proof (zlen_nonneg (concat (take k ls))). pose proof (zlen_nonneg (concat (drop (S k) ls))). rewrite wrapu_small; lia. }
      assert (Lx : length xs' = (length xs - 1)%nat) by (rewrite (len_fst (delete k xs) xs') by (by rewrite F', fst_delete); rewrite (length_del k xs _ Hn); lia).
      rewrite wrapu_small by (unfold zlen in *; lia). replace (Z.of_nat e - zlen l) with (Z.of_nat (e - length l)) by (unfold zlen in *; lia).
      replace (at_ xs (S k)) with (at_ xs' k) by (rewrite (at_removed _ _ _ F'); by rewrite bool_decide_eq_false_2 by lia).
      assert (Edk : drop k (delete k ls) = drop (S k) ls) by (rewrite delete_take_drop; pose proof (lookup_lt_Some _ _ _ Hl); rewrite drop_app_ge by (rewrite length_take; lia); rewrite length_take, Nat.min_l, Nat.sub_diag, drop_0 by lia; done).
      assert (Etk : take k (delete k ls) = take k ls) by (rewrite delete_take_drop; pose proof (lookup_lt_Some _ _ _ Hl); rewrite take_app_le by (rewrite length_take; lia); by rewrite take_take, Nat.min_id).
      destruct (IH k fuel h' q' xs' (delete k ls) (e - length l)%nat R' ltac:(congruence) ltac:(lia) ltac:(lia) ltac:(rewrite Edk; unfold zlen in *; lia)) as (h2 & q2 & E2' & [Of2 Oc2] & R2). exists h2, q2. split; [exact E2'|]. split; [split; congruence|]. rewrite Edk, Etk in R2. rewrite drop_app_ge by (unfold zlen in *; lia). exact R2.
    + destruct (raw_ok n l Hok (all_raw _ _ _ _ Hr Hc k _ _ Hn)) as (zl & Ez & _ & _ & _).
      destruct (del_part h q xs ls k a n l zl 0 0 e Hr Hn Hl Ez ltac:(apply place_first; by apply (ok_nonempty _ _ Hok)) ltac:(lia) ltac:(lia) ltac:(unfold zlen in *; lia)) as (h' & q' & xs' & Ed & O' & R'). rewrite decide_False in R' by (unfold zlen in *; lia). destruct R' as [R' F']. cbv zeta in Ed. rewrite Ed. cbn [mbind option_bind]. rewrite Z.sub_diag. change (u64 0) with 0.
      exists h', q'. split; [by destruct fuel|]. split; [done|]. eexists xs', _. split; [exact R'|]. rewrite E2. rewrite take_0, drop_app_le by (unfold zlen in *; lia). done.
Qed.
Definition spec_delrange (L : list (list Z)) (start count : Z) : list (list Z) * bool :=
  if count <=? 0 then (L, false) else match place L start with None => (L, false) | Some g => (take g L ++ drop (g + Z.to_nat count) L, true) end.
Lemma take_concat {A} (ls : list (list A)) i l j : ls !! i = Some l -> (j <= length l)%nat -> take (length (concat (take i ls)) + j) (concat ls) = concat (take i ls) ++ take j l /\ drop (length (concat (take i ls)) + j) (concat ls) = drop j l ++ concat (drop (S i) ls).
Proof. intros Hl Hj. rewrite (proj1 (concat_at ls i l Hl)). by rewrite take_app_add, drop_app_add, take_app_le, drop_app_le by lia. Qed.
(** The first node of a range counted from the tail. *)
Lemma delrange_first h q xs ls i j a n l zl es e : ql_rep h q xs ls -> ql_compress q = 0 -> at_entry xs ls i j a n l zl es -> (0 < e <= length (drop j l ++ concat (drop (S i) ls)))%nat ->
  exists h' q', delrange_loop be junk hjunk (size h) h q (Some a) (Z.of_nat j - zlen l) (Z.of_nat e) = Some (h', q') /\ same_opts q q' /\ qrep h' q' ((concat (take i ls) ++ take j l) ++ drop e (drop j l ++ concat (drop (S i) ls))).
Proof.
  intros Hr Hc [Hi Hl Ez Hz Hst Hj] He. destruct (shape_node _ _ _ _ _ _ (rp_shape _ _ _ _ Hr) Hi) as (l0 & Hl0 & Hok & Hg). assert (l0 = l) as -> by congruence. pose proof (ok_small _ _ Hok) as Hsm. pose proof (key_count _ _ _ _ _ _ _ _ Hr Hi Hl) as Hcnt. destruct (concat_at ls i l Hl) as [E1 E2]. pose proof (concat_bound _ (rp_bound _ _ _ _ Hr)) as Hcb. pose proof (lookup_lt_Some _ _ _ Hi) as Hlt. pose proof (shape_len _ _ _ (rp_shape _ _ _ _ Hr)) as Hlen.
  pose proof (heap_size h xs (proj1 (rp_shape _ _ _ _ Hr))) as Hsz. destruct (size h) as [|fuel]; [lia|]. assert (Hfu : (length xs <= S fuel)%nat) by exact Hsz. clear Hsz.
  rewrite length_app, length_drop in He. assert (Hez : Z.of_nat e < 2 ^ 28) by (rewrite E1 in Hcb; unfold zlen in Hcb; rewrite !length_app in Hcb; lia). unfold zlen in Hsm.
  cbn [delrange_loop]. rewrite (proj2 (Z.eqb_neq (Z.of_nat e) 0)) by lia. unfold deref. cbn [mbind option_bind]. rewrite Hg. cbn [mbind option_bind]. change (q_next (linked ?p ?x n)) with x.
  rewrite (proj2 (Z.eqb_neq (Z.of_nat j - zlen l) 0)) by (unfold zlen; lia). rewrite !Z.geb_leb, (proj2 (Z.leb_gt 0 (Z.of_nat j - zlen l))), (proj2 (Z.ltb_lt (Z.of_nat j - zlen l) 0)) by (unfold zlen; lia). cbn [andb].
  set (del := Nat.min e (length l - j)). assert (Edel : (if - (Z.of_nat j - zlen l) >? Z.of_nat e then Z.of_nat e else - (Z.of_nat j - zlen l)) = Z.of_nat del) by (rewrite Z.gtb_ltb; unfold del, zlen; destruct (Z.ltb_spec (Z.of_nat e) (- (Z.of_nat j - Z.of_nat (length l)))); lia). rewrite Edel.
  assert (Hp : place l (Z.of_nat j - zlen l) = Some j) by (unfold place, zlen; rewrite (proj2 (Z.ltb_lt _ 0)), (proj2 (Z.leb_le 0 _)) by lia; f_equal; lia).
  destruct (del_part h q xs ls i a n l zl (Z.of_nat j - zlen l) j del Hr Hi Hl Ez Hp ltac:(unfold zlen; lia) ltac:(unfold del; lia) ltac:(unfold del; lia)) as (h' & q' & xs' & Ed & [Of Oc] & R'). cbv zeta in Ed. rewrite Ed. cbn [mbind option_bind].
  rewrite wrapu_small by (unfold del; lia). replace (Z.of_nat e - Z.of_nat del) with (Z.of_nat (e - del)) by (unfold del; lia).
  set (ls' := if decide (del = length l) then delete i ls else <[i := take j l ++ drop (j + del) l]> ls). set (k' := if decide (del = length l) then i else S i).
  assert (Hstate : ql_rep h' q' xs' ls' /\ at_ xs' k' = at_ xs (S i) /\ (length xs' - k' <= fuel)%nat /\ concat (take k' ls') = concat (take i ls) ++ take j l ++ drop (j + del) l /\ drop k' ls' = drop (S i) ls).
  { unfold ls', k'. destruct (decide (del = length l)) as [Hall|Hpart]; destruct R' as [R' F'].
    - assert (Hj0 : j = 0%nat) by (unfold del in Hall; lia). split; [done|]. split; [rewrite (at_removed _ _ _ F'); by rewrite bool_decide_eq_false_2 by lia|].
      split; [rewrite (len_fst (delete i xs) xs') by (by rewrite F', fst_delete); pose proof (length_del i xs _ Hi); lia|]. rewrite delete_take_drop. split.
      + rewrite take_app_le by (rewrite length_take; lia). rewrite take_take, Nat.min_id, Hj0, take_0, drop_ge by lia. cbn. by rewrite app_nil_r.
      + rewrite drop_app_ge by (rewrite length_take; lia). by rewrite length_take, Nat.min_l, Nat.sub_diag, drop_0 by lia.
    - split; [done|]. split; [by rewrite (at_fst _ _ F')|]. split; [rewrite (len_fst _ _ F'); lia|]. split; [|by rewrite drop_insert_lt by lia].
      rewrite (concat_take_S (<[i := take j l ++ drop (j + del) l]> ls) i (take j l ++ drop (j + del) l)) by (apply list_lookup_insert_eq; lia). by rewrite take_insert_ge by lia. }
  destruct Hstate as (R1 & Ea1 & Hf1 & T1 & D1). rewrite <- Ea1.
  destruct (delrange_rest (length xs' - k') k' fuel h' q' xs' ls' (e - del)%nat R1 ltac:(congruence) eq_refl Hf1 ltac:(rewrite D1; unfold del; lia)) as (h2 & q2 & E2' & [Of2 Oc2] & R2). exists h2, q2. split; [exact E2'|]. split; [split; congruence|].
  rewrite T1, D1 in R2. rewrite <- !app_assoc in R2 |- *. rewrite drop_app, length_drop, drop_drop.
  assert (Edrop : drop (j + del) l = drop (j + e) l) by (unfold del; destruct (Nat.min_spec e (length l - j)) as [[Hlt' ->]|[Hge ->]]; [done|rewrite !drop_ge by lia; done]). replace (e - del)%nat with (e - (length l - j))%nat in R2 by (unfold del; lia). rewrite Edrop, <- app_assoc in R2. exact R2.
Qed.
Lemma delrange_spec h q L start count : qrep h q L -> ql_compress q = 0 -> - 2 ^ 63 < start <= 0 -> count < 2 ^ 63 ->
  exists h' q', quicklistDelRange be junk hjunk h q start count = Some (h', q', (spec_delrange L start count).2) /\ same_opts q q' /\ qrep h' q' (spec_delrange L start count).1.
Proof.
  intros (xs & ls & Hr & <-) Hc Hst Hct. unfold quicklistDelRange, spec_delrange. destruct (Z.leb_spec count 0) as [|Hpos]; [exists h, q; split; [done|]; split; [done|]; by exists xs, ls|].
  pose proof (concat_bound _ (rp_bound _ _ _ _ Hr)) as Hcb. rewrite (rp_total _ _ _ _ Hr).
  destruct (place (concat ls) start) as [g|] eqn:Ep; cbn [fst snd].
  2:{ rewrite (index_miss h q xs ls start Hr ltac:(lia) Ep). cbn [mbind option_bind]. exists h, q. split; [done|]. split; [done|]. by exists xs, ls. }
  pose proof (place_lt _ _ _ Ep) as Hg. destruct (lookup_lt_is_Some_2 (concat ls) g Hg) as [x Hx]. destruct (index_ok h q xs ls start g x Hr Hc ltac:(lia) Ep Hx) as (i & j & a & n & l & zl & es & v & -> & He & Egij & Hj & _). pose proof He as [Hi Hl Ez Hz Hs Hlt].
  cbn [mbind option_bind e_node e_offset]. destruct (take_concat ls i l j Hl ltac:(lia)) as [Tg Dg]. rewrite <- Egij in Tg, Dg.
  assert (Hext : (if (start >=? 0) && (count >? u64 (zlen (concat ls) - start)) then u64 (zlen (concat ls) - start) else if (start <? 0) && (count >? - start) then - start else count) = Z.of_nat (Nat.min (Z.to_nat count) (length (concat ls) - g))).
  { unfold place in Ep. unfold zlen in *. rewrite Z.geb_leb, !Z.gtb_ltb. destruct (Z.ltb_spec start 0) as [Hneg|Hge].
    - rewrite (proj2 (Z.leb_gt 0 start)) by lia. cbn [andb]. destruct (Z.leb_spec 0 (Z.of_nat (length (concat ls)) + start)); [|done]. injection Ep as <-. destruct (Z.ltb_spec (- start) count); lia.
    - assert (start = 0) as -> by lia. rewrite (proj2 (Z.leb_le 0 0)) by lia. cbn [andb]. destruct (Z.ltb_spec 0 (Z.of_nat (length (concat ls)))); [|done]. injection Ep as <-. rewrite wrapu_small by lia. destruct (Z.ltb_spec (Z.of_nat (length (concat ls)) - 0) count); lia. }
  rewrite Hext. set (e := Nat.min (Z.to_nat count) (length (concat ls) - g)) in *.
  assert (Hdrop : drop (g + Z.to_nat count) (concat ls) = drop e (drop g (concat ls))).
  { rewrite drop_drop. unfold e. destruct (Nat.min_spec (Z.to_nat count) (length (concat ls) - g)) as [[_ ->]|[Hge ->]]; [done|]. rewrite !drop_ge by lia. done. }
  rewrite Hdrop, Tg, Dg. assert (Hlen : length (drop g (concat ls)) = (length (concat ls) - g)%nat) by apply length_drop. rewrite Dg in Hlen.
  assert (Hloop : exists h' q', delrange_loop be junk hjunk (size h) h q (Some a) (if start <? 0 then Z.of_nat j - zlen l else Z.of_nat j) (Z.of_nat e) = Some (h', q') /\ same_opts q q' /\ qrep h' q' ((concat (take i ls) ++ take j l) ++ drop e (drop j l ++ concat (drop (S i) ls)))).
  { destruct (Z.ltb_spec start 0) as [Hneg|Hge].
    - apply (delrange_first h q xs ls i j a n l zl es e Hr Hc He). rewrite Hlen. unfold e. lia.
    - assert (Hg0 : g = 0%nat) by (unfold place in Ep; assert (start = 0) as -> by lia; change (0 <? 0) with false in Ep; destruct (0 <? zlen (concat ls)); [by injection Ep as <-|done]). assert (j = 0%nat) as -> by lia. assert (Enil : concat (take i ls) = []) by (apply nil_length_inv; lia).
      pose proof (heap_size h xs (proj1 (rp_shape _ _ _ _ Hr))) as Hsz. destruct (delrange_rest (length xs - i) i (size h) h q xs ls e Hr Hc eq_refl ltac:(etrans; [|exact Hsz]; apply Nat.le_sub_l) ltac:(rewrite (concat_drop_S ls i l Hl); rewrite drop_0 in Hlen; rewrite Hlen; unfold e; lia)) as (h' & q' & E' & O' & R'). rewrite (at_cell _ _ _ _ Hi) in E'. exists h', q'. split; [exact E'|]. split; [done|]. rewrite (concat_drop_S ls i l Hl) in R'. rewrite take_0, drop_0, app_nil_r. exact R'. }
  destruct Hloop as (h' & q' & -> & O' & R'). cbn [mbind option_bind]. exists h', q'. done.
Qed.

(** ** Iterating *)
(** An iterator that has just been made or repositioned: the elements still to
    come are those from [g], or those before [g]. *)
Definition offset_of (d : ql_direction) (j : nat) (l : list (list Z)) : Z := match d with AL_START_HEAD => Z.of_nat j | AL_START_TAIL => Z.of_nat j - zlen l end.
Definition fresh_iter (d : ql_direction) (xs : cells) (ls : list (list (list Z))) (it : quicklistIter) (g : nat) : Prop :=
  it_direction it = d /\ it_zi it = None /\
  ((it_current it = None /\ g = match d with AL_START_HEAD => length (concat ls) | AL_START_TAIL => 0%nat end) \/
   exists i l j, ls !! i = Some l /\ (j <= length l)%nat /\ it_current it = at_ xs i /\ it_offset it = match d with AL_START_HEAD => Z.of_nat j | AL_START_TAIL => Z.of_nat j - 1 - zlen l end /\ g = (length (concat (take i ls)) + j)%nat).
(** The iterator and the entry after quicklistNext returned the element [g]. *)
Definition got (d : ql_direction) (xs : cells) (ls : list (list (list Z))) (g : nat) (x : list Z) (it : quicklistIter) (e : quicklistEntry) : Prop :=
  exists i j a n l zl es v, at_entry xs ls i j a n l zl es /\ g = (length (concat (take i ls)) + j)%nat /\ l !! j = Some x /\ value_str v = x /\ (forall m, v = ZlInt m -> in_s 64 m) /\
    e = mk_entry (Some a) (Some (10 + sz (take j es))) (Some v) (offset_of d j l) /\ it = mk_iter (Some a) (Some (10 + sz (take j es))) (offset_of d j l) d.
(** What quicklistNext answers at [g]. *)
Definition next_elem (d : ql_direction) (L : list (list Z)) (g : nat) : option nat :=
  match d with AL_START_HEAD => if decide (g < length L)%nat then Some g else None | AL_START_TAIL => match g with O => None | S k => Some k end end.
Definition next_result (d : ql_direction) (xs : cells) (ls : list (list (list Z))) (g : nat) (it : quicklistIter) (e : quicklistEntry) (found : bool) : Prop :=
  match next_elem d (concat ls) g with
  | Some k => found = true /\ exists x, concat ls !! k = Some x /\ got d xs ls k x it e
  | None => found = false /\ it_current it = None
  end.
Lemma small_node h q xs ls i l : ql_rep h q xs ls -> ls !! i = Some l -> (0 < length l)%nat /\ zlen l < 2 ^ 16.
Proof.
  intros Hr Hl. pose proof (shape_len _ _ _ (rp_shape _ _ _ _ Hr)) as Hlen. destruct (at_ex xs i ltac:(rewrite <- Hlen; by eapply lookup_lt_Some)) as [a Ha]. destruct (cell_at _ _ _ Ha) as [n Hn]. destruct (shape_node _ _ _ _ _ _ (rp_shape _ _ _ _ Hr) Hn) as (l0 & Hl0 & Hok & _). assert (l0 = l) as -> by congruence.
  split; [pose proof (ok_nonempty _ _ Hok); destruct l; [done|cbn; lia]|apply (ok_small _ _ Hok)].
Qed.
(** The element [j] of the node [i] is returned. *)
Lemma next_found h q xs ls d i j l : ql_rep h q xs ls -> ql_compress q = 0 -> ls !! i = Some l -> (j < length l)%nat ->
  exists a n zl es v x, at_entry xs ls i j a n l zl es /\ h !! a = Some (linked (pv xs i) (at_ xs (S i)) n) /\ ziplistGet be zl (10 + sz (take j es)) = Some (Some v) /\ s32 (offset_of d j l) = offset_of d j l /\ concat ls !! (length (concat (take i ls)) + j)%nat = Some x /\
    got d xs ls (length (concat (take i ls)) + j) x (mk_iter (Some a) (Some (10 + sz (take j es))) (offset_of d j l) d) (mk_entry (Some a) (Some (10 + sz (take j es))) (Some v) (offset_of d j l)).
Proof.
  intros Hr Hc Hl Hj. destruct (entry_of h q xs ls i j l Hr (all_raw _ _ _ _ Hr Hc i) Hl Hj) as (a & n & zl & es & He). pose proof He as [Hi _ Ez Hz Hst _]. destruct (lookup_lt_is_Some_2 l j Hj) as [x Hx]. destruct (get_at (be:=be) zl es j x Hz ltac:(by rewrite Hst)) as (v & Ev & Hv & Hvi). destruct (small_node _ _ _ _ _ _ Hr Hl) as [_ Hsm].
  exists a, n, zl, es, v, x. split; [done|]. split; [by apply heap_get; [apply Hr|]|]. split; [done|]. split; [unfold zlen in *; destruct d; cbn [offset_of]; unfold zlen; apply wraps_small; unfold in_s; lia|]. split; [by rewrite (concat_lookup ls i l j Hl Hj)|]. by exists i, j, a, n, l, zl, es, v.
Qed.
Lemma next_none fuel h q off d : next_loop be junk hjunk fuel h q (mk_iter None None off d) = Some (h, mk_iter None None off d, initEntry, false).
Proof. by destruct fuel. Qed.
(** The place in a node that quicklistNext looks at after the place [j]. *)
Definition place_after (d : ql_direction) (l : list (list Z)) (j : nat) : option nat :=
  match d with AL_START_HEAD => if decide (S j < length l)%nat then Some (S j) else None | AL_START_TAIL => match j with O => None | S k => Some k end end.
Lemma zl_after zl es j d : zl_of zl es -> (j < length es)%nat ->
  match d with AL_START_HEAD => ziplistNext zl (10 + sz (take j es)) | AL_START_TAIL => ziplistPrev be zl (10 + sz (take j es)) end = Some ((fun k => 10 + sz (take k es)) <$> place_after d (strings es) j).
Proof.
  intros Hz Hj. destruct (lookup_lt_is_Some_2 es j Hj) as [e He]. pose proof Hz as Hz0. rewrite (take_cons_split es j e He) in Hz0. destruct d; cbn [place_after].
  - rewrite (zl_next (be:=be) zl _ e _ Hz0). rewrite strings_len, <- (take_S_r es j e He). destruct (decide (S j < length es)%nat) as [Hlt|Hge]; [|by rewrite drop_ge by lia]. destruct (drop (S j) es) eqn:Ed; [|done]. apply (f_equal length) in Ed. rewrite length_drop in Ed. cbn in Ed. lia.
  - rewrite (zl_prev (be:=be) zl _ _ Hz0). destruct j as [|k]; [done|]. destruct (lookup_lt_is_Some_2 es k ltac:(lia)) as [y Hy]. rewrite (take_S_r es k y Hy), removelast_last. destruct (take k es ++ [y]) eqn:En; [by destruct (take k es)|done].
Qed.
(** A step of quicklistNext in the node [i]. *)
Lemma next_step fuel h q xs ls i j0 a n l zl es d zi offset offset' p : ql_rep h q xs ls -> ql_compress q = 0 -> at_entry xs ls i j0 a n l zl es ->
  (zi = None /\ p = place l offset /\ - 2 ^ 31 < offset < 2 ^ 31 /\ offset' = offset) \/ (exists j, (j < length l)%nat /\ zi = Some (10 + sz (take j es)) /\ p = place_after d l j /\ offset' = match d with AL_START_HEAD => offset + 1 | AL_START_TAIL => offset - 1 end) ->
  (forall j, p = Some j -> (j < length l)%nat /\ offset' = offset_of d j l) ->
  match p with
  | Some j => exists it e x, next_loop be junk hjunk fuel h q (mk_iter (Some a) zi offset d) = Some (h, it, e, true) /\ concat ls !! (length (concat (take i ls)) + j)%nat = Some x /\ got d xs ls (length (concat (take i ls)) + j) x it e
  | None => next_loop be junk hjunk fuel h q (mk_iter (Some a) zi offset d) = match fuel with O => None | S fuel => next_loop be junk hjunk fuel h q (match d with AL_START_HEAD => mk_iter (at_ xs (S i)) None 0 d | AL_START_TAIL => mk_iter (pv xs i) None (-1) d end) end
  end.
Proof.
  intros Hr Hc He Hpos Hoff. pose proof He as [Hi Hl Ez Hz Hst _]. pose proof (rp_shape _ _ _ _ Hr) as [Hh Hf]. pose proof (heap_get h xs i a n Hh Hi) as Hg. assert (Hle : length es = length l) by (by rewrite <- Hst, strings_len).
  assert (Hstep : match zi with
        | None => h ← quicklistDecompressNodeForUse junk h (Some a); x ← deref h (Some a); zl ← raw x; zi ← ziplistIndex be zl (s32 offset); Some (h, zi, offset)
        | Some p => x ← deref h (Some a); zl ← raw x; match d with AL_START_HEAD => zi ← ziplistNext zl p; Some (h, zi, offset + 1) | AL_START_TAIL => zi ← ziplistPrev be zl p; Some (h, zi, offset - 1) end
        end = Some (h, (fun j => 10 + sz (take j es)) <$> p, offset')).
  { unfold deref. destruct Hpos as [(-> & -> & Hb & ->)|(j & Hj & -> & -> & ->)].
    - rewrite (use_raw h xs i a n zl (Some a) Hh Hi Ez eq_refl). cbn [mbind option_bind]. rewrite Hg. cbn [mbind option_bind]. rewrite raw_linked. unfold raw. rewrite Ez. cbn [mbind option_bind]. rewrite wraps_small by (unfold in_s; lia). rewrite (zl_index (be:=be) zl es _ Hz) by lia. cbn [mbind option_bind]. by rewrite <- Hst, place_strings.
    - cbn [mbind option_bind]. rewrite Hg. cbn [mbind option_bind]. rewrite raw_linked. unfold raw. rewrite Ez. cbn [mbind option_bind]. pose proof (zl_after zl es j d Hz ltac:(lia)) as Ea. rewrite Hst in Ea. destruct d; rewrite Ea; done. }
  assert (Hbody : next_loop be junk hjunk fuel h q (mk_iter (Some a) zi offset d) =
    match (fun j => 10 + sz (take j es)) <$> p with
    | Some z => value ← ziplistGet be zl z; Some (h, mk_iter (Some a) (Some z) offset' d, mk_entry (Some a) (Some z) value (s32 offset'), true)
    | None => match fuel with O => None | S fuel => next_loop be junk hjunk fuel h q (match d with AL_START_HEAD => mk_iter (at_ xs (S i)) None 0 d | AL_START_TAIL => mk_iter (pv xs i) None (-1) d end) end
    end).
  { destruct fuel as [|fuel]; cbn [next_loop it_current it_zi it_offset it_direction]; rewrite Hstep; cbn [mbind option_bind]; unfold deref; cbn [mbind option_bind]; rewrite Hg; cbn [mbind option_bind];
      (destruct p as [j|]; cbn [fmap option_fmap option_map]; [rewrite raw_linked; unfold raw; rewrite Ez; done|]);
      rewrite (compress_off q h xs ls i a (rp_shape _ _ _ _ Hr) Hc) by (by eapply at_cell); cbn [mbind option_bind]; rewrite Hg; cbn [mbind option_bind]; by destruct d. }
  rewrite Hbody. destruct p as [j|]; [|done]. cbn [fmap option_fmap option_map]. destruct (Hoff j eq_refl) as [Hj ->]. destruct (lookup_lt_is_Some_2 l j Hj) as [x Hx]. destruct (get_at (be:=be) zl es j x Hz ltac:(by rewrite Hst)) as (v & Ev & Hv & Hvi). rewrite Ev. cbn [mbind option_bind].
  destruct (small_node _ _ _ _ _ _ Hr Hl) as [_ Hsm]. rewrite (wraps_small 32) by (unfold in_s, zlen in *; destruct d; cbn [offset_of]; unfold zlen; lia). eexists _, _, x. split; [done|]. split; [by rewrite (concat_lookup ls i l j Hl Hj)|]. exists i, j, a, n, l, zl, es, v. split; [by split|done].
Qed.
Lemma concat_lt {A} (ls : list (list A)) i l j : ls !! i = Some l -> (j < length l)%nat -> (length (concat (take i ls)) + j < length (concat ls))%nat.
Proof. intros Hl Hj. rewrite (proj1 (concat_at ls i l Hl)), !length_app. lia. Qed.
Lemma fresh_fwd h q xs ls : ql_rep h q xs ls -> ql_compress q = 0 -> forall r i fuel j l, (length xs - i = r)%nat -> (r <= fuel)%nat -> ls !! i = Some l -> (j <= length l)%nat ->
  exists it e found, next_loop be junk hjunk fuel h q (mk_iter (at_ xs i) None (Z.of_nat j) AL_START_HEAD) = Some (h, it, e, found) /\ next_result AL_START_HEAD xs ls (length (concat (take i ls)) + j) it e found.
Proof.
  intros Hr Hc. pose proof (shape_len _ _ _ (rp_shape _ _ _ _ Hr)) as Hlen. induction r as [|r IH]; intros i fuel j l Hri Hfu Hl Hj; pose proof (lookup_lt_Some _ _ _ Hl) as Hlt; [lia|].
  destruct (small_node _ _ _ _ _ _ Hr Hl) as [Hl0 Hsm]. destruct (entry_of h q xs ls i 0 l Hr (all_raw _ _ _ _ Hr Hc i) Hl Hl0) as (a & n & zl & es & He). rewrite (at_cell _ _ _ _ (ae_cell _ _ _ _ _ _ _ _ _ He)).
  assert (Hp : place l (Z.of_nat j) = if decide (j < length l)%nat then Some j else None) by (unfold place, zlen; rewrite (proj2 (Z.ltb_ge _ 0)) by lia; destruct (decide _); [rewrite (proj2 (Z.ltb_lt _ _)) by lia; by rewrite Nat2Z.id|by rewrite (proj2 (Z.ltb_ge _ _)) by lia]).
  pose proof (next_step fuel h q xs ls i 0 a n l zl es AL_START_HEAD None (Z.of_nat j) (Z.of_nat j) (place l (Z.of_nat j)) Hr Hc He ltac:(left; unfold zlen in Hsm; repeat split; lia)) as Hstep. rewrite Hp in Hstep. unfold next_result, next_elem. destruct (decide (j < length l)%nat) as [Hjl|Hjl].
  - destruct (Hstep ltac:(intros k [= <-]; done)) as (it & e & x & E & Hx & Hgot). exists it, e, true. split; [done|]. rewrite decide_True by (by eapply concat_lt). split; [done|]. by exists x.
  - specialize (Hstep ltac:(done)). destruct fuel as [|fuel]; [lia|]. rewrite Hstep. assert (j = length l) as -> by lia. destruct (decide (S i < length xs)%nat) as [Hnext|Hend].
    + destruct (lookup_lt_is_Some_2 ls (S i) ltac:(lia)) as [l' Hl']. destruct (IH (S i) fuel 0%nat l' ltac:(lia) ltac:(lia) Hl' ltac:(lia)) as (it & e & found & E & Hres). exists it, e, found. split; [exact E|]. unfold next_result, next_elem in Hres. rewrite (concat_take_S ls i l Hl), length_app, Nat.add_0_r in Hres. exact Hres.
    + rewrite (at_ge xs) by lia. rewrite next_none. eexists _, _, _. split; [done|]. rewrite decide_False; [done|]. rewrite (proj1 (concat_at ls i l Hl)), !length_app, (drop_ge ls) by lia. cbn. lia.
Qed.
Lemma fresh_bwd h q xs ls : ql_rep h q xs ls -> ql_compress q = 0 -> forall i fuel j l, (i < fuel)%nat -> ls !! i = Some l -> (j <= length l)%nat ->
  exists it e found, next_loop be junk hjunk fuel h q (mk_iter (at_ xs i) None (Z.of_nat j - 1 - zlen l) AL_START_TAIL) = Some (h, it, e, found) /\ next_result AL_START_TAIL xs ls (length (concat (take i ls)) + j) it e found.
Proof.
  intros Hr Hc. induction i as [|i IH]; intros fuel j l Hfu Hl Hj; destruct (small_node _ _ _ _ _ _ Hr Hl) as [Hl0 Hsm];
    destruct (entry_of h q xs ls _ 0 l Hr (all_raw _ _ _ _ Hr Hc _) Hl Hl0) as (a & n & zl & es & He); rewrite (at_cell _ _ _ _ (ae_cell _ _ _ _ _ _ _ _ _ He));
    (assert (Hp : place l (Z.of_nat j - 1 - zlen l) = match j with O => None | S k => Some k end) by (unfold place, zlen; rewrite (proj2 (Z.ltb_lt _ 0)) by lia; destruct j as [|k]; [by rewrite (proj2 (Z.leb_gt 0 _)) by lia|rewrite (proj2 (Z.leb_le 0 _)) by lia; f_equal; lia]));
    match type of He with at_entry _ _ ?i0 _ _ _ _ _ _ => pose proof (next_step fuel h q xs ls i0 0 a n l zl es AL_START_TAIL None (Z.of_nat j - 1 - zlen l) (Z.of_nat j - 1 - zlen l) (place l (Z.of_nat j - 1 - zlen l)) Hr Hc He ltac:(left; unfold zlen in *; repeat split; lia)) as Hstep end;
    rewrite Hp in Hstep; (destruct j as [|k]; [specialize (Hstep ltac:(done)); destruct fuel as [|fuel]; [lia|]; rewrite Hstep
      |destruct (Hstep ltac:(intros k' [= <-]; split; [lia|cbn [offset_of]; lia])) as (it & e & x & E & Hx & Hgot); exists it, e, true; split; [done|]; unfold next_result, next_elem; rewrite Nat.add_succ_r; split; [done|]; by exists x]).
  - cbn [pv]. rewrite next_none. eexists _, _, _. done.
  - cbn [pv]. destruct (lookup_lt_is_Some_2 ls i ltac:(apply lookup_lt_Some in Hl; lia)) as [l' Hl']. destruct (IH fuel (length l') l' ltac:(lia) Hl' ltac:(lia)) as (it & e & found & E & Hres). replace (Z.of_nat (length l') - 1 - zlen l') with (-1) in E by (unfold zlen; lia). exists it, e, found. split; [exact E|].
    rewrite (concat_take_S ls i l' Hl'), length_app, Nat.add_0_r. exact Hres.
Qed.
Lemma next_fresh h q xs ls d it g : ql_rep h q xs ls -> ql_compress q = 0 -> fresh_iter d xs ls it g ->
  exists it' e found, quicklistNext be junk hjunk h q (Some it) = Some (h, Some it', e, found) /\ next_result d xs ls g it' e found.
Proof.
  intros Hr Hc (Hd & Hz & Hcase). destruct it as [cur zi off dir]. cbn [it_direction it_zi it_current it_offset] in *. subst dir zi. pose proof (heap_size h xs (proj1 (rp_shape _ _ _ _ Hr))) as Hsz. pose proof (shape_len _ _ _ (rp_shape _ _ _ _ Hr)) as Hlen. unfold quicklistNext.
  destruct Hcase as [[-> ->]|(i & l & j & Hl & Hj & -> & -> & ->)].
  - rewrite next_none. cbn [mbind option_bind]. eexists _, _, _. split; [done|]. unfold next_result, next_elem. destruct d; [by rewrite decide_False by lia|done].
  - pose proof (lookup_lt_Some _ _ _ Hl) as Hlt. destruct d.
    + destruct (fresh_fwd h q xs ls Hr Hc (length xs - i) i (size h) j l eq_refl ltac:(etrans; [|exact Hsz]; lia) Hl Hj) as (it & e & found & -> & Hres). cbn [mbind option_bind]. by exists it, e, found.
    + destruct (fresh_bwd h q xs ls Hr Hc i (size h) j l ltac:(eapply Nat.lt_le_trans; [|exact Hsz]; lia) Hl Hj) as (it & e & found & -> & Hres). cbn [mbind option_bind]. by exists it, e, found.
Qed.
(** Where the iterator goes on from after the element [k]. *)
Definition after_elem (d : ql_direction) (k : nat) : nat := match d with AL_START_HEAD => S k | AL_START_TAIL => k end.
Lemma next_got h q xs ls d it e k x : ql_rep h q xs ls -> ql_compress q = 0 -> got d xs ls k x it e ->
  exists it' e' found, quicklistNext be junk hjunk h q (Some it) = Some (h, Some it', e', found) /\ next_result d xs ls (after_elem d k) it' e' found.
Proof.
  intros Hr Hc (i & j & a & n & l & zl & es & v & He & -> & Hx & _ & _ & _ & ->). pose proof He as [Hi Hl Ez Hz Hst Hj]. pose proof (heap_size h xs (proj1 (rp_shape _ _ _ _ Hr))) as Hsz. pose proof (shape_len _ _ _ (rp_shape _ _ _ _ Hr)) as Hlen. pose proof (lookup_lt_Some _ _ _ Hl) as Hlt. unfold quicklistNext.
  pose proof (next_step (size h) h q xs ls i j a n l zl es d (Some (10 + sz (take j es))) (offset_of d j l) _ (place_after d l j) Hr Hc He ltac:(right; exists j; repeat split; done)) as Hstep.
  assert (Hoff : forall k, place_after d l j = Some k -> (k < length l)%nat /\ match d with AL_START_HEAD => offset_of d j l + 1 | AL_START_TAIL => offset_of d j l - 1 end = offset_of d k l).
  { intros k. unfold place_after. destruct d; cbn [offset_of]; [destruct (decide _); intros [= <-]; lia|destruct j as [|j]; intros [= <-]; lia]. }
  specialize (Hstep Hoff). destruct (place_after d l j) as [k|] eqn:Epa.
  - destruct Hstep as (it & e' & x' & -> & Hx' & Hgot). cbn [mbind option_bind]. exists it, e', true. split; [done|]. unfold next_result, next_elem, after_elem, place_after in *. destruct d.
    + destruct (decide (S j < length l)%nat) as [Hs|]; [|done]. injection Epa as <-. rewrite Nat.add_succ_r in *. rewrite decide_True by (pose proof (concat_lt ls i l (S j) Hl Hs); lia). split; [done|]. by exists x'.
    + destruct j as [|j]; [done|]. injection Epa as <-. rewrite Nat.add_succ_r in *. split; [done|]. by exists x'.
  - destruct (size h) as [|fuel]; [lia|]. assert (Hfu : (length xs <= S fuel)%nat) by exact Hsz. rewrite Hstep. unfold place_after in Epa. destruct d; cbn [after_elem].
    + destruct (decide (S j < length l)%nat); [done|]. assert (Ej : S j = length l) by lia. destruct (decide (S i < length xs)%nat) as [Hnext|Hend].
      * destruct (lookup_lt_is_Some_2 ls (S i) ltac:(lia)) as [l' Hl']. destruct (fresh_fwd h q xs ls Hr Hc (length xs - S i) (S i) fuel 0%nat l' eq_refl ltac:(lia) Hl' ltac:(lia)) as (it & e' & found & E & Hres). change (Z.of_nat 0) with 0 in E. rewrite E. cbn [mbind option_bind]. exists it, e', found. split; [done|]. rewrite (concat_take_S ls i l Hl), length_app, Nat.add_0_r, <- Ej, Nat.add_succ_r in Hres. exact Hres.
      * rewrite (at_ge xs) by lia. rewrite next_none. cbn [mbind option_bind]. eexists _, _, _. split; [done|]. unfold next_result, next_elem. rewrite decide_False; [done|]. rewrite (proj1 (concat_at ls i l Hl)), !length_app, (drop_ge ls) by lia. cbn. lia.
    + destruct j as [|j]; [|done]. destruct i as [|i]; cbn [pv].
      * rewrite next_none. cbn [mbind option_bind]. eexists _, _, _. done.
      * destruct (lookup_lt_is_Some_2 ls i ltac:(lia)) as [l' Hl']. destruct (fresh_bwd h q xs ls Hr Hc i fuel (length l') l' ltac:(lia) Hl' ltac:(lia)) as (it & e' & found & E & Hres). replace (Z.of_nat (length l') - 1 - zlen l') with (-1) in E by (unfold zlen; lia). rewrite E. cbn [mbind option_bind]. exists it, e', found. split; [done|]. rewrite (concat_take_S ls i l' Hl'), length_app, Nat.add_0_r. exact Hres.
Qed.
Lemma take_delete_lt {A} (ls : list A) i k : (k <= i)%nat -> take k (delete i ls) = take k ls.
Proof. intros Hk. apply list_eq. intros j. destruct (decide (j < k)%nat) as [Hj|Hj]; [rewrite !lookup_take_lt by lia; rewrite delete_lookup; by rewrite bool_decide_eq_true_2 by lia|by rewrite !lookup_take_ge by lia]. Qed.
Lemma del_got h q xs ls d it e k x : ql_rep h q xs ls -> ql_compress q = 0 -> got d xs ls k x it e ->
  exists h' q' it' e' xs' ls', quicklistDelEntry be junk hjunk h q it e = Some (h', q', it', e') /\ same_opts q q' /\ ql_rep h' q' xs' ls' /\ concat ls' = take k (concat ls) ++ drop (S k) (concat ls) /\ fresh_iter d xs' ls' it' k.
Proof.
  intros Hr Hc (i & j & a & n & l & zl & es & v & He & -> & Hx & _ & _ & -> & ->). pose proof He as [Hi Hl Ez Hz Hst Hj]. pose proof (lookup_lt_Some _ _ _ Hl) as Hlt. pose proof (shape_len _ _ _ (rp_shape _ _ _ _ Hr)) as Hlen.
  destruct (del_index (be:=be) (junk:=junk) (hjunk:=hjunk) h q xs ls i a n l zl es j Hr Hi Hl Ez Hz Hst Hj) as (h' & q' & gone & xs' & Ed & O' & Hgone & Hrest).
  unfold quicklistDelEntry, deref. cbn [e_node e_zi e_value e_offset mbind option_bind]. rewrite (heap_get h xs i a n (proj1 (rp_shape _ _ _ _ Hr)) Hi). cbn [mbind option_bind]. rewrite Ed. cbn [mbind option_bind]. change (q_next (linked ?p ?y n)) with y. change (q_prev (linked ?p ?y n)) with p. cbn [it_direction it_current it_offset].
  destruct (take_concat ls i l j Hl ltac:(lia)) as [Tk _]. destruct (take_concat ls i l (S j) Hl ltac:(lia)) as [_ Dk]. rewrite Nat.add_succ_r in Dk. rewrite Tk, Dk. symmetry in Hgone.
  destruct gone.
  - apply bool_decide_eq_true in Hgone. assert (j = 0%nat) as -> by lia. destruct Hrest as [R' F']. pose proof (shape_len _ _ _ (rp_shape _ _ _ _ R')) as Hlen'. pose proof (length_del i ls l Hl) as Hld.
    eexists h', q', _, _, xs', (delete i ls). split; [done|]. split; [done|]. split; [done|]. split; [rewrite concat_delete, take_0, (drop_ge l) by lia; by rewrite app_nil_r|].
    destruct d; cbn [it_direction it_zi it_current it_offset fresh_iter]; (split; [done|]); (split; [done|]); cbn [it_current it_offset].
    + destruct (decide (S i < length xs)%nat) as [Hnext|Hend].
      * right. destruct (lookup_lt_is_Some_2 ls (S i) ltac:(lia)) as [l' Hl']. exists i, l', 0%nat. split; [rewrite delete_lookup; by rewrite bool_decide_eq_false_2 by lia|]. split; [lia|]. split; [rewrite (at_removed _ _ _ F'); by rewrite bool_decide_eq_false_2 by lia|]. split; [done|]. by rewrite take_delete_lt by lia.
      * left. split; [by apply at_ge; lia|]. rewrite concat_delete, (drop_ge ls) by lia. cbn. rewrite app_nil_r. lia.
    + destruct i as [|i]; cbn [pv]; [by left|]. right. destruct (lookup_lt_is_Some_2 ls i ltac:(lia)) as [l' Hl']. exists i, l', (length l'). split; [rewrite delete_lookup; by rewrite bool_decide_eq_true_2 by lia|]. split; [lia|]. split; [rewrite (at_removed _ _ _ F'); by rewrite bool_decide_eq_true_2 by lia|]. split; [unfold zlen; lia|]. rewrite take_delete_lt by lia. rewrite (concat_take_S ls i l' Hl'), length_app. lia.
  - apply bool_decide_eq_false in Hgone. destruct Hrest as (R' & F' & _). set (l' := take j l ++ drop (S j) l) in *. assert (Hl' : length l = S (length l')) by (unfold l'; rewrite length_app, length_take, length_drop; lia).
    eexists h', q', _, _, xs', (<[i := l']> ls). split; [done|]. split; [done|]. split; [done|]. split; [rewrite (proj2 (concat_at ls i l Hl)); unfold l'; by rewrite <- !app_assoc|].
    split; [done|]. split; [done|]. right. exists i, l', j. cbn [it_current it_offset]. split; [by apply list_lookup_insert_eq|]. split; [lia|]. split; [rewrite (at_fst _ _ F'); symmetry; by eapply at_cell|]. split; [destruct d; cbn [offset_of]; unfold zlen in *; lia|]. by rewrite take_insert_ge by lia.
Qed.
(** Iterators at an index: forward from an index counted from the head, or
    backward from one counted from the tail. *)
Lemma iter_at h q xs ls d idx : ql_rep h q xs ls -> ql_compress q = 0 -> match d with AL_START_HEAD => 0 <= idx < 2 ^ 63 | AL_START_TAIL => - 2 ^ 63 < idx < 0 end ->
  exists it, quicklistGetIteratorAtIdx be junk h q d idx = Some (h, it) /\
    match place (concat ls) idx with None => it = None | Some g => exists i, it = Some i /\ fresh_iter d xs ls i (match d with AL_START_HEAD => g | AL_START_TAIL => S g end) end.
Proof.
  intros Hr Hc Hd. unfold quicklistGetIteratorAtIdx. destruct (place (concat ls) idx) as [g|] eqn:Ep.
  2:{ rewrite (index_miss h q xs ls idx Hr ltac:(destruct d; lia) Ep). cbn [mbind option_bind]. by exists None. }
  destruct (lookup_lt_is_Some_2 (concat ls) g (place_lt _ _ _ Ep)) as [x Hx]. destruct (index_ok h q xs ls idx g x Hr Hc ltac:(destruct d; lia) Ep Hx) as (i & j & a & n & l & zl & es & v & -> & He & Hg & _). pose proof He as [Hi Hl Ez Hz Hst Hj]. cbn [mbind option_bind e_node e_offset]. eexists. split; [done|]. eexists. split; [done|]. split; [done|]. split; [done|]. right.
  destruct d; [exists i, l, j|exists i, l, (S j)]; cbn [it_current it_offset]; (split; [done|]); (split; [lia|]); (split; [symmetry; by eapply at_cell|]).
  - rewrite (proj2 (Z.ltb_ge idx 0)) by lia. done.
  - rewrite (proj2 (Z.ltb_lt idx 0)) by lia. split; [lia|]. lia.
Qed.
Lemma compare_got h q xs ls d it e k x s : ql_rep h q xs ls -> got d xs ls k x it e ->
  (n ← deref h (e_node e); zl ← raw n; p ← e_zi e; quicklistCompare be zl p s) = Some (bool_decide (x = s)).
Proof.
  intros Hr (i & j & a & n & l & zl & es & v & [Hi Hl Ez Hz Hst Hj] & _ & Hx & _ & _ & -> & _). unfold deref. cbn [e_node e_zi mbind option_bind]. rewrite (heap_get h xs i a n (proj1 (rp_shape _ _ _ _ Hr)) Hi). cbn [mbind option_bind]. rewrite raw_linked. unfold raw. rewrite Ez. cbn [mbind option_bind]. unfold quicklistCompare.
  destruct (lookup_lt_is_Some_2 es j ltac:(by rewrite <- strings_len, Hst)) as [y Hy]. rewrite (take_cons_split es j y Hy) in Hz. rewrite (zl_compare (be:=be) zl _ y _ Hz). rewrite <- Hst in Hx. unfold strings in Hx. rewrite list_lookup_fmap, Hy in Hx. injection Hx as <-. done.
Qed.
Lemma insert_got h q xs ls it e k x v after : ql_rep h q xs ls -> ql_compress q = 0 -> got AL_START_HEAD xs ls k x it e -> bytes_ok v -> 40 + 2 * (weight (concat ls) + zlen v + 18) < 2 ^ 32 ->
  exists h' q', _quicklistInsert be junk hjunk h q e v after = Some (h', q') /\ same_opts q q' /\ qrep h' q' (put (if after then S k else k) v (concat ls)).
Proof.
  intros Hr Hc (i & j & a & n & l & zl & es & w & He & -> & _ & _ & _ & -> & _) Hv Hw. destruct (ql_insert_entry h q xs ls i j a n l zl es (Some w) v after Hr Hc He Hv Hw) as (h' & q' & E & O & R). exists h', q'. split; [exact E|]. split; [done|]. destruct after; [by rewrite Nat.add_succ_r in R|done].
Qed.

(** ** Sequences of operations *)
Lemma put_weight k v L : weight (put k v L) = weight L + zlen v + 18.
Proof. unfold put. rewrite weight_app, weight_cons. rewrite (weight_split k L). lia. Qed.
Lemma insert_weight g v L : weight (<[g := v]> L) <= weight L + zlen v + 18.
Proof.
  pose proof (zlen_nonneg v). destruct (decide (g < length L)%nat) as [Hg|Hg]; [|rewrite list_insert_ge by lia; lia].
  rewrite insert_take_drop, weight_app, weight_cons by done. rewrite (weight_split g L). destruct (lookup_lt_is_Some_2 L g Hg) as [x Hx]. rewrite (drop_S L x g Hx), weight_cons. pose proof (zlen_nonneg x). lia.
Qed.
Lemma new_options fill depth : -5 <= ql_fill (quicklistNew fill depth) <= 32767 /\ ql_compress (quicklistNew fill depth) = Z.max 0 (Z.min 65535 depth).
Proof.
  unfold quicklistNew, quicklistSetOptions, quicklistSetFill, quicklistSetCompressDepth, FILL_MAX, COMPRESS_MAX. cbn [ql_fill ql_compress]. rewrite !Z.gtb_ltb. change (2 ^ 15 - 1) with 32767. change (2 ^ 16 - 1) with 65535.
  destruct (Z.ltb_spec 32767 fill), (Z.ltb_spec fill (-5)), (Z.ltb_spec 65535 depth), (Z.ltb_spec depth 0); lia.
Qed.
Lemma qrep_new fill depth : qrep ∅ (quicklistNew fill depth) [].
Proof.
  destruct (new_options fill depth) as [Hf Hc]. exists [], []. split; [|done]. split; try done.
  - split; [split; [constructor|done]|constructor].
  - split; try done. rewrite Hc. lia.
Qed.
Inductive ql_op :=
| QPush (v : list Z) (w : ql_where) | QPop (w : ql_where) | QRotate
| QIndex (idx : Z) | QReplace (idx : Z) (v : list Z) | QInsert (idx : Z) (v : list Z) (after : bool) | QDelRange (start count : Z).
Inductive ql_reply := QNone | QStr (s : option (list Z)) | QBool (b : bool).
(** The operations on the heap and the list. *)
Definition ql_step (s : qheap * quicklist) (o : ql_op) : option (qheap * quicklist * ql_reply) :=
  let '(h, q) := s in
  match o with
  | QPush v w => '(h, q) ← quicklistPush be junk hjunk h q v w; Some (h, q, QNone)
  | QPop w => '(h, q, r) ← quicklistPop be junk hjunk h q w; Some (h, q, QStr (option_map pop_str r))
  | QRotate => '(h, q) ← quicklistRotate be junk hjunk h q; Some (h, q, QNone)
  | QIndex idx => '(h, e, found) ← quicklistIndex be junk h q idx; Some (h, q, QStr (if (found : bool) then option_map value_str (e_value e) else None))
  | QReplace idx v => '(h, b) ← quicklistReplaceAtIndex be junk hjunk h q idx v; Some (h, q, QBool b)
  | QInsert idx v after =>
      '(h, e, found) ← quicklistIndex be junk h q idx;
      if (found : bool) then '(h, q) ← (if after then quicklistInsertAfter be junk hjunk h q e v else quicklistInsertBefore be junk hjunk h q e v); Some (h, q, QBool true)
      else Some (h, q, QBool false)
  | QDelRange start count => '(h, q, b) ← quicklistDelRange be junk hjunk h q start count; Some (h, q, QBool b)
  end.
Fixpoint ql_run (s : qheap * quicklist) (ops : list ql_op) : option (qheap * quicklist * list ql_reply) :=
  match ops with
  | [] => Some (s, [])
  | o :: ops => '(s, r) ← ql_step s o; '(s, rs) ← ql_run s ops; Some (s, r :: rs)
  end.
(** What they do to a list of strings. *)
Definition spec_step (L : list (list Z)) (o : ql_op) : list (list Z) * ql_reply :=
  match o with
  | QPush v QUICKLIST_HEAD => (v :: L, QNone)
  | QPush v QUICKLIST_TAIL => (L ++ [v], QNone)
  | QPop w => ((spec_pop L w).1, QStr (spec_pop L w).2)
  | QRotate => (spec_rotate L, QNone)
  | QIndex idx => (L, QStr (g ← place L idx; L !! g))
  | QReplace idx v => match place L idx with Some g => (<[g := v]> L, QBool true) | None => (L, QBool false) end
  | QInsert idx v after => match place L idx with Some g => (put (if after then S g else g) v L, QBool true) | None => (L, QBool false) end
  | QDelRange start count => ((spec_delrange L start count).1, QBool (spec_delrange L start count).2)
  end.
Fixpoint spec_steps (L : list (list Z)) (ops : list ql_op) : list (list Z) * list ql_reply :=
  match ops with [] => (L, []) | o :: ops => let '(L, r) := spec_step L o in let '(L, rs) := spec_steps L ops in (L, r :: rs) end.
(** The bytes an operation may add. *)
Definition ql_op_weight (o : ql_op) : Z := match o with QPush v _ | QReplace _ v | QInsert _ v _ => zlen v + 18 | _ => 0 end.
Definition ql_ops_weight (ops : list ql_op) : Z := foldr (fun o w => ql_op_weight o + w) 0 ops.
(** The operations at the ends. *)
Definition end_op (o : ql_op) : Prop := match o with QPush v _ => bytes_ok v | QPop _ | QRotate => True | _ => False end.
(** The positions: no index is the least number, insertions count from the
    head, ranges begin at the head or are counted from the tail. *)
Definition ql_op_ok (o : ql_op) : Prop :=
  match o with
  | QPush v _ => bytes_ok v
  | QPop _ | QRotate => True
  | QIndex idx => - 2 ^ 63 < idx < 2 ^ 63
  | QReplace idx v => - 2 ^ 63 < idx < 2 ^ 63 /\ bytes_ok v
  | QInsert idx v _ => 0 <= idx < 2 ^ 63 /\ bytes_ok v
  | QDelRange start count => - 2 ^ 63 < start <= 0 /\ count < 2 ^ 63
  end.
Lemma pop_perm L w : L ≡ₚ option_list (spec_pop L w).2 ++ (spec_pop L w).1.
Proof.
  destruct w; cbn [spec_pop fst snd].
  - by destruct L.
  - destruct (L !! (length L - 1)%nat) as [x|] eqn:E.
    + rewrite <- (take_drop (length L - 1) L) at 1. rewrite (drop_S _ _ _ E), (drop_ge L) by (apply lookup_lt_Some in E; lia). cbn [option_list app]. by rewrite Permutation_app_comm.
    + apply lookup_ge_None in E. destruct L; [done|cbn in E; lia].
Qed.
Lemma rotate_perm L : spec_rotate L ≡ₚ L.
Proof. rewrite (pop_perm L QUICKLIST_TAIL) at 2. unfold spec_rotate. cbn [spec_pop fst snd]. destruct (L !! _) eqn:E; [done|]. apply lookup_ge_None in E. destruct L; [done|cbn in E; lia]. Qed.
Lemma weight_perm a b : a ≡ₚ b -> weight a = weight b.
Proof. induction 1; rewrite ?weight_cons; lia. Qed.
Lemma step_grows L o : weight (spec_step L o).1 <= weight L + ql_op_weight o.
Proof.
  destruct o as [v []|w| |idx|idx v|idx v a|s c]; cbn [spec_step fst ql_op_weight].
  - rewrite weight_cons. lia.
  - rewrite weight_app, weight_cons. cbn. lia.
  - rewrite (weight_perm _ _ (pop_perm L w)), weight_app. pose proof (weight_nonneg (option_list (spec_pop L w).2)). lia.
  - rewrite (weight_perm _ _ (rotate_perm L)). lia.
  - lia.
  - pose proof (zlen_nonneg v). destruct (place L idx) as [g|]; cbn [fst]; [pose proof (insert_weight g v L)|]; lia.
  - pose proof (zlen_nonneg v). destruct (place L idx) as [g|]; cbn [fst]; [rewrite put_weight|]; lia.
  - unfold spec_delrange. destruct (c <=? 0); [cbn [fst]; lia|]. destruct (place L s) as [g|]; cbn [fst]; [pose proof (weight_drop g (Z.to_nat c) L)|]; lia.
Qed.
Lemma step_bytes L o : Forall bytes_ok L -> ql_op_ok o -> Forall bytes_ok (spec_step L o).1.
Proof.
  intros HL. destruct o as [v []|w| |idx|idx v|idx v a|s c]; cbn [spec_step fst ql_op_ok].
  - by constructor.
  - intros Hv. apply Forall_app. by repeat constructor.
  - intros _. rewrite (pop_perm L w) in HL. by apply Forall_app in HL as [_ HL].
  - intros _. by rewrite rotate_perm.
  - done.
  - intros [_ Hv]. destruct (place L idx); cbn [fst]; [by apply Forall_insert|done].
  - intros [_ Hv]. destruct (place L idx); cbn [fst]; [|done]. unfold put. apply Forall_app. split; [by apply Forall_take|]. constructor; [done|by apply Forall_drop].
  - intros _. unfold spec_delrange. destruct (c <=? 0); [done|]. destruct (place L s); cbn [fst]; [|done]. apply Forall_app. split; [by apply Forall_take|by apply Forall_drop].
Qed.
(** One step, at the ends whatever the depth or anywhere without compression. *)
Definition step_refines (h : qheap) (q : quicklist) (L : list (list Z)) (o : ql_op) : Prop :=
  exists h' q', ql_step (h, q) o = Some (h', q', (spec_step L o).2) /\ same_opts q q' /\ qrep h' q' (spec_step L o).1.
Lemma end_refines h q L o : qrep h q L -> Forall bytes_ok L -> end_op o -> 40 + 2 * (weight L + ql_op_weight o) < 2 ^ 32 -> step_refines h q L o.
Proof.
  intros Hr HL Ho Hw. pose proof (weight_nonneg L). unfold step_refines. destruct o as [v []|w| | | | |]; try done; cbn [ql_step spec_step fst snd end_op ql_op_weight] in *.
  - destruct Hr as (xs & ls & Hr & <-). pose proof (zlen_nonneg v). destruct (push_head (be:=be) (junk:=junk) (hjunk:=hjunk) h q xs ls v Hr Ho ltac:(lia)) as (h' & q' & r & xs' & ls' & E & R & C & O & _). exists h', q'. unfold quicklistPush. rewrite E. cbn [mbind option_bind]. split; [done|]. split; [done|]. by exists xs', ls'.
  - pose proof (zlen_nonneg v). destruct (push_tail (be:=be) (junk:=junk) (hjunk:=hjunk) h q L v Hr Ho ltac:(lia)) as (h' & q' & r & E & R & O). exists h', q'. unfold quicklistPush. rewrite E. done.
  - destruct (pop_spec (be:=be) (junk:=junk) (hjunk:=hjunk) h q L w Hr) as (h' & q' & r & E & O & R & V). exists h', q'. rewrite E. cbn [mbind option_bind]. by rewrite V.
  - destruct (rotate_spec (be:=be) (junk:=junk) (hjunk:=hjunk) h q L Hr ltac:(lia) HL) as (h' & q' & E & O & R). exists h', q'. by rewrite E.
Qed.
Lemma position_refines h q L o : qrep h q L -> Forall bytes_ok L -> ql_compress q = 0 -> ql_op_ok o -> 40 + 2 * (weight L + ql_op_weight o) < 2 ^ 32 -> step_refines h q L o.
Proof.
  intros Hr HL Hc Ho Hw. pose proof (weight_nonneg L). unfold step_refines. destruct o as [v w|w| |idx|idx v|idx v a|s c]; [by apply end_refines..| | | |]; cbn [ql_step spec_step fst snd ql_op_ok ql_op_weight] in *.
  - destruct Hr as (xs & ls & Hr & <-). destruct (place (concat ls) idx) as [g|] eqn:Ep.
    + destruct (lookup_lt_is_Some_2 _ g (place_lt _ _ _ Ep)) as [x Hx]. destruct (index_ok h q xs ls idx g x Hr Hc Ho Ep Hx) as (i & j & a & n & l & zl & es & v & E & _ & _ & _ & Hv & _). rewrite E. cbn [mbind option_bind e_value option_map]. rewrite Hx, Hv. exists h, q. split; [done|]. split; [done|]. by exists xs, ls.
    + rewrite (index_miss h q xs ls idx Hr Ho Ep). cbn [mbind option_bind]. exists h, q. split; [done|]. split; [done|]. by exists xs, ls.
  - pose proof (zlen_nonneg v). destruct (replace_spec h q L idx v Hr Hc (proj1 Ho) (proj2 Ho) ltac:(lia)) as (h' & E & R). exists h', q. rewrite E. cbn [mbind option_bind]. by destruct (place L idx).
  - pose proof (zlen_nonneg v). destruct Ho as [Hi Hv]. destruct Hr as (xs & ls & Hr & <-). destruct (place (concat ls) idx) as [g|] eqn:Ep.
    + destruct (lookup_lt_is_Some_2 _ g (place_lt _ _ _ Ep)) as [x Hx]. destruct (index_ok h q xs ls idx g x Hr Hc ltac:(lia) Ep Hx) as (i & j & b & n & l & zl & es & u & E & He & Hg & _). rewrite E. rewrite (proj2 (Z.ltb_ge idx 0)) by lia. cbn [mbind option_bind].
      destruct (ql_insert_entry h q xs ls i j b n l zl es (Some u) v a Hr Hc He Hv ltac:(lia)) as (h' & q' & E' & O & R). exists h', q'. cbn [fst snd]. split; [|split; [done|]].
      * destruct a; unfold quicklistInsertAfter, quicklistInsertBefore; by rewrite E'.
      * destruct a; rewrite Hg, <- ?Nat.add_succ_r; exact R.
    + rewrite (index_miss h q xs ls idx Hr ltac:(lia) Ep). cbn [mbind option_bind]. exists h, q. split; [done|]. split; [done|]. by exists xs, ls.
  - destruct (delrange_spec h q L s c Hr Hc (proj1 Ho) (proj2 Ho)) as (h' & q' & E & O & R). exists h', q'. by rewrite E.
Qed.
Lemma ops_weight_nonneg ops : 0 <= ql_ops_weight ops.
Proof. induction ops as [|o ops IH]; [done|]. cbn [ql_ops_weight foldr] in *. fold (ql_ops_weight ops). destruct o; cbn [ql_op_weight]; try pose proof (zlen_nonneg v); unfold ql_ops_weight in *; lia. Qed.
Lemma ql_run_refines (ok : ql_op -> Prop) (c : Z) : (forall o, ok o -> ql_op_ok o) -> (forall h q L o, qrep h q L -> Forall bytes_ok L -> ql_compress q = c -> ok o -> 40 + 2 * (weight L + ql_op_weight o) < 2 ^ 32 -> step_refines h q L o) ->
  forall ops h q L, qrep h q L -> Forall bytes_ok L -> ql_compress q = c -> Forall ok ops -> 40 + 2 * (weight L + ql_ops_weight ops) < 2 ^ 32 ->
  exists h' q', ql_run (h, q) ops = Some (h', q', (spec_steps L ops).2) /\ qrep h' q' (spec_steps L ops).1.
Proof.
  intros Hok Hstep. induction ops as [|o ops IH]; intros h q L Hr HL Hc Hops Hw; [by exists h, q|].
  apply Forall_cons in Hops as [Ho Hops]. change (ql_ops_weight (o :: ops)) with (ql_op_weight o + ql_ops_weight ops) in Hw. pose proof (ops_weight_nonneg ops).
  destruct (Hstep h q L o Hr HL Hc Ho ltac:(lia)) as (h1 & q1 & E1 & O1 & R1). pose proof (step_grows L o) as Hg. pose proof (step_bytes L o HL (Hok o Ho)) as HL1. cbn [ql_run spec_steps]. rewrite E1. destruct (spec_step L o) as [L1 r]. cbn [fst snd] in *.
  destruct (IH h1 q1 L1 R1 HL1 ltac:(by rewrite (proj2 O1)) Hops ltac:(lia)) as (h2 & q2 & E2 & R2). exists h2, q2. cbn [mbind option_bind]. rewrite E2. by destruct (spec_steps L1 ops).
Qed.
End Positions.
Arguments ql_run {_} be junk hjunk s ops.
Arguments ql_step {_} be junk hjunk s o.

(** C19: A quicklist used at its ends is a list of strings, at every fill
    factor and compression depth, on both byte orders, whatever the allocator
    returns and whatever fresh memory and the hash table of the compressor
    hold: pushes and pops at both ends and rotations, in any order from a new
    list, all succeed, answer what they answer on a list of strings and leave
    a quicklist that holds that list, its count included, as long as the
    strings are bytes and stay under the 4 GB of a ziplist. *)
Theorem quicklist_ends_refine `{QAllocator} (be : bool) (junk : nat -> Z) (hjunk : Z -> Z) (fill depth : Z) (ops : list ql_op) :
  Forall end_op ops -> 40 + 2 * ql_ops_weight ops < 2 ^ 32 ->
  exists h q, ql_run be junk hjunk (∅, quicklistNew fill depth) ops = Some (h, q, (spec_steps [] ops).2) /\ qrep h q (spec_steps [] ops).1 /\ quicklistCount q = zlen (spec_steps [] ops).1.
Proof.
  intros Ho Hw. destruct (ql_run_refines (be:=be) (junk:=junk) (hjunk:=hjunk) end_op _ ltac:(by intros []) ltac:(intros h q L o Hr HL _ Ho' Hw'; by apply end_refines) ops _ _ [] (qrep_new fill depth) (Forall_nil_2 _) eq_refl Ho Hw) as (h & q & E & R).
  exists h, q. split; [exact E|]. split; [exact R|]. destruct R as (xs & ls & R & <-). apply R.
Qed.
(** C20: Without compression, a quicklist is a list of strings for reads and
    replacements at an index from either end, insertions before and after an
    index from the head (counted from the tail they can lose elements, see
    [quicklist_insert_negative]), the deletion of ranges from the head or counted from the tail (the
    ranges its callers delete) and the operations at the ends: sequences of
    them, which split and merge nodes as the fill factor asks, all succeed and
    answer and leave what they do on a list of strings. *)
Theorem quicklist_positions_refine `{QAllocator} (be : bool) (junk : nat -> Z) (hjunk : Z -> Z) (fill : Z) (ops : list ql_op) :
  Forall ql_op_ok ops -> 40 + 2 * ql_ops_weight ops < 2 ^ 32 ->
  exists h q, ql_run be junk hjunk (∅, quicklistNew fill 0) ops = Some (h, q, (spec_steps [] ops).2) /\ qrep h q (spec_steps [] ops).1 /\ quicklistCount q = zlen (spec_steps [] ops).1.
Proof.
  intros Ho Hw. destruct (ql_run_refines (be:=be) (junk:=junk) (hjunk:=hjunk) ql_op_ok 0 ltac:(done) ltac:(intros h q L o Hr HL Hc Ho' Hw'; by apply position_refines) ops _ _ [] (qrep_new fill 0) (Forall_nil_2 _) (proj2 (new_options fill 0)) Ho Hw) as (h & q & E & R).
  exists h, q. split; [exact E|]. split; [exact R|]. destruct R as (xs & ls & R & <-). apply R.
Qed.

(** ** Examples *)
#[local] Instance first_free : QAllocator := {| znode h := fresh (dom h); znode_fresh h := not_elem_of_dom_1 h (fresh (dom h)) (is_fresh (dom h)) |}.
Definition letters (n : nat) (cs : list Z) : list ql_op := map (fun c => QPush (replicate n c) QUICKLIST_TAIL) cs.
(** The deletion of a range that starts inside a node and goes on in the
    next one is cut short: of the seven elements a to g, five in the first
    node, quicklistDelRange(2, 4) deletes c, d and e but not f, and counts
    four, so that b can no longer be found either. *)
Theorem quicklist_delrange_inside : exists h q h' q', let ops := letters 1 [97; 98; 99; 100; 101; 102; 103] in
  ql_run false (fun _ => 0) (fun _ => 0) (∅, quicklistNew 5 0) ops = Some (h, q, (spec_steps [] ops).2) /\ quicklistCount q = 7 /\
  ql_run false (fun _ => 0) (fun _ => 0) (h, q) [QDelRange 2 4; QIndex 0; QIndex 1; QIndex 2; QIndex 3] = Some (h', q', [QBool true; QStr (Some [97]); QStr (Some [102]); QStr (Some [103]); QStr None]) /\
  (spec_steps (spec_steps [] ops).1 [QDelRange 2 4; QIndex 0; QIndex 1; QIndex 2; QIndex 3]).2 = [QBool true; QStr (Some [97]); QStr (Some [98]); QStr (Some [103]); QStr None].
Proof. eexists _, _, _, _. cbv zeta. split; [vm_compute; reflexivity|]. split; [vm_compute; reflexivity|]. split; vm_compute; reflexivity. Qed.
(** The insertion at an index counted from the tail splits a full node at the
    wrong place: into a node of the three elements a, b and c, x inserted after
    the element -2, which is b, gives a, b and x, counted as four elements,
    and after the element -1, which is c, gives x, a, b and c. *)
Theorem quicklist_insert_negative : exists h q h1 q1 h2 q2, let ops := letters 1 [97; 98; 99] in
  let read := [QIndex 0; QIndex 1; QIndex 2; QIndex 3] in
  ql_run false (fun _ => 0) (fun _ => 0) (∅, quicklistNew 3 0) ops = Some (h, q, (spec_steps [] ops).2) /\
  ql_run false (fun _ => 0) (fun _ => 0) (h, q) (QInsert (-2) [120] true :: read) = Some (h1, q1, [QBool true; QStr (Some [97]); QStr (Some [98]); QStr (Some [120]); QStr None]) /\ quicklistCount q1 = 4 /\
  ql_run false (fun _ => 0) (fun _ => 0) (h, q) (QInsert (-1) [120] true :: read) = Some (h2, q2, QBool true :: map (fun c => QStr (Some [c])) [120; 97; 98; 99]).
Proof. eexists _, _, _, _, _, _. cbv zeta. split; [vm_compute; reflexivity|]. split; [vm_compute; reflexivity|]. split; vm_compute; reflexivity. Qed.
Definition ends_session : list ql_op := letters 60 [97; 98; 99; 100; 101; 102; 103] ++ [QRotate; QPop QUICKLIST_HEAD; QPush [49; 50] QUICKLIST_HEAD; QPop QUICKLIST_TAIL; QPop QUICKLIST_HEAD; QPop QUICKLIST_HEAD; QRotate].
Definition positions_session : list ql_op := letters 1 [97; 98; 99; 100; 101; 102; 103] ++
  [QInsert 3 [49; 50] true; QIndex 4; QReplace (-2) [120]; QInsert 0 [121] false; QDelRange (-3) 2; QIndex (-1); QDelRange 0 3; QIndex 9; QPop QUICKLIST_TAIL].
Lemma letters_end n cs : bytes_ok cs -> Forall end_op (letters n cs).
Proof. intros Hc. unfold letters. apply Forall_map. eapply Forall_impl; [exact Hc|]. intros c Hb. cbn. by apply Forall_replicate. Qed.
Lemma ends_ok ops : Forall end_op ops -> Forall ql_op_ok ops.
Proof. intros Ho. eapply Forall_impl; [exact Ho|]. by intros []. Qed.
Lemma quicklist_ends_refine_witness : exists h q, ql_run false (fun _ => 0) (fun _ => 0) (∅, quicklistNew 2 1) ends_session = Some (h, q, (spec_steps [] ends_session).2) /\ qrep h q (spec_steps [] ends_session).1 /\ quicklistCount q = zlen (spec_steps [] ends_session).1.
Proof. apply quicklist_ends_refine; [|vm_compute; reflexivity]. apply Forall_app. split; [apply letters_end|]; repeat constructor; unfold byte_ok; lia. Defined.
Lemma quicklist_positions_refine_witness : exists h q, ql_run true (fun _ => 0) (fun _ => 0) (∅, quicklistNew 3 0) positions_session = Some (h, q, (spec_steps [] positions_session).2) /\ qrep h q (spec_steps [] positions_session).1 /\ quicklistCount q = zlen (spec_steps [] positions_session).1.
Proof. apply quicklist_positions_refine; [|vm_compute; reflexivity]. apply Forall_app. split; [by apply ends_ok, letters_end; repeat constructor; unfold byte_ok; lia|]. repeat constructor; unfold byte_ok; lia. Defined.
