(* ===== verification/Tlist.v ===== *)
(** * Lists (t_list.c)

    A list object is a quicklist; the commands work on a keyspace of lists and
    values of other types.  No operation takes a node from one list to another,
    so the nodes of each list are a heap of their own.  Lists refine lists of
    byte strings: every command when nodes are not compressed, the commands
    that work at the ends of a list at every compression depth.  Lengths in
    replies are unbounded integers where the code has an int or an unsigned
    long; the blocking commands are in [Blocked]. *)
From Stdlib Require Import Strings.String.
From S2P Require Import Prelude Endian Util Lzf Ziplist ZiplistEdit ZiplistSpec Quicklist QuicklistShape QuicklistEnds QuicklistSpec.
#[local] Open Scope cmem_scope.

Abbreviation listobj := (qheap * quicklist)%type.
Inductive list_where := LIST_HEAD | LIST_TAIL.
(** [li->iter] and [li->direction]. *)
Record listTypeIterator := mk_li { li_iter : option quicklistIter; li_direction : list_where }.

Section Tlist.
  Context `{QAllocator} (be : bool) (junk : nat -> Z) (hjunk : Z -> Z) (list_max_ziplist_size list_compress_depth : Z).

(** ** The list type *)
Definition listTypePush (subject : listobj) (value : list Z) (w : list_where) : option listobj :=
  let pos := match w with LIST_HEAD => QUICKLIST_HEAD | LIST_TAIL => QUICKLIST_TAIL end in
  quicklistPush be junk hjunk subject.1 subject.2 value pos.
Definition listPopSaver (data : list Z) : list Z := data.
(** An integer is returned as the string createStringObjectFromLongLong makes. *)
Definition listTypePop (subject : listobj) (w : list_where) : option (listobj * option (list Z)) :=
  let ql_where := match w with LIST_HEAD => QUICKLIST_HEAD | LIST_TAIL => QUICKLIST_TAIL end in
  '(h, q, value) ← quicklistPopCustom be junk hjunk listPopSaver subject.1 subject.2 ql_where;
  Some (h, q, match value with None => None | Some (inl s) => Some s | Some (inr vlong) => Some (dec vlong) end).
Definition listTypeLength (subject : listobj) : Z := quicklistCount subject.2.
Definition listTypeInitIterator (subject : listobj) (index : Z) (direction : list_where) : option (listobj * listTypeIterator) :=
  let iter_direction := match direction with LIST_HEAD => AL_START_TAIL | LIST_TAIL => AL_START_HEAD end in
  '(h, iter) ← quicklistGetIteratorAtIdx be junk subject.1 subject.2 iter_direction index;
  Some (h, subject.2, mk_li iter direction).
Definition listTypeNext (subject : listobj) (li : listTypeIterator) : option (listobj * listTypeIterator * quicklistEntry * bool) :=
  '(h, iter, entry, found) ← quicklistNext be junk hjunk subject.1 subject.2 (li_iter li);
  Some (h, subject.2, mk_li iter (li_direction li), entry, found).
(** [None]: an entry without a value, whose [longval] was never set. *)
Definition listTypeGet (entry : quicklistEntry) : option (list Z) :=
  match e_value entry with Some (ZlStr s) => Some s | Some (ZlInt v) => Some (dec v) | None => None end.
Definition listTypeInsert (subject : listobj) (entry : quicklistEntry) (value : list Z) (w : list_where) : option listobj :=
  match w with
  | LIST_TAIL => quicklistInsertAfter be junk hjunk subject.1 subject.2 entry value
  | LIST_HEAD => quicklistInsertBefore be junk hjunk subject.1 subject.2 entry value
  end.
Definition listTypeEqual (subject : listobj) (entry : quicklistEntry) (o : list Z) : option bool :=
  n ← deref subject.1 (e_node entry); zl ← raw n; p ← e_zi entry; quicklistCompare be zl p o.
Definition listTypeDelete (subject : listobj) (iter : listTypeIterator) (entry : quicklistEntry) : option (listobj * listTypeIterator * quicklistEntry) :=
  it ← li_iter iter;
  '(h, q, it, entry) ← quicklistDelEntry be junk hjunk subject.1 subject.2 it entry;
  Some (h, q, mk_li (Some it) (li_direction iter), entry).
(** A list read as one ziplist becomes a quicklist. *)
Definition listTypeConvert (zl : list Z) : option listobj := quicklistCreateFromZiplist be junk hjunk ∅ list_max_ziplist_size list_compress_depth zl.

(** ** The keyspace *)
Inductive value := VList (o : listobj) | VOther (type : Z).
Record state := mk_state {
  db : gmap (list Z) value;
  dirty : Z;
  touched : list (list Z);            (* signalModifiedKey, latest first *)
  notified : list (list Z * list Z);  (* notifyKeyspaceEvent: the event and the key *)
  added : list (list Z)               (* dbAdd, which signals the key as ready *)
}.
(** An array with the length that is announced. *)
Inductive reply := ReplyInt (n : Z) | ReplyWrongType | ReplyError (msg : list Z) | ReplyOk | ReplyBulk (s : option (list Z)) | ReplyArray (len : Z) (l : list (list Z)).
#[local] Abbreviation text s := (bytes_of_string s%string).
Definition not_integer : reply := ReplyError (text "value is not an integer or out of range").

Definition put_list (st : state) (key : list Z) (o : listobj) : state := mk_state (<[key := VList o]> (db st)) (dirty st) (touched st) (notified st) (added st).
Definition add_list (st : state) (key : list Z) (o : listobj) : state := mk_state (<[key := VList o]> (db st)) (dirty st) (touched st) (notified st) (key :: added st).
Definition delete_key (st : state) (key : list Z) : state := mk_state (delete key (db st)) (dirty st) (touched st) (notified st) (added st).
Definition touch_key (st : state) (key : list Z) : state := mk_state (db st) (dirty st) (key :: touched st) (notified st) (added st).
Definition notify_event (st : state) (event key : list Z) : state := mk_state (db st) (dirty st) (touched st) ((event, key) :: notified st) (added st).
Definition add_dirty (st : state) (n : Z) : state := mk_state (db st) (dirty st + n) (touched st) (notified st) (added st).
(** createQuicklistObject and quicklistSetOptions. *)
Definition new_list : listobj := (∅, quicklistSetOptions quicklistCreate list_max_ziplist_size list_compress_depth).

(** ** Commands *)
Fixpoint push_args (lobj : option listobj) (args : list (list Z)) (w : list_where) : option (option listobj) :=
  match args with
  | [] => Some lobj
  | v :: args => o ← listTypePush (default new_list lobj) v w; push_args (Some o) args w
  end.
Definition push_event (w : list_where) : list Z := match w with LIST_HEAD => text "lpush" | LIST_TAIL => text "rpush" end.
Definition pushed (st : state) (key : list Z) (n : Z) (w : list_where) : state :=
  add_dirty (if n =? 0 then st else notify_event (touch_key st key) (push_event w) key) n.
Definition pushGenericCommand (st : state) (key : list Z) (args : list (list Z)) (w : list_where) : option (state * reply) :=
  match db st !! key with
  | Some (VOther _) => Some (st, ReplyWrongType)
  | v =>
      lobj ← push_args (match v with Some (VList o) => Some o | _ => None end) args w;
      let st := match lobj with Some o => match v with None => add_list st key o | _ => put_list st key o end | None => st end in
      Some (pushed st key (zlen args) w, ReplyInt (match lobj with Some o => listTypeLength o | None => 0 end))
  end.
Definition pushxGenericCommand (st : state) (key : list Z) (args : list (list Z)) (w : list_where) : option (state * reply) :=
  match db st !! key with
  | None => Some (st, ReplyInt 0)
  | Some (VOther _) => Some (st, ReplyWrongType)
  | Some (VList o) =>
      lobj ← push_args (Some o) args w;
      let o := default o lobj in
      Some (pushed (put_list st key o) key (zlen args) w, ReplyInt (listTypeLength o))
  end.
(** [while (listTypeNext(iter,&entry))], with at most [fuel] turns. *)
Fixpoint insert_loop (fuel : nat) (o : listobj) (iter : listTypeIterator) (pivot value : list Z) (w : list_where) : option (listobj * bool) :=
  '(o, iter, entry, found) ← listTypeNext o iter;
  if negb found then Some (o, false)
  else
    eq ← listTypeEqual o entry pivot;
    if (eq : bool) then o ← listTypeInsert o entry value w; Some (o, true)
    else match fuel with O => None | S fuel => insert_loop fuel o iter pivot value w end.
Definition insert_where (position : list Z) : option list_where :=
  if strcasecmp_eq (cstr position) (text "after") then Some LIST_TAIL else if strcasecmp_eq (cstr position) (text "before") then Some LIST_HEAD else None.
Definition linsertCommand (st : state) (key position pivot value : list Z) : option (state * reply) :=
  match insert_where position with
  | None => Some (st, ReplyError (text "syntax error"))
  | Some w =>
      match db st !! key with
      | None => Some (st, ReplyInt 0)
      | Some (VOther _) => Some (st, ReplyWrongType)
      | Some (VList o) =>
          '(o, iter) ← listTypeInitIterator o 0 LIST_TAIL;
          '(o, inserted) ← insert_loop (Z.to_nat (listTypeLength o)) o iter pivot value w;
          let st := put_list st key o in
          if (inserted : bool) then Some (add_dirty (notify_event (touch_key st key) (text "linsert") key) 1, ReplyInt (listTypeLength o))
          else Some (st, ReplyInt (-1))
      end
  end.
Definition llenCommand (st : state) (key : list Z) : option (state * reply) :=
  match db st !! key with
  | None => Some (st, ReplyInt 0)
  | Some (VOther _) => Some (st, ReplyWrongType)
  | Some (VList o) => Some (st, ReplyInt (listTypeLength o))
  end.
Definition lindexCommand (st : state) (key idx : list Z) : option (state * reply) :=
  match db st !! key with
  | None => Some (st, ReplyBulk None)
  | Some (VOther _) => Some (st, ReplyWrongType)
  | Some (VList o) =>
      match string2ll idx with
      | None => Some (st, not_integer)
      | Some index =>
          '(h, entry, found) ← quicklistIndex be junk o.1 o.2 index;
          let st := put_list st key (h, o.2) in
          if (found : bool) then v ← listTypeGet entry; Some (st, ReplyBulk (Some v)) else Some (st, ReplyBulk None)
      end
  end.
Definition lsetCommand (st : state) (key idx value : list Z) : option (state * reply) :=
  match db st !! key with
  | None => Some (st, ReplyError (text "no such key"))
  | Some (VOther _) => Some (st, ReplyWrongType)
  | Some (VList o) =>
      match string2ll idx with
      | None => Some (st, not_integer)
      | Some index =>
          '(h, replaced) ← quicklistReplaceAtIndex be junk hjunk o.1 o.2 index value;
          let st := put_list st key (h, o.2) in
          if (replaced : bool) then Some (add_dirty (notify_event (touch_key st key) (text "lset") key) 1, ReplyOk)
          else Some (st, ReplyError (text "index out of range"))
      end
  end.
Definition popGenericCommand (st : state) (key : list Z) (w : list_where) : option (state * reply) :=
  match db st !! key with
  | None => Some (st, ReplyBulk None)
  | Some (VOther _) => Some (st, ReplyWrongType)
  | Some (VList o) =>
      '(o, value) ← listTypePop o w;
      let st := put_list st key o in
      match value with
      | None => Some (st, ReplyBulk None)
      | Some v =>
          let st := notify_event st (match w with LIST_HEAD => text "lpop" | LIST_TAIL => text "rpop" end) key in
          let st := if listTypeLength o =? 0 then delete_key (notify_event st (text "del") key) key else st in
          Some (add_dirty (touch_key st key) 1, ReplyBulk (Some v))
      end
  end.
(** [while(rangelen--)] *)
Fixpoint lrange_loop (rangelen : nat) (o : listobj) (iter : listTypeIterator) : option (listobj * list (list Z)) :=
  match rangelen with
  | O => Some (o, [])
  | S rangelen =>
      '(o, iter, entry, _) ← listTypeNext o iter;
      v ← listTypeGet entry;
      '(o, l) ← lrange_loop rangelen o iter;
      Some (o, v :: l)
  end.
(** The start and the end of a range, with negative indexes converted. *)
Definition range_of (llen start end_ : Z) : Z * Z :=
  let start := if start <? 0 then llen + start else start in
  let end_ := if end_ <? 0 then llen + end_ else end_ in
  (if start <? 0 then 0 else start, end_).
Definition lrangeCommand (st : state) (key start end_ : list Z) : option (state * reply) :=
  match string2ll start, string2ll end_ with
  | Some start, Some end_ =>
      match db st !! key with
      | None => Some (st, ReplyArray 0 [])
      | Some (VOther _) => Some (st, ReplyWrongType)
      | Some (VList o) =>
          let llen := listTypeLength o in
          let '(start, end_) := range_of llen start end_ in
          if (start >? end_) || (start >=? llen) then Some (st, ReplyArray 0 [])
          else
            let end_ := if end_ >=? llen then llen - 1 else end_ in
            let rangelen := end_ - start + 1 in
            '(o, iter) ← listTypeInitIterator o start LIST_TAIL;
            '(o, l) ← lrange_loop (Z.to_nat rangelen) o iter;
            Some (put_list st key o, ReplyArray rangelen l)
      end
  | _, _ => Some (st, not_integer)
  end.
Definition ltrimCommand (st : state) (key start end_ : list Z) : option (state * reply) :=
  match string2ll start, string2ll end_ with
  | Some start, Some end_ =>
      match db st !! key with
      | None => Some (st, ReplyOk)
      | Some (VOther _) => Some (st, ReplyWrongType)
      | Some (VList o) =>
          let llen := listTypeLength o in
          let '(start, end_) := range_of llen start end_ in
          let '(ltrim, rtrim) := if (start >? end_) || (start >=? llen) then (llen, 0)
                                 else let end_ := if end_ >=? llen then llen - 1 else end_ in (start, llen - end_ - 1) in
          '(h, q, _) ← quicklistDelRange be junk hjunk o.1 o.2 0 ltrim;
          '(h, q, _) ← quicklistDelRange be junk hjunk h q (- rtrim) rtrim;
          let st := notify_event (put_list st key (h, q)) (text "ltrim") key in
          let st := if listTypeLength (h, q) =? 0 then notify_event (delete_key st key) (text "del") key else st in
          Some (add_dirty (touch_key st key) 1, ReplyOk)
      end
  | _, _ => Some (st, not_integer)
  end.
(** [while (listTypeNext(li,&entry))], with at most [fuel] turns. *)
Fixpoint rem_loop (fuel : nat) (o : listobj) (li : listTypeIterator) (obj : list Z) (toremove removed : Z) : option (listobj * Z) :=
  '(o, li, entry, found) ← listTypeNext o li;
  if negb found then Some (o, removed)
  else
    eq ← listTypeEqual o entry obj;
    '(o, li, removed) ← (if (eq : bool) then '(o, li, _) ← listTypeDelete o li entry; Some (o, li, removed + 1) else Some (o, li, removed));
    if (eq : bool) && negb (toremove =? 0) && (removed =? toremove) then Some (o, removed)
    else match fuel with O => None | S fuel => rem_loop fuel o li obj toremove removed end.
Definition lremCommand (st : state) (key count obj : list Z) : option (state * reply) :=
  match string2ll count with
  | None => Some (st, not_integer)
  | Some toremove =>
      match db st !! key with
      | None => Some (st, ReplyInt 0)
      | Some (VOther _) => Some (st, ReplyWrongType)
      | Some (VList o) =>
          if toremove =? LONG_MIN then None   (* -toremove overflows *)
          else
            '(toremove, o, li) ← (if toremove <? 0 then '(o, li) ← listTypeInitIterator o (-1) LIST_HEAD; Some (- toremove, o, li)
                                  else '(o, li) ← listTypeInitIterator o 0 LIST_TAIL; Some (toremove, o, li));
            '(o, removed) ← rem_loop (Z.to_nat (listTypeLength o)) o li obj toremove 0;
            let st := add_dirty (put_list st key o) removed in
            let st := if removed =? 0 then st else notify_event (touch_key st key) (text "lrem") key in
            let st := if listTypeLength o =? 0 then notify_event (delete_key st key) (text "del") key else st in
            Some (st, ReplyInt removed)
      end
  end.
Definition rpoplpushHandlePush (st : state) (dstkey : list Z) (dstobj : option listobj) (value : list Z) : option (state * reply) :=
  let dst := default new_list dstobj in
  let st := touch_key (match dstobj with None => add_list st dstkey dst | Some _ => st end) dstkey in
  dst ← listTypePush dst value LIST_HEAD;
  Some (notify_event (put_list st dstkey dst) (text "lpush") dstkey, ReplyBulk (Some value)).
(** The objects are those of the keyspace: when the two keys are the same, the
    list that is popped is the one that is pushed to. *)
Definition rpoplpushCommand (st : state) (src dst : list Z) : option (state * reply) :=
  match db st !! src with
  | None => Some (st, ReplyBulk None)
  | Some (VOther _) => Some (st, ReplyWrongType)
  | Some (VList sobj) =>
      if listTypeLength sobj =? 0 then Some (st, ReplyBulk None)
      else
        match db st !! dst with
        | Some (VOther _) => Some (st, ReplyWrongType)
        | _ =>
            '(sobj, value) ← listTypePop sobj LIST_TAIL;
            let st := put_list st src sobj in
            value ← value;
            '(st, r) ← rpoplpushHandlePush st dst (match db st !! dst with Some (VList o) => Some o | _ => None end) value;
            let st := notify_event st (text "rpop") src in
            match db st !! src with
            | Some (VList sobj) =>
                let st := if listTypeLength sobj =? 0 then notify_event (delete_key st src) (text "del") src else st in
                Some (add_dirty (touch_key st src) 1, r)
            | _ => None
            end
        end
  end.

(** The commands of the command table that call the functions above. *)
Inductive cmd :=
| PUSH (w : list_where) (key : list Z) (args : list (list Z)) | PUSHX (w : list_where) (key : list Z) (args : list (list Z))
| LINSERT (key position pivot v : list Z) | LLEN (key : list Z) | LINDEX (key idx : list Z) | LSET (key idx v : list Z)
| POP (w : list_where) (key : list Z) | LRANGE (key start end_ : list Z) | LTRIM (key start end_ : list Z) | LREM (key count v : list Z)
| RPOPLPUSH (src dst : list Z).
Definition exec (st : state) (c : cmd) : option (state * reply) :=
  match c with
  | PUSH w k args => pushGenericCommand st k args w
  | PUSHX w k args => pushxGenericCommand st k args w
  | LINSERT k p pivot v => linsertCommand st k p pivot v
  | LLEN k => llenCommand st k
  | LINDEX k i => lindexCommand st k i
  | LSET k i v => lsetCommand st k i v
  | POP w k => popGenericCommand st k w
  | LRANGE k s e => lrangeCommand st k s e
  | LTRIM k s e => ltrimCommand st k s e
  | LREM k n v => lremCommand st k n v
  | RPOPLPUSH src dst => rpoplpushCommand st src dst
  end.
Fixpoint run (st : state) (cs : list cmd) : option (state * list reply) :=
  match cs with [] => Some (st, []) | c :: cs => '(st, r) ← exec st c; '(st, rs) ← run st cs; Some (st, r :: rs) end.
End Tlist.

(** ** Lists of byte strings *)
Definition push1 (w : list_where) (L : list (list Z)) (v : list Z) : list (list Z) := match w with LIST_HEAD => v :: L | LIST_TAIL => L ++ [v] end.
Definition pushes (w : list_where) (L args : list (list Z)) : list (list Z) := foldl (push1 w) L args.
Fixpoint index_of (v : list Z) (L : list (list Z)) : option nat := match L with [] => None | x :: L => if decide (x = v) then Some 0%nat else S <$> index_of v L end.
(** The elements from [start] to [end_], both included. *)
Definition slice (L : list (list Z)) (start end_ : Z) : list (list Z) :=
  let from i := if i <? 0 then zlen L + i else i in
  drop (Z.to_nat (from start)) (take (Z.to_nat (from end_ + 1)) L).
(** The first [n] occurrences of [v] removed, or all of them for [n] = 0, and
    their number. *)
Fixpoint remove_n (n : nat) (v : list Z) (L : list (list Z)) : list (list Z) * Z :=
  match L with
  | [] => ([], 0)
  | x :: L =>
      if decide (x = v) then
        if decide (n = 1%nat) then (L, 1) else let '(L, c) := remove_n (n - 1) v L in (L, c + 1)
      else let '(L, c) := remove_n n v L in (x :: L, c)
  end.
(** The occurrences next to the tail for a negative count. *)
Definition spec_rem (count : Z) (v : list Z) (L : list (list Z)) : list (list Z) * Z :=
  if count <? 0 then let '(L, c) := remove_n (Z.to_nat (- count)) v (reverse L) in (reverse L, c) else remove_n (Z.to_nat count) v L.

Abbreviation keyspace := (gmap (list Z) (list (list Z) + Z)).
Definition get (sp : keyspace) (k : list Z) : list (list Z) := match sp !! k with Some (inl L) => L | _ => [] end.
(** A list without elements is not kept. *)
Definition keep (sp : keyspace) (k : list Z) (L : list (list Z)) : keyspace := if decide (L = []) then delete k sp else <[k := inl L]> sp.
Definition wrong_type (sp : keyspace) (k : list Z) : bool := match sp !! k with Some (inr _) => true | _ => false end.
Definition on_list (sp : keyspace) (k : list Z) (none : reply) (f : list (list Z) -> list (list Z) * reply) : keyspace * reply :=
  match sp !! k with None => (sp, none) | Some (inr _) => (sp, ReplyWrongType) | Some (inl L) => let '(L, r) := f L in (keep sp k L, r) end.
Definition spec (sp : keyspace) (c : cmd) : keyspace * reply :=
  match c with
  | PUSH w k args => if wrong_type sp k then (sp, ReplyWrongType) else let L := pushes w (get sp k) args in (keep sp k L, ReplyInt (zlen L))
  | PUSHX w k args => on_list sp k (ReplyInt 0) (fun L => (pushes w L args, ReplyInt (zlen (pushes w L args))))
  | LINSERT k p pivot v =>
      match insert_where p with
      | None => (sp, ReplyError (bytes_of_string "syntax error"))
      | Some w => on_list sp k (ReplyInt 0) (fun L =>
          match index_of pivot L with Some i => (put (match w with LIST_HEAD => i | LIST_TAIL => S i end) v L, ReplyInt (zlen L + 1)) | None => (L, ReplyInt (-1)) end)
      end
  | LLEN k => on_list sp k (ReplyInt 0) (fun L => (L, ReplyInt (zlen L)))
  | LINDEX k i => on_list sp k (ReplyBulk None) (fun L => (L, match string2ll i with None => not_integer | Some i => ReplyBulk (g ← place L i; L !! g) end))
  | LSET k i v => on_list sp k (ReplyError (bytes_of_string "no such key")) (fun L =>
      match string2ll i with None => (L, not_integer) | Some i => match place L i with Some g => (<[g := v]> L, ReplyOk) | None => (L, ReplyError (bytes_of_string "index out of range")) end end)
  | POP w k => on_list sp k (ReplyBulk None) (fun L => match w with LIST_HEAD => (drop 1 L, ReplyBulk (L !! 0%nat)) | LIST_TAIL => (take (length L - 1) L, ReplyBulk (L !! (length L - 1)%nat)) end)
  | LRANGE k s e =>
      match string2ll s, string2ll e with
      | Some s, Some e => on_list sp k (ReplyArray 0 []) (fun L => (L, ReplyArray (zlen (slice L s e)) (slice L s e)))
      | _, _ => (sp, not_integer)
      end
  | LTRIM k s e =>
      match string2ll s, string2ll e with Some s, Some e => on_list sp k ReplyOk (fun L => (slice L s e, ReplyOk)) | _, _ => (sp, not_integer) end
  | LREM k n v =>
      match string2ll n with None => (sp, not_integer) | Some n => on_list sp k (ReplyInt 0) (fun L => ((spec_rem n v L).1, ReplyInt (spec_rem n v L).2)) end
  | RPOPLPUSH src dst =>
      match sp !! src with
      | None => (sp, ReplyBulk None)
      | Some (inr _) => (sp, ReplyWrongType)
      | Some (inl L) =>
          if wrong_type sp dst then (sp, ReplyWrongType)
          else match L !! (length L - 1)%nat with
               | None => (sp, ReplyBulk None)
               | Some v => let sp := keep sp src (take (length L - 1) L) in (keep sp dst (v :: get sp dst), ReplyBulk (Some v))
               end
      end
  end.
Fixpoint spec_run (sp : keyspace) (cs : list cmd) : keyspace * list reply :=
  match cs with [] => (sp, []) | c :: cs => let '(sp, r) := spec sp c in let '(sp, rs) := spec_run sp cs in (sp, r :: rs) end.

(** ** Sizes *)
(** The bytes of all the lists, and those a command may add. *)
Definition total (sp : keyspace) : Z := map_fold (fun _ v t => match v with inl L => weight L | inr _ => 0 end + t) 0 sp.
Definition cmd_weight (c : cmd) : Z := match c with PUSH _ _ args | PUSHX _ _ args => weight args | LINSERT _ _ _ v | LSET _ _ v => zlen v + 18 | _ => 0 end.
Definition cmds_weight (cs : list cmd) : Z := foldr (fun c w => cmd_weight c + w) 0 cs.
Lemma total_keep sp k L : wrong_type sp k = false -> total (keep sp k L) = total sp - weight (get sp k) + weight L.
Proof.
  intros Hw. assert (Hd : total sp = weight (get sp k) + total (delete k sp)).
  { unfold get, wrong_type in *. destruct (sp !! k) as [[L0|t]|] eqn:E; [|done|rewrite delete_id by done; cbn; lia]. unfold total at 1. rewrite (map_fold_delete_L _ _ k (inl L0)) by (done || intros; lia). done. }
  unfold keep. destruct (decide (L = [])) as [->|HL]; [cbn; lia|]. rewrite <- insert_delete_eq. unfold total at 1. rewrite map_fold_insert_L; [fold (total (delete k sp)); cbn beta iota; lia|intros; lia|by rewrite lookup_delete_eq].
Qed.
Lemma total_nonneg sp : 0 <= total sp.
Proof. unfold total. apply (map_fold_weak_ind (fun r _ => 0 <= r)); [done|]. intros k [L|t] m r _ Hr; [pose proof (weight_nonneg L)|]; lia. Qed.
Lemma get_weight sp k : 0 <= weight (get sp k) <= total sp.
Proof.
  split; [apply weight_nonneg|]. destruct (wrong_type sp k) eqn:Hw.
  - unfold get, wrong_type in *. destruct (sp !! k) as [[L|t]|]; [done|apply total_nonneg|done].
  - pose proof (total_keep sp k [] Hw) as Ht. pose proof (total_nonneg (keep sp k [])). cbn in Ht. lia.
Qed.

Section ListSpec.
  Context `{QAllocator} (be : bool) (junk : nat -> Z) (hjunk : Z -> Z) (list_max_ziplist_size list_compress_depth : Z).
#[local] Abbreviation depth := (Z.max 0 (Z.min 65535 list_compress_depth)).

(** ** The list type *)
Record list_ok (o : listobj) (L : list (list Z)) : Prop := { lo_rep : qrep o.1 o.2 L; lo_depth : ql_compress o.2 = depth; lo_bytes : Forall bytes_ok L }.
Lemma new_ok : list_ok (new_list list_max_ziplist_size list_compress_depth) [].
Proof. split; [apply qrep_new|apply new_options|done]. Qed.
Lemma list_length o L : list_ok o L -> listTypeLength o = zlen L.
Proof. intros [(xs & ls & Hr & <-) _ _]. apply Hr. Qed.
Lemma push_ok o L v w : list_ok o L -> bytes_ok v -> 40 + 2 * (weight L + zlen v + 18) < 2 ^ 32 -> exists o', listTypePush be junk hjunk o v w = Some o' /\ list_ok o' (push1 w L v).
Proof.
  intros [Hr Hd Hb] Hv Hw. set (w' := match w with LIST_HEAD => QUICKLIST_HEAD | LIST_TAIL => QUICKLIST_TAIL end).
  destruct (end_refines (be:=be) (junk:=junk) (hjunk:=hjunk) o.1 o.2 L (QPush v w') Hr Hb Hv ltac:(cbn [ql_op_weight]; lia)) as (h & q & E & O & R). cbn [ql_step] in E. unfold listTypePush. fold w'. destruct (quicklistPush be junk hjunk o.1 o.2 v w') as [[h' q']|]; [|done]. injection E as -> ->.
  exists (h, q). split; [done|]. split; [by destruct w|by rewrite <- Hd; apply O|]. destruct w; cbn [push1]; [by constructor|apply Forall_app; by repeat constructor].
Qed.
Lemma push1_weight w L v : weight (push1 w L v) = weight L + zlen v + 18.
Proof. destruct w; cbn [push1]; rewrite ?weight_app, ?weight_cons; [|change (weight []) with 0]; lia. Qed.
Lemma pushes_weight w args : forall L, weight (pushes w L args) = weight L + weight args.
Proof. induction args as [|v args IH]; intros L; cbn [pushes foldl]; [cbn; lia|]. fold (pushes w (push1 w L v) args). rewrite IH, push1_weight, weight_cons. lia. Qed.
Lemma push_args_ok w args : forall o L, list_ok o L -> Forall bytes_ok args -> 40 + 2 * (weight L + weight args) < 2 ^ 32 ->
  exists o', push_args be junk hjunk list_max_ziplist_size list_compress_depth (Some o) args w = Some (Some o') /\ list_ok o' (pushes w L args).
Proof.
  induction args as [|v args IH]; intros o L Ho Hb Hw; [by exists o|]. apply Forall_cons in Hb as [Hv Hb]. rewrite weight_cons in Hw. pose proof (weight_nonneg args). cbn [push_args default from_option id pushes foldl].
  destruct (push_ok o L v w Ho Hv ltac:(lia)) as (o1 & -> & Ho1). cbn [mbind option_bind]. apply IH; [done|done|]. rewrite push1_weight. lia.
Qed.
Lemma push_args_new w args : args <> [] -> push_args be junk hjunk list_max_ziplist_size list_compress_depth None args w = push_args be junk hjunk list_max_ziplist_size list_compress_depth (Some (new_list list_max_ziplist_size list_compress_depth)) args w.
Proof. by destruct args. Qed.
Definition popped (w : list_where) (L : list (list Z)) : list (list Z) * option (list Z) := spec_pop L (match w with LIST_HEAD => QUICKLIST_HEAD | LIST_TAIL => QUICKLIST_TAIL end).
Lemma pop_ok o L w : list_ok o L -> exists o', listTypePop be junk hjunk o w = Some (o', (popped w L).2) /\ list_ok o' (popped w L).1.
Proof.
  intros [Hr Hd Hb]. unfold popped, listTypePop. set (w' := match w with LIST_HEAD => QUICKLIST_HEAD | LIST_TAIL => QUICKLIST_TAIL end).
  destruct (pop_spec (be:=be) (junk:=junk) (hjunk:=hjunk) o.1 o.2 L w' Hr) as (h & q & r & E & O & R & V).
  assert (Ec : quicklistPopCustom be junk hjunk listPopSaver o.1 o.2 w' = Some (h, q, r)) by (rewrite <- E; unfold quicklistPop, quicklistPopCustom; by destruct (ql_count o.2 =? 0)).
  rewrite Ec. cbn [mbind option_bind]. exists (h, q). split; [rewrite <- V; by destruct r as [[s|n]|]|]. split; [done|rewrite <- Hd; apply O|]. rewrite (pop_perm L w') in Hb. by apply Forall_app in Hb as [_ Hb].
Qed.

(** *** Iterating, without compression *)
Definition ready (d : ql_direction) (xs : cells) (ls : list (list (list Z))) (li : listTypeIterator) (g : nat) : Prop :=
  exists it, li_iter li = Some it /\ (fresh_iter d xs ls it g \/ exists k x e, got d xs ls k x it e /\ g = after_elem d k).
Lemma next_ready h q xs ls d li g : ql_rep h q xs ls -> ql_compress q = 0 -> ready d xs ls li g ->
  exists li' e found, listTypeNext be junk hjunk (h, q) li = Some (h, q, li', e, found) /\
    match next_elem d (concat ls) g with
    | None => found = false
    | Some k => found = true /\ ready d xs ls li' (after_elem d k) /\ exists x it, concat ls !! k = Some x /\ li_iter li' = Some it /\ got d xs ls k x it e /\ listTypeGet e = Some x /\ forall s, listTypeEqual be (h, q) e s = Some (bool_decide (x = s))
    end.
Proof.
  intros Hr Hc (it & Hli & Hcase). assert (Hn : exists it' e found, quicklistNext be junk hjunk h q (Some it) = Some (h, Some it', e, found) /\ next_result d xs ls g it' e found).
  { destruct Hcase as [Hf|(k & x & e & Hg & ->)]; [by apply next_fresh|by eapply next_got]. }
  destruct Hn as (it' & e & found & E & Hres). unfold listTypeNext. cbn [fst snd]. rewrite Hli, E. cbn [mbind option_bind]. eexists _, _, _. split; [done|]. unfold next_result in Hres. destruct (next_elem d (concat ls) g) as [k|]; [|apply Hres].
  destruct Hres as (-> & x & Hx & Hg). split; [done|]. split; [exists it'; split; [done|]; right; by exists k, x, e|]. exists x, it'. split; [done|]. split; [done|]. split; [done|]. split.
  - destruct Hg as (i & j & a & n & l & zl & es & v & _ & _ & _ & Hv & _ & -> & _). unfold listTypeGet. cbn [e_value]. destruct v; by rewrite <- Hv.
  - intros s. apply (compare_got h q xs ls d it' e k x s Hr Hg).
Qed.
Lemma ready_at h q xs ls w idx g : ql_rep h q xs ls -> ql_compress q = 0 -> match w with LIST_TAIL => 0 <= idx < 2 ^ 63 | LIST_HEAD => - 2 ^ 63 < idx < 0 end -> place (concat ls) idx = Some g ->
  exists li, listTypeInitIterator be junk (h, q) idx w = Some (h, q, li) /\ ready (match w with LIST_TAIL => AL_START_HEAD | LIST_HEAD => AL_START_TAIL end) xs ls li (match w with LIST_TAIL => g | LIST_HEAD => S g end).
Proof.
  intros Hr Hc Hi Hp. unfold listTypeInitIterator. set (d := match w with LIST_TAIL => AL_START_HEAD | LIST_HEAD => AL_START_TAIL end).
  destruct (iter_at (be:=be) (junk:=junk) h q xs ls d idx Hr Hc ltac:(by destruct w)) as (it & E & Hit). rewrite Hp in Hit. destruct Hit as (i & -> & Hf). exists (mk_li (Some i) w). replace (match w with LIST_HEAD => AL_START_TAIL | LIST_TAIL => AL_START_HEAD end) with d by (by destruct w). cbn [fst snd]. rewrite E. split; [done|]. exists i. split; [done|]. left. by destruct w.
Qed.
Lemma insert_loop_spec h q xs ls pivot v w : ql_rep h q xs ls -> ql_compress q = 0 -> depth = 0 -> Forall bytes_ok (concat ls) -> bytes_ok v -> 40 + 2 * (weight (concat ls) + zlen v + 18) < 2 ^ 32 ->
  forall r fuel li g, (length (concat ls) - g = r)%nat -> (r <= fuel)%nat -> ready AL_START_HEAD xs ls li g ->
  exists o, insert_loop be junk hjunk fuel (h, q) li pivot v w = Some (o, bool_decide (is_Some (index_of pivot (drop g (concat ls))))) /\
    list_ok o (match index_of pivot (drop g (concat ls)) with Some i => put (g + match w with LIST_HEAD => i | LIST_TAIL => S i end) v (concat ls) | None => concat ls end).
Proof.
  intros Hr Hc Hdep Hb Hv Hw. assert (Hsame : list_ok (h, q) (concat ls)) by (split; [by exists xs, ls|cbn [snd]; congruence|done]).
  induction r as [|r IH]; intros fuel li g Hg Hf Hrd; destruct (next_ready h q xs ls _ li g Hr Hc Hrd) as (li' & e & found & E & Hres); unfold next_elem in Hres.
  - rewrite decide_False in Hres by lia. subst found. rewrite drop_ge by lia. exists (h, q). split; [destruct fuel; cbn [insert_loop]; by rewrite E|done].
  - rewrite decide_True in Hres by lia. destruct Hres as (-> & Hrd' & x & it & Hx & _ & Hgot & _ & Heq). cbn [after_elem] in Hrd'. rewrite (drop_S _ _ _ Hx). cbn [index_of]. destruct (decide (x = pivot)) as [Exp|Nxp].
    + destruct (insert_got (be:=be) (junk:=junk) (hjunk:=hjunk) h q xs ls it e g x v (match w with LIST_HEAD => false | LIST_TAIL => true end) Hr Hc Hgot Hv Hw) as (h' & q' & Ei & O & R). exists (h', q'). split.
      * assert (Et : listTypeInsert be junk hjunk (h, q) e v w = Some (h', q')) by (destruct w; exact Ei). destruct fuel; cbn [insert_loop]; rewrite E; cbn [mbind option_bind negb]; rewrite Heq, bool_decide_eq_true_2 by done; cbn [mbind option_bind]; rewrite Et; done.
      * split; [|cbn [snd]; rewrite (proj2 O); congruence|].
        -- cbn [fst snd]. destruct w; [by rewrite Nat.add_0_r|by rewrite Nat.add_1_r].
        -- unfold put. apply Forall_app. split; [by apply Forall_take|]. constructor; [done|by apply Forall_drop].
    + destruct fuel as [|fuel]; [lia|]. destruct (IH fuel li' (S g) ltac:(lia) ltac:(lia) Hrd') as (o & Eo & Ho). exists o. cbn [insert_loop]. rewrite E. cbn [mbind option_bind negb]. rewrite Heq, bool_decide_eq_false_2 by done. cbn [mbind option_bind]. rewrite Eo. destruct (index_of pivot (drop (S g) (concat ls))) as [i|]; cbn [fmap option_fmap option_map]; [|done]. split; [done|]. destruct w; by rewrite ?Nat.add_succ_r in *.
Qed.
Lemma lrange_loop_spec h q xs ls : ql_rep h q xs ls -> ql_compress q = 0 -> forall n li g, (g + n <= length (concat ls))%nat -> ready AL_START_HEAD xs ls li g ->
  lrange_loop be junk hjunk n (h, q) li = Some (h, q, take n (drop g (concat ls))).
Proof.
  intros Hr Hc. induction n as [|n IH]; intros li g Hg Hrd; [by rewrite take_0|]. destruct (next_ready h q xs ls _ li g Hr Hc Hrd) as (li' & e & found & E & Hres). unfold next_elem in Hres. rewrite decide_True in Hres by lia. destruct Hres as (_ & Hrd' & x & it & Hx & _ & _ & Hget & _).
  cbn [lrange_loop]. rewrite E. cbn [mbind option_bind]. rewrite Hget. cbn [mbind option_bind]. rewrite (IH li' (S g)) by (done || lia). by rewrite (drop_S _ _ _ Hx).
Qed.
(** What an iterator still has to visit, and the list once that is [r]. *)
Definition todo (d : ql_direction) (L : list (list Z)) (g : nat) : list (list Z) := match d with AL_START_HEAD => drop g L | AL_START_TAIL => reverse (take g L) end.
Definition glue (d : ql_direction) (L : list (list Z)) (g : nat) (r : list (list Z)) : list (list Z) := match d with AL_START_HEAD => take g L ++ r | AL_START_TAIL => reverse r ++ drop g L end.
Lemma todo_next d L g : (g <= length L)%nat -> match next_elem d L g with
  | Some k => exists x, L !! k = Some x /\ todo d L g = x :: todo d L (after_elem d k) /\ (after_elem d k <= length L)%nat /\ forall r, glue d L g (x :: r) = glue d L (after_elem d k) r
  | None => todo d L g = [] end.
Proof.
  intros Hg. destruct d; cbn [next_elem todo glue after_elem].
  - destruct (decide (g < length L)%nat) as [Hlt|]; [|by apply drop_ge; lia]. destruct (lookup_lt_is_Some_2 L g Hlt) as [x Hx]. exists x. split; [done|]. split; [by apply drop_S|]. split; [lia|]. intros r. by rewrite (take_S_r L g x Hx), <- app_assoc.
  - destruct g as [|k]; [done|]. destruct (lookup_lt_is_Some_2 L k ltac:(lia)) as [x Hx]. exists x. split; [done|]. split; [by rewrite (take_S_r L k x Hx), reverse_app|]. split; [lia|]. intros r. by rewrite reverse_cons, <- app_assoc, (drop_S L x k Hx).
Qed.
Lemma todo_delete d L g k : next_elem d L g = Some k -> (g <= length L)%nat -> let L' := take k L ++ drop (S k) L in todo d L' k = todo d L (after_elem d k) /\ (k <= length L')%nat /\ forall r, glue d L' k r = glue d L g r.
Proof.
  intros Hn Hg. cbv zeta. assert (Hk : (k < length L)%nat) by (destruct d; cbn [next_elem] in Hn; [destruct (decide _); [injection Hn as <-; lia|done]|destruct g; [done|injection Hn as <-; lia]]).
  assert (Hkl : length (take k L) = k) by (rewrite length_take; lia). destruct d; cbn [next_elem todo glue after_elem] in *.
  - rewrite drop_app_length', take_app_length' by done. destruct (decide _); [injection Hn as <-|done]. split; [done|]. split; [rewrite length_app; lia|done].
  - rewrite drop_app_length', take_app_length' by done. destruct g as [|g]; [done|injection Hn as ->]. split; [done|]. split; [rewrite length_app; lia|done].
Qed.
Lemma todo_glue d L g : (g <= length L)%nat -> glue d L g (todo d L g) = L.
Proof. intros Hg. destruct d; cbn [todo glue]; rewrite ?reverse_involutive; apply take_drop. Qed.
Lemma rem_loop_spec obj d toremove : 0 <= toremove < 2 ^ 63 -> depth = 0 -> forall r fuel h q xs ls li g removed, ql_rep h q xs ls -> ql_compress q = 0 -> Forall bytes_ok (concat ls) ->
  (g <= length (concat ls))%nat -> length (todo d (concat ls) g) = r -> (r <= fuel)%nat -> ready d xs ls li g -> (toremove <> 0 -> 0 <= removed < toremove) ->
  let out := remove_n (Z.to_nat (if toremove =? 0 then 0 else toremove - removed)) obj (todo d (concat ls) g) in
  exists o, rem_loop be junk hjunk fuel (h, q) li obj toremove removed = Some (o, removed + out.2) /\ list_ok o (glue d (concat ls) g out.1).
Proof.
  intros Htr Hdep. induction r as [|r IH]; intros fuel h q xs ls li g removed Hr Hc Hb Hg Hlen Hf Hrd Hrem; cbv zeta; destruct (next_ready h q xs ls _ li g Hr Hc Hrd) as (li' & e & found & E & Hres); pose proof (todo_next d (concat ls) g Hg) as Htodo;
    destruct (next_elem d (concat ls) g) as [k|] eqn:En.
  - destruct Htodo as (x & _ & Et & _). by rewrite Et in Hlen.
  - subst found. rewrite Htodo. cbn [remove_n fst snd]. exists (h, q). split; [destruct fuel; cbn [rem_loop]; rewrite E; cbn [mbind option_bind negb]; by rewrite Z.add_0_r|]. split; [|cbn [snd]; congruence|].
    + exists xs, ls. split; [done|]. rewrite <- Htodo. symmetry. by apply todo_glue.
    + rewrite <- Htodo. by rewrite todo_glue.
  - destruct Htodo as (x & Hx & Et & Hle & Hglue). destruct Hres as (-> & Hrd' & x' & it & Hx' & Hit & Hgot & _ & Heq). assert (x' = x) as -> by congruence. rewrite Et in *. cbn [length] in Hlen. injection Hlen as Hlen. destruct fuel as [|fuel]; [lia|]. cbn [rem_loop]. rewrite E. cbn [mbind option_bind negb]. rewrite Heq. cbn [mbind option_bind remove_n]. destruct (decide (x = obj)) as [Exo|Nxo].
    + rewrite bool_decide_eq_true_2 by done. destruct (del_got (be:=be) (junk:=junk) (hjunk:=hjunk) h q xs ls d it e k x Hr Hc Hgot) as (h' & q' & it' & e' & xs' & ls' & Ed & O & R & Ec & Hf').
      assert (Edel : listTypeDelete be junk hjunk (h, q) li' e = Some (h', q', mk_li (Some it') (li_direction li'), e')) by (unfold listTypeDelete; rewrite Hit; cbn [mbind option_bind fst snd]; by rewrite Ed). rewrite Edel. cbn [mbind option_bind andb].
      assert (Hc' : ql_compress q' = 0) by (by rewrite (proj2 O)). assert (Hb' : Forall bytes_ok (concat ls')) by (rewrite Ec; apply Forall_app; split; [by apply Forall_take|by apply Forall_drop]).
      destruct (todo_delete d (concat ls) g k En Hg) as (Et' & Hk' & Hglue'). rewrite <- Ec in *. assert (Hrd2 : ready d xs' ls' (mk_li (Some it') (li_direction li')) k) by (exists it'; split; [done|by left]).
      assert (Hlast : list_ok (h', q') (glue d (concat ls) g (todo d (concat ls) (after_elem d k)))) by (rewrite <- Hglue', <- Et', todo_glue by done; split; [by exists xs', ls'|cbn [snd]; congruence|done]).
      destruct (Z.eqb_spec toremove 0) as [E0|N0].
      * cbn [negb andb]. rewrite decide_False by (cbn; lia). destruct (IH fuel h' q' xs' ls' (mk_li (Some it') (li_direction li')) k (removed + 1) R Hc' Hb' Hk' ltac:(by rewrite Et') ltac:(lia) Hrd2 ltac:(lia)) as (o & Eo & Ho). rewrite Et' in Eo, Ho. change (Z.to_nat 0 - 1)%nat with (Z.to_nat 0). destruct (remove_n (Z.to_nat 0) obj (todo d (concat ls) (after_elem d k))) as [L' c]. cbn [fst snd] in *. exists o. rewrite Eo. split; [do 2 f_equal; lia|]. by rewrite <- Hglue'.
      * specialize (Hrem N0). cbn [negb andb]. destruct (Z.eqb_spec (removed + 1) toremove) as [El|Nl].
        -- rewrite decide_True by lia. cbn [fst snd]. by exists (h', q').
        -- rewrite decide_False by lia. destruct (IH fuel h' q' xs' ls' (mk_li (Some it') (li_direction li')) k (removed + 1) R Hc' Hb' Hk' ltac:(by rewrite Et') ltac:(lia) Hrd2 ltac:(lia)) as (o & Eo & Ho). rewrite Et' in Eo, Ho. replace (Z.to_nat (toremove - removed) - 1)%nat with (Z.to_nat (toremove - (removed + 1))) by lia. destruct (remove_n _ obj (todo d (concat ls) (after_elem d k))) as [L' c]. cbn [fst snd] in *. exists o. rewrite Eo. split; [do 2 f_equal; lia|]. by rewrite <- Hglue'.
    + rewrite bool_decide_eq_false_2 by done. cbn [mbind option_bind andb]. destruct (IH fuel h q xs ls li' (after_elem d k) removed Hr Hc Hb Hle Hlen ltac:(lia) Hrd' Hrem) as (o & Eo & Ho). destruct (remove_n _ obj (todo d (concat ls) (after_elem d k))) as [L' c]. cbn [fst snd] in *. exists o. rewrite Hglue. done.
  - rewrite Htodo in Hlen. done.
Qed.

(** ** The keyspace *)
Definition entry_ok (v : option value) (s : option (list (list Z) + Z)) : Prop :=
  match v, s with
  | None, None => True
  | Some (VList o), Some (inl L) => list_ok o L /\ L <> []
  | Some (VOther t), Some (inr t') => t = t'
  | _, _ => False
  end.
Definition rel (m : gmap (list Z) value) (sp : keyspace) : Prop := forall k, entry_ok (m !! k) (sp !! k).
(** The keys that change are signalled to the clients that watch them, and
    changes are counted. *)
Definition signals (st st' : state) (sp sp' : keyspace) : Prop :=
  exists ks, touched st' = ks ++ touched st /\ (forall k, sp' !! k <> sp !! k -> k ∈ ks) /\ dirty st <= dirty st' /\ (ks = [] <-> dirty st' = dirty st).
Definition refines (st : state) (sp : keyspace) (res : option (state * reply)) (out : keyspace * reply) : Prop :=
  exists st', res = Some (st', out.2) /\ rel (db st') out.1 /\ signals st st' sp out.1.
Lemma sig_none st st' sp : dirty st' = dirty st -> touched st' = touched st -> signals st st' sp sp.
Proof. intros Hd Ht. exists []. rewrite Hd. by split; [|split; [|split]]. Qed.
Lemma sig_one st st' sp sp' k : touched st' = k :: touched st -> dirty st < dirty st' -> (forall j, j <> k -> sp' !! j = sp !! j) -> signals st st' sp sp'.
Proof.
  intros Ht Hd Hs. exists [k]. split; [done|]. split; [intros j Hj; destruct (decide (j = k)) as [->|Hne]; [set_solver|by destruct Hj; apply Hs]|]. split; [lia|]. split; [done|lia].
Qed.
Lemma keep_ne sp k L j : j <> k -> keep sp k L !! j = sp !! j.
Proof. intros Hj. unfold keep. destruct (decide _); [by apply lookup_delete_ne|by apply lookup_insert_ne]. Qed.
Lemma keep_id sp k L : sp !! k = Some (inl L) -> L <> [] -> keep sp k L = sp.
Proof. intros E HL. unfold keep. rewrite decide_False by done. by apply insert_id. Qed.
Lemma key_cases m sp k : rel m sp -> (m !! k = None /\ sp !! k = None) \/ (exists t, m !! k = Some (VOther t) /\ sp !! k = Some (inr t)) \/ (exists o L, m !! k = Some (VList o) /\ sp !! k = Some (inl L) /\ list_ok o L /\ L <> []).
Proof.
  intros Hr. specialize (Hr k). destruct (m !! k) as [[o|t]|], (sp !! k) as [[L|t']|]; try done; [|right; left; exists t; by rewrite Hr|by left]. right. right. exists o, L. by destruct Hr.
Qed.
Lemma rel_keep m sp k o L : rel m sp -> list_ok o L -> rel (if decide (L = []) then delete k m else <[k := VList o]> m) (keep sp k L).
Proof.
  intros Hr Ho j. unfold keep. destruct (decide (L = [])); (destruct (decide (j = k)) as [->|Hj]; [rewrite ?lookup_insert_eq, ?lookup_delete_eq; done|rewrite ?lookup_insert_ne, ?lookup_delete_ne by done; apply Hr]).
Qed.
Lemma len_zero o L : list_ok o L -> (listTypeLength o =? 0) = bool_decide (L = []).
Proof. intros Ho. rewrite (list_length o L Ho). destruct L as [|x L]; [done|]. rewrite bool_decide_eq_false_2 by done. apply Z.eqb_neq. rewrite zlen_cons. pose proof (zlen_nonneg L). lia. Qed.
Lemma unchanged st sp r : rel (db st) sp -> refines st sp (Some (st, r)) (sp, r).
Proof. intros Hr. exists st. split; [done|]. split; [done|by apply sig_none]. Qed.
Lemma kept st sp k o L r : rel (db st) sp -> sp !! k = Some (inl L) -> L <> [] -> list_ok o L -> refines st sp (Some (put_list st k o, r)) (keep sp k L, r).
Proof.
  intros Hr Hk HL Ho. exists (put_list st k o). split; [done|]. cbn [fst]. split.
  - pose proof (rel_keep (db st) sp k o L Hr Ho) as Hs. by rewrite decide_False in Hs by done.
  - rewrite (keep_id sp k L Hk HL). by apply sig_none.
Qed.
Lemma list_written st st' sp k o L r : rel (db st) sp -> list_ok o L -> db st' = (if decide (L = []) then delete k (db st) else <[k := VList o]> (db st)) -> touched st' = k :: touched st -> dirty st < dirty st' ->
  refines st sp (Some (st', r)) (keep sp k L, r).
Proof.
  intros Hr Ho Hdb Ht Hd. exists st'. split; [done|]. cbn [fst]. split; [rewrite Hdb; by apply rel_keep|]. apply (sig_one _ _ _ _ k Ht Hd). intros j Hj. by apply keep_ne.
Qed.
Lemma on_refines st sp k none f g res : rel (db st) sp ->
  res = match db st !! k with None => Some (st, none) | Some (VOther _) => Some (st, ReplyWrongType) | Some (VList o) => g o end ->
  (forall o L, db st !! k = Some (VList o) -> sp !! k = Some (inl L) -> list_ok o L -> L <> [] -> refines st sp (g o) (keep sp k (f L).1, (f L).2)) -> refines st sp res (on_list sp k none f).
Proof.
  intros Hr -> Hg. unfold on_list. destruct (key_cases (db st) sp k Hr) as [[-> ->]|[(t & -> & ->)|(o & L & E & E' & Ho & HL)]]; [by apply unchanged..|]. rewrite E, E'. specialize (Hg o L E E' Ho HL). by destruct (f L).
Qed.

(** ** Commands *)
#[local] Abbreviation do_cmd := (exec be junk hjunk list_max_ziplist_size list_compress_depth).
Lemma list_get sp k L : sp !! k = Some (inl L) -> get sp k = L /\ 0 <= weight L <= total sp.
Proof. intros E. pose proof (get_weight sp k) as Hw. unfold get in *. by rewrite E in *. Qed.
Lemma parsed_range s v : string2ll s = Some v -> Some v <> Some LONG_MIN -> - 2 ^ 63 < v < 2 ^ 63.
Proof. intros E Hn. apply string2ll_iff in E as Hs. assert (v <> LONG_MIN) by congruence. destruct Hs as [Hs _]. unfold in_s, LONG_MIN, LLONG_MIN in *. lia. Qed.
Lemma pushes_ne w L args : args <> [] -> pushes w L args <> [].
Proof.
  intros Ha Hn. pose proof (pushes_weight w args L) as Hw. rewrite Hn in Hw. change (weight []) with 0 in Hw. destruct args as [|v args]; [done|]. rewrite weight_cons in Hw. pose proof (weight_nonneg L). pose proof (weight_nonneg args). pose proof (zlen_nonneg v). lia.
Qed.
Lemma pushed_refines st st1 sp k o L args w r : rel (db st) sp -> list_ok o (pushes w L args) -> args <> [] -> st1 = put_list st k o \/ st1 = add_list st k o -> refines st sp (Some (pushed st1 k (zlen args) w, r)) (keep sp k (pushes w L args), r).
Proof.
  intros Hr Ho Ha Hst. assert (Hn : 0 < zlen args) by (destruct args as [|v args]; [done|]; rewrite zlen_cons; pose proof (zlen_nonneg args); lia). unfold pushed. rewrite (proj2 (Z.eqb_neq _ _)) by lia. eapply list_written; [done|exact Ho|rewrite decide_False by (by apply pushes_ne); by destruct Hst as [-> | ->]|by destruct Hst as [-> | ->]|destruct Hst as [-> | ->]; cbn; lia].
Qed.
Lemma push_refines st sp w k args : rel (db st) sp -> args <> [] -> Forall bytes_ok args -> 40 + 2 * (total sp + weight args) < 2 ^ 32 -> refines st sp (do_cmd st (PUSH w k args)) (spec sp (PUSH w k args)).
Proof.
  intros Hr Ha Hb Hw. pose proof (get_weight sp k). cbn [spec exec]. unfold pushGenericCommand, wrong_type. destruct (key_cases (db st) sp k Hr) as [[-> E]|[(t & -> & E)|(o & L & -> & E & Ho & HL)]]; rewrite E.
  - rewrite push_args_new by done. assert (Eg : get sp k = []) by (unfold get; by rewrite E). rewrite Eg in *. destruct (push_args_ok w args _ [] new_ok Hb ltac:(lia)) as (o & -> & Ho). cbn [mbind option_bind]. rewrite (list_length _ _ Ho). eapply pushed_refines; [done|done|done|by (left + right)].
  - by apply unchanged.
  - destruct (list_get sp k L E) as [-> ?]. destruct (push_args_ok w args o L Ho Hb ltac:(lia)) as (o' & -> & Ho'). cbn [mbind option_bind]. rewrite (list_length _ _ Ho'). eapply pushed_refines; [done|done|done|by (left + right)].
Qed.
Lemma pushx_refines st sp w k args : rel (db st) sp -> args <> [] -> Forall bytes_ok args -> 40 + 2 * (total sp + weight args) < 2 ^ 32 -> refines st sp (do_cmd st (PUSHX w k args)) (spec sp (PUSHX w k args)).
Proof.
  intros Hr Ha Hb Hw. eapply on_refines; [done|reflexivity|]. intros o L _ E Ho _. destruct (list_get sp k L E) as [_ ?]. destruct (push_args_ok w args o L Ho Hb ltac:(lia)) as (o' & -> & Ho'). cbn [mbind option_bind default from_option id]. rewrite (list_length _ _ Ho'). eapply pushed_refines; [done|done|done|by (left + right)].
Qed.
Lemma llen_refines st sp k : rel (db st) sp -> refines st sp (do_cmd st (LLEN k)) (spec sp (LLEN k)).
Proof.
  intros Hr. eapply on_refines; [done|reflexivity|]. intros o L _ E Ho HL. cbv beta. rewrite (list_length _ _ Ho). cbn [fst snd]. rewrite (keep_id sp k L) by done. by apply unchanged.
Qed.
Lemma pop_refines st sp w k : rel (db st) sp -> refines st sp (do_cmd st (POP w k)) (spec sp (POP w k)).
Proof.
  intros Hr. eapply on_refines; [done|reflexivity|]. intros o L _ E Ho HL. cbv beta. destruct (pop_ok o L w Ho) as (o' & -> & Ho'). cbn [mbind option_bind].
  assert (Ef : match w with LIST_HEAD => (drop 1 L, ReplyBulk (L !! 0%nat)) | LIST_TAIL => (take (length L - 1) L, ReplyBulk (L !! (length L - 1)%nat)) end = ((popped w L).1, ReplyBulk (popped w L).2)) by (by destruct w). rewrite Ef. cbn [fst snd].
  assert (Hsome : is_Some (popped w L).2) by (destruct w; cbn; apply lookup_lt_is_Some_2; destruct L; cbn; [done|lia|done|lia]). destruct Hsome as [v Hv]. rewrite Hv. rewrite (len_zero _ _ Ho'). eapply list_written; [done|exact Ho'| | |].
  - destruct (decide ((popped w L).1 = [])) as [Hn|Hn]; [rewrite bool_decide_eq_true_2 by done|rewrite bool_decide_eq_false_2 by done; done]. cbn. by rewrite delete_insert_eq.
  - by destruct (bool_decide _).
  - destruct (bool_decide _); cbn; lia.
Qed.
Lemma lindex_refines st sp k i : rel (db st) sp -> list_compress_depth <= 0 -> string2ll i <> Some LONG_MIN -> refines st sp (do_cmd st (LINDEX k i)) (spec sp (LINDEX k i)).
Proof.
  intros Hr Hd Hi. eapply on_refines; [done|reflexivity|]. intros o L _ E Ho HL. cbv beta. cbn [fst snd]. destruct (string2ll i) as [idx|] eqn:Ei; [|rewrite (keep_id sp k L) by done; by apply unchanged].
  pose proof (parsed_range i idx Ei Hi) as Hix. destruct o as [h q]. pose proof Ho as [(xs & ls & Hq & <-) Hdep Hb]. cbn [fst snd] in *. assert (Hc : ql_compress q = 0) by lia. destruct (place (concat ls) idx) as [g|] eqn:Ep; cbn [mbind option_bind].
  - destruct (lookup_lt_is_Some_2 _ g (place_lt _ _ _ Ep)) as [x Hx]. destruct (index_ok (be:=be) (junk:=junk) h q xs ls idx g x Hq Hc Hix Ep Hx) as (a1 & a2 & a3 & a4 & a5 & a6 & a7 & v & -> & _ & _ & _ & Hv & _). cbn [mbind option_bind]. unfold listTypeGet. cbn [e_value]. rewrite Hx. destruct v; cbn [value_str] in Hv; rewrite Hv; cbn [mbind option_bind]; by apply kept.
  - rewrite (index_miss (be:=be) (junk:=junk) h q xs ls idx Hq Hix Ep). cbn [mbind option_bind]. by apply kept.
Qed.
Lemma lset_refines st sp k i v : rel (db st) sp -> list_compress_depth <= 0 -> string2ll i <> Some LONG_MIN -> bytes_ok v -> 40 + 2 * (total sp + (zlen v + 18)) < 2 ^ 32 -> refines st sp (do_cmd st (LSET k i v)) (spec sp (LSET k i v)).
Proof.
  intros Hr Hd Hi Hv Hw. eapply on_refines; [done|reflexivity|]. intros o L _ E Ho HL. cbv beta. cbn [fst snd]. destruct (string2ll i) as [idx|] eqn:Ei; [|cbn [fst snd]; rewrite (keep_id sp k L) by done; by apply unchanged].
  pose proof (parsed_range i idx Ei Hi) as Hix. destruct o as [h q]. pose proof Ho as [Hq Hdep Hb]. cbn [fst snd] in *. assert (Hc : ql_compress q = 0) by lia. destruct (list_get sp k L E) as [_ ?]. pose proof (zlen_nonneg v). destruct (replace_spec (be:=be) (junk:=junk) (hjunk:=hjunk) h q L idx v Hq Hc Hix Hv ltac:(lia)) as (h' & -> & R). cbn [mbind option_bind]. destruct (place L idx) as [g|] eqn:Ep.
  - rewrite bool_decide_eq_true_2 by eauto. cbn [fst snd]. apply (list_written _ _ _ _ (h', q)); [done|split; [exact R|done|by apply Forall_insert]| |done|cbn; lia]. rewrite decide_False; [done|]. intros Hn. apply (f_equal length) in Hn. rewrite length_insert in Hn. by destruct L.
  - rewrite bool_decide_eq_false_2 by (by intros [? ?]). cbn [fst snd]. apply kept; [done|done|done|]. by split.
Qed.
Lemma linsert_refines st sp k p pivot v : rel (db st) sp -> list_compress_depth <= 0 -> bytes_ok v -> 40 + 2 * (total sp + (zlen v + 18)) < 2 ^ 32 -> refines st sp (do_cmd st (LINSERT k p pivot v)) (spec sp (LINSERT k p pivot v)).
Proof.
  intros Hr Hd Hv Hw. cbn [spec exec]. unfold linsertCommand. destruct (insert_where p) as [w|]; [|by apply unchanged]. eapply on_refines; [done|reflexivity|]. intros o L _ E Ho HL. cbv beta. destruct o as [h q]. pose proof Ho as [(xs & ls & Hq & HLs) Hdep Hb]. cbn [fst snd] in *. destruct (list_get sp k L E) as [_ ?].
  assert (Hc : ql_compress q = 0) by lia. assert (Ep : place (concat ls) 0 = Some 0%nat) by (apply place_first; by rewrite HLs). destruct (ready_at h q xs ls LIST_TAIL 0 0%nat Hq Hc ltac:(cbv beta iota; lia) Ep) as (li & -> & Hrd). cbn [mbind option_bind].
  pose proof (list_length (h, q) L Ho) as Hlen. rewrite Hlen.
  destruct (insert_loop_spec h q xs ls pivot v w Hq Hc ltac:(lia) ltac:(by rewrite HLs) Hv ltac:(rewrite HLs; lia) (length (concat ls) - 0)%nat (Z.to_nat (zlen L)) li 0%nat eq_refl ltac:(rewrite HLs; unfold zlen; lia) Hrd) as (o' & -> & Ho'). rewrite HLs, drop_0 in *. cbn [mbind option_bind]. destruct (index_of pivot L) as [i|].
  - rewrite bool_decide_eq_true_2 by eauto. cbn [fst snd]. rewrite (list_length _ _ Ho'). replace (zlen (put _ v L)) with (zlen L + 1) by (unfold put, zlen; rewrite length_app; cbn [length]; rewrite length_take, length_drop; lia).
    eapply list_written; [done|exact Ho'| |done|cbn; lia]. rewrite decide_False; [done|]. unfold put. by intros [_ ?]%app_eq_nil.
  - rewrite bool_decide_eq_false_2 by (by intros [? ?]). cbn [fst snd]. by apply kept.
Qed.
(** The range of LRANGE and LTRIM: empty, or from [start] to [end_]. *)
Lemma slice_range L s e : let '(start, end_) := range_of (zlen L) s e in 0 <= start /\
  if (start >? end_) || (start >=? zlen L) then slice L s e = []
  else let end_ := if end_ >=? zlen L then zlen L - 1 else end_ in start <= end_ < zlen L /\ slice L s e = take (Z.to_nat (end_ - start + 1)) (drop (Z.to_nat start) L).
Proof.
  unfold range_of, slice. set (s' := if s <? 0 then zlen L + s else s). set (e' := if e <? 0 then zlen L + e else e). pose proof (zlen_nonneg L) as H0. set (s'' := if s' <? 0 then 0 else s'). assert (Hs : 0 <= s'' /\ Z.to_nat s' = Z.to_nat s'') by (unfold s''; destruct (Z.ltb_spec s' 0); lia). destruct Hs as [Hs ->]. split; [done|]. rewrite Z.gtb_ltb, Z.geb_leb. unfold zlen in *.
  destruct (Z.ltb_spec e' s''); cbn [orb]; [apply drop_ge; rewrite length_take; lia|]. destruct (Z.leb_spec (Z.of_nat (length L)) s''); [apply drop_ge; rewrite length_take; lia|]. rewrite Z.geb_leb, skipn_firstn_comm. destruct (Z.leb_spec (Z.of_nat (length L)) e'); (split; [lia|]).
  - rewrite !take_ge by (rewrite length_drop; lia). done.
  - f_equal. lia.
Qed.
Lemma lrange_refines st sp k s e : rel (db st) sp -> list_compress_depth <= 0 -> 40 + 2 * total sp < 2 ^ 32 -> refines st sp (do_cmd st (LRANGE k s e)) (spec sp (LRANGE k s e)).
Proof.
  intros Hr Hd Hw. cbn [spec exec]. unfold lrangeCommand. destruct (string2ll s) as [s'|], (string2ll e) as [e'|]; [|by apply unchanged..]. eapply on_refines; [done|reflexivity|]. intros o L _ E Ho HL. cbv beta. destruct o as [h q]. pose proof Ho as [(xs & ls & Hq & HLs) Hdep Hb]. cbn [fst snd] in *. destruct (list_get sp k L E) as [_ ?]. pose proof (weight_len L).
  pose proof (list_length (h, q) L Ho) as Hlen. rewrite Hlen. pose proof (slice_range L s' e') as Hsl. destruct (range_of (zlen L) s' e') as [start end_]. destruct Hsl as [Hs0 Hsl]. destruct ((start >? end_) || (start >=? zlen L)).
  - rewrite Hsl, (keep_id sp k L) by done. by apply unchanged.
  - set (end' := if end_ >=? zlen L then zlen L - 1 else end_) in *. cbv zeta in *. destruct Hsl as [Hin ->]. assert (Hc : ql_compress q = 0) by lia. assert (Ep : place (concat ls) start = Some (Z.to_nat start)) by (unfold place; rewrite (proj2 (Z.ltb_ge _ _)), HLs, (proj2 (Z.ltb_lt _ _)) by lia; done).
    destruct (ready_at h q xs ls LIST_TAIL start (Z.to_nat start) Hq Hc ltac:(cbv beta iota; lia) Ep) as (li & -> & Hrd). cbn [mbind option_bind]. rewrite (lrange_loop_spec h q xs ls Hq Hc _ li (Z.to_nat start)) by (done || rewrite HLs; unfold zlen in *; lia). cbn [mbind option_bind]. rewrite HLs. replace (zlen (take _ _)) with (end' - start + 1) by (unfold zlen in *; rewrite length_take, length_drop; lia). by apply kept.
Qed.
Lemma ltrim_refines st sp k s e : rel (db st) sp -> list_compress_depth <= 0 -> 40 + 2 * total sp < 2 ^ 32 -> refines st sp (do_cmd st (LTRIM k s e)) (spec sp (LTRIM k s e)).
Proof.
  intros Hr Hd Hw. cbn [spec exec]. unfold ltrimCommand. destruct (string2ll s) as [s'|], (string2ll e) as [e'|]; [|by apply unchanged..]. eapply on_refines; [done|reflexivity|]. intros o L _ E Ho HL. cbv beta. destruct o as [h q]. pose proof Ho as [Hq Hdep Hb]. cbn [fst snd] in *. destruct (list_get sp k L E) as [_ ?]. pose proof (weight_len L). pose proof (zlen_nonneg L).
  pose proof (list_length (h, q) L Ho) as Hlen. rewrite Hlen. pose proof (slice_range L s' e') as Hsl. destruct (range_of (zlen L) s' e') as [start end_]. destruct Hsl as [Hs0 Hsl].
  assert (Htr : exists lt rt, (if (start >? end_) || (start >=? zlen L) then (zlen L, 0) else (start, zlen L - (if end_ >=? zlen L then zlen L - 1 else end_) - 1)) = (lt, rt) /\ 0 <= lt /\ 0 <= rt /\ lt + rt <= zlen L /\ (rt = 0 \/ lt + rt < zlen L) /\ slice L s' e' = take (Z.to_nat (zlen L - lt - rt)) (drop (Z.to_nat lt) L)).
  { destruct ((start >? end_) || (start >=? zlen L)); [exists (zlen L), 0; split; [done|]; split; [lia|]; split; [lia|]; split; [lia|]; split; [by left|]; rewrite Hsl; replace (zlen L - zlen L - 0) with 0 by lia; by rewrite take_0|]. cbv zeta in *. set (end' := if end_ >=? zlen L then _ else _) in *. destruct Hsl as [Hin ->]. exists start, (zlen L - end' - 1). split; [done|]. split; [lia|]. split; [lia|]. split; [lia|]. split; [lia|]. f_equal. lia. }
  destruct Htr as (lt & rt & -> & Hlt & Hrt & Hsum & Hcase & Hslice). assert (Hc : ql_compress q = 0) by lia.
  destruct (delrange_spec (be:=be) (junk:=junk) (hjunk:=hjunk) h q L 0 lt Hq Hc ltac:(lia) ltac:(lia)) as (h1 & q1 & -> & O1 & R1). cbn [mbind option_bind]. assert (E1 : (spec_delrange L 0 lt).1 = drop (Z.to_nat lt) L) by (unfold spec_delrange; destruct (Z.leb_spec lt 0); [replace lt with 0 by lia; done|rewrite place_first by done; done]). rewrite E1 in R1.
  destruct (delrange_spec (be:=be) (junk:=junk) (hjunk:=hjunk) h1 q1 _ (- rt) rt R1 ltac:(rewrite (proj2 O1); lia) ltac:(lia) ltac:(lia)) as (h2 & q2 & -> & O2 & R2). cbn [mbind option_bind].
  assert (E2 : (spec_delrange (drop (Z.to_nat lt) L) (- rt) rt).1 = slice L s' e').
  { rewrite Hslice. unfold spec_delrange. destruct (Z.leb_spec rt 0) as [Hz|Hpos]; [cbn [fst]; rewrite take_ge by (rewrite length_drop; unfold zlen in *; lia); done|]. unfold place. rewrite (proj2 (Z.ltb_lt (- rt) 0)) by lia. assert (Hdl : zlen (drop (Z.to_nat lt) L) = zlen L - lt) by (unfold zlen in *; rewrite length_drop; lia). rewrite Hdl, (proj2 (Z.leb_le 0 _)) by lia. cbn [fst]. rewrite (drop_ge (drop _ L)) by (unfold zlen in *; lia). rewrite app_nil_r. f_equal; lia. }
  rewrite E2 in R2. assert (Ho2 : list_ok (h2, q2) (slice L s' e')) by (split; [done|cbn [snd]; rewrite (proj2 O2), (proj2 O1); done|unfold slice; by apply Forall_drop, Forall_take]). cbn [fst snd]. rewrite (len_zero _ _ Ho2). eapply list_written; [done|exact Ho2| | |].
  - destruct (decide (slice L s' e' = [])); [rewrite bool_decide_eq_true_2 by done; cbn; by rewrite delete_insert_eq|by rewrite bool_decide_eq_false_2].
  - by destruct (bool_decide _).
  - destruct (bool_decide _); cbn; lia.
Qed.
Lemma remove_none v L : forall n, 0 <= (remove_n n v L).2 /\ ((remove_n n v L).2 = 0 -> (remove_n n v L).1 = L).
Proof.
  induction L as [|x L IH]; intros n; [done|]. cbn [remove_n]. destruct (decide (x = v)).
  - destruct (decide (n = 1%nat)); [done|]. specialize (IH (n - 1)%nat). destruct (remove_n (n - 1) v L) as [L' c]. cbn [fst snd] in *. lia.
  - specialize (IH n). destruct (remove_n n v L) as [L' c]. cbn [fst snd] in *. split; [lia|]. intros E. f_equal. by apply IH.
Qed.
Lemma rem_none n v L : 0 <= (spec_rem n v L).2 /\ ((spec_rem n v L).2 = 0 -> (spec_rem n v L).1 = L).
Proof.
  unfold spec_rem. destruct (n <? 0); [|apply remove_none]. pose proof (remove_none v (reverse L) (Z.to_nat (- n))) as [H0 H1]. destruct (remove_n (Z.to_nat (- n)) v (reverse L)) as [L' c]. cbn [fst snd] in *. split; [done|]. intros E. rewrite (H1 E). apply reverse_involutive.
Qed.
Lemma rem_spec h q L n v : list_ok (h, q) L -> L <> [] -> list_compress_depth <= 0 -> - 2 ^ 63 < n < 2 ^ 63 -> exists t li o,
  (if n <? 0 then '(o, li) ← listTypeInitIterator be junk (h, q) (-1) LIST_HEAD; Some (- n, o, li) else '(o, li) ← listTypeInitIterator be junk (h, q) 0 LIST_TAIL; Some (n, o, li)) = Some (t, (h, q), li) /\
  rem_loop be junk hjunk (Z.to_nat (zlen L)) (h, q) li v t 0 = Some (o, (spec_rem n v L).2) /\ list_ok o (spec_rem n v L).1.
Proof.
  intros Ho HL Hd Hn. pose proof Ho as [(xs & ls & Hq & HLs) Hdep Hb]. cbn [fst snd] in *. assert (Hc : ql_compress q = 0) by lia. rewrite <- HLs in HL, Hb. unfold spec_rem. destruct (Z.ltb_spec n 0) as [Hneg|Hpos].
  - destruct (ready_at h q xs ls LIST_HEAD (-1) _ Hq Hc ltac:(cbv beta iota; lia) (place_end _ HL)) as (li & -> & Hrd). cbn [mbind option_bind]. assert (Eg : S (length (concat ls) - 1) = length (concat ls)) by (destruct (concat ls); [done|cbn; lia]). rewrite Eg in Hrd.
    destruct (rem_loop_spec v AL_START_TAIL (- n) ltac:(lia) ltac:(lia) (length (concat ls)) (Z.to_nat (zlen L)) h q xs ls li (length (concat ls)) 0 Hq Hc Hb ltac:(lia) ltac:(cbn [todo]; by rewrite firstn_all, length_reverse) ltac:(rewrite HLs; unfold zlen; lia) Hrd ltac:(lia)) as (o & Eo & Ho'). exists (- n), li, o. split; [done|]. rewrite (proj2 (Z.eqb_neq _ _)), Z.sub_0_r in Eo, Ho' by lia. cbn [todo] in Eo, Ho'. rewrite firstn_all, HLs in Eo, Ho'. destruct (remove_n (Z.to_nat (- n)) v (reverse L)) as [L' c]. cbn [fst snd glue] in *. rewrite drop_all, app_nil_r in Ho'. done.
  - destruct (ready_at h q xs ls LIST_TAIL 0 _ Hq Hc ltac:(cbv beta iota; lia) (place_first _ HL)) as (li & -> & Hrd). cbn [mbind option_bind].
    destruct (rem_loop_spec v AL_START_HEAD n ltac:(lia) ltac:(lia) (length (concat ls)) (Z.to_nat (zlen L)) h q xs ls li 0%nat 0 Hq Hc Hb ltac:(lia) eq_refl ltac:(rewrite HLs; unfold zlen; lia) Hrd ltac:(lia)) as (o & Eo & Ho'). exists n, li, o. split; [done|]. replace (if n =? 0 then 0 else n - 0) with n in Eo, Ho' by (destruct (Z.eqb_spec n 0); lia). cbn [todo] in Eo, Ho'. rewrite drop_0, HLs in Eo, Ho'. destruct (remove_n (Z.to_nat n) v L) as [L' c]. cbn [fst snd glue] in *. by rewrite take_0 in Ho'.
Qed.
Lemma lrem_refines st sp k n v : rel (db st) sp -> list_compress_depth <= 0 -> string2ll n <> Some LONG_MIN -> refines st sp (do_cmd st (LREM k n v)) (spec sp (LREM k n v)).
Proof.
  intros Hr Hd Hn. cbn [spec exec]. unfold lremCommand. destruct (string2ll n) as [c|] eqn:En; [|by apply unchanged]. pose proof (parsed_range n c En Hn) as Hcr. eapply on_refines; [done|reflexivity|]. intros [h q] L _ E Ho HL. cbv beta. rewrite (proj2 (Z.eqb_neq c LONG_MIN)) by congruence.
  destruct (rem_spec h q L c v Ho HL Hd Hcr) as (t & li & o & -> & Hloop & Ho'). cbn [mbind option_bind]. rewrite (list_length _ _ Ho), Hloop. cbn [mbind option_bind fst snd]. rewrite (len_zero _ _ Ho'). destruct (rem_none c v L) as [H0 Hsame]. destruct (Z.eqb_spec (spec_rem c v L).2 0) as [Ez|Nz].
  - rewrite (Hsame Ez) in *. rewrite Ez. rewrite bool_decide_eq_false_2 by done. replace (add_dirty (put_list st k o) 0) with (put_list st k o) by (unfold add_dirty, put_list; cbn; by rewrite Z.add_0_r). by apply kept.
  - eapply list_written; [done|exact Ho'| | |].
    + destruct (decide ((spec_rem c v L).1 = [])); [rewrite bool_decide_eq_true_2 by done; cbn; by rewrite delete_insert_eq|by rewrite bool_decide_eq_false_2].
    + by destruct (bool_decide _).
    + destruct (bool_decide _); cbn; lia.
Qed.
(** One list popped and another, or the same, pushed to. *)
Lemma rpoplpush_refines st sp src dst : rel (db st) sp -> 40 + 2 * total sp < 2 ^ 32 -> refines st sp (do_cmd st (RPOPLPUSH src dst)) (spec sp (RPOPLPUSH src dst)).
Proof.
  intros Hr Hw. cbn [spec exec]. unfold rpoplpushCommand. destruct (key_cases (db st) sp src Hr) as [[-> ->]|[(t & -> & ->)|(o & L & E & E' & Ho & HL)]]; [by apply unchanged..|]. rewrite E, E', (len_zero _ _ Ho), bool_decide_eq_false_2 by done. destruct (list_get sp src L E') as [Eg HwL].
  assert (Hdst : (match db st !! dst with Some (VOther _) => true | _ => false end) = wrong_type sp dst) by (unfold wrong_type; destruct (key_cases (db st) sp dst Hr) as [[-> ->]|[(t & -> & ->)|(o2 & L2 & -> & -> & _)]]; done).
  destruct (wrong_type sp dst) eqn:Ew; [destruct (db st !! dst) as [[]|]; try done; by apply unchanged|].
  destruct (pop_ok o L LIST_TAIL Ho) as (o1 & Epop & Ho1). cbn [popped spec_pop fst snd] in Epop, Ho1. destruct (lookup_lt_is_Some_2 L (length L - 1)%nat ltac:(destruct L; [done|cbn; lia])) as [v Hv]. rewrite Hv in Epop |- *. set (L1 := take (length L - 1) L) in *.
  assert (Hv' : bytes_ok v) by (eapply Forall_lookup_1; [exact (lo_bytes _ _ Ho)|exact Hv]). assert (HL1 : weight L1 + zlen v + 18 = weight L) by (rewrite (weight_split (length L - 1) L), (drop_S L v _ Hv), weight_cons, (drop_ge L) by lia; change (weight []) with 0; fold L1; lia).
  set (st1 := put_list st src o1). set (sp1 := keep sp src L1).
  (* the list at the destination once the source is popped *)
  set (dob := match db st1 !! dst with Some (VList o) => Some o | _ => None end). assert (Hdo : exists d, default (new_list list_max_ziplist_size list_compress_depth) dob = d /\ list_ok d (get sp1 dst)).
  { unfold dob, st1, sp1, put_list. cbn [db]. destruct (decide (dst = src)) as [->|Hne].
    - rewrite lookup_insert_eq. exists o1. split; [done|]. unfold get, keep. destruct (decide (L1 = [])) as [En|_]; [rewrite lookup_delete_eq; by rewrite En in Ho1|by rewrite lookup_insert_eq].
    - rewrite lookup_insert_ne by done. unfold get. rewrite keep_ne by done. destruct (key_cases (db st) sp dst Hr) as [[-> ->]|[(t & E1 & E2)|(o2 & L2 & -> & -> & Ho2 & _)]]; [eexists; split; [done|apply new_ok]| |by exists o2]. unfold wrong_type in Ew. by rewrite E2 in Ew. }
  destruct Hdo as (d & Ed & Hod). assert (Hwd : weight (get sp1 dst) + zlen v + 18 <= total sp).
  { pose proof (get_weight sp1 dst) as Hg. unfold sp1 in Hg at 3. rewrite total_keep in Hg by (unfold wrong_type; by rewrite E'). rewrite Eg in Hg. lia. }
  destruct (push_ok d (get sp1 dst) v LIST_HEAD Hod Hv' ltac:(lia)) as (d' & Epush & Hod'). cbn [push1] in Hod'.
  set (st2 := notify_event (notify_event (put_list (touch_key (match dob with None => add_list st1 dst d | Some _ => st1 end) dst) dst d') (bytes_of_string "lpush") dst) (bytes_of_string "rpop") src).
  assert (Hst2 : db st2 = <[dst := VList d']> (<[src := VList o1]> (db st)) /\ touched st2 = dst :: touched st /\ dirty st2 = dirty st) by (unfold st2; destruct dob; cbn; by rewrite ?insert_insert_eq). destruct Hst2 as (Hdb2 & Ht2 & Hd2).
  set (os := if decide (dst = src) then d' else o1). assert (Hos : db st2 !! src = Some (VList os) /\ exists Ls, list_ok os Ls /\ (Ls = [] <-> dst <> src /\ L1 = [])).
  { rewrite Hdb2. unfold os. destruct (decide (dst = src)) as [->|Hne]; [rewrite lookup_insert_eq; split; [done|]; exists (v :: get sp1 src); split; [done|]; split; [done|tauto]|]. rewrite !lookup_insert_ne, lookup_insert_eq by done. split; [done|]. exists L1. split; [done|]. tauto. }
  destruct Hos as [Es (Ls & Hls & Hiff)].
  assert (Hfinal : exists st3, st3 = (if listTypeLength os =? 0 then notify_event (delete_key st2 src) (bytes_of_string "del") src else st2) /\ rel (db st3) (keep sp1 dst (v :: get sp1 dst)) /\ touched st3 = dst :: touched st /\ dirty st3 = dirty st).
  { eexists. split; [done|]. rewrite (len_zero _ _ Hls). split; [|by destruct (bool_decide _)]. pose proof (rel_keep (db st) sp src o1 L1 Hr Ho1) as R1. fold sp1 in R1. pose proof (rel_keep _ sp1 dst d' _ R1 Hod') as R2. rewrite (decide_False (P := v :: get sp1 dst = [])) in R2 by done.
    assert (Edb : db (if bool_decide (Ls = []) then notify_event (delete_key st2 src) (bytes_of_string "del") src else st2) = <[dst := VList d']> (if decide (L1 = []) then delete src (db st) else <[src := VList o1]> (db st))); [|by rewrite Edb].
    destruct (decide (dst = src)) as [->|Hne].
    - rewrite bool_decide_eq_false_2 by tauto. rewrite Hdb2, insert_insert_eq. destruct (decide (L1 = [])); [by rewrite insert_delete_eq|by rewrite insert_insert_eq].
    - destruct (decide (L1 = [])) as [E1|E1]; [rewrite bool_decide_eq_true_2 by tauto|rewrite bool_decide_eq_false_2 by tauto]; cbn [db notify_event delete_key]; rewrite Hdb2; [|done]. rewrite delete_insert_ne by done. by rewrite delete_insert_eq. }
  destruct Hfinal as (st3 & E3 & R3 & T3 & D3). exists (add_dirty (touch_key st3 src) 1). split; [|split].
  - cbn [fst snd]. assert (Hbr : forall (A B : option (state * reply)), match db st !! dst with Some (VOther _) => A | _ => B end = B) by (intros; destruct (db st !! dst) as [[]|]; done). rewrite Hbr. rewrite Epop. cbn [mbind option_bind]. fold st1. unfold rpoplpushHandlePush. fold dob. rewrite Ed, Epush. cbn [mbind option_bind]. fold st2. rewrite Es. by rewrite <- E3.
  - exact R3.
  - exists [src; dst]. cbn [touched dirty add_dirty touch_key fst]. rewrite T3, D3. split; [done|]. split; [|split; [lia|split; [done|lia]]]. intros k Hk. destruct (decide (k = dst)) as [->|Hkd]; [set_solver|]. destruct (decide (k = src)) as [->|Hks]; [set_solver|]. destruct Hk. unfold sp1. by rewrite !keep_ne.
Qed.

(** ** Sequences of commands *)
(** The commands that work at the ends of lists. *)
Definition end_cmd (c : cmd) : Prop := match c with PUSH _ _ _ | PUSHX _ _ _ | LLEN _ | POP _ _ | RPOPLPUSH _ _ => True | _ => False end.
(** Arguments are bytes, the least number is not an index or a count, and
    pushes have an element, as their arity says. *)
Definition cmd_ok (c : cmd) : Prop :=
  (list_compress_depth <= 0 \/ end_cmd c) /\
  match c with
  | PUSH _ _ args | PUSHX _ _ args => args <> [] /\ Forall bytes_ok args
  | LINSERT _ _ _ v => bytes_ok v
  | LINDEX _ i => string2ll i <> Some LONG_MIN
  | LSET _ i v => string2ll i <> Some LONG_MIN /\ bytes_ok v
  | LREM _ n _ => string2ll n <> Some LONG_MIN
  | _ => True
  end.
Lemma list_cmd_refines st sp c : rel (db st) sp -> cmd_ok c -> 40 + 2 * (total sp + cmd_weight c) < 2 ^ 32 -> refines st sp (do_cmd st c) (spec sp c).
Proof.
  intros Hr [Hd Hc] Hw. destruct c; cbn [cmd_weight end_cmd] in *; rewrite ?Z.add_0_r in Hw; try (destruct Hd as [Hd|Hd]; [|done]).
  - destruct Hc. by apply push_refines.
  - destruct Hc. by apply pushx_refines.
  - by apply linsert_refines.
  - by apply llen_refines.
  - by apply lindex_refines.
  - destruct Hc. by apply lset_refines.
  - by apply pop_refines.
  - by apply lrange_refines.
  - by apply ltrim_refines.
  - by apply lrem_refines.
  - by apply rpoplpush_refines.
Qed.
End ListSpec.
Lemma weight_slice L s e : weight (slice L s e) <= weight L.
Proof. unfold slice. cbv zeta. set (m := Z.to_nat _). set (n := Z.to_nat _). pose proof (weight_split n L). pose proof (weight_split m (take n L)). pose proof (weight_nonneg (take m (take n L))). pose proof (weight_nonneg (drop n L)). lia. Qed.
Lemma weight_remove v L : forall n, weight (remove_n n v L).1 <= weight L.
Proof.
  induction L as [|x L IH]; intros n; [done|]. cbn [remove_n]. rewrite weight_cons. pose proof (zlen_nonneg x). destruct (decide (x = v)).
  - destruct (decide (n = 1%nat)); [cbn [fst]; lia|]. specialize (IH (n - 1)%nat). destruct (remove_n (n - 1) v L). cbn [fst] in *. lia.
  - specialize (IH n). destruct (remove_n n v L). cbn [fst] in *. rewrite weight_cons. lia.
Qed.
Lemma weight_rem n v L : weight (spec_rem n v L).1 <= weight L.
Proof.
  unfold spec_rem. destruct (n <? 0); [|apply weight_remove]. pose proof (weight_remove v (reverse L) (Z.to_nat (- n))) as Hw. destruct (remove_n (Z.to_nat (- n)) v (reverse L)) as [L' c]. cbn [fst] in *. rewrite (weight_perm _ _ (reverse_Permutation L')), (weight_perm _ _ (reverse_Permutation L)) in *. lia.
Qed.
Lemma on_total sp k none f w : 0 <= w -> (forall L, weight (f L).1 <= weight L + w) -> total (on_list sp k none f).1 <= total sp + w.
Proof.
  intros Hw Hf. unfold on_list. destruct (sp !! k) as [[L|t]|] eqn:E; [|cbn [fst]; lia..]. specialize (Hf L). destruct (f L) as [L' r]. cbn [fst] in *. rewrite total_keep by (unfold wrong_type; by rewrite E). unfold get. rewrite E. lia.
Qed.
Lemma cmd_weight_nonneg c : 0 <= cmd_weight c.
Proof. destruct c; cbn [cmd_weight]; try lia; try apply weight_nonneg; pose proof (zlen_nonneg v); lia. Qed.
Lemma spec_total sp c : total (spec sp c).1 <= total sp + cmd_weight c.
Proof.
  pose proof (cmd_weight_nonneg c) as H0. destruct c as [w k args|w k args|k p pivot v|k|k i|k i v|w k|k s e|k s e|k n v|src dst]; cbn [spec cmd_weight] in *.
  - destruct (wrong_type sp k) eqn:E; cbn [fst]; [lia|]. rewrite total_keep, pushes_weight by done. lia.
  - apply on_total; [done|]. intros L. cbn [fst]. rewrite pushes_weight. lia.
  - destruct (insert_where p); [|cbn [fst]; lia]. apply on_total; [done|]. intros L. destruct (index_of pivot L); cbn [fst]; [rewrite put_weight|]; lia.
  - apply on_total; [done|]. intros L. cbn [fst]. lia.
  - apply on_total; [done|]. intros L. cbn [fst]. lia.
  - apply on_total; [done|]. intros L. destruct (string2ll i) as [j|]; [|cbn [fst]; lia]. destruct (place L j) as [g|]; cbn [fst]; [pose proof (insert_weight g v L)|]; lia.
  - apply on_total; [done|]. intros L. pose proof (weight_split 1 L). pose proof (weight_nonneg (take 1 L)). pose proof (weight_split (length L - 1) L). pose proof (weight_nonneg (drop (length L - 1) L)). destruct w; cbn [fst]; lia.
  - destruct (string2ll s), (string2ll e); try (cbn [fst]; lia). apply on_total; [done|]. intros L. cbn [fst]. lia.
  - destruct (string2ll s) as [s'|], (string2ll e) as [e'|]; try (cbn [fst]; lia). apply on_total; [done|]. intros L. cbn [fst]. pose proof (weight_slice L s' e'). lia.
  - destruct (string2ll n) as [c|]; [|cbn [fst]; lia]. apply on_total; [done|]. intros L. cbn [fst]. pose proof (weight_rem c v L). lia.
  - destruct (sp !! src) as [[L|t]|] eqn:E; [|cbn [fst]; lia..]. destruct (wrong_type sp dst) eqn:Ew; [cbn [fst]; lia|]. destruct (L !! (length L - 1)%nat) as [v|] eqn:Ev; [|cbn [fst]; lia]. cbv zeta. cbn [fst]. assert (Eg : get sp src = L) by (unfold get; by rewrite E).
    rewrite !total_keep; [|unfold wrong_type; by rewrite E|].
    + rewrite weight_cons, Eg. rewrite (weight_split (length L - 1) L), (drop_S L v _ Ev), weight_cons. pose proof (weight_nonneg (drop (S (length L - 1)) L)). lia.
    + unfold wrong_type in *. destruct (decide (dst = src)) as [->|Hne]; [|by rewrite keep_ne]. unfold keep. destruct (decide _); by rewrite ?lookup_delete_eq, ?lookup_insert_eq.
Qed.
Lemma list_cmds_weight cs : 0 <= cmds_weight cs.
Proof. induction cs as [|c cs IH]; [done|]. cbn [cmds_weight foldr]. fold (cmds_weight cs). pose proof (cmd_weight_nonneg c). lia. Qed.

(** C16: Lists are lists of byte strings: from a keyspace that holds such
    lists, every sequence of LPUSH, RPUSH, LPUSHX, RPUSHX, LINSERT, LLEN,
    LINDEX, LSET, LPOP, RPOP, LRANGE, LTRIM, LREM and RPOPLPUSH (onto the same
    list too) succeeds and replies, errors and wrong types included, as the
    same commands on lists of strings; the keyspace then holds the resulting
    lists, without empty ones.  It holds for every list-max-ziplist-size,
    without compression; with it, for the commands at the ends.  The smallest
    64-bit integer is excluded as an index or count, which the code negates,
    and the elements of all lists together take less than 2 GB. *)
Theorem list_commands_refine `{QAllocator} (be : bool) (junk : nat -> Z) (hjunk : Z -> Z) (list_max_ziplist_size list_compress_depth : Z) (cs : list cmd) : forall (st : state) (sp : keyspace),
  rel list_compress_depth (db st) sp -> Forall (cmd_ok list_compress_depth) cs -> 40 + 2 * (total sp + cmds_weight cs) < 2 ^ 32 ->
  exists st', run be junk hjunk list_max_ziplist_size list_compress_depth st cs = Some (st', (spec_run sp cs).2) /\ rel list_compress_depth (db st') (spec_run sp cs).1.
Proof.
  induction cs as [|c cs IH]; intros st sp Hr Hok Hw; [by exists st|]. apply Forall_cons in Hok as [Hc Hcs]. cbn [cmds_weight foldr] in Hw. fold (cmds_weight cs) in Hw. pose proof (list_cmds_weight cs). pose proof (spec_total sp c) as Ht.
  destruct (list_cmd_refines be junk hjunk list_max_ziplist_size list_compress_depth st sp c Hr Hc ltac:(lia)) as (st1 & E & Hr1 & _). cbn [run spec_run]. rewrite E. destruct (spec sp c) as [sp1 r]. cbn [fst snd mbind option_bind] in *.
  destruct (IH st1 sp1 Hr1 Hcs ltac:(lia)) as (st2 & E2 & Hr2). exists st2. rewrite E2. by destruct (spec_run sp1 cs).
Qed.
(** C39: Every change of a list is signalled: the keys a command changes, both
    of them for RPOPLPUSH, are among those it signals as modified, the counter
    of changes grows exactly when a key is signalled, and a command that
    signals nothing leaves every list as it was.  The commands are all of them
    without compression and, with it, those at the ends of lists (LPUSH,
    RPUSH, LPUSHX, RPUSHX, LLEN, LPOP, RPOP and RPOPLPUSH); the smallest 64-bit
    integer is excluded as an index or count, and the elements of all lists
    together take less than 2 GB. *)
Theorem list_changes_signalled `{QAllocator} (be : bool) (junk : nat -> Z) (hjunk : Z -> Z) (list_max_ziplist_size list_compress_depth : Z) (c : cmd) (st : state) (sp : keyspace) :
  rel list_compress_depth (db st) sp -> cmd_ok list_compress_depth c -> 40 + 2 * (total sp + cmd_weight c) < 2 ^ 32 ->
  exists st' r, exec be junk hjunk list_max_ziplist_size list_compress_depth st c = Some (st', r) /\ rel list_compress_depth (db st') (spec sp c).1 /\ signals st st' sp (spec sp c).1.
Proof.
  intros Hr Hc Hw. destruct (list_cmd_refines be junk hjunk list_max_ziplist_size list_compress_depth st sp c Hr Hc Hw) as (st' & E & R & S). by exists st', (spec sp c).2.
Qed.

(** ** Examples *)
#[local] Instance lowest_free : QAllocator := {| znode h := fresh (dom h); znode_fresh h := not_elem_of_dom_1 h (fresh (dom h)) (is_fresh (dom h)) |}.
#[local] Abbreviation txt s := (bytes_of_string s%string).
Definition long_text (c : Z) : list Z := replicate 60 c.
Definition compressed_session : list cmd :=
  [PUSH LIST_TAIL [107] (map long_text [97; 98; 99; 100; 101; 102; 103]); LINDEX [107] (txt "2"); POP LIST_HEAD [107]; POP LIST_HEAD [107]; LRANGE [107] (txt "0") (txt "-1")].
(** With compression, reads in the middle of a list can leave its head
    compressed: LINDEX decompresses a node and leaves it marked for
    recompression; once it is the head, an iteration that leaves it compresses
    it again, whatever its place.  With nodes of two elements and a depth of
    one, RPUSH of seven elements, LINDEX 2, two LPOP and LRANGE 0 -1 all answer
    what they should; the next LPOP then uses the compressed block as a
    ziplist. *)
Theorem list_head_compressed : exists st,
  run false (fun _ => 0) (fun _ => 0) 2 1 (mk_state ∅ 0 [] [] []) compressed_session = Some (st, (spec_run ∅ compressed_session).2) /\
  (spec_run ∅ (compressed_session ++ [POP LIST_HEAD [107]])).2 = (spec_run ∅ compressed_session).2 ++ [ReplyBulk (Some (long_text 99))] /\
  exec false (fun _ => 0) (fun _ => 0) 2 1 st (POP LIST_HEAD [107]) = None.
Proof. eexists. split; [vm_compute; reflexivity|]. split; vm_compute; reflexivity. Qed.
Definition session : list cmd :=
  [PUSH LIST_TAIL (txt "k") [txt "a"; txt "12"; txt "a"; txt "c"; txt "a"]; LREM (txt "k") (txt "-2") (txt "a"); LINSERT (txt "k") (txt "After") (txt "12") (txt "x"); LINSERT (txt "k") (txt "before") (txt "zz") (txt "x"); LRANGE (txt "k") (txt "-3") (txt "9");
   RPOPLPUSH (txt "k") (txt "k"); LTRIM (txt "k") (txt "1") (txt "-2"); LSET (txt "k") (txt "-1") (txt "q"); RPOPLPUSH (txt "k") (txt "j"); LINDEX (txt "j") (txt "0"); PUSHX LIST_HEAD (txt "n") [txt "y"]; POP LIST_TAIL (txt "j"); LLEN (txt "j")].
Lemma bytes_decided (l : list Z) : forallb (fun c => (0 <=? c) && (c <? 256)) l = true -> bytes_ok l.
Proof. intros Hl. apply Forall_forall. intros c Hc. rewrite forallb_forall in Hl. specialize (Hl c ltac:(by apply list_elem_of_In)). unfold byte_ok. lia. Qed.
Lemma list_session_ok : Forall (cmd_ok 0) session.
Proof.
  unfold session. rewrite !Forall_cons, Forall_nil. repeat match goal with |- _ /\ _ => split | |- cmd_ok _ _ => split; [by left|] end.
  all: first [exact I|discriminate|by apply bytes_decided|by vm_compute|rewrite !Forall_cons, Forall_nil; repeat split; by apply bytes_decided].
Qed.
Lemma list_rel_empty depth : rel depth ∅ ∅.
Proof. intros k. by rewrite !lookup_empty. Qed.
Lemma list_commands_refine_witness : exists st, run true (fun _ => 0) (fun _ => 0) 2 0 (mk_state ∅ 0 [] [] []) session = Some (st, (spec_run ∅ session).2) /\ rel 0 (db st) (spec_run ∅ session).1.
Proof. apply (list_commands_refine true (fun _ => 0) (fun _ => 0) 2 0 session (mk_state ∅ 0 [] [] []) ∅ (list_rel_empty 0) list_session_ok). vm_compute. reflexivity. Defined.
Lemma list_changes_signalled_witness : exists st r, exec false (fun _ => 0) (fun _ => 0) (-2) 1 (mk_state ∅ 0 [] [] []) (PUSH LIST_HEAD (txt "k") [txt "1"]) = Some (st, r) /\ rel 1 (db st) (spec ∅ (PUSH LIST_HEAD (txt "k") [txt "1"])).1 /\ signals (mk_state ∅ 0 [] [] []) st ∅ (spec ∅ (PUSH LIST_HEAD (txt "k") [txt "1"])).1.
Proof. apply (list_changes_signalled false (fun _ => 0) (fun _ => 0) (-2) 1 (PUSH LIST_HEAD (txt "k") [txt "1"]) (mk_state ∅ 0 [] [] []) ∅ (list_rel_empty 1)); [|vm_compute; reflexivity]. split; [by right|]. split; [done|]. apply Forall_cons_2; [by apply bytes_decided|by apply Forall_nil_2]. Defined.
