(* ===== verification/Blocked.v ===== *)
(** * Blocking list commands (blocked.c, t_list.c)

    A client that pops from lists that have no elements is blocked: it is put
    in a queue for each of its keys.  When one of them becomes a list the key
    is put in a list of ready keys, and after the command the clients that wait
    for it are served in turn; BRPOPLPUSH pushes to another list, which can
    make another key ready.  The lists are those of [Tlist].  Timeouts are
    events that can come at any time.  Clients blocked on other types can be in
    the queues; serving them, which the keys of those types do, is not
    modelled, nor are modules, WAIT and the parsing of timeouts.  The keys of a
    blocked client, a dict in the code, are a list without duplicates.  A
    client is its identifier, and the queues hold identifiers; the count of
    blocked clients is not bounded and not kept by type.  [None] is a failed
    assertion, a panic or the use of a freed queue. *)
From Stdlib Require Import Strings.String.
From S2P Require Import Prelude Endian Util Lzf Ziplist ZiplistEdit ZiplistSpec Quicklist QuicklistShape QuicklistEnds QuicklistSpec Tlist.
#[local] Open Scope cmem_scope.
#[local] Abbreviation text s := (bytes_of_string s%string).

Inductive block_type := BLOCKED_NONE | BLOCKED_LIST | BLOCKED_ZSET | BLOCKED_STREAM.
#[export] Instance block_type_eq : EqDecision block_type.
Proof. solve_decision. Defined.
(** The flags CLIENT_BLOCKED, CLIENT_UNBLOCKED and CLIENT_MULTI, whether the
    last command is BLPOP, and [bpop]. *)
Record client := mk_client { c_btype : block_type; c_blocked : bool; c_unblocked : bool; c_multi : bool; c_blpop : bool; bpop_keys : list (list Z); bpop_target : option (list Z) }.
Inductive breply := BReply (r : reply) | BPair (key v : list Z) | BNullArray.
Record server := mk_server {
  ks : state;                             (* the keyspace *)
  clients : gmap Z client;
  blocking_keys : gmap (list Z) (list Z); (* the clients that wait for a key, in order *)
  ready_keys : list (list Z);             (* server.ready_keys *)
  db_ready_keys : gset (list Z);          (* db->ready_keys *)
  unblocked_clients : list Z;
  blocked_clients : Z;
  sent : list (Z * breply);               (* replies, latest last *)
  propagated : list (list (list Z))       (* commands propagated in place of those of the clients *)
}.
Definition with_ks (s : server) (st : state) : server := mk_server st (clients s) (blocking_keys s) (ready_keys s) (db_ready_keys s) (unblocked_clients s) (blocked_clients s) (sent s) (propagated s).
Definition with_client (s : server) (id : Z) (c : client) : server := mk_server (ks s) (<[id := c]> (clients s)) (blocking_keys s) (ready_keys s) (db_ready_keys s) (unblocked_clients s) (blocked_clients s) (sent s) (propagated s).
Definition with_blocking (s : server) (bk : gmap (list Z) (list Z)) : server := mk_server (ks s) (clients s) bk (ready_keys s) (db_ready_keys s) (unblocked_clients s) (blocked_clients s) (sent s) (propagated s).
Definition with_ready (s : server) (l : list (list Z)) (d : gset (list Z)) : server := mk_server (ks s) (clients s) (blocking_keys s) l d (unblocked_clients s) (blocked_clients s) (sent s) (propagated s).
Definition with_unblocked (s : server) (l : list Z) : server := mk_server (ks s) (clients s) (blocking_keys s) (ready_keys s) (db_ready_keys s) l (blocked_clients s) (sent s) (propagated s).
Definition add_blocked (s : server) (n : Z) : server := mk_server (ks s) (clients s) (blocking_keys s) (ready_keys s) (db_ready_keys s) (unblocked_clients s) (blocked_clients s + n) (sent s) (propagated s).
Definition addReply (s : server) (id : Z) (r : breply) : server := mk_server (ks s) (clients s) (blocking_keys s) (ready_keys s) (db_ready_keys s) (unblocked_clients s) (blocked_clients s) (sent s ++ [(id, r)]) (propagated s).
Definition propagate (s : server) (argv : list (list Z)) : server := mk_server (ks s) (clients s) (blocking_keys s) (ready_keys s) (db_ready_keys s) (unblocked_clients s) (blocked_clients s) (sent s) (propagated s ++ [argv]).

(** ** Blocking and unblocking *)
Definition set_blocked (c : client) (bt : block_type) (b : bool) : client := mk_client bt b (c_unblocked c) (c_multi c) (c_blpop c) (bpop_keys c) (bpop_target c).
Definition set_bpop (c : client) (keys : list (list Z)) (target : option (list Z)) : client := mk_client (c_btype c) (c_blocked c) (c_unblocked c) (c_multi c) (c_blpop c) keys target.
Definition set_unblocked (c : client) (b : bool) : client := mk_client (c_btype c) (c_blocked c) b (c_multi c) (c_blpop c) (bpop_keys c) (bpop_target c).
Definition set_lastcmd (c : client) (blpop : bool) : client := mk_client (c_btype c) (c_blocked c) (c_unblocked c) (c_multi c) blpop (bpop_keys c) (bpop_target c).
Definition blockClient (s : server) (id : Z) (btype : block_type) : option server :=
  c ← clients s !! id; Some (add_blocked (with_client s id (set_blocked c btype true)) 1).
(** The keys the client is blocked for, and the clients blocked for a key. *)
Fixpoint block_keys (keys bpop : list (list Z)) (bk : gmap (list Z) (list Z)) (id : Z) : list (list Z) * gmap (list Z) (list Z) :=
  match keys with
  | [] => (bpop, bk)
  | k :: keys => if decide (k ∈ bpop) then block_keys keys bpop bk id else block_keys keys (bpop ++ [k]) (<[k := default [] (bk !! k) ++ [id]]> bk) id
  end.
Definition blockForKeys (s : server) (id : Z) (btype : block_type) (keys : list (list Z)) (target : option (list Z)) : option server :=
  c ← clients s !! id;
  let '(bpop, bk) := block_keys keys (bpop_keys c) (blocking_keys s) id in
  blockClient (with_blocking (with_client s id (set_bpop c bpop target)) bk) id btype.
(** listDelNode with the node of the client. *)
Fixpoint del_client (id : Z) (l : list Z) : option (list Z) :=
  match l with [] => None | x :: l => if decide (x = id) then Some l else l ← del_client id l; Some (x :: l) end.
Fixpoint unblock_keys (keys : list (list Z)) (bk : gmap (list Z) (list Z)) (id : Z) : option (gmap (list Z) (list Z)) :=
  match keys with
  | [] => Some bk
  | k :: keys => l ← bk !! k; l ← del_client id l; unblock_keys keys (match l with [] => delete k bk | _ => <[k := l]> bk end) id
  end.
Definition unblockClientWaitingData (s : server) (id : Z) : option server :=
  c ← clients s !! id;
  if decide (bpop_keys c = []) then None
  else bk ← unblock_keys (bpop_keys c) (blocking_keys s) id; Some (with_client (with_blocking s bk) id (set_bpop c [] None)).
Definition queueClientForReprocessing (s : server) (id : Z) : option server :=
  c ← clients s !! id;
  if c_unblocked c then Some s else Some (with_unblocked (with_client s id (set_unblocked c true)) (unblocked_clients s ++ [id])).
Definition unblockClient (s : server) (id : Z) : option server :=
  c ← clients s !! id;
  s ← match c_btype c with BLOCKED_NONE => None | _ => unblockClientWaitingData s id end;
  let s := add_blocked s (-1) in
  c ← clients s !! id;
  queueClientForReprocessing (with_client s id (set_blocked c BLOCKED_NONE false)) id.
(** The clients whose pending input is processed, which is not modelled. *)
Fixpoint processUnblockedClients (fuel : nat) (s : server) : option server :=
  match unblocked_clients s with
  | [] => Some s
  | id :: l =>
      c ← clients s !! id;
      let s := with_client (with_unblocked s l) id (set_unblocked c false) in
      match fuel with O => None | S fuel => processUnblockedClients fuel s end
  end.
Definition replyToBlockedClientTimedOut (s : server) (id : Z) : option server :=
  c ← clients s !! id; match c_btype c with BLOCKED_NONE => None | _ => Some (addReply s id BNullArray) end.

(** ** Ready keys *)
Definition signalKeyAsReady (s : server) (key : list Z) : server :=
  match blocking_keys s !! key with
  | None => s
  | Some _ => if decide (key ∈ db_ready_keys s) then s else with_ready s (ready_keys s ++ [key]) ({[ key ]} ∪ db_ready_keys s)
  end.
(** dbAdd signals each list that it adds.  No command reads the ready keys, so
    the signals of a command, in order, are made after it. *)
Definition signal_added (s : server) : server :=
  let keys := rev (added (ks s)) in
  let st := ks s in
  foldl signalKeyAsReady (with_ks s (mk_state (db st) (dirty st) (touched st) (notified st) [])) keys.

Section Blocked.
  Context `{QAllocator} (be : bool) (junk : nat -> Z) (hjunk : Z -> Z) (list_max_ziplist_size list_compress_depth : Z).

Definition pop_event (w : list_where) : list Z := match w with LIST_HEAD => text "lpop" | LIST_TAIL => text "rpop" end.
(** [false] is C_ERR. *)
Definition serveClientBlockedOnList (s : server) (receiver : Z) (key : list Z) (dstkey : option (list Z)) (v : list Z) (w : list_where) : option (server * bool) :=
  match dstkey with
  | None =>
      let s := addReply (propagate s [pop_event w; key]) receiver (BPair key v) in
      Some (with_ks s (notify_event (ks s) (pop_event w) key), true)
  | Some dst =>
      match db (ks s) !! dst with
      | Some (VOther _) => Some (addReply s receiver (BReply ReplyWrongType), false)
      | dstobj =>
          '(st, r) ← rpoplpushHandlePush be junk hjunk list_max_ziplist_size list_compress_depth (ks s) dst (match dstobj with Some (VList o) => Some o | _ => None end) v;
          let s := propagate (addReply (signal_added (with_ks s st)) receiver (BReply r)) [text "rpoplpush"; key; dst] in
          Some (with_ks s (notify_event (ks s) (text "rpop") key), true)
      end
  end.
(** The list object at a key. *)
Definition list_at (s : server) (key : list Z) : option listobj := match db (ks s) !! key with Some (VList o) => Some o | _ => None end.
(** [while(numclients--)] *)
Fixpoint serve_loop (numclients : nat) (s : server) (key : list Z) : option server :=
  match numclients with
  | O => Some s
  | S numclients =>
      waiting ← blocking_keys s !! key;
      receiver ← head waiting;
      c ← clients s !! receiver;
      if decide (c_btype c = BLOCKED_LIST) then
        let dstkey := bpop_target c in
        let w := if c_blpop c then LIST_HEAD else LIST_TAIL in
        o ← list_at s key;
        '(o, v) ← listTypePop be junk hjunk o w;
        let s := with_ks s (put_list (ks s) key o) in
        match v with
        | None => Some s
        | Some v =>
            s ← unblockClient s receiver;
            '(s, served) ← serveClientBlockedOnList s receiver key dstkey v w;
            s ← (if (served : bool) then Some s else o ← list_at s key; o ← listTypePush be junk hjunk o v w; Some (with_ks s (put_list (ks s) key o)));
            serve_loop numclients s key
        end
      else serve_loop numclients (with_blocking s (<[key := tail waiting ++ [receiver]]> (blocking_keys s))) key
  end.
Definition serveClientsBlockedOnListKey (s : server) (key : list Z) : option server :=
  s ← match blocking_keys s !! key with None => Some s | Some waiting => serve_loop (length waiting) s key end;
  o ← list_at s key;
  if listTypeLength o =? 0 then Some (with_ks s (notify_event (delete_key (ks s) key) (text "del") key)) else Some s.
Fixpoint handle_list (l : list (list Z)) (s : server) : option server :=
  match l with
  | [] => Some s
  | key :: l =>
      let s := with_ready s (ready_keys s) (db_ready_keys s ∖ {[ key ]}) in
      s ← match db (ks s) !! key with Some (VList _) => serveClientsBlockedOnListKey s key | _ => Some s end;
      handle_list l s
  end.
(** [while(listLength(server.ready_keys) != 0)], with at most [fuel] turns. *)
Fixpoint handle (fuel : nat) (s : server) : option server :=
  match ready_keys s with
  | [] => Some s
  | l => match fuel with O => None | S fuel => s ← handle_list l (with_ready s [] (db_ready_keys s)); handle fuel s end
  end.
(** Turns that make keys ready unblock a client. *)
Definition handleClientsBlockedOnKeys (s : server) : option server := handle (S (Z.to_nat (blocked_clients s))) s.

(** ** Commands *)
(** The first key that is a list, or of another type. *)
Fixpoint first_list (st : state) (keys : list (list Z)) : option (list Z + list Z * listobj) :=
  match keys with
  | [] => None
  | k :: keys => match db st !! k with
                 | None => first_list st keys
                 | Some (VOther _) => Some (inl k)
                 | Some (VList o) => if listTypeLength o =? 0 then first_list st keys else Some (inr (k, o))
                 end
  end.
Definition blockingPopGenericCommand (s : server) (id : Z) (keys : list (list Z)) (w : list_where) : option server :=
  match first_list (ks s) keys with
  | Some (inl _) => Some (addReply s id (BReply ReplyWrongType))
  | Some (inr (k, o)) =>
      '(o, v) ← listTypePop be junk hjunk o w;
      v ← v;
      let st := notify_event (put_list (ks s) k o) (pop_event w) k in
      let st := if listTypeLength o =? 0 then notify_event (delete_key st k) (text "del") k else st in
      Some (propagate (with_ks (addReply s id (BPair k v)) (add_dirty (touch_key st k) 1)) [pop_event w; k])
  | None =>
      c ← clients s !! id;
      if c_multi c then Some (addReply s id BNullArray) else blockForKeys s id BLOCKED_LIST keys None
  end.
(** rpoplpushCommand rewrites the command unless the target has another type. *)
Definition brpoplpushCommand (s : server) (id : Z) (src dst : list Z) : option server :=
  match db (ks s) !! src with
  | None =>
      c ← clients s !! id;
      if c_multi c then Some (addReply s id (BReply (ReplyBulk None))) else blockForKeys s id BLOCKED_LIST [src] (Some dst)
  | Some (VOther _) => Some (addReply s id (BReply ReplyWrongType))
  | Some (VList o) =>
      if listTypeLength o >? 0 then
        '(st, r) ← rpoplpushCommand be junk hjunk list_max_ziplist_size list_compress_depth (ks s) src dst;
        let s' := addReply (signal_added (with_ks s st)) id (BReply r) in
        Some (match db (ks s) !! dst with Some (VOther _) => s' | _ => propagate s' [text "rpoplpush"; src; dst] end)
      else None
  end.

(** What happens: a command of a client, or the timeout of one.  A blocked
    client does not execute commands; after a command the ready keys are
    handled.  [EInput] is the processing of the clients that were unblocked. *)
Inductive event := ECmd (id : Z) (c : cmd) | EPop (id : Z) (keys : list (list Z)) (w : list_where) | EBrpoplpush (id : Z) (src dst : list Z) | ETimeout (id : Z) | EInput.
Definition command (s : server) (id : Z) (blpop : bool) (f : server -> option server) : option server :=
  match clients s !! id with
  | None => Some s
  | Some c => if c_blocked c then Some s else s ← f (with_client s id (set_lastcmd c blpop)); handleClientsBlockedOnKeys s
  end.
Definition step (s : server) (e : event) : option server :=
  match e with
  | ECmd id c => command s id false (fun s => '(st, r) ← exec be junk hjunk list_max_ziplist_size list_compress_depth (ks s) c; Some (addReply (signal_added (with_ks s st)) id (BReply r)))
  | EPop id keys w => command s id (match w with LIST_HEAD => true | LIST_TAIL => false end) (fun s => blockingPopGenericCommand s id keys w)
  | EBrpoplpush id src dst => command s id false (fun s => brpoplpushCommand s id src dst)
  | ETimeout id => match clients s !! id with Some c => if c_blocked c then s ← replyToBlockedClientTimedOut s id; unblockClient s id else Some s | None => Some s end
  | EInput => processUnblockedClients (length (unblocked_clients s)) s
  end.
Fixpoint steps (s : server) (es : list event) : option server := match es with [] => Some s | e :: es => s ← step s e; steps s es end.
End Blocked.

(** ** The clients that wait *)
(** The waiting clients in the order in which they were blocked. *)
Record waiter := mk_waiter { w_id : Z; w_keys : list (list Z); w_target : option (list Z); w_where : list_where }.
Definition ids (W : list waiter) : list Z := map w_id W.
Definition queue (k : list Z) (W : list waiter) : list Z := ids (filter (fun w => k ∈ w_keys w) W).
Definition some_list {A} (l : list A) : option (list A) := match l with [] => None | _ => Some l end.
Record waiting_as (c : client) (w : waiter) : Prop := {
  wa_type : c_btype c = BLOCKED_LIST;
  wa_blocked : c_blocked c = true;
  wa_keys : bpop_keys c = w_keys w;
  wa_target : bpop_target c = w_target w;
  wa_where : w_where w = if c_blpop c then LIST_HEAD else LIST_TAIL
}.
Record idle (c : client) : Prop := { id_type : c_btype c = BLOCKED_NONE; id_blocked : c_blocked c = false; id_keys : bpop_keys c = []; id_target : bpop_target c = None }.
(** The registries agree with the waiting clients. *)
Record registered (s : server) (W : list waiter) : Prop := {
  rg_in w : w ∈ W -> exists c, clients s !! w_id w = Some c /\ waiting_as c w;
  rg_out id c : clients s !! id = Some c -> id ∉ ids W -> idle c;
  rg_ids : NoDup (ids W);
  rg_keys w : w ∈ W -> w_keys w <> [] /\ NoDup (w_keys w);
  rg_queues k : blocking_keys s !! k = some_list (queue k W);
  rg_count : blocked_clients s = zlen W;
  rg_unblocked id : id ∈ unblocked_clients s -> is_Some (clients s !! id)
}.
Definition without (id : Z) (W : list waiter) : list waiter := filter (fun w => w_id w <> id) W.
Lemma queue_in k W w : w ∈ W -> k ∈ w_keys w -> w_id w ∈ queue k W.
Proof. intros Hw Hk. unfold queue, ids. apply (list_elem_of_fmap_2 w_id). by apply list_elem_of_filter. Qed.
Lemma queue_elem k W id : id ∈ queue k W -> exists w, w ∈ W /\ w_id w = id /\ k ∈ w_keys w.
Proof. unfold queue, ids. intros (w & -> & Hw)%list_elem_of_fmap. apply list_elem_of_filter in Hw as [Hk Hw]. by exists w. Qed.
Lemma queue_nodup k W : NoDup (ids W) -> NoDup (queue k W).
Proof. induction W as [|w W IH]; intros Hn; [constructor|]. apply NoDup_cons in Hn as [Hw Hn]. unfold queue in *. rewrite filter_cons. destruct (decide _); [|by apply IH]. apply NoDup_cons. split; [|by apply IH]. intros Hi. apply Hw. apply (queue_elem k) in Hi as (x & Hx & E & _). rewrite <- E. by apply (list_elem_of_fmap_2 w_id). Qed.
Lemma ids_filter (P : Z -> Prop) `{!forall x, Decision (P x)} W : ids (filter (fun w => P (w_id w)) W) = filter P (ids W).
Proof. induction W as [|w W IH]; [done|]. unfold ids in *. rewrite filter_cons. cbn [map]. rewrite filter_cons. destruct (decide (P (w_id w))); cbn [map]; by rewrite IH. Qed.
Lemma queue_without k id W : queue k (without id W) = filter (.≠ id) (queue k W).
Proof. unfold queue, without. rewrite list_filter_filter. rewrite <- (ids_filter (.≠ id)), list_filter_filter. f_equal. apply list_filter_iff. tauto. Qed.
Lemma queue_app k W W' : queue k (W ++ W') = queue k W ++ queue k W'.
Proof. unfold queue, ids. by rewrite filter_app, map_app. Qed.
Lemma filter_every {A} (P : A -> Prop) `{!forall x, Decision (P x)} (l : list A) : (forall x, x ∈ l -> P x) -> filter P l = l.
Proof. induction l as [|x l IH]; intros Hl; [done|]. rewrite filter_cons, decide_True by (apply Hl; by left). f_equal. apply IH. intros y Hy. apply Hl. by right. Qed.
Lemma filter_not_in (id : Z) (l : list Z) : id ∉ l -> filter (.≠ id) l = l.
Proof. intros Hi. apply filter_every. intros x Hx ->. done. Qed.
Lemma del_client_filter id (l : list Z) : NoDup l -> id ∈ l -> del_client id l = Some (filter (.≠ id) l).
Proof.
  induction l as [|x l IH]; intros Hn Hi; [by apply not_elem_of_nil in Hi|]. apply NoDup_cons in Hn as [Hx Hn]. cbn [del_client]. rewrite filter_cons. destruct (decide (x = id)) as [->|Hne].
  - rewrite decide_False by (by intros []). by rewrite filter_not_in.
  - rewrite decide_True by done. apply elem_of_cons in Hi as [->|Hi]; [done|]. by rewrite IH.
Qed.
Lemma unblock_keys_spec id (Q : list Z -> list Z) keys : forall bk, NoDup keys -> (forall k, bk !! k = some_list (Q k)) -> (forall k, NoDup (Q k)) -> (forall k, k ∈ keys -> id ∈ Q k) ->
  exists bk', unblock_keys keys bk id = Some bk' /\ forall k, bk' !! k = some_list (if decide (k ∈ keys) then filter (.≠ id) (Q k) else Q k).
Proof.
  revert Q. induction keys as [|k0 keys IH]; intros Q bk Hnd Hbk HQ Hin; [exists bk; split; [done|]; intros k; by rewrite decide_False by apply not_elem_of_nil|]. apply NoDup_cons in Hnd as [Hk0 Hnd].
  cbn [unblock_keys]. rewrite Hbk. pose proof (Hin k0 ltac:(left)) as Hi. assert (E : some_list (Q k0) = Some (Q k0)) by (destruct (Q k0); [by apply not_elem_of_nil in Hi|done]). rewrite E. cbn [mbind option_bind]. rewrite (del_client_filter id (Q k0)) by done. cbn [mbind option_bind].
  destruct (IH (fun k => if decide (k = k0) then filter (.≠ id) (Q k0) else Q k) (match filter (.≠ id) (Q k0) with [] => delete k0 bk | _ => <[k0 := filter (.≠ id) (Q k0)]> bk end) Hnd) as (bk' & -> & Hbk').
  - intros k. destruct (decide (k = k0)) as [->|Hne]; destruct (filter (.≠ id) (Q k0)); rewrite ?lookup_delete_eq, ?lookup_insert_eq, ?lookup_delete_ne, ?lookup_insert_ne by done; done.
  - intros k. destruct (decide (k = k0)); [by apply NoDup_filter|done].
  - intros k Hk. destruct (decide (k = k0)) as [->|]; [done|]. apply Hin. by right.
  - exists bk'. split; [done|]. intros k. rewrite Hbk'. destruct (decide (k = k0)) as [->|Hne].
    + rewrite decide_False, decide_True by (done || by left). done.
    + destruct (decide (k ∈ keys)); [rewrite decide_True by (by right)|rewrite decide_False by (by intros [?|?]%elem_of_cons)]; done.
Qed.
Lemma waiter_of W id : NoDup (ids W) -> id ∈ ids W -> exists w, w ∈ W /\ w_id w = id /\ forall w', w' ∈ W -> w_id w' = id -> w' = w.
Proof.
  intros Hn Hi. unfold ids in Hi. apply list_elem_of_fmap in Hi as (w & -> & Hw). exists w. split; [done|]. split; [done|]. intros w' Hw' E. apply list_elem_of_lookup in Hw as [i Hi]. apply list_elem_of_lookup in Hw' as [j Hj]. assert (i = j) as ->; [|congruence]. eapply (NoDup_lookup (ids W)); [done| |]; unfold ids; rewrite list_lookup_fmap, ?Hi, ?Hj; cbn; by rewrite ?E.
Qed.
Lemma without_length W w : NoDup (ids W) -> w ∈ W -> length W = S (length (without (w_id w) W)).
Proof.
  intros Hn Hw. induction W as [|x W IH]; [by apply not_elem_of_nil in Hw|]. apply NoDup_cons in Hn as [Hx Hn]. unfold without in *. rewrite filter_cons. apply elem_of_cons in Hw as [->|Hw].
  - rewrite decide_False by (by intros []). rewrite filter_every; [done|]. intros y Hy E. apply Hx. rewrite <- E. by apply (list_elem_of_fmap_2 w_id).
  - rewrite decide_True by (intros E; apply Hx; rewrite E; by apply (list_elem_of_fmap_2 w_id)). cbn [length]. by rewrite <- IH.
Qed.
Lemma registered_same s s' W : registered s W -> clients s' = clients s -> blocking_keys s' = blocking_keys s -> blocked_clients s' = blocked_clients s -> unblocked_clients s' = unblocked_clients s -> registered s' W.
Proof. intros [R1 R2 R3 R4 R5 R6 R7] E1 E2 E3 E4. split; rewrite ?E1, ?E2, ?E3, ?E4; done. Qed.
(** A client that is not waiting changes, but stays idle. *)
Lemma registered_idle s W id c : registered s W -> id ∉ ids W -> idle c -> registered (with_client s id c) W.
Proof.
  intros [R1 R2 R3 R4 R5 R6 R7] Hid Hc. split; cbn [clients blocking_keys blocked_clients unblocked_clients with_client]; try done.
  - intros w Hw. rewrite lookup_insert_ne; [by apply R1|]. intros ->. apply Hid. by apply (list_elem_of_fmap_2 w_id).
  - intros i x Hx Hi. destruct (decide (i = id)) as [->|Hne]; [rewrite lookup_insert_eq in Hx; by injection Hx as <-|rewrite lookup_insert_ne in Hx by done; by apply (R2 i)].
  - intros i Hi. destruct (decide (i = id)) as [->|Hne]; [rewrite lookup_insert_eq; eauto|rewrite lookup_insert_ne by done; by apply R7].
Qed.
Lemma ids_left W id : ids (without id W) = filter (.≠ id) (ids W).
Proof. by rewrite <- (ids_filter (.≠ id)). Qed.
Lemma ids_without W id i : i ∈ ids (without id W) <-> i ∈ ids W /\ i <> id.
Proof. rewrite ids_left, list_elem_of_filter. tauto. Qed.
(** A waiting client leaves: what it waited for is forgotten. *)
Lemma registered_leave s W w c bk : registered s W -> w ∈ W -> idle c -> (forall k, bk !! k = some_list (queue k (without (w_id w) W))) ->
  registered (add_blocked (with_client (with_blocking s bk) (w_id w) c) (-1)) (without (w_id w) W).
Proof.
  intros [R1 R2 R3 R4 R5 R6 R7] Hw Hc Hbk. split; cbn [clients blocking_keys blocked_clients unblocked_clients with_client with_blocking add_blocked].
  - intros x [Hne Hx]%list_elem_of_filter. rewrite lookup_insert_ne by done. by apply R1.
  - intros i x Hx Hi. destruct (decide (i = w_id w)) as [->|Hne]; [rewrite lookup_insert_eq in Hx; by injection Hx as <-|]. rewrite lookup_insert_ne in Hx by done. apply (R2 i x Hx). intros Hin. apply Hi. by apply ids_without.
  - rewrite ids_left. by apply NoDup_filter.
  - intros x [_ Hx]%list_elem_of_filter. by apply R4.
  - done.
  - rewrite R6. unfold zlen. rewrite (without_length W w R3 Hw). lia.
  - intros i Hi. destruct (decide (i = w_id w)) as [->|Hne]; [rewrite lookup_insert_eq; eauto|rewrite lookup_insert_ne by done; by apply R7].
Qed.
Lemma unblock_ok s W w : registered s W -> w ∈ W -> exists s', unblockClient s (w_id w) = Some s' /\ registered s' (without (w_id w) W) /\ ks s' = ks s /\ ready_keys s' = ready_keys s /\ db_ready_keys s' = db_ready_keys s /\ sent s' = sent s.
Proof.
  intros R Hw. destruct (rg_in _ _ R w Hw) as (c & Hc & Hwa). pose proof (rg_keys _ _ R w Hw) as [Hk0 Hknd]. unfold unblockClient. rewrite Hc. cbn [mbind option_bind]. rewrite (wa_type _ _ Hwa). unfold unblockClientWaitingData. rewrite Hc. cbn [mbind option_bind]. rewrite (wa_keys _ _ Hwa), decide_False by done.
  destruct (unblock_keys_spec (w_id w) (fun k => queue k W) (w_keys w) (blocking_keys s) Hknd (rg_queues _ _ R) (fun k => queue_nodup k W (rg_ids _ _ R)) (fun k Hk => queue_in k W w Hw Hk)) as (bk & -> & Hbk). cbn [mbind option_bind clients with_client with_blocking add_blocked]. rewrite lookup_insert_eq. cbn [mbind option_bind].
  assert (Hbk' : forall k, bk !! k = some_list (queue k (without (w_id w) W))).
  { intros k. rewrite Hbk, queue_without. destruct (decide (k ∈ w_keys w)) as [|Hnk]; [done|]. rewrite filter_not_in; [done|]. intros Hi. apply queue_elem in Hi as (w' & Hw' & E & Hk). destruct (waiter_of W (w_id w) (rg_ids _ _ R) ltac:(by apply (list_elem_of_fmap_2 w_id))) as (x & _ & _ & Hu). assert (w' = w) as -> by (rewrite (Hu w' Hw' E); symmetry; by apply Hu). done. }
  set (c2 := set_blocked (set_bpop c [] None) BLOCKED_NONE false). pose proof (registered_leave s W w c2 bk R Hw ltac:(by split) Hbk') as R2. unfold queueClientForReprocessing. cbn [clients with_client]. rewrite lookup_insert_eq. cbn [mbind option_bind]. destruct (c_unblocked _); eexists; (split; [done|]); (split; [|done]).
  - eapply registered_same; [exact R2|cbn; by rewrite insert_insert_eq|done..].
  - destruct R2 as [S1 S2 S3 S4 S5 S6 S7]. cbn [clients blocking_keys blocked_clients unblocked_clients with_client with_blocking add_blocked with_unblocked] in *. split; cbn [clients blocking_keys blocked_clients unblocked_clients with_client with_blocking add_blocked with_unblocked]; rewrite ?insert_insert_eq; try done.
    + intros x Hx. destruct (S1 x Hx) as (y & Hy & Hwy). assert (Hne : w_id x <> w_id w) by (by apply list_elem_of_filter in Hx as [? _]). rewrite lookup_insert_ne in * by done. by exists y.
    + intros i x Hx Hi. destruct (decide (i = w_id w)) as [->|Hne]; [rewrite lookup_insert_eq in Hx; injection Hx as <-; by split|]. rewrite lookup_insert_ne in Hx by done. apply (S2 i x); [by rewrite lookup_insert_ne|done].
    + intros i Hi. destruct (decide (i = w_id w)) as [->|Hne]; [rewrite lookup_insert_eq; eauto|]. rewrite lookup_insert_ne by done. apply elem_of_app in Hi as [Hi|Hi%list_elem_of_singleton]; [|done]. specialize (S7 i Hi). by rewrite lookup_insert_ne in S7.
Qed.
Lemma block_keys_spec id keys : forall bpop bk, NoDup bpop -> exists bpop' bk', block_keys keys bpop bk id = (bpop', bk') /\ NoDup bpop' /\ (forall k, k ∈ bpop' <-> k ∈ bpop \/ k ∈ keys) /\
  forall k, bk' !! k = if decide (k ∈ keys /\ k ∉ bpop) then Some (default [] (bk !! k) ++ [id]) else bk !! k.
Proof.
  induction keys as [|k0 keys IH]; intros bpop bk Hn; cbn [block_keys].
  - exists bpop, bk. split; [done|]. split; [done|]. split; [set_solver|]. intros k. rewrite decide_False by set_solver. done.
  - destruct (decide (k0 ∈ bpop)) as [Hk|Hk].
    + destruct (IH bpop bk Hn) as (b' & k' & -> & Hn' & Hin & Hl). exists b', k'. split; [done|]. split; [done|]. split; [intros k; rewrite Hin; set_solver|]. intros k. rewrite Hl. destruct (decide (k ∈ keys /\ k ∉ bpop)); [rewrite decide_True by set_solver|rewrite decide_False by set_solver]; done.
    + destruct (IH (bpop ++ [k0]) (<[k0 := default [] (bk !! k0) ++ [id]]> bk)) as (b' & k' & -> & Hn' & Hin & Hl); [apply NoDup_app; split; [done|]; split; [set_solver|apply NoDup_singleton]|]. exists b', k'. split; [done|]. split; [done|]. split; [intros k; rewrite Hin; set_solver|].
      intros k. rewrite Hl. destruct (decide (k = k0)) as [->|Hne]; [rewrite decide_False, decide_True by set_solver; by rewrite lookup_insert_eq|]. rewrite lookup_insert_ne by done. destruct (decide (k ∈ keys /\ k ∉ bpop ++ [k0])); [rewrite decide_True by set_solver|rewrite decide_False by set_solver]; done.
Qed.
Lemma queue_one k w : queue k [w] = if decide (k ∈ w_keys w) then [w_id w] else [].
Proof. unfold queue. rewrite filter_cons. by destruct (decide _). Qed.
Lemma block_ok s W id c keys target : registered s W -> clients s !! id = Some c -> id ∉ ids W -> keys <> [] ->
  exists s' w, blockForKeys s id BLOCKED_LIST keys target = Some s' /\ registered s' (W ++ [w]) /\ w_id w = id /\ (forall k, k ∈ w_keys w <-> k ∈ keys) /\ w_target w = target /\ w_where w = (if c_blpop c then LIST_HEAD else LIST_TAIL) /\
    ks s' = ks s /\ ready_keys s' = ready_keys s /\ db_ready_keys s' = db_ready_keys s /\ sent s' = sent s.
Proof.
  intros R Hc Hid Hk. pose proof (rg_out _ _ R id c Hc Hid) as [I1 I2 I3 I4]. unfold blockForKeys. rewrite Hc. cbn [mbind option_bind]. rewrite I3. destruct (block_keys_spec id keys [] (blocking_keys s) ltac:(constructor)) as (bpop & bk & -> & Hn & Hin & Hl). unfold blockClient. cbn [clients with_client with_blocking]. rewrite lookup_insert_eq. cbn [mbind option_bind].
  set (w := mk_waiter id bpop target (if c_blpop c then LIST_HEAD else LIST_TAIL)). eexists _, w. split; [done|]. split; [|by repeat split; try set_solver].
  destruct R as [R1 R2 R3 R4 R5 R6 R7]. split; cbn [clients blocking_keys blocked_clients unblocked_clients with_client with_blocking add_blocked]; rewrite ?insert_insert_eq.
  - intros x [Hx|Hx%list_elem_of_singleton]%elem_of_app; [rewrite lookup_insert_ne; [by apply R1|]; intros ->; apply Hid; by apply (list_elem_of_fmap_2 w_id)|]. subst x. cbn [w_id w]. rewrite lookup_insert_eq. eexists. split; [done|]. by split.
  - intros i x Hx Hi. unfold ids in Hi. rewrite map_app in Hi. destruct (decide (i = id)) as [->|Hne]; [destruct Hi; apply elem_of_app; right; by left|]. rewrite lookup_insert_ne in Hx by done. apply (R2 i x Hx). set_solver.
  - unfold ids. rewrite map_app. apply NoDup_app. split; [done|]. split; [|apply NoDup_singleton]. intros i Hi Hs%list_elem_of_singleton. subst i. done.
  - intros x [Hx|Hx%list_elem_of_singleton]%elem_of_app; [by apply R4|]. subst x. cbn [w_keys w]. split; [|done]. intros ->. destruct keys as [|k keys]; [done|]. specialize (Hin k). set_solver.
  - intros k. rewrite Hl, R5, queue_app, queue_one. cbn [w_keys w_id w]. destruct (decide (k ∈ keys /\ k ∉ [])) as [[Hkk _]|Hnk]; [rewrite decide_True by (apply Hin; by right); by destruct (queue k W)|rewrite decide_False by (rewrite Hin; set_solver); by rewrite app_nil_r].
  - rewrite R6. unfold zlen. rewrite length_app. cbn [length]. lia.
  - intros i Hi. destruct (decide (i = id)) as [->|Hne]; [rewrite lookup_insert_eq; eauto|rewrite lookup_insert_ne by done; by apply R7].
Qed.

Section BlockedSpec.
  Context `{QAllocator} (be : bool) (junk : nat -> Z) (hjunk : Z -> Z) (list_max_ziplist_size list_compress_depth : Z).
#[local] Abbreviation list_ok := (list_ok list_compress_depth).
#[local] Abbreviation rel := (rel list_compress_depth).

(** ** The keyspace while clients are served *)
(** As [rel], but a list can be empty. *)
Definition loose (m : gmap (list Z) value) (sp : keyspace) : Prop := forall k,
  match m !! k, sp !! k with
  | None, None => True
  | Some (VList o), Some (inl L) => list_ok o L
  | Some (VOther t), Some (inr t') => t = t'
  | _, _ => False
  end.
Definition no_empty (cur : option (list Z)) (sp : keyspace) : Prop := forall k, Some k <> cur -> sp !! k <> Some (inl []).
Lemma rel_loose m sp : rel m sp <-> loose m sp /\ no_empty None sp.
Proof.
  split.
  - intros Hr. split; intros k; specialize (Hr k); [destruct (m !! k) as [[]|], (sp !! k) as [[]|]; by try destruct Hr|]. intros _ E. rewrite E in Hr. destruct (m !! k) as [[]|]; try done. by destruct Hr.
  - intros [Hl Hn] k. specialize (Hl k). specialize (Hn k ltac:(done)). destruct (m !! k) as [[]|], (sp !! k) as [[L|]|]; try done. split; [done|]. by intros ->.
Qed.
Lemma loose_list m sp k L : loose m sp -> sp !! k = Some (inl L) -> exists o, m !! k = Some (VList o) /\ list_ok o L.
Proof. intros Hl E. specialize (Hl k). rewrite E in Hl. destruct (m !! k) as [[o|]|]; try done. by exists o. Qed.
Lemma loose_set m sp k o L : loose m sp -> list_ok o L -> loose (<[k := VList o]> m) (<[k := inl L]> sp).
Proof. intros Hl Ho j. destruct (decide (j = k)) as [->|Hne]; [by rewrite !lookup_insert_eq|]. rewrite !lookup_insert_ne by done. apply Hl. Qed.
Lemma loose_same m sp k o L : loose m sp -> sp !! k = Some (inl L) -> list_ok o L -> loose (<[k := VList o]> m) sp.
Proof. intros Hl E Ho. rewrite <- (insert_id sp k (inl L) E). by apply loose_set. Qed.
Lemma total_put (sp : keyspace) k L : wrong_type sp k = false -> total (<[k := inl L]> sp) = total sp - weight (get sp k) + weight L.
Proof.
  intros Hw. destruct (decide (L = [])) as [->|HL]; [|pose proof (total_keep sp k L Hw) as Ht; unfold keep in Ht; by rewrite decide_False in Ht].
  pose proof (total_keep sp k [] Hw) as Ht. unfold keep in Ht. rewrite decide_True in Ht by done. rewrite <- Ht. rewrite <- insert_delete_eq. unfold total. rewrite map_fold_insert_L; [cbn; lia|intros; lia|by rewrite lookup_delete_eq].
Qed.
(** No client waits for a key that is a list, unless the key is ready or is
    the one that is being served. *)
Record calm (s : server) (sp : keyspace) (W : list waiter) (cur : option (list Z)) (pending : list (list Z)) : Prop := {
  cm_reg : registered s W;
  cm_db : loose (db (ks s)) sp;
  cm_empty : no_empty cur sp;
  cm_added : added (ks s) = [];
  cm_nodup : NoDup (pending ++ ready_keys s);
  cm_ready k : k ∈ db_ready_keys s <-> k ∈ pending ++ ready_keys s;
  cm_wake k L : Some k <> cur -> sp !! k = Some (inl L) -> queue k W <> [] -> k ∈ pending ++ ready_keys s
}.
Lemma signal_one s W key pend : registered s W -> NoDup (pend ++ ready_keys s) -> (forall k, k ∈ db_ready_keys s <-> k ∈ pend ++ ready_keys s) ->
  let s' := signalKeyAsReady s key in registered s' W /\ NoDup (pend ++ ready_keys s') /\ (forall k, k ∈ db_ready_keys s' <-> k ∈ pend ++ ready_keys s') /\
    (forall k, k ∈ pend ++ ready_keys s -> k ∈ pend ++ ready_keys s') /\ (queue key W <> [] -> key ∈ pend ++ ready_keys s') /\ ks s' = ks s /\ sent s' = sent s /\ (queue key W = [] -> s' = s).
Proof.
  intros R Hn Hr. cbv zeta. unfold signalKeyAsReady. rewrite (rg_queues _ _ R key). destruct (queue key W) as [|i q] eqn:Eq; cbn [some_list]; [do 2 (split; [done|]); split; [exact Hr|]; by split_and!|]. destruct (decide (key ∈ db_ready_keys s)) as [Hk|Hk].
  - do 2 (split; [done|]). split; [exact Hr|]. split; [done|]. split; [intros _; by apply Hr|done].
  - split; [by eapply registered_same|]. cbn [ready_keys db_ready_keys with_ready ks]. assert (Hnk : key ∉ pend ++ ready_keys s) by (by rewrite <- Hr). split; [rewrite app_assoc; apply NoDup_app; split; [done|]; split; [set_solver|apply NoDup_singleton]|]. split; [intros k; rewrite elem_of_union, elem_of_singleton, Hr; set_solver|]. split; [set_solver|]. split; [set_solver|]. done.
Qed.
Lemma signal_many keys : forall s W pend, registered s W -> NoDup (pend ++ ready_keys s) -> (forall k, k ∈ db_ready_keys s <-> k ∈ pend ++ ready_keys s) ->
  let s' := foldl signalKeyAsReady s keys in registered s' W /\ NoDup (pend ++ ready_keys s') /\ (forall k, k ∈ db_ready_keys s' <-> k ∈ pend ++ ready_keys s') /\
    (forall k, k ∈ pend ++ ready_keys s -> k ∈ pend ++ ready_keys s') /\ (forall k, k ∈ keys -> queue k W <> [] -> k ∈ pend ++ ready_keys s') /\ ks s' = ks s /\ sent s' = sent s.
Proof.
  induction keys as [|key keys IH]; intros s W pend R Hn Hr; cbv zeta; [do 2 (split; [done|]); split; [exact Hr|]; split; [done|]; split; [set_solver|done]|]. cbn [foldl]. destruct (signal_one s W key pend R Hn Hr) as (R1 & N1 & D1 & M1 & Q1 & K1 & S1 & _). destruct (IH _ W pend R1 N1 D1) as (R2 & N2 & D2 & M2 & Q2 & K2 & S2).
  split; [done|]. split; [done|]. split; [done|]. split; [by intros k Hk; apply M2, M1|]. split; [|by rewrite K2, S2]. intros k [->|Hk]%elem_of_cons Hq; [by apply M2, Q1|by apply Q2].
Qed.
(** The keyspace changes, by a command or while a client is served: the keys
    that become lists are among those that were added. *)
Lemma calm_added s sp sp' W cur cur' pend st : calm s sp W cur pend -> loose (db st) sp' -> no_empty cur' sp' ->
  (forall k L, Some k <> cur' -> sp' !! k = Some (inl L) -> k ∈ added st \/ (Some k <> cur /\ exists L0, sp !! k = Some (inl L0))) ->
  let s' := signal_added (with_ks s st) in calm s' sp' W cur' pend /\ db (ks s') = db st /\ sent s' = sent s /\ (added st = [] -> ready_keys s' = ready_keys s).
Proof.
  intros [R Hdb He Ha Hn Hr Hw] Hdb' He' Hadd. cbv zeta. unfold signal_added. change (ks (with_ks s st)) with st. set (s1 := with_ks _ _). assert (R1 : registered s1 W) by (by eapply registered_same).
  destruct (signal_many (rev (added st)) s1 W pend R1 Hn Hr) as (R2 & N2 & D2 & M2 & Q2 & K2 & S2). split; [|split; [by rewrite K2|split; [done|intros E; by rewrite E]]].
  split; rewrite ?K2; try done. intros k L Hc Hk Hq. destruct (Hadd k L Hc Hk) as [Hin|[Hc' [L0 HL0]]].
  - apply Q2; [|done]. apply list_elem_of_In, in_rev. rewrite rev_involutive. by apply list_elem_of_In.
  - apply M2. by apply (Hw k L0).
Qed.
Lemma handle_push st sp dst v : loose (db st) sp -> wrong_type sp dst = false -> bytes_ok v -> 40 + 2 * (weight (get sp dst) + zlen v + 18) < 2 ^ 32 ->
  exists st', rpoplpushHandlePush be junk hjunk list_max_ziplist_size list_compress_depth st dst (match db st !! dst with Some (VList o) => Some o | _ => None end) v = Some (st', ReplyBulk (Some v)) /\
    loose (db st') (<[dst := inl (v :: get sp dst)]> sp) /\ (added st' = added st \/ added st' = dst :: added st) /\ (sp !! dst = None -> dst ∈ added st').
Proof.
  intros Hl Hw Hv Hb. unfold rpoplpushHandlePush. assert (Hd : list_ok (default (new_list list_max_ziplist_size list_compress_depth) (match db st !! dst with Some (VList o) => Some o | _ => None end)) (get sp dst)).
  { specialize (Hl dst). unfold get, wrong_type in *. destruct (db st !! dst) as [[o|t]|], (sp !! dst) as [[L|t']|]; try done. apply new_ok. }
  set (dob := match db st !! dst with Some (VList o) => Some o | _ => None end) in *. destruct (push_ok be junk hjunk list_compress_depth _ _ v LIST_HEAD Hd Hv Hb) as (d & -> & Hd'). cbn [mbind option_bind]. eexists. split; [done|]. cbn [push1] in Hd'. split; [|split].
  - destruct dob; cbn [db notify_event put_list touch_key add_list]; rewrite ?insert_insert_eq; by apply loose_set.
  - destruct dob; [by left|by right].
  - intros E. unfold dob. specialize (Hl dst). rewrite E in Hl. destruct (db st !! dst) as [[]|]; try done. by left.
Qed.
Lemma queue_fewer j id W : queue j (without id W) <> [] -> queue j W <> [].
Proof. rewrite queue_without. intros Hq E. apply Hq. by rewrite E. Qed.
Lemma calm_popped s s' sp W W' k pend o L : calm s sp W (Some k) pend -> registered s' W' -> ks s' = put_list (ks s) k o -> ready_keys s' = ready_keys s -> db_ready_keys s' = db_ready_keys s -> list_ok o L -> (forall j, queue j W' <> [] -> queue j W <> []) ->
  calm s' (<[k := inl L]> sp) W' (Some k) pend.
Proof.
  intros [R Hdb He Ha Hn Hr Hw] R' Ek Er Ed Ho Hq. split; rewrite ?Ek, ?Er, ?Ed; try done.
  - cbn [db put_list]. by apply loose_set.
  - intros j Hj. rewrite lookup_insert_ne by congruence. by apply He.
  - intros j L0 Hj. rewrite lookup_insert_ne by congruence. intros E Hqj. apply (Hw j L0); [done|done|by apply Hq].
Qed.
Lemma popped_some w L : L <> [] -> exists v, (popped w L).2 = Some v /\ push1 w (popped w L).1 v = L /\ weight (popped w L).1 + zlen v + 18 = weight L.
Proof.
  intros HL. assert (E : exists v, (popped w L).2 = Some v /\ push1 w (popped w L).1 v = L).
  { destruct w; cbn [popped spec_pop fst snd push1]; [destruct L as [|x L]; [done|]; by exists x|]. destruct (lookup_lt_is_Some_2 L (length L - 1)%nat ltac:(destruct L; [done|cbn; lia])) as [v Hv]. exists v. split; [done|]. rewrite <- (take_drop (length L - 1) L) at 3. by rewrite (drop_S L v _ Hv), (drop_ge L) by lia. }
  destruct E as (v & E1 & E2). exists v. split; [done|]. split; [done|]. rewrite <- E2 at 2. by rewrite push1_weight.
Qed.
(** The first client of the queue is served. *)
Lemma serve_one s sp W k pend id q L : calm s sp W (Some k) pend -> sp !! k = Some (inl L) -> queue k W = id :: q -> L <> [] -> 40 + 2 * total sp < 2 ^ 32 ->
  exists s' sp' w v, (forall n, serve_loop be junk hjunk list_max_ziplist_size list_compress_depth (S n) s k = serve_loop be junk hjunk list_max_ziplist_size list_compress_depth n s' k) /\
    calm s' sp' (without id W) (Some k) pend /\ (exists L', sp' !! k = Some (inl L')) /\ total sp' <= total sp /\ w ∈ W /\ w_id w = id /\ (popped (w_where w) L).2 = Some v /\
    (w_target w = None -> sp' = <[k := inl (popped (w_where w) L).1]> sp /\ sent s' = sent s ++ [(id, BPair k v)] /\ ready_keys s' = ready_keys s).
Proof.
  intros Hcm Hk Hq HL Hb. pose proof Hcm as [R Hdb He Ha Hn Hr Hw]. destruct (queue_elem k W id ltac:(rewrite Hq; left)) as (w & Hw' & Hid & Hkw). destruct (rg_in _ _ R w Hw') as (c & Hc & Hwa). rewrite Hid in Hc.
  destruct (loose_list _ _ _ _ Hdb Hk) as (o & Ho & Hlo). destruct (pop_ok be junk hjunk list_compress_depth o L (w_where w) Hlo) as (o1 & Epop & Ho1). destruct (popped_some (w_where w) L HL) as (v & Ev & Epush & Ewt). set (L1 := (popped (w_where w) L).1) in *.
  set (s1 := with_ks s (put_list (ks s) k o1)). assert (R1 : registered s1 W) by (by eapply registered_same). destruct (unblock_ok s1 W w R1 Hw') as (s2 & Eu & R2 & K2 & Q2 & D2 & S2). rewrite Hid in *.
  pose proof (calm_popped s s2 sp W (without id W) k pend o1 L1 Hcm R2 K2 Q2 D2 Ho1 (fun j => queue_fewer j id W)) as Hcm2. set (sp1 := <[k := inl L1]> sp) in *.
  assert (Hv : bytes_ok v) by (pose proof (lo_bytes _ _ _ Hlo) as Hall; rewrite <- Epush in Hall; destruct (w_where w); cbn [push1] in Hall; [by apply Forall_cons in Hall as [? _]|apply Forall_app in Hall as [_ Hall]; by apply Forall_cons in Hall as [? _]]).
  assert (Hwk : wrong_type sp k = false) by (unfold wrong_type; by rewrite Hk). assert (Egk : get sp k = L) by (unfold get; by rewrite Hk). assert (Ht1 : total sp1 = total sp - (zlen v + 18)) by (unfold sp1; rewrite total_put, Egk by done; lia).
  assert (Hstep : forall n, serve_loop be junk hjunk list_max_ziplist_size list_compress_depth (S n) s k =
    ('(s, served) ← serveClientBlockedOnList be junk hjunk list_max_ziplist_size list_compress_depth s2 id k (w_target w) v (w_where w);
     s ← (if (served : bool) then Some s else o ← list_at s k; o ← listTypePush be junk hjunk o v (w_where w); Some (with_ks s (put_list (ks s) k o)));
     serve_loop be junk hjunk list_max_ziplist_size list_compress_depth n s k)).
  { intros n. cbn [serve_loop]. rewrite (rg_queues _ _ R k), Hq. cbn [some_list head mbind option_bind]. rewrite Hc. cbn [mbind option_bind]. rewrite decide_True by apply Hwa. assert (Hat : list_at s k = Some o) by (unfold list_at; by rewrite Ho). rewrite Hat. cbn [mbind option_bind]. rewrite <- (wa_where _ _ Hwa), Epop, Ev. cbn [mbind option_bind]. fold s1. rewrite Eu. cbn [mbind option_bind]. by rewrite (wa_target _ _ Hwa). }
  destruct (w_target w) as [dst|] eqn:Et; cbn [serveClientBlockedOnList] in Hstep.
  2:{ set (s3 := with_ks _ _) in Hstep. exists s3, sp1, w, v. split; [intros n; by rewrite Hstep|]. split; [|split; [exists L1; apply lookup_insert_eq|split; [pose proof (zlen_nonneg v); lia|]]].
      - destruct Hcm2 as [C1 C2 C3 C4 C5 C6 C7]. split; try done. by eapply registered_same.
      - split; [done|]. split; [done|]. split; [done|]. intros _. split; [done|]. unfold s3. cbn [sent with_ks addReply propagate]. rewrite S2. by split. }
  destruct (db (ks s2) !! dst) as [[od|t]|] eqn:Ed.
  2:{ destruct (push_ok be junk hjunk list_compress_depth o1 L1 v (w_where w) Ho1 Hv) as (o2 & Ep2 & Ho2); [pose proof (get_weight sp k) as Hg; rewrite Egk in Hg; lia|]. rewrite Epush in Ho2.
      assert (Hat : list_at (addReply s2 id (BReply ReplyWrongType)) k = Some o1) by (unfold list_at; cbn [ks addReply]; rewrite K2; unfold s1; cbn [ks with_ks db put_list]; by rewrite lookup_insert_eq). cbn [mbind option_bind] in Hstep. rewrite Hat in Hstep. cbn [mbind option_bind] in Hstep. rewrite Ep2 in Hstep. cbn [mbind option_bind] in Hstep. set (s3 := with_ks _ _) in Hstep.
      assert (Hcm3 : calm s3 (<[k := inl L]> sp1) (without id W) (Some k) pend) by (eapply calm_popped; [exact Hcm2|by eapply registered_same|done|done|done|done|done]). unfold sp1 in Hcm3. rewrite insert_insert_eq, (insert_id sp) in Hcm3 by done.
      exists s3, sp, w, v. split; [done|]. split; [done|]. split; [by exists L|]. split; [lia|]. split; [done|]. split; [done|]. split; [done|]. by rewrite Et. }
  all: assert (Hwd : wrong_type sp1 dst = false) by (pose proof (cm_db _ _ _ _ _ Hcm2 dst) as Hl; rewrite Ed in Hl; unfold wrong_type; destruct (sp1 !! dst) as [[]|]; done).
  all: destruct (handle_push (ks s2) sp1 dst v (cm_db _ _ _ _ _ Hcm2) Hwd Hv ltac:(pose proof (get_weight sp1 dst); lia)) as (st & Eh & Hl & Hadd & Hnew); rewrite Ed in Eh; rewrite Eh in Hstep; cbn [mbind option_bind] in Hstep; set (s3 := with_ks (propagate _ _) _) in Hstep.
  all: set (sp2 := <[dst := inl (v :: get sp1 dst)]> sp1) in *; exists s3, sp2, w, v; split; [done|].
  all: assert (Hcm3 : calm (signal_added (with_ks s2 st)) sp2 (without id W) (Some k) pend) by (apply (calm_added s2 sp1 sp2 _ (Some k)); [done|done|
    intros j Hj; unfold sp2; destruct (decide (j = dst)) as [->|Hne]; [by rewrite lookup_insert_eq|rewrite lookup_insert_ne by done; by apply (cm_empty _ _ _ _ _ Hcm2)]|
    intros j L0 Hj; unfold sp2; destruct (decide (j = dst)) as [->|Hne]; [intros _; unfold wrong_type in Hwd; destruct (sp1 !! dst) as [[L2|]|] eqn:Ed1; [right; split; [done|by exists L2]|done|left; by apply Hnew]|rewrite lookup_insert_ne by done; intros E; right; split; [done|by exists L0]]]).
  all: (split; [destruct Hcm3 as [C1 C2 C3 C4 C5 C6 C7]; split; try done; by eapply registered_same|]); (split; [unfold sp2, sp1; destruct (decide (k = dst)) as [<-|Hne]; [eexists; apply lookup_insert_eq|exists L1; rewrite lookup_insert_ne by done; apply lookup_insert_eq]|]); (split; [unfold sp2; rewrite total_put, weight_cons by done; lia|]); (split; [done|]); (split; [done|]); (split; [done|]); by rewrite Et.
Qed.
#[local] Abbreviation Loop := (serve_loop be junk hjunk list_max_ziplist_size list_compress_depth).
Lemma queue_next k W id q : NoDup (ids W) -> queue k W = id :: q -> queue k (without id W) = q.
Proof.
  intros Hn Hq. rewrite queue_without, Hq, filter_cons, decide_False by (by intros []). pose proof (queue_nodup k W Hn) as Hqn. rewrite Hq in Hqn. apply NoDup_cons in Hqn as [Hi _]. by apply filter_not_in.
Qed.
Lemma without_shorter W id : (length (without id W) <= length W)%nat.
Proof. unfold without. induction W as [|w W IH]; [done|]. rewrite filter_cons. destruct (decide _); cbn [length]; lia. Qed.
(** Ready keys appear only when a client has left. *)
Definition progress (s s' : server) (W W' : list waiter) : Prop := (length W' <= length W)%nat /\ (length W' = length W -> ready_keys s' = ready_keys s).
Lemma progress_trans s1 s2 s3 W1 W2 W3 : progress s1 s2 W1 W2 -> progress s2 s3 W2 W3 -> progress s1 s3 W1 W3.
Proof. intros [L1 E1] [L2 E2]. split; [lia|]. intros E. rewrite E2 by lia. apply E1. lia. Qed.
Lemma serve_loop_ok n : forall s sp W k pend L, calm s sp W (Some k) pend -> sp !! k = Some (inl L) -> length (queue k W) = n -> 40 + 2 * total sp < 2 ^ 32 ->
  exists s' sp' W' L', Loop n s k = Some s' /\ calm s' sp' W' (Some k) pend /\ sp' !! k = Some (inl L') /\ (L' = [] \/ queue k W' = []) /\ total sp' <= total sp /\ progress s s' W W'.
Proof.
  induction n as [|n IH]; intros s sp W k pend L Hcm Hk Hq Hb.
  - exists s, sp, W, L. split; [done|]. split; [done|]. split; [done|]. split; [right; by apply nil_length_inv|]. split; [lia|by split].
  - destruct (queue k W) as [|id q] eqn:Eq; [done|]. destruct (decide (L = [])) as [->|HL].
    + pose proof Hcm as [R Hdb _ _ _ _ _]. destruct (queue_elem k W id ltac:(rewrite Eq; left)) as (w & Hw & <- & _). destruct (rg_in _ _ R w Hw) as (c & Hc & Hwa). destruct (loose_list _ _ _ _ Hdb Hk) as (o & Ho & Hlo). destruct (pop_ok be junk hjunk list_compress_depth o [] (w_where w) Hlo) as (o1 & Epop & Ho1).
      assert (Enil : popped (w_where w) [] = ([], None)) by (by destruct (w_where w)). rewrite Enil in *. exists (with_ks s (put_list (ks s) k o1)), sp, W, []. split.
      * cbn [serve_loop]. rewrite (rg_queues _ _ R k), Eq. cbn [some_list head mbind option_bind]. rewrite Hc. cbn [mbind option_bind]. rewrite decide_True by apply Hwa. assert (Hat : list_at s k = Some o) by (unfold list_at; by rewrite Ho). rewrite Hat. cbn [mbind option_bind]. rewrite <- (wa_where _ _ Hwa), Epop. done.
      * split; [|split; [done|split; [by left|split; [lia|by split]]]]. rewrite <- (insert_id sp k (inl [])) by done. eapply calm_popped; [exact Hcm|by eapply registered_same|done|done|done|done|done].
    + destruct (serve_one s sp W k pend id q L Hcm Hk Eq HL Hb) as (s1 & sp1 & w & v & E1 & Hcm1 & [L1 Hk1] & Ht1 & Hw & Hid & _). destruct (IH s1 sp1 (without id W) k pend L1 Hcm1 Hk1) as (s2 & sp2 & W2 & L2 & E2 & Hcm2 & Hk2 & Hor & Ht2 & Hp2); [rewrite (queue_next k W id q (rg_ids _ _ (cm_reg _ _ _ _ _ Hcm)) Eq); cbn in Hq; lia|lia|].
      exists s2, sp2, W2, L2. split; [by rewrite E1|]. split; [done|]. split; [done|]. split; [done|]. split; [lia|]. destruct Hp2 as [Hlen _]. subst id. pose proof (without_length W w (rg_ids _ _ (cm_reg _ _ _ _ _ Hcm)) Hw). split; lia.
Qed.
(** The list is deleted when it is empty. *)
Lemma finish_key s sp W k pend L : calm s sp W (Some k) pend -> sp !! k = Some (inl L) -> L = [] \/ queue k W = [] ->
  exists s', (o ← list_at s k; if listTypeLength o =? 0 then Some (with_ks s (notify_event (delete_key (ks s) k) (text "del") k)) else Some s) = Some s' /\ calm s' (keep sp k L) W None pend /\ ready_keys s' = ready_keys s /\ sent s' = sent s.
Proof.
  intros Hcm Hk Hor. pose proof Hcm as [R Hdb He Ha Hn Hr Hw]. destruct (loose_list _ _ _ _ Hdb Hk) as (o & Ho & Hlo). unfold list_at, keep. rewrite Ho. cbn [mbind option_bind]. rewrite (len_zero _ _ _ Hlo). destruct (decide (L = [])) as [->|HL].
  - rewrite bool_decide_eq_true_2 by done. eexists. split; [done|]. split; [split; try done|done].
    + by eapply registered_same.
    + intros j. cbn [ks with_ks db notify_event delete_key]. destruct (decide (j = k)) as [->|Hj]; [by rewrite !lookup_delete_eq|]. rewrite !lookup_delete_ne by done. apply Hdb.
    + intros j _. destruct (decide (j = k)) as [->|Hj]; [by rewrite lookup_delete_eq|]. rewrite lookup_delete_ne by done. apply He. congruence.
    + intros j L0 _. destruct (decide (j = k)) as [->|Hj]; [by rewrite lookup_delete_eq|]. rewrite lookup_delete_ne by done. apply Hw. congruence.
  - rewrite bool_decide_eq_false_2 by done. destruct Hor as [?|Hq]; [done|]. exists s. split; [done|]. rewrite (insert_id sp) by done. split; [split; try done|done].
    + intros j _ E. destruct (decide (j = k)) as [->|Hj]; [congruence|]. by apply (He j); [congruence|].
    + intros j L0 _ E Hqj. destruct (decide (j = k)) as [->|Hj]; [done|]. apply (Hw j L0); [congruence|done|done].
Qed.
Lemma queue_turns s W k : registered s W -> forall A (x : A) (f : nat -> A), (queue k W = [] -> x = f 0%nat) -> match blocking_keys s !! k with None => x | Some waiting => f (length waiting) end = f (length (queue k W)).
Proof. intros R A x f Hx. rewrite (rg_queues _ _ R k). destruct (queue k W); cbn [some_list]; [by apply Hx|done]. Qed.
Lemma serve_key_ok s sp W k pend L : calm s sp W (Some k) pend -> sp !! k = Some (inl L) -> 40 + 2 * total sp < 2 ^ 32 ->
  exists s' sp' W', serveClientsBlockedOnListKey be junk hjunk list_max_ziplist_size list_compress_depth s k = Some s' /\ calm s' sp' W' None pend /\ total sp' <= total sp /\ progress s s' W W'.
Proof.
  intros Hcm Hk Hb. unfold serveClientsBlockedOnListKey. destruct (serve_loop_ok _ s sp W k pend L Hcm Hk eq_refl Hb) as (s1 & sp1 & W1 & L1 & E1 & Hcm1 & Hk1 & Hor & Ht1 & Hp1).
  rewrite (queue_turns s W k (cm_reg _ _ _ _ _ Hcm) _ (Some s) (fun n => Loop n s k)), E1 by done. cbn [mbind option_bind]. destruct (finish_key s1 sp1 W1 k pend L1 Hcm1 Hk1 Hor) as (s2 & E2 & Hcm2 & Hr2 & _). exists s2, (keep sp1 k L1), W1. split; [done|]. split; [done|]. split.
  - rewrite total_keep by (unfold wrong_type; by rewrite Hk1). unfold get. rewrite Hk1. lia.
  - destruct Hp1 as [Hle Heq]. split; [done|]. intros E. rewrite Hr2. by apply Heq.
Qed.
(** The next ready key. *)
Lemma calm_pick s sp W key l : calm s sp W None (key :: l) -> let s0 := with_ready s (ready_keys s) (db_ready_keys s ∖ {[key]}) in
  calm s0 sp W (Some key) l /\ ((forall L, sp !! key <> Some (inl L)) -> calm s0 sp W None l).
Proof.
  intros [R Hdb He Ha Hn Hr Hw]. cbv zeta. set (s0 := with_ready _ _ _). cbn [app] in Hn. apply NoDup_cons in Hn as [Hkey Hn]. assert (R0 : registered s0 W) by (by eapply registered_same).
  assert (Hr0 : forall k, k ∈ db_ready_keys s0 <-> k ∈ l ++ ready_keys s0) by (intros k; cbn [db_ready_keys with_ready s0]; rewrite elem_of_difference, elem_of_singleton, Hr; cbn [app]; rewrite elem_of_cons; split; [tauto|]; intros Hin; split; [by right|]; by intros ->).
  assert (Hw0 : forall j L0, j <> key -> sp !! j = Some (inl L0) -> queue j W <> [] -> j ∈ l ++ ready_keys s0) by (intros j L0 Hj E Hq; pose proof (Hw j L0 ltac:(done) E Hq) as Hin; cbn [app] in Hin; apply elem_of_cons in Hin as [->|Hin]; [done|exact Hin]).
  split; [|intros Hno]; (split; try done).
  - intros j _. by apply He.
  - intros j L0 Hj. apply Hw0. congruence.
  - intros j L0 _ E. apply (Hw0 j L0); [|done]. intros ->. by apply (Hno L0).
Qed.
Lemma handle_list_ok l : forall s sp W, calm s sp W None l -> 40 + 2 * total sp < 2 ^ 32 ->
  exists s' sp' W', handle_list be junk hjunk list_max_ziplist_size list_compress_depth l s = Some s' /\ calm s' sp' W' None [] /\ total sp' <= total sp /\ progress s s' W W'.
Proof.
  induction l as [|key l IH]; intros s sp W Hcm Hb; [exists s, sp, W; split; [done|]; split; [done|]; split; [lia|by split]|]. cbn [handle_list]. destruct (calm_pick s sp W key l Hcm) as [Hcm0 Hno]. set (s0 := with_ready s (ready_keys s) (db_ready_keys s ∖ {[key]})) in *. pose proof (cm_db _ _ _ _ _ Hcm0) as Hdb.
  destruct (sp !! key) as [[L|t]|] eqn:Ek.
  2,3: specialize (Hno ltac:(done)); specialize (Hdb key); rewrite Ek in Hdb; destruct (db (ks s0) !! key) as [[]|]; try done; cbn [mbind option_bind]; destruct (IH s0 sp W Hno Hb) as (s2 & sp2 & W2 & E2 & Hcm2 & Ht2 & Hp2); by exists s2, sp2, W2.
  destruct (loose_list _ _ _ _ Hdb Ek) as (o & Ho & _). destruct (serve_key_ok s0 sp W key l L Hcm0 Ek Hb) as (s1 & sp1 & W1 & E1 & Hcm1 & Ht1 & Hp1). rewrite Ho, E1. cbn [mbind option_bind]. destruct (IH s1 sp1 W1 Hcm1 ltac:(lia)) as (s2 & sp2 & W2 & E2 & Hcm2 & Ht2 & Hp2). exists s2, sp2, W2. split; [done|]. split; [done|]. split; [lia|]. eapply progress_trans; [|exact Hp2]. exact Hp1.
Qed.
Lemma calm_round s sp W : calm s sp W None [] -> calm (with_ready s [] (db_ready_keys s)) sp W None (ready_keys s).
Proof. intros [C1 C2 C3 C4 C5 C6 C7]. split; cbn [ready_keys db_ready_keys with_ready ks]; rewrite ?app_nil_r in *; try done. by eapply registered_same. Qed.
Lemma handle_ok fuel : forall s sp W, calm s sp W None [] -> 40 + 2 * total sp < 2 ^ 32 -> (length W < fuel)%nat ->
  exists s' sp' W', handle be junk hjunk list_max_ziplist_size list_compress_depth fuel s = Some s' /\ calm s' sp' W' None [] /\ ready_keys s' = [] /\ total sp' <= total sp.
Proof.
  induction fuel as [|fuel IH]; intros s sp W Hcm Hb Hf; [lia|]. cbn [handle]. destruct (ready_keys s) as [|k0 l0] eqn:Er; [exists s, sp, W; split; [done|]; split; [done|]; split; [done|lia]|]. rewrite <- Er.
  destruct (handle_list_ok (ready_keys s) _ sp W (calm_round s sp W Hcm) Hb) as (s1 & sp1 & W1 & -> & Hcm1 & Ht1 & [Hle Heq]). cbn [mbind option_bind]. cbn [ready_keys with_ready] in Heq. destruct (decide (length W1 = length W)) as [E|Hne].
  - exists s1, sp1, W1. specialize (Heq E). split; [destruct fuel; cbn [handle]; by rewrite Heq|]. done.
  - destruct (IH s1 sp1 W1 Hcm1 ltac:(lia) ltac:(lia)) as (s2 & sp2 & W2 & E2 & Hcm2 & Hr2 & Ht2). exists s2, sp2, W2. split; [done|]. split; [done|]. split; [done|lia].
Qed.

(** ** Commands and timeouts *)
#[local] Abbreviation Exec := (exec be junk hjunk list_max_ziplist_size list_compress_depth).
(** The keys that a command makes lists have been added. *)
Lemma exec_added st c st' r : Exec st c = Some (st', r) -> forall k o, db st' !! k = Some (VList o) -> (exists o', db st !! k = Some (VList o')) \/ k ∈ added st'.
Proof.
  intros E k o Hk. destruct c as [w key args|w key args|key p pivot v|key|key i|key i v|w key|key s e|key s e|key n v|src dst]; cbn [exec] in E;
    unfold pushGenericCommand, pushxGenericCommand, linsertCommand, llenCommand, lindexCommand, lsetCommand, popGenericCommand, lrangeCommand, ltrimCommand, lremCommand, rpoplpushCommand, rpoplpushHandlePush, pushed, mbind, option_bind in E;
    repeat (case_match; simplify_eq); cbn in *;
    repeat match goal with Hl : (<[?a := _]> _ !! ?b) = Some _ |- _ => destruct (decide (a = b)) as [->|]; [rewrite lookup_insert_eq in Hl|rewrite lookup_insert_ne in Hl by done] | Hl : (delete ?a _ !! ?b) = Some _ |- _ => destruct (decide (a = b)) as [->|]; [by rewrite lookup_delete_eq in Hl|rewrite lookup_delete_ne in Hl by done] end; simplify_eq; eauto; try (by right; left).
Qed.
Definition quiet (s : server) (sp : keyspace) (W : list waiter) : Prop := calm s sp W None [] /\ ready_keys s = [].
Definition event_ok (e : event) : Prop := match e with ECmd _ c => cmd_ok list_compress_depth c | EPop _ keys _ => keys <> [] | _ => True end.
Definition event_weight (e : event) : Z := match e with ECmd _ c => cmd_weight c | _ => 0 end.
Lemma registered_flag s W id c b : registered s W -> clients s !! id = Some c -> registered (with_client s id (set_unblocked c b)) W.
Proof.
  intros [R1 R2 R3 R4 R5 R6 R7] Hc. split; cbn [clients blocking_keys blocked_clients unblocked_clients with_client]; try done.
  - intros w Hw. destruct (R1 w Hw) as (x & Hx & Hwa). destruct (decide (w_id w = id)) as [E|Hne]; [rewrite E, lookup_insert_eq; exists (set_unblocked c b); split; [done|]; rewrite E in Hx; assert (x = c) as -> by congruence; by destruct Hwa; split|rewrite lookup_insert_ne by done; by exists x].
  - intros i x Hx Hi. destruct (decide (i = id)) as [->|Hne]; [rewrite lookup_insert_eq in Hx; injection Hx as <-; by destruct (R2 id c Hc Hi); split|rewrite lookup_insert_ne in Hx by done; by apply (R2 i)].
  - intros i Hi. destruct (decide (i = id)) as [->|Hne]; [rewrite lookup_insert_eq; eauto|rewrite lookup_insert_ne by done; by apply R7].
Qed.
Lemma input_ok n : forall s sp W, quiet s sp W -> length (unblocked_clients s) = n -> exists s', processUnblockedClients n s = Some s' /\ quiet s' sp W.
Proof.
  induction n as [|n IH]; intros s sp W Hq Hn; cbn [processUnblockedClients]; destruct (unblocked_clients s) as [|id l] eqn:El; try done; [by exists s|]. pose proof Hq as [[R C2 C3 C4 C5 C6 C7] Hr]. destruct (rg_unblocked _ _ R id ltac:(rewrite El; left)) as [c Hc]. rewrite Hc. cbn [mbind option_bind]. set (s1 := with_client _ _ _).
  apply (IH s1 sp W); [|cbn in *; lia]. split; [|done]. split; try done. pose proof (registered_flag s W id c false R Hc) as [S1 S2 S3 S4 S5 S6 S7]. split; try done. intros i Hi. apply S7. cbn [unblocked_clients with_client]. rewrite El. by right.
Qed.
Lemma quiet_rel s sp W : quiet s sp W -> rel (db (ks s)) sp.
Proof. intros [C _]. apply rel_loose. split; apply C. Qed.
Lemma quiet_wake s sp W k L : quiet s sp W -> sp !! k = Some (inl L) -> queue k W = [].
Proof. intros [C Hr] Hk. destruct (queue k W) eqn:E; [done|]. pose proof (cm_wake _ _ _ _ _ C k L ltac:(done) Hk ltac:(by rewrite E)) as Hin. rewrite Hr in Hin. by apply not_elem_of_nil in Hin. Qed.
Lemma calm_reply s sp W cur pend id r : calm s sp W cur pend -> calm (addReply s id r) sp W cur pend.
Proof. intros [C1 C2 C3 C4 C5 C6 C7]. split; try done. by eapply registered_same. Qed.
Lemma calm_propagate s sp W cur pend a : calm s sp W cur pend -> calm (propagate s a) sp W cur pend.
Proof. intros [C1 C2 C3 C4 C5 C6 C7]. split; try done. by eapply registered_same. Qed.
Lemma cmd_ok_calm s sp W c : quiet s sp W -> cmd_ok list_compress_depth c -> 40 + 2 * (total sp + cmd_weight c) < 2 ^ 32 ->
  exists st r, Exec (ks s) c = Some (st, r) /\ calm (signal_added (with_ks s st)) (spec sp c).1 W None [] /\ r = (spec sp c).2.
Proof.
  intros Hq Hc Hw. destruct (list_cmd_refines be junk hjunk list_max_ziplist_size list_compress_depth (ks s) sp c (quiet_rel _ _ _ Hq) Hc Hw) as (st & E & Hr & _). exists st, (spec sp c).2. split; [done|]. split; [|done]. apply rel_loose in Hr as [Hl He]. eapply (calm_added s sp); [apply Hq|done|done|].
  intros k L _ Hk. destruct (loose_list _ _ _ _ Hl Hk) as (o & Ho & _). destruct (exec_added _ _ _ _ E k o Ho) as [[o' Ho']|Hin]; [right; split; [done|]|by left]. pose proof (cm_db _ _ _ _ _ (proj1 Hq) k) as Hlk. rewrite Ho' in Hlk. destruct (sp !! k) as [[L0|]|]; try done. by exists L0.
Qed.
(** A list loses an element. *)
Lemma calm_shrink s sp W st sp' : quiet s sp W -> loose (db st) sp' -> no_empty None sp' -> added st = [] -> (forall k L, sp' !! k = Some (inl L) -> exists L0, sp !! k = Some (inl L0)) -> calm (with_ks s st) sp' W None [].
Proof.
  intros Hq Hl He Ha Hsub. pose proof Hq as [[C1 C2 C3 C4 C5 C6 C7] Hr]. split; try done; [by eapply registered_same|]. intros k L _ Hk Hqk. destruct (Hsub k L Hk) as [L0 HL0]. by apply (C7 k L0).
Qed.
Lemma first_list_spec s sp W keys : quiet s sp W -> match first_list (ks s) keys with
  | None => forall k, k ∈ keys -> sp !! k = None
  | Some (inl _) => True
  | Some (inr (k, o)) => exists L, sp !! k = Some (inl L) /\ db (ks s) !! k = Some (VList o) /\ list_ok o L /\ L <> []
  end.
Proof.
  intros Hq. pose proof (quiet_rel _ _ _ Hq) as Hr. induction keys as [|k keys IH]; cbn [first_list]; [set_solver|]. destruct (key_cases list_compress_depth (db (ks s)) sp k Hr) as [[-> E]|[(t & -> & E)|(o & L & Ho & E & Hlo & HL)]]; [|done|].
  - destruct (first_list (ks s) keys) as [[|[]]|]; [done|done|]. intros j [->|Hj]%elem_of_cons; [done|by apply IH].
  - rewrite Ho, (len_zero _ _ _ Hlo), bool_decide_eq_false_2 by done. by exists L.
Qed.
Lemma waits_calm s sp W id c keys target : quiet s sp W -> clients s !! id = Some c -> id ∉ ids W -> keys <> [] -> (forall k, k ∈ keys -> sp !! k = None) ->
  exists s' W', blockForKeys s id BLOCKED_LIST keys target = Some s' /\ calm s' sp W' None [] /\ sent s' = sent s.
Proof.
  intros [[C1 C2 C3 C4 C5 C6 C7] Hr] Hc Hid Hk Hnone. destruct (block_ok s W id c keys target C1 Hc Hid Hk) as (s' & w & -> & R & _ & Hkeys & _ & _ & K & Q & D & S). exists s', (W ++ [w]). split; [done|]. split; [|done]. split; rewrite ?K, ?Q, ?D; try done.
  intros k L Hcur HL Hqk. rewrite queue_app, queue_one in Hqk. destruct (decide (k ∈ w_keys w)) as [Hin|_]; [apply Hkeys, Hnone in Hin; congruence|]. rewrite app_nil_r in Hqk. by apply (C7 k L).
Qed.
#[local] Abbreviation Step := (step be junk hjunk list_max_ziplist_size list_compress_depth).
#[local] Abbreviation Steps := (steps be junk hjunk list_max_ziplist_size list_compress_depth).
Lemma handle_all s sp W : calm s sp W None [] -> 40 + 2 * total sp < 2 ^ 32 ->
  exists s' sp' W', handleClientsBlockedOnKeys be junk hjunk list_max_ziplist_size list_compress_depth s = Some s' /\ quiet s' sp' W' /\ total sp' <= total sp.
Proof.
  intros Hc Hb. unfold handleClientsBlockedOnKeys. rewrite (rg_count _ _ (cm_reg _ _ _ _ _ Hc)). destruct (handle_ok (S (Z.to_nat (zlen W))) s sp W Hc Hb ltac:(unfold zlen; lia)) as (s' & sp' & W' & E & C & Hr & Ht). by exists s', sp', W'.
Qed.
(** A client that is not blocked starts a command. *)
Lemma started s sp W id c b : quiet s sp W -> clients s !! id = Some c -> c_blocked c = false -> id ∉ ids W /\ quiet (with_client s id (set_lastcmd c b)) sp W.
Proof.
  intros [[R C2 C3 C4 C5 C6 C7] Hr] Ec Eb. assert (Hid : id ∉ ids W).
  { intros Hi. destruct (waiter_of W id (rg_ids _ _ R) Hi) as (w' & Hw' & <- & _). destruct (rg_in _ _ R w' Hw') as (c' & Hc' & Hwa). assert (c' = c) as -> by congruence. pose proof (wa_blocked _ _ Hwa). congruence. }
  split; [done|]. split; [split; try done|done]. apply registered_idle; [done|done|]. by destruct (rg_out _ _ R id c Ec Hid); split.
Qed.
(** A command, given what its body does. *)
Lemma command_ok s sp W id b f w : quiet s sp W -> 0 <= w -> 40 + 2 * (total sp + w) < 2 ^ 32 ->
  (forall s1 c, quiet s1 sp W -> clients s1 !! id = Some c -> id ∉ ids W -> exists s2 sp2 W2, f s1 = Some s2 /\ calm s2 sp2 W2 None [] /\ total sp2 <= total sp + w) ->
  exists s' sp' W', command be junk hjunk list_max_ziplist_size list_compress_depth s id b f = Some s' /\ quiet s' sp' W' /\ total sp' <= total sp + w.
Proof.
  intros Hq Hw0 Hb Hf. unfold command. destruct (clients s !! id) as [c|] eqn:Ec; [|exists s, sp, W; split; [done|]; split; [done|lia]]. destruct (c_blocked c) eqn:Eb; [exists s, sp, W; split; [done|]; split; [done|lia]|].
  destruct (started s sp W id c b Hq Ec Eb) as [Hid Hq1]. destruct (Hf _ (set_lastcmd c b) Hq1 ltac:(apply lookup_insert_eq) Hid) as (s2 & sp2 & W2 & -> & C & Ht). cbn [mbind option_bind]. destruct (handle_all s2 sp2 W2 C ltac:(lia)) as (s3 & sp3 & W3 & -> & Hq3 & Ht3). exists s3, sp3, W3. split; [done|]. split; [done|lia].
Qed.
Lemma pop_body s sp W id c keys w : quiet s sp W -> clients s !! id = Some c -> id ∉ ids W -> keys <> [] ->
  exists s2 sp2 W2, blockingPopGenericCommand be junk hjunk s id keys w = Some s2 /\ calm s2 sp2 W2 None [] /\ total sp2 <= total sp.
Proof.
  intros Hq Hc Hid Hk. unfold blockingPopGenericCommand. pose proof (first_list_spec s sp W keys Hq) as Hfl. destruct (first_list (ks s) keys) as [[k|[k o]]|].
  - eexists _, sp, W. split; [done|]. split; [apply calm_reply, Hq|lia].
  - destruct Hfl as (L & Hk' & Hdb & Hlo & HL). destruct (pop_ok be junk hjunk list_compress_depth o L w Hlo) as (o1 & -> & Ho1). cbn [mbind option_bind]. destruct (popped_some w L HL) as (v & -> & _ & Ewt). cbn [mbind option_bind]. rewrite (len_zero _ _ _ Ho1). set (L1 := (popped w L).1) in *. set (st := add_dirty _ _).
    assert (Hst : db st = (if decide (L1 = []) then delete k (db (ks s)) else <[k := VList o1]> (db (ks s))) /\ added st = []).
    { pose proof (cm_added _ _ _ _ _ (proj1 Hq)) as Ha. unfold st. destruct (decide (L1 = [])) as [E1|E1]; [rewrite bool_decide_eq_true_2 by done; cbn; rewrite delete_insert_eq; done|rewrite bool_decide_eq_false_2 by done; done]. }
    destruct Hst as [Hst Had]. pose proof (rel_keep list_compress_depth (db (ks s)) sp k o1 L1 (quiet_rel _ _ _ Hq) Ho1) as Hrel. rewrite <- Hst in Hrel. apply rel_loose in Hrel as [Hl He].
    pose proof (calm_shrink s sp W st (keep sp k L1) Hq Hl He Had) as Hcm. eexists _, (keep sp k L1), W. split; [done|]. split.
    + destruct Hcm as [D1 D2 D3 D4 D5 D6 D7]; [|split; try done; by eapply registered_same]. intros j L0. unfold keep. destruct (decide (j = k)) as [->|Hj]; [by exists L|]. destruct (decide (L1 = [])); [rewrite lookup_delete_ne by done|rewrite lookup_insert_ne by done]; eauto.
    + rewrite total_keep by (unfold wrong_type; by rewrite Hk'). assert (Eg : get sp k = L) by (unfold get; by rewrite Hk'). rewrite Eg. pose proof (zlen_nonneg v). lia.
  - rewrite Hc. cbn [mbind option_bind]. destruct (c_multi c); [eexists _, sp, W; split; [done|]; split; [apply calm_reply, Hq|lia]|]. destruct (waits_calm s sp W id c keys None Hq Hc Hid Hk Hfl) as (s' & W' & -> & C & _). exists s', sp, W'. split; [done|]. split; [done|lia].
Qed.
Lemma brpoplpush_body s sp W id c src dst : quiet s sp W -> clients s !! id = Some c -> id ∉ ids W -> 40 + 2 * total sp < 2 ^ 32 ->
  exists s2 sp2 W2, brpoplpushCommand be junk hjunk list_max_ziplist_size list_compress_depth s id src dst = Some s2 /\ calm s2 sp2 W2 None [] /\ total sp2 <= total sp.
Proof.
  intros Hq Hc Hid Hb. unfold brpoplpushCommand. destruct (key_cases list_compress_depth (db (ks s)) sp src (quiet_rel _ _ _ Hq)) as [[-> E]|[(t & -> & E)|(o & L & -> & E & Hlo & HL)]].
  - rewrite Hc. cbn [mbind option_bind]. destruct (c_multi c); [eexists _, sp, W; split; [done|]; split; [apply calm_reply, Hq|lia]|]. destruct (waits_calm s sp W id c [src] (Some dst) Hq Hc Hid ltac:(done)) as (s' & W' & -> & C & _); [intros k Hk%list_elem_of_singleton; by rewrite Hk|]. exists s', sp, W'. split; [done|]. split; [done|lia].
  - eexists _, sp, W. split; [done|]. split; [apply calm_reply, Hq|lia].
  - rewrite (list_length _ _ _ Hlo). assert (Hlen : 0 < zlen L) by (destruct L as [|x L]; [done|]; rewrite zlen_cons; pose proof (zlen_nonneg L); lia). rewrite Z.gtb_ltb, (proj2 (Z.ltb_lt 0 _)) by done.
    destruct (cmd_ok_calm s sp W (RPOPLPUSH src dst) Hq ltac:(by split; [right|]) ltac:(cbn [cmd_weight]; lia)) as (st & r & Ex & C & _). cbn [exec] in Ex. rewrite Ex. cbn [mbind option_bind]. pose proof (calm_reply _ _ _ _ _ id (BReply r) C) as C'. eexists _, _, W. split; [done|]. split; [destruct (db (ks s) !! dst) as [[]|]; by try apply calm_propagate|]. pose proof (spec_total sp (RPOPLPUSH src dst)) as Ht. cbn [cmd_weight] in Ht. lia.
Qed.
Lemma step_ok s sp W e : quiet s sp W -> event_ok e -> 40 + 2 * (total sp + event_weight e) < 2 ^ 32 -> exists s' sp' W', Step s e = Some s' /\ quiet s' sp' W' /\ total sp' <= total sp + event_weight e.
Proof.
  intros Hq He Hb. destruct e as [id c|id keys w|id src dst|id|]; cbn [step event_ok event_weight] in *.
  - apply (command_ok s sp W); [done|apply cmd_weight_nonneg|done|]. intros s1 c1 Hq1 Hc1 Hid. destruct (cmd_ok_calm s1 sp W c Hq1 He Hb) as (st & r & -> & C & _). cbn [mbind option_bind]. eexists _, _, W. split; [done|]. split; [by apply calm_reply|apply spec_total].
  - apply (command_ok s sp W); [done|lia|done|]. intros s1 c1 Hq1 Hc1 Hid. destruct (pop_body s1 sp W id c1 keys w Hq1 Hc1 Hid He) as (s2 & sp2 & W2 & E & C & Ht). exists s2, sp2, W2. split; [done|]. split; [done|lia].
  - apply (command_ok s sp W); [done|lia|done|]. intros s1 c1 Hq1 Hc1 Hid. destruct (brpoplpush_body s1 sp W id c1 src dst Hq1 Hc1 Hid ltac:(lia)) as (s2 & sp2 & W2 & E & C & Ht). exists s2, sp2, W2. split; [done|]. split; [done|lia].
  - destruct (clients s !! id) as [c|] eqn:Ec; [|exists s, sp, W; split; [done|]; split; [done|lia]]. destruct (c_blocked c) eqn:Eb; [|exists s, sp, W; split; [done|]; split; [done|lia]]. pose proof Hq as [[R C2 C3 C4 C5 C6 C7] Hr].
    destruct (decide (id ∈ ids W)) as [Hi|Hi]; [|by rewrite (id_blocked _ (rg_out _ _ R id c Ec Hi)) in Eb]. destruct (waiter_of W id (rg_ids _ _ R) Hi) as (w & Hw & <- & _). destruct (rg_in _ _ R w Hw) as (c' & Hc' & Hwa). assert (c' = c) as -> by congruence. unfold replyToBlockedClientTimedOut. rewrite Ec. cbn [mbind option_bind]. rewrite (wa_type _ _ Hwa). cbn [mbind option_bind].
    destruct (unblock_ok (addReply s (w_id w) BNullArray) W w ltac:(by eapply registered_same) Hw) as (s' & -> & R' & K & Q & D & _). exists s', sp, (without (w_id w) W). split; [done|]. split; [|lia]. split; [|by rewrite Q]. split; rewrite ?K, ?Q, ?D; try done. intros k L Hcur HL Hqk. apply (C7 k L); [done|done|by apply (queue_fewer k (w_id w))].
  - destruct (input_ok _ s sp W Hq eq_refl) as (s' & E & Hq'). exists s', sp, W. split; [done|]. split; [done|lia].
Qed.
Definition events_weight (es : list event) : Z := foldr (fun e w => event_weight e + w) 0 es.
Lemma events_weight_nonneg es : 0 <= events_weight es.
Proof. induction es as [|e es IH]; [done|]. cbn [events_weight foldr]. fold (events_weight es). destruct e as [? c| | | |]; cbn [event_weight]; [pose proof (cmd_weight_nonneg c)|..]; lia. Qed.
Lemma steps_ok es : forall s sp W, quiet s sp W -> Forall event_ok es -> 40 + 2 * (total sp + events_weight es) < 2 ^ 32 -> exists s' sp' W', Steps s es = Some s' /\ quiet s' sp' W'.
Proof.
  induction es as [|e es IH]; intros s sp W Hq Hok Hb; [by exists s, sp, W|]. apply Forall_cons in Hok as [He Hok]. cbn [events_weight foldr] in Hb. fold (events_weight es) in Hb. pose proof (events_weight_nonneg es). destruct (step_ok s sp W e Hq He ltac:(lia)) as (s1 & sp1 & W1 & E1 & Hq1 & Ht1). cbn [steps]. rewrite E1. cbn [mbind option_bind]. apply (IH s1 sp1 W1); [done|done|lia].
Qed.

(** ** Who is served *)
Definition waiters (k : list Z) (W : list waiter) : list waiter := filter (fun w => k ∈ w_keys w) W.
(** The clients take elements in turn, each from its end of the list. *)
Fixpoint deliver (k : list Z) (Q : list waiter) (L : list (list Z)) : list (Z * breply) * list (list Z) :=
  match Q with
  | [] => ([], L)
  | w :: Q => match (popped (w_where w) L).2 with None => ([], L) | Some v => let '(r, L') := deliver k Q (popped (w_where w) L).1 in ((w_id w, BPair k v) :: r, L') end
  end.
Lemma waiters_next k W w Q : NoDup (ids W) -> waiters k W = w :: Q -> waiters k (without (w_id w) W) = Q.
Proof.
  intros Hn E. assert (Hc : waiters k (without (w_id w) W) = without (w_id w) (waiters k W)) by (unfold waiters, without; rewrite !list_filter_filter; apply list_filter_iff; tauto). rewrite Hc, E. unfold without. rewrite filter_cons, decide_False by (by intros []). apply filter_every. intros x Hx Ex.
  pose proof (queue_nodup k W Hn) as Hq. unfold queue in Hq. fold (waiters k W) in Hq. rewrite E in Hq. apply NoDup_cons in Hq as [Hq _]. apply Hq. rewrite <- Ex. by apply (list_elem_of_fmap_2 w_id).
Qed.
Lemma serve_plain n : forall s sp W k pend L, calm s sp W (Some k) pend -> sp !! k = Some (inl L) -> length (queue k W) = n -> (forall w, w ∈ W -> k ∈ w_keys w -> w_target w = None) -> 40 + 2 * total sp < 2 ^ 32 ->
  let '(r, L') := deliver k (waiters k W) L in
  exists s' W', Loop n s k = Some s' /\ calm s' (<[k := inl L']> sp) W' (Some k) pend /\ sent s' = sent s ++ r /\ ready_keys s' = ready_keys s /\ (forall i, i ∈ ids W' <-> i ∈ ids W /\ i ∉ r.*1) /\ (L' = [] \/ queue k W' = []).
Proof.
  induction n as [|n IH]; intros s sp W k pend L Hcm Hk Hq Hpl Hb; unfold queue in Hq; fold (waiters k W) in Hq; destruct (waiters k W) as [|w Q] eqn:Ew; try done; cbn [deliver].
  - exists s, W. split; [done|]. rewrite (insert_id sp) by done. split; [done|]. rewrite app_nil_r. split; [done|]. split; [done|]. split; [intros i; cbn; set_solver|]. right. unfold queue. fold (waiters k W). by rewrite Ew.
  - assert (Eq : queue k W = w_id w :: ids Q) by (unfold queue; fold (waiters k W); by rewrite Ew). assert (Hw : w ∈ W /\ k ∈ w_keys w) by (assert (w ∈ waiters k W) as Hin by (rewrite Ew; left); unfold waiters in Hin; apply list_elem_of_filter in Hin as [? ?]; done). destruct Hw as [Hw Hkw]. destruct (decide (L = [])) as [->|HL].
    + assert (Epop : (popped (w_where w) []).2 = None) by (by destruct (w_where w)). rewrite Epop.
      pose proof Hcm as [R Hdb _ _ _ _ _]. destruct (rg_in _ _ R w Hw) as (c & Hc & Hwa). destruct (loose_list _ _ _ _ Hdb Hk) as (o & Ho & Hlo). destruct (pop_ok be junk hjunk list_compress_depth o [] (w_where w) Hlo) as (o1 & Ep & Ho1). rewrite Epop in Ep. assert (En : (popped (w_where w) []).1 = []) by (by destruct (w_where w)). rewrite En in Ho1. exists (with_ks s (put_list (ks s) k o1)), W.
      split; [cbn [serve_loop]; rewrite (rg_queues _ _ R k), Eq; cbn [some_list head mbind option_bind]; rewrite Hc; cbn [mbind option_bind]; rewrite decide_True by apply Hwa; assert (Hat : list_at s k = Some o) by (unfold list_at; by rewrite Ho); rewrite Hat; cbn [mbind option_bind]; by rewrite <- (wa_where _ _ Hwa), Ep|].
      split; [eapply calm_popped; [exact Hcm|by eapply registered_same|done|done|done|done|done]|]. rewrite app_nil_r. split; [done|]. split; [done|]. split; [intros i; cbn; set_solver|by left].
    + destruct (serve_one s sp W k pend (w_id w) (ids Q) L Hcm Hk Eq HL Hb) as (s1 & sp1 & w' & v & E1 & Hcm1 & _ & Ht1 & Hw' & Hid & Ev & Hplain). destruct (waiter_of W (w_id w) (rg_ids _ _ (cm_reg _ _ _ _ _ Hcm)) ltac:(by apply (list_elem_of_fmap_2 w_id))) as (x & _ & _ & Hu). assert (w' = w) as -> by (rewrite (Hu w' Hw' Hid); symmetry; by apply Hu). destruct (Hplain (Hpl w Hw Hkw)) as (-> & S1 & Q1). rewrite Ev. set (L1 := (popped (w_where w) L).1) in *.
      pose proof (waiters_next k W w Q (rg_ids _ _ (cm_reg _ _ _ _ _ Hcm)) Ew) as Enext.
      pose proof (IH s1 (<[k := inl L1]> sp) (without (w_id w) W) k pend L1 Hcm1 ltac:(apply lookup_insert_eq) ltac:(unfold queue; fold (waiters k (without (w_id w) W)); rewrite Enext; by injection Hq) ltac:(intros y [_ Hy]%list_elem_of_filter; by apply Hpl) ltac:(lia)) as Hrec. rewrite Enext in Hrec. destruct (deliver k Q L1) as [r L'].
      destruct Hrec as (s2 & W2 & E2 & Hcm2 & S2 & Q2 & I2 & Hor). rewrite insert_insert_eq in Hcm2. exists s2, W2. split; [by rewrite E1|]. split; [done|]. split; [rewrite S2, S1, <- app_assoc; done|]. split; [congruence|]. split; [|done]. intros i. rewrite I2, ids_without. cbn. rewrite elem_of_cons. tauto.
Qed.
Lemma push_adds st w k args st' r : Exec st (PUSH w k args) = Some (st', r) -> db st !! k = None -> args <> [] -> added st = [] -> added st' = [k].
Proof.
  intros E Hk Ha Hadd. cbn [exec] in E. unfold pushGenericCommand in E. rewrite Hk in E. destruct args as [|v args]; [done|]. destruct (push_args _ _ _ _ _ None (v :: args) w) as [[o|]|] eqn:Ep; try done.
  - cbn in E. injection E as <- <-. unfold pushed. destruct (_ =? 0); cbn; by rewrite Hadd.
  - cbn [push_args] in Ep. destruct (listTypePush _ _ _ _ _ _) as [o|]; [|done]. cbn [mbind option_bind] in Ep. exfalso. clear -Ep. revert o Ep. induction args as [|x args IH]; intros o Ep; [done|]. cbn [push_args] in Ep. destruct (listTypePush _ _ _ _ _ _) as [o'|]; [|done]. by apply (IH o').
Qed.
Lemma push_serves s sp W id c w k args : quiet s sp W -> clients s !! id = Some c -> c_blocked c = false -> sp !! k = None -> args <> [] -> Forall bytes_ok args ->
  (forall x, x ∈ W -> k ∈ w_keys x -> w_target x = None) -> 40 + 2 * (total sp + weight args) < 2 ^ 32 ->
  let '(r, L') := deliver k (waiters k W) (pushes w [] args) in
  exists s' W', Step s (ECmd id (PUSH w k args)) = Some s' /\ quiet s' (keep sp k L') W' /\ sent s' = sent s ++ (id, BReply (ReplyInt (zlen (pushes w [] args)))) :: r /\ (forall i, i ∈ ids W' <-> i ∈ ids W /\ i ∉ r.*1).
Proof.
  intros Hq Hc Hnb Hk Ha Hby Hpl Hb. cbn [step]. unfold command. rewrite Hc, Hnb. destruct (started s sp W id c false Hq Hc Hnb) as [Hid Hq1]. set (s1 := with_client s id (set_lastcmd c false)) in *.
  destruct (cmd_ok_calm s1 sp W (PUSH w k args) Hq1 ltac:(by split; [right|]) Hb) as (st & rp & Ex & Hcm & Erp). set (L := pushes w [] args).
  assert (Esp : spec sp (PUSH w k args) = (keep sp k L, ReplyInt (zlen L))) by (cbn [spec]; unfold wrong_type, get; by rewrite Hk). rewrite Esp in Hcm, Erp. cbn [fst snd] in Hcm, Erp. rewrite Ex. cbn [mbind option_bind]. rewrite Erp.
  assert (Hdb : db (ks s1) !! k = None) by (pose proof (cm_db _ _ _ _ _ (proj1 Hq1) k) as Hl; rewrite Hk in Hl; destruct (db (ks s1) !! k) as [[]|]; done). pose proof (push_adds _ _ _ _ _ _ Ex Hdb Ha (cm_added _ _ _ _ _ (proj1 Hq1))) as Hadd.
  assert (HL : L <> []) by (by apply pushes_ne). set (s2 := signal_added (with_ks s1 st)) in *. assert (Hs2 : sent s2 = sent s /\ ready_keys s2 = if decide (queue k W = []) then [] else [k]).
  { unfold s2, signal_added. change (ks (with_ks s1 st)) with st. rewrite Hadd. cbn [rev app foldl]. unfold signalKeyAsReady. cbn [blocking_keys with_ks]. change (blocking_keys s1) with (blocking_keys s). rewrite (rg_queues _ _ (cm_reg _ _ _ _ _ (proj1 Hq)) k). destruct (queue k W) as [|i q] eqn:Eq; cbn [some_list].
    - split; [done|]. rewrite decide_True by done. apply Hq.
    - rewrite (decide_False (P := i :: q = [])) by done. rewrite decide_False; [split; [done|]; cbn [ready_keys with_ready with_ks]; by rewrite (proj2 Hq1)|]. intros Hin. apply (cm_ready _ _ _ _ _ (proj1 Hq1)) in Hin. rewrite (proj2 Hq1) in Hin. by apply not_elem_of_nil in Hin. }
  destruct Hs2 as [Hsent Hready]. pose proof (calm_reply s2 _ W None [] id (BReply (ReplyInt (zlen L))) Hcm) as Hcm2. set (s3 := addReply s2 id _) in *. unfold handleClientsBlockedOnKeys. cbn [handle]. change (ready_keys s3) with (ready_keys s2). rewrite Hready. destruct (decide (queue k W = [])) as [Eq|Hne].
  - assert (Ew : waiters k W = []) by (unfold queue in Eq; fold (waiters k W) in Eq; by destruct (waiters k W)). rewrite Ew. cbn [deliver]. exists s3, W. split; [done|]. split; [by split|]. split; [unfold s3; cbn [sent addReply]; by rewrite Hsent|]. intros i. set_solver.
  - pose proof (calm_round s3 _ W Hcm2) as Hcm3. change (ready_keys s3) with (ready_keys s2) in Hcm3. rewrite Hready in Hcm3. destruct (calm_pick _ _ W k [] Hcm3) as [Hcm4 _]. set (s4 := with_ready (with_ready s3 [] _) _ _) in Hcm4.
    assert (Hk4 : keep sp k L !! k = Some (inl L)) by (unfold keep; rewrite decide_False by done; apply lookup_insert_eq). assert (Ht : total (keep sp k L) = total sp + weight args) by (rewrite total_keep by (unfold wrong_type; by rewrite Hk); unfold get; rewrite Hk; unfold L; rewrite pushes_weight; change (weight []) with 0; lia).
    pose proof (serve_plain _ s4 (keep sp k L) W k [] L Hcm4 Hk4 eq_refl Hpl ltac:(lia)) as Hsv. destruct (deliver k (waiters k W) L) as [r L'] eqn:Ed. destruct Hsv as (s5 & W5 & E5 & Hcm5 & S5 & Q5 & I5 & Hor). destruct (finish_key s5 _ W5 k [] L' Hcm5 ltac:(apply lookup_insert_eq) Hor) as (s6 & E6 & Hcm6 & Q6 & S6).
    assert (Esp6 : keep (<[k := inl L']> (keep sp k L)) k L' = keep sp k L') by (unfold keep; rewrite (decide_False (P := L = [])) by done; rewrite !insert_insert_eq; destruct (decide (L' = [])); [by rewrite delete_insert_eq|done]). rewrite Esp6 in Hcm6.
    exists s6, W5. split; [|split; [split; [done|by rewrite Q6, Q5]|split; [rewrite S6, S5; unfold s4, s3; cbn [sent with_ready addReply]; by rewrite Hsent, <- app_assoc|done]]].
    destruct (loose_list _ _ _ _ (cm_db _ _ _ _ _ Hcm4) Hk4) as (o & Ho & _). cbn [handle_list]. fold s4. change (ready_keys (with_ready s3 [] (db_ready_keys s3))) with (@nil (list Z)). change (db_ready_keys (with_ready s3 [] (db_ready_keys s3))) with (db_ready_keys s3). fold s4. rewrite Ho. unfold serveClientsBlockedOnListKey. rewrite (queue_turns s4 W k (cm_reg _ _ _ _ _ Hcm4) _ (Some s4) (fun n => Loop n s4 k)), E5 by done. cbn [mbind option_bind]. rewrite E6. cbn [mbind option_bind].
    assert (Er6 : ready_keys s6 = []) by (by rewrite Q6, Q5). destruct (Z.to_nat (blocked_clients s3)); cbn [handle]; by rewrite Er6.
Qed.
End BlockedSpec.
(** What the registries promise: a client is in the queue of a key exactly when
    it waits for it, a blocked client waits for a key, and no client waits for
    a key that is a list. *)
Record served (s : server) : Prop := {
  sv_queues id c k : clients s !! id = Some c -> k ∈ bpop_keys c <-> exists l, blocking_keys s !! k = Some l /\ id ∈ l;
  sv_blocked id c : clients s !! id = Some c -> c_blocked c = true <-> bpop_keys c <> [];
  sv_lists k l o : blocking_keys s !! k = Some l -> db (ks s) !! k <> Some (VList o);
  sv_ready : ready_keys s = []
}.
Lemma quiet_served depth s sp W : quiet depth s sp W -> served s.
Proof.
  intros Hq. pose proof Hq as [[R C2 C3 C4 C5 C6 C7] Hr].
  assert (Hcase : forall id c, clients s !! id = Some c -> (exists w, w ∈ W /\ w_id w = id /\ waiting_as c w) \/ (id ∉ ids W /\ idle c)).
  { intros id c Hc. destruct (decide (id ∈ ids W)) as [Hi|Hi]; [|right; split; [done|by apply (rg_out _ _ R id)]]. left. destruct (waiter_of W id (rg_ids _ _ R) Hi) as (w & Hw & <- & _). exists w. split; [done|]. split; [done|]. destruct (rg_in _ _ R w Hw) as (c' & Hc' & Hwa). by assert (c' = c) as -> by congruence. }
  split; [| | |done].
  - intros id c k Hc. rewrite (rg_queues _ _ R k). destruct (Hcase id c Hc) as [(w & Hw & <- & Hwa)|[Hi Hidle]].
    + rewrite (wa_keys _ _ Hwa). split; [intros Hk; exists (queue k W); pose proof (queue_in k W w Hw Hk); destruct (queue k W); [set_solver|done]|]. intros (l & El & Hin). assert (Hq' : w_id w ∈ queue k W) by (destruct (queue k W); [done|injection El as <-; done]). apply queue_elem in Hq' as (w' & Hw' & E & Hk). destruct (waiter_of W (w_id w) (rg_ids _ _ R) ltac:(by apply (list_elem_of_fmap_2 w_id))) as (x & _ & _ & Hu). by rewrite (Hu w Hw eq_refl), <- (Hu w' Hw' E).
    + rewrite (id_keys _ Hidle). split; [set_solver|]. intros (l & El & Hin). destruct Hi. assert (Hq' : id ∈ queue k W) by (destruct (queue k W); [done|injection El as <-; done]). apply queue_elem in Hq' as (w & Hw & <- & _). by apply (list_elem_of_fmap_2 w_id).
  - intros id c Hc. destruct (Hcase id c Hc) as [(w & Hw & <- & Hwa)|[_ Hidle]]; [rewrite (wa_blocked _ _ Hwa), (wa_keys _ _ Hwa); pose proof (rg_keys _ _ R w Hw); tauto|rewrite (id_blocked _ Hidle), (id_keys _ Hidle); by split].
  - intros k l o El Ho. specialize (C2 k). rewrite Ho in C2. destruct (sp !! k) as [[L|]|] eqn:Ek; try done. rewrite (rg_queues _ _ R k), (quiet_wake _ s sp W k L Hq Ek) in El. done.
Qed.
(** A server with clients and a keyspace where nobody waits. *)
Definition initial (st : state) (cs : gmap Z client) : server := mk_server st cs ∅ [] ∅ [] 0 [] [].
Lemma initial_quiet depth st sp cs : rel depth (db st) sp -> added st = [] -> (forall id c, cs !! id = Some c -> idle c) -> quiet depth (initial st cs) sp [].
Proof.
  intros [Hl He]%rel_loose Ha Hcs. split; [|done]. split; try done; cbn [initial ready_keys db_ready_keys app ks db].
  - split; cbn [initial clients blocking_keys blocked_clients unblocked_clients]; try done; [set_solver|intros id c Hc _; by apply (Hcs id)|constructor|set_solver|set_solver].
  - constructor.
  - set_solver.
Qed.

(** C17: Blocked clients are never forgotten: from a server whose keyspace holds
    lists and values of other types and where nobody waits, in every sequence
    of list commands, BLPOP, BRPOP and BRPOPLPUSH, timeouts and processing of
    unblocked clients, no assertion fails and no freed queue is used; the
    handling of the ready keys ends, BRPOPLPUSH chains and targets of another
    type, for which the element goes back, included; and afterwards a client is
    in the queue of a key exactly when it waits for it, every blocked client
    waits for a key, and no client waits for a key that is a list.  With
    list-compress-depth 0 the list commands are all those of [Tlist]; with
    compression only those at the ends of lists, since the others can fail
    ([list_head_compressed]).  The smallest 64-bit integer is excluded as an
    index or count, and the elements of all lists take less than 2 GB. *)
Theorem blocked_clients_woken `{QAllocator} (be : bool) (junk : nat -> Z) (hjunk : Z -> Z) (list_max_ziplist_size list_compress_depth : Z) (st : state) (sp : keyspace) (cs : gmap Z client) (es : list event) :
  rel list_compress_depth (db st) sp -> added st = [] -> (forall id c, cs !! id = Some c -> idle c) -> Forall (event_ok list_compress_depth) es -> 40 + 2 * (total sp + events_weight es) < 2 ^ 32 ->
  exists s, steps be junk hjunk list_max_ziplist_size list_compress_depth (initial st cs) es = Some s /\ served s.
Proof.
  intros Hr Ha Hcs Hok Hb. destruct (steps_ok be junk hjunk list_max_ziplist_size list_compress_depth es (initial st cs) sp [] (initial_quiet list_compress_depth st sp cs Hr Ha Hcs) Hok Hb) as (s & sp' & W & E & Hq). exists s. split; [done|]. by eapply quiet_served.
Qed.
(** C18: Waiting clients are served when an element comes, in the order in which
    they were blocked: in any state that the previous theorem reaches, when a
    client pushes to a key that does not exist and for which clients wait with
    BLPOP or BRPOP, each of them in turn gets an element from its end of the
    list and is no longer blocked, until the list has no more elements; the
    others keep waiting, and the elements that are left are the list. *)
Theorem blocked_clients_served_in_order `{QAllocator} (be : bool) (junk : nat -> Z) (hjunk : Z -> Z) (list_max_ziplist_size list_compress_depth : Z) (s : server) (sp : keyspace) (W : list waiter) (id : Z) (c : client) (w : list_where) (k : list Z) (args : list (list Z)) :
  quiet list_compress_depth s sp W -> clients s !! id = Some c -> c_blocked c = false -> sp !! k = None -> args <> [] -> Forall bytes_ok args ->
  (forall x, x ∈ W -> k ∈ w_keys x -> w_target x = None) -> 40 + 2 * (total sp + weight args) < 2 ^ 32 ->
  let '(r, rest) := deliver k (waiters k W) (pushes w [] args) in
  exists s' W', step be junk hjunk list_max_ziplist_size list_compress_depth s (ECmd id (PUSH w k args)) = Some s' /\
    sent s' = sent s ++ (id, BReply (ReplyInt (zlen (pushes w [] args)))) :: r /\
    (forall i x, clients s' !! i = Some x -> c_blocked x = true <-> i ∈ ids W /\ i ∉ r.*1) /\
    quiet list_compress_depth s' (keep sp k rest) W'.
Proof.
  intros Hq Hc Hnb Hk Ha Hby Hpl Hb. pose proof (push_serves be junk hjunk list_max_ziplist_size list_compress_depth s sp W id c w k args Hq Hc Hnb Hk Ha Hby Hpl Hb) as Hs. destruct (deliver k (waiters k W) (pushes w [] args)) as [r L']. destruct Hs as (s' & W' & E & Hq' & S & I). exists s', W'. split; [done|]. split; [done|]. split; [|done].
  intros i x Hx. rewrite <- I. pose proof (cm_reg _ _ _ _ _ _ (proj1 Hq')) as R. split.
  - intros Hbl. destruct (decide (i ∈ ids W')) as [|Hi]; [done|]. rewrite (id_blocked _ (rg_out _ _ R i x Hx Hi)) in Hbl. done.
  - intros Hi. destruct (waiter_of W' i (rg_ids _ _ R) Hi) as (y & Hy & <- & _). destruct (rg_in _ _ R y Hy) as (x' & Hx' & Hwa). assert (x' = x) as -> by congruence. apply Hwa.
Qed.

(** ** Examples *)
#[local] Instance lowest_unused : QAllocator := {| znode h := fresh (dom h); znode_fresh h := not_elem_of_dom_1 h (fresh (dom h)) (is_fresh (dom h)) |}.
Definition new_client : client := mk_client BLOCKED_NONE false false false false [] None.
Definition four_clients : gmap Z client := <[1 := new_client]> (<[2 := new_client]> (<[3 := new_client]> (<[4 := new_client]> ∅))).
Lemma four_idle id c : four_clients !! id = Some c -> idle c.
Proof. unfold four_clients. intros Hc. repeat (apply lookup_insert_Some in Hc as [[_ <-]|[_ Hc]]; [by split|]). by rewrite lookup_empty in Hc. Qed.
Definition events : list event :=
  [EPop 1 [text "a"; text "b"; text "a"] LIST_HEAD; EBrpoplpush 2 (text "b") (text "c"); EPop 3 [text "c"] LIST_TAIL; ECmd 4 (PUSH LIST_TAIL (text "b") [text "x"; text "y"; text "z"]); EInput; EPop 1 [text "b"] LIST_HEAD; EPop 2 [text "q"] LIST_HEAD; ETimeout 2;
   EBrpoplpush 2 (text "d") (text "t"); EPop 3 [text "d"] LIST_TAIL; ECmd 4 (PUSH LIST_HEAD (text "d") [text "u"]); EBrpoplpush 2 (text "t") (text "d")].
(** The key [t] is of another type. *)
Definition with_other : state := mk_state {[ text "t" := VOther 3 ]} 0 [] [] [].
Lemma other_rel depth : rel depth (db with_other) {[ text "t" := inr 3 ]}.
Proof. intros k. cbn [with_other db]. destruct (decide (k = text "t")) as [->|Hne]; [by rewrite !lookup_singleton_eq|]. by rewrite !lookup_singleton_ne. Qed.
Lemma events_ok : Forall (event_ok 1) events.
Proof. unfold events. rewrite !Forall_cons, Forall_nil. cbn [event_ok]. split_and!; try done; (split; [by right|]); (split; [done|]); rewrite !Forall_cons, Forall_nil; split_and!; by try apply bytes_decided. Qed.
Lemma blocked_clients_woken_witness : exists s, steps false (fun _ => 0) (fun _ => 0) 2 1 (initial with_other four_clients) events = Some s /\ served s /\
  drop 6 (sent s) = [(4, BReply (ReplyInt 1)); (2, BReply ReplyWrongType); (3, BPair (text "d") (text "u")); (2, BReply ReplyWrongType)].
Proof.
  destruct (blocked_clients_woken false (fun _ => 0) (fun _ => 0) 2 1 with_other {[ text "t" := inr 3 ]} four_clients events (other_rel 1) eq_refl four_idle events_ok) as (s & E & Hs); [vm_compute; reflexivity|].
  exists s. split; [exact E|]. split; [exact Hs|]. vm_compute in E. injection E as <-. reflexivity.
Defined.
(** Two clients wait for a key. *)
Definition waiting_client : client := mk_client BLOCKED_LIST true false false true [text "a"] None.
Definition two_waiting : server := mk_server (mk_state ∅ 0 [] [] []) (<[1 := waiting_client]> (<[2 := waiting_client]> (<[4 := new_client]> ∅))) (<[text "a" := [1; 2]]> ∅) [] ∅ [] 2 [] [].
Definition two_waiters : list waiter := [mk_waiter 1 [text "a"] None LIST_HEAD; mk_waiter 2 [text "a"] None LIST_HEAD].
Lemma two_waiting_quiet : quiet 0 two_waiting ∅ two_waiters.
Proof.
  split; [|done]. split; try done; [|constructor|set_solver]. split; try done.
  - intros w Hw. unfold two_waiters in Hw. rewrite !elem_of_cons in Hw. destruct Hw as [->|[->|Hw]]; [| |by apply not_elem_of_nil in Hw]; (exists waiting_client; split; [reflexivity|by split]).
  - intros id c Hc Hid. cbn [two_waiting clients] in Hc. apply lookup_insert_Some in Hc as [[<- _]|[_ Hc]]; [destruct Hid; by left|]. apply lookup_insert_Some in Hc as [[<- _]|[_ Hc]]; [destruct Hid; right; by left|]. apply lookup_insert_Some in Hc as [[_ <-]|[_ Hc]]; [by split|]. by rewrite lookup_empty in Hc.
  - cbn. repeat (apply NoDup_cons; split; [set_solver|]). constructor.
  - intros w Hw. unfold two_waiters in Hw. rewrite !elem_of_cons in Hw. destruct Hw as [->|[->|Hw]]; [| |by apply not_elem_of_nil in Hw]; (split; [done|apply NoDup_singleton]).
  - intros k. cbn [two_waiting blocking_keys]. change two_waiters with ([mk_waiter 1 [text "a"] None LIST_HEAD] ++ [mk_waiter 2 [text "a"] None LIST_HEAD]). rewrite queue_app, !queue_one. cbn [w_keys w_id]. destruct (decide (k ∈ [text "a"])) as [->%list_elem_of_singleton|Hk]; [done|]. rewrite lookup_insert_ne, lookup_empty by set_solver. done.
  - intros id Hid. by apply not_elem_of_nil in Hid.
Qed.
Lemma blocked_clients_served_in_order_witness : let '(r, rest) := deliver (text "a") (waiters (text "a") two_waiters) (pushes LIST_TAIL [] [text "x"]) in
  exists s' W', step false (fun _ => 0) (fun _ => 0) 2 0 two_waiting (ECmd 4 (PUSH LIST_TAIL (text "a") [text "x"])) = Some s' /\
    sent s' = sent two_waiting ++ (4, BReply (ReplyInt (zlen (pushes LIST_TAIL [] [text "x"])))) :: r /\
    (forall i x, clients s' !! i = Some x -> c_blocked x = true <-> i ∈ ids two_waiters /\ i ∉ r.*1) /\ quiet 0 s' (keep ∅ (text "a") rest) W'.
Proof.
  apply (blocked_clients_served_in_order false (fun _ => 0) (fun _ => 0) 2 0 two_waiting ∅ two_waiters 4 new_client LIST_TAIL (text "a") [text "x"] two_waiting_quiet); try done.
  - apply Forall_cons_2; [by apply bytes_decided|by apply Forall_nil_2].
  - intros x Hx _. unfold two_waiters in Hx. rewrite !elem_of_cons in Hx. destruct Hx as [->|[->|Hx]]; [done|done|by apply not_elem_of_nil in Hx].
Defined.
