(* ===== verification/Keyspace.v ===== *)
(** * The keyspace and its expire times (db.c, expire.c)

    The databases of the server, their keys with the times at which they
    expire, and the commands that work on keys of any type.  Expired keys stay
    in memory until a command looks them up or the server samples them.  The
    specification is a map in which a key disappears at its time; a master
    implements it, and a replica, which waits for the master to delete keys,
    implements it for commands that only read.

    A value that is not a string is a type and an identity.  Two keys never
    share an object that a command can modify, so a modification in place is a
    modification of the map; reference counts are not modelled.  A deletion in
    the background has the effect of one in the foreground.  The cluster, the
    client side cache and the loading of files are not modelled, and which keys
    are sampled is a parameter. *)
From Stdlib Require Import Strings.String.
From S2P Require Import Prelude Endian Util Glob Rdb RdbObject.
#[local] Open Scope cmem_scope.
#[local] Abbreviation text s := (bytes_of_string s%string).

(** ** Data *)
Inductive other_type := OBJ_LIST | OBJ_SET | OBJ_ZSET | OBJ_HASH | OBJ_STREAM | OBJ_MODULE (name : list Z).
Inductive value := VStr (o : strobj) | VOther (ty : other_type) (contents : Z).
Record robj := mk_robj { o_val : value; o_lru : Z }.
Record redisDb := mk_db { dict : gmap (list Z) robj; expires : gmap (list Z) Z; blocking_keys : list (list Z) }.
(** What the functions of the keyspace tell the rest of the server: the calls
    to signalModifiedKey, signalFlushedDb, notifyKeyspaceEvent, propagateExpire,
    rewriteClientCommandVector, signalKeyAsReady and trackingInvalidateKey. *)
Inductive effect :=
| Modified (dbid : Z) (key : list Z) | FlushedDb (dbid : Z) | Event (event key : list Z) (dbid : Z)
| Propagated (dbid : Z) (argv : list (list Z)) | Rewritten (argv : list (list Z)) | Ready (dbid : Z) (key : list Z) | Invalidated (key : list Z).
Record server := mk_server {
  dbs : list redisDb;
  selected : gmap Z Z;                      (* c->db->id *)
  dirty : Z;
  effects : list effect;                    (* latest first *)
  slaveKeysWithExpire : gmap (list Z) Z;
  stat_keyspace_hits : Z;
  stat_keyspace_misses : Z;
  stat_expiredkeys : Z
}.
(** The role, the configuration and the clocks of the server and the client
    during a command.  [mstime0] and [mstime1] are an earlier and a later
    result of mstime(); [access] is the effect of an access on the lru field. *)
Record env := mk_env {
  masterhost : bool;
  loading : bool;
  readonly_command : bool;                  (* of a client that is not the master *)
  writable_slave : bool;
  from_master : bool;                       (* CLIENT_MASTER *)
  lua_time_start : option Z;                (* if server.lua_caller *)
  fixed_mstime : option Z;                  (* server.mstime if fixed_time_expire > 0 *)
  mstime0 : Z;
  mstime1 : Z;
  active_child : bool;
  access : Z -> Z;
  policy_lfu : bool;
  initial_lru : Z;
  lazyfree_lazy_server_del : bool;
  lazyfree_lazy_user_del : bool;
  lazyfree_lazy_expire : bool
}.
Inductive reply := ReplyInt (n : Z) | ReplyOk | ReplyNull | ReplyBulk (s : list Z) | ReplyArray (l : list (option (list Z))) | ReplyStatus (s : list Z) | ReplyWrongType | ReplyError (msg : list Z) | ReplyKeys (keys : gset (list Z)).
Definition not_integer : reply := ReplyError (text "value is not an integer or out of range").

(** ** State *)
(** [None] is a failed assertion. *)
Definition M (A : Type) : Type := server -> option (server * A).
#[export] Instance M_ret : MRet M := fun A a s => Some (s, a).
#[export] Instance M_bind : MBind M := fun A B f m s => match m s with Some (s, a) => f a s | None => None end.
Definition crash {A} : M A := fun _ => None.
Definition get_db (j : Z) : M redisDb := fun s => d ← dbs s !! Z.to_nat j; Some (s, d).
Definition with_dbs (s : server) (l : list redisDb) : server := mk_server l (selected s) (dirty s) (effects s) (slaveKeysWithExpire s) (stat_keyspace_hits s) (stat_keyspace_misses s) (stat_expiredkeys s).
Definition put_db (j : Z) (d : redisDb) : M unit := fun s => Some (with_dbs s (<[Z.to_nat j := d]> (dbs s)), tt).
Definition emit (x : effect) : M unit := fun s => Some (mk_server (dbs s) (selected s) (dirty s) (x :: effects s) (slaveKeysWithExpire s) (stat_keyspace_hits s) (stat_keyspace_misses s) (stat_expiredkeys s), tt).
Definition add_dirty (n : Z) : M unit := fun s => Some (mk_server (dbs s) (selected s) (dirty s + n) (effects s) (slaveKeysWithExpire s) (stat_keyspace_hits s) (stat_keyspace_misses s) (stat_expiredkeys s), tt).
Definition add_stats (hits misses expired : Z) : M unit := fun s => Some (mk_server (dbs s) (selected s) (dirty s) (effects s) (slaveKeysWithExpire s) (stat_keyspace_hits s + hits) (stat_keyspace_misses s + misses) (stat_expiredkeys s + expired), tt).
Definition set_slave_keys (m : gmap (list Z) Z) : M unit := fun s => Some (mk_server (dbs s) (selected s) (dirty s) (effects s) m (stat_keyspace_hits s) (stat_keyspace_misses s) (stat_expiredkeys s), tt).
Definition current_db (c : Z) : M Z := fun s => Some (s, default 0 (selected s !! c)).
Definition set_current_db (c j : Z) : M unit := fun s => Some (mk_server (dbs s) (<[c := j]> (selected s)) (dirty s) (effects s) (slaveKeysWithExpire s) (stat_keyspace_hits s) (stat_keyspace_misses s) (stat_expiredkeys s), tt).
Definition set_dict (d : redisDb) (m : gmap (list Z) robj) : redisDb := mk_db m (expires d) (blocking_keys d).
Definition set_expires (d : redisDb) (m : gmap (list Z) Z) : redisDb := mk_db (dict d) m (blocking_keys d).
Definition signalModifiedKey (j : Z) (key : list Z) : M unit := emit (Modified j key).
Definition notifyKeyspaceEvent (event key : list Z) (j : Z) : M unit := emit (Event event key j).

Section Keyspace.
  Context (e : env).

(** ** Expire times *)
Definition getExpire (j : Z) (key : list Z) : M Z :=
  d ← get_db j;
  match expires d !! key with
  | None => mret (-1)
  | Some t => match dict d !! key with Some _ => mret t | None => crash end
  end.
(** The time at which keys are checked. *)
Definition expire_now : Z := match lua_time_start e with Some t => t | None => match fixed_mstime e with Some t => t | None => mstime1 e end end.
Definition keyIsExpired (j : Z) (key : list Z) : M bool :=
  when ← getExpire j key;
  if when <? 0 then mret false else if loading e then mret false else mret (expire_now >? when).
Definition removeExpire (j : Z) (key : list Z) : M bool :=
  d ← get_db j;
  match dict d !! key with
  | None => crash
  | Some _ => put_db j (set_expires d (delete key (expires d))) ;; mret (bool_decide (is_Some (expires d !! key)))
  end.
Definition rememberSlaveKeyWithExpire (j : Z) (key : list Z) : M unit := fun s =>
  if j >? 63 then Some (s, tt)
  else
    let m := slaveKeysWithExpire s in
    set_slave_keys (<[key := Z.lor (default 0 (m !! key)) (Z.shiftl 1 j)]> m) s.
Definition setExpire (j : Z) (key : list Z) (when : Z) : M unit :=
  d ← get_db j;
  match dict d !! key with
  | None => crash
  | Some _ =>
      put_db j (set_expires d (<[key := when]> (expires d))) ;;
      if masterhost e && writable_slave e && negb (from_master e) then rememberSlaveKeyWithExpire j key else mret tt
  end.
Definition dbSyncDelete (j : Z) (key : list Z) : M bool :=
  d ← get_db j;
  put_db j (mk_db (delete key (dict d)) (delete key (expires d)) (blocking_keys d)) ;;
  mret (bool_decide (is_Some (dict d !! key))).
(** The entry is unlinked; the value is freed now or later. *)
Definition dbAsyncDelete (j : Z) (key : list Z) : M bool :=
  d ← get_db j;
  let d := set_expires d (delete key (expires d)) in
  match dict d !! key with
  | Some _ => put_db j (set_dict d (delete key (dict d))) ;; mret true
  | None => put_db j d ;; mret false
  end.
Definition delete_as (lazy : bool) (j : Z) (key : list Z) : M bool := if lazy then dbAsyncDelete j key else dbSyncDelete j key.
Definition dbDelete (j : Z) (key : list Z) : M bool := delete_as (lazyfree_lazy_server_del e) j key.
Definition propagateExpire (j : Z) (key : list Z) (lazy : bool) : M unit := emit (Propagated j [text (if lazy then "unlink" else "del"); key]).
Definition expireIfNeeded (j : Z) (key : list Z) : M bool :=
  expired ← keyIsExpired j key;
  if negb expired then mret false
  else if masterhost e then mret true
  else
    add_stats 0 0 1 ;;
    propagateExpire j key (lazyfree_lazy_expire e) ;;
    notifyKeyspaceEvent (text "expired") key j ;;
    retval ← delete_as (lazyfree_lazy_expire e) j key;
    (if (retval : bool) then signalModifiedKey j key else mret tt) ;;
    mret retval.
(** The key of an entry of the expire times. *)
Definition activeExpireCycleTryExpire (j : Z) (key : list Z) (now : Z) : M bool :=
  d ← get_db j;
  match expires d !! key with
  | None => mret false
  | Some t =>
      if now >? t then
        propagateExpire j key (lazyfree_lazy_expire e) ;;
        delete_as (lazyfree_lazy_expire e) j key ;;
        notifyKeyspaceEvent (text "expired") key j ;;
        emit (Invalidated key) ;;
        add_stats 0 0 1 ;;
        mret true
      else mret false
  end.
(** The entries that activeExpireCycle samples, in this order. *)
Fixpoint expire_samples (samples : list (Z * list Z)) (now : Z) : M unit :=
  match samples with
  | [] => mret tt
  | (j, key) :: samples => activeExpireCycleTryExpire j key now ;; expire_samples samples now
  end.

(** ** Looking up, adding and replacing keys *)
Definition lookupKey (j : Z) (key : list Z) (notouch : bool) : M (option robj) :=
  d ← get_db j;
  match dict d !! key with
  | Some val =>
      let val := if negb (active_child e) && negb notouch then mk_robj (o_val val) (access e (o_lru val)) else val in
      put_db j (set_dict d (<[key := val]> (dict d))) ;; mret (Some val)
  | None => mret None
  end.
Definition key_miss (j : Z) (key : list Z) : M (option robj) := add_stats 0 1 0 ;; notifyKeyspaceEvent (text "keymiss") key j ;; mret None.
Definition lookupKeyReadWithFlags (j : Z) (key : list Z) (notouch : bool) : M (option robj) :=
  expired ← expireIfNeeded j key;
  if expired && (negb (masterhost e) || readonly_command e) then key_miss j key
  else
    val ← lookupKey j key notouch;
    match val with None => key_miss j key | Some _ => add_stats 1 0 0 ;; mret val end.
Definition lookupKeyRead (j : Z) (key : list Z) : M (option robj) := lookupKeyReadWithFlags j key false.
Definition lookupKeyWriteWithFlags (j : Z) (key : list Z) (notouch : bool) : M (option robj) := expireIfNeeded j key ;; lookupKey j key notouch.
Definition lookupKeyWrite (j : Z) (key : list Z) : M (option robj) := lookupKeyWriteWithFlags j key false.
Definition blocking_type (v : value) : bool := match v with VOther (OBJ_LIST | OBJ_ZSET | OBJ_STREAM) _ => true | _ => false end.
Definition dbAdd (j : Z) (key : list Z) (val : robj) : M unit :=
  d ← get_db j;
  match dict d !! key with
  | Some _ => crash
  | None =>
      put_db j (set_dict d (<[key := val]> (dict d))) ;;
      if blocking_type (o_val val) then emit (Ready j key) else mret tt
  end.
Definition dbOverwrite (j : Z) (key : list Z) (val : robj) : M unit :=
  d ← get_db j;
  match dict d !! key with
  | None => crash
  | Some old => put_db j (set_dict d (<[key := if policy_lfu e then mk_robj (o_val val) (o_lru old) else val]> (dict d)))
  end.
Definition genericSetKey (j : Z) (key : list Z) (val : robj) (keepttl signal : bool) : M unit :=
  o ← lookupKeyWrite j key;
  match o with None => dbAdd j key val | Some _ => dbOverwrite j key val end ;;
  (if keepttl then mret tt else removeExpire j key ;; mret tt) ;;
  if signal then signalModifiedKey j key else mret tt.
Definition setKey (j : Z) (key : list Z) (val : robj) : M unit := genericSetKey j key val false true.

(** ** Commands on keys *)
(** A signed operation that overflows is undefined. *)
Definition checked (z : Z) : M Z := if (LLONG_MIN <=? z) && (z <=? LLONG_MAX) then mret z else crash.
Fixpoint del_loop (lazy : bool) (j : Z) (keys : list (list Z)) (numdel : Z) : M Z :=
  match keys with
  | [] => mret numdel
  | key :: keys =>
      expireIfNeeded j key ;;
      deleted ← delete_as lazy j key;
      if (deleted : bool) then
        signalModifiedKey j key ;; notifyKeyspaceEvent (text "del") key j ;; add_dirty 1 ;; del_loop lazy j keys (numdel + 1)
      else del_loop lazy j keys numdel
  end.
Definition delGenericCommand (c : Z) (keys : list (list Z)) (lazy : bool) : M reply :=
  j ← current_db c; n ← del_loop lazy j keys 0; mret (ReplyInt n).
Definition delCommand (c : Z) (keys : list (list Z)) : M reply := delGenericCommand c keys (lazyfree_lazy_user_del e).
Definition unlinkCommand (c : Z) (keys : list (list Z)) : M reply := delGenericCommand c keys true.
Fixpoint exists_loop (j : Z) (keys : list (list Z)) (count : Z) : M Z :=
  match keys with
  | [] => mret count
  | key :: keys => o ← lookupKeyRead j key; exists_loop j keys (match o with Some _ => count + 1 | None => count end)
  end.
Definition existsCommand (c : Z) (keys : list (list Z)) : M reply := j ← current_db c; n ← exists_loop j keys 0; mret (ReplyInt n).
Definition touchCommand (c : Z) (keys : list (list Z)) : M reply := j ← current_db c; n ← exists_loop j keys 0; mret (ReplyInt n).
Definition key_match (pattern : list Z) (allkeys : bool) (key : list Z) : M bool :=
  if allkeys then mret true else fun s => b ← stringmatchlen pattern key false; Some (s, b).
Fixpoint keys_loop (j : Z) (pattern : list Z) (allkeys : bool) (keys : list (list Z)) (found : gset (list Z)) : M (gset (list Z)) :=
  match keys with
  | [] => mret found
  | key :: keys =>
      m ← key_match pattern allkeys key;
      if (m : bool) then
        expired ← keyIsExpired j key;
        keys_loop j pattern allkeys keys (if (expired : bool) then found else {[ key ]} ∪ found)
      else keys_loop j pattern allkeys keys found
  end.
(** The keys are in the order of the hash table, which is not modelled. *)
Definition keysCommand (c : Z) (pattern : list Z) : M reply :=
  j ← current_db c; d ← get_db j;
  keys ← keys_loop j pattern (bool_decide (pattern = [42])) (map_to_list (dict d)).*1 ∅; mret (ReplyKeys keys).
Definition getObjectTypeName (v : option value) : list Z :=
  match v with
  | None => text "none"
  | Some (VStr _) => text "string"
  | Some (VOther OBJ_LIST _) => text "list"
  | Some (VOther OBJ_SET _) => text "set"
  | Some (VOther OBJ_ZSET _) => text "zset"
  | Some (VOther OBJ_HASH _) => text "hash"
  | Some (VOther OBJ_STREAM _) => text "stream"
  | Some (VOther (OBJ_MODULE name) _) => name
  end.
Definition typeCommand (c : Z) (key : list Z) : M reply :=
  j ← current_db c; o ← lookupKeyReadWithFlags j key true; mret (ReplyStatus (getObjectTypeName (o_val <$> o))).
Definition renameGenericCommand (c : Z) (src dst : list Z) (nx : bool) : M reply :=
  j ← current_db c;
  let samekey := bool_decide (src = dst) in
  o ← lookupKeyWrite j src;
  match o with
  | None => mret (ReplyError (text "no such key"))
  | Some o =>
      if samekey then mret (if nx then ReplyInt 0 else ReplyOk)
      else
        expire ← getExpire j src;
        old ← lookupKeyWrite j dst;
        match old, nx with
        | Some _, true => mret (ReplyInt 0)
        | _, _ =>
            match old with Some _ => dbDelete j dst ;; mret tt | None => mret tt end ;;
            dbAdd j dst o ;;
            (if expire =? -1 then mret tt else setExpire j dst expire) ;;
            dbDelete j src ;;
            signalModifiedKey j src ;;
            signalModifiedKey j dst ;;
            notifyKeyspaceEvent (text "rename_from") src j ;;
            notifyKeyspaceEvent (text "rename_to") dst j ;;
            add_dirty 1 ;;
            mret (if nx then ReplyInt 1 else ReplyOk)
        end
  end.
(** [false] is C_ERR; the index is an int. *)
Definition selectDb (c id : Z) : M bool := fun s =>
  if (id <? 0) || (id >=? zlen (dbs s)) then Some (s, false) else (set_current_db c id ;; mret true) s.
Definition selectCommand (c : Z) (arg : list Z) : M reply :=
  match string2ll arg with
  | None => mret (ReplyError (text "invalid DB index"))
  | Some id => ok ← selectDb c (s32 id); mret (if (ok : bool) then ReplyOk else ReplyError (text "DB index is out of range"))
  end.
Definition out_of_range : reply := ReplyError (text "index out of range").
Definition moveCommand (c : Z) (key arg : list Z) : M reply :=
  src ← current_db c;
  match string2ll arg with
  | None => mret out_of_range
  | Some dbid =>
      if (dbid <? -2147483648) || (dbid >? 2147483647) then mret out_of_range
      else
        ok ← selectDb c dbid;
        if negb ok then mret out_of_range
        else
          dst ← current_db c;
          selectDb c src ;;
          if src =? dst then mret (ReplyError (text "source and destination objects are the same"))
          else
            o ← lookupKeyWrite src key;
            match o with
            | None => mret (ReplyInt 0)
            | Some o =>
                expire ← getExpire src key;
                old ← lookupKeyWrite dst key;
                match old with
                | Some _ => mret (ReplyInt 0)
                | None =>
                    dbAdd dst key o ;;
                    (if expire =? -1 then mret tt else setExpire dst key expire) ;;
                    dbDelete src key ;;
                    signalModifiedKey src key ;;
                    signalModifiedKey dst key ;;
                    notifyKeyspaceEvent (text "move_from") key src ;;
                    notifyKeyspaceEvent (text "move_to") key dst ;;
                    add_dirty 1 ;;
                    mret (ReplyInt 1)
                end
            end
  end.
(** One database, or all if [dbnum] is -1; -1 if there is no such database. *)
Definition emptyDb (dbnum : Z) : M Z := fun s =>
  if (dbnum <? -1) || (dbnum >=? zlen (dbs s)) then Some (s, -1)
  else
    (emit (FlushedDb dbnum) ;;
     (fun s =>
        let chosen j := (dbnum =? -1) || (Z.of_nat j =? dbnum) in
        let removed := foldr Z.add 0 (imap (fun j d => if chosen j then Z.of_nat (size (dict d)) else 0) (dbs s)) in
        Some (with_dbs s (imap (fun j d => if chosen j then mk_db ∅ ∅ (blocking_keys d) else d) (dbs s)), removed)) ≫= fun removed =>
     (if dbnum =? -1 then set_slave_keys ∅ else mret tt) ;; mret removed) s.
(** Whether the deletion is done in the background. *)
Definition getFlushCommandFlags (args : list (list Z)) : option bool :=
  match args with
  | [] => Some false
  | [a] => if strcasecmp_eq (cstr a) (text "async") then Some true else None
  | _ => None
  end.
Definition syntax_error : reply := ReplyError (text "syntax error").
Definition flushdbCommand (c : Z) (args : list (list Z)) : M reply :=
  match getFlushCommandFlags args with
  | None => mret syntax_error
  | Some _ => j ← current_db c; n ← emptyDb j; add_dirty n ;; mret ReplyOk
  end.
(** The background save that this starts again restores [dirty]. *)
Definition flushallCommand (args : list (list Z)) : M reply :=
  match getFlushCommandFlags args with
  | None => mret syntax_error
  | Some _ => n ← emptyDb (-1); add_dirty n ;; add_dirty 1 ;; mret ReplyOk
  end.
Fixpoint ready_lists (j : Z) (keys : list (list Z)) : M unit :=
  match keys with
  | [] => mret tt
  | key :: keys =>
      v ← lookupKey j key true;
      match v with Some o => if blocking_type (o_val o) then emit (Ready j key) else mret tt | None => mret tt end ;;
      ready_lists j keys
  end.
Definition scanDatabaseForReadyLists (j : Z) : M unit := d ← get_db j; ready_lists j (blocking_keys d).
Definition dbSwapDatabases (id1 id2 : Z) : M bool := fun s =>
  if (id1 <? 0) || (id1 >=? zlen (dbs s)) || (id2 <? 0) || (id2 >=? zlen (dbs s)) then Some (s, false)
  else if id1 =? id2 then Some (s, true)
  else
    (d1 ← get_db id1; d2 ← get_db id2;
     put_db id1 (mk_db (dict d2) (expires d2) (blocking_keys d1)) ;;
     put_db id2 (mk_db (dict d1) (expires d1) (blocking_keys d2)) ;;
     scanDatabaseForReadyLists id1 ;; scanDatabaseForReadyLists id2 ;; mret true) s.
Definition swapdbCommand (a1 a2 : list Z) : M reply :=
  match string2ll a1 with
  | None => mret (ReplyError (text "invalid first DB index"))
  | Some id1 =>
      match string2ll a2 with
      | None => mret (ReplyError (text "invalid second DB index"))
      | Some id2 =>
          ok ← dbSwapDatabases id1 id2;
          if (ok : bool) then add_dirty 1 ;; mret ReplyOk else mret (ReplyError (text "DB index is out of range"))
      end
  end.

(** ** Commands on expire times *)
Definition expireGenericCommand (c : Z) (key param : list Z) (basetime : Z) (seconds : bool) : M reply :=
  j ← current_db c;
  match string2ll param with
  | None => mret not_integer
  | Some when =>
      when ← (if seconds then checked (when * 1000) else mret when);
      when ← checked (when + basetime);
      o ← lookupKeyWrite j key;
      match o with
      | None => mret (ReplyInt 0)
      | Some _ =>
          if (when <=? mstime1 e) && negb (loading e) && negb (masterhost e) then
            deleted ← delete_as (lazyfree_lazy_expire e) j key;
            if negb deleted then crash
            else
              add_dirty 1 ;;
              emit (Rewritten [text (if lazyfree_lazy_expire e then "unlink" else "del"); key]) ;;
              signalModifiedKey j key ;;
              notifyKeyspaceEvent (text "del") key j ;;
              mret (ReplyInt 1)
          else
            setExpire j key when ;;
            signalModifiedKey j key ;;
            notifyKeyspaceEvent (text "expire") key j ;;
            add_dirty 1 ;;
            mret (ReplyInt 1)
      end
  end.
Definition expireCommand (c : Z) (key param : list Z) : M reply := expireGenericCommand c key param (mstime0 e) true.
Definition expireatCommand (c : Z) (key param : list Z) : M reply := expireGenericCommand c key param 0 true.
Definition pexpireCommand (c : Z) (key param : list Z) : M reply := expireGenericCommand c key param (mstime0 e) false.
Definition pexpireatCommand (c : Z) (key param : list Z) : M reply := expireGenericCommand c key param 0 false.
Definition ttlGenericCommand (c : Z) (key : list Z) (output_ms : bool) : M reply :=
  j ← current_db c;
  o ← lookupKeyReadWithFlags j key true;
  match o with
  | None => mret (ReplyInt (-2))
  | Some _ =>
      expire ← getExpire j key;
      if expire =? -1 then mret (ReplyInt (-1))
      else
        ttl ← checked (expire - mstime1 e);
        let ttl := if ttl <? 0 then 0 else ttl in
        if output_ms then mret (ReplyInt ttl) else t ← checked (ttl + 500); mret (ReplyInt (t ÷ 1000))
  end.
Definition ttlCommand (c : Z) (key : list Z) : M reply := ttlGenericCommand c key false.
Definition pttlCommand (c : Z) (key : list Z) : M reply := ttlGenericCommand c key true.
Definition persistCommand (c : Z) (key : list Z) : M reply :=
  j ← current_db c;
  o ← lookupKeyWrite j key;
  match o with
  | None => mret (ReplyInt 0)
  | Some _ =>
      removed ← removeExpire j key;
      if (removed : bool) then notifyKeyspaceEvent (text "persist") key j ;; add_dirty 1 ;; mret (ReplyInt 1) else mret (ReplyInt 0)
  end.
End Keyspace.

(** ** Specification

    A database is a map from keys to values and the times until which they are
    valid; [a_signals] are the keys and databases signalled as modified. *)
Inductive avalue := AStr (s : list Z) | AOther (ty : other_type) (contents : Z).
Abbreviation amap := (gmap (list Z) (avalue * option Z)).
Record abs := mk_abs { a_dbs : list amap; a_sel : gmap Z Z; a_signals : list effect }.
Definition a_value (v : value) : avalue := match v with VStr o => AStr (obj_bytes o) | VOther ty c => AOther ty c end.
Definition valid (n : Z) (t : option Z) : bool := match t with Some t => n <=? t | None => true end.
(** Time passes: the keys whose time is before [n] are gone. *)
Definition tick_db (n : Z) (a : amap) : amap := filter (fun x => valid n x.2.2 = true) a.
Definition tick (n : Z) (A : abs) : abs := mk_abs (tick_db n <$> a_dbs A) (a_sel A) (a_signals A).
Definition a_db (A : abs) (c : Z) : Z := default 0 (a_sel A !! c).
Definition a_get (A : abs) (j : Z) (k : list Z) : option (avalue * option Z) := a ← a_dbs A !! Z.to_nat j; a !! k.
Definition a_put (A : abs) (j : Z) (k : list Z) (x : option (avalue * option Z)) : abs :=
  mk_abs (alter (partial_alter (fun _ => x) k) (Z.to_nat j) (a_dbs A)) (a_sel A) (a_signals A).
Definition a_signal (A : abs) (x : effect) : abs := mk_abs (a_dbs A) (a_sel A) (x :: a_signals A).
Definition a_select (A : abs) (c j : Z) : abs := mk_abs (a_dbs A) (<[c := j]> (a_sel A)) (a_signals A).

(** ** The keyspace implements the specification *)
Definition val_ok (v : value) : Prop := match v with VStr (StrInt v) => in_s 64 v | VStr (StrSds _ bs) => zlen bs <= 536870912 | VOther _ _ => True end.
Record db_ok (d : redisDb) : Prop := {
  expires_in k t : expires d !! k = Some t -> is_Some (dict d !! k) /\ 0 <= t <= LLONG_MAX;
  values_ok k o : dict d !! k = Some o -> val_ok (o_val o)
}.
Definition view (n : Z) (d : redisDb) : amap := map_imap (fun k o => if valid n (expires d !! k) then Some (a_value (o_val o), expires d !! k) else None) (dict d).
(** The key is not in memory after its time. *)
Definition clean_key (n : Z) (d : redisDb) (k : list Z) : Prop := dict d !! k = None \/ valid n (expires d !! k) = true.
Definition represents (n : Z) (d : redisDb) (a : amap) : Prop := db_ok d /\ view n d = a.
(** [K] are keys known to be clean. *)
Record sim (n : Z) (s : server) (A : abs) (K : list (Z * list Z)) : Prop := {
  sim_dbs : Forall2 (represents n) (dbs s) (a_dbs A);
  sim_sel : selected s = a_sel A;
  sim_range c j : a_sel A !! c = Some j -> 0 <= j < zlen (a_dbs A);
  sim_one : 0 < zlen (a_dbs A) < 2147483648;
  sim_signals x : x ∈ a_signals A -> x ∈ effects s;
  sim_clean j k d : (j, k) ∈ K -> dbs s !! Z.to_nat j = Some d -> clean_key n d k
}.
Definition wp {A} (m : M A) (s : server) (Q : server -> A -> Prop) : Prop := match m s with Some (s, a) => Q s a | None => False end.
Lemma wp_bind {A B} (m : M A) (f : A -> M B) s Q : wp m s (fun s a => wp (f a) s Q) -> wp (m ≫= f) s Q.
Proof. unfold wp, mbind, M_bind. by destruct (m s) as [[s' a]|]. Qed.
Lemma wp_ret {A} (a : A) s (Q : server -> A -> Prop) : Q s a -> wp (mret a) s Q.
Proof. done. Qed.
Lemma wp_mono {A} (m : M A) s (Q R : server -> A -> Prop) : wp m s Q -> (forall s a, Q s a -> R s a) -> wp m s R.
Proof. unfold wp. destruct (m s) as [[s' a]|]; [|done]. intros HQ HR. by apply HR. Qed.
Lemma wp_some {A} (m : M A) s (Q : server -> A -> Prop) : wp m s Q -> exists s' a, m s = Some (s', a) /\ Q s' a.
Proof. unfold wp. destruct (m s) as [[s' a]|]; [|done]. eauto. Qed.

(** *** One database *)
Lemma view_lookup n d k : view n d !! k = match dict d !! k with Some o => if valid n (expires d !! k) then Some (a_value (o_val o), expires d !! k) else None | None => None end.
Proof. unfold view. rewrite map_lookup_imap. by destruct (dict d !! k). Qed.
Lemma view_some n d k v t : view n d !! k = Some (v, t) -> exists o, dict d !! k = Some o /\ a_value (o_val o) = v /\ expires d !! k = t /\ valid n t = true.
Proof. rewrite view_lookup. destruct (dict d !! k) as [o|]; [|done]. destruct (valid n (expires d !! k)) eqn:E; [|done]. intros [= <- <-]. eauto. Qed.
Lemma view_none n d k : db_ok d -> clean_key n d k -> view n d !! k = None -> dict d !! k = None /\ expires d !! k = None.
Proof.
  intros Ho [Hd|Hv] Hn.
  - split; [done|]. destruct (expires d !! k) as [t|] eqn:E; [|done]. destruct (expires_in d Ho k t E) as [[o Hx] _]. congruence.
  - rewrite view_lookup, Hv in Hn. destruct (dict d !! k) eqn:E; [done|]. split; [done|]. destruct (expires d !! k) as [t|] eqn:E2; [|done]. destruct (expires_in d Ho k t E2) as [[o Hx] _]. congruence.
Qed.
(** A new value and a new time of one key. *)
Definition upd (d : redisDb) (k : list Z) (x : option (robj * option Z)) : redisDb :=
  mk_db (partial_alter (fun _ => fst <$> x) k (dict d)) (partial_alter (fun _ => x ≫= snd) k (expires d)) (blocking_keys d).
Definition entry_ok (n : Z) (x : option (robj * option Z)) : Prop := match x with Some (o, t) => val_ok (o_val o) /\ valid n t = true /\ (forall t', t = Some t' -> 0 <= t' <= LLONG_MAX) | None => True end.
Definition a_entry (x : robj * option Z) : avalue * option Z := (a_value (o_val x.1), x.2).
Lemma upd_view n d k x : entry_ok n x -> view n (upd d k x) = partial_alter (fun _ => a_entry <$> x) k (view n d).
Proof.
  intros Hx. apply map_eq. intros i. rewrite view_lookup. cbn [upd dict expires]. destruct (decide (i = k)) as [->|Hne].
  - rewrite !lookup_partial_alter_eq. destruct x as [[o t]|]; [|done]. cbn. destruct Hx as (_ & Hv & _). by rewrite Hv.
  - rewrite !lookup_partial_alter_ne by done. by rewrite view_lookup.
Qed.
Lemma upd_ok n d k x : db_ok d -> entry_ok n x -> db_ok (upd d k x).
Proof.
  intros [H1 H2] Hx. split; cbn [upd dict expires]; intros i y.
  - destruct (decide (i = k)) as [->|Hne]; [|rewrite !lookup_partial_alter_ne by done; apply H1]. rewrite !lookup_partial_alter_eq. destruct x as [[o t]|]; [|done]. cbn. intros ->. split; [by eexists|]. by apply Hx.
  - destruct (decide (i = k)) as [->|Hne]; [|rewrite !lookup_partial_alter_ne by done; apply H2]. rewrite !lookup_partial_alter_eq. destruct x as [[o t]|]; [|done]. cbn. intros [= <-]. apply Hx.
Qed.
Lemma upd_clean n d k x i : entry_ok n x -> i = k \/ clean_key n d i -> clean_key n (upd d k x) i.
Proof.
  intros Hx Hi. unfold clean_key. cbn [upd dict expires]. destruct (decide (i = k)) as [->|Hne].
  - rewrite !lookup_partial_alter_eq. destruct x as [[o t]|]; [|by left]. right. apply Hx.
  - rewrite !lookup_partial_alter_ne by done. by destruct Hi.
Qed.
Lemma alter_same {V} (m : gmap (list Z) V) k x : m !! k = x -> partial_alter (fun _ => x) k m = m.
Proof. intros <-. apply partial_alter_self. Qed.
(** *** The server *)
Lemma sim_at n s A K j : sim n s A K -> 0 <= j < zlen (a_dbs A) -> exists d a, dbs s !! Z.to_nat j = Some d /\ a_dbs A !! Z.to_nat j = Some a /\ db_ok d /\ view n d = a.
Proof.
  intros Hs Hj. destruct (lookup_lt_is_Some_2 (a_dbs A) (Z.to_nat j)) as [a Ha]; [unfold zlen in Hj; lia|]. destruct (Forall2_lookup_r _ _ _ _ _ (sim_dbs _ _ _ _ Hs) Ha) as (d & Hd & Ho & Hv). by exists d, a.
Qed.
Lemma a_get_at A j k a : a_dbs A !! Z.to_nat j = Some a -> a_get A j k = a !! k.
Proof. unfold a_get. by intros ->. Qed.
(** What does not change the databases. *)
Lemma sim_frame n s s' A K : sim n s A K -> dbs s' = dbs s -> selected s' = selected s -> (forall x, x ∈ effects s -> x ∈ effects s') -> sim n s' A K.
Proof. intros [S1 S2 S3 S4 S5 S6] E1 E2 E3. split; rewrite ?E1, ?E2; try done. intros x Hx. by apply E3, S5. Qed.
Lemma sim_weaken n s A K K' : sim n s A K -> K' ⊆ K -> sim n s A K'.
Proof. intros [S1 S2 S3 S4 S5 S6] HK. split; try done. intros j k d Hk. apply S6. by apply HK. Qed.
Lemma sim_emit n s A K x : sim n s A K -> wp (emit x) s (fun s' _ => sim n s' A K).
Proof. intros Hs. eapply sim_frame; [done|done|done|]. intros y Hy. by right. Qed.
Lemma sim_signal n s A K x : sim n s A K -> wp (emit x) s (fun s' _ => sim n s' (a_signal A x) K).
Proof. intros [S1 S2 S3 S4 S5 S6]. split; try done. cbn [a_signal a_signals emit effects]. intros y [->|Hy]%elem_of_cons; [by left|right; by apply S5]. Qed.
Lemma sim_dirty n s A K z : sim n s A K -> wp (add_dirty z) s (fun s' _ => sim n s' A K).
Proof. intros Hs. by eapply sim_frame. Qed.
Lemma sim_stats n s A K x y z : sim n s A K -> wp (add_stats x y z) s (fun s' _ => sim n s' A K).
Proof. intros Hs. by eapply sim_frame. Qed.
Lemma sim_current n s A K c : sim n s A K -> wp (current_db c) s (fun s' j => s' = s /\ j = a_db A c /\ 0 <= j < zlen (a_dbs A)).
Proof.
  intros Hs. cbn. split; [done|]. rewrite (sim_sel _ _ _ _ Hs). split; [done|]. unfold a_db. destruct (a_sel A !! c) as [j|] eqn:E; cbn; [by apply (sim_range _ _ _ _ Hs c)|]. pose proof (sim_one _ _ _ _ Hs). lia.
Qed.
Lemma sim_get n s A K j : sim n s A K -> 0 <= j < zlen (a_dbs A) -> wp (get_db j) s (fun s' d => s' = s /\ dbs s !! Z.to_nat j = Some d /\ a_dbs A !! Z.to_nat j = Some (view n d) /\ db_ok d).
Proof. intros Hs Hj. destruct (sim_at n s A K j Hs Hj) as (d & a & Hd & Ha & Ho & <-). unfold wp, get_db. rewrite Hd. cbn. done. Qed.
Lemma put_range A j k x : zlen (a_dbs (a_put A j k x)) = zlen (a_dbs A).
Proof. unfold zlen. cbn [a_put a_dbs]. by rewrite length_alter. Qed.
Lemma put_twice A j k x y : a_put (a_put A j k x) j k y = a_put A j k y.
Proof.
  unfold a_put. cbn. f_equal. apply list_eq. intros i. destruct (decide (i = Z.to_nat j)) as [->|Hne]; [|by rewrite !list_lookup_alter_ne].
  rewrite !list_lookup_alter_eq. destruct (a_dbs A !! Z.to_nat j); [|done]. cbn. f_equal. apply map_eq. intros i. destruct (decide (i = k)) as [->|Hne]; [by rewrite !lookup_partial_alter_eq|by rewrite !lookup_partial_alter_ne].
Qed.
Lemma get_put A j k x : 0 <= j < zlen (a_dbs A) -> a_get (a_put A j k x) j k = x.
Proof. intros Hj. unfold a_get, a_put. cbn [a_dbs]. rewrite list_lookup_alter_eq. destruct (lookup_lt_is_Some_2 (a_dbs A) (Z.to_nat j)) as [a ->]; [unfold zlen in Hj; lia|]. cbn. apply lookup_partial_alter_eq. Qed.
Lemma a_get_put_ne A j k x j' k' : 0 <= j -> 0 <= j' -> (j, k) <> (j', k') -> a_get (a_put A j k x) j' k' = a_get A j' k'.
Proof.
  intros Hj Hj' Hne. unfold a_get, a_put. cbn [a_dbs]. destruct (decide (j = j')) as [<-|Hjj].
  - rewrite list_lookup_alter_eq. destruct (a_dbs A !! Z.to_nat j); [|done]. cbn. apply lookup_partial_alter_ne. congruence.
  - rewrite list_lookup_alter_ne by lia. done.
Qed.
Lemma a_put_same A j k : a_put A j k (a_get A j k) = A.
Proof.
  destruct A as [l sel sig]. unfold a_put, a_get. cbn. f_equal. apply list_eq. intros i. destruct (decide (i = Z.to_nat j)) as [->|Hne]; [|by rewrite list_lookup_alter_ne].
  rewrite list_lookup_alter_eq. destruct (l !! Z.to_nat j) as [a|] eqn:E; [|done]. cbn. f_equal. apply partial_alter_self.
Qed.
(** A database is written at one key. *)
Lemma sim_put n s A K j d k x d' : sim n s A K -> 0 <= j -> dbs s !! Z.to_nat j = Some d -> entry_ok n x -> d' = upd d k x ->
  wp (put_db j d') s (fun s' _ => sim n s' (a_put A j k (a_entry <$> x)) ((j, k) :: K) /\ dbs s' !! Z.to_nat j = Some d').
Proof.
  intros [S1 S2 S3 S4 S5 S6] Hj0 Hd Hx ->. destruct (Forall2_lookup_l _ _ _ _ _ S1 Hd) as (a & Ha & Ho & Hv). cbn. split; [|by rewrite list_lookup_insert_eq by (by eapply lookup_lt_Some)]. split; rewrite ?put_range; try done; cbn [a_put with_dbs dbs a_dbs a_sel].
  - assert (E : alter (partial_alter (fun _ => a_entry <$> x) k) (Z.to_nat j) (a_dbs A) = <[Z.to_nat j := partial_alter (fun _ => a_entry <$> x) k a]> (a_dbs A)).
    { apply list_eq. intros i. destruct (decide (i = Z.to_nat j)) as [->|Hne]; [|by rewrite list_lookup_alter_ne, list_lookup_insert_ne]. rewrite list_lookup_alter_eq, list_lookup_insert_eq by (by eapply lookup_lt_Some). by rewrite Ha. }
    rewrite E. apply Forall2_insert; [done|]. split; [by eapply upd_ok|]. rewrite upd_view by done. by rewrite Hv.
  - intros i k' d' Hk Hd'. destruct (decide (Z.to_nat i = Z.to_nat j)) as [E|Hne].
    + rewrite E, list_lookup_insert_eq in Hd' by (by eapply lookup_lt_Some). injection Hd' as <-. apply upd_clean; [done|]. apply elem_of_cons in Hk as [[= -> ->]|Hk]; [by left|]. right. apply (S6 i); [done|congruence].
    + rewrite list_lookup_insert_ne in Hd' by done. apply elem_of_cons in Hk as [[= -> ->]|Hk]; [done|]. by apply (S6 i).
Qed.
(** A step whose effect is stated by a lemma, and one that only computes. *)
Ltac wp_use lem := lazymatch goal with |- wp (mbind _ _) _ _ => apply wp_bind | _ => idtac end; eapply wp_mono; [eapply lem; try eassumption; try lia; try done|]; cbv beta; intros.
Ltac wp_do := apply wp_bind; first [apply wp_ret|idtac]; cbv beta.

Section Rules.
  Context (e : env) (n : Z).
  Hypothesis (Hnow : expire_now e = n) (Hload : loading e = false).

Definition found (A : abs) (j : Z) (k : list Z) (r : option robj) : Prop :=
  match r, a_get A j k with Some o, Some (v, _) => a_value (o_val o) = v /\ val_ok (o_val o) | None, None => True | _, _ => False end.

Lemma getExpire_sim s A K j k v t : sim n s A K -> 0 <= j < zlen (a_dbs A) -> a_get A j k = Some (v, t) -> wp (getExpire j k) s (fun s' r => s' = s /\ r = default (-1) t).
Proof.
  intros Hs Hj Hg. unfold getExpire. wp_use sim_get. destruct H as (-> & Hd & Ha & Ho). rewrite (a_get_at _ _ _ _ Ha) in Hg. apply view_some in Hg as (o & Hdo & _ & He & _). rewrite He. destruct t as [t|]; cbn; [by rewrite Hdo|done].
Qed.
Lemma keyIsExpired_sim s A K j k : sim n s A K -> 0 <= j < zlen (a_dbs A) ->
  wp (keyIsExpired e j k) s (fun s' b => s' = s /\ exists d, dbs s !! Z.to_nat j = Some d /\ b = negb (valid n (expires d !! k))).
Proof.
  intros Hs Hj. unfold keyIsExpired, getExpire. apply wp_bind. wp_use sim_get. destruct H as (-> & Hd & Ha & Ho). destruct (expires a !! k) as [t|] eqn:E.
  - destruct (expires_in a Ho k t E) as [[o Hdo] Ht]. rewrite Hdo. apply wp_ret. rewrite (proj2 (Z.ltb_ge t 0)) by lia. rewrite Hload, Hnow. apply wp_ret. split; [done|]. exists a. split; [done|]. rewrite E. cbn [valid]. lia.
  - apply wp_ret. cbn. split; [done|]. exists a. by rewrite E.
Qed.
Lemma delete_sim lazy s A K j k : sim n s A K -> 0 <= j < zlen (a_dbs A) ->
  wp (delete_as lazy j k) s (fun s' r => sim n s' (a_put A j k None) ((j, k) :: K) /\ exists d, dbs s !! Z.to_nat j = Some d /\ r = bool_decide (is_Some (dict d !! k))).
Proof.
  intros Hs Hj. destruct lazy; cbn [delete_as].
  - unfold dbAsyncDelete. wp_use sim_get. destruct H as (-> & Hd & Ha & Ho). cbn [dict set_expires]. assert (Hu : forall m, m = delete k (dict a) -> mk_db m (delete k (expires a)) (blocking_keys a) = upd a k None) by (by intros m ->).
    destruct (dict a !! k) as [o|] eqn:E.
    + wp_use (sim_put n s A K j a k None). apply wp_ret. split; [apply H|]. exists a. by rewrite E.
    + wp_use (sim_put n s A K j a k None); [apply Hu; by rewrite delete_id|]. apply wp_ret. split; [apply H|]. exists a. by rewrite E.
  - unfold dbSyncDelete. wp_use sim_get. destruct H as (-> & Hd & Ha & Ho). wp_use (sim_put n s A K j a k None). apply wp_ret. split; [apply H|]. by exists a.
Qed.
Lemma delete_clean lazy s A K j k : sim n s A K -> 0 <= j < zlen (a_dbs A) -> (j, k) ∈ K ->
  wp (delete_as lazy j k) s (fun s' r => sim n s' (a_put A j k None) ((j, k) :: K) /\ r = bool_decide (is_Some (a_get A j k))).
Proof.
  intros Hs Hj Hk. wp_use delete_sim. destruct H as (Hs' & d & Hd & ->). split; [done|]. destruct (sim_at n s A K j Hs Hj) as (d0 & a & Hd0 & Ha & Ho & Hv). assert (d0 = d) as -> by congruence. rewrite (a_get_at _ _ _ _ Ha), <- Hv, view_lookup. pose proof (sim_clean _ _ _ _ Hs j k d Hk Hd) as [-> | ->]; [done|]. by destruct (dict d !! k).
Qed.
Lemma expire_sim s A K j k : sim n s A K -> 0 <= j < zlen (a_dbs A) ->
  wp (expireIfNeeded e j k) s (fun s' r => sim n s' A K /\ (masterhost e = false \/ r = false -> sim n s' A ((j, k) :: K)) /\ (r = true -> a_get A j k = None)).
Proof.
  intros Hs Hj. unfold expireIfNeeded. wp_use keyIsExpired_sim. destruct H as (-> & d & Hd & ->). destruct (sim_at n s A K j Hs Hj) as (d0 & m & Hd0 & Ha & Ho & Hv). assert (d0 = d) as -> by congruence. destruct (valid n (expires d !! k)) eqn:E; cbn [negb].
  - apply wp_ret. split; [done|]. split; [|done]. intros _. destruct Hs as [S1 S2 S3 S4 S5 S6]. split; try done. intros i k' d' [[= -> ->]|Hk]%elem_of_cons Hd'; [|by apply (S6 i)]. right. congruence.
  - assert (Hn : a_get A j k = None) by (rewrite (a_get_at _ _ _ _ Ha), <- Hv, view_lookup, E; by destruct (dict d !! k)).
    destruct (masterhost e) eqn:Em; [apply wp_ret; split; [done|]; split; [by intros []|done]|].
    wp_use sim_stats. wp_use sim_emit. wp_use sim_emit. wp_use delete_sim. destruct H2 as (Hs' & _). rewrite <- Hn, a_put_same in Hs'.
    assert (Hfin : forall s', sim n s' A ((j, k) :: K) -> wp (mret a2 : M bool) s' (fun s' r => sim n s' A K /\ (false = false \/ r = false -> sim n s' A ((j, k) :: K)) /\ (r = true -> a_get A j k = None))) by (intros s' Hx; apply wp_ret; split; [eapply sim_weaken; [done|set_solver]|done]).
    destruct a2; [wp_use sim_emit; by apply Hfin|wp_do; by apply Hfin].
Qed.
Lemma lookupKey_sim s A K j k nt : sim n s A K -> 0 <= j < zlen (a_dbs A) -> (j, k) ∈ K -> wp (lookupKey e j k nt) s (fun s' r => sim n s' A K /\ found A j k r).
Proof.
  intros Hs Hj Hk. unfold lookupKey. wp_use sim_get. destruct H as (-> & Hd & Ha & Ho). unfold found. pose proof (sim_clean _ _ _ _ Hs j k a Hk Hd) as Hc. rewrite (a_get_at _ _ _ _ Ha), view_lookup. destruct (dict a !! k) as [o|] eqn:E; [|by apply wp_ret]. destruct Hc as [|Hc]; [congruence|]. rewrite Hc.
  set (o' := if negb (active_child e) && negb nt then mk_robj (o_val o) (access e (o_lru o)) else o). assert (Eo : o_val o' = o_val o) by (unfold o'; by destruct (_ && _)). assert (Hvo : val_ok (o_val o)) by (by apply (values_ok _ Ho k)).
  wp_use (sim_put n s A K j a k (Some (o', expires a !! k))); [ |unfold upd, set_dict; cbn; f_equal; symmetry; apply partial_alter_self|].
  - cbn [entry_ok]. rewrite Eo. split; [done|]. split; [done|]. intros t Ht. by apply (expires_in a Ho k).
  - apply wp_ret. destruct H as [Hs' _]. cbn in Hs'. unfold a_entry in Hs'. cbn [fst snd] in Hs'. rewrite Eo in Hs'. assert (Eg : a_get A j k = Some (a_value (o_val o), expires a !! k)) by (by rewrite (a_get_at _ _ _ _ Ha), view_lookup, E, Hc). rewrite <- Eg, a_put_same in Hs'. rewrite Eo. split; [eapply sim_weaken; [done|set_solver]|done].
Qed.
Lemma write_sim s A K j k : sim n s A K -> 0 <= j < zlen (a_dbs A) -> masterhost e = false -> wp (lookupKeyWrite e j k) s (fun s' r => sim n s' A ((j, k) :: K) /\ found A j k r).
Proof.
  intros Hs Hj Hm. unfold lookupKeyWrite, lookupKeyWriteWithFlags. wp_use expire_sim. destruct H as (_ & H & _). apply lookupKey_sim; [apply H; by left|done|set_solver].
Qed.
Lemma read_sim s A K j k nt : sim n s A K -> 0 <= j < zlen (a_dbs A) -> masterhost e = false \/ readonly_command e = true -> wp (lookupKeyReadWithFlags e j k nt) s (fun s' r => sim n s' A K /\ found A j k r).
Proof.
  intros Hs Hj Hm. assert (Hmiss : forall s', sim n s' A K -> a_get A j k = None -> wp (key_miss j k) s' (fun s' r => sim n s' A K /\ found A j k r)).
  { intros s' Hx Hn. unfold key_miss. wp_use sim_stats. wp_use sim_emit. apply wp_ret. split; [done|]. unfold found. by rewrite Hn. }
  unfold lookupKeyReadWithFlags. wp_use expire_sim. destruct H as (H1 & H2 & H3). destruct a; cbn [andb].
  - assert (negb (masterhost e) || readonly_command e = true) as -> by (destruct Hm as [->| ->]; [done|apply orb_true_r]). by apply Hmiss; [|apply H3].
  - specialize (H2 (or_intror eq_refl)). apply wp_bind. eapply wp_mono; [apply (lookupKey_sim _ _ _ _ _ _ H2 Hj); set_solver|]. cbv beta. intros s'' r [Hs'' Hf]. assert (Hw : sim n s'' A K) by (eapply sim_weaken; [done|set_solver]). destruct r as [o|].
    + wp_use sim_stats. by apply wp_ret.
    + apply Hmiss; [done|]. unfold found in Hf. by destruct (a_get A j k) as [[??]|].
Qed.

Lemma dbAdd_sim s A K j k val : sim n s A K -> 0 <= j < zlen (a_dbs A) -> (j, k) ∈ K -> a_get A j k = None -> val_ok (o_val val) ->
  wp (dbAdd j k val) s (fun s' _ => sim n s' (a_put A j k (Some (a_value (o_val val), None))) ((j, k) :: K)).
Proof.
  intros Hs Hj Hk Hn Hv. unfold dbAdd. wp_use sim_get. destruct H as (-> & Hd & Ha & Ho). rewrite (a_get_at _ _ _ _ Ha) in Hn. destruct (view_none n a k Ho (sim_clean _ _ _ _ Hs j k a Hk Hd) Hn) as [E1 E2]. rewrite E1.
  wp_use (sim_put n s A K j a k (Some (val, None))); [unfold upd, set_dict; cbn; f_equal; symmetry; by apply alter_same|]. destruct H as [H _]. destruct (blocking_type _); [by apply sim_emit|by apply wp_ret].
Qed.
Lemma valid_time m A j k v t : a_dbs A !! Z.to_nat j = Some (view n m) -> db_ok m -> a_get A j k = Some (v, t) -> exists o, dict m !! k = Some o /\ a_value (o_val o) = v /\ expires m !! k = t /\ valid n t = true /\ val_ok (o_val o) /\ forall t', t = Some t' -> 0 <= t' <= LLONG_MAX.
Proof.
  intros Ha Ho Hg. rewrite (a_get_at _ _ _ _ Ha) in Hg. apply view_some in Hg as (o & E1 & E2 & E3 & E4). exists o. split_and!; [done..|by apply (values_ok m Ho k)|]. intros t' ->. by apply (expires_in m Ho k).
Qed.
Lemma dbOverwrite_sim s A K j k val v t : sim n s A K -> 0 <= j < zlen (a_dbs A) -> a_get A j k = Some (v, t) -> val_ok (o_val val) ->
  wp (dbOverwrite e j k val) s (fun s' _ => sim n s' (a_put A j k (Some (a_value (o_val val), t))) ((j, k) :: K)).
Proof.
  intros Hs Hj Hg Hv. unfold dbOverwrite. wp_use sim_get. destruct H as (-> & Hd & Ha & Ho). destruct (valid_time a A j k v t Ha Ho Hg) as (o & E1 & E2 & E3 & E4 & E5 & E6). rewrite E1.
  set (val' := if policy_lfu e then mk_robj (o_val val) (o_lru o) else val). assert (Ev : o_val val' = o_val val) by (unfold val'; by destruct (policy_lfu e)).
  wp_use (sim_put n s A K j a k (Some (val', t))); [cbn [entry_ok]; split_and!; [by rewrite Ev|done|done]|unfold upd, set_dict; cbn; f_equal; symmetry; by apply alter_same|]. destruct H as [H _]. cbn in H. unfold a_entry in H. cbn [fst snd] in H. by rewrite Ev in H.
Qed.
Lemma removeExpire_sim s A K j k v t : sim n s A K -> 0 <= j < zlen (a_dbs A) -> a_get A j k = Some (v, t) ->
  wp (removeExpire j k) s (fun s' r => sim n s' (a_put A j k (Some (v, None))) ((j, k) :: K) /\ r = bool_decide (is_Some t)).
Proof.
  intros Hs Hj Hg. unfold removeExpire. wp_use sim_get. destruct H as (-> & Hd & Ha & Ho). destruct (valid_time a A j k v t Ha Ho Hg) as (o & E1 & E2 & E3 & E4 & E5 & E6). rewrite E1.
  wp_use (sim_put n s A K j a k (Some (o, None))); [unfold upd, set_expires; cbn; f_equal; symmetry; by apply alter_same|]. destruct H as [H _]. apply wp_ret. cbn in H. unfold a_entry in H. cbn [fst snd] in H. rewrite E2 in H. by rewrite E3.
Qed.
Lemma setExpire_sim s A K j k v t when : sim n s A K -> 0 <= j < zlen (a_dbs A) -> a_get A j k = Some (v, t) -> 0 <= when <= LLONG_MAX -> n <= when ->
  wp (setExpire e j k when) s (fun s' _ => sim n s' (a_put A j k (Some (v, Some when))) ((j, k) :: K)).
Proof.
  intros Hs Hj Hg Hw Hn. unfold setExpire. wp_use sim_get. destruct H as (-> & Hd & Ha & Ho). destruct (valid_time a A j k v t Ha Ho Hg) as (o & E1 & E2 & E3 & E4 & E5 & E6). rewrite E1.
  wp_use (sim_put n s A K j a k (Some (o, Some when))); [cbn [entry_ok]; split_and!; [done|cbn [valid]; lia|by intros t' [= <-]]|unfold upd, set_expires; cbn; f_equal; symmetry; by apply alter_same|]. destruct H as [H _]. cbn in H. unfold a_entry in H. cbn [fst snd] in H. rewrite E2 in H.
  destruct (_ && _); [|by apply wp_ret]. unfold rememberSlaveKeyWithExpire, wp. destruct (j >? 63); [done|]. cbn. by eapply sim_frame.
Qed.
Lemma found_some A j k o : found A j k (Some o) -> exists t, a_get A j k = Some (a_value (o_val o), t) /\ val_ok (o_val o).
Proof. unfold found. destruct (a_get A j k) as [[v t]|]; [|done]. intros [<- Hv]. eauto. Qed.
Lemma found_none A j k : found A j k None -> a_get A j k = None.
Proof. unfold found. by destruct (a_get A j k) as [[v t]|]. Qed.
Lemma setKey_sim s A K j k val keepttl signal : sim n s A K -> 0 <= j < zlen (a_dbs A) -> masterhost e = false -> val_ok (o_val val) ->
  wp (genericSetKey e j k val keepttl signal) s (fun s' _ => let A' := a_put A j k (Some (a_value (o_val val), if (keepttl : bool) then a_get A j k ≫= snd else None)) in sim n s' (if (signal : bool) then a_signal A' (Modified j k) else A') ((j, k) :: K)).
Proof.
  intros Hs Hj Hm Hv. unfold genericSetKey. wp_use write_sim. destruct H as [H Hf].
  assert (Hset : exists t, wp (match a with Some _ => dbOverwrite e j k val | None => dbAdd j k val end) s0 (fun s' _ => sim n s' (a_put A j k (Some (a_value (o_val val), t))) ((j, k) :: K)) /\ (a_get A j k ≫= snd) = t).
  { destruct a as [o|].
    - destruct (found_some _ _ _ _ Hf) as (t & Hg & _). exists t. rewrite Hg. split; [|done]. wp_use dbOverwrite_sim. eapply sim_weaken; [done|set_solver].
    - pose proof (found_none _ _ _ Hf) as Hg. exists None. rewrite Hg. split; [|done]. wp_use dbAdd_sim; [set_solver|]. eapply sim_weaken; [done|set_solver]. }
  destruct Hset as (t & Hset & ->). apply wp_bind. eapply wp_mono; [exact Hset|]. cbv beta. intros s1 u1 Hs1.
  assert (Hfin : forall s' t', sim n s' (a_put A j k (Some (a_value (o_val val), t'))) ((j, k) :: K) -> wp (if signal then signalModifiedKey j k else mret tt) s' (fun s' _ => sim n s' (if signal then a_signal (a_put A j k (Some (a_value (o_val val), t'))) (Modified j k) else a_put A j k (Some (a_value (o_val val), t'))) ((j, k) :: K))) by (intros s' t' Hx; destruct signal; [by apply sim_signal|by apply wp_ret]).
  destruct keepttl; [wp_do; by apply Hfin|]. apply wp_bind. wp_use removeExpire_sim; [by rewrite put_range|rewrite get_put by lia; done|]. destruct H0 as [H0 _]. rewrite put_twice in H0. apply wp_ret. apply Hfin. eapply sim_weaken; [done|set_solver].
Qed.
End Rules.
(** ** What the commands mean *)
Fixpoint spec_del (A : abs) (j : Z) (keys : list (list Z)) (numdel : Z) : abs * reply :=
  match keys with
  | [] => (A, ReplyInt numdel)
  | k :: keys => match a_get A j k with Some _ => spec_del (a_signal (a_put A j k None) (Modified j k)) j keys (numdel + 1) | None => spec_del A j keys numdel end
  end.
Definition spec_exists (A : abs) (j : Z) (keys : list (list Z)) : abs * reply := (A, ReplyInt (zlen (filter (fun k => is_Some (a_get A j k)) keys))).
Definition key_matches (pattern key : list Z) : bool := bool_decide (pattern = [42]) || bool_decide (stringmatchlen pattern key false = Some true).
Definition spec_keys (A : abs) (j : Z) (pattern : list Z) : abs * reply :=
  (A, ReplyKeys (filter (fun k => key_matches pattern k = true) (dom (default ∅ (a_dbs A !! Z.to_nat j))))).
Definition a_type (v : option avalue) : list Z :=
  match v with Some (AStr _) => text "string" | Some (AOther ty c) => getObjectTypeName (Some (VOther ty c)) | None => text "none" end.
Definition spec_type (A : abs) (j : Z) (k : list Z) : abs * reply := (A, ReplyStatus (a_type (fst <$> a_get A j k))).
Definition a_move (A : abs) (j : Z) (src : list Z) (j' : Z) (dst : list Z) (x : avalue * option Z) : abs :=
  a_signal (a_signal (a_put (a_put A j' dst (Some x)) j src None) (Modified j src)) (Modified j' dst).
Definition spec_rename (A : abs) (j : Z) (src dst : list Z) (nx : bool) : abs * reply :=
  match a_get A j src with
  | None => (A, ReplyError (text "no such key"))
  | Some x =>
      if bool_decide (src = dst) then (A, if nx then ReplyInt 0 else ReplyOk)
      else if nx && bool_decide (is_Some (a_get A j dst)) then (A, ReplyInt 0)
      else (a_move A j src j dst x, if nx then ReplyInt 1 else ReplyOk)
  end.
Definition is_db (A : abs) (j : Z) : bool := (0 <=? j) && (j <? zlen (a_dbs A)).
Definition spec_select (A : abs) (c : Z) (arg : list Z) : abs * reply :=
  match string2ll arg with
  | None => (A, ReplyError (text "invalid DB index"))
  | Some j => if is_db A j then (a_select A c j, ReplyOk) else (A, ReplyError (text "DB index is out of range"))
  end.
Definition spec_move (A : abs) (c : Z) (k arg : list Z) : abs * reply :=
  match string2ll arg with
  | None => (A, out_of_range)
  | Some dst =>
      if negb (is_db A dst) then (A, out_of_range)
      else
        let src := a_db A c in
        let A := a_select A c src in
        if src =? dst then (A, ReplyError (text "source and destination objects are the same"))
        else match a_get A src k, a_get A dst k with
             | Some x, None => (a_move A src k dst k x, ReplyInt 1)
             | _, _ => (A, ReplyInt 0)
             end
  end.
Definition spec_flushdb (A : abs) (j : Z) (args : list (list Z)) : abs * reply :=
  match getFlushCommandFlags args with
  | None => (A, syntax_error)
  | Some _ => (mk_abs (alter (fun _ => ∅) (Z.to_nat j) (a_dbs A)) (a_sel A) (FlushedDb j :: a_signals A), ReplyOk)
  end.
Definition spec_flushall (A : abs) (args : list (list Z)) : abs * reply :=
  match getFlushCommandFlags args with
  | None => (A, syntax_error)
  | Some _ => (mk_abs ((fun _ => ∅) <$> a_dbs A) (a_sel A) (FlushedDb (-1) :: a_signals A), ReplyOk)
  end.
Definition a_swap (A : abs) (i j : Z) : abs :=
  match a_dbs A !! Z.to_nat i, a_dbs A !! Z.to_nat j with
  | Some a, Some b => mk_abs (<[Z.to_nat j := a]> (<[Z.to_nat i := b]> (a_dbs A))) (a_sel A) (a_signals A)
  | _, _ => A
  end.
Definition spec_swapdb (A : abs) (a1 a2 : list Z) : abs * reply :=
  match string2ll a1, string2ll a2 with
  | None, _ => (A, ReplyError (text "invalid first DB index"))
  | _, None => (A, ReplyError (text "invalid second DB index"))
  | Some i, Some j => if is_db A i && is_db A j then (a_swap A i j, ReplyOk) else (A, ReplyError (text "DB index is out of range"))
  end.
Definition spec_expire (A : abs) (j : Z) (k param : list Z) (basetime unit clock : Z) : abs * reply :=
  match string2ll param with
  | None => (A, not_integer)
  | Some x =>
      let when := x * unit + basetime in
      match a_get A j k with
      | None => (A, ReplyInt 0)
      | Some (v, _) => (a_signal (a_put A j k (if when <=? clock then None else Some (v, Some when))) (Modified j k), ReplyInt 1)
      end
  end.
Definition spec_ttl (A : abs) (j : Z) (k : list Z) (clock : Z) (output_ms : bool) : abs * reply :=
  (A, ReplyInt match a_get A j k with
               | None => -2
               | Some (_, None) => -1
               | Some (_, Some t) => if output_ms then Z.max 0 (t - clock) else (Z.max 0 (t - clock) + 500) / 1000
               end).
Definition spec_persist (A : abs) (j : Z) (k : list Z) : abs * reply :=
  match a_get A j k with
  | Some (v, Some _) => (a_put A j k (Some (v, None)), ReplyInt 1)
  | _ => (A, ReplyInt 0)
  end.

(** ** The commands of a master, and the reads of a replica *)
Record env_ok (e : env) : Prop := {
  env_loading : loading e = false;
  env_start : expire_now e <= mstime0 e;
  env_clock : mstime0 e <= mstime1 e;
  env_epoch : 500 <= mstime1 e <= LLONG_MAX;
  env_nonneg : 0 <= mstime0 e
}.
Definition can_read (e : env) : Prop := masterhost e = false \/ readonly_command e = true.
Lemma sim_drop n s A K : sim n s A K -> sim n s A [].
Proof. intros Hs. eapply sim_weaken; [done|set_solver]. Qed.
Section Commands.
  Context (e : env) (n : Z).
  Hypothesis (Hok : env_ok e) (Hnow : expire_now e = n).
Let Hload : loading e = false := env_loading e Hok.
(** [m] does what [spec] says. *)
Definition refines (m : M reply) (spec : abs -> abs * reply) : Prop := forall s A, sim n s A [] -> wp m s (fun s' r => sim n s' (spec A).1 [] /\ r = (spec A).2).
Lemma done_sim s A K (r r' : reply) : sim n s A K -> r = r' -> wp (mret r) s (fun s' x => sim n s' A [] /\ x = r').
Proof. intros Hs ->. apply wp_ret. split; [by eapply sim_drop|done]. Qed.
Lemma del_loop_sim lazy j keys : masterhost e = false -> forall s A numdel, sim n s A [] -> 0 <= j < zlen (a_dbs A) ->
  wp (del_loop e lazy j keys numdel) s (fun s' x => sim n s' (spec_del A j keys numdel).1 [] /\ ReplyInt x = (spec_del A j keys numdel).2).
Proof.
  intros Hm. induction keys as [|k keys IH]; intros s A numdel Hs Hj; [by apply wp_ret|]. cbn [del_loop spec_del]. wp_use expire_sim. destruct H as (_ & H & _). specialize (H (or_introl Hm)).
  wp_use (delete_clean n lazy s0 A [(j, k)]); [set_solver|]. destruct H0 as [H0 ->]. destruct (a_get A j k) as [x|] eqn:E.
  - rewrite bool_decide_true by done. wp_use sim_signal. wp_use sim_emit. wp_use sim_dirty. apply IH; [by eapply sim_drop|]. cbn [a_signal a_dbs]. by rewrite put_range.
  - rewrite bool_decide_false by (by intros [? ?]). rewrite <- E, a_put_same in H0. apply IH; [by eapply sim_drop|done].
Qed.
Lemma del_refines lazy c keys : masterhost e = false -> refines (delGenericCommand e c keys lazy) (fun A => spec_del A (a_db A c) keys 0).
Proof. intros Hm s A Hs. unfold delGenericCommand. wp_use sim_current. destruct H as (-> & -> & Hj). wp_use del_loop_sim. destruct H as [H <-]. by apply wp_ret. Qed.
Lemma exists_loop_sim j keys : can_read e -> forall s A count, sim n s A [] -> 0 <= j < zlen (a_dbs A) ->
  wp (exists_loop e j keys count) s (fun s' x => sim n s' A [] /\ x = count + zlen (filter (fun k => is_Some (a_get A j k)) keys)).
Proof.
  intros Hr. induction keys as [|k keys IH]; intros s A count Hs Hj; [apply wp_ret; split; [done|unfold zlen; cbn; lia]|]. cbn [exists_loop]. unfold lookupKeyRead. wp_use read_sim. destruct H as [H Hf]. rewrite filter_cons. destruct a as [o|].
  - apply found_some in Hf as (t & E & _). rewrite decide_True by (rewrite E; by eexists). eapply wp_mono; [by apply IH|]. cbv beta. intros s' x [Hx ->]. split; [done|]. unfold zlen. cbn [length]. lia.
  - apply found_none in Hf. rewrite decide_False by (rewrite Hf; by intros [? ?]). by apply IH.
Qed.
Lemma exists_refines c keys : can_read e -> refines (existsCommand e c keys) (fun A => spec_exists A (a_db A c) keys).
Proof. intros Hr s A Hs. unfold existsCommand. wp_use sim_current. destruct H as (-> & -> & Hj). wp_use exists_loop_sim. destruct H as [H ->]. by apply wp_ret. Qed.
Lemma touch_refines c keys : can_read e -> refines (touchCommand e c keys) (fun A => spec_exists A (a_db A c) keys).
Proof. apply exists_refines. Qed.
Lemma keys_loop_sim j pattern keys : forall s A d found, sim n s A [] -> 0 <= j < zlen (a_dbs A) -> dbs s !! Z.to_nat j = Some d ->
  wp (keys_loop e j pattern (bool_decide (pattern = [42])) keys found) s (fun s' l => s' = s /\ forall k, k ∈ l <-> k ∈ found \/ (k ∈ keys /\ key_matches pattern k = true /\ valid n (expires d !! k) = true)).
Proof.
  induction keys as [|k keys IH]; intros s A d fd Hs Hj Hd; [apply wp_ret; set_solver|]. cbn [keys_loop].
  assert (Hb : key_match pattern (bool_decide (pattern = [42])) k s = Some (s, key_matches pattern k)).
  { unfold key_match, key_matches. destruct (bool_decide (pattern = [42])); [done|]. destruct (stringmatchlen_defined pattern k false) as [b ->]. cbn. by destruct b. }
  apply wp_bind. unfold wp at 1. rewrite Hb. destruct (key_matches pattern k) eqn:Ek.
  - wp_use keyIsExpired_sim. destruct H as (-> & d' & Hd' & ->). assert (d' = d) as -> by congruence. eapply wp_mono; [by eapply IH|]. cbv beta. intros s' l [-> Hl]. split; [done|]. intros i. rewrite Hl. destruct (valid n (expires d !! k)) eqn:Ev; cbn [negb]; rewrite ?elem_of_union, ?elem_of_singleton, elem_of_cons; (split; [intros Hx|intros [Hx|([->|Hx] & Hy & Hz)]]); try congruence; tauto || (destruct Hx as [[->|Hx]|Hx]; tauto).
  - eapply wp_mono; [by eapply IH|]. cbv beta. intros s' l [-> Hl]. split; [done|]. intros i. rewrite Hl, elem_of_cons. split; [tauto|intros [Hx|([->|Hx] & Hy & Hz)]; [tauto|congruence|tauto]].
Qed.
Lemma keys_refines c pattern : refines (keysCommand e c pattern) (fun A => spec_keys A (a_db A c) pattern).
Proof.
  intros s A Hs. unfold keysCommand. wp_use sim_current. destruct H as (-> & -> & Hj). wp_use sim_get. destruct H as (-> & Hd & Ha & Ho). wp_use keys_loop_sim. destruct H as [-> Hl]. apply wp_ret. split; [done|]. unfold spec_keys. cbn [snd]. f_equal. apply set_eq. intros k. rewrite Hl, elem_of_filter, Ha. cbn [default]. rewrite elem_of_dom. unfold is_Some. setoid_rewrite view_lookup. rewrite list_elem_of_fmap. split.
  - intros [Hk|((x & -> & Hx) & Hm & Hv)]; [set_solver|]. destruct x as [k' o]. apply elem_of_map_to_list in Hx. cbn in *. rewrite Hx, Hv. eauto.
  - intros [Hm [x Hx]]. right. destruct (dict a !! k) as [o|] eqn:E; [|done]. destruct (valid n (expires a !! k)); [|done]. split; [|done]. exists (k, o). by rewrite elem_of_map_to_list.
Qed.
Lemma type_refines c k : can_read e -> refines (typeCommand e c k) (fun A => spec_type A (a_db A c) k).
Proof.
  intros Hr s A Hs. unfold typeCommand. wp_use sim_current. destruct H as (-> & -> & Hj). wp_use read_sim. destruct H as [H Hf]. apply wp_ret. split; [done|]. unfold spec_type. cbn [snd]. f_equal. destruct a as [o|].
  - apply found_some in Hf as (t & -> & _). cbn. by destruct (o_val o).
  - apply found_none in Hf. by rewrite Hf.
Qed.

Lemma get_signal A x j k : a_get (a_signal A x) j k = a_get A j k.
Proof. done. Qed.
(** A key that exists is stored at another place, with its time. *)
Lemma transfer_sim s A K j src j' dst o t : sim n s A K -> 0 <= j < zlen (a_dbs A) -> 0 <= j' < zlen (a_dbs A) -> (j, src) <> (j', dst) -> (j, src) ∈ K -> (j', dst) ∈ K ->
  a_get A j src = Some (a_value (o_val o), t) -> val_ok (o_val o) -> a_get A j' dst = None -> (forall t', t = Some t' -> n <= t') -> (forall t', t = Some t' -> 0 <= t' <= LLONG_MAX) ->
  forall ev1 ev2 (r : reply), wp (dbAdd j' dst o ;; (if default (-1) t =? -1 then mret tt else setExpire e j' dst (default (-1) t)) ;; dbDelete e j src ;; signalModifiedKey j src ;; signalModifiedKey j' dst ;; notifyKeyspaceEvent ev1 src j ;; notifyKeyspaceEvent ev2 dst j' ;; add_dirty 1 ;; mret r) s
    (fun s' r' => sim n s' (a_move A j src j' dst (a_value (o_val o), t)) [] /\ r' = r).
Proof.
  intros Hs Hj Hj' Hne K1 K2 Hg Hv Hn Ht1 Ht2 ev1 ev2 r. wp_use dbAdd_sim.
  assert (Hset : wp (if default (-1) t =? -1 then mret tt else setExpire e j' dst (default (-1) t)) s0 (fun s' _ => sim n s' (a_put A j' dst (Some (a_value (o_val o), t))) ((j', dst) :: (j', dst) :: K))).
  { destruct t as [t|]; cbn [default from_option id].
    - pose proof (Ht2 t eq_refl). pose proof (Ht1 t eq_refl). rewrite (proj2 (Z.eqb_neq t (-1))) by lia. eapply wp_mono; [eapply (setExpire_sim e n); [done|by rewrite put_range|rewrite get_put by lia; done|done|done]|]. cbv beta. intros s1 _ Hp. by rewrite put_twice in Hp.
    - apply wp_ret. eapply sim_weaken; [done|set_solver]. }
  apply wp_bind. eapply wp_mono; [exact Hset|]. cbv beta. intros s1 _ H1. unfold dbDelete. wp_use delete_sim; [by rewrite put_range|]. destruct H0 as [H0 _]. wp_use sim_signal. wp_use sim_signal. wp_use sim_emit. wp_use sim_emit. wp_use sim_dirty. by eapply done_sim.
Qed.
Lemma time_of s A K j k v t : sim n s A K -> 0 <= j < zlen (a_dbs A) -> a_get A j k = Some (v, t) -> forall t', t = Some t' -> n <= t' /\ 0 <= t' <= LLONG_MAX.
Proof.
  intros Hs Hj Hg t' ->. destruct (sim_at n s A K j Hs Hj) as (d & a & Hd & Ha & Ho & Hv). rewrite <- Hv in Ha. destruct (valid_time n d A j k v _ Ha Ho Hg) as (o & _ & _ & _ & E & _ & Hx). split; [cbn [valid] in E; lia|by apply Hx].
Qed.
Lemma rename_refines c src dst nx : masterhost e = false -> refines (renameGenericCommand e c src dst nx) (fun A => spec_rename A (a_db A c) src dst nx).
Proof.
  intros Hm s A Hs. unfold renameGenericCommand. wp_use sim_current. destruct H as (-> & -> & Hj). wp_use write_sim. destruct H as [H Hf]. unfold spec_rename. destruct a as [o|]; [|apply found_none in Hf; rewrite Hf; by eapply done_sim].
  apply found_some in Hf as (t & Hg & Hv). rewrite Hg. destruct (bool_decide_reflect (src = dst)) as [->|Hne]; [destruct nx; by eapply done_sim|]. wp_use getExpire_sim. destruct H0 as [-> ->].
  wp_use write_sim. destruct H0 as [H0 Hf]. pose proof (time_of _ _ _ _ _ _ _ H0 Hj Hg) as Ht. set (j := a_db A c) in *.
  assert (Hgo : forall s' A', sim n s' A' [(j, dst); (j, dst); (j, src)] -> 0 <= j < zlen (a_dbs A') -> a_get A' j src = Some (a_value (o_val o), t) -> a_get A' j dst = None -> a_move A' j src j dst (a_value (o_val o), t) = a_move A j src j dst (a_value (o_val o), t) ->
    forall r : reply, wp (dbAdd j dst o ;; (if default (-1) t =? -1 then mret tt else setExpire e j dst (default (-1) t)) ;; dbDelete e j src ;; signalModifiedKey j src ;; signalModifiedKey j dst ;; notifyKeyspaceEvent (text "rename_from") src j ;; notifyKeyspaceEvent (text "rename_to") dst j ;; add_dirty 1 ;; mret r) s' (fun s' (r' : reply) => sim n s' (a_move A j src j dst (a_value (o_val o), t)) [] /\ r' = r)).
  { intros s' A' Hx Hjx Hgx Hnx E r. rewrite <- E. eapply transfer_sim; try done; set_solver. }
  destruct a as [o'|].
  - apply found_some in Hf as (t' & Hg' & _). rewrite bool_decide_true by (rewrite Hg'; by eexists). rewrite andb_true_r. destruct nx; [by eapply done_sim|]. apply wp_bind. unfold dbDelete at 1. wp_use delete_sim. destruct H1 as [H1 _]. apply wp_ret. cbv beta. apply (Hgo _ (a_put A j dst None)); [done|by rewrite put_range|rewrite a_get_put_ne by (lia || congruence); done|by rewrite get_put|]. unfold a_move. by rewrite put_twice.
  - apply found_none in Hf. rewrite bool_decide_false by (rewrite Hf; by intros [? ?]). rewrite andb_false_r. apply wp_bind, wp_ret. cbv beta. apply (Hgo _ A) with (r := if nx then ReplyInt 1 else ReplyOk); [|done..]. eapply sim_weaken; [done|set_solver].
Qed.
Lemma sim_length s A K : sim n s A K -> zlen (dbs s) = zlen (a_dbs A).
Proof. intros Hs. unfold zlen. by rewrite (Forall2_length _ _ _ (sim_dbs _ _ _ _ Hs)). Qed.
Lemma select_sim s A K c j : sim n s A K -> wp (selectDb c j) s (fun s' r => r = is_db A j /\ sim n s' (if r then a_select A c j else A) K).
Proof.
  intros Hs. unfold selectDb, wp, is_db. rewrite (sim_length s A K Hs). destruct Hs as [S1 S2 S3 S4 S5 S6]. destruct (Z.ltb_spec j 0) as [Hj|Hj]; [cbn; by rewrite (proj2 (Z.leb_gt 0 j)) by lia|]. destruct (j >=? zlen (a_dbs A)) eqn:E; cbn.
  - by rewrite (proj2 (Z.ltb_ge j _)), andb_false_r by lia.
  - rewrite (proj2 (Z.leb_le 0 j)), (proj2 (Z.ltb_lt j _)) by lia. split; [done|]. split; cbn; try done; [by rewrite S2|]. intros c' j' [[<- <-]|[_ Hx]]%lookup_insert_Some; [lia|by apply (S3 c')].
Qed.
Lemma select_refines c arg : (forall j, string2ll arg = Some j -> in_s 32 j) -> refines (selectCommand c arg) (fun A => spec_select A c arg).
Proof.
  intros Hr s A Hs. unfold selectCommand, spec_select. destruct (string2ll arg) as [j|]; [|by eapply done_sim]. rewrite wraps_small by (lia || by apply Hr). wp_use select_sim. destruct H as [-> H]. apply wp_ret. by destruct (is_db A j).
Qed.
Lemma select_get A c j i k : a_get (a_select A c j) i k = a_get A i k.
Proof. done. Qed.
Lemma move_refines c k arg : masterhost e = false -> refines (moveCommand e c k arg) (fun A => spec_move A c k arg).
Proof.
  intros Hm s A Hs. unfold moveCommand, spec_move. wp_use sim_current. destruct H as (-> & -> & Hj). destruct (string2ll arg) as [dst|] eqn:Ea; [|by eapply done_sim].
  destruct ((dst <? -2147483648) || (dst >? 2147483647)) eqn:Er; [|].
  { unfold is_db. pose proof (sim_one _ _ _ _ Hs). rewrite (proj2 (andb_false_iff (0 <=? dst) (dst <? zlen (a_dbs A)))) by lia. by eapply done_sim. }
  wp_use select_sim. destruct H as [-> H]. destruct (is_db A dst) eqn:Ed; cbn [negb]; [|by eapply done_sim].
  set (src := a_db A c) in *.
  wp_use sim_current. destruct H0 as (-> & Edst & Hjd). unfold a_db in Edst. cbn [a_select a_sel] in Edst. rewrite lookup_insert_eq in Edst. cbn in Edst. subst a.
  wp_use select_sim. destruct H0 as [-> H0]. replace (is_db (a_select A c dst) src) with true in H0 by (symmetry; unfold is_db; cbn [a_select a_dbs]; lia). cbn iota in H0.
  assert (E2 : a_select (a_select A c dst) c src = a_select A c src) by (unfold a_select; cbn; by rewrite insert_insert_eq). rewrite E2 in H0.
  destruct (Z.eqb_spec src dst) as [Esd|Hne]; [by eapply done_sim|]. wp_use write_sim. destruct H1 as [H1 Hf]. destruct a as [o|]; [|apply found_none in Hf; rewrite Hf; by eapply done_sim].
  apply found_some in Hf as (t & Hg & Hv). rewrite Hg. wp_use getExpire_sim. destruct H2 as [-> ->]. wp_use write_sim. destruct H2 as [H2 Hf]. destruct a as [o'|].
  - apply found_some in Hf as (t' & -> & _). by eapply done_sim.
  - apply found_none in Hf. rewrite Hf. pose proof (time_of _ _ _ src _ _ _ H2 Hj Hg) as Ht. eapply transfer_sim; try done; [congruence|set_solver|set_solver|intros t' Et; by apply Ht..].
Qed.
Lemma ks_empty_ok bk : represents n (mk_db ∅ ∅ bk) ∅.
Proof. split; [split; cbn [dict expires]; intros k x; by rewrite lookup_empty|]. apply map_eq. intros k. rewrite view_lookup. cbn [dict expires]. by rewrite !lookup_empty. Qed.
Lemma imap_sim (f : nat -> redisDb -> redisDb) (g : nat -> amap -> amap) l l' : Forall2 (represents n) l l' -> (forall i d a, represents n d a -> represents n (f i d) (g i a)) -> Forall2 (represents n) (imap f l) (imap g l').
Proof. intros Hl. revert f g. induction Hl as [|d a l l' Hd Hl IH]; intros f g Hfg; cbn [imap]; [constructor|]. constructor; [by apply Hfg|]. apply IH. intros i x y. apply Hfg. Qed.
(** The databases that are chosen are emptied. *)
Lemma empty_sim s A j : sim n s A [] -> -1 <= j < zlen (a_dbs A) ->
  wp (emptyDb j) s (fun s' _ => sim n s' (mk_abs (imap (fun i a => if (j =? -1) || (Z.of_nat i =? j) then ∅ else a) (a_dbs A)) (a_sel A) (FlushedDb j :: a_signals A)) []).
Proof.
  intros Hs Hj. unfold emptyDb, wp. rewrite (sim_length s A [] Hs). rewrite (proj2 (Z.ltb_ge j (-1))) by lia. assert (j >=? zlen (a_dbs A) = false) as -> by lia. destruct Hs as [S1 S2 S3 S4 S5 S6].
  assert (Hlen : zlen (imap (fun i a => if (j =? -1) || (Z.of_nat i =? j) then ∅ else a) (a_dbs A)) = zlen (a_dbs A)) by (unfold zlen; by rewrite length_imap).
  assert (Hmain : Forall2 (represents n) (imap (fun i d => if (j =? -1) || (Z.of_nat i =? j) then mk_db ∅ ∅ (blocking_keys d) else d) (dbs s)) (imap (fun i a => if (j =? -1) || (Z.of_nat i =? j) then ∅ else a) (a_dbs A))) by (apply imap_sim; [done|]; intros i d a Hd; destruct (_ || _); [apply ks_empty_ok|done]).
  assert (Hsig : forall x, x ∈ FlushedDb j :: a_signals A -> x ∈ FlushedDb j :: effects s) by (intros x [->|Hx]%elem_of_cons; [by left|right; by apply S5]).
  unfold mbind, M_bind. cbn. destruct (j =? -1); cbn in *; (split; cbn [a_dbs a_sel a_signals dbs selected effects with_dbs]; rewrite ?Hlen; [done..|set_solver]).
Qed.
Lemma imap_alter {A} (f : A -> A) (l : list A) i : imap (fun k a => if Z.of_nat k =? Z.of_nat i then f a else a) l = alter f i l.
Proof.
  apply list_eq. intros k. rewrite list_lookup_imap. destruct (decide (k = i)) as [->|Hne].
  - rewrite list_lookup_alter_eq. destruct (l !! i); [|done]. cbn. by rewrite Z.eqb_refl.
  - rewrite list_lookup_alter_ne by done. destruct (l !! k); [|done]. cbn. by rewrite (proj2 (Z.eqb_neq _ _)) by lia.
Qed.
Lemma flushdb_refines c args : refines (flushdbCommand c args) (fun A => spec_flushdb A (a_db A c) args).
Proof.
  intros s A Hs. unfold flushdbCommand, spec_flushdb. destruct (getFlushCommandFlags args); [|by eapply done_sim]. wp_use sim_current. destruct H as (-> & -> & Hj). wp_use empty_sim. wp_use sim_dirty. eapply done_sim; [|done]. revert H0. cbn [fst]. rewrite (proj2 (Z.eqb_neq (a_db A c) (-1))) by lia. cbn [orb]. rewrite <- (imap_alter (fun _ => ∅)). by rewrite Z2Nat.id by lia.
Qed.
Lemma flushall_refines args : refines (flushallCommand args) (fun A => spec_flushall A args).
Proof.
  intros s A Hs. unfold flushallCommand, spec_flushall. destruct (getFlushCommandFlags args); [|by eapply done_sim]. wp_use empty_sim; [unfold zlen; lia|]. wp_use sim_dirty. wp_use sim_dirty. eapply done_sim; [|done]. revert H1. cbn. generalize (a_dbs A) as l. intros l Hx. replace ((fun _ => ∅) <$> l) with (imap (fun (_ : nat) (_ : amap) => (∅ : amap)) l); [done|]. apply list_eq. intros i. rewrite list_lookup_imap, list_lookup_fmap. by destruct (l !! i).
Qed.
Lemma lookup_raw s A K j k nt : sim n s A K -> 0 <= j < zlen (a_dbs A) -> wp (lookupKey e j k nt) s (fun s' _ => sim n s' A []).
Proof.
  intros Hs Hj. unfold lookupKey. wp_use sim_get. destruct H as (-> & Hd & Ha & Ho). destruct (dict a !! k) as [o|] eqn:E; [|apply wp_ret; by eapply sim_drop].
  set (o' := if negb (active_child e) && negb nt then mk_robj (o_val o) (access e (o_lru o)) else o). assert (Eo : o_val o' = o_val o) by (unfold o'; by destruct (_ && _)).
  apply wp_bind. cbn. destruct Hs as [S1 S2 S3 S4 S5 S6]. split; cbn; try done; [|set_solver]. replace (a_dbs A) with (<[Z.to_nat j := view n a]> (a_dbs A)) by (by apply list_insert_id). apply Forall2_insert; [done|]. split.
  - destruct Ho as [O1 O2]. split; cbn [dict expires set_dict].
    + intros i t Hi. destruct (O1 i t Hi) as [Hx Ht]. split; [|done]. destruct (decide (i = k)) as [->|Hne]; [rewrite lookup_insert_eq; by eexists|by rewrite lookup_insert_ne].
    + intros i x [[<- <-]|[_ Hx]]%lookup_insert_Some; [rewrite Eo; by apply (O2 k)|by apply (O2 i)].
  - apply map_eq. intros i. rewrite !view_lookup. cbn [dict expires set_dict]. destruct (decide (i = k)) as [->|Hne]; [by rewrite lookup_insert_eq, E, Eo|by rewrite lookup_insert_ne].
Qed.
Lemma ready_sim s A j keys : sim n s A [] -> 0 <= j < zlen (a_dbs A) -> wp (ready_lists e j keys) s (fun s' _ => sim n s' A []).
Proof.
  intros Hs Hj. revert s Hs. induction keys as [|k keys IH]; intros s Hs; [by apply wp_ret|]. cbn [ready_lists]. wp_use lookup_raw. destruct a as [o|]; [destruct (blocking_type _)|]; [wp_use sim_emit; by apply IH|wp_do; by apply IH..].
Qed.
Lemma swap_sim s A i j : sim n s A [] -> is_db A i = true -> is_db A j = true -> wp (dbSwapDatabases e i j) s (fun s' r => r = true /\ sim n s' (a_swap A i j) []).
Proof.
  intros Hs Hi Hj. unfold is_db in *. unfold dbSwapDatabases, wp. rewrite (sim_length s A [] Hs). assert ((i <? 0) || (i >=? zlen (a_dbs A)) || (j <? 0) || (j >=? zlen (a_dbs A)) = false) as -> by lia.
  destruct (sim_at n s A [] i Hs ltac:(lia)) as (d1 & a1 & D1 & A1 & R1). destruct (sim_at n s A [] j Hs ltac:(lia)) as (d2 & a2 & D2 & A2 & R2). unfold a_swap. rewrite A1, A2. destruct (Z.eqb_spec i j) as [<-|Hne].
  { split; [done|]. rewrite list_insert_insert_eq. assert (a2 = a1) as -> by congruence. rewrite list_insert_id by done. by destruct A. }
  fold (wp (d1 ← get_db i; d2 ← get_db j; put_db i (mk_db (dict d2) (expires d2) (blocking_keys d1)) ;; put_db j (mk_db (dict d1) (expires d1) (blocking_keys d2)) ;; scanDatabaseForReadyLists e i ;; scanDatabaseForReadyLists e j ;; mret true) s (fun s' r => r = true /\ sim n s' (mk_abs (<[Z.to_nat j:=a1]> (<[Z.to_nat i:=a2]> (a_dbs A))) (a_sel A) (a_signals A)) [])).
  wp_use sim_get. destruct H as (-> & Hx & _). assert (a = d1) as -> by congruence. wp_use sim_get. destruct H as (-> & Hy & _). assert (a = d2) as -> by congruence. set (A' := mk_abs _ _ _).
  assert (Hs' : sim n (with_dbs s (<[Z.to_nat j := mk_db (dict d1) (expires d1) (blocking_keys d2)]> (<[Z.to_nat i := mk_db (dict d2) (expires d2) (blocking_keys d1)]> (dbs s)))) A' []).
  { assert (Hblk : forall d a bk, represents n d a -> represents n (mk_db (dict d) (expires d) bk) a) by (intros d a bk [[O1 O2] <-]; by split). destruct Hs as [S1 S2 S3 S4 S5 S6]. assert (Hl : zlen (a_dbs A') = zlen (a_dbs A)) by (unfold zlen, A'; cbn; by rewrite !length_insert). split; rewrite ?Hl; cbn; try done; [|set_solver]. by repeat apply Forall2_insert; [|apply Hblk..]. }
  apply wp_bind. cbn. apply wp_bind. cbn. unfold scanDatabaseForReadyLists. assert (Hl : zlen (a_dbs A') = zlen (a_dbs A)) by (unfold zlen, A'; cbn; by rewrite !length_insert). apply wp_bind. wp_use sim_get. destruct H as (-> & _). wp_use ready_sim. apply wp_bind. wp_use sim_get. destruct H0 as (-> & _). wp_use ready_sim. by apply wp_ret.
Qed.
Lemma swapdb_refines a1 a2 : refines (swapdbCommand e a1 a2) (fun A => spec_swapdb A a1 a2).
Proof.
  intros s A Hs. unfold swapdbCommand, spec_swapdb. destruct (string2ll a1) as [i|]; [|by eapply done_sim]. destruct (string2ll a2) as [j|]; [|by eapply done_sim]. destruct (is_db A i && is_db A j) eqn:E.
  - apply andb_true_iff in E as [Ei Ej]. wp_use swap_sim. destruct H as [-> H]. wp_use sim_dirty. by eapply done_sim.
  - apply wp_bind. unfold wp at 1, dbSwapDatabases. rewrite (sim_length s A [] Hs). assert ((i <? 0) || (i >=? zlen (a_dbs A)) || (j <? 0) || (j >=? zlen (a_dbs A)) = true) as -> by (unfold is_db in E; lia). by eapply done_sim.
Qed.
Lemma checked_sim z s (Q : server -> Z -> Prop) : in_s 64 z -> Q s z -> wp (checked z) s Q.
Proof. intros Hz HQ. unfold checked, wp. assert ((LLONG_MIN <=? z) && (z <=? LLONG_MAX) = true) as -> by (unfold in_s, LLONG_MIN, LLONG_MAX in *; lia). done. Qed.
Definition time_fits (param : list Z) (basetime unit : Z) : Prop := forall x, string2ll param = Some x -> in_s 64 (x * unit) /\ in_s 64 (x * unit + basetime).
Lemma expire_refines c k param basetime (seconds : bool) : masterhost e = false -> time_fits param basetime (if seconds then 1000 else 1) ->
  refines (expireGenericCommand e c k param basetime seconds) (fun A => spec_expire A (a_db A c) k param basetime (if seconds then 1000 else 1) (mstime1 e)).
Proof.
  intros Hm Hfit s A Hs. unfold expireGenericCommand, spec_expire. wp_use sim_current. destruct H as (-> & -> & Hj). destruct (string2ll param) as [x|] eqn:Ex; [|by eapply done_sim]. destruct (Hfit x Ex) as [F1 F2].
  set (when := x * (if seconds then 1000 else 1) + basetime) in *. apply wp_bind. assert (Hu : wp (if seconds then checked (x * 1000) else mret x) s (fun s' y => s' = s /\ y + basetime = when)).
  { destruct seconds; [by apply checked_sim|]. apply wp_ret. split; [done|]. unfold when. lia. }
  eapply wp_mono; [exact Hu|]. cbv beta. intros s' y [-> Ey]. rewrite Ey. apply wp_bind, checked_sim; [done|]. wp_use write_sim. destruct H as [H Hf]. destruct a as [o|]; [|apply found_none in Hf; rewrite Hf; by eapply done_sim]. apply found_some in Hf as (t & Hg & Hv). rewrite Hg, Hload, Hm. cbn [negb]. rewrite !andb_true_r. destruct (Z.leb_spec when (mstime1 e)) as [Hw|Hw].
  - wp_use delete_clean; [set_solver|]. destruct H0 as [H0 ->]. rewrite Hg. rewrite bool_decide_true by done. cbn [negb]. wp_use sim_dirty. wp_use sim_emit. wp_use sim_signal. wp_use sim_emit. by eapply done_sim.
  - pose proof (env_start e Hok). pose proof (env_clock e Hok). pose proof (env_nonneg e Hok). wp_use (setExpire_sim e n); [unfold in_s, LLONG_MAX in *; lia|]. wp_use sim_signal. wp_use sim_emit. wp_use sim_dirty. by eapply done_sim.
Qed.
Lemma ttl_refines c k output_ms : can_read e -> refines (ttlGenericCommand e c k output_ms) (fun A => spec_ttl A (a_db A c) k (mstime1 e) output_ms).
Proof.
  intros Hr s A Hs. unfold ttlGenericCommand, spec_ttl. wp_use sim_current. destruct H as (-> & -> & Hj). wp_use read_sim. destruct H as [H Hf]. destruct a as [o|]; [|apply found_none in Hf; rewrite Hf; by eapply done_sim]. apply found_some in Hf as (t & Hg & Hv). rewrite Hg. wp_use getExpire_sim. destruct H0 as [-> ->]. destruct t as [t|]; [|by eapply done_sim]. cbn [default from_option id].
  destruct (time_of _ _ _ _ _ _ _ H Hj Hg t eq_refl) as [Hn Ht]. pose proof (env_epoch e Hok). pose proof (env_clock e Hok). pose proof (env_nonneg e Hok). rewrite (proj2 (Z.eqb_neq t (-1))) by lia.
  unfold LLONG_MAX in *.
  apply wp_bind, checked_sim; [|]. 2:{ assert (Et : (if t - mstime1 e <? 0 then 0 else t - mstime1 e) = Z.max 0 (t - mstime1 e)) by (destruct (Z.ltb_spec (t - mstime1 e) 0); lia). rewrite Et. destruct output_ms; [by eapply done_sim|]. apply wp_bind, checked_sim; [unfold in_s; lia|]. rewrite Z.quot_div_nonneg by lia. by eapply done_sim. }
  unfold in_s, LLONG_MAX in *. lia.
Qed.
Lemma persist_refines c k : masterhost e = false -> refines (persistCommand e c k) (fun A => spec_persist A (a_db A c) k).
Proof.
  intros Hm s A Hs. unfold persistCommand, spec_persist. wp_use sim_current. destruct H as (-> & -> & Hj). wp_use write_sim. destruct H as [H Hf]. destruct a as [o|]; [|apply found_none in Hf; rewrite Hf; by eapply done_sim]. apply found_some in Hf as (t & Hg & Hv). rewrite Hg. wp_use removeExpire_sim. destruct H0 as [H0 ->]. destruct t as [t|].
  - rewrite bool_decide_true by done. wp_use sim_emit. wp_use sim_dirty. by eapply done_sim.
  - rewrite bool_decide_false by (by intros [? ?]). rewrite <- Hg, a_put_same in H0. by eapply done_sim.
Qed.
(** Sampling deletes keys that are gone. *)
Lemma samples_sim samples : forall s A, sim n s A [] -> Forall (fun x => 0 <= x.1 < zlen (a_dbs A)) samples -> wp (expire_samples e samples n) s (fun s' _ => sim n s' A []).
Proof.
  clear Hload Hok Hnow. induction samples as [|[j k] samples IH]; intros s A Hs Hx; [by apply wp_ret|]. apply Forall_cons in Hx as [Hj Hx]. cbn [fst] in Hj. cbn [expire_samples]. apply wp_bind. unfold activeExpireCycleTryExpire. wp_use sim_get. destruct H as (-> & Hd & Ha & Ho). destruct (expires a !! k) as [t|] eqn:E; [|apply wp_ret; by apply IH]. destruct (n >? t) eqn:Et; [|apply wp_ret; by apply IH].
  wp_use sim_emit. wp_use delete_sim. destruct H0 as [H0 _]. assert (Hn : a_get A j k = None) by (rewrite (a_get_at _ _ _ _ Ha), view_lookup, E; cbn [valid]; rewrite (proj2 (Z.leb_gt n t)) by lia; by destruct (dict a !! k)). rewrite <- Hn, a_put_same in H0.
  wp_use sim_emit. wp_use sim_emit. wp_use sim_stats. apply wp_ret. apply IH; [by eapply sim_drop|done].
Qed.
End Commands.
(** Time passes. *)
Lemma view_tick n n' d : n <= n' -> view n' d = tick_db n' (view n d).
Proof.
  intros Hn. apply map_eq. intros k. unfold tick_db. rewrite view_lookup. destruct (filter (fun x => valid n' x.2.2 = true) (view n d) !! k) as [[v t]|] eqn:E.
  - apply map_lookup_filter_Some in E as [E1 E2]. apply view_some in E1 as (o & -> & <- & <- & _). cbn in E2. by rewrite E2.
  - destruct (dict d !! k) as [o|] eqn:Ed; [|done]. destruct (valid n' (expires d !! k)) eqn:Ev; [|done]. exfalso. apply map_lookup_filter_None in E as [E|E].
    + rewrite view_lookup, Ed in E. destruct (valid n (expires d !! k)) eqn:Ev2; [done|]. destruct (expires d !! k) as [t|]; [|done]. cbn in *. lia.
    + assert (Ev2 : valid n (expires d !! k) = true) by (destruct (expires d !! k) as [t|]; [cbn in *; lia|done]). apply (E (a_value (o_val o), expires d !! k)); [by rewrite view_lookup, Ed, Ev2|done].
Qed.
Lemma tick_sim n n' s A : sim n s A [] -> n <= n' -> sim n' s (tick n' A) [].
Proof.
  intros [S1 S2 S3 S4 S5 S6] Hn. assert (Hl : zlen (a_dbs (tick n' A)) = zlen (a_dbs A)) by (unfold zlen; cbn; by rewrite length_fmap). split; rewrite ?Hl; try done; [|set_solver]. cbn [tick a_dbs]. apply Forall2_fmap_r. eapply Forall2_impl; [exact S1|]. intros d a [Ho <-]. split; [done|]. by apply view_tick.
Qed.
