(* ===== verification/Tstring.v ===== *)
(** * Strings (t_string.c)

    The string commands over the keyspace of [Keyspace]: a string is an integer
    or an sds, and values can expire.  Every sequence of commands on strings
    and keys, with active expiration at any time, is the same as on a map of
    byte strings from which keys disappear at their times.  INCRBYFLOAT (long
    double) and STRALGO are not modelled.  [private] tells which objects have
    one reference; the shared integers have more. *)
From Stdlib Require Import Strings.String.
From S2P Require Import Prelude Endian Util Glob Rdb RdbObject Keyspace.
#[local] Open Scope cmem_scope.
#[local] Abbreviation text s := (bytes_of_string s%string).

Definition OBJ_SET_NO_FLAGS : Z := 0.
Definition OBJ_SET_NX : Z := 1.
Definition OBJ_SET_XX : Z := 2.
Definition OBJ_SET_EX : Z := 4.
Definition OBJ_SET_PX : Z := 8.
Definition OBJ_SET_KEEPTTL : Z := 16.
Definition has (flags b : Z) : bool := negb (Z.land flags b =? 0).
Definition MAX_STRING : Z := 536870912.

Section Tstring.
  Context (e : env) (private : robj -> bool).

(** The object of an argument, encoded. *)
Definition encoded (v : list Z) : strobj := tryObjectEncoding (StrSds (zlen v <=? OBJ_ENCODING_EMBSTR_SIZE_LIMIT) v).
Definition new_object (o : strobj) : robj := mk_robj (VStr o) (initial_lru e).
Definition stringObjectLen (o : strobj) : Z := match o with StrSds _ bs => zlen bs | StrInt v => sdigits10 v end.
Definition getLongLongFromObject (o : option strobj) : option Z := match o with None => Some 0 | Some (StrSds _ bs) => string2ll bs | Some (StrInt v) => Some v end.
Definition checkStringLength (size : Z) : bool := size <=? 512 * 1024 * 1024.
Definition too_long : reply := ReplyError (text "string exceeds maximum allowed size (512MB)").
(** The object at a key is changed in place. *)
Definition set_in_place (j : Z) (key : list Z) (o : strobj) : M unit :=
  d ← get_db j;
  match dict d !! key with Some old => put_db j (set_dict d (<[key := mk_robj (VStr o) (o_lru old)]> (dict d))) | None => crash end.
(** The string at the key, which now is a raw sds of its own. *)
Definition dbUnshareStringValue (j : Z) (key : list Z) (obj : robj) (o : strobj) : M (list Z) :=
  match o with
  | StrSds false bs => if private obj then mret bs else dbOverwrite e j key (new_object (StrSds false bs)) ;; mret bs
  | _ => dbOverwrite e j key (new_object (StrSds false (obj_bytes o))) ;; mret (obj_bytes o)
  end.

(** ** SET *)
(** The expire argument: a positive integer. *)
Definition expire_arg (expire : option (list Z)) (cmd : list Z) : option Z + reply :=
  match expire with
  | None => inl None
  | Some x => match string2ll x with None => inr not_integer | Some ms => if ms <=? 0 then inr (ReplyError (text "invalid expire time in " ++ cmd)) else inl (Some ms) end
  end.
Definition in_milliseconds (expire : option Z) (seconds : bool) : M (option Z) :=
  match expire with None => mret None | Some ms => if seconds then ms ← checked (ms * 1000); mret (Some ms) else mret (Some ms) end.
(** The condition of the flags NX and XX fails. *)
Definition set_aborts (j flags : Z) (key : list Z) : M bool :=
  present ← (if has flags OBJ_SET_NX then o ← lookupKeyWrite e j key; mret (match o with Some _ => true | None => false end) else mret false);
  if (present : bool) then mret true
  else if has flags OBJ_SET_XX then o ← lookupKeyWrite e j key; mret (match o with None => true | Some _ => false end) else mret false.
Definition set_store (j flags : Z) (key : list Z) (val : strobj) (milliseconds : option Z) : M unit :=
  genericSetKey e j key (new_object val) (has flags OBJ_SET_KEEPTTL) true ;;
  add_dirty 1 ;;
  match milliseconds with Some ms => when ← checked (mstime1 e + ms); setExpire e j key when | None => mret tt end ;;
  notifyKeyspaceEvent (text "set") key j ;;
  match milliseconds with Some _ => notifyKeyspaceEvent (text "expire") key j | None => mret tt end.
Definition setGenericCommand (c flags : Z) (key : list Z) (val : strobj) (expire : option (list Z)) (seconds : bool) (cmd : list Z) (ok_reply abort_reply : reply) : M reply :=
  j ← current_db c;
  match expire_arg expire cmd with
  | inr err => mret err
  | inl ms =>
      milliseconds ← in_milliseconds ms seconds;
      abort ← set_aborts j flags key;
      if (abort : bool) then mret abort_reply else set_store j flags key val milliseconds ;; mret ok_reply
  end.
(** A two-letter option: [a[0]], [a[1]] and the end of the string. *)
Definition option_is (a : list Z) (lower upper : list Z) : bool :=
  match a ++ [0], lower, upper with
  | x :: y :: z :: _, [lx; ly], [ux; uy] => ((x =? lx) || (x =? ux)) && ((y =? ly) || (y =? uy)) && (z =? 0)
  | _, _, _ => false
  end.
(** The flags, the expire argument and whether it is in seconds; [None] is a
    syntax error. *)
Fixpoint set_options (args : list (list Z)) (flags : Z) (expire : option (list Z)) (seconds : bool) : option (Z * option (list Z) * bool) :=
  match args with
  | [] => Some (flags, expire, seconds)
  | a :: args =>
      if option_is a (text "nx") (text "NX") && negb (has flags OBJ_SET_XX) then set_options args (Z.lor flags OBJ_SET_NX) expire seconds
      else if option_is a (text "xx") (text "XX") && negb (has flags OBJ_SET_NX) then set_options args (Z.lor flags OBJ_SET_XX) expire seconds
      else if strcasecmp_eq (cstr a) (text "KEEPTTL") && negb (has flags OBJ_SET_EX) && negb (has flags OBJ_SET_PX) then set_options args (Z.lor flags OBJ_SET_KEEPTTL) expire seconds
      else match args with
           | next :: args =>
               if option_is a (text "ex") (text "EX") && negb (has flags OBJ_SET_KEEPTTL) && negb (has flags OBJ_SET_PX) then set_options args (Z.lor flags OBJ_SET_EX) (Some next) true
               else if option_is a (text "px") (text "PX") && negb (has flags OBJ_SET_KEEPTTL) && negb (has flags OBJ_SET_EX) then set_options args (Z.lor flags OBJ_SET_PX) (Some next) false
               else None
           | [] => None
           end
  end.
Definition setCommand (c : Z) (key val : list Z) (args : list (list Z)) : M reply :=
  match set_options args OBJ_SET_NO_FLAGS None true with
  | None => mret syntax_error
  | Some (flags, expire, seconds) => setGenericCommand c flags key (encoded val) expire seconds (text "set") ReplyOk ReplyNull
  end.
Definition setnxCommand (c : Z) (key val : list Z) : M reply := setGenericCommand c OBJ_SET_NX key (encoded val) None true (text "setnx") (ReplyInt 1) (ReplyInt 0).
Definition setexCommand (c : Z) (key expire val : list Z) : M reply := setGenericCommand c OBJ_SET_NO_FLAGS key (encoded val) (Some expire) true (text "setex") ReplyOk ReplyNull.
Definition psetexCommand (c : Z) (key expire val : list Z) : M reply := setGenericCommand c OBJ_SET_NO_FLAGS key (encoded val) (Some expire) false (text "psetex") ReplyOk ReplyNull.

(** ** Reading *)
(** [false] is C_ERR. *)
Definition getGenericCommand (c : Z) (key : list Z) : M (reply * bool) :=
  j ← current_db c;
  o ← lookupKeyRead e j key;
  mret (match o with None => (ReplyNull, true) | Some o => match o_val o with VStr v => (ReplyBulk (obj_bytes v), true) | VOther _ _ => (ReplyWrongType, false) end end).
Definition getCommand (c : Z) (key : list Z) : M reply := r ← getGenericCommand c key; mret r.1.
Definition getsetCommand (c : Z) (key val : list Z) : M reply :=
  '(r, ok) ← getGenericCommand c key;
  if negb ok then mret r
  else
    j ← current_db c;
    setKey e j key (new_object (encoded val)) ;;
    notifyKeyspaceEvent (text "set") key j ;;
    add_dirty 1 ;;
    mret r.
Definition getrangeCommand (c : Z) (key a1 a2 : list Z) : M reply :=
  j ← current_db c;
  match string2ll a1 with
  | None => mret not_integer
  | Some start =>
      match string2ll a2 with
      | None => mret not_integer
      | Some stop =>
          o ← lookupKeyRead e j key;
          match o with
          | None => mret (ReplyBulk [])
          | Some o =>
              match o_val o with
              | VOther _ _ => mret ReplyWrongType
              | VStr o =>
                  let str := obj_bytes o in
                  let strlen := zlen str in
                  if (start <? 0) && (stop <? 0) && (start >? stop) then mret (ReplyBulk [])
                  else
                    let start := if start <? 0 then s64 (strlen + u64 start) else start in
                    let stop := if stop <? 0 then s64 (strlen + u64 stop) else stop in
                    let start := if start <? 0 then 0 else start in
                    let stop := if stop <? 0 then 0 else stop in
                    let stop := if stop >=? strlen then s64 (u64 (strlen - 1)) else stop in
                    if (start >? stop) || (strlen =? 0) then mret (ReplyBulk [])
                    else match load str start (stop - start + 1) with Some r => mret (ReplyBulk r) | None => crash end
              end
          end
      end
  end.
Fixpoint mget_loop (j : Z) (keys : list (list Z)) : M (list (option (list Z))) :=
  match keys with
  | [] => mret []
  | key :: keys =>
      o ← lookupKeyRead e j key;
      l ← mget_loop j keys;
      mret ((match o with Some o => match o_val o with VStr v => Some (obj_bytes v) | VOther _ _ => None end | None => None end) :: l)
  end.
Definition mgetCommand (c : Z) (keys : list (list Z)) : M reply := j ← current_db c; l ← mget_loop j keys; mret (ReplyArray l).
Definition strlenCommand (c : Z) (key : list Z) : M reply :=
  j ← current_db c;
  o ← lookupKeyRead e j key;
  mret (match o with None => ReplyInt 0 | Some o => match o_val o with VStr v => ReplyInt (stringObjectLen v) | VOther _ _ => ReplyWrongType end end).

(** ** Writing *)
(** [sdsnewlen(NULL,size)]; no allocation has 2^63 bytes. *)
Definition zeroed (size : Z) : option (list Z) := if size <? 2 ^ 63 then Some (replicate (Z.to_nat size) 0) else None.
Definition grow_zero (s : list Z) (len : Z) : option (list Z) := if len <=? zlen s then Some s else z ← zeroed (len - zlen s); Some (s ++ z).
Definition write_range (j : Z) (key s value : list Z) (offset size : Z) : M reply :=
  match (s ← grow_zero s size; store s offset value) with
  | None => crash
  | Some s =>
      set_in_place j key (StrSds false s) ;;
      signalModifiedKey j key ;;
      notifyKeyspaceEvent (text "setrange") key j ;;
      add_dirty 1 ;;
      mret (ReplyInt (zlen s))
  end.
Definition setrangeCommand (c : Z) (key a1 value : list Z) : M reply :=
  j ← current_db c;
  match string2ll a1 with
  | None => mret not_integer
  | Some offset =>
      if offset <? 0 then mret (ReplyError (text "offset is out of range"))
      else
        o ← lookupKeyWrite e j key;
        let size := u64 (offset + zlen value) in
        match o with
        | None =>
            if zlen value =? 0 then mret (ReplyInt 0)
            else if negb (checkStringLength (s64 size)) then mret too_long
            else match zeroed size with
                 | None => crash
                 | Some s => dbAdd j key (new_object (StrSds false s)) ;; write_range j key s value offset size
                 end
        | Some obj =>
            match o_val obj with
            | VOther _ _ => mret ReplyWrongType
            | VStr o =>
                if zlen value =? 0 then mret (ReplyInt (stringObjectLen o))
                else if negb (checkStringLength (s64 size)) then mret too_long
                else s ← dbUnshareStringValue j key obj o; write_range j key s value offset size
            end
        end
  end.
Fixpoint pairs (args : list (list Z)) : option (list (list Z * list Z)) :=
  match args with [] => Some [] | k :: v :: args => l ← pairs args; Some ((k, v) :: l) | [_] => None end.
Fixpoint any_exists (j : Z) (l : list (list Z * list Z)) : M bool :=
  match l with
  | [] => mret false
  | (key, _) :: l => o ← lookupKeyWrite e j key; match o with Some _ => mret true | None => any_exists j l end
  end.
Fixpoint mset_loop (j : Z) (l : list (list Z * list Z)) : M unit :=
  match l with
  | [] => mret tt
  | (key, val) :: l => setKey e j key (new_object (encoded val)) ;; notifyKeyspaceEvent (text "set") key j ;; mset_loop j l
  end.
Definition msetGenericCommand (c : Z) (args : list (list Z)) (nx : bool) : M reply :=
  match pairs args with
  | None => mret (ReplyError (text "wrong number of arguments for MSET"))
  | Some l =>
      j ← current_db c;
      exist ← (if nx then any_exists j l else mret false);
      if (exist : bool) then mret (ReplyInt 0)
      else mset_loop j l ;; add_dirty (zlen l) ;; mret (if nx then ReplyInt 1 else ReplyOk)
  end.
Definition incrDecrCommand (c : Z) (key : list Z) (incr : Z) : M reply :=
  j ← current_db c;
  o ← lookupKeyWrite e j key;
  match (match o with None => Some None | Some obj => match o_val obj with VStr v => Some (Some v) | VOther _ _ => None end end) with
  | None => mret ReplyWrongType
  | Some v =>
      match getLongLongFromObject v with
      | None => mret not_integer
      | Some oldvalue =>
          if ((incr <? 0) && (oldvalue <? 0) && (incr <? LLONG_MIN - oldvalue)) || ((incr >? 0) && (oldvalue >? 0) && (incr >? LLONG_MAX - oldvalue))
          then mret (ReplyError (text "increment or decrement would overflow"))
          else
            value ← checked (oldvalue + incr);
            match o, v with
            | Some obj, Some (StrInt _) =>
                if private obj && ((value <? 0) || (value >=? 10000)) then set_in_place j key (StrInt value)
                else dbOverwrite e j key (new_object (StrInt value))
            | Some _, _ => dbOverwrite e j key (new_object (StrInt value))
            | None, _ => dbAdd j key (new_object (StrInt value))
            end ;;
            signalModifiedKey j key ;;
            notifyKeyspaceEvent (text "incrby") key j ;;
            add_dirty 1 ;;
            mret (ReplyInt value)
      end
  end.
Definition incrCommand (c : Z) (key : list Z) : M reply := incrDecrCommand c key 1.
Definition decrCommand (c : Z) (key : list Z) : M reply := incrDecrCommand c key (-1).
Definition incrbyCommand (c : Z) (key arg : list Z) : M reply := match string2ll arg with None => mret not_integer | Some incr => incrDecrCommand c key incr end.
Definition decrbyCommand (c : Z) (key arg : list Z) : M reply := match string2ll arg with None => mret not_integer | Some incr => incr ← checked (- incr); incrDecrCommand c key incr end.
Definition appendCommand (c : Z) (key value : list Z) : M reply :=
  j ← current_db c;
  o ← lookupKeyWrite e j key;
  let finish (totlen : Z) : M reply := signalModifiedKey j key ;; notifyKeyspaceEvent (text "append") key j ;; add_dirty 1 ;; mret (ReplyInt totlen) in
  match o with
  | None => dbAdd j key (new_object (encoded value)) ;; finish (stringObjectLen (encoded value))
  | Some obj =>
      match o_val obj with
      | VOther _ _ => mret ReplyWrongType
      | VStr o =>
          let totlen := u64 (stringObjectLen o + zlen value) in
          if negb (checkStringLength (s64 totlen)) then mret too_long
          else
            s ← dbUnshareStringValue j key obj o;
            let s := s ++ value in
            set_in_place j key (StrSds false s) ;; finish (zlen s)
      end
  end.
End Tstring.

(** ** What the commands mean *)
Definition a_set (A : abs) (j : Z) (k : list Z) (v : list Z) (t : option Z) : abs := a_signal (a_put A j k (Some (AStr v, t))) (Modified j k).
Definition spec_set (clock : Z) (A : abs) (j flags : Z) (k v : list Z) (expire : option (list Z)) (unit : Z) (cmd : list Z) (ok_reply abort_reply : reply) : abs * reply :=
  match expire_arg expire cmd with
  | inr err => (A, err)
  | inl ms =>
      let ms := (fun x => x * unit) <$> ms in
      let exist := bool_decide (is_Some (a_get A j k)) in
      if (has flags OBJ_SET_NX && exist) || (has flags OBJ_SET_XX && negb exist) then (A, abort_reply)
      else (a_set A j k v (match ms with Some ms => Some (clock + ms) | None => if has flags OBJ_SET_KEEPTTL then a_get A j k ≫= snd else None end), ok_reply)
  end.
Definition spec_get (A : abs) (j : Z) (k : list Z) : reply := match a_get A j k with None => ReplyNull | Some (AStr s, _) => ReplyBulk s | Some (AOther _ _, _) => ReplyWrongType end.
Definition spec_getset (A : abs) (j : Z) (k v : list Z) : abs * reply :=
  match a_get A j k with Some (AOther _ _, _) => (A, ReplyWrongType) | _ => (a_set A j k v None, spec_get A j k) end.
(** The bytes from [start] to [stop], which count from the end if negative. *)
Definition range (s : list Z) (start stop : Z) : list Z :=
  let start' := if start <? 0 then Z.max 0 (zlen s + start) else start in
  let stop' := Z.min (zlen s - 1) (if stop <? 0 then Z.max 0 (zlen s + stop) else stop) in
  if (start <? 0) && (stop <? 0) && (start >? stop) then [] else take (Z.to_nat (stop' - start' + 1)) (drop (Z.to_nat start') s).
Definition spec_getrange (A : abs) (j : Z) (k a1 a2 : list Z) : abs * reply :=
  (A, match string2ll a1, string2ll a2 with
      | Some start, Some stop => match a_get A j k with None => ReplyBulk [] | Some (AStr s, _) => ReplyBulk (range s start stop) | Some (AOther _ _, _) => ReplyWrongType end
      | _, _ => not_integer
      end).
Definition spec_mget (A : abs) (j : Z) (keys : list (list Z)) : abs * reply :=
  (A, ReplyArray (map (fun k => match a_get A j k with Some (AStr s, _) => Some s | _ => None end) keys)).
Definition spec_strlen (A : abs) (j : Z) (k : list Z) : abs * reply :=
  (A, match a_get A j k with None => ReplyInt 0 | Some (AStr s, _) => ReplyInt (zlen s) | Some (AOther _ _, _) => ReplyWrongType end).
(** The string with [v] at [offset], padded with zeros. *)
Definition overlay (s : list Z) (offset : Z) (v : list Z) : list Z :=
  take (Z.to_nat offset) (s ++ replicate (Z.to_nat offset - length s) 0) ++ v ++ drop (Z.to_nat offset + length v) s.
Definition spec_setrange (A : abs) (j : Z) (k a1 v : list Z) : abs * reply :=
  match string2ll a1 with
  | None => (A, not_integer)
  | Some offset =>
      if offset <? 0 then (A, ReplyError (text "offset is out of range"))
      else
        let set s t := if offset + zlen v >? MAX_STRING then (A, too_long) else (a_set A j k (overlay s offset v) t, ReplyInt (zlen (overlay s offset v))) in
        match a_get A j k with
        | None => if zlen v =? 0 then (A, ReplyInt 0) else set [] None
        | Some (AOther _ _, _) => (A, ReplyWrongType)
        | Some (AStr s, t) => if zlen v =? 0 then (A, ReplyInt (zlen s)) else set s t
        end
  end.
Definition spec_mset (A : abs) (j : Z) (args : list (list Z)) (nx : bool) : abs * reply :=
  match pairs args with
  | None => (A, ReplyError (text "wrong number of arguments for MSET"))
  | Some l =>
      if nx && existsb (fun x => bool_decide (is_Some (a_get A j x.1))) l then (A, ReplyInt 0)
      else (foldl (fun A x => a_set A j x.1 x.2 None) A l, if nx then ReplyInt 1 else ReplyOk)
  end.
Definition spec_incr (A : abs) (j : Z) (k : list Z) (incr : Z) : abs * reply :=
  match a_get A j k with
  | Some (AOther _ _, _) => (A, ReplyWrongType)
  | x =>
      match (match x with Some (AStr s, _) => string2ll s | _ => Some 0 end) with
      | None => (A, not_integer)
      | Some v =>
          if (v + incr <? LLONG_MIN) || (v + incr >? LLONG_MAX) then (A, ReplyError (text "increment or decrement would overflow"))
          else (a_set A j k (dec (v + incr)) (x ≫= snd), ReplyInt (v + incr))
      end
  end.
Definition spec_append (A : abs) (j : Z) (k v : list Z) : abs * reply :=
  match a_get A j k with
  | Some (AOther _ _, _) => (A, ReplyWrongType)
  | None => (a_set A j k v None, ReplyInt (zlen v))
  | Some (AStr s, t) => if zlen s + zlen v >? MAX_STRING then (A, too_long) else (a_set A j k (s ++ v) t, ReplyInt (zlen s + zlen v))
  end.

(** ** The string commands implement their meaning *)
Section Strings.
  Context (e : env) (n : Z) (private : robj -> bool).
  Hypothesis (Hok : env_ok e) (Hnow : expire_now e = n).
Let Hload : loading e = false := env_loading e Hok.

Lemma encoded_bytes v : obj_bytes (encoded v) = v.
Proof. unfold encoded. by rewrite try_encoding_bytes. Qed.
Lemma bytes_len o : val_ok (VStr o) -> zlen (obj_bytes o) <= MAX_STRING /\ stringObjectLen o = zlen (obj_bytes o).
Proof. destruct o as [v|b bs]; cbn [val_ok obj_bytes stringObjectLen]; intros Hv; [|done]. pose proof (dec_len20 v Hv). split; [unfold MAX_STRING; lia|]. by apply sdigits10_dec. Qed.
Lemma encoded_ok v : zlen v <= MAX_STRING -> val_ok (VStr (encoded v)).
Proof.
  intros Hv. unfold encoded, tryObjectEncoding. cbv zeta. destruct (if zlen v <=? 20 then string2l v else None) as [x|] eqn:E; [|by repeat case_match]. destruct (zlen v <=? 20); [|done]. cbn. unfold string2l in E. destruct (string2ll v) as [u|] eqn:E2; [|done]. apply string2ll_iff in E2 as [E2 _]. case_match; [done|]. by injection E as <-.
Qed.
Lemma set_in_place_sim s A K j k o v t : sim n s A K -> 0 <= j < zlen (a_dbs A) -> a_get A j k = Some (v, t) -> val_ok (VStr o) ->
  wp (set_in_place j k o) s (fun s' _ => sim n s' (a_put A j k (Some (AStr (obj_bytes o), t))) ((j, k) :: K)).
Proof.
  intros Hs Hj Hg Hv. unfold set_in_place. wp_use sim_get. destruct H as (-> & Hd & Ha & Ho). destruct (valid_time n a A j k v t Ha Ho Hg) as (o' & E1 & E2 & E3 & E4 & E5 & E6). rewrite E1.
  wp_use (sim_put n s A K j a k (Some (mk_robj (VStr o) (o_lru o'), t))); [unfold upd, set_dict; cbn; f_equal; symmetry; by apply alter_same|]. by destruct H as [H _].
Qed.
Lemma unshare_sim s A K j k obj o t : sim n s A K -> 0 <= j < zlen (a_dbs A) -> a_get A j k = Some (AStr (obj_bytes o), t) -> val_ok (VStr o) ->
  wp (dbUnshareStringValue e private j k obj o) s (fun s' r => sim n s' A K /\ r = obj_bytes o).
Proof.
  intros Hs Hj Hg Hv. assert (Hw : wp (dbOverwrite e j k (new_object e (StrSds false (obj_bytes o))) ;; mret (obj_bytes o)) s (fun s' r => sim n s' A K /\ r = obj_bytes o)).
  { wp_use (dbOverwrite_sim e n); [cbn [new_object o_val val_ok]; by apply bytes_len|]. cbn [new_object o_val a_value obj_bytes] in H. rewrite <- Hg, a_put_same in H. apply wp_ret. split; [eapply sim_weaken; [done|set_solver]|done]. }
  unfold dbUnshareStringValue. destruct o as [v|[] bs]; try done. destruct (private obj); [|done]. by apply wp_ret.
Qed.
Lemma get_refines c k : can_read e -> refines n (getCommand e c k) (fun A => (A, spec_get A (a_db A c) k)).
Proof.
  intros Hr s A Hs. unfold getCommand, getGenericCommand, spec_get. apply wp_bind. wp_use sim_current. destruct H as (-> & -> & Hj). unfold lookupKeyRead. wp_use read_sim. destruct H as [H Hf]. apply wp_ret, wp_ret. split; [done|]. destruct a as [o|]; [apply found_some in Hf as (t & -> & _)|apply found_none in Hf; by rewrite Hf]. cbn [snd a_value]. by destruct (o_val o).
Qed.
Lemma strlen_refines c k : can_read e -> refines n (strlenCommand e c k) (fun A => spec_strlen A (a_db A c) k).
Proof.
  intros Hr s A Hs. unfold strlenCommand, spec_strlen. wp_use sim_current. destruct H as (-> & -> & Hj). unfold lookupKeyRead. wp_use read_sim. destruct H as [H Hf]. apply wp_ret. split; [done|]. destruct a as [o|]; [apply found_some in Hf as (t & -> & Hv)|apply found_none in Hf; by rewrite Hf]. cbn [snd]. destruct (o_val o) as [x|]; cbn [a_value]; [|done]. by rewrite (proj2 (bytes_len x Hv)).
Qed.
Lemma mget_refines c keys : can_read e -> refines n (mgetCommand e c keys) (fun A => spec_mget A (a_db A c) keys).
Proof.
  intros Hr s A Hs. unfold mgetCommand, spec_mget. wp_use sim_current. destruct H as (-> & -> & Hj). assert (Hl : wp (mget_loop e (a_db A c) keys) s (fun s' l => sim n s' A [] /\ l = map (fun k => match a_get A (a_db A c) k with Some (AStr s, _) => Some s | _ => None end) keys)).
  { revert s Hs. induction keys as [|k keys IH]; intros s Hs; [by apply wp_ret|]. cbn [mget_loop]. unfold lookupKeyRead. wp_use read_sim. destruct H as [H Hf]. apply wp_bind. eapply wp_mono; [by apply IH|]. cbv beta. intros s' l [Hs' ->]. apply wp_ret. split; [done|]. cbn [map]. f_equal. destruct a as [o|]; [apply found_some in Hf as (t & -> & _)|apply found_none in Hf; by rewrite Hf]. by destruct (o_val o). }
  apply wp_bind. eapply wp_mono; [exact Hl|]. cbv beta. intros s' l [Hs' ->]. by apply wp_ret.
Qed.

(** The machine arithmetic of GETRANGE computes the range. *)
Lemma range_bytes s start stop : zlen s <= MAX_STRING -> in_s 64 start -> in_s 64 stop ->
  (if (start <? 0) && (stop <? 0) && (start >? stop) then Some []
   else
     let start := if start <? 0 then s64 (zlen s + u64 start) else start in
     let stop := if stop <? 0 then s64 (zlen s + u64 stop) else stop in
     let start := if start <? 0 then 0 else start in
     let stop := if stop <? 0 then 0 else stop in
     let stop := if stop >=? zlen s then s64 (u64 (zlen s - 1)) else stop in
     if (start >? stop) || (zlen s =? 0) then Some [] else load s start (stop - start + 1)) = Some (range s start stop).
Proof.
  intros Hs H1 H2. unfold range. destruct ((start <? 0) && (stop <? 0) && (start >? stop)); [done|]. cbv zeta. pose proof (zlen_nonneg s) as H0.
  assert (Hc : forall x, in_s 64 x -> x < 0 -> s64 (zlen s + u64 x) = zlen s + x).
  { intros x Hx Hn. assert (E : u64 x = x + 2 ^ 64) by (unfold wrapu; rewrite <- (Z_mod_plus_full x 1), Z.mod_small; unfold in_s in *; lia). rewrite E. unfold wraps, in_s, MAX_STRING in *. replace (zlen s + (x + 2 ^ 64) + 2 ^ (64 - 1)) with (zlen s + x + 2 ^ 63 + 1 * 2 ^ 64) by lia. rewrite Z_mod_plus_full, Z.mod_small; lia. }
  set (st := if start <? 0 then Z.max 0 (zlen s + start) else start). set (sp := if stop <? 0 then Z.max 0 (zlen s + stop) else stop).
  assert (E1 : (if (if start <? 0 then s64 (zlen s + u64 start) else start) <? 0 then 0 else if start <? 0 then s64 (zlen s + u64 start) else start) = st) by (unfold st; destruct (Z.ltb_spec start 0); [rewrite Hc by (done || lia); destruct (Z.ltb_spec (zlen s + start) 0); lia|rewrite (proj2 (Z.ltb_ge start 0)); lia]).
  assert (E2 : (if (if stop <? 0 then s64 (zlen s + u64 stop) else stop) <? 0 then 0 else if stop <? 0 then s64 (zlen s + u64 stop) else stop) = sp) by (unfold sp; destruct (Z.ltb_spec stop 0); [rewrite Hc by (done || lia); destruct (Z.ltb_spec (zlen s + stop) 0); lia|rewrite (proj2 (Z.ltb_ge stop 0)); lia]).
  rewrite E1, E2. assert (Hst : 0 <= st) by (unfold st; destruct (Z.ltb_spec start 0); lia). assert (Hsp : 0 <= sp) by (unfold sp; destruct (Z.ltb_spec stop 0); lia). clearbody st sp. clear E1 E2.
  destruct (Z.eqb_spec (zlen s) 0) as [Ez|Hz]; [rewrite orb_true_r; destruct s; [by rewrite drop_nil, take_nil|unfold zlen in Ez; cbn in Ez; lia]|]. rewrite orb_false_r.
  assert (E3 : (if sp >=? zlen s then s64 (u64 (zlen s - 1)) else sp) = Z.min (zlen s - 1) sp).
  { rewrite wrapu_small by (unfold MAX_STRING in *; lia). rewrite wraps_small by (unfold in_s, MAX_STRING in *; lia). destruct (sp >=? zlen s) eqn:E; lia. }
  rewrite E3. destruct (st >? Z.min (zlen s - 1) sp) eqn:E.
  - replace (Z.to_nat (Z.min (zlen s - 1) sp - st + 1)) with 0%nat by lia. done.
  - unfold load. rewrite (proj2 (Z.leb_le 0 st)), (proj2 (Z.leb_le 0 (Z.min (zlen s - 1) sp - st + 1))), (proj2 (Z.leb_le _ (zlen s))) by lia. done.
Qed.
Lemma arg_range a x : string2ll a = Some x -> in_s 64 x.
Proof. by intros [H _]%string2ll_iff. Qed.
Lemma getrange_refines c k a1 a2 : can_read e -> refines n (getrangeCommand e c k a1 a2) (fun A => spec_getrange A (a_db A c) k a1 a2).
Proof.
  intros Hr s A Hs. unfold getrangeCommand, spec_getrange. wp_use sim_current. destruct H as (-> & -> & Hj). destruct (string2ll a1) as [start|] eqn:E1; [|by eapply done_sim]. destruct (string2ll a2) as [stop|] eqn:E2; [|by eapply done_sim].
  unfold lookupKeyRead. wp_use read_sim. destruct H as [H Hf]. destruct a as [o|]; [apply found_some in Hf as (t & Hg & Hv)|apply found_none in Hf; rewrite Hf; by eapply done_sim]. rewrite Hg. destruct (o_val o) as [x|]; cbn [a_value]; [|by eapply done_sim].
  destruct (bytes_len x Hv) as [Hl _]. pose proof (range_bytes (obj_bytes x) start stop Hl (arg_range _ _ E1) (arg_range _ _ E2)) as Hb. cbv zeta in Hb |- *. destruct ((start <? 0) && (stop <? 0) && (start >? stop)); [injection Hb as <-; by eapply done_sim|]. destruct (_ || _); [injection Hb as <-; by eapply done_sim|]. rewrite Hb. by eapply done_sim.
Qed.
Lemma a_set_sim s A K j k v t r : sim n s (a_put A j k (Some (AStr v, t))) K -> forall ev, wp (signalModifiedKey j k ;; notifyKeyspaceEvent ev k j ;; add_dirty 1 ;; mret (ReplyInt r)) s (fun s' x => sim n s' (a_set A j k v t) [] /\ x = ReplyInt r).
Proof. intros Hs ev. wp_use sim_signal. wp_use sim_emit. wp_use sim_dirty. by eapply done_sim. Qed.
Lemma put_signal A x j k y : a_put (a_signal A x) j k y = a_signal (a_put A j k y) x.
Proof. done. Qed.
Lemma aborts_sim s A j flags k : sim n s A [] -> 0 <= j < zlen (a_dbs A) -> masterhost e = false ->
  wp (set_aborts e j flags k) s (fun s' r => sim n s' A [] /\ let exist := bool_decide (is_Some (a_get A j k)) in r = (has flags OBJ_SET_NX && exist) || (has flags OBJ_SET_XX && negb exist)).
Proof.
  intros Hs Hj Hm. cbv zeta. set (exist := bool_decide (is_Some (a_get A j k))).
  assert (Hl : forall s, sim n s A [] -> wp (lookupKeyWrite e j k) s (fun s' r => sim n s' A [] /\ exist = match r with Some _ => true | None => false end)).
  { intros s' Hs'. wp_use write_sim. destruct H as [H Hf]. split; [by eapply sim_drop|]. unfold exist. destruct a as [o|]; [apply found_some in Hf as (t & -> & _)|apply found_none in Hf; by rewrite Hf]. by rewrite bool_decide_true. }
  clearbody exist. assert (Hxx : forall s, sim n s A [] -> wp (if has flags OBJ_SET_XX then o ← lookupKeyWrite e j k; mret (match o with None => true | Some _ => false end) else mret false) s (fun s' r => sim n s' A [] /\ r = has flags OBJ_SET_XX && negb exist)).
  { intros s' Hs'. destruct (has flags OBJ_SET_XX); [|by apply wp_ret]. wp_use Hl. destruct H as [H ->]. apply wp_ret. by destruct a. }
  unfold set_aborts. destruct (has flags OBJ_SET_NX); [|wp_do; by apply Hxx]. apply wp_bind. wp_use Hl. destruct H as [H ->]. apply wp_ret. destruct a; [by apply wp_ret|]. by apply Hxx.
Qed.
Lemma store_sim s A j flags k o ms : sim n s A [] -> 0 <= j < zlen (a_dbs A) -> masterhost e = false -> val_ok (VStr o) -> (forall x, ms = Some x -> 0 < x /\ in_s 64 (mstime1 e + x)) ->
  wp (set_store e j flags k o ms) s (fun s' _ => sim n s' (a_set A j k (obj_bytes o) (match ms with Some ms => Some (mstime1 e + ms) | None => if has flags OBJ_SET_KEEPTTL then a_get A j k ≫= snd else None end)) []).
Proof.
  intros Hs Hj Hm Hv Hms. unfold set_store. wp_use setKey_sim. cbv zeta in H. cbn [new_object o_val a_value] in H. wp_use sim_dirty. destruct ms as [x|].
  - destruct (Hms x eq_refl) as [Hp Hx]. pose proof (env_start e Hok). pose proof (env_clock e Hok). pose proof (env_nonneg e Hok). apply wp_bind, wp_bind, checked_sim; [done|]. wp_use (setExpire_sim e n); [cbn [a_signal a_dbs]; by rewrite put_range|rewrite get_signal, get_put by lia; done|unfold in_s, LLONG_MAX in *; lia|].
    wp_use sim_emit. rewrite put_signal, put_twice in H5. wp_use sim_emit. by eapply sim_drop.
  - wp_do. wp_use sim_emit. apply wp_ret. by eapply sim_drop.
Qed.
Definition set_fits (expire : option (list Z)) (unit : Z) : Prop := forall x ms, expire = Some x -> string2ll x = Some ms -> 0 < ms -> in_s 64 (ms * unit) /\ in_s 64 (mstime1 e + ms * unit).
Lemma set_refines c flags k o expire (seconds : bool) cmd ok_reply abort_reply : masterhost e = false -> val_ok (VStr o) -> set_fits expire (if seconds then 1000 else 1) ->
  refines n (setGenericCommand e c flags k o expire seconds cmd ok_reply abort_reply) (fun A => spec_set (mstime1 e) A (a_db A c) flags k (obj_bytes o) expire (if seconds then 1000 else 1) cmd ok_reply abort_reply).
Proof.
  intros Hm Hv Hfit s A Hs. unfold setGenericCommand, spec_set. wp_use sim_current. destruct H as (-> & -> & Hj). set (unit := if seconds then 1000 else 1) in *.
  assert (Hms : forall ms, expire_arg expire cmd = inl ms -> wp (in_milliseconds ms seconds) s (fun s' r => s' = s /\ r = (fun x => x * unit) <$> ms /\ forall x, r = Some x -> 0 < x /\ in_s 64 (mstime1 e + x))).
  { intros ms Ems. unfold expire_arg in Ems. destruct expire as [x|]; [|injection Ems as <-; by apply wp_ret]. destruct (string2ll x) as [y|] eqn:Ex; [|done]. destruct (Z.leb_spec y 0) as [Hle|Hlt]; [done|]. injection Ems as <-. destruct (Hfit x y eq_refl Ex Hlt) as [F1 F2]. cbn [in_milliseconds]. unfold unit in *. destruct seconds; [apply wp_bind, checked_sim; [done|]|]; apply wp_ret; (split; [done|]); (split; [cbn; f_equal; lia|]); intros z [= <-]; (split; [lia|]); [done|]. by rewrite Z.mul_1_r in F2. }
  destruct (expire_arg expire cmd) as [ms|err]; [|by eapply done_sim]. specialize (Hms ms eq_refl). apply wp_bind. eapply wp_mono; [exact Hms|]. cbv beta. intros s' r (-> & <- & Hr). wp_use aborts_sim. destruct H as [H ->]. cbv zeta. destruct (_ || _); [by eapply done_sim|]. wp_use store_sim. by eapply done_sim.
Qed.
Lemma getset_refines c k v : masterhost e = false -> zlen v <= MAX_STRING -> refines n (getsetCommand e c k v) (fun A => spec_getset A (a_db A c) k v).
Proof.
  intros Hm Hv s A Hs. unfold getsetCommand, getGenericCommand, spec_getset, spec_get. apply wp_bind. wp_use sim_current. destruct H as (-> & -> & Hj). unfold lookupKeyRead. wp_use read_sim; [by left|]. destruct H as [H Hf]. apply wp_ret.
  assert (Hset : forall (r : reply) s', sim n s' A [] -> wp (j ← current_db c; setKey e j k (new_object e (encoded v)) ;; notifyKeyspaceEvent (text "set") k j ;; add_dirty 1 ;; mret r) s' (fun s' (x : reply) => sim n s' (a_set A (a_db A c) k v None) [] /\ x = r)).
  { intros r s' Hs'. wp_use sim_current. destruct H0 as (-> & -> & _). unfold setKey. wp_use setKey_sim; [by apply encoded_ok|]. cbv zeta in H0. cbn [new_object o_val a_value] in H0. rewrite encoded_bytes in H0. wp_use sim_emit. wp_use sim_dirty. by eapply done_sim. }
  destruct a as [o|]; [apply found_some in Hf as (t & Hg & _)|apply found_none in Hf as Hg]; rewrite Hg; [|by apply Hset]. destruct (o_val o) as [x|]; cbn [a_value negb]; [by apply Hset|by eapply done_sim].
Qed.
(** A new string at a key, with its old time. *)
Lemma overlay_store s offset v : 0 <= offset -> offset + zlen v < 2 ^ 63 -> (s ← grow_zero s (offset + zlen v); store s offset v) = Some (overlay s offset v).
Proof.
  intros Ho Hm. pose proof (zlen_nonneg s). pose proof (zlen_nonneg v). set (s1 := s ++ replicate (Z.to_nat (offset + zlen v) - length s) 0).
  assert (E : grow_zero s (offset + zlen v) = Some s1).
  { unfold grow_zero, zeroed. destruct (Z.leb_spec (offset + zlen v) (zlen s)); [unfold s1; replace (Z.to_nat (offset + zlen v) - length s)%nat with 0%nat by (unfold zlen in *; lia); by rewrite app_nil_r|]. rewrite (proj2 (Z.ltb_lt _ _)) by lia. cbn [mbind option_bind]. unfold s1. do 3 f_equal. unfold zlen in *. lia. }
  rewrite E. cbn [mbind option_bind]. assert (Hl : (Z.to_nat offset + length v <= length s1)%nat) by (unfold s1; rewrite length_app, length_replicate; unfold zlen in *; lia).
  unfold store. rewrite (proj2 (Z.leb_le 0 offset)), (proj2 (Z.leb_le _ (zlen s1))) by (unfold zlen in *; lia). cbn [andb].
  unfold overlay. f_equal. f_equal; [|f_equal]; unfold s1, zlen in *.
  - rewrite !take_app, !take_replicate. f_equal. f_equal. lia.
  - rewrite drop_app. replace (drop (Z.to_nat offset + length v - length s) (replicate (Z.to_nat (offset + Z.of_nat (length v)) - length s) 0)) with (@nil Z); [by rewrite app_nil_r|]. rewrite drop_replicate. by replace (Z.to_nat (offset + Z.of_nat (length v)) - length s - (Z.to_nat offset + length v - length s))%nat with 0%nat by lia.
Qed.
Lemma overlay_len s offset v : 0 <= offset -> zlen (overlay s offset v) = Z.max (zlen s) (offset + zlen v).
Proof. intros Ho. unfold overlay, zlen. rewrite !length_app, length_take, length_app, length_replicate, length_drop. lia. Qed.
Lemma write_range_sim s A K j k x v offset u t : sim n s A K -> 0 <= j < zlen (a_dbs A) -> a_get A j k = Some (u, t) -> 0 <= offset -> offset + zlen v <= MAX_STRING -> zlen x <= MAX_STRING ->
  wp (write_range j k x v offset (offset + zlen v)) s (fun s' r => sim n s' (a_set A j k (overlay x offset v) t) [] /\ r = ReplyInt (zlen (overlay x offset v))).
Proof.
  intros Hs Hj Hg Ho Hm Hx. unfold write_range. rewrite overlay_store by (unfold MAX_STRING in *; lia). wp_use set_in_place_sim; [cbn [val_ok]; rewrite overlay_len by done; unfold MAX_STRING in *; lia|]. by eapply a_set_sim.
Qed.
Lemma check_length z : 0 <= z <= LLONG_MAX -> u64 z = z /\ checkStringLength (s64 z) = negb (z >? MAX_STRING).
Proof. intros Hz. unfold LLONG_MAX in *. rewrite wrapu_small by lia. rewrite wraps_small by (unfold in_s; lia). split; [done|]. unfold checkStringLength, MAX_STRING. lia. Qed.
Lemma setrange_refines c k a1 v : masterhost e = false -> (forall x, string2ll a1 = Some x -> x + zlen v <= LLONG_MAX) -> refines n (setrangeCommand e private c k a1 v) (fun A => spec_setrange A (a_db A c) k a1 v).
Proof.
  intros Hm Hfit s A Hs. unfold setrangeCommand, spec_setrange. wp_use sim_current. destruct H as (-> & -> & Hj). destruct (string2ll a1) as [offset|] eqn:E1; [|by eapply done_sim]. specialize (Hfit offset eq_refl). destruct (Z.ltb_spec offset 0) as [|Ho]; [by eapply done_sim|]. pose proof (zlen_nonneg v). pose proof (arg_range _ _ E1) as Hr.
  destruct (check_length (offset + zlen v) ltac:(lia)) as [Eu Ec]. cbv zeta. rewrite Eu, Ec, negb_involutive. wp_use write_sim. destruct H0 as [H0 Hf]. destruct a as [o|].
  - apply found_some in Hf as (t & Hg & Hv). rewrite Hg. destruct (o_val o) as [x|]; cbn [a_value]; [|by eapply done_sim]. destruct (bytes_len x Hv) as [Hl El]. rewrite El. destruct (zlen v =? 0); [by eapply done_sim|]. destruct (offset + zlen v >? MAX_STRING) eqn:Eg; [by eapply done_sim|]. wp_use unshare_sim. destruct H1 as [H1 ->]. eapply write_range_sim; (done || lia).
  - apply found_none in Hf as Hg. rewrite Hg. destruct (zlen v =? 0); [by eapply done_sim|]. destruct (offset + zlen v >? MAX_STRING) eqn:Eg; [by eapply done_sim|]. unfold zeroed. rewrite (proj2 (Z.ltb_lt _ _)) by (unfold MAX_STRING in *; lia). set (z := replicate _ _). assert (Hz : zlen z = offset + zlen v) by (unfold zlen, z; rewrite length_replicate; unfold zlen; lia).
    wp_use (dbAdd_sim n); [set_solver|cbn; unfold MAX_STRING in *; lia|]. eapply wp_mono; [eapply write_range_sim; [exact H1|by rewrite put_range|by apply get_put|lia|lia|lia]|]. cbv beta. intros s' r [Hs' ->]. assert (Eo : overlay z offset v = overlay [] offset v). { unfold overlay, z. rewrite drop_replicate, drop_nil, app_nil_l, !take_app, !take_replicate, !length_replicate. cbn [length]. rewrite Nat.sub_0_r. replace (Z.to_nat (offset + zlen v) - (Z.to_nat offset + length v))%nat with 0%nat by (unfold zlen; lia). rewrite !app_nil_r. rewrite <- replicate_add. do 2 f_equal. unfold zlen. lia. }
    unfold a_set in *. rewrite put_twice in Hs'. by rewrite Eo in *.
Qed.
Lemma set_range A j k v t : zlen (a_dbs (a_set A j k v t)) = zlen (a_dbs A).
Proof. apply put_range. Qed.
Lemma any_sim j l : masterhost e = false -> forall s A, sim n s A [] -> 0 <= j < zlen (a_dbs A) -> wp (any_exists e j l) s (fun s' r => sim n s' A [] /\ r = existsb (fun x => bool_decide (is_Some (a_get A j x.1))) l).
Proof.
  intros Hm. induction l as [|[k v] l IH]; intros s A Hs Hj; [by apply wp_ret|]. cbn [any_exists existsb fst]. wp_use write_sim. destruct H as [H Hf]. destruct a as [o|].
  - apply found_some in Hf as (t & -> & _). apply wp_ret. split; [by eapply sim_drop|]. by rewrite bool_decide_true.
  - apply found_none in Hf. rewrite Hf. rewrite bool_decide_false by (by intros [? ?]). apply IH; [by eapply sim_drop|done].
Qed.
Lemma mset_loop_sim j l : masterhost e = false -> Forall (fun x => zlen x.2 <= MAX_STRING) l -> forall s A, sim n s A [] -> 0 <= j < zlen (a_dbs A) ->
  wp (mset_loop e j l) s (fun s' _ => sim n s' (foldl (fun A x => a_set A j x.1 x.2 None) A l) []).
Proof.
  intros Hm Hl. induction Hl as [|[k v] l Hv Hl IH]; intros s A Hs Hj; [by apply wp_ret|]. cbn [mset_loop foldl fst snd] in *. unfold setKey. wp_use setKey_sim; [by apply encoded_ok|]. cbv zeta in H. cbn [new_object o_val a_value] in H. rewrite encoded_bytes in H. wp_use sim_emit. apply IH; [by eapply sim_drop|by rewrite set_range].
Qed.
Lemma mset_refines c args nx : masterhost e = false -> Forall (fun v => zlen v <= MAX_STRING) args -> refines n (msetGenericCommand e c args nx) (fun A => spec_mset A (a_db A c) args nx).
Proof.
  intros Hm Hv s A Hs. unfold msetGenericCommand, spec_mset. destruct (pairs args) as [l|] eqn:El; [|by eapply done_sim].
  assert (Hl : Forall (fun x : list Z * list Z => zlen x.2 <= MAX_STRING) l).
  { revert l El. induction args as [args IH] using (induction_ltof1 _ length). destruct args as [|k [|v args]]; intros l El; cbn in El; [injection El as <-; constructor|done|]. apply Forall_cons in Hv as [_ [Hv Hvs]%Forall_cons]. destruct (pairs args) as [l'|] eqn:El'; [|done]. injection El as <-. constructor; [done|]. apply (IH args); [unfold ltof; cbn; lia|done|done]. }
  wp_use sim_current. destruct H as (-> & -> & Hj). assert (Hex : wp (if nx then any_exists e (a_db A c) l else mret false) s (fun s' r => sim n s' A [] /\ r = nx && existsb (fun x => bool_decide (is_Some (a_get A (a_db A c) x.1))) l)) by (destruct nx; [by apply any_sim|by apply wp_ret]).
  apply wp_bind. eapply wp_mono; [exact Hex|]. cbv beta. intros s' r [Hs' ->]. destruct (nx && _); [by eapply done_sim|]. wp_use mset_loop_sim. wp_use sim_dirty. by eapply done_sim.
Qed.
Lemma int_value x : val_ok (VStr x) -> getLongLongFromObject (Some x) = string2ll (obj_bytes x).
Proof. destruct x as [v|b bs]; cbn [getLongLongFromObject obj_bytes val_ok]; intros Hv; [|done]. symmetry. by apply string2ll_iff. Qed.
Lemma overflow_test v incr : in_s 64 v -> in_s 64 incr ->
  ((incr <? 0) && (v <? 0) && (incr <? LLONG_MIN - v)) || ((incr >? 0) && (v >? 0) && (incr >? LLONG_MAX - v)) = (v + incr <? LLONG_MIN) || (v + incr >? LLONG_MAX).
Proof. unfold in_s, LLONG_MIN, LLONG_MAX. lia. Qed.
Lemma incr_refines c k incr : masterhost e = false -> in_s 64 incr -> refines n (incrDecrCommand e private c k incr) (fun A => spec_incr A (a_db A c) k incr).
Proof.
  intros Hm Hi s A Hs. unfold incrDecrCommand, spec_incr. wp_use sim_current. destruct H as (-> & -> & Hj). set (j := a_db A c) in *. wp_use write_sim. destruct H as [H Hf].
  assert (Hgo : forall old (store : Z -> M unit) t, in_s 64 old -> (forall value s1, in_s 64 value -> sim n s1 A ((j, k) :: []) -> wp (store value) s1 (fun s' _ => exists K, sim n s' (a_put A j k (Some (AStr (dec value), t))) K)) ->
    wp (if ((incr <? 0) && (old <? 0) && (incr <? LLONG_MIN - old)) || ((incr >? 0) && (old >? 0) && (incr >? LLONG_MAX - old)) then mret (ReplyError (text "increment or decrement would overflow"))
        else value ← checked (old + incr); store value ;; signalModifiedKey j k ;; notifyKeyspaceEvent (text "incrby") k j ;; add_dirty 1 ;; mret (ReplyInt value)) s0
      (fun s' (r : reply) => let x := if (old + incr <? LLONG_MIN) || (old + incr >? LLONG_MAX) then (A, ReplyError (text "increment or decrement would overflow")) else (a_set A j k (dec (old + incr)) t, ReplyInt (old + incr)) in sim n s' x.1 [] /\ r = x.2)).
  { intros old store t Ho Hst. rewrite overflow_test by done. destruct (_ || _) eqn:E; [by eapply done_sim|]. assert (Hval : in_s 64 (old + incr)) by (unfold in_s, LLONG_MIN, LLONG_MAX in *; lia). apply wp_bind, checked_sim; [done|]. apply wp_bind. eapply wp_mono; [by apply Hst|]. cbv beta. intros s' _ [K Hs']. by eapply a_set_sim. }
  destruct a as [o|].
  - apply found_some in Hf as (t & Hg & Hv). rewrite Hg. destruct (o_val o) as [x|] eqn:Ex; cbn [a_value]; [|by eapply done_sim]. rewrite (int_value x Hv). destruct (string2ll (obj_bytes x)) as [old|] eqn:Eo; [|by eapply done_sim]. cbn [mbind option_bind snd].
    assert (Hover : forall value s1, in_s 64 value -> sim n s1 A [(j, k)] -> wp (dbOverwrite e j k (new_object e (StrInt value))) s1 (fun s' _ => exists K, sim n s' (a_put A j k (Some (AStr (dec value), t))) K)) by (intros value s1 Hval Hs1; wp_use (dbOverwrite_sim e n); by eexists).
    destruct x as [y|b bs]; [|by apply (Hgo old (fun value => dbOverwrite e j k (new_object e (StrInt value))) t); [by apply (arg_range _ _ Eo)|]].
    apply (Hgo old (fun value => if private o && ((value <? 0) || (value >=? 10000)) then set_in_place j k (StrInt value) else dbOverwrite e j k (new_object e (StrInt value))) t); [by apply (arg_range _ _ Eo)|]. intros value s1 Hval Hs1. destruct (private o && _); [|by apply Hover]. wp_use set_in_place_sim. by eexists.
  - apply found_none in Hf as Hg. rewrite Hg. cbn [getLongLongFromObject mbind option_bind]. apply (Hgo 0 (fun value => dbAdd j k (new_object e (StrInt value))) None); [done|]. intros value s1 Hval Hs1. wp_use (dbAdd_sim n); [set_solver|]. by eexists.
Qed.
Lemma append_refines c k v : masterhost e = false -> zlen v <= MAX_STRING -> refines n (appendCommand e private c k v) (fun A => spec_append A (a_db A c) k v).
Proof.
  intros Hm Hv s A Hs. unfold appendCommand, spec_append. wp_use sim_current. destruct H as (-> & -> & Hj). wp_use write_sim. destruct H as [H Hf]. cbv zeta. destruct a as [o|].
  - apply found_some in Hf as (t & Hg & Ho). rewrite Hg. destruct (o_val o) as [x|]; cbn [a_value]; [|by eapply done_sim]. destruct (bytes_len x Ho) as [Hl El]. rewrite El. pose proof (zlen_nonneg v). pose proof (zlen_nonneg (obj_bytes x)). destruct (check_length (zlen (obj_bytes x) + zlen v) ltac:(unfold MAX_STRING, LLONG_MAX in *; lia)) as [-> ->]. rewrite negb_involutive. destruct (_ >? MAX_STRING) eqn:Eg; [by eapply done_sim|].
    wp_use unshare_sim. destruct H2 as [H2 ->]. wp_use set_in_place_sim; [cbn [val_ok]; rewrite zlen_app; unfold MAX_STRING in *; lia|]. rewrite <- zlen_app. by eapply a_set_sim.
  - apply found_none in Hf as Hg. rewrite Hg. wp_use (dbAdd_sim n); [set_solver|by apply encoded_ok|]. cbn [new_object o_val a_value] in H0. rewrite encoded_bytes in H0. rewrite (proj2 (bytes_len (encoded v) (encoded_ok v Hv))), encoded_bytes. by eapply a_set_sim.
Qed.
End Strings.

(** ** Sequences of commands *)
Inductive cmd :=
| DEL (keys : list (list Z)) | UNLINK (keys : list (list Z)) | EXISTS (keys : list (list Z)) | TOUCH (keys : list (list Z)) | KEYS (pattern : list Z) | TYPE (k : list Z)
| RENAME (src dst : list Z) | RENAMENX (src dst : list Z) | SELECT (i : list Z) | MOVE (k i : list Z) | FLUSHDB (args : list (list Z)) | FLUSHALL (args : list (list Z)) | SWAPDB (i j : list Z)
| EXPIRE (k n : list Z) | EXPIREAT (k n : list Z) | PEXPIRE (k n : list Z) | PEXPIREAT (k n : list Z) | TTL (k : list Z) | PTTL (k : list Z) | PERSIST (k : list Z)
| SET (k v : list Z) (options : list (list Z)) | SETNX (k v : list Z) | SETEX (k n v : list Z) | PSETEX (k n v : list Z) | GET (k : list Z) | GETSET (k v : list Z) | GETRANGE (k i j : list Z) | MGET (keys : list (list Z)) | STRLEN (k : list Z)
| SETRANGE (k i v : list Z) | MSET (args : list (list Z)) | MSETNX (args : list (list Z)) | INCR (k : list Z) | DECR (k : list Z) | INCRBY (k n : list Z) | DECRBY (k n : list Z) | APPEND (k v : list Z).
(** The command of client [c]. *)
Definition exec (e : env) (private : robj -> bool) (c : Z) (x : cmd) : M reply :=
  match x with
  | DEL keys => delCommand e c keys
  | UNLINK keys => unlinkCommand e c keys
  | EXISTS keys => existsCommand e c keys
  | TOUCH keys => touchCommand e c keys
  | KEYS p => keysCommand e c p
  | TYPE k => typeCommand e c k
  | RENAME s d => renameGenericCommand e c s d false
  | RENAMENX s d => renameGenericCommand e c s d true
  | SELECT i => selectCommand c i
  | MOVE k i => moveCommand e c k i
  | FLUSHDB a => flushdbCommand c a
  | FLUSHALL a => flushallCommand a
  | SWAPDB i j => swapdbCommand e i j
  | EXPIRE k n => expireCommand e c k n
  | EXPIREAT k n => expireatCommand e c k n
  | PEXPIRE k n => pexpireCommand e c k n
  | PEXPIREAT k n => pexpireatCommand e c k n
  | TTL k => ttlCommand e c k
  | PTTL k => pttlCommand e c k
  | PERSIST k => persistCommand e c k
  | SET k v o => setCommand e c k v o
  | SETNX k v => setnxCommand e c k v
  | SETEX k n v => setexCommand e c k n v
  | PSETEX k n v => psetexCommand e c k n v
  | GET k => getCommand e c k
  | GETSET k v => getsetCommand e c k v
  | GETRANGE k i j => getrangeCommand e c k i j
  | MGET keys => mgetCommand e c keys
  | STRLEN k => strlenCommand e c k
  | SETRANGE k i v => setrangeCommand e private c k i v
  | MSET a => msetGenericCommand e c a false
  | MSETNX a => msetGenericCommand e c a true
  | INCR k => incrCommand e private c k
  | DECR k => decrCommand e private c k
  | INCRBY k n => incrbyCommand e private c k n
  | DECRBY k n => decrbyCommand e private c k n
  | APPEND k v => appendCommand e private c k v
  end.
(** Its meaning; [t0] and [t1] are an earlier and a later time of the clock. *)
Definition spec (t0 t1 c : Z) (x : cmd) (A : abs) : abs * reply :=
  let j := a_db A c in
  match x with
  | DEL keys | UNLINK keys => spec_del A j keys 0
  | EXISTS keys | TOUCH keys => spec_exists A j keys
  | KEYS p => spec_keys A j p
  | TYPE k => spec_type A j k
  | RENAME s d => spec_rename A j s d false
  | RENAMENX s d => spec_rename A j s d true
  | SELECT i => spec_select A c i
  | MOVE k i => spec_move A c k i
  | FLUSHDB a => spec_flushdb A j a
  | FLUSHALL a => spec_flushall A a
  | SWAPDB i i' => spec_swapdb A i i'
  | EXPIRE k n => spec_expire A j k n t0 1000 t1
  | EXPIREAT k n => spec_expire A j k n 0 1000 t1
  | PEXPIRE k n => spec_expire A j k n t0 1 t1
  | PEXPIREAT k n => spec_expire A j k n 0 1 t1
  | TTL k => spec_ttl A j k t1 false
  | PTTL k => spec_ttl A j k t1 true
  | PERSIST k => spec_persist A j k
  | SET k v o => match set_options o OBJ_SET_NO_FLAGS None true with
                 | None => (A, syntax_error)
                 | Some (flags, ex, seconds) => spec_set t1 A j flags k v ex (if seconds then 1000 else 1) (text "set") ReplyOk ReplyNull
                 end
  | SETNX k v => spec_set t1 A j OBJ_SET_NX k v None 1000 (text "setnx") (ReplyInt 1) (ReplyInt 0)
  | SETEX k n v => spec_set t1 A j OBJ_SET_NO_FLAGS k v (Some n) 1000 (text "setex") ReplyOk ReplyNull
  | PSETEX k n v => spec_set t1 A j OBJ_SET_NO_FLAGS k v (Some n) 1 (text "psetex") ReplyOk ReplyNull
  | GET k => (A, spec_get A j k)
  | GETSET k v => spec_getset A j k v
  | GETRANGE k i i' => spec_getrange A j k i i'
  | MGET keys => spec_mget A j keys
  | STRLEN k => spec_strlen A j k
  | SETRANGE k i v => spec_setrange A j k i v
  | MSET a => spec_mset A j a false
  | MSETNX a => spec_mset A j a true
  | INCR k => spec_incr A j k 1
  | DECR k => spec_incr A j k (-1)
  | INCRBY k n => match string2ll n with None => (A, not_integer) | Some n => spec_incr A j k n end
  | DECRBY k n => match string2ll n with None => (A, not_integer) | Some n => spec_incr A j k (- n) end
  | APPEND k v => spec_append A j k v
  end.
(** The commands that change nothing. *)
Definition reads (x : cmd) : bool :=
  match x with EXISTS _ | TOUCH _ | KEYS _ | TYPE _ | TTL _ | PTTL _ | GET _ | GETRANGE _ _ _ | MGET _ | STRLEN _ => true | _ => false end.
(** Arguments the code handles: values have at most 512 MB; no time, offset or
    decrement overflows; the index of SELECT is an int. *)
Definition cmd_fits (e : env) (x : cmd) : Prop :=
  match x with
  | SELECT i => forall z, string2ll i = Some z -> in_s 32 z
  | EXPIRE k n => time_fits n (mstime0 e) 1000
  | EXPIREAT k n => time_fits n 0 1000
  | PEXPIRE k n => time_fits n (mstime0 e) 1
  | PEXPIREAT k n => time_fits n 0 1
  | SET k v o => zlen v <= MAX_STRING /\ forall flags ex (seconds : bool), set_options o OBJ_SET_NO_FLAGS None true = Some (flags, ex, seconds) -> set_fits e ex (if seconds then 1000 else 1)
  | SETNX k v | GETSET k v | APPEND k v => zlen v <= MAX_STRING
  | SETEX k n v => zlen v <= MAX_STRING /\ set_fits e (Some n) 1000
  | PSETEX k n v => zlen v <= MAX_STRING /\ set_fits e (Some n) 1
  | SETRANGE k i v => forall z, string2ll i = Some z -> z + zlen v <= LLONG_MAX
  | MSET a | MSETNX a => Forall (fun v => zlen v <= MAX_STRING) a
  | DECRBY k n => string2ll n <> Some LLONG_MIN
  | _ => True
  end.
Lemma refines_ext n m f g : refines n m f -> (forall A, f A = g A) -> refines n m g.
Proof. intros Hr E s A Hs. rewrite <- E. by apply Hr. Qed.
Lemma string_exec_refines e private c x : env_ok e -> masterhost e = false \/ readonly_command e = true /\ reads x = true -> cmd_fits e x -> refines (expire_now e) (exec e private c x) (spec (mstime0 e) (mstime1 e) c x).
Proof.
  intros Hok Hm Hx. assert (Hread : can_read e) by (destruct Hm as [|[? _]]; [by left|by right]). assert (Hmaster : reads x = false -> masterhost e = false) by (intros E; destruct Hm as [|[_ ?]]; [done|congruence]).
  unfold spec; destruct x; cbn [exec cmd_fits reads] in *; cbv zeta; try specialize (Hmaster eq_refl).
  - by apply del_refines.
  - by apply del_refines.
  - by apply exists_refines.
  - by apply touch_refines.
  - by apply keys_refines.
  - by apply type_refines.
  - by apply rename_refines.
  - by apply rename_refines.
  - by apply select_refines.
  - by apply move_refines.
  - by apply (flushdb_refines e).
  - by apply (flushall_refines e).
  - by apply swapdb_refines.
  - by apply expire_refines.
  - by apply expire_refines.
  - by apply expire_refines.
  - by apply expire_refines.
  - by apply ttl_refines.
  - by apply ttl_refines.
  - by apply persist_refines.
  - destruct Hx as [Hv Hf]. unfold setCommand. destruct (set_options options OBJ_SET_NO_FLAGS None true) as [[[flags ex] seconds]|]; [|intros s A Hs; apply wp_ret; by split]. eapply refines_ext; [apply set_refines; try done; [by apply encoded_ok|by apply (Hf flags)]|]. intros A. cbv beta. by rewrite encoded_bytes.
  - eapply refines_ext; [apply (set_refines e (expire_now e)); try done; first [by apply encoded_ok|by intros ? ?]|]. intros A. cbv beta. by rewrite encoded_bytes.
  - destruct Hx as [Hv Hf]. eapply refines_ext; [apply (set_refines e (expire_now e)); try done; by apply encoded_ok|]. intros A. cbv beta. by rewrite encoded_bytes.
  - destruct Hx as [Hv Hf]. eapply refines_ext; [apply (set_refines e (expire_now e)); try done; by apply encoded_ok|]. intros A. cbv beta. by rewrite encoded_bytes.
  - by apply get_refines.
  - by apply getset_refines.
  - by apply getrange_refines.
  - by apply mget_refines.
  - by apply strlen_refines.
  - by apply setrange_refines.
  - by apply mset_refines.
  - by apply mset_refines.
  - by apply incr_refines.
  - by apply incr_refines.
  - unfold incrbyCommand. destruct (string2ll n) as [z|] eqn:E; [|intros s A Hs; apply wp_ret; by split]. apply incr_refines; try done. by apply (arg_range _ _ E).
  - unfold decrbyCommand. destruct (string2ll n) as [z|] eqn:E; [|intros s A Hs; apply wp_ret; by split]. pose proof (arg_range _ _ E) as Hr. assert (Hz : in_s 64 (- z)) by (assert (z <> LLONG_MIN) by congruence; unfold in_s, LLONG_MIN in *; lia). intros s A Hs. apply wp_bind, checked_sim; [done|]. by apply (incr_refines e (expire_now e)).
  - by apply append_refines.
Qed.

(** A command, or a round of active expiration that samples these keys. *)
Inductive event := ECmd (e : env) (private : robj -> bool) (c : Z) (x : cmd) | ECycle (e : env) (samples : list (Z * list Z)) (now : Z).
Definition event_time (ev : event) : Z := match ev with ECmd e _ _ _ => expire_now e | ECycle _ _ now => now end.
Definition event_ok (dbnum : Z) (ev : event) : Prop :=
  match ev with
  | ECmd e _ _ x => env_ok e /\ (masterhost e = false \/ readonly_command e = true /\ reads x = true) /\ cmd_fits e x
  | ECycle _ samples _ => Forall (fun x => 0 <= x.1 < dbnum) samples
  end.
(** Time does not go backwards. *)
Fixpoint events_ok (n dbnum : Z) (evs : list event) : Prop :=
  match evs with [] => True | ev :: evs => n <= event_time ev /\ event_ok dbnum ev /\ events_ok (event_time ev) dbnum evs end.
Fixpoint end_time (n : Z) (evs : list event) : Z := match evs with [] => n | ev :: evs => end_time (event_time ev) evs end.
Fixpoint run (s : server) (evs : list event) : option (server * list reply) :=
  match evs with
  | [] => Some (s, [])
  | ECmd e private c x :: evs => '(s, r) ← exec e private c x s; '(s, rs) ← run s evs; Some (s, r :: rs)
  | ECycle e samples now :: evs => '(s, _) ← expire_samples e samples now s; run s evs
  end.
Fixpoint spec_run (A : abs) (evs : list event) : abs * list reply :=
  match evs with
  | [] => (A, [])
  | ECmd e private c x :: evs =>
      let '(A, r) := spec (mstime0 e) (mstime1 e) c x (tick (expire_now e) A) in
      let '(A, rs) := spec_run A evs in (A, r :: rs)
  | ECycle e samples now :: evs => spec_run (tick now A) evs
  end.
(** The number of databases does not change. *)
Lemma del_range j keys : forall A num, zlen (a_dbs (spec_del A j keys num).1) = zlen (a_dbs A).
Proof. induction keys as [|k keys IH]; intros A num; [done|]. cbn [spec_del]. case_match; rewrite IH; [apply put_range|done]. Qed.
Lemma mset_range j l : forall A, zlen (a_dbs (foldl (fun A x => a_set A j x.1 x.2 None) A l)) = zlen (a_dbs A).
Proof. induction l as [|x l IH]; intros A; [done|]. cbn [foldl]. rewrite IH. apply set_range. Qed.
Lemma move_range A j s i d x : zlen (a_dbs (a_move A j s i d x)) = zlen (a_dbs A).
Proof. unfold a_move. cbn [a_signal a_dbs]. by rewrite !put_range. Qed.
Lemma spec_range_eq t0 t1 c x A : zlen (a_dbs (spec t0 t1 c x A).1) = zlen (a_dbs A).
Proof.
  destruct x; cbn [spec]; try done; try apply del_range;
    unfold spec_rename, spec_select, spec_move, spec_flushdb, spec_flushall, spec_swapdb, a_swap, spec_expire, spec_persist, spec_set, spec_getset, spec_setrange, spec_mset, spec_incr, spec_append; cbv zeta;
    repeat case_match; cbn [fst a_dbs a_select a_signal]; rewrite ?set_range, ?put_range, ?move_range, ?mset_range; try done; unfold zlen; by rewrite ?length_alter, ?length_fmap, ?length_insert.
Qed.

(** ** Signals *)
(** A key, or its database, is signalled. *)
Definition signalled (l : list effect) (j : Z) (k : list Z) : Prop := Modified j k ∈ l \/ FlushedDb j ∈ l \/ FlushedDb (-1) ∈ l.
Record covered (A A' : abs) : Prop := {
  cv_mono x : x ∈ a_signals A -> x ∈ a_signals A';
  cv_keys j k : 0 <= j -> a_get A' j k = a_get A j k \/ signalled (a_signals A') j k
}.
Lemma covered_refl A : covered A A.
Proof. split; [done|]. intros j k _. by left. Qed.
Lemma covered_trans A B C : covered A B -> covered B C -> covered A C.
Proof.
  intros [M1 K1] [M2 K2]. split; [auto|]. intros j k Hj. destruct (K2 j k Hj) as [E|]; [|by right]. rewrite E. destruct (K1 j k Hj) as [|Hs]; [by left|right]. unfold signalled in *. destruct Hs as [?|[?|?]]; auto.
Qed.
Lemma covered_put A j k x : 0 <= j -> covered A (a_signal (a_put A j k x) (Modified j k)).
Proof.
  intros Hj. split; [by right|]. intros i k' Hi. rewrite get_signal. destruct (decide ((j, k) = (i, k'))) as [[= -> ->]|Hne]; [right; left; by left|left]. by apply a_get_put_ne.
Qed.
Lemma covered_set A j k v t : 0 <= j -> covered A (a_set A j k v t).
Proof. apply covered_put. Qed.
Lemma covered_move A j s i d x : 0 <= j -> 0 <= i -> covered A (a_move A j s i d x).
Proof.
  intros Hj Hi. split; [by do 2 right|]. intros l k Hl. unfold a_move. rewrite !get_signal. destruct (decide ((j, s) = (l, k))) as [[= -> ->]|H1]; [right; left; right; by left|]. destruct (decide ((i, d) = (l, k))) as [[= -> ->]|H2]; [right; left; by left|]. left. by rewrite !a_get_put_ne.
Qed.
Lemma covered_select A c j : covered A (a_select A c j).
Proof. split; [done|]. intros i k _. by left. Qed.
Lemma covered_del j keys : 0 <= j -> forall A num, covered A (spec_del A j keys num).1.
Proof. intros Hj. induction keys as [|k keys IH]; intros A num; [apply covered_refl|]. cbn [spec_del]. case_match; [|apply IH]. eapply covered_trans; [by apply covered_put|apply IH]. Qed.
Lemma covered_mset j l : 0 <= j -> forall A, covered A (foldl (fun A x => a_set A j x.1 x.2 None) A l).
Proof. intros Hj. induction l as [|x l IH]; intros A; [apply covered_refl|]. cbn [foldl]. eapply covered_trans; [by apply covered_set|apply IH]. Qed.
Lemma covered_flushdb A j : 0 <= j -> covered A (mk_abs (alter (fun _ => ∅) (Z.to_nat j) (a_dbs A)) (a_sel A) (FlushedDb j :: a_signals A)).
Proof.
  intros Hj. split; [by right|]. intros i k Hi. destruct (decide (i = j)) as [->|Hne]; [right; right; left; by left|left]. unfold a_get. cbn [a_dbs]. by rewrite list_lookup_alter_ne by lia.
Qed.
Lemma covered_flushall A : covered A (mk_abs ((fun _ => ∅) <$> a_dbs A) (a_sel A) (FlushedDb (-1) :: a_signals A)).
Proof. split; [by right|]. intros i k Hi. do 3 right. by left. Qed.
(** The commands that signal what they change. *)
Definition signals (x : cmd) : bool := match x with PERSIST _ | SWAPDB _ _ => false | _ => true end.
Lemma spec_covered t0 t1 c x A : 0 <= a_db A c -> signals x = true -> covered A (spec t0 t1 c x A).1.
Proof.
  intros Hj Hx. pose proof (covered_refl A). pose proof (covered_put A (a_db A c)). pose proof (covered_set A (a_db A c)). pose proof (covered_select A c). destruct x; cbn [spec signals] in *; try done; try (by apply covered_del);
    unfold spec_rename, spec_select, spec_flushdb, spec_flushall, spec_expire, spec_set, spec_getset, spec_setrange, spec_mset, spec_incr, spec_append; cbv zeta; try (by repeat case_match; cbn [fst]; auto using covered_move, covered_flushdb, covered_flushall, covered_mset).
  unfold spec_move. destruct (string2ll i) as [d|]; [|done]. destruct (is_db A d) eqn:Ed; cbn [negb]; [|done]. cbv zeta. assert (0 <= d) by (unfold is_db in Ed; lia). repeat case_match; cbn [fst]; auto. eapply covered_trans; [apply covered_select|by apply covered_move].
Qed.

(** C21: Strings that expire: from a server that holds a map of keys to strings
    and values of other types with their times, every sequence of string
    commands, commands on keys and databases and commands on expire times, at
    times that do not go backwards, with active expiration of any keys in
    between, succeeds and replies as the same commands on a map from which keys
    disappear at their times, whatever the encodings, the sharing of objects,
    the lazy deletion and the eviction policy; keys whose time has passed are
    never seen, although they may still be in memory.  The server is a master,
    or a replica that executes read-only commands.  Values have at most 512 MB
    and no time, offset or decrement overflows. *)
Theorem string_commands_refine (evs : list event) : forall (n : Z) (s : server) (A : abs),
  sim n s A [] -> events_ok n (zlen (a_dbs A)) evs ->
  exists s', run s evs = Some (s', (spec_run A evs).2) /\ sim (end_time n evs) s' (spec_run A evs).1 [].
Proof.
  induction evs as [|ev evs IH]; intros n s A Hs Hok; [by exists s|]. destruct Hok as (Ht & He & Hok). pose proof (tick_sim n (event_time ev) s A Hs Ht) as Hs1. assert (Hlen : zlen (a_dbs (tick (event_time ev) A)) = zlen (a_dbs A)) by (unfold zlen; cbn; by rewrite length_fmap). cbn [end_time].
  destruct ev as [e private c x|e samples now]; cbn [run spec_run event_time event_ok] in *.
  - destruct He as (Henv & Hm & Hx). destruct (wp_some _ _ _ (string_exec_refines e private c x Henv Hm Hx s _ Hs1)) as (s1 & r & E & Hs2 & Er). rewrite E. cbn [mbind option_bind]. pose proof (spec_range_eq (mstime0 e) (mstime1 e) c x (tick (expire_now e) A)) as Hl. destruct (spec _ _ _ _ _) as [A1 r1]. cbn [fst snd] in *. subst r1. rewrite <- Hlen, <- Hl in Hok.
    destruct (IH _ s1 A1 Hs2 Hok) as (s2 & E2 & Hs3). exists s2. rewrite E2. cbn [mbind option_bind]. by destruct (spec_run A1 evs).
  - destruct (wp_some _ _ _ (samples_sim e now samples s _ Hs1 ltac:(by rewrite Hlen))) as (s1 & u & E & Hs2). rewrite E. cbn [mbind option_bind]. rewrite <- Hlen in Hok. by apply (IH now).
Qed.
(** C38: Every change of a key is signalled to the clients that watch it: each
    key whose value or expire time a command changes, in any database, is
    signalled as modified, or its database as flushed.  The commands are those
    of the previous theorem, on a master, except PERSIST and SWAPDB, which
    signal nothing. *)
Theorem key_changes_signalled (e : env) (private : robj -> bool) (c : Z) (x : cmd) (s : server) (A : abs) :
  sim (expire_now e) s A [] -> effects s = [] -> env_ok e -> masterhost e = false -> cmd_fits e x -> signals x = true ->
  exists s' r, exec e private c x s = Some (s', r) /\ sim (expire_now e) s' (spec (mstime0 e) (mstime1 e) c x A).1 [] /\
    forall j k, 0 <= j -> a_get (spec (mstime0 e) (mstime1 e) c x A).1 j k <> a_get A j k -> signalled (effects s') j k.
Proof.
  intros Hs Heff Hok Hm Hx Hsig. destruct (wp_some _ _ _ (string_exec_refines e private c x Hok (or_introl Hm) Hx s A Hs)) as (s' & r & E & Hs' & _). exists s', r. split; [done|]. split; [done|]. intros j k Hj Hne.
  assert (Hdb : 0 <= a_db A c) by (destruct (wp_some _ _ _ (sim_current _ s A [] c Hs)) as (? & ? & ? & -> & -> & ?); lia).
  destruct (cv_keys _ _ (spec_covered (mstime0 e) (mstime1 e) c x A Hdb Hsig) j k Hj) as [|Hg]; [done|]. pose proof (sim_signals _ _ _ _ Hs') as Hin. unfold signalled in *. destruct Hg as [?|[?|?]]; auto.
Qed.

(** ** Examples *)
Definition empty_server (dbnum : nat) : server := mk_server (replicate dbnum (mk_db ∅ ∅ [])) ∅ 0 [] ∅ 0 0 0.
Definition empty_abs (dbnum : nat) : abs := mk_abs (replicate dbnum ∅) ∅ [].
Lemma empty_server_sim n dbnum : (0 < dbnum)%nat -> Z.of_nat dbnum < 2147483648 -> sim n (empty_server dbnum) (empty_abs dbnum) [].
Proof.
  intros H1 H2. split; cbn [empty_server empty_abs dbs a_dbs selected a_sel a_signals]; try done; [|unfold zlen; rewrite length_replicate; lia|set_solver..]. apply Forall2_replicate. apply ks_empty_ok.
Qed.
Definition master_at (t : Z) : env := mk_env false false false false false None None t t false (fun x => x) false 0 false false false.
Definition replica_at (t : Z) : env := mk_env true false true false false None None t t false (fun x => x) false 0 false false false.
Definition string_session : list event :=
  let p := fun _ : robj => true in
  [ECmd (master_at 1000) p 1 (SET (text "k") (text "9") [text "px"; text "500"; text "NX"]); ECmd (master_at 1400) p 1 (INCR (text "k")); ECmd (master_at 1400) p 2 (APPEND (text "k") (text "x"));
   ECmd (master_at 1500) p 1 (GETRANGE (text "k") (text "-2") (text "-1")); ECmd (replica_at 1501) p 2 (GET (text "k")); ECmd (replica_at 1501) p 2 (TTL (text "k")); ECycle (master_at 1502) [(0, text "k")] 1502;
   ECmd (master_at 1600) p 2 (SETRANGE (text "k") (text "2") (text "ab")); ECmd (master_at 1600) p 2 (RENAME (text "k") (text "m")); ECmd (master_at 1600) p 1 (MOVE (text "m") (text "1")); ECmd (master_at 1700) p 1 (SELECT (text "1")); ECmd (master_at 1700) p 1 (STRLEN (text "m"))].
Lemma string_session_ok : events_ok 0 2 string_session.
Proof.
  assert (Hm : forall t, 500 <= t <= 2000 -> env_ok (master_at t) /\ env_ok (replica_at t)) by (intros t Ht; split; split; cbn; unfold LLONG_MAX; lia).
  cbn [string_session events_ok event_time event_ok reads cmd_fits]. repeat match goal with |- _ /\ _ => split end; try done; try (by left); try (by right); try (by apply Hm; lia); try (cbn; lia).
  - intros fl ex sec [= <- <- <-]. intros x ms [= <-] Hx _. assert (ms = 500) as -> by (vm_compute in Hx; by injection Hx as <-). unfold in_s. cbn. lia.
  - intros z Hz. vm_compute in Hz. injection Hz as <-. unfold LLONG_MAX. vm_compute. discriminate.
  - intros z Hz. vm_compute in Hz. injection Hz as <-. unfold in_s. lia.
Qed.
Lemma string_commands_refine_witness : exists s', run (empty_server 2) string_session = Some (s', (spec_run (empty_abs 2) string_session).2) /\
  sim 1700 s' (spec_run (empty_abs 2) string_session).1 [] /\
  (spec_run (empty_abs 2) string_session).2 = [ReplyOk; ReplyInt 10; ReplyInt 3; ReplyBulk (text "0x"); ReplyNull; ReplyInt (-2); ReplyInt 4; ReplyOk; ReplyInt 1; ReplyOk; ReplyInt 4].
Proof.
  destruct (string_commands_refine string_session 0 (empty_server 2) (empty_abs 2)) as (s' & E & Hs); [apply empty_server_sim; lia|exact string_session_ok|]. exists s'. split; [exact E|]. split; [exact Hs|]. vm_compute. reflexivity.
Defined.
Lemma key_changes_signalled_witness : exists s' r, exec (master_at 1000) (fun _ => true) 1 (SET (text "k") (text "v") []) (empty_server 2) = Some (s', r) /\ signalled (effects s') 0 (text "k").
Proof.
  destruct (key_changes_signalled (master_at 1000) (fun _ => true) 1 (SET (text "k") (text "v") []) (empty_server 2) (empty_abs 2)) as (s' & r & E & _ & Hs); try done.
  - apply empty_server_sim; lia.
  - split; [vm_compute; discriminate|]. intros fl ex sec [= <- <- <-]. intros x ms [=].
  - exists s', r. split; [exact E|]. apply Hs; [lia|]. vm_compute. discriminate.
Defined.
(** The length of the result of SETRANGE is computed without a check for
    overflow, so that the limit of 512 MB lets an offset near 2^63 pass. *)
Example setrange_overflow : exec (master_at 1000) (fun _ => true) 1 (SETRANGE (text "k") (text "9223372036854775807") (text "x")) (empty_server 1) = None.
Proof. vm_compute. reflexivity. Qed.
(** SELECT converts the index to an int. *)
Example select_truncates : exists s, exec (master_at 1000) (fun _ => true) 1 (SELECT (text "4294967297")) (empty_server 2) = Some (s, ReplyOk) /\ selected s !! 1 = Some 1.
Proof. eexists. split; [vm_compute; reflexivity|vm_compute; reflexivity]. Qed.
(** PERSIST changes a key that a client watches without a signal. *)
Example persist_unsignalled : exists s s', run (empty_server 1) [ECmd (master_at 1000) (fun _ => true) 1 (SET (text "k") (text "v") [text "px"; text "500"])] = Some (s, [ReplyOk]) /\
  exec (master_at 1100) (fun _ => true) 2 (PERSIST (text "k")) s = Some (s', ReplyInt 1) /\ effects s' = Event (text "persist") (text "k") 0 :: effects s.
Proof. eexists _, _. split; [vm_compute; reflexivity|]. split; vm_compute; reflexivity. Qed.
